(* ===== verification/_CoqProject ===== *)
-Q . S2P
Prelude.v
Ebitmap.v
PolicyFile.v
Hashtab.v
MlsTypes.v
Sidtab.v
Avtab.v
Policydb.v
Mls.v
Context.v
Conditional.v
Services.v
Expand.v
Util.v
Assertion.v
PolicyIO.v
SymbolIO.v
SymbolSafety.v
Ocontext.v
ObjectSids.v
ModuleIO.v
PolicyIndex.v
PolicyHeader.v
CondIO.v
PolicydbIO.v
Hierarchy.v
ExpandRules.v
ExpandEffects.v
ExpandCond.v
ExpandBlocks.v
ExpandConds.v
ExpandFacts.v
ExpandModule.v
ExpandTunables.v
ExpandCases.v
Mapping.v
Stringrep.v
ComputeAv.v
AvcSidtab.v
Avc.v
AvcFacts.v
AvcSafety.v
