(* ===== verification/Prelude.v ===== *)
(** * A verification development for the SELinux userspace

    The repository contains the userspace of SELinux: [libsepol], which holds
    policies in memory, reads and writes their binary form and answers the
    questions of the security server; [libselinux], which object managers link
    to ask the kernel for decisions and to cache them; and compilers, stores
    and tools around them.  This development models the core of the two
    libraries in C as Rocq functions and proves what makes it correct.

    ** How C is modelled

    A function that may allocate, dereference or index is a computation in the
    monad [M] of this file: it consumes an oracle with the answers of the
    allocator and ends in a value or in [UB], undefined behaviour (a NULL
    dereference, an access outside an array, an impossible shift).  [wp] is its
    weakest precondition; a theorem about [wp] says in particular that the
    code is defined and ends.  The empty oracle is an allocator that never
    fails.  Machine integers are [N] or [Z] with their wrap-around written out
    ([u16], [u32], [u64], [dec32], [lnot32]); linked lists are lists, and where
    the code keeps pointers into a structure (the userspace cache) the
    structure is a memory from addresses to nodes.  Loops are structural, or
    have the bound of the code as fuel; running out of fuel is [UB], so that a
    [wp] theorem shows that it suffices.

    ** libsepol

    - [Ebitmap] (ebitmap.c, ebitmap.h): sets of small numbers as sorted lists
      of 64-bit words.
    - [PolicyFile] (services.c next_entry, put_entry, ebitmap.c ebitmap_read,
      write.c ebitmap_write): policy files and the binary form of bitmaps.
    - [Hashtab] (hashtab.c, symtab.c): hash tables and symbol tables.
    - [MlsTypes] (mls_types.h, context.h): levels, ranges, contexts.
    - [Sidtab] (sidtab.c): security identifiers.
    - [Avtab] (avtab.c, write.c avtab_write_item): the access vector table.
    - [Policydb] (policydb.h, constraint.h): the structures of a policy.
    - [Mls] (mls.c): validity, text and computation of MLS ranges.
    - [Context] (context.c, context_record.c): validity and text of contexts.
    - [Conditional] (conditional.c): Boolean expressions and conditional rules.
    - [Services] (services.c): access decisions, constraints, transitions, the
      labels of new objects.
    - [Expand] (expand.c): type and role sets, semantic levels, the maps
      between types and attributes.
    - [ExpandRules] (expand.c [find_avtab_node] to [cond_avrule_list_copy],
      [expand_rule]): one rule of a module, written to a table of the new
      policy.  [ExpandEffects] says what a rule adds, with the interface
      [Expands] of a table and its instance for the unconditional rules;
      [ExpandCond] has the instance for the two lists of a conditional block.
    - [ExpandBlocks] (expand.c [copy_role_allows] to [expand_range_trans],
      [copy_neverallow], [cond_node_copy], [copy_and_expand_avrule_block],
      [discard_tunables]): whole declarations.  [ExpandConds] is about the
      conditional blocks, [ExpandFacts] about the rules kept in lists,
      [ExpandModule] about a module as a whole and [ExpandTunables] about
      tunables; [ExpandCases] runs corner cases.
    - [Assertion] (assertion.c), [Util] (util.c): neverallow rules.
    - [Hierarchy] (hierarchy.c): the bounds of types, roles and users.
    - [ObjectSids] (services.c): the SIDs of ports, nodes, interfaces and
      files from the object contexts of a policy.

    ** Policy files (policydb.c, write.c, conditional.c)

    - [PolicyIO]: words, strings, levels, sets, contexts, transitions; the
      interfaces [Codec] and [SymCodec] between a reader and its writer.
    - [SymbolIO]: the symbol tables, with [SymbolSafety], what their readers
      do on arbitrary bytes.
    - [Ocontext]: object contexts and file system entries.
    - [ModuleIO]: the rules, declarations and scopes of modules.
    - [PolicyIndex]: the arrays and caches that are computed after reading.
    - [PolicyHeader]: header and formats; the maps of attributes.
    - [CondIO]: conditional rules.
    - [PolicydbIO]: [policydb_read] and [policydb_write], put together.

    ** libselinux

    - [Mapping] (mapping.c): class and permission numbers of object managers.
    - [Stringrep] (stringrep.c): names of classes and permissions.
    - [ComputeAv] (compute_av.c, compute_create.c, compute_member.c,
      getenforce.c): queries to the kernel, which is a parameter.
    - [AvcSidtab] (avc_sidtab.c): the SIDs of the userspace cache.
    - [Avc] (avc.c, avc_internal.c): the userspace cache; [AvcFacts] is its
      invariant and [AvcSafety] what it guarantees.

    ** What is proved

    - Data structures implement their specification: bitmaps are finite sets,
      hash tables and SID tables finite maps, the rule table an ordered list
      of rules; every operation keeps the invariant on every path, out of
      memory included.
    - Round trips: bitmaps and rule tables through files, MLS ranges and
      contexts through text, permissions through the mapping, names and
      numbers of classes, object names through their encoding.
    - Evaluation: conditional expressions and constraints (the [condition]s of
      [Services]) in reverse polish form have the value of what they encode; conditional blocks
      are on or off accordingly.
    - The security server: a permission is granted exactly when the rules, the
      constraints and the role rules allow it; new objects get the label that
      the policy asks for, where it does not use the defaults of classes and
      the classes of role transitions, which the code ignores.
    - Expansion of modules: when the expansion of the enabled declarations
      succeeds, the new policy allows and audits exactly what their rules mean
      for the types their sets stand for, has exactly the role rules and
      transitions they mean with one rule for a key, and its conditional
      blocks are on or off as their expressions say; it fails only when memory
      is short or rules contradict each other.  Tunables are decided before.
    - Expansion and assertions: the types of a set are those its members,
      attributes and exclusions give, both attribute maps hold what the symbol
      table says, and what a neverallow rule forbids is never granted by a
      policy that passes the check with its conditional rules off (neverallowxperm
      rules and targets next to [self] apart).
    - Bounds: the check accepts exactly the policies without orphans that keep
      all bounds, and then a bounded type is allowed no more than the type that
      bounds it, whatever the Booleans are, as long as the conditional rules
      about that type are [allow] rules.
    - Policy files: every part that is written is read back, less what the
      version has no room for; a whole kernel policy (of a version from 24 on,
      read into the policy [policydb_init] makes) comes back loaded, its arrays
      and caches computed anew, with the same rules and the same valid
      contexts.  On arbitrary bytes the readers of symbols end in a value or an
      error, in the cases listed in [SymbolSafety], and indexing establishes
      the invariants the security server relies on.
    - The cache: [AvcFacts.EntryPromise] is the interface between the cache and
      what is claimed of its entries; it is instantiated for agreement with
      the kernel ([AvcSafety.SecurityServer] is what the kernel promises) and
      for freshness after a policy load.  The theorems quantify over all
      sequences of operations ([AvcSafety.avc_step]).
    - Errors: several functions are undefined or wrong on particular inputs;
      theorems state these as the code behaves, and their names end in what
      happens ([_undefined], [_overrun], [_grants]).

    ** Parameters

    Code outside of the repository appears as arguments: the allocator (the
    oracle, and [new_addr] where addresses matter), the kernel ([kernel],
    [selinuxfs], netlink packets), and the callbacks of object managers.

    ** Not modelled

    The text that explains constraints and the text of log messages; locks and
    threads of the userspace cache (each operation runs to its end); the
    writer of rules for kernel policies before version 20, which expands and
    merges them; linking of modules and the copies of their symbols
    in the expansion ([expand_module] up to the rules, and the object contexts
    after them); the CIL compiler and
    checkpolicy, the policy store (libsemanage), file labelling, and the
    tools, daemons and language bindings.

    What is modelled of a module has bounds, stated as hypotheses: type and
    role numbers are mapped and named in the new policy, types fit into the 16
    bits of a key, expressions fit on the stack of the evaluation.  Exactness
    of the conditional table is proved list by list
    ([ExpandCond.branch_rules_exact]); for a whole module it is the state of
    the blocks and of their rules.  The kinds of auditdeny, extended permission
    and neverallow rules are followed by the model, but the theorems about
    exactness are about rules whose permissions accumulate and type rules. *)

From Stdlib Require Export Btauto.
From stdpp Require Export base tactics numbers strings option gmap list.

(** * Outcomes of C code

    A C function that may allocate is a computation that consumes an
    [oracle]: the successive answers of [malloc]/[calloc]/[strdup]
    ([true] = memory was returned).  The exhausted oracle [[]] answers
    [true] for ever, so it stands for "memory is never exhausted".
    Dereferencing NULL, indexing an array out of range or shifting by more
    than the width is the outcome [UB]. *)

Definition oracle := list bool.

Inductive outcome (A : Type) : Type :=
  | Ret (a : A) (o : oracle)
  | UB.
Arguments Ret {A} a o.
Arguments UB {A}.

Definition M (A : Type) : Type := oracle → outcome A.

#[global] Instance M_ret : MRet M := λ A a o, Ret a o.
#[global] Instance M_bind : MBind M := λ A B k m o,
  match m o with Ret a o' => k a o' | UB => UB end.

Definition ub {A} : M A := λ _, UB.

(** Pointer and array accesses: [None] is an access outside an object. *)
Definition deref {A} (x : option A) : M A :=
  match x with Some a => mret a | None => ub end.

Definition malloc : M bool := λ o,
  match o with [] => Ret true [] | b :: o' => Ret b o' end.

(** Early return ([inl]) and fall through ([inr]) of a loop body. *)
Fixpoint for_up {R St} (body : N → St → M (R + St)) (cnt : nat) (i : N) (s : St)
    : M (R + St) :=
  match cnt with
  | O => mret (inr s)
  | S cnt' =>
      r ← body i s;
      match r with
      | inl x => mret (inl x)
      | inr s' => for_up body cnt' (N.succ i) s'
      end
  end.

Fixpoint for_list {A R St} (body : A → St → M (R + St)) (l : list A) (s : St)
    : M (R + St) :=
  match l with
  | [] => mret (inr s)
  | a :: l' =>
      r ← body a s;
      match r with
      | inl x => mret (inl x)
      | inr s' => for_list body l' s'
      end
  end.

(** A counting loop without early return. *)
Fixpoint fold_up {St} (body : N → St → M St) (cnt : nat) (i : N) (s : St) : M St :=
  match cnt with
  | O => mret s
  | S cnt' => s ← body i s; fold_up body cnt' (N.succ i) s
  end.

(** The values of a counter: [n] consecutive integers from [i]. *)
Fixpoint seqN (i : N) (n : nat) : list N :=
  match n with O => [] | S n' => i :: seqN (N.succ i) n' end.

(** The walk of a [prev]/[cur] pointer pair down a linked list: the nodes
    that were passed, and the list that starts at [cur]. *)
Fixpoint walk {A} (p : A → bool) (l : list A) : list A * list A :=
  match l with
  | [] => ([], [])
  | a :: l' => if p a then let '(pre, post) := walk p l' in (a :: pre, post)
               else ([], l)
  end.

(** * Error codes and fixed-width arithmetic *)

Definition ENOENT : Z := 2.
Definition ENOMEM : Z := 12.
Definition EACCES : Z := 13.
Definition EEXIST : Z := 17.
Definition EINVAL : Z := 22.
Definition EPERM : Z := 1.
Definition UINT_MAX : N := 4294967295.

Definition u8 (x : N) : N := (x mod 2 ^ 8)%N.
Definition u16 (x : N) : N := (x mod 2 ^ 16)%N.
Definition u32 (x : N) : N := (x mod 2 ^ 32)%N.
Definition u64 (x : N) : N := (x mod 2 ^ 64)%N.

(** Unsigned 32-bit decrement, wrapping below zero as in C. *)
Definition dec32 (x : N) : N := u32 (x + UINT_MAX).

(** Conversion of an unsigned 32-bit value to [int]. *)
Definition s32 (x : N) : Z :=
  if (u32 x <? 2 ^ 31)%N then Z.of_N (u32 x) else (Z.of_N (u32 x) - 2 ^ 32)%Z.

(** [~x] on 32 bits, and the truth value of a C integer expression. *)
Definition lnot32 (x : N) : N := N.lxor x UINT_MAX.
Definition truth (x : N) : bool := negb (x =? 0)%N.

(** * Weakest preconditions *)

Definition wp {A} (m : M A) (o : oracle) (Q : A → oracle → Prop) : Prop :=
  match m o with Ret a o' => Q a o' | UB => False end.

Lemma bind_run {A B} (m : M A) (k : A → M B) o :
  (m ≫= k) o = match m o with Ret a o' => k a o' | UB => UB end.
Proof. done. Qed.

Lemma wp_ret {A} (a : A) o Q : Q a o → wp (mret a) o Q.
Proof. done. Qed.

Lemma wp_bind {A B} (m : M A) (k : A → M B) o Q :
  wp m o (λ a o', wp (k a) o' Q) → wp (m ≫= k) o Q.
Proof. unfold wp, mbind, M_bind. by destruct (m o). Qed.

Lemma wp_bind_inv {A B} (m : M A) (k : A → M B) o Q :
  wp (m ≫= k) o Q → wp m o (λ a o', wp (k a) o' Q).
Proof. unfold wp, mbind, M_bind. by destruct (m o). Qed.

Lemma wp_mono {A} (m : M A) o (Q Q' : A → oracle → Prop) :
  wp m o Q → (∀ a o', Q a o' → Q' a o') → wp m o Q'.
Proof. unfold wp. destruct (m o); eauto. Qed.

(** The same computation. *)
Lemma wp_same {A} (m m' : M A) o Q : m o = m' o → wp m' o Q → wp m o Q.
Proof. unfold wp. by intros ->. Qed.

Lemma wp_and {A} (m : M A) o (Q Q' : A → oracle → Prop) :
  wp m o Q → wp m o Q' → wp m o (λ a o', Q a o' ∧ Q' a o').
Proof. unfold wp. by destruct (m o). Qed.

Lemma wp_run {A} (m : M A) o Q :
  wp m o Q ↔ ∃ a o', m o = Ret a o' ∧ Q a o'.
Proof. unfold wp. destruct (m o); naive_solver. Qed.

(** Operations that allocate nothing: they leave the oracle alone and their
    result does not depend on it. *)
Class NoAlloc {A} (m : M A) : Prop :=
  no_alloc : ∀ o, m o = match m [] with Ret a _ => Ret a o | UB => UB end.

#[global] Instance no_alloc_ret {A} (a : A) : NoAlloc (mret a).
Proof. done. Qed.

#[global] Instance no_alloc_ub {A} : NoAlloc (A := A) ub.
Proof. done. Qed.

#[global] Instance no_alloc_deref {A} (x : option A) : NoAlloc (deref x).
Proof. by destruct x. Qed.

#[global] Instance no_alloc_bind {A B} (m : M A) (k : A → M B) :
  NoAlloc m → (∀ a, NoAlloc (k a)) → NoAlloc (m ≫= k).
Proof.
  intros Hm Hk o. rewrite !bind_run, Hm. destruct (m []) as [a o1|]; [|done].
  rewrite (Hk a o), (Hk a o1). by destruct (k a []).
Qed.

#[global] Instance no_alloc_if {A} (b : bool) (m1 m2 : M A) :
  NoAlloc m1 → NoAlloc m2 → NoAlloc (if b then m1 else m2).
Proof. by destruct b. Qed.

#[global] Instance no_alloc_for_up {R St} (body : N → St → M (R + St)) n i s :
  (∀ i s, NoAlloc (body i s)) → NoAlloc (for_up body n i s).
Proof.
  intros Hb. revert i s. induction n as [|n IH]; intros i s; cbn [for_up]; [apply _|].
  apply no_alloc_bind; [apply Hb|]. intros [x|s']; [apply _|apply IH].
Qed.

Lemma no_alloc_run {A} (m : M A) `{!NoAlloc m} o a o1 :
  m o = Ret a o1 → o1 = o ∧ ∀ o', m o' = Ret a o'.
Proof.
  rewrite (no_alloc o). destruct (m []) as [a' o2|] eqn:E; [|done]. intros [= -> ->].
  split; [done|]. intros o'. by rewrite no_alloc, E.
Qed.

(** An oracle without refusals stays one; [wp_malloc] records it. *)
Lemma wp_malloc o Q :
  (∀ b o', (o = [] → b = true ∧ o' = []) → Q b o') → wp malloc o Q.
Proof. unfold wp, malloc. destruct o; intros H; apply H; naive_solver. Qed.

Lemma wp_deref {A} (x : option A) o Q :
  (∃ a, x = Some a ∧ Q a o) → wp (deref x) o Q.
Proof. by intros (a & -> & ?). Qed.

Lemma wp_for_up {R St} (I : N → St → oracle → Prop) (body : N → St → M (R + St))
    (Q : R + St → oracle → Prop) cnt i s o :
  I i s o →
  (∀ j s o, (i ≤ j < i + N.of_nat cnt)%N → I j s o →
    wp (body j s) o (λ r o', match r with
                             | inl x => Q (inl x) o'
                             | inr s' => I (j + 1)%N s' o' end)) →
  (∀ s o, I (i + N.of_nat cnt)%N s o → Q (inr s) o) →
  wp (for_up body cnt i s) o Q.
Proof.
  revert i s o. induction cnt as [|cnt IH]; intros i s o HI Hbody HQ; simpl.
  { apply wp_ret, HQ. by rewrite N.add_0_r. }
  apply wp_bind. eapply wp_mono; [apply Hbody; [lia|done]|].
  intros [x|s'] o' H; [by apply wp_ret|].
  apply IH; rewrite <- N.add_1_r; [done| |].
  - intros j s'' o'' Hj. apply Hbody. lia.
  - intros s'' o'' H'. apply HQ.
    by replace (i + N.of_nat (S cnt))%N with (i + 1 + N.of_nat cnt)%N by lia.
Qed.

(** A counting loop whose bodies all return is the fold of their results. *)
Lemma fold_up_run {St} (body : N → St → M St) (f : St → N → St) cnt i s o :
  (∀ j s o, (i ≤ j < i + N.of_nat cnt)%N → body j s o = Ret (f s j) o) →
  fold_up body cnt i s o = Ret (foldl f s (seqN i cnt)) o.
Proof.
  revert i s o. induction cnt as [|cnt IH]; intros i s o Hf; [done|]. cbn [fold_up seqN foldl].
  rewrite bind_run, Hf by lia. apply IH. intros j s' o' Hj. apply Hf. lia.
Qed.

Lemma wp_for_list {A R St} (I : list A → St → oracle → Prop)
    (body : A → St → M (R + St)) (Q : R + St → oracle → Prop) l s o :
  I [] s o →
  (∀ done a rest s o, l = done ++ a :: rest → I done s o →
    wp (body a s) o (λ r o', match r with
                             | inl x => Q (inl x) o'
                             | inr s' => I (done ++ [a]) s' o' end)) →
  (∀ s o, I l s o → Q (inr s) o) →
  wp (for_list body l s) o Q.
Proof.
  intros HI Hbody HQ.
  assert (∀ done rest s o, l = done ++ rest → I done s o →
            wp (for_list body rest s) o Q) as H; [|by eapply (H [])].
  clear s o HI. intros done rest. revert done.
  induction rest as [|a rest IH]; intros done s o -> HI; simpl.
  { apply wp_ret, HQ. by rewrite app_nil_r. }
  apply wp_bind. eapply wp_mono; [by eapply Hbody|].
  intros [x|s'] o' H; [by apply wp_ret|].
  apply (IH (done ++ [a])); [by rewrite <- app_assoc|done].
Qed.

(** * Counters *)

Lemma elem_of_seqN i n j : j ∈ seqN i n ↔ (i ≤ j < i + N.of_nat n)%N.
Proof.
  revert i. induction n as [|n IH]; intros i; cbn [seqN].
  - rewrite elem_of_nil. lia.
  - rewrite elem_of_cons, IH. lia.
Qed.

Lemma seqN_app i a b : seqN i (a + b) = seqN i a ++ seqN (i + N.of_nat a) b.
Proof.
  revert i. induction a as [|a IH]; intros i; cbn [seqN Nat.add app]; [by rewrite N.add_0_r|].
  rewrite IH. do 3 f_equal. lia.
Qed.

Lemma for_list_app {A R St} (body : A → St → M (R + St)) l1 l2 s o :
  for_list body (l1 ++ l2) s o =
  (r ← for_list body l1 s;
   match r with inl x => mret (inl x) | inr s' => for_list body l2 s' end) o.
Proof.
  revert s o. induction l1 as [|a l1 IH]; intros s o; [done|]. simpl.
  unfold mbind, M_bind. destruct (body a s o) as [[x|s'] o'|]; [done| |done].
  by rewrite IH.
Qed.

Lemma for_up_ext {R St} (body body' : N → St → M (R + St)) n i s o :
  (∀ i s o, body i s o = body' i s o) → for_up body n i s o = for_up body' n i s o.
Proof.
  intros Hext. revert i s o. induction n as [|n IH]; intros i s o; [done|]. cbn [for_up].
  rewrite !bind_run, Hext. destruct (body' i s o) as [[x|s'] o'|]; [done|apply IH|done].
Qed.

Lemma for_up_seqN {R St} (body : N → St → M (R + St)) n i s o :
  for_list body (seqN i n) s o = for_up body n i s o.
Proof.
  revert i s o. induction n as [|n IH]; intros i s o; [done|]. cbn [for_up seqN for_list].
  rewrite !bind_run. destruct (body i s o) as [[x|s'] o'|]; [done|apply IH|done].
Qed.

(** A counter that indexes an array visits the array. *)
Lemma for_up_lookup {A R St} (F : A → St → M (R + St)) (t pre l : list A) s o :
  t = pre ++ l →
  for_up (λ i s, c ← deref (t !! N.to_nat i); F c s) (length l) (N.of_nat (length pre)) s o =
  for_list F l s o.
Proof.
  revert pre s o. induction l as [|a l IH]; intros pre s o ->; [done|].
  cbn [length for_up for_list]. rewrite !bind_run, Nat2N.id, list_lookup_middle by done. cbn [deref].
  unfold mret at 1, M_ret at 1. destruct (F a s o) as [[x|s'] o'|]; [done| |done].
  replace (N.succ (N.of_nat (length pre))) with (N.of_nat (length (pre ++ [a])))
    by (rewrite length_app; simpl; lia).
  apply IH. by rewrite <- app_assoc.
Qed.

Lemma for_list_concat {A R St} (F : A → St → M (R + St)) (t : list (list A)) s o :
  for_list (for_list F) t s o = for_list F (concat t) s o.
Proof.
  revert s o. induction t as [|c t IH]; intros s o; [done|]. cbn [concat for_list].
  rewrite for_list_app, !bind_run. destruct (for_list F c s o) as [[x|s'] o'|]; [done|apply IH|done].
Qed.

(** * Walks *)

Lemma walk_app {A} (p : A → bool) l : (walk p l).1 ++ (walk p l).2 = l.
Proof.
  induction l as [|a l IH]; [done|]; simpl.
  destruct (p a); [|done]. destruct (walk p l); simpl in *. by rewrite IH.
Qed.

Lemma walk_pre {A} (p : A → bool) l : Forall (λ a, p a = true) (walk p l).1.
Proof.
  induction l as [|a l IH]; simpl; [constructor|].
  destruct (p a) eqn:Hp; [|constructor].
  destruct (walk p l); simpl in *. by constructor.
Qed.

Lemma walk_post {A} (p : A → bool) l :
  match (walk p l).2 with [] => True | a :: _ => p a = false end.
Proof.
  induction l as [|a l IH]; simpl; [done|].
  destruct (p a) eqn:Hp; [|done]. by destruct (walk p l).
Qed.

(** The three facts about a walk, as one elimination principle. *)
Lemma walk_inv {A} (p : A → bool) l pre post :
  walk p l = (pre, post) →
  l = pre ++ post ∧ Forall (λ a, p a = true) pre ∧
  match post with [] => True | a :: _ => p a = false end.
Proof.
  intros H. pose proof (walk_app p l). pose proof (walk_pre p l).
  pose proof (walk_post p l). rewrite H in *. naive_solver.
Qed.

(** One slot of an array of chains, and the nodes of the other slots. *)
Lemma concat_focus {A} (t : list (list A)) i c :
  t !! i = Some c →
  ∃ R, concat t ≡ₚ c ++ R ∧ ∀ c', concat (<[i := c']> t) ≡ₚ c' ++ R.
Proof.
  intros Hi. exists (concat (take i t) ++ concat (drop (S i) t)). split.
  - rewrite <- (take_drop_middle _ _ _ Hi) at 1. rewrite concat_app. simpl. solve_Permutation.
  - intros c'. rewrite insert_take_drop by (by eapply lookup_lt_Some).
    rewrite concat_app. simpl. solve_Permutation.
Qed.

(** The first suffix of a list whose head satisfies a test: the pointer a
    scan returns. *)
Fixpoint find_suffix {A} (p : A → bool) (l : list A) : option (list A) :=
  match l with
  | [] => None
  | a :: l' => if p a then Some l else find_suffix p l'
  end.

Lemma find_suffix_none {A} (p : A → bool) l :
  find_suffix p l = None ↔ Forall (λ a, p a = false) l.
Proof.
  induction l as [|a l IH]; simpl; [by split; [constructor|]|].
  rewrite Forall_cons. destruct (p a); naive_solver.
Qed.

Lemma find_suffix_app {A} (p : A → bool) l1 l2 :
  Forall (λ a, p a = false) l1 → find_suffix p (l1 ++ l2) = find_suffix p l2.
Proof. induction 1 as [|a l1 Ha _ IH]; simpl; [done|]. by rewrite Ha. Qed.

(** * Tactics *)

(** Split a boolean test of the goal or a hypothesis into its cases, with the
    comparison reflected in the arithmetic hypotheses. *)
Ltac case_bool :=
  match goal with
  | |- context [if ?b then _ else _] => destruct b eqn:?
  | H : context [if ?b then _ else _] |- _ => destruct b eqn:?
  end.

(** Turn boolean comparisons into propositions. *)
Ltac reflect_bools :=
  repeat match goal with
  | H : (_ && _) = true |- _ => apply andb_true_iff in H as [? ?]
  | H : (_ && _) = false |- _ => apply andb_false_iff in H
  | H : (_ || _) = false |- _ => apply orb_false_iff in H as [? ?]
  | H : (_ || _) = true |- _ => apply orb_true_iff in H
  | H : @eq bool _ _ ∨ @eq bool _ _ |- _ => destruct H
  | H : negb _ = true |- _ => apply negb_true_iff in H
  | H : negb _ = false |- _ => apply negb_false_iff in H
  | H : (_ =? _)%N = true |- _ => apply N.eqb_eq in H
  | H : (_ =? _)%N = false |- _ => apply N.eqb_neq in H
  | H : (_ <? _)%N = true |- _ => apply N.ltb_lt in H
  | H : (_ <? _)%N = false |- _ => apply N.ltb_ge in H
  | H : (_ <=? _)%N = true |- _ => apply N.leb_le in H
  | H : (_ <=? _)%N = false |- _ => apply N.leb_gt in H
  | H : (_ =? _)%Z = true |- _ => apply Z.eqb_eq in H
  | H : (_ =? _)%Z = false |- _ => apply Z.eqb_neq in H
  | H : (_ <? _)%Z = true |- _ => apply Z.ltb_lt in H
  | H : (_ <? _)%Z = false |- _ => apply Z.ltb_ge in H
  end.

(** Decide every comparison of the goal and finish by arithmetic. *)
Ltac bool_lia :=
  repeat match goal with
  | |- context [(?a <? ?b)%N] => destruct (N.ltb_spec a b)
  | |- context [(?a <=? ?b)%N] => destruct (N.leb_spec a b)
  | |- context [(?a =? ?b)%N] => destruct (N.eqb_spec a b)
  end; cbn [andb orb negb]; intros; try done; try congruence; try lia.

(** One step of symbolic execution. *)
Ltac wp_step :=
  match goal with
  | |- wp (mret _) _ _ => apply wp_ret
  | |- wp (_ ≫= _) _ _ => apply wp_bind
  | |- wp malloc _ _ => apply wp_malloc
  end.

Lemma dec32_pred v : (0 < v)%N → (v < 2 ^ 32)%N → dec32 v = (v - 1)%N.
Proof.
  intros H1 H2. unfold dec32, u32, UINT_MAX.
  replace (v + 4294967295)%N with (v - 1 + 1 * 2 ^ 32)%N by (change (2 ^ 32)%N with 4294967296%N; lia).
  rewrite N.Div0.mod_add, N.mod_small; lia.
Qed.

(** * Bits *)

Lemma truth_spec x : truth x = true ↔ x ≠ 0%N.
Proof. unfold truth. rewrite negb_true_iff, N.eqb_neq. done. Qed.

Lemma truth_land_bit m k : truth (N.land m (N.shiftl 1 k)) = N.testbit m k.
Proof.
  rewrite N.shiftl_1_l. unfold truth. destruct (N.testbit m k) eqn:Hk.
  - apply negb_true_iff, N.eqb_neq. intros H.
    apply (f_equal (λ x, N.testbit x k)) in H.
    by rewrite N.land_spec, Hk, N.pow2_bits_true in H.
  - apply negb_false_iff, N.eqb_eq, N.bits_inj. intros j.
    rewrite N.land_spec, N.bits_0. destruct (decide (j = k)) as [->|Hne].
    + by rewrite Hk.
    + rewrite N.pow2_bits_false by done. apply andb_false_r.
Qed.

Lemma N_eq_0_bits x : x = 0%N ↔ ∀ j, N.testbit x j = false.
Proof.
  split; [intros -> j; apply N.bits_0|].
  intros H. apply N.bits_inj. intros j. by rewrite H, N.bits_0.
Qed.

Lemma N_neq_0_bit x : x ≠ 0%N → ∃ j, N.testbit x j = true.
Proof.
  intros Hx. exists (N.log2 x). by apply N.bit_log2.
Qed.

Lemma testbit_high x w j : (x < 2 ^ w)%N → (w ≤ j)%N → N.testbit x j = false.
Proof.
  intros Hx Hj. rewrite <- (N.mod_small x (2 ^ w)) by done.
  by apply N.mod_pow2_bits_high.
Qed.

Lemma lt_pow2_bits x w : (∀ j, (w ≤ j)%N → N.testbit x j = false) → (x < 2 ^ w)%N.
Proof.
  intros H. destruct (decide (x = 0%N)) as [->|Hx].
  { apply N.neq_0_lt_0, N.pow_nonzero. lia. }
  apply N.log2_lt_pow2; [lia|]. apply N.nle_gt. intros Hle.
  pose proof (N.bit_log2 x Hx) as Hb. by rewrite H in Hb.
Qed.

Lemma ldiff_63 bit : N.ldiff bit 63 = (bit / 64 * 64)%N.
Proof.
  change 63%N with (N.ones 6). rewrite N.ldiff_ones_r, N.shiftr_div_pow2, N.shiftl_mul_pow2.
  done.
Qed.

Lemma div64_bounds bit : (bit / 64 * 64 ≤ bit ∧ bit < bit / 64 * 64 + 64)%N.
Proof.
  pose proof (N.div_mod' bit 64) as Hdm. pose proof (N.mod_lt bit 64 ltac:(done)) as Hlt.
  revert Hdm Hlt. generalize (bit / 64)%N (bit mod 64)%N. lia.
Qed.

(** * Strings *)

Lemma string_app_assoc (a b c : string) : (a +:+ (b +:+ c) = (a +:+ b) +:+ c)%string.
Proof. induction a as [|ch a IH]; [done|]. exact (f_equal (String ch) IH). Qed.

Lemma string_app_nil_r (a : string) : (a +:+ "" = a)%string.
Proof. induction a as [|ch a IH]; [done|]. exact (f_equal (String ch) IH). Qed.

Lemma string_length_app (a b : string) :
  String.length (a +:+ b)%string = (String.length a + String.length b)%nat.
Proof. induction a as [|ch a IH]; [done|]. exact (f_equal S IH). Qed.

Create HintDb sel.
#[export] Hint Resolve wp_ret : sel.
Create Rewrite HintDb bits.
#[export] Hint Rewrite N.land_spec N.lor_spec N.lxor_spec N.ldiff_spec N.bits_0
  truth_land_bit : bits.
