(* ===== verification/Ebitmap.v ===== *)
(** Extensible bitmaps: libsepol/src/ebitmap.c and ebitmap.h.

    A bitmap is a linked list of nodes, each holding 64 bits from an explicit
    start bit, plus the position one past its last node.  The list is a Rocq
    list; the pointer surgery of the C code is the split and reassembly of
    that list.  [ebitmap_bit] is the abstract view, the characteristic
    function of the set; the theorems say that every operation is the set
    operation it is named after, that the representation is canonical, and
    what the reader of the binary policy does and does not establish. *)

From S2P Require Import Prelude.
Local Open Scope N_scope.

(** * Data *)

Definition MAPSIZE : N := 64.

Record ebitmap_node := EBNode { startbit : N; bmap : N }.
Record ebitmap := EBitmap { node : list ebitmap_node; highbit : N }.

#[global] Instance ebitmap_node_eq_dec : EqDecision ebitmap_node.
Proof. solve_decision. Defined.
#[global] Instance ebitmap_eq_dec : EqDecision ebitmap.
Proof. solve_decision. Defined.

Definition ebitmap_length (e : ebitmap) : N := highbit e.

Definition ebitmap_startbit (e : ebitmap) : N :=
  match node e with n :: _ => startbit n | [] => 0 end.

Definition ebitmap_init : ebitmap := EBitmap [] 0.

Definition ebitmap_destroy (e : ebitmap) : ebitmap := EBitmap [] 0.

(** * Operations *)

Fixpoint get_bit_loop (n : list ebitmap_node) (bit : N) : bool :=
  match n with
  | [] => false
  | nd :: n' =>
      if startbit nd <=? bit then
        if bit <? startbit nd + MAPSIZE then
          truth (N.land (bmap nd) (N.shiftl 1 (bit - startbit nd)))
        else get_bit_loop n' bit
      else false
  end.

Definition ebitmap_get_bit (e : ebitmap) (bit : N) : bool :=
  if highbit e <? bit then false else get_bit_loop (node e) bit.

(** The tail of [ebitmap_set_bit], after its loop found no node for the bit. *)
Definition set_bit_new (e : ebitmap) (bit : N) (value : bool)
    (pre post : list ebitmap_node) : M (Z * ebitmap) :=
  let start := N.ldiff bit (MAPSIZE - 1) in
  let high := u32 (start + MAPSIZE) in
  if negb value then mret (0%Z, e) else
  b ← malloc;
  if negb b then mret (- ENOMEM, e)%Z else
  let new := EBNode start (N.shiftl 1 (bit - start)) in
  mret (0%Z, EBitmap (pre ++ new :: post)
               match post with [] => high | _ :: _ => highbit e end).

(** The loop passes the nodes that end at or before the bit; [prev] is the
    last of them. *)
Definition ebitmap_set_bit (e : ebitmap) (bit : N) (value : bool)
    : M (Z * ebitmap) :=
  let start := N.ldiff bit (MAPSIZE - 1) in
  let high := u32 (start + MAPSIZE) in
  if high =? 0 then mret (- EINVAL, e)%Z else
  let '(pre, post) :=
    walk (λ n, (startbit n <=? bit) && (startbit n + MAPSIZE <=? bit)) (node e) in
  match post with
  | n :: next =>
      if startbit n <=? bit then
        if value then
          let n' := EBNode (startbit n)
                      (N.lor (bmap n) (N.shiftl 1 (bit - startbit n))) in
          mret (0%Z, EBitmap (pre ++ n' :: next) (highbit e))
        else
          let map' := N.ldiff (bmap n) (N.shiftl 1 (bit - startbit n)) in
          if map' =? 0 then
            let high' :=
              match next with
              | [] => match last pre with
                      | Some prev => u32 (startbit prev + MAPSIZE)
                      | None => 0 end
              | _ :: _ => highbit e end in
            mret (0%Z, EBitmap (pre ++ next) high')
          else mret (0%Z, EBitmap (pre ++ EBNode (startbit n) map' :: next)
                            (highbit e))
      else set_bit_new e bit value pre post
  | [] => set_bit_new e bit value pre post
  end.

(** The merge loop of [ebitmap_or]: [None] when an allocation failed. *)
Fixpoint or_loop (n1 : list ebitmap_node)
    : list ebitmap_node → M (option (list ebitmap_node)) :=
  fix go (n2 : list ebitmap_node) : M (option (list ebitmap_node)) :=
    match n1, n2 with
    | [], [] => mret (Some [])
    | x1 :: t1, x2 :: t2 =>
        b ← malloc;
        if negb b then mret None else
        if startbit x1 =? startbit x2 then
          r ← or_loop t1 t2;
          mret (cons (EBNode (startbit x1) (N.lor (bmap x1) (bmap x2))) <$> r)
        else if startbit x1 <? startbit x2 then
          r ← or_loop t1 n2; mret (cons x1 <$> r)
        else r ← go t2; mret (cons x2 <$> r)
    | x1 :: t1, [] =>
        b ← malloc;
        if negb b then mret None else r ← or_loop t1 []; mret (cons x1 <$> r)
    | [], x2 :: t2 =>
        b ← malloc;
        if negb b then mret None else r ← go t2; mret (cons x2 <$> r)
    end.

Definition ebitmap_or (e1 e2 : ebitmap) : M (Z * ebitmap) :=
  r ← or_loop (node e1) (node e2);
  match r with
  | None => mret ((- ENOMEM)%Z, ebitmap_destroy ebitmap_init)
  | Some l => mret (0%Z, EBitmap l (if highbit e2 <? highbit e1
                                    then highbit e1 else highbit e2))
  end.

Definition ebitmap_union (dst e1 : ebitmap) : M (Z * ebitmap) :=
  '(rc, tmp) ← ebitmap_or dst e1;
  if bool_decide (rc ≠ 0%Z) then mret ((-1)%Z, dst) else mret (0%Z, tmp).

(** The bit-by-bit loops share their shape: set each bit from a test and stop
    at the first error. *)
Definition set_bits_loop (test : N → option bool) (len : N) : M (Z * ebitmap) :=
  r ← for_up (R := Z * ebitmap)
        (λ i dst,
           match test i with
           | None => mret (inr dst)
           | Some val =>
               '(rc, dst') ← ebitmap_set_bit dst i val;
               if (rc <? 0)%Z then mret (inl (rc, dst')) else mret (inr dst')
           end)
        (N.to_nat len) 0 ebitmap_init;
  mret match r with inl x => x | inr dst => (0%Z, dst) end.

Definition ebitmap_and (e1 e2 : ebitmap) : M (Z * ebitmap) :=
  let len := if ebitmap_length e1 <? ebitmap_length e2
             then ebitmap_length e1 else ebitmap_length e2 in
  set_bits_loop (λ i, if ebitmap_get_bit e1 i && ebitmap_get_bit e2 i
                      then Some true else None) len.

Definition ebitmap_xor (e1 e2 : ebitmap) : M (Z * ebitmap) :=
  let len := if ebitmap_length e2 <=? ebitmap_length e1
             then ebitmap_length e1 else ebitmap_length e2 in
  set_bits_loop (λ i, Some (xorb (ebitmap_get_bit e1 i) (ebitmap_get_bit e2 i))) len.

Definition ebitmap_not (e1 : ebitmap) (maxbit : N) : M (Z * ebitmap) :=
  set_bits_loop (λ i, Some (negb (ebitmap_get_bit e1 i))) maxbit.

Definition ebitmap_andnot (e1 e2 : ebitmap) (maxbit : N) : M (Z * ebitmap) :=
  '(rc, e3) ← ebitmap_not e2 maxbit;
  if (rc <? 0)%Z then mret (rc, ebitmap_init) else
  '(rc, dst) ← ebitmap_and e1 e3;
  if (rc <? 0)%Z then mret (rc, dst) else mret (0%Z, dst).

Fixpoint card_loop (e : ebitmap) (cnt : nat) (i count : N) : N :=
  match cnt with
  | O => count
  | S cnt' => card_loop e cnt' (i + 1)
                (if ebitmap_get_bit e i then u32 (count + 1) else count)
  end.

Definition ebitmap_cardinality (e : ebitmap) : N :=
  card_loop e (N.to_nat (ebitmap_length e - ebitmap_startbit e))
    (ebitmap_startbit e) 0.

Fixpoint cmp_loop (n1 n2 : list ebitmap_node) : bool :=
  match n1, n2 with
  | x1 :: t1, x2 :: t2 =>
      if (startbit x1 =? startbit x2) && (bmap x1 =? bmap x2)
      then cmp_loop t1 t2 else false
  | [], [] => true
  | _, _ => false
  end.

Definition ebitmap_cmp (e1 e2 : ebitmap) : bool :=
  if negb (highbit e1 =? highbit e2) then false else cmp_loop (node e1) (node e2).

Definition ebitmap_hamming_distance (e1 e2 : ebitmap) : M Z :=
  if ebitmap_cmp e1 e2 then mret 0%Z else
  '(rc, tmp) ← ebitmap_xor e1 e2;
  if (rc <? 0)%Z then mret (-1)%Z else mret (s32 (ebitmap_cardinality tmp)).

Fixpoint cpy_loop (n : list ebitmap_node) : M (option (list ebitmap_node)) :=
  match n with
  | [] => mret (Some [])
  | x :: t =>
      b ← malloc;
      if negb b then mret None else
      r ← cpy_loop t;
      mret (cons (EBNode (startbit x) (bmap x)) <$> r)
  end.

Definition ebitmap_cpy (src : ebitmap) : M (Z * ebitmap) :=
  r ← cpy_loop (node src);
  match r with
  | None => mret ((- ENOMEM)%Z, ebitmap_destroy ebitmap_init)
  | Some l => mret (0%Z, EBitmap l (highbit src))
  end.

(** The loop leaves with the two remaining lists, or with the answer 0. *)
Fixpoint contains_loop (n1 n2 : list ebitmap_node) : bool :=
  match n1, n2 with
  | x1 :: t1, x2 :: t2 =>
      if startbit x1 <=? startbit x2 then
        if startbit x1 <? startbit x2 then contains_loop t1 n2 else
        if N.land (bmap x1) (bmap x2) =? bmap x2 then contains_loop t1 t2
        else false
      else false
  | _, [] => true
  | [], _ :: _ => false
  end.

Definition ebitmap_contains (e1 e2 : ebitmap) : bool :=
  if highbit e1 <? highbit e2 then false else contains_loop (node e1) (node e2).

Fixpoint match_any_loop (n1 : list ebitmap_node) : list ebitmap_node → bool :=
  fix go (n2 : list ebitmap_node) : bool :=
    match n1, n2 with
    | x1 :: t1, x2 :: t2 =>
        if startbit x1 <? startbit x2 then match_any_loop t1 n2
        else if startbit x2 <? startbit x1 then go t2
        else if truth (N.land (bmap x1) (bmap x2)) then true
        else match_any_loop t1 t2
    | _, _ => false
    end.

Definition ebitmap_match_any (e1 e2 : ebitmap) : bool :=
  match_any_loop (node e1) (node e2).

(** * Iteration

    [ebitmap_for_each_bit(e, n, bit)] walks a node pointer and a bit in step;
    every body of the code base first asks [ebitmap_node_get_bit(n, bit)],
    which dereferences [n] and shifts by [bit - n->startbit].  A step with a
    null pointer or a shift of 64 or more is undefined.  The bit grows at
    every step, so [highbit] steps are enough fuel; running out of it is also
    reported as [UB] and excluded by [for_each_bit_visited]. *)

Fixpoint for_each_bit_loop {R St} (high : N) (body : N → bool → St → M (R + St))
    (fuel : nat) (n : list ebitmap_node) (bit : N) (s : St) : M (R + St) :=
  if high <=? bit then mret (inr s) else
  match fuel, n with
  | S fuel', nd :: next =>
      if (startbit nd <=? bit) && (bit - startbit nd <? MAPSIZE) then
        r ← body bit (truth (N.land (bmap nd) (N.shiftl 1 (bit - startbit nd)))) s;
        match r with
        | inl x => mret (inl x)
        | inr s' =>
            match next with
            | nd' :: _ =>
                if bit =? startbit nd + MAPSIZE - 1
                then for_each_bit_loop high body fuel' next (startbit nd') s'
                else for_each_bit_loop high body fuel' n (bit + 1) s'
            | [] => for_each_bit_loop high body fuel' n (bit + 1) s'
            end
        end
      else ub
  | _, _ => ub
  end.

Definition ebitmap_for_each_bit {R St} (e : ebitmap) (s : St)
    (body : N → bool → St → M (R + St)) : M (R + St) :=
  for_each_bit_loop (ebitmap_length e) body (N.to_nat (ebitmap_length e))
    (node e) (ebitmap_startbit e) s.

(** * The abstract view and the representation invariant *)

Definition node_bit (n : ebitmap_node) (i : N) : bool :=
  (startbit n <=? i) && (i <? startbit n + MAPSIZE) && N.testbit (bmap n) (i - startbit n).

Definition nodes_bit (l : list ebitmap_node) (i : N) : bool := existsb (λ n, node_bit n i) l.

Definition ebitmap_bit (e : ebitmap) (i : N) : bool := nodes_bit (node e) i.

Definition node_wf (n : ebitmap_node) : Prop :=
  startbit n mod MAPSIZE = 0 ∧ startbit n + MAPSIZE < 2 ^ 32 ∧
  0 < bmap n ∧ bmap n < 2 ^ 64.

Fixpoint nodes_wf (lo : N) (l : list ebitmap_node) : Prop :=
  match l with
  | [] => True
  | n :: l' => lo ≤ startbit n ∧ node_wf n ∧ nodes_wf (startbit n + MAPSIZE) l'
  end.

Definition last_end (l : list ebitmap_node) : N :=
  match last l with Some n => startbit n + MAPSIZE | None => 0 end.

(** What every operation but the reader establishes. *)
Definition ebitmap_wf (e : ebitmap) : Prop :=
  nodes_wf 0 (node e) ∧ highbit e = last_end (node e).

(** What the reader establishes. *)
Definition ebitmap_read_wf (e : ebitmap) : Prop :=
  nodes_wf 0 (node e) ∧ last_end (node e) ≤ highbit e ∧ highbit e < 2 ^ 32.

(** * Lemmas *)

Lemma nodes_wf_mono lo lo' l : lo' ≤ lo → nodes_wf lo l → nodes_wf lo' l.
Proof. destruct l; simpl; intuition lia. Qed.

Lemma nodes_wf_app lo l1 l2 :
  nodes_wf lo (l1 ++ l2) ↔
  nodes_wf lo l1 ∧ nodes_wf (match last l1 with Some n => startbit n + MAPSIZE | None => lo end) l2.
Proof.
  revert lo. induction l1 as [|n l1 IH]; intros lo; simpl; [naive_solver|].
  rewrite IH. destruct l1 as [|n' l1]; simpl; [naive_solver|].
  destruct (last (n' :: l1)) eqn:E; [naive_solver|].
  by apply last_None in E.
Qed.

Lemma nodes_bit_app l1 l2 i : nodes_bit (l1 ++ l2) i = nodes_bit l1 i || nodes_bit l2 i.
Proof. apply existsb_app. Qed.

Lemma nodes_bit_lo lo l i : nodes_wf lo l → nodes_bit l i = true → lo ≤ i.
Proof.
  revert lo. induction l as [|n l IH]; intros lo; simpl; [done|].
  intros (Hlo & Hn & Hl) [H|H]%orb_true_iff.
  - unfold node_bit in H. reflect_bools. lia.
  - apply (IH _ Hl) in H. unfold MAPSIZE in *. lia.
Qed.

Lemma last_end_cons n l :
  last_end (n :: l) = match l with [] => startbit n + MAPSIZE | _ => last_end l end.
Proof. destruct l; [done|]. unfold last_end. done. Qed.

Lemma nodes_wf_last lo n l : nodes_wf lo (n :: l) → startbit n + MAPSIZE ≤ last_end (n :: l).
Proof.
  revert lo n. induction l as [|n' l IH]; intros lo n; rewrite last_end_cons; [done|].
  intros (? & ? & Hl). apply IH in Hl as Hle. destruct Hl. unfold MAPSIZE in *. lia.
Qed.

Lemma nodes_bit_hi lo l i : nodes_wf lo l → nodes_bit l i = true → i < last_end l.
Proof.
  revert lo. induction l as [|n l IH]; intros lo; simpl; [done|].
  intros Hwf [H|H]%orb_true_iff.
  - apply (nodes_wf_last lo) in Hwf. unfold node_bit in H. reflect_bools. lia.
  - destruct Hwf as (_ & _ & Hl). rewrite last_end_cons.
    destruct l; [done|]. by apply (IH _ Hl).
Qed.

Lemma last_end_bound lo l : nodes_wf lo l → last_end l < 2 ^ 32.
Proof.
  revert lo. induction l as [|n l IH]; intros lo; [done|].
  intros (? & Hn & Hl). rewrite last_end_cons. destruct l; [apply Hn|by eapply IH].
Qed.

Lemma ebitmap_wf_read_wf e : ebitmap_wf e → ebitmap_read_wf e.
Proof.
  intros [? Hh]. split; [done|]. rewrite Hh. split; [lia|by eapply last_end_bound].
Qed.

Lemma ebitmap_init_wf : ebitmap_wf ebitmap_init.
Proof. done. Qed.

Lemma get_bit_loop_bits lo l i : nodes_wf lo l → get_bit_loop l i = nodes_bit l i.
Proof.
  revert lo. induction l as [|n l IH]; intros lo; simpl; [done|].
  intros (Hlo & Hn & Hl). rewrite (IH _ Hl), truth_land_bit. unfold node_bit.
  destruct (startbit n <=? i) eqn:E1; simpl.
  - destruct (i <? startbit n + MAPSIZE) eqn:E2; simpl; [|done].
    destruct (nodes_bit l i) eqn:E3; [|by rewrite orb_false_r].
    apply (nodes_bit_lo _ _ _ Hl) in E3. reflect_bools. lia.
  - destruct (nodes_bit l i) eqn:E3; [|done].
    apply (nodes_bit_lo _ _ _ Hl) in E3. reflect_bools. unfold MAPSIZE in *. lia.
Qed.

(** Reading a bit reads the set, also on a bitmap that came from a file. *)
Lemma get_bit_read_wf e i : ebitmap_read_wf e → ebitmap_get_bit e i = ebitmap_bit e i.
Proof.
  intros (Hl & Hh & _). unfold ebitmap_get_bit, ebitmap_bit.
  destruct (highbit e <? i) eqn:E; [|by eapply get_bit_loop_bits].
  destruct (nodes_bit (node e) i) eqn:E3; [|done].
  apply (nodes_bit_hi _ _ _ Hl) in E3. reflect_bools. lia.
Qed.

Lemma get_bit_wf e i : ebitmap_wf e → ebitmap_get_bit e i = ebitmap_bit e i.
Proof. intros ?. by apply get_bit_read_wf, ebitmap_wf_read_wf. Qed.

Lemma ebitmap_bit_hi e i : ebitmap_wf e → ebitmap_bit e i = true → i < highbit e.
Proof. intros [? ->]. by eapply nodes_bit_hi. Qed.

Lemma ebitmap_bit_high e i : ebitmap_wf e → highbit e ≤ i → ebitmap_bit e i = false.
Proof.
  intros Hwf Hi. destruct (ebitmap_bit e i) eqn:E; [|done].
  apply ebitmap_bit_hi in E; [lia|done].
Qed.

Lemma aligned_lt a b :
  a mod MAPSIZE = 0 → b mod MAPSIZE = 0 → a < b → a + MAPSIZE ≤ b.
Proof.
  unfold MAPSIZE. intros [k ->]%N.Div0.mod_divides [k' ->]%N.Div0.mod_divides. lia.
Qed.

Lemma node_wf_bit n :
  node_wf n → ∃ j, j < MAPSIZE ∧ N.testbit (bmap n) j = true.
Proof.
  intros (_ & _ & Hpos & Hlt). destruct (N_neq_0_bit (bmap n)) as [j Hj]; [lia|].
  exists j. split; [|done]. destruct (decide (j < MAPSIZE)) as [|Hge]; [done|].
  rewrite (testbit_high _ 64) in Hj; [done|done|]. unfold MAPSIZE in *. lia.
Qed.

Lemma nodes_bit_cons_in lo n l i :
  nodes_wf lo (n :: l) → startbit n ≤ i → i < startbit n + MAPSIZE →
  nodes_bit (n :: l) i = N.testbit (bmap n) (i - startbit n).
Proof.
  intros (_ & _ & Hl) H1 H2. simpl. unfold node_bit.
  rewrite (proj2 (N.leb_le _ _) H1), (proj2 (N.ltb_lt _ _) H2). simpl.
  destruct (nodes_bit l i) eqn:E; [|apply orb_false_r].
  apply (nodes_bit_lo _ _ _ Hl) in E. lia.
Qed.

Lemma nodes_bit_cons_out n l i :
  startbit n + MAPSIZE ≤ i → nodes_bit (n :: l) i = nodes_bit l i.
Proof.
  intros H. simpl. unfold node_bit.
  by rewrite (proj2 (N.ltb_ge _ _) H), andb_false_r.
Qed.

Lemma nodes_bit_below lo l i : nodes_wf lo l → i < lo → nodes_bit l i = false.
Proof.
  intros Hl Hi. destruct (nodes_bit l i) eqn:E; [|done].
  apply (nodes_bit_lo _ _ _ Hl) in E. lia.
Qed.

(** The first node of a bitmap shows at least one bit. *)
Lemma nodes_wf_first lo n l :
  nodes_wf lo (n :: l) →
  ∃ j, j < MAPSIZE ∧ N.testbit (bmap n) j = true ∧ nodes_bit (n :: l) (startbit n + j) = true.
Proof.
  intros Hwf. destruct (node_wf_bit n) as (j & Hj & Hb); [apply Hwf|].
  exists j. split; [done|]. split; [done|].
  rewrite (nodes_bit_cons_in lo) by (done || lia). by replace (startbit n + j - startbit n) with j by lia.
Qed.

(** A node whose start is passed by the other list is not covered by it. *)
Lemma nodes_bit_uncovered lo1 lo2 n1 l1 n2 l2 :
  nodes_wf lo1 (n1 :: l1) → nodes_wf lo2 (n2 :: l2) → startbit n1 < startbit n2 →
  ∃ i, nodes_bit (n1 :: l1) i = true ∧ nodes_bit (n2 :: l2) i = false.
Proof.
  intros H1 H2 Hlt. destruct (nodes_wf_first _ _ _ H1) as (j & Hj & _ & Hb).
  exists (startbit n1 + j). split; [done|].
  apply (nodes_bit_below (startbit n2)).
  - destruct H2 as (_ & ? & ?). split_and!; [lia|done..].
  - pose proof (aligned_lt (startbit n1) (startbit n2)
      (proj1 (proj1 (proj2 H1))) (proj1 (proj1 (proj2 H2))) Hlt). lia.
Qed.

(** Inclusion of two lists that start at the same bit splits into the inclusion
    of the first words and of the tails. *)
Lemma nodes_subset_cons lo n1 l1 n2 l2 :
  nodes_wf lo (n1 :: l1) → nodes_wf lo (n2 :: l2) → startbit n1 = startbit n2 →
  (∀ i, nodes_bit (n2 :: l2) i = true → nodes_bit (n1 :: l1) i = true) ↔
  N.land (bmap n1) (bmap n2) = bmap n2 ∧
  (∀ i, nodes_bit l2 i = true → nodes_bit l1 i = true).
Proof.
  intros H1 H2 Heq. split.
  - intros Hsub. split.
    + apply N.bits_inj. intros j. rewrite N.land_spec.
      destruct (N.testbit (bmap n2) j) eqn:Hj; [|apply andb_false_r].
      destruct (decide (j < MAPSIZE)) as [Hlt|Hge].
      * specialize (Hsub (startbit n2 + j)).
        rewrite (nodes_bit_cons_in lo n2), (nodes_bit_cons_in lo n1) in Hsub
          by (done || lia).
        rewrite Heq in Hsub. replace (startbit n2 + j - startbit n2) with j in Hsub by lia.
        by rewrite Hsub.
      * destruct H2 as (_ & (_ & _ & _ & ?) & _).
        rewrite (testbit_high _ 64) in Hj; [done|done|unfold MAPSIZE in *; lia].
    + intros i Hi. pose proof (nodes_bit_lo _ _ _ (proj2 (proj2 H2)) Hi) as Hlo.
      rewrite <- (nodes_bit_cons_out n1) by lia. apply Hsub.
      by rewrite nodes_bit_cons_out by lia.
  - intros [Hm Ht] i Hi. pose proof (nodes_bit_lo (startbit n2) (n2 :: l2) i) as Hlo.
    destruct (decide (i < startbit n2 + MAPSIZE)) as [Hlt|Hge].
    + assert (startbit n2 ≤ i) by (apply Hlo; [destruct H2 as (_ & ? & ?); split_and!; (done || lia)|done]).
      rewrite (nodes_bit_cons_in lo n2) in Hi by done.
      rewrite (nodes_bit_cons_in lo n1) by (done || lia).
      rewrite <- Hm, N.land_spec, <- Heq in Hi. by apply andb_true_iff in Hi as [? _].
    + rewrite nodes_bit_cons_out in Hi |- * by lia. auto.
Qed.

Lemma contains_loop_spec lo l1 l2 :
  nodes_wf lo l1 → nodes_wf lo l2 →
  contains_loop l1 l2 = true ↔ (∀ i, nodes_bit l2 i = true → nodes_bit l1 i = true).
Proof.
  revert lo l2. induction l1 as [|n1 l1 IH]; intros lo l2 H1 H2; destruct l2 as [|n2 l2]; simpl contains_loop.
  - done.
  - split; [done|]. intros Hsub. destruct (nodes_wf_first _ _ _ H2) as (j & _ & _ & Hb).
    by apply Hsub in Hb.
  - done.
  - destruct (startbit n1 <=? startbit n2) eqn:E1; reflect_bools.
    + destruct (startbit n1 <? startbit n2) eqn:E2; reflect_bools.
      * pose proof (aligned_lt (startbit n1) (startbit n2)
          (proj1 (proj1 (proj2 H1))) (proj1 (proj1 (proj2 H2))) E2) as Hal.
        assert (nodes_wf (startbit n1 + MAPSIZE) (n2 :: l2)) as H2'
          by (destruct H2 as (_ & ? & ?); split_and!; done).
        rewrite (IH _ _ (proj2 (proj2 H1)) H2'). split; intros Hsub i Hi;
          pose proof (nodes_bit_lo _ _ _ H2' Hi).
        -- rewrite nodes_bit_cons_out by lia. auto.
        -- rewrite <- (nodes_bit_cons_out n1) by lia. auto.
      * assert (startbit n1 = startbit n2) as Heq by lia.
        rewrite (nodes_subset_cons lo) by done.
        destruct (N.land (bmap n1) (bmap n2) =? bmap n2) eqn:E3; reflect_bools; [|naive_solver].
        rewrite (IH (startbit n1 + MAPSIZE)); [naive_solver|apply H1|rewrite Heq; apply H2].
    + split; [done|]. intros Hsub.
      destruct (nodes_bit_uncovered _ _ _ _ _ _ H2 H1 E1) as (i & Hi & Hn).
      apply Hsub in Hi. congruence.
Qed.

(** Canonicity: a set of bits has one representation. *)
Lemma nodes_ext lo l1 l2 :
  nodes_wf lo l1 → nodes_wf lo l2 → (∀ i, nodes_bit l1 i = nodes_bit l2 i) → l1 = l2.
Proof.
  revert lo l2. induction l1 as [|n1 l1 IH]; intros lo l2 H1 H2 Hext; destruct l2 as [|n2 l2].
  - done.
  - destruct (nodes_wf_first _ _ _ H2) as (j & _ & _ & Hb). by rewrite <- Hext in Hb.
  - destruct (nodes_wf_first _ _ _ H1) as (j & _ & _ & Hb). by rewrite Hext in Hb.
  - destruct (N.lt_trichotomy (startbit n1) (startbit n2)) as [Hlt|[Heq|Hlt]].
    + destruct (nodes_bit_uncovered _ _ _ _ _ _ H1 H2 Hlt) as (i & Hi & Hn).
      rewrite Hext in Hi. congruence.
    + pose proof (nodes_subset_cons lo n1 l1 n2 l2 H1 H2 Heq) as [Ha _].
      pose proof (nodes_subset_cons lo n2 l2 n1 l1 H2 H1 (eq_sym Heq)) as [Hb _].
      destruct Ha as [Hm1 Ht1]; [intros i; by rewrite Hext|].
      destruct Hb as [Hm2 Ht2]; [intros i; by rewrite Hext|].
      f_equal.
      * destruct n1, n2; simpl in *. f_equal; [done|]. by rewrite <- Hm1, N.land_comm, Hm2.
      * apply (IH (startbit n1 + MAPSIZE)); [apply H1|rewrite Heq; apply H2|].
        intros i. apply eq_true_iff_eq. naive_solver.
    + destruct (nodes_bit_uncovered _ _ _ _ _ _ H2 H1 Hlt) as (i & Hi & Hn).
      rewrite <- Hext in Hi. congruence.
Qed.

Lemma ebitmap_ext e1 e2 :
  ebitmap_wf e1 → ebitmap_wf e2 → (∀ i, ebitmap_bit e1 i = ebitmap_bit e2 i) → e1 = e2.
Proof.
  intros [H1 Hh1] [H2 Hh2] Hext. destruct e1 as [l1 h1], e2 as [l2 h2]; simpl in *.
  assert (l1 = l2) as -> by (by eapply nodes_ext). congruence.
Qed.

Lemma cmp_loop_spec l1 l2 : cmp_loop l1 l2 = true ↔ l1 = l2.
Proof.
  revert l2. induction l1 as [|[s1 m1] l1 IH]; intros [|[s2 m2] l2]; simpl; try done.
  destruct ((s1 =? s2) && (m1 =? m2)) eqn:E.
  - reflect_bools. rewrite IH. naive_solver.
  - split; [done|]. intros [= -> -> ->]. by rewrite !N.eqb_refl in E.
Qed.

Lemma ebitmap_cmp_eq e1 e2 : ebitmap_cmp e1 e2 = true ↔ e1 = e2.
Proof.
  unfold ebitmap_cmp. destruct e1 as [l1 h1], e2 as [l2 h2]; simpl.
  destruct (h1 =? h2) eqn:E; reflect_bools; simpl; [|naive_solver].
  rewrite cmp_loop_spec. naive_solver.
Qed.

Lemma last_end_snoc l n : last_end (l ++ [n]) = startbit n + MAPSIZE.
Proof. unfold last_end. by rewrite last_snoc. Qed.

Lemma last_end_aligned lo l : nodes_wf lo l → last_end l mod MAPSIZE = 0.
Proof.
  destruct l as [|n l] using rev_ind; [done|]. rewrite last_end_snoc.
  intros (_ & _ & Hn & _)%nodes_wf_app. destruct Hn as (Hal & _).
  apply N.Div0.mod_divides in Hal as [k ->]. unfold MAPSIZE.
  replace (64 * k + 64) with ((k + 1) * 64) by lia. apply N.Div0.mod_mul.
Qed.

(** Inclusion of sets bounds the ends of their representations. *)
Lemma last_end_mono lo l1 l2 :
  nodes_wf lo l1 → nodes_wf lo l2 →
  (∀ i, nodes_bit l2 i = true → nodes_bit l1 i = true) → last_end l2 ≤ last_end l1.
Proof.
  destruct l2 as [|n l2] using rev_ind; intros H1 H2 Hsub; [apply N.le_0_l|].
  rewrite last_end_snoc. apply nodes_wf_app in H2 as [_ Hn].
  destruct (nodes_wf_first _ _ _ Hn) as (j & Hj & _ & Hb).
  apply aligned_lt; [apply Hn|by eapply last_end_aligned|].
  assert (startbit n + j < last_end l1); [|lia].
  eapply nodes_bit_hi; [done|]. apply Hsub.
  by rewrite nodes_bit_app, Hb, orb_true_r.
Qed.

Lemma ebitmap_contains_subset e1 e2 :
  ebitmap_wf e1 → ebitmap_wf e2 →
  ebitmap_contains e1 e2 = true ↔ (∀ i, ebitmap_bit e2 i = true → ebitmap_bit e1 i = true).
Proof.
  intros [H1 Hh1] [H2 Hh2]. unfold ebitmap_contains.
  destruct (highbit e1 <? highbit e2) eqn:E; [|by apply contains_loop_spec with 0].
  split; [done|]. intros Hsub. apply (last_end_mono 0) in Hsub; [|done..].
  reflect_bools. lia.
Qed.

Lemma nodes_wf_self lo n l : nodes_wf lo (n :: l) → nodes_wf (startbit n) (n :: l).
Proof. intros (_ & ? & ?). split_and!; [lia|done..]. Qed.

Lemma nodes_bit_ge lo n l i :
  nodes_wf lo (n :: l) → nodes_bit (n :: l) i = true → startbit n ≤ i.
Proof. intros H%nodes_wf_self. by apply nodes_bit_lo. Qed.

Lemma nodes_wf_gap lo1 lo2 n1 l1 n2 l2 :
  nodes_wf lo1 (n1 :: l1) → nodes_wf lo2 (n2 :: l2) → startbit n1 < startbit n2 →
  nodes_wf (startbit n1 + MAPSIZE) (n2 :: l2).
Proof.
  intros (_ & [? _] & _) (_ & H2 & ?) ?. split_and!; [|done..].
  apply aligned_lt; [done|apply H2|done].
Qed.

Lemma testbit_map_lt n j : node_wf n → N.testbit (bmap n) j = true → j < MAPSIZE.
Proof.
  intros (_ & _ & _ & ?) Hj. destruct (decide (j < MAPSIZE)); [done|].
  rewrite (testbit_high _ 64) in Hj; [done|done|unfold MAPSIZE in *; lia].
Qed.

(** Two lists that start at the same bit meet in their first words or tails. *)
Lemma nodes_meet_cons lo n1 l1 n2 l2 :
  nodes_wf lo (n1 :: l1) → nodes_wf lo (n2 :: l2) → startbit n1 = startbit n2 →
  (∃ i, nodes_bit (n1 :: l1) i = true ∧ nodes_bit (n2 :: l2) i = true) ↔
  truth (N.land (bmap n1) (bmap n2)) = true ∨
  (∃ i, nodes_bit l1 i = true ∧ nodes_bit l2 i = true).
Proof.
  intros H1 H2 Heq. split.
  - intros (i & Ha & Hb). pose proof (nodes_bit_ge _ _ _ _ H1 Ha).
    destruct (decide (i < startbit n1 + MAPSIZE)).
    + left. rewrite (nodes_bit_cons_in lo n1) in Ha by done.
      rewrite (nodes_bit_cons_in lo n2) in Hb by (done || lia).
      rewrite <- Heq in Hb. apply truth_spec. intros Hz.
      apply N_eq_0_bits with (j := i - startbit n1) in Hz.
      by rewrite N.land_spec, Ha, Hb in Hz.
    + right. exists i. by rewrite !nodes_bit_cons_out in Ha, Hb by lia.
  - intros [E|(i & Ha & Hb)].
    + apply truth_spec, N_neq_0_bit in E as [j Hj]. rewrite N.land_spec in Hj. reflect_bools.
      assert (j < MAPSIZE) by (eapply testbit_map_lt; [apply H1|done]).
      exists (startbit n1 + j).
      rewrite (nodes_bit_cons_in lo n1), (nodes_bit_cons_in lo n2) by (done || lia).
      rewrite <- Heq. by replace (startbit n1 + j - startbit n1) with j by lia.
    + exists i. simpl. by rewrite Ha, Hb, !orb_true_r.
Qed.

Lemma match_any_loop_spec lo l1 l2 :
  nodes_wf lo l1 → nodes_wf lo l2 →
  match_any_loop l1 l2 = true ↔ ∃ i, nodes_bit l1 i = true ∧ nodes_bit l2 i = true.
Proof.
  revert lo l2. induction l1 as [|n1 l1 IH1]; intros lo l2 H1.
  { destruct l2; naive_solver. }
  induction l2 as [|n2 l2 IH2]; intros H2; [simpl; naive_solver|].
  cbn [match_any_loop]. destruct (startbit n1 <? startbit n2) eqn:E1; reflect_bools.
  { pose proof (nodes_wf_gap _ _ _ _ _ _ H1 H2 E1) as H2'.
    rewrite (IH1 _ _ (proj2 (proj2 H1)) H2'). split; intros (i & Ha & Hb); exists i; split; try done;
      pose proof (nodes_bit_lo _ _ _ H2' Hb).
    - by rewrite nodes_bit_cons_out by lia.
    - by rewrite nodes_bit_cons_out in Ha by lia. }
  destruct (startbit n2 <? startbit n1) eqn:E2; reflect_bools.
  { pose proof (nodes_wf_gap _ _ _ _ _ _ H2 H1 E2) as H1'.
    assert (nodes_wf lo l2) as Hl2.
    { destruct H2 as (? & ? & ?). eapply nodes_wf_mono; [|done]. lia. }
    rewrite (IH2 Hl2). split; intros (i & Ha & Hb); exists i; split; try done;
      pose proof (nodes_bit_lo _ _ _ H1' Ha).
    - by rewrite nodes_bit_cons_out by lia.
    - by rewrite nodes_bit_cons_out in Hb by lia. }
  assert (startbit n1 = startbit n2) as Heq by lia.
  rewrite (nodes_meet_cons lo) by done.
  destruct (truth (N.land (bmap n1) (bmap n2))) eqn:E3; [naive_solver|].
  rewrite (IH1 (startbit n1 + MAPSIZE)); [naive_solver|apply H1|rewrite Heq; apply H2].
Qed.

(** ** Setting a bit *)

Lemma last_end_app_cons l1 n l2 : last_end (l1 ++ n :: l2) = last_end (n :: l2).
Proof. unfold last_end. by rewrite last_app_cons. Qed.

Lemma last_end_app l1 l2 :
  last_end (l1 ++ l2) = match l2 with [] => last_end l1 | _ :: _ => last_end l2 end.
Proof. destruct l2; [by rewrite app_nil_r|apply last_end_app_cons]. Qed.

Lemma nodes_wf_split l1 l2 :
  nodes_wf 0 (l1 ++ l2) ↔ nodes_wf 0 l1 ∧ nodes_wf (last_end l1) l2.
Proof. apply nodes_wf_app. Qed.

Lemma node_bit_set n bit i :
  startbit n ≤ bit → bit < startbit n + MAPSIZE →
  node_bit (EBNode (startbit n) (N.lor (bmap n) (N.shiftl 1 (bit - startbit n)))) i =
  node_bit n i || (i =? bit).
Proof.
  intros. unfold node_bit; simpl. rewrite N.lor_spec, N.shiftl_1_l, N.pow2_bits_eqb.
  destruct (i =? bit) eqn:E; reflect_bools.
  - subst. rewrite N.eqb_refl, !orb_true_r, andb_true_r.
    apply andb_true_iff. rewrite N.leb_le, N.ltb_lt. lia.
  - rewrite orb_false_r. destruct (startbit n <=? i) eqn:E1; [|done].
    replace (bit - startbit n =? i - startbit n) with false; [by rewrite orb_false_r|].
    symmetry. reflect_bools. apply N.eqb_neq. lia.
Qed.

Lemma node_bit_clear n bit i :
  startbit n ≤ bit →
  node_bit (EBNode (startbit n) (N.ldiff (bmap n) (N.shiftl 1 (bit - startbit n)))) i =
  node_bit n i && negb (i =? bit).
Proof.
  intros. unfold node_bit; simpl. rewrite N.ldiff_spec, N.shiftl_1_l, N.pow2_bits_eqb.
  destruct (startbit n <=? i) eqn:E1; [|done]. simpl.
  replace (bit - startbit n =? i - startbit n) with (i =? bit); [by rewrite andb_assoc|].
  reflect_bools. apply eq_true_iff_eq. rewrite !N.eqb_eq. lia.
Qed.

Lemma node_bit_empty s i : node_bit (EBNode s 0) i = false.
Proof. apply andb_false_r. Qed.

Lemma lor_bit_range m k : m < 2 ^ 64 → k < 64 → 0 < N.lor m (N.shiftl 1 k) ∧ N.lor m (N.shiftl 1 k) < 2 ^ 64.
Proof.
  intros Hm Hk. split.
  - apply N.neq_0_lt_0. intros Hz. apply N_eq_0_bits with (j := k) in Hz.
    by rewrite N.lor_spec, N.shiftl_1_l, N.pow2_bits_true, orb_true_r in Hz.
  - apply lt_pow2_bits. intros j Hj.
    rewrite N.lor_spec, N.shiftl_1_l, (testbit_high m 64), N.pow2_bits_false by lia. done.
Qed.

Lemma ldiff_range m x : m < 2 ^ 64 → N.ldiff m x < 2 ^ 64.
Proof.
  intros Hm. apply lt_pow2_bits. intros j Hj. by rewrite N.ldiff_spec, (testbit_high m 64) by done.
Qed.

(** The nodes passed by the walk end at or before the bit; the next one either
    holds the bit or starts after it. *)
Definition set_walk (bit : N) : list ebitmap_node → list ebitmap_node * list ebitmap_node :=
  walk (λ n, (startbit n <=? bit) && (startbit n + MAPSIZE <=? bit)).

Lemma set_walk_spec bit l pre post :
  nodes_wf 0 l → set_walk bit l = (pre, post) →
  l = pre ++ post ∧ nodes_wf 0 pre ∧ nodes_wf (last_end pre) post ∧ last_end pre ≤ bit ∧
  match post with
  | [] => True
  | n :: _ => bit < startbit n ∨ (startbit n ≤ bit ∧ bit < startbit n + MAPSIZE)
  end.
Proof.
  intros Hwf (-> & Hpre & Hpost)%walk_inv. apply nodes_wf_split in Hwf as [H1 H2].
  split_and!; try done.
  - unfold last_end. destruct (last pre) as [n|] eqn:El; [|lia].
    apply last_Some_elem_of in El. rewrite Forall_forall in Hpre.
    apply Hpre in El. reflect_bools. lia.
  - destruct post as [|n post]; [done|]. reflect_bools; lia.
Qed.

Lemma nodes_bit_replace pre n n' next i :
  nodes_bit (pre ++ n' :: next) i || node_bit n i = nodes_bit (pre ++ n :: next) i || node_bit n' i.
Proof.
  rewrite !nodes_bit_app. simpl. destruct (node_bit n i), (node_bit n' i); simpl;
    rewrite ?orb_true_r; done.
Qed.

Lemma nodes_bit_pre_false pre bit : nodes_wf 0 pre → last_end pre ≤ bit → nodes_bit pre bit = false.
Proof.
  intros Hwf Hle. destruct (nodes_bit pre bit) eqn:E; [|done].
  apply (nodes_bit_hi _ _ _ Hwf) in E. lia.
Qed.

(** The four ways [ebitmap_set_bit] rebuilds the list, on node lists. *)
Lemma set_in_node pre n next bit :
  nodes_wf 0 (pre ++ n :: next) → startbit n ≤ bit → bit < startbit n + MAPSIZE →
  let n' := EBNode (startbit n) (N.lor (bmap n) (N.shiftl 1 (bit - startbit n))) in
  nodes_wf 0 (pre ++ n' :: next) ∧ last_end (pre ++ n' :: next) = last_end (pre ++ n :: next) ∧
  ∀ i, nodes_bit (pre ++ n' :: next) i = nodes_bit (pre ++ n :: next) i || (i =? bit).
Proof.
  intros Hwf H1 H2 n'. split_and!.
  - apply nodes_wf_split in Hwf as (? & ? & (? & ? & ? & ?) & ?). apply nodes_wf_split.
    destruct (lor_bit_range (bmap n) (bit - startbit n)); [done|unfold MAPSIZE in *; lia|].
    split; [done|]. simpl. unfold node_wf. simpl. split_and!; done.
  - by rewrite !last_end_app_cons, !last_end_cons.
  - intros i. rewrite !nodes_bit_app. simpl. unfold n'. rewrite node_bit_set by done. btauto.
Qed.

Lemma clear_in_node pre n next bit :
  let m := N.ldiff (bmap n) (N.shiftl 1 (bit - startbit n)) in
  nodes_wf 0 (pre ++ n :: next) → startbit n ≤ bit → bit < startbit n + MAPSIZE →
  last_end pre ≤ bit → m ≠ 0 →
  nodes_wf 0 (pre ++ EBNode (startbit n) m :: next) ∧
  last_end (pre ++ EBNode (startbit n) m :: next) = last_end (pre ++ n :: next) ∧
  ∀ i, nodes_bit (pre ++ EBNode (startbit n) m :: next) i =
       nodes_bit (pre ++ n :: next) i && negb (i =? bit).
Proof.
  intros m Hwf H1 H2 Hle Hm. apply nodes_wf_split in Hwf as (Hp & ? & (? & ? & ? & ?) & Hx).
  split_and!.
  - apply nodes_wf_split. split; [done|]. simpl. unfold node_wf. simpl.
    split_and!; try done; [lia|by apply ldiff_range].
  - by rewrite !last_end_app_cons, !last_end_cons.
  - intros i. rewrite !nodes_bit_app. simpl. unfold m. rewrite node_bit_clear by done.
    destruct (i =? bit) eqn:E; [|btauto]. reflect_bools. subst i.
    rewrite (nodes_bit_pre_false _ _ Hp Hle), (nodes_bit_below _ _ _ Hx H2). btauto.
Qed.

Lemma drop_node pre n next bit :
  nodes_wf 0 (pre ++ n :: next) → startbit n ≤ bit → bit < startbit n + MAPSIZE →
  last_end pre ≤ bit → N.ldiff (bmap n) (N.shiftl 1 (bit - startbit n)) = 0 →
  nodes_wf 0 (pre ++ next) ∧
  ∀ i, nodes_bit (pre ++ next) i = nodes_bit (pre ++ n :: next) i && negb (i =? bit).
Proof.
  intros Hwf H1 H2 Hle Hz. apply nodes_wf_split in Hwf as (Hp & ? & ? & Hx). split.
  - apply nodes_wf_split. split; [done|]. eapply nodes_wf_mono; [|done]. lia.
  - intros i. pose proof (node_bit_clear n bit i H1) as Hc.
    rewrite Hz, node_bit_empty in Hc. rewrite !nodes_bit_app. simpl.
    destruct (i =? bit) eqn:E.
    + reflect_bools. subst i.
      rewrite (nodes_bit_pre_false _ _ Hp Hle), (nodes_bit_below _ _ _ Hx H2). btauto.
    + rewrite andb_true_r in Hc |- *. rewrite <- Hc. btauto.
Qed.

Lemma insert_node pre post bit :
  nodes_wf 0 (pre ++ post) → last_end pre ≤ bit → N.ldiff bit 63 + MAPSIZE < 2 ^ 32 →
  match post with [] => True | n :: _ => bit < startbit n end →
  let new := EBNode (N.ldiff bit 63) (N.shiftl 1 (bit - N.ldiff bit 63)) in
  nodes_wf 0 (pre ++ new :: post) ∧
  ∀ i, nodes_bit (pre ++ new :: post) i = nodes_bit (pre ++ post) i || (i =? bit).
Proof.
  intros Hwf Hle Hov Hpost new. rewrite ldiff_63 in Hov. unfold new. rewrite ldiff_63.
  pose proof (div64_bounds bit) as [Hs1 Hs2]. set (s := bit / 64 * 64) in *.
  assert (s mod MAPSIZE = 0) as Hal by (apply N.Div0.mod_mul).
  clearbody s.
  apply nodes_wf_split in Hwf as [Hp Hx].
  assert (last_end pre ≤ s) as Hls.
  { destruct (decide (s < last_end pre)) as [Hl|]; [|lia].
    apply aligned_lt in Hl; [|done|by eapply last_end_aligned]. unfold MAPSIZE in *. lia. }
  split.
  - apply nodes_wf_split. split; [done|]. split; [done|].
    destruct (lor_bit_range 0 (bit - s)) as [? ?]; [done|lia|].
    rewrite N.lor_0_l in *. split; [done|].
    destruct post as [|n post]; [done|]. destruct Hx as (? & Hn & ?).
    split_and!; [|done..]. apply aligned_lt; [done|apply Hn|]. simpl. lia.
  - intros i. rewrite !nodes_bit_app. simpl.
    pose proof (node_bit_set (EBNode s 0) bit i) as Hs. simpl in Hs.
    rewrite node_bit_empty, N.lor_0_l in Hs. rewrite Hs by (unfold MAPSIZE; lia). btauto.
Qed.

(** ** Specification of [ebitmap_set_bit]

    The only refusal besides a failed allocation is a bit in the last 64
    positions of the 32-bit space. *)
Definition set_bit_post (e : ebitmap) (bit : N) (v : bool) (o : oracle)
    (r : Z * ebitmap) (o' : oracle) : Prop :=
  (o = [] → o' = [] ∧ r.1 ≠ (- ENOMEM)%Z) ∧
  ((r.1 = 0%Z ∧ bit < 2 ^ 32 - 64 ∧ ebitmap_wf r.2 ∧
    ∀ i, ebitmap_bit r.2 i = if i =? bit then v else ebitmap_bit e i)
   ∨ (r = ((- EINVAL)%Z, e) ∧ 2 ^ 32 - 64 ≤ bit)
   ∨ (r = ((- ENOMEM)%Z, e) ∧ v = true)).

Lemma set_bit_overflow bit :
  bit < 2 ^ 32 → (u32 (N.ldiff bit 63 + MAPSIZE) =? 0) = (2 ^ 32 - 64 <=? bit).
Proof.
  intros Hb. rewrite ldiff_63. unfold u32, MAPSIZE.
  pose proof (div64_bounds bit) as [Hs1 Hs2].
  assert ((bit / 64 * 64) mod MAPSIZE = 0) as Hal by (apply N.Div0.mod_mul).
  change (2 ^ 32) with 4294967296 in *. change (4294967296 - 64) with 4294967232.
  generalize dependent (bit / 64 * 64). intros s Hs1 Hs2 Hal.
  destruct (4294967232 <=? bit) eqn:E; reflect_bools.
  - replace (s + 64) with 4294967296; [done|].
    destruct (N.lt_trichotomy s 4294967232) as [Hlt|[->|Hlt]]; [|done|];
      apply aligned_lt in Hlt; try done; unfold MAPSIZE in *; lia.
  - apply N.eqb_neq. rewrite N.mod_small; lia.
Qed.

Lemma set_bit_post_ok e bit v o e' :
  bit < 2 ^ 32 - 64 → ebitmap_wf e' →
  (∀ i, ebitmap_bit e' i = if i =? bit then v else ebitmap_bit e i) →
  set_bit_post e bit v o (0%Z, e') o.
Proof. intros. split; [done|]. left. done. Qed.

Lemma u32_small x : x < 2 ^ 32 → u32 x = x.
Proof. apply N.mod_small. Qed.

Lemma set_bit_new_spec e bit v o pre post :
  ebitmap_wf e → node e = pre ++ post → bit < 2 ^ 32 - 64 → last_end pre ≤ bit →
  match post with [] => True | n :: _ => bit < startbit n end →
  wp (set_bit_new e bit v pre post) o (set_bit_post e bit v o).
Proof.
  intros [Hwf Hh] Hl Hb Hle Hpost. unfold set_bit_new. destruct v; simpl.
  - wp_step. wp_step. intros [] o' Ho; simpl; wp_step.
    + assert (N.ldiff bit 63 + MAPSIZE < 2 ^ 32) as Hov.
      { rewrite ldiff_63. pose proof (div64_bounds bit). unfold MAPSIZE.
        change (2 ^ 32 - 64) with 4294967232 in *. lia. }
      rewrite Hl in Hwf. destruct (insert_node pre post bit Hwf Hle Hov Hpost) as [Hw Hbits].
      split; [naive_solver|]. left. split; [done|]. split; [done|]. split.
      * split; [done|]. simpl. rewrite last_end_app_cons, last_end_cons. simpl.
        destruct post; [by apply u32_small|]. by rewrite Hh, Hl, last_end_app_cons.
      * intros i. unfold ebitmap_bit. simpl. change (MAPSIZE - 1) with 63.
        rewrite Hbits, Hl. destruct (i =? bit); btauto.
    + split; [naive_solver|]. right. by right.
  - wp_step. apply set_bit_post_ok; [done|by split|]. intros i.
    destruct (i =? bit) eqn:E; [|done]. reflect_bools. subst i. unfold ebitmap_bit.
    rewrite Hl in Hwf |- *. apply nodes_wf_split in Hwf as [Hp Hx].
    rewrite nodes_bit_app, (nodes_bit_pre_false _ _ Hp Hle). simpl.
    destruct post as [|n post]; [done|]. apply (nodes_bit_below (startbit n)); [|done].
    by eapply nodes_wf_self.
Qed.

Lemma set_bit_spec e bit v o :
  ebitmap_wf e → bit < 2 ^ 32 →
  wp (ebitmap_set_bit e bit v) o (set_bit_post e bit v o).
Proof.
  intros [Hwf Hh] Hb. unfold ebitmap_set_bit. rewrite set_bit_overflow by done.
  case_bool; reflect_bools.
  { apply wp_ret. unfold set_bit_post. split; [done|]. right. left. done. }
  fold (set_walk bit). destruct (set_walk bit (node e)) as [pre post] eqn:Hw.
  pose proof (set_walk_spec _ _ _ _ Hwf Hw) as (Hl & Hpre & Hpost & Hle & Hcase).
  destruct post as [|n next]; [by apply set_bit_new_spec|].
  destruct (startbit n <=? bit) eqn:E; reflect_bools; [|by apply set_bit_new_spec].
  destruct Hcase as [?|[_ Hlt]]; [lia|]. rewrite Hl in Hwf, Hh.
  destruct v; [|destruct (_ =? 0) eqn:Ez; reflect_bools]; apply wp_ret, set_bit_post_ok; try done;
    unfold ebitmap_wf, ebitmap_bit; cbn [node highbit]; rewrite ?Hl.
  - destruct (set_in_node pre n next bit Hwf E Hlt) as (Hw' & Hle' & _). by rewrite Hle'.
  - intros i. rewrite (proj2 (proj2 (set_in_node pre n next bit Hwf E Hlt))).
    destruct (i =? bit); btauto.
  - destruct (drop_node pre n next bit Hwf E Hlt Hle Ez) as (Hw' & _). split; [done|].
    rewrite last_end_app. destruct next as [|n' next].
    + unfold last_end. destruct (last pre) as [m|] eqn:El; [|done].
      apply u32_small. apply (last_end_bound 0 pre) in Hpre. unfold last_end in Hpre.
      by rewrite El in Hpre.
    + by rewrite Hh, last_end_app_cons, last_end_cons.
  - intros i. rewrite (proj2 (drop_node pre n next bit Hwf E Hlt Hle Ez)).
    destruct (i =? bit); btauto.
  - destruct (clear_in_node pre n next bit Hwf E Hlt Hle Ez) as (Hw' & Hle' & _). by rewrite Hle'.
  - intros i. rewrite (proj2 (proj2 (clear_in_node pre n next bit Hwf E Hlt Hle Ez))).
    destruct (i =? bit); btauto.
Qed.

(** ** Union and copy *)

Lemma node_bit_or s m1 m2 i :
  node_bit (EBNode s (N.lor m1 m2)) i = node_bit (EBNode s m1) i || node_bit (EBNode s m2) i.
Proof. unfold node_bit; simpl. rewrite N.lor_spec. btauto. Qed.

Lemma node_wf_or s m1 m2 :
  node_wf (EBNode s m1) → node_wf (EBNode s m2) → node_wf (EBNode s (N.lor m1 m2)).
Proof.
  intros (? & ? & ? & ?) (? & ? & ? & ?). unfold node_wf in *. simpl in *. split_and!; try done.
  - apply N.neq_0_lt_0. intros [? ?]%N.lor_eq_0_iff. lia.
  - apply lt_pow2_bits. intros j Hj. by rewrite N.lor_spec, !(testbit_high _ 64).
Qed.

(** What a list-building loop promises: a list with the wanted bits, or the
    report of a failed allocation, which an inexhaustible memory excludes. *)
Definition nodes_post (lo : N) (bits : N → bool) (o : oracle)
    (r : option (list ebitmap_node)) (o' : oracle) : Prop :=
  (o = [] → o' = [] ∧ r ≠ None) ∧
  match r with
  | None => True
  | Some l => nodes_wf lo l ∧ ∀ i, nodes_bit l i = bits i
  end.

Lemma nodes_post_cons lo x bits bits' o (m : M (option (list ebitmap_node))) :
  lo ≤ startbit x → node_wf x → (∀ i, bits' i = node_bit x i || bits i) →
  (∀ o', wp m o' (nodes_post (startbit x + MAPSIZE) bits o')) →
  wp (b ← malloc; if negb b then mret None else r ← m; mret (cons x <$> r)) o
     (nodes_post lo bits' o).
Proof.
  intros Hlo Hx Hbits Hm. wp_step. wp_step. intros [] o' Ho; simpl.
  - wp_step. eapply wp_mono; [apply Hm|]. intros r o'' [Ha Hr]. wp_step.
    split; [destruct r; naive_solver|]. destruct r as [l|]; [|done].
    destruct Hr as [Hwf Hb]. split; [done|]. intros i. simpl. by rewrite Hb, Hbits.
  - wp_step. split; [naive_solver|done].
Qed.

Lemma or_loop_spec lo l1 l2 o :
  nodes_wf lo l1 → nodes_wf lo l2 →
  wp (or_loop l1 l2) o (nodes_post lo (λ i, nodes_bit l1 i || nodes_bit l2 i) o).
Proof.
  revert lo l2 o. induction l1 as [|x1 t1 IH1]; intros lo l2 o H1; revert lo o H1.
  { induction l2 as [|x2 t2 IH2]; intros lo o H1 H2; [by apply wp_ret|].
    destruct H2 as (? & ? & ?). eapply nodes_post_cons; try done. intros o'. by apply IH2. }
  induction l2 as [|x2 t2 IH2]; intros lo o H1 H2; cbn [or_loop].
  { destruct H1 as (? & ? & ?).
    apply nodes_post_cons with (λ i, nodes_bit t1 i || nodes_bit [] i); try done.
    - intros i. simpl. btauto.
    - intros o'. by apply IH1. }
  destruct (startbit x1 =? startbit x2) eqn:E1;
    [|destruct (startbit x1 <? startbit x2) eqn:E2]; reflect_bools.
  - destruct x1 as [s m1], x2 as [s2 m2], H1 as (? & ? & ?), H2 as (? & ? & ?).
    simpl in E1. subst s2. eapply nodes_post_cons; [done|by apply node_wf_or| |].
    + intros i. simpl. rewrite node_bit_or.
      instantiate (1 := λ i, nodes_bit t1 i || nodes_bit t2 i). simpl. btauto.
    + intros o'. by apply IH1.
  - pose proof (nodes_wf_gap _ _ _ _ _ _ H1 H2 E2) as H2'. destruct H1 as (? & ? & ?).
    apply nodes_post_cons with (λ i, nodes_bit t1 i || nodes_bit (x2 :: t2) i); try done.
    + intros i. simpl. btauto.
    + intros o'. by apply IH1.
  - assert (startbit x2 < startbit x1) as E3 by lia.
    pose proof (nodes_wf_gap _ _ _ _ _ _ H2 H1 E3) as H1'. destruct H2 as (? & ? & ?).
    apply nodes_post_cons with (λ i, nodes_bit (x1 :: t1) i || nodes_bit t2 i); try done.
    + intros i. simpl. btauto.
    + intros o'. by apply IH2.
Qed.

Lemma last_end_le lo l m :
  nodes_wf lo l → m mod MAPSIZE = 0 → (∀ i, nodes_bit l i = true → i < m) → last_end l ≤ m.
Proof.
  destruct l as [|n l] using rev_ind; intros Hwf Hm Hb; [apply N.le_0_l|].
  rewrite last_end_snoc. apply nodes_wf_app in Hwf as [_ Hn].
  destruct (nodes_wf_first _ _ _ Hn) as (j & Hj & _ & Hbit).
  apply aligned_lt; [apply Hn|done|].
  assert (startbit n + j < m); [|lia]. apply Hb. by rewrite nodes_bit_app, Hbit, orb_true_r.
Qed.

(** The common postcondition of the operations that build a bitmap. *)
Definition build_post (bits : N → bool) (o : oracle) (r : Z * ebitmap) (o' : oracle) : Prop :=
  (o = [] → o' = [] ∧ r.1 = 0%Z) ∧
  ((r.1 = 0%Z ∧ ebitmap_wf r.2 ∧ ∀ i, ebitmap_bit r.2 i = bits i) ∨ (r.1 < 0)%Z).

Lemma or_spec e1 e2 o :
  ebitmap_wf e1 → ebitmap_wf e2 →
  wp (ebitmap_or e1 e2) o (build_post (λ i, ebitmap_bit e1 i || ebitmap_bit e2 i) o).
Proof.
  intros [H1 Hh1] [H2 Hh2]. unfold ebitmap_or. wp_step.
  eapply wp_mono; [by apply (or_loop_spec 0)|]. intros [l|] o' [Ho Hr]; wp_step.
  - split; [naive_solver|]. destruct Hr as [Hwf Hb]. left. split; [done|]. split; [|done].
    split; [done|]. simpl. rewrite Hh1, Hh2.
    assert (last_end (node e1) ≤ last_end l) by (eapply (last_end_mono 0); [done..|];
      intros i Hi; by rewrite Hb, Hi).
    assert (last_end (node e2) ≤ last_end l) by (eapply (last_end_mono 0); [done..|];
      intros i Hi; by rewrite Hb, Hi, orb_true_r).
    case_bool; reflect_bools; (apply N.le_antisymm; [done|]);
      (eapply last_end_le; [done|by eapply last_end_aligned|]);
      (intros i Hi; rewrite Hb in Hi; reflect_bools);
      match goal with H : nodes_bit _ _ = true |- _ => apply (nodes_bit_hi 0) in H; [lia|done] end.
  - split; [naive_solver|]. by right.
Qed.

Lemma cpy_loop_spec l o :
  wp (cpy_loop l) o (λ r o', (o = [] → o' = [] ∧ r ≠ None) ∧ (r = None ∨ r = Some l)).
Proof.
  revert o. induction l as [|x l IH]; intros o; simpl; [apply wp_ret; naive_solver|].
  wp_step. wp_step. intros [] o' Ho; simpl; [|wp_step; naive_solver].
  wp_step. eapply wp_mono; [apply IH|]. intros r o'' [Ha Hr]. wp_step. destruct x; simpl.
  naive_solver.
Qed.

Lemma cpy_spec e o :
  wp (ebitmap_cpy e) o (λ r o', (o = [] → o' = [] ∧ r.1 = 0%Z) ∧
    (r = (0%Z, e) ∨ r = ((- ENOMEM)%Z, ebitmap_init))).
Proof.
  unfold ebitmap_cpy. wp_step. eapply wp_mono; [apply cpy_loop_spec|].
  intros [l|] o' [Ho Hr]; wp_step; (split; [naive_solver|]).
  - left. destruct e. naive_solver.
  - by right.
Qed.

(** ** The bit-by-bit operations *)

Lemma last_end_max lo l : nodes_wf lo l → last_end l ≤ 2 ^ 32 - 64.
Proof.
  intros H. pose proof (last_end_bound _ _ H). pose proof (last_end_aligned _ _ H).
  apply (aligned_lt _ (2 ^ 32)) in H0; [|done..]. change (2 ^ 32 - 64) with 4294967232.
  change (2 ^ 32) with 4294967296 in *. unfold MAPSIZE in *. lia.
Qed.

Lemma highbit_max e : ebitmap_wf e → highbit e ≤ 2 ^ 32 - 64.
Proof. intros [? ->]. by eapply last_end_max. Qed.

Definition tested (t : option bool) : bool := match t with Some b => b | None => false end.

Lemma set_bits_loop_spec test len o :
  len ≤ 2 ^ 32 - 64 →
  wp (set_bits_loop test len) o (build_post (λ i, (i <? len) && tested (test i)) o).
Proof.
  intros Hlen. change (2 ^ 32 - 64) with 4294967232 in Hlen. unfold set_bits_loop. wp_step.
  apply wp_for_up with (I := λ i dst o', (o = [] → o' = []) ∧ ebitmap_wf dst ∧
    ∀ j, ebitmap_bit dst j = (j <? i) && tested (test j)).
  - split; [done|]. split; [done|]. intros j. by destruct j.
  - intros j dst o' Hj (Ho & Hwf & Hb).
    assert (∀ k, ebitmap_bit dst k = if k =? j then false else ebitmap_bit dst k) as Hk.
    { intros k. destruct (k =? j) eqn:E; [|done]. reflect_bools. subst.
      rewrite Hb. by rewrite N.ltb_irrefl. }
    assert (∀ k v, tested (test j) = v →
       (if k =? j then v else ebitmap_bit dst k) = (k <? j + 1) && tested (test k)) as Hstep.
    { intros k v Hv. destruct (k =? j) eqn:E; reflect_bools.
      - subst. by rewrite (proj2 (N.ltb_lt j (j + 1))) by lia.
      - rewrite Hb. f_equal. apply eq_true_iff_eq. rewrite !N.ltb_lt. lia. }
    destruct (test j) as [val|] eqn:Ht.
    + wp_step. eapply wp_mono; [apply set_bit_spec; [done|change (2 ^ 32) with 4294967296; lia]|].
      intros [rc dst'] o'' [Ho' [(Hrc & _ & Hwf' & Hb')|[[Hr Hbad]|[Hr ?]]]]; simplify_eq/=.
      * wp_step. split; [naive_solver|]. split; [done|]. intros k. rewrite Hb'. by apply Hstep.
      * change (2 ^ 32 - 64) with 4294967232 in Hbad. lia.
      * wp_step. wp_step. split; [naive_solver|]. by right.
    + wp_step. split; [done|]. split; [done|]. intros k. rewrite Hk. by apply Hstep.
  - intros dst o' (Ho & Hwf & Hb). wp_step. split; [naive_solver|]. left.
    rewrite N2Nat.id, N.add_0_l in Hb. done.
Qed.

Lemma build_post_ext bits bits' o r o' :
  (∀ i, bits i = bits' i) → build_post bits o r o' → build_post bits' o r o'.
Proof.
  intros Hext [Ho [(Hrc & Hwf & Hb)|Hrc]]; (split; [done|]); [|by right].
  left. split; [done|]. split; [done|]. intros i. by rewrite Hb, Hext.
Qed.

Lemma and_spec e1 e2 o :
  ebitmap_wf e1 → ebitmap_wf e2 →
  wp (ebitmap_and e1 e2) o (build_post (λ i, ebitmap_bit e1 i && ebitmap_bit e2 i) o).
Proof.
  intros H1 H2. pose proof (highbit_max _ H1). pose proof (highbit_max _ H2).
  eapply wp_mono; [apply set_bits_loop_spec; unfold ebitmap_length; by case_bool|].
  intros r o'. apply build_post_ext. intros i. rewrite !get_bit_wf by done.
  unfold ebitmap_length. destruct (ebitmap_bit e1 i) eqn:E1, (ebitmap_bit e2 i) eqn:E2;
    simpl; rewrite ?andb_false_r; try done.
  apply ebitmap_bit_hi in E1, E2; try done. rewrite andb_true_r.
  apply N.ltb_lt. by case_bool.
Qed.

Lemma xor_spec e1 e2 o :
  ebitmap_wf e1 → ebitmap_wf e2 →
  wp (ebitmap_xor e1 e2) o (build_post (λ i, xorb (ebitmap_bit e1 i) (ebitmap_bit e2 i)) o).
Proof.
  intros H1 H2. pose proof (highbit_max _ H1). pose proof (highbit_max _ H2).
  eapply wp_mono; [apply set_bits_loop_spec; unfold ebitmap_length; by case_bool|].
  intros r o'. apply build_post_ext. intros i. rewrite !get_bit_wf by done. unfold ebitmap_length.
  destruct (i <? _) eqn:Ei; [done|]. simpl. reflect_bools.
  rewrite (ebitmap_bit_high e1), (ebitmap_bit_high e2); try done; case_bool; reflect_bools; lia.
Qed.

Lemma not_spec e1 maxbit o :
  ebitmap_wf e1 → maxbit ≤ 2 ^ 32 - 64 →
  wp (ebitmap_not e1 maxbit) o (build_post (λ i, (i <? maxbit) && negb (ebitmap_bit e1 i)) o).
Proof.
  intros H1 Hm. eapply wp_mono; [by apply set_bits_loop_spec|].
  intros r o'. apply build_post_ext. intros i. simpl. by rewrite get_bit_wf.
Qed.

Lemma andnot_spec e1 e2 maxbit o :
  ebitmap_wf e1 → ebitmap_wf e2 → maxbit ≤ 2 ^ 32 - 64 →
  wp (ebitmap_andnot e1 e2 maxbit) o
    (build_post (λ i, ebitmap_bit e1 i && negb (ebitmap_bit e2 i) && (i <? maxbit)) o).
Proof.
  intros H1 H2 Hm. unfold ebitmap_andnot. wp_step. eapply wp_mono; [by apply not_spec|].
  intros [rc e3] o' [Ho Hr]; simpl in Ho, Hr. destruct Hr as [(-> & Hwf & Hb)|Hrc].
  - change (0 <? 0)%Z with false. cbv iota. wp_step. eapply wp_mono; [by apply and_spec|].
    intros [rc dst] o'' [Ho' Hr]; simpl in Ho', Hr. destruct Hr as [(-> & Hwf' & Hb')|Hrc].
    + change (0 <? 0)%Z with false. cbv iota. wp_step. split; [naive_solver|]. left.
      split; [done|]. split; [done|]. intros i. cbn [snd]. rewrite Hb', Hb. btauto.
    + rewrite (proj2 (Z.ltb_lt _ _) Hrc). wp_step. split; [naive_solver|]. by right.
  - rewrite (proj2 (Z.ltb_lt _ _) Hrc). wp_step. split; [naive_solver|]. by right.
Qed.

(** ** Counting *)

Fixpoint count_bits (bits : N → bool) (cnt : nat) (i : N) : N :=
  match cnt with
  | O => 0
  | S cnt' => (if bits i then 1 else 0) + count_bits bits cnt' (i + 1)
  end.

Lemma count_bits_le bits cnt i : count_bits bits cnt i ≤ N.of_nat cnt.
Proof. revert i. induction cnt as [|cnt IH]; intros i; simpl; [lia|]. specialize (IH (i + 1)). case_bool; lia. Qed.

Lemma count_bits_ext bits bits' cnt i :
  (∀ j, bits j = bits' j) → count_bits bits cnt i = count_bits bits' cnt i.
Proof. intros H. revert i. induction cnt as [|cnt IH]; intros i; simpl; [done|]. by rewrite H, IH. Qed.

Lemma count_bits_split bits a b i :
  count_bits bits (a + b) i = count_bits bits a i + count_bits bits b (i + N.of_nat a).
Proof.
  revert i. induction a as [|a IH]; intros i; simpl; [by rewrite N.add_0_r|].
  rewrite IH. replace (i + N.of_nat (S a)) with (i + 1 + N.of_nat a) by lia. lia.
Qed.

Lemma count_bits_zero bits cnt i :
  (∀ j, i ≤ j → j < i + N.of_nat cnt → bits j = false) → count_bits bits cnt i = 0.
Proof.
  revert i. induction cnt as [|cnt IH]; intros i H; simpl; [done|].
  rewrite H by lia. rewrite IH; [done|]. intros j ? ?. apply H; lia.
Qed.

Lemma card_loop_spec e cnt i count :
  count + N.of_nat cnt < 2 ^ 32 →
  card_loop e cnt i count = count + count_bits (ebitmap_get_bit e) cnt i.
Proof.
  revert i count. induction cnt as [|cnt IH]; intros i count Hc; simpl; [lia|].
  destruct (ebitmap_get_bit e i); rewrite IH; rewrite ?u32_small; lia.
Qed.

(** The loop starts at the first node; no bit is missed before it. *)
Lemma cardinality_count e :
  ebitmap_wf e → ebitmap_cardinality e = count_bits (ebitmap_bit e) (N.to_nat (highbit e)) 0.
Proof.
  intros Hwf. unfold ebitmap_cardinality, ebitmap_length.
  pose proof (highbit_max e Hwf) as Hm. change (2 ^ 32 - 64) with 4294967232 in Hm.
  rewrite card_loop_spec by (change (2 ^ 32) with 4294967296; lia).
  rewrite (count_bits_ext _ (ebitmap_bit e)) by (intros; by apply get_bit_wf).
  assert (ebitmap_startbit e ≤ highbit e) as Hs.
  { destruct Hwf as [Hl ->]. unfold ebitmap_startbit. destruct (node e) as [|n l]; [done|].
    apply nodes_wf_last in Hl. lia. }
  replace (N.to_nat (highbit e)) with
    (N.to_nat (ebitmap_startbit e) + N.to_nat (highbit e - ebitmap_startbit e))%nat by lia.
  rewrite count_bits_split, N2Nat.id, !N.add_0_l.
  rewrite (count_bits_zero _ (N.to_nat (ebitmap_startbit e)) 0); [done|].
  intros j _ Hj. rewrite N2Nat.id in Hj. unfold ebitmap_startbit in Hj. unfold ebitmap_bit.
  destruct (node e) as [|n l] eqn:El; [lia|].
  apply (nodes_bit_below (startbit n)); [|lia]. destruct Hwf as [Hl _]. rewrite El in Hl.
  by eapply nodes_wf_self.
Qed.

Lemma count_bits_high e cnt :
  ebitmap_wf e → (N.to_nat (highbit e) ≤ cnt)%nat →
  count_bits (ebitmap_bit e) (N.to_nat (highbit e)) 0 = count_bits (ebitmap_bit e) cnt 0.
Proof.
  intros Hwf Hc. replace cnt with (N.to_nat (highbit e) + (cnt - N.to_nat (highbit e)))%nat by lia.
  rewrite count_bits_split. rewrite (count_bits_zero _ (cnt - _)); [lia|].
  intros j ? ?. apply ebitmap_bit_high; [done|lia].
Qed.

(** * Iteration visits every node, bit by bit, and is defined *)

Definition node_positions (n : ebitmap_node) : list N := seqN (startbit n) 64.

Definition ebitmap_positions (e : ebitmap) : list N := node e ≫= node_positions.

Lemma for_each_bit_step {R St} high (body : N → bool → St → M (R + St)) bits fuel
    lo n l k bit s o :
  nodes_wf lo (n :: l) → high = last_end (n :: l) →
  bit + N.of_nat k = startbit n + MAPSIZE → startbit n ≤ bit →
  (N.to_nat (high - bit) ≤ fuel)%nat →
  (∀ i, startbit n ≤ i → bits i = nodes_bit (n :: l) i) →
  (∀ n' l' fuel s o, l = n' :: l' → (N.to_nat (high - startbit n') ≤ fuel)%nat →
     for_each_bit_loop high body fuel l (startbit n') s o =
     for_list (λ i, body i (bits i)) (l ≫= node_positions) s o) →
  (0 < k)%nat →
  for_each_bit_loop high body fuel (n :: l) bit s o =
  for_list (λ i, body i (bits i)) (seqN bit k ++ (l ≫= node_positions)) s o.
Proof.
  intros Hwf Hhigh. revert fuel bit s o.
  induction k as [|k IH]; intros fuel bit s o Hk Hlo Hfuel Hbits Hrest Hpos; [lia|].
  pose proof (nodes_wf_last _ _ _ Hwf) as Hend. rewrite <- Hhigh in Hend.
  destruct fuel as [|fuel]; [unfold MAPSIZE in *; lia|]. cbn [for_each_bit_loop seqN app for_list].
  rewrite (proj2 (N.leb_gt high bit)) by (unfold MAPSIZE in *; lia).
  rewrite (proj2 (N.leb_le (startbit n) bit)), (proj2 (N.ltb_lt (bit - startbit n) MAPSIZE)) by lia.
  cbn [andb]. rewrite truth_land_bit, (Hbits bit), (nodes_bit_cons_in lo) by (done || lia).
  rewrite !bind_run.
  destruct (body bit _ s o) as [[x|s'] o'|]; [done| |done].
  destruct k as [|k].
  - cbn [seqN app]. destruct l as [|n' l'].
    + rewrite last_end_cons in Hhigh. destruct fuel; cbn [for_each_bit_loop];
        rewrite (proj2 (N.leb_le high (bit + 1))) by lia; done.
    + rewrite (proj2 (N.eqb_eq bit _)) by (unfold MAPSIZE in *; lia).
      destruct Hwf as (_ & _ & ? & _). eapply Hrest; [done|]. unfold MAPSIZE in *. lia.
  - rewrite <- N.add_1_r. destruct l as [|n' l'].
    + apply IH; try done; lia.
    + rewrite (proj2 (N.eqb_neq bit _)) by (unfold MAPSIZE in *; lia). apply IH; try done; lia.
Qed.

Lemma for_each_bit_loop_spec {R St} high (body : N → bool → St → M (R + St)) bits fuel
    lo n l s o :
  nodes_wf lo (n :: l) → high = last_end (n :: l) →
  (N.to_nat (high - startbit n) ≤ fuel)%nat →
  (∀ i, startbit n ≤ i → bits i = nodes_bit (n :: l) i) →
  for_each_bit_loop high body fuel (n :: l) (startbit n) s o =
  for_list (λ i, body i (bits i)) ((n :: l) ≫= node_positions) s o.
Proof.
  revert fuel lo n s o. induction l as [|n' l IH]; intros fuel lo n s o Hwf Hhigh Hfuel Hbits;
    apply (for_each_bit_step _ _ _ _ lo _ _ 64); try done; try lia.
  intros n'' l'' fuel' s' o' [= <- <-] Hfuel'. destruct Hwf as (_ & _ & Hl).
  eapply IH; [done| |done|].
  - by rewrite last_end_cons in Hhigh.
  - intros i Hi. rewrite Hbits by (destruct Hl; unfold MAPSIZE in *; lia).
    apply nodes_bit_cons_out. destruct Hl. lia.
Qed.

(** The macro never runs off the node list and tests the bits of the set. *)
Lemma for_each_bit_visited {R St} e (s : St) (body : N → bool → St → M (R + St)) o :
  ebitmap_wf e →
  ebitmap_for_each_bit e s body o =
  for_list (λ i, body i (ebitmap_bit e i)) (ebitmap_positions e) s o.
Proof.
  intros [Hwf Hh]. unfold ebitmap_for_each_bit, ebitmap_length, ebitmap_startbit, ebitmap_positions.
  destruct e as [[|n l] h]; simpl in *; subst h; [done|].
  rewrite (for_each_bit_loop_spec _ _ (ebitmap_bit (EBitmap (n :: l) (last_end (n :: l)))) _ 0);
    try done. lia.
Qed.

Lemma elem_of_positions e i :
  i ∈ ebitmap_positions e ↔ ∃ n, n ∈ node e ∧ startbit n ≤ i < startbit n + MAPSIZE.
Proof.
  unfold ebitmap_positions. rewrite list_elem_of_bind. unfold node_positions, MAPSIZE.
  split; intros (n & H1 & H2); exists n; rewrite elem_of_seqN in *; split; done.
Qed.

Lemma bit_position e i : ebitmap_bit e i = true → i ∈ ebitmap_positions e.
Proof.
  intros (n & Hn & Hi)%existsb_exists. apply elem_of_positions. exists n.
  split; [by apply list_elem_of_In|]. unfold node_bit in Hi. reflect_bools. lia.
Qed.

(** * Remaining operations *)

Lemma union_spec dst e1 o :
  ebitmap_wf dst → ebitmap_wf e1 →
  wp (ebitmap_union dst e1) o (λ r o', (o = [] → o' = [] ∧ r.1 = 0%Z) ∧
    ((r.1 = 0%Z ∧ ebitmap_wf r.2 ∧ ∀ i, ebitmap_bit r.2 i = ebitmap_bit dst i || ebitmap_bit e1 i) ∨
     r = ((-1)%Z, dst))).
Proof.
  intros H1 H2. unfold ebitmap_union. wp_step. eapply wp_mono; [by apply or_spec|].
  intros [rc tmp] o' [Ho Hr]; simpl in Ho, Hr. destruct Hr as [(-> & ? & ?)|Hrc].
  - rewrite bool_decide_eq_false_2 by naive_solver. wp_step. simpl. naive_solver.
  - rewrite bool_decide_eq_true_2 by lia. wp_step. simpl. split; [intros Hn; apply Ho in Hn; lia|by right].
Qed.

Lemma match_any_spec e1 e2 :
  ebitmap_wf e1 → ebitmap_wf e2 →
  ebitmap_match_any e1 e2 = true ↔ ∃ i, ebitmap_bit e1 i = true ∧ ebitmap_bit e2 i = true.
Proof. intros [? _] [? _]. by apply (match_any_loop_spec 0). Qed.

Lemma s32_small x : x < 2 ^ 31 → s32 x = Z.of_N x.
Proof.
  intros Hx. unfold s32. rewrite u32_small.
  - by rewrite (proj2 (N.ltb_lt _ _) Hx).
  - change (2 ^ 31) with 2147483648 in Hx. change (2 ^ 32) with 4294967296. lia.
Qed.

(** The distance counts the positions where two bitmaps below bit [2^31]
    differ. *)
Lemma hamming_spec e1 e2 o :
  ebitmap_wf e1 → ebitmap_wf e2 → highbit e1 ≤ 2 ^ 31 - 64 → highbit e2 ≤ 2 ^ 31 - 64 →
  wp (ebitmap_hamming_distance e1 e2) o (λ r o', (o = [] → o' = [] ∧ (0 ≤ r)%Z) ∧
    (r = (-1)%Z ∨
     r = Z.of_N (count_bits (λ i, xorb (ebitmap_bit e1 i) (ebitmap_bit e2 i))
                            (N.to_nat (N.max (highbit e1) (highbit e2))) 0))).
Proof.
  intros H1 H2 Hh1 Hh2. change (2 ^ 31 - 64) with 2147483584 in *. unfold ebitmap_hamming_distance.
  destruct (ebitmap_cmp e1 e2) eqn:E.
  - apply ebitmap_cmp_eq in E as ->. wp_step. split; [done|]. right.
    rewrite count_bits_zero; [done|]. intros. apply xorb_nilpotent.
  - wp_step. eapply wp_mono; [by apply xor_spec|].
    intros [rc tmp] o' [Ho Hr]; simpl in Ho, Hr. destruct Hr as [(-> & Hwf & Hb)|Hrc].
    + change (0 <? 0)%Z with false. cbv iota. wp_step.
      rewrite (count_bits_ext _ (ebitmap_bit tmp)) by (intros; by rewrite Hb).
      assert (highbit tmp ≤ N.max (highbit e1) (highbit e2)) as Hle.
      { destruct Hwf as [Hn ->]. apply (last_end_le 0); [done| |].
        - destruct H1 as [Hn1 ->], H2 as [Hn2 ->].
          destruct (N.max_spec (last_end (node e1)) (last_end (node e2))) as [[_ ->]|[_ ->]];
            by eapply last_end_aligned.
        - intros i Hi. change (nodes_bit (node tmp) i) with (ebitmap_bit tmp i) in Hi.
          rewrite Hb in Hi. destruct (ebitmap_bit e1 i) eqn:B1, (ebitmap_bit e2 i) eqn:B2; try done.
          + apply ebitmap_bit_hi in B1; [lia|done].
          + apply ebitmap_bit_hi in B2; [lia|done]. }
      rewrite cardinality_count by done. rewrite (count_bits_high tmp (N.to_nat (N.max (highbit e1) (highbit e2)))) by (done || lia).
      rewrite s32_small; [split; [intros ?; split; [naive_solver|lia]|by right]|].
      change (2 ^ 31) with 2147483648.
      pose proof (count_bits_le (ebitmap_bit tmp) (N.to_nat (N.max (highbit e1) (highbit e2))) 0). lia.
    + rewrite (proj2 (Z.ltb_lt rc 0)) by done. wp_step. split; [intros Hn; apply Ho in Hn; lia|by left].
Qed.

(** * Theorems *)

#[global] Instance node_wf_dec n : Decision (node_wf n).
Proof. unfold node_wf. apply _. Defined.
#[global] Instance nodes_wf_dec lo l : Decision (nodes_wf lo l).
Proof. revert lo. induction l as [|n l IH]; intros lo; simpl; apply _. Defined.
#[global] Instance ebitmap_wf_dec e : Decision (ebitmap_wf e).
Proof. unfold ebitmap_wf. apply _. Defined.

Ltac by_decide := apply (bool_decide_unpack _); vm_compute; exact I.

(** Two bitmaps with three nodes that share some, a gap and a top bit. *)
Definition ex_bitmap1 : ebitmap := EBitmap [EBNode 0 5; EBNode 64 (2 ^ 63); EBNode 256 1] 320.
Definition ex_bitmap2 : ebitmap := EBitmap [EBNode 0 6; EBNode 128 3] 192.

(** C17: [ebitmap_set_bit] on a well-formed bitmap is defined for every answer
    of the allocator.  It returns 0 and changes exactly the given bit, keeping
    the bitmap well-formed, or refuses a bit of the last word of the 32-bit
    range with -EINVAL, or fails with -ENOMEM, and both failures leave the
    bitmap as it was.  -ENOMEM needs a failed allocation. *)
Theorem ebitmap_set_bit_correct e bit v o :
  ebitmap_wf e → bit < 2 ^ 32 →
  wp (ebitmap_set_bit e bit v) o (λ r o',
    (o = [] → o' = [] ∧ r.1 ≠ (- ENOMEM)%Z) ∧
    ((r.1 = 0%Z ∧ bit < 2 ^ 32 - 64 ∧ ebitmap_wf r.2 ∧
      ∀ i, ebitmap_get_bit r.2 i = if i =? bit then v else ebitmap_get_bit e i)
     ∨ (r = ((- EINVAL)%Z, e) ∧ 2 ^ 32 - 64 ≤ bit)
     ∨ (r = ((- ENOMEM)%Z, e) ∧ v = true))).
Proof.
  intros Hwf Hb. eapply wp_mono; [by apply set_bit_spec|].
  intros [rc e'] o' [Ho Hr]. split; [done|]. simpl in *.
  destruct Hr as [(? & ? & ? & Hbits)|Hr]; [left|by right].
  split_and!; try done. intros i. by rewrite !get_bit_wf, Hbits.
Qed.

Lemma ebitmap_set_bit_correct_witness :
  ebitmap_wf ex_bitmap1 ∧ 70 < 2 ^ 32 ∧
  ∃ r o', ebitmap_set_bit ex_bitmap1 70 true [] = Ret r o' ∧ ebitmap_get_bit r.2 70 = true.
Proof.
  assert (ebitmap_wf ex_bitmap1) as Hwf by by_decide. split; [done|]. split; [done|].
  pose proof (ebitmap_set_bit_correct ex_bitmap1 70 true [] Hwf ltac:(done)) as H.
  apply (proj1 (wp_run _ _ _)) in H as (r & o' & Hr & Ho & [(_ & _ & _ & Hb)|[[_ Hbad]|[-> _]]]).
  - exists r, o'. split; [done|]. by rewrite Hb.
  - by vm_compute in Hbad.
  - by destruct (Ho eq_refl) as [_ []].
Defined.

(** The representation is canonical and the comparisons decide the
    relations on sets: on well-formed bitmaps [ebitmap_cmp] decides equality of
    the bits, [ebitmap_contains] inclusion, [ebitmap_match_any] a common bit. *)
Theorem ebitmap_comparisons e1 e2 :
  ebitmap_wf e1 → ebitmap_wf e2 →
  (ebitmap_cmp e1 e2 = true ↔ ∀ i, ebitmap_get_bit e1 i = ebitmap_get_bit e2 i) ∧
  (ebitmap_contains e1 e2 = true ↔
     ∀ i, ebitmap_get_bit e2 i = true → ebitmap_get_bit e1 i = true) ∧
  (ebitmap_match_any e1 e2 = true ↔
     ∃ i, ebitmap_get_bit e1 i = true ∧ ebitmap_get_bit e2 i = true).
Proof.
  intros H1 H2. split_and!.
  - rewrite ebitmap_cmp_eq. split; [by intros ->|]. intros Hext. apply ebitmap_ext; [done..|].
    intros i. by rewrite <- !get_bit_wf.
  - rewrite ebitmap_contains_subset by done. by setoid_rewrite get_bit_wf.
  - rewrite match_any_spec by done. by setoid_rewrite get_bit_wf.
Qed.

Lemma ebitmap_comparisons_witness :
  ebitmap_contains ex_bitmap1 ex_bitmap2 = false ∧
  ∃ i, ebitmap_get_bit ex_bitmap1 i = true ∧ ebitmap_get_bit ex_bitmap2 i = true.
Proof.
  split; [by vm_compute|].
  by apply (ebitmap_comparisons ex_bitmap1 ex_bitmap2 ltac:(by_decide) ltac:(by_decide)).
Defined.

(** C18: the set operations.  Whatever the allocator answers, [ebitmap_or],
    [ebitmap_and], [ebitmap_xor], [ebitmap_not] and [ebitmap_andnot] on
    well-formed bitmaps are defined and either fail with a negative code or
    produce a well-formed bitmap whose bits are the Boolean combination; they
    cannot fail when memory is available.  [ebitmap_union] replaces its
    destination only on success. *)
Theorem ebitmap_set_operations e1 e2 maxbit o :
  ebitmap_wf e1 → ebitmap_wf e2 → maxbit ≤ 2 ^ 32 - 64 →
  wp (ebitmap_or e1 e2) o (build_post (λ i, ebitmap_bit e1 i || ebitmap_bit e2 i) o) ∧
  wp (ebitmap_and e1 e2) o (build_post (λ i, ebitmap_bit e1 i && ebitmap_bit e2 i) o) ∧
  wp (ebitmap_xor e1 e2) o (build_post (λ i, xorb (ebitmap_bit e1 i) (ebitmap_bit e2 i)) o) ∧
  wp (ebitmap_not e1 maxbit) o (build_post (λ i, (i <? maxbit) && negb (ebitmap_bit e1 i)) o) ∧
  wp (ebitmap_andnot e1 e2 maxbit) o
    (build_post (λ i, ebitmap_bit e1 i && negb (ebitmap_bit e2 i) && (i <? maxbit)) o) ∧
  wp (ebitmap_union e1 e2) o (λ r o', (o = [] → o' = [] ∧ r.1 = 0%Z) ∧
    ((r.1 = 0%Z ∧ ebitmap_wf r.2 ∧
      ∀ i, ebitmap_bit r.2 i = ebitmap_bit e1 i || ebitmap_bit e2 i) ∨
     r = ((-1)%Z, e1))).
Proof.
  intros H1 H2 Hm.
  split_and!; [apply or_spec|apply and_spec|apply xor_spec|apply not_spec|apply andnot_spec|
               apply union_spec]; done.
Qed.

Lemma ebitmap_set_operations_witness :
  ∃ r o', ebitmap_andnot ex_bitmap1 ex_bitmap2 200 [] = Ret r o' ∧ r.1 = 0%Z ∧
    ebitmap_bit r.2 0 = true ∧ ebitmap_bit r.2 256 = false.
Proof.
  destruct (ebitmap_set_operations ex_bitmap1 ex_bitmap2 200 [] ltac:(by_decide) ltac:(by_decide)
              ltac:(done)) as (_ & _ & _ & _ & H & _).
  apply (proj1 (wp_run _ _ _)) in H as (r & o' & Hr & Ho & Hc). destruct (Ho eq_refl) as [_ Hrc].
  exists r, o'. split_and!; [done|done| |]; (destruct Hc as [(_ & _ & Hb)|Hneg]; [by rewrite Hb|lia]).
Defined.

(** C19: [ebitmap_for_each_bit] on a well-formed bitmap, with any body, never
    dereferences a null node and never shifts past the word: it is the loop
    over the positions its nodes cover, in order, giving the body each
    position's bit; every set bit is among these positions. *)
Theorem ebitmap_for_each_bit_correct {R St} e (s : St) (body : N → bool → St → M (R + St)) o :
  ebitmap_wf e →
  ebitmap_for_each_bit e s body o =
    for_list (λ i, body i (ebitmap_bit e i)) (ebitmap_positions e) s o ∧
  ∀ i, ebitmap_bit e i = true → i ∈ ebitmap_positions e.
Proof. intros Hwf. split; [by apply for_each_bit_visited|apply bit_position]. Qed.

Lemma ebitmap_for_each_bit_correct_witness :
  ebitmap_for_each_bit (R := unit) ex_bitmap1 []
    (λ i b acc, mret (inr (if b then i :: acc else acc))) [] = Ret (inr [256; 127; 2; 0]) [].
Proof.
  rewrite (proj1 (ebitmap_for_each_bit_correct ex_bitmap1 [] _ [] ltac:(by_decide))).
  by vm_compute.
Defined.

(** [ebitmap_cardinality] counts the set bits and
    [ebitmap_hamming_distance] the positions where two bitmaps differ; the
    distance fails (-1) only on a failed allocation.  The distance is an [int],
    so the bitmaps must end below bit 2^31. *)
Theorem ebitmap_counts e1 e2 o :
  ebitmap_wf e1 → ebitmap_wf e2 → highbit e1 ≤ 2 ^ 31 - 64 → highbit e2 ≤ 2 ^ 31 - 64 →
  ebitmap_cardinality e1 = count_bits (ebitmap_bit e1) (N.to_nat (highbit e1)) 0 ∧
  wp (ebitmap_hamming_distance e1 e2) o (λ r o', (o = [] → o' = [] ∧ (0 ≤ r)%Z) ∧
    (r = (-1)%Z ∨
     r = Z.of_N (count_bits (λ i, xorb (ebitmap_bit e1 i) (ebitmap_bit e2 i))
                            (N.to_nat (N.max (highbit e1) (highbit e2))) 0))).
Proof. intros. split; [by apply cardinality_count|by apply hamming_spec]. Qed.

Lemma ebitmap_counts_witness : ebitmap_cardinality ex_bitmap1 = 4.
Proof.
  rewrite (proj1 (ebitmap_counts ex_bitmap1 ex_bitmap2 [] ltac:(by_decide) ltac:(by_decide)
                    ltac:(done) ltac:(done))).
  by vm_compute.
Defined.
