(* ===== verification/PolicyFile.v ===== *)
(** The policy file and the codec of bitmaps: [struct policy_file] of
    libsepol/include/sepol/policydb/policydb.h, [next_entry] and [put_entry] of
    libsepol/src/services.c, [ebitmap_read] of libsepol/src/ebitmap.c and
    [ebitmap_write] of libsepol/src/write.c.

    A file in memory is a zipper around the [data] pointer: the bytes before
    it, the bytes from it on, and the length the code believes remains.  A
    stdio stream is its unread bytes, its written bytes and the room left on
    the device.  Words are little-endian, as the format is. *)

From S2P Require Import Prelude Ebitmap.
Local Open Scope N_scope.

(** * Little-endian words *)

Fixpoint le_split (n : nat) (x : N) : list N :=
  match n with O => [] | S n' => x mod 256 :: le_split n' (x / 256) end.

Fixpoint le_combine (l : list N) : N :=
  match l with [] => 0 | b :: l' => b + 256 * le_combine l' end.

(** [cpu_to_le32] and the others, as the bytes they put in the buffer, and
    [leXX_to_cpu(buf[i])] on the bytes of the buffer. *)
Definition cpu_to_le16 (x : N) : list N := le_split 2 x.
Definition cpu_to_le32 (x : N) : list N := le_split 4 x.
Definition cpu_to_le64 (x : N) : list N := le_split 8 x.
Definition le16_at (buf : list N) (i : nat) : N := le_combine (take 2 (drop (2 * i) buf)).
Definition le32_at (buf : list N) (i : nat) : N := le_combine (take 4 (drop (4 * i) buf)).
Definition le64_at (buf : list N) (i : nat) : N := le_combine (take 8 (drop (8 * i) buf)).

(** * The file *)

Inductive pf_type := PF_USE_MEMORY | PF_USE_STDIO | PF_LEN | PF_OTHER.

Record stdio_file := StdioFile { f_unread : list N; f_written : list N; f_room : N }.

Record policy_file := PolicyFile {
  pf_kind : pf_type; pf_before : list N; pf_data : list N; pf_len : N; pf_fp : stdio_file }.

(** [fread(buf, size, 1, fp)]: the item, if it is there in full; what is left
    of a short stream is consumed. *)
Definition fread (size : N) (f : stdio_file) : option (list N) * stdio_file :=
  if (0 <? size) && (size <=? N.of_nat (length (f_unread f))) then
    (Some (take (N.to_nat size) (f_unread f)),
     StdioFile (drop (N.to_nat size) (f_unread f)) (f_written f) (f_room f))
  else (None, StdioFile (if size =? 0 then f_unread f else []) (f_written f) (f_room f)).

(** [fwrite(ptr, size, n, fp)]: the number of items written. *)
Definition fwrite (ptr : list N) (size n : N) (f : stdio_file) : N * stdio_file :=
  if (size =? 0) || (n =? 0) then (0, f) else
  let k := N.min n (f_room f / size) in
  (k, StdioFile (f_unread f) (f_written f ++ take (N.to_nat (k * size)) ptr)
        (f_room f - k * size)).

Definition next_entry (fp : policy_file) (bytes : N) : M (option (list N) * policy_file) :=
  match pf_kind fp with
  | PF_USE_STDIO =>
      let '(buf, f) := fread bytes (pf_fp fp) in
      mret (buf, PolicyFile PF_USE_STDIO (pf_before fp) (pf_data fp) (pf_len fp) f)
  | PF_USE_MEMORY =>
      if pf_len fp <? bytes then mret (None, fp) else
      if N.of_nat (length (pf_data fp)) <? bytes then ub else
      let buf := take (N.to_nat bytes) (pf_data fp) in
      mret (Some buf, PolicyFile PF_USE_MEMORY (pf_before fp ++ buf)
                        (drop (N.to_nat bytes) (pf_data fp)) (pf_len fp - bytes) (pf_fp fp))
  | _ => mret (None, fp)
  end.

Definition put_entry (ptr : list N) (size n : N) (fp : policy_file) : M (N * policy_file) :=
  let bytes := u64 (size * n) in
  match pf_kind fp with
  | PF_USE_STDIO =>
      let '(k, f) := fwrite ptr size n (pf_fp fp) in
      mret (k, PolicyFile PF_USE_STDIO (pf_before fp) (pf_data fp) (pf_len fp) f)
  | PF_USE_MEMORY =>
      if pf_len fp <? bytes then mret (0, fp) else
      if N.of_nat (length (pf_data fp)) <? bytes then ub else
      mret (n, PolicyFile PF_USE_MEMORY (pf_before fp ++ take (N.to_nat bytes) ptr)
                 (drop (N.to_nat bytes) (pf_data fp)) (pf_len fp - bytes) (pf_fp fp))
  | PF_LEN =>
      mret (n, PolicyFile PF_LEN (pf_before fp) (pf_data fp) (u64 (pf_len fp + bytes)) (pf_fp fp))
  | PF_OTHER => mret (0, fp)
  end.

(** * Bitmaps in the file *)

Definition POLICYDB_SUCCESS : Z := 0.
Definition POLICYDB_ERROR : Z := -1.

(** The label [bad]: [rc] is kept when it is not 0, and the bitmap destroyed. *)
Definition read_bad (rc : Z) : Z := if (rc =? 0)%Z then (- EINVAL)%Z else rc.

(** One round of the loop: the nodes linked so far, [l] being the last. *)
Definition ebitmap_read_node (high : N) (i : N) (s : list ebitmap_node * policy_file)
    : M ((Z * policy_file) + (list ebitmap_node * policy_file)) :=
  let '(nodes, fp) := s in
  '(buf, fp) ← next_entry fp 4;
  match buf with
  | None => mret (inl (read_bad (-1), fp))
  | Some buf =>
      b ← malloc;
      if negb b then mret (inl (read_bad (- ENOMEM), fp)) else
      let start := le32_at buf 0 in
      if truth (N.land start (MAPSIZE - 1)) then mret (inl (read_bad 0, fp)) else
      if high - MAPSIZE <? start then mret (inl (read_bad 0, fp)) else
      '(mbuf, fp) ← next_entry fp 8;
      match mbuf with
      | None => mret (inl (read_bad (-1), fp))
      | Some mbuf =>
          let map := le64_at mbuf 0 in
          if map =? 0 then mret (inl (read_bad 0, fp)) else
          match last nodes with
          | Some l =>
              if start <=? startbit l then mret (inl (read_bad 0, fp))
              else mret (inr (nodes ++ [EBNode start map], fp))
          | None => mret (inr (nodes ++ [EBNode start map], fp))
          end
      end
  end.

Definition ebitmap_read (fp : policy_file) : M (Z * ebitmap * policy_file) :=
  '(buf, fp) ← next_entry fp 12;
  match buf with
  | None => mret (read_bad (-1), ebitmap_init, fp)
  | Some buf =>
      let mapsize := le32_at buf 0 in
      let high := le32_at buf 1 in
      let count := le32_at buf 2 in
      if negb (mapsize =? MAPSIZE) then mret (read_bad 0, ebitmap_init, fp) else
      if high =? 0 then mret (0%Z, EBitmap [] high, fp) else
      if truth (N.land high (MAPSIZE - 1)) then mret (read_bad 0, ebitmap_init, fp) else
      r ← for_up (ebitmap_read_node high) (N.to_nat count) 0 ([], fp);
      match r with
      | inl (rc, fp) => mret (rc, ebitmap_destroy ebitmap_init, fp)
      | inr (nodes, fp) => mret (0%Z, EBitmap nodes high, fp)
      end
  end.

Definition ebitmap_write_node (n : ebitmap_node) (fp : policy_file)
    : M ((Z * policy_file) + policy_file) :=
  '(items, fp) ← put_entry (cpu_to_le32 (startbit n)) 4 1 fp;
  if negb (items =? 1) then mret (inl (POLICYDB_ERROR, fp)) else
  '(items, fp) ← put_entry (cpu_to_le64 (bmap n)) 8 1 fp;
  if negb (items =? 1) then mret (inl (POLICYDB_ERROR, fp)) else mret (inr fp).

Definition ebitmap_write (e : ebitmap) (fp : policy_file) : M (Z * policy_file) :=
  let count := u32 (N.of_nat (length (node e))) in
  '(items, fp) ← put_entry (cpu_to_le32 MAPSIZE ++ cpu_to_le32 (highbit e) ++ cpu_to_le32 count)
                           4 3 fp;
  if negb (items =? 3) then mret (POLICYDB_ERROR, fp) else
  r ← for_list ebitmap_write_node (node e) fp;
  match r with
  | inl (rc, fp) => mret (rc, fp)
  | inr fp => mret (POLICYDB_SUCCESS, fp)
  end.

(** * Lemmas on words *)

Lemma length_le_split n x : length (le_split n x) = n.
Proof. revert x. induction n as [|n IH]; intros x; simpl; [done|]. by rewrite IH. Qed.

Lemma le_combine_split n x : x < 256 ^ N.of_nat n → le_combine (le_split n x) = x.
Proof.
  revert x. induction n as [|n IH]; intros x Hx; cbn [le_split le_combine].
  { change (256 ^ N.of_nat 0) with 1 in Hx. lia. }
  rewrite IH; [rewrite N.add_comm; symmetry; apply N.div_mod'|].
  apply N.Div0.div_lt_upper_bound. by rewrite Nat2N.inj_succ, N.pow_succ_r' in Hx.
Qed.

Lemma le_combine_lt l : Forall (λ b, b < 256) l → le_combine l < 256 ^ N.of_nat (length l).
Proof.
  induction 1 as [|b l Hb _ IH]; [done|]. cbn [le_combine length].
  rewrite Nat2N.inj_succ, N.pow_succ_r'. lia.
Qed.

Lemma le_split_bytes n x : Forall (λ b, b < 256) (le_split n x).
Proof. revert x. induction n; intros x; simpl; constructor; [by apply N.mod_lt|done]. Qed.

Lemma le16_at_0 x l : x < 2 ^ 16 → le16_at (cpu_to_le16 x ++ l) 0 = x.
Proof.
  intros Hx. unfold le16_at. change (2 * 0)%nat with 0%nat.
  rewrite drop_0, take_app_length'; [|symmetry; apply length_le_split]. by apply le_combine_split.
Qed.

Lemma le16_at_S x l i : le16_at (cpu_to_le16 x ++ l) (S i) = le16_at l i.
Proof.
  unfold le16_at. replace (2 * S i)%nat with (2 + 2 * i)%nat by lia.
  by rewrite drop_app_add'; [|symmetry; apply length_le_split].
Qed.

Lemma le32_at_0 x l : x < 2 ^ 32 → le32_at (cpu_to_le32 x ++ l) 0 = x.
Proof.
  intros Hx. unfold le32_at. change (4 * 0)%nat with 0%nat. rewrite drop_0, take_app_length'; [|symmetry; apply length_le_split].
  by apply le_combine_split.
Qed.

Lemma le32_at_S x l i : le32_at (cpu_to_le32 x ++ l) (S i) = le32_at l i.
Proof.
  unfold le32_at. replace (4 * S i)%nat with (4 + 4 * i)%nat by lia.
  by rewrite drop_app_add'; [|symmetry; apply length_le_split].
Qed.

Lemma le32_words ws :
  Forall (λ w, w < 2 ^ 32) ws → le32_at (ws ≫= cpu_to_le32) <$> seq 0 (length ws) = ws.
Proof.
  induction 1 as [|w ws Hw _ IH]; [done|]. rewrite bind_cons. cbn [length]. rewrite <- cons_seq, fmap_cons.
  rewrite le32_at_0 by done. f_equal. rewrite <- fmap_S_seq, <- list_fmap_compose.
  etransitivity; [|exact IH]. apply list_fmap_ext. intros _ i _. simpl. apply le32_at_S.
Qed.

Lemma length_words ws : length (ws ≫= cpu_to_le32) = (4 * length ws)%nat.
Proof.
  induction ws as [|w ws IH]; [done|]. rewrite bind_cons, length_app, IH. unfold cpu_to_le32.
  rewrite length_le_split. simpl. lia.
Qed.

Lemma le64_at_0 x l : x < 2 ^ 64 → le64_at (cpu_to_le64 x ++ l) 0 = x.
Proof.
  intros Hx. unfold le64_at. change (8 * 0)%nat with 0%nat. rewrite drop_0, take_app_length'; [|symmetry; apply length_le_split].
  by apply le_combine_split.
Qed.

Lemma le32_at_lt l i : Forall (λ b, b < 256) l → le32_at l i < 2 ^ 32.
Proof.
  intros Hl. unfold le32_at.
  eapply N.lt_le_trans; [apply le_combine_lt; by apply Forall_take, Forall_drop|].
  change (2 ^ 32) with (256 ^ 4). apply N.pow_le_mono_r; [done|]. rewrite length_take. lia.
Qed.

Lemma le64_at_lt l i : Forall (λ b, b < 256) l → le64_at l i < 2 ^ 64.
Proof.
  intros Hl. unfold le64_at.
  eapply N.lt_le_trans; [apply le_combine_lt; by apply Forall_take, Forall_drop|].
  change (2 ^ 64) with (256 ^ 8). apply N.pow_le_mono_r; [done|]. rewrite length_take. lia.
Qed.

(** * Reading: the bytes a file still holds *)

Definition pf_avail (fp : policy_file) : list N :=
  match pf_kind fp with
  | PF_USE_MEMORY => take (N.to_nat (pf_len fp)) (pf_data fp)
  | PF_USE_STDIO => f_unread (pf_fp fp)
  | _ => []
  end.

(** A file can be read when its length is that of an allocated buffer. *)
Definition pf_wf (fp : policy_file) : Prop :=
  (pf_kind fp = PF_USE_MEMORY → pf_len fp ≤ N.of_nat (length (pf_data fp))) ∧
  Forall (λ b, b < 256) (pf_avail fp).

Lemma next_entry_spec fp bytes o :
  pf_wf fp → 0 < bytes →
  wp (next_entry fp bytes) o (λ r o', o' = o ∧ pf_wf r.2 ∧
    match r.1 with
    | Some b => pf_avail fp = b ++ pf_avail r.2 ∧ N.of_nat (length b) = bytes ∧
                Forall (λ b, b < 256) b
    | None => N.of_nat (length (pf_avail fp)) < bytes
    end).
Proof.
  intros [Hlen Hb] Hpos. unfold next_entry, pf_wf, pf_avail, fread in *.
  destruct fp as [[] before data len [unread written room]]; simpl in *.
  - specialize (Hlen eq_refl). destruct (len <? bytes) eqn:E; reflect_bools.
    + apply wp_ret. simpl. split_and!; try done. rewrite length_take. lia.
    + rewrite (proj2 (N.ltb_ge _ bytes)) by lia. apply wp_ret. simpl.
      replace (N.to_nat (len - bytes)) with (N.to_nat len - N.to_nat bytes)%nat by lia.
      rewrite <- skipn_firstn_comm. split_and!; try done.
      * intros _. rewrite length_drop. lia.
      * by apply Forall_drop.
      * rewrite <- (firstn_skipn (N.to_nat bytes) (take (N.to_nat len) data)) at 1.
        rewrite firstn_firstn. by replace (N.to_nat bytes `min` N.to_nat len)%nat with (N.to_nat bytes) by lia.
      * rewrite length_take. lia.
      * replace (take (N.to_nat bytes) data) with (take (N.to_nat bytes) (take (N.to_nat len) data)).
        { by apply Forall_take. }
        rewrite firstn_firstn. f_equal. lia.
  - destruct (0 <? bytes) eqn:E0; reflect_bools; [|lia].
    destruct (bytes <=? N.of_nat (length unread)) eqn:E; reflect_bools; apply wp_ret; simpl.
    + split_and!; try done; [by apply Forall_drop| by rewrite firstn_skipn| |by apply Forall_take].
      rewrite length_take. lia.
    + split_and!; try done. by destruct (bytes =? 0).
  - apply wp_ret. split_and!; done.
  - apply wp_ret. split_and!; done.
Qed.

Lemma next_entry_ok fp b rest bytes o :
  pf_wf fp → pf_avail fp = b ++ rest → N.of_nat (length b) = bytes → 0 < bytes →
  wp (next_entry fp bytes) o
    (λ r o', o' = o ∧ pf_wf r.2 ∧ r.1 = Some b ∧ pf_avail r.2 = rest).
Proof.
  intros Hwf Hav Hlen Hpos. eapply wp_mono; [by apply next_entry_spec|].
  intros [[b'|] fp'] o'; simpl; intros (-> & Hwf' & H).
  - destruct H as (Hav' & Hlen' & _). rewrite Hav in Hav'. apply app_inj_1 in Hav' as [-> ->]; [done|lia].
  - rewrite Hav, length_app in H. lia.
Qed.

(** * Writing: where the bytes go *)

Definition pf_put (fp : policy_file) (bs : list N) : policy_file :=
  let k := length bs in
  match pf_kind fp with
  | PF_USE_MEMORY => PolicyFile PF_USE_MEMORY (pf_before fp ++ bs) (drop k (pf_data fp))
                       (pf_len fp - N.of_nat k) (pf_fp fp)
  | PF_USE_STDIO => PolicyFile PF_USE_STDIO (pf_before fp) (pf_data fp) (pf_len fp)
                      (StdioFile (f_unread (pf_fp fp)) (f_written (pf_fp fp) ++ bs)
                                 (f_room (pf_fp fp) - N.of_nat k))
  | PF_LEN => PolicyFile PF_LEN (pf_before fp) (pf_data fp) (pf_len fp + N.of_nat k) (pf_fp fp)
  | PF_OTHER => fp
  end.

Definition pf_room (fp : policy_file) (k : N) : Prop :=
  match pf_kind fp with
  | PF_USE_MEMORY => k ≤ pf_len fp ∧ pf_len fp ≤ N.of_nat (length (pf_data fp)) ∧ k < 2 ^ 64
  | PF_USE_STDIO => k ≤ f_room (pf_fp fp)
  | PF_LEN => pf_len fp + k < 2 ^ 64
  | PF_OTHER => False
  end.

Lemma pf_put_app fp a b : pf_put (pf_put fp a) b = pf_put fp (a ++ b).
Proof.
  destruct fp as [[] before data len [u w r]]; unfold pf_put; simpl; rewrite ?length_app;
    f_equal; rewrite ?app_assoc, ?drop_drop; try done; try lia; f_equal; lia.
Qed.

Lemma pf_room_app fp bs k :
  pf_room fp (N.of_nat (length bs) + k) →
  pf_room fp (N.of_nat (length bs)) ∧ pf_room (pf_put fp bs) k.
Proof.
  destruct fp as [[] before data len [u w r]]; unfold pf_room, pf_put; simpl;
    rewrite ?length_drop; lia.
Qed.

Lemma pf_room_split fp a b :
  pf_room fp (N.of_nat (length (a ++ b))) →
  pf_room fp (N.of_nat (length a)) ∧ pf_room (pf_put fp a) (N.of_nat (length b)).
Proof. rewrite length_app, Nat2N.inj_add. apply pf_room_app. Qed.

Lemma put_entry_ok fp ptr size n o :
  0 < size → 0 < n → N.of_nat (length ptr) = size * n → pf_room fp (size * n) →
  put_entry ptr size n fp o = Ret (n, pf_put fp ptr) o.
Proof.
  intros Hs Hn Hlen Hroom. unfold put_entry, pf_put, pf_room, fwrite in *.
  destruct fp as [[] before data len [u w r]]; simpl in *; unfold u64.
  - rewrite N.mod_small by lia. rewrite !(proj2 (N.ltb_ge _ _)) by lia.
    rewrite <- Hlen, Nat2N.id, firstn_all. done.
  - rewrite (proj2 (N.eqb_neq size 0)), (proj2 (N.eqb_neq n 0)) by lia. cbn [orb].
    rewrite N.min_l; [|apply N.div_le_lower_bound; lia].
    rewrite (N.mul_comm n), <- Hlen, Nat2N.id, firstn_all. done.
  - rewrite (N.mod_small (size * n)) by lia. rewrite N.mod_small by lia. by rewrite Hlen.
  - done.
Qed.

(** The writers' idiom: put an entry and give up unless all of it went out. *)
Lemma put_check {A} fp ptr size n (err k : policy_file → M A) o :
  0 < size → 0 < n → N.of_nat (length ptr) = size * n → pf_room fp (N.of_nat (length ptr)) →
  ('(items, fp) ← put_entry ptr size n fp; if negb (items =? n) then err fp else k fp) o =
  k (pf_put fp ptr) o.
Proof.
  intros Hs Hn Hl Hr. rewrite bind_run, put_entry_ok by (done || by rewrite <- Hl).
  by rewrite N.eqb_refl.
Qed.

(** The readers' idiom: read an entry and give up if the file is too short. *)
Lemma wp_next_check {A} fp b rest bytes (err : policy_file → M A) (k : list N → policy_file → M A) o Q :
  pf_wf fp → pf_avail fp = b ++ rest → N.of_nat (length b) = bytes → 0 < bytes →
  (∀ fp', pf_wf fp' → pf_avail fp' = rest → wp (k b fp') o Q) →
  wp ('(r, fp) ← next_entry fp bytes; match r with None => err fp | Some buf => k buf fp end) o Q.
Proof.
  intros Hwf Hav Hl Hpos Hk. wp_step. eapply wp_mono; [by apply (next_entry_ok _ _ _ _ _ Hwf Hav)|].
  intros [r fp'] o'. cbn [fst snd]. intros (-> & ? & -> & ?). by apply Hk.
Qed.

Lemma wp_next_safe {A} fp bytes (err : policy_file → M A) (k : list N → policy_file → M A) o Q :
  pf_wf fp → 0 < bytes →
  (∀ fp', pf_wf fp' → wp (err fp') o Q) →
  (∀ b fp', pf_wf fp' → N.of_nat (length b) = bytes → Forall (λ b, b < 256) b → wp (k b fp') o Q) →
  wp ('(r, fp) ← next_entry fp bytes; match r with None => err fp | Some buf => k buf fp end) o Q.
Proof.
  intros Hwf Hpos Herr Hk. wp_step. eapply wp_mono; [by apply next_entry_spec|].
  intros [[b|] fp'] o'; cbn [fst snd]; intros (-> & Hwf' & H); [|by apply Herr].
  destruct H as (_ & ? & ?). by apply Hk.
Qed.

(** The format of a bitmap. *)
Definition node_bytes (n : ebitmap_node) : list N :=
  cpu_to_le32 (startbit n) ++ cpu_to_le64 (bmap n).

Definition ebitmap_bytes (e : ebitmap) : list N :=
  (cpu_to_le32 MAPSIZE ++ cpu_to_le32 (highbit e) ++
   cpu_to_le32 (u32 (N.of_nat (length (node e))))) ++ (node e ≫= node_bytes).

Lemma write_node_ok n fp o :
  pf_room fp (N.of_nat (length (node_bytes n))) →
  ebitmap_write_node n fp o = Ret (inr (pf_put fp (node_bytes n))) o.
Proof.
  unfold node_bytes. rewrite length_app, Nat2N.inj_add. intros [H1 H2]%pf_room_app.
  unfold ebitmap_write_node. rewrite bind_run, put_entry_ok; [|done..]. cbv iota beta.
  change (negb (1 =? 1)) with false. cbv iota beta. rewrite bind_run, put_entry_ok; [|done..].
  cbv iota beta. change (negb (1 =? 1)) with false. cbv iota beta. by rewrite pf_put_app.
Qed.

Lemma pf_put_nil fp : pf_put fp [] = fp.
Proof.
  unfold pf_put. destruct fp as [[] ? ? ? []]; simpl;
    rewrite ?app_nil_r, ?drop_0, ?N.sub_0_r, ?N.add_0_r; done.
Qed.

Lemma write_nodes_ok l fp o :
  pf_room fp (N.of_nat (length (l ≫= node_bytes))) →
  for_list ebitmap_write_node l fp o = Ret (inr (pf_put fp (l ≫= node_bytes))) o.
Proof.
  revert fp. induction l as [|n l IH]; intros fp Hroom; cbn [for_list].
  { by rewrite pf_put_nil. }
  rewrite bind_cons, length_app, Nat2N.inj_add in Hroom. apply pf_room_app in Hroom as [Hn Hl].
  rewrite bind_run, write_node_ok by done. rewrite IH by done.
  by rewrite pf_put_app, bind_cons.
Qed.

Lemma ebitmap_write_ok e fp o :
  pf_room fp (N.of_nat (length (ebitmap_bytes e))) →
  ebitmap_write e fp o = Ret (POLICYDB_SUCCESS, pf_put fp (ebitmap_bytes e)) o.
Proof.
  unfold ebitmap_bytes. rewrite length_app, Nat2N.inj_add.
  intros [Hh Hn]%pf_room_app. unfold ebitmap_write. rewrite bind_run, put_entry_ok; [|done..].
  change (negb (3 =? 3)) with false. cbv iota beta. rewrite bind_run, write_nodes_ok by done.
  by rewrite pf_put_app.
Qed.

(** * Reading bitmaps *)

Lemma land_63_mod x : truth (N.land x (MAPSIZE - 1)) = false ↔ x mod MAPSIZE = 0.
Proof.
  change (MAPSIZE - 1) with (N.ones 6). rewrite N.land_ones. unfold truth, MAPSIZE.
  rewrite negb_false_iff, N.eqb_eq. done.
Qed.

(** What one round leaves: an error, or one more node of a sorted list. *)
Definition read_node_post (high : N) (o : oracle)
    (r : (Z * policy_file) + (list ebitmap_node * policy_file)) (o' : oracle) : Prop :=
  (o = [] → o' = []) ∧
  match r with
  | inl (rc, fp) => (rc < 0)%Z ∧ pf_wf fp ∧ (o = [] → rc ≠ (- ENOMEM)%Z)
  | inr (nodes, fp) => pf_wf fp ∧ nodes_wf 0 nodes ∧ last_end nodes ≤ high
  end.

Lemma read_node_link high nodes start map :
  high < 2 ^ 32 → nodes_wf 0 nodes → start mod MAPSIZE = 0 → start + MAPSIZE ≤ high →
  0 < map → map < 2 ^ 64 →
  match last nodes with Some l => startbit l < start | None => True end →
  nodes_wf 0 (nodes ++ [EBNode start map]) ∧ last_end (nodes ++ [EBNode start map]) ≤ high.
Proof.
  intros Hh Hwf Hal Hle Hpos Hmap Hlast. rewrite last_end_snoc. split; [|done].
  apply nodes_wf_split. split; [done|].
  split; [|split; [|done]]; [|unfold node_wf; simpl; split_and!; [done|unfold MAPSIZE in *; lia|done..]].
  unfold last_end. destruct nodes as [|l nodes _] using rev_ind; [apply N.le_0_l|].
  rewrite last_snoc in *. apply nodes_wf_split in Hwf as [_ (_ & (Hl & _) & _)].
  by apply aligned_lt.
Qed.

Lemma read_node_safe high i nodes fp o :
  high < 2 ^ 32 → MAPSIZE ≤ high → nodes_wf 0 nodes → last_end nodes ≤ high → pf_wf fp →
  wp (ebitmap_read_node high i (nodes, fp)) o (read_node_post high o).
Proof.
  intros Hh Hh' Hwf Hle Hfp. unfold ebitmap_read_node. wp_step.
  eapply wp_mono; [by apply next_entry_spec|].
  intros [[buf|] fp1] o1; simpl; intros (-> & Hfp1 & Hr); [|by apply wp_ret].
  destruct Hr as (_ & _ & Hbuf). wp_step. wp_step. intros [] o2 Ho2; simpl.
  2:{ apply wp_ret. split; [naive_solver|]. split_and!; [done|done|naive_solver]. }
  assert (o = [] → o2 = []) as Ho by naive_solver.
  destruct (truth (N.land (le32_at buf 0) (MAPSIZE - 1))) eqn:Eal; [by apply wp_ret|].
  apply land_63_mod in Eal.
  destruct (high - MAPSIZE <? le32_at buf 0) eqn:Ehi; [by apply wp_ret|]. reflect_bools.
  wp_step. eapply wp_mono; [by apply next_entry_spec|].
  intros [[mbuf|] fp2] o3; simpl; intros (-> & Hfp2 & Hr); [|by apply wp_ret].
  destruct Hr as (_ & _ & Hmbuf).
  destruct (le64_at mbuf 0 =? 0) eqn:Emap; [by apply wp_ret|]. reflect_bools.
  pose proof (le64_at_lt mbuf 0 Hmbuf).
  assert (match last nodes with Some l => startbit l < le32_at buf 0 | None => True end →
          read_node_post high o (inr (nodes ++ [EBNode (le32_at buf 0) (le64_at mbuf 0)], fp2)) o2)
    as Hok.
  { intros Hl. split; [done|]. split; [done|]. apply read_node_link; try done; unfold MAPSIZE in *; lia. }
  destruct (last nodes) as [l|]; [|by apply wp_ret, Hok].
  destruct (le32_at buf 0 <=? startbit l) eqn:El; [by apply wp_ret|].
  reflect_bools. apply wp_ret, Hok. done.
Qed.

Definition read_post (o : oracle) (r : Z * ebitmap * policy_file) (o' : oracle) : Prop :=
  (o = [] → o' = [] ∧ r.1.1 ≠ (- ENOMEM)%Z) ∧ pf_wf r.2 ∧
  ((r.1.1 = 0%Z ∧ ebitmap_read_wf r.1.2 ∧ highbit r.1.2 mod MAPSIZE = 0) ∨
   ((r.1.1 < 0)%Z ∧ r.1.2 = ebitmap_init)).

Lemma ebitmap_read_safe fp o : pf_wf fp → wp (ebitmap_read fp) o (read_post o).
Proof.
  intros Hfp. unfold ebitmap_read. wp_step. eapply wp_mono; [by apply next_entry_spec|].
  intros [[buf|] fp1] o1; simpl; intros (-> & Hfp1 & Hr).
  2:{ apply wp_ret. split; [done|]. split; [done|]. by right. }
  destruct Hr as (_ & _ & Hbuf). pose proof (le32_at_lt buf 1 Hbuf) as Hh.
  assert (∀ fp', pf_wf fp' → read_post o (read_bad 0, ebitmap_init, fp') o) as Hbad.
  { intros fp' ?. split; [done|]. split; [done|]. by right. }
  destruct (le32_at buf 0 =? MAPSIZE); simpl; [|by apply wp_ret, Hbad].
  destruct (le32_at buf 1 =? 0) eqn:E0; reflect_bools.
  { apply wp_ret. rewrite E0. split; [done|]. split; [done|]. left. done. }
  destruct (truth _) eqn:Eal; [by apply wp_ret, Hbad|]. apply land_63_mod in Eal.
  assert (MAPSIZE ≤ le32_at buf 1) as Hm.
  { apply N.Div0.mod_divides in Eal as [k Ek]. unfold MAPSIZE in *. lia. }
  wp_step. apply wp_for_up with (I := λ _ s o', (o = [] → o' = []) ∧ pf_wf s.2 ∧
    nodes_wf 0 s.1 ∧ last_end s.1 ≤ le32_at buf 1).
  - split_and!; try done. apply N.le_0_l.
  - intros j [nodes fp2] o2 _ (Ho & ? & ? & ?). simpl in *.
    eapply wp_mono; [by apply read_node_safe|]. intros [[rc fp3]|[nodes' fp3]] o3 (Ho' & Hr).
    + apply wp_ret. destruct Hr as (? & ? & ?). split; [naive_solver|]. split; [done|]. by right.
    + naive_solver.
  - intros [nodes fp2] o2 (Ho & ? & ? & ?). apply wp_ret. split; [naive_solver|]. split; [done|].
    left. done.
Qed.

Lemma read_node_ok high i nodes n fp rest o :
  high < 2 ^ 32 → nodes_wf 0 (nodes ++ [n]) → last_end (nodes ++ [n]) ≤ high →
  pf_wf fp → pf_avail fp = node_bytes n ++ rest →
  wp (ebitmap_read_node high i (nodes, fp)) o (λ r o', (o = [] → o' = []) ∧
    match r with
    | inl (rc, fp') => rc = (- ENOMEM)%Z ∧ o ≠ []
    | inr (nodes', fp') => nodes' = nodes ++ [n] ∧ pf_wf fp' ∧ pf_avail fp' = rest
    end).
Proof.
  intros Hh Hwf Hle Hfp Hav. unfold ebitmap_read_node. rewrite last_end_snoc in Hle.
  apply nodes_wf_split in Hwf as [Hpre (Hlo & (Hal & Hb & Hpos & Hmap) & _)].
  unfold node_bytes in Hav. rewrite <- app_assoc in Hav.
  wp_step. eapply wp_mono; [apply (next_entry_ok _ _ _ _ _ Hfp Hav); done|].
  intros [b fp1] o1; cbn [fst snd]; intros (-> & Hfp1 & -> & Hav1).
  wp_step. wp_step. intros [] o2 Ho2; cbn [negb].
  2:{ apply wp_ret. split; [naive_solver|]. split; [done|]. naive_solver. }
  replace (le32_at (cpu_to_le32 (startbit n)) 0) with (startbit n).
  2:{ rewrite <- (app_nil_r (cpu_to_le32 _)), le32_at_0; [done|]. unfold MAPSIZE in *. lia. }
  rewrite (proj2 (land_63_mod _) Hal). rewrite (proj2 (N.ltb_ge _ _)) by (unfold MAPSIZE in *; lia).
  wp_step. eapply wp_mono; [apply (next_entry_ok _ _ _ _ _ Hfp1 Hav1); done|].
  intros [b fp2] o3; cbn [fst snd]; intros (-> & Hfp2 & -> & Hav2).
  replace (le64_at (cpu_to_le64 (bmap n)) 0) with (bmap n).
  2:{ rewrite <- (app_nil_r (cpu_to_le64 _)), le64_at_0; done. }
  rewrite (proj2 (N.eqb_neq _ _)) by lia. destruct n as [s m]; simpl in *.
  destruct (last nodes) as [l|] eqn:El.
  - unfold last_end in Hlo. rewrite El in Hlo. unfold MAPSIZE in *.
    rewrite (proj2 (N.leb_gt _ _)) by lia. apply wp_ret. naive_solver.
  - apply wp_ret. naive_solver.
Qed.

Lemma nodes_wf_length lo l : nodes_wf lo l → lo + 64 * N.of_nat (length l) ≤ N.max lo (last_end l).
Proof.
  revert lo. induction l as [|n l IH]; intros lo Hwf; [simpl; lia|].
  pose proof (nodes_wf_last _ _ _ Hwf) as Hl. destruct Hwf as (Hlo & _ & Hwf). apply IH in Hwf.
  rewrite last_end_cons in *. destruct l; simpl length in *; unfold MAPSIZE in *; lia.
Qed.

Lemma nodes_wf_take k l :
  nodes_wf 0 l → nodes_wf 0 (take k l) ∧ last_end (take k l) ≤ last_end l.
Proof.
  intros Hwf. rewrite <- (firstn_skipn k l) in Hwf. apply nodes_wf_split in Hwf as [Hw1 Hw2].
  split; [done|]. rewrite <- (firstn_skipn k l) at 2. rewrite last_end_app.
  destruct (drop k l) as [|y t]; [done|].
  pose proof (nodes_wf_last _ _ _ Hw2). destruct Hw2. unfold MAPSIZE in *. lia.
Qed.

Lemma ebitmap_read_ok e fp rest o :
  ebitmap_wf e → pf_wf fp → pf_avail fp = ebitmap_bytes e ++ rest →
  wp (ebitmap_read fp) o (λ r o', (o = [] → o' = [] ∧ r.1.1 = 0%Z) ∧
    ((r.1 = (0%Z, e) ∧ pf_wf r.2 ∧ pf_avail r.2 = rest) ∨
     r.1 = ((- ENOMEM)%Z, ebitmap_init))).
Proof.
  intros [Hwf Hhigh] Hfp Hav. pose proof (last_end_bound _ _ Hwf) as Hb.
  pose proof (nodes_wf_length _ _ Hwf) as Hlen.
  assert (N.of_nat (length (node e)) < 2 ^ 32) as Hc by (change (2 ^ 32) with 4294967296 in *; lia).
  unfold ebitmap_bytes in Hav. rewrite u32_small in Hav by done. rewrite <- app_assoc in Hav.
  unfold ebitmap_read. wp_step. eapply wp_mono; [apply (next_entry_ok _ _ _ _ _ Hfp Hav); done|].
  intros [b fp1] o1; cbn [fst snd]; intros (-> & Hfp1 & -> & Hav1).
  rewrite le32_at_0, !le32_at_S, le32_at_0 by (done || by rewrite Hhigh).
  rewrite <- (app_nil_r (cpu_to_le32 (N.of_nat _))), le32_at_0 by done.
  change (negb (MAPSIZE =? MAPSIZE)) with false. cbv iota.
  destruct (node e) as [|n l] eqn:El.
  { rewrite Hhigh. simpl. apply wp_ret. split; [done|]. left. destruct e; simpl in *. subst. done. }
  pose proof (nodes_wf_last _ _ _ Hwf) as Hne. rewrite (proj2 (N.eqb_neq _ _)) by (unfold MAPSIZE in *; lia).
  rewrite (proj2 (land_63_mod _)) by (rewrite Hhigh; by eapply last_end_aligned).
  rewrite Nat2N.id, Hhigh. clear Hne. rewrite <- El in *. clear El n l. wp_step.
  apply wp_for_up with (I := λ i s o', (o = [] → o' = []) ∧ pf_wf s.2 ∧
    s.1 = take (N.to_nat i) (node e) ∧ pf_avail s.2 = (drop (N.to_nat i) (node e) ≫= node_bytes) ++ rest).
  - split_and!; done.
  - intros j [nodes fp2] o2 Hj (Ho & Hfp2 & Hn & Hav2). simpl in *. subst nodes.
    destruct (lookup_lt_is_Some_2 (node e) (N.to_nat j)) as [x Hx]; [lia|].
    rewrite (drop_S _ _ _ Hx), bind_cons, <- app_assoc in Hav2.
    assert (take (N.to_nat j) (node e) ++ [x] = take (N.to_nat (j + 1)) (node e)) as Hsnoc.
    { replace (N.to_nat (j + 1)) with (S (N.to_nat j)) by lia. by rewrite (take_S_r _ _ _ Hx). }
    destruct (nodes_wf_take (N.to_nat (j + 1)) _ Hwf) as [Hw Hl]. rewrite <- Hsnoc in Hw, Hl.
    eapply wp_mono; [by apply (read_node_ok _ j _ x _ _ o2 Hb Hw Hl Hfp2 Hav2)|]. intros [[rc fp3]|[nodes' fp3]] o3 (Ho' & Hr).
    + apply wp_ret. destruct Hr as [-> Hne]. split; [naive_solver|]. by right.
    + destruct Hr as (-> & ? & ?). rewrite Hsnoc.
      replace (N.to_nat (j + 1)) with (S (N.to_nat j)) by lia. naive_solver.
  - intros [nodes fp2] o2 (Ho & ? & Hn & Hav2). simpl in *. apply wp_ret. rewrite N.add_0_l, Nat2N.id in *.
    rewrite firstn_all in Hn. rewrite skipn_all in Hav2. split; [naive_solver|]. left. simpl in *.
    split; [|done]. destruct e; simpl in *. congruence.
Qed.

(** * Theorems *)

Definition mem_file (bs : list N) : policy_file :=
  PolicyFile PF_USE_MEMORY [] bs (N.of_nat (length bs)) (StdioFile [] [] 0).

#[global] Instance pf_type_eq_dec : EqDecision pf_type.
Proof. solve_decision. Defined.
#[global] Instance pf_wf_dec fp : Decision (pf_wf fp).
Proof. unfold pf_wf. apply _. Defined.
#[global] Instance pf_room_dec fp k : Decision (pf_room fp k).
Proof. unfold pf_room. destruct (pf_kind fp); apply _. Defined.

(** C20: bitmaps survive the policy file.  Into any file with room for it
    ([PF_LEN] and stdio streams included), [ebitmap_write] of a well-formed
    bitmap succeeds and emits [ebitmap_bytes]; [ebitmap_read] of a file that
    holds these bytes gives the bitmap back and stops right behind them, or
    fails with -ENOMEM and an empty bitmap, which needs a failed allocation. *)
Theorem ebitmap_write_read e fp fp' rest o :
  ebitmap_wf e →
  pf_room fp (N.of_nat (length (ebitmap_bytes e))) →
  pf_wf fp' → pf_avail fp' = ebitmap_bytes e ++ rest →
  ebitmap_write e fp o = Ret (POLICYDB_SUCCESS, pf_put fp (ebitmap_bytes e)) o ∧
  wp (ebitmap_read fp') o (λ r o', (o = [] → o' = [] ∧ r.1.1 = 0%Z) ∧
    ((r.1 = (0%Z, e) ∧ pf_wf r.2 ∧ pf_avail r.2 = rest) ∨
     r.1 = ((- ENOMEM)%Z, ebitmap_init))).
Proof. intros. split; [by apply ebitmap_write_ok|by apply ebitmap_read_ok]. Qed.

Lemma ebitmap_write_read_witness :
  ebitmap_write ex_bitmap1 (mem_file (replicate 60 0)) [] =
    Ret (POLICYDB_SUCCESS, pf_put (mem_file (replicate 60 0)) (ebitmap_bytes ex_bitmap1)) [] ∧
  ∃ r o', ebitmap_read (mem_file (ebitmap_bytes ex_bitmap1 ++ [7])) [] = Ret r o' ∧
    r.1 = (0%Z, ex_bitmap1) ∧ pf_avail r.2 = [7].
Proof.
  destruct (ebitmap_write_read ex_bitmap1 (mem_file (replicate 60 0))
              (mem_file (ebitmap_bytes ex_bitmap1 ++ [7])) [7] []
              ltac:(by_decide) ltac:(by_decide) ltac:(by_decide) ltac:(by vm_compute)) as [Hw Hr].
  split; [done|]. apply (proj1 (wp_run _ _ _)) in Hr as (r & o' & Hr & Ho & Hc).
  exists r, o'. split; [done|]. destruct (Ho eq_refl) as [_ Hrc].
  destruct Hc as [(? & _ & ?)|Hbad]; [done|]. rewrite Hbad in Hrc. done.
Defined.

(** C21: [ebitmap_read] of an arbitrary byte stream, whatever the allocator
    answers, is defined.  It either fails with a negative code and an empty
    bitmap, or returns sorted, aligned, non-empty nodes that end at or before
    the declared high bit, so that [ebitmap_get_bit] reads the set. *)
Theorem ebitmap_read_sound fp o :
  pf_wf fp →
  wp (ebitmap_read fp) o (λ r o', pf_wf r.2 ∧ (o = [] → o' = [] ∧ r.1.1 ≠ (- ENOMEM)%Z) ∧
    ((r.1.1 = 0%Z ∧ ebitmap_read_wf r.1.2 ∧
      ∀ i, ebitmap_get_bit r.1.2 i = ebitmap_bit r.1.2 i) ∨
     ((r.1.1 < 0)%Z ∧ r.1.2 = ebitmap_init))).
Proof.
  intros Hfp. eapply wp_mono; [by apply ebitmap_read_safe|].
  intros r o' (Ho & Hfp' & [(? & ? & ?)|?]); split_and!; try done; [left|by right].
  split_and!; try done. intros i. by apply get_bit_read_wf.
Qed.

(** A bitmap that declares 128 bits and holds one node of 64. *)
Definition short_bitmap_file : policy_file :=
  mem_file (cpu_to_le32 64 ++ cpu_to_le32 128 ++ cpu_to_le32 1 ++
            cpu_to_le32 0 ++ cpu_to_le64 1).

Lemma ebitmap_read_sound_witness :
  ∃ r o', ebitmap_read short_bitmap_file [] = Ret r o' ∧ pf_wf r.2.
Proof.
  pose proof (ebitmap_read_sound short_bitmap_file [] ltac:(by_decide)) as H.
  apply (proj1 (wp_run _ _ _)) in H as (r & o' & Hr & Hfp & _). by exists r, o'.
Defined.

(** An iteration that enters a last node before the high bit runs past it. *)
Lemma for_each_bit_overrun {R St} high (body : N → bool → St → M (R + St)) n fuel bit s o :
  startbit n + MAPSIZE < high → startbit n ≤ bit → bit ≤ startbit n + MAPSIZE →
  (∀ i b s o, ∃ s', body i b s o = Ret (inr s') o) →
  for_each_bit_loop high body fuel [n] bit s o = UB.
Proof.
  intros Hh Hlo Hhi Hbody. revert bit s Hlo Hhi. induction fuel as [|fuel IH]; intros bit s Hlo Hhi;
    cbn [for_each_bit_loop]; rewrite (proj2 (N.leb_gt high bit)) by lia; [done|].
  rewrite (proj2 (N.leb_le (startbit n) bit)) by done. cbn [andb].
  destruct (bit - startbit n <? MAPSIZE) eqn:E; reflect_bools; [|done].
  rewrite bind_run. destruct (Hbody bit (truth (N.land (bmap n) (N.shiftl 1 (bit - startbit n)))) s o)
    as [s' ->]. apply IH; lia.
Qed.

(** The reader does not check that the nodes reach the high bit it reads:
    it accepts a bitmap on which [ebitmap_for_each_bit] shifts past the word of
    the last node, whatever state a body that goes on computes. *)
Theorem ebitmap_read_iteration_undefined :
  ∃ e fp', ebitmap_read short_bitmap_file [] = Ret (0%Z, e, fp') [] ∧
    ∀ St (s : St) (body : N → bool → St → M (unit + St)) o,
      (∀ i b s o, ∃ s', body i b s o = Ret (inr s') o) →
      ebitmap_for_each_bit e s body o = UB.
Proof.
  eexists _, _. split; [by vm_compute|].
  intros St s body o Hbody. by apply for_each_bit_overrun.
Qed.
