(* ===== verification/Hashtab.v ===== *)
(** Hash tables and symbol tables: libsepol/src/hashtab.c and symtab.c.

    A table is an array of chains sorted by [keycmp]; the array is a list of
    lists.  The hash and comparison functions are fields, as in the code; what
    the table needs from the comparison is the class [KeyOrder], which [symcmp]
    of symtab.c discharges.  A datum is the pointer the table stores; what
    callbacks change behind it is in their [args].  [ht_map] is the abstract
    finite map, and every operation is a refinement of the operation of
    [gmap]. *)

From stdpp Require Import sorting.
From S2P Require Import Prelude.
Local Open Scope N_scope.

Definition SEPOL_OK : Z := 0.
Definition SEPOL_ENOMEM : Z := - ENOMEM.
Definition SEPOL_EEXIST : Z := - EEXIST.
Definition SEPOL_ENOENT : Z := - ENOENT.

(** * Data *)

Record hashtab (K D : Type) := Hashtab {
  htable : list (list (K * D));
  size : N;
  nel : N;
  hash_value : N → K → N;      (** of the table, of which it reads [size] *)
  keycmp : K → K → Z }.
Arguments Hashtab {K D}.
Arguments htable {K D}.
Arguments size {K D}.
Arguments nel {K D}.
Arguments hash_value {K D}.
Arguments keycmp {K D}.

Section operations.
Context {K D A : Type}.
Implicit Types h : hashtab K D.

Definition set_table h (t : list (list (K * D))) (n : N) : hashtab K D :=
  Hashtab t (size h) n (hash_value h) (keycmp h).

(** [h->htable[hvalue]], with [hvalue] an [int]. *)
Definition htable_at h (hvalue : N) : M (list (K * D)) :=
  if (s32 hvalue <? 0)%Z then ub else deref (htable h !! N.to_nat hvalue).

(** [prev] and [cur] of the walk that every operation starts with. *)
Definition key_walk h (key : K) (c : list (K * D)) : list (K * D) * list (K * D) :=
  walk (λ cur, (0 <? keycmp h key cur.1)%Z) c.

Definition key_found h (key : K) (cur : list (K * D)) : option (K * D * list (K * D)) :=
  match cur with
  | n :: next => if (keycmp h key n.1 =? 0)%Z then Some (n, next) else None
  | [] => None
  end.

(** * Operations *)

Definition hashtab_create (hash : N → K → N) (cmp : K → K → Z) (sz : N)
    : M (option (hashtab K D)) :=
  b ← malloc;
  if negb b then mret None else
  b ← malloc;
  if negb b then mret None else
  mret (Some (Hashtab (replicate (N.to_nat sz) []) sz 0 hash cmp)).

Definition hashtab_insert (h : option (hashtab K D)) (key : K) (datum : D)
    : M (Z * option (hashtab K D)) :=
  match h with
  | None => mret (SEPOL_ENOMEM, None)
  | Some h =>
      let hvalue := hash_value h (size h) key in
      c ← htable_at h hvalue;
      let '(prev, cur) := key_walk h key c in
      match key_found h key cur with
      | Some _ => mret (SEPOL_EEXIST, Some h)
      | None =>
          b ← malloc;
          if negb b then mret (SEPOL_ENOMEM, Some h) else
          mret (SEPOL_OK,
                Some (set_table h (<[N.to_nat hvalue := prev ++ (key, datum) :: cur]> (htable h))
                                  (u32 (nel h + 1))))
      end
  end.

Definition hashtab_remove (h : option (hashtab K D)) (key : K)
    (destroy : option (K → D → A → A)) (args : A) : M (Z * option (hashtab K D) * A) :=
  match h with
  | None => mret (SEPOL_ENOENT, None, args)
  | Some h =>
      let hvalue := hash_value h (size h) key in
      c ← htable_at h hvalue;
      let '(last, cur) := key_walk h key c in
      match key_found h key cur with
      | None => mret (SEPOL_ENOENT, Some h, args)
      | Some (n, next) =>
          let args' := match destroy with Some f => f n.1 n.2 args | None => args end in
          mret (SEPOL_OK,
                Some (set_table h (<[N.to_nat hvalue := last ++ next]> (htable h)) (dec32 (nel h))),
                args')
      end
  end.

Definition hashtab_replace (h : option (hashtab K D)) (key : K) (datum : D)
    (destroy : option (K → D → A → A)) (args : A) : M (Z * option (hashtab K D) * A) :=
  match h with
  | None => mret (SEPOL_ENOMEM, None, args)
  | Some h =>
      let hvalue := hash_value h (size h) key in
      c ← htable_at h hvalue;
      let '(prev, cur) := key_walk h key c in
      match key_found h key cur with
      | Some (n, next) =>
          let args' := match destroy with Some f => f n.1 n.2 args | None => args end in
          mret (SEPOL_OK,
                Some (set_table h (<[N.to_nat hvalue := prev ++ (key, datum) :: next]> (htable h))
                                  (nel h)), args')
      | None =>
          b ← malloc;
          if negb b then mret (SEPOL_ENOMEM, Some h, args) else
          mret (SEPOL_OK,
                Some (set_table h (<[N.to_nat hvalue := prev ++ (key, datum) :: cur]> (htable h))
                                  (nel h)), args)
      end
  end.

Definition hashtab_search (h : option (hashtab K D)) (key : K) : M (option D) :=
  match h with
  | None => mret None
  | Some h =>
      c ← htable_at h (hash_value h (size h) key);
      let '(_, cur) := key_walk h key c in
      mret (match key_found h key cur with Some (n, _) => Some n.2 | None => None end)
  end.

(** The loop over [htable[i]] for [i < size]. *)
Definition hashtab_destroy (h : option (hashtab K D)) : M (option (hashtab K D)) :=
  match h with
  | None => mret None
  | Some h =>
      r ← for_up (R := unit)
            (λ i t, c ← deref (t !! N.to_nat i); mret (inr (<[N.to_nat i := []]> t)))
            (N.to_nat (size h)) 0 (htable h);
      mret None
  end.

Definition map_chain (apply : K → D → A → M (Z * A)) : list (K * D) → A → M ((Z * A) + A) :=
  for_list (λ n args, '(ret, args) ← apply n.1 n.2 args;
                      mret (if (ret =? 0)%Z then inr args else inl (ret, args))).

Definition hashtab_map (h : option (hashtab K D)) (apply : K → D → A → M (Z * A)) (args : A)
    : M (Z * A) :=
  match h with
  | None => mret (SEPOL_OK, args)
  | Some h =>
      r ← for_up (λ i args, c ← deref (htable h !! N.to_nat i); map_chain apply c args)
            (N.to_nat (size h)) 0 args;
      mret match r with inl x => x | inr args => (SEPOL_OK, args) end
  end.

(** One chain: the nodes kept, the count and the callbacks' store. *)
Fixpoint remove_on_error (apply : K → D → A → Z * A) (destroy : option (K → D → A → A))
    (c : list (K * D)) (n : N) (args : A) : list (K * D) * N * A :=
  match c with
  | [] => ([], n, args)
  | x :: c' =>
      let '(ret, args) := apply x.1 x.2 args in
      if (ret =? 0)%Z then
        let '(kept, n', args') := remove_on_error apply destroy c' n args in
        (x :: kept, n', args')
      else
        let args := match destroy with Some f => f x.1 x.2 args | None => args end in
        remove_on_error apply destroy c' (dec32 n) args
  end.

Definition hashtab_map_remove_on_error (h : option (hashtab K D)) (apply : K → D → A → Z * A)
    (destroy : option (K → D → A → A)) (args : A) : M (option (hashtab K D) * A) :=
  match h with
  | None => mret (None, args)
  | Some h =>
      r ← for_up (R := unit)
            (λ i s, let '(h, args) := s in
               c ← deref (htable h !! N.to_nat i);
               let '(kept, n, args) := remove_on_error apply destroy c (nel h) args in
               mret (inr (set_table h (<[N.to_nat i := kept]> (htable h)) n, args)))
            (N.to_nat (size h)) 0 (h, args);
      mret match r with inl _ => (Some h, args) | inr (h, args) => (Some h, args) end
  end.

(** The statistics [hashtab_hash_eval] prints: entries, buckets used, size and
    the longest chain. *)
Definition hashtab_hash_eval h : M (N * Z * N * Z) :=
  r ← for_up (R := unit)
        (λ i s, let '(used, maxlen) := s in
           cur ← deref (htable h !! N.to_nat i);
           match cur with
           | [] => mret (inr (used, maxlen))
           | _ :: _ => let len := Z.of_nat (length cur) in
                       mret (inr ((used + 1)%Z, if (maxlen <? len)%Z then len else maxlen))
           end)
        (N.to_nat (size h)) 0 (0%Z, 0%Z);
  mret match r with inl _ => (nel h, 0%Z, size h, 0%Z)
                  | inr (used, maxlen) => (nel h, used, size h, maxlen) end.

End operations.

(** * Symbol tables *)

Record symtab (D : Type) := Symtab { table : option (hashtab string D); nprim : N }.
Arguments Symtab {D}.
Arguments table {D}.
Arguments nprim {D}.

(** A [char] is signed; xor with [unsigned int] sign-extends it. *)
Definition char_ext (c : Ascii.ascii) : N :=
  let x := Ascii.N_of_ascii c in if x <? 128 then x else x + (2 ^ 32 - 256).

Fixpoint symhash_loop (key : string) (val : N) : N :=
  match key with
  | EmptyString => val
  | String c key' =>
      symhash_loop key' (N.lxor (N.lor (u32 (N.shiftl val 4)) (N.shiftr val 28)) (char_ext c))
  end.

Definition symhash (sz : N) (key : string) : N := N.land (symhash_loop key 0) (u32 (sz + UINT_MAX)).

(** [strcmp], up to the magnitude of its result. *)
Fixpoint strcmp (s1 s2 : string) : Z :=
  match s1, s2 with
  | EmptyString, EmptyString => 0
  | EmptyString, String _ _ => -1
  | String _ _, EmptyString => 1
  | String c1 t1, String c2 t2 =>
      if Ascii.N_of_ascii c1 =? Ascii.N_of_ascii c2 then strcmp t1 t2
      else if Ascii.N_of_ascii c1 <? Ascii.N_of_ascii c2 then (-1)%Z else 1%Z
  end.

Definition symcmp (key1 key2 : string) : Z := strcmp key1 key2.

Definition symtab_init {D} (s : symtab D) (sz : N) : M (Z * symtab D) :=
  t ← hashtab_create symhash symcmp sz;
  match t with
  | None => mret ((-1)%Z, Symtab None (nprim s))
  | Some t => mret (0%Z, Symtab (Some t) 0)
  end.

Definition symtab_destroy {D} (s : option (symtab D)) : M unit :=
  match s with
  | None => mret tt
  | Some s => match table s with
              | Some t => _ ← hashtab_destroy (Some t); mret tt
              | None => mret tt
              end
  end.

(** * The abstract map and the invariant *)

(** What a table asks of its comparison. *)
Class KeyOrder {K} (cmp : K → K → Z) : Prop := {
  cmp_eq : ∀ a b, cmp a b = 0%Z ↔ a = b;
  cmp_gt_lt : ∀ a b, (0 < cmp a b)%Z ↔ (cmp b a < 0)%Z;
  cmp_trans : ∀ a b c, (0 < cmp a b)%Z → (0 < cmp b c)%Z → (0 < cmp a c)%Z }.

#[global] Instance symcmp_order : KeyOrder symcmp.
Proof.
  split; unfold symcmp.
  - induction a as [|c1 t1 IH]; intros [|c2 t2]; simpl; try done.
    destruct (Ascii.N_of_ascii c1 =? Ascii.N_of_ascii c2) eqn:E; reflect_bools.
    + rewrite IH. apply (f_equal Ascii.ascii_of_N) in E. rewrite !Ascii.ascii_N_embedding in E. naive_solver.
    + case_bool; naive_solver.
  - induction a as [|c1 t1 IH]; intros [|c2 t2]; simpl; try done.
    rewrite (N.eqb_sym (Ascii.N_of_ascii c2)).
    destruct (Ascii.N_of_ascii c1 =? Ascii.N_of_ascii c2) eqn:E; reflect_bools; [by rewrite IH|].
    destruct (Ascii.N_of_ascii c1 <? Ascii.N_of_ascii c2) eqn:E1, (Ascii.N_of_ascii c2 <? Ascii.N_of_ascii c1) eqn:E2;
      reflect_bools; lia.
  - induction a as [|c1 t1 IH]; intros [|c2 t2] [|c3 t3]; simpl; try done.
    destruct (Ascii.N_of_ascii c1 =? Ascii.N_of_ascii c2) eqn:E12; reflect_bools;
      destruct (Ascii.N_of_ascii c2 =? Ascii.N_of_ascii c3) eqn:E23; reflect_bools.
    + rewrite E12, E23, N.eqb_refl. apply IH.
    + rewrite E12. rewrite (proj2 (N.eqb_neq _ _) E23). done.
    + rewrite <- E23. rewrite (proj2 (N.eqb_neq _ _) E12). done.
    + destruct (Ascii.N_of_ascii c1 <? Ascii.N_of_ascii c2) eqn:L12, (Ascii.N_of_ascii c2 <? Ascii.N_of_ascii c3) eqn:L23;
        try lia. reflect_bools.
      rewrite (proj2 (N.eqb_neq _ _)) by lia. rewrite (proj2 (N.ltb_ge _ _)) by lia. done.
Qed.

Section invariant.
Context {K D : Type} `{Countable K}.
Implicit Types h : hashtab K D.

Definition ht_entries h : list (K * D) := concat (htable h).
Definition ht_map h : gmap K D := list_to_map (ht_entries h).

Definition chain_wf h (i : N) (c : list (K * D)) : Prop :=
  StronglySorted (λ a b, (0 < keycmp h b.1 a.1)%Z) c ∧
  Forall (λ n, hash_value h (size h) n.1 = i) c.

(** [ht_struct] is the shape of the table, [ht_wf] adds the element count. *)
Record ht_struct h : Prop := {
  wf_order : KeyOrder (keycmp h);
  wf_size : N.of_nat (length (htable h)) = size h;
  wf_small : size h < 2 ^ 31;
  wf_hash : ∀ k, hash_value h (size h) k < size h;
  wf_chains : ∀ i c, htable h !! i = Some c → chain_wf h (N.of_nat i) c;
  wf_nodup : NoDup (ht_entries h).*1 }.

Definition ht_wf h : Prop :=
  ht_struct h ∧ nel h = u32 (N.of_nat (length (ht_entries h))).

(** ** Chains *)

Lemma key_walk_found h k c pre cur n next :
  KeyOrder (keycmp h) → key_walk h k c = (pre, cur) → key_found h k cur = Some (n, next) →
  c = pre ++ n :: next ∧ n.1 = k.
Proof.
  intros Hord Hw Hf. apply walk_inv in Hw as (-> & _ & _).
  destruct cur as [|x cur]; simpl in Hf; [done|]. case_bool; [|done].
  injection Hf as -> ->. reflect_bools. split; [done|]. symmetry. by apply (cmp_eq (cmp := keycmp h)).
Qed.

Lemma key_walk_absent h k c pre cur :
  KeyOrder (keycmp h) → StronglySorted (λ a b, (0 < keycmp h b.1 a.1)%Z) c →
  key_walk h k c = (pre, cur) → key_found h k cur = None →
  c = pre ++ cur ∧ Forall (λ n, (0 < keycmp h k n.1)%Z) pre ∧ Forall (λ n, (0 < keycmp h n.1 k)%Z) cur.
Proof.
  intros Hord Hs Hw Hf. apply walk_inv in Hw as (-> & Hpre & Hcur). split; [done|]. split.
  { eapply Forall_impl; [done|]. intros x Hx. by apply Z.ltb_lt. }
  apply StronglySorted_app in Hs as (_ & _ & Hs). destruct cur as [|y cur]; [done|].
  simpl in Hf. case_bool; [done|]. reflect_bools.
  assert (0 < keycmp h y.1 k)%Z as Hy.
  { apply (cmp_gt_lt (cmp := keycmp h)). lia. }
  constructor; [done|]. apply StronglySorted_inv in Hs as [_ Hall].
  eapply Forall_impl; [done|]. intros z Hz. by apply (cmp_trans (cmp := keycmp h) _ y.1).
Qed.

Lemma sorted_insert h k d (pre cur : list (K * D)) :
  StronglySorted (λ a b, (0 < keycmp h b.1 a.1)%Z) (pre ++ cur) →
  Forall (λ n, (0 < keycmp h k n.1)%Z) pre → Forall (λ n, (0 < keycmp h n.1 k)%Z) cur →
  StronglySorted (λ a b, (0 < keycmp h b.1 a.1)%Z) (pre ++ (k, d) :: cur).
Proof.
  intros (Hpc & Hp & Hc)%StronglySorted_app Hpre Hcur. apply StronglySorted_app. split_and!; [|done|].
  - intros a b Ha [->|Hb]%elem_of_cons; [|by apply Hpc].
    by apply (Forall_forall (λ n, (0 < keycmp h k n.1)%Z) pre).
  - by constructor.
Qed.

(** ** One slot in view: the chain of a key, and the rest of the table *)

Lemma table_focus h i c :
  htable h !! i = Some c →
  ∃ R, ht_entries h ≡ₚ c ++ R ∧
    ∀ c' n, ht_entries (set_table h (<[i := c']> (htable h)) n) ≡ₚ c' ++ R.
Proof.
  intros Hi. destruct (concat_focus _ _ _ Hi) as (R & HR & Hset). exists R.
  split; [done|]. intros c' n. apply Hset.
Qed.

Lemma entry_in_chain h k d c :
  ht_struct h → (k, d) ∈ ht_entries h →
  htable h !! N.to_nat (hash_value h (size h) k) = Some c → (k, d) ∈ c.
Proof.
  intros Hwf Hin Hc. unfold ht_entries in Hin.
  apply list_elem_of_In, in_concat in Hin as (c' & Hc' & Hin).
  apply list_elem_of_In in Hc', Hin. apply list_elem_of_lookup in Hc' as [j Hj].
  destruct (wf_chains _ Hwf _ _ Hj) as [_ Hh].
  rewrite Forall_forall in Hh. apply Hh in Hin as Hk. simpl in Hk. rewrite Hk, Nat2N.id in Hc. congruence.
Qed.

(** What the walk of an operation sees of a well-formed table. *)
Record slot_view h (k : K) (c pre cur R : list (K * D)) : Prop := {
  sv_at : htable h !! N.to_nat (hash_value h (size h) k) = Some c;
  sv_run : ∀ o, htable_at h (hash_value h (size h) k) o = Ret c o;
  sv_walk : key_walk h k c = (pre, cur);
  sv_split : c = pre ++ cur;
  sv_perm : ht_entries h ≡ₚ pre ++ cur ++ R;
  sv_set : ∀ c' n, ht_entries (set_table h (<[N.to_nat (hash_value h (size h) k) := c']>
                                                (htable h)) n) ≡ₚ c' ++ R;
  sv_found : match key_found h k cur with
             | Some (n, next) => cur = n :: next ∧ n.1 = k ∧ ht_map h !! k = Some n.2
             | None => ht_map h !! k = None ∧
                 ∀ d, chain_wf h (hash_value h (size h) k) (pre ++ (k, d) :: cur)
             end }.

Lemma slot_focus h k : ht_struct h → ∃ c pre cur R, slot_view h k c pre cur R.
Proof.
  intros Hwf. pose proof (wf_hash _ Hwf k) as Hk.
  destruct (lookup_lt_is_Some_2 (htable h) (N.to_nat (hash_value h (size h) k))) as [c Hc].
  { pose proof (wf_size _ Hwf). lia. }
  destruct (table_focus _ _ _ Hc) as (R & HR & Hset).
  destruct (key_walk h k c) as [pre cur] eqn:Hw. exists c, pre, cur, R.
  assert (c = pre ++ cur) as Hsplit by (by apply walk_inv in Hw as (? & _)).
  destruct (wf_chains _ Hwf _ _ Hc) as [Hsorted Hhash]. rewrite N2Nat.id in Hhash.
  split; try done.
  - intros o. unfold htable_at. rewrite Hc. unfold s32. pose proof (wf_small _ Hwf).
    assert (u32 (hash_value h (size h) k) = hash_value h (size h) k) as ->.
    { apply N.mod_small. change (2 ^ 31) with 2147483648 in *. change (2 ^ 32) with 4294967296. lia. }
    rewrite (proj2 (N.ltb_lt _ (2 ^ 31))) by lia. rewrite (proj2 (Z.ltb_ge _ 0)) by lia. done.
  - by rewrite HR, Hsplit, <- app_assoc.
  - destruct (key_found h k cur) as [[n next]|] eqn:Hf.
    + destruct (key_walk_found _ _ _ _ _ _ _ (wf_order _ Hwf) Hw Hf) as [Heq Hn].
      rewrite Hsplit in Heq. apply app_inv_head in Heq as ->. split_and!; [done..|].
      apply elem_of_list_to_map_1; [apply Hwf|]. rewrite HR, Hsplit. destruct n as [kn dn]; simpl in *.
      subst kn. set_solver.
    + destruct (key_walk_absent _ _ _ _ _ (wf_order _ Hwf) Hsorted Hw Hf) as (_ & Hpre & Hcur). split.
      * apply not_elem_of_list_to_map_1. intros Hin. apply list_elem_of_fmap in Hin as ([k' d] & Hkd & Hin).
        simpl in Hkd. subst k'. apply (entry_in_chain _ _ _ c Hwf) in Hin; [|done].
        assert (keycmp h k k = 0%Z) as Hkk by (by apply (cmp_eq (KeyOrder := wf_order _ Hwf))).
        rewrite Hsplit in Hin. rewrite Forall_forall in Hpre, Hcur.
        apply elem_of_app in Hin as [Hin|Hin]; [apply Hpre in Hin|apply Hcur in Hin]; simpl in Hin; lia.
      * intros d. rewrite Hsplit in Hsorted, Hhash. split; [by apply sorted_insert|].
        apply Forall_app in Hhash as [? ?]. apply Forall_app. split; [done|]. by constructor.
Qed.

(** ** Updates of one slot *)

Lemma ht_struct_set h i c c' n :
  ht_struct h → htable h !! i = Some c → chain_wf h (N.of_nat i) c' →
  NoDup (ht_entries (set_table h (<[i := c']> (htable h)) n)).*1 →
  ht_struct (set_table h (<[i := c']> (htable h)) n).
Proof.
  intros Hs Hi Hc' Hnd. destruct Hs. split; try done.
  - simpl. by rewrite length_insert.
  - simpl. intros j c'' Hj. destruct (decide (i = j)) as [->|Hne].
    + rewrite list_lookup_insert_eq in Hj by (by eapply lookup_lt_Some). by injection Hj as <-.
    + rewrite list_lookup_insert_ne in Hj by done. by apply wf_chains0.
Qed.

Lemma chain_wf_app_cons h i pre n (next : list (K * D)) :
  chain_wf h i (pre ++ n :: next) → chain_wf h i (pre ++ next).
Proof.
  unfold chain_wf. rewrite !StronglySorted_app, !Forall_app, Forall_cons.
  intros [(Hpc & Hp & [? ?]%StronglySorted_inv) (? & ? & ?)]. split_and!; try done.
  intros a b ? ?. apply Hpc; set_solver.
Qed.

Lemma chain_wf_rekey h i pre n (next : list (K * D)) d :
  chain_wf h i (pre ++ n :: next) → chain_wf h i (pre ++ (n.1, d) :: next).
Proof.
  unfold chain_wf. rewrite !StronglySorted_app, !Forall_app, !Forall_cons.
  intros [(Hpc & Hp & [? ?]%StronglySorted_inv) (? & ? & ?)]. split_and!; try done.
  - intros a b ? [->|?]%elem_of_cons; [apply (Hpc a n)|apply Hpc]; set_solver.
  - by constructor.
Qed.

Lemma ht_map_perm h (l : list (K * D)) :
  ht_struct h → ht_entries h ≡ₚ l → NoDup l.*1 ∧ ht_map h = list_to_map l.
Proof.
  intros Hs Hl. split; [rewrite <- Hl; apply Hs|]. apply list_to_map_proper; [apply Hs|done].
Qed.

Lemma u32_succ x : u32 (u32 x + 1) = u32 (x + 1).
Proof. apply N.Div0.add_mod_idemp_l. Qed.

Lemma dec32_succ x : dec32 (u32 (x + 1)) = u32 x.
Proof.
  unfold dec32, u32, UINT_MAX. rewrite N.Div0.add_mod_idemp_l.
  replace (x + 1 + 4294967295) with (x + 1 * 2 ^ 32) by (change (2 ^ 32) with 4294967296; lia).
  apply N.Div0.mod_add.
Qed.

(** Adding a key that is absent, overwriting and dropping one that is there. *)
Lemma add_absent h k d n c pre cur R :
  let h' := set_table h (<[N.to_nat (hash_value h (size h) k) := pre ++ (k, d) :: cur]> (htable h)) n in
  ht_struct h → slot_view h k c pre cur R → key_found h k cur = None →
  ht_struct h' ∧ ht_map h' = <[k := d]> (ht_map h) ∧
  length (ht_entries h') = S (length (ht_entries h)).
Proof.
  intros h' Hs Hv Hf. pose proof (sv_found _ _ _ _ _ _ Hv) as Hfound. rewrite Hf in Hfound.
  destruct Hfound as [Hnone Hc]. assert (ht_entries h' ≡ₚ (k, d) :: ht_entries h) as Hp.
  { unfold h'. rewrite (sv_set _ _ _ _ _ _ Hv), (sv_perm _ _ _ _ _ _ Hv). solve_Permutation. }
  assert (ht_struct h') as Hs'.
  { apply (ht_struct_set _ _ c); [done|apply Hv|rewrite N2Nat.id; apply Hc|].
    fold h'. rewrite Hp. simpl. constructor; [|apply Hs]. by apply not_elem_of_list_to_map_2. }
  split; [done|]. split; [|by rewrite Hp]. by rewrite (proj2 (ht_map_perm _ _ Hs' Hp)).
Qed.

Lemma overwrite_present h k d n c pre x next R :
  let h' := set_table h (<[N.to_nat (hash_value h (size h) k) := pre ++ (k, d) :: next]> (htable h)) n in
  ht_struct h → slot_view h k c pre (x :: next) R → x.1 = k →
  ht_struct h' ∧ ht_map h' = <[k := d]> (ht_map h) ∧
  length (ht_entries h') = length (ht_entries h).
Proof.
  intros h' Hs Hv Hk. assert (ht_entries h ≡ₚ x :: pre ++ next ++ R) as Hp0.
  { rewrite (sv_perm _ _ _ _ _ _ Hv). solve_Permutation. }
  assert (ht_entries h' ≡ₚ (k, d) :: pre ++ next ++ R) as Hp.
  { unfold h'. rewrite (sv_set _ _ _ _ _ _ Hv). solve_Permutation. }
  destruct (ht_map_perm _ _ Hs Hp0) as [Hnd ->]. destruct x as [kx dx]; simpl in *. subst kx.
  assert (ht_struct h') as Hs'.
  { apply (ht_struct_set _ _ c); [done|apply Hv| |fold h'; by rewrite Hp].
    apply (chain_wf_rekey _ _ _ (k, dx)). rewrite <- (sv_split _ _ _ _ _ _ Hv).
    apply (wf_chains _ Hs), Hv. }
  split; [done|]. split; [|by rewrite Hp, Hp0]. rewrite (proj2 (ht_map_perm _ _ Hs' Hp)). simpl.
  by rewrite insert_insert_eq.
Qed.

Lemma drop_present h k n c pre x next R :
  let h' := set_table h (<[N.to_nat (hash_value h (size h) k) := pre ++ next]> (htable h)) n in
  ht_struct h → slot_view h k c pre (x :: next) R → x.1 = k →
  ht_struct h' ∧ ht_map h' = delete k (ht_map h) ∧
  length (ht_entries h) = S (length (ht_entries h')).
Proof.
  intros h' Hs Hv Hk. assert (ht_entries h ≡ₚ x :: pre ++ next ++ R) as Hp0.
  { rewrite (sv_perm _ _ _ _ _ _ Hv). solve_Permutation. }
  assert (ht_entries h' ≡ₚ pre ++ next ++ R) as Hp.
  { unfold h'. rewrite (sv_set _ _ _ _ _ _ Hv). solve_Permutation. }
  destruct (ht_map_perm _ _ Hs Hp0) as [Hnd ->]. destruct x as [kx dx]; simpl in *. subst kx.
  apply NoDup_cons in Hnd as [Hnotin Hnd].
  assert (ht_struct h') as Hs'.
  { apply (ht_struct_set _ _ c); [done|apply Hv| |fold h'; by rewrite Hp].
    apply (chain_wf_app_cons _ _ _ (k, dx)). rewrite <- (sv_split _ _ _ _ _ _ Hv).
    apply (wf_chains _ Hs), Hv. }
  split; [done|]. split; [|by rewrite Hp, Hp0]. rewrite (proj2 (ht_map_perm _ _ Hs' Hp)).
  rewrite delete_insert_id; [done|]. by apply not_elem_of_list_to_map_1.
Qed.

End invariant.

(** * Refinement *)

Section refinement.
Context {K D A : Type} `{Countable K}.
Implicit Types h : hashtab K D.

Lemma search_spec h k o :
  ht_struct h → hashtab_search (Some h) k o = Ret (ht_map h !! k) o.
Proof.
  intros Hs. destruct (slot_focus h k Hs) as (c & pre & cur & R & Hv).
  unfold hashtab_search. rewrite bind_run, (sv_run _ _ _ _ _ _ Hv), (sv_walk _ _ _ _ _ _ Hv).
  pose proof (sv_found _ _ _ _ _ _ Hv) as Hf.
  destruct (key_found h k cur) as [[n next]|]; [destruct Hf as (_ & _ & ->)|destruct Hf as [-> _]]; done.
Qed.

Lemma insert_spec h k (d : D) o :
  ht_wf h →
  wp (hashtab_insert (Some h) k d) o (λ r o', (o = [] → o' = []) ∧
    ((r = (SEPOL_EEXIST, Some h) ∧ is_Some (ht_map h !! k))
     ∨ (r = (SEPOL_ENOMEM, Some h) ∧ o ≠ [])
     ∨ (∃ h', r = (SEPOL_OK, Some h') ∧ ht_map h !! k = None ∧ ht_wf h' ∧
          ht_map h' = <[k := d]> (ht_map h)))).
Proof.
  intros [Hs Hnel]. destruct (slot_focus h k Hs) as (c & pre & cur & R & Hv).
  unfold hashtab_insert. wp_step. unfold wp at 1. rewrite (sv_run _ _ _ _ _ _ Hv), (sv_walk _ _ _ _ _ _ Hv).
  pose proof (sv_found _ _ _ _ _ _ Hv) as Hf. destruct (key_found h k cur) as [[n next]|] eqn:E.
  - apply wp_ret. split; [done|]. left. destruct Hf as (_ & _ & ->). by split.
  - wp_step. wp_step. intros [] o' Ho; apply wp_ret; (split; [naive_solver|]); right; [right|left; naive_solver].
    destruct (add_absent h k d (u32 (nel h + 1)) c pre cur R Hs Hv E) as (Hs' & Hm & Hl).
    eexists. split_and!; [done|apply Hf| |done]. split; [done|]. rewrite Hl. simpl nel.
    rewrite Hnel, u32_succ. f_equal. lia.
Qed.

Lemma remove_spec h k destroy (args : A) o :
  ht_wf h →
  wp (hashtab_remove (Some h) k destroy args) o (λ r o', o' = o ∧
    match ht_map h !! k with
    | None => r = (SEPOL_ENOENT, Some h, args)
    | Some d => ∃ h', r = (SEPOL_OK, Some h', match destroy with Some f => f k d args | None => args end) ∧
        ht_wf h' ∧ ht_map h' = delete k (ht_map h)
    end).
Proof.
  intros [Hs Hnel]. destruct (slot_focus h k Hs) as (c & pre & cur & R & Hv).
  unfold hashtab_remove. wp_step. unfold wp at 1. rewrite (sv_run _ _ _ _ _ _ Hv), (sv_walk _ _ _ _ _ _ Hv).
  pose proof (sv_found _ _ _ _ _ _ Hv) as Hf. destruct (key_found h k cur) as [[n next]|] eqn:E.
  - destruct Hf as (-> & <- & ->). apply wp_ret. split; [done|].
    destruct (drop_present h n.1 (dec32 (nel h)) c pre n next R Hs Hv eq_refl) as (Hs' & Hm & Hl).
    eexists. split_and!; [done| |done]. split; [done|]. simpl nel.
    rewrite Hnel, Hl, Nat2N.inj_succ, <- N.add_1_r. apply dec32_succ.
  - destruct Hf as [-> _]. by apply wp_ret.
Qed.

(** [hashtab_replace] of a new key does not count it. *)
Lemma replace_spec h k d destroy (args : A) o :
  ht_struct h →
  wp (hashtab_replace (Some h) k d destroy args) o (λ r o', (o = [] → o' = []) ∧
    ((r = (SEPOL_ENOMEM, Some h, args) ∧ o ≠ [] ∧ ht_map h !! k = None)
     ∨ (∃ h' args', r = (SEPOL_OK, Some h', args') ∧ ht_struct h' ∧ nel h' = nel h ∧
          ht_map h' = <[k := d]> (ht_map h) ∧
          length (ht_entries h') =
            (length (ht_entries h) + match ht_map h !! k with Some _ => 0 | None => 1 end)%nat))).
Proof.
  intros Hs. destruct (slot_focus h k Hs) as (c & pre & cur & R & Hv).
  unfold hashtab_replace. wp_step. unfold wp at 1. rewrite (sv_run _ _ _ _ _ _ Hv), (sv_walk _ _ _ _ _ _ Hv).
  pose proof (sv_found _ _ _ _ _ _ Hv) as Hf. destruct (key_found h k cur) as [[n next]|] eqn:E.
  - destruct Hf as (-> & Hn & Hm). apply wp_ret. split; [done|]. right.
    destruct (overwrite_present h k d (nel h) c pre n next R Hs Hv Hn) as (Hs' & Hm' & Hl).
    eexists _, _. split_and!; [done..|]. rewrite Hl, Hm. lia.
  - destruct Hf as [Hnone _]. wp_step. wp_step.
    intros [] o' Ho; apply wp_ret; (split; [naive_solver|]); [right|left; naive_solver].
    destruct (add_absent h k d (nel h) c pre cur R Hs Hv E) as (Hs' & Hm' & Hl).
    eexists _, _. split_and!; [done..|]. rewrite Hl, Hnone. lia.
Qed.

Lemma create_spec hash cmp sz o :
  KeyOrder cmp → sz < 2 ^ 31 → (∀ k, hash sz k < sz) →
  wp (hashtab_create (K := K) (D := D) hash cmp sz) o (λ r o', (o = [] → o' = []) ∧
    match r with
    | None => o ≠ []
    | Some h => ht_wf h ∧ ht_map h = ∅ ∧ size h = sz ∧ hash_value h = hash ∧ keycmp h = cmp
    end).
Proof.
  intros Hord Hsz Hhash. unfold hashtab_create. wp_step. wp_step. intros [] o1 H1; cbn [negb].
  2:{ apply wp_ret. naive_solver. }
  wp_step. wp_step. intros [] o2 H2; cbn [negb]; apply wp_ret; (split; [naive_solver|]); [|naive_solver].
  assert (concat (replicate (N.to_nat sz) ([] : list (K * D))) = []) as Hnil.
  { induction (N.to_nat sz); simpl; done. }
  split_and!; try done; [split|].
  - split; simpl; try done.
    + rewrite length_replicate. lia.
    + intros i c Hi. apply lookup_replicate in Hi as [-> _]. split; constructor.
    + unfold ht_entries; simpl. rewrite Hnil. constructor.
  - unfold ht_entries; simpl. by rewrite Hnil.
  - unfold ht_map, ht_entries; simpl. by rewrite Hnil.
Qed.

(** [hashtab_map] applies the callback to each entry once, chain by chain. *)
Lemma map_spec h (apply : K → D → A → M (Z * A)) args o :
  ht_struct h →
  hashtab_map (Some h) apply args o =
  (r ← map_chain apply (ht_entries h) args;
   mret match r with inl x => x | inr args => (SEPOL_OK, args) end) o.
Proof.
  intros Hs. unfold hashtab_map. rewrite !bind_run. rewrite <- (wf_size _ Hs), Nat2N.id.
  rewrite (for_up_lookup (map_chain apply) (htable h) [] (htable h)) by done.
  unfold map_chain. by rewrite for_list_concat.
Qed.

(** ** Removal of the entries a callback rejects *)

Section remove_on_error.
Context (apply : K → D → A → Z * A) (destroy : option (K → D → A → A)) (keep : K * D → bool).
Hypothesis apply_keep : ∀ k d a, ((apply k d a).1 =? 0)%Z = keep (k, d).

Lemma remove_chain_spec c x n args :
  n = u32 (x + N.of_nat (length c)) →
  let r := remove_on_error apply destroy c n args in
  r.1.1 = filter keep c ∧ r.1.2 = u32 (x + N.of_nat (length (filter keep c))).
Proof.
  revert x n args. induction c as [|[k d] c IH]; intros x n args Hn; simpl; [done|].
  pose proof (apply_keep k d args) as Hk. destruct (apply k d args) as [ret args'] eqn:Ea.
  simpl in Hk. rewrite Hk. rewrite filter_cons. destruct (keep (k, d)) eqn:E.
  - rewrite decide_True by done. destruct (IH (x + 1) n args') as [H1 H2].
    { rewrite Hn. f_equal. simpl. lia. }
    destruct (remove_on_error apply destroy c n args') as [[kept n'] args'']; simpl in *.
    rewrite H1, H2. split; [done|]. f_equal. lia.
  - rewrite decide_False by (by intros []). apply IH. rewrite Hn. cbn [length].
    rewrite Nat2N.inj_succ, <- N.add_1_r, N.add_assoc. apply dec32_succ.
Qed.

Lemma Forall_keep (P : K * D → Prop) c : Forall P c → Forall P (filter keep c).
Proof. rewrite !Forall_forall. intros Hc x [_ Hx]%list_elem_of_filter. by apply Hc. Qed.

Lemma chain_wf_filter h i (c : list (K * D)) : chain_wf h i c → chain_wf h i (filter keep c).
Proof.
  intros [Hs Hf]. split; [|by apply Forall_keep].
  induction Hs as [|n c Hs IH Hall]; [constructor|]. apply Forall_cons in Hf as [_ Hf].
  rewrite filter_cons. case_decide; [constructor; [by apply IH|by apply Forall_keep]|by apply IH].
Qed.

Lemma concat_filter (t : list (list (K * D))) : concat (filter keep <$> t) = filter keep (concat t).
Proof. induction t as [|c t IH]; [done|]. rewrite fmap_cons. cbn [concat]. by rewrite filter_app, IH. Qed.

Lemma filter_table_wf h n :
  ht_struct h → n = u32 (N.of_nat (length (filter keep (ht_entries h)))) →
  let h' := set_table h (filter keep <$> htable h) n in
  ht_wf h' ∧ ht_map h' = filter keep (ht_map h).
Proof.
  intros Hs Hn h'. assert (ht_entries h' = filter keep (ht_entries h)) as He by apply concat_filter.
  assert (NoDup (ht_entries h').*1) as Hnd.
  { rewrite He. eapply sublist_NoDup; [apply Hs|]. apply fmap_sublist, sublist_filter. }
  split; [split; [|by rewrite He]|].
  - destruct Hs. split; try done; simpl.
    + by rewrite length_fmap.
    + intros i c Hi. rewrite list_lookup_fmap in Hi. destruct (htable h !! i) as [c'|] eqn:Hc; [|done].
      injection Hi as <-. by apply chain_wf_filter, wf_chains0.
  - apply map_eq. intros k. apply option_eq. intros d. unfold ht_map.
    rewrite map_lookup_filter_Some, <- !elem_of_list_to_map by (apply Hs || done).
    rewrite He, list_elem_of_filter. naive_solver.
Qed.

Lemma map_remove_spec h args o :
  ht_wf h →
  wp (hashtab_map_remove_on_error (Some h) apply destroy args) o (λ r o', o' = o ∧
    ∃ h', r.1 = Some h' ∧ ht_wf h' ∧ ht_map h' = filter keep (ht_map h)).
Proof.
  intros [Hs Hnel]. unfold hashtab_map_remove_on_error. wp_step.
  apply wp_for_up with (I := λ i s o', o' = o ∧
    let i := N.to_nat i in
    s.1 = set_table h ((filter keep <$> take i (htable h)) ++ drop i (htable h))
      (u32 (N.of_nat (length (concat (filter keep <$> take i (htable h)))) +
            N.of_nat (length (concat (drop i (htable h))))))).
  - split; [done|]. destruct h; simpl in *. unfold set_table; simpl. f_equal. exact Hnel.
  - intros j [h1 args1] o1 Hj [-> Hh1]. simpl in Hh1. subst h1.
    assert (N.to_nat j < length (htable h))%nat as Hlt by (pose proof (wf_size _ Hs); lia).
    destruct (lookup_lt_is_Some_2 _ _ Hlt) as [c Hc].
    assert (length (filter keep <$> take (N.to_nat j) (htable h)) = N.to_nat j) as Hlen.
    { rewrite length_fmap, length_take. lia. }
    rewrite (drop_S _ _ _ Hc). simpl htable. rewrite list_lookup_middle by done. simpl nel.
    wp_step. apply wp_ret. cbn [concat]. rewrite length_app.
    destruct (remove_chain_spec c
      (N.of_nat (length (concat (filter keep <$> take (N.to_nat j) (htable h)))) +
       N.of_nat (length (concat (drop (S (N.to_nat j)) (htable h)))))
      (u32 (N.of_nat (length (concat (filter keep <$> take (N.to_nat j) (htable h)))) +
            N.of_nat (length c + length (concat (drop (S (N.to_nat j)) (htable h)))))) args1)
      as [H1 H2]; [f_equal; lia|].
    destruct (remove_on_error apply destroy c _ args1) as [[kept n'] args']; simpl in H1, H2.
    apply wp_ret. split; [done|]. cbv zeta. simpl fst.
    replace (N.to_nat (j + 1)) with (S (N.to_nat j)) by lia.
    rewrite (take_S_r _ _ _ Hc), fmap_app, concat_app. subst kept n'.
    rewrite insert_app_r_alt by lia. rewrite Hlen, Nat.sub_diag. simpl. unfold set_table; simpl.
    f_equal; [by rewrite <- app_assoc|]. f_equal. rewrite app_nil_r, length_app. lia.
  - intros [h1 args1] o1 [-> Hh1]. simpl in Hh1. apply wp_ret. split; [done|]. subst h1.
    replace (N.to_nat (0 + N.of_nat (N.to_nat (size h)))) with (length (htable h))
      by (pose proof (wf_size _ Hs); lia).
    rewrite firstn_all, skipn_all, app_nil_r. simpl. rewrite N.add_0_r.
    eexists. split; [done|]. apply filter_table_wf; [done|]. by rewrite concat_filter.
Qed.

End remove_on_error.

End refinement.

(** * Symbol tables are such tables *)

Lemma land_le x y : N.land x y ≤ y.
Proof.
  apply N.ldiff_le. apply N.bits_inj_0. intros j.
  rewrite N.ldiff_spec, N.land_spec. btauto.
Qed.

Lemma symhash_lt sz key : 0 < sz → sz < 2 ^ 32 → symhash sz key < sz.
Proof.
  intros Hpos Hlt. unfold symhash. eapply N.le_lt_trans; [apply land_le|].
  unfold u32, UINT_MAX. replace (sz + 4294967295) with (sz - 1 + 1 * 2 ^ 32)
    by (change (2 ^ 32) with 4294967296; lia).
  rewrite N.Div0.mod_add, N.mod_small; lia.
Qed.

Lemma symtab_init_spec {D} (s : symtab D) sz o :
  0 < sz → sz < 2 ^ 31 →
  wp (symtab_init s sz) o (λ r o', (o = [] → o' = [] ∧ r.1 = 0%Z) ∧
    ((r.1 = 0%Z ∧ nprim r.2 = 0 ∧ ∃ h, table r.2 = Some h ∧ ht_wf h ∧ ht_map h = ∅) ∨
     (r.1 = (-1)%Z ∧ table r.2 = None))).
Proof.
  intros Hpos Hlt. unfold symtab_init. wp_step.
  eapply wp_mono; [apply create_spec; [apply _|done|]|].
  { intros k. apply symhash_lt; [done|]. change (2 ^ 31) with 2147483648 in *.
    change (2 ^ 32) with 4294967296. lia. }
  intros [h|] o' [Ho Hr]; apply wp_ret; simpl; naive_solver.
Qed.

(** * Theorems *)

(** C22: hash tables implement finite maps.  On a well-formed table, whatever the
    allocator answers, [hashtab_search] returns the map's entry;
    [hashtab_insert] refuses a present key and otherwise adds it, or fails with
    the table unchanged; [hashtab_remove] deletes a present key, handing its
    node to the destructor, and refuses an absent one.  Both keep the table
    well-formed, its element count included. *)
Theorem hashtab_refines_map {K D A} `{Countable K} (h : hashtab K D) k d
    (destroy : option (K → D → A → A)) args o :
  ht_wf h →
  hashtab_search (Some h) k o = Ret (ht_map h !! k) o ∧
  wp (hashtab_insert (Some h) k d) o (λ r o', (o = [] → o' = []) ∧
    ((r = (SEPOL_EEXIST, Some h) ∧ is_Some (ht_map h !! k))
     ∨ (r = (SEPOL_ENOMEM, Some h) ∧ o ≠ [])
     ∨ (∃ h', r = (SEPOL_OK, Some h') ∧ ht_map h !! k = None ∧ ht_wf h' ∧
          ht_map h' = <[k := d]> (ht_map h)))) ∧
  wp (hashtab_remove (Some h) k destroy args) o (λ r o', o' = o ∧
    match ht_map h !! k with
    | None => r = (SEPOL_ENOENT, Some h, args)
    | Some d => ∃ h', r = (SEPOL_OK, Some h', match destroy with Some f => f k d args | None => args end) ∧
        ht_wf h' ∧ ht_map h' = delete k (ht_map h)
    end).
Proof.
  intros Hwf. split_and!; [apply search_spec, Hwf|by apply insert_spec|by apply remove_spec].
Qed.

(** A symbol table of four slots with one symbol. *)
Definition ex_symtab : hashtab string N :=
  Hashtab [[]; []; [("b"%string, 7)]; []] 4 1 symhash symcmp.

Lemma ex_symtab_wf : ht_wf ex_symtab.
Proof.
  split; [|done]. split; try done.
  - apply _.
  - intros k. by apply symhash_lt.
  - intros i c Hi. do 4 (destruct i as [|i]; [injection Hi as <-; split; repeat constructor|]). done.
  - apply (bool_decide_unpack _). by vm_compute.
Qed.

Lemma hashtab_refines_map_witness :
  hashtab_search (Some ex_symtab) "b" [] = Ret (Some 7) [] ∧
  ∃ r o', hashtab_insert (Some ex_symtab) "a" 5 [] = Ret r o' ∧ r.1 = SEPOL_OK.
Proof.
  destruct (hashtab_refines_map (A := unit) ex_symtab "b" 5 None tt [] ex_symtab_wf) as [Hs _].
  destruct (hashtab_refines_map (A := unit) ex_symtab "a" 5 None tt [] ex_symtab_wf) as (_ & Hi & _).
  split; [rewrite Hs; by vm_compute|]. apply (proj1 (wp_run _ _ _)) in Hi as (r & o' & Hr & _).
  exists r, o'. split; [done|]. vm_compute in Hr. by injection Hr as <- _.
Defined.

(** Iteration and pruning.  [hashtab_map] runs its callback once on each
    entry of the map and stops at the first code that is not 0.
    [hashtab_map_remove_on_error] with a callback that decides on the entry
    keeps exactly the entries it accepts, in a well-formed table with the right
    count, whatever the destructor does to its arguments. *)
Theorem hashtab_map_prunes {K D A} `{Countable K} (h : hashtab K D)
    (visit : K → D → A → M (Z * A)) (apply : K → D → A → Z * A) destroy (keep : K * D → bool) args o :
  ht_wf h → (∀ k d a, ((apply k d a).1 =? 0)%Z = keep (k, d)) →
  hashtab_map (Some h) visit args o =
    (r ← map_chain visit (ht_entries h) args;
     mret match r with inl x => x | inr args => (SEPOL_OK, args) end) o ∧
  NoDup (ht_entries h).*1 ∧ ht_entries h ≡ₚ map_to_list (ht_map h) ∧
  wp (hashtab_map_remove_on_error (Some h) apply destroy args) o (λ r o', o' = o ∧
    ∃ h', r.1 = Some h' ∧ ht_wf h' ∧ ht_map h' = filter keep (ht_map h)).
Proof.
  intros Hwf Hkeep. split_and!; [apply map_spec, Hwf|apply Hwf| |by apply map_remove_spec].
  symmetry. apply map_to_list_to_map, Hwf.
Qed.

Lemma hashtab_map_prunes_witness :
  ∃ r o', hashtab_map_remove_on_error (Some ex_symtab) (λ _ d (a : unit), (if d =? 7 then 1%Z else 0%Z, a))
            None tt [] = Ret r o' ∧ ∃ h', r.1 = Some h' ∧ nel h' = 0.
Proof.
  destruct (hashtab_map_prunes ex_symtab (λ _ _ a, mret (0%Z, a))
              (λ _ d (a : unit), (if d =? 7 then 1%Z else 0%Z, a)) None (λ n, negb (n.2 =? 7)) tt []
              ex_symtab_wf) as (_ & _ & _ & Hw).
  { intros k d a. simpl. by destruct (d =? 7). }
  apply (proj1 (wp_run _ _ _)) in Hw as (r & o' & Hr & _ & h' & Hh & _).
  exists r, o'. split; [done|]. exists h'. split; [done|]. vm_compute in Hr. injection Hr as <- _.
  by injection Hh as <-.
Defined.

(** [hashtab_replace] updates the map like an insertion but never counts a
    new key: after it [nel] is one less than the number of entries (while the
    count is below 2^32). *)
Theorem hashtab_replace_count {K D A} `{Countable K} (h : hashtab K D) k d
    (destroy : option (K → D → A → A)) args :
  ht_wf h → N.of_nat (length (ht_entries h)) + 1 < 2 ^ 32 →
  wp (hashtab_replace (Some h) k d destroy args) [] (λ r _,
    ∃ h' args', r = (SEPOL_OK, Some h', args') ∧ ht_map h' = <[k := d]> (ht_map h) ∧
      ht_struct h' ∧
      N.of_nat (length (ht_entries h')) =
        nel h' + match ht_map h !! k with Some _ => 0 | None => 1 end).
Proof.
  intros [Hs Hnel] Hsmall. eapply wp_mono; [by apply replace_spec|].
  intros r o' (_ & [(_ & Ho & _)|(h' & args' & -> & ? & Hn & Hm & Hl)]); [done|].
  exists h', args'. split_and!; try done. unfold u32 in Hnel. rewrite N.mod_small in Hnel by lia.
  rewrite Hl, Hn, Hnel. destruct (ht_map h !! k); lia.
Qed.

Lemma hashtab_replace_count_witness :
  wp (hashtab_replace (Some ex_symtab) "a" 5 None tt) [] (λ r _,
    ∃ h' args', r = (SEPOL_OK, Some h', args') ∧ N.of_nat (length (ht_entries h')) = nel h' + 1).
Proof.
  eapply wp_mono; [apply (hashtab_replace_count ex_symtab "a" 5 None tt ex_symtab_wf); done|].
  intros r _ (h' & args' & Hr & _ & _ & Hn). by exists h', args'.
Defined.
