(* ===== verification/MlsTypes.v ===== *)
(** Levels, ranges and contexts: the inline functions of
    libsepol/include/sepol/policydb/mls_types.h and context.h.

    Levels are ordered by dominance, ranges by containment; contexts are
    compared field by field.  A copy takes the destination as an argument
    because a failed copy leaves part of it as it was. *)

From S2P Require Import Prelude Ebitmap.
Local Open Scope N_scope.

(** * Levels *)

Record mls_level := MlsLevel { sens : N; cat : ebitmap }.

(** [level[2]]: [level0] is low, [level1] high. *)
Record mls_range := MlsRange { level0 : mls_level; level1 : mls_level }.

#[global] Instance mls_level_eq_dec : EqDecision mls_level.
Proof. solve_decision. Defined.
#[global] Instance mls_range_eq_dec : EqDecision mls_range.
Proof. solve_decision. Defined.

Definition mls_level_init : mls_level := MlsLevel 0 ebitmap_init.

Definition mls_level_cpy (src : mls_level) : M (Z * mls_level) :=
  '(rc, c) ← ebitmap_cpy (cat src);
  mret (if (rc <? 0)%Z then (-1)%Z else 0%Z, MlsLevel (sens src) c).

Definition mls_level_destroy (l : mls_level) : mls_level :=
  let _ := ebitmap_destroy (cat l) in mls_level_init.

Definition mls_level_eq (l1 l2 : mls_level) : bool :=
  (sens l1 =? sens l2) && ebitmap_cmp (cat l1) (cat l2).

Definition mls_level_dom (l1 l2 : mls_level) : bool :=
  (sens l2 <=? sens l1) && ebitmap_contains (cat l1) (cat l2).

Definition mls_level_incomp (l1 l2 : mls_level) : bool :=
  negb (mls_level_dom l1 l2) && negb (mls_level_dom l2 l1).

Definition mls_level_between (l1 l2 l3 : mls_level) : bool :=
  mls_level_dom l1 l2 && mls_level_dom l3 l1.

(** * Ranges *)

Definition mls_range_contains (r1 r2 : mls_range) : bool :=
  mls_level_dom (level0 r2) (level0 r1) && mls_level_dom (level1 r1) (level1 r2).

Definition mls_range_init : mls_range := MlsRange mls_level_init mls_level_init.

Definition mls_range_cpy (dst src : mls_range) : M (Z * mls_range) :=
  '(rc, l0) ← mls_level_cpy (level0 src);
  if (rc <? 0)%Z then mret ((-1)%Z, MlsRange l0 (level1 dst)) else
  '(rc, l1) ← mls_level_cpy (level1 src);
  if (rc <? 0)%Z then mret ((-1)%Z, MlsRange (mls_level_destroy l0) l1) else
  mret (0%Z, MlsRange l0 l1).

Definition mls_range_destroy (r : mls_range) : mls_range :=
  MlsRange (mls_level_destroy (level0 r)) (mls_level_destroy (level1 r)).

Definition mls_range_eq (r1 r2 : mls_range) : bool :=
  mls_level_eq (level0 r1) (level0 r2) && mls_level_eq (level1 r1) (level1 r2).

(** * Semantic levels

    The form levels have in modules: categories as ranges of values. *)

Record mls_semantic_cat := SemCat { low : N; high : N }.
Record mls_semantic_level := SemLevel { sem_sens : N; sem_cat : list mls_semantic_cat }.
Record mls_semantic_range := SemRange { sem_level0 : mls_semantic_level; sem_level1 : mls_semantic_level }.

Definition mls_semantic_level_init : mls_semantic_level := SemLevel 0 [].

Definition mls_semantic_range_init : mls_semantic_range :=
  SemRange mls_semantic_level_init mls_semantic_level_init.

#[global] Instance mls_semantic_cat_eq_dec : EqDecision mls_semantic_cat.
Proof. solve_decision. Defined.
#[global] Instance mls_semantic_level_eq_dec : EqDecision mls_semantic_level.
Proof. solve_decision. Defined.
#[global] Instance mls_semantic_range_eq_dec : EqDecision mls_semantic_range.
Proof. solve_decision. Defined.

(** * Contexts *)

Record context_struct := Context { user : N; role : N; type : N; range : mls_range }.

#[global] Instance context_struct_eq_dec : EqDecision context_struct.
Proof. solve_decision. Defined.

Definition mls_context_init (c : context_struct) : context_struct :=
  Context (user c) (role c) (type c) mls_range_init.

Definition mls_context_cpy (dst src : context_struct) : M (Z * context_struct) :=
  '(rc, r) ← mls_range_cpy (range dst) (range src);
  mret (if (rc <? 0)%Z then (-1)%Z else 0%Z, Context (user dst) (role dst) (type dst) r).

Definition mls_context_cmp (c1 c2 : context_struct) : bool :=
  mls_level_eq (level0 (range c1)) (level0 (range c2)) &&
  mls_level_eq (level1 (range c1)) (level1 (range c2)).

Definition mls_context_destroy (c : context_struct) : context_struct :=
  mls_context_init (Context (user c) (role c) (type c) (mls_range_destroy (range c))).

Definition context_init : context_struct := Context 0 0 0 mls_range_init.

Definition context_cpy (dst src : context_struct) : M (Z * context_struct) :=
  mls_context_cpy (Context (user src) (role src) (type src) (range dst)) src.

Definition context_destroy (c : context_struct) : context_struct :=
  mls_context_destroy (Context 0 0 0 (range c)).

Definition context_cmp (c1 c2 : context_struct) : bool :=
  (user c1 =? user c2) && (role c1 =? role c2) && (type c1 =? type c2) && mls_context_cmp c1 c2.

(** * Well-formedness *)

Definition level_wf (l : mls_level) : Prop := ebitmap_wf (cat l).
Definition range_wf (r : mls_range) : Prop := level_wf (level0 r) ∧ level_wf (level1 r).
Definition context_wf (c : context_struct) : Prop := range_wf (range c).

#[global] Instance level_wf_dec l : Decision (level_wf l).
Proof. unfold level_wf. apply _. Defined.
#[global] Instance range_wf_dec r : Decision (range_wf r).
Proof. unfold range_wf. apply _. Defined.
#[global] Instance context_wf_dec c : Decision (context_wf c).
Proof. unfold context_wf. apply _. Defined.

(** * Lemmas *)

Lemma level_eq_spec l1 l2 : mls_level_eq l1 l2 = true ↔ l1 = l2.
Proof.
  unfold mls_level_eq. rewrite andb_true_iff, N.eqb_eq, ebitmap_cmp_eq.
  destruct l1, l2; simpl. naive_solver.
Qed.

Lemma range_eq_spec r1 r2 : mls_range_eq r1 r2 = true ↔ r1 = r2.
Proof.
  unfold mls_range_eq. rewrite andb_true_iff, !level_eq_spec. destruct r1, r2; simpl. naive_solver.
Qed.

Lemma context_cmp_spec c1 c2 : context_cmp c1 c2 = true ↔ c1 = c2.
Proof.
  unfold context_cmp, mls_context_cmp. rewrite !andb_true_iff, !N.eqb_eq, !level_eq_spec.
  destruct c1 as [? ? ? []], c2 as [? ? ? []]; simpl. naive_solver.
Qed.

Lemma level_dom_spec l1 l2 :
  level_wf l1 → level_wf l2 →
  mls_level_dom l1 l2 = true ↔
  sens l2 ≤ sens l1 ∧ ∀ i, ebitmap_bit (cat l2) i = true → ebitmap_bit (cat l1) i = true.
Proof.
  intros H1 H2. unfold mls_level_dom. by rewrite andb_true_iff, N.leb_le, ebitmap_contains_subset.
Qed.

Lemma level_dom_refl l : level_wf l → mls_level_dom l l = true.
Proof. intros Hl. apply level_dom_spec; [done..|]. split; [lia|done]. Qed.

Lemma level_dom_trans l1 l2 l3 :
  level_wf l1 → level_wf l2 → level_wf l3 →
  mls_level_dom l1 l2 = true → mls_level_dom l2 l3 = true → mls_level_dom l1 l3 = true.
Proof.
  intros H1 H2 H3. rewrite !level_dom_spec by done. intros [? Ha] [? Hb]. split; [lia|]. auto.
Qed.

Lemma level_dom_antisym l1 l2 :
  level_wf l1 → level_wf l2 →
  mls_level_dom l1 l2 = true → mls_level_dom l2 l1 = true → l1 = l2.
Proof.
  intros H1 H2. rewrite !level_dom_spec by done. intros [? Ha] [? Hb]. destruct l1, l2; simpl in *.
  f_equal; [lia|]. apply ebitmap_ext; [done..|]. intros i. apply eq_bool_prop_intro.
  rewrite !Is_true_true. naive_solver.
Qed.

(** Copies: the fields of the source, or a failure when memory is short. *)
Lemma level_cpy_spec l o :
  wp (mls_level_cpy l) o (λ r o', (o = [] → o' = [] ∧ r.1 = 0%Z) ∧
    (r = (0%Z, l) ∨ r = ((-1)%Z, MlsLevel (sens l) ebitmap_init))).
Proof.
  unfold mls_level_cpy. wp_step. eapply wp_mono; [apply cpy_spec|]. intros r o' [Ho Hr].
  destruct Hr as [-> | ->]; apply wp_ret; simpl in *.
  - split; [naive_solver|]. left. by destruct l.
  - split; [naive_solver|]. by right.
Qed.

Lemma range_cpy_spec dst src o :
  wp (mls_range_cpy dst src) o (λ r o', (o = [] → o' = [] ∧ r.1 = 0%Z) ∧
    (r = (0%Z, src) ∨ r.1 = (-1)%Z)).
Proof.
  unfold mls_range_cpy. wp_step. eapply wp_mono; [apply level_cpy_spec|].
  intros r o1 [Ho1 [-> | ->]]; simpl in *; [|apply wp_ret; naive_solver].
  wp_step. eapply wp_mono; [apply level_cpy_spec|].
  intros r o2 [Ho2 [-> | ->]]; simpl in *; apply wp_ret.
  - split; [naive_solver|]. left. by destruct src.
  - split; [naive_solver|]. by right.
Qed.

Lemma context_cpy_spec dst src o :
  wp (context_cpy dst src) o (λ r o', (o = [] → o' = [] ∧ r.1 = 0%Z) ∧
    (r = (0%Z, src) ∨ r.1 = (-1)%Z)).
Proof.
  unfold context_cpy, mls_context_cpy. wp_step. eapply wp_mono; [apply range_cpy_spec|].
  intros [rc r] o1 [Ho1 [Hr | Hr]]; simpl in *; apply wp_ret; simpl.
  - injection Hr as -> ->. split; [naive_solver|]. left. by destruct src.
  - subst rc. split; [naive_solver|]. by right.
Qed.

(** * Theorems *)

(** C23: dominance is the product of the order on sensitivities and inclusion
    of category sets.  On well-formed levels it is a partial order whose
    equality is [mls_level_eq], and the derived tests are the relations they
    name: [mls_level_between] bounds, [mls_level_incomp] incomparability. *)
Theorem mls_dominance_order l1 l2 l3 :
  level_wf l1 → level_wf l2 → level_wf l3 →
  (mls_level_dom l1 l2 = true ↔
     sens l2 ≤ sens l1 ∧ ∀ i, ebitmap_get_bit (cat l2) i = true → ebitmap_get_bit (cat l1) i = true) ∧
  mls_level_dom l1 l1 = true ∧
  (mls_level_dom l1 l2 = true → mls_level_dom l2 l3 = true → mls_level_dom l1 l3 = true) ∧
  (mls_level_dom l1 l2 && mls_level_dom l2 l1 = mls_level_eq l1 l2) ∧
  (mls_level_between l1 l2 l3 = true → mls_level_dom l3 l2 = true) ∧
  (mls_level_incomp l1 l2 = true → mls_level_eq l1 l2 = false).
Proof.
  intros H1 H2 H3. split_and!.
  - rewrite level_dom_spec by done. by setoid_rewrite get_bit_wf.
  - by apply level_dom_refl.
  - by apply level_dom_trans.
  - apply eq_bool_prop_intro. rewrite !Is_true_true, andb_true_iff, level_eq_spec. split.
    + intros [? ?]. by apply level_dom_antisym.
    + intros ->. split; by apply level_dom_refl.
  - unfold mls_level_between. intros [? ?]%andb_true_iff. by apply (level_dom_trans l3 l1 l2).
  - unfold mls_level_incomp. intros [Hn _]%andb_true_iff. apply not_true_is_false.
    rewrite level_eq_spec. intros ->. by rewrite level_dom_refl in Hn.
Qed.

Definition ex_level0 : mls_level := MlsLevel 1 (EBitmap [EBNode 0 6] 64).
Definition ex_level1 : mls_level := MlsLevel 2 ex_bitmap2.

Lemma mls_dominance_order_witness :
  level_wf ex_level0 ∧ level_wf ex_level1 ∧ mls_level_dom ex_level1 ex_level0 = true ∧
  mls_level_eq ex_level1 ex_level0 = false.
Proof.
  split_and!; [by_decide|by_decide|by vm_compute|].
  destruct (mls_dominance_order ex_level1 ex_level0 ex_level0 ltac:(by_decide) ltac:(by_decide)
              ltac:(by_decide)) as (_ & _ & _ & Heq & _).
  rewrite <- Heq. by vm_compute.
Defined.

(** Containment of ranges is a partial order on well-formed ranges, and
    [mls_range_eq] and [context_cmp] decide equality of ranges and of contexts.
    [context_cpy] gives a context that compares equal to its source, or -1, and
    never fails while memory lasts. *)
Theorem context_comparison r1 r2 r3 c1 c2 dst o :
  range_wf r1 → range_wf r2 → range_wf r3 →
  mls_range_contains r1 r1 = true ∧
  (mls_range_contains r1 r2 = true → mls_range_contains r2 r3 = true →
     mls_range_contains r1 r3 = true) ∧
  (mls_range_contains r1 r2 && mls_range_contains r2 r1 = mls_range_eq r1 r2) ∧
  (mls_range_eq r1 r2 = true ↔ r1 = r2) ∧
  (context_cmp c1 c2 = true ↔ c1 = c2) ∧
  wp (context_cpy dst c1) o (λ r o', (o = [] → r.1 = 0%Z) ∧
    ((r.1 = 0%Z ∧ context_cmp r.2 c1 = true) ∨ r.1 = (-1)%Z)).
Proof.
  intros [H1 H1'] [H2 H2'] [H3 H3']. unfold mls_range_contains. split_and!.
  - by rewrite !level_dom_refl.
  - rewrite !andb_true_iff. intros [? ?] [? ?].
    split; [by apply (level_dom_trans _ (level0 r2))|by apply (level_dom_trans _ (level1 r2))].
  - apply eq_bool_prop_intro. rewrite !Is_true_true, !andb_true_iff, range_eq_spec. split.
    + intros [[? ?] [? ?]]. destruct r1, r2; simpl in *. f_equal; by apply level_dom_antisym.
    + intros ->. rewrite !level_dom_refl; done.
  - apply range_eq_spec.
  - apply context_cmp_spec.
  - eapply wp_mono; [apply context_cpy_spec|]. intros r o' [Ho Hr]. split; [naive_solver|].
    destruct Hr as [-> | ->]; [left|by right]. split; [done|]. by apply context_cmp_spec.
Qed.

Definition ex_range : mls_range := MlsRange ex_level0 ex_level1.
Definition ex_context : context_struct := Context 1 2 3 ex_range.

Lemma context_comparison_witness :
  mls_range_contains ex_range ex_range = true ∧ (context_cmp ex_context ex_context = true).
Proof.
  destruct (context_comparison ex_range ex_range ex_range ex_context ex_context context_init []
              ltac:(by_decide) ltac:(by_decide) ltac:(by_decide)) as (Hr & _ & _ & _ & Hc & _).
  split; [done|]. by apply Hc.
Defined.
