(* ===== verification/Sidtab.v ===== *)
(** The security identifier table: libsepol/src/sidtab.c.

    SIDs name contexts.  The table has the chains of hashtab.c with the SID
    as key, so its proofs go through [sid_view], the same chains seen as a
    [hashtab]; the operations are those of sidtab.c.  The allocator of new SIDs
    is correct because [next_sid] stays above every SID in the table. *)

From S2P Require Import Prelude Ebitmap Hashtab MlsTypes.
Local Open Scope N_scope.

Definition SIDTAB_SIZE : N := 128.
Definition SIDTAB_HASH (sid : N) : N := N.land sid (SIDTAB_SIZE - 1).
Definition SECINITSID_UNLABELED : N := 3.
Definition SEPOL_SECSID_NULL : N := 0.

Record sidtab := Sidtab {
  st_htable : option (list (list (N * context_struct)));
  st_nel : N;
  next_sid : N;
  shutdown : N }.

(** * Operations *)

Definition sepol_sidtab_init (s : sidtab) : M (Z * sidtab) :=
  b ← malloc;
  if negb b then mret ((- ENOMEM)%Z, Sidtab None (st_nel s) (next_sid s) (shutdown s)) else
  mret (0%Z, Sidtab (Some (replicate (N.to_nat SIDTAB_SIZE) [])) 0 1 0).

Definition sid_walk (sid : N) (c : list (N * context_struct)) :=
  walk (λ cur : N * context_struct, cur.1 <? sid) c.

Definition sid_found (sid : N) (cur : list (N * context_struct)) :=
  match cur with
  | n :: next => if sid =? n.1 then Some (n, next) else None
  | [] => None
  end.

Definition sepol_sidtab_insert (s : option sidtab) (sid : N) (context : context_struct)
    : M (Z * option sidtab) :=
  match s with
  | None => mret ((- ENOMEM)%Z, None)
  | Some s =>
  match st_htable s with
  | None => mret ((- ENOMEM)%Z, Some s)
  | Some t =>
      let hvalue := N.to_nat (SIDTAB_HASH sid) in
      c ← deref (t !! hvalue);
      let '(prev, cur) := sid_walk sid c in
      match sid_found sid cur with
      | Some _ => mret ((- EEXIST)%Z, Some s)
      | None =>
          b ← malloc;
          if negb b then mret ((- ENOMEM)%Z, Some s) else
          '(rc, ctx) ← context_cpy context_init context;
          if negb (rc =? 0)%Z then mret ((- ENOMEM)%Z, Some s) else
          mret (0%Z, Some (Sidtab (Some (<[hvalue := prev ++ (sid, ctx) :: cur]> t))
                             (u32 (st_nel s + 1))
                             (if next_sid s <=? sid then u32 (sid + 1) else next_sid s)
                             (shutdown s)))
      end
  end
  end.

Definition sepol_sidtab_remove (s : option sidtab) (sid : N) : M (Z * option sidtab) :=
  match s with
  | None => mret ((- ENOENT)%Z, None)
  | Some s =>
  match st_htable s with
  | None => mret ((- ENOENT)%Z, Some s)
  | Some t =>
      let hvalue := N.to_nat (SIDTAB_HASH sid) in
      c ← deref (t !! hvalue);
      let '(last, cur) := sid_walk sid c in
      match sid_found sid cur with
      | None => mret ((- ENOENT)%Z, Some s)
      | Some (n, next) =>
          mret (0%Z, Some (Sidtab (Some (<[hvalue := last ++ next]> t)) (dec32 (st_nel s))
                             (next_sid s) (shutdown s)))
      end
  end
  end.

(** The scan of one chain for a SID. *)
Definition sid_lookup (t : list (list (N * context_struct))) (sid : N)
    : M (option context_struct) :=
  c ← deref (t !! N.to_nat (SIDTAB_HASH sid));
  let '(_, cur) := sid_walk sid c in
  mret match sid_found sid cur with Some (n, _) => Some n.2 | None => None end.

Definition sepol_sidtab_search (s : option sidtab) (sid : N) : M (option context_struct) :=
  match s with
  | None => mret None
  | Some s =>
  match st_htable s with
  | None => mret None
  | Some t =>
      r ← sid_lookup t sid;
      match r with
      | Some c => mret (Some c)
      | None => sid_lookup t SECINITSID_UNLABELED
      end
  end
  end.

Definition sepol_sidtab_map {A} (s : option sidtab)
    (apply : N → context_struct → A → M (Z * A)) (args : A) : M (Z * A) :=
  match s with
  | None => mret (0%Z, args)
  | Some s =>
  match st_htable s with
  | None => mret (0%Z, args)
  | Some t =>
      r ← for_up (λ i args, c ← deref (t !! N.to_nat i); map_chain apply c args)
            (N.to_nat SIDTAB_SIZE) 0 args;
      mret match r with inl x => x | inr args => (0%Z, args) end
  end
  end.

(** The destructor of a removed node is [context_destroy], which frees. *)
Definition sepol_sidtab_map_remove_on_error {A} (s : option sidtab)
    (apply : N → context_struct → A → Z * A) (args : A) : M (option sidtab * A) :=
  match s with
  | None => mret (None, args)
  | Some s =>
  match st_htable s with
  | None => mret (Some s, args)
  | Some _ =>
      r ← for_up (R := unit)
            (λ i st, let '(s, args) := st in
               t ← deref (st_htable s);
               c ← deref (t !! N.to_nat i);
               let '(kept, n, args) := remove_on_error apply None c (st_nel s) args in
               mret (inr (Sidtab (Some (<[N.to_nat i := kept]> t)) n (next_sid s) (shutdown s), args)))
            (N.to_nat SIDTAB_SIZE) 0 (s, args);
      mret match r with inl _ => (Some s, args) | inr (s, args) => (Some s, args) end
  end
  end.

(** The first SID, chain by chain, with that context; 0 if there is none. *)
Definition sepol_sidtab_search_context (s : sidtab) (context : context_struct) : M N :=
  t ← deref (st_htable s);
  r ← for_up (λ i (u : unit), c ← deref (t !! N.to_nat i);
                for_list (λ n u, mret (if context_cmp n.2 context then inl n.1 else inr u)) c u)
        (N.to_nat SIDTAB_SIZE) 0 tt;
  mret match r with inl sid => sid | inr _ => 0 end.

Definition sepol_sidtab_context_to_sid (s : sidtab) (context : context_struct)
    : M (Z * sidtab * N) :=
  sid ← sepol_sidtab_search_context s context;
  if negb (sid =? 0) then mret (0%Z, s, sid) else
  sid ← sepol_sidtab_search_context s context;
  if negb (sid =? 0) then mret (0%Z, s, sid) else
  if (next_sid s =? UINT_MAX) || truth (shutdown s) then
    mret ((- ENOMEM)%Z, s, SEPOL_SECSID_NULL)
  else
    let sid := next_sid s in
    let s' := Sidtab (st_htable s) (st_nel s) (u32 (sid + 1)) (shutdown s) in
    '(ret, r) ← sepol_sidtab_insert (Some s') sid context;
    s'' ← deref r;
    if (ret =? 0)%Z then mret (0%Z, s'', sid)
    else mret (ret, Sidtab (st_htable s'') (st_nel s'') (dec32 (next_sid s'')) (shutdown s''),
               SEPOL_SECSID_NULL).

Definition sepol_sidtab_hash_eval (h : sidtab) : M (N * Z * N * Z) :=
  t ← deref (st_htable h);
  r ← for_up (R := unit)
        (λ i s, let '(used, maxlen) := s in
           cur ← deref (t !! N.to_nat i);
           match cur with
           | [] => mret (inr (used, maxlen))
           | _ :: _ => let len := Z.of_nat (length cur) in
                       mret (inr ((used + 1)%Z, if (maxlen <? len)%Z then len else maxlen))
           end)
        (N.to_nat SIDTAB_SIZE) 0 (0%Z, 0%Z);
  mret match r with inl _ => (st_nel h, 0%Z, SIDTAB_SIZE, 0%Z)
                  | inr (used, maxlen) => (st_nel h, used, SIDTAB_SIZE, maxlen) end.

Definition sepol_sidtab_destroy (s : option sidtab) : M (option sidtab) :=
  match s with
  | None => mret None
  | Some s =>
  match st_htable s with
  | None => mret (Some s)
  | Some t =>
      _ ← for_up (R := unit)
            (λ i t, c ← deref (t !! N.to_nat i);
                    let _ := map (λ n : N * context_struct, context_destroy n.2) c in
                    mret (inr (<[N.to_nat i := []]> t)))
            (N.to_nat SIDTAB_SIZE) 0 t;
      mret (Some (Sidtab None 0 1 (shutdown s)))
  end
  end.

Definition sepol_sidtab_set (dst src : sidtab) : sidtab :=
  Sidtab (st_htable src) (st_nel src) (next_sid src) 0.

Definition sepol_sidtab_shutdown (s : sidtab) : sidtab :=
  Sidtab (st_htable s) (st_nel s) (next_sid s) 1.

(** * The table as a map from SIDs *)

Definition sid_cmp (a b : N) : Z := (Z.of_N a - Z.of_N b)%Z.

#[global] Instance sid_cmp_order : KeyOrder sid_cmp.
Proof. split; unfold sid_cmp; lia. Qed.

Definition sid_view (t : list (list (N * context_struct))) (n : N) : hashtab N context_struct :=
  Hashtab t SIDTAB_SIZE n (λ _, SIDTAB_HASH) sid_cmp.

Definition st_map (s : sidtab) : gmap N context_struct :=
  match st_htable s with Some t => ht_map (sid_view t (st_nel s)) | None => ∅ end.

(** Every SID in the table is positive and below [next_sid]. *)
Definition sidtab_wf (s : sidtab) : Prop :=
  (∃ t, st_htable s = Some t ∧ ht_wf (sid_view t (st_nel s))) ∧
  (∀ sid c, st_map s !! sid = Some c → 0 < sid ∧ sid < next_sid s) ∧
  0 < next_sid s ∧ next_sid s ≤ UINT_MAX.

Lemma sid_hash_lt sid : SIDTAB_HASH sid < SIDTAB_SIZE.
Proof. unfold SIDTAB_HASH, SIDTAB_SIZE. pose proof (land_le sid (128 - 1)). lia. Qed.

Lemma walk_ext {A} (p q : A → bool) l : (∀ a, p a = q a) → walk p l = walk q l.
Proof. intros Hpq. induction l as [|a l IH]; simpl; [done|]. by rewrite Hpq, IH. Qed.

Lemma sid_walk_view t n sid c : sid_walk sid c = key_walk (sid_view t n) sid c.
Proof.
  apply walk_ext. intros [k ctx]. simpl. unfold sid_cmp.
  destruct (k <? sid) eqn:E; reflect_bools; symmetry; [apply Z.ltb_lt|apply Z.ltb_ge]; lia.
Qed.

Lemma sid_found_view t n sid cur : sid_found sid cur = key_found (sid_view t n) sid cur.
Proof.
  destruct cur as [|[k ctx] cur]; simpl; [done|]. unfold sid_cmp.
  destruct (sid =? k) eqn:E; reflect_bools; [rewrite (proj2 (Z.eqb_eq _ _))|rewrite (proj2 (Z.eqb_neq _ _))];
    done || lia.
Qed.

(** What an operation sees of the slot of a SID. *)
Lemma sid_focus t n sid :
  ht_struct (sid_view t n) →
  ∃ c pre cur R, t !! N.to_nat (SIDTAB_HASH sid) = Some c ∧ sid_walk sid c = (pre, cur) ∧
    slot_view (sid_view t n) sid c pre cur R.
Proof.
  intros Hs. destruct (slot_focus _ sid Hs) as (c & pre & cur & R & Hv).
  exists c, pre, cur, R. split_and!; [apply Hv| |done]. rewrite (sid_walk_view t n). apply Hv.
Qed.

Lemma sid_lookup_spec t n sid o :
  ht_struct (sid_view t n) → sid_lookup t sid o = Ret (ht_map (sid_view t n) !! sid) o.
Proof.
  intros Hs. destruct (sid_focus t n sid Hs) as (c & pre & cur & R & Hc & Hw & Hv).
  unfold sid_lookup. rewrite bind_run, Hc. cbn [deref]. unfold mret at 1, M_ret at 1. cbv beta iota.
  rewrite Hw, (sid_found_view t n). pose proof (sv_found _ _ _ _ _ _ Hv) as Hf.
  destruct (key_found _ sid cur) as [[x next]|]; [destruct Hf as (_ & _ & ->)|destruct Hf as [-> _]]; done.
Qed.

Lemma search_sid_spec s sid o :
  sidtab_wf s →
  sepol_sidtab_search (Some s) sid o =
  Ret (match st_map s !! sid with Some c => Some c | None => st_map s !! SECINITSID_UNLABELED end) o.
Proof.
  intros [(t & Ht & Hwf & _) _]. unfold sepol_sidtab_search, st_map. rewrite Ht.
  rewrite bind_run, (sid_lookup_spec t (st_nel s)) by done.
  destruct (ht_map _ !! sid); [done|]. by rewrite (sid_lookup_spec t (st_nel s)).
Qed.

Definition insert_sid_post (s : sidtab) (sid : N) (context : context_struct) (o : oracle)
    (r : Z * option sidtab) (o' : oracle) : Prop :=
  (o = [] → o' = []) ∧
  ((r = ((- EEXIST)%Z, Some s) ∧ is_Some (st_map s !! sid))
   ∨ (r = ((- ENOMEM)%Z, Some s) ∧ o ≠ [])
   ∨ (∃ s', r = (0%Z, Some s') ∧ st_map s !! sid = None ∧ sidtab_wf s' ∧
        st_map s' = <[sid := context]> (st_map s) ∧
        next_sid s' = N.max (next_sid s) (sid + 1) ∧ shutdown s' = shutdown s)).

Lemma insert_sid_ok s t sid context c pre cur R :
  sidtab_wf s → st_htable s = Some t → 0 < sid → sid < UINT_MAX →
  slot_view (sid_view t (st_nel s)) sid c pre cur R →
  key_found (sid_view t (st_nel s)) sid cur = None →
  let s' := Sidtab (Some (<[N.to_nat (SIDTAB_HASH sid) := pre ++ (sid, context) :: cur]> t))
              (u32 (st_nel s + 1)) (if next_sid s <=? sid then u32 (sid + 1) else next_sid s)
              (shutdown s) in
  sidtab_wf s' ∧ st_map s' = <[sid := context]> (st_map s) ∧
  next_sid s' = N.max (next_sid s) (sid + 1).
Proof.
  intros ((t' & Ht' & Hs & Hnel) & Hlt & Hn1 & Hn2) Ht Hpos Hmax Hv Hf s'.
  rewrite Ht in Ht'. injection Ht' as <-.
  destruct (add_absent (sid_view t (st_nel s)) sid context (u32 (st_nel s + 1)) c pre cur R Hs Hv Hf)
    as (Hs' & Hm & Hl).
  assert (st_map s' = <[sid := context]> (st_map s)) as Hmap.
  { unfold st_map, s'. simpl. rewrite Ht. exact Hm. }
  assert (next_sid s' = N.max (next_sid s) (sid + 1)) as Hnext.
  { unfold s', UINT_MAX in *. simpl. case_bool; reflect_bools; [rewrite u32_small|]; lia. }
  split; [|done]. split_and!.
  - eexists. split; [done|]. split; [exact Hs'|]. simpl st_nel. 
    change (ht_entries _) with (ht_entries (set_table (sid_view t (st_nel s))
      (<[N.to_nat (SIDTAB_HASH sid) := pre ++ (sid, context) :: cur]> t) (u32 (st_nel s + 1)))).
    cbn [sid_view nel]. cbn [sid_view nel] in Hnel. rewrite Hnel at 1. rewrite u32_succ. f_equal.
    transitivity (N.of_nat (S (length (ht_entries (sid_view t (st_nel s)))))); [lia|].
    f_equal. symmetry. exact Hl.
  - intros k ctx. rewrite Hmap, Hnext, lookup_insert_Some. intros [[<- _]|[_ Hk]]; [lia|].
    apply Hlt in Hk. lia.
  - rewrite Hnext. lia.
  - rewrite Hnext. lia.
Qed.

Lemma insert_sid_spec s sid context o :
  sidtab_wf s → 0 < sid → sid < UINT_MAX →
  wp (sepol_sidtab_insert (Some s) sid context) o (insert_sid_post s sid context o).
Proof.
  intros Hwf Hpos Hmax. pose proof Hwf as [(t & Ht & Hs & _) _].
  destruct (sid_focus t (st_nel s) sid Hs) as (c & pre & cur & R & Hc & Hw & Hv).
  unfold sepol_sidtab_insert. rewrite Ht. wp_step. apply wp_deref. exists c. split; [done|].
  rewrite Hw, (sid_found_view t (st_nel s)). pose proof (sv_found _ _ _ _ _ _ Hv) as Hf.
  destruct (key_found _ sid cur) as [[x next]|] eqn:E.
  - apply wp_ret. split; [done|]. left. unfold st_map. rewrite Ht. destruct Hf as (_ & _ & ->). done.
  - wp_step. wp_step. intros [] o1 Ho1; cbn [negb].
    2:{ apply wp_ret. split; [naive_solver|]. right. left. naive_solver. }
    wp_step. eapply wp_mono; [apply context_cpy_spec|]. intros [rc ctx] o2 [Ho2 Hr]; simpl in Ho2, Hr.
    destruct Hr as [[= -> ->]| ->]; cbn [Z.eqb negb]; apply wp_ret; (split; [naive_solver|]); right.
    + right. destruct (insert_sid_ok s t sid context c pre cur R Hwf Ht Hpos Hmax Hv E) as (? & ? & ?).
      eexists. split; [done|]. split; [|done]. unfold st_map. rewrite Ht. apply Hf.
    + left. naive_solver.
Qed.

Lemma find_context l ctx :
  ∃ r, (∀ o, for_list (λ (n : N * context_struct) (u : unit),
         mret (if context_cmp n.2 ctx then inl n.1 else inr u)) l tt o = Ret r o) ∧
    match r with
    | inl sid => (sid, ctx) ∈ l
    | inr _ => ∀ sid, (sid, ctx) ∉ l
    end.
Proof.
  induction l as [|[sid c] l IH]; cbn [for_list].
  { eexists. split; [done|]. intros sid. apply not_elem_of_nil. }
  destruct (context_cmp c ctx) eqn:E.
  - apply context_cmp_spec in E as ->. exists (inl sid). split; [|set_solver].
    intros o. rewrite bind_run. unfold mret at 1, M_ret at 1. simpl.
    by rewrite (proj2 (context_cmp_spec ctx ctx) eq_refl).
  - destruct IH as (r & Hrun & Hr). exists r. split.
    + intros o. rewrite bind_run. unfold mret at 1, M_ret at 1. simpl. rewrite E. apply Hrun.
    + destruct r; [set_solver|]. intros sid' [Heq|?]%elem_of_cons; [|by eapply Hr]. simplify_eq.
      by rewrite (proj2 (context_cmp_spec c c) eq_refl) in E.
Qed.

Lemma search_context_spec s ctx :
  sidtab_wf s →
  ∃ sid, (∀ o, sepol_sidtab_search_context s ctx o = Ret sid o) ∧
    ((0 < sid ∧ st_map s !! sid = Some ctx) ∨ (sid = 0 ∧ ∀ k, st_map s !! k ≠ Some ctx)).
Proof.
  intros ((t & Ht & Hs & _) & Hlt & _). unfold sepol_sidtab_search_context. rewrite Ht.
  destruct (find_context (concat t) ctx) as (r & Hrun & Hr). eexists. split.
  { intros o. rewrite bind_run. cbn [deref]. unfold mret at 1, M_ret at 1. cbv beta iota. rewrite bind_run.
    replace (N.to_nat SIDTAB_SIZE) with (length t) by (pose proof (wf_size _ Hs); simpl in *; lia).
    rewrite (for_up_lookup (for_list _) t [] t), for_list_concat by done. by rewrite Hrun. }
  assert (∀ k, st_map s !! k = Some ctx ↔ (k, ctx) ∈ concat t) as Hin.
  { intros k. unfold st_map. rewrite Ht. unfold ht_map. symmetry. apply elem_of_list_to_map, Hs. }
  destruct r as [sid|u]; [left|right].
  - apply Hin in Hr. split; [|done]. by apply Hlt in Hr as [? _].
  - split; [done|]. intros k. rewrite Hin. apply Hr.
Qed.

Lemma remove_sid_spec s sid o :
  sidtab_wf s →
  wp (sepol_sidtab_remove (Some s) sid) o (λ r o', o' = o ∧
    match st_map s !! sid with
    | None => r = ((- ENOENT)%Z, Some s)
    | Some _ => ∃ s', r = (0%Z, Some s') ∧ sidtab_wf s' ∧ st_map s' = delete sid (st_map s) ∧
        next_sid s' = next_sid s ∧ shutdown s' = shutdown s
    end).
Proof.
  intros [(t & Ht & Hs & Hnel) (Hlt & Hn1 & Hn2)].
  destruct (sid_focus t (st_nel s) sid Hs) as (c & pre & cur & R & Hc & Hw & Hv).
  unfold sepol_sidtab_remove. rewrite Ht. wp_step. apply wp_deref. exists c. split; [done|].
  rewrite Hw, (sid_found_view t (st_nel s)). pose proof (sv_found _ _ _ _ _ _ Hv) as Hf.
  assert (st_map s = ht_map (sid_view t (st_nel s))) as Hm0 by (unfold st_map; by rewrite Ht).
  destruct (key_found _ sid cur) as [[x next]|] eqn:E.
  - destruct Hf as (-> & Hx & Hm). rewrite Hm0, Hm. apply wp_ret. split; [done|]. subst sid.
    destruct (drop_present (sid_view t (st_nel s)) x.1 (dec32 (st_nel s)) c pre x next R Hs Hv eq_refl)
      as (Hs' & Hm' & Hl).
    eexists. split; [done|]. split; [|split; [exact Hm'|done]]. split_and!; [|clear Hm; intros k ctx|done..].
    + eexists. split; [done|]. split; [exact Hs'|].
      change (ht_entries (sid_view _ _)) with (ht_entries (set_table (sid_view t (st_nel s))
        (<[N.to_nat (SIDTAB_HASH x.1) := pre ++ next]> t) (dec32 (st_nel s)))).
      cbn [sid_view nel st_nel] in *. rewrite Hnel at 1.
      replace (length (ht_entries (sid_view t (st_nel s)))) with
        (S (length (ht_entries (set_table (sid_view t (st_nel s))
           (<[N.to_nat (SIDTAB_HASH x.1) := pre ++ next]> t) (dec32 (st_nel s)))))) by (symmetry; exact Hl).
      rewrite Nat2N.inj_succ, <- N.add_1_r. apply dec32_succ.
    + intros Hk. apply (Hlt k ctx). rewrite Hm0.
      change (st_map _) with (ht_map (set_table (sid_view t (st_nel s))
        (<[N.to_nat (SIDTAB_HASH x.1) := pre ++ next]> t) (dec32 (st_nel s)))) in Hk.
      assert (delete x.1 (ht_map (sid_view t (st_nel s))) !! k = Some ctx) as Hd by (rewrite <- Hm'; exact Hk).
      by apply lookup_delete_Some in Hd as [_ ?].
  - destruct Hf as [Hm _]. rewrite Hm0, Hm. by apply wp_ret.
Qed.

Definition context_to_sid_post (s : sidtab) (ctx : context_struct) (o : oracle)
    (r : Z * sidtab * N) (o' : oracle) : Prop :=
  let '(rc, s', sid) := r in
  (rc = 0%Z ∧ sidtab_wf s' ∧ 0 < sid ∧ st_map s' !! sid = Some ctx ∧
     (∀ o2, sepol_sidtab_context_to_sid s' ctx o2 = Ret (0%Z, s', sid) o2) ∧
     ((s' = s) ∨ (st_map s !! sid = None ∧ st_map s' = <[sid := ctx]> (st_map s) ∧
                  ∀ k, st_map s !! k ≠ Some ctx)))
  ∨ (rc = (- ENOMEM)%Z ∧ s' = s ∧ sid = SEPOL_SECSID_NULL ∧ (∀ k, st_map s !! k ≠ Some ctx) ∧
     (o ≠ [] ∨ next_sid s = UINT_MAX ∨ shutdown s ≠ 0)).

Lemma context_to_sid_again s ctx sid :
  sidtab_wf s → 0 < sid → (∀ o, sepol_sidtab_search_context s ctx o = Ret sid o) →
  ∀ o, sepol_sidtab_context_to_sid s ctx o = Ret (0%Z, s, sid) o.
Proof.
  intros Hwf Hpos Hrun o. unfold sepol_sidtab_context_to_sid. rewrite bind_run, Hrun.
  by rewrite (proj2 (N.eqb_neq sid 0)) by lia.
Qed.

Lemma context_to_sid_spec s ctx o :
  sidtab_wf s → wp (sepol_sidtab_context_to_sid s ctx) o (context_to_sid_post s ctx o).
Proof.
  intros Hwf. destruct (search_context_spec s ctx Hwf) as (sid & Hrun & Hsid).
  unfold sepol_sidtab_context_to_sid. wp_step. unfold wp at 1. rewrite Hrun.
  destruct Hsid as [[Hpos Hm]|[-> Hnone]].
  { rewrite (proj2 (N.eqb_neq sid 0)) by lia. apply wp_ret. left.
    split_and!; try done; [by apply context_to_sid_again|by left]. }
  change (negb (0 =? 0)) with false. cbv iota. wp_step. unfold wp at 1. rewrite Hrun.
  change (negb (0 =? 0)) with false. cbv iota.
  destruct ((next_sid s =? UINT_MAX) || truth (shutdown s)) eqn:E.
  { apply wp_ret. right. split_and!; try done. right.
    apply orb_true_iff in E as [E|E]; [left|right; by apply truth_spec]. by apply N.eqb_eq. }
  apply orb_false_iff in E as [E1 E2]. reflect_bools. pose proof Hwf as (Ht & Hlt & Hn1 & Hn2).
  assert (u32 (next_sid s + 1) = next_sid s + 1) as Hu.
  { apply u32_small. unfold UINT_MAX in *. change (2 ^ 32) with 4294967296. lia. }
  rewrite Hu. set (s' := Sidtab _ _ _ _).
  assert (st_map s' = st_map s) as Hms by done.
  assert (sidtab_wf s') as Hwf'.
  { split_and!; [done| |simpl; lia|simpl; unfold UINT_MAX in *; lia].
    intros k c Hk. apply Hlt in Hk. simpl. lia. }
  wp_step. eapply wp_mono; [apply (insert_sid_spec s' (next_sid s) ctx o Hwf'); unfold UINT_MAX in *; lia|].
  intros r o' [Ho [[-> [c Hc]]|[[-> Hne]|(s'' & -> & Hfresh & Hwf'' & Hm & _)]]].
  - rewrite Hms in Hc. apply Hlt in Hc. lia.
  - wp_step. apply wp_deref. exists s'. split; [done|]. cbn [Z.eqb Z.opp ENOMEM]. apply wp_ret. right.
    split_and!; [done| |done|done|by left]. unfold s'. simpl. rewrite <- Hu, dec32_succ.
    rewrite u32_small; [by destruct s|]. unfold UINT_MAX in *. change (2 ^ 32) with 4294967296. lia.
  - wp_step. apply wp_deref. exists s''. split; [done|]. cbn [Z.eqb]. apply wp_ret. left.
    rewrite Hms in *. assert (st_map s'' !! next_sid s = Some ctx) as Hnew by (rewrite Hm; apply lookup_insert_eq).
    split_and!; try done; [|by right].
    destruct (search_context_spec s'' ctx Hwf'') as (sid & Hrun' & [[Hp Hk]|[_ Hk]]); [|by apply Hk in Hnew].
    rewrite Hm, lookup_insert_Some in Hk. destruct Hk as [[<- _]|[_ Hk]]; [|by apply Hnone in Hk].
    by apply context_to_sid_again.
Qed.

(** * Theorems *)

(** C24: the SID table is a finite map from SIDs to contexts.
    [sepol_sidtab_search] returns the context of a SID and that of the
    unlabeled SID for an unknown one; [sepol_sidtab_insert] binds a new SID and
    refuses a bound one; [sepol_sidtab_remove] unbinds it.  Every one keeps the
    invariant that all SIDs are positive and below [next_sid]; failures leave
    the table unchanged. *)
Theorem sidtab_refines_map s sid context o :
  sidtab_wf s → 0 < sid → sid < UINT_MAX →
  sepol_sidtab_search (Some s) sid o =
    Ret (match st_map s !! sid with Some c => Some c | None => st_map s !! SECINITSID_UNLABELED end) o ∧
  wp (sepol_sidtab_insert (Some s) sid context) o (λ r o',
    (r = ((- EEXIST)%Z, Some s) ∧ is_Some (st_map s !! sid))
    ∨ (r = ((- ENOMEM)%Z, Some s) ∧ o ≠ [])
    ∨ (∃ s', r = (0%Z, Some s') ∧ st_map s !! sid = None ∧ sidtab_wf s' ∧
         st_map s' = <[sid := context]> (st_map s) ∧
         next_sid s' = N.max (next_sid s) (sid + 1))) ∧
  wp (sepol_sidtab_remove (Some s) sid) o (λ r o',
    match st_map s !! sid with
    | None => r = ((- ENOENT)%Z, Some s)
    | Some _ => ∃ s', r = (0%Z, Some s') ∧ sidtab_wf s' ∧ st_map s' = delete sid (st_map s)
    end).
Proof.
  intros Hwf Hpos Hmax. split_and!; [by apply search_sid_spec| |].
  - eapply wp_mono; [by apply insert_sid_spec|]. intros r o' [_ Hr].
    destruct Hr as [?|[?|(s' & ? & ? & ? & ? & ? & ?)]]; [by left|by right; left|].
    right. right. by exists s'.
  - eapply wp_mono; [by apply remove_sid_spec|]. intros r o' [_ Hr].
    destruct (st_map s !! sid); [|done]. destruct Hr as (s' & ? & ? & ? & _). by exists s'.
Qed.

(** A table with the unlabeled SID and one more. *)
Definition ex_sidtab : sidtab :=
  Sidtab (Some (<[3%nat := [(3, ex_context)]]> (<[5%nat := [(5, context_init)]]> (replicate 128 [])))) 2 6 0.

Lemma ex_sidtab_wf : sidtab_wf ex_sidtab.
Proof.
  assert (ht_struct (sid_view (default [] (st_htable ex_sidtab)) 2)) as Hs.
  { split; try done; [apply _|intros; apply sid_hash_lt| |apply (bool_decide_unpack _); by vm_compute].
    intros i c Hi. cbn [sid_view htable ex_sidtab st_htable default from_option id] in Hi.
    apply list_lookup_insert_Some in Hi as [(<- & <- & _)|[_ Hi]];
      [split; repeat constructor|].
    apply list_lookup_insert_Some in Hi as [(<- & <- & _)|[_ Hi]]; [split; repeat constructor|].
    apply lookup_replicate in Hi as [-> _]. split; constructor. }
  split_and!; [by eexists| |done|done]. intros sid c Hc.
  apply elem_of_list_to_map_2 in Hc. vm_compute in Hc. set_unfold in Hc. naive_solver.
Qed.

Lemma sidtab_refines_map_witness :
  sepol_sidtab_search (Some ex_sidtab) 77 [] = Ret (Some ex_context) [] ∧
  ∃ r o', sepol_sidtab_insert (Some ex_sidtab) 77 ex_context [] = Ret r o' ∧ r.1 = 0%Z.
Proof.
  destruct (sidtab_refines_map ex_sidtab 77 ex_context [] ex_sidtab_wf ltac:(done) ltac:(done))
    as (Hs & Hi & _).
  split; [rewrite Hs; by vm_compute|]. apply (proj1 (wp_run _ _ _)) in Hi as (r & o' & Hr & _).
  exists r, o'. split; [done|]. vm_compute in Hr. by injection Hr as <- _.
Defined.

(** [sepol_sidtab_context_to_sid] assigns one SID per context.  On success
    the returned SID is positive and names the context in the new table, asking
    again returns the same SID and changes nothing, and the table is either
    unchanged or extended by that one fresh SID for a context that had none.
    It fails only with -ENOMEM, with the table exactly as it was and the null
    SID: when an allocation fails, the SIDs are used up, or the table is shut
    down. *)
Theorem context_to_sid_assigns s ctx o :
  sidtab_wf s →
  wp (sepol_sidtab_context_to_sid s ctx) o (λ r _, let '(rc, s', sid) := r in
    (rc = 0%Z ∧ sidtab_wf s' ∧ 0 < sid ∧
       sepol_sidtab_search (Some s') sid [] = Ret (Some ctx) [] ∧
       (∀ o2, sepol_sidtab_context_to_sid s' ctx o2 = Ret (0%Z, s', sid) o2) ∧
       ((s' = s) ∨ (st_map s !! sid = None ∧ st_map s' = <[sid := ctx]> (st_map s) ∧
                    ∀ k, st_map s !! k ≠ Some ctx)))
    ∨ (rc = (- ENOMEM)%Z ∧ s' = s ∧ sid = SEPOL_SECSID_NULL ∧
       (o ≠ [] ∨ next_sid s = UINT_MAX ∨ shutdown s ≠ 0))).
Proof.
  intros Hwf. eapply wp_mono; [by apply context_to_sid_spec|]. intros [[rc s'] sid] o' Hr.
  destruct Hr as [(? & Hwf' & ? & Hm & ? & ?)|(? & ? & ? & _ & ?)]; [left|by right].
  split_and!; try done. rewrite search_sid_spec by done. by rewrite Hm.
Qed.

Lemma context_to_sid_assigns_witness :
  ∃ r o', sepol_sidtab_context_to_sid ex_sidtab (Context 9 9 9 ex_range) [] = Ret r o' ∧ r.2 = 6 ∧
    sepol_sidtab_context_to_sid r.1.2 (Context 9 9 9 ex_range) [] = Ret (0%Z, r.1.2, 6) [].
Proof.
  pose proof (context_to_sid_assigns ex_sidtab (Context 9 9 9 ex_range) [] ex_sidtab_wf) as H.
  apply (proj1 (wp_run _ _ _)) in H as ([[rc s'] sid] & o' & Hr & Hc). exists (rc, s', sid), o'.
  split; [done|]. assert (sid = 6) as -> by (vm_compute in Hr; congruence). split; [done|].
  destruct Hc as [(_ & _ & _ & _ & Ha & _)|(_ & _ & Hbad & _)]; [apply Ha|done].
Defined.
