(* ===== verification/Avtab.v ===== *)
(** The access vector table: libsepol/src/avtab.c, and its writer in
    libsepol/src/write.c.

    Rules are hashed on (source type, target type, class) into chains sorted
    by that triple; a node's [specified] mask says which rule it holds.  A node
    pointer is the chain from that node on, which is what the callers of
    [avtab_search_node] use it for. *)

From stdpp Require Import sorting.
From S2P Require Import Prelude Ebitmap PolicyFile Hashtab.
Local Open Scope N_scope.

(** * Data *)

Record avtab_key := AvtabKey {
  source_type : N; target_type : N; target_class : N; specified : N }.

Record avtab_extended_perms := XPerms { xp_specified : N; xp_driver : N; xp_perms : list N }.

Record avtab_datum := AvtabDatum { data : N; xperms : option avtab_extended_perms }.

Record avtab_node := AvtabNode { av_key : avtab_key; av_datum : avtab_datum; merged : bool }.

Record avtab := Avtab {
  av_htable : option (list (list avtab_node)); av_nel : N; nslot : N; mask : N }.

#[global] Instance avtab_key_eq_dec : EqDecision avtab_key.
Proof. solve_decision. Defined.
#[global] Instance avtab_xperms_eq_dec : EqDecision avtab_extended_perms.
Proof. solve_decision. Defined.
#[global] Instance avtab_datum_eq_dec : EqDecision avtab_datum.
Proof. solve_decision. Defined.
#[global] Instance avtab_node_eq_dec : EqDecision avtab_node.
Proof. solve_decision. Defined.

Definition AVTAB_ALLOWED : N := 1.
Definition AVTAB_AUDITALLOW : N := 2.
Definition AVTAB_AUDITDENY : N := 4.
Definition AVTAB_AV : N := 7.
Definition AVTAB_TRANSITION : N := 16.
Definition AVTAB_MEMBER : N := 32.
Definition AVTAB_CHANGE : N := 64.
Definition AVTAB_TYPE : N := 112.
Definition AVTAB_XPERMS_ALLOWED : N := 256.
Definition AVTAB_XPERMS_AUDITALLOW : N := 512.
Definition AVTAB_XPERMS_DONTAUDIT : N := 1024.
Definition AVTAB_XPERMS : N := 1792.
Definition AVTAB_ENABLED_OLD : N := 2147483648.
Definition AVTAB_ENABLED : N := 32768.
Definition MAX_AVTAB_HASH_BUCKETS : N := 1048576.

(** * Hashing *)

Definition mix (input hash : N) : N :=
  let v := u32 (input * 3432918353) in
  let v := N.lor (u32 (N.shiftl v 15)) (N.shiftr v 17) in
  let v := u32 (v * 461845907) in
  let hash := N.lxor hash v in
  let hash := N.lor (u32 (N.shiftl hash 13)) (N.shiftr hash 19) in
  u32 (hash * 5 + 3864292196).

Definition avtab_hash (keyp : avtab_key) (msk : N) : N :=
  let hash := mix (source_type keyp) (mix (target_type keyp) (mix (target_class keyp) 0)) in
  let hash := N.lxor hash (N.shiftr hash 16) in
  let hash := u32 (hash * 2246822507) in
  let hash := N.lxor hash (N.shiftr hash 13) in
  let hash := u32 (hash * 3266489909) in
  let hash := N.lxor hash (N.shiftr hash 16) in
  N.land hash msk.

#[global] Arguments avtab_hash : simpl never.

(** * Chain walks *)

(** [specified & ~(AVTAB_ENABLED | AVTAB_ENABLED_OLD)] *)
Definition clear_enabled (spec : N) : N := N.ldiff spec (N.lor AVTAB_ENABLED AVTAB_ENABLED_OLD).

Definition key_match (key : avtab_key) (spec : N) (cur : avtab_key) : bool :=
  (source_type key =? source_type cur) && (target_type key =? target_type cur) &&
  (target_class key =? target_class cur) && truth (N.land spec (specified cur)).

(** The three tests that end a scan early. *)
Definition key_before (key cur : avtab_key) : bool :=
  (source_type key <? source_type cur) ||
  ((source_type key =? source_type cur) && (target_type key <? target_type cur)) ||
  ((source_type key =? source_type cur) && (target_type key =? target_type cur) &&
   (target_class key <? target_class cur)).

Definition avtab_walk (key : avtab_key) (spec : N) (c : list avtab_node)
    : list avtab_node * list avtab_node :=
  walk (λ cur, negb (key_match key spec (av_key cur)) && negb (key_before key (av_key cur))) c.

(** The node the scan stopped at, if it stopped on a match. *)
Definition match_at (key : avtab_key) (spec : N) (cur : list avtab_node) : option (list avtab_node) :=
  match cur with
  | n :: _ => if key_match key spec (av_key n) then Some cur else None
  | [] => None
  end.

(** * Operations *)

Definition zero_xperms : avtab_extended_perms := XPerms 0 0 (replicate 8 0).

(** The node is linked behind [prev], in front of [cur]; the result is the
    table and the pointer to the node. *)
Definition avtab_insert_node (h : avtab) (t : list (list avtab_node)) (hvalue : nat)
    (prev cur : list avtab_node) (key : avtab_key) (datum : avtab_datum)
    : M (option (avtab * list avtab_node)) :=
  let link (d : avtab_datum) :=
    let new := AvtabNode key d false in
    Some (Avtab (Some (<[hvalue := prev ++ new :: cur]> t)) (u32 (av_nel h + 1)) (nslot h) (mask h),
          new :: cur) in
  b ← malloc;
  if negb b then mret None else
  if truth (N.land (specified key) AVTAB_XPERMS) then
    b ← malloc;
    if negb b then mret None else
    mret (link (AvtabDatum 0 (Some match xperms datum with Some x => x | None => zero_xperms end)))
  else mret (link datum).

Definition avtab_insert (h : option avtab) (key : avtab_key) (datum : avtab_datum)
    : M (Z * option avtab) :=
  let spec := clear_enabled (specified key) in
  match h with
  | None => mret (SEPOL_ENOMEM, None)
  | Some h =>
  match av_htable h with
  | None => mret (SEPOL_ENOMEM, Some h)
  | Some t =>
      let hvalue := N.to_nat (avtab_hash key (mask h)) in
      c ← deref (t !! hvalue);
      let '(prev, cur) := avtab_walk key spec c in
      if match match_at key spec cur with
         | Some _ => negb (truth (N.land spec AVTAB_XPERMS))
         | None => false
         end
      then mret (SEPOL_EEXIST, Some h) else
      r ← avtab_insert_node h t hvalue prev cur key datum;
      match r with
      | None => mret (SEPOL_ENOMEM, Some h)
      | Some (h', _) => mret (0%Z, Some h')
      end
  end
  end.

Definition avtab_insert_nonunique (h : option avtab) (key : avtab_key) (datum : avtab_datum)
    : M (option (avtab * list avtab_node)) :=
  let spec := clear_enabled (specified key) in
  match h with
  | None => mret None
  | Some h =>
  match av_htable h with
  | None => mret None
  | Some t =>
      let hvalue := N.to_nat (avtab_hash key (mask h)) in
      c ← deref (t !! hvalue);
      let '(prev, cur) := avtab_walk key spec c in
      avtab_insert_node h t hvalue prev cur key datum
  end
  end.

Definition avtab_search_node (h : option avtab) (key : avtab_key) : M (option (list avtab_node)) :=
  let spec := clear_enabled (specified key) in
  match h with
  | None => mret None
  | Some h =>
  match av_htable h with
  | None => mret None
  | Some t =>
      c ← deref (t !! N.to_nat (avtab_hash key (mask h)));
      mret (match_at key spec (avtab_walk key spec c).2)
  end
  end.

Definition avtab_search (h : option avtab) (key : avtab_key) : M (option avtab_datum) :=
  let spec := clear_enabled (specified key) in
  match h with
  | None => mret None
  | Some h =>
  match av_htable h with
  | None => mret None
  | Some t =>
      c ← deref (t !! N.to_nat (avtab_hash key (mask h)));
      mret match match_at key spec (avtab_walk key spec c).2 with
           | Some (n :: _) => Some (av_datum n)
           | _ => None
           end
  end
  end.

Definition avtab_search_node_next (node : option (list avtab_node)) (spec : N)
    : option (list avtab_node) :=
  match node with
  | None | Some [] => None
  | Some (n :: next) =>
      let spec := clear_enabled spec in
      match_at (av_key n) spec (avtab_walk (av_key n) spec next).2
  end.

(** [for (node = avtab_search_node(h, key); node;
         node = avtab_search_node_next(node, key->specified))]
    with a body that updates [s].  Every round moves down the chain, so the
    number of nodes is enough fuel. *)
Fixpoint node_loop {St} (fuel : nat) (node : option (list avtab_node)) (spec : N)
    (body : avtab_node → St → St) (s : St) : M St :=
  match node with
  | None => mret s
  | Some [] => ub
  | Some ((n :: _) as cur) =>
      match fuel with
      | O => ub
      | S fuel' => node_loop fuel' (avtab_search_node_next (Some cur) spec) spec body (body n s)
      end
  end.

Definition for_each_match {St} (h : avtab) (key : avtab_key) (body : avtab_node → St → St) (s : St) : M St :=
  node ← avtab_search_node (Some h) key;
  node_loop (match av_htable h with Some t => length (concat t) | None => 0 end) node (specified key) body s.

Definition avtab_destroy (h : option avtab) : M (option avtab) :=
  match h with
  | None => mret None
  | Some h =>
  match av_htable h with
  | None => mret (Some h)
  | Some t =>
      _ ← for_up (R := unit)
            (λ i t, c ← deref (t !! N.to_nat i); mret (inr (<[N.to_nat i := []]> t)))
            (N.to_nat (nslot h)) 0 t;
      mret (Some (Avtab None (av_nel h) 0 0))
  end
  end.

Definition avtab_map {A} (h : option avtab) (apply : avtab_key → avtab_datum → A → M (Z * A))
    (args : A) : M (Z * A) :=
  match h with
  | None => mret (0%Z, args)
  | Some h =>
      r ← for_up
            (λ i args, t ← deref (av_htable h); c ← deref (t !! N.to_nat i);
               for_list (λ n args, '(ret, args) ← apply (av_key n) (av_datum n) args;
                                   mret (if (ret =? 0)%Z then inr args else inl (ret, args))) c args)
            (N.to_nat (nslot h)) 0 args;
      mret match r with inl x => x | inr args => (0%Z, args) end
  end.

Definition avtab_init (h : avtab) : Z * avtab := (0%Z, Avtab None 0 (nslot h) (mask h)).

(** The loop [while (work)] runs once per significant bit: 32 rounds at most. *)
Fixpoint alloc_shift (fuel : nat) (work shift : N) : N :=
  match fuel with
  | O => shift
  | S fuel' => if truth work then alloc_shift fuel' (N.shiftr work 1) (shift + 1) else shift
  end.

Definition avtab_alloc (h : avtab) (nrules : N) : M (Z * avtab) :=
  if nrules =? 0 then mret (0%Z, Avtab (av_htable h) 0 0 0) else
  let shift := alloc_shift 32 nrules 0 in
  let shift := if 2 <? shift then shift - 2 else shift in
  let n := N.shiftl 1 shift in
  let n := if MAX_AVTAB_HASH_BUCKETS <? n then MAX_AVTAB_HASH_BUCKETS else n in
  b ← malloc;
  if negb b then mret ((-1)%Z, Avtab None (av_nel h) (nslot h) (mask h)) else
  mret (0%Z, Avtab (Some (replicate (N.to_nat n) [])) 0 n (n - 1)).

Definition avtab_hash_eval (h : avtab) : M (N * N * N * N) :=
  r ← for_up (R := unit)
        (λ i s, let '(used, maxlen) := s in
           t ← deref (av_htable h);
           cur ← deref (t !! N.to_nat i);
           match cur with
           | [] => mret (inr (used, maxlen))
           | _ :: _ => let len := N.of_nat (length cur) in
                       mret (inr (used + 1, if maxlen <? len then len else maxlen))
           end)
        (N.to_nat (nslot h)) 0 (0, 0);
  mret match r with inl _ => (av_nel h, 0, nslot h, 0)
                  | inr (used, maxlen) => (av_nel h, used, nslot h, maxlen) end.

(** * Reading *)

Definition POLICYDB_VERSION_AVTAB : N := 20.
Definition POLICYDB_VERSION_XPERMS_IOCTL : N := 30.

Definition spec_order : list N :=
  [AVTAB_ALLOWED; AVTAB_AUDITDENY; AVTAB_AUDITALLOW; AVTAB_TRANSITION; AVTAB_CHANGE; AVTAB_MEMBER;
   AVTAB_XPERMS_ALLOWED; AVTAB_XPERMS_AUDITALLOW; AVTAB_XPERMS_DONTAUDIT].

Section read.
Context {P : Type}.
Variable insertf : avtab → avtab_key → avtab_datum → P → M (Z * avtab * P).

(** What the stack holds in the words of [buf32] that were not read. *)
Variable junk : nat → N.

Definition buf32_at (buf : list N) (items2 : N) (i : N) : M N :=
  if i <? items2 then mret (le32_at buf (N.to_nat i)) else
  if i <? 8 then mret (junk (N.to_nat i)) else ub.

(** The loop over [spec_order] of an old-format entry; [items] is the next
    word of the buffer. *)
Definition insert_specs (buf : list N) (items2 src tgt cls val enabled : N)
    (a : avtab) (p : P) : M ((Z * avtab * P) + (N * avtab * P)) :=
  for_list (λ order st, let '(items, a, p) := st in
      if truth (N.land val order) then
        w ← buf32_at buf items2 items;
        '(rc, a, p) ← insertf a (AvtabKey src tgt cls (N.lor order enabled)) (AvtabDatum w None) p;
        if negb (rc =? 0)%Z then mret (inl (rc, a, p)) else mret (inr (items + 1, a, p))
      else mret (inr (items, a, p)))
    spec_order (4, a, p).

Definition avtab_read_item_old (fp : policy_file) (a : avtab) (p : P)
    : M (Z * avtab * P * policy_file) :=
  '(b, fp) ← next_entry fp 4;
  match b with
  | None => mret ((-1)%Z, a, p, fp)
  | Some b =>
  let items2 := le32_at b 0 in
  if (items2 <? 5) || (8 <? items2) then mret ((-1)%Z, a, p, fp) else
  '(b, fp) ← next_entry fp (4 * items2);
  match b with
  | None => mret ((-1)%Z, a, p, fp)
  | Some buf =>
  let src := le32_at buf 0 in
  let tgt := le32_at buf 1 in
  let cls := le32_at buf 2 in
  let val := le32_at buf 3 in
  if negb (u16 src =? src) then mret ((-1)%Z, a, p, fp) else
  if negb (u16 tgt =? tgt) then mret ((-1)%Z, a, p, fp) else
  if negb (u16 cls =? cls) then mret ((-1)%Z, a, p, fp) else
  let enabled := if truth (N.land val AVTAB_ENABLED_OLD) then AVTAB_ENABLED else 0 in
  if negb (truth (N.land val (N.lor AVTAB_AV AVTAB_TYPE))) then mret ((-1)%Z, a, p, fp) else
  if truth (N.land val AVTAB_AV) && truth (N.land val AVTAB_TYPE)
  then mret ((-1)%Z, a, p, fp) else
  r ← insert_specs buf items2 src tgt cls val enabled a p;
  match r with
  | inl (rc, a, p) => mret (rc, a, p, fp)
  | inr (items, a, p) =>
      if negb (items =? items2) then mret ((-1)%Z, a, p, fp) else mret (0%Z, a, p, fp)
  end end end.

Definition count_specs (spec : N) : N :=
  N.of_nat (length (filter (λ order, truth (N.land spec order)) spec_order)).

Definition avtab_read_item (fp : policy_file) (vers : N) (a : avtab) (p : P)
    : M (Z * avtab * P * policy_file) :=
  if vers <? POLICYDB_VERSION_AVTAB then avtab_read_item_old fp a p else
  '(b, fp) ← next_entry fp 8;
  match b with
  | None => mret ((-1)%Z, a, p, fp)
  | Some buf16 =>
  let key := AvtabKey (le16_at buf16 0) (le16_at buf16 1) (le16_at buf16 2) (le16_at buf16 3) in
  let set := count_specs (specified key) in
  if (set =? 0) || (1 <? set) then mret ((-1)%Z, a, p, fp) else
  if (vers <? POLICYDB_VERSION_XPERMS_IOCTL) && truth (N.land (specified key) AVTAB_XPERMS)
  then mret ((-1)%Z, a, p, fp) else
  if truth (N.land (specified key) AVTAB_XPERMS) then
    '(b, fp) ← next_entry fp 1;
    match b with
    | None => mret ((-1)%Z, a, p, fp)
    | Some sp =>
    '(b, fp) ← next_entry fp 1;
    match b with
    | None => mret ((-1)%Z, a, p, fp)
    | Some dr =>
    '(b, fp) ← next_entry fp 32;
    match b with
    | None => mret ((-1)%Z, a, p, fp)
    | Some pm =>
        let x := XPerms (le_combine sp) (le_combine dr) (le32_at pm <$> seq 0 8) in
        '(rc, a, p) ← insertf a key (AvtabDatum 0 (Some x)) p; mret (rc, a, p, fp)
    end end end
  else
    '(b, fp) ← next_entry fp 4;
    match b with
    | None => mret ((-1)%Z, a, p, fp)
    | Some buf32 =>
        '(rc, a, p) ← insertf a key (AvtabDatum (le32_at buf32 0) None) p; mret (rc, a, p, fp)
    end
  end.

End read.

Definition avtab_insertf (a : avtab) (k : avtab_key) (d : avtab_datum) (p : unit)
    : M (Z * avtab * unit) :=
  '(rc, r) ← avtab_insert (Some a) k d;
  a ← deref r;
  mret (rc, a, p).

(** The label [bad]. *)
Definition avtab_read_bad (a : avtab) (fp : policy_file) : M (Z * avtab * policy_file) :=
  r ← avtab_destroy (Some a);
  a ← deref r;
  mret ((-1)%Z, a, fp).

Definition avtab_read (junk : nat → N) (a : avtab) (fp : policy_file) (vers : N)
    : M (Z * avtab * policy_file) :=
  '(b, fp) ← next_entry fp 4;
  match b with
  | None => avtab_read_bad a fp
  | Some buf =>
  let nel := le32_at buf 0 in
  if nel =? 0 then avtab_read_bad a fp else
  '(rc, a) ← avtab_alloc a nel;
  if negb (rc =? 0)%Z then avtab_read_bad a fp else
  r ← for_up
        (λ i st, let '(a, fp) := st in
           '(rc, a, _, fp) ← avtab_read_item avtab_insertf junk fp vers a tt;
           if negb (rc =? 0)%Z then mret (inl (a, fp)) else mret (inr (a, fp)))
        (N.to_nat nel) 0 (a, fp);
  match r with
  | inl (a, fp) => avtab_read_bad a fp
  | inr (a, fp) => mret (0%Z, a, fp)
  end
  end.

(** * Writing *)

Definition SEPOL_TARGET_SELINUX : N := 0.
Definition POLICY_KERN : N := 0.

(** The fields of [policydb_t] the writer reads. *)
Record write_params := WriteParams { policy_type : N; policyvers : N; target_platform : N }.

Definition oldvers (p : write_params) : bool :=
  (policy_type p =? POLICY_KERN) && (policyvers p <? POLICYDB_VERSION_AVTAB).

(** The new format of [avtab_write_item]. *)
Definition avtab_write_item_new (p : write_params) (cur : avtab_node) (fp : policy_file)
    : M (Z * policy_file) :=
  let k := av_key cur in
  '(items, fp) ← put_entry (cpu_to_le16 (source_type k) ++ cpu_to_le16 (target_type k) ++
                            cpu_to_le16 (target_class k) ++ cpu_to_le16 (specified k)) 2 4 fp;
  if negb (items =? 4) then mret (POLICYDB_ERROR, fp) else
  if (policyvers p <? POLICYDB_VERSION_XPERMS_IOCTL) && truth (N.land (specified k) AVTAB_XPERMS)
  then mret (POLICYDB_ERROR, fp) else
  if negb (target_platform p =? SEPOL_TARGET_SELINUX) && truth (N.land (specified k) AVTAB_XPERMS)
  then mret (POLICYDB_ERROR, fp) else
  if truth (N.land (specified k) AVTAB_XPERMS) then
    x ← deref (xperms (av_datum cur));
    '(items, fp) ← put_entry (le_split 1 (xp_specified x)) 1 1 fp;
    if negb (items =? 1) then mret (POLICYDB_ERROR, fp) else
    '(items, fp) ← put_entry (le_split 1 (xp_driver x)) 1 1 fp;
    if negb (items =? 1) then mret (POLICYDB_ERROR, fp) else
    '(items, fp) ← put_entry (xp_perms x ≫= cpu_to_le32) 4 8 fp;
    if negb (items =? 8) then mret (POLICYDB_ERROR, fp) else mret (POLICYDB_SUCCESS, fp)
  else
    '(items, fp) ← put_entry (cpu_to_le32 (data (av_datum cur))) 4 1 fp;
    if negb (items =? 1) then mret (POLICYDB_ERROR, fp) else mret (POLICYDB_SUCCESS, fp).

(** [avtab_write] for the new format: the count, then every node. *)
Definition avtab_write_new (p : write_params) (a : avtab) (fp : policy_file) : M (Z * policy_file) :=
  '(items, fp) ← put_entry (cpu_to_le32 (av_nel a)) 4 1 fp;
  if negb (items =? 1) then mret (POLICYDB_ERROR, fp) else
  r ← for_up
        (λ i fp, t ← deref (av_htable a); c ← deref (t !! N.to_nat i);
           for_list (λ cur fp, '(rc, fp) ← avtab_write_item_new p cur fp;
                               mret (if negb (rc =? 0)%Z then inl fp else inr fp)) c fp)
        (N.to_nat (nslot a)) 0 fp;
  match r with
  | inl fp => mret ((-1)%Z, fp)
  | inr fp => mret (0%Z, fp)
  end.

Definition avtab_reset_merged (a : avtab) : M avtab :=
  r ← for_up (R := unit)
        (λ i a, t ← deref (av_htable a); c ← deref (t !! N.to_nat i);
           mret (inr (Avtab (Some (<[N.to_nat i := (λ n, AvtabNode (av_key n) (av_datum n) false) <$> c]> t))
                        (av_nel a) (nslot a) (mask a))))
        (N.to_nat (nslot a)) 0 a;
  mret match r with inl _ => a | inr a => a end.

(** * The table as a collection of rules *)

Definition avtab_entries (h : avtab) : list avtab_node :=
  match av_htable h with Some t => concat t | None => [] end.

(** Sorted chains: no node comes before one it follows. *)
Definition av_sorted (c : list avtab_node) : Prop :=
  StronglySorted (λ a b, key_before (av_key b) (av_key a) = false) c.

Record avtab_wf (h : avtab) : Prop := {
  awf_slots : ∃ t, av_htable h = Some t ∧ N.of_nat (length t) = nslot h ∧
    ∀ i c, t !! i = Some c →
      av_sorted c ∧ Forall (λ n, avtab_hash (av_key n) (mask h) = N.of_nat i) c;
  awf_mask : mask h + 1 = nslot h;
  awf_nel : av_nel h = u32 (N.of_nat (length (avtab_entries h))) }.

Lemma avtab_hash_le key msk : avtab_hash key msk ≤ msk.
Proof. apply land_le. Qed.

Lemma key_match_hash key spec cur msk :
  key_match key spec cur = true → avtab_hash cur msk = avtab_hash key msk.
Proof.
  unfold key_match. intros H. reflect_bools. unfold avtab_hash. congruence.
Qed.

#[local] Opaque avtab_hash.

(** A node behind the first one that comes after the key cannot match it. *)
Lemma before_no_match key spec a b :
  key_before key a = true → key_before b a = false → key_match key spec b = false.
Proof.
  intros H1 H2. apply not_true_is_false. intros H3. unfold key_before in H1, H2. unfold key_match in H3.
  apply andb_true_iff in H3 as [H3 _]. reflect_bools; try lia.
Qed.

Lemma scan_find key spec c :
  av_sorted c →
  match_at key spec (avtab_walk key spec c).2 = find_suffix (λ n, key_match key spec (av_key n)) c.
Proof.
  induction 1 as [|n c Hs IH Hall]; [done|]. unfold avtab_walk. cbn [walk find_suffix].
  destruct (key_match key spec (av_key n)) eqn:E; cbn [negb andb]; [simpl; by rewrite E|].
  destruct (key_before key (av_key n)) eqn:E'; cbn [negb].
  - simpl. rewrite E. symmetry. apply find_suffix_none. eapply Forall_impl; [exact Hall|].
    intros b Hb. simpl in *. by eapply before_no_match.
  - rewrite <- IH. unfold avtab_walk. by destruct (walk _ c).
Qed.

(** ** Enumeration: [avtab_search_node] followed by [avtab_search_node_next] *)

Fixpoint node_iter (fuel : nat) (node : option (list avtab_node)) (spec : N) : list avtab_node :=
  match fuel, node with
  | S fuel', Some ((n :: _) as l) => n :: node_iter fuel' (avtab_search_node_next (Some l) spec) spec
  | _, _ => []
  end.

Lemma find_suffix_ext {A} (p q : A → bool) l : (∀ a, p a = q a) → find_suffix p l = find_suffix q l.
Proof. intros H. induction l as [|a l IH]; [done|]. simpl. by rewrite H, IH. Qed.

Lemma key_match_trans key s1 s2 a b :
  key_match key s1 a = true → key_match a s2 b = key_match key s2 b.
Proof. unfold key_match. intros H. reflect_bools. congruence. Qed.

Lemma node_iter_filter key spec spec' c fuel :
  av_sorted c → clear_enabled spec = clear_enabled spec' → (length c ≤ fuel)%nat →
  node_iter fuel (find_suffix (λ n, key_match key (clear_enabled spec') (av_key n)) c) spec =
  filter (λ n, key_match key (clear_enabled spec') (av_key n) = true) c.
Proof.
  intros Hs Heq. revert fuel. induction Hs as [|n c Hs IH Hall]; intros fuel Hf.
  { by destruct fuel. }
  cbn [find_suffix]. rewrite filter_cons. destruct (key_match _ _ (av_key n)) eqn:E.
  - rewrite decide_True by done. destruct fuel as [|fuel]; [simpl in Hf; lia|]. cbn [node_iter].
    f_equal. unfold avtab_search_node_next. rewrite scan_find by done. rewrite Heq.
    rewrite (find_suffix_ext _ (λ n, key_match key (clear_enabled spec') (av_key n)))
      by (intros b; apply (key_match_trans _ _ _ _ _ E)).
    apply IH. simpl in Hf. lia.
  - rewrite decide_False by congruence. apply IH. simpl in Hf. lia.
Qed.

Lemma filter_none {A} (p : A → bool) l :
  Forall (λ a, p a = false) l → filter (λ a, p a = true) l = [].
Proof. induction 1 as [|a l Ha _ IH]; [done|]. by rewrite filter_cons, decide_False by congruence. Qed.

(** Nodes of the other chains have another hash. *)
Lemma filter_other_chains key spec msk i t c :
  t !! i = Some c → avtab_hash key msk = N.of_nat i →
  (∀ j c, t !! j = Some c → Forall (λ n, avtab_hash (av_key n) msk = N.of_nat j) c) →
  filter (λ n, key_match key spec (av_key n) = true) (concat t) =
  filter (λ n, key_match key spec (av_key n) = true) c.
Proof.
  intros Hi Hh Hall.
  assert (∀ l, (∀ c', c' ∈ l → ∃ j, t !! j = Some c' ∧ j ≠ i) →
            filter (λ n, key_match key spec (av_key n) = true) (concat l) = []) as Hother.
  { intros l Hl. apply filter_none. apply Forall_forall. intros n Hn.
    apply list_elem_of_In, in_concat in Hn as (c' & Hc' & Hn). apply list_elem_of_In in Hc', Hn.
    destruct (Hl _ Hc') as (j & Hj & Hne). specialize (Hall _ _ Hj). rewrite Forall_forall in Hall.
    apply not_true_is_false. intros Hm. apply (key_match_hash _ _ _ msk) in Hm.
    rewrite (Hall _ Hn), Hh in Hm. lia. }
  rewrite <- (take_drop_middle _ _ _ Hi) at 1. rewrite concat_app. cbn [concat]. rewrite !filter_app.
  rewrite (Hother (take i t)), (Hother (drop (S i) t)); [by rewrite app_nil_r| |].
  - intros c' [j Hj]%list_elem_of_lookup. rewrite lookup_drop in Hj. exists (S i + j)%nat. split; [done|lia].
  - intros c' [j Hj]%list_elem_of_lookup. apply lookup_take_Some in Hj as [Hj ?]. exists j. split; [done|lia].
Qed.

(** ** The slot of a key *)

Lemma avtab_focus h key :
  avtab_wf h →
  ∃ t c, av_htable h = Some t ∧ t !! N.to_nat (avtab_hash key (mask h)) = Some c ∧ av_sorted c ∧
    Forall (λ n, avtab_hash (av_key n) (mask h) = avtab_hash key (mask h)) c ∧
    ∀ spec, filter (λ n, key_match key spec (av_key n) = true) (avtab_entries h) =
            filter (λ n, key_match key spec (av_key n) = true) c.
Proof.
  intros [(t & Ht & Hlen & Hc) Hmask _]. pose proof (avtab_hash_le key (mask h)) as Hle.
  destruct (lookup_lt_is_Some_2 t (N.to_nat (avtab_hash key (mask h)))) as [c Hi]; [lia|].
  exists t, c. destruct (Hc _ _ Hi) as [Hs Hh]. rewrite N2Nat.id in Hh. split_and!; try done.
  intros spec. unfold avtab_entries. rewrite Ht.
  apply (filter_other_chains _ _ (mask h) (N.to_nat (avtab_hash key (mask h)))); [done|lia|].
  intros j c' Hj. apply (Hc _ _ Hj).
Qed.

Lemma find_suffix_head {A} (p : A → bool) l :
  match find_suffix p l with Some (a :: _) => Some a | _ => None end =
  head (filter (λ a, p a = true) l).
Proof.
  induction l as [|a l IH]; [done|]. cbn [find_suffix]. rewrite filter_cons.
  destruct (p a) eqn:E; [by rewrite decide_True|]. by rewrite decide_False by congruence.
Qed.

(** The search returns the first rule of the table that matches. *)
Lemma avtab_search_spec h key o :
  avtab_wf h →
  avtab_search (Some h) key o =
  Ret (av_datum <$> head (filter (λ n, key_match key (clear_enabled (specified key)) (av_key n) = true)
                                 (avtab_entries h))) o.
Proof.
  intros Hwf. destruct (avtab_focus h key Hwf) as (t & c & Ht & Hc & Hs & _ & Hf).
  unfold avtab_search. rewrite Ht, bind_run, Hc. cbn [deref]. unfold mret, M_ret. cbv beta iota.
  f_equal. rewrite Hf, scan_find by done. rewrite <- find_suffix_head.
  by destruct (find_suffix _ c) as [[|n l]|].
Qed.

Lemma avtab_node_iter_spec h key o :
  avtab_wf h →
  ∃ node, avtab_search_node (Some h) key o = Ret node o ∧
    node_iter (length (avtab_entries h)) node (specified key) =
    filter (λ n, key_match key (clear_enabled (specified key)) (av_key n) = true) (avtab_entries h).
Proof.
  intros Hwf. destruct (avtab_focus h key Hwf) as (t & c & Ht & Hc & Hs & _ & Hf).
  eexists. unfold avtab_search_node. rewrite Ht, bind_run, Hc. split; [done|].
  rewrite Hf, scan_find by done. apply node_iter_filter; [done|done|].
  unfold avtab_entries. rewrite Ht. destruct (concat_focus _ _ _ Hc) as (R & HR & _).
  rewrite HR, length_app. lia.
Qed.

Lemma node_loop_filter {St} (body : avtab_node → St → St) key spec spec' c fuel s o :
  av_sorted c → clear_enabled spec = clear_enabled spec' → (length c ≤ fuel)%nat →
  node_loop fuel (find_suffix (λ n, key_match key (clear_enabled spec') (av_key n)) c) spec body s o =
  Ret (foldl (λ s n, body n s) s (filter (λ n, key_match key (clear_enabled spec') (av_key n) = true) c)) o.
Proof.
  intros Hs Heq. revert fuel s. induction Hs as [|n c Hs IH Hall]; intros fuel s Hf.
  { by destruct fuel. }
  cbn [find_suffix]. rewrite filter_cons. destruct (key_match _ _ (av_key n)) eqn:E.
  - rewrite decide_True by done. destruct fuel as [|fuel]; [simpl in Hf; lia|]. cbn [node_loop foldl].
    unfold avtab_search_node_next. rewrite scan_find, Heq by done.
    rewrite (find_suffix_ext _ (λ n, key_match key (clear_enabled spec') (av_key n)))
      by (intros b; apply (key_match_trans _ _ _ _ _ E)).
    apply IH. simpl in Hf. lia.
  - rewrite decide_False by congruence. apply IH. simpl in Hf. lia.
Qed.

Lemma for_each_match_spec {St} h key (body : avtab_node → St → St) s o :
  avtab_wf h →
  for_each_match h key body s o =
  Ret (foldl (λ s n, body n s) s
         (filter (λ n, key_match key (clear_enabled (specified key)) (av_key n) = true) (avtab_entries h))) o.
Proof.
  intros Hwf. destruct (avtab_focus h key Hwf) as (t & c & Ht & Hc & Hs & _ & Hf).
  unfold for_each_match, avtab_search_node. rewrite Ht, !bind_run, Hc. cbn [deref].
  unfold mret, M_ret. cbv beta iota. rewrite Hf, scan_find by done. apply node_loop_filter; [done|done|].
  destruct (concat_focus _ _ _ Hc) as (R & HR & _). rewrite HR, length_app. lia.
Qed.

(** ** Insertion *)

Definition stored_datum (key : avtab_key) (datum : avtab_datum) : avtab_datum :=
  if truth (N.land (specified key) AVTAB_XPERMS)
  then AvtabDatum 0 (Some match xperms datum with Some x => x | None => zero_xperms end)
  else datum.

Lemma key_before_trans a b c :
  key_before b a = false → key_before c b = false → key_before c a = false.
Proof.
  unfold key_before. intros H1 H2. apply not_true_is_false. intros H3.
  reflect_bools; lia.
Qed.

Lemma key_before_asym a b : key_before a b = true → key_before b a = false.
Proof.
  unfold key_before. intros H1. apply not_true_is_false. intros H3. reflect_bools; lia.
Qed.

Lemma key_match_same a spec b : key_match a spec b = true → key_before b a = false.
Proof.
  unfold key_match, key_before. intros H1. apply not_true_is_false. intros H3. reflect_bools; lia.
Qed.

Lemma av_walk_sorted key spec d m c prev cur :
  av_sorted c → avtab_walk key spec c = (prev, cur) →
  c = prev ++ cur ∧ Forall (λ n, key_match key spec (av_key n) = false) prev ∧
  av_sorted (prev ++ AvtabNode key d m :: cur).
Proof.
  intros Hs Hw. apply walk_inv in Hw as (-> & Hpre & Hcur). split; [done|].
  assert (Forall (λ n, key_match key spec (av_key n) = false ∧ key_before key (av_key n) = false) prev) as Hp.
  { eapply Forall_impl; [exact Hpre|]. intros n Hn. simpl in Hn. reflect_bools. done. }
  split; [eapply Forall_impl; [exact Hp|]; by intros n []|].
  apply StronglySorted_app in Hs as (Hpc & Hsp & Hsc). apply StronglySorted_app. split_and!; [|done|].
  - intros a b Ha [->|Hb]%elem_of_cons; [|by apply Hpc]. simpl. rewrite Forall_forall in Hp. by apply Hp.
  - constructor; [done|]. destruct cur as [|n cur]; [constructor|].
    assert (key_before (av_key n) key = false) as Hn.
    { simpl in Hcur. destruct (key_match key spec (av_key n)) eqn:E; [by eapply key_match_same|].
      apply key_before_asym. simpl in Hcur. by apply negb_false_iff. }
    constructor; [done|]. apply StronglySorted_inv in Hsc as [_ Hall].
    eapply Forall_impl; [exact Hall|]. intros z Hz. simpl in *. by eapply key_before_trans.
Qed.

(** Linking a node where the walk stopped keeps the table well-formed. *)
Lemma avtab_link_wf h t c prev cur key d :
  avtab_wf h → av_htable h = Some t → t !! N.to_nat (avtab_hash key (mask h)) = Some c →
  avtab_walk key (clear_enabled (specified key)) c = (prev, cur) →
  let new := AvtabNode key d false in
  let h' := Avtab (Some (<[N.to_nat (avtab_hash key (mask h)) := prev ++ new :: cur]> t))
              (u32 (av_nel h + 1)) (nslot h) (mask h) in
  avtab_wf h' ∧ avtab_entries h' ≡ₚ new :: avtab_entries h.
Proof.
  intros Hwf Ht Hc Hw new h'. destruct Hwf as [(t' & Ht' & Hlen & Hchains) Hmask Hnel].
  rewrite Ht in Ht'. injection Ht' as <-. destruct (Hchains _ _ Hc) as [Hs Hh].
  destruct (av_walk_sorted key _ d false c prev cur Hs Hw) as (-> & _ & Hs').
  destruct (concat_focus _ _ _ Hc) as (R & HR & Hset).
  assert (avtab_entries h' ≡ₚ new :: avtab_entries h) as Hp.
  { unfold avtab_entries, h'. cbn [av_htable]. rewrite Ht, Hset, HR. solve_Permutation. }
  split; [|done]. split.
  - eexists. split; [done|]. split; [cbn [nslot]; by rewrite length_insert|]. cbn [mask].
    intros i c' Hi. destruct (decide (N.to_nat (avtab_hash key (mask h)) = i)) as [<-|Hne].
    + rewrite list_lookup_insert_eq in Hi by (by eapply lookup_lt_Some). injection Hi as <-.
      split; [done|]. apply Forall_app in Hh as [? ?]. apply Forall_app. split; [done|].
      constructor; [|done]. cbn [av_key]. symmetry. apply N2Nat.id.
    + rewrite list_lookup_insert_ne in Hi by done. by apply Hchains.
  - done.
  - change (av_nel h') with (u32 (av_nel h + 1)). rewrite Hp, Hnel, u32_succ. f_equal. cbn [length]. lia.
Qed.

Definition insert_av_post (h : avtab) (key : avtab_key) (datum : avtab_datum) (o : oracle)
    (r : Z * option avtab) (o' : oracle) : Prop :=
  let spec := clear_enabled (specified key) in
  let dup := existsb (λ n, key_match key spec (av_key n)) (avtab_entries h) in
  (o = [] → o' = []) ∧
  ((r = (SEPOL_EEXIST, Some h) ∧ dup = true ∧ truth (N.land spec AVTAB_XPERMS) = false)
   ∨ (r = (SEPOL_ENOMEM, Some h) ∧ o ≠ [])
   ∨ (∃ h', r = (0%Z, Some h') ∧ avtab_wf h' ∧
        (dup = false ∨ truth (N.land spec AVTAB_XPERMS) = true) ∧
        avtab_entries h' ≡ₚ AvtabNode key (stored_datum key datum) false :: avtab_entries h ∧
        (spec ≠ 0 → avtab_search (Some h') key [] = Ret (Some (stored_datum key datum)) []))).

Lemma insert_node_spec h t hvalue prev cur key datum o :
  wp (avtab_insert_node h t hvalue prev cur key datum) o (λ r o', (o = [] → o' = []) ∧
    let new := AvtabNode key (stored_datum key datum) false in
    ((r = None ∧ o ≠ []) ∨
     r = Some (Avtab (Some (<[hvalue := prev ++ new :: cur]> t)) (u32 (av_nel h + 1)) (nslot h) (mask h),
               new :: cur))).
Proof.
  unfold avtab_insert_node, stored_datum. wp_step. wp_step. intros [] o1 Ho1; cbn [negb].
  2:{ apply wp_ret. naive_solver. }
  destruct (truth _); [|apply wp_ret; naive_solver].
  wp_step. wp_step. intros [] o2 Ho2; cbn [negb]; apply wp_ret; naive_solver.
Qed.

Lemma existsb_filter {A} (p : A → bool) l :
  existsb p l = match filter (λ a, p a = true) l with [] => false | _ :: _ => true end.
Proof.
  induction l as [|a l IH]; [done|]. rewrite filter_cons. simpl. destruct (p a) eqn:E.
  - by rewrite decide_True.
  - rewrite decide_False by congruence. done.
Qed.

Lemma key_match_self key spec : truth (N.land spec (specified key)) = true → key_match key spec key = true.
Proof. unfold key_match. intros ->. by rewrite !N.eqb_refl. Qed.

Lemma clear_enabled_land spec : N.land (clear_enabled spec) spec = clear_enabled spec.
Proof.
  apply N.bits_inj. intros j. unfold clear_enabled. rewrite N.land_spec, N.ldiff_spec. btauto.
Qed.

Lemma avtab_insert_spec h key datum o :
  avtab_wf h → wp (avtab_insert (Some h) key datum) o (insert_av_post h key datum o).
Proof.
  intros Hwf. destruct (avtab_focus h key Hwf) as (t & c & Ht & Hc & Hs & Hhash & Hf).
  unfold avtab_insert. rewrite Ht. wp_step. apply wp_deref. exists c. split; [done|].
  set (spec := clear_enabled (specified key)). destruct (avtab_walk key spec c) as [prev cur] eqn:Hw.
  assert (existsb (λ n, key_match key spec (av_key n)) (avtab_entries h) =
          match match_at key spec cur with Some _ => true | None => false end) as Hdup.
  { rewrite existsb_filter, Hf. change cur with (prev, cur).2. rewrite <- Hw, scan_find by done.
    pose proof (find_suffix_head (λ n, key_match key spec (av_key n)) c) as Hh.
    pose proof (find_suffix_none (λ n, key_match key spec (av_key n)) c) as Hn.
    destruct (find_suffix _ c) as [[|x l]|] eqn:E; destruct (filter _ c) eqn:E'; try done.
    exfalso. clear -E. induction c as [|a c IH]; simpl in E; [done|]. by destruct (key_match _ _ _). }
  assert (∀ b, b = match match_at key spec cur with
                   | Some _ => negb (truth (N.land spec AVTAB_XPERMS)) | None => false end →
    wp (if b then mret (SEPOL_EEXIST, Some h) else
        r ← avtab_insert_node h t (N.to_nat (avtab_hash key (mask h))) prev cur key datum;
        match r with None => mret (SEPOL_ENOMEM, Some h) | Some (h', _) => mret (0%Z, Some h') end) o
      (insert_av_post h key datum o)) as Hgoal; [|by apply Hgoal].
  intros [] Eb.
  { apply wp_ret. split; [done|]. left. split; [done|]. fold spec. rewrite Hdup.
    destruct (match_at key spec cur); [|done]. split; [done|]. by apply negb_true_iff. }
  wp_step. eapply wp_mono; [apply insert_node_spec|]. intros r o' [Ho Hr]; cbv zeta in Hr.
  destruct Hr as [[-> Hne]| ->]; apply wp_ret; (split; [done|]); right; [by left|right].
  destruct (avtab_link_wf h t c prev cur key (stored_datum key datum) Hwf Ht Hc Hw) as [Hwf' Hp].
  eexists. split; [done|]. split; [done|]. split_and!.
  - fold spec. rewrite Hdup. destruct (match_at key spec cur); [right|by left]. by apply negb_false_iff.
  - done.
  - fold spec. intros Hspec. destruct (avtab_focus _ key Hwf') as (t' & c' & Ht' & Hc' & _ & _ & Hf').
    rewrite avtab_search_spec by done. rewrite Hf'. fold spec. cbn [av_htable mask] in Ht', Hc'. injection Ht' as <-.
    rewrite list_lookup_insert_eq in Hc' by (by eapply lookup_lt_Some). injection Hc' as <-.
    destruct (av_walk_sorted key spec (stored_datum key datum) false c prev cur Hs Hw) as (_ & Hpre & _).
    rewrite filter_app, (filter_none _ _ Hpre), filter_cons, decide_True; [done|]. cbn [av_key].
    apply key_match_self. apply truth_spec. unfold spec in *. by rewrite clear_enabled_land.
Qed.

(** ** Allocation *)

Lemma alloc_shift_spec fuel work s :
  work < 2 ^ N.of_nat fuel →
  ∃ k, alloc_shift fuel work s = s + k ∧ k ≤ N.of_nat fuel ∧ work < 2 ^ k ∧
    (work = 0 → k = 0) ∧ (work ≠ 0 → 0 < k ∧ 2 ^ (k - 1) ≤ work).
Proof.
  revert work s. induction fuel as [|fuel IH]; intros work s Hw.
  { exists 0. simpl in *. split_and!; lia. }
  cbn [alloc_shift]. destruct (truth work) eqn:E.
  - apply truth_spec in E. rewrite N.shiftr_div_pow2. change (2 ^ 1) with 2.
    rewrite Nat2N.inj_succ, N.pow_succ_r' in Hw.
    destruct (IH (work / 2) (s + 1)) as (k & -> & Hk & Hlt & Hz & Hne).
    { apply N.Div0.div_lt_upper_bound. lia. }
    pose proof (N.div_mod' work 2) as Hdm. pose proof (N.mod_lt work 2 ltac:(done)) as Hm.
    exists (k + 1). rewrite N.pow_add_r. change (2 ^ 1) with 2.
    replace (k + 1 - 1) with k by lia.
    revert Hdm Hm Hlt Hz Hne. generalize (work / 2) (work mod 2). intros q m Hdm Hm Hlt Hz Hne.
    split_and!; [lia|lia|lia|done|]. intros _. split; [lia|].
    destruct (decide (q = 0)) as [->|Hq]; [rewrite Hz by done; simpl; lia|].
    destruct (Hne Hq) as [Hk0 Hle]. replace k with (N.succ (k - 1)) by lia. rewrite N.pow_succ_r'. lia.
  - unfold truth in E. reflect_bools. subst. exists 0. split_and!; simpl; lia.
Qed.

(** The table is empty and well-formed, at most [MAX_AVTAB_HASH_BUCKETS] long,
    and shorter than that only if its chains average less than four rules. *)
Lemma avtab_alloc_spec h nrules o :
  0 < nrules → nrules < 2 ^ 32 →
  wp (avtab_alloc h nrules) o (λ r o', (o = [] → o' = []) ∧
    ((r.1 = (-1)%Z ∧ o ≠ [] ∧ av_htable r.2 = None) ∨
     (r.1 = 0%Z ∧ avtab_wf r.2 ∧ avtab_entries r.2 = [] ∧ nslot r.2 ≤ MAX_AVTAB_HASH_BUCKETS ∧
      (nrules < 4 * nslot r.2 ∨ nslot r.2 = MAX_AVTAB_HASH_BUCKETS)))).
Proof.
  intros Hpos Hlt. unfold avtab_alloc. rewrite (proj2 (N.eqb_neq nrules 0)) by lia.
  destruct (alloc_shift_spec 32 nrules 0) as (k & -> & Hk & Hk1 & _ & Hk2); [done|].
  destruct Hk2 as [Hk0 _]; [lia|]. rewrite N.add_0_l.
  set (s := if 2 <? k then k - 2 else k).
  assert (nrules < 4 * N.shiftl 1 s) as Hs.
  { rewrite N.shiftl_1_l. unfold s. case_bool; reflect_bools; [|lia].
    replace k with (k - 2 + 2) in Hk1 by lia. rewrite N.pow_add_r in Hk1. change (2 ^ 2) with 4 in Hk1. lia. }
  assert (0 < N.shiftl 1 s) as Hp.
  { rewrite N.shiftl_1_l. apply N.neq_0_lt_0, N.pow_nonzero. done. }
  revert Hs Hp. generalize (N.shiftl 1 s). intros n Hs Hp. clear s.
  set (m := if MAX_AVTAB_HASH_BUCKETS <? n then _ else n).
  assert (0 < m ∧ m ≤ MAX_AVTAB_HASH_BUCKETS ∧ (nrules < 4 * m ∨ m = MAX_AVTAB_HASH_BUCKETS)) as Hm.
  { unfold m. case_bool; reflect_bools; [split_and!; [done|done|by right]|lia]. }
  clearbody m. assert (concat (replicate (N.to_nat m) ([] : list avtab_node)) = []) as Hnil.
  { induction (N.to_nat m); simpl; done. }
  wp_step. wp_step. intros [] o' Ho; cbn [negb]; apply wp_ret; (split; [naive_solver|]);
    [right|left; naive_solver].
  cbn [fst snd nslot]. split; [done|]. split_and!; [|done|apply Hm|apply Hm]. split.
  - eexists. split; [done|]. split; [by rewrite length_replicate, N2Nat.id|].
    intros i c [-> _]%lookup_replicate. split; constructor.
  - cbn [mask nslot]. lia.
  - unfold avtab_entries. cbn [av_htable av_nel]. by rewrite Hnil.
Qed.

(** * The format of a rule *)

Definition xperms_wf (x : avtab_extended_perms) : Prop :=
  xp_specified x < 256 ∧ xp_driver x < 256 ∧ length (xp_perms x) = 8%nat ∧
  Forall (λ w, w < 2 ^ 32) (xp_perms x).

(** A rule as the tables store it: 16-bit fields, one specifier, and the datum
    the specifier calls for. *)
Definition rule_wf (n : avtab_node) : Prop :=
  let k := av_key n in
  source_type k < 2 ^ 16 ∧ target_type k < 2 ^ 16 ∧ target_class k < 2 ^ 16 ∧ specified k < 2 ^ 16 ∧
  count_specs (specified k) = 1 ∧
  if truth (N.land (specified k) AVTAB_XPERMS)
  then data (av_datum n) = 0 ∧ match xperms (av_datum n) with Some x => xperms_wf x | None => False end
  else data (av_datum n) < 2 ^ 32 ∧ xperms (av_datum n) = None.

(** What the policy version lets the writer write. *)
Definition rule_writable (p : write_params) (n : avtab_node) : bool :=
  negb (truth (N.land (specified (av_key n)) AVTAB_XPERMS)) ||
  ((POLICYDB_VERSION_XPERMS_IOCTL <=? policyvers p) && (target_platform p =? SEPOL_TARGET_SELINUX)).

Definition rule_bytes (n : avtab_node) : list N :=
  let k := av_key n in
  (cpu_to_le16 (source_type k) ++ cpu_to_le16 (target_type k) ++
   cpu_to_le16 (target_class k) ++ cpu_to_le16 (specified k)) ++
  match xperms (av_datum n) with
  | Some x => le_split 1 (xp_specified x) ++ le_split 1 (xp_driver x) ++ (xp_perms x ≫= cpu_to_le32)
  | None => cpu_to_le32 (data (av_datum n))
  end.

Lemma length_rule_key k :
  length (cpu_to_le16 (source_type k) ++ cpu_to_le16 (target_type k) ++
          cpu_to_le16 (target_class k) ++ cpu_to_le16 (specified k)) = 8%nat.
Proof. rewrite !length_app. unfold cpu_to_le16. by rewrite !length_le_split. Qed.

Lemma write_item_ok p n fp o :
  rule_wf n → rule_writable p n = true → pf_room fp (N.of_nat (length (rule_bytes n))) →
  avtab_write_item_new p n fp o = Ret (POLICYDB_SUCCESS, pf_put fp (rule_bytes n)) o.
Proof.
  intros (_ & _ & _ & _ & _ & Hd) Hw Hroom. unfold rule_bytes in *. cbv zeta in Hroom |- *.
  apply pf_room_split in Hroom as [Hk Hroom].
  unfold avtab_write_item_new. cbv zeta. rewrite put_check by (done || by rewrite length_rule_key).
  unfold rule_writable in Hw. destruct (truth (N.land (specified (av_key n)) AVTAB_XPERMS)).
  - simpl in Hw. apply andb_true_iff in Hw as [Hv Hp]. reflect_bools.
    rewrite (proj2 (N.ltb_ge _ _)), (proj2 (N.eqb_eq _ _)) by done. cbn [andb negb].
    destruct Hd as [_ Hx]. destruct (xperms (av_datum n)) as [x|]; [|done].
    destruct Hx as (_ & _ & Hlen & _).
    apply pf_room_split in Hroom as [H1 Hroom]. apply pf_room_split in Hroom as [H2 H3].
    cbn [deref]. rewrite bind_run. unfold mret at 1, M_ret at 1. cbv beta iota.
    rewrite put_check by (done || by rewrite length_le_split).
    rewrite put_check by (done || by rewrite length_le_split).
    rewrite put_check by (done || by rewrite length_words, Hlen). by rewrite !pf_put_app.
  - rewrite !andb_false_r. destruct Hd as [_ Hx]. rewrite Hx in *.
    rewrite put_check by (done || by (unfold cpu_to_le32; rewrite length_le_split)). by rewrite pf_put_app.
Qed.

(** The callback receives the rule that was written. *)
Lemma read_item_ok {P} (insertf : avtab → avtab_key → avtab_datum → P → M (Z * avtab * P)) junk
    vers n fp rest a p o Q :
  rule_wf n → POLICYDB_VERSION_AVTAB ≤ vers →
  (truth (N.land (specified (av_key n)) AVTAB_XPERMS) = true → POLICYDB_VERSION_XPERMS_IOCTL ≤ vers) →
  pf_wf fp → pf_avail fp = rule_bytes n ++ rest →
  wp (insertf a (av_key n) (av_datum n) p) o (λ r o', ∀ fp', pf_wf fp' → pf_avail fp' = rest → Q (r, fp') o') →
  wp (avtab_read_item insertf junk fp vers a p) o Q.
Proof.
  intros (Hs & Ht & Hc & Hsp & Hcnt & Hd) Hv Hx Hfp Hav Hins. unfold rule_bytes in Hav. cbv zeta in Hav.
  rewrite <- app_assoc in Hav. unfold avtab_read_item. rewrite (proj2 (N.ltb_ge _ _)) by done.
  eapply wp_next_check; [done|exact Hav|by rewrite length_rule_key|done|]. clear fp Hfp Hav.
  intros fp Hfp Hav. cbv zeta. rewrite !le16_at_S, !le16_at_0 by done.
  rewrite <- (app_nil_r (cpu_to_le16 (specified (av_key n)))), le16_at_0 by done.
  replace (AvtabKey _ _ _ _) with (av_key n) by (by destruct (av_key n)).
  rewrite Hcnt. change ((1 =? 0) || (1 <? 1)) with false. cbv iota.
  destruct (truth (N.land (specified (av_key n)) AVTAB_XPERMS)).
  - rewrite (proj2 (N.ltb_ge _ _)) by auto. cbn [andb]. destruct Hd as [Hd0 Hxp].
    destruct (av_datum n) as [d [x|]] eqn:Edat; [|done]; cbn [data xperms] in Hd0, Hxp, Hav; subst d.
    destruct Hxp as (H1 & H2 & Hlen & Hws). rewrite <- !app_assoc in Hav.
    eapply wp_next_check; [done|exact Hav|done|done|]. clear fp Hfp Hav. intros fp Hfp Hav.
    eapply wp_next_check; [done|exact Hav|done|done|]. clear fp Hfp Hav. intros fp Hfp Hav.
    eapply wp_next_check; [done|exact Hav|by rewrite length_words, Hlen|done|]. clear fp Hfp Hav.
    intros fp Hfp Hav. rewrite !le_combine_split by done. rewrite <- Hlen, le32_words by done.
    destruct x as [xs xd xp]; simpl in *. wp_step. eapply wp_mono; [exact Hins|].
    intros [[rc a'] p'] o' HQ. apply wp_ret. by apply HQ.
  - rewrite andb_false_r. destruct Hd as [Hd Hxn]. destruct (av_datum n) as [d xo] eqn:Edat. cbn [data xperms] in *. subst xo.
    eapply wp_next_check; [done|exact Hav|done|done|]. clear fp Hfp Hav. intros fp Hfp Hav.
    rewrite <- (app_nil_r (cpu_to_le32 d)), le32_at_0 by done.
    wp_step. eapply wp_mono; [exact Hins|]. intros [[rc a'] p'] o' HQ. apply wp_ret. by apply HQ.
Qed.

(** * The format of a table *)

Definition avtab_bytes (a : avtab) : list N :=
  cpu_to_le32 (av_nel a) ++ (avtab_entries a ≫= rule_bytes).

Lemma write_rules_ok p l fp o :
  Forall rule_wf l → Forall (λ n, rule_writable p n = true) l →
  pf_room fp (N.of_nat (length (l ≫= rule_bytes))) →
  for_list (R := policy_file) (λ cur fp, '(rc, fp) ← avtab_write_item_new p cur fp;
                      mret (if negb (rc =? 0)%Z then inl fp else inr fp)) l fp o =
  Ret (inr (pf_put fp (l ≫= rule_bytes))) o.
Proof.
  intros Hwf Hw. revert fp. induction Hwf as [|n l Hn _ IH]; intros fp Hroom.
  { by rewrite pf_put_nil. }
  apply Forall_cons in Hw as [Hwn Hwl]. rewrite bind_cons in *. apply pf_room_split in Hroom as [H1 H2].
  cbn [for_list]. rewrite !bind_run, (write_item_ok p n fp o) by done. unfold mret at 1, M_ret at 1.
  cbn [Z.eqb POLICYDB_SUCCESS negb]. rewrite IH by done. by rewrite pf_put_app.
Qed.

Lemma avtab_write_ok p a fp o :
  avtab_wf a → Forall rule_wf (avtab_entries a) →
  Forall (λ n, rule_writable p n = true) (avtab_entries a) →
  pf_room fp (N.of_nat (length (avtab_bytes a))) →
  avtab_write_new p a fp o = Ret (0%Z, pf_put fp (avtab_bytes a)) o.
Proof.
  intros [(t & Ht & Hlen & _) _ _] Hwf Hw Hroom. unfold avtab_bytes in *.
  apply pf_room_split in Hroom as [H1 H2]. unfold avtab_write_new.
  rewrite put_check by done. unfold avtab_entries in *. rewrite Ht in *. rewrite bind_run.
  rewrite (for_up_ext _ (λ i fp, c ← deref (t !! N.to_nat i);
    for_list (λ cur fp, '(rc, fp) ← avtab_write_item_new p cur fp;
                        mret (if negb (rc =? 0)%Z then inl fp else inr fp)) c fp)) by done.
  rewrite <- Hlen, Nat2N.id, (for_up_lookup (for_list _) t [] t), for_list_concat by done.
  rewrite write_rules_ok by done. by rewrite pf_put_app.
Qed.

(** No rule repeats one before it, unless it is an extended permission. *)
Fixpoint rules_unique (seen l : list avtab_node) : Prop :=
  match l with
  | [] => True
  | n :: l' =>
      (truth (N.land (clear_enabled (specified (av_key n))) AVTAB_XPERMS) = true ∨
       Forall (λ m, key_match (av_key n) (clear_enabled (specified (av_key n))) (av_key m) = false) seen) ∧
      rules_unique (seen ++ [n]) l'
  end.

(** A rule as it comes back: [merged] is not saved. *)
Definition unmerged (n : avtab_node) : avtab_node := AvtabNode (av_key n) (av_datum n) false.

Lemma rule_stored n : rule_wf n → stored_datum (av_key n) (av_datum n) = av_datum n.
Proof.
  intros (_ & _ & _ & _ & _ & Hd). unfold stored_datum. destruct (truth _); [|done].
  destruct (av_datum n) as [d [x|]]; simpl in *; [|naive_solver]. destruct Hd as [-> _]. done.
Qed.

Lemma insertf_new a key datum o :
  avtab_wf a →
  truth (N.land (clear_enabled (specified key)) AVTAB_XPERMS) = true ∨
  Forall (λ m, key_match key (clear_enabled (specified key)) (av_key m) = false) (avtab_entries a) →
  wp (avtab_insertf a key datum tt) o (λ r o', (o = [] → o' = [] ∧ r.1.1 = 0%Z) ∧ avtab_wf r.1.2 ∧
    (r.1.1 = 0%Z → avtab_entries r.1.2 ≡ₚ AvtabNode key (stored_datum key datum) false :: avtab_entries a)).
Proof.
  intros Hwf Hnew. unfold avtab_insertf. wp_step. eapply wp_mono; [by apply avtab_insert_spec|].
  intros r o' [Ho [(-> & Hdup & Hx)|[[-> Hne]|(a' & -> & Hwf' & _ & Hp & _)]]].
  - destruct Hnew as [Hnew|Hnew]; [congruence|]. apply existsb_exists in Hdup as (m & Hm & Hk).
    rewrite Forall_forall in Hnew. rewrite Hnew in Hk; [done|by apply list_elem_of_In].
  - wp_step. apply wp_deref. eexists. split; [done|]. apply wp_ret. simpl. split; [naive_solver|]. done.
  - wp_step. apply wp_deref. eexists. split; [done|]. apply wp_ret. simpl. split; [naive_solver|]. done.
Qed.

Lemma avtab_destroy_spec a o :
  av_htable a = None ∨ avtab_wf a →
  wp (avtab_destroy (Some a)) o (λ r o', o' = o ∧ ∃ a', r = Some a' ∧ av_htable a' = None).
Proof.
  unfold avtab_destroy. intros [Hn|[(t & Ht & Hlen & _) _ _]]; [rewrite Hn|rewrite Ht].
  { apply wp_ret. naive_solver. }
  wp_step. apply wp_for_up with (I := λ _ t' o', o' = o ∧ length t' = length t); [done| |].
  - intros j t' o' Hj [-> Hl]. destruct (lookup_lt_is_Some_2 t' (N.to_nat j)) as [c Hc]; [lia|].
    wp_step. apply wp_deref. exists c. split; [done|]. apply wp_ret. by rewrite length_insert.
  - intros t' o' [-> _]. apply wp_ret. naive_solver.
Qed.

Lemma avtab_read_bad_spec a fp o :
  av_htable a = None ∨ avtab_wf a →
  wp (avtab_read_bad a fp) o (λ r o', o' = o ∧ r.1.1 = (-1)%Z ∧ av_htable r.1.2 = None ∧ r.2 = fp).
Proof.
  intros Ha. unfold avtab_read_bad. wp_step. eapply wp_mono; [by apply avtab_destroy_spec|].
  intros r o' (-> & a' & -> & Hn). wp_step. apply wp_deref. exists a'. split; [done|]. by apply wp_ret.
Qed.

(** What the loop of [avtab_read] is asked to do in one round. *)
Definition read_round (junk : nat → N) (vers : N) (i : N) (st : avtab * policy_file)
    : M ((avtab * policy_file) + (avtab * policy_file)) :=
  let '(a, fp) := st in
  '(rc, a, _, fp) ← avtab_read_item avtab_insertf junk fp vers a tt;
  if negb (rc =? 0)%Z then mret (inl (a, fp)) else mret (inr (a, fp)).

Definition rule_version (vers : N) (n : avtab_node) : Prop :=
  truth (N.land (specified (av_key n)) AVTAB_XPERMS) = true → POLICYDB_VERSION_XPERMS_IOCTL ≤ vers.

Lemma read_rules_ok junk vers l seen a fp rest i o :
  avtab_wf a → avtab_entries a ≡ₚ unmerged <$> seen → rules_unique seen l → Forall rule_wf l →
  Forall (rule_version vers) l → POLICYDB_VERSION_AVTAB ≤ vers → pf_wf fp →
  pf_avail fp = (l ≫= rule_bytes) ++ rest →
  wp (for_up (read_round junk vers) (length l) i (a, fp)) o (λ r o', (o = [] → o' = []) ∧
    match r with
    | inl (a', fp') => avtab_wf a' ∧ o ≠ [] ∧ pf_wf fp'
    | inr (a', fp') => avtab_wf a' ∧ avtab_entries a' ≡ₚ unmerged <$> (seen ++ l) ∧
        pf_wf fp' ∧ pf_avail fp' = rest
    end).
Proof.
  revert seen a fp i o. induction l as [|n l IH]; intros seen a fp i o Ha Hent Huniq Hwf Hver Hv Hfp Hav.
  { apply wp_ret. rewrite app_nil_r. done. }
  apply Forall_cons in Hwf as [Hn Hwf]. apply Forall_cons in Hver as [Hvn Hver].
  destruct Huniq as [Hnew Huniq]. rewrite bind_cons, <- app_assoc in Hav.
  cbn [length for_up]. wp_step. unfold read_round at 1. wp_step.
  eapply read_item_ok; [done|done|exact Hvn|done|exact Hav|]. clear Hav Hfp fp.
  eapply wp_mono; [apply insertf_new; [done|]|].
  { destruct Hnew as [?|Hnew]; [by left|right]. rewrite Hent. apply Forall_fmap. exact Hnew. }
  intros [[rc a'] u] o1; cbn [fst snd]. intros (Ho & Ha' & Hp) fp Hfp Hav.
  destruct (rc =? 0)%Z eqn:Erc; reflect_bools; cbn [negb]; apply wp_ret.
  - eapply wp_mono; [apply (IH (seen ++ [n]) a' fp (N.succ i) o1); try done|].
    + rewrite (Hp Erc), Hent, rule_stored by done. rewrite fmap_app. simpl. solve_Permutation.
    + intros [[a'' fp'']|[a'' fp'']] o2 [Ho2 Hr]; rewrite <- ?app_assoc in Hr; naive_solver.
  - apply wp_ret. split; [naive_solver|]. split; [done|]. split; [|done]. intros ->. naive_solver.
Qed.

Lemma avtab_read_ok junk vers l a0 fp rest o :
  l ≠ [] → N.of_nat (length l) < 2 ^ 32 → rules_unique [] l → Forall rule_wf l →
  Forall (rule_version vers) l → POLICYDB_VERSION_AVTAB ≤ vers → pf_wf fp →
  pf_avail fp = (cpu_to_le32 (N.of_nat (length l)) ++ (l ≫= rule_bytes)) ++ rest →
  wp (avtab_read junk a0 fp vers) o (λ r o', (o = [] → o' = [] ∧ r.1.1 = 0%Z) ∧
    ((r.1.1 = 0%Z ∧ avtab_wf r.1.2 ∧ avtab_entries r.1.2 ≡ₚ unmerged <$> l ∧
      pf_wf r.2 ∧ pf_avail r.2 = rest) ∨
     (r.1.1 = (-1)%Z ∧ av_htable r.1.2 = None ∧ pf_wf r.2))).
Proof.
  intros Hne Hlen Huniq Hwf Hver Hv Hfp Hav. rewrite <- app_assoc in Hav. unfold avtab_read.
  eapply wp_next_check; [done|exact Hav|done|done|]. clear fp Hfp Hav. intros fp Hfp Hav.
  assert (le32_at (cpu_to_le32 (N.of_nat (length l))) 0 = N.of_nat (length l)) as ->.
  { rewrite <- (app_nil_r (cpu_to_le32 _)). by apply le32_at_0. }
  cbv zeta. assert (0 < N.of_nat (length l)) as Hpos by (destruct l; simpl; [done|lia]).
  rewrite (proj2 (N.eqb_neq _ 0)) by lia. wp_step. eapply wp_mono; [by apply avtab_alloc_spec|].
  intros [rc a] o1 [Ho1 Hr]; cbn [fst snd] in Hr. destruct Hr as [(-> & Hno & Hnone)|(-> & Ha & Hent & _)].
  { change (negb (-1 =? 0)%Z) with true. cbv iota.
    eapply wp_mono; [apply avtab_read_bad_spec; by left|]. intros r o2 (-> & ? & ? & ->).
    split; [intros ->; done|]. by right. }
  change (negb (0 =? 0)%Z) with false. cbv iota. rewrite Nat2N.id. wp_step.
  eapply wp_mono; [apply (read_rules_ok junk vers l [] a fp rest); try done; by rewrite Hent|].
  intros [[a' fp']|[a' fp']] o2 [Ho2 Hr].
  - destruct Hr as (Ha' & Hne' & Hfp'). eapply wp_mono; [apply avtab_read_bad_spec; by right|].
    intros r o3 (-> & ? & ? & ->). split; [naive_solver|]. by right.
  - apply wp_ret. cbn [fst snd]. split; [naive_solver|]. left. naive_solver.
Qed.

(** * Theorems *)

(** C25: [avtab_search] is exact: on a well-formed table it returns the datum of
    the first rule, in table order, with the key's types and class and a
    specifier in the key's mask (the enabled bit apart), so stopping a scan
    early misses nothing.  Following [avtab_search_node] with
    [avtab_search_node_next] until it ends enumerates exactly the matching
    rules, within as many steps as the table has rules. *)
Theorem avtab_search_exact h key o :
  avtab_wf h →
  let matching := filter (λ n, key_match key (clear_enabled (specified key)) (av_key n) = true)
                         (avtab_entries h) in
  avtab_search (Some h) key o = Ret (av_datum <$> head matching) o ∧
  ∃ node, avtab_search_node (Some h) key o = Ret node o ∧
    node_iter (length (avtab_entries h)) node (specified key) = matching.
Proof. intros Hwf. split; [by apply avtab_search_spec|by apply avtab_node_iter_spec]. Qed.

(** Two slots with three rules on the same types. *)
Definition ex_rule (spec d : N) : avtab_node := AvtabNode (AvtabKey 1 2 5 spec) (AvtabDatum d None) false.
Definition ex_avtab : avtab :=
  Avtab (Some [[ex_rule AVTAB_ALLOWED 5; ex_rule AVTAB_AUDITDENY 6; ex_rule AVTAB_TRANSITION 7]; []]) 3 2 1.

Lemma ex_avtab_wf : avtab_wf ex_avtab.
Proof.
  split; [|done|done]. eexists. split; [done|]. split; [done|]. intros i c Hi.
  destruct i as [|[|i]]; [|by injection Hi as <-; split; constructor|done].
  injection Hi as <-. split; [repeat constructor|]. repeat constructor; by vm_compute.
Qed.

Lemma avtab_search_exact_witness :
  avtab_search (Some ex_avtab) (AvtabKey 1 2 5 AVTAB_TRANSITION) [] = Ret (Some (AvtabDatum 7 None)) [] ∧
  ∃ node, avtab_search_node (Some ex_avtab) (AvtabKey 1 2 5 AVTAB_AV) [] = Ret node [] ∧
    length (node_iter 3 node AVTAB_AV) = 2%nat.
Proof.
  destruct (avtab_search_exact ex_avtab (AvtabKey 1 2 5 AVTAB_TRANSITION) [] ex_avtab_wf) as [Hs _].
  destruct (avtab_search_exact ex_avtab (AvtabKey 1 2 5 AVTAB_AV) [] ex_avtab_wf) as (_ & node & Hn & Hi).
  split; [rewrite Hs; by vm_compute|]. exists node. split; [done|].
  transitivity (length (node_iter (length (avtab_entries ex_avtab)) node AVTAB_AV)); [done|].
  exact (f_equal length Hi).
Defined.

(** C26: [avtab_insert] adds one rule and keeps the table well-formed.  It
    refuses, with the table unchanged, exactly a rule whose key and specifier
    are already there, except that extended permissions may repeat; a new rule
    is then what [avtab_search] finds.  An allocation failure leaves the table
    unchanged. *)
Theorem avtab_insert_correct h key datum o :
  avtab_wf h →
  let spec := clear_enabled (specified key) in
  let dup := existsb (λ n, key_match key spec (av_key n)) (avtab_entries h) in
  wp (avtab_insert (Some h) key datum) o (λ r o', (o = [] → o' = []) ∧
    ((r = (SEPOL_EEXIST, Some h) ∧ dup = true ∧ truth (N.land spec AVTAB_XPERMS) = false)
     ∨ (r = (SEPOL_ENOMEM, Some h) ∧ o ≠ [])
     ∨ (∃ h', r = (0%Z, Some h') ∧ avtab_wf h' ∧
          (dup = false ∨ truth (N.land spec AVTAB_XPERMS) = true) ∧
          avtab_entries h' ≡ₚ AvtabNode key (stored_datum key datum) false :: avtab_entries h ∧
          (spec ≠ 0 → avtab_search (Some h') key [] = Ret (Some (stored_datum key datum)) [])))).
Proof. intros Hwf spec dup. by apply avtab_insert_spec. Qed.

Lemma avtab_insert_correct_witness :
  ∃ r o', avtab_insert (Some ex_avtab) (AvtabKey 1 2 5 AVTAB_ALLOWED) (AvtabDatum 9 None) [] = Ret r o' ∧
    r.1 = SEPOL_EEXIST.
Proof.
  pose proof (avtab_insert_correct ex_avtab (AvtabKey 1 2 5 AVTAB_ALLOWED) (AvtabDatum 9 None) []
                ex_avtab_wf) as H.
  apply (proj1 (wp_run _ _ _)) in H as (r & o' & Hr & _ & Hc). exists r, o'. split; [done|].
  destruct Hc as [(-> & _)|[[_ []]|(h' & _ & _ & Hd & _)]]; [done|done|].
  destruct Hd as [Hd|Hd]; by vm_compute in Hd.
Defined.

(** [avtab_alloc] for 1 to 2^32-1 rules gives an empty well-formed table:
    a slot for every hash, at most 2^20 slots, and an average chain below four
    unless that cap is reached; or it fails with no table. *)
Theorem avtab_alloc_correct h nrules o :
  0 < nrules → nrules < 2 ^ 32 →
  wp (avtab_alloc h nrules) o (λ r o', (o = [] → o' = []) ∧
    ((r.1 = (-1)%Z ∧ o ≠ [] ∧ av_htable r.2 = None) ∨
     (r.1 = 0%Z ∧ avtab_wf r.2 ∧ avtab_entries r.2 = [] ∧ nslot r.2 ≤ MAX_AVTAB_HASH_BUCKETS ∧
      (nrules < 4 * nslot r.2 ∨ nslot r.2 = MAX_AVTAB_HASH_BUCKETS)))).
Proof. apply avtab_alloc_spec. Qed.

Lemma avtab_alloc_correct_witness :
  ∃ r o', avtab_alloc (Avtab None 0 0 0) 20 [] = Ret r o' ∧ nslot r.2 = 8.
Proof.
  pose proof (avtab_alloc_correct (Avtab None 0 0 0) 20 [] ltac:(done) ltac:(done)) as H.
  apply (proj1 (wp_run _ _ _)) in H as (r & o' & Hr & _). exists r, o'. split; [done|].
  vm_compute in Hr. by injection Hr as <- _.
Defined.

(** Rule tables survive the policy file, in the format since version 20.
    Into any file with room, [avtab_write] of a well-formed table of valid rules
    succeeds and emits the count and the rules; [avtab_read] of these bytes
    builds a well-formed table with the same rules, whatever its size and the
    state it starts from, and stops behind them, or fails with no table, which
    needs a failed allocation. *)
Theorem avtab_write_read p a fp a0 fp' rest junk o :
  let l := avtab_entries a in
  avtab_wf a → l ≠ [] → N.of_nat (length l) < 2 ^ 32 →
  Forall rule_wf l → Forall (λ n, rule_writable p n = true) l → rules_unique [] l →
  POLICYDB_VERSION_AVTAB ≤ policyvers p →
  pf_room fp (N.of_nat (length (avtab_bytes a))) →
  pf_wf fp' → pf_avail fp' = avtab_bytes a ++ rest →
  avtab_write_new p a fp o = Ret (0%Z, pf_put fp (avtab_bytes a)) o ∧
  wp (avtab_read junk a0 fp' (policyvers p)) o (λ r o', (o = [] → o' = [] ∧ r.1.1 = 0%Z) ∧
    ((r.1.1 = 0%Z ∧ avtab_wf r.1.2 ∧ avtab_entries r.1.2 ≡ₚ unmerged <$> l ∧
      pf_wf r.2 ∧ pf_avail r.2 = rest) ∨
     (r.1.1 = (-1)%Z ∧ av_htable r.1.2 = None))).
Proof.
  intros l Hwf Hne Hlen Hrules Hw Huniq Hv Hroom Hfp Hav.
  split; [by apply avtab_write_ok|].
  eapply wp_mono; [apply avtab_read_ok; try done|intros r o' [? [?|(? & ? & _)]]; (split; [done|]); [by left|by right]].
  - eapply Forall_impl; [exact Hw|]. intros n Hn Hx. unfold rule_writable in Hn. rewrite Hx in Hn.
    simpl in Hn. apply andb_true_iff in Hn as [Hn _]. by apply N.leb_le.
  - unfold avtab_bytes in Hav. rewrite (awf_nel _ Hwf), u32_small in Hav by done. exact Hav.
Qed.

Definition ex_params : write_params := WriteParams POLICY_KERN 30 SEPOL_TARGET_SELINUX.

#[global] Instance xperms_wf_dec x : Decision (xperms_wf x).
Proof. unfold xperms_wf. apply _. Defined.
#[global] Instance rule_wf_dec n : Decision (rule_wf n).
Proof.
  unfold rule_wf. repeat apply and_dec; try apply _. destruct (truth _); [|apply _].
  apply and_dec; [apply _|]. destruct (xperms _); apply _.
Defined.
#[global] Instance rules_unique_dec seen l : Decision (rules_unique seen l).
Proof. revert seen. induction l; intros seen; simpl; apply _. Defined.

Lemma avtab_write_read_witness :
  avtab_write_new ex_params ex_avtab (mem_file (replicate 40 0)) [] =
    Ret (0%Z, pf_put (mem_file (replicate 40 0)) (avtab_bytes ex_avtab)) [] ∧
  ∃ r o', avtab_read (λ _, 0) (Avtab None 0 0 0) (mem_file (avtab_bytes ex_avtab)) 30 [] = Ret r o' ∧
    r.1.1 = 0%Z.
Proof.
  destruct (avtab_write_read ex_params ex_avtab (mem_file (replicate 40 0)) (Avtab None 0 0 0)
              (mem_file (avtab_bytes ex_avtab)) [] (λ _, 0) []) as [Hw Hr];
    [apply ex_avtab_wf|done|done|by_decide|by_decide|by_decide|done|by_decide|by_decide|
     by vm_compute|].
  split; [exact Hw|]. apply (proj1 (wp_run _ _ _)) in Hr as (r & o' & Hr & Ho & _).
  exists r, o'. split; [exact Hr|]. by apply Ho.
Defined.

(** An old-format entry whose mask also has extended permission bits. *)
Definition overlong_entry : policy_file :=
  mem_file ([8; 1; 1; 1; N.lor AVTAB_AV AVTAB_XPERMS; 0; 0; 0; 0] ≫= cpu_to_le32).

(** The reader of the format before version 20 checks that an entry does
    not mix access vectors and types but not extended permissions, whose bits
    make it read past the eight words of its buffer. *)
Theorem avtab_read_item_overrun junk :
  ∃ a, avtab_alloc (Avtab None 0 0 0) 1 [] = Ret (0%Z, a) [] ∧
    avtab_read_item avtab_insertf junk overlong_entry 15 a tt [] = UB.
Proof. exists (Avtab (Some [[]; []]) 0 2 1). split; vm_compute; reflexivity. Qed.
