(* ===== verification/Policydb.v ===== *)
(** The policy database in memory: the structures of
    libsepol/include/sepol/policydb/policydb.h and constraint.h that the
    security server, the MLS code and the conditional code read.

    Symbol tables are the hash tables of [Hashtab]; the arrays indexed by
    symbol value are lists of pointers, NULL being [None].  Fields that only the
    module linker and the policy compiler use are left out. *)

From S2P Require Import Prelude Ebitmap Hashtab MlsTypes Avtab.
Local Open Scope N_scope.

(** * Datums *)

Record type_set := TypeSet { ts_types : ebitmap; ts_negset : ebitmap; ts_flags : N }.
Record role_set := RoleSet { rs_roles : ebitmap; rs_flags : N }.

Record perm_datum := PermDatum { perm_value : N }.
Record common_datum := CommonDatum { common_value : N; common_permissions : symtab perm_datum }.

Record constraint_expr := ConstraintExpr {
  expr_type : N; attr : N; op : N; names : ebitmap; type_names : type_set }.

Record constraint_node := ConstraintNode { permissions : N; expr : list constraint_expr }.

Record class_datum := ClassDatum {
  class_value : N;
  comkey : option string;
  comdatum : option common_datum;
  class_permissions : symtab perm_datum;
  constraints : list constraint_node;
  validatetrans : list constraint_node;
  default_user : N;
  default_role : N;
  default_type : N;
  default_range : N }.

Record role_datum := RoleDatum {
  role_value : N; dominates : ebitmap; role_types : type_set; role_cache : ebitmap; role_bounds : N;
  role_flavor : N; role_roles : ebitmap }.

Record role_trans := RoleTrans { rt_role : N; rt_type : N; rt_tclass : N; rt_new_role : N }.
Record role_allow := RoleAllow { ra_role : N; ra_new_role : N }.

Record type_datum := TypeDatum {
  type_value : N; primary : N; flavor : N; td_types : ebitmap; td_flags : N; type_bounds : N }.

Record user_datum := UserDatum {
  user_value : N; user_roles : role_set; user_range : mls_semantic_range;
  user_dfltlevel : mls_semantic_level; exp_range : mls_range; exp_dfltlevel : mls_level;
  user_cache : ebitmap; user_bounds : N }.

Record level_datum := LevelDatum { level : mls_level; level_isalias : N }.
Record cat_datum := CatDatum { cat_value : N; cat_isalias : N }.

Record range_trans := RangeTrans {
  rtr_source_type : N; rtr_target_type : N; rtr_target_class : N; rtr_target_range : mls_range }.

Record cond_bool_datum := CondBoolDatum { bool_value : N; state : Z; bool_flags : N }.

(** A conditional block.  A pointer to a rule of the conditional table is the
    slot and the place in its chain, which no operation on a loaded policy
    changes; the rule lists used while a module is parsed are addresses. *)
Definition avtab_ptr := (nat * nat)%type.

Record cond_expr := CondExpr { cexpr_type : N; cexpr_bool : N }.

Record cond_node := CondNode {
  cur_state : Z;
  cond_exprs : list cond_expr;
  true_list : list avtab_ptr;
  false_list : list avtab_ptr;
  avtrue_list : N;
  avfalse_list : N;
  nbools : N;
  bool_ids : list N;
  expr_pre_comp : N;
  cond_flags : N }.

(** * The database *)

Record policydb := Policydb {
  mls : bool;
  p_commons : symtab common_datum;
  p_classes : symtab class_datum;
  p_roles : symtab role_datum;
  p_types : symtab type_datum;
  p_users : symtab user_datum;
  p_bools : symtab cond_bool_datum;
  p_levels : symtab level_datum;
  p_cats : symtab cat_datum;
  p_class_val_to_name : list (option string);
  p_role_val_to_name : list (option string);
  p_type_val_to_name : list (option string);
  p_user_val_to_name : list (option string);
  p_sens_val_to_name : list (option string);
  p_cat_val_to_name : list (option string);
  class_val_to_struct : list (option class_datum);
  role_val_to_struct : list (option role_datum);
  user_val_to_struct : list (option user_datum);
  type_val_to_struct : list (option type_datum);
  bool_val_to_struct : list (option cond_bool_datum);
  te_avtab : avtab;
  te_cond_avtab : avtab;
  cond_list : list cond_node;
  role_tr : list role_trans;
  role_allows : list role_allow;
  range_tr : list range_trans;
  type_attr_map : list ebitmap;
  attr_type_map : list ebitmap }.

(** Assignments to the fields that the loaded policy changes. *)
Definition set_bools (p : policydb) (b : list (option cond_bool_datum)) (tab : avtab)
    (conds : list cond_node) : policydb := {|
  mls := mls p; p_commons := p_commons p; p_classes := p_classes p; p_roles := p_roles p;
  p_types := p_types p; p_users := p_users p; p_bools := p_bools p; p_levels := p_levels p;
  p_cats := p_cats p; p_class_val_to_name := p_class_val_to_name p;
  p_role_val_to_name := p_role_val_to_name p; p_type_val_to_name := p_type_val_to_name p;
  p_user_val_to_name := p_user_val_to_name p; p_sens_val_to_name := p_sens_val_to_name p;
  p_cat_val_to_name := p_cat_val_to_name p; class_val_to_struct := class_val_to_struct p;
  role_val_to_struct := role_val_to_struct p; user_val_to_struct := user_val_to_struct p;
  type_val_to_struct := type_val_to_struct p; bool_val_to_struct := b; te_avtab := te_avtab p;
  te_cond_avtab := tab; cond_list := conds; role_tr := role_tr p; role_allows := role_allows p;
  range_tr := range_tr p; type_attr_map := type_attr_map p;
  attr_type_map := attr_type_map p |}.

(** [arr[i]] for an array of pointers, read and then dereferenced. *)
Definition at_ptr {A} (arr : list (option A)) (i : N) : M A :=
  x ← deref (arr !! N.to_nat i); deref x.

Lemma at_ptr_ok {A} (arr : list (option A)) i a o :
  arr !! N.to_nat i = Some (Some a) → at_ptr arr i o = Ret a o.
Proof. intros H. unfold at_ptr. rewrite bind_run, H. done. Qed.

Lemma wp_at_ptr {A} (arr : list (option A)) i o Q :
  (∃ a, arr !! N.to_nat i = Some (Some a) ∧ Q a o) → wp (at_ptr arr i) o Q.
Proof. intros (a & Ha & HQ). unfold wp. by rewrite (at_ptr_ok _ _ _ _ Ha). Qed.

#[global] Instance no_alloc_at_ptr {A} (arr : list (option A)) i : NoAlloc (at_ptr arr i).
Proof. unfold at_ptr. apply _. Qed.

(** * A small policy *)

(** A symbol table with a single slot. *)
Definition ex_table {D} (l : list (string * D)) (n : N) : symtab D :=
  Symtab (Some (Hashtab [l] 1 (N.of_nat (length l)) symhash symcmp)) n.

Definition ex_user : user_datum :=
  UserDatum 1 (RoleSet ebitmap_init 0) mls_semantic_range_init mls_semantic_level_init
    (MlsRange (MlsLevel 1 ebitmap_init) (MlsLevel 2 (EBitmap [EBNode 0 31] 64)))
    (MlsLevel 1 ebitmap_init) (EBitmap [EBNode 0 2] 64) 0.

(** Roles with the types they may have, and types. *)
Definition ex_role (v : N) : role_datum :=
  RoleDatum v (EBitmap [EBNode 0 (2 ^ (v - 1))] 64) (TypeSet ebitmap_init ebitmap_init 0)
    (EBitmap [EBNode 0 7] 64) 0 0 ebitmap_init.
Definition ex_type (v : N) : type_datum := TypeDatum v 1 0 ebitmap_init 0 0.

(** A class with a constraint on its permission 0: equal types, or equal users. *)
Definition ex_class : class_datum :=
  ClassDatum 1 None None (ex_table [("perm", PermDatum 1)]%string 1)
    [ConstraintNode 1 [ConstraintExpr 4 4 1 ebitmap_init (TypeSet ebitmap_init ebitmap_init 0);
                       ConstraintExpr 4 1 1 ebitmap_init (TypeSet ebitmap_init ebitmap_init 0);
                       ConstraintExpr 3 0 0 ebitmap_init (TypeSet ebitmap_init ebitmap_init 0)]]
    [ConstraintNode 0 [ConstraintExpr 4 1 1 ebitmap_init (TypeSet ebitmap_init ebitmap_init 0)]] 0 0 0 0.

(** One rule: a_t may do permissions 0 and 1 on b_t. *)
Definition ex_te_avtab : avtab :=
  Avtab (Some [[AvtabNode (AvtabKey 1 2 1 AVTAB_ALLOWED) (AvtabDatum 3 None) false]]) 1 1 0.

Lemma ex_te_avtab_wf : avtab_wf ex_te_avtab.
Proof.
  split; [|done|done]. eexists. split; [done|]. split; [done|]. intros i c Hi.
  destruct i as [|i]; [|done]. injection Hi as <-. split; [repeat constructor|]. repeat constructor; by vm_compute.
Qed.

Definition ex_policy : policydb := {|
  mls := true;
  p_commons := ex_table [] 0; p_classes := ex_table [("class", ex_class)]%string 1;
  p_roles := ex_table [("object_r", ex_role 1); ("role_r", ex_role 2)]%string 2;
  p_types := ex_table [("a_t", ex_type 1); ("b_t", ex_type 2); ("c_t", ex_type 3)]%string 3;
  p_users := ex_table [("user_u", ex_user)]%string 1; p_bools := ex_table [] 0;
  p_levels := ex_table [("s0", LevelDatum (MlsLevel 1 (EBitmap [EBNode 0 7] 64)) 0);
                        ("s1", LevelDatum (MlsLevel 2 (EBitmap [EBNode 0 31] 64)) 0)]%string 2;
  p_cats := ex_table [("c0", CatDatum 1 0); ("c1", CatDatum 2 0); ("c2", CatDatum 3 0);
                      ("c3", CatDatum 4 0); ("c4", CatDatum 5 0)]%string 5;
  p_class_val_to_name := [Some "class"%string];
  p_role_val_to_name := [Some "object_r"; Some "role_r"]%string;
  p_type_val_to_name := [Some "a_t"; Some "b_t"; Some "c_t"]%string;
  p_user_val_to_name := [Some "user_u"%string];
  p_sens_val_to_name := [Some "s0"; Some "s1"]%string;
  p_cat_val_to_name := [Some "c0"; Some "c1"; Some "c2"; Some "c3"; Some "c4"]%string;
  class_val_to_struct := [Some ex_class]; role_val_to_struct := [Some (ex_role 1); Some (ex_role 2)];
  user_val_to_struct := [Some ex_user];
  type_val_to_struct := [Some (ex_type 1); Some (ex_type 2); Some (ex_type 3)]; bool_val_to_struct := [];
  te_avtab := ex_te_avtab; te_cond_avtab := ex_avtab; cond_list := [];
  role_tr := []; role_allows := []; range_tr := []; 
  type_attr_map := [EBitmap [EBNode 0 1] 64; EBitmap [EBNode 0 2] 64; EBitmap [EBNode 0 4] 64];
  attr_type_map := [EBitmap [EBNode 0 1] 64; EBitmap [EBNode 0 2] 64; EBitmap [EBNode 0 4] 64] |}.
