(* ===== verification/Mls.v ===== *)
(** Multi-level security: libsepol/src/mls.c.

    Printing and parsing of MLS fields, validity of a context's range,
    conversion between policies and the range of a new context.  Text is a
    Rocq string; a buffer that a function fills is the string it leaves there,
    and [mls_to_string], which trusts the length computed beforehand, is
    undefined when the text does not have exactly that length. *)

From Stdlib Require Import Ascii.
From stdpp Require Import sorting.
From S2P Require Import Prelude Ebitmap Hashtab MlsTypes Avtab Policydb.
Local Open Scope N_scope.

Definition STATUS_SUCCESS : Z := 0.
Definition STATUS_ERR : Z := -1.
Definition OBJECT_R_VAL : N := 1.
Definition SECCLASS_PROCESS : N := 2.

Definition strlen (s : string) : N := N.of_nat (String.length s).

(** * Printing *)

(** One bit of the category loop of [mls_compute_context_len]. *)
Definition len_step (p : policydb) (i : N) (bit : bool) (st : N * N) : M (unit + (N * N)) :=
  let '(len, range) := st in
  if bit then
    if truth range then mret (inr (len, range + 1)) else
    s ← at_ptr (p_cat_val_to_name p) i;
    mret (inr (u32 (len + strlen s + 1), range + 1))
  else if 1 <? range then
    s ← at_ptr (p_cat_val_to_name p) (dec32 i);
    mret (inr (u32 (len + strlen s + 1), 0))
  else mret (inr (len, 0)).

(** One round of the loop over the two levels.  The category loop ends with
    its counter at the length of the bitmap. *)
Definition level_len (p : policydb) (l : mls_level) (len : N) : M N :=
  s ← at_ptr (p_sens_val_to_name p) (dec32 (sens l));
  let len := u32 (len + strlen s) in
  r ← ebitmap_for_each_bit (cat l) (len, 0) (len_step p);
  match r with
  | inl _ => ub
  | inr (len, range) =>
      if 1 <? range then
        s ← at_ptr (p_cat_val_to_name p) (dec32 (ebitmap_length (cat l)));
        mret (u32 (len + strlen s + 1))
      else mret len
  end.

Definition mls_compute_context_len (p : policydb) (c : context_struct) : M N :=
  if negb (mls p) then mret 0 else
  len ← level_len p (level0 (range c)) 1;
  if mls_level_eq (level0 (range c)) (level1 (range c)) then mret len else
  level_len p (level1 (range c)) (u32 (len + 1)).

Definition append_char (s : string) (ch : Ascii.ascii) : string := (s +:+ String ch EmptyString)%string.

(** One bit of the category loop of [mls_sid_to_context]: the text so far,
    [range] and [wrote_sep]. *)
Definition print_step (p : policydb) (i : N) (bit : bool) (st : string * N * bool)
    : M (unit + (string * N * bool)) :=
  let '(out, range, wrote_sep) := st in
  if bit then
    if truth range then mret (inr (out, range + 1, wrote_sep)) else
    let out := append_char out (if wrote_sep then "," else ":")%char in
    s ← at_ptr (p_cat_val_to_name p) i;
    mret (inr ((out +:+ s)%string, range + 1, true))
  else if 1 <? range then
    let out := append_char out (if 2 <? range then "."%char else ","%char) in
    s ← at_ptr (p_cat_val_to_name p) (dec32 i);
    mret (inr ((out +:+ s)%string, 0, wrote_sep))
  else mret (inr (out, 0, wrote_sep)).

(** After the loop: the last category may be the end of a range. *)
Definition print_end (p : policydb) (l : mls_level) (st : string * N * bool) : M string :=
  let '(out, range, _) := st in
  if 1 <? range then
    let out := append_char out (if 2 <? range then "."%char else ","%char) in
    s ← at_ptr (p_cat_val_to_name p) (dec32 (ebitmap_length (cat l)));
    mret (out +:+ s)%string
  else mret out.

Definition print_level (p : policydb) (l : mls_level) (out : string) : M string :=
  s ← at_ptr (p_sens_val_to_name p) (dec32 (sens l));
  let out := (out +:+ s)%string in
  r ← ebitmap_for_each_bit (cat l) (out, 0, false) (print_step p);
  match r with
  | inl _ => ub
  | inr st => print_end p l st
  end.

(** The text written at [*scontext]. *)
Definition mls_sid_to_context (p : policydb) (c : context_struct) : M string :=
  if negb (mls p) then mret EmptyString else
  out ← print_level p (level0 (range c)) ":";
  if mls_level_eq (level0 (range c)) (level1 (range c)) then mret out else
  print_level p (level1 (range c)) (append_char out "-"%char).

(** The first buffer takes [len] bytes with the terminator; the copy starts
    behind its first character. *)
Definition mls_to_string (p : policydb) (c : context_struct) : M (Z * option string) :=
  n ← mls_compute_context_len p c;
  b ← malloc;
  if negb b then mret (STATUS_ERR, None) else
  b ← malloc;
  if negb b then mret (STATUS_ERR, None) else
  s ← mls_sid_to_context p c;
  if negb (strlen s =? n) then ub else
  match s with
  | EmptyString => ub
  | String _ s' => mret (STATUS_SUCCESS, Some s')
  end.

(** * Validity *)

(** One category of a level, against those of its sensitivity. *)
Definition check_cat (nprim_cats : N) (allowed : ebitmap) (i : N) (bit : bool) (st : unit)
    : M (unit + unit) :=
  if bit then
    if nprim_cats <? i then mret (inl tt) else
    if negb (ebitmap_get_bit allowed i) then mret (inl tt) else mret (inr st)
  else mret (inr st).

Definition valid_level (p : policydb) (l : mls_level) : M bool :=
  if (sens l =? 0) || (nprim (p_levels p) <? sens l) then mret false else
  name ← at_ptr (p_sens_val_to_name p) (dec32 (sens l));
  d ← hashtab_search (table (p_levels p)) name;
  match d with
  | None => mret false
  | Some levdatum =>
      r ← ebitmap_for_each_bit (cat l) tt (check_cat (nprim (p_cats p)) (cat (level levdatum)));
      mret match r with inl _ => false | inr _ => true end
  end.

Definition mls_context_isvalid (p : policydb) (c : context_struct) : M bool :=
  if negb (mls p) then mret true else
  if negb (mls_level_dom (level1 (range c)) (level0 (range c))) then mret false else
  ok ← valid_level p (level0 (range c));
  if negb ok then mret false else
  ok ← valid_level p (level1 (range c));
  if negb ok then mret false else
  if role c =? OBJECT_R_VAL then mret true else
  if (user c =? 0) || (nprim (p_users p) <? user c) then mret false else
  usrdatum ← at_ptr (user_val_to_struct p) (dec32 (user c));
  mret (mls_range_contains (exp_range usrdatum) (range c)).

(** * Parsing *)

(** The scan up to a delimiter: the token, and the delimiter with the
    text behind it unless the scan met the end. *)
Fixpoint break_at (stop : Ascii.ascii → bool) (s : string) : string * option (Ascii.ascii * string) :=
  match s with
  | EmptyString => (EmptyString, None)
  | String ch s' =>
      if stop ch then (EmptyString, Some (ch, s'))
      else let '(tok, d) := break_at stop s' in (String ch tok, d)
  end.

Definition char_in (l : list Ascii.ascii) (ch : Ascii.ascii) : bool :=
  existsb (λ c, bool_decide (c = ch)) l.

(** One category or category range of a level. *)
Definition parse_category (p : policydb) (tok : string) (cats : ebitmap) : M (bool * ebitmap) :=
  let '(name, rng) := break_at (char_in ["."%char]) tok in
  d ← hashtab_search (table (p_cats p)) name;
  match d with
  | None => mret (false, cats)
  | Some catdatum =>
      '(rc, cats) ← ebitmap_set_bit cats (dec32 (cat_value catdatum)) true;
      if negb (rc =? 0)%Z then mret (false, cats) else
      match rng with
      | None => mret (true, cats)
      | Some (_, rngname) =>
          d ← hashtab_search (table (p_cats p)) rngname;
          match d with
          | None => mret (false, cats)
          | Some rngdatum =>
              if cat_value rngdatum <=? cat_value catdatum then mret (false, cats) else
              r ← for_up
                    (λ i cats, '(rc, cats) ← ebitmap_set_bit cats i true;
                               if negb (rc =? 0)%Z then mret (inl cats) else mret (inr cats))
                    (N.to_nat (cat_value rngdatum - cat_value catdatum)) (cat_value catdatum) cats;
              mret match r with inl cats => (false, cats) | inr cats => (true, cats) end
          end
      end
  end.

(** The loop over the categories of a level; the result is the delimiter that
    ended it.  Every round consumes a character or ends, so the length of the
    text is enough fuel. *)
Fixpoint parse_categories (fuel : nat) (p : policydb) (s : string) (cats : ebitmap)
    : M (option (option (Ascii.ascii * string)) * ebitmap) :=
  match fuel with
  | O => ub
  | S fuel' =>
      let '(tok, d) := break_at (char_in [","%char; "-"%char]) s in
      '(ok, cats) ← parse_category p tok cats;
      if negb ok then mret (None, cats) else
      match d with
      | Some (ch, rest) =>
          if bool_decide (ch = ","%char) then parse_categories fuel' p rest cats
          else mret (Some d, cats)
      | None => mret (Some d, cats)
      end
  end.

(** One level: the sensitivity [tok] and what follows it. *)
Definition parse_level (p : policydb) (tok : string) (d : option (Ascii.ascii * string))
    (l : mls_level) : M (option (option (Ascii.ascii * string)) * mls_level) :=
  r ← hashtab_search (table (p_levels p)) tok;
  match r with
  | None => mret (None, l)
  | Some levdatum =>
      let s := sens (level levdatum) in
      match d with
      | Some (ch, rest) =>
          if bool_decide (ch = ":"%char) then
            '(r, cats) ← parse_categories (S (String.length rest)) p rest (cat l);
            mret (r, MlsLevel s cats)
          else mret (Some d, MlsLevel s (cat l))
      | None => mret (Some d, MlsLevel s (cat l))
      end
  end.

Definition set_range (c : context_struct) (r : mls_range) : context_struct :=
  Context (user c) (role c) (type c) r.

Definition mls_context_to_sid (p : policydb) (oldc : bool) (scontext : string) (c : context_struct)
    : M (Z * context_struct) :=
  if negb (mls p) then mret (0%Z, c) else
  if negb oldc then mret (STATUS_ERR, c) else
  let '(tok, d) := break_at (char_in [":"%char; "-"%char]) scontext in
  '(r, l0) ← parse_level p tok d (level0 (range c));
  match r with
  | None => mret (STATUS_ERR, set_range c (MlsRange l0 (level1 (range c))))
  | Some (Some (ch, rest)) =>
      if bool_decide (ch = "-"%char) then
        let '(tok, d) := break_at (char_in [":"%char]) rest in
        '(r, l1) ← parse_level p tok d (level1 (range c));
        match r with
        | None => mret (STATUS_ERR, set_range c (MlsRange l0 l1))
        | Some _ => mret (STATUS_SUCCESS, set_range c (MlsRange l0 l1))
        end
      else
        '(rc, l1) ← mls_level_cpy l0;
        mret (if (rc <? 0)%Z then STATUS_ERR else STATUS_SUCCESS, set_range c (MlsRange l0 l1))
  | Some None =>
      '(rc, l1) ← mls_level_cpy l0;
      mret (if (rc <? 0)%Z then STATUS_ERR else STATUS_SUCCESS, set_range c (MlsRange l0 l1))
  end.

Definition mls_from_string (p : policydb) (str : string) (c : context_struct)
    : M (Z * context_struct) :=
  b ← malloc;
  if negb b then mret (STATUS_ERR, c) else
  '(rc, c) ← mls_context_to_sid p true str c;
  mret (if (rc <? 0)%Z then STATUS_ERR else STATUS_SUCCESS, c).

(** * Ranges of new contexts *)

(** The loop shared by [mls_copy_context], [mls_scopy_context] and
    [mls_range_set]: copy two levels into a context, stopping at a failure. *)
Definition copy_levels (dst : context_struct) (l0 l1 : mls_level) : M (Z * context_struct) :=
  '(rc, b) ← ebitmap_cpy (cat l0);
  let dst := set_range dst (MlsRange (MlsLevel (sens l0) b) (level1 (range dst))) in
  if negb (rc =? 0)%Z then mret (rc, dst) else
  '(rc, b) ← ebitmap_cpy (cat l1);
  mret (rc, set_range dst (MlsRange (level0 (range dst)) (MlsLevel (sens l1) b))).

Definition mls_copy_context (dst src : context_struct) : M (Z * context_struct) :=
  copy_levels dst (level0 (range src)) (level1 (range src)).

Definition mls_scopy_context (dst src : context_struct) : M (Z * context_struct) :=
  copy_levels dst (level0 (range src)) (level0 (range src)).

Definition mls_range_set (dst : context_struct) (r : mls_range) : M (Z * context_struct) :=
  copy_levels dst (level0 r) (level1 r).

Definition mls_compute_sid (p : policydb) (scontext tcontext : context_struct) (tclass spec : N)
    (newcontext : context_struct) : M (Z * context_struct) :=
  if negb (mls p) then mret (0%Z, newcontext) else
  let change :=
    if tclass =? SECCLASS_PROCESS then mls_copy_context newcontext scontext
    else mls_scopy_context newcontext scontext in
  if spec =? AVTAB_TRANSITION then
    match find (λ rtr, (rtr_source_type rtr =? type scontext) && (rtr_target_type rtr =? type tcontext) &&
                       (rtr_target_class rtr =? tclass)) (range_tr p) with
    | Some rtr => mls_range_set newcontext (rtr_target_range rtr)
    | None => change
    end
  else if spec =? AVTAB_CHANGE then change
  else if spec =? AVTAB_MEMBER then
    if negb (type newcontext =? type tcontext) then mls_scopy_context newcontext scontext
    else mls_copy_context newcontext tcontext
  else mret ((- EINVAL)%Z, newcontext).

(** The levels are assigned as structures, so [usercon] shares their
    categories with [fromcon] and [user]. *)
Definition mls_setup_user_range (fromcon : context_struct) (usr : user_datum) (usercon : context_struct)
    (ismls : bool) : Z * context_struct :=
  if negb ismls then (0%Z, usercon) else
  let fromcon_sen := level0 (range fromcon) in
  let fromcon_clr := level1 (range fromcon) in
  let user_low := level0 (exp_range usr) in
  let user_clr := level1 (exp_range usr) in
  let user_def := exp_dfltlevel usr in
  match
    if mls_level_between user_def fromcon_sen fromcon_clr then Some user_def
    else if mls_level_between fromcon_sen user_def user_clr then Some fromcon_sen
    else if mls_level_between fromcon_clr user_low user_def then Some user_low
    else None
  with
  | None => ((- EINVAL)%Z, usercon)
  | Some sen =>
      let usercon := set_range usercon (MlsRange sen (level1 (range usercon))) in
      if mls_level_dom user_clr fromcon_clr then
        (0%Z, set_range usercon (MlsRange sen fromcon_clr))
      else if mls_level_dom fromcon_clr user_clr then
        (0%Z, set_range usercon (MlsRange sen user_clr))
      else ((- EINVAL)%Z, usercon)
  end.

(** * Conversion to another policy *)

Definition convert_cat (oldp newp : policydb) (i : N) (bit : bool) (bitmap : ebitmap)
    : M (Z + ebitmap) :=
  if bit then
    name ← at_ptr (p_cat_val_to_name oldp) i;
    d ← hashtab_search (table (p_cats newp)) name;
    match d with
    | None => mret (inl (- EINVAL)%Z)
    | Some catdatum =>
        '(rc, bitmap) ← ebitmap_set_bit bitmap (dec32 (cat_value catdatum)) true;
        if negb (rc =? 0)%Z then mret (inl rc) else mret (inr bitmap)
    end
  else mret (inr bitmap).

(** One level: an error code with what became of the level, or the level. *)
Definition convert_level (oldp newp : policydb) (l : mls_level) : M (Z * mls_level) :=
  name ← at_ptr (p_sens_val_to_name oldp) (dec32 (sens l));
  d ← hashtab_search (table (p_levels newp)) name;
  match d with
  | None => mret ((- EINVAL)%Z, l)
  | Some levdatum =>
      let l := MlsLevel (sens (level levdatum)) (cat l) in
      r ← ebitmap_for_each_bit (cat l) ebitmap_init (convert_cat oldp newp);
      mret match r with
           | inl rc => (rc, l)
           | inr bitmap => (0%Z, MlsLevel (sens l) bitmap)
           end
  end.

Definition mls_convert_context (oldp newp : policydb) (c : context_struct) : M (Z * context_struct) :=
  if negb (mls oldp) then mret (0%Z, c) else
  '(rc, l0) ← convert_level oldp newp (level0 (range c));
  let c := set_range c (MlsRange l0 (level1 (range c))) in
  if negb (rc =? 0)%Z then mret (rc, c) else
  '(rc, l1) ← convert_level oldp newp (level1 (range c));
  mret (rc, set_range c (MlsRange l0 l1)).

(** * Entry points *)

(** The error path destroys both contexts; one that was allocated while the
    other was not has not been initialised then. *)
Definition sepol_mls_contains (p : policydb) (mls1 mls2 : string) : M (Z * option bool) :=
  b1 ← malloc;
  b2 ← malloc;
  if negb b1 && negb b2 then mret (STATUS_ERR, None) else
  if negb b1 || negb b2 then ub else
  '(rc, ctx1) ← mls_from_string p mls1 context_init;
  if (rc <? 0)%Z then mret (STATUS_ERR, None) else
  '(rc, ctx2) ← mls_from_string p mls2 context_init;
  if (rc <? 0)%Z then mret (STATUS_ERR, None) else
  mret (STATUS_SUCCESS, Some (mls_range_contains (range ctx1) (range ctx2))).

Definition sepol_mls_check (p : policydb) (m : string) : M Z :=
  b ← malloc;
  if negb b then mret STATUS_ERR else
  '(rc, _) ← mls_from_string p m context_init;
  mret rc.

(** * Semantic levels *)

(** The categories are freed; the list head is not cleared. *)
Fixpoint copy_sem_cats (l : list mls_semantic_cat) : M (option (list mls_semantic_cat)) :=
  match l with
  | [] => mret (Some [])
  | c :: l' =>
      b ← malloc;
      if negb b then mret None else
      r ← copy_sem_cats l';
      mret (cons (SemCat (low c) (high c)) <$> r)
  end.

(** [None] is a failed copy, whose destination has been destroyed. *)
Definition mls_semantic_level_cpy (src : mls_semantic_level) : M (Z * option mls_semantic_level) :=
  r ← copy_sem_cats (sem_cat src);
  mret match r with
       | None => ((-1)%Z, None)
       | Some l => (0%Z, Some (SemLevel (sem_sens src) l))
       end.

Definition mls_semantic_range_cpy (src : mls_semantic_range) : M (Z * option mls_semantic_range) :=
  '(rc, l0) ← mls_semantic_level_cpy (sem_level0 src);
  if (rc <? 0)%Z then mret ((-1)%Z, None) else
  '(rc, l1) ← mls_semantic_level_cpy (sem_level1 src);
  if (rc <? 0)%Z then mret ((-1)%Z, None) else
  mret (match l0, l1 with
        | Some a, Some b => (0%Z, Some (SemRange a b))
        | _, _ => ((-1)%Z, None)
        end).

(** * The printed text has the computed length *)

(** The length loop follows the print loop. *)
Lemma for_each_bit_loop_sim {R St St'} (f : St → St') high (body : N → bool → St → M (R + St))
    (body' : N → bool → St' → M (R + St')) fuel n bit s o :
  (∀ i b s o, body' i b (f s) o =
    match body i b s o with
    | Ret (inl x) o' => Ret (inl x) o'
    | Ret (inr s') o' => Ret (inr (f s')) o'
    | UB => UB
    end) →
  for_each_bit_loop high body' fuel n bit (f s) o =
    match for_each_bit_loop high body fuel n bit s o with
    | Ret (inl x) o' => Ret (inl x) o'
    | Ret (inr s') o' => Ret (inr (f s')) o'
    | UB => UB
    end.
Proof.
  intros Hb. revert n bit s o. induction fuel as [|fuel IH]; intros n bit s o; cbn [for_each_bit_loop].
  { by destruct (high <=? bit). }
  destruct (high <=? bit); [done|]. destruct n as [|nd next]; [done|].
  destruct (_ && _); [|done]. rewrite !bind_run, Hb.
  destruct (body bit _ s o) as [[x|s'] o'|]; [done| |done].
  destruct next as [|nd' next]; [apply IH|]. by destruct (bit =? _); apply IH.
Qed.

Definition len_of (st : string * N * bool) : N * N := (u32 (strlen st.1.1), st.1.2).

Lemma strlen_app a b : strlen (a +:+ b)%string = strlen a + strlen b.
Proof. unfold strlen. rewrite string_length_app. lia. Qed.

Lemma u32_add_l x y : u32 (u32 x + y) = u32 (x + y).
Proof. apply N.Div0.add_mod_idemp_l. Qed.

Lemma strlen_item out ch s :
  u32 (u32 (strlen out) + strlen s + 1) = u32 (strlen (append_char out ch +:+ s)%string).
Proof.
  unfold append_char. rewrite !strlen_app. change (strlen (String ch "")) with 1.
  rewrite <- N.add_assoc, u32_add_l. f_equal. lia.
Qed.

Lemma len_step_sim p i b st o :
  len_step p i b (len_of st) o =
    match print_step p i b st o with
    | Ret (inl x) o' => Ret (inl x) o'
    | Ret (inr s') o' => Ret (inr (len_of s')) o'
    | UB => UB
    end.
Proof.
  destruct st as [[out range] w]. unfold len_step, print_step, len_of. cbn [fst snd].
  destruct b; [destruct (truth range)|destruct (1 <? range)]; try done; rewrite !bind_run;
    (destruct (at_ptr _ _ o) as [s o'|]; [|done]); unfold mret, M_ret; cbn [fst snd];
    by rewrite <- (strlen_item out _ s).
Qed.

Lemma level_len_sim p l out o :
  level_len p l (u32 (strlen out)) o =
    match print_level p l out o with Ret s o' => Ret (u32 (strlen s)) o' | UB => UB end.
Proof.
  unfold level_len, print_level. rewrite !bind_run.
  destruct (at_ptr _ _ o) as [s o1|]; [|done]. rewrite !bind_run, u32_add_l, <- strlen_app.
  unfold ebitmap_for_each_bit.
  change (u32 (strlen (out +:+ s)), 0) with (len_of ((out +:+ s)%string, 0, false)).
  rewrite (for_each_bit_loop_sim len_of _ (print_step p)) by apply len_step_sim.
  destruct (for_each_bit_loop _ _ _ _ _ _ o1) as [[x|[[out' range] w]] o2|]; [done| |done].
  unfold print_end. cbn [len_of fst snd]. destruct (1 <? range); [|done]. rewrite !bind_run.
  destruct (at_ptr _ _ o2) as [s' o3|]; [|done]. unfold mret, M_ret. by rewrite <- (strlen_item out').
Qed.

Lemma for_each_bit_loop_no_alloc {R St} high (body : N → bool → St → M (R + St)) fuel n bit s :
  (∀ i b s, NoAlloc (body i b s)) → NoAlloc (for_each_bit_loop high body fuel n bit s).
Proof.
  intros Hb. revert n bit s. induction fuel as [|fuel IH]; intros n bit s; cbn [for_each_bit_loop].
  { apply _. }
  apply no_alloc_if; [apply _|]. destruct n as [|nd next]; [apply _|]. apply no_alloc_if; [|apply _].
  apply no_alloc_bind; [apply _|]. intros [x|s']; [apply _|]. destruct next; apply _.
Qed.

#[local] Instance print_step_no_alloc p i b st : NoAlloc (print_step p i b st).
Proof. destruct st as [[out r] w]. apply _. Qed.

#[local] Instance print_level_no_alloc p l out : NoAlloc (print_level p l out).
Proof.
  apply no_alloc_bind; [apply _|]. intros s. apply no_alloc_bind.
  - by apply for_each_bit_loop_no_alloc, _.
  - intros [x|[[out' r] w]]; apply _.
Qed.

#[global] Instance sid_to_context_no_alloc p c : NoAlloc (mls_sid_to_context p c).
Proof. apply _. Qed.

(** For every context, valid or not, the length function returns the length
    of the text and is undefined where printing is. *)
Lemma context_len_sim p c o :
  mls_compute_context_len p c o =
    match mls_sid_to_context p c o with Ret s o' => Ret (u32 (strlen s)) o' | UB => UB end.
Proof.
  unfold mls_compute_context_len, mls_sid_to_context. destruct (mls p); [|done]. cbn [negb].
  rewrite !bind_run. change 1 with (u32 (strlen ":")) at 1. rewrite level_len_sim.
  destruct (print_level p _ ":" o) as [out o1|]; [|done]. destruct (mls_level_eq _ _); [done|].
  rewrite u32_add_l. change 1 with (strlen (String "-"%char "")). rewrite <- strlen_app.
  apply level_len_sim.
Qed.

(** * Printing and parsing are inverse *)

(** ** Text without delimiters *)

Fixpoint clean (stop : ascii → bool) (s : string) : bool :=
  match s with EmptyString => true | String ch s' => negb (stop ch) && clean stop s' end.

Lemma clean_app stop a b : clean stop (a +:+ b)%string = clean stop a && clean stop b.
Proof.
  induction a as [|ch a IH]; [done|]. change (String ch a +:+ b)%string with (String ch (a +:+ b)).
  cbn [clean]. rewrite IH. btauto.
Qed.

Lemma break_at_end stop tok : clean stop tok = true → break_at stop tok = (tok, None).
Proof.
  induction tok as [|ch tok IH]; [done|]. cbn [clean break_at]. intros [H1 H2]%andb_true_iff.
  apply negb_true_iff in H1. by rewrite H1, IH.
Qed.

Lemma break_at_delim stop tok ch rest :
  clean stop tok = true → stop ch = true →
  break_at stop (tok +:+ String ch rest)%string = (tok, Some (ch, rest)).
Proof.
  intros Hc Hs. induction tok as [|c tok IH]; cbn [clean] in Hc.
  { change ("" +:+ String ch rest)%string with (String ch rest). cbn [break_at]. by rewrite Hs. }
  apply andb_true_iff in Hc as [H1 H2]. apply negb_true_iff in H1.
  change (String c tok +:+ String ch rest)%string with (String c (tok +:+ String ch rest)).
  cbn [break_at]. by rewrite H1, IH.
Qed.

(** ** Category segments: [ca] or [ca.cb] *)

Definition cat_name (p : policydb) (i : N) : string :=
  match p_cat_val_to_name p !! N.to_nat i with Some (Some s) => s | _ => EmptyString end.

Definition seg := (N * option N)%type.

Definition seg_str (p : policydb) (s : seg) : string :=
  match s.2 with
  | None => cat_name p s.1
  | Some b => (cat_name p s.1 +:+ String "."%char (cat_name p b))%string
  end.

Fixpoint seg_tail (p : policydb) (l : list seg) : string :=
  match l with [] => EmptyString | s :: l' => String ","%char (seg_str p s +:+ seg_tail p l')%string end.

Definition seg_text (p : policydb) (l : list seg) : string :=
  match l with [] => EmptyString | s :: l' => String ":"%char (seg_str p s +:+ seg_tail p l')%string end.

Definition seg_bit (s : seg) (j : N) : bool :=
  match s.2 with None => j =? s.1 | Some b => (s.1 <=? j) && (j <=? b) end.

Definition segs_bit (l : list seg) (j : N) : bool := existsb (λ s, seg_bit s j) l.

Definition delims : list ascii := [","%char; "-"%char; "."%char].

(** A category the policy names, under that name only. *)
Definition cat_named (p : policydb) (i : N) : Prop :=
  p_cat_val_to_name p !! N.to_nat i = Some (Some (cat_name p i)) ∧
  clean (char_in delims) (cat_name p i) = true ∧ i < 2 ^ 32 - 64 ∧
  ∃ h d, table (p_cats p) = Some h ∧ ht_struct h ∧ ht_map h !! cat_name p i = Some d ∧ cat_value d = i + 1.

Definition seg_ok (p : policydb) (s : seg) : Prop :=
  cat_named p s.1 ∧ match s.2 with None => True | Some b => cat_named p b ∧ s.1 < b end.

Lemma clean_sub stop stop' s :
  (∀ ch, stop ch = true → stop' ch = true) → clean stop' s = true → clean stop s = true.
Proof.
  intros Hsub. induction s as [|ch s IH]; [done|]. cbn [clean]. intros [H1 H2]%andb_true_iff.
  rewrite IH by done. rewrite andb_true_r. apply negb_true_iff. apply negb_true_iff in H1.
  destruct (stop ch) eqn:E; [|done]. apply Hsub in E. congruence.
Qed.

Lemma char_in_true l ch : char_in l ch = true ↔ ch ∈ l.
Proof.
  unfold char_in. rewrite existsb_exists. split.
  - intros (c & Hc & Heq). apply bool_decide_eq_true in Heq as ->. by apply list_elem_of_In.
  - intros H. exists ch. split; [by apply list_elem_of_In|]. by apply bool_decide_eq_true.
Qed.

Lemma cat_name_clean p i l : cat_named p i → l ⊆ delims → clean (char_in l) (cat_name p i) = true.
Proof.
  intros (_ & Hc & _) Hl. eapply clean_sub; [|exact Hc]. intros ch. rewrite !char_in_true. apply Hl.
Qed.

Lemma seg_str_clean p s :
  seg_ok p s → clean (char_in [","%char; "-"%char]) (seg_str p s) = true.
Proof.
  intros [Ha Hb]. unfold seg_str. destruct (s.2) as [b|].
  - rewrite clean_app. cbn [clean]. rewrite !cat_name_clean; [done|apply Hb|set_solver|done|set_solver].
  - apply cat_name_clean; [done|set_solver].
Qed.

Lemma search_cat p i o :
  cat_named p i →
  ∃ d, hashtab_search (table (p_cats p)) (cat_name p i) o = Ret (Some d) o ∧ cat_value d = i + 1.
Proof.
  intros (_ & _ & _ & h & d & Ht & Hs & Hm & Hd). exists d. rewrite Ht, search_spec by done. by rewrite Hm.
Qed.

(** Setting one bit of a bitmap under construction. *)
Lemma set_one_spec e i o :
  ebitmap_wf e → i < 2 ^ 32 - 64 →
  wp (ebitmap_set_bit e i true) o (λ r o', (o = [] → o' = [] ∧ r.1 = 0%Z) ∧ 
    (r.1 = 0%Z → ebitmap_wf r.2 ∧ ∀ j, ebitmap_bit r.2 j = ebitmap_bit e j || (j =? i))).
Proof.
  intros Hwf Hi. change (2 ^ 32 - 64) with 4294967232 in Hi.
  eapply wp_mono; [apply set_bit_spec; [done|change (2 ^ 32) with 4294967296; lia]|].
  intros [rc e'] o' [Ho Hr]; simpl in *. change (2 ^ 32 - 64) with 4294967232 in Hr.
  destruct Hr as [(-> & _ & Hwf' & Hb)|[[_ Hbad]|[[= -> ->] _]]]; [|lia|naive_solver].
  split; [naive_solver|]. intros _. split; [done|]. intros j. rewrite Hb.
  destruct (j =? i); [by rewrite orb_true_r|by rewrite orb_false_r].
Qed.

(** ** Parsing a segment *)

Definition parsed (cats : ebitmap) (bits : N → bool) (o : oracle) (r : bool * ebitmap) (o' : oracle) : Prop :=
  (o = [] → o' = [] ∧ r.1 = true) ∧
  (r.1 = true → ebitmap_wf r.2 ∧ ∀ j, ebitmap_bit r.2 j = ebitmap_bit cats j || bits j).

Lemma parse_range_spec cats a b o :
  ebitmap_wf cats → a < b → b < 2 ^ 32 - 64 →
  wp (r ← for_up
        (λ i cats, '(rc, cats) ← ebitmap_set_bit cats i true;
                   if negb (rc =? 0)%Z then mret (inl cats) else mret (inr cats))
        (N.to_nat (b + 1 - (a + 1))) (a + 1) cats;
      mret match r with inl cats => (false, cats) | inr cats => (true, cats) end) o
     (parsed cats (λ j, (a <? j) && (j <=? b)) o).
Proof.
  intros Hwf Hab Hb. change (2 ^ 32 - 64) with 4294967232 in Hb. wp_step.
  apply wp_for_up with (I := λ i c o', (o = [] → o' = []) ∧ ebitmap_wf c ∧
    ∀ j, ebitmap_bit c j = ebitmap_bit cats j || ((a <? j) && (j <? i))).
  - split_and!; try done. intros j. destruct ((a <? j) && (j <? a + 1)) eqn:E; [|by rewrite orb_false_r].
    reflect_bools. lia.
  - intros i c o1 Hi (Ho & Hc & Hbits). wp_step.
    eapply wp_mono; [apply set_one_spec; [done|change (2 ^ 32 - 64) with 4294967232; lia]|].
    intros [rc c'] o2 [Ho2 Hr]; simpl in Ho2, Hr. destruct (rc =? 0)%Z eqn:E; reflect_bools; cbn [negb]; apply wp_ret.
    + destruct (Hr E) as [Hc' Hb']. split_and!; [naive_solver|done|]. intros j. rewrite Hb', Hbits, <- orb_assoc.
      f_equal. destruct (j =? i) eqn:Ej; reflect_bools.
      * subst j. rewrite orb_true_r. symmetry. apply andb_true_iff. rewrite !N.ltb_lt. lia.
      * rewrite orb_false_r. f_equal. apply eq_bool_prop_intro. rewrite !Is_true_true, !N.ltb_lt. lia.
    + apply wp_ret. split; [naive_solver|done].
  - intros c o1 (Ho & Hc & Hbits). apply wp_ret. split; [naive_solver|]. intros _. split; [done|].
    intros j. rewrite Hbits. f_equal. f_equal. apply eq_bool_prop_intro.
    rewrite !Is_true_true, N.ltb_lt, N.leb_le. lia.
Qed.

Lemma parse_category_spec p s cats o :
  seg_ok p s → ebitmap_wf cats →
  wp (parse_category p (seg_str p s) cats) o (parsed cats (seg_bit s) o).
Proof.
  intros [Ha Hb] Hwf. destruct s as [a [b|]]; cbn [fst snd] in *; unfold parse_category, seg_str; cbn [fst snd].
  - rewrite break_at_delim; [|apply cat_name_clean; [done|set_solver]|done].
    destruct (search_cat p a o Ha) as (d & Hs & Hd). wp_step. unfold wp at 1. rewrite Hs.
    pose proof Ha as (_ & _ & Ha32 & _). rewrite Hd, dec32_pred by (change (2 ^ 32) with 4294967296;
      change (2 ^ 32 - 64) with 4294967232 in *; lia).
    replace (a + 1 - 1) with a by lia. wp_step. eapply wp_mono; [by apply set_one_spec|].
    intros [rc c1] o1 [Ho1 Hr1]; simpl in Ho1, Hr1. destruct (rc =? 0)%Z eqn:E; reflect_bools; cbn [negb].
    2:{ apply wp_ret. split; [naive_solver|done]. }
    destruct (Hr1 E) as [Hwf1 Hb1]. destruct Hb as [Hb Hab].
    destruct (search_cat p b o1 Hb) as (d' & Hs' & Hd'). wp_step. unfold wp at 1. rewrite Hs', Hd'.
    rewrite (proj2 (N.leb_gt _ _)) by lia. pose proof Hb as (_ & _ & Hb32 & _).
    eapply wp_mono; [by apply parse_range_spec|]. intros [ok c2] o2 [Ho2 Hr2]; simpl in Ho2, Hr2.
    split; [naive_solver|]. intros Hok. destruct (Hr2 Hok) as [Hwf2 Hb2]. split; [done|]. intros j.
    simpl. rewrite Hb2, Hb1. unfold seg_bit; cbn [fst snd]. rewrite <- orb_assoc. f_equal.
    apply eq_bool_prop_intro. rewrite !Is_true_true, orb_true_iff, !andb_true_iff, N.eqb_eq, N.ltb_lt, !N.leb_le. lia.
  - rewrite break_at_end by (apply cat_name_clean; [done|set_solver]).
    destruct (search_cat p a o Ha) as (d & Hs & Hd). wp_step. unfold wp at 1. rewrite Hs.
    pose proof Ha as (_ & _ & Ha32 & _). rewrite Hd, dec32_pred by (change (2 ^ 32) with 4294967296;
      change (2 ^ 32 - 64) with 4294967232 in *; lia).
    replace (a + 1 - 1) with a by lia. wp_step. eapply wp_mono; [by apply set_one_spec|].
    intros [rc c1] o1 [Ho1 Hr1]; simpl in Ho1, Hr1. destruct (rc =? 0)%Z eqn:E; reflect_bools; cbn [negb]; apply wp_ret.
    + split; [naive_solver|]. intros _. by apply Hr1.
    + split; [naive_solver|done].
Qed.

(** ** Parsing a list of segments *)

(** What follows a level: nothing, or the dash and the high level. *)
Definition level_end (d : option string) : string :=
  match d with None => EmptyString | Some r => String "-"%char r end.

Definition end_delim (d : option string) : option (ascii * string) :=
  match d with None => None | Some r => Some ("-"%char, r) end.

Lemma break_at_level_end tok stop d :
  clean stop tok = true → stop "-"%char = true →
  break_at stop (tok +:+ level_end d)%string = (tok, end_delim d).
Proof.
  intros Hc Hs. destruct d; simpl level_end; [by apply break_at_delim|].
  rewrite string_app_nil_r. by apply break_at_end.
Qed.

Definition parsed_all (cats : ebitmap) (bits : N → bool) (d : option (ascii * string)) (o : oracle)
    (r : option (option (ascii * string)) * ebitmap) (o' : oracle) : Prop :=
  (o = [] → o' = [] ∧ r.1 ≠ None) ∧
  (∀ d', r.1 = Some d' → d' = d ∧ ebitmap_wf r.2 ∧ ∀ j, ebitmap_bit r.2 j = ebitmap_bit cats j || bits j).

Lemma parse_categories_spec p s l fuel cats d o :
  seg_ok p s → Forall (seg_ok p) l → ebitmap_wf cats → (length l < fuel)%nat →
  wp (parse_categories fuel p (seg_str p s +:+ seg_tail p l +:+ level_end d)%string cats) o
     (parsed_all cats (segs_bit (s :: l)) (end_delim d) o).
Proof.
  revert s fuel cats o. induction l as [|s' l IH]; intros s fuel cats o Hs Hl Hwf Hf;
    (destruct fuel as [|fuel]; [simpl in Hf; lia|]); cbn [parse_categories].
  - cbn [seg_tail]. change ("" +:+ level_end d)%string with (level_end d).
    rewrite break_at_level_end by (done || by apply seg_str_clean).
    wp_step. eapply wp_mono; [by apply parse_category_spec|]. intros [ok c] o1 [Ho Hr]; simpl in Ho, Hr.
    destruct ok; cbn [negb]; [|apply wp_ret; split; [naive_solver|done]].
    destruct (Hr eq_refl) as [Hwf1 Hb].
    assert (parsed_all cats (segs_bit [s]) (end_delim d) o (Some (end_delim d), c) o1) as Hpost.
    { split; [naive_solver|]. intros d' [= <-]. split_and!; try done. intros j. simpl. by rewrite Hb, orb_false_r. }
    destruct d as [r|]; cbn [end_delim] in *; by apply wp_ret.
  - apply Forall_cons in Hl as [Hs' Hl]. cbn [seg_tail].
    change (String "," (seg_str p s' +:+ seg_tail p l) +:+ level_end d)%string
      with (String "," ((seg_str p s' +:+ seg_tail p l) +:+ level_end d)).
    rewrite break_at_delim by (done || by apply seg_str_clean).
    wp_step. eapply wp_mono; [by apply parse_category_spec|]. intros [ok c] o1 [Ho Hr]; simpl in Ho, Hr.
    destruct ok; cbn [negb]; [|apply wp_ret; split; [naive_solver|done]].
    destruct (Hr eq_refl) as [Hwf1 Hb]. rewrite bool_decide_eq_true_2 by done.
    rewrite <- string_app_assoc. eapply wp_mono; [apply IH; [done|done|done|simpl in Hf; lia]|].
    intros [r c2] o2 [Ho2 Hr2]; simpl in Ho2, Hr2. split; [naive_solver|]. intros d' Hd'.
    destruct (Hr2 d' Hd') as (-> & Hwf2 & Hb2). split_and!; try done. intros j. simpl.
    rewrite Hb2, Hb. simpl. btauto.
Qed.

Lemma seg_tail_length p l : (length l ≤ String.length (seg_tail p l))%nat.
Proof.
  induction l as [|s l IH]; [done|]. cbn [seg_tail String.length length]. rewrite string_length_app. lia.
Qed.

(** ** A level *)

Definition sens_name (p : policydb) (l : mls_level) : string :=
  match p_sens_val_to_name p !! N.to_nat (sens l - 1) with Some (Some s) => s | _ => EmptyString end.

Definition level_named (p : policydb) (l : mls_level) : Prop :=
  0 < sens l ∧ sens l < 2 ^ 32 ∧
  p_sens_val_to_name p !! N.to_nat (sens l - 1) = Some (Some (sens_name p l)) ∧
  clean (char_in [":"%char; "-"%char]) (sens_name p l) = true ∧
  ∃ h d, table (p_levels p) = Some h ∧ ht_struct h ∧ ht_map h !! sens_name p l = Some d ∧
    sens (level d) = sens l.

Definition level_post (l0 l : mls_level) (bits : N → bool) (d : option (ascii * string)) (o : oracle)
    (r : option (option (ascii * string)) * mls_level) (o' : oracle) : Prop :=
  (o = [] → o' = [] ∧ r.1 ≠ None) ∧
  (∀ d', r.1 = Some d' → d' = d ∧ sens r.2 = sens l ∧ ebitmap_wf (cat r.2) ∧
     ∀ j, ebitmap_bit (cat r.2) j = ebitmap_bit (cat l0) j || bits j).

(** The sensitivity is followed by its categories and then the end of the
    level, as [break_at] sees it with the delimiters of either level. *)
Lemma parse_level_spec p l segs l0 stop d o :
  level_named p l → Forall (seg_ok p) segs → level_wf l0 →
  clean stop (sens_name p l) = true → stop ":"%char = true → (d ≠ None → stop "-"%char = true) →
  wp (let '(tok, dl) := break_at stop (sens_name p l +:+ seg_text p segs +:+ level_end d)%string in
      parse_level p tok dl l0) o
     (level_post l0 l (segs_bit segs) (end_delim d) o).
Proof.
  intros (_ & _ & _ & _ & h & dt & Ht & Hst & Hm & Hd) Hsegs Hl0 Hclean Hcolon Hdash.
  destruct segs as [|s segs]; cbn [seg_text].
  - change ("" +:+ level_end d)%string with (level_end d).
    assert (break_at stop (sens_name p l +:+ level_end d)%string = (sens_name p l, end_delim d)) as ->.
    { destruct d; [by apply break_at_level_end; [|apply Hdash]|].
      simpl level_end. rewrite string_app_nil_r. by apply break_at_end. }
    unfold parse_level. wp_step. unfold wp at 1. rewrite Ht, search_spec, Hm by done.
    assert (level_post l0 l (segs_bit []) (end_delim d) o
              (Some (end_delim d), MlsLevel (sens (level dt)) (cat l0)) o) as Hpost.
    { split; [done|]. intros d' [= <-]. simpl. split_and!; try done. intros j. by rewrite orb_false_r. }
    destruct d as [r|]; cbn [end_delim] in *; by apply wp_ret.
  - apply Forall_cons in Hsegs as [Hs Hsegs].
    change (String ":" (seg_str p s +:+ seg_tail p segs) +:+ level_end d)%string
      with (String ":" ((seg_str p s +:+ seg_tail p segs) +:+ level_end d)).
    rewrite break_at_delim by done. unfold parse_level. wp_step. unfold wp at 1.
    rewrite Ht, search_spec, Hm by done. rewrite bool_decide_eq_true_2 by done. rewrite <- string_app_assoc.
    wp_step. eapply wp_mono; [apply parse_categories_spec; try done|].
    { rewrite !string_length_app. pose proof (seg_tail_length p segs). lia. }
    intros [r c] o1 [Ho Hr]; simpl in Ho, Hr. apply wp_ret. split; [naive_solver|].
    intros d' Hd'. simpl in Hd' |- *. destruct (Hr d' Hd') as (-> & ? & ?). split_and!; done.
Qed.

(** ** Printing a level *)

(** No gap between the nodes. *)
Fixpoint nodes_adjacent (l : list ebitmap_node) : Prop :=
  match l with
  | n :: ((n' :: _) as l') => startbit n' = startbit n + MAPSIZE ∧ nodes_adjacent l'
  | _ => True
  end.

Lemma adjacent_positions n l :
  nodes_adjacent (n :: l) →
  (n :: l) ≫= node_positions = seqN (startbit n) (64 * length (n :: l)) ∧
  last_end (n :: l) = startbit n + 64 * N.of_nat (length (n :: l)).
Proof.
  revert n. induction l as [|n' l IH]; intros n Hadj; [done|]. destruct Hadj as [Hn Hadj].
  destruct (IH n' Hadj) as [H1 H2]. rewrite bind_cons, H1, last_end_cons, H2, Hn. split.
  - unfold node_positions, MAPSIZE. cbn [length].
    replace (64 * S (S (length l)))%nat with (64 + 64 * S (length l))%nat by lia. by rewrite seqN_app.
  - unfold MAPSIZE. cbn [length]. lia.
Qed.

Definition cats_named (p : policydb) (e : ebitmap) : Prop :=
  ∀ i, ebitmap_bit e i = true → cat_named p i.

(** [range] bits below [i] are set and wait for the end of their run. *)
Definition print_inv (p : policydb) (e : ebitmap) (base : string) (i : N) (st : string * N * bool) : Prop :=
  let '(out, r, w) := st in
  ∃ segs, out = (base +:+ seg_text p segs)%string ∧ w = negb (bool_decide (segs = [])) ∧
    Forall (seg_ok p) segs ∧ r ≤ i ∧
    (∀ j, segs_bit segs j = ebitmap_bit e j && (j <? i) && negb ((i <? j + r) && (j <? i))) ∧
    (∀ j, i ≤ j + r → j < i → ebitmap_bit e j = true) ∧
    (0 < r → ∃ segs', segs = segs' ++ [(i - r, None)]).

Lemma seg_tail_snoc p l s :
  seg_tail p (l ++ [s]) = (seg_tail p l +:+ String "," (seg_str p s))%string.
Proof.
  induction l as [|s' l IH]; [cbn [app seg_tail]; by rewrite string_app_nil_r|].
  cbn [app seg_tail]. rewrite IH, string_app_assoc. done.
Qed.

Lemma seg_text_snoc p l s :
  seg_text p (l ++ [s]) =
  (seg_text p l +:+ String (if bool_decide (l = []) then ":"%char else ","%char) (seg_str p s))%string.
Proof.
  destruct l as [|s' l]; [cbn [app seg_text seg_tail]; by rewrite string_app_nil_r|].
  cbn [app seg_text]. rewrite seg_tail_snoc, string_app_assoc. done.
Qed.

Lemma append_item out ch s : (append_char out ch +:+ s = out +:+ String ch s)%string.
Proof. unfold append_char. by rewrite <- string_app_assoc. Qed.

Lemma segs_bit_snoc l s j : segs_bit (l ++ [s]) j = segs_bit l j || seg_bit s j.
Proof. unfold segs_bit. rewrite existsb_app. simpl. by rewrite orb_false_r. Qed.

(** Closing a run of two or more bits that ends before [i]. *)
Lemma close_run p e base i out r w :
  cats_named p e → 1 < r → print_inv p e base i (out, r, w) →
  cat_named p (i - 1) ∧
  ∃ segs, (append_char out (if (2 <? r)%N then "."%char else ","%char) +:+ cat_name p (i - 1)%N =
           base +:+ seg_text p segs)%string ∧ w = negb (bool_decide (segs = [])) ∧ Forall (seg_ok p) segs ∧
    ∀ j, segs_bit segs j = ebitmap_bit e j && (j <? i).
Proof.
  intros Hn Hr (segs & -> & -> & Hok & Hri & Hbits & Hrun & Hlast).
  assert (cat_named p (i - 1)) as Hc by (apply Hn, Hrun; lia). split; [done|].
  destruct Hlast as [segs' ->]; [lia|]. rewrite append_item.
  pose proof Hok as [Hok' Hl]%Forall_app. apply Forall_cons in Hl as [[Ha _] _]. cbn [fst] in Ha.
  assert (∀ j, i ≤ j + r ∧ j < i ∧ ebitmap_bit e j = true ∨ ¬ (i ≤ j + r ∧ j < i)) as Hcase.
  { intros j. destruct (decide (i ≤ j + r)), (decide (j < i)); [left|right; lia..]. auto. }
  destruct (2 <? r) eqn:E; reflect_bools.
  - exists (segs' ++ [(i - r, Some (i - 1))]). split_and!.
    + rewrite !seg_text_snoc, <- !string_app_assoc. done.
    + by destruct segs'.
    + apply Forall_app. split; [done|]. constructor; [|done]. split; [done|]. split; [done|]. cbn [fst]. lia.
    + intros j. specialize (Hbits j). rewrite segs_bit_snoc in *. unfold seg_bit in *; cbn [fst snd] in *.
      destruct (Hcase j) as [(? & ? & He)|Hout]; revert Hbits; [rewrite He|];
        destruct (segs_bit segs' j); try destruct (ebitmap_bit e j); bool_lia.
  - exists ((segs' ++ [(i - r, None)]) ++ [(i - 1, None)]). split_and!.
    + rewrite (seg_text_snoc _ (segs' ++ _)), <- !string_app_assoc. rewrite bool_decide_eq_false_2; [done|].
      by destruct segs'.
    + by destruct segs'.
    + apply Forall_app. split; [done|]. by constructor.
    + intros j. specialize (Hbits j). rewrite !segs_bit_snoc in *. unfold seg_bit in *; cbn [fst snd] in *.
      destruct (Hcase j) as [(? & ? & He)|Hout]; revert Hbits; [rewrite He|];
        destruct (segs_bit segs' j); try destruct (ebitmap_bit e j); bool_lia.
Qed.

Lemma print_step_spec p e base i st o :
  cats_named p e → 0 < i ∨ st.1.2 = 0 → i < 2 ^ 32 → print_inv p e base i st →
  wp (print_step p i (ebitmap_bit e i) st) o (λ r o', o' = o ∧
    match r with inl _ => False | inr st' => print_inv p e base (i + 1) st' end).
Proof.
  intros Hn Hi Hi32 Hinv. destruct st as [[out r] w]. unfold print_step.
  destruct (ebitmap_bit e i) eqn:Ebit.
  - destruct Hinv as (segs & -> & -> & Hok & Hri & Hbits & Hrun & Hlast).
    destruct (truth r) eqn:Er.
    + apply truth_spec in Er. apply wp_ret. split; [done|]. exists segs.
      split_and!; [done|done|done|lia| | |].
      * intros j. rewrite Hbits. destruct (N.eqb_spec j i) as [->|Hj]; [rewrite Ebit|destruct (ebitmap_bit e j)]; bool_lia.
      * intros j H1 H2. destruct (decide (j = i)) as [->|Hj]; [done|]. apply Hrun; lia.
      * intros _. destruct Hlast as [segs' ->]; [lia|]. exists segs'. do 3 f_equal. lia.
    + unfold truth in Er. reflect_bools. subst r. wp_step. apply wp_at_ptr. exists (cat_name p i).
      split; [by apply Hn|]. apply wp_ret. split; [done|]. exists (segs ++ [(i, None)]). split_and!.
      * rewrite seg_text_snoc, append_item, string_app_assoc. destruct (bool_decide (segs = [])); done.
      * by destruct segs.
      * apply Forall_app. split; [done|]. constructor; [|done]. split; [by apply Hn|done].
      * lia.
      * intros j. rewrite segs_bit_snoc, Hbits. unfold seg_bit; cbn [fst snd].
        destruct (N.eqb_spec j i) as [->|Hj]; [rewrite Ebit|destruct (ebitmap_bit e j)]; bool_lia.
      * intros j H1 H2. replace j with i by lia. done.
      * intros _. exists segs. do 3 f_equal. lia.
  - assert (∀ segs, (∀ j, segs_bit segs j = ebitmap_bit e j && (j <? i)) →
        ∀ j, segs_bit segs j = ebitmap_bit e j && (j <? i + 1) && negb ((i + 1 <? j + 0) && (j <? i + 1))) as Hnext.
    { intros segs Hs j. rewrite Hs. destruct (N.eqb_spec j i) as [->|Hj];
        [by rewrite Ebit|destruct (ebitmap_bit e j)]; bool_lia. }
    destruct (1 <? r) eqn:Er; reflect_bools.
    + assert (0 < i) as Hpos by (destruct Hinv as (? & _ & _ & _ & ? & _); lia).
      destruct (close_run p e base i out r w Hn Er Hinv) as [Hc (segs & Hout & -> & Hok & Hbits)].
      rewrite dec32_pred by lia. wp_step. apply wp_at_ptr. exists (cat_name p (i - 1)). split; [apply Hc|].
      apply wp_ret. split; [done|]. exists segs. split_and!; [done|done|done|lia|by apply Hnext|lia|lia].
    + destruct Hinv as (segs & -> & -> & Hok & Hri & Hbits & Hrun & Hlast).
      apply wp_ret. split; [done|]. exists segs. split_and!; [done|done|done|lia| |lia|lia].
      apply Hnext. intros j. rewrite Hbits. destruct (ebitmap_bit e j); bool_lia.
Qed.

Lemma print_start p l base :
  level_wf l → print_inv p (cat l) base (ebitmap_startbit (cat l)) (base, 0, false).
Proof.
  intros [Hwf _]. exists []. split_and!; [cbn [seg_text]; by rewrite string_app_nil_r|done|constructor|lia| |lia|lia].
  intros j. cbn [segs_bit existsb]. destruct (ebitmap_bit (cat l) j) eqn:Ej; [|done].
  unfold ebitmap_startbit, ebitmap_bit in *. destruct (node (cat l)) as [|n t] eqn:En; [done|].
  apply (nodes_bit_ge _ _ _ _ Hwf) in Ej. bool_lia.
Qed.

(** What a printed level is: the text of segments that denote its categories. *)
Definition printed (p : policydb) (l : mls_level) (base out : string) : Prop :=
  ∃ segs, out = (base +:+ seg_text p segs)%string ∧ Forall (seg_ok p) segs ∧
    ∀ j, segs_bit segs j = ebitmap_bit (cat l) j.

Lemma print_end_spec p l base st o :
  level_wf l → cats_named p (cat l) → print_inv p (cat l) base (highbit (cat l)) st →
  wp (print_end p l st) o (λ out o', o' = o ∧ printed p l base out).
Proof.
  intros Hwf Hcats Hinv. destruct st as [[out r] w]. unfold print_end.
  pose proof (highbit_max _ Hwf) as Hmax. change (2 ^ 32 - 64) with 4294967232 in Hmax.
  assert (∀ j, ebitmap_bit (cat l) j && (j <? highbit (cat l)) = ebitmap_bit (cat l) j) as Hall.
  { intros j. destruct (ebitmap_bit (cat l) j) eqn:Ej; [|done].
    apply ebitmap_bit_hi in Ej; [|done]. by rewrite (proj2 (N.ltb_lt _ _) Ej). }
  destruct (1 <? r) eqn:Er; reflect_bools.
  - assert (0 < highbit (cat l)) as Hpos by (destruct Hinv as (? & _ & _ & _ & ? & _); lia).
    destruct (close_run p _ base _ out r w Hcats Er Hinv) as [Hc (segs & Hout & _ & Hok & Hbits)].
    unfold ebitmap_length. rewrite dec32_pred by (done || change (2 ^ 32) with 4294967296; lia).
    wp_step. apply wp_at_ptr. exists (cat_name p (highbit (cat l) - 1)). split; [apply Hc|].
    apply wp_ret. split; [done|]. exists segs. split_and!; [done|done|]. intros j. by rewrite Hbits.
  - destruct Hinv as (segs & -> & _ & Hok & _ & Hbits & _). apply wp_ret. split; [done|].
    exists segs. split_and!; [done|done|]. intros j. rewrite Hbits, Hall. specialize (Hall j).
    destruct (ebitmap_bit (cat l) j); [|done]. revert Hall. bool_lia.
Qed.

Lemma print_loop_spec p l base o :
  level_wf l → cats_named p (cat l) → nodes_adjacent (node (cat l)) →
  wp (ebitmap_for_each_bit (cat l) (base, 0, false) (print_step p)) o (λ r o', o' = o ∧
    match r with inl _ => False | inr st => print_inv p (cat l) base (highbit (cat l)) st end).
Proof.
  intros Hwf Hcats Hadj. pose proof (print_start p l base Hwf) as Hinit.
  pose proof (highbit_max _ Hwf) as Hmax. change (2 ^ 32 - 64) with 4294967232 in Hmax.
  unfold wp. rewrite for_each_bit_visited by done. unfold ebitmap_positions, ebitmap_startbit in *.
  pose proof Hwf as [_ Hh]. destruct (node (cat l)) as [|n t] eqn:En.
  { split; [done|]. by rewrite Hh. }
  destruct (adjacent_positions n t Hadj) as [-> Hend]. rewrite for_up_seqN. rewrite Hh, Hend.
  apply (wp_for_up (λ i st o', o' = o ∧ print_inv p (cat l) base i st)); [done| |].
  - intros i st o' Hi [-> Hinv]. eapply wp_mono; [apply print_step_spec; [done| | |done]|].
    + destruct (decide (i = 0)) as [->|]; [right|left; lia]. destruct st as [[out r] w].
      destruct Hinv as (? & _ & _ & _ & ? & _). cbn [fst snd]. lia.
    + change (2 ^ 32) with 4294967296. lia.
    + intros [x|st'] o'' [-> Hr]; [done|]. done.
  - intros st o' [-> Hinv]. split; [done|].
    by replace (startbit n + 64 * N.of_nat (length (n :: t))) with
      (startbit n + N.of_nat (64 * length (n :: t))) by lia.
Qed.

Lemma print_level_spec p l base o :
  level_wf l → level_named p l → cats_named p (cat l) → nodes_adjacent (node (cat l)) →
  wp (print_level p l base) o (λ out o', o' = o ∧ printed p l (base +:+ sens_name p l)%string out).
Proof.
  intros Hwf (Hs0 & Hs1 & Hname & _) Hcats Hadj.
  unfold print_level. rewrite (dec32_pred (sens l)) by done. wp_step. apply wp_at_ptr.
  exists (sens_name p l). split; [done|]. wp_step. eapply wp_mono; [by apply print_loop_spec|].
  intros [x|st] o' [-> Hinv]; [done|]. by apply print_end_spec.
Qed.

(** ** The round trip *)

Definition level_printable (p : policydb) (l : mls_level) : Prop :=
  level_wf l ∧ level_named p l ∧ cats_named p (cat l) ∧ nodes_adjacent (node (cat l)).

Definition range_printable (p : policydb) (r : mls_range) : Prop :=
  level_printable p (level0 r) ∧ level_printable p (level1 r).

Definition level_text (p : policydb) (l : mls_level) (segs : list seg) : string :=
  (sens_name p l +:+ seg_text p segs)%string.

Lemma sid_to_context_spec p c o :
  mls p = true → range_printable p (range c) →
  wp (mls_sid_to_context p c) o (λ s o', o' = o ∧ ∃ segs0 segs1,
    Forall (seg_ok p) segs0 ∧ (∀ j, segs_bit segs0 j = ebitmap_bit (cat (level0 (range c))) j) ∧
    Forall (seg_ok p) segs1 ∧ (∀ j, segs_bit segs1 j = ebitmap_bit (cat (level1 (range c))) j) ∧
    s = String ":" (level_text p (level0 (range c)) segs0 +:+
          level_end (if mls_level_eq (level0 (range c)) (level1 (range c)) then None
                     else Some (level_text p (level1 (range c)) segs1)))).
Proof.
  intros Hmls [(Hw0 & Hn0 & Hc0 & Ha0) (Hw1 & Hn1 & Hc1 & Ha1)]. unfold mls_sid_to_context. rewrite Hmls.
  cbn [negb]. wp_step. eapply wp_mono; [by apply print_level_spec|].
  intros out o1 [-> (segs0 & -> & Hok0 & Hb0)]. destruct (mls_level_eq _ _) eqn:E.
  - apply wp_ret. split; [done|]. exists segs0, segs0. apply level_eq_spec in E. rewrite <- E.
    split_and!; try done. cbn [level_end]. rewrite string_app_nil_r. done.
  - eapply wp_mono; [by apply print_level_spec|]. intros out o2 [-> (segs1 & -> & Hok1 & Hb1)].
    split; [done|]. exists segs0, segs1. split_and!; try done. unfold level_text. cbn [level_end].
    rewrite append_item. rewrite <- !string_app_assoc. done.
Qed.

Lemma level_canonical l l0 l' bits :
  level_wf l → cat l0 = ebitmap_init → (∀ j, bits j = ebitmap_bit (cat l) j) →
  sens l' = sens l → ebitmap_wf (cat l') →
  (∀ j, ebitmap_bit (cat l') j = ebitmap_bit (cat l0) j || bits j) → l' = l.
Proof.
  intros Hwf H0 Hbits Hs Hwf' Hb. destruct l as [s e], l' as [s' e']; simpl in *. f_equal; [done|].
  apply ebitmap_ext; [done..|]. intros j. by rewrite Hb, H0, Hbits.
Qed.

Lemma context_to_sid_text_spec p c0 r segs0 segs1 o :
  mls p = true → range_printable p r → range c0 = mls_range_init →
  Forall (seg_ok p) segs0 → (∀ j, segs_bit segs0 j = ebitmap_bit (cat (level0 r)) j) →
  Forall (seg_ok p) segs1 → (∀ j, segs_bit segs1 j = ebitmap_bit (cat (level1 r)) j) →
  wp (mls_context_to_sid p true (level_text p (level0 r) segs0 +:+
        level_end (if mls_level_eq (level0 r) (level1 r) then None
                   else Some (level_text p (level1 r) segs1)))%string c0) o
     (λ x o', (o = [] → o' = [] ∧ x.1 = STATUS_SUCCESS) ∧
        (x = (STATUS_SUCCESS, set_range c0 r) ∨ x.1 = STATUS_ERR)).
Proof.
  intros Hmls [(Hw0 & Hn0 & _ & _) (Hw1 & Hn1 & _ & _)] Hc0 Hok0 Hb0 Hok1 Hb1.
  unfold mls_context_to_sid. rewrite Hmls, Hc0. cbn [negb mls_range_init level0 level1].
  unfold level_text at 1. rewrite <- string_app_assoc.
  pose proof (parse_level_spec p (level0 r) segs0 mls_level_init (char_in [":"%char; "-"%char])
    (if mls_level_eq (level0 r) (level1 r) then None else Some (level_text p (level1 r) segs1)) o
    Hn0 Hok0 ebitmap_init_wf ltac:(apply Hn0) eq_refl ltac:(done)) as Hp0.
  destruct (break_at (char_in [":"%char; "-"%char]) _) as [tok dl]. wp_step. eapply wp_mono; [exact Hp0|].
  clear Hp0. intros [res l0] o1 [Ho1 Hr1]; cbn [fst snd] in Ho1, Hr1.
  destruct res as [d|]; [|apply wp_ret; split; [naive_solver|by right]].
  destruct (Hr1 d eq_refl) as (-> & Hs & Hwf & Hb).
  assert (l0 = level0 r) as -> by (by eapply (level_canonical _ mls_level_init)).
  clear Hr1 Hs Hwf Hb. destruct (mls_level_eq (level0 r) (level1 r)) eqn:E; cbn [end_delim].
  - wp_step. eapply wp_mono; [apply level_cpy_spec|]. intros x o2 [Ho2 Hx].
    apply level_eq_spec in E.
    destruct Hx as [-> | ->]; apply wp_ret; simpl in *; (split; [naive_solver|]); [left|by right].
    rewrite E at 2. by destruct r.
  - rewrite bool_decide_eq_true_2 by done.
    pose proof (parse_level_spec p (level1 r) segs1 mls_level_init (char_in [":"%char]) None o1 Hn1 Hok1
      ebitmap_init_wf) as Hp1. cbn [level_end] in Hp1. rewrite string_app_nil_r in Hp1.
    fold (level_text p (level1 r) segs1) in Hp1.
    destruct (break_at (char_in [":"%char]) _) as [tok' dl']. wp_step. eapply wp_mono; [apply Hp1; try done|].
    { eapply clean_sub; [|apply Hn1]. intros ch. rewrite !char_in_true. set_solver. }
    intros [res l1] o2 [Ho2 Hr2]; cbn [fst snd] in Ho2, Hr2.
    destruct res as [d'|]; apply wp_ret; [|split; [naive_solver|by right]].
    destruct (Hr2 d' eq_refl) as (-> & Hs & Hwf & Hb).
    assert (l1 = level1 r) as -> by (by eapply (level_canonical _ mls_level_init)).
    split; [naive_solver|]. left. by destruct r.
Qed.

(** * Validity of a context *)

Section validity.
Context (p : policydb) (levels : hashtab string level_datum).

(** The tables a loaded MLS policy has: a name for every sensitivity, a level
    for every name, a structure for every user. *)
Record mls_policy_wf : Prop := {
  mp_table : table (p_levels p) = Some levels;
  mp_levels : ht_struct levels;
  mp_cats : ∀ name d, ht_map levels !! name = Some d → level_wf (level d);
  mp_nprim : nprim (p_levels p) < 2 ^ 32 ∧ nprim (p_users p) < 2 ^ 32;
  mp_names : ∀ v, 0 < v → v ≤ nprim (p_levels p) →
    ∃ name, p_sens_val_to_name p !! N.to_nat (v - 1) = Some (Some name);
  mp_users : ∀ v, 0 < v → v ≤ nprim (p_users p) →
    ∃ u, user_val_to_struct p !! N.to_nat (v - 1) = Some (Some u) }.

(** What validity of a level means: its sensitivity is defined and its
    categories are among those of the sensitivity. *)
Definition level_authorized (l : mls_level) : Prop :=
  0 < sens l ∧ sens l ≤ nprim (p_levels p) ∧
  ∃ name d, p_sens_val_to_name p !! N.to_nat (sens l - 1) = Some (Some name) ∧
    ht_map levels !! name = Some d ∧
    ∀ i, ebitmap_bit (cat l) i = true → i ≤ nprim (p_cats p) ∧ ebitmap_bit (cat (level d)) i = true.

Lemma cats_loop_spec (e de : ebitmap) n o :
  ebitmap_wf e → ebitmap_wf de →
  ∃ r, ebitmap_for_each_bit e tt (check_cat n de) o = Ret r o ∧
    match r with
    | inl _ => ∃ i, ebitmap_bit e i = true ∧ ¬ (i ≤ n ∧ ebitmap_bit de i = true)
    | inr _ => ∀ i, ebitmap_bit e i = true → i ≤ n ∧ ebitmap_bit de i = true
    end.
Proof.
  intros He Hde. rewrite for_each_bit_visited by done.
  set (Q := λ (r : unit + unit) (o' : oracle), o' = o ∧
    match r with
    | inl _ => ∃ i, ebitmap_bit e i = true ∧ ¬ (i ≤ n ∧ ebitmap_bit de i = true)
    | inr _ => ∀ i, ebitmap_bit e i = true → i ≤ n ∧ ebitmap_bit de i = true
    end).
  assert (wp (for_list (λ i, check_cat n de i (ebitmap_bit e i)) (ebitmap_positions e) tt) o Q) as Hwp.
  { apply wp_for_list with (I := λ l _ o', o' = o ∧
      ∀ i, i ∈ l → ebitmap_bit e i = true → i ≤ n ∧ ebitmap_bit de i = true).
    - split; [done|]. intros i Hi. by apply elem_of_nil in Hi.
    - intros l i rest [] o' _ [-> Hl]. unfold check_cat. destruct (ebitmap_bit e i) eqn:E.
      + destruct (n <? i) eqn:En; reflect_bools.
        { apply wp_ret. split; [done|]. exists i. split; [done|lia]. }
        rewrite get_bit_wf by done. destruct (ebitmap_bit de i) eqn:Ed; apply wp_ret; (split; [done|]).
        * intros j [?|Hj]%elem_of_app; [by apply Hl|]. by apply list_elem_of_singleton in Hj as ->.
        * exists i. split; [done|intros [_ ?]; congruence].
      + apply wp_ret. split; [done|]. intros j [?|Hj]%elem_of_app; [by apply Hl|].
        apply list_elem_of_singleton in Hj as ->. congruence.
    - intros [] o' [-> Hl]. split; [done|]. intros i Hi. apply Hl; [by apply bit_position|done]. }
  apply (proj1 (wp_run _ _ _)) in Hwp as (r & o' & -> & -> & Hr). by exists r.
Qed.

Lemma valid_level_spec l o :
  mls_policy_wf → level_wf l →
  ∃ b, valid_level p l o = Ret b o ∧ (b = true ↔ level_authorized l).
Proof.
  intros Hp Hl. unfold valid_level, level_authorized.
  destruct ((sens l =? 0) || (nprim (p_levels p) <? sens l)) eqn:E.
  { exists false. split; [done|]. split; [done|]. reflect_bools; lia. }
  reflect_bools. assert (0 < sens l) as Hpos by lia.
  destruct (mp_names Hp (sens l) Hpos ltac:(lia)) as [name Hname].
  rewrite (dec32_pred (sens l)) by (done || destruct (mp_nprim Hp); lia). 
  rewrite !bind_run, (at_ptr_ok _ _ _ _ Hname), (mp_table Hp), bind_run, search_spec by apply Hp.
  destruct (ht_map levels !! name) as [d|] eqn:Hd.
  - destruct (cats_loop_spec (cat l) (cat (level d)) (nprim (p_cats p)) o Hl (mp_cats Hp _ _ Hd))
      as (r & Hrun & Hr).
    rewrite bind_run, Hrun. destruct r; eexists; (split; [done|]).
    + split; [done|]. intros (_ & _ & name' & d' & Hn' & Hd' & Hall). destruct Hr as (i & Hi & Hno).
      destruct Hno. apply Hall in Hi. by simplify_eq.
    + split; [|done]. intros _. split_and!; [lia|lia|]. by exists name, d.
  - exists false. split; [done|]. split; [done|]. intros (_ & _ & name' & d' & ? & ? & _). by simplify_eq.
Qed.

Definition context_authorized (c : context_struct) : Prop :=
  mls_level_dom (level1 (range c)) (level0 (range c)) = true ∧
  level_authorized (level0 (range c)) ∧ level_authorized (level1 (range c)) ∧
  (role c = OBJECT_R_VAL ∨
   0 < user c ∧ user c ≤ nprim (p_users p) ∧
   ∃ u, user_val_to_struct p !! N.to_nat (user c - 1) = Some (Some u) ∧
     mls_range_contains (exp_range u) (range c) = true).

Lemma isvalid_spec c o :
  mls_policy_wf → mls p = true → range_wf (range c) →
  ∃ b, mls_context_isvalid p c o = Ret b o ∧ (b = true ↔ context_authorized c).
Proof.
  intros Hp Hmls [Hw0 Hw1]. unfold mls_context_isvalid, context_authorized. rewrite Hmls. cbn [negb].
  destruct (mls_level_dom _ _); cbn [negb]; [|exists false; naive_solver].
  destruct (valid_level_spec (level0 (range c)) o Hp Hw0) as (b0 & H0 & Ha0). setoid_rewrite <- Ha0. rewrite bind_run, H0.
  destruct b0; cbn [negb]; [|exists false; naive_solver].
  destruct (valid_level_spec (level1 (range c)) o Hp Hw1) as (b1 & H1 & Ha1). setoid_rewrite <- Ha1. rewrite bind_run, H1.
  destruct b1; cbn [negb]; [|exists false; naive_solver].
  destruct (role c =? OBJECT_R_VAL) eqn:Er; reflect_bools; [exists true; naive_solver|].
  destruct ((user c =? 0) || (nprim (p_users p) <? user c)) eqn:Eu.
  { exists false. split; [done|]. split; [done|]. intros (_ & _ & _ & [?|(? & ? & _)]); [done|]. reflect_bools; lia. }
  reflect_bools. assert (0 < user c) as Hpos by lia.
  destruct (mp_users Hp (user c) Hpos ltac:(lia)) as [u Hu].
  rewrite (dec32_pred (user c)) by (done || destruct (mp_nprim Hp); lia).
  rewrite bind_run, (at_ptr_ok _ _ _ _ Hu). eexists. split; [done|]. split.
  - intros Hc. split_and!; try done. right. split_and!; [lia|lia|]. by exists u.
  - intros (_ & _ & _ & [?|(_ & _ & u' & Hu' & Hc)]); [done|]. rewrite Hu in Hu'. by simplify_eq.
Qed.

End validity.

(** * A context of the example policy *)

(** s0:c0.c2-s1:c0.c2,c4 (categories 0 to 2, and 0, 1, 2 and 4). *)
Definition ex_mls_context : context_struct :=
  Context 1 2 3 (MlsRange (MlsLevel 1 (EBitmap [EBNode 0 7] 64)) (MlsLevel 2 (EBitmap [EBNode 0 23] 64))).

Lemma ex_table_struct {D} (l : list (string * D)) :
  StronglySorted (λ a b, (0 < symcmp b.1 a.1)%Z) l → NoDup l.*1 →
  ht_struct (Hashtab [l] 1 (N.of_nat (length l)) symhash symcmp).
Proof.
  intros Hs Hn. split; simpl; try done.
  - apply _.
  - intros k. by apply symhash_lt.
  - intros [|i] c Hi; [|done]. injection Hi as <-. split; [done|].
    apply Forall_forall. intros x _. simpl. pose proof (symhash_lt 1 x.1). lia.
  - unfold ht_entries. simpl. by rewrite app_nil_r.
Qed.

Ltac ex_struct :=
  (apply ex_table_struct; [repeat constructor|apply (bool_decide_unpack _); by vm_compute]).

Lemma ex_cat_named i : i < 5 → cat_named ex_policy i.
Proof.
  intros Hi.
  assert (i = 0 ∨ i = 1 ∨ i = 2 ∨ i = 3 ∨ i = 4) as Hcases by lia.
  destruct Hcases as [->|[->|[->|[->| ->]]]];
    (split_and!; [done|done|done|]; eexists _, _; split_and!; [done|ex_struct|vm_compute; reflexivity|done]).
Qed.

Lemma ex_cats_small m : m < 32 → ∀ i, ebitmap_bit (EBitmap [EBNode 0 m] 64) i = true → i < 5.
Proof.
  intros Hm i Hi. unfold ebitmap_bit, nodes_bit, node_bit in Hi. cbn [existsb node startbit bmap] in Hi.
  rewrite N.sub_0_r, orb_false_r in Hi. apply andb_true_iff in Hi as [_ Hi].
  destruct (decide (i < 5)) as [|Hge]; [done|]. exfalso.
  rewrite N.bits_above_log2 in Hi; [done|].
  destruct (decide (m = 0)) as [->|]; [simpl; lia|]. apply N.log2_lt_pow2; [lia|].
  apply N.lt_le_trans with 32; [done|]. change 32 with (2 ^ 5). apply N.pow_le_mono_r; lia.
Qed.

Lemma ex_printable : range_printable ex_policy (range ex_mls_context).
Proof.
  split; split_and!.
  1,5: by_decide.
  1,4: split_and!; try done; eexists _, _; split_and!; [done|ex_struct|vm_compute; reflexivity|done].
  1,3: by intros i Hi; apply ex_cat_named; revert Hi; apply ex_cats_small.
  all: done.
Qed.

(** * The properties of mls.c *)

(** The text of a range, without the colon [mls_to_string] cuts off. *)
Definition range_text (p : policydb) (r : mls_range) (s : string) : Prop :=
  ∃ segs0 segs1,
    Forall (seg_ok p) segs0 ∧ (∀ j, segs_bit segs0 j = ebitmap_bit (cat (level0 r)) j) ∧
    Forall (seg_ok p) segs1 ∧ (∀ j, segs_bit segs1 j = ebitmap_bit (cat (level1 r)) j) ∧
    s = (level_text p (level0 r) segs0 +:+
           level_end (if mls_level_eq (level0 r) (level1 r) then None
                      else Some (level_text p (level1 r) segs1)))%string.

Definition text_fits (p : policydb) (c : context_struct) : Prop :=
  ∀ o s o', mls_sid_to_context p c o = Ret s o' → strlen s < 2 ^ 32.

Lemma to_string_spec p c o :
  mls p = true → range_printable p (range c) → text_fits p c →
  wp (mls_to_string p c) o (λ r o', (o = [] → o' = [] ∧ r.1 = STATUS_SUCCESS) ∧
    (r = (STATUS_ERR, None) ∨ ∃ s, r = (STATUS_SUCCESS, Some s) ∧ range_text p (range c) s)).
Proof.
  intros Hmls Hr Hfits. unfold mls_to_string.
  destruct (proj1 (wp_run _ _ _) (sid_to_context_spec p c o Hmls Hr)) as (s & o1 & Hs & -> & Htext).
  destruct (no_alloc_run _ _ _ _ Hs) as [_ Hall]. apply Hfits in Hs as Hlen.
  wp_step. unfold wp at 1. rewrite context_len_sim, Hs.
  wp_step. wp_step. intros [] o1 H1; cbn [negb]; [|wp_step; naive_solver]. wp_step. wp_step.
  intros [] o2 H2; cbn [negb]; [|wp_step; naive_solver]. wp_step. unfold wp at 1. rewrite Hall.
  unfold u32. rewrite N.mod_small, N.eqb_refl by done. destruct Htext as (segs0 & segs1 & ? & ? & ? & ? & ->).
  cbn [negb]. wp_step. split; [naive_solver|]. right. eexists. split; [done|]. by exists segs0, segs1.
Qed.

(** Printing and parsing MLS fields.  The text [mls_to_string] makes of a
    range of the policy (sensitivities and categories named, names free of
    delimiters, category bitmaps without gaps between their nodes) is parsed
    back by [mls_from_string] to the same range; neither call fails unless an
    allocation does, and then the result is [STATUS_ERR]. *)
Theorem mls_string_roundtrip p c c0 o :
  mls p = true → range_printable p (range c) → text_fits p c → range c0 = mls_range_init →
  wp ('(rc, s) ← mls_to_string p c;
      match s with
      | None => mret (rc, c0)
      | Some t => mls_from_string p t c0
      end) o
     (λ r o', (o = [] → r = (STATUS_SUCCESS, set_range c0 (range c))) ∧
        (r = (STATUS_SUCCESS, set_range c0 (range c)) ∨ r.1 = STATUS_ERR)).
Proof.
  intros Hmls Hr Hfits Hc0. wp_step. eapply wp_mono; [by apply to_string_spec|].
  intros x o1 [H1 [->|(s & -> & segs0 & segs1 & Hs0 & Hb0 & Hs1 & Hb1 & ->)]].
  { wp_step. split; [|by right]. naive_solver. }
  unfold mls_from_string. wp_step. wp_step. intros [] o2 H2; cbn [negb]; [|wp_step; naive_solver].
  wp_step. eapply wp_mono; [by apply context_to_sid_text_spec|].
  intros [rc c'] o3 [H3 Hcase]. wp_step. simpl in *.
  destruct Hcase as [[= -> ->]|Herr]; [by split; [|left]|]. subst rc. simpl. split; [|by right].
  intros ->. destruct (H1 eq_refl) as [-> _]. destruct (H2 eq_refl) as [_ ->].
  by destruct (H3 eq_refl) as [_ [=]].
Qed.

Lemma mls_string_roundtrip_witness :
  wp ('(rc, s) ← mls_to_string ex_policy ex_mls_context;
      match s with
      | None => mret (rc, context_init)
      | Some t => mls_from_string ex_policy t context_init
      end) [] (λ r o', r = (STATUS_SUCCESS, set_range context_init (range ex_mls_context))).
Proof.
  eapply wp_mono; [apply (mls_string_roundtrip ex_policy ex_mls_context context_init [])|].
  - done.
  - apply ex_printable.
  - intros o s o' Hs. assert (mls_sid_to_context ex_policy ex_mls_context o =
      Ret ":s0:c0.c2-s1:c0.c2,c4"%string o) as H by by vm_compute.
    rewrite H in Hs. by injection Hs as <- _.
  - done.
  - intros r o' [H _]. by apply H.
Defined.

(** The length computed for a context's MLS field is that of the text
    printed for it, as a 32-bit value, for every context and policy: where
    printing is defined so is the length, and the other way round. *)
Theorem mls_length_exact p c o :
  mls_compute_context_len p c o =
    match mls_sid_to_context p c o with Ret s o' => Ret (u32 (strlen s)) o' | UB => UB end.
Proof. apply context_len_sim. Qed.

(** When [mls_context_isvalid] accepts.  On an MLS policy whose tables
    are complete it returns true exactly for the contexts whose high level
    dominates the low one, whose levels use defined sensitivities and only
    categories associated with them, and whose user is defined and cleared for
    the range (users are not checked for [object_r]). *)
Theorem mls_isvalid_exact p levels c o :
  mls_policy_wf p levels → mls p = true → range_wf (range c) →
  ∃ b, mls_context_isvalid p c o = Ret b o ∧ (b = true ↔ context_authorized p levels c).
Proof. apply isvalid_spec. Qed.

Definition ex_levels : hashtab string level_datum :=
  Hashtab [[("s0", LevelDatum (MlsLevel 1 (EBitmap [EBNode 0 7] 64)) 0);
            ("s1", LevelDatum (MlsLevel 2 (EBitmap [EBNode 0 31] 64)) 0)]%string] 1 2 symhash symcmp.

Lemma ex_policy_wf : mls_policy_wf ex_policy ex_levels.
Proof.
  split; try done.
  - ex_struct.
  - intros name d Hd. apply elem_of_list_to_map_2 in Hd.
    apply list_elem_of_In in Hd. destruct Hd as [[= _ <-]|[[= _ <-]|[]]]; by_decide.
  - intros v Hv Hmax. simpl in Hmax. assert (v = 1 ∨ v = 2) as [-> | ->] by lia; by eexists.
  - intros v Hv Hmax. simpl in Hmax. assert (v = 1) as -> by lia. by eexists.
Qed.

Lemma mls_isvalid_exact_witness :
  mls_context_isvalid ex_policy ex_mls_context [] = Ret true [] ∧
  context_authorized ex_policy ex_levels ex_mls_context.
Proof.
  destruct (mls_isvalid_exact ex_policy ex_levels ex_mls_context [] ex_policy_wf eq_refl ltac:(by_decide))
    as (b & Hb & Hauth).
  assert (b = true) as -> by (vm_compute in Hb; congruence). by split; [|apply Hauth].
Defined.

(** The range of a user's new context.  From a valid range of [fromcon]
    and a user whose default level lies in its range, [mls_setup_user_range]
    either fails with [-EINVAL], and then no low level qualifies or the
    clearances are incomparable, or gives [usercon] a valid range that the
    user is cleared for and whose high level [fromcon] dominates; the rest of
    [usercon] is unchanged. *)
Theorem user_range_sound fromcon usr usercon :
  range_wf (range fromcon) → range_wf (exp_range usr) → level_wf (exp_dfltlevel usr) →
  mls_level_dom (level1 (range fromcon)) (level0 (range fromcon)) = true →
  mls_level_between (exp_dfltlevel usr) (level0 (exp_range usr)) (level1 (exp_range usr)) = true →
  let '(rc, con) := mls_setup_user_range fromcon usr usercon true in
  (user con = user usercon ∧ role con = role usercon ∧ type con = type usercon) ∧
  (rc = 0%Z ∧ range_wf (range con) ∧ mls_level_dom (level1 (range con)) (level0 (range con)) = true ∧
     mls_range_contains (exp_range usr) (range con) = true ∧
     mls_level_dom (level1 (range fromcon)) (level1 (range con)) = true ∨
   rc = (- EINVAL)%Z ∧
     (mls_level_dom (level1 (exp_range usr)) (level1 (range fromcon)) = false ∧
        mls_level_dom (level1 (range fromcon)) (level1 (exp_range usr)) = false ∨
      mls_level_between (exp_dfltlevel usr) (level0 (range fromcon)) (level1 (range fromcon)) = false ∧
        mls_level_between (level0 (range fromcon)) (exp_dfltlevel usr) (level1 (exp_range usr)) = false ∧
        mls_level_between (level1 (range fromcon)) (level0 (exp_range usr)) (exp_dfltlevel usr) = false)).
Proof.
  destruct fromcon as [fu fr ft [sen clr]], usr as [uv ur srng sdef [low uclr] def cache ub]. simpl.
  intros [Hsen Hclr] [Hlow Huclr] Hdef Hfrom Husr. unfold mls_setup_user_range, mls_range_contains.
  cbn [negb range level0 level1 exp_range exp_dfltlevel set_range user role type]. simpl in *.
  unfold mls_level_between in *. reflect_bools.
  pose proof (level_dom_refl _ Hclr). pose proof (level_dom_refl _ Huclr). pose proof (level_dom_refl _ Hlow).
  destruct (mls_level_dom def sen && mls_level_dom clr def) eqn:E1;
    [|destruct (mls_level_dom sen def && mls_level_dom uclr sen) eqn:E2;
      [|destruct (mls_level_dom clr low && mls_level_dom def clr) eqn:E3; [|by auto 10]]];
    destruct (mls_level_dom uclr clr) eqn:Euc;
    [|destruct (mls_level_dom clr uclr) eqn:Ecu| |destruct (mls_level_dom clr uclr) eqn:Ecu
     | |destruct (mls_level_dom clr uclr) eqn:Ecu]; simpl; (split; [done|]);
    first [by auto 10|left; reflect_bools; split_and!; try done].
  all: try match goal with |- (mls_level_dom _ _ && mls_level_dom _ _) = true => apply andb_true_iff; split end.
  all: eauto using level_dom_trans.
Qed.

Lemma user_range_sound_witness :
  ∃ con, mls_setup_user_range ex_mls_context
           (UserDatum 1 (RoleSet ebitmap_init 0) mls_semantic_range_init mls_semantic_level_init
              (MlsRange (MlsLevel 1 ebitmap_init) (MlsLevel 2 (EBitmap [EBNode 0 31] 64)))
              (MlsLevel 1 ebitmap_init) ebitmap_init 0) context_init true = (0%Z, con) ∧
    mls_level_dom (level1 (range con)) (level0 (range con)) = true.
Proof.
  pose proof (user_range_sound ex_mls_context
    (UserDatum 1 (RoleSet ebitmap_init 0) mls_semantic_range_init mls_semantic_level_init
       (MlsRange (MlsLevel 1 ebitmap_init) (MlsLevel 2 (EBitmap [EBNode 0 31] 64)))
       (MlsLevel 1 ebitmap_init) ebitmap_init 0) context_init
    ltac:(by_decide) ltac:(by_decide) ltac:(by_decide) eq_refl eq_refl) as H.
  destruct (mls_setup_user_range _ _ _ _) as [rc con] eqn:E. exists con.
  destruct H as [_ [(-> & _ & H & _)|[-> _]]]; [done|]. vm_compute in E. discriminate.
Defined.

(** Levels with the categories {62, 63, 192} and {62, ..., 192}. *)
Definition gap_level (s : N) : mls_level :=
  MlsLevel s (EBitmap [EBNode 0 (2 ^ 63 + 2 ^ 62); EBNode 192 1] 256).
Definition full_level (s : N) : mls_level :=
  MlsLevel s (EBitmap [EBNode 0 (2 ^ 63 + 2 ^ 62); EBNode 64 (2 ^ 64 - 1); EBNode 128 (2 ^ 64 - 1); EBNode 192 1] 256).

(** Runs of clear bits outside a range, and of set bits inside one. *)
Lemma print_zeros p bits l out w o :
  Forall (λ i, bits i = false) l →
  for_list (λ i, print_step p i (bits i)) l (out, 0, w) o = Ret (inr (out, 0, w)) o.
Proof. induction 1 as [|i l Hi _ IH]; [done|]. cbn [for_list]. by rewrite bind_run, Hi. Qed.

Lemma print_ones p bits l out r w o :
  Forall (λ i, bits i = true) l → 0 < r →
  for_list (λ i, print_step p i (bits i)) l (out, r, w) o =
    Ret (inr (out, r + N.of_nat (length l), w)) o.
Proof.
  intros Hl. revert r. induction Hl as [|i l Hi _ IH]; intros r Hr; cbn [for_list length].
  { by rewrite N.add_0_r. }
  rewrite bind_run, Hi. unfold print_step at 1. rewrite (proj2 (truth_spec r)) by lia.
  unfold mret, M_ret. rewrite IH by lia. do 4 f_equal. lia.
Qed.

(** A run that starts at 62 and covers at least two more visited bits up to 193. *)
Lemma print_run p l ones out o :
  level_wf l → Forall (λ i, ebitmap_bit (cat l) i = false) (seqN 0 62 ++ seqN 193 63) →
  Forall (λ i, ebitmap_bit (cat l) i = true) (62 :: ones) → (2 ≤ length ones)%nat →
  ebitmap_positions (cat l) = seqN 0 62 ++ 62 :: ones ++ seqN 193 63 →
  ebitmap_for_each_bit (cat l) (out, 0, false) (print_step p) o =
    (s ← at_ptr (p_cat_val_to_name p) 62;
     t ← at_ptr (p_cat_val_to_name p) 192;
     mret (inr ((append_char (append_char out ":"%char +:+ s) "."%char +:+ t)%string, 0, true))) o.
Proof.
  intros Hwf [Hz1 Hz2]%Forall_app [H62 Hones]%Forall_cons Hlen Hpos.
  rewrite for_each_bit_visited, Hpos, for_list_app, bind_run, print_zeros by done.
  cbn [for_list]. rewrite !bind_run, H62. unfold print_step at 1. change (truth 0) with false. cbv iota. rewrite bind_run.
  destruct (at_ptr _ 62 o) as [s o1|]; [|done]. unfold mret, M_ret at 1. cbn [N.add].
  rewrite for_list_app, bind_run, print_ones by done.
  change (seqN 193 63) with (193 :: seqN 194 62) in *. apply Forall_cons in Hz2 as [H193 Hz2].
  cbn [for_list]. rewrite !bind_run, H193. unfold print_step at 1.
  rewrite !(proj2 (N.ltb_lt _ _)) by lia. rewrite bind_run. change (dec32 193) with 192.
  destruct (at_ptr _ 192 o1) as [t o2|]; [|done]. unfold mret, M_ret at 1. by rewrite print_zeros.
Qed.

Lemma dec_Forall {A} (P : A → bool) b l : forallb (λ i, eqb (P i) b) l = true → Forall (λ i, P i = b) l.
Proof.
  intros H. apply Forall_forall. intros i Hi. apply eqb_prop. revert i Hi. apply Forall_forall.
  apply Forall_forall. intros i Hi. by apply (proj1 (forallb_forall _ _) H), list_elem_of_In.
Qed.

(** The category loop carries its run of set bits over the bits that a gap
    between two bitmap nodes skips.  In every policy the category sets
    {62, 63, 192} and {62, ..., 192} are printed as the same text, though the
    levels are well-formed and the second strictly dominates the first. *)
Theorem mls_gap_prints_range p s out o :
  print_level p (gap_level s) out o = print_level p (full_level s) out o ∧
  level_wf (gap_level s) ∧ level_wf (full_level s) ∧
  mls_level_dom (full_level s) (gap_level s) = true ∧
  mls_level_dom (gap_level s) (full_level s) = false.
Proof.
  split_and!; [|by_decide|by_decide| |]; [|unfold mls_level_dom, full_level, gap_level; cbn [sens cat]; rewrite N.leb_refl; by vm_compute..].
  unfold print_level. rewrite !bind_run. destruct (at_ptr _ _ o) as [sn o1|]; [|done]. rewrite !bind_run.
  rewrite (print_run p (gap_level s) [63; 192]), (print_run p (full_level s) (seqN 63 130));
    first [by_decide|by apply dec_Forall; vm_compute|by vm_compute; lia|by vm_compute].
Qed.
