(* ===== verification/Context.v ===== *)
(** Security contexts as text and as records: libsepol/src/context_record.c
    (the record of four strings) and libsepol/src/context.c (contexts of a
    policy, their validity and their conversions).

    A function that returns a status and an object gives the status and the
    object, [None] standing for NULL or for no object. *)

From Stdlib Require Import Ascii.
From S2P Require Import Prelude Ebitmap Hashtab MlsTypes Avtab Policydb Mls.
Local Open Scope N_scope.

Definition TYPE_ATTRIB : N := 1.

(** * Records *)

Record sepol_context := SepolContext {
  sc_user : option string; sc_role : option string; sc_type : option string; sc_mls : option string }.

(** [strdup]: NULL is undefined, as for [strlen]. *)
Definition strdup (s : option string) : M (option string) :=
  s ← deref s;
  b ← malloc;
  mret (if negb b then None else Some s).

Definition sepol_context_set_user (con : sepol_context) (user : option string) : M (Z * sepol_context) :=
  tmp ← strdup user;
  mret match tmp with
       | None => (STATUS_ERR, con)
       | Some _ => (STATUS_SUCCESS, SepolContext tmp (sc_role con) (sc_type con) (sc_mls con))
       end.

Definition sepol_context_set_role (con : sepol_context) (role : option string) : M (Z * sepol_context) :=
  tmp ← strdup role;
  mret match tmp with
       | None => (STATUS_ERR, con)
       | Some _ => (STATUS_SUCCESS, SepolContext (sc_user con) tmp (sc_type con) (sc_mls con))
       end.

Definition sepol_context_set_type (con : sepol_context) (type : option string) : M (Z * sepol_context) :=
  tmp ← strdup type;
  mret match tmp with
       | None => (STATUS_ERR, con)
       | Some _ => (STATUS_SUCCESS, SepolContext (sc_user con) (sc_role con) tmp (sc_mls con))
       end.

Definition sepol_context_set_mls (con : sepol_context) (mls : option string) : M (Z * sepol_context) :=
  tmp ← strdup mls;
  mret match tmp with
       | None => (STATUS_ERR, con)
       | Some _ => (STATUS_SUCCESS, SepolContext (sc_user con) (sc_role con) (sc_type con) tmp)
       end.

Definition sepol_context_create : M (Z * option sepol_context) :=
  b ← malloc;
  mret (if negb b then (STATUS_ERR, None) else (STATUS_SUCCESS, Some (SepolContext None None None None))).

Definition sepol_context_clone (con : option sepol_context) : M (Z * option sepol_context) :=
  match con with
  | None => mret (0%Z, None)
  | Some c =>
      '(rc, new) ← sepol_context_create;
      if (rc <? 0)%Z then mret (STATUS_ERR, None) else
      u ← strdup (sc_user c);
      match u with None => mret (STATUS_ERR, None) | Some _ =>
      r ← strdup (sc_role c);
      match r with None => mret (STATUS_ERR, None) | Some _ =>
      t ← strdup (sc_type c);
      match t with None => mret (STATUS_ERR, None) | Some _ =>
      match sc_mls c with
      | None => mret (STATUS_SUCCESS, Some (SepolContext u r t None))
      | Some _ =>
          m ← strdup (sc_mls c);
          match m with
          | None => mret (STATUS_ERR, None)
          | Some _ => mret (STATUS_SUCCESS, Some (SepolContext u r t m))
          end
      end end end end
  end.

Definition colon : Ascii.ascii → bool := char_in [":"%char].

(** The fields after the user and the role: the type, and possibly MLS. *)
Definition parse_type_mls (con : sepol_context) (low : string) : M (Z * option sepol_context) :=
  let '(type, rest) := break_at colon low in
  '(rc, con) ← sepol_context_set_type con (Some type);
  if (rc <? 0)%Z then mret (STATUS_ERR, None) else
  match rest with
  | None => mret (STATUS_SUCCESS, Some con)
  | Some (_, mls) =>
      '(rc, con) ← sepol_context_set_mls con (Some mls);
      if (rc <? 0)%Z then mret (STATUS_ERR, None) else mret (STATUS_SUCCESS, Some con)
  end.

Definition sepol_context_from_string (str : string) : M (Z * option sepol_context) :=
  if bool_decide (str = "<<none>>"%string) then mret (STATUS_SUCCESS, None) else
  '(rc, con) ← sepol_context_create;
  match con with
  | None => mret (STATUS_ERR, None)
  | Some con =>
      b ← malloc;
      if negb b then mret (STATUS_ERR, None) else
      match break_at colon str with
      | (_, None) => mret (STATUS_ERR, None)
      | (user, Some (_, low)) =>
          '(rc, con) ← sepol_context_set_user con (Some user);
          if (rc <? 0)%Z then mret (STATUS_ERR, None) else
          match break_at colon low with
          | (_, None) => mret (STATUS_ERR, None)
          | (role, Some (_, low)) =>
              '(rc, con) ← sepol_context_set_role con (Some role);
              if (rc <? 0)%Z then mret (STATUS_ERR, None) else parse_type_mls con low
          end
      end
  end.

Definition join3 (u r t : string) : string :=
  (u +:+ String ":" (r +:+ String ":" t))%string.

Definition sepol_context_to_string (con : sepol_context) : M (Z * option string) :=
  u ← deref (sc_user con);
  r ← deref (sc_role con);
  t ← deref (sc_type con);
  b ← malloc;
  if negb b then mret (STATUS_ERR, None) else
  mret (STATUS_SUCCESS, Some match sc_mls con with
                             | None => join3 u r t
                             | Some m => join3 u r (t +:+ String ":" m)%string
                             end).

(** * Validity *)

Definition context_is_valid (p : policydb) (c : context_struct) : M bool :=
  if (role c =? 0) || (nprim (p_roles p) <? role c) then mret false else
  if (user c =? 0) || (nprim (p_users p) <? user c) then mret false else
  if (type c =? 0) || (nprim (p_types p) <? type c) then mret false else
  ok ← (if negb (role c =? OBJECT_R_VAL) then
          r ← at_ptr (role_val_to_struct p) (dec32 (role c));
          if negb (ebitmap_get_bit (role_cache r) (dec32 (type c))) then mret false else
          u ← deref (user_val_to_struct p !! N.to_nat (dec32 (user c)));
          match u with
          | None => mret false
          | Some usrdatum => mret (ebitmap_get_bit (user_cache usrdatum) (dec32 (role c)))
          end
        else mret true);
  if negb ok then mret false else mls_context_isvalid p c.

Definition policydb_context_isvalid (p : policydb) (c : context_struct) : M bool := context_is_valid p c.

(** * Conversions *)

(** The buffer has room for exactly the length computed by
    [mls_compute_context_len], an [int]. *)
Definition context_to_string (p : policydb) (c : context_struct) : M (Z * option string) :=
  u ← at_ptr (p_user_val_to_name p) (dec32 (user c));
  r ← at_ptr (p_role_val_to_name p) (dec32 (role c));
  t ← at_ptr (p_type_val_to_name p) (dec32 (type c));
  n ← mls_compute_context_len p c;
  b ← malloc;
  if negb b then mret (STATUS_ERR, None) else
  m ← mls_sid_to_context p c;
  if negb (strlen m =? n) || (2 ^ 31 <=? n) then ub else
  mret (STATUS_SUCCESS, Some (join3 u r (t +:+ m)%string)).

Definition context_from_record (p : policydb) (record : option sepol_context)
    : M (Z * option context_struct) :=
  record ← deref record;
  user ← strdup (sc_user record);
  role ← strdup (sc_role record);
  type ← strdup (sc_type record);
  b ← malloc;
  match user, role, type with
  | Some user, Some role, Some type =>
      if negb b then mret (STATUS_ERR, None) else
      u ← hashtab_search (table (p_users p)) user;
      match u with None => mret (STATUS_ERR, None) | Some usrdatum =>
      r ← hashtab_search (table (p_roles p)) role;
      match r with None => mret (STATUS_ERR, None) | Some roldatum =>
      t ← hashtab_search (table (p_types p)) type;
      match t with None => mret (STATUS_ERR, None) | Some typdatum =>
      if flavor typdatum =? TYPE_ATTRIB then mret (STATUS_ERR, None) else
      let c := Context (user_value usrdatum) (role_value roldatum) (type_value typdatum) mls_range_init in
      '(rc, c) ← match sc_mls record with
                 | Some m => if negb (Policydb.mls p) then mret (STATUS_ERR, c) else mls_from_string p m c
                 | None => mret (if Policydb.mls p then STATUS_ERR else STATUS_SUCCESS, c)
                 end;
      if (rc <? 0)%Z then mret (STATUS_ERR, None) else
      ok ← context_is_valid p c;
      if negb ok then mret (STATUS_ERR, None) else mret (STATUS_SUCCESS, Some c)
      end end end
  | _, _, _ => mret (STATUS_ERR, None)
  end.

Definition context_to_record (p : policydb) (c : context_struct) : M (Z * option sepol_context) :=
  '(rc, con) ← sepol_context_create;
  match con with
  | None => mret (STATUS_ERR, None)
  | Some con =>
      u ← deref (p_user_val_to_name p !! N.to_nat (dec32 (user c)));
      '(rc, con) ← sepol_context_set_user con u;
      if (rc <? 0)%Z then mret (STATUS_ERR, None) else
      r ← deref (p_role_val_to_name p !! N.to_nat (dec32 (role c)));
      '(rc, con) ← sepol_context_set_role con r;
      if (rc <? 0)%Z then mret (STATUS_ERR, None) else
      t ← deref (p_type_val_to_name p !! N.to_nat (dec32 (type c)));
      '(rc, con) ← sepol_context_set_type con t;
      if (rc <? 0)%Z then mret (STATUS_ERR, None) else
      if Policydb.mls p then
        '(rc, m) ← mls_to_string p c;
        if (rc <? 0)%Z then mret (STATUS_ERR, None) else
        '(rc, con) ← sepol_context_set_mls con m;
        if (rc <? 0)%Z then mret (STATUS_ERR, None) else mret (STATUS_SUCCESS, Some con)
      else mret (STATUS_SUCCESS, Some con)
  end.

(** [con_str] is a C string with its terminator behind it, so at most
    [strlen(con_str) + 1] bytes can be copied; a copy that includes the
    terminator is the whole string. *)
Definition context_from_string (p : policydb) (con_str : string) (con_str_len : N)
    : M (Z * option context_struct) :=
  b ← malloc;
  if negb b then mret (STATUS_ERR, None) else
  if strlen con_str + 1 <? con_str_len then ub else
  let con_cpy := String.substring 0 (N.to_nat con_str_len) con_str in
  '(rc, record) ← sepol_context_from_string con_cpy;
  if (rc <? 0)%Z then mret (STATUS_ERR, None) else
  '(rc, c) ← context_from_record p record;
  if (rc <? 0)%Z then mret (STATUS_ERR, None) else mret (STATUS_SUCCESS, c).

Definition sepol_context_check (p : policydb) (con : option sepol_context) : M Z :=
  '(rc, _) ← context_from_record p con;
  mret rc.

(** * Records and text *)

Definition no_colon (s : string) : Prop := clean colon s = true.

Lemma break_colon s rest : no_colon s → break_at colon (s +:+ String ":" rest)%string = (s, Some (":"%char, rest)).
Proof. intros H. by apply break_at_delim. Qed.

Lemma break_no_colon s : no_colon s → break_at colon s = (s, None).
Proof. apply break_at_end. Qed.

(** The text of a record: three or four fields. *)
Definition record_text (u r t : string) (m : option string) : string :=
  match m with None => join3 u r t | Some m => join3 u r (t +:+ String ":" m)%string end.

Lemma join3_not_none u r t : no_colon u → join3 u r t ≠ "<<none>>"%string.
Proof.
  intros Hu H. apply (f_equal (break_at colon)) in H. unfold join3 in H.
  rewrite break_colon in H by done. by vm_compute in H.
Qed.

(** The outcome of an operation that fails only for want of memory. *)
Definition unless_oom {A} (v : A) (o : oracle) (r : Z * option A) (o' : oracle) : Prop :=
  (o = [] → o' = [] ∧ r = (STATUS_SUCCESS, Some v)) ∧
  (r = (STATUS_SUCCESS, Some v) ∨ r = (STATUS_ERR, None)).

Lemma unless_oom_ok {A} (v : A) o o' : (o = [] → o' = []) → unless_oom v o (STATUS_SUCCESS, Some v) o'.
Proof. unfold unless_oom. auto. Qed.

Lemma unless_oom_fail {A} (v : A) o o' : o ≠ [] → unless_oom v o (STATUS_ERR, None) o'.
Proof. unfold unless_oom. naive_solver. Qed.

(** Symbolic execution of code whose only choices are allocations. *)
Ltac alloc_run :=
  repeat first
    [ wp_step; let b := fresh "b" in let o := fresh "o" in let H := fresh "Ho" in
      intros b o H; destruct b; cbn [negb]
    | wp_step
    | progress unfold strdup, sepol_context_create, sepol_context_set_user, sepol_context_set_role,
        sepol_context_set_type, sepol_context_set_mls
    | progress cbn [deref negb sc_user sc_role sc_type sc_mls]
    | progress change (STATUS_ERR <? 0)%Z with true
    | progress change (STATUS_SUCCESS <? 0)%Z with false ];
  try (unfold unless_oom; naive_solver).

Lemma from_string_spec u r t m o :
  no_colon u → no_colon r → no_colon t →
  wp (sepol_context_from_string (record_text u r t m)) o
     (unless_oom (SepolContext (Some u) (Some r) (Some t) m) o).
Proof.
  intros Hu Hr Ht. unfold sepol_context_from_string.
  rewrite bool_decide_false by (destruct m; by apply join3_not_none).
  assert (∃ rest, record_text u r t m = join3 u r rest ∧
    break_at colon rest = (t, match m with None => None | Some m => Some (":"%char, m) end)) as (rest & -> & Hrest).
  { destruct m as [m|]; eexists; (split; [done|]); [by apply break_colon|by apply break_no_colon]. }
  unfold join3. rewrite !break_colon by done. unfold parse_type_mls. rewrite Hrest.
  destruct m as [m|]; alloc_run.
Qed.

Lemma to_string_record_spec con u r t o :
  sc_user con = Some u → sc_role con = Some r → sc_type con = Some t →
  wp (sepol_context_to_string con) o (unless_oom (record_text u r t (sc_mls con)) o).
Proof.
  intros Hu Hr Ht. unfold sepol_context_to_string. rewrite Hu, Hr, Ht.
  destruct (sc_mls con) eqn:E; alloc_run.
Qed.

(** * Contexts of a policy *)

Section symbols.
Context {D : Type} (val_to_name : list (option string)) (tab : symtab D) (value : D → N).

(** [v] is the value of the symbol [name] in both directions. *)
Definition symbol_named (v : N) (name : string) : Prop :=
  0 < v ∧ v < 2 ^ 32 ∧ no_colon name ∧ val_to_name !! N.to_nat (v - 1) = Some (Some name) ∧
  ∃ h d, table tab = Some h ∧ ht_struct h ∧ ht_map h !! name = Some d ∧ value d = v.

Lemma symbol_name v name o :
  symbol_named v name → at_ptr val_to_name (dec32 v) o = Ret name o.
Proof. intros (H0 & H32 & _ & Hn & _). rewrite dec32_pred by done. by apply at_ptr_ok. Qed.

Lemma symbol_search v name o :
  symbol_named v name → ∃ d, hashtab_search (table tab) name o = Ret (Some d) o ∧ value d = v.
Proof.
  intros (_ & _ & _ & _ & h & d & -> & Hs & Hd & Hv). exists d. split; [|done].
  by rewrite search_spec, Hd.
Qed.
End symbols.

Record context_named (p : policydb) (c : context_struct) (u r t : string) : Prop := {
  cn_user : symbol_named (p_user_val_to_name p) (p_users p) user_value (user c) u;
  cn_role : symbol_named (p_role_val_to_name p) (p_roles p) role_value (role c) r;
  cn_type : symbol_named (p_type_val_to_name p) (p_types p) type_value (type c) t;
  cn_plain : ∀ h d, table (p_types p) = Some h → ht_map h !! t = Some d → flavor d ≠ TYPE_ATTRIB }.

Definition range_nameable (p : policydb) (c : context_struct) : Prop :=
  if mls p then range_printable p (range c) ∧ (∀ o s o', mls_sid_to_context p c o = Ret s o' → strlen s < 2 ^ 31)
  else range c = mls_range_init.

(** The MLS field: absent from the records of a policy without MLS. *)
Definition mls_field (p : policydb) (r : mls_range) (m : option string) : Prop :=
  if mls p then ∃ s, m = Some s ∧ range_text p r s else m = None.

Lemma context_to_string_spec p c u r t o :
  context_named p c u r t → range_nameable p c →
  wp (context_to_string p c) o (λ x o', ∃ m, mls_field p (range c) m ∧ unless_oom (record_text u r t m) o x o').
Proof.
  intros [Hu Hr Ht _] Hrange. unfold context_to_string, mls_field, range_nameable in *.
  wp_step. unfold wp at 1. rewrite (symbol_name _ _ _ _ _ _ Hu).
  wp_step. unfold wp at 1. rewrite (symbol_name _ _ _ _ _ _ Hr).
  wp_step. unfold wp at 1. rewrite (symbol_name _ _ _ _ _ _ Ht).
  wp_step. unfold wp at 1. rewrite context_len_sim. destruct (mls p) eqn:Hmls.
  - destruct Hrange as [Hrange Hfits].
    destruct (proj1 (wp_run _ _ _) (sid_to_context_spec p c o Hmls Hrange)) as (s & o1 & Hs & -> & Htext).
    destruct (no_alloc_run _ _ _ _ Hs) as [_ Hall]. apply Hfits in Hs as Hlen. rewrite Hs.
    destruct Htext as (segs0 & segs1 & H0 & Hb0 & H1 & Hb1 & ->).
    wp_step. wp_step. intros b o1 Ho1. destruct b; cbn [negb].
    2: { wp_step. eexists. split; [eexists; split; [done|by exists segs0, segs1]|].
         apply unless_oom_fail. intros ->. by destruct Ho1. }
    wp_step. unfold wp at 1. rewrite Hall. change (2 ^ 31) with 2147483648 in *.
    unfold u32. rewrite N.mod_small by (change (2 ^ 32) with 4294967296; lia).
    rewrite N.eqb_refl, (proj2 (N.leb_gt _ _)) by lia. cbn [negb orb]. wp_step.
    eexists. split; [eexists; split; [done|by exists segs0, segs1]|].
    apply unless_oom_ok. intros Ho. by apply Ho1.
  - assert (∀ o, mls_sid_to_context p c o = Ret ""%string o) as Hs
      by (intros o'; unfold mls_sid_to_context; by rewrite Hmls).
    rewrite Hs. wp_step. wp_step. intros b o1 Ho1. destruct b; cbn [negb].
    2: { wp_step. exists None. split; [done|]. apply unless_oom_fail. intros ->. by destruct Ho1. }
    wp_step. unfold wp at 1. rewrite Hs. cbn [negb orb]. rewrite string_app_nil_r.
    change (negb (strlen "" =? u32 (strlen "")) || (2 ^ 31 <=? u32 (strlen ""))) with false.
    cbv iota. wp_step.
    exists None. split; [done|]. apply unless_oom_ok. intros Ho. by apply Ho1.
Qed.

Definition always_valid (p : policydb) (c : context_struct) : Prop := ∀ o, context_is_valid p c o = Ret true o.

Lemma mls_from_string_spec p c r s o :
  mls p = true → range_printable p r → range_text p r s → range c = mls_range_init →
  wp (mls_from_string p s c) o (λ x o', (o = [] → o' = [] ∧ x.1 = STATUS_SUCCESS) ∧
    (x = (STATUS_SUCCESS, set_range c r) ∨ x.1 = STATUS_ERR)).
Proof.
  intros Hmls Hr (segs0 & segs1 & H0 & Hb0 & H1 & Hb1 & ->) Hc. unfold mls_from_string.
  wp_step. wp_step. intros [] o1 Ho; cbn [negb]; [|wp_step; naive_solver].
  wp_step. eapply wp_mono; [by apply context_to_sid_text_spec|].
  intros [rc c'] o2 [H2 Hcase]. wp_step. simpl in *. split.
  - intros ->. destruct (Ho eq_refl) as [_ ->]. destruct (H2 eq_refl) as [-> ->]. done.
  - destruct Hcase as [[= -> ->]| ->]; [by left|by right].
Qed.

Lemma wp_strdup s o Q :
  (∀ b o', (o = [] → b = true ∧ o' = []) → Q (if b then Some s else None) o') → wp (strdup (Some s)) o Q.
Proof.
  intros H. unfold strdup. cbn [deref]. wp_step. wp_step. wp_step. wp_step. intros b o' Ho.
  wp_step. specialize (H b o' Ho). by destruct b.
Qed.

(** The part of [context_from_record] behind the four allocations. *)
Lemma from_record_spec p c u r t m o :
  context_named p c u r t → range_nameable p c → mls_field p (range c) m → always_valid p c →
  wp (context_from_record p (Some (SepolContext (Some u) (Some r) (Some t) m))) o (unless_oom c o).
Proof.
  intros [Hu Hr Ht Hplain] Hrange Hm Hvalid. unfold context_from_record.
  cbn [deref]. wp_step. wp_step. cbn [sc_user sc_role sc_type sc_mls].
  wp_step. apply wp_strdup. intros b1 o1 H1. wp_step. apply wp_strdup. intros b2 o2 H2.
  wp_step. apply wp_strdup. intros b3 o3 H3. wp_step. apply wp_malloc. intros b4 o4 H4.
  assert (b1 && b2 && b3 && b4 = false → unless_oom c o (STATUS_ERR, None) o4) as Hfail.
  { intros Hb. apply unless_oom_fail. intros ->. destruct (H1 eq_refl) as [-> ->].
    destruct (H2 eq_refl) as [-> ->]. destruct (H3 eq_refl) as [-> ->]. by destruct (H4 eq_refl) as [-> ->]. }
  destruct b1; [|by apply Hfail]. destruct b2; [|by apply Hfail]. destruct b3; [|by apply Hfail].
  destruct b4; cbn [negb]; [|by apply Hfail].
  destruct (symbol_search _ _ _ _ _ o4 Hu) as (du & Hsu & Hvu).
  destruct (symbol_search _ _ _ _ _ o4 Hr) as (dr & Hsr & Hvr).
  pose proof Ht as (_ & _ & _ & _ & ht & dt & Hht & Hst & Hdt & Hvt).
  wp_step. unfold wp at 1. rewrite Hsu. wp_step. unfold wp at 1. rewrite Hsr.
  wp_step. unfold wp at 1. rewrite Hht, search_spec, Hdt by done.
  rewrite (proj2 (N.eqb_neq _ _)) by by eapply Hplain. rewrite Hvu, Hvr, Hvt.
  set (c0 := Context (user c) (role c) (type c) mls_range_init).
  assert (set_range c0 (range c) = c) as Hc0 by by destruct c.
  wp_step. apply wp_mono with (Q := λ x o', (o4 = [] → o' = [] ∧ x.1 = STATUS_SUCCESS) ∧
    (x = (STATUS_SUCCESS, c) ∨ x.1 = STATUS_ERR)).
  - unfold mls_field, range_nameable in *. destruct (mls p) eqn:Hmls.
    + destruct Hm as (s & -> & Hs), Hrange as [Hrange _]. cbn [negb]. rewrite <- Hc0.
      by apply mls_from_string_spec.
    + subst m. wp_step. split; [done|]. left. by rewrite <- Hc0, Hrange.
  - intros [rc c'] o5 [H5 Hcase]. cbn in H5.
    assert (o = [] → o5 = [] ∧ rc = STATUS_SUCCESS) as Ho.
    { intros ->. destruct (H1 eq_refl) as [_ ->], (H2 eq_refl) as [_ ->], (H3 eq_refl) as [_ ->].
      apply H5. by apply H4. }
    destruct Hcase as [[= -> ->]|Herr]; [|cbn in Herr; subst rc].
    + change (STATUS_SUCCESS <? 0)%Z with false. cbv iota. wp_step. unfold wp at 1. rewrite Hvalid. cbn [negb].
      wp_step. apply unless_oom_ok. intros Hn. by apply Ho.
    + change (STATUS_ERR <? 0)%Z with true. cbv iota. wp_step. apply unless_oom_fail.
      intros Hn. by destruct (Ho Hn) as [_ ?].
Qed.

Lemma substring_full s n : (String.length s ≤ n)%nat → String.substring 0 n s = s.
Proof.
  revert n. induction s as [|ch s IH]; intros [|n] Hn; cbn in *; try done; [lia|]. rewrite IH by lia. done.
Qed.

(** ** Validity *)

(** What [context_is_valid] checks besides the MLS fields. *)
Definition roles_authorized (p : policydb) (c : context_struct) : Prop :=
  role c = OBJECT_R_VAL ∨
  ∃ r u, role_val_to_struct p !! N.to_nat (role c - 1) = Some (Some r) ∧
    user_val_to_struct p !! N.to_nat (user c - 1) = Some (Some u) ∧
    ebitmap_bit (role_cache r) (type c - 1) = true ∧ ebitmap_bit (user_cache u) (role c - 1) = true.

Record rbac_policy_wf (p : policydb) : Prop := {
  rp_nprim : nprim (p_roles p) < 2 ^ 32 ∧ nprim (p_users p) < 2 ^ 32 ∧ nprim (p_types p) < 2 ^ 32;
  rp_roles : ∀ v, 0 < v → v ≤ nprim (p_roles p) →
    ∃ r, role_val_to_struct p !! N.to_nat (v - 1) = Some (Some r) ∧ ebitmap_wf (role_cache r);
  rp_users : ∀ v, 0 < v → v ≤ nprim (p_users p) →
    ∃ u, user_val_to_struct p !! N.to_nat (v - 1) = Some (Some u) ∧ ebitmap_wf (user_cache u) }.

Definition in_range (v n : N) : Prop := 0 < v ∧ v ≤ n.

Lemma in_range_test v n : (v =? 0) || (n <? v) = false ↔ in_range v n.
Proof. unfold in_range. destruct (N.eqb_spec v 0), (N.ltb_spec n v); cbn; split; try done; lia. Qed.

Lemma context_valid_spec p levels c o :
  rbac_policy_wf p → mls_policy_wf p levels → mls p = true → range_wf (range c) →
  ∃ b, context_is_valid p c o = Ret b o ∧
    (b = true ↔ in_range (role c) (nprim (p_roles p)) ∧ in_range (user c) (nprim (p_users p)) ∧
                in_range (type c) (nprim (p_types p)) ∧ roles_authorized p c ∧ context_authorized p levels c).
Proof.
  intros [(Hnr & Hnu & Hnt) Hroles Husers] Hwf Hmls Hrange. unfold context_is_valid.
  destruct ((role c =? 0) || _) eqn:Er.
  { exists false. do 2 (split; [done|]). intros (Hx%in_range_test & _). congruence. }
  destruct ((user c =? 0) || _) eqn:Eu.
  { exists false. do 2 (split; [done|]). intros (_ & Hx%in_range_test & _). congruence. }
  destruct ((type c =? 0) || _) eqn:Et.
  { exists false. do 2 (split; [done|]). intros (_ & _ & Hx%in_range_test & _). congruence. }
  apply in_range_test in Er as Hr, Eu as Hu, Et as Ht. clear Er Eu Et.
  destruct (isvalid_spec p levels c o Hwf Hmls Hrange) as (bm & Hbm & Hauth).
  unfold roles_authorized. rewrite bind_run. destruct (N.eqb_spec (role c) OBJECT_R_VAL) as [Hobj|Hobj]; cbn [negb].
  { unfold mret at 1, M_ret at 1. cbn [negb]. exists bm. split; [done|]. rewrite Hauth. naive_solver. }
  destruct (Hroles (role c) (proj1 Hr) (proj2 Hr)) as (rd & Hrd & Hrw).
  destruct (Husers (user c) (proj1 Hu) (proj2 Hu)) as (ud & Hud & Huw).
  destruct Hr, Hu, Ht. rewrite !dec32_pred by lia. rewrite bind_run, (at_ptr_ok _ _ _ _ Hrd).
  rewrite !get_bit_wf by done.
  destruct (ebitmap_bit (role_cache rd) (type c - 1)) eqn:E1; cbn [negb].
  - rewrite bind_run, Hud. cbn [deref]. unfold mret, M_ret. rewrite get_bit_wf by done.
    destruct (ebitmap_bit (user_cache ud) (role c - 1)) eqn:E2; cbn [negb].
    + exists bm. split; [done|]. rewrite Hauth. split; [|naive_solver]. intros Ha. split_and!; try done. right. by exists rd, ud.
    + exists false. split; [done|]. split; [done|]. intros (_ & _ & _ & [?|(r & u & Hr' & Hu' & _ & ?)] & _); [done|].
      congruence.
  - exists false. split; [done|]. split; [done|]. intros (_ & _ & _ & [?|(r & u & Hr' & Hu' & ? & _)] & _); [done|].
    congruence.
Qed.

(** * The properties of context.c and context_record.c *)

(** C27: the text of a context.  [context_from_string] on what
    [context_to_string] printed for a valid context of the policy gives the
    context back, if its user, role and type have names without colons and its
    range can be printed: names of levels that the parser can read, and sets of
    categories without a gap between bitmap nodes inside a run, in less than
    2^31 bytes
    ([mls_gap_prints_range] shows what such a gap does).  On either side only
    an allocation can fail. *)
Theorem context_string_roundtrip p c u r t o :
  context_named p c u r t → range_nameable p c → always_valid p c →
  wp ('(rc, s) ← context_to_string p c;
      match s with
      | None => mret (rc, None)
      | Some s => context_from_string p s (strlen s + 1)
      end) o (unless_oom c o).
Proof.
  intros Hn Hr Hv. wp_step. eapply wp_mono; [by apply context_to_string_spec|].
  intros x o1 (m & Hm & Ho & [-> | ->]).
  2: { wp_step. apply unless_oom_fail. intros ->. by destruct (Ho eq_refl) as [_ [=]]. }
  unfold context_from_string. wp_step. apply wp_malloc. intros [] o2 H2; cbn [negb].
  2: { wp_step. apply unless_oom_fail. intros ->. destruct (Ho eq_refl) as [-> _]. by destruct H2. }
  rewrite (proj2 (N.ltb_ge _ _)), substring_full by (unfold strlen; lia).
  pose proof Hn as [Hu Hrr Ht _]. wp_step. eapply wp_mono; [apply from_string_spec; [apply Hu|apply Hrr|apply Ht]|].
  intros y o3 (H3 & [-> | ->]).
  2: { change (STATUS_ERR <? 0)%Z with true. cbv iota. wp_step. apply unless_oom_fail. intros ->. destruct (Ho eq_refl) as [-> _].
       destruct (H2 eq_refl) as [_ ->]. by destruct (H3 eq_refl). }
  change (STATUS_SUCCESS <? 0)%Z with false. cbv iota. wp_step.
  eapply wp_mono; [by apply from_record_spec|]. intros z o4 (H4 & [-> | ->]).
  - change (STATUS_SUCCESS <? 0)%Z with false. cbv iota. wp_step. apply unless_oom_ok.
    intros ->. destruct (Ho eq_refl) as [-> _]. destruct (H2 eq_refl) as [_ ->].
    destruct (H3 eq_refl) as [-> _]. by destruct (H4 eq_refl).
  - change (STATUS_ERR <? 0)%Z with true. cbv iota. wp_step. apply unless_oom_fail.
    intros ->. destruct (Ho eq_refl) as [-> _]. destruct (H2 eq_refl) as [_ ->].
    destruct (H3 eq_refl) as [-> _]. by destruct (H4 eq_refl).
Qed.

(** C28: when a context is valid.  On a policy with complete tables
    [context_is_valid] accepts exactly the contexts whose user, role and type
    are defined, whose role is authorized for the type and user for the role
    (except [object_r]), and whose MLS range is authorized. *)
Theorem context_is_valid_exact p levels c o :
  rbac_policy_wf p → mls_policy_wf p levels → mls p = true → range_wf (range c) →
  ∃ b, context_is_valid p c o = Ret b o ∧
    (b = true ↔ in_range (role c) (nprim (p_roles p)) ∧ in_range (user c) (nprim (p_users p)) ∧
                in_range (type c) (nprim (p_types p)) ∧ roles_authorized p c ∧ context_authorized p levels c).
Proof. apply context_valid_spec. Qed.

(** [sepol_context_from_string] accepts the text <<none>> with a NULL
    record, which [context_from_record] dereferences: converting that text
    to a context of a policy is undefined for every policy. *)
Theorem context_from_none_undefined p :
  sepol_context_from_string "<<none>>" [] = Ret (STATUS_SUCCESS, None) [] ∧
  context_from_string p "<<none>>" 9 [] = UB.
Proof. done. Qed.

(** ** Examples *)

Lemma ex_context_named : context_named ex_policy ex_mls_context "user_u" "role_r" "c_t".
Proof.
  split.
  1-3: split_and!; try done; eexists _, _; split_and!; [done|ex_struct|vm_compute; reflexivity|done].
  intros h d [= <-] Hd. vm_compute in Hd. by injection Hd as <-.
Qed.

Lemma ex_context_valid : always_valid ex_policy ex_mls_context.
Proof. intros o. by vm_compute. Qed.

Lemma context_string_roundtrip_witness :
  wp ('(rc, s) ← context_to_string ex_policy ex_mls_context;
      match s with
      | None => mret (rc, None)
      | Some s => context_from_string ex_policy s (strlen s + 1)
      end) [] (λ r o', r = (STATUS_SUCCESS, Some ex_mls_context)).
Proof.
  eapply wp_mono;
    [apply (context_string_roundtrip ex_policy ex_mls_context "user_u" "role_r" "c_t" []);
       [apply ex_context_named| |apply ex_context_valid]|].
  - split; [apply ex_printable|]. intros o s o' Hs.
    assert (mls_sid_to_context ex_policy ex_mls_context o = Ret ":s0:c0.c2-s1:c0.c2,c4"%string o) as H by by vm_compute.
    rewrite H in Hs. by injection Hs as <- _.
  - intros r o' [H _]. by apply H.
Defined.

Lemma ex_rbac_wf : rbac_policy_wf ex_policy.
Proof.
  split; [done|..]; intros v Hv Hmax; cbn in Hmax.
  - assert (v = 1 ∨ v = 2) as [-> | ->] by lia; eexists; (split; [done|by_decide]).
  - assert (v = 1) as -> by lia. eexists. split; [done|by_decide].
Qed.

Lemma context_is_valid_exact_witness :
  context_is_valid ex_policy ex_mls_context [] = Ret true [] ∧ roles_authorized ex_policy ex_mls_context.
Proof.
  destruct (context_is_valid_exact ex_policy ex_levels ex_mls_context [] ex_rbac_wf ex_policy_wf eq_refl
              ltac:(by_decide)) as (b & Hb & Hauth).
  assert (b = true) as -> by (vm_compute in Hb; congruence). split; [done|]. by apply Hauth.
Defined.
