(* ===== verification/Conditional.v ===== *)
(** Conditional policy: libsepol/src/conditional.c.

    Evaluation of conditional expressions in reverse polish notation, switching
    the rules of conditional blocks on and off, the normal form of expressions
    that is used to compare blocks, and the contribution of the conditional
    table to an access decision.  The arrays of Booleans are made in
    [PolicyIndex]. *)

From stdpp Require Import sorting.
From S2P Require Import Prelude Ebitmap Hashtab MlsTypes Avtab Policydb.
Local Open Scope N_scope.

Definition COND_BOOL : N := 1.
Definition COND_NOT : N := 2.
Definition COND_OR : N := 3.
Definition COND_AND : N := 4.
Definition COND_XOR : N := 5.
Definition COND_EQ : N := 6.
Definition COND_NEQ : N := 7.
Definition COND_EXPR_MAXDEPTH : nat := 10.
Definition COND_MAX_BOOLS : N := 5.

(** * Rules of the conditional table *)

Definition node_at (tab : avtab) (ptr : avtab_ptr) : option avtab_node :=
  t ← av_htable tab; c ← t !! ptr.1; c !! ptr.2.

(** [ptr->key.specified = f(ptr->key.specified)] *)
Definition set_specified (tab : avtab) (ptr : avtab_ptr) (f : N → N) : M avtab :=
  t ← deref (av_htable tab);
  c ← deref (t !! ptr.1);
  n ← deref (c !! ptr.2);
  let k := av_key n in
  let n' := AvtabNode (AvtabKey (source_type k) (target_type k) (target_class k) (f (specified k)))
              (av_datum n) (merged n) in
  mret (Avtab (Some (<[ptr.1 := <[ptr.2 := n']> c]> t)) (av_nel tab) (nslot tab) (mask tab)).

(** [specified |= AVTAB_ENABLED] and [specified &= ~AVTAB_ENABLED] *)
Definition rule_on (spec : N) : N := N.lor spec AVTAB_ENABLED.
Definition rule_off (spec : N) : N := N.ldiff spec AVTAB_ENABLED.

(** * Ordering the lists *)

(** [moved] are the nodes moved to the top, [passed] those the cursor went
    over, latest first; only the first node of the list is the initial top. *)
Fixpoint cond_optimize_loop (is_type : avtab_ptr → bool) (moved passed cur : list avtab_ptr)
    : list avtab_ptr :=
  match cur with
  | [] => moved ++ reverse passed
  | n :: next =>
      let is_top := match moved, passed with [], [] => true | _, _ => false end in
      if is_type n && negb is_top
      then cond_optimize_loop is_type (n :: moved) passed next
      else cond_optimize_loop is_type moved (n :: passed) next
  end.

Definition ptr_is_type (tab : avtab) (ptr : avtab_ptr) : bool :=
  match node_at tab ptr with
  | Some n => truth (N.land (specified (av_key n)) AVTAB_TYPE)
  | None => false
  end.

Definition cond_optimize (tab : avtab) (l : list avtab_ptr) : M (list avtab_ptr) :=
  if forallb (λ ptr, match node_at tab ptr with Some _ => true | None => false end) l
  then mret (cond_optimize_loop (ptr_is_type tab) [] [] l) else ub.

Definition set_lists (n : cond_node) (t f : list avtab_ptr) : cond_node :=
  CondNode (cur_state n) (cond_exprs n) t f (avtrue_list n) (avfalse_list n) (nbools n) (bool_ids n)
    (expr_pre_comp n) (cond_flags n).

Fixpoint cond_optimize_lists (tab : avtab) (cl : list cond_node) : M (list cond_node) :=
  match cl with
  | [] => mret []
  | n :: cl' =>
      t ← cond_optimize tab (true_list n);
      f ← cond_optimize tab (false_list n);
      r ← cond_optimize_lists tab cl';
      mret (set_lists n t f :: r)
  end.

(** * Comparing expressions *)

(** [target] among the first [num_bools] of [bools]. *)
Definition bool_present (target : N) (bools : list N) (num_bools : N) : bool :=
  if COND_MAX_BOOLS <? num_bools then false else
  existsb (λ b, target =? b) (take (N.to_nat num_bools) bools).

Definition same_bools (a b : cond_node) : bool :=
  let x := nbools a in
  if negb (x =? nbools b) then false else
  forallb (λ i, bool_present i (bool_ids b) x) (take (N.to_nat x) (bool_ids a)).

Fixpoint exprs_equal (a b : list cond_expr) : bool :=
  match a, b with
  | [], [] => true
  | [], _ :: _ | _ :: _, [] => false
  | x :: a', y :: b' =>
      if negb (cexpr_type x =? cexpr_type y) then false else
      if (cexpr_type x =? COND_BOOL) && negb (cexpr_bool x =? cexpr_bool y) then false
      else exprs_equal a' b'
  end.

Definition cond_expr_equal (a b : option cond_node) : bool :=
  match a, b with
  | Some a, Some b =>
      if negb (nbools a =? nbools b) then false else
      if (nbools a <=? COND_MAX_BOOLS) && (nbools b <=? COND_MAX_BOOLS) then
        if negb (same_bools a b) then false else expr_pre_comp a =? expr_pre_comp b
      else exprs_equal (cond_exprs a) (cond_exprs b)
  | _, _ => false
  end.

(** * Evaluation *)

(** The stack, top first: [s[sp]] is its head, [s[0]] its last element. *)
Definition binary (f : Z → Z → Z) (s : list Z) : option (list Z) :=
  match s with b :: a :: s' => Some (f a b :: s') | _ => None end.

Definition z_of_bool (b : bool) : Z := if b then 1%Z else 0%Z.

Definition cond_step (load : N → M Z) (cur : cond_expr) (s : list Z) : M (option (list Z)) :=
  let ty := cexpr_type cur in
  if ty =? COND_BOOL then
    if Nat.eqb (length s) COND_EXPR_MAXDEPTH then mret None else
    v ← load (cexpr_bool cur);
    mret (Some (v :: s))
  else if ty =? COND_NOT then
    mret match s with [] => None | a :: s' => Some (z_of_bool (a =? 0)%Z :: s') end
  else if ty =? COND_OR then mret (binary Z.lor s)
  else if ty =? COND_AND then mret (binary Z.land s)
  else if ty =? COND_XOR then mret (binary Z.lxor s)
  else if ty =? COND_EQ then mret (binary (λ a b, z_of_bool (a =? b)%Z) s)
  else if ty =? COND_NEQ then mret (binary (λ a b, z_of_bool (negb (a =? b)%Z)) s)
  else mret None.

Fixpoint cond_eval_loop (load : N → M Z) (exprs : list cond_expr) (s : list Z) : M Z :=
  match exprs with
  | [] => mret (List.last s (-1)%Z)
  | cur :: next =>
      r ← cond_step load cur s;
      match r with
      | None => mret (-1)%Z
      | Some s' => cond_eval_loop load next s'
      end
  end.

(** [p->bool_val_to_struct[b - 1]->state] *)
Definition load_bool (bools : list (option cond_bool_datum)) (b : N) : M Z :=
  d ← at_ptr bools (dec32 b);
  mret (state d).

Definition cond_evaluate_expr (p : policydb) (exprs : list cond_expr) : M Z :=
  cond_eval_loop (load_bool (bool_val_to_struct p)) exprs [].

Fixpoint cond_copy_expr (exprs : list cond_expr) : M (option (list cond_expr)) :=
  match exprs with
  | [] => mret (Some [])
  | cur :: next =>
      b ← malloc;
      if negb b then mret None else
      r ← cond_copy_expr next;
      mret (cons (CondExpr (cexpr_type cur) (cexpr_bool cur)) <$> r)
  end.

(** * Conditional blocks *)

(** A copy of an empty expression is NULL, which counts as a failure. *)
Definition cond_node_create (p : policydb) (node : option cond_node) : M (option cond_node) :=
  b ← malloc;
  if negb b then mret None else
  match node with
  | None => mret (Some (CondNode 0 [] [] [] 0 0 0 (replicate 5 0) 0 0))
  | Some n =>
      r ← cond_copy_expr (cond_exprs n);
      match r with
      | None | Some [] => mret None
      | Some exprs =>
          st ← cond_evaluate_expr p exprs;
          let ids := take (N.to_nat (N.min (nbools n) COND_MAX_BOOLS)) (bool_ids n) in
          mret (Some (CondNode st exprs [] [] 0 0 (nbools n) (ids ++ replicate (5 - length ids) 0)
                        (expr_pre_comp n) (cond_flags n)))
      end
  end.

(** The result and [was_created]. *)
Definition cond_node_find (p : policydb) (needle : option cond_node) (haystack : list cond_node)
    : M (option cond_node * bool) :=
  match List.find (λ n, cond_expr_equal needle (Some n)) haystack with
  | Some n => mret (Some n, false)
  | None => r ← cond_node_create p needle; mret (r, true)
  end.

Definition cond_node_search (p : policydb) (l : list cond_node) (cn : option cond_node)
    : M (option cond_node * policydb) :=
  '(result, was_created) ← cond_node_find p cn l;
  match result with
  | Some n =>
      mret (result, if (was_created : bool)
                    then set_bools p (bool_val_to_struct p) (te_cond_avtab p) (n :: cond_list p)
                    else p)
  | None => mret (result, p)
  end.

Definition set_state (n : cond_node) (st : Z) : cond_node :=
  CondNode st (cond_exprs n) (true_list n) (false_list n) (avtrue_list n) (avfalse_list n) (nbools n)
    (bool_ids n) (expr_pre_comp n) (cond_flags n).

(** One of the two loops: every rule of the list on or off. *)
Fixpoint switch_rules (on : bool) (l : list avtab_ptr) (tab : avtab) : M avtab :=
  match l with
  | [] => mret tab
  | ptr :: l' =>
      tab ← set_specified tab ptr (if on then rule_on else rule_off);
      switch_rules on l' tab
  end.

Definition evaluate_cond_node (p : policydb) (node : cond_node) (tab : avtab)
    : M (cond_node * avtab) :=
  new_state ← cond_evaluate_expr p (cond_exprs node);
  if (new_state =? cur_state node)%Z then mret (node, tab) else
  tab ← switch_rules (0 <? new_state)%Z (true_list node) tab;
  tab ← switch_rules (new_state =? 0)%Z (false_list node) tab;
  mret (set_state node new_state, tab).

Fixpoint evaluate_nodes (p : policydb) (l : list cond_node) (tab : avtab)
    : M (list cond_node * avtab) :=
  match l with
  | [] => mret ([], tab)
  | n :: l' =>
      '(n, tab) ← evaluate_cond_node p n tab;
      '(r, tab) ← evaluate_nodes p l' tab;
      mret (n :: r, tab)
  end.

Definition evaluate_conds (p : policydb) : M (Z * policydb) :=
  '(l, tab) ← evaluate_nodes p (cond_list p) (te_cond_avtab p);
  mret (0%Z, set_bools p (bool_val_to_struct p) tab l).

(** * Normal form *)

(** The loop that looks for the booleans of an expression. *)
Fixpoint find_bools (exprs : list cond_expr) (ids : list N) (n : N) : list N * N :=
  match exprs with
  | [] => (ids, n)
  | e :: next =>
      if cexpr_type e =? COND_BOOL then
        if bool_present (cexpr_bool e) ids n then find_bools next ids n
        else if n <? COND_MAX_BOOLS
        then find_bools next (<[N.to_nat n := cexpr_bool e]> ids) (n + 1)
        else find_bools next ids (n + 1)
      else find_bools next ids n
  end.

(** [p->bool_val_to_struct[b - 1]->state = v] *)
Definition store_bool (bools : list (option cond_bool_datum)) (b : N) (v : Z)
    : M (list (option cond_bool_datum)) :=
  d ← at_ptr bools (dec32 b);
  mret (<[N.to_nat (dec32 b) := Some (CondBoolDatum (bool_value d) v (bool_flags d))]> bools).

Fixpoint load_bools (bools : list (option cond_bool_datum)) (ids : list N) : M (list Z) :=
  match ids with
  | [] => mret []
  | b :: ids' => v ← load_bool bools b; r ← load_bools bools ids'; mret (v :: r)
  end.

Fixpoint store_bools (bools : list (option cond_bool_datum)) (ids : list N) (vs : list Z)
    : M (list (option cond_bool_datum)) :=
  match ids, vs with
  | b :: ids', v :: vs' => bools ← store_bool bools b v; store_bools bools ids' vs'
  | _, _ => mret bools
  end.

(** The values that the combination [test] gives to [n] booleans. *)
Definition test_values (test : N) (n : nat) : list Z :=
  (λ j, z_of_bool (N.testbit test (N.of_nat j))) <$> seq 0 n.

(** One combination: [inl] is an undefined result. *)
Definition precomp_step (exprs : list cond_expr) (ids : list N) (test : N)
    (st : list (option cond_bool_datum) * N)
    : M (list (option cond_bool_datum) * N + list (option cond_bool_datum) * N) :=
  let '(bools, comp) := st in
  bools ← store_bools bools ids (test_values test (length ids));
  k ← cond_eval_loop (load_bool bools) exprs [];
  if (k =? -1)%Z then mret (inl (bools, comp)) else
  mret (inr (bools, if (k =? 0)%Z then comp else N.lor comp (N.shiftl 1 test))).

Definition cond_normalize_expr (p : policydb) (cn : cond_node) : M (Z * policydb * cond_node) :=
  match reverse (cond_exprs cn) with
  | [] => ub
  | e :: rev_ne =>
      let is_not := cexpr_type e =? COND_NOT in
      if is_not && match rev_ne with [] => true | _ => false end then
        mret ((-1)%Z, p, CondNode (cur_state cn) (cond_exprs cn) (true_list cn) (false_list cn)
                        (avtrue_list cn) (avfalse_list cn) 0 (replicate 5 0) 0 (cond_flags cn)) else
      let exprs := if is_not then reverse rev_ne else cond_exprs cn in
      let '(ids, n) := find_bools exprs (replicate 5 0) 0 in
      let result (comp : N) :=
        if is_not then
          CondNode (cur_state cn) exprs (false_list cn) (true_list cn) (avfalse_list cn) (avtrue_list cn)
            n ids comp (cond_flags cn)
        else
          CondNode (cur_state cn) exprs (true_list cn) (false_list cn) (avtrue_list cn) (avfalse_list cn)
            n ids comp (cond_flags cn) in
      if n <=? COND_MAX_BOOLS then
        let used := take (N.to_nat n) ids in
        orig ← load_bools (bool_val_to_struct p) used;
        r ← for_up (precomp_step exprs used) (N.to_nat (N.shiftl 1 n)) 0 (bool_val_to_struct p, 0);
        match r with
        | inl (bools, comp) =>
            mret ((-1)%Z, set_bools p bools (te_cond_avtab p) (cond_list p), result comp)
        | inr (bools, comp) =>
            bools ← store_bools bools used orig;
            mret (0%Z, set_bools p bools (te_cond_avtab p) (cond_list p), result comp)
        end
      else mret (0%Z, p, result 0)
  end.

(** * Decisions *)

Record av_decision := AvDecision {
  allowed : N; decided : N; auditallow : N; auditdeny : N; seqno : N }.

(** What one rule adds to a decision. *)
Definition cond_add_rule (n : avtab_node) (avd : av_decision) : av_decision :=
  let spec := specified (av_key n) in
  let enabled (kind : N) := N.lor kind AVTAB_ENABLED =? N.land spec (N.lor kind AVTAB_ENABLED) in
  let d := data (av_datum n) in
  AvDecision (if enabled AVTAB_ALLOWED then N.lor (allowed avd) d else allowed avd)
    (decided avd)
    (if enabled AVTAB_AUDITALLOW then N.lor (auditallow avd) d else auditallow avd)
    (if enabled AVTAB_AUDITDENY then N.land (auditdeny avd) d else auditdeny avd)
    (seqno avd).

Definition cond_compute_av (ctab : option avtab) (key : avtab_key) (avd : av_decision) : M av_decision :=
  match ctab with
  | None => mret avd
  | Some tab => for_each_match tab key cond_add_rule avd
  end.

Fixpoint cond_av_list_search (tab : avtab) (key : avtab_key) (l : list avtab_ptr)
    : M (option avtab_datum) :=
  match l with
  | [] => mret None
  | ptr :: l' =>
      n ← deref (node_at tab ptr);
      let k := av_key n in
      if (source_type k =? source_type key) && (target_type k =? target_type key) &&
         (target_class k =? target_class key)
      then mret (Some (av_datum n)) else cond_av_list_search tab key l'
  end.

(** * Expressions and their meaning *)

Inductive bop := OpOr | OpAnd | OpXor | OpEq | OpNeq.
Inductive bexp := BVar (b : N) | BNot (e : bexp) | BBin (op : bop) (e1 e2 : bexp).

Definition op_code (op : bop) : N :=
  match op with OpOr => COND_OR | OpAnd => COND_AND | OpXor => COND_XOR | OpEq => COND_EQ | OpNeq => COND_NEQ end.
Definition op_eval (op : bop) : bool → bool → bool :=
  match op with OpOr => orb | OpAnd => andb | OpXor => xorb | OpEq => eqb | OpNeq => λ a b, negb (eqb a b) end.

Fixpoint beval (env : N → bool) (e : bexp) : bool :=
  match e with
  | BVar b => env b
  | BNot e => negb (beval env e)
  | BBin op e1 e2 => op_eval op (beval env e1) (beval env e2)
  end.

(** Reverse polish notation and the stack it needs. *)
Fixpoint rpn (e : bexp) : list cond_expr :=
  match e with
  | BVar b => [CondExpr COND_BOOL b]
  | BNot e => rpn e ++ [CondExpr COND_NOT 0]
  | BBin op e1 e2 => rpn e1 ++ rpn e2 ++ [CondExpr (op_code op) 0]
  end.

Fixpoint stack_depth (e : bexp) : nat :=
  match e with
  | BVar _ => 1
  | BNot e => stack_depth e
  | BBin _ e1 e2 => Nat.max (stack_depth e1) (S (stack_depth e2))
  end.

Fixpoint bvars (e : bexp) : list N :=
  match e with BVar b => [b] | BNot e => bvars e | BBin _ e1 e2 => bvars e1 ++ bvars e2 end.

Lemma depth_pos e : (0 < stack_depth e)%nat.
Proof. induction e; cbn [stack_depth]; lia. Qed.

Section evaluation.
Context (load : N → M Z) (env : N → bool).

Definition loads (l : list N) : Prop := ∀ b o, b ∈ l → load b o = Ret (z_of_bool (env b)) o.

Lemma loads_app l1 l2 : loads (l1 ++ l2) → loads l1 ∧ loads l2.
Proof. intros H. split; intros b o Hb; apply H; set_solver. Qed.

Lemma op_step op a b s o :
  cond_step load (CondExpr (op_code op) 0) (z_of_bool b :: z_of_bool a :: s) o =
  Ret (Some (z_of_bool (op_eval op a b) :: s)) o.
Proof. by destruct op, a, b. Qed.

Lemma eval_rpn e s rest o :
  loads (bvars e) → (length s + stack_depth e ≤ COND_EXPR_MAXDEPTH)%nat →
  cond_eval_loop load (rpn e ++ rest) s o = cond_eval_loop load rest (z_of_bool (beval env e) :: s) o.
Proof.
  revert s rest o. induction e as [b|e IH|op e1 IH1 e2 IH2]; intros s rest o Hl Hd; cbn [rpn bvars stack_depth] in *.
  - cbn [app cond_eval_loop]. rewrite bind_run. unfold cond_step. cbn [cexpr_type cexpr_bool N.eqb].
    change (COND_BOOL =? COND_BOOL) with true. cbv iota.
    rewrite (proj2 (Nat.eqb_neq _ _)) by lia. rewrite bind_run, Hl by set_solver. done.
  - rewrite <- app_assoc, IH by done. cbn [app cond_eval_loop]. rewrite bind_run.
    by destruct (beval env e) eqn:E; cbn; rewrite E.
  - apply loads_app in Hl as [Hl1 Hl2]. rewrite <- !app_assoc, IH1, IH2 by (done || cbn [length]; lia).
    cbn [app cond_eval_loop]. by rewrite bind_run, op_step.
Qed.

Lemma eval_rpn_deep e s rest o :
  loads (bvars e) → (length s ≤ COND_EXPR_MAXDEPTH)%nat →
  (COND_EXPR_MAXDEPTH < length s + stack_depth e)%nat →
  cond_eval_loop load (rpn e ++ rest) s o = Ret (-1)%Z o.
Proof.
  revert s rest o. induction e as [b|e IH|op e1 IH1 e2 IH2]; intros s rest o Hl Hs Hd; cbn [rpn bvars stack_depth] in *.
  - cbn [app cond_eval_loop]. rewrite bind_run. unfold cond_step. cbn [cexpr_type cexpr_bool].
    change (COND_BOOL =? COND_BOOL) with true. cbv iota. by rewrite (proj2 (Nat.eqb_eq _ _)) by lia.
  - rewrite <- app_assoc. by apply IH.
  - apply loads_app in Hl as [Hl1 Hl2]. rewrite <- !app_assoc.
    destruct (decide (COND_EXPR_MAXDEPTH < length s + stack_depth e1)%nat) as [?|Hle]; [by apply IH1|].
    rewrite eval_rpn by (done || lia). apply IH2; [done|cbn [length]..].
    all: pose proof (depth_pos e1); lia.
Qed.

End evaluation.

(** A boolean variable that the policy defines, with its value. *)
Definition bool_defined (bools : list (option cond_bool_datum)) (b : N) : Prop :=
  0 < b ∧ b < 2 ^ 32 ∧ ∃ d, bools !! N.to_nat (b - 1) = Some (Some d) ∧ (state d = 0%Z ∨ state d = 1%Z).

Definition bool_env (bools : list (option cond_bool_datum)) (b : N) : bool :=
  match bools !! N.to_nat (b - 1) with Some (Some d) => negb (state d =? 0)%Z | _ => false end.

Lemma load_defined bools l :
  Forall (bool_defined bools) l → loads (load_bool bools) (bool_env bools) l.
Proof.
  intros Hl b o Hb. rewrite Forall_forall in Hl. apply Hl in Hb as (H0 & H32 & d & Hd & Hst).
  unfold load_bool, bool_env. rewrite bind_run, dec32_pred by done.
  rewrite (at_ptr_ok _ _ _ _ Hd), Hd. by destruct Hst as [-> | ->].
Qed.

Lemma evaluate_spec p e o :
  Forall (bool_defined (bool_val_to_struct p)) (bvars e) →
  cond_evaluate_expr p (rpn e) o =
    Ret (if (stack_depth e <=? COND_EXPR_MAXDEPTH)%nat
         then z_of_bool (beval (bool_env (bool_val_to_struct p)) e) else (-1)%Z) o.
Proof.
  intros Hv%load_defined. unfold cond_evaluate_expr. rewrite <- (app_nil_r (rpn e)).
  destruct (Nat.leb_spec (stack_depth e) COND_EXPR_MAXDEPTH) as [Hle|Hgt].
  - by rewrite (eval_rpn _ (bool_env (bool_val_to_struct p))).
  - apply (eval_rpn_deep _ (bool_env (bool_val_to_struct p))); [done|cbn; lia..].
Qed.

(** * Decisions *)

Definition rule_kind (kind : N) (n : avtab_node) : bool :=
  N.lor kind AVTAB_ENABLED =? N.land (specified (av_key n)) (N.lor kind AVTAB_ENABLED).

(** A bit of a mask after the rules of [l] have been added with [cond_add_rule]. *)
Lemma add_rules_bits l avd i :
  let avd' := foldl (λ a n, cond_add_rule n a) avd l in
  N.testbit (allowed avd') i =
    N.testbit (allowed avd) i || existsb (λ n, rule_kind AVTAB_ALLOWED n && N.testbit (data (av_datum n)) i) l ∧
  N.testbit (auditallow avd') i =
    N.testbit (auditallow avd) i ||
    existsb (λ n, rule_kind AVTAB_AUDITALLOW n && N.testbit (data (av_datum n)) i) l ∧
  N.testbit (auditdeny avd') i =
    N.testbit (auditdeny avd) i &&
    forallb (λ n, negb (rule_kind AVTAB_AUDITDENY n) || N.testbit (data (av_datum n)) i) l ∧
  decided avd' = decided avd ∧ seqno avd' = seqno avd.
Proof.
  revert avd. induction l as [|n l IH]; intros avd; cbn [foldl existsb forallb].
  { by rewrite !orb_false_r, andb_true_r. }
  destruct (IH (cond_add_rule n avd)) as (-> & -> & -> & -> & ->). unfold cond_add_rule, rule_kind.
  cbn [allowed auditallow auditdeny decided seqno]. rewrite !orb_assoc, andb_assoc.
  repeat (split; [f_equal; case_match; rewrite ?N.lor_spec, ?N.land_spec; by destruct (N.testbit _ i)|]).
  done.
Qed.

(** * Switching rules *)

Definition rule_enabled (n : avtab_node) : bool := N.testbit (specified (av_key n)) 15.

Definition switched (on : bool) (n : avtab_node) : avtab_node :=
  let k := av_key n in
  AvtabNode (AvtabKey (source_type k) (target_type k) (target_class k)
               ((if on then rule_on else rule_off) (specified k))) (av_datum n) (merged n).

(** Two tables with the same rules up to [AVTAB_ENABLED]. *)
Definition same_rule (n n' : avtab_node) : Prop :=
  source_type (av_key n') = source_type (av_key n) ∧ target_type (av_key n') = target_type (av_key n) ∧
  target_class (av_key n') = target_class (av_key n) ∧
  rule_off (specified (av_key n')) = rule_off (specified (av_key n)) ∧
  av_datum n' = av_datum n ∧ merged n' = merged n.

Definition same_rules (a b : avtab) : Prop :=
  av_nel b = av_nel a ∧ nslot b = nslot a ∧ mask b = mask a ∧
  option_Forall2 (Forall2 (Forall2 same_rule)) (av_htable a) (av_htable b).

#[global] Instance same_rule_equiv : Equivalence same_rule.
Proof.
  split.
  - intros n. by unfold same_rule.
  - intros n m (?&?&?&?&?&?). by unfold same_rule.
  - intros n m k (?&?&?&?&?&?) (?&?&?&?&?&?). unfold same_rule. split_and!; congruence.
Qed.

#[global] Instance same_rules_preorder : PreOrder same_rules.
Proof.
  split.
  - intros a. unfold same_rules. split_and!; try done.
  - intros a b c (?&?&?&Hab) (?&?&?&Hbc). unfold same_rules. split_and!; try congruence.
    destruct (av_htable a), (av_htable b), (av_htable c); inversion_clear Hab; inversion_clear Hbc; constructor.
    by etrans.
Qed.

Lemma rule_off_on x : rule_off (rule_on x) = rule_off x.
Proof. apply N.bits_inj. intros i. unfold rule_off, rule_on. rewrite !N.ldiff_spec, N.lor_spec. by destruct (N.testbit x i), (N.testbit _ i). Qed.

Lemma rule_off_off x : rule_off (rule_off x) = rule_off x.
Proof. apply N.bits_inj. intros i. unfold rule_off. rewrite !N.ldiff_spec. by destruct (N.testbit x i), (N.testbit _ i). Qed.

Lemma switched_same on n : same_rule n (switched on n).
Proof. unfold same_rule. destruct on; cbn; by rewrite ?rule_off_on, ?rule_off_off. Qed.

Lemma switched_enabled on n : rule_enabled (switched on n) = on.
Proof.
  unfold rule_enabled, switched. cbn [av_key specified]. unfold rule_on, rule_off, AVTAB_ENABLED. destruct on.
  - by rewrite N.lor_spec, orb_true_r.
  - by rewrite N.ldiff_spec, andb_false_r.
Qed.

Lemma switched_idemp on n : switched on (switched on n) = switched on n.
Proof.
  unfold switched. destruct n as [[s t c sp] d m], on; cbn; do 2 f_equal.
  - unfold rule_on. by rewrite <- N.lor_assoc, N.lor_diag.
  - apply rule_off_off.
Qed.

Lemma node_at_split tab ptr n :
  node_at tab ptr = Some n →
  ∃ t c, av_htable tab = Some t ∧ t !! ptr.1 = Some c ∧ c !! ptr.2 = Some n.
Proof.
  unfold node_at. intros (t & Ht & (c & Hc & Hn)%bind_Some)%bind_Some. by exists t, c.
Qed.

Lemma Forall2_update {A} (R : relation A) `{!Reflexive R} l i a b :
  l !! i = Some a → R a b → Forall2 R l (<[i := b]> l).
Proof. intros Hi Hab. rewrite <- (list_insert_id l i a) at 1 by done. by apply Forall2_insert. Qed.

Lemma set_specified_spec tab ptr n (on : bool) o :
  node_at tab ptr = Some n →
  ∃ tab', set_specified tab ptr (if on then rule_on else rule_off) o = Ret tab' o ∧ same_rules tab tab' ∧
    ∀ q, node_at tab' q = if decide (q = ptr) then Some (switched on n) else node_at tab q.
Proof.
  intros Hn. destruct (node_at_split _ _ _ Hn) as (t & c & Ht & Hc & Hc').
  unfold set_specified. rewrite !bind_run, Ht. cbn [deref mret M_ret].
  unfold mret, M_ret. rewrite bind_run, Hc. cbn [deref]. unfold mret, M_ret. rewrite bind_run, Hc'.
  cbn [deref]. unfold mret, M_ret. eexists. split; [done|]. split.
  - unfold same_rules. cbn [av_nel nslot mask av_htable]. split_and!; try done. rewrite Ht. constructor.
    apply (Forall2_update _ _ _ c); [done|]. apply (Forall2_update _ _ _ n); [done|]. apply switched_same.
  - intros [i j]. destruct ptr as [i' j']. unfold node_at. cbn [av_htable fst snd] in *. rewrite Ht. cbn.
    destruct (decide (i = i')) as [->|Hi].
    + rewrite list_lookup_insert_eq by (by eapply lookup_lt_Some). rewrite Hc. cbn.
      destruct (decide (j = j')) as [->|Hj].
      * rewrite list_lookup_insert_eq, decide_True by (done || by eapply lookup_lt_Some). by destruct on.
      * rewrite list_lookup_insert_ne, decide_False by congruence. done.
    + rewrite list_lookup_insert_ne, decide_False by congruence. done.
Qed.

Definition ptr_valid (tab : avtab) (ptr : avtab_ptr) : Prop := is_Some (node_at tab ptr).

Lemma switch_rules_spec on l tab o :
  Forall (ptr_valid tab) l →
  ∃ tab', switch_rules on l tab o = Ret tab' o ∧ same_rules tab tab' ∧
    ∀ q, node_at tab' q = (if decide (q ∈ l) then switched on else id) <$> node_at tab q.
Proof.
  revert tab. induction l as [|ptr l IH]; intros tab Hv.
  { exists tab. split; [done|]. split; [done|]. intros q. rewrite decide_False by apply not_elem_of_nil.
    by rewrite option_fmap_id. }
  apply Forall_cons in Hv as [[n Hn] Hv]. cbn [switch_rules]. rewrite bind_run.
  destruct (set_specified_spec tab ptr n on o Hn) as (tab1 & -> & H1 & Hq1).
  destruct (IH tab1) as (tab' & -> & H2 & Hq2).
  { apply Forall_forall. intros q Hq. rewrite Forall_forall in Hv. unfold ptr_valid. rewrite Hq1.
    case_decide; [done|by apply Hv]. }
  exists tab'. split; [done|]. split; [by etrans|]. intros q. rewrite Hq2, Hq1.
  destruct (decide (q = ptr)) as [->|Hne].
  - rewrite (decide_True (P := ptr ∈ ptr :: l)), Hn by set_solver. cbn. f_equal.
    case_decide; [apply switched_idemp|done].
  - destruct (decide (q ∈ l)); [rewrite decide_True by set_solver|rewrite decide_False by set_solver]; done.
Qed.

(** The rules of a block are on or off as its state says: the true list when
    it is positive, the false list when it is 0, and none for -1. *)
Definition node_applied (tab : avtab) (n : cond_node) : Prop :=
  (∀ ptr r, ptr ∈ true_list n → node_at tab ptr = Some r → rule_enabled r = (0 <? cur_state n)%Z) ∧
  (∀ ptr r, ptr ∈ false_list n → node_at tab ptr = Some r → rule_enabled r = (cur_state n =? 0)%Z).

Definition node_ptrs (n : cond_node) : list avtab_ptr := true_list n ++ false_list n.

Lemma node_applied_frame tab tab' n :
  (∀ q, q ∈ node_ptrs n → node_at tab' q = node_at tab q) → node_applied tab n → node_applied tab' n.
Proof.
  intros Heq [Ht Hf]. split; intros ptr r Hp Hr; rewrite Heq in Hr by (unfold node_ptrs; set_solver); eauto.
Qed.

Definition evaluates (p : policydb) (n : cond_node) (st : Z) : Prop :=
  ∀ o, cond_evaluate_expr p (cond_exprs n) o = Ret st o.

Lemma evaluate_node_spec p n tab st o :
  evaluates p n st → Forall (ptr_valid tab) (node_ptrs n) → NoDup (node_ptrs n) → node_applied tab n →
  ∃ tab', evaluate_cond_node p n tab o = Ret (set_state n st, tab') o ∧ same_rules tab tab' ∧
    node_applied tab' (set_state n st) ∧ ∀ q, q ∉ node_ptrs n → node_at tab' q = node_at tab q.
Proof.
  intros Hev Hv Hnd Happ. unfold evaluate_cond_node. rewrite bind_run, Hev.
  destruct (Z.eqb_spec st (cur_state n)) as [->|Hne].
  { exists tab. assert (set_state n (cur_state n) = n) as -> by by destruct n. done. }
  apply Forall_app in Hv as [Hvt Hvf]. apply NoDup_app in Hnd as (_ & Hdis & _). rewrite bind_run.
  destruct (switch_rules_spec (0 <? st)%Z (true_list n) tab o Hvt) as (tab1 & -> & H1 & Hq1).
  destruct (switch_rules_spec (st =? 0)%Z (false_list n) tab1 o) as (tab2 & Hr & H2 & Hq2).
  { eapply Forall_impl; [exact Hvf|]. intros q [r Hq]. unfold ptr_valid. rewrite Hq1, Hq. by eexists. }
  rewrite bind_run, Hr. exists tab2. split; [done|]. split; [by etrans|].
  assert (∀ q, node_at tab2 q = (if decide (q ∈ false_list n) then switched (st =? 0)%Z else id) <$>
    ((if decide (q ∈ true_list n) then switched (0 <? st)%Z else id) <$> node_at tab q)) as Hq
    by (intros q; by rewrite Hq2, Hq1).
  split; [split; cbn|].
  - intros ptr r Hp Hr'. rewrite Hq, (decide_True (P := ptr ∈ true_list n)) in Hr' by done.
    rewrite decide_False in Hr' by auto. rewrite option_fmap_id in Hr'.
    apply fmap_Some in Hr' as (r0 & _ & ->). apply switched_enabled.
  - intros ptr r Hp Hr'. rewrite Hq, (decide_True (P := ptr ∈ false_list n)) in Hr' by done.
    apply fmap_Some in Hr' as (r0 & _ & ->). apply switched_enabled.
  - intros q Hout. rewrite Hq, !decide_False by (unfold node_ptrs in Hout; set_solver).
    by rewrite !option_fmap_id.
Qed.

Lemma evaluate_nodes_spec p l sts tab o :
  Forall2 (evaluates p) l sts → Forall (ptr_valid tab) (l ≫= node_ptrs) → NoDup (l ≫= node_ptrs) →
  Forall (node_applied tab) l →
  ∃ tab', evaluate_nodes p l tab o = Ret (zip_with set_state l sts, tab') o ∧ same_rules tab tab' ∧
    Forall (node_applied tab') (zip_with set_state l sts) ∧
    ∀ q, q ∉ (l ≫= node_ptrs) → node_at tab' q = node_at tab q.
Proof.
  intros Hev. revert tab. induction Hev as [|n st l sts Hn Hev IH]; intros tab Hv Hnd Happ.
  { exists tab. cbn. split_and!; done. }
  cbn in Hv, Hnd. apply Forall_app in Hv as [Hvn Hvl]. apply NoDup_app in Hnd as (Hnd1 & Hdis & Hnd2).
  apply Forall_cons in Happ as [Han Hal]. cbn [evaluate_nodes]. rewrite bind_run.
  destruct (evaluate_node_spec p n tab st o Hn Hvn Hnd1 Han) as (tab1 & -> & H1 & Ha1 & Hf1).
  assert (∀ q, q ∈ (l ≫= node_ptrs) → node_at tab1 q = node_at tab q) as Hsame
    by (intros q Hq; apply Hf1; intros ?; by eapply Hdis).
  destruct (IH tab1) as (tab2 & Hrun & H2 & Ha2 & Hf2); [|done| |].
  { apply Forall_forall. intros q Hq. rewrite Forall_forall in Hvl. unfold ptr_valid.
    rewrite Hsame by done. by apply Hvl. }
  { apply Forall_forall. intros m Hm. rewrite Forall_forall in Hal. eapply node_applied_frame; [|by apply Hal].
    intros q Hq. apply Hsame, list_elem_of_bind. by exists m. }
  rewrite bind_run, Hrun. exists tab2. split; [done|]. split; [by etrans|]. split.
  - cbn. constructor; [|done]. eapply node_applied_frame; [|exact Ha1].
    intros q Hq. apply Hf2. intros ?. by eapply Hdis.
  - intros q Hq. cbn in Hq. rewrite elem_of_app in Hq. rewrite Hf2, Hf1 by tauto. done.
Qed.

(** The enabled flag is not part of what keeps a table well-formed. *)
Lemma same_rule_before a a' b b' :
  same_rule a a' → same_rule b b' → key_before (av_key a') (av_key b') = key_before (av_key a) (av_key b).
Proof. intros (Ha1&Ha2&Ha3&_) (Hb1&Hb2&Hb3&_). unfold key_before. by rewrite Ha1, Ha2, Ha3, Hb1, Hb2, Hb3. Qed.

Lemma same_rule_hash n n' msk : same_rule n n' → avtab_hash (av_key n') msk = avtab_hash (av_key n) msk.
Proof. intros (H1&H2&H3&_). unfold avtab_hash. by rewrite H1, H2, H3. Qed.

Lemma same_rule_sorted c c' : Forall2 same_rule c c' → av_sorted c → av_sorted c'.
Proof.
  unfold av_sorted. intros H. induction H as [|n n' c c' Hn Hc IH]; intros Hs; [constructor|].
  apply StronglySorted_inv in Hs as [Hs Hall]. constructor; [by apply IH|].
  apply Forall_forall. intros m' Hm'. apply list_elem_of_lookup in Hm' as [i Hi].
  destruct (Forall2_lookup_r _ _ _ _ _ Hc Hi) as (m & Hm & Hr).
  rewrite (same_rule_before m m' n n') by done. rewrite Forall_forall in Hall. apply Hall.
  by eapply list_elem_of_lookup_2.
Qed.

Lemma same_rules_entries a b : same_rules a b → Forall2 same_rule (avtab_entries a) (avtab_entries b).
Proof.
  intros (_&_&_&H). unfold avtab_entries. inversion H as [t t' Ht|]; [|done]. clear -Ht.
  induction Ht as [|c c' t t' Hc _ IH]; cbn; [done|]. by apply Forall2_app.
Qed.

Lemma same_rules_wf a b : same_rules a b → avtab_wf a → avtab_wf b.
Proof.
  intros Hab [(t & Ht & Hlen & Hc) Hm Hn]. pose proof (same_rules_entries a b Hab) as He.
  destruct Hab as (H1 & H2 & H3 & H). rewrite Ht in H. inversion H as [x t' Htt Hx Ht'|]; subst.
  split.
  - exists t'. split; [done|]. rewrite <- (Forall2_length _ _ _ Htt). split; [congruence|].
    intros i c' Hi. destruct (Forall2_lookup_r _ _ _ _ _ Htt Hi) as (c & Hi' & Hcc).
    destruct (Hc _ _ Hi') as [Hs Hh]. split; [by eapply same_rule_sorted|].
    apply Forall_forall. intros n' [j Hj]%list_elem_of_lookup.
    destruct (Forall2_lookup_r _ _ _ _ _ Hcc Hj) as (n & Hj' & Hr).
    rewrite (same_rule_hash n n') by done. rewrite H3. rewrite Forall_forall in Hh. apply Hh.
    by eapply list_elem_of_lookup_2.
  - congruence.
  - rewrite H1, Hn, <- (Forall2_length _ _ _ He). done.
Qed.

(** * Normalisation *)

Definition expr_bools (l : list cond_expr) : list N :=
  cexpr_bool <$> filter (λ e, (cexpr_type e =? COND_BOOL) = true) l.

Lemma expr_bools_app l1 l2 : expr_bools (l1 ++ l2) = expr_bools l1 ++ expr_bools l2.
Proof. unfold expr_bools. by rewrite filter_app, fmap_app. Qed.

Lemma expr_bools_cons x l : expr_bools (x :: l) = (if cexpr_type x =? COND_BOOL then [cexpr_bool x] else []) ++ expr_bools l.
Proof. unfold expr_bools. rewrite filter_cons. destruct (cexpr_type x =? COND_BOOL); [by rewrite decide_True|]. by rewrite decide_False. Qed.

Lemma rpn_bools e : expr_bools (rpn e) = bvars e.
Proof.
  induction e as [b|e IH|op e1 IH1 e2 IH2]; cbn [rpn bvars]; rewrite ?expr_bools_app, ?IH, ?IH1, ?IH2.
  - done.
  - by rewrite app_nil_r.
  - by destruct op; cbn; rewrite app_nil_r.
Qed.

Lemma present_spec b ids n :
  n ≤ COND_MAX_BOOLS → bool_present b ids n = true ↔ b ∈ take (N.to_nat n) ids.
Proof.
  intros Hn. unfold bool_present. rewrite (proj2 (N.ltb_ge _ _)) by done.
  rewrite existsb_exists. split.
  - intros (x & Hx & ->%N.eqb_eq). by apply list_elem_of_In.
  - intros Hb. exists b. split; [by apply list_elem_of_In|apply N.eqb_refl].
Qed.

(** What the search for booleans collects when there are at most five. *)
Lemma find_bools_spec exprs ids n :
  length ids = 5%nat → (n ≤ COND_MAX_BOOLS → NoDup (take (N.to_nat n) ids)) →
  let '(ids', n') := find_bools exprs ids n in
  length ids' = 5%nat ∧ n ≤ n' ∧
  (n' ≤ COND_MAX_BOOLS → NoDup (take (N.to_nat n') ids') ∧
     ∀ x, x ∈ take (N.to_nat n') ids' ↔ x ∈ take (N.to_nat n) ids ∨ x ∈ expr_bools exprs).
Proof.
  revert ids n. induction exprs as [|e l IH]; intros ids n Hlen Hnd; cbn [find_bools].
  { split; [done|]. split; [lia|]. intros Hn. split; [auto|]. unfold expr_bools. set_solver. }
  assert (expr_bools (e :: l) = (if cexpr_type e =? COND_BOOL then [cexpr_bool e] else []) ++ expr_bools l) as ->.
  { unfold expr_bools. rewrite filter_cons. destruct (cexpr_type e =? COND_BOOL); [by rewrite decide_True|].
    by rewrite decide_False. }
  destruct (cexpr_type e =? COND_BOOL); [|by apply IH].
  destruct (bool_present (cexpr_bool e) ids n) eqn:Hp.
  { specialize (IH ids n Hlen Hnd). destruct (find_bools l ids n) as [ids' n'].
    destruct IH as (? & ? & IH). split_and!; [done|done|]. intros Hn'. destruct (IH Hn') as [? IHx].
    split; [done|]. intros x. rewrite IHx, elem_of_app, list_elem_of_singleton.
    apply present_spec in Hp; [|lia]. naive_solver. }
  destruct (N.ltb_spec n COND_MAX_BOOLS) as [Hn|Hn].
  - assert (take (N.to_nat (n + 1)) (<[N.to_nat n := cexpr_bool e]> ids) =
            take (N.to_nat n) ids ++ [cexpr_bool e]) as Htake.
    { rewrite N2Nat.inj_add, Nat.add_comm. cbn [Nat.add]. unfold COND_MAX_BOOLS in Hn. change (N.to_nat 1) with 1%nat.
      cbn [Nat.add]. rewrite (take_S_r _ _ (cexpr_bool e)) by (rewrite list_lookup_insert_eq by lia; done).
      by rewrite take_insert_ge by lia. }
    specialize (IH (<[N.to_nat n := cexpr_bool e]> ids) (n + 1)). rewrite length_insert, Htake in IH.
    destruct (find_bools l _ (n + 1)) as [ids' n']. destruct IH as (? & ? & IH); [done| |].
    { intros _. apply NoDup_app. split_and!; [apply Hnd; lia| |apply NoDup_singleton].
      intros x Hx ->%list_elem_of_singleton. apply present_spec in Hx; [congruence|lia]. }
    split_and!; [done|lia|]. intros Hn'. destruct (IH Hn') as [? IHx]. split; [done|].
    intros x. rewrite IHx, !elem_of_app. tauto.
  - specialize (IH ids (n + 1) Hlen). destruct (find_bools l ids (n + 1)) as [ids' n'].
    destruct IH as (? & ? & IH). { intros ?. lia. } split_and!; [done|lia|]. intros Hn'. lia.
Qed.

(** ** The temporary values of the booleans *)

Fixpoint assoc (ids : list N) (vs : list Z) (b : N) : option Z :=
  match ids, vs with
  | i :: ids', v :: vs' => if b =? i then Some v else assoc ids' vs' b
  | _, _ => None
  end.

Definition assign1 (x : option Z) (d : option cond_bool_datum) : option cond_bool_datum :=
  match d, x with
  | Some d, Some v => Some (CondBoolDatum (bool_value d) v (bool_flags d))
  | _, _ => d
  end.

Definition assigned (bools : list (option cond_bool_datum)) (ids : list N) (vs : list Z) :=
  imap (λ k d, assign1 (assoc ids vs (N.of_nat k + 1)) d) bools.

Lemma assigned_lookup bools ids vs k :
  assigned bools ids vs !! k = assign1 (assoc ids vs (N.of_nat k + 1)) <$> bools !! k.
Proof. unfold assigned. by rewrite list_lookup_imap. Qed.

Lemma assoc_None ids vs b : b ∉ ids → assoc ids vs b = None.
Proof.
  revert vs. induction ids as [|i ids IH]; intros [|v vs] Hb; try done. cbn.
  rewrite (proj2 (N.eqb_neq _ _)) by set_solver. apply IH. set_solver.
Qed.

Lemma assoc_Some ids vs b : length vs = length ids → b ∈ ids → is_Some (assoc ids vs b).
Proof.
  revert vs. induction ids as [|i ids IH]; intros [|v vs] Hl Hb; cbn in *; try set_solver.
  destruct (N.eqb_spec b i); [done|]. apply IH; [lia|set_solver].
Qed.

Lemma assoc_elem ids vs b v : assoc ids vs b = Some v → v ∈ vs.
Proof.
  revert vs. induction ids as [|i ids IH]; intros [|w vs] H; cbn in *; try done.
  destruct (b =? i); [injection H as ->; set_solver|]. apply list_elem_of_further. by apply IH.
Qed.

(** The last assignment to the same booleans counts. *)
Lemma assigned_twice bools ids vs vs' :
  length vs = length ids → length vs' = length ids →
  assigned (assigned bools ids vs) ids vs' = assigned bools ids vs'.
Proof.
  intros Hl Hl'. apply list_eq. intros k. rewrite !assigned_lookup.
  destruct (bools !! k) as [[d|]|]; cbn; [|done|done]. f_equal.
  destruct (decide (N.of_nat k + 1 ∈ ids)) as [Hin|Hin].
  - destruct (assoc_Some ids vs _ Hl Hin) as [v ->], (assoc_Some ids vs' _ Hl' Hin) as [v' ->]. done.
  - by rewrite !assoc_None.
Qed.

Lemma assigned_cons bools b ids v vs :
  b ∉ ids → assigned (assigned bools [b] [v]) ids vs = assigned bools (b :: ids) (v :: vs).
Proof.
  intros Hb. apply list_eq. intros k. rewrite !assigned_lookup.
  destruct (bools !! k) as [[d|]|]; cbn; [|done|done]. f_equal.
  destruct (N.eqb_spec (N.of_nat k + 1) b) as [->|]; [|done]. by rewrite assoc_None.
Qed.

Lemma store_bool_spec bools b v o :
  bool_defined bools b → store_bool bools b v o = Ret (assigned bools [b] [v]) o.
Proof.
  intros (H0 & H32 & d & Hd & _). unfold store_bool. rewrite bind_run, dec32_pred by done.
  rewrite (at_ptr_ok _ _ _ _ Hd). unfold mret, M_ret. f_equal. apply list_eq. intros k.
  rewrite assigned_lookup. cbn. destruct (decide (k = N.to_nat (b - 1))) as [->|Hne].
  - rewrite list_lookup_insert_eq by (by eapply lookup_lt_Some). rewrite Hd. cbn.
    by rewrite (proj2 (N.eqb_eq _ _)) by lia.
  - rewrite list_lookup_insert_ne by done. rewrite (proj2 (N.eqb_neq _ _)) by lia.
    by destruct (bools !! k) as [[?|]|].
Qed.

(** Values a boolean may have. *)
Definition bit_value (v : Z) : Prop := v = 0%Z ∨ v = 1%Z.

Lemma assigned_defined bools ids vs b :
  Forall bit_value vs → bool_defined bools b → bool_defined (assigned bools ids vs) b.
Proof.
  intros Hvs (H0 & H32 & d & Hd & Hst). split_and!; [done|done|]. rewrite assigned_lookup, Hd. cbn.
  destruct (assoc ids vs _) as [v|] eqn:E; cbn; [|by eexists].
  eexists. split; [done|]. apply assoc_elem in E. rewrite Forall_forall in Hvs. by apply Hvs.
Qed.

Lemma store_bools_spec bools ids vs o :
  NoDup ids → length vs = length ids → Forall bit_value vs → Forall (bool_defined bools) ids →
  store_bools bools ids vs o = Ret (assigned bools ids vs) o.
Proof.
  intros Hnd. revert bools vs. induction Hnd as [|b ids Hb Hnd IH]; intros bools [|v vs] Hl Hvs Hd; try done.
  - cbn. unfold mret, M_ret. f_equal. apply list_eq. intros k. rewrite assigned_lookup. cbn.
    by destruct (bools !! k) as [[?|]|].
  - apply Forall_cons in Hvs as [Hv Hvs], Hd as [Hd Hds]. cbn [store_bools].
    rewrite bind_run, store_bool_spec by done. rewrite IH, assigned_cons; [done..|cbn in Hl; lia|done|].
    eapply Forall_impl; [exact Hds|]. intros x. apply assigned_defined. by constructor.
Qed.

Lemma load_bools_spec bools ids o :
  Forall (bool_defined bools) ids →
  ∃ vs, load_bools bools ids o = Ret vs o ∧ length vs = length ids ∧ Forall bit_value vs ∧
    assigned bools ids vs = bools.
Proof.
  induction 1 as [|b ids Hb Hids IH]; cbn [load_bools].
  { exists []. split_and!; try done. apply list_eq. intros k. rewrite assigned_lookup. cbn.
    by destruct (bools !! k) as [[?|]|]. }
  destruct IH as (vs & Hrun & Hl & Hbit & Has). pose proof Hb as (H0 & H32 & d & Hd & Hst).
  unfold load_bool. rewrite !bind_run, dec32_pred by done. rewrite (at_ptr_ok _ _ _ _ Hd).
  unfold mret at 1, M_ret at 1. rewrite bind_run, Hrun. exists (state d :: vs).
  split_and!; [done|cbn; lia|by constructor|].
  apply list_eq. intros k. rewrite assigned_lookup. cbn.
  destruct (N.eqb_spec (N.of_nat k + 1) b) as [Hk|].
  - assert (k = N.to_nat (b - 1)) as -> by lia. rewrite Hd. by destruct d.
  - rewrite <- assigned_lookup. by rewrite Has.
Qed.

(** ** The table of results *)

(** The truth assignment that the combination [test] stands for. *)
Definition combo (ids : list N) (test : N) (b : N) : bool :=
  match assoc ids (test_values test (length ids)) b with Some v => negb (v =? 0)%Z | None => false end.

Lemma test_values_bits test n : length (test_values test n) = n ∧ Forall bit_value (test_values test n).
Proof.
  unfold test_values. split; [by rewrite length_fmap, length_seq|].
  apply Forall_fmap, Forall_forall. intros j _. unfold bit_value. cbn. destruct (N.testbit _ _); cbn; auto.
Qed.

Lemma combo_env bools ids test b :
  Forall (bool_defined bools) ids → b ∈ ids →
  bool_env (assigned bools ids (test_values test (length ids))) b = combo ids test b.
Proof.
  intros Hd Hb. rewrite Forall_forall in Hd. pose proof (Hd b Hb) as (H0 & _ & d & Hdd & _).
  unfold bool_env, combo. rewrite assigned_lookup, Hdd. cbn.
  replace (N.of_nat (N.to_nat (b - 1)) + 1) with b by lia.
  destruct (assoc_Some ids (test_values test (length ids)) b) as [v ->]; [|done|done].
  by apply test_values_bits.
Qed.

Lemma beval_ext env env' e : (∀ b, b ∈ bvars e → env b = env' b) → beval env e = beval env' e.
Proof.
  induction e as [b|e IH|op e1 IH1 e2 IH2]; cbn [beval bvars]; intros H.
  - apply H. set_solver.
  - by rewrite IH.
  - rewrite IH1, IH2; [done|set_solver..].
Qed.

Lemma precomp_spec bools0 e ids vs0 n o :
  NoDup ids → Forall (bool_defined bools0) ids → (∀ b, b ∈ bvars e → b ∈ ids) →
  (stack_depth e ≤ COND_EXPR_MAXDEPTH)%nat → length vs0 = length ids → Forall bit_value vs0 →
  assigned bools0 ids vs0 = bools0 →
  wp (for_up (precomp_step (rpn e) ids) n 0 (bools0, 0)) o (λ r o', o' = o ∧ ∃ bools comp vs,
    r = inr (bools, comp) ∧ bools = assigned bools0 ids vs ∧ length vs = length ids ∧ Forall bit_value vs ∧
    ∀ t, N.testbit comp t = (t <? N.of_nat n) && beval (combo ids t) e).
Proof.
  intros Hnd Hdef Hvars Hdepth Hl0 Hb0 H0.
  apply wp_for_up with (I := λ i st o', o' = o ∧ ∃ vs, st.1 = assigned bools0 ids vs ∧
    length vs = length ids ∧ Forall bit_value vs ∧ ∀ t, N.testbit st.2 t = (t <? i) && beval (combo ids t) e).
  - split; [done|]. exists vs0. cbn [fst snd]. split_and!; try done. intros t.
    destruct (N.ltb_spec t 0); [lia|done].
  - intros i [bools comp] o' Hi [-> (vs & Hb & Hl & Hbit & Hc)]. cbn [fst snd] in *. subst bools.
    destruct (test_values_bits i (length ids)) as [Htl Htb].
    assert (Forall (bool_defined (assigned bools0 ids vs)) ids) as Hdef'
      by (eapply Forall_impl; [exact Hdef|]; intros b; by apply assigned_defined).
    unfold wp, precomp_step. rewrite bind_run, store_bools_spec, assigned_twice by done.
    set (bools := assigned bools0 ids (test_values i (length ids))).
    assert (loads (load_bool bools) (bool_env bools) (bvars e)) as Hload.
    { apply load_defined, Forall_forall. intros b Hb. apply assigned_defined; [done|].
      rewrite Forall_forall in Hdef. by apply Hdef, Hvars. }
    rewrite bind_run, <- (app_nil_r (rpn e)), (eval_rpn _ _ _ [] [] _ Hload) by done.
    cbn [cond_eval_loop List.last]. unfold mret at 1, M_ret at 1.
    rewrite (beval_ext (bool_env bools) (combo ids i)) by (intros b Hb; by apply combo_env, Hvars).
    assert (∀ comp', (∀ t, N.testbit comp' t = (t <? i + 1) && beval (combo ids t) e) →
      o = o ∧ ∃ vs, (bools, comp').1 = assigned bools0 ids vs ∧ length vs = length ids ∧ Forall bit_value vs ∧
        ∀ t, N.testbit (bools, comp').2 t = (t <? i + 1) && beval (combo ids t) e) as Hnext.
    { intros comp' Hc'. split; [done|]. exists (test_values i (length ids)). done. }
    destruct (beval (combo ids i) e) eqn:Ev; cbv beta iota delta [z_of_bool Z.eqb]; apply Hnext; intros t.
    + rewrite N.lor_spec, Hc, N.shiftl_1_l, N.pow2_bits_eqb.
      destruct (N.eqb_spec i t) as [->|]; [rewrite Ev|rewrite orb_false_r]; bool_lia.
    + rewrite Hc. destruct (decide (t = i)) as [->|]; [rewrite Ev|]; bool_lia.
  - intros [bools comp] o' [-> (vs & ? & ? & ? & Hc)]. split; [done|]. exists bools, comp, vs.
    split_and!; try done.
Qed.

(** ** The leading negation *)

Definition strip_not (e : bexp) : bexp := match e with BNot e' => e' | _ => e end.
Definition is_not (e : bexp) : bool := match e with BNot _ => true | _ => false end.

Lemma rpn_nonempty e : rpn e ≠ [].
Proof.
  destruct e as [b|e|op e1 e2]; cbn [rpn]; [done|..].
  - by intros [_ ?]%app_nil.
  - by intros [_ [_ ?]%app_nil]%app_nil.
Qed.

Lemma rpn_reverse e :
  ∃ x l, reverse (rpn e) = x :: l ∧ (cexpr_type x =? COND_NOT) = is_not e ∧
    (is_not e = true → l ≠ [] ∧ reverse l = rpn (strip_not e)).
Proof.
  destruct e as [b|e|op e1 e2]; cbn [rpn is_not strip_not].
  - by eexists _, _.
  - rewrite reverse_app. eexists _, _. split; [done|]. split; [done|]. intros _. rewrite reverse_involutive.
    split; [|done]. intros H. apply (f_equal reverse) in H. rewrite reverse_involutive in H. by apply rpn_nonempty in H.
  - rewrite app_assoc, reverse_app. eexists _, _. split; [done|]. by destruct op.
Qed.

Lemma normalize_spec p cn e o :
  cond_exprs cn = rpn e → (stack_depth e ≤ COND_EXPR_MAXDEPTH)%nat →
  Forall (bool_defined (bool_val_to_struct p)) (bvars e) →
  ∃ cn', cond_normalize_expr p cn o = Ret (0%Z, p, cn') o ∧ cond_exprs cn' = rpn (strip_not e) ∧
    true_list cn' = (if is_not e then false_list cn else true_list cn) ∧
    false_list cn' = (if is_not e then true_list cn else false_list cn) ∧
    (nbools cn' ≤ COND_MAX_BOOLS →
       let used := take (N.to_nat (nbools cn')) (bool_ids cn') in
       NoDup used ∧ (∀ b, b ∈ used ↔ b ∈ bvars e) ∧
       ∀ t, N.testbit (expr_pre_comp cn') t =
         (t <? 2 ^ nbools cn') && beval (combo used t) (strip_not e)).
Proof.
  intros He Hd Hv. unfold cond_normalize_expr. rewrite He.
  destruct (rpn_reverse e) as (x & l & -> & -> & Hnot).
  assert ((is_not e && match l with [] => true | _ => false end) = false) as ->.
  { destruct (is_not e); [|done]. destruct Hnot as [? _]; [done|]. by destruct l. }
  assert ((if is_not e then reverse l else rpn e) = rpn (strip_not e)) as ->.
  { destruct (is_not e) eqn:E; [by apply Hnot|]. by destruct e. }
  assert (bvars (strip_not e) = bvars e) as Hbv by by destruct e.
  assert (stack_depth (strip_not e) = stack_depth e) as Hsd by by destruct e.
  pose proof (find_bools_spec (rpn (strip_not e)) (replicate 5 0) 0 eq_refl ltac:(intros; constructor)) as Hf.
  destruct (find_bools (rpn (strip_not e)) (replicate 5 0) 0) as [ids n].
  rewrite rpn_bools, Hbv in Hf. destruct Hf as (Hlen & _ & Hf).
  destruct (N.leb_spec n COND_MAX_BOOLS) as [Hn|Hn].
  2: { eexists. split; [done|]. destruct (is_not e); cbn; split_and!; try done; intros; lia. }
  destruct (Hf Hn) as [Hnd Hin]. set (used := take (N.to_nat n) ids) in *.
  assert (Forall (bool_defined (bool_val_to_struct p)) used) as Hdef.
  { apply Forall_forall. intros b Hb. rewrite Forall_forall in Hv. apply Hv.
    apply Hin in Hb as [Hb|Hb]; [by apply elem_of_nil in Hb|done]. }
  destruct (load_bools_spec (bool_val_to_struct p) used o Hdef) as (orig & Hload & Hol & Hobit & Horig).
  rewrite bind_run, Hload, bind_run.
  destruct (proj1 (wp_run _ _ _) (precomp_spec (bool_val_to_struct p) (strip_not e) used orig
    (N.to_nat (N.shiftl 1 n)) o Hnd Hdef ltac:(rewrite Hbv; intros b Hb; apply Hin; auto)
    ltac:(lia) Hol Hobit Horig)) as (r & o' & -> & -> & bools & comp & vs & -> & -> & Hvl & Hvb & Hc).
  rewrite bind_run, store_bools_spec, assigned_twice, Horig; [|done..|].
  2: { eapply Forall_impl; [exact Hdef|]. intros b. by apply assigned_defined. }
  eexists. split; [by destruct p|].
  destruct (is_not e); cbn [cond_exprs true_list false_list nbools bool_ids expr_pre_comp]; split_and!; try done;
    intros _; cbv zeta; fold used; (split; [done|]);
    (split; [intros b; rewrite Hin; cbn; split; [intros [Hb|]; [by apply elem_of_nil in Hb|done]|by right]|]);
    intros t; rewrite Hc, N2Nat.id, N.shiftl_1_l; done.
Qed.

(** * The properties of conditional.c *)

(** C29: evaluation.  On the reverse polish form of an expression over booleans
    the policy defines, [cond_evaluate_expr] returns the truth value of the
    expression, and -1 exactly when the expression needs more than the ten
    entries of the stack. *)
Theorem cond_evaluate_correct p e o :
  Forall (bool_defined (bool_val_to_struct p)) (bvars e) →
  cond_evaluate_expr p (rpn e) o =
    Ret (if (stack_depth e <=? COND_EXPR_MAXDEPTH)%nat
         then z_of_bool (beval (bool_env (bool_val_to_struct p)) e) else (-1)%Z) o.
Proof. apply evaluate_spec. Qed.

(** C30: switching.  When every block of the policy is applied (its rules are on
    or off as its recorded state says) and no rule belongs to two blocks, then
    after [evaluate_conds] every block records the current value of its
    expression and is applied again; rules outside the blocks are untouched,
    and all rules are the same up to the enabled flag, in a well-formed table. *)
Theorem evaluate_conds_applies p sts o :
  Forall2 (evaluates p) (cond_list p) sts →
  Forall (ptr_valid (te_cond_avtab p)) (cond_list p ≫= node_ptrs) → NoDup (cond_list p ≫= node_ptrs) →
  Forall (node_applied (te_cond_avtab p)) (cond_list p) → avtab_wf (te_cond_avtab p) →
  ∃ p', evaluate_conds p o = Ret (0%Z, p') o ∧
    cond_list p' = zip_with set_state (cond_list p) sts ∧ bool_val_to_struct p' = bool_val_to_struct p ∧
    Forall (node_applied (te_cond_avtab p')) (cond_list p') ∧
    same_rules (te_cond_avtab p) (te_cond_avtab p') ∧ avtab_wf (te_cond_avtab p') ∧
    ∀ q, q ∉ (cond_list p ≫= node_ptrs) → node_at (te_cond_avtab p') q = node_at (te_cond_avtab p) q.
Proof.
  intros Hev Hv Hnd Happ Hwf.
  destruct (evaluate_nodes_spec p (cond_list p) sts (te_cond_avtab p) o) as (tab & Hrun & Hs & Ha & Hf); try done.
  unfold evaluate_conds. rewrite bind_run, Hrun. eexists. split; [done|]. cbn. split_and!; try done.
  by eapply same_rules_wf.
Qed.

(** The contribution of the conditional table.  [cond_compute_av] grants a
    permission iff it was granted before or an enabled allow rule for the key
    has it, audits allowed accesses likewise, and audits denials unless an
    enabled auditdeny rule for the key leaves the permission out. *)
Theorem cond_compute_av_correct tab key avd o i :
  avtab_wf tab →
  let rules := filter (λ n, key_match key (clear_enabled (specified key)) (av_key n) = true)
                      (avtab_entries tab) in
  ∃ avd', cond_compute_av (Some tab) key avd o = Ret avd' o ∧
    N.testbit (allowed avd') i =
      N.testbit (allowed avd) i ||
      existsb (λ n, rule_kind AVTAB_ALLOWED n && N.testbit (data (av_datum n)) i) rules ∧
    N.testbit (auditallow avd') i =
      N.testbit (auditallow avd) i ||
      existsb (λ n, rule_kind AVTAB_AUDITALLOW n && N.testbit (data (av_datum n)) i) rules ∧
    N.testbit (auditdeny avd') i =
      N.testbit (auditdeny avd) i &&
      forallb (λ n, negb (rule_kind AVTAB_AUDITDENY n) || N.testbit (data (av_datum n)) i) rules.
Proof.
  intros Hwf rules. unfold cond_compute_av. rewrite for_each_match_spec by done. eexists. split; [done|].
  destruct (add_rules_bits rules avd i) as (? & ? & ? & _). done.
Qed.

(** The normal form of an expression.  [cond_normalize_expr] succeeds,
    leaves the policy's booleans as they were, strips a leading negation and
    swaps the two rule lists for it; with at most five booleans the bit [t] of
    [expr_pre_comp] is the value of the expression when boolean [j] has bit [j]
    of [t]. *)
Theorem cond_normalize_correct p cn e o :
  cond_exprs cn = rpn e → (stack_depth e ≤ COND_EXPR_MAXDEPTH)%nat →
  Forall (bool_defined (bool_val_to_struct p)) (bvars e) →
  ∃ cn', cond_normalize_expr p cn o = Ret (0%Z, p, cn') o ∧ cond_exprs cn' = rpn (strip_not e) ∧
    true_list cn' = (if is_not e then false_list cn else true_list cn) ∧
    false_list cn' = (if is_not e then true_list cn else false_list cn) ∧
    (nbools cn' ≤ COND_MAX_BOOLS →
       let used := take (N.to_nat (nbools cn')) (bool_ids cn') in
       NoDup used ∧ (∀ b, b ∈ used ↔ b ∈ bvars e) ∧
       ∀ t, N.testbit (expr_pre_comp cn') t =
         (t <? 2 ^ nbools cn') && beval (combo used t) (strip_not e)).
Proof. apply normalize_spec. Qed.

(** Moving the type rules to the top. *)
Lemma optimize_loop_spec is_type moved passed cur :
  moved ++ passed ≠ [] →
  cond_optimize_loop is_type moved passed cur =
    reverse (filter (λ q, is_type q = true) cur) ++ moved ++ reverse passed ++
      filter (λ q, is_type q = false) cur.
Proof.
  revert moved passed. induction cur as [|n cur IH]; intros moved passed Hne; cbn [cond_optimize_loop].
  { cbn. by rewrite app_nil_r. }
  rewrite !filter_cons. destruct (is_type n) eqn:E; cbn [andb].
  - assert (negb match moved, passed with [], [] => true | _, _ => false end = true) as ->
      by by destruct moved, passed.
    rewrite IH by done. rewrite decide_True, decide_False by (done || congruence).
    by rewrite reverse_cons, <- app_assoc.
  - rewrite IH by (destruct moved; done). rewrite decide_False, decide_True by (done || congruence).
    by rewrite reverse_cons, <- !app_assoc.
Qed.

(** [cond_optimize] keeps the rules of a list and puts its type rules
    first: they come out in reverse order, followed by the others in theirs. *)
Theorem cond_optimize_correct tab l o :
  Forall (ptr_valid tab) l →
  cond_optimize tab l o =
    Ret (reverse (filter (λ q, ptr_is_type tab q = true) l) ++ filter (λ q, ptr_is_type tab q = false) l) o.
Proof.
  intros Hv. unfold cond_optimize. replace (forallb _ l) with true.
  2: { symmetry. apply forallb_forall. intros q Hq%list_elem_of_In. rewrite Forall_forall in Hv.
       by destruct (Hv q Hq) as [n ->]. }
  unfold mret, M_ret. f_equal. destruct l as [|n l]; [done|]. cbn [cond_optimize_loop].
  rewrite andb_false_r, optimize_loop_spec by done. rewrite !filter_cons.
  destruct (ptr_is_type tab n).
  - rewrite decide_True, decide_False by done. change (reverse [n]) with [n]. rewrite reverse_cons, <- app_assoc. done.
  - rewrite decide_False, decide_True by done. done.
Qed.

(** ** Examples *)

(** The block [if (b1 && !b2) { allow } else { auditdeny }] while b1 is off, in
    a policy where b1 has just been switched on. *)
Definition ex_cond_avtab : avtab :=
  Avtab (Some [[ex_rule AVTAB_ALLOWED 5; ex_rule (AVTAB_AUDITDENY + AVTAB_ENABLED) 6;
                ex_rule AVTAB_TRANSITION 7]; []]) 3 2 1.

Definition ex_bexp : bexp := BBin OpAnd (BVar 1) (BNot (BVar 2)).

Definition ex_cond_node (e : bexp) : cond_node :=
  CondNode 0 (rpn e) [(0, 0)%nat] [(0, 1)%nat] 0 0 0 (replicate 5 0) 0 0.

Definition ex_cond_policy : policydb :=
  set_bools ex_policy [Some (CondBoolDatum 1 1 0); Some (CondBoolDatum 2 0 0)] ex_cond_avtab
    [ex_cond_node ex_bexp].

Lemma ex_bools_defined : Forall (bool_defined (bool_val_to_struct ex_cond_policy)) [1; 2].
Proof. repeat constructor; eexists; (split; [done|]); cbn; auto. Qed.

Lemma cond_evaluate_correct_witness :
  cond_evaluate_expr ex_cond_policy (rpn ex_bexp) [] = Ret 1%Z [].
Proof. rewrite (cond_evaluate_correct ex_cond_policy ex_bexp []); [done|apply ex_bools_defined]. Defined.

Lemma ex_cond_avtab_wf : avtab_wf ex_cond_avtab.
Proof.
  split; [|done|done]. eexists. split; [done|]. split; [done|].
  intros i c Hi. do 2 (destruct i as [|i]; [injection Hi as <-; split; repeat constructor; by vm_compute|]). done.
Qed.

Lemma evaluate_conds_applies_witness :
  ∃ p', evaluate_conds ex_cond_policy [] = Ret (0%Z, p') [] ∧
    (cur_state <$> cond_list p') = [1%Z] ∧
    (rule_enabled <$> node_at (te_cond_avtab p') (0, 0)%nat) = Some true.
Proof.
  destruct (evaluate_conds_applies ex_cond_policy [1%Z] []) as (p' & Hrun & Hl & _ & Happ & _ & _ & _).
  - by constructor; [|constructor].
  - cbn. apply Forall_cons; split; [by eexists|]. apply Forall_cons; split; [by eexists|constructor].
  - apply (bool_decide_unpack _). by vm_compute.
  - repeat constructor; intros ptr r Hp Hr; apply list_elem_of_singleton in Hp as ->; by injection Hr as <-.
  - apply ex_cond_avtab_wf.
  - exists p'. split; [done|]. split; [by rewrite Hl|].
    assert (match evaluate_conds ex_cond_policy [] with
            | Ret (_, p) _ => rule_enabled <$> node_at (te_cond_avtab p) (0, 0)%nat
            | UB => None
            end = Some true) as Hon by (vm_compute; reflexivity).
    by rewrite Hrun in Hon.
Defined.

Lemma cond_compute_av_correct_witness :
  ∃ avd', cond_compute_av (Some ex_cond_avtab) (AvtabKey 1 2 5 AVTAB_AV) (AvDecision 8 0 0 15 1) [] = Ret avd' [] ∧
    N.testbit (allowed avd') 3 = true ∧ N.testbit (auditdeny avd') 0 = false.
Proof.
  destruct (cond_compute_av_correct ex_cond_avtab (AvtabKey 1 2 5 AVTAB_AV) (AvDecision 8 0 0 15 1) [] 3
              ex_cond_avtab_wf) as (avd' & Hrun & Ha & _ & _).
  exists avd'. split; [done|]. split; [by rewrite Ha|]. vm_compute in Hrun. by injection Hrun as <-.
Defined.

Lemma cond_normalize_correct_witness :
  ∃ cn', cond_normalize_expr ex_cond_policy (ex_cond_node (BNot ex_bexp)) [] = Ret (0%Z, ex_cond_policy, cn') [] ∧
    cond_exprs cn' = rpn ex_bexp ∧ true_list cn' = [(0, 1)%nat].
Proof.
  destruct (cond_normalize_correct ex_cond_policy (ex_cond_node (BNot ex_bexp)) (BNot ex_bexp) [] eq_refl
              ltac:(by vm_compute; lia) ex_bools_defined) as (cn' & Hrun & He & Ht & _).
  by exists cn'.
Defined.

Lemma cond_optimize_correct_witness :
  cond_optimize ex_cond_avtab [(0, 0); (0, 1); (0, 2)]%nat [] = Ret [(0, 2); (0, 0); (0, 1)]%nat [].
Proof.
  rewrite (cond_optimize_correct ex_cond_avtab [(0, 0); (0, 1); (0, 2)]%nat []); [by vm_compute|].
  repeat constructor; by eexists.
Defined.

(** Comparing blocks.  The test for the same booleans ignores their order,
    which is what gives the precomputed results their meaning: the blocks
    [b1 && !b2] and [b2 && !b1] are normalised to nodes that [cond_expr_equal]
    takes for the same expression, though no state of the two booleans makes
    both true. *)
Theorem cond_expr_equal_confuses :
  let e1 := BBin OpAnd (BVar 1) (BNot (BVar 2)) in
  let e2 := BBin OpAnd (BVar 2) (BNot (BVar 1)) in
  ∃ cn1 cn2,
    cond_normalize_expr ex_cond_policy (ex_cond_node e1) [] = Ret (0%Z, ex_cond_policy, cn1) [] ∧
    cond_normalize_expr ex_cond_policy (ex_cond_node e2) [] = Ret (0%Z, ex_cond_policy, cn2) [] ∧
    cond_expr_equal (Some cn1) (Some cn2) = true ∧
    ∀ env, beval env e1 && beval env e2 = false.
Proof.
  intros e1 e2.
  destruct (normalize_spec ex_cond_policy (ex_cond_node e1) e1 [] eq_refl
              ltac:(by vm_compute; lia) ex_bools_defined) as (cn1 & H1 & _).
  destruct (normalize_spec ex_cond_policy (ex_cond_node e2) e2 [] eq_refl
              ltac:(by vm_compute; lia) ltac:(repeat constructor; eexists; (split; [done|]); cbn; auto)) as (cn2 & H2 & _).
  exists cn1, cn2. split; [done|]. split; [done|]. split.
  { assert (match cond_normalize_expr ex_cond_policy (ex_cond_node e1) [], cond_normalize_expr ex_cond_policy (ex_cond_node e2) [] with
            | Ret (_, _, cn1) _, Ret (_, _, cn2) _ => cond_expr_equal (Some cn1) (Some cn2)
            | _, _ => false
            end = true) as He by (vm_compute; reflexivity).
    by rewrite H1, H2 in He. }
  intros env. cbn. by destruct (env 1), (env 2).
Qed.
