(* ===== verification/Services.v ===== *)
(** The security server: libsepol/src/services.c.

    Access decisions from type enforcement, conditional rules, constraints and
    role allow rules, and the labelling of new subjects and objects.  The
    policy and the SID table, global variables of the source, are arguments.

    The text that explains a constraint is not modelled, except that running
    out of memory for it ends the evaluation: allocations whose failure has
    the same effect are one choice of the oracle. *)

From S2P Require Import Prelude Ebitmap Hashtab MlsTypes Sidtab Avtab Policydb Mls Context Conditional.
Local Open Scope N_scope.

Definition CEXPR_NOT : N := 1.
Definition CEXPR_AND : N := 2.
Definition CEXPR_OR : N := 3.
Definition CEXPR_ATTR : N := 4.
Definition CEXPR_NAMES : N := 5.
Definition CEXPR_USER : N := 1.
Definition CEXPR_ROLE : N := 2.
Definition CEXPR_TYPE : N := 4.
Definition CEXPR_TARGET : N := 8.
Definition CEXPR_XTARGET : N := 16.
Definition CEXPR_L1L2 : N := 32.
Definition CEXPR_L1H2 : N := 64.
Definition CEXPR_H1L2 : N := 128.
Definition CEXPR_H1H2 : N := 256.
Definition CEXPR_L1H1 : N := 512.
Definition CEXPR_L2H2 : N := 1024.
Definition CEXPR_EQ : N := 1.
Definition CEXPR_NEQ : N := 2.
Definition CEXPR_DOM : N := 3.
Definition CEXPR_DOMBY : N := 4.
Definition CEXPR_INCOMP : N := 5.
Definition CEXPR_MAXDEPTH : nat := 5.
Definition STACK_LEN : N := 32.

(** * Constraints *)

(** The levels that an MLS attribute compares. *)
Definition mls_operands (scontext tcontext : context_struct) (a : N) : option (mls_level * mls_level) :=
  if a =? CEXPR_L1L2 then Some (level0 (range scontext), level0 (range tcontext))
  else if a =? CEXPR_L1H2 then Some (level0 (range scontext), level1 (range tcontext))
  else if a =? CEXPR_H1L2 then Some (level1 (range scontext), level0 (range tcontext))
  else if a =? CEXPR_H1H2 then Some (level1 (range scontext), level1 (range tcontext))
  else if a =? CEXPR_L1H1 then Some (level0 (range scontext), level1 (range scontext))
  else if a =? CEXPR_L2H2 then Some (level0 (range tcontext), level1 (range tcontext))
  else None.

(** The label [mls_ops]; [None] is an operator it does not know. *)
Definition mls_op (op : N) (l1 l2 : mls_level) : option bool :=
  if op =? CEXPR_EQ then Some (mls_level_eq l1 l2)
  else if op =? CEXPR_NEQ then Some (negb (mls_level_eq l1 l2))
  else if op =? CEXPR_DOM then Some (mls_level_dom l1 l2)
  else if op =? CEXPR_DOMBY then Some (mls_level_dom l2 l1)
  else if op =? CEXPR_INCOMP then Some (mls_level_incomp l2 l1)
  else None.

Definition val_op (op val1 val2 : N) : option bool :=
  if op =? CEXPR_EQ then Some (val1 =? val2)
  else if op =? CEXPR_NEQ then Some (negb (val1 =? val2))
  else None.

(** The case [CEXPR_ATTR]: the value pushed, or [None] for [goto out].  The
    structures of both roles are only used by the role operators. *)
Definition attr_value (p : policydb) (scontext tcontext : context_struct) (e : constraint_expr)
    : M (option bool) :=
  if attr e =? CEXPR_USER then mret (val_op (op e) (user scontext) (user tcontext))
  else if attr e =? CEXPR_TYPE then mret (val_op (op e) (type scontext) (type tcontext))
  else if attr e =? CEXPR_ROLE then
    r1 ← deref (role_val_to_struct p !! N.to_nat (dec32 (role scontext)));
    r2 ← deref (role_val_to_struct p !! N.to_nat (dec32 (role tcontext)));
    if (op e =? CEXPR_EQ) || (op e =? CEXPR_NEQ) then mret (val_op (op e) (role scontext) (role tcontext)) else
    if op e =? CEXPR_DOM then
      r1 ← deref r1; mret (Some (ebitmap_get_bit (dominates r1) (dec32 (role tcontext))))
    else if op e =? CEXPR_DOMBY then
      r2 ← deref r2; mret (Some (ebitmap_get_bit (dominates r2) (dec32 (role scontext))))
    else if op e =? CEXPR_INCOMP then
      r1 ← deref r1;
      if ebitmap_get_bit (dominates r1) (dec32 (role tcontext)) then mret (Some false) else
      r2 ← deref r2; mret (Some (negb (ebitmap_get_bit (dominates r2) (dec32 (role scontext)))))
    else mret None
  else
    mret match mls_operands scontext tcontext (attr e) with
         | Some (l1, l2) => mls_op (op e) l1 l2
         | None => None
         end.

(** The case [CEXPR_NAMES]. *)
Definition names_value (scontext tcontext : context_struct) (xcontext : option context_struct)
    (e : constraint_expr) : option bool :=
  let has (m : N) := truth (N.land (attr e) m) in
  match (if has CEXPR_TARGET then Some tcontext
         else if has CEXPR_XTARGET then xcontext else Some scontext) with
  | None => None
  | Some c =>
      match (if has CEXPR_USER then Some (user c)
             else if has CEXPR_ROLE then Some (role c)
             else if has CEXPR_TYPE then Some (type c) else None) with
      | None => None
      | Some val1 =>
          let bit := ebitmap_get_bit (names e) (dec32 val1) in
          if op e =? CEXPR_EQ then Some bit
          else if op e =? CEXPR_NEQ then Some (negb bit)
          else None
      end
  end.

(** What the body of the loop does to the stack, top first: [None] is
    [goto out], and an operator without operands is outside the array. *)
Definition cexpr_step (p : policydb) (scontext tcontext : context_struct)
    (xcontext : option context_struct) (e : constraint_expr) (s : list bool) : M (option (list bool)) :=
  let push (v : M (option bool)) :=
    if Nat.eqb (length s) CEXPR_MAXDEPTH then mret None else
    v ← v; mret (match v with Some b => Some (b :: s) | None => None end) in
  if expr_type e =? CEXPR_NOT then
    match s with a :: s' => mret (Some (negb a :: s')) | _ => ub end
  else if expr_type e =? CEXPR_AND then
    match s with b :: a :: s' => mret (Some ((a && b) :: s')) | _ => ub end
  else if expr_type e =? CEXPR_OR then
    match s with b :: a :: s' => mret (Some ((a || b) :: s')) | _ => ub end
  else if expr_type e =? CEXPR_ATTR then push (attr_value p scontext tcontext e)
  else if expr_type e =? CEXPR_NAMES then push (mret (names_value scontext tcontext xcontext e))
  else mret None.

(** The label [out] from inside the loop.  [expr_list] is freed up to its first
    NULL entry once it has entries; only a buffer that could not be allocated
    left one. *)
Definition cexpr_out (expr_counter : N) (null_entry : bool) (rc : Z) : M (Z + list bool) :=
  if (expr_counter =? 0) || null_entry then mret (inl rc) else ub.

Fixpoint cexpr_loop (p : policydb) (scontext tcontext : context_struct)
    (xcontext : option context_struct) (exprs : list constraint_expr)
    (expr_counter expr_list_len : N) (s : list bool) : M (Z + list bool) :=
  match exprs with
  | [] => mret (inr s)
  | e :: next =>
      ok ← (if expr_list_len <=? expr_counter then malloc else mret true);
      if negb ok then cexpr_out expr_counter false (- ENOMEM)%Z else
      let len := if expr_list_len <=? expr_counter
                 then (if expr_list_len =? 0 then STACK_LEN else expr_list_len * 2) else expr_list_len in
      ok ← malloc;
      if negb ok then cexpr_out expr_counter true (- ENOMEM)%Z else
      r ← cexpr_step p scontext tcontext xcontext e s;
      match r with
      | None => cexpr_out expr_counter false 0%Z
      | Some s => cexpr_loop p scontext tcontext xcontext next (expr_counter + 1) len s
      end
  end.

(** The conversion to infix notation allocates a buffer for every operator. *)
Definition is_operator (e : constraint_expr) : bool :=
  (expr_type e =? CEXPR_NOT) || (expr_type e =? CEXPR_AND) || (expr_type e =? CEXPR_OR).

Fixpoint alloc_answers (exprs : list constraint_expr) : M bool :=
  match exprs with
  | [] => mret true
  | e :: next =>
      if is_operator e then
        ok ← malloc;
        if negb ok then mret false else alloc_answers next
      else alloc_answers next
  end.

(** The name of the class is read for the text; a constraint without an
    expression would return an element of the stack that was never set. *)
Definition constraint_expr_eval_reason (p : policydb) (scontext tcontext : context_struct)
    (xcontext : option context_struct) (tclass : N) (constraint : constraint_node) : M Z :=
  ok ← malloc;
  if negb ok then mret (- ENOMEM)%Z else
  _ ← at_ptr (p_class_val_to_name p) (dec32 tclass);
  r ← cexpr_loop p scontext tcontext xcontext (expr constraint) 0 0 [];
  match r with
  | inl rc => mret rc
  | inr s =>
      ok ← malloc;
      if negb ok then mret (- ENOMEM)%Z else
      ok ← alloc_answers (expr constraint);
      if negb ok then mret (- ENOMEM)%Z else
      b ← deref (last s);
      mret (z_of_bool b)
  end.

(** * Access decisions *)

Definition PROCESS__TRANSITION : N := 2.
Definition PROCESS__DYNTRANSITION : N := 8388608.
Definition SEPOL_COMPUTEAV_TE : N := 1.
Definition SEPOL_COMPUTEAV_CONS : N := 2.
Definition SEPOL_COMPUTEAV_RBAC : N := 4.

(** What a rule of the unconditional table adds to a decision. *)
Definition te_add_rule (n : avtab_node) (avd : av_decision) : av_decision :=
  let spec := specified (av_key n) in
  let d := data (av_datum n) in
  if spec =? AVTAB_ALLOWED then
    AvDecision (N.lor (allowed avd) d) (decided avd) (auditallow avd) (auditdeny avd) (seqno avd)
  else if spec =? AVTAB_AUDITALLOW then
    AvDecision (allowed avd) (decided avd) (N.lor (auditallow avd) d) (auditdeny avd) (seqno avd)
  else if spec =? AVTAB_AUDITDENY then
    AvDecision (allowed avd) (decided avd) (auditallow avd) (N.land (auditdeny avd) d) (seqno avd)
  else avd.

(** One pair of attributes [i] and [j]; the fields of the key are 16 bits wide. *)
Definition te_pair (p : policydb) (tclass i j : N) (avd : av_decision) : M av_decision :=
  let avkey := AvtabKey (u16 (i + 1)) (u16 (j + 1)) tclass AVTAB_AV in
  avd ← for_each_match (te_avtab p) avkey te_add_rule avd;
  cond_compute_av (Some (te_cond_avtab p)) avkey avd.

(** The two loops over the attributes of the types. *)
Definition te_rules (p : policydb) (sattr tattr : ebitmap) (tclass : N) (avd : av_decision)
    : M (unit + av_decision) :=
  ebitmap_for_each_bit sattr avd (λ i bit avd,
    if negb bit then mret (inr avd) else
    ebitmap_for_each_bit tattr avd (λ j bit avd,
      if negb bit then mret (inr avd) else
      avd ← te_pair p tclass i j avd; mret (inr avd))).

Definition set_allowed (avd : av_decision) (a : N) : av_decision :=
  AvDecision a (decided avd) (auditallow avd) (auditdeny avd) (seqno avd).

(** The loop over the constraints of the class. *)
Fixpoint apply_constraints (p : policydb) (scontext tcontext : context_struct) (tclass : N)
    (l : list constraint_node) (avd : av_decision) : M av_decision :=
  match l with
  | [] => mret avd
  | constraint :: next =>
      if truth (N.land (permissions constraint) (allowed avd)) then
        rc ← constraint_expr_eval_reason p scontext tcontext None tclass constraint;
        let avd := if (rc =? 0)%Z
                   then set_allowed avd (N.land (allowed avd) (lnot32 (permissions constraint))) else avd in
        apply_constraints p scontext tcontext tclass next avd
      else apply_constraints p scontext tcontext tclass next avd
  end.

(** [*reason |= bit] and [requested &= avd->allowed] when something was lost. *)
Definition note_reason (bit : N) (avd : av_decision) (st : N * N) : N * N :=
  let '(requested, reason) := st in
  if truth (N.land requested (lnot32 (allowed avd)))
  then (N.land requested (allowed avd), N.lor reason bit) else st.

Definition check_role_allow (p : policydb) (scontext tcontext : context_struct) (tclass : N)
    (avd : av_decision) : av_decision :=
  let trans := N.lor PROCESS__TRANSITION PROCESS__DYNTRANSITION in
  if (tclass =? SECCLASS_PROCESS) && truth (N.land (allowed avd) trans) &&
     negb (role scontext =? role tcontext) then
    if existsb (λ ra, (role scontext =? ra_role ra) && (role tcontext =? ra_new_role ra)) (role_allows p)
    then avd else set_allowed avd (N.land (allowed avd) (lnot32 trans))
  else avd.

(** The result is the status, the decision and the reason; [avd] and [reason]
    are the caller's, left alone when the class is unknown. *)
Definition context_struct_compute_av (p : policydb) (latest_granting : N)
    (scontext tcontext : context_struct) (tclass requested : N) (avd : av_decision) (reason : N)
    : M (Z * av_decision * N) :=
  if (tclass =? 0) || (nprim (p_classes p) <? tclass) then mret ((- EINVAL)%Z, avd, reason) else
  tclass_datum ← deref (class_val_to_struct p !! N.to_nat (dec32 tclass));
  let avd := AvDecision 0 UINT_MAX 0 UINT_MAX latest_granting in
  sattr ← deref (type_attr_map p !! N.to_nat (dec32 (type scontext)));
  tattr ← deref (type_attr_map p !! N.to_nat (dec32 (type tcontext)));
  r ← te_rules p sattr tattr tclass avd;
  match r with
  | inl _ => ub
  | inr avd =>
      let st := note_reason SEPOL_COMPUTEAV_TE avd (requested, 0) in
      tclass_datum ← deref tclass_datum;
      avd ← apply_constraints p scontext tcontext tclass (constraints tclass_datum) avd;
      let st := note_reason SEPOL_COMPUTEAV_CONS avd st in
      let avd := check_role_allow p scontext tcontext tclass avd in
      let st := note_reason SEPOL_COMPUTEAV_RBAC avd st in
      mret (0%Z, avd, st.2)
  end.

(** ** Entry points *)

Definition sepol_compute_av_reason (p : policydb) (s : sidtab) (latest_granting : N) (ssid tsid tclass requested : N)
    (avd : av_decision) (reason : N) : M (Z * av_decision * N) :=
  sc ← sepol_sidtab_search (Some s) ssid;
  match sc with None => mret ((- EINVAL)%Z, avd, reason) | Some scontext =>
  tc ← sepol_sidtab_search (Some s) tsid;
  match tc with None => mret ((- EINVAL)%Z, avd, reason) | Some tcontext =>
  context_struct_compute_av p latest_granting scontext tcontext tclass requested avd reason
  end end.

Definition sepol_compute_av (p : policydb) (s : sidtab) (latest_granting : N) (ssid tsid tclass requested : N)
    (avd : av_decision) : M (Z * av_decision) :=
  '(rc, avd, _) ← sepol_compute_av_reason p s latest_granting ssid tsid tclass requested avd 0;
  mret (rc, avd).

(** The class handed to the constraint is 0 here, not the class of the check. *)
Fixpoint validate_loop (p : policydb) (ocontext ncontext tcontext : context_struct)
    (l : list constraint_node) : M Z :=
  match l with
  | [] => mret 0%Z
  | constraint :: next =>
      rc ← constraint_expr_eval_reason p ocontext ncontext (Some tcontext) 0 constraint;
      if (rc =? 0)%Z then mret (- EPERM)%Z else validate_loop p ocontext ncontext tcontext next
  end.

Definition sepol_validate_transition (p : policydb) (s : sidtab) (oldsid newsid tasksid tclass : N) : M Z :=
  if (tclass =? 0) || (nprim (p_classes p) <? tclass) then mret (- EINVAL)%Z else
  tclass_datum ← deref (class_val_to_struct p !! N.to_nat (dec32 tclass));
  oc ← sepol_sidtab_search (Some s) oldsid;
  match oc with None => mret (- EINVAL)%Z | Some ocontext =>
  nc ← sepol_sidtab_search (Some s) newsid;
  match nc with None => mret (- EINVAL)%Z | Some ncontext =>
  tc ← sepol_sidtab_search (Some s) tasksid;
  match tc with None => mret (- EINVAL)%Z | Some tcontext =>
  tclass_datum ← deref tclass_datum;
  validate_loop p ocontext ncontext tcontext (validatetrans tclass_datum)
  end end end.

(** * Names of classes and permissions *)

(** The loop [for (id = 1;; id++)] over the array of names, which has no entry
    behind the last class. *)
Fixpoint class_loop (l : list (option string)) (class_name : string) (id : N) : M (Z * option N) :=
  match l with
  | [] => ub
  | None :: _ => mret (STATUS_ERR, None)
  | Some class :: l' =>
      if bool_decide (class = class_name) then mret (STATUS_SUCCESS, Some id)
      else class_loop l' class_name (u16 (id + 1))
  end.

Definition sepol_string_to_security_class (p : policydb) (class_name : string) : M (Z * option N) :=
  class_loop (p_class_val_to_name p) class_name 1.

(** [0x1 << (perm_datum->s.value - 1)]; a shift by 32 or more is undefined. *)
Definition perm_bit (d : perm_datum) : M N :=
  if (perm_value d =? 0) || (32 <? perm_value d) then ub else mret (N.shiftl 1 (perm_value d - 1)).

Definition sepol_string_to_av_perm (p : policydb) (tclass : N) (perm_name : string) : M (Z * option N) :=
  if (tclass =? 0) || (nprim (p_classes p) <? tclass) then mret ((- EINVAL)%Z, None) else
  tclass_datum ← at_ptr (class_val_to_struct p) (dec32 tclass);
  d ← hashtab_search (table (class_permissions tclass_datum)) perm_name;
  match d with
  | Some perm => av ← perm_bit perm; mret (STATUS_SUCCESS, Some av)
  | None =>
      match comdatum tclass_datum with
      | None => mret (STATUS_ERR, None)
      | Some com =>
          d ← hashtab_search (table (common_permissions com)) perm_name;
          match d with
          | Some perm => av ← perm_bit perm; mret (STATUS_SUCCESS, Some av)
          | None => mret (STATUS_ERR, None)
          end
      end
  end.

(** * SIDs and contexts *)

Definition sepol_sid_to_context (p : policydb) (s : sidtab) (sid : N) : M (Z * option string) :=
  c ← sepol_sidtab_search (Some s) sid;
  match c with
  | None => mret ((- EINVAL)%Z, None)
  | Some context => context_to_string p context
  end.

(** [want_sid] is false for a NULL [sid]. *)
Definition sepol_context_to_sid (p : policydb) (s : sidtab) (scontext : string) (scontext_len : N)
    (want_sid : bool) : M (Z * sidtab * N) :=
  '(rc, c) ← context_from_string p scontext scontext_len;
  if (rc <? 0)%Z then mret (STATUS_ERR, s, SEPOL_SECSID_NULL) else
  context ← deref c;
  if negb want_sid then mret (STATUS_SUCCESS, s, SEPOL_SECSID_NULL) else
  '(rc, s, sid) ← sepol_sidtab_context_to_sid s context;
  mret (if (rc <? 0)%Z then STATUS_ERR else STATUS_SUCCESS, s, sid).

Definition sepol_check_context (p : policydb) (s : sidtab) (context : string) : M (Z * sidtab) :=
  '(rc, s, _) ← sepol_context_to_sid p s context (strlen context + 1) false;
  mret (rc, s).

(** * Labels of new objects *)

(** [selinux_enforcing] is 1 and never assigned, so the other branch, which
    only logs, is not reached. *)
Definition compute_sid_handle_invalid_context : Z := (- EACCES)%Z.

(** The enabled rule that the loop over the conditional table stops at. *)
Definition enabled_type (tab : avtab) (key : avtab_key) : M (option avtab_datum) :=
  for_each_match tab key
    (λ n found, match found with
                | Some d => Some d
                | None => if truth (N.land (specified (av_key n)) AVTAB_ENABLED) then Some (av_datum n) else None
                end) None.

(** The context before the MLS fields are set. *)
Definition new_context (p : policydb) (scontext tcontext : context_struct) (tclass spec : N)
    (avdatum : option avtab_datum) : context_struct :=
  let u := if (spec =? AVTAB_TRANSITION) || (spec =? AVTAB_CHANGE) then user scontext
           else if spec =? AVTAB_MEMBER then user tcontext else 0 in
  let process := tclass =? SECCLASS_PROCESS in
  let r := if process then role scontext else OBJECT_R_VAL in
  let t := match avdatum with
           | Some d => data d
           | None => if process then type scontext else type tcontext
           end in
  let r := if process && truth (N.land spec AVTAB_TRANSITION) then
             match List.find (λ rt, (rt_role rt =? role scontext) && (rt_type rt =? type tcontext)) (role_tr p) with
             | Some rt => rt_new_role rt
             | None => r
             end
           else r in
  Context u r t mls_range_init.

(** An unknown SID leads to the destruction of a context that was not
    initialised. *)
Definition sepol_compute_sid (p : policydb) (s : sidtab) (ssid tsid tclass spec : N)
    : M (Z * sidtab * N) :=
  sc ← sepol_sidtab_search (Some s) ssid;
  match sc with None => ub | Some scontext =>
  tc ← sepol_sidtab_search (Some s) tsid;
  match tc with None => ub | Some tcontext =>
  let avkey := AvtabKey (u16 (type scontext)) (u16 (type tcontext)) tclass (u16 spec) in
  d ← avtab_search (Some (te_avtab p)) avkey;
  avdatum ← match d with
            | Some d => mret (Some d)
            | None => enabled_type (te_cond_avtab p) avkey
            end;
  '(rc, newcontext) ← mls_compute_sid p scontext tcontext tclass spec
                        (new_context p scontext tcontext tclass spec avdatum);
  if negb (rc =? 0)%Z then mret (rc, s, SEPOL_SECSID_NULL) else
  ok ← policydb_context_isvalid p newcontext;
  if negb ok then mret (compute_sid_handle_invalid_context, s, SEPOL_SECSID_NULL) else
  sepol_sidtab_context_to_sid s newcontext
  end end.

Definition sepol_transition_sid (p : policydb) (s : sidtab) (ssid tsid tclass : N) : M (Z * sidtab * N) :=
  sepol_compute_sid p s ssid tsid tclass AVTAB_TRANSITION.
Definition sepol_member_sid (p : policydb) (s : sidtab) (ssid tsid tclass : N) : M (Z * sidtab * N) :=
  sepol_compute_sid p s ssid tsid tclass AVTAB_MEMBER.
Definition sepol_change_sid (p : policydb) (s : sidtab) (ssid tsid tclass : N) : M (Z * sidtab * N) :=
  sepol_compute_sid p s ssid tsid tclass AVTAB_CHANGE.

(** * Policy changes *)

Definition validate_perm (h : option (hashtab string perm_datum)) (key : string) (d : perm_datum) (args : unit)
    : M (Z * unit) :=
  d2 ← hashtab_search h key;
  mret (match d2 with
        | None => (-1)%Z
        | Some d2 => if negb (perm_value d =? perm_value d2) then (-1)%Z else 0%Z
        end, args).

Definition validate_class (newp : policydb) (key : string) (d : class_datum) (args : unit) : M (Z * unit) :=
  r ← hashtab_search (table (p_classes newp)) key;
  match r with
  | None => mret ((-1)%Z, args)
  | Some d2 =>
      if negb (class_value d =? class_value d2) then mret ((-1)%Z, args) else
      match comdatum d, comdatum d2 with
      | Some _, None | None, Some _ => mret ((-1)%Z, args)
      | com, com2 =>
          '(rc, _) ← match com, com2 with
                     | Some c, Some c2 =>
                         hashtab_map (table (common_permissions c))
                           (validate_perm (table (common_permissions c2))) tt
                     | _, _ => mret (0%Z, tt)
                     end;
          if negb (rc =? 0)%Z then mret ((-1)%Z, args) else
          '(rc, _) ← hashtab_map (table (class_permissions d))
                       (validate_perm (table (class_permissions d2))) tt;
          mret (if negb (rc =? 0)%Z then (-1)%Z else 0%Z, args)
      end
  end.

(** * The meaning of constraints *)

Inductive cexp :=
  | CLeaf (e : constraint_expr) | CNot (c : cexp) | CBin (isand : bool) (c1 c2 : cexp).

Definition bin_code (isand : bool) : N := if isand then CEXPR_AND else CEXPR_OR.
Definition bin_eval (isand : bool) : bool → bool → bool := if isand then andb else orb.

(** Reverse polish notation; operators have no use for the other fields. *)
Inductive crpn : cexp → list constraint_expr → Prop :=
  | crpn_leaf e : expr_type e = CEXPR_ATTR ∨ expr_type e = CEXPR_NAMES → crpn (CLeaf e) [e]
  | crpn_not c l e : crpn c l → expr_type e = CEXPR_NOT → crpn (CNot c) (l ++ [e])
  | crpn_bin isand c1 c2 l1 l2 e : crpn c1 l1 → crpn c2 l2 → expr_type e = bin_code isand →
      crpn (CBin isand c1 c2) (l1 ++ l2 ++ [e]).

Fixpoint cdepth (c : cexp) : nat :=
  match c with
  | CLeaf _ => 1
  | CNot c => cdepth c
  | CBin _ c1 c2 => Nat.max (cdepth c1) (S (cdepth c2))
  end.

Fixpoint cleaves (c : cexp) : list constraint_expr :=
  match c with
  | CLeaf e => [e]
  | CNot c => cleaves c
  | CBin _ c1 c2 => cleaves c1 ++ cleaves c2
  end.

Fixpoint ceval (value : constraint_expr → bool) (c : cexp) : bool :=
  match c with
  | CLeaf e => value e
  | CNot c => negb (ceval value c)
  | CBin isand c1 c2 => bin_eval isand (ceval value c1) (ceval value c2)
  end.

Section constraint.
Context (p : policydb) (s t : context_struct) (x : option context_struct).

(** The test of a leaf is defined and has this value. *)
Definition leaf_is (e : constraint_expr) (v : bool) : Prop :=
  ∀ o, (if expr_type e =? CEXPR_ATTR then attr_value p s t e else mret (names_value s t x e)) o = Ret (Some v) o.

(** What a failed allocation leads to, and what a caller may rely on. *)
Definition eval_post (v : bool) (o : oracle) (rc : Z) (o' : oracle) : Prop :=
  (o = [] → o' = [] ∧ rc = z_of_bool v) ∧ (rc = z_of_bool v ∨ rc = (- ENOMEM)%Z).

Lemma cexpr_one e next k len st st' o Q :
  (k = 0 ∧ len = 0) ∨ len = STACK_LEN → k < STACK_LEN →
  (∀ o, cexpr_step p s t x e st o = Ret (Some st') o) →
  (∀ o', (o = [] → o' = []) → wp (cexpr_loop p s t x next (k + 1) STACK_LEN st') o' Q) →
  (o ≠ [] → ∀ o', Q (inl (- ENOMEM)%Z) o') →
  wp (cexpr_loop p s t x (e :: next) k len st) o Q.
Proof.
  intros Hlen Hk Hstep Hnext Hfail. cbn [cexpr_loop].
  assert (wp (if len <=? k then malloc else mret true) o (λ ok o', (o = [] → ok = true ∧ o' = []) ∧
    (ok = false → k = 0))) as Hlist.
  { destruct (N.leb_spec len k) as [Hle|Hgt]; [|by wp_step].
    apply wp_malloc. intros b o' Ho. split; [done|]. unfold STACK_LEN in *. lia. }
  wp_step. eapply wp_mono; [exact Hlist|]. intros b o1 [H1 Hz]. destruct b; cbn [negb].
  2: { rewrite (Hz eq_refl). apply Hfail. intros ->. by destruct H1. }
  wp_step. apply wp_malloc. intros [] o2 H2; cbn [negb].
  2: { unfold cexpr_out. rewrite orb_true_r. apply wp_ret, Hfail. intros ->. destruct H1 as [_ ->]; [done|].
       by destruct H2. }
  wp_step. unfold wp at 1. rewrite Hstep.
  replace (if len <=? k then if len =? 0 then STACK_LEN else len * 2 else len) with STACK_LEN.
  - apply Hnext. intros ->. destruct H1 as [_ ->]; [done|]. by apply H2.
  - unfold STACK_LEN in *. destruct Hlen as [[-> ->]| ->]; [done|]. by rewrite (proj2 (N.leb_gt _ _)) by lia.
Qed.

Lemma cexpr_loop_spec value c l rest k len st o Q :
  crpn c l → (∀ e, e ∈ cleaves c → leaf_is e (value e)) → (length st + cdepth c ≤ CEXPR_MAXDEPTH)%nat →
  (k = 0 ∧ len = 0) ∨ len = STACK_LEN → k + N.of_nat (length l) ≤ STACK_LEN →
  (∀ o', (o = [] → o' = []) →
     wp (cexpr_loop p s t x rest (k + N.of_nat (length l)) STACK_LEN (ceval value c :: st)) o' Q) →
  (o ≠ [] → ∀ o', Q (inl (- ENOMEM)%Z) o') →
  wp (cexpr_loop p s t x (l ++ rest) k len st) o Q.
Proof.
  intros Hc. revert rest k len st o.
  induction Hc as [e Hty|c l e Hc IH Hty|isand c1 c2 l1 l2 e Hc1 IH1 Hc2 IH2 Hty];
    intros rest k len st o Hval Hd Hlen Hk Hnext Hfail; cbn [cdepth cleaves ceval] in *.
  - cbn [app length] in *. apply cexpr_one with (st' := value e :: st); [done|lia| |done|done].
    intros o'. specialize (Hval e ltac:(set_solver)). unfold cexpr_step.
    assert (Nat.eqb (length st) CEXPR_MAXDEPTH = false) as -> by (apply Nat.eqb_neq; lia).
    pose proof (Hval o') as Hv. unfold leaf_is in Hv.
    destruct Hty as [Hty|Hty]; rewrite Hty in *; cbn in Hv |- *; rewrite bind_run, Hv; done.
  - rewrite length_app in *. cbn [length] in *. rewrite <- app_assoc. apply IH; [done|done|done|lia| |done].
    intros o1 H1. cbn [app]. apply cexpr_one with (st' := negb (ceval value c) :: st); [by right|lia| | |].
    + intros o'. unfold cexpr_step. by rewrite Hty.
    + intros o2 H2. replace (k + N.of_nat (length l) + 1) with (k + N.of_nat (length l + 1)) by lia.
      apply Hnext. auto.
    + intros Ho1. apply Hfail. auto.
  - rewrite !length_app in *. cbn [length] in *. rewrite <- !app_assoc.
    apply IH1; [set_solver|lia|done|lia| |done]. intros o1 H1.
    apply IH2; [set_solver|cbn [length]; lia|by right|lia| |auto]. intros o2 H2. cbn [app].
    apply cexpr_one with (st' := bin_eval isand (ceval value c1) (ceval value c2) :: st); [by right|lia| | |].
    + intros o'. unfold cexpr_step. rewrite Hty. by destruct isand.
    + intros o3 H3.
      replace (k + N.of_nat (length l1) + N.of_nat (length l2) + 1)
        with (k + N.of_nat (length l1 + (length l2 + 1))) by lia. apply Hnext. auto.
    + intros Ho2. apply Hfail. auto.
Qed.
End constraint.

(** Constraints as the policy compiler writes them: an expression whose leaves
    can be tested, within the stack of five and the first list of 32 texts. *)
Definition constraint_value (p : policydb) (s t : context_struct) (x : option context_struct)
    (c : constraint_node) (v : bool) : Prop :=
  ∃ ce value, crpn ce (expr c) ∧ (cdepth ce ≤ CEXPR_MAXDEPTH)%nat ∧
    N.of_nat (length (expr c)) ≤ STACK_LEN ∧ (∀ e, e ∈ cleaves ce → leaf_is p s t x e (value e)) ∧
    ceval value ce = v.

Lemma wp_alloc_answers l o Q :
  (∀ b o', (o = [] → b = true ∧ o' = []) → Q b o') → wp (alloc_answers l) o Q.
Proof.
  revert o. induction l as [|e l IH]; intros o HQ; cbn [alloc_answers]; [wp_step; auto|].
  destruct (is_operator e); [|by apply IH]. wp_step. wp_step. intros [] o1 H1; cbn [negb].
  - apply IH. intros b o2 H2. apply HQ. naive_solver.
  - wp_step. apply HQ. naive_solver.
Qed.

Lemma constraint_eval_spec p s t x tclass c v o :
  constraint_value p s t x c v → 0 < tclass → tclass < 2 ^ 32 →
  is_Some (p_class_val_to_name p !! N.to_nat (tclass - 1) ≫= id) →
  wp (constraint_expr_eval_reason p s t x tclass c) o (eval_post v o).
Proof.
  intros (ce & value & Hrpn & Hd & Hlen & Hval & Hv) H0 H32 [name Hname].
  apply bind_Some in Hname as (nm & Hname & Heq). cbn in Heq. subst nm.
  unfold constraint_expr_eval_reason, eval_post.
  wp_step. wp_step. intros [] o1 H1; cbn [negb]; [|wp_step; split; [naive_solver|by right]].
  wp_step. apply wp_at_ptr. rewrite dec32_pred by done. exists name. split; [done|].
  wp_step. rewrite <- (app_nil_r (expr c)) at 1.
  apply (cexpr_loop_spec p s t x value ce); [done|done|done|by left|lia| |].
  2: { intros Ho1 o2. wp_step. split; [|by right]. intros ->. destruct H1 as [_ ->]; done. }
  intros o2 H2. cbn [cexpr_loop]. wp_step. wp_step. wp_step.
  intros [] o3 H3; cbn [negb]; [|wp_step; split; [naive_solver|by right]].
  wp_step. apply wp_alloc_answers. intros [] o4 H4; cbn [negb]; [|wp_step; split; [naive_solver|by right]].
  cbn [last deref]. wp_step. wp_step. wp_step. rewrite Hv. split; [naive_solver|by left].
Qed.

(** ** The language of constraints

    Conditions as policies state them, with u, r, t, l and h for the fields of
    the source (1), the target (2) and, in [validatetrans] rules, the third
    context: [u1 == u2], [r1 dom r2], [h1 domby l2], [t2 == { ... }]. *)

Inductive cons_subject := Source | Target | Third.
Inductive cons_field := UserOf | RoleOf | TypeOf.
Inductive compare_op := OpEq | OpNeq | OpDom | OpDomBy | OpIncomp.
Inductive level_pair := L1L2 | L1H2 | H1L2 | H1H2 | L1H1 | L2H2.
Inductive cons_test :=
  | Users (same : bool) | Types (same : bool) | Roles (c : compare_op) | Levels (l : level_pair) (c : compare_op)
  | Names (s : cons_subject) (f : cons_field) (among : bool) (set : ebitmap).
Inductive condition := TestOf (t : cons_test) | Neg (c : condition) | Both (c1 c2 : condition) | Either (c1 c2 : condition).

(** How constraint.h encodes them. *)
Definition compare_code (c : compare_op) : N :=
  match c with OpEq => 1 | OpNeq => 2 | OpDom => 3 | OpDomBy => 4 | OpIncomp => 5 end.
Definition same_code (same : bool) : N := if same then 1 else 2.
Definition pair_code (l : level_pair) : N :=
  match l with L1L2 => 32 | L1H2 => 64 | H1L2 => 128 | H1H2 => 256 | L1H1 => 512 | L2H2 => 1024 end.
Definition names_code (s : cons_subject) (f : cons_field) : N :=
  match f with UserOf => 1 | RoleOf => 2 | TypeOf => 4 end + match s with Source => 0 | Target => 8 | Third => 16 end.

Definition encodes (t : cons_test) (e : constraint_expr) : Prop :=
  match t with
  | Users same => expr_type e = 4 ∧ attr e = 1 ∧ op e = same_code same
  | Types same => expr_type e = 4 ∧ attr e = 4 ∧ op e = same_code same
  | Roles c => expr_type e = 4 ∧ attr e = 2 ∧ op e = compare_code c
  | Levels l c => expr_type e = 4 ∧ attr e = pair_code l ∧ op e = compare_code c
  | Names s f among set => expr_type e = 5 ∧ attr e = names_code s f ∧ op e = same_code among ∧ names e = set
  end.

Inductive polish : condition → list constraint_expr → Prop :=
  | polish_test t e : encodes t e → polish (TestOf t) [e]
  | polish_neg c l e : polish c l → expr_type e = 1 → polish (Neg c) (l ++ [e])
  | polish_both c1 c2 l1 l2 e : polish c1 l1 → polish c2 l2 → expr_type e = 2 → polish (Both c1 c2) (l1 ++ l2 ++ [e])
  | polish_either c1 c2 l1 l2 e : polish c1 l1 → polish c2 l2 → expr_type e = 3 → polish (Either c1 c2) (l1 ++ l2 ++ [e]).

Fixpoint condition_depth (c : condition) : nat :=
  match c with
  | TestOf _ => 1
  | Neg c => condition_depth c
  | Both c1 c2 | Either c1 c2 => Nat.max (condition_depth c1) (S (condition_depth c2))
  end.

(** What they mean. *)
Definition dominates_level (l1 l2 : mls_level) : Prop :=
  sens l2 ≤ sens l1 ∧ ∀ i, ebitmap_bit (cat l2) i = true → ebitmap_bit (cat l1) i = true.
Definition dominates_role (p : policydb) (r1 r2 : N) : Prop :=
  ∃ d, role_val_to_struct p !! N.to_nat (r1 - 1) = Some (Some d) ∧ ebitmap_bit (dominates d) (r2 - 1) = true.

Definition compares {A} (dom : A → A → Prop) (c : compare_op) (a b : A) : Prop :=
  match c with
  | OpEq => a = b | OpNeq => a ≠ b | OpDom => dom a b | OpDomBy => dom b a | OpIncomp => ¬ dom a b ∧ ¬ dom b a
  end.

Section meaning.
Context (p : policydb) (s t : context_struct) (x : option context_struct).

Definition levels_of (l : level_pair) : mls_level * mls_level :=
  match l with
  | L1L2 => (level0 (range s), level0 (range t)) | L1H2 => (level0 (range s), level1 (range t))
  | H1L2 => (level1 (range s), level0 (range t)) | H1H2 => (level1 (range s), level1 (range t))
  | L1H1 => (level0 (range s), level1 (range s)) | L2H2 => (level0 (range t), level1 (range t))
  end.
Definition context_of (c : cons_subject) : option context_struct :=
  match c with Source => Some s | Target => Some t | Third => x end.
Definition field_of (f : cons_field) (c : context_struct) : N :=
  match f with UserOf => user c | RoleOf => role c | TypeOf => type c end.

Definition test_holds (a : cons_test) : Prop :=
  match a with
  | Users same => if same then user s = user t else user s ≠ user t
  | Types same => if same then type s = type t else type s ≠ type t
  | Roles c => compares (dominates_role p) c (role s) (role t)
  | Levels l c => compares dominates_level c (levels_of l).1 (levels_of l).2
  | Names c f among set => ∃ c', context_of c = Some c' ∧
      if among then ebitmap_bit set (field_of f c' - 1) = true else ebitmap_bit set (field_of f c' - 1) = false
  end.

(** What a test needs: declared roles, well-formed sets, the third context. *)
Definition role_known (r : N) : Prop :=
  0 < r < 2 ^ 32 ∧ ∃ d, role_val_to_struct p !! N.to_nat (r - 1) = Some (Some d) ∧ ebitmap_wf (dominates d).
Definition test_defined (a : cons_test) : Prop :=
  match a with
  | Users _ | Types _ => True
  | Roles c => role_known (role s) ∧ role_known (role t)
  | Levels l c => range_wf (range s) ∧ range_wf (range t)
  | Names c f among set => ebitmap_wf set ∧ ∃ c', context_of c = Some c' ∧ 0 < field_of f c' < 2 ^ 32
  end.

Fixpoint holds (c : condition) : Prop :=
  match c with
  | TestOf a => test_holds a | Neg c => ¬ holds c | Both c1 c2 => holds c1 ∧ holds c2 | Either c1 c2 => holds c1 ∨ holds c2
  end.
Fixpoint tests_defined (c : condition) : Prop :=
  match c with
  | TestOf a => test_defined a | Neg c => tests_defined c | Both c1 c2 | Either c1 c2 => tests_defined c1 ∧ tests_defined c2
  end.

(** The value the code gives to a test is the one it means. *)
Lemma same_op same a b : ∃ v, val_op (same_code same) a b = Some v ∧ (v = true ↔ if same then a = b else a ≠ b).
Proof.
  destruct same; eexists; (split; [reflexivity|]); [by rewrite N.eqb_eq|]. rewrite negb_true_iff. by rewrite N.eqb_neq.
Qed.

Lemma level_compares c l1 l2 : level_wf l1 → level_wf l2 →
  ∃ v, mls_op (compare_code c) l1 l2 = Some v ∧ (v = true ↔ compares dominates_level c l1 l2).
Proof.
  intros H1 H2. pose proof (level_dom_spec l1 l2 H1 H2) as Hd. pose proof (level_dom_spec l2 l1 H2 H1) as Hd'.
  destruct c; eexists; (split; [reflexivity|]); cbn [compares]; unfold dominates_level.
  - apply level_eq_spec.
  - rewrite negb_true_iff, <- not_true_iff_false, level_eq_spec. done.
  - done.
  - done.
  - unfold mls_level_incomp. rewrite andb_true_iff, !negb_true_iff, <- !not_true_iff_false, Hd, Hd'. tauto.
Qed.

Lemma role_compares e c o :
  attr e = 2 → op e = compare_code c → role_known (role s) → role_known (role t) →
  ∃ v, attr_value p s t e o = Ret (Some v) o ∧ (v = true ↔ compares (dominates_role p) c (role s) (role t)).
Proof.
  intros Ha Ho ([Hs0 Hs] & d1 & Hd1 & Hw1) ([Ht0 Ht] & d2 & Hd2 & Hw2). unfold attr_value. rewrite Ha, Ho.
  change (2 =? CEXPR_USER) with false. change (2 =? CEXPR_TYPE) with false. change (2 =? CEXPR_ROLE) with true. cbv iota.
  rewrite !dec32_pred by done. rewrite bind_run, Hd1. cbn [deref]. unfold mret at 1, M_ret at 1.
  rewrite bind_run, Hd2. cbn [deref]. unfold mret at 1, M_ret at 1.
  assert (∀ d r r', role_val_to_struct p !! N.to_nat (r - 1) = Some (Some d) →
            dominates_role p r r' ↔ ebitmap_bit (dominates d) (r' - 1) = true) as Hdom.
  { intros d r r' Hd. split; [intros (d' & Hd' & Hb); congruence|intros Hb; by exists d]. }
  destruct c; cbn [compare_code compares].
  - eexists. split; [reflexivity|]. apply N.eqb_eq.
  - eexists. split; [reflexivity|]. by rewrite negb_true_iff, N.eqb_neq.
  - eexists. split; [reflexivity|]. by rewrite get_bit_wf, (Hdom d1).
  - eexists. split; [reflexivity|]. by rewrite get_bit_wf, (Hdom d2).
  - pose proof (Hdom d1 _ (role t) Hd1) as H1. pose proof (Hdom d2 _ (role s) Hd2) as H2.
    rewrite <- get_bit_wf in H1, H2 by done. cbn -[ebitmap_get_bit]. unfold mret, M_ret. setoid_rewrite bind_run.
    destruct (ebitmap_get_bit (dominates d1) (role t - 1)); [exists false; split; [done|]; split; [done|intros [Hn _]; destruct Hn; by apply H1]|].
    setoid_rewrite bind_run. eexists. split; [reflexivity|]. rewrite negb_true_iff, <- not_true_iff_false, <- H2, H1. split; [by intros ?; split|by intros []].
Qed.

Lemma test_value a e o : encodes a e → test_defined a →
  ∃ v, (if expr_type e =? CEXPR_ATTR then attr_value p s t e else mret (names_value s t x e)) o = Ret (Some v) o ∧
    (v = true ↔ test_holds a).
Proof.
  destruct a as [same|same|c|l c|c f among set]; cbn [encodes test_defined test_holds].
  - intros (-> & Ha & Ho) _. cbn [CEXPR_ATTR N.eqb Pos.eqb]. unfold attr_value. rewrite Ha, Ho.
    destruct (same_op same (user s) (user t)) as (v & Hv & H). exists v. by rewrite <- Hv.
  - intros (-> & Ha & Ho) _. cbn [CEXPR_ATTR N.eqb Pos.eqb]. unfold attr_value. rewrite Ha, Ho.
    destruct (same_op same (type s) (type t)) as (v & Hv & H). exists v. by rewrite <- Hv.
  - intros (-> & Ha & Ho) [Hs Ht]. by apply role_compares.
  - intros (-> & Ha & Ho) [[Hs0 Hs1] [Ht0 Ht1]]. cbn [CEXPR_ATTR N.eqb Pos.eqb].
    destruct (level_compares c (levels_of l).1 (levels_of l).2) as (v & Hv & H); [by destruct l|by destruct l|].
    exists v. split; [|done]. unfold attr_value. rewrite Ha, Ho. rewrite <- Hv. by destruct l.
  - intros (-> & Ha & Ho & Hn) (Hw & c' & Hc & H0 & H32). cbn [CEXPR_ATTR N.eqb Pos.eqb].
    exists (if among then ebitmap_bit set (field_of f c' - 1) else negb (ebitmap_bit set (field_of f c' - 1))).
    split.
    + unfold names_value. rewrite Ha, Ho, Hn.
      destruct c; cbn [context_of] in Hc; try injection Hc as <-; rewrite ?Hc;
        destruct f, among; repeat match goal with |- context [truth ?a] => let v := eval vm_compute in (truth a) in change (truth a) with v end;
        cbn -[ebitmap_get_bit dec32] in *; by rewrite dec32_pred, get_bit_wf by done.
    + destruct among; [|rewrite negb_true_iff]; (split; [intros Hb; by exists c'|intros (c2 & Hc2 & Hb); congruence]).
Qed.

(** The value of an element of the list, as the code computes it. *)
Definition code_value (e : constraint_expr) : bool :=
  match (if expr_type e =? CEXPR_ATTR then attr_value p s t e else mret (names_value s t x e)) [] with
  | Ret (Some v) _ => v | _ => false
  end.

Lemma condition_value c l : polish c l → tests_defined c →
  ∃ ce, crpn ce l ∧ cdepth ce = condition_depth c ∧ (∀ e, e ∈ cleaves ce → leaf_is p s t x e (code_value e)) ∧
    (ceval code_value ce = true ↔ holds c).
Proof.
  induction 1 as [a e He|c l e _ IH Ht|c1 c2 l1 l2 e _ IH1 _ IH2 Ht|c1 c2 l1 l2 e _ IH1 _ IH2 Ht]; cbn [tests_defined].
  - intros Hd. exists (CLeaf e). split; [apply crpn_leaf; destruct a; [left..|right]; apply He|]. split; [done|].
    assert (∀ o, ∃ v, (if expr_type e =? CEXPR_ATTR then attr_value p s t e else mret (names_value s t x e)) o = Ret (Some v) o ∧
              (v = true ↔ test_holds a)) as Hv by (intros o; by apply test_value).
    assert (code_value e = true ↔ test_holds a) as Hc.
    { unfold code_value. destruct (Hv []) as (v & -> & H). done. }
    split; [|done]. intros e' [->|[]%elem_of_nil]%elem_of_cons o. destruct (Hv o) as (v & -> & H). do 2 f_equal.
    destruct v, (code_value e); naive_solver.
  - intros (ce & Hr & Hd & Hl & Hv)%IH. exists (CNot ce). split; [by apply crpn_not|]. split; [done|]. split; [done|].
    cbn. by rewrite negb_true_iff, <- not_true_iff_false, Hv.
  - intros [(ce1 & Hr1 & Hd1 & Hl1 & Hv1)%IH1 (ce2 & Hr2 & Hd2 & Hl2 & Hv2)%IH2]. exists (CBin true ce1 ce2).
    split; [by apply crpn_bin|]. split; [cbn; by rewrite Hd1, Hd2|]. split; [cbn; set_solver|].
    cbn. by rewrite andb_true_iff, Hv1, Hv2.
  - intros [(ce1 & Hr1 & Hd1 & Hl1 & Hv1)%IH1 (ce2 & Hr2 & Hd2 & Hl2 & Hv2)%IH2]. exists (CBin false ce1 ce2).
    split; [by apply crpn_bin|]. split; [cbn; by rewrite Hd1, Hd2|]. split; [cbn; set_solver|].
    cbn. by rewrite orb_true_iff, Hv1, Hv2.
Qed.

(** 1 for a condition that holds and 0 for one that does not. *)
Definition tells (c : condition) (rc : Z) : Prop := (rc = 1%Z ∧ holds c) ∨ (rc = 0%Z ∧ ¬ holds c).
End meaning.

Lemma condition_eval_spec p s t x tclass c cd o :
  polish cd (expr c) → tests_defined p s t x cd → (condition_depth cd ≤ CEXPR_MAXDEPTH)%nat →
  N.of_nat (length (expr c)) ≤ STACK_LEN → 0 < tclass → tclass < 2 ^ 32 →
  is_Some (p_class_val_to_name p !! N.to_nat (tclass - 1) ≫= id) →
  wp (constraint_expr_eval_reason p s t x tclass c) o (λ rc o',
    (o = [] → o' = [] ∧ tells p s t x cd rc) ∧ (tells p s t x cd rc ∨ rc = (- ENOMEM)%Z)).
Proof.
  intros Hp Hd Hdep Hlen H0 H32 Hn. destruct (condition_value p s t x cd _ Hp Hd) as (ce & Hr & Hcd & Hl & Hv).
  eapply wp_mono; [apply (constraint_eval_spec p s t x tclass c (ceval (code_value p s t x) ce)); [|done..]|].
  { exists ce, (code_value p s t x). split_and!; try done. by rewrite Hcd. }
  assert (tells p s t x cd (z_of_bool (ceval (code_value p s t x) ce))) as Ht.
  { unfold tells. destruct (ceval _ ce) eqn:E; [left|right]; (split; [done|]); naive_solver. }
  intros rc o' [H1 H2]. split.
  - intros Ho. by destruct (H1 Ho) as [? ->].
  - destruct H2 as [->|?]; [by left|by right].
Qed.

(** * Type enforcement *)

(** The set bits of a bitmap in the order of [ebitmap_for_each_bit]. *)
Definition set_bits (e : ebitmap) : list N := filter (λ i, ebitmap_bit e i = true) (ebitmap_positions e).

Lemma elem_of_set_bits e i : ebitmap_wf e → i ∈ set_bits e ↔ ebitmap_bit e i = true.
Proof.
  intros Hwf. unfold set_bits. rewrite list_elem_of_filter. split; [naive_solver|].
  intros Hi. split; [done|]. by apply bit_position.
Qed.

(** A loop whose body only updates a state at the set bits is a fold. *)
Lemma for_each_bit_fold {R St} e (s : St) (body : N → bool → St → M (R + St)) (f : N → St → St) o :
  ebitmap_wf e →
  (∀ i s o, ebitmap_bit e i = true → body i true s o = Ret (inr (f i s)) o) →
  (∀ i s o, body i false s o = Ret (inr s) o) →
  ebitmap_for_each_bit e s body o = Ret (inr (foldl (λ s i, f i s) s (set_bits e))) o.
Proof.
  intros Hwf Ht Hf. rewrite for_each_bit_visited by done. unfold set_bits.
  generalize (ebitmap_positions e). intros l. revert s.
  induction l as [|i l IH]; intros s; [done|]. cbn [for_list]. rewrite bind_run, filter_cons.
  destruct (ebitmap_bit e i) eqn:E; [rewrite Ht, decide_True by done|rewrite Hf, decide_False by done]; apply IH.
Qed.

(** The key of a pair of attributes, the rules for it, and the permissions
    they allow. *)
Definition pair_key (tclass i j : N) : avtab_key := AvtabKey (u16 (i + 1)) (u16 (j + 1)) tclass AVTAB_AV.

Definition pair_rules (tab : avtab) (tclass i j : N) : list avtab_node :=
  filter (λ n, key_match (pair_key tclass i j) AVTAB_AV (av_key n) = true) (avtab_entries tab).

Definition te_allows (p : policydb) (tclass i j k : N) : bool :=
  existsb (λ n, (specified (av_key n) =? AVTAB_ALLOWED) && N.testbit (data (av_datum n)) k)
    (pair_rules (te_avtab p) tclass i j) ||
  existsb (λ n, rule_kind AVTAB_ALLOWED n && N.testbit (data (av_datum n)) k)
    (pair_rules (te_cond_avtab p) tclass i j).

Lemma te_add_rules_bits l avd k :
  let avd' := foldl (λ a n, te_add_rule n a) avd l in
  N.testbit (allowed avd') k =
    N.testbit (allowed avd) k ||
    existsb (λ n, (specified (av_key n) =? AVTAB_ALLOWED) && N.testbit (data (av_datum n)) k) l ∧
  decided avd' = decided avd ∧ seqno avd' = seqno avd.
Proof.
  revert avd. induction l as [|n l IH]; intros avd; cbn [foldl existsb]; [by rewrite orb_false_r|].
  destruct (IH (te_add_rule n avd)) as (-> & -> & ->). unfold te_add_rule.
  destruct (specified (av_key n) =? AVTAB_ALLOWED) eqn:E.
  - cbn. by rewrite N.lor_spec, orb_assoc.
  - by destruct (specified (av_key n) =? AVTAB_AUDITALLOW), (specified (av_key n) =? AVTAB_AUDITDENY).
Qed.

Section te.
Context (p : policydb) (Hte : avtab_wf (te_avtab p)) (Hcond : avtab_wf (te_cond_avtab p)).

Definition pair_step (tclass i j : N) (avd : av_decision) : av_decision :=
  foldl (λ a n, cond_add_rule n a)
    (foldl (λ a n, te_add_rule n a) avd (pair_rules (te_avtab p) tclass i j))
    (pair_rules (te_cond_avtab p) tclass i j).

Lemma te_pair_run tclass i j avd o : te_pair p tclass i j avd o = Ret (pair_step tclass i j avd) o.
Proof.
  unfold te_pair. rewrite bind_run, for_each_match_spec by done. cbn [cond_compute_av].
  by rewrite for_each_match_spec.
Qed.

(** What is known of a decision while the rules are collected. *)
Definition decision_grows (avd avd' : av_decision) (grant : N → bool) : Prop :=
  (∀ k, N.testbit (allowed avd') k = N.testbit (allowed avd) k || grant k) ∧
  decided avd' = decided avd ∧ seqno avd' = seqno avd.

Lemma pair_step_grows tclass i j avd :
  decision_grows avd (pair_step tclass i j avd) (te_allows p tclass i j).
Proof.
  unfold decision_grows, pair_step, te_allows. split.
  - intros k. destruct (add_rules_bits (pair_rules (te_cond_avtab p) tclass i j)
      (foldl (λ a n, te_add_rule n a) avd (pair_rules (te_avtab p) tclass i j)) k) as (-> & _).
    destruct (te_add_rules_bits (pair_rules (te_avtab p) tclass i j) avd k) as (-> & _). by rewrite orb_assoc.
  - destruct (add_rules_bits (pair_rules (te_cond_avtab p) tclass i j)
      (foldl (λ a n, te_add_rule n a) avd (pair_rules (te_avtab p) tclass i j)) 0) as (_ & _ & _ & -> & ->).
    by destruct (te_add_rules_bits (pair_rules (te_avtab p) tclass i j) avd 0) as (_ & -> & ->).
Qed.

Lemma fold_grows {A} (f : A → av_decision → av_decision) (grant : A → N → bool) l avd :
  (∀ a d, decision_grows d (f a d) (grant a)) →
  decision_grows avd (foldl (λ d a, f a d) avd l) (λ k, existsb (λ a, grant a k) l).
Proof.
  intros Hf. revert avd. induction l as [|a l IH]; intros avd; cbn [foldl existsb].
  { split; [|done]. intros k. by rewrite orb_false_r. }
  destruct (IH (f a avd)) as (Hk & Hd & Hs), (Hf a avd) as (Hk' & Hd' & Hs').
  split; [|split; congruence]. intros k. by rewrite Hk, Hk', orb_assoc.
Qed.

Lemma te_rules_run sattr tattr tclass avd o :
  ebitmap_wf sattr → ebitmap_wf tattr →
  ∃ avd', te_rules p sattr tattr tclass avd o = Ret (inr avd') o ∧
    decision_grows avd avd' (λ k, existsb (λ i, existsb (λ j, te_allows p tclass i j k) (set_bits tattr)) (set_bits sattr)).
Proof.
  intros Hs Ht. unfold te_rules. eexists. split.
  - apply for_each_bit_fold with
      (f := λ i avd, foldl (λ avd j, pair_step tclass i j avd) avd (set_bits tattr)); [done| |done].
    intros i d o' _. cbn [negb]. apply for_each_bit_fold; [done| |done].
    intros j d' o'' _. cbn [negb]. by rewrite bind_run, te_pair_run.
  - apply (fold_grows (λ i avd, foldl (λ avd j, pair_step tclass i j avd) avd (set_bits tattr))
             (λ i k, existsb (λ j, te_allows p tclass i j k) (set_bits tattr))).
    intros i d. apply (fold_grows (pair_step tclass i) (λ j, te_allows p tclass i j)).
    intros j d'. apply pair_step_grows.
Qed.
End te.

(** * Constraints and roles *)

Lemma lnot32_bit x k : k < 32 → N.testbit (lnot32 x) k = negb (N.testbit x k).
Proof.
  intros Hk. unfold lnot32. rewrite N.lxor_spec. change UINT_MAX with (N.ones 32).
  by rewrite N.ones_spec_low, xorb_true_r.
Qed.

Lemma truth_land_false a b k :
  truth (N.land a b) = false → N.testbit a k && N.testbit b k = false.
Proof.
  unfold truth. rewrite negb_false_iff, N.eqb_eq. intros H. by rewrite <- N.land_spec, H, N.bits_0.
Qed.

Definition allows (avd : av_decision) (k : N) : bool := N.testbit (allowed avd) k.

(** What stays the same when permissions are taken away. *)
Definition decision_shrinks (avd avd' : av_decision) : Prop :=
  (∀ k, k < 32 → allows avd' k = true → allows avd k = true) ∧
  decided avd' = decided avd ∧ seqno avd' = seqno avd.

#[global] Instance decision_shrinks_preorder : PreOrder decision_shrinks.
Proof.
  split; [by intros avd|]. intros a b c (H1 & ? & ?) (H2 & ? & ?).
  split; [auto|]. split; congruence.
Qed.

Lemma set_allowed_shrinks avd m : decision_shrinks avd (set_allowed avd (N.land (allowed avd) m)).
Proof. split; [|done]. intros k _. unfold allows. cbn. rewrite N.land_spec, andb_true_iff. naive_solver. Qed.

Lemma land_lnot_bit avd m k :
  k < 32 → allows (set_allowed avd (N.land (allowed avd) (lnot32 m))) k = allows avd k && negb (N.testbit m k).
Proof. intros Hk. unfold allows. cbn. by rewrite N.land_spec, lnot32_bit. Qed.

Lemma apply_constraints_spec p s t tclass l (value : constraint_node → bool) avd o :
  (∀ c, c ∈ l → constraint_value p s t None c (value c)) → 0 < tclass → tclass < 2 ^ 32 →
  is_Some (p_class_val_to_name p !! N.to_nat (tclass - 1) ≫= id) →
  wp (apply_constraints p s t tclass l avd) o (λ avd' o', (o = [] → o' = []) ∧ decision_shrinks avd avd' ∧
    (o = [] → ∀ k, k < 32 → allows avd' k =
       allows avd k && forallb (λ c, negb (N.testbit (permissions c) k) || value c) l)).
Proof.
  intros Hval H0 H32 Hname. revert avd o Hval.
  induction l as [|c l IH]; intros avd o Hval; cbn [apply_constraints].
  { wp_step. split_and!; try done. intros _ k _. by rewrite andb_true_r. }
  assert (∀ c', c' ∈ l → constraint_value p s t None c' (value c')) as Hl by (intros; apply Hval; set_solver).
  destruct (truth (N.land (permissions c) (allowed avd))) eqn:E.
  - wp_step. eapply wp_mono; [by apply (constraint_eval_spec p s t None tclass c (value c)); [apply Hval; set_solver|..]|].
    intros rc o1 [H1 Hrc].
    assert (decision_shrinks avd (if (rc =? 0)%Z
       then set_allowed avd (N.land (allowed avd) (lnot32 (permissions c))) else avd)) as Hsh
      by (destruct (rc =? 0)%Z; [apply set_allowed_shrinks|done]).
    eapply wp_mono; [by apply IH|]. intros avd' o2 (Ho & Hs & Hex). split_and!; [naive_solver|by etrans|].
    intros ->. destruct (H1 eq_refl) as [-> ->]. intros k Hk. rewrite (Hex eq_refl k Hk). cbn [forallb].
    destruct (value c); cbn [z_of_bool Z.eqb].
    + by rewrite orb_true_r.
    + rewrite land_lnot_bit by done. by rewrite orb_false_r, andb_assoc.
  - eapply wp_mono; [by apply IH|]. intros avd' o2 (Ho & Hs & Hex). split_and!; [done|done|].
    intros Hn k Hk. rewrite (Hex Hn k Hk). cbn [forallb]. pose proof (truth_land_false _ _ k E) as Hz.
    unfold allows in *. destruct (N.testbit (permissions c) k), (N.testbit (allowed avd) k); cbn in *; try done.
Qed.

(** Changing the role by a process transition takes a role allow rule. *)
Definition role_allowed (p : policydb) (s t : context_struct) (tclass k : N) : bool :=
  negb ((tclass =? SECCLASS_PROCESS) && negb (role s =? role t) &&
        N.testbit (N.lor PROCESS__TRANSITION PROCESS__DYNTRANSITION) k) ||
  existsb (λ ra, (role s =? ra_role ra) && (role t =? ra_new_role ra)) (role_allows p).

Lemma check_role_spec p s t tclass avd k :
  k < 32 → allows (check_role_allow p s t tclass avd) k = allows avd k && role_allowed p s t tclass k.
Proof.
  intros Hk. unfold check_role_allow, role_allowed. set (trans := N.lor _ _).
  destruct (tclass =? SECCLASS_PROCESS); cbn [andb negb orb]; [|by rewrite andb_true_r].
  destruct (role s =? role t); cbn [negb andb orb]; [by rewrite andb_false_r, andb_true_r|].
  rewrite andb_true_r. destruct (existsb _ _); [rewrite orb_true_r, andb_true_r; by destruct (truth _)|].
  rewrite orb_false_r. destruct (truth (N.land (allowed avd) trans)) eqn:E.
  - by rewrite land_lnot_bit.
  - pose proof (truth_land_false _ _ k E) as Hz. unfold allows. by destruct (N.testbit (allowed avd) k), (N.testbit trans k).
Qed.

Lemma check_role_shrinks p s t tclass avd : decision_shrinks avd (check_role_allow p s t tclass avd).
Proof.
  unfold check_role_allow. destruct (_ && _ && _); [|done]. destruct (existsb _ _); [done|].
  apply set_allowed_shrinks.
Qed.

(** ** Reasons *)

(** All of [requested] is in [avd]. *)
Definition covers (avd : av_decision) (requested : N) : Prop :=
  ∀ k, N.testbit requested k = true → allows avd k = true.

Lemma bit_lt x n k : x < 2 ^ n → N.testbit x k = true → k < n.
Proof.
  intros Hx Hk. destruct (decide (k < n)) as [|Hge]; [done|]. rewrite N.bits_above_log2 in Hk; [done|].
  destruct (decide (x = 0)) as [->|]; [by rewrite N.bits_0 in Hk|]. apply N.log2_lt_pow2; [lia|].
  eapply N.lt_le_trans; [exact Hx|]. apply N.pow_le_mono_r; lia.
Qed.

Lemma note_reason_spec bit avd requested reason :
  requested < 2 ^ 32 → bit ≠ 0 →
  let st := note_reason bit avd (requested, reason) in
  st.1 < 2 ^ 32 ∧ (∀ k, N.testbit st.1 k = N.testbit requested k && allows avd k) ∧
  (st.2 = 0 ↔ reason = 0 ∧ covers avd requested).
Proof.
  intros Hr Hbit. unfold note_reason.
  assert (∀ k, N.testbit requested k = true → k < 32) as Hsmall by (intros k Hk; by eapply bit_lt).
  destruct (truth _) eqn:E; cbn [fst snd].
  - split_and!.
    + eapply N.le_lt_trans; [|exact Hr]. rewrite N.land_comm. apply land_le.
    + intros k. apply N.land_spec.
    + rewrite N.lor_eq_0_iff. split; [naive_solver|]. intros [_ Hc]. exfalso.
      apply truth_spec in E. apply E. apply N.bits_inj_0. intros k. rewrite N.land_spec.
      destruct (N.testbit requested k) eqn:Ek; [|done]. rewrite lnot32_bit by auto.
      specialize (Hc k Ek). unfold allows in Hc. by rewrite Hc.
  - assert (covers avd requested) as Hc.
    { intros k Hk. pose proof (truth_land_false _ _ k E) as Hz. rewrite lnot32_bit in Hz by auto.
      rewrite Hk in Hz. unfold allows. by destruct (N.testbit (allowed avd) k). }
    split_and!; [done| |naive_solver].
    intros k. destruct (N.testbit requested k) eqn:Ek; [|done]. by rewrite (Hc k Ek).
Qed.

Lemma reasons_spec avd1 avd2 avd3 requested :
  requested < 2 ^ 32 → decision_shrinks avd1 avd2 → decision_shrinks avd2 avd3 →
  let st := note_reason SEPOL_COMPUTEAV_TE avd1 (requested, 0) in
  let st := note_reason SEPOL_COMPUTEAV_CONS avd2 st in
  (note_reason SEPOL_COMPUTEAV_RBAC avd3 st).2 = 0 ↔ covers avd3 requested.
Proof.
  intros Hr [H12 _] [H23 _].
  destruct (note_reason_spec SEPOL_COMPUTEAV_TE avd1 requested 0 Hr) as (Hr1 & Hb1 & Hz1); [done|].
  destruct (note_reason _ avd1 _) as [r1 z1]. cbn [fst snd] in *.
  destruct (note_reason_spec SEPOL_COMPUTEAV_CONS avd2 r1 z1 Hr1) as (Hr2 & Hb2 & Hz2); [done|].
  destruct (note_reason _ avd2 _) as [r2 z2]. cbn [fst snd] in *.
  destruct (note_reason_spec SEPOL_COMPUTEAV_RBAC avd3 r2 z2 Hr2) as (_ & _ & Hz3); [done|].
  rewrite Hz3, Hz2, Hz1. unfold covers in *. split.
  - intros (((_ & Hc1) & Hc2) & Hc3) k Hk. apply Hc3. rewrite Hb2, Hb1, Hk, Hc1 by done.
    cbn. apply Hc2. by rewrite Hb1, Hk, Hc1.
  - intros Hc. assert (∀ k, N.testbit requested k = true → k < 32) as Hsmall.
    { intros k Hk. by apply (bit_lt requested). }
    split_and!; try done; intros k Hk.
    + apply H12; [auto|]. apply H23; auto.
    + rewrite Hb1 in Hk. apply andb_true_iff in Hk as [Hk _]. apply H23; auto.
    + rewrite Hb2, Hb1 in Hk. apply andb_true_iff in Hk as [[Hk _]%andb_true_iff _]. auto.
Qed.

(** * The decision *)

(** What the tables of a loaded policy provide for a decision on a class. *)
Record decision_wf (p : policydb) (s t : context_struct) (tclass : N) (cd : class_datum)
    (sattr tattr : ebitmap) : Prop := {
  dw_te : avtab_wf (te_avtab p);
  dw_cond : avtab_wf (te_cond_avtab p);
  dw_class : 0 < tclass ∧ tclass ≤ nprim (p_classes p) ∧ nprim (p_classes p) < 2 ^ 32;
  dw_datum : class_val_to_struct p !! N.to_nat (tclass - 1) = Some (Some cd);
  dw_name : is_Some (p_class_val_to_name p !! N.to_nat (tclass - 1) ≫= id);
  dw_types : 0 < type s ∧ type s < 2 ^ 32 ∧ 0 < type t ∧ type t < 2 ^ 32;
  dw_sattr : type_attr_map p !! N.to_nat (type s - 1) = Some sattr ∧ ebitmap_wf sattr;
  dw_tattr : type_attr_map p !! N.to_nat (type t - 1) = Some tattr ∧ ebitmap_wf tattr }.

(** Some rule for a pair of attributes of the two types allows [k]. *)
Definition te_granted (p : policydb) (sattr tattr : ebitmap) (tclass k : N) : Prop :=
  ∃ i j, ebitmap_bit sattr i = true ∧ ebitmap_bit tattr j = true ∧ te_allows p tclass i j k = true.

Lemma te_granted_spec p sattr tattr tclass k :
  ebitmap_wf sattr → ebitmap_wf tattr →
  existsb (λ i, existsb (λ j, te_allows p tclass i j k) (set_bits tattr)) (set_bits sattr) = true ↔
  te_granted p sattr tattr tclass k.
Proof.
  intros Hs Ht. rewrite existsb_exists. unfold te_granted. split.
  - intros (i & Hi & (j & Hj & Ha)%existsb_exists). apply list_elem_of_In in Hi, Hj.
    exists i, j. by rewrite <- !elem_of_set_bits.
  - intros (i & j & Hi & Hj & Ha). exists i. split; [by apply list_elem_of_In, elem_of_set_bits|].
    apply existsb_exists. exists j. split; [by apply list_elem_of_In, elem_of_set_bits|done].
Qed.

Lemma compute_av_spec p lg s t tclass requested avd0 reason0 cd sattr tattr value o :
  decision_wf p s t tclass cd sattr tattr → requested < 2 ^ 32 →
  (∀ c, c ∈ constraints cd → constraint_value p s t None c (value c)) →
  wp (context_struct_compute_av p lg s t tclass requested avd0 reason0) o (λ r o',
    let '(rc, avd, reason) := r in
    rc = 0%Z ∧ decided avd = UINT_MAX ∧ seqno avd = lg ∧ (reason = 0 ↔ covers avd requested) ∧
    (∀ k, k < 32 → allows avd k = true →
       te_granted p sattr tattr tclass k ∧ role_allowed p s t tclass k = true) ∧
    (o = [] → ∀ k, k < 32 → allows avd k = true ↔
       te_granted p sattr tattr tclass k ∧
       (∀ c, c ∈ constraints cd → N.testbit (permissions c) k = true → value c = true) ∧
       role_allowed p s t tclass k = true)).
Proof.
  intros [Hte Hcond (Hc0 & Hcn & Hc32) Hcd Hname (Hs0 & Hs32 & Ht0 & Ht32) [Hsa Hsw] [Hta Htw]] Hreq Hval.
  unfold context_struct_compute_av.
  assert ((tclass =? 0) || (nprim (p_classes p) <? tclass) = false) as -> by (by apply in_range_test).
  rewrite !dec32_pred by (done || lia).
  wp_step. apply wp_deref. exists (Some cd). split; [done|].
  wp_step. apply wp_deref. exists sattr. split; [done|]. wp_step. apply wp_deref. exists tattr. split; [done|].
  wp_step. unfold wp at 1.
  destruct (te_rules_run p Hte Hcond sattr tattr tclass (AvDecision 0 UINT_MAX 0 UINT_MAX lg) o Hsw Htw)
    as (avd1 & -> & Hg1 & Hd1 & Hq1).
  assert (∀ k, allows avd1 k = true ↔ te_granted p sattr tattr tclass k) as Hte1.
  { intros k. unfold allows. rewrite Hg1. cbn [allowed]. rewrite N.bits_0. cbn [orb]. by apply te_granted_spec. }
  wp_step. apply wp_deref. exists cd. split; [done|].
  wp_step. eapply wp_mono; [apply (apply_constraints_spec p s t tclass _ value); [done|done|lia|done]|].
  intros avd2 o2 (Ho & Hsh2 & Hex2). wp_step.
  pose proof (check_role_shrinks p s t tclass avd2) as Hsh3.
  split; [done|]. split; [|split; [|split; [by apply reasons_spec|split]]].
  - destruct Hsh2 as (_ & H2 & _), Hsh3 as (_ & H3 & _). by rewrite H3, H2, Hd1.
  - destruct Hsh2 as (_ & _ & H2), Hsh3 as (_ & _ & H3). by rewrite H3, H2, Hq1.
  - intros k Hk Ha. rewrite check_role_spec in Ha by done. apply andb_true_iff in Ha as [Ha Hr].
    split; [|done]. apply Hte1. by apply Hsh2.
  - intros -> k Hk. rewrite check_role_spec, (Hex2 eq_refl) by done. rewrite !andb_true_iff, Hte1, forallb_forall.
    split; [intros [[Ha Hc] Hr]|intros (Ha & Hc & Hr)]; split_and!; try done.
    + intros c Hin Hp. specialize (Hc c ltac:(by apply list_elem_of_In)). rewrite Hp in Hc. done.
    + intros c Hin%list_elem_of_In. destruct (N.testbit (permissions c) k) eqn:E; [|done]. cbn. by apply Hc.
Qed.

(** When the first allocation of every evaluation is refused, no constraint
    takes a permission away, whatever it says. *)
Lemma apply_constraints_refused p s t tclass l avd n o :
  (length l ≤ n)%nat → ∃ o', apply_constraints p s t tclass l avd (replicate n false ++ o) = Ret avd o'.
Proof.
  revert n. induction l as [|c l IH]; intros n Hn; cbn [apply_constraints length] in *; [by eexists|].
  destruct (truth _); [|apply IH; lia]. destruct n as [|n]; [lia|]. cbn [replicate app].
  rewrite bind_run. unfold constraint_expr_eval_reason. rewrite bind_run. cbn [malloc negb].
  change ((- ENOMEM =? 0)%Z) with false. cbv iota. apply IH. lia.
Qed.

Lemma compute_av_refused p lg s t tclass requested avd0 reason0 cd sattr tattr n o :
  decision_wf p s t tclass cd sattr tattr → (length (constraints cd) ≤ n)%nat →
  ∃ avd reason o', context_struct_compute_av p lg s t tclass requested avd0 reason0 (replicate n false ++ o) = Ret (0%Z, avd, reason) o' ∧
    ∀ k, k < 32 → allows avd k = true ↔ te_granted p sattr tattr tclass k ∧ role_allowed p s t tclass k = true.
Proof.
  intros [Hte Hcond (Hc0 & Hcn & Hc32) Hcd _ (Hs0 & Hs32 & Ht0 & Ht32) [Hsa Hsw] [Hta Htw]] Hn.
  unfold context_struct_compute_av.
  assert ((tclass =? 0) || (nprim (p_classes p) <? tclass) = false) as -> by (by apply in_range_test).
  rewrite !dec32_pred by (done || lia). rewrite bind_run, Hcd. cbn [deref]. unfold mret at 1, M_ret at 1.
  rewrite bind_run, Hsa. cbn [deref]. unfold mret at 1, M_ret at 1. rewrite bind_run, Hta. cbn [deref]. unfold mret at 1, M_ret at 1.
  destruct (te_rules_run p Hte Hcond sattr tattr tclass (AvDecision 0 UINT_MAX 0 UINT_MAX lg) (replicate n false ++ o) Hsw Htw)
    as (avd1 & Hrun & Hg1 & _ & _). rewrite bind_run, Hrun. rewrite bind_run. cbn [deref]. unfold mret at 1, M_ret at 1.
  destruct (apply_constraints_refused p s t tclass (constraints cd) avd1 n o Hn) as [o' Hc]. rewrite bind_run, Hc.
  eexists _, _, o'. split; [reflexivity|]. intros k Hk. rewrite check_role_spec, andb_true_iff by done.
  rewrite <- te_granted_spec by done. unfold allows at 1. rewrite Hg1. cbn [allowed]. by rewrite N.bits_0.
Qed.

(** * Labelling *)

Lemma copy_levels_spec dst l0 l1 o :
  wp (copy_levels dst l0 l1) o (λ r o', (o = [] → o' = []) ∧
    (r = (0%Z, set_range dst (MlsRange l0 l1)) ∨ r.1 = (- ENOMEM)%Z ∧ o ≠ [])).
Proof.
  unfold copy_levels. wp_step. eapply wp_mono; [apply cpy_spec|]. intros r o1 [H1 [-> | ->]].
  2: { change (negb (- ENOMEM =? 0)%Z) with true. cbv iota. wp_step. split; [naive_solver|].
       right. split; [done|]. intros ->. by destruct H1. }
  change (negb (0 =? 0)%Z) with false. cbv iota.
  wp_step. eapply wp_mono; [apply cpy_spec|]. intros r o2 [H2 [-> | ->]]; wp_step.
  - split; [naive_solver|]. left. by destruct l0, l1.
  - split; [naive_solver|]. right. split; [done|]. intros ->. destruct H1 as [-> _]; [done|]. by destruct H2.
Qed.

Lemma copy_range_spec dst r o :
  wp (copy_levels dst (level0 r) (level1 r)) o (λ x o', (o = [] → o' = []) ∧
    (x = (0%Z, set_range dst r) ∨ x.1 = (- ENOMEM)%Z ∧ o ≠ [])).
Proof. destruct r. apply copy_levels_spec. Qed.

(** The range of a new object: that of a range transition rule, of the source
    (only its low level for an object), or of the related object. *)
Definition new_range (p : policydb) (s t : context_struct) (tclass spec ntype : N) : mls_range :=
  let low := MlsRange (level0 (range s)) (level0 (range s)) in
  let default := if tclass =? SECCLASS_PROCESS then range s else low in
  if spec =? AVTAB_TRANSITION then
    match find (λ rtr, (rtr_source_type rtr =? type s) && (rtr_target_type rtr =? type t) &&
                       (rtr_target_class rtr =? tclass)) (range_tr p) with
    | Some rtr => rtr_target_range rtr
    | None => default
    end
  else if spec =? AVTAB_CHANGE then default
  else if negb (ntype =? type t) then low else range t.

Definition label_spec (spec : N) : Prop :=
  spec = AVTAB_TRANSITION ∨ spec = AVTAB_CHANGE ∨ spec = AVTAB_MEMBER.

Lemma mls_compute_sid_spec p s t tclass spec nc o :
  mls p = true → label_spec spec →
  wp (mls_compute_sid p s t tclass spec nc) o (λ r o', (o = [] → o' = []) ∧
    (r = (0%Z, set_range nc (new_range p s t tclass spec (type nc))) ∨ r.1 = (- ENOMEM)%Z ∧ o ≠ [])).
Proof.
  intros Hmls Hspec. unfold mls_compute_sid, new_range. rewrite Hmls. cbn [negb].
  unfold mls_copy_context, mls_scopy_context, mls_range_set.
  destruct Hspec as [-> | [-> | ->]]; cbn [N.eqb]; repeat case_match; simplify_eq;
    first [apply copy_range_spec|apply copy_levels_spec].
Qed.

(** The rule that names the type of a new object. *)
Definition label_rule (p : policydb) (s t : context_struct) (tclass spec : N) : option avtab_datum :=
  let key := AvtabKey (u16 (type s)) (u16 (type t)) tclass (u16 spec) in
  let matching tab := filter (λ n, key_match key (clear_enabled (u16 spec)) (av_key n) = true) (avtab_entries tab) in
  match head (matching (te_avtab p)) with
  | Some n => Some (av_datum n)
  | None =>
      av_datum <$> List.find (λ n, truth (N.land (specified (av_key n)) AVTAB_ENABLED)) (matching (te_cond_avtab p))
  end.

(** Type, role and user of a new subject or object: the type and role of rules
    that name one; without, a process keeps those of its parent and an object
    has the type of the related object and the role of all objects. *)
Definition label_type (p : policydb) (s t : context_struct) (tclass spec : N) : N :=
  match label_rule p s t tclass spec with
  | Some d => data d
  | None => if tclass =? SECCLASS_PROCESS then type s else type t
  end.

Definition label_role (p : policydb) (s t : context_struct) (tclass spec : N) : N :=
  if negb (tclass =? SECCLASS_PROCESS) then OBJECT_R_VAL
  else if spec =? AVTAB_TRANSITION
  then from_option rt_new_role (role s)
         (List.find (λ rt, (rt_role rt =? role s) && (rt_type rt =? type t)) (role_tr p))
  else role s.

Definition label (p : policydb) (s t : context_struct) (tclass spec : N) : context_struct :=
  Context (if spec =? AVTAB_MEMBER then user t else user s) (label_role p s t tclass spec)
    (label_type p s t tclass spec) (new_range p s t tclass spec (label_type p s t tclass spec)).

Lemma label_new_context p s t tclass spec :
  label_spec spec →
  let nc := new_context p s t tclass spec (label_rule p s t tclass spec) in
  set_range nc (new_range p s t tclass spec (type nc)) = label p s t tclass spec.
Proof.
  intros Hspec. unfold new_context, label, label_role, label_type, set_range. cbn [user role type].
  f_equal; destruct Hspec as [-> | [-> | ->]], (tclass =? SECCLASS_PROCESS); try done; cbn [negb andb];
    by destruct (List.find _ _).
Qed.

Lemma enabled_type_spec tab key o :
  avtab_wf tab →
  enabled_type tab key o =
  Ret (av_datum <$> List.find (λ n, truth (N.land (specified (av_key n)) AVTAB_ENABLED))
         (filter (λ n, key_match key (clear_enabled (specified key)) (av_key n) = true) (avtab_entries tab))) o.
Proof.
  intros Hwf. unfold enabled_type. rewrite for_each_match_spec by done. f_equal.
  generalize (filter (λ n, key_match key (clear_enabled (specified key)) (av_key n) = true) (avtab_entries tab)).
  intros l. induction l as [|n l IH]; [done|]. cbn [foldl List.find].
  destruct (truth _); [|done]. clear IH. induction l as [|m l IH]; [done|]. apply IH.
Qed.

Lemma label_rule_run p s t tclass spec o :
  avtab_wf (te_avtab p) → avtab_wf (te_cond_avtab p) →
  (d ← avtab_search (Some (te_avtab p)) (AvtabKey (u16 (type s)) (u16 (type t)) tclass (u16 spec));
   match d with
   | Some d => mret (Some d)
   | None => enabled_type (te_cond_avtab p) (AvtabKey (u16 (type s)) (u16 (type t)) tclass (u16 spec))
   end) o = Ret (label_rule p s t tclass spec) o.
Proof.
  intros Hte Hcond. rewrite bind_run, avtab_search_spec by done. cbn [specified]. unfold label_rule.
  destruct (head _); cbn [fmap option_fmap option_map]; [done|]. by rewrite enabled_type_spec.
Qed.

(** The SID table serves [sid] with [c]. *)
Definition sid_context (s : sidtab) (sid : N) (c : context_struct) : Prop :=
  match st_map s !! sid with Some c => Some c | None => st_map s !! SECINITSID_UNLABELED end = Some c.

Definition label_post (p : policydb) (s : sidtab) (c : context_struct) (o : oracle) (r : Z * sidtab * N) : Prop :=
  let '(rc, s', sid) := r in
  (rc = 0%Z ∧ always_valid p c ∧ sidtab_wf s' ∧ 0 < sid ∧ st_map s' !! sid = Some c ∧
     (s' = s ∨ st_map s !! sid = None ∧ st_map s' = <[sid := c]> (st_map s)))
  ∨ (rc = (- EACCES)%Z ∧ s' = s ∧ sid = SEPOL_SECSID_NULL ∧ ∀ o, context_is_valid p c o = Ret false o)
  ∨ (rc = (- ENOMEM)%Z ∧ s' = s ∧ sid = SEPOL_SECSID_NULL ∧
     (o ≠ [] ∨ next_sid s = UINT_MAX ∨ shutdown s ≠ 0)).

Lemma compute_sid_spec p s ssid tsid tclass spec sc tc o :
  avtab_wf (te_avtab p) → avtab_wf (te_cond_avtab p) → mls p = true → sidtab_wf s → label_spec spec →
  sid_context s ssid sc → sid_context s tsid tc →
  (∃ b, ∀ o, context_is_valid p (label p sc tc tclass spec) o = Ret b o) →
  wp (sepol_compute_sid p s ssid tsid tclass spec) o (λ r o', label_post p s (label p sc tc tclass spec) o r).
Proof.
  intros Hte Hcond Hmls Hwf Hspec Hsc Htc [b Hb]. unfold sepol_compute_sid.
  wp_step. unfold wp at 1. rewrite search_sid_spec, Hsc by done.
  wp_step. unfold wp at 1. rewrite search_sid_spec, Htc by done.
  pose proof (label_rule_run p sc tc tclass spec o Hte Hcond) as Hrule. rewrite bind_run in Hrule.
  wp_step. unfold wp at 1. destruct (avtab_search _ _ o) as [d o1|]; [|done].
  wp_step. unfold wp at 1. rewrite Hrule.
  wp_step. eapply wp_mono; [by apply mls_compute_sid_spec|]. intros [rc nc] o2 [H2 [Heq|[Hrc Ho]]].
  2: { cbn in Hrc. subst rc. change (negb (- ENOMEM =? 0)%Z) with true. cbv iota. wp_step.
       right; right. by split_and!; [..|left]. }
  injection Heq as -> ->. change (negb (0 =? 0)%Z) with false. cbv iota.
  rewrite label_new_context by done.
  wp_step. unfold policydb_context_isvalid, wp at 1. rewrite Hb. destruct b; cbn [negb].
  2: { wp_step. right; left. done. }
  eapply wp_mono; [by apply context_to_sid_spec|]. intros [[rc s'] sid] o3 [H|H]; [left|right; right].
  - destruct H as (-> & ? & ? & ? & _ & [->|(? & ? & _)]); split_and!; try done; auto.
  - destruct H as (-> & -> & -> & _ & Hwhy). split_and!; try done. destruct Hwhy as [Ho|?]; [|by right].
    left. intros ->. by apply Ho, H2.
Qed.

(** ** The label that a policy asks for

    Rules first, then the defaults of the class (policydb.h), then those of the
    security server. *)

Definition rule_for (s t : context_struct) (tclass spec : N) (n : avtab_node) : Prop :=
  source_type (av_key n) = type s ∧ target_type (av_key n) = type t ∧ target_class (av_key n) = tclass ∧
  N.land spec (specified (av_key n)) ≠ 0.
Definition rule_on (n : avtab_node) : Prop := truth (N.land (specified (av_key n)) AVTAB_ENABLED) = true.

Section labels.
Context (p : policydb) (cd : class_datum) (s t : context_struct) (tclass spec : N).

(** DEFAULT_SOURCE and DEFAULT_TARGET are 1 and 2. *)
Definition class_default {A} (option : N) (source target without : A) : A :=
  if option =? 1 then source else if option =? 2 then target else without.

Definition unruled_range (c : context_struct) : mls_range :=
  let low r := MlsRange (level0 r) (level0 r) in
  let high r := MlsRange (level1 r) (level1 r) in
  let without := if tclass =? SECCLASS_PROCESS then range s else low (range s) in
  if spec =? AVTAB_MEMBER then (if type c =? type t then range t else low (range s))
  else if spec =? AVTAB_CHANGE then without
  else match default_range cd with
       | 1 => low (range s) | 2 => high (range s) | 3 => range s
       | 4 => low (range t) | 5 => high (range t) | 6 => range t
       | _ => without
       end.

Definition te_rule (n : avtab_node) : Prop := n ∈ avtab_entries (te_avtab p) ∧ rule_for s t tclass spec n.
Definition cond_rule (n : avtab_node) : Prop :=
  n ∈ avtab_entries (te_cond_avtab p) ∧ rule_for s t tclass spec n ∧ rule_on n.
Definition role_rule (rt : role_trans) : Prop :=
  spec = AVTAB_TRANSITION ∧ rt ∈ role_tr p ∧ rt_role rt = role s ∧ rt_type rt = type t ∧ rt_tclass rt = tclass.
Definition range_rule (rt : range_trans) : Prop :=
  spec = AVTAB_TRANSITION ∧ rt ∈ range_tr p ∧ rtr_source_type rt = type s ∧ rtr_target_type rt = type t ∧ rtr_target_class rt = tclass.

Record labelled (c : context_struct) : Prop := {
  lb_user : user c = if spec =? AVTAB_MEMBER then user t else class_default (default_user cd) (user s) (user t) (user s);
  lb_type :
    (∃ n, te_rule n ∧ type c = data (av_datum n)) ∨
    ((∀ n, ¬ te_rule n) ∧ ∃ n, cond_rule n ∧ type c = data (av_datum n)) ∨
    ((∀ n, ¬ te_rule n) ∧ (∀ n, ¬ cond_rule n) ∧
     type c = class_default (default_type cd) (type s) (type t) (if tclass =? SECCLASS_PROCESS then type s else type t));
  lb_role :
    (∃ rt, role_rule rt ∧ role c = rt_new_role rt) ∨
    ((∀ rt, ¬ role_rule rt) ∧
     role c = class_default (default_role cd) (role s) (role t) (if tclass =? SECCLASS_PROCESS then role s else OBJECT_R_VAL));
  lb_range :
    (∃ rt, range_rule rt ∧ range c = rtr_target_range rt) ∨ ((∀ rt, ¬ range_rule rt) ∧ range c = unruled_range c) }.

(** What the code leaves out: the defaults of classes, and role transitions
    for other classes than processes, which it neither ignores nor confines. *)
Definition no_defaults : Prop := default_user cd = 0 ∧ default_role cd = 0 ∧ default_type cd = 0 ∧ default_range cd = 0.
Definition process_roles : Prop :=
  ∀ rt, rt ∈ role_tr p → rt_role rt = role s → rt_type rt = type t → rt_tclass rt = SECCLASS_PROCESS.

Lemma rule_for_match n : label_spec spec → type s < 2 ^ 16 → type t < 2 ^ 16 →
  key_match (AvtabKey (u16 (type s)) (u16 (type t)) tclass (u16 spec)) (clear_enabled (u16 spec)) (av_key n) = true ↔
  rule_for s t tclass spec n.
Proof.
  intros Hspec Hs Ht. unfold key_match, rule_for. cbn [source_type target_type target_class].
  assert (u16 (type s) = type s ∧ u16 (type t) = type t) as [-> ->] by (unfold u16; by rewrite !N.mod_small).
  assert (clear_enabled (u16 spec) = spec) as -> by (by destruct Hspec as [-> |[-> | ->]]).
  rewrite !andb_true_iff, !N.eqb_eq, truth_spec. naive_solver.
Qed.

Lemma first_rule l : label_spec spec → type s < 2 ^ 16 → type t < 2 ^ 16 →
  match List.find (λ n, key_match (AvtabKey (u16 (type s)) (u16 (type t)) tclass (u16 spec)) (clear_enabled (u16 spec)) (av_key n)) l with
  | Some n => n ∈ l ∧ rule_for s t tclass spec n
  | None => ∀ n, n ∈ l → ¬ rule_for s t tclass spec n
  end.
Proof.
  intros Hspec Hs Ht. destruct (List.find _ l) as [n|] eqn:E.
  - apply find_some in E as [Hin Hm]. split; [by apply list_elem_of_In|]. by apply rule_for_match.
  - intros n Hin Hr. apply list_elem_of_In in Hin. apply (find_none _ _ E) in Hin. apply rule_for_match in Hr; congruence.
Qed.

Lemma label_rule_spec : label_spec spec → type s < 2 ^ 16 → type t < 2 ^ 16 →
  match label_rule p s t tclass spec with
  | Some d => (∃ n, te_rule n ∧ d = av_datum n) ∨ ((∀ n, ¬ te_rule n) ∧ ∃ n, cond_rule n ∧ d = av_datum n)
  | None => (∀ n, ¬ te_rule n) ∧ (∀ n, ¬ cond_rule n)
  end.
Proof.
  intros Hspec Hs Ht. unfold label_rule, te_rule, cond_rule.
  pose proof (λ n, rule_for_match n Hspec Hs Ht) as Hm.
  destruct (head _) as [n|] eqn:E.
  - left. exists n. split; [|done]. apply head_Some_elem_of, list_elem_of_filter in E as [H1 H2]. split; [done|]. by apply Hm.
  - assert (∀ n, ¬ (n ∈ avtab_entries (te_avtab p) ∧ rule_for s t tclass spec n)) as Hno.
    { intros n [Hin Hr]. apply Hm in Hr. apply head_None in E. eapply elem_of_nil. rewrite <- E. by apply list_elem_of_filter. }
    destruct (List.find _ _) as [n|] eqn:E2; cbn.
    + right. split; [done|]. exists n. split; [|done]. apply find_some in E2 as [Hin Hon]. apply list_elem_of_In, list_elem_of_filter in Hin as [H1 H2].
      split; [done|]. split; [by apply Hm|done].
    + split; [done|]. intros n (Hin & Hr & Hon). unfold rule_on in Hon. rewrite (find_none _ _ E2 n) in Hon; [done|].
      apply list_elem_of_In, list_elem_of_filter. split; [by apply Hm|done].
Qed.

(** The label of the code is the one that the policy asks for. *)
Lemma label_labelled :
  label_spec spec → type s < 2 ^ 16 → type t < 2 ^ 16 → no_defaults → process_roles → labelled (label p s t tclass spec).
Proof.
  intros Hspec Hs Ht (Du & Dr & Dt & Dg) Hpr. pose proof (label_rule_spec Hspec Hs Ht) as Hrule.
  split; unfold class_default, unruled_range; rewrite ?Du, ?Dr, ?Dt, ?Dg; cbn -[AVTAB_MEMBER AVTAB_TRANSITION AVTAB_CHANGE SECCLASS_PROCESS].
  - done.
  - unfold label_type. destruct (label_rule p s t tclass spec) as [d|].
    + destruct Hrule as [(n & Hn & ->)|[Hno (n & Hn & ->)]]; [left; by exists n|right; left; split; [done|by exists n]].
    + right; right. destruct Hrule. by split_and!.
  - unfold label_role, role_rule. destruct (N.eqb_spec tclass SECCLASS_PROCESS) as [Hc|Hc]; cbn [negb].
    2: { right. split; [|done]. intros rt (_ & Hin & H1 & H2 & H3). specialize (Hpr rt Hin H1 H2). congruence. }
    destruct (N.eqb_spec spec AVTAB_TRANSITION) as [He|He]; [|right; by split; [intros rt [? _]|]].
    destruct (List.find _ (role_tr p)) as [rt|] eqn:E; cbn [from_option].
    + apply find_some in E as [Hin Hm]. apply list_elem_of_In in Hin. reflect_bools. left. exists rt.
      split; [|done]. split_and!; try done. rewrite Hc. by apply Hpr.
    + right. split; [|done]. intros rt (_ & Hin%list_elem_of_In & H1 & H2 & _).
      pose proof (find_none _ _ E rt Hin) as Hn. cbn in Hn. rewrite H1, H2, !N.eqb_refl in Hn. done.
  - unfold new_range, range_rule. destruct (N.eqb_spec spec AVTAB_TRANSITION) as [He|He].
    + destruct (find _ (range_tr p)) as [rt|] eqn:E.
      * apply find_some in E as [Hin Hm]. apply list_elem_of_In in Hin. reflect_bools. left. exists rt. split; [|done]. by split_and!.
      * right. rewrite He. split; [|done]. intros rt (_ & Hin%list_elem_of_In & H1 & H2 & H3).
        pose proof (find_none _ _ E rt Hin) as Hn. cbn in Hn. rewrite H1, H2, H3, !N.eqb_refl in Hn. done.
    + right. split; [by intros rt [? _]|]. destruct Hspec as [-> |[-> | ->]]; [done|done|]. cbn.
      by destruct (_ =? _).
Qed.
End labels.

(** The policy and the SID table that labels are computed from. *)
Record label_ready (p : policydb) (levels : hashtab string level_datum) (cd : class_datum) (s t : context_struct) (tclass : N) : Prop := {
  lr_tables : avtab_wf (te_avtab p) ∧ avtab_wf (te_cond_avtab p);
  lr_policy : mls p = true ∧ rbac_policy_wf p ∧ mls_policy_wf p levels;
  lr_ranges : Forall (λ rt, range_wf (rtr_target_range rt)) (range_tr p);
  lr_class : class_val_to_struct p !! N.to_nat (tclass - 1) = Some (Some cd) ∧ no_defaults cd;
  lr_roles : process_roles p s t;
  lr_contexts : type s < 2 ^ 16 ∧ type t < 2 ^ 16 ∧ range_wf (range s) ∧ range_wf (range t) }.

Lemma label_range_wf p levels cd s t tclass spec :
  label_ready p levels cd s t tclass → range_wf (range (label p s t tclass spec)).
Proof.
  intros [_ _ Hr _ _ (_ & _ & Hs & Ht)]. cbn [label range]. unfold new_range.
  assert (range_wf (MlsRange (level0 (range s)) (level0 (range s)))) as Hlow by (split; apply Hs).
  destruct (spec =? AVTAB_TRANSITION).
  - destruct (find _ (range_tr p)) as [rt|] eqn:E; [|by destruct (tclass =? SECCLASS_PROCESS)].
    apply find_some in E as [Hin%list_elem_of_In _]. by apply (proj1 (Forall_forall _ _) Hr).
  - destruct (spec =? AVTAB_CHANGE); [by destruct (tclass =? SECCLASS_PROCESS)|]. by destruct (negb _).
Qed.

Lemma labelled_sid_spec p levels s ssid tsid tclass spec cd sc tc o :
  label_ready p levels cd sc tc tclass → label_spec spec → sidtab_wf s →
  sid_context s ssid sc → sid_context s tsid tc →
  ∃ c, labelled p cd sc tc tclass spec c ∧ wp (sepol_compute_sid p s ssid tsid tclass spec) o (λ r o', label_post p s c o r).
Proof.
  intros Hr Hspec Hwf Hs Ht. pose proof Hr as [[Hte Hcond] (Hmls & Hrb & Hmp) _ [_ Hd] Hpr (Hs16 & Ht16 & _)].
  exists (label p sc tc tclass spec). split; [by apply label_labelled|]. apply compute_sid_spec; [exact Hte|exact Hcond|exact Hmls|exact Hwf|exact Hspec|exact Hs|exact Ht|].
  pose proof (λ o, context_valid_spec p levels _ o Hrb Hmp Hmls (label_range_wf p levels cd sc tc tclass spec Hr)) as Hv.
  destruct (Hv []) as (b & _ & Hb). exists b. intros o'. destruct (Hv o') as (b' & Hrun & Hb'). rewrite Hrun. f_equal.
  assert (b' = true ↔ b = true) as [H1 H2] by (etrans; [exact Hb'|symmetry; exact Hb]).
  clear -H1 H2. destruct b, b'; naive_solver.
Qed.

(** * The properties of services.c *)

(** C16: the value of a constraint.  A [condition] is a constraint as policies
    state it: comparisons of users, types, roles and levels of the source and
    the target, dominance included, membership of a user, role or type of
    either or of the third context in a set, joined by "not", "and" and "or";
    [holds] says when it is true.  For a constraint that encodes a condition in
    reverse polish notation, of at most 32 elements and within the stack of
    five, whose roles and sets are well-formed, [constraint_expr_eval_reason]
    returns 1 if the condition holds and 0 if it does not; when an allocation
    fails it may return [-ENOMEM] instead. *)
Theorem constraint_eval_correct p s t x tclass c cd o :
  polish cd (expr c) → tests_defined p s t x cd → (condition_depth cd ≤ CEXPR_MAXDEPTH)%nat →
  N.of_nat (length (expr c)) ≤ STACK_LEN → 0 < tclass → tclass < 2 ^ 32 →
  is_Some (p_class_val_to_name p !! N.to_nat (tclass - 1) ≫= id) →
  wp (constraint_expr_eval_reason p s t x tclass c) o (λ rc o',
    (o = [] → o' = [] ∧ tells p s t x cd rc) ∧ (tells p s t x cd rc ∨ rc = (- ENOMEM)%Z)).
Proof. apply condition_eval_spec. Qed.

(** C2: the access decision.  For contexts and a class of a loaded policy,
    [context_struct_compute_av] succeeds and grants a permission exactly when
    a type enforcement rule (unconditional, or conditional and enabled) for
    some attributes of the two types allows it, every constraint of the class
    on it holds, and, for the process transition permissions with a changed
    role, a role allow rule permits the change.  Even when memory runs out
    nothing is granted without a type enforcement and a role rule.  The
    reason is 0 exactly when all of the requested permissions are granted. *)
Theorem compute_av_exact p lg s t tclass requested avd0 reason0 cd sattr tattr value o :
  decision_wf p s t tclass cd sattr tattr → requested < 2 ^ 32 →
  (∀ c, c ∈ constraints cd → constraint_value p s t None c (value c)) →
  wp (context_struct_compute_av p lg s t tclass requested avd0 reason0) o (λ r o',
    let '(rc, avd, reason) := r in
    rc = 0%Z ∧ decided avd = UINT_MAX ∧ seqno avd = lg ∧ (reason = 0 ↔ covers avd requested) ∧
    (∀ k, k < 32 → allows avd k = true →
       te_granted p sattr tattr tclass k ∧ role_allowed p s t tclass k = true) ∧
    (o = [] → ∀ k, k < 32 → allows avd k = true ↔
       te_granted p sattr tattr tclass k ∧
       (∀ c, c ∈ constraints cd → N.testbit (permissions c) k = true → value c = true) ∧
       role_allowed p s t tclass k = true)).
Proof. apply compute_av_spec. Qed.

(** C31: running out of memory while constraints are evaluated counts as their
    being satisfied.  In any policy, for any two contexts and any class, if the
    first allocation of each evaluation is refused then the decision succeeds
    and grants every permission that type enforcement rules and role allow
    rules grant, whatever the constraints of the class say. *)
Theorem constraint_oom_grants p lg s t tclass requested avd0 reason0 cd sattr tattr n o :
  decision_wf p s t tclass cd sattr tattr → (length (constraints cd) ≤ n)%nat →
  ∃ avd reason o', context_struct_compute_av p lg s t tclass requested avd0 reason0 (replicate n false ++ o) = Ret (0%Z, avd, reason) o' ∧
    ∀ k, k < 32 → allows avd k = true ↔ te_granted p sattr tattr tclass k ∧ role_allowed p s t tclass k = true.
Proof. apply compute_av_refused. Qed.

(** C7: the label of a new subject or object.  On an MLS policy with complete
    tables [sepol_compute_sid] (for transition, member and change decisions)
    computes a context [c] that the policy asks for ([labelled]): the type of an
    unconditional rule for the two types and the class, else of an enabled
    conditional one, else the default; the role and the range of a transition
    rule, else the defaults; the user of the source, or of the target for
    members.  It returns a SID that the table maps to [c] if [c] is valid,
    fails with [-EACCES] and the table as it was if it is not, and otherwise
    fails only for want of memory or of SIDs.  The class must have no defaults
    of its own and role transitions must be for processes, since the code
    ignores the fields that say otherwise. *)
Theorem compute_sid_labels p levels s ssid tsid tclass spec cd sc tc o :
  label_ready p levels cd sc tc tclass → label_spec spec → sidtab_wf s →
  sid_context s ssid sc → sid_context s tsid tc →
  ∃ c, labelled p cd sc tc tclass spec c ∧ wp (sepol_compute_sid p s ssid tsid tclass spec) o (λ r o', label_post p s c o r).
Proof. apply labelled_sid_spec. Qed.

(** [sepol_validate_transition] hands class 0 to the evaluation of a
    constraint, which reads the name of the class before the start of the
    array: the check is undefined for every class that has a validatetrans
    rule. *)
Theorem validate_transition_undefined p s oldsid newsid tasksid tclass cd c l oc nc tc :
  sidtab_wf s → 0 < tclass → tclass ≤ nprim (p_classes p) → nprim (p_classes p) < 2 ^ 32 →
  class_val_to_struct p !! N.to_nat (tclass - 1) = Some (Some cd) → validatetrans cd = c :: l →
  sid_context s oldsid oc → sid_context s newsid nc → sid_context s tasksid tc →
  N.of_nat (length (p_class_val_to_name p)) < 2 ^ 32 →
  sepol_validate_transition p s oldsid newsid tasksid tclass [] = UB.
Proof.
  intros Hwf H0 Hn H32 Hcd Hv Hoc Hnc Htc Hlen. unfold sepol_validate_transition.
  assert ((tclass =? 0) || (nprim (p_classes p) <? tclass) = false) as -> by (by apply in_range_test).
  rewrite dec32_pred by lia. rewrite bind_run, Hcd. cbn [deref]. unfold mret at 1, M_ret at 1.
  rewrite bind_run, search_sid_spec, Hoc by done. rewrite bind_run, search_sid_spec, Hnc by done.
  rewrite bind_run, search_sid_spec, Htc by done. cbn [deref]. rewrite bind_run. unfold mret at 1, M_ret at 1.
  rewrite Hv. cbn [validate_loop]. rewrite bind_run. unfold constraint_expr_eval_reason.
  rewrite bind_run. cbn [malloc negb]. rewrite bind_run. unfold at_ptr. rewrite bind_run.
  rewrite (lookup_ge_None_2 (p_class_val_to_name p)); [done|].
  change (N.to_nat (dec32 0)) with (N.to_nat (2 ^ 32 - 1)). lia.
Qed.

(** Looking up a class that the policy does not define runs past the end of
    the array of class names: the loop only ends at a NULL entry, and an array
    of defined classes has none. *)
Theorem unknown_class_undefined p class_name o :
  Forall (λ n, n ≠ None ∧ n ≠ Some class_name) (p_class_val_to_name p) →
  sepol_string_to_security_class p class_name o = UB.
Proof.
  unfold sepol_string_to_security_class. generalize 1.
  induction (p_class_val_to_name p) as [|[n|] l IH]; intros id Hall; cbn [class_loop]; [done|..];
    apply Forall_cons in Hall as [[H1 H2] Hall]; [|done].
  rewrite bool_decide_false by congruence. by apply IH.
Qed.

(** ** Examples *)

Definition ex_src : context_struct := Context 1 2 1 (range ex_mls_context).
Definition ex_tgt : context_struct := Context 9 2 2 (range ex_mls_context).

(** The constraint of the class fails: types and users differ. *)
Lemma ex_constraint c : c ∈ constraints ex_class → constraint_value ex_policy ex_src ex_tgt None c false.
Proof.
  intros ->%list_elem_of_singleton.
  eexists (CBin false (CLeaf _) (CLeaf _)), (λ _, false). split_and!; [|unfold CEXPR_MAXDEPTH; cbn; lia|done| |done].
  - apply (crpn_bin false _ _ [_] [_]); [apply crpn_leaf; by left|apply crpn_leaf; by left|done].
  - intros e He. set_unfold in He. by destruct He as [-> | [-> | []]].
Qed.

(** Types and roles that are tested: [(t1 == t2 or u1 == u2)] fails, and so does
    [r2 != { role_r } and h1 dom l2]. *)
Definition ex_condition : condition := Either (TestOf (Types true)) (TestOf (Users true)).
Definition ex_expr (ty a op : N) (names : ebitmap) : constraint_expr :=
  ConstraintExpr ty a op names (TypeSet ebitmap_init ebitmap_init 0).
Definition ex_condition2 : condition :=
  Both (TestOf (Names Target RoleOf false (EBitmap [EBNode 0 2] 64))) (TestOf (Levels H1L2 OpDom)).
Definition ex_constraint2 : constraint_node :=
  ConstraintNode 1 [ex_expr 5 10 2 (EBitmap [EBNode 0 2] 64); ex_expr 4 128 3 ebitmap_init; ex_expr 2 0 0 ebitmap_init].

Lemma constraint_eval_correct_witness :
  (∃ c, constraints ex_class = [c] ∧
    wp (constraint_expr_eval_reason ex_policy ex_src ex_tgt None 1 c) [] (λ rc _, tells ex_policy ex_src ex_tgt None ex_condition rc)) ∧
  wp (constraint_expr_eval_reason ex_policy ex_src ex_tgt None 1 ex_constraint2) []
    (λ rc _, tells ex_policy ex_src ex_tgt None ex_condition2 rc) ∧
  ¬ holds ex_policy ex_src ex_tgt None ex_condition ∧ ¬ holds ex_policy ex_src ex_tgt None ex_condition2.
Proof.
  split; [|split; [|split]].
  - eexists. split; [reflexivity|].
    eapply wp_mono; [apply (constraint_eval_correct ex_policy ex_src ex_tgt None 1 _ ex_condition)|].
    + apply (polish_either _ _ [_] [_]); [by apply polish_test|by apply polish_test|done].
    + done.
    + unfold CEXPR_MAXDEPTH. cbn. lia.
    + done.
    + done.
    + done.
    + by eexists.
    + intros rc o' [H _]. by apply H.
  - eapply wp_mono; [apply (constraint_eval_correct ex_policy ex_src ex_tgt None 1 _ ex_condition2)|].
    + apply (polish_both _ _ [_] [_]); [by apply polish_test|by apply polish_test|done].
    + split; [split; [by_decide|by eexists]|by_decide].
    + unfold CEXPR_MAXDEPTH. cbn. lia.
    + done.
    + done.
    + done.
    + by eexists.
    + intros rc o' [H _]. by apply H.
  - intros [H|H]; discriminate H.
  - intros [(c & [= <-] & H) _]. discriminate H.
Defined.

Lemma ex_decision_wf :
  decision_wf ex_policy ex_src ex_tgt 1 ex_class (EBitmap [EBNode 0 1] 64) (EBitmap [EBNode 0 2] 64).
Proof.
  split; try done; [apply ex_te_avtab_wf|apply ex_avtab_wf].
Qed.

(** Permission 1 is granted, permission 0 is not. *)
Lemma compute_av_exact_witness :
  ∃ avd reason, context_struct_compute_av ex_policy 7 ex_src ex_tgt 1 3 (AvDecision 0 0 0 0 0) 0 [] =
      Ret (0%Z, avd, reason) [] ∧ allows avd 0 = false ∧ allows avd 1 = true.
Proof.
  pose proof (compute_av_exact ex_policy 7 ex_src ex_tgt 1 3 (AvDecision 0 0 0 0 0) 0 ex_class
    (EBitmap [EBNode 0 1] 64) (EBitmap [EBNode 0 2] 64) (λ _, false) [] ex_decision_wf ltac:(done) ex_constraint) as H.
  apply (proj1 (wp_run _ _ _)) in H as ([[rc avd] reason] & o' & Hr & -> & _ & _ & _ & _ & Hex).
  exists avd, reason. assert (o' = []) as -> by (vm_compute in Hr; congruence). split; [done|]. split.
  - apply not_true_is_false. intros Ha. apply Hex in Ha as (_ & Hc & _); [|done|done].
    assert (false = true) by (eapply Hc; [apply list_elem_of_singleton|]; done). done.
  - vm_compute in Hr. by injection Hr as <- _.
Defined.

(** The decision that denies permission 0 grants it when memory is short. *)
Lemma constraint_oom_grants_witness :
  (∃ avd reason o', context_struct_compute_av ex_policy 7 ex_src ex_tgt 1 3 (AvDecision 0 0 0 0 0) 0 [false] =
     Ret (0%Z, avd, reason) o' ∧ ∀ k, k < 32 → allows avd k = true ↔
       te_granted ex_policy (EBitmap [EBNode 0 1] 64) (EBitmap [EBNode 0 2] 64) 1 k ∧ role_allowed ex_policy ex_src ex_tgt 1 k = true) ∧
  match context_struct_compute_av ex_policy 7 ex_src ex_tgt 1 3 (AvDecision 0 0 0 0 0) 0 [false],
        context_struct_compute_av ex_policy 7 ex_src ex_tgt 1 3 (AvDecision 0 0 0 0 0) 0 [] with
  | Ret (_, avd, _) _, Ret (_, avd', _) _ => allows avd 0 = true ∧ allows avd' 0 = false
  | _, _ => False
  end.
Proof.
  split; [|by vm_compute].
  exact (constraint_oom_grants ex_policy 7 ex_src ex_tgt 1 3 (AvDecision 0 0 0 0 0) 0 _ _ _ 1 [] ex_decision_wf ltac:(by vm_compute)).
Defined.

(** A process of [ex_context] makes an object of class 1. *)
Lemma ex_label_ready : label_ready ex_policy ex_levels ex_class ex_context ex_context 1.
Proof.
  split.
  - split; [apply ex_te_avtab_wf|apply ex_avtab_wf].
  - split; [done|]. split; [apply ex_rbac_wf|apply ex_policy_wf].
  - repeat constructor; by_decide.
  - done.
  - by intros rt Hin%elem_of_nil.
  - split_and!; by_decide.
Qed.

Lemma compute_sid_labels_witness :
  ∃ c r o', labelled ex_policy ex_class ex_context ex_context 1 AVTAB_TRANSITION c ∧
    sepol_compute_sid ex_policy ex_sidtab 3 3 1 AVTAB_TRANSITION [] = Ret r o' ∧ label_post ex_policy ex_sidtab c [] r.
Proof.
  assert (sid_context ex_sidtab 3 ex_context) as Hsid by by vm_compute.
  destruct (compute_sid_labels ex_policy ex_levels ex_sidtab 3 3 1 AVTAB_TRANSITION ex_class ex_context ex_context []
    ex_label_ready (or_introl eq_refl) ex_sidtab_wf Hsid Hsid) as (c & Hc & H).
  apply (proj1 (wp_run _ _ _)) in H as (r & o' & Hr & Hpost). exists c, r, o'. split; [exact Hc|]. split; [exact Hr|exact Hpost].
Defined.

(** The code does not look at the defaults of a class: an object of a class
    whose types come from the source gets the type of the target. *)
Definition with_class (cd : class_datum) : policydb := {|
  mls := mls ex_policy; p_commons := p_commons ex_policy; p_classes := ex_table [("class", cd)]%string 1;
  p_roles := p_roles ex_policy; p_types := p_types ex_policy; p_users := p_users ex_policy; p_bools := p_bools ex_policy;
  p_levels := p_levels ex_policy; p_cats := p_cats ex_policy; p_class_val_to_name := p_class_val_to_name ex_policy;
  p_role_val_to_name := p_role_val_to_name ex_policy; p_type_val_to_name := p_type_val_to_name ex_policy;
  p_user_val_to_name := p_user_val_to_name ex_policy; p_sens_val_to_name := p_sens_val_to_name ex_policy;
  p_cat_val_to_name := p_cat_val_to_name ex_policy; class_val_to_struct := [Some cd];
  role_val_to_struct := role_val_to_struct ex_policy; user_val_to_struct := user_val_to_struct ex_policy;
  type_val_to_struct := type_val_to_struct ex_policy; bool_val_to_struct := bool_val_to_struct ex_policy;
  te_avtab := te_avtab ex_policy; te_cond_avtab := te_cond_avtab ex_policy; cond_list := cond_list ex_policy;
  role_tr := role_tr ex_policy; role_allows := role_allows ex_policy; range_tr := range_tr ex_policy;
  type_attr_map := type_attr_map ex_policy; attr_type_map := attr_type_map ex_policy |}.
Definition ex_source_class : class_datum := ClassDatum 1 None None (ex_table [] 0) [] [] 0 0 1 0.

Example class_defaults_ignored :
  ¬ labelled (with_class ex_source_class) ex_source_class ex_context ex_tgt 1 AVTAB_TRANSITION
      (label (with_class ex_source_class) ex_context ex_tgt 1 AVTAB_TRANSITION).
Proof.
  intros [_ [(n & [Hin (Hs & _)] & _)|[[_ (n & (Hin & (Hs & _) & _) & _)]|(_ & _ & H)]] _ _].
  - cbn in Hin. repeat (apply elem_of_cons in Hin as [->|Hin]; [discriminate Hs|]). by apply elem_of_nil in Hin.
  - cbn in Hin. repeat (apply elem_of_cons in Hin as [->|Hin]; [discriminate Hs|]). by apply elem_of_nil in Hin.
  - discriminate H.
Qed.

Lemma validate_transition_undefined_witness :
  sepol_validate_transition ex_policy ex_sidtab 3 3 3 1 [] = UB.
Proof.
  assert (sid_context ex_sidtab 3 ex_context) as Hsid by by vm_compute.
  exact (validate_transition_undefined ex_policy ex_sidtab 3 3 3 1 ex_class
    (ConstraintNode 0 [ConstraintExpr 4 1 1 ebitmap_init (TypeSet ebitmap_init ebitmap_init 0)]) []
    ex_context ex_context ex_context ex_sidtab_wf ltac:(done) ltac:(done) ltac:(done) eq_refl eq_refl
    Hsid Hsid Hsid ltac:(done)).
Defined.

Lemma unknown_class_undefined_witness : sepol_string_to_security_class ex_policy "missing" [] = UB.
Proof. apply (unknown_class_undefined ex_policy "missing" []). by repeat constructor. Defined.
