(* ===== verification/Expand.v ===== *)
(** Expansion of type sets, role sets, semantic levels and attributes:
    libsepol/src/expand.c.

    A set of a module names types and attributes, may exclude some and may be
    a star or a complement; the expansion is the bitmap of the types it stands
    for.  The maps between types and attributes that the security server and
    the assertion checker read are built here as well. *)

From S2P Require Import Prelude.
From S2P Require Import Ebitmap.
From S2P Require Import Hashtab.
From S2P Require Import MlsTypes.
From S2P Require Import Avtab.
From S2P Require Import Policydb.
From S2P Require Import Mls.
From S2P Require Import Context.
Local Open Scope N_scope.

Definition TYPE_STAR : N := 1.
Definition TYPE_COMP : N := 2.
Definition ROLE_STAR : N := 1.
Definition ROLE_COMP : N := 2.
Definition ROLE_ATTRIB : N := 1.

(** A failed [assert] aborts the program: it never returns, like [UB]. *)
Definition assert (b : bool) : M unit := if b then mret tt else ub.

(** [if (call) return -1;] for a call that updates a bitmap. *)
Definition or_fail (m : M (Z * ebitmap)) : M (ebitmap + ebitmap) :=
  '(rc, e) ← m; mret (if (rc =? 0)%Z then inr e else inl e).

(** The bitmap that a loop of such calls leaves behind. *)
Definition loop_result (r : ebitmap + ebitmap) : Z * ebitmap :=
  match r with inl e => ((-1)%Z, e) | inr e => (0%Z, e) end.

(** * Type sets *)

Definition map_ebitmap (src : ebitmap) (map : list N) : M (Z * ebitmap) :=
  r ← ebitmap_for_each_bit src ebitmap_init (λ i bit dst,
        if negb bit then mret (inr dst) else
        m ← deref (map !! N.to_nat i);
        if m =? 0 then mret (inr dst) else
        or_fail (ebitmap_set_bit dst (dec32 m) true));
  mret (loop_result r).

(** One member of a set: the types of an attribute, or the type itself. *)
Definition add_member (td : option type_datum) (i : N) (acc : ebitmap) : M (ebitmap + ebitmap) :=
  or_fail match td with
          | Some d => if flavor d =? TYPE_ATTRIB then ebitmap_union acc (td_types d)
                      else ebitmap_set_bit acc i true
          | None => ebitmap_set_bit acc i true
          end.

Definition is_attrib (td : option type_datum) : bool :=
  match td with Some d => flavor d =? TYPE_ATTRIB | None => false end.

(** The positive part dereferences every type it meets... *)
Definition expand_types (p : policydb) (set : ebitmap) : M (ebitmap + ebitmap) :=
  ebitmap_for_each_bit set ebitmap_init (λ i bit types,
    if negb bit then mret (inr types) else
    d ← at_ptr (type_val_to_struct p) i; add_member (Some d) i types).

(** ...the negative part allows for a missing one. *)
Definition expand_negset (p : policydb) (set : ebitmap) : M (ebitmap + ebitmap) :=
  ebitmap_for_each_bit set ebitmap_init (λ i bit neg_types,
    if negb bit then mret (inr neg_types) else
    td ← deref (type_val_to_struct p !! N.to_nat i); add_member td i neg_types).

Definition star_types (p : policydb) (neg_types t : ebitmap) : M (ebitmap + ebitmap) :=
  for_up (λ i t,
    if ebitmap_get_bit neg_types i then mret (inr t) else
    td ← deref (type_val_to_struct p !! N.to_nat i);
    if is_attrib td then mret (inr t) else or_fail (ebitmap_set_bit t i true))
    (N.to_nat (nprim (p_types p))) 0 t.

Definition comp_types (p : policydb) (t : ebitmap) : M (ebitmap + ebitmap) :=
  for_up (λ i t,
    td ← deref (type_val_to_struct p !! N.to_nat i);
    if is_attrib td then _ ← assert (negb (ebitmap_get_bit t i)); mret (inr t) else
    or_fail (ebitmap_set_bit t i (negb (ebitmap_get_bit t i))))
    (N.to_nat (nprim (p_types p))) 0 t.

Definition type_set_expand (set : type_set) (p : policydb) (alwaysexpand : bool) : M (Z * ebitmap) :=
  types ← (if alwaysexpand || truth (ebitmap_length (ts_negset set)) || truth (ts_flags set)
           then expand_types p (ts_types set)
           else or_fail (ebitmap_cpy (ts_types set)));
  match types with
  | inl _ => mret ((-1)%Z, ebitmap_init)
  | inr types =>
      neg_types ← expand_negset p (ts_negset set);
      match neg_types with
      | inl _ => mret ((-1)%Z, ebitmap_init)
      | inr neg_types =>
          if truth (N.land (ts_flags set) TYPE_STAR) then
            r ← star_types p neg_types ebitmap_init; mret (loop_result r)
          else
            r ← ebitmap_for_each_bit types ebitmap_init (λ i bit t,
                  if bit && negb (ebitmap_get_bit neg_types i)
                  then or_fail (ebitmap_set_bit t i true) else mret (inr t));
            match r with
            | inl t => mret ((-1)%Z, t)
            | inr t =>
                if truth (N.land (ts_flags set) TYPE_COMP)
                then r ← comp_types p t; mret (loop_result r)
                else mret (0%Z, t)
            end
      end
  end.

Definition expand_convert_type_set (p : policydb) (typemap : list N) (set : type_set) (alwaysexpand : bool)
    : M (Z * ebitmap) :=
  '(rc, types) ← map_ebitmap (ts_types set) typemap;
  if bool_decide (rc ≠ 0%Z) then mret ((-1)%Z, ebitmap_init) else
  '(rc, negset) ← map_ebitmap (ts_negset set) typemap;
  if bool_decide (rc ≠ 0%Z) then mret ((-1)%Z, ebitmap_init) else
  '(rc, t) ← type_set_expand (TypeSet types negset (ts_flags set)) p alwaysexpand;
  mret (if bool_decide (rc ≠ 0%Z) then (-1)%Z else 0%Z, t).

(** * Role sets *)

(** [for (i = 0; i < p->p_roles.nprim++; i++)]: the counter of roles grows with
    the loop.  An [unsigned int] counter takes at most [2^32] values. *)
Definition star_roles (n : N) (r : ebitmap) : M ((Z * ebitmap * N) + (N * ebitmap)) :=
  for_up (λ i '(n, r),
    if negb (i <? n) then mret (inl (0%Z, r, u32 (n + 1))) else
    '(rc, r) ← ebitmap_set_bit r i true;
    mret (if bool_decide (rc ≠ 0%Z) then inl ((-1)%Z, r, u32 (n + 1)) else inr (u32 (n + 1), r)))
    (N.to_nat (2 ^ 32)) 0 (n, r).

(** Roles of the base module, an attribute standing for its roles. *)
Definition expand_roles (base : policydb) (set : ebitmap) : M (ebitmap + ebitmap) :=
  ebitmap_for_each_bit set ebitmap_init (λ i bit roles,
    if negb bit then mret (inr roles) else
    role ← deref (role_val_to_struct base !! N.to_nat i);
    _ ← assert (match role with Some _ => true | None => false end);
    role ← deref role;
    or_fail (if role_flavor role =? ROLE_ATTRIB then ebitmap_union roles (role_roles role)
             else ebitmap_set_bit roles i true)).

(** The complement: the length is read again at every step. *)
Fixpoint comp_roles (fuel : nat) (i : N) (r : ebitmap) : M (Z * ebitmap) :=
  if negb (i <? ebitmap_length r) then mret (0%Z, r) else
  match fuel with
  | O => ub
  | S fuel' =>
      '(rc, r) ← ebitmap_set_bit r i (negb (ebitmap_get_bit r i));
      if bool_decide (rc ≠ 0%Z) then mret ((-1)%Z, r) else comp_roles fuel' (u32 (i + 1)) r
  end.

(** The result is the return value, the bitmap and the role count of [out]. *)
Definition role_set_expand (x : role_set) (out : policydb) (base : option policydb) (rolemap : option (list N))
    : M (Z * ebitmap * N) :=
  let n := nprim (p_roles out) in
  if truth (N.land (rs_flags x) ROLE_STAR) then
    r ← star_roles n ebitmap_init;
    match r with inl x => mret x | inr _ => ub end
  else
  m ← match rolemap with
      | Some map =>
          base ← deref base;
          roles ← expand_roles base (rs_roles x);
          match roles with
          | inl _ => mret (inl ebitmap_init)
          | inr roles => or_fail (map_ebitmap roles map)
          end
      | None => or_fail (ebitmap_cpy (rs_roles x))
      end;
  match m with
  | inl _ => mret ((-1)%Z, ebitmap_init, n)
  | inr mapped_roles =>
      r ← ebitmap_for_each_bit mapped_roles ebitmap_init (λ i bit r,
            if bit then or_fail (ebitmap_set_bit r i true) else mret (inr r));
      match r with
      | inl r => mret ((-1)%Z, r, n)
      | inr r =>
          if truth (N.land (rs_flags x) ROLE_COMP) then
            '(rc, r) ← comp_roles (N.to_nat (ebitmap_length r)) 0 r; mret (rc, r, n)
          else mret (0%Z, r, n)
      end
  end.

(** * Semantic levels

    A level of a module lists its categories as ranges of values.  Whether the
    list was freed while it is still pointed to is a flag of its own. *)

Record sem_source := SemSource { source_range : mls_semantic_range; low_freed : bool }.

(** The list of the low level is freed, the pointer to it stays. *)
Definition mls_semantic_level_destroy (s : sem_source) : M sem_source :=
  if low_freed s then ub else mret (SemSource (source_range s) true).

(** One range of categories, each of which the sensitivity must have.  The
    names are read for the message only. *)
Definition expand_cat (p : policydb) (sens : N) (lev : mls_level) (c : mls_semantic_cat) (cats : ebitmap)
    : M (ebitmap + ebitmap) :=
  if high c <? low c then
    _ ← deref (p_cat_val_to_name p !! N.to_nat (dec32 (low c)));
    _ ← deref (p_cat_val_to_name p !! N.to_nat (dec32 (high c)));
    mret (inl cats)
  else
  for_up (λ i cats,
    if negb (ebitmap_get_bit (cat lev) i) then
      _ ← deref (p_cat_val_to_name p !! N.to_nat i);
      _ ← deref (p_sens_val_to_name p !! N.to_nat (dec32 sens));
      mret (inl cats)
    else or_fail (ebitmap_set_bit cats i true))
    (N.to_nat (high c - dec32 (low c))) (dec32 (low c)) cats.

Definition mls_semantic_level_expand (sl : mls_semantic_level) (freed : bool) (p : policydb) : M (Z * mls_level) :=
  if negb (mls p) then mret (0%Z, mls_level_init) else
  if sem_sens sl =? 0 then mret (0%Z, mls_level_init) else
  name ← deref (p_sens_val_to_name p !! N.to_nat (dec32 (sem_sens sl)));
  name ← deref name;
  levdatum ← hashtab_search (table (p_levels p)) name;
  match levdatum with
  | None => mret ((-1)%Z, MlsLevel (sem_sens sl) ebitmap_init)
  | Some ld =>
      r ← (if freed then ub else for_list (expand_cat p (sem_sens sl) (level ld)) (sem_cat sl) ebitmap_init);
      mret match r with
           | inl c => ((-1)%Z, MlsLevel (sem_sens sl) c)
           | inr c => (0%Z, MlsLevel (sem_sens sl) c)
           end
  end.

(** The result is the return value, the levels that the caller's range holds
    ([None]: nothing was stored there) and the semantic range as the call
    leaves it. *)
Definition mls_semantic_range_expand (sr : sem_source) (p : policydb)
    : M (Z * (option mls_level * option mls_level) * sem_source) :=
  '(rc, l0) ← mls_semantic_level_expand (sem_level0 (source_range sr)) (low_freed sr) p;
  if (rc <? 0)%Z then mret ((-1)%Z, (Some l0, None), sr) else
  '(rc, l1) ← mls_semantic_level_expand (sem_level1 (source_range sr)) false p;
  if (rc <? 0)%Z then sr ← mls_semantic_level_destroy sr; mret ((-1)%Z, (Some l0, Some l1), sr) else
  if negb (mls_level_dom l1 l0) then mret ((-1)%Z, (Some (mls_level_destroy l0), Some (mls_level_destroy l1)), sr)
  else mret (0%Z, (Some l0, Some l1), sr).

(** * Attributes of types

    The callback's store holds the two maps: [attr_type_map] (the types of an
    attribute) and [type_attr_map] (the attributes of a type). *)

Record attr_maps := AttrMaps { am_types : list ebitmap; am_attrs : list ebitmap }.

(** [if (call(&arr[i])) goto oom;] *)
Definition update_at (arr : list ebitmap) (i : N) (f : ebitmap → M (Z * ebitmap)) : M (Z * list ebitmap) :=
  e ← deref (arr !! N.to_nat i); '(rc, e) ← f e;
  mret (if (rc =? 0)%Z then 0%Z else (-1)%Z, <[N.to_nat i := e]> arr).

Definition type_attr_map_cb (key : string) (type : type_datum) (m : attr_maps) : M (Z * attr_maps) :=
  let v := dec32 (type_value type) in
  if flavor type =? TYPE_ATTRIB then
    '(rc, types) ← update_at (am_types m) v (λ _, ebitmap_cpy (td_types type));
    if bool_decide (rc ≠ 0%Z) then mret ((-1)%Z, AttrMaps types (am_attrs m)) else
    r ← ebitmap_for_each_bit (td_types type) (am_attrs m) (λ i bit attrs,
          if negb bit then mret (inr attrs) else
          '(rc, attrs) ← update_at attrs i (λ e, ebitmap_set_bit e v true);
          mret (if bool_decide (rc ≠ 0%Z) then inl attrs else inr attrs));
    mret match r with
         | inl attrs => ((-1)%Z, AttrMaps types attrs)
         | inr attrs => (0%Z, AttrMaps types attrs)
         end
  else
    '(rc, types) ← update_at (am_types m) v (λ e, ebitmap_set_bit e v true);
    mret (rc, AttrMaps types (am_attrs m)).

(** The part of [expand_module] that allocates the maps and fills them. *)
Definition build_attr_maps (p : policydb) : M (Z * option attr_maps) :=
  let n := N.to_nat (nprim (p_types p)) in
  b1 ← malloc; b2 ← malloc;
  if negb (b1 && b2) then mret ((-1)%Z, None) else
  r ← for_up (λ i attrs,
        '(rc, e) ← ebitmap_set_bit ebitmap_init i true;
        mret (if bool_decide (rc ≠ 0%Z) then inl attrs else inr (attrs ++ [e]))) n 0 [];
  match r with
  | inl _ => mret ((-1)%Z, None)
  | inr attrs =>
      '(rc, m) ← hashtab_map (table (p_types p)) type_attr_map_cb (AttrMaps (replicate n ebitmap_init) attrs);
      mret (if (rc =? 0)%Z then 0%Z else (-1)%Z, Some m)
  end.

(** * Loops that add to a bitmap

    [grows acc P] is the outcome of a loop body or a loop that adds the
    elements of [P] to [acc] and fails only when memory is short. *)

Definition grows (acc : ebitmap) (P : N → Prop) (o : oracle) (r : ebitmap + ebitmap) (o' : oracle) : Prop :=
  (o = [] → o' = [] ∧ ∃ e, r = inr e) ∧
  match r with
  | inl _ => True
  | inr e => ebitmap_wf e ∧ ∀ x, ebitmap_bit e x = true ↔ ebitmap_bit acc x = true ∨ P x
  end.

Lemma grows_ext acc P P' o r o' : (∀ x, P x ↔ P' x) → grows acc P o r o' → grows acc P' o r o'.
Proof.
  intros HP [Ho H]. split; [done|]. destruct r; [done|]. destruct H as [Hw H]. split; [done|].
  intros x. by rewrite H, HP.
Qed.

Lemma grows_same acc (P : N → Prop) o : ebitmap_wf acc → (∀ x, ¬ P x) → grows acc P o (inr acc) o.
Proof. intros Hw HP. split; [eauto|]. split; [done|]. naive_solver. Qed.

Lemma grows_set acc i o :
  ebitmap_wf acc → i < 2 ^ 32 - 64 →
  wp (or_fail (ebitmap_set_bit acc i true)) o (grows acc (λ x, x = i) o).
Proof.
  intros Hw Hi. unfold or_fail. wp_step.
  eapply wp_mono; [apply set_bit_spec; [done|change (2 ^ 32 - 64) with 4294967232 in Hi; change (2 ^ 32) with 4294967296; lia]|].
  intros [rc e] o' [Ho Hr]. wp_step. destruct Hr as [(Hrc & _ & Hw' & Hb)|[[_ ?]|[[= -> ->] _]]]; cbn in *; [subst| |]; [|lia|].
  - split; [intros H; split; [by apply Ho|by eexists]|]. split; [done|]. intros x. rewrite Hb.
    destruct (N.eqb_spec x i); naive_solver.
  - split; [|done]. intros H. by apply Ho in H as [_ []].
Qed.

Lemma grows_union acc e1 o :
  ebitmap_wf acc → ebitmap_wf e1 →
  wp (or_fail (ebitmap_union acc e1)) o (grows acc (λ x, ebitmap_bit e1 x = true) o).
Proof.
  intros Hw Hi. unfold or_fail. wp_step. eapply wp_mono; [by apply union_spec|].
  intros [rc e] o' [Ho Hr]. wp_step. destruct Hr as [(Hrc & Hw' & Hb)|[= -> ->]]; cbn in *; subst.
  - split; [intros H; split; [by apply Ho|by eexists]|]. split; [done|]. intros x. by rewrite Hb, orb_true_iff.
  - split; [|done]. intros H. by apply Ho in H as [_ H].
Qed.

Lemma grows_list {A} (body : A → ebitmap → M (ebitmap + ebitmap)) (P : A → N → Prop) l acc o :
  ebitmap_wf acc →
  (∀ i acc o, i ∈ l → ebitmap_wf acc → wp (body i acc) o (grows acc (P i) o)) →
  wp (for_list body l acc) o (grows acc (λ x, ∃ i, i ∈ l ∧ P i x) o).
Proof.
  revert acc o. induction l as [|i l IH]; intros acc o Hw Hb; cbn [for_list].
  { apply wp_ret, grows_same; [done|]. intros x (i & ?%elem_of_nil & _). done. }
  wp_step. eapply wp_mono; [apply Hb; [left|done]|]. intros [e|e] o1 [Ho Hr]; [wp_step; split; [naive_solver|done]|].
  destruct Hr as [Hw1 Hr]. eapply wp_mono; [apply IH; [done|]; intros; apply Hb; [by right|done]|].
  intros r o2 [Ho2 Hr2]. split.
  - intros H. apply Ho2. by apply Ho.
  - destruct r as [|e2]; [done|]. destruct Hr2 as [Hw2 Hr2]. split; [done|]. intros x. rewrite Hr2, Hr.
    setoid_rewrite elem_of_cons. naive_solver.
Qed.

Lemma grows_bits (body : N → bool → ebitmap → M (ebitmap + ebitmap)) (P : N → N → Prop) s acc o :
  ebitmap_wf s → ebitmap_wf acc →
  (∀ i acc o, ebitmap_bit s i = true → ebitmap_wf acc → wp (body i true acc) o (grows acc (P i) o)) →
  (∀ i acc o, body i false acc o = Ret (inr acc) o) →
  wp (ebitmap_for_each_bit s acc body) o (grows acc (λ x, ∃ i, ebitmap_bit s i = true ∧ P i x) o).
Proof.
  intros Hs Hw Ht Hf. unfold wp. rewrite for_each_bit_visited by done.
  eapply (wp_mono (for_list _ _ _)); [apply (grows_list _ (λ i x, ebitmap_bit s i = true ∧ P i x)); [done|]|].
  - intros i e o1 _ He. destruct (ebitmap_bit s i) eqn:Hb.
    + eapply wp_mono; [by apply Ht|]. intros r o'. apply grows_ext. naive_solver.
    + unfold wp. rewrite Hf. apply grows_same; naive_solver.
  - intros r o'. apply grows_ext. intros x. split; [naive_solver|]. intros (i & Hb & HP). exists i.
    split; [|done]. by apply bit_position.
Qed.

(** * What the sets stand for *)

Definition type_at (p : policydb) (i : N) : option type_datum := default None (type_val_to_struct p !! N.to_nat i).

Definition attrib (p : policydb) (i : N) : bool := is_attrib (type_at p i).

(** [x] is one of the types that the type or attribute [i] stands for. *)
Definition member (p : policydb) (i x : N) : Prop :=
  match type_at p i with
  | Some d => if flavor d =? TYPE_ATTRIB then ebitmap_bit (td_types d) x = true else x = i
  | None => x = i
  end.

Definition in_set (p : policydb) (e : ebitmap) (x : N) : Prop := ∃ i, ebitmap_bit e i = true ∧ member p i x.

(** Types are numbered consecutively and attributes contain types only. *)
Record types_wf (p : policydb) : Prop := {
  tw_count : nprim (p_types p) < 2 ^ 32 - 64;
  tw_table : N.of_nat (length (type_val_to_struct p)) = nprim (p_types p);
  tw_attrib : ∀ i d, type_at p i = Some d → flavor d = TYPE_ATTRIB →
    ebitmap_wf (td_types d) ∧ ∀ x, ebitmap_bit (td_types d) x = true → x < nprim (p_types p) ∧ attrib p x = false }.

(** A set names types of the policy; those it does not exclude are declared. *)
Record type_set_wf (p : policydb) (set : type_set) : Prop := {
  sw_types : ebitmap_wf (ts_types set);
  sw_neg : ebitmap_wf (ts_negset set);
  sw_declared : ∀ i, ebitmap_bit (ts_types set) i = true → is_Some (type_at p i);
  sw_bound : ∀ i, ebitmap_bit (ts_negset set) i = true → i < nprim (p_types p) }.

Definition expands (always : bool) (set : type_set) : bool :=
  always || truth (ebitmap_length (ts_negset set)) || truth (ts_flags set).

Definition plain_type (p : policydb) (always : bool) (set : type_set) (x : N) : Prop :=
  (if expands always set then in_set p (ts_types set) x else ebitmap_bit (ts_types set) x = true) ∧
  ¬ in_set p (ts_negset set) x.

(** The types of a set: all that are not excluded for a star, all but the
    listed ones for a complement. *)
Definition type_in (p : policydb) (always : bool) (set : type_set) (x : N) : Prop :=
  if truth (N.land (ts_flags set) TYPE_STAR)
  then x < nprim (p_types p) ∧ attrib p x = false ∧ ¬ in_set p (ts_negset set) x
  else if truth (N.land (ts_flags set) TYPE_COMP)
  then x < nprim (p_types p) ∧ attrib p x = false ∧ ¬ plain_type p always set x
  else plain_type p always set x.

Section type_sets.
Context (p : policydb) (Hp : types_wf p).

Lemma type_lookup i : i < nprim (p_types p) → type_val_to_struct p !! N.to_nat i = Some (type_at p i).
Proof.
  intros Hi. unfold type_at. rewrite <- (tw_table _ Hp) in Hi.
  destruct (lookup_lt_is_Some_2 (type_val_to_struct p) (N.to_nat i)) as [td ->]; [lia|done].
Qed.

Lemma type_at_bound i d : type_at p i = Some d → i < nprim (p_types p).
Proof.
  unfold type_at. rewrite <- (tw_table _ Hp). destruct (_ !! _) as [td|] eqn:E; [|done].
  apply lookup_lt_Some in E. lia.
Qed.

Lemma in_set_bound e x : (∀ i, ebitmap_bit e i = true → i < nprim (p_types p)) → in_set p e x → x < nprim (p_types p).
Proof.
  intros He (i & Hi & Hm). unfold member in Hm. destruct (type_at p i) as [d|] eqn:E; [|by subst; apply He].
  destruct (N.eqb_spec (flavor d) TYPE_ATTRIB); [|by subst; apply He]. by apply (tw_attrib _ Hp _ _ E).
Qed.

Lemma in_set_type e x : in_set p e x → attrib p x = false.
Proof.
  intros (i & Hi & Hm). unfold member in Hm. unfold attrib.
  destruct (type_at p i) as [d|] eqn:E; [|by rewrite Hm, E].
  destruct (N.eqb_spec (flavor d) TYPE_ATTRIB) as [Ha|Hn]; [by apply (tw_attrib _ Hp _ _ E)|].
  subst. rewrite E. cbn. by apply N.eqb_neq.
Qed.

Lemma grows_member i acc o :
  ebitmap_wf acc → i < nprim (p_types p) →
  wp (add_member (type_at p i) i acc) o (grows acc (member p i) o).
Proof.
  intros Hw Hi. pose proof (tw_count _ Hp). unfold add_member, member.
  destruct (type_at p i) as [d|] eqn:E; [|apply grows_set; [done|lia]].
  destruct (N.eqb_spec (flavor d) TYPE_ATTRIB) as [Ha|Hn]; [|apply grows_set; [done|lia]].
  apply grows_union; [done|]. by apply (tw_attrib _ Hp _ _ E).
Qed.

Lemma expand_types_spec e o :
  ebitmap_wf e → (∀ i, ebitmap_bit e i = true → is_Some (type_at p i)) →
  wp (expand_types p e) o (grows ebitmap_init (in_set p e) o).
Proof.
  intros He Hd. apply (grows_bits _ (member p)); [done|apply ebitmap_init_wf| |done].
  intros i acc o1 Hi Hw. cbn [negb]. wp_step. apply wp_at_ptr. destruct (Hd i Hi) as [d E].
  pose proof (type_at_bound _ _ E) as Hb. exists d. rewrite <- E. split; [by apply type_lookup|by apply grows_member].
Qed.

Lemma expand_negset_spec e o :
  ebitmap_wf e → (∀ i, ebitmap_bit e i = true → i < nprim (p_types p)) →
  wp (expand_negset p e) o (grows ebitmap_init (in_set p e) o).
Proof.
  intros He Hd. apply (grows_bits _ (member p)); [done|apply ebitmap_init_wf| |done].
  intros i acc o1 Hi Hw. cbn [negb]. wp_step. apply wp_deref. exists (type_at p i).
  split; [by apply type_lookup, Hd|by apply grows_member, Hd].
Qed.

Lemma star_types_spec neg t o :
  ebitmap_wf neg → ebitmap_wf t →
  wp (star_types p neg t) o (grows t (λ x, x < nprim (p_types p) ∧ attrib p x = false ∧ ebitmap_bit neg x = false) o).
Proof.
  intros Hn Ht. unfold star_types, wp. rewrite <- for_up_seqN.
  eapply (wp_mono (for_list _ _ _)).
  - apply (grows_list _ (λ i x, x = i ∧ attrib p i = false ∧ ebitmap_bit neg i = false)); [done|].
    intros i acc o1 Hi%elem_of_seqN Hw. rewrite get_bit_wf by done.
    destruct (ebitmap_bit neg i) eqn:Hb; [apply wp_ret, grows_same; naive_solver|].
    wp_step. apply wp_deref. exists (type_at p i). split; [apply type_lookup; lia|].
    fold (attrib p i). destruct (attrib p i) eqn:Ha; [apply wp_ret, grows_same; naive_solver|].
    eapply wp_mono; [apply grows_set; [done|pose proof (tw_count _ Hp); lia]|].
    intros r o2. apply grows_ext. naive_solver.
  - intros r o2. apply grows_ext. intros x. setoid_rewrite elem_of_seqN. split.
    + intros (i & Hi & -> & ? & ?). split; [lia|done].
    + intros (Hx & ? & ?). exists x. split; [lia|done].
Qed.

Lemma comp_types_spec t o :
  ebitmap_wf t → (∀ x, ebitmap_bit t x = true → x < nprim (p_types p) ∧ attrib p x = false) →
  wp (comp_types p t) o (λ r o', (o = [] → o' = [] ∧ ∃ e, r = inr e) ∧
    match r with
    | inl _ => True
    | inr e => ebitmap_wf e ∧ ∀ x, ebitmap_bit e x = true ↔
        x < nprim (p_types p) ∧ attrib p x = false ∧ ebitmap_bit t x = false
    end).
Proof.
  intros Ht Hb. pose proof (tw_count _ Hp) as Hn. unfold comp_types.
  apply (wp_for_up (λ i e o', (o = [] → o' = []) ∧ ebitmap_wf e ∧
    ∀ x, ebitmap_bit e x = if x <? i then negb (attrib p x) && negb (ebitmap_bit t x) else ebitmap_bit t x)).
  - split; [done|]. split; [done|]. intros x. by destruct (N.ltb_spec x 0); [lia|].
  - intros i e o1 Hi (Ho & Hw & He). wp_step. apply wp_deref. exists (type_at p i).
    split; [apply type_lookup; lia|]. fold (attrib p i). rewrite get_bit_wf by done.
    assert (ebitmap_bit e i = ebitmap_bit t i) as Hei by (rewrite He; by destruct (N.ltb_spec i i); [lia|]).
    destruct (attrib p i) eqn:Ha.
    + assert (ebitmap_bit t i = false) as Hti by (destruct (ebitmap_bit t i) eqn:E; [apply Hb in E; naive_solver|done]).
      rewrite Hei, Hti. wp_step. cbn. split; [done|]. split; [done|]. intros x. rewrite He.
      destruct (N.ltb_spec x i), (N.ltb_spec x (i + 1)); try done; try lia.
      replace x with i by lia. by rewrite Ha, Hti.
    + unfold or_fail. wp_step.
      eapply wp_mono; [apply set_bit_spec; [done|change (2 ^ 32 - 64) with 4294967232 in Hn; change (2 ^ 32) with 4294967296; lia]|].
      intros [rc e'] o2 [Ho2 Hr]. wp_step.
      destruct Hr as [(Hrc & _ & Hw' & Hbit)|[[_ ?]|[[= -> ->] _]]]; cbn in *; [subst rc| |]; [|lia|].
      * split; [naive_solver|]. split; [done|]. intros x. rewrite Hbit, Hei, He.
        destruct (N.eqb_spec x i), (N.ltb_spec x i), (N.ltb_spec x (i + 1)); subst; try done; try lia. by rewrite Ha.
      * split; [|done]. intros H. by apply Ho, Ho2 in H as [_ []].
  - intros e o1 (Ho & Hw & He). split; [naive_solver|]. split; [done|]. intros x. rewrite He, N.add_0_l, N2Nat.id.
    destruct (N.ltb_spec x (nprim (p_types p))).
    + rewrite andb_true_iff, !negb_true_iff. naive_solver.
    + split; [|lia]. intros Hx%Hb. lia.
Qed.

(** The result of an expansion: the bitmap of [P], or a failure when memory is
    short. *)
Definition expanded (P : N → Prop) (o : oracle) (r : Z * ebitmap) (o' : oracle) : Prop :=
  (o = [] → o' = [] ∧ r.1 = 0%Z) ∧
  ((r.1 = 0%Z ∧ ebitmap_wf r.2 ∧ ∀ x, ebitmap_bit r.2 x = true ↔ P x) ∨ r.1 = (-1)%Z).

Lemma loop_expanded P Q (r : ebitmap + ebitmap) o o' :
  (o = [] → o' = [] ∧ ∃ e, r = inr e) →
  match r with inl _ => True | inr e => ebitmap_wf e ∧ ∀ x, ebitmap_bit e x = true ↔ P x end →
  (∀ x, P x ↔ Q x) → expanded Q o (loop_result r) o'.
Proof.
  intros Ho Hr HPQ. split.
  - intros H. apply Ho in H as [-> [e ->]]. done.
  - destruct r as [|e]; [by right|]. left. destruct Hr as [? Hr]. split; [done|]. split; [done|].
    intros x. by rewrite Hr.
Qed.

Lemma grows_init P o r o' : grows ebitmap_init P o r o' →
  (o = [] → o' = [] ∧ ∃ e, r = inr e) ∧
  match r with inl _ => True | inr e => ebitmap_wf e ∧ ∀ x, ebitmap_bit e x = true ↔ P x end.
Proof. intros [Ho Hr]. split; [done|]. destruct r; [done|]. destruct Hr as [? Hr]. split; [done|].
  intros x. rewrite Hr. cbn. naive_solver. Qed.

(** The failure of an early loop is the failure of the whole function. *)
Lemma early_failure P o o' :
  (o = [] → o' = [] ∧ ∃ e, @inl ebitmap ebitmap ebitmap_init = inr e) → expanded P o ((-1)%Z, ebitmap_init) o'.
Proof. intros Ho. split; [naive_solver|]. by right. Qed.

Lemma listed_types_spec always set o :
  type_set_wf p set →
  wp (if expands always set then expand_types p (ts_types set) else or_fail (ebitmap_cpy (ts_types set))) o
    (grows ebitmap_init (λ x, if expands always set then in_set p (ts_types set) x
                              else ebitmap_bit (ts_types set) x = true) o).
Proof.
  intros [Ht Hn Hd Hb]. destruct (expands always set); [by apply expand_types_spec|].
  unfold or_fail. wp_step. eapply wp_mono; [apply cpy_spec|]. intros [rc e] o' [Ho Hr]. wp_step.
  destruct Hr as [[= -> ->]|[= -> ->]]; cbn in *.
  - split; [naive_solver|]. split; [done|]. intros x. naive_solver.
  - split; [|done]. intros H. by apply Ho in H as [_ H].
Qed.

Lemma expands_flag always set f : truth (N.land (ts_flags set) f) = true → expands always set = true.
Proof.
  unfold expands. rewrite !truth_spec. intros H. rewrite orb_true_iff. right. apply truth_spec.
  intros E. by rewrite E in H.
Qed.

Lemma type_set_expand_spec set always o :
  type_set_wf p set → wp (type_set_expand set p always) o (expanded (type_in p always set) o).
Proof.
  intros Hs. unfold type_set_expand. wp_step. eapply wp_mono; [by apply listed_types_spec|].
  intros [e|types] o1 [Ho1 Hr1]%grows_init; [wp_step; split; [naive_solver|by right]|]. destruct Hr1 as [Hw1 Hb1].
  wp_step. eapply wp_mono; [apply expand_negset_spec; apply Hs|].
  intros [e|neg] o2 [Ho2 Hr2]%grows_init; [wp_step; split; [naive_solver|by right]|]. destruct Hr2 as [Hw2 Hb2].
  assert (o = [] → o2 = []) as Ho by naive_solver. clear Ho1 Ho2. unfold type_in.
  destruct (truth (N.land (ts_flags set) TYPE_STAR)).
  - wp_step. eapply wp_mono; [by apply star_types_spec, ebitmap_init_wf|].
    intros r o3 [Ho3 Hr3]%grows_init. wp_step. eapply loop_expanded; [naive_solver|exact Hr3|].
    intros x. cbn. rewrite <- Hb2. destruct (ebitmap_bit neg x); naive_solver.
  - wp_step. eapply wp_mono.
    { apply (grows_bits _ (λ i x, x = i ∧ ebitmap_bit neg i = false)); [done|apply ebitmap_init_wf| |done].
      intros i acc o' Hi Hw. rewrite get_bit_wf by done. cbn [andb].
      destruct (ebitmap_bit neg i) eqn:E; [apply wp_ret, grows_same; naive_solver|].
      eapply wp_mono; [apply grows_set; [done|]|intros r o''; apply grows_ext; naive_solver].
      pose proof (highbit_max _ Hw1). pose proof (ebitmap_bit_hi _ _ Hw1 Hi). lia. }
    intros [e|t] o3 [Ho3 Hr3]%grows_init; [wp_step; split; [naive_solver|by right]|]. destruct Hr3 as [Hw3 Hb3].
    assert (∀ x, ebitmap_bit t x = true ↔ plain_type p always set x) as Hplain.
    { intros x. rewrite Hb3. unfold plain_type. rewrite <- Hb2, <- Hb1. split.
      - intros (i & Hi & -> & E). split; [done|]. by rewrite E.
      - intros [Hi E]. exists x. split; [done|]. split; [done|]. by apply not_true_iff_false. }
    destruct (truth (N.land (ts_flags set) TYPE_COMP)) eqn:Ec.
    + wp_step. eapply wp_mono; [apply comp_types_spec; [done|]|].
      * intros x [Hx _]%Hplain. rewrite (expands_flag always set _ Ec) in Hx. split.
        -- eapply in_set_bound; [|done]. intros i Hi. destruct (sw_declared _ _ Hs i Hi) as [d Hd]. by eapply type_at_bound.
        -- by eapply in_set_type.
      * intros r o4 [Ho4 Hr4]. wp_step. eapply loop_expanded; [naive_solver|exact Hr4|].
        intros x. cbn. rewrite <- Hplain. destruct (ebitmap_bit t x); naive_solver.
    + wp_step. split; [naive_solver|]. left. done.
Qed.

End type_sets.

(** * Renumbering *)

(** [map] sends value [i + 1] to its entry; 0 is "not in the new policy". *)
Definition mapped (e : ebitmap) (map : list N) (x : N) : Prop :=
  ∃ i, ebitmap_bit e i = true ∧ map !! N.to_nat i = Some (x + 1).

Definition map_wf (e : ebitmap) (map : list N) : Prop :=
  (∀ i, ebitmap_bit e i = true → i < N.of_nat (length map)) ∧ Forall (λ m, m < 2 ^ 32 - 64) map.

Lemma map_ebitmap_spec e map o :
  ebitmap_wf e → map_wf e map → wp (map_ebitmap e map) o (expanded (mapped e map) o).
Proof.
  intros He [Hlen Hmap]. unfold map_ebitmap. wp_step.
  eapply wp_mono; [apply (grows_bits _ (λ i x, map !! N.to_nat i = Some (x + 1))); [done|apply ebitmap_init_wf| |done]|].
  - intros i acc o' Hi Hw. cbn [negb]. wp_step. apply wp_deref.
    destruct (lookup_lt_is_Some_2 map (N.to_nat i)) as [m Hm]; [specialize (Hlen i Hi); lia|].
    exists m. split; [done|]. rewrite Forall_lookup in Hmap. specialize (Hmap _ _ Hm). cbn in Hmap.
    change (2 ^ 32 - 64) with 4294967232 in Hmap. destruct (N.eqb_spec m 0) as [->|Hn].
    + apply wp_ret, grows_same; [done|]. intros x. rewrite Hm. intros [=]. lia.
    + rewrite dec32_pred by (change (2 ^ 32) with 4294967296; lia).
      eapply wp_mono; [apply grows_set; [done|change (2 ^ 32 - 64) with 4294967232; lia]|].
      intros r o''. apply grows_ext. intros x. rewrite Hm. split; [intros ->; f_equal; lia|intros [=]; lia].
  - intros r o' [Ho Hr]%grows_init. wp_step. eapply loop_expanded; [done|exact Hr|]. intros x. reflexivity.
Qed.

(** * Roles *)

Definition role_at (p : policydb) (i : N) : option role_datum := default None (role_val_to_struct p !! N.to_nat i).

(** The roles that the roles and role attributes of a set stand for. *)
Definition role_listed (base : policydb) (e : ebitmap) (x : N) : Prop :=
  ∃ i d, ebitmap_bit e i = true ∧ role_at base i = Some d ∧
    if role_flavor d =? ROLE_ATTRIB then ebitmap_bit (role_roles d) x = true else x = i.

Definition roles_wf (base : policydb) (e : ebitmap) : Prop :=
  ebitmap_wf e ∧ ∀ i, ebitmap_bit e i = true → ∃ d, role_at base i = Some d ∧ ebitmap_wf (role_roles d).

Lemma expand_roles_spec base e o :
  roles_wf base e → wp (expand_roles base e) o (grows ebitmap_init (role_listed base e) o).
Proof.
  intros [He Hd]. eapply wp_mono.
  - apply (grows_bits _ (λ i x, ∃ d, role_at base i = Some d ∧
      if role_flavor d =? ROLE_ATTRIB then ebitmap_bit (role_roles d) x = true else x = i));
      [done|apply ebitmap_init_wf| |done].
    intros i acc o' Hi Hw. cbn [negb]. destruct (Hd i Hi) as (d & E & Hdw). wp_step. apply wp_deref.
    exists (Some d). split; [unfold role_at in E; destruct (_ !! _); naive_solver|].
    wp_step. cbn. wp_step. cbn. destruct (role_flavor d =? ROLE_ATTRIB) eqn:Ef.
    + eapply wp_mono; [by apply grows_union|]. intros r o''. apply grows_ext. intros x. rewrite E.
      split; [intros Hx; exists d; by rewrite Ef|intros (? & [= <-] & H); by rewrite Ef in H].
    + eapply wp_mono; [apply grows_set; [done|]|].
      * pose proof (highbit_max _ He). pose proof (ebitmap_bit_hi _ _ He Hi). lia.
      * intros r o''. apply grows_ext. intros x. rewrite E.
        split; [intros Hx; exists d; by rewrite Ef|intros (? & [= <-] & H); by rewrite Ef in H].
  - intros r o'. apply grows_ext. intros x. unfold role_listed. naive_solver.
Qed.

Lemma role_star_run n o :
  0 < n → n < 2 ^ 32 →
  wp (star_roles n ebitmap_init) o (λ r o', ∃ rc e n', r = inl (rc, e, n') ∧
    (rc = 0%Z → n' = 1 ∧ ∀ x, x < 2 ^ 32 - n → ebitmap_bit e x = true)).
Proof.
  intros H0 H32. unfold star_roles. change (2 ^ 32) with 4294967296 in *.
  apply (wp_for_up (λ i '(m, e) _, i + n ≤ 4294967296 ∧ m = u32 (n + i) ∧ ebitmap_wf e ∧
                      ∀ x, x < i → ebitmap_bit e x = true)).
  - split; [lia|]. split; [rewrite u32_small; [lia|change (2 ^ 32) with 4294967296; lia]|]. split; [apply ebitmap_init_wf|lia].
  - intros i [m e] o' Hi (Hle & -> & Hw & Hb). destruct (decide (i + n = 4294967296)) as [E|E].
    + assert (u32 (n + i) = 0) as -> by (unfold u32; change (2 ^ 32) with 4294967296; by replace (n + i) with 4294967296 by lia).
      destruct (N.ltb_spec i 0); [lia|]. cbn [negb]. apply wp_ret. eexists _, _, _. split; [done|]. intros _. split; [done|].
      intros x Hx. apply Hb. lia.
    + rewrite (u32_small (n + i)) by (change (2 ^ 32) with 4294967296; lia). destruct (N.ltb_spec i (n + i)); [|lia]. cbn [negb].
      wp_step. eapply wp_mono; [apply set_bit_spec; [done|change (2 ^ 32) with 4294967296; lia]|].
      intros [rc e'] o'' [_ Hr]. wp_step. destruct (bool_decide_reflect (rc ≠ 0%Z)) as [Hrc|Hrc].
      { eexists _, _, _. split; [done|]. done. }
      destruct Hr as [(_ & _ & Hw' & Hb')|[[[= -> _] _]|[[= -> _] _]]]; [|by destruct Hrc..]. cbn in *. split; [lia|].
      split; [f_equal; lia|]. split; [done|]. intros x Hx. rewrite Hb'. destruct (N.eqb_spec x i); [done|]. apply Hb. lia.
  - intros [m e] o' (Hle & _). lia.
Qed.

(** What a role set without flags stands for, in the numbering of the output
    policy. *)
Definition role_in (base : option policydb) (rolemap : option (list N)) (e : ebitmap) (x : N) : Prop :=
  match rolemap, base with
  | Some map, Some base => ∃ j, role_listed base e j ∧ map !! N.to_nat j = Some (x + 1)
  | _, _ => ebitmap_bit e x = true
  end.

Definition role_set_wf (base : option policydb) (rolemap : option (list N)) (e : ebitmap) : Prop :=
  match rolemap with
  | None => ebitmap_wf e
  | Some map => ∃ b, base = Some b ∧ roles_wf b e ∧ Forall (λ m, m < 2 ^ 32 - 64) map ∧
                     ∀ j, role_listed b e j → j < N.of_nat (length map)
  end.

Lemma map_roles_spec base rolemap e o :
  role_set_wf base rolemap e →
  wp (match rolemap with
      | Some map =>
          base ← deref base;
          roles ← expand_roles base e;
          match roles with
          | inl _ => mret (inl ebitmap_init)
          | inr roles => or_fail (map_ebitmap roles map)
          end
      | None => or_fail (ebitmap_cpy e)
      end) o (grows ebitmap_init (role_in base rolemap e) o).
Proof.
  destruct rolemap as [map|]; cbn [role_set_wf].
  - intros (b & -> & Hb & Hmap & Hlen). wp_step. apply wp_deref. exists b. split; [done|].
    wp_step. eapply wp_mono; [by apply expand_roles_spec|].
    intros [r|r] o1 [Ho1 Hr1]%grows_init; [wp_step; split; [naive_solver|done]|]. destruct Hr1 as [Hw Hbit].
    unfold or_fail. wp_step. eapply wp_mono; [apply map_ebitmap_spec; [done|split; [|done]]|].
    { intros i Hi. by apply Hlen, Hbit. }
    intros [rc m] o2 [Ho2 Hr2]. wp_step. cbn in *. destruct Hr2 as [(-> & Hwm & Hbm)| ->].
    + split; [intros H; split; [by apply Ho2, Ho1|by eexists]|]. split; [done|]. intros x. rewrite Hbm.
      unfold mapped. setoid_rewrite Hbit. cbn. naive_solver.
    + split; [|done]. intros H. apply Ho1, proj1, Ho2 in H as [_ H]. done.
  - intros Hw. unfold or_fail. wp_step. eapply wp_mono; [apply cpy_spec|]. intros [rc r] o' [Ho Hr]. wp_step.
    destruct Hr as [[= -> ->]|[= -> ->]]; cbn in *.
    + split; [naive_solver|]. split; [done|]. intros x. naive_solver.
    + split; [|done]. intros H. by apply Ho in H as [_ H].
Qed.

Lemma role_set_expand_spec x out base rolemap o :
  rs_flags x = 0 → role_set_wf base rolemap (rs_roles x) →
  wp (role_set_expand x out base rolemap) o (λ r o', r.2 = nprim (p_roles out) ∧
    expanded (role_in base rolemap (rs_roles x)) o r.1 o').
Proof.
  intros Hf Hw. unfold role_set_expand. rewrite Hf.
  change (truth (N.land 0 ROLE_STAR)) with false. change (truth (N.land 0 ROLE_COMP)) with false. cbv iota.
  wp_step. eapply wp_mono; [by apply map_roles_spec|].
  intros [r|m] o1 [Ho1 Hr1]%grows_init; [wp_step; split; [done|split; [naive_solver|by right]]|].
  destruct Hr1 as [Hw1 Hb1]. wp_step. eapply wp_mono.
  { apply (grows_bits _ (λ i x, x = i)); [done|apply ebitmap_init_wf| |done]. intros i acc o' Hi Hwa.
    apply grows_set; [done|]. pose proof (highbit_max _ Hw1). pose proof (ebitmap_bit_hi _ _ Hw1 Hi). lia. }
  intros [r|r] o2 [Ho2 Hr2]%grows_init; wp_step; (split; [done|]).
  - split; [naive_solver|by right].
  - destruct Hr2 as [Hw2 Hb2]. split; [naive_solver|]. left. split; [done|]. split; [done|].
    intros y. cbn. rewrite Hb2, <- Hb1. naive_solver.
Qed.

(** * The maps between types and attributes *)

(** A type or attribute of the symbol table; aliases share the value of
    their type. *)
Definition declared (p : policydb) (d : type_datum) : Prop :=
  ∃ h k, table (p_types p) = Some h ∧ (k, d) ∈ ht_entries h.

Record attrs_wf (p : policydb) (h : hashtab string type_datum) : Prop := {
  aw_table : table (p_types p) = Some h;
  aw_struct : ht_struct h;
  aw_count : nprim (p_types p) < 2 ^ 32 - 64;
  aw_value : ∀ d, declared p d → 0 < type_value d ≤ nprim (p_types p);
  aw_types : ∀ d, declared p d → flavor d = TYPE_ATTRIB →
    ebitmap_wf (td_types d) ∧ ∀ x, ebitmap_bit (td_types d) x = true → x < nprim (p_types p);
  aw_unique : ∀ d1 d2, declared p d1 → declared p d2 → flavor d1 = TYPE_ATTRIB →
    type_value d1 = type_value d2 → d1 = d2 }.

(** Attribute or type [a] has type [x], as the declarations [ds] say. *)
Definition has_type (ds : list type_datum) (a x : N) : Prop :=
  ∃ d, d ∈ ds ∧ type_value d = a + 1 ∧ if flavor d =? TYPE_ATTRIB then ebitmap_bit (td_types d) x = true else x = a.

Definition has_attr (ds : list type_datum) (x a : N) : Prop :=
  a = x ∨ ∃ d, d ∈ ds ∧ type_value d = a + 1 ∧ flavor d = TYPE_ATTRIB ∧ ebitmap_bit (td_types d) x = true.

(** An array of bitmaps that holds the relation [R]. *)
Definition rel_array (n : N) (l : list ebitmap) (R : N → N → Prop) : Prop :=
  N.of_nat (length l) = n ∧ ∀ i e, l !! N.to_nat i = Some e → ebitmap_wf e ∧ ∀ x, ebitmap_bit e x = true ↔ R i x.

Lemma rel_array_ext n l R R' : (∀ i x, i < n → R i x ↔ R' i x) → rel_array n l R → rel_array n l R'.
Proof.
  intros HR [Hn Hl]. split; [done|]. intros i e He. destruct (Hl i e He) as [Hw Hb]. split; [done|].
  intros x. rewrite Hb. apply HR. apply lookup_lt_Some in He. lia.
Qed.

(** Updating one bitmap updates the relation at one place. *)
Lemma rel_array_insert n l R R' v e :
  v < n → rel_array n l R → ebitmap_wf e → (∀ x, ebitmap_bit e x = true ↔ R' v x) →
  (∀ i x, i ≠ v → R i x ↔ R' i x) → rel_array n (<[N.to_nat v := e]> l) R'.
Proof.
  intros Hv [Hn Hl] Hw Hb HR. split; [by rewrite length_insert|]. intros i e' Hi.
  destruct (decide (i = v)) as [->|Hne].
  - rewrite list_lookup_insert_eq in Hi by lia. injection Hi as <-. done.
  - rewrite list_lookup_insert_ne in Hi by lia. destruct (Hl i e' Hi) as [Hw' Hb']. split; [done|].
    intros x. rewrite Hb'. by apply HR.
Qed.

Definition array_post (n : N) (R : N → N → Prop) (o : oracle) (r : Z * list ebitmap) (o' : oracle) : Prop :=
  (o = [] → o' = [] ∧ r.1 = 0%Z) ∧ ((r.1 = 0%Z ∧ rel_array n r.2 R) ∨ r.1 = (-1)%Z).

Lemma update_set_spec n l R v j o :
  rel_array n l R → v < n → j < 2 ^ 32 - 64 →
  wp (update_at l v (λ e, ebitmap_set_bit e j true)) o (array_post n (λ i x, R i x ∨ (i = v ∧ x = j)) o).
Proof.
  intros Hl Hv Hj. pose proof Hl as [Hlen Hent]. unfold update_at. wp_step. apply wp_deref.
  destruct (lookup_lt_is_Some_2 l (N.to_nat v)) as [e He]; [lia|]. exists e. split; [done|].
  destruct (Hent v e He) as [Hw Hb]. wp_step.
  eapply wp_mono; [apply set_bit_spec; [done|change (2 ^ 32 - 64) with 4294967232 in Hj; change (2 ^ 32) with 4294967296; lia]|].
  intros [rc e'] o' [Ho Hr]. wp_step. destruct Hr as [(Hrc & _ & Hw' & Hb')|[[_ ?]|[[= -> ->] _]]]; cbn in *; [subst| |]; [|lia|].
  - split; [naive_solver|]. left. split; [done|]. apply (rel_array_insert _ _ R); [done..| |].
    + intros x. rewrite Hb'. destruct (N.eqb_spec x j); [naive_solver|]. rewrite Hb. naive_solver.
    + naive_solver.
  - split; [|by right]. intros H. by apply Ho in H as [_ []].
Qed.

Lemma update_cpy_spec n l R v e o :
  rel_array n l R → v < n → ebitmap_wf e →
  wp (update_at l v (λ _, ebitmap_cpy e)) o
    (array_post n (λ i x, if decide (i = v) then ebitmap_bit e x = true else R i x) o).
Proof.
  intros Hl Hv He. pose proof Hl as [Hlen Hent]. unfold update_at. wp_step. apply wp_deref.
  destruct (lookup_lt_is_Some_2 l (N.to_nat v)) as [e0 He0]; [lia|]. exists e0. split; [done|].
  wp_step. eapply wp_mono; [apply cpy_spec|]. intros [rc e'] o' [Ho Hr]. wp_step.
  destruct Hr as [[= -> ->]|[= -> ->]]; cbn in *.
  - split; [naive_solver|]. left. split; [done|]. apply (rel_array_insert _ _ R); [done..| |].
    + intros x. by rewrite decide_True.
    + intros i x Hi. by rewrite decide_False.
  - split; [|by right]. intros H. by apply Ho in H as [_ H].
Qed.

(** The loop over the types of an attribute. *)
Lemma add_attribute_spec n l R v e o :
  rel_array n l R → ebitmap_wf e → (∀ x, ebitmap_bit e x = true → x < n) → v < 2 ^ 32 - 64 →
  wp (ebitmap_for_each_bit e l (λ i bit attrs,
        if negb bit then mret (inr attrs) else
        '(rc, attrs) ← update_at attrs i (λ e, ebitmap_set_bit e v true);
        mret (if bool_decide (rc ≠ 0%Z) then inl attrs else inr attrs))) o (λ r o',
    (o = [] → o' = [] ∧ ∃ l', r = inr l') ∧
    match r with
    | inl _ => True
    | inr l' => rel_array n l' (λ i x, R i x ∨ (ebitmap_bit e i = true ∧ x = v))
    end).
Proof.
  intros Hl He Hin Hv. unfold wp. rewrite for_each_bit_visited by done.
  apply (wp_for_list (λ done l' o', (o = [] → o' = []) ∧
           rel_array n l' (λ i x, R i x ∨ (i ∈ done ∧ ebitmap_bit e i = true ∧ x = v)))).
  - split; [done|]. eapply rel_array_ext; [|done]. intros i x _. rewrite elem_of_nil. naive_solver.
  - intros done i rest l' o' _ [Ho Hr]. destruct (ebitmap_bit e i) eqn:Hi; cbn [negb].
    + wp_step. eapply wp_mono; [eapply (update_set_spec n _ _ i v); [exact Hr|by apply Hin|done]|].
      intros [rc l2] o2 [Ho2 Hr2]. wp_step. cbn in *. destruct Hr2 as [[-> Hr2]| ->].
      * rewrite bool_decide_eq_false_2 by naive_solver. split; [naive_solver|]. eapply rel_array_ext; [|exact Hr2].
        intros y x _. cbn. rewrite elem_of_app, list_elem_of_singleton. naive_solver.
      * rewrite bool_decide_eq_true_2 by done. split; [|done]. intros H. by apply Ho, Ho2 in H as [_ H].
    + wp_step. split; [done|]. eapply rel_array_ext; [|exact Hr].
      intros y x _. cbn. rewrite elem_of_app, list_elem_of_singleton. split; [tauto|].
      intros [?|([?| ->] & Hy & ->)]; [tauto|tauto|congruence].
  - intros l' o' [Ho Hr]. split; [naive_solver|]. eapply rel_array_ext; [|exact Hr].
    intros i x _. cbn. split; [naive_solver|]. intros [?|[Hb ->]]; [by left|]. right. split; [by apply bit_position|done].
Qed.

Section attr_maps.
Context (p : policydb) (h : hashtab string type_datum) (Hp : attrs_wf p h).

Definition maps_hold (ds : list type_datum) (m : attr_maps) : Prop :=
  rel_array (nprim (p_types p)) (am_types m) (has_type ds) ∧
  rel_array (nprim (p_types p)) (am_attrs m) (has_attr ds).

Lemma type_attr_map_spec ds key d m o :
  declared p d → (∀ d', d' ∈ ds → declared p d') → maps_hold ds m →
  wp (type_attr_map_cb key d m) o (λ r o', (o = [] → o' = [] ∧ r.1 = 0%Z) ∧
    ((r.1 = 0%Z ∧ maps_hold (ds ++ [d]) r.2) ∨ r.1 = (-1)%Z)).
Proof.
  intros Hd Hds [Ht Ha]. pose proof (aw_count _ _ Hp) as Hc. pose proof (aw_value _ _ Hp d Hd) as Hv.
  change (2 ^ 32 - 64) with 4294967232 in Hc. unfold type_attr_map_cb.
  rewrite dec32_pred by (change (2 ^ 32) with 4294967296; lia).
  assert (type_value d - 1 + 1 = type_value d) as Hv1 by lia.
  destruct (N.eqb_spec (flavor d) TYPE_ATTRIB) as [Hf|Hf].
  - destruct (aw_types _ _ Hp d Hd Hf) as [Hw Hb]. wp_step.
    eapply wp_mono; [apply update_cpy_spec; [exact Ht|lia|done]|]. intros [rc types] o1 [Ho1 Hr1]. cbn in *.
    destruct Hr1 as [[-> Hr1]| ->]; [|rewrite bool_decide_eq_true_2 by done; wp_step; split; [naive_solver|by right]].
    rewrite bool_decide_eq_false_2 by naive_solver. wp_step.
    eapply wp_mono; [apply add_attribute_spec; [exact Ha|done|done|change (2 ^ 32 - 64) with 4294967232; lia]|].
    intros [attrs|attrs] o2 [Ho2 Hr2]; wp_step; (split; [naive_solver|]); [by right|]. left. split; [done|].
    split; cbn; (eapply rel_array_ext; [|exact Hr1 || exact Hr2]); cbn.
    + intros i x Hi. unfold has_type. destruct (decide (i = type_value d - 1)) as [->|Hne].
      * split; [intros Hx; exists d; rewrite elem_of_app, list_elem_of_singleton, Hf; naive_solver|].
        intros (d' & [Hin| ->%list_elem_of_singleton]%elem_of_app & Hd' & Hx).
        -- assert (d = d') as <- by (apply (aw_unique _ _ Hp); [done|by apply Hds|done|lia]). by rewrite Hf in Hx.
        -- by rewrite Hf in Hx.
      * split; [intros (d' & ? & ?); exists d'; rewrite elem_of_app; naive_solver|].
        intros (d' & [Hin| ->%list_elem_of_singleton]%elem_of_app & Hd' & Hx); [by exists d'|lia].
    + intros x a Hi. unfold has_attr. setoid_rewrite elem_of_app. setoid_rewrite list_elem_of_singleton. split.
      * intros [[?|(d' & ? & ?)]|[? ->]]; [by left|right; exists d'; naive_solver|]. right. exists d. naive_solver.
      * intros [?|(d' & [Hin| ->] & Hva & ? & ?)]; [naive_solver|left; right; exists d'; naive_solver|].
        right. split; [done|lia].
  - wp_step. eapply wp_mono; [apply update_set_spec; [exact Ht|lia|change (2 ^ 32 - 64) with 4294967232; lia]|].
    intros [rc types] o1 [Ho1 Hr1]. wp_step. cbn in *. split; [naive_solver|].
    destruct Hr1 as [[-> Hr1]| ->]; [|by right]. left. split; [done|]. apply N.eqb_neq in Hf.
    split; cbn; [eapply rel_array_ext; [|exact Hr1]|eapply rel_array_ext; [|exact Ha]]; cbn.
    + intros i x Hi. unfold has_type. setoid_rewrite elem_of_app. setoid_rewrite list_elem_of_singleton. split.
      * intros [(d' & ? & ?)|[-> ->]]; [exists d'; naive_solver|]. exists d. rewrite Hf. naive_solver.
      * intros (d' & [Hin| ->] & Hva & Hx); [left; by exists d'|]. rewrite Hf in Hx. right. split; lia.
    + intros x a Hi. unfold has_attr. setoid_rewrite elem_of_app. setoid_rewrite list_elem_of_singleton.
      apply N.eqb_neq in Hf. split.
      * intros [?|(d' & ? & ?)]; [by left|]. right. exists d'. tauto.
      * intros [?|(d' & [?| ->] & Hr)]; [by left|right; by exists d'|]. by destruct Hf, Hr as (_ & ? & _).
Qed.

Lemma init_attrs_spec o :
  wp (for_up (λ i attrs,
        '(rc, e) ← ebitmap_set_bit ebitmap_init i true;
        mret (if bool_decide (rc ≠ 0%Z) then inl attrs else inr (attrs ++ [e])))
        (N.to_nat (nprim (p_types p))) 0 []) o (λ (r : list ebitmap + list ebitmap) o',
    (o = [] → o' = [] ∧ ∃ l, r = inr l) ∧
    match r with inl _ => True | inr l => rel_array (nprim (p_types p)) l (λ i x, x = i) end).
Proof.
  pose proof (aw_count _ _ Hp) as Hc. change (2 ^ 32 - 64) with 4294967232 in Hc.
  apply (wp_for_up (λ i l o', (o = [] → o' = []) ∧ rel_array i l (λ i x, x = i))).
  - split; [done|]. split; [done|]. by intros i e Hi.
  - intros i l o1 Hi [Ho [Hlen Hl]]. wp_step.
    eapply wp_mono; [apply set_bit_spec; [apply ebitmap_init_wf|change (2 ^ 32) with 4294967296; lia]|].
    intros [rc e] o2 [Ho2 Hr]. wp_step.
    destruct Hr as [(Hrc & _ & Hw & Hb)|[[_ Hbig]|[[= -> ->] _]]]; cbn in *; [subst rc| |].
    + rewrite bool_decide_eq_false_2 by naive_solver. split; [naive_solver|].
      split; [rewrite length_app; cbn; lia|]. intros j e' [Hj|[Hj He]]%lookup_app_Some; [by apply Hl|].
      destruct (N.to_nat j - length l)%nat eqn:E; [|done]. injection He as <-. split; [done|].
      intros x. rewrite Hb. destruct (N.eqb_spec x i); [split; [lia|done]|]. split; [done|lia].
    + change (2 ^ 32 - 64) with 4294967232 in Hbig. lia.
    + rewrite bool_decide_eq_true_2 by done. split; [|done]. intros H. by apply Ho, Ho2 in H as [_ []].
  - intros l o1 [Ho Hl]. rewrite N.add_0_l, N2Nat.id in Hl. split; [naive_solver|done].
Qed.

Lemma build_attr_maps_spec o :
  wp (build_attr_maps p) o (λ r o', (o = [] → r.1 = 0%Z) ∧
    (r.1 = 0%Z → ∃ m, r.2 = Some m ∧ maps_hold (ht_entries h).*2 m)).
Proof.
  unfold build_attr_maps. wp_step. wp_step. intros b1 o1 H1. wp_step. wp_step. intros b2 o2 H2.
  destruct (b1 && b2) eqn:Eb; cbn [negb]; [|wp_step; split; [|done]; intros H; cbn].
  2: { exfalso. destruct (H1 H) as [-> H1']. destruct (H2 H1') as [-> _]. done. }
  assert (o = [] → o2 = []) as Ho by naive_solver. clear H1 H2.
  wp_step. eapply wp_mono; [apply init_attrs_spec|].
  intros [l|l] o3 [Ho3 Hl]; [wp_step; split; [intros H%Ho%Ho3; naive_solver|done]|].
  rewrite (aw_table _ _ Hp). wp_step. unfold wp at 1. rewrite map_spec by apply Hp. rewrite bind_run.
  assert (∀ d, d ∈ (ht_entries h).*2 → declared p d) as Hdecl.
  { intros d ([k d'] & -> & Hin)%list_elem_of_fmap. exists h, k. split; [apply Hp|done]. }
  match goal with |- match match ?chain ?orc with _ => _ end with _ => _ end => assert (wp chain orc (λ r o',
    (o3 = [] → o' = [] ∧ ∃ m, r = inr m) ∧
    match r with inl x => x.1 ≠ 0%Z | inr m => maps_hold (ht_entries h).*2 m end)) as Hrun end.
  { unfold map_chain. apply (wp_for_list (λ done m o', (o3 = [] → o' = []) ∧ maps_hold done.*2 m)).
    - split; [done|]. split; cbn.
      + split; [rewrite length_replicate; lia|]. intros i e [-> _]%lookup_replicate. split; [apply ebitmap_init_wf|].
        intros x. split; [done|]. by intros (d & ?%elem_of_nil & _).
      + eapply rel_array_ext; [|exact Hl]. intros i x _. unfold has_attr. split; [by left|].
        intros [?|(d & ?%elem_of_nil & _)]; done.
    - intros dn [k d] rest m o4 Hsplit [Ho4 Hm]. wp_step. cbn [fst snd].
      eapply wp_mono; [apply (type_attr_map_spec dn.*2); [| |exact Hm]|].
      + apply Hdecl. rewrite Hsplit, fmap_app. apply elem_of_app. right. left.
      + intros d' Hd'. apply Hdecl. rewrite Hsplit, fmap_app. apply elem_of_app. by left.
      + intros [rc m'] o5 [Ho5 Hr]. wp_step. cbn in *. destruct Hr as [[-> Hm']| ->]; cbn.
        * split; [naive_solver|]. by rewrite fmap_app.
        * split; [|done]. intros H. by apply Ho4, Ho5 in H as [_ H].
    - intros m o4 [Ho4 Hm]. split; [naive_solver|done]. }
  unfold wp in Hrun. destruct (map_chain _ _ _ o3) as [[[rc m]|m] o4|]; [..|done]; cbn in Hrun |- *;
    destruct Hrun as [Ho4 Hm]; cbn.
  - destruct (Z.eqb_spec rc 0); [done|]. split; [|done]. intros H%Ho%Ho3. naive_solver.
  - split; [done|]. intros _. by exists m.
Qed.

End attr_maps.

(** Through the attributes of a type the types of those attributes come back to
    it: the two maps are inverse on declared types. *)
Definition maps_inverse (is_type : N → Prop) (m : attr_maps) : Prop :=
  ∀ x a ex ea, is_type x → am_attrs m !! N.to_nat x = Some ex → am_types m !! N.to_nat a = Some ea →
    ebitmap_bit ex a = true ↔ ebitmap_bit ea x = true.

Definition declared_type (p : policydb) (x : N) : Prop :=
  ∃ d, declared p d ∧ type_value d = x + 1 ∧ flavor d ≠ TYPE_ATTRIB.

(** * Levels *)

Definition in_cat_range (c : mls_semantic_cat) (x : N) : Prop := low c ≤ x + 1 ≤ high c.

(** Every range is in order and within the categories of the sensitivity. *)
Definition cat_ranges_wf (lev : mls_level) (l : list mls_semantic_cat) : Prop :=
  ebitmap_wf (cat lev) ∧ Forall (λ c, 0 < low c ≤ high c ∧ high c < 2 ^ 32 - 64 ∧
    ∀ x, in_cat_range c x → ebitmap_bit (cat lev) x = true) l.

Lemma expand_cat_spec p sens lev c cats o :
  cat_ranges_wf lev [c] → ebitmap_wf cats →
  wp (expand_cat p sens lev c cats) o (grows cats (in_cat_range c) o).
Proof.
  intros [Hlev Hc] Hw. apply Forall_singleton in Hc as (Hlow & Hhigh & Hin).
  change (2 ^ 32 - 64) with 4294967232 in Hhigh. unfold expand_cat.
  rewrite (proj2 (N.ltb_ge (high c) (low c))) by lia.
  rewrite (dec32_pred (low c)) by (change (2 ^ 32) with 4294967296; lia).
  unfold wp. rewrite <- for_up_seqN. eapply (wp_mono (for_list _ _ _)).
  - apply (grows_list _ (λ i x, x = i)); [done|]. intros i acc o' Hi%elem_of_seqN Hwa.
    rewrite get_bit_wf, Hin by (done || unfold in_cat_range; lia). cbn [negb].
    apply grows_set; [done|change (2 ^ 32 - 64) with 4294967232; lia].
  - intros r o'. apply grows_ext. intros x. setoid_rewrite elem_of_seqN. unfold in_cat_range. split.
    + intros (i & Hi & ->). lia.
    + intros Hx. exists x. split; [lia|done].
Qed.

Lemma semantic_level_spec p sl name h ld o :
  mls p = true → 0 < sem_sens sl < 2 ^ 32 → p_sens_val_to_name p !! N.to_nat (sem_sens sl - 1) = Some (Some name) →
  table (p_levels p) = Some h → ht_struct h → ht_map h !! name = Some ld →
  cat_ranges_wf (level ld) (sem_cat sl) →
  wp (mls_semantic_level_expand sl false p) o (λ r o',
    sens r.2 = sem_sens sl ∧ expanded (λ x, ∃ c, c ∈ sem_cat sl ∧ in_cat_range c x) o (r.1, cat r.2) o').
Proof.
  intros Hmls Hs Hname Hh Hht Hld Hwf. unfold mls_semantic_level_expand. rewrite Hmls. cbn [negb].
  rewrite (proj2 (N.eqb_neq (sem_sens sl) 0)), dec32_pred by lia.
  wp_step. apply wp_deref. eexists. split; [done|]. wp_step. apply wp_deref. eexists. split; [done|].
  wp_step. unfold wp at 1. rewrite Hh, search_spec, Hld by done.
  wp_step. eapply wp_mono; [apply (grows_list _ in_cat_range); [apply ebitmap_init_wf|]|].
  - intros c acc o1 Hc Hw. apply expand_cat_spec; [|done]. destruct Hwf as [? Hall]. split; [done|].
    rewrite Forall_forall in Hall. apply Forall_singleton. by apply Hall.
  - intros r o1 [Ho Hr]%grows_init. wp_step. pose proof (loop_expanded _ _ r o o1 Ho Hr (λ x, iff_refl _)) as Hex.
    by destruct r.
Qed.

(** * Theorems *)

(** [type_set_expand] computes the types a type set stands for: the listed
    types and the types of the listed attributes, less the excluded ones; every
    type that is not excluded for a star; the complement for a complement.  It
    fails only when memory is short, and its assertion never fails. *)
Theorem type_set_expand_exact p set always o :
  types_wf p → type_set_wf p set →
  wp (type_set_expand set p always) o (expanded (type_in p always set) o).
Proof. intros Hp. by apply type_set_expand_spec. Qed.

(** [role_set_expand] of a role set without flags computes the roles that
    the set stands for, role attributes replaced by their roles, in the
    numbering of the output policy. *)
Theorem role_set_expand_exact x out base rolemap o :
  rs_flags x = 0 → role_set_wf base rolemap (rs_roles x) →
  wp (role_set_expand x out base rolemap) o (λ r o', r.2 = nprim (p_roles out) ∧
    expanded (role_in base rolemap (rs_roles x)) o r.1 o').
Proof. apply role_set_expand_spec. Qed.

(** A role set with a star is never expanded to the roles of the policy.
    The loop increments the number of roles it compares with, so it ends only
    when a counter overflows: either the call fails, or it has set every bit
    below [2^32] less the number of roles and has set that number to 1. *)
Theorem role_star_overruns x out base rolemap o :
  truth (N.land (rs_flags x) ROLE_STAR) = true → 0 < nprim (p_roles out) → nprim (p_roles out) < 2 ^ 32 →
  wp (role_set_expand x out base rolemap) o (λ '(rc, r, n) o',
    rc = 0%Z → n = 1 ∧ ∀ i, i < 2 ^ 32 - nprim (p_roles out) → ebitmap_bit r i = true).
Proof.
  intros Hf H0 H32. unfold role_set_expand. rewrite Hf. wp_step.
  eapply wp_mono; [by apply role_star_run|]. intros r o' (rc & e & n & -> & H). by wp_step.
Qed.

(** The types that the attribute or type [d] has: those an attribute lists,
    and a type or alias has itself. *)
Definition types_of (d : type_datum) (x : N) : Prop :=
  if flavor d =? TYPE_ATTRIB then ebitmap_bit (td_types d) x = true else type_value d = x + 1.

(** The attributes of type [x]: itself, and the attributes that list it. *)
Definition attributes_of (p : policydb) (x a : N) : Prop :=
  a = x ∨ ∃ d, declared p d ∧ flavor d = TYPE_ATTRIB ∧ type_value d = a + 1 ∧ ebitmap_bit (td_types d) x = true.

Lemma declared_entry p h d : attrs_wf p h → declared p d ↔ d ∈ (ht_entries h).*2.
Proof.
  intros Hp. rewrite list_elem_of_fmap. split.
  - intros (h' & k & Hh & Hin). rewrite (aw_table _ _ Hp) in Hh. injection Hh as <-. by exists (k, d).
  - intros ([k d'] & -> & ?). exists h, k. split; [apply Hp|done].
Qed.

(** C32: the two maps that [expand_module] builds between types and attributes
    hold exactly what the symbol table says.  With memory the maps are built;
    whenever they are, both have a cell for every number, the cell of an
    attribute in [attr_type_map] has the types it lists, that of a type the
    type itself, and the cell of a type in [type_attr_map] has the type and the
    attributes that list it.  So the maps are inverse on the declared types,
    which the assertion checker relies on when it looks at rules from the
    attribute's side. *)
Theorem attr_maps_exact p h o :
  attrs_wf p h →
  wp (build_attr_maps p) o (λ r o', (o = [] → r.1 = 0%Z) ∧
    (r.1 = 0%Z → ∃ m, r.2 = Some m ∧ rel_array (nprim (p_types p)) (am_attrs m) (attributes_of p) ∧
      N.of_nat (length (am_types m)) = nprim (p_types p) ∧
      (∀ d e, declared p d → am_types m !! N.to_nat (type_value d - 1) = Some e →
         ebitmap_wf e ∧ ∀ x, ebitmap_bit e x = true ↔ types_of d x) ∧
      maps_inverse (declared_type p) m)).
Proof.
  intros Hp. eapply wp_mono; [by apply build_attr_maps_spec|]. intros r o' [Ho Hr]. split; [done|].
  intros (m & Hm & Ht & Ha)%Hr. exists m. split; [done|].
  assert (∀ x a, has_attr (ht_entries h).*2 x a ↔ attributes_of p x a) as Hattr.
  { intros x a. unfold has_attr, attributes_of. setoid_rewrite (declared_entry p h _ Hp). naive_solver. }
  split; [by eapply rel_array_ext; [|exact Ha]|]. split; [apply Ht|]. split.
  - intros d e Hd He. destruct (proj2 Ht _ _ He) as [Hw Hb]. split; [done|]. intros x. rewrite Hb.
    pose proof (aw_value _ _ Hp d Hd) as Hv. unfold has_type, types_of. split.
    + intros (d' & Hd' & Hv' & Hx). rewrite <- (declared_entry p h _ Hp) in Hd'.
      destruct (N.eqb_spec (flavor d') TYPE_ATTRIB) as [Hf'|Hf'].
      * rewrite <- (aw_unique _ _ Hp d' d) by (done || lia). by rewrite (proj2 (N.eqb_eq _ _) Hf').
      * destruct (N.eqb_spec (flavor d) TYPE_ATTRIB) as [Hf|Hf]; [|lia].
        destruct Hf'. by rewrite <- (aw_unique _ _ Hp d d') by (done || lia).
    + intros Hx. exists d. rewrite <- (declared_entry p h _ Hp). split; [done|]. split; [lia|].
      destruct (flavor d =? TYPE_ATTRIB); [done|lia].
  - intros x a ex ea (d & Hd & Hv & Hf) Hex Hea.
    rewrite (proj2 (proj2 Ha _ _ Hex)), (proj2 (proj2 Ht _ _ Hea)), Hattr. rewrite (declared_entry p h _ Hp) in Hd. split.
    + intros [-> |(d' & Hd' & Hf' & Hva & Hb)].
      * exists d. by rewrite (proj2 (N.eqb_neq _ _) Hf).
      * exists d'. rewrite <- (declared_entry p h _ Hp). by rewrite Hf'.
    + intros (d' & Hd' & Hva & Hb). rewrite <- (declared_entry p h _ Hp) in Hd'.
      destruct (N.eqb_spec (flavor d') TYPE_ATTRIB) as [Hf'|Hf']; [|by left]. right. by exists d'.
Qed.

(** ** Examples *)

(** Two types and an attribute of both. *)
Definition ex_attr_d : type_datum := TypeDatum 3 1 TYPE_ATTRIB (EBitmap [EBNode 0 3] 64) 0 0.

Definition with_types (p : policydb) (l : list (string * type_datum)) (m : attr_maps) (te : avtab) : policydb := {|
  mls := mls p; p_commons := p_commons p; p_classes := p_classes p; p_roles := p_roles p;
  p_types := ex_table l (N.of_nat (length l)); p_users := p_users p; p_bools := p_bools p; p_levels := p_levels p;
  p_cats := p_cats p; p_class_val_to_name := p_class_val_to_name p;
  p_role_val_to_name := p_role_val_to_name p; p_type_val_to_name := map (λ x, Some x.1) l;
  p_user_val_to_name := p_user_val_to_name p; p_sens_val_to_name := p_sens_val_to_name p;
  p_cat_val_to_name := p_cat_val_to_name p; class_val_to_struct := class_val_to_struct p;
  role_val_to_struct := role_val_to_struct p; user_val_to_struct := user_val_to_struct p;
  type_val_to_struct := map (λ x, Some x.2) l; bool_val_to_struct := bool_val_to_struct p; te_avtab := te;
  te_cond_avtab := te_cond_avtab p; cond_list := cond_list p; role_tr := role_tr p; role_allows := role_allows p;
  range_tr := range_tr p; type_attr_map := am_attrs m; attr_type_map := am_types m |}.

Definition ex_types : list (string * type_datum) :=
  [("a_t", ex_type 1); ("b_t", ex_type 2); ("c_attr", ex_attr_d)]%string.

Definition ex_attr_policy : policydb := with_types ex_policy ex_types (AttrMaps [] []) ex_te_avtab.

(** The attribute but not the second type. *)
Definition ex_type_set (flags : N) : type_set := TypeSet (EBitmap [EBNode 0 4] 64) (EBitmap [EBNode 0 2] 64) flags.

(** A property of all bits of a bitmap, to be decided word by word. *)
Lemma bits_all e (P : N → Prop) :
  Forall (λ i, ebitmap_bit e i = true → P i) (ebitmap_positions e) → ∀ i, ebitmap_bit e i = true → P i.
Proof. rewrite Forall_forall. intros H i Hi. apply H; [by apply bit_position|done]. Qed.

Lemma ex_types_wf : types_wf ex_attr_policy.
Proof.
  split; [done|done|]. intros i d Hd Hf. unfold type_at in Hd.
  destruct (N.to_nat i) as [|[|[|n]]]; cbn in Hd; try (injection Hd as <-; try discriminate Hf); [|done].
  split; [by_decide|]. apply bits_all. by_decide.
Qed.

Lemma ex_type_set_wf flags : type_set_wf ex_attr_policy (ex_type_set flags).
Proof. split; [by_decide|by_decide|apply bits_all; by_decide|apply bits_all; by_decide]. Qed.

Lemma type_set_expand_exact_witness :
  wp (type_set_expand (ex_type_set 0) ex_attr_policy true) [] (expanded (type_in ex_attr_policy true (ex_type_set 0)) []) ∧
  type_set_expand (ex_type_set 0) ex_attr_policy true [] = Ret (0%Z, EBitmap [EBNode 0 1] 64) [] ∧
  type_set_expand (ex_type_set TYPE_COMP) ex_attr_policy true [] = Ret (0%Z, EBitmap [EBNode 0 2] 64) [].
Proof.
  split; [apply type_set_expand_exact; [apply ex_types_wf|apply ex_type_set_wf]|]. by vm_compute.
Defined.

(** Role 2 of the module is role 1 of the output. *)
Lemma role_set_expand_exact_witness :
  wp (role_set_expand (RoleSet (EBitmap [EBNode 0 2] 64) 0) ex_policy (Some ex_policy) (Some [0; 1])) []
    (λ r o', r.2 = nprim (p_roles ex_policy) ∧
       expanded (role_in (Some ex_policy) (Some [0; 1]) (EBitmap [EBNode 0 2] 64)) [] r.1 o') ∧
  role_set_expand (RoleSet (EBitmap [EBNode 0 2] 64) 0) ex_policy (Some ex_policy) (Some [0; 1]) [] =
    Ret (0%Z, EBitmap [EBNode 0 1] 64, 2) [].
Proof.
  split; [|by vm_compute].
  apply (role_set_expand_exact (RoleSet (EBitmap [EBNode 0 2] 64) 0)); [done|]. exists ex_policy.
  assert (∀ i, ebitmap_bit (EBitmap [EBNode 0 2] 64) i = true → i = 1) as H1 by (apply bits_all; by_decide).
  split; [done|]. split; [|split; [by_decide|]].
  - split; [by_decide|]. intros i ->%H1. exists (ex_role 2). split; [done|by_decide].
  - intros j (i & d & ->%H1 & Hd & Hj). injection Hd as <-. cbn in Hj. subst. done.
Defined.

Lemma role_star_overruns_witness :
  wp (role_set_expand (RoleSet ebitmap_init ROLE_STAR) ex_policy None None) [] (λ '(rc, r, n) o',
    rc = 0%Z → n = 1 ∧ ∀ i, i < 2 ^ 32 - 2 → ebitmap_bit r i = true).
Proof. apply (role_star_overruns (RoleSet ebitmap_init ROLE_STAR) ex_policy); done. Defined.

(** The complement of a role set inverts the words of its bitmap, not the
    roles of the policy, and stops when the bitmap becomes empty.  With two
    roles, the complement of the first is empty, and the complement of the
    second has the first and 62 roles that do not exist. *)
Example role_complement_wrong :
  role_set_expand (RoleSet (EBitmap [EBNode 0 1] 64) ROLE_COMP) ex_policy None None [] =
    Ret (0%Z, EBitmap [] 0, 2) [] ∧
  role_set_expand (RoleSet (EBitmap [EBNode 0 2] 64) ROLE_COMP) ex_policy None None [] =
    Ret (0%Z, EBitmap [EBNode 0 (2 ^ 64 - 3)] 64, 2) [].
Proof. split; by vm_compute. Qed.

Lemma ex_attrs_wf : attrs_wf ex_attr_policy (Hashtab [ex_types] 1 3 symhash symcmp).
Proof.
  assert (∀ d, declared ex_attr_policy d → d = ex_type 1 ∨ d = ex_type 2 ∨ d = ex_attr_d) as Hall.
  { intros d (h & k & [= <-] & Hin). unfold ht_entries in Hin. cbn in Hin. rewrite !elem_of_cons, elem_of_nil in Hin.
    naive_solver. }
  split; [done|ex_struct|done| | |].
  - intros d [-> |[-> | ->]]%Hall; done.
  - intros d [-> |[-> | ->]]%Hall Hf; try discriminate Hf. split; [by_decide|]. apply bits_all. by_decide.
  - intros d1 d2 [-> |[-> | ->]]%Hall [-> |[-> | ->]]%Hall Hf Hv; done.
Qed.

Lemma attr_maps_exact_witness :
  (∃ m, build_attr_maps ex_attr_policy [] = Ret (0%Z, Some m) [] ∧
    rel_array 3 (am_attrs m) (attributes_of ex_attr_policy) ∧ maps_inverse (declared_type ex_attr_policy) m) ∧
  build_attr_maps ex_attr_policy [] =
    Ret (0%Z, Some (AttrMaps [EBitmap [EBNode 0 1] 64; EBitmap [EBNode 0 2] 64; EBitmap [EBNode 0 3] 64]
                             [EBitmap [EBNode 0 5] 64; EBitmap [EBNode 0 6] 64; EBitmap [EBNode 0 4] 64])) [].
Proof.
  pose proof (attr_maps_exact _ _ [] ex_attrs_wf) as H. split; [|by vm_compute].
  unfold wp in H.
  destruct (build_attr_maps ex_attr_policy []) as [[rc m] o'|] eqn:E; [|done].
  destruct H as [H0 H]. cbn in *. specialize (H0 eq_refl). subst rc. destruct (H eq_refl) as (m' & -> & Ha & _ & _ & Hi).
  exists m'. split; [|done]. assert (o' = []) as -> by (by vm_compute in E; injection E). done.
Defined.

(** When the high level cannot be expanded, the low level of the source range
    is freed: expanding the range once more reads freed memory. *)
Example semantic_range_freed :
  let sr := SemRange (SemLevel 1 [SemCat 1 1]) (SemLevel 1 [SemCat 4 4]) in
  (∃ levels, mls_semantic_range_expand (SemSource sr false) ex_policy [] = Ret ((-1)%Z, levels, SemSource sr true) []) ∧
  mls_semantic_range_expand (SemSource sr true) ex_policy [] = UB.
Proof. split; [eexists|]; by vm_compute. Qed.
