(* ===== verification/Util.v ===== *)
(** Names of permissions for messages: libsepol/src/util.c, sepol_av_to_string. *)

From S2P Require Import Prelude Ebitmap Hashtab MlsTypes Avtab Policydb Mls.
Local Open Scope N_scope.

(** The callback looks for the permission with value [v] and stops there. *)
Definition perm_name (v : N) (key : string) (perdatum : perm_datum) (name : option string)
    : M (Z * option string) :=
  mret (if v =? perm_value perdatum then (1%Z, Some key) else (0%Z, name)).

Definition AVBUF_LEN : N := 1024.

(** The name of one permission: of the class, else of its common. *)
Definition find_perm_name (cladatum : class_datum) (v : N) : M (Z * option string) :=
  '(rc, name) ← hashtab_map (table (class_permissions cladatum)) (perm_name v) None;
  match comdatum cladatum with
  | Some com => if (rc =? 0)%Z then hashtab_map (table (common_permissions com)) (perm_name v) name
                else mret (rc, name)
  | None => mret (rc, name)
  end.

(** One round of the loop: [perm] is the last name that was found, which is
    not reset, and [text] what was printed into the buffer so far ([None]:
    nothing). *)
Definition av_string_round (cladatum : class_datum) (av : N) (i : N) (s : option string * option string)
    : M (option string + (option string * option string)) :=
  let '(perm, text) := s in
  if 31 <? i then ub else
  if negb (truth (N.land av (N.shiftl 1 i))) then mret (inr (perm, text)) else
  '(rc, name) ← find_perm_name cladatum (i + 1);
  let perm := if (rc =? 0)%Z then perm else name in
  match perm with
  | None => mret (inr (perm, text))
  | Some s =>
      let old := default ""%string text in
      let new := (old +:+ " " +:+ s)%string in
      mret (if AVBUF_LEN <=? N.of_nat (String.length new)
            then inl (Some (String.substring 0 (N.to_nat (AVBUF_LEN - 1)) new)) else inr (perm, Some new))
  end.

(** The static buffer [avbuf] keeps its contents between calls; the result is
    the string returned, NULL for a text that does not fit, and the buffer. *)
Definition sepol_av_to_string (p : policydb) (tclass av : N) (avbuf : string) : M (option string * string) :=
  cladatum ← at_ptr (class_val_to_struct p) (dec32 tclass);
  r ← for_up (av_string_round cladatum av) (N.to_nat (nprim (class_permissions cladatum))) 0 (None, None);
  mret match r with
       | inl text => (None, default avbuf text)
       | inr (_, text) => (Some (default avbuf text), default avbuf text)
       end.

(** * It is defined *)

Definition tables_wf (cd : class_datum) : Prop :=
  nprim (class_permissions cd) ≤ 32 ∧
  match table (class_permissions cd) with Some h => ht_struct h | None => True end ∧
  match comdatum cd with
  | Some com => match table (common_permissions com) with Some h => ht_struct h | None => True end
  | None => True
  end.

Lemma perm_map_run (h : option (hashtab string perm_datum)) v name o :
  match h with Some h => ht_struct h | None => True end →
  ∃ r, hashtab_map h (perm_name v) name o = Ret r o.
Proof.
  destruct h as [h|]; [|by eexists]. intros Hs. rewrite map_spec by done. rewrite bind_run.
  unfold map_chain. generalize (ht_entries h). intros l. revert name.
  induction l as [|[k d] l IH]; intros name; [by eexists|]. cbn [for_list]. rewrite !bind_run.
  unfold perm_name. cbn [fst snd]. destruct (v =? perm_value d); cbn; [by eexists|]. apply IH.
Qed.

Lemma find_perm_name_run cd v o : tables_wf cd → ∃ r, find_perm_name cd v o = Ret r o.
Proof.
  intros (_ & Hp & Hc). unfold find_perm_name. rewrite bind_run.
  destruct (perm_map_run _ v None o Hp) as [[rc name] ->].
  destruct (comdatum cd) as [com|]; [|by eexists]. destruct (rc =? 0)%Z; [by apply perm_map_run|by eexists].
Qed.

Lemma av_to_string_run p tclass cd av avbuf o :
  0 < tclass → tclass < 2 ^ 32 → class_val_to_struct p !! N.to_nat (tclass - 1) = Some (Some cd) → tables_wf cd →
  ∃ r, sepol_av_to_string p tclass av avbuf o = Ret r o.
Proof.
  intros H0 H32 Hcd Hwf. unfold sepol_av_to_string. rewrite dec32_pred, bind_run, (at_ptr_ok _ _ cd) by done.
  rewrite bind_run. destruct Hwf as [Hn Hwf']. pose proof (conj Hn Hwf') as Hwf.
  assert (∀ n i s, i + N.of_nat n ≤ 32 → ∃ r, for_up (av_string_round cd av) n i s o = Ret r o) as Hloop.
  { intros n. induction n as [|n IH]; intros i [perm text] Hi; [by eexists|]. cbn [for_up]. rewrite bind_run.
    assert (∃ r, av_string_round cd av i (perm, text) o = Ret r o) as [[x|s] ->]; [|by eexists|apply IH; lia].
    unfold av_string_round. destruct (N.ltb_spec 31 i); [lia|]. destruct (negb _); [by eexists|].
    rewrite bind_run. destruct (find_perm_name_run cd (i + 1) o Hwf) as [[rc name] ->].
    destruct (if (rc =? 0)%Z then perm else name); by eexists. }
  destruct (Hloop (N.to_nat (nprim (class_permissions cd))) 0 (None, None)) as [[x|[perm text]] ->]; [lia|by eexists..].
Qed.

(** A permission without a name prints as the one before it, and a mask
    without permissions as whatever the previous call printed. *)
Example av_to_string_stale :
  let cd := ClassDatum 1 None None (ex_table [("read", PermDatum 1)]%string 2) [] [] 0 0 0 0 in
  (∃ buf, (r ← for_up (av_string_round cd 3) 2 0 (None, None); mret r) [] = Ret (inr (Some "read", Some buf))%string [] ∧
     buf = " read read"%string) ∧
  sepol_av_to_string ex_policy 1 0 "stale" [] = Ret (Some "stale", "stale")%string [].
Proof. split; [eexists; split; by vm_compute|by vm_compute]. Qed.
