(* ===== verification/Assertion.v ===== *)
(** Neverallow rules: libsepol/src/assertion.c.

    A neverallow rule forbids permissions between sets of types.  The checker
    goes over every rule of the two rule tables of an expanded policy and looks
    for a source and a target that both the rule and the assertion cover; when
    there is one it goes over the tables again to report it. *)

From S2P Require Import Prelude Ebitmap Hashtab MlsTypes Avtab Policydb Mls Context Conditional Services Expand Util.
Local Open Scope N_scope.

Definition AVRULE_ALLOWED : N := 1.
Definition AVRULE_NEVERALLOW : N := 128.
Definition AVRULE_XPERMS_NEVERALLOW : N := 2048.
Definition RULE_SELF : N := 1.
Definition EXTENDED_PERMS_LEN : N := 8.
Definition AVRULE_XPERMS_IOCTLFUNCTION : N := 1.
Definition AVRULE_XPERMS_IOCTLDRIVER : N := 2.
Definition AVTAB_XPERMS_IOCTLFUNCTION : N := 1.
Definition AVTAB_XPERMS_IOCTLDRIVER : N := 2.

Record class_perm_node := ClassPerm { cp_tclass : N; cp_data : N }.

Record av_extended_perms := AvXPerms { ax_specified : N; ax_driver : N; ax_perms : list N }.

(** The lines and file names of a rule, which only messages use, are left
    out. *)
Record avrule := AvRule {
  ar_specified : N; ar_flags : N; ar_stypes : type_set; ar_ttypes : type_set;
  ar_perms : list class_perm_node; ar_xperms : option av_extended_perms }.

(** * Loops over the matches of a key, with a break *)

Fixpoint match_loop {R St} (fuel : nat) (node : option (list avtab_node)) (spec : N)
    (body : avtab_node → St → M (R + St)) (s : St) : M (R + St) :=
  match node with
  | None => mret (inr s)
  | Some [] => ub
  | Some ((n :: _) as cur) =>
      match fuel with
      | O => ub
      | S fuel' =>
          r ← body n s;
          match r with
          | inl x => mret (inl x)
          | inr s => match_loop fuel' (avtab_search_node_next (Some cur) spec) spec body s
          end
      end
  end.

Definition for_matches {R St} (h : avtab) (key : avtab_key) (body : avtab_node → St → M (R + St)) (s : St)
    : M (R + St) :=
  node ← avtab_search_node (Some h) key;
  match_loop (match av_htable h with Some t => length (concat t) | None => 0 end) node (specified key) body s.

(** * Extended permissions *)

Definition match_any_class_permissions (cp : list class_perm_node) (class data : N) : bool :=
  existsb (λ c, (cp_tclass c =? class) && truth (N.land (cp_data c) data)) cp.

Definition extended_permissions_and (perms1 perms2 : list N) : M bool :=
  r ← for_up (λ i _, a ← deref (perms1 !! N.to_nat i); b ← deref (perms2 !! N.to_nat i);
                     mret (if truth (N.land a b) then inl true else inr tt))
        (N.to_nat EXTENDED_PERMS_LEN) 0 tt;
  mret match r with inl b => b | inr _ => false end.

(** [1 & (p[x >> 5] >> (x & 0x1f))] *)
Definition xperm_test (x : N) (p : list N) : M bool :=
  w ← deref (p !! N.to_nat (N.shiftr x 5));
  mret (truth (N.land 1 (N.shiftr w (N.land x 31)))).

Definition check_extended_permissions (neverallow : av_extended_perms) (allow : avtab_extended_perms) : M bool :=
  if (ax_specified neverallow =? AVRULE_XPERMS_IOCTLFUNCTION) && (xp_specified allow =? AVTAB_XPERMS_IOCTLFUNCTION) then
    if ax_driver neverallow =? xp_driver allow
    then extended_permissions_and (ax_perms neverallow) (xp_perms allow) else mret false
  else if (ax_specified neverallow =? AVRULE_XPERMS_IOCTLFUNCTION) && (xp_specified allow =? AVTAB_XPERMS_IOCTLDRIVER) then
    xperm_test (ax_driver neverallow) (xp_perms allow)
  else if (ax_specified neverallow =? AVRULE_XPERMS_IOCTLDRIVER) && (xp_specified allow =? AVTAB_XPERMS_IOCTLFUNCTION) then
    xperm_test (xp_driver allow) (ax_perms neverallow)
  else if (ax_specified neverallow =? AVRULE_XPERMS_IOCTLDRIVER) && (xp_specified allow =? AVTAB_XPERMS_IOCTLDRIVER) then
    extended_permissions_and (ax_perms neverallow) (xp_perms allow)
  else mret false.

Definition is_ioctl (x : avtab_extended_perms) : bool :=
  (xp_specified x =? AVTAB_XPERMS_IOCTLFUNCTION) || (xp_specified x =? AVTAB_XPERMS_IOCTLDRIVER).

Definition xperm_key (k : avtab_key) : avtab_key :=
  AvtabKey (source_type k) (target_type k) (target_class k) AVTAB_XPERMS_ALLOWED.

(** One rule with extended permissions; [inl] is the break. *)
Definition xperms_step (avrule : avrule) (node : avtab_node) (rc : bool) : M (unit + bool) :=
  x ← deref (xperms (av_datum node));
  if negb (is_ioctl x) then mret (inr rc) else
  neverallow ← deref (ar_xperms avrule);
  rc ← check_extended_permissions neverallow x;
  mret (if rc : bool then inl tt else inr rc).

(** [avtab] is a pointer that may not have been set. *)
Definition check_assertion_extended_permissions (avrule : avrule) (avtab : option avtab) (k : avtab_key) : M bool :=
  tab ← deref avtab;
  r ← for_matches tab (xperm_key k) (xperms_step avrule) true;
  mret match r with inl _ => true | inr rc => rc end.

(** * Messages

    What is left of a message are the names it reads. *)

Definition report_names (p : policydb) (stype ttype tclass perms : N) : M unit :=
  _ ← deref (p_type_val_to_name p !! N.to_nat stype);
  _ ← deref (p_type_val_to_name p !! N.to_nat ttype);
  _ ← deref (p_class_val_to_name p !! N.to_nat (dec32 tclass));
  _ ← sepol_av_to_string p tclass perms ""; mret tt.

(** The number of errors; the state is [rc] and that number. *)
Definition report_assertion_extended_permissions (p : policydb) (avrule : avrule) (stype ttype tclass perms : N)
    (k : avtab_key) (avtab : option avtab) : M N :=
  tab ← deref avtab;
  r ← for_matches (R := unit) tab (xperm_key k) (λ node '(rc, ret),
        x ← deref (xperms (av_datum node));
        if negb (is_ioctl x) then mret (inr (rc, ret)) else
        neverallow ← deref (ar_xperms avrule);
        rc ← check_extended_permissions neverallow x;
        if rc : bool then
          _ ← deref (p_type_val_to_name p !! N.to_nat stype);
          _ ← deref (p_type_val_to_name p !! N.to_nat ttype);
          _ ← deref (p_class_val_to_name p !! N.to_nat (dec32 tclass));
          mret (inr (false, ret + 1))
        else mret (inr (rc, ret))) (true, 0);
  match r with
  | inl _ => mret 0
  | inr (rc, ret) =>
      if rc : bool then _ ← report_names p stype ttype tclass perms; mret (ret + 1) else mret ret
  end.

(** * The callbacks *)

(** Both callbacks first drop the rules that are not [allow] rules or share no
    permission with the assertion. *)
Definition rule_relevant (avrule : avrule) (k : avtab_key) (d : avtab_datum) : bool :=
  (specified k =? AVTAB_ALLOWED) && match_any_class_permissions (ar_perms avrule) (target_class k) (data d).

Definition attr_types (p : policydb) (v : N) : M ebitmap := deref (attr_type_map p !! N.to_nat (dec32 v)).

(** The loops over the classes and permissions of the assertion and over the
    types that match, which count the errors. *)
Definition report_matches (p : policydb) (avrule : avrule) (avtab : option avtab) (k : avtab_key) (d : avtab_datum)
    (src_matches tgt_matches : ebitmap) (errors : N) : M (unit + N) :=
  for_list (λ cp errors,
    let perms := N.land (cp_data cp) (data d) in
    if negb (cp_tclass cp =? target_class k) || negb (truth perms) then mret (inr errors) else
    ebitmap_for_each_bit src_matches errors (λ i bit errors,
      if negb bit then mret (inr errors) else
      ebitmap_for_each_bit tgt_matches errors (λ j bit errors,
        if negb bit then mret (inr errors) else
        if ar_specified avrule =? AVRULE_XPERMS_NEVERALLOW then
          n ← report_assertion_extended_permissions p avrule i j (cp_tclass cp) perms k avtab;
          mret (inr (u64 (errors + n)))
        else
          _ ← report_names p i j (cp_tclass cp) perms; mret (inr (u64 (errors + 1))))))
    (ar_perms avrule) errors.

Definition report_assertion_avtab_matches (p : policydb) (avrule : avrule) (avtab : option avtab)
    (k : avtab_key) (d : avtab_datum) (errors : N) : M (Z * N) :=
  if negb (rule_relevant avrule k d) then mret (0%Z, errors) else
  src ← attr_types p (source_type k);
  '(rc, src_matches) ← ebitmap_and (ts_types (ar_stypes avrule)) src;
  if bool_decide (rc ≠ 0%Z) then mret (rc, errors) else
  if ebitmap_length src_matches =? 0 then mret (0%Z, errors) else
  tgt ← attr_types p (target_type k);
  '(rc, tgt_matches) ←
    (if ar_flags avrule =? RULE_SELF then
       '(rc, matches) ← ebitmap_and src tgt;
       if bool_decide (rc ≠ 0%Z) then mret (rc, ebitmap_init) else ebitmap_and (ts_types (ar_stypes avrule)) matches
     else ebitmap_and (ts_types (ar_ttypes avrule)) tgt);
  if bool_decide (rc ≠ 0%Z) then mret (rc, errors) else
  if ebitmap_length tgt_matches =? 0 then mret (0%Z, errors) else
  r ← report_matches p avrule avtab k d src_matches tgt_matches errors;
  mret (0%Z, match r with inl _ => errors | inr e => e end).

Definition report_assertion_failures (p : policydb) (avrule : avrule) : M Z :=
  '(rc, errors) ← avtab_map (Some (te_avtab p)) (report_assertion_avtab_matches p avrule None) 0;
  if bool_decide (rc ≠ 0%Z) then mret rc else
  '(rc, errors) ← avtab_map (Some (te_cond_avtab p)) (report_assertion_avtab_matches p avrule None) errors;
  if bool_decide (rc ≠ 0%Z) then mret rc else mret (s32 errors).

(** [avtab_map] passes no store to this callback. *)
Definition check_assertion_avtab_match (p : policydb) (avrule : avrule) (avtab : option avtab)
    (k : avtab_key) (d : avtab_datum) (_ : unit) : M (Z * unit) :=
  if negb (rule_relevant avrule k d) then mret (0%Z, tt) else
  src ← attr_types p (source_type k);
  if negb (ebitmap_match_any (ts_types (ar_stypes avrule)) src) then mret (0%Z, tt) else
  tgt ← attr_types p (target_type k);
  r ← (if ar_flags avrule =? RULE_SELF then
         '(rc, matches) ← ebitmap_and src tgt;
         mret (if bool_decide (rc ≠ 0%Z) then inl rc else inr (ebitmap_match_any (ts_types (ar_stypes avrule)) matches))
       else mret (inr (ebitmap_match_any (ts_types (ar_ttypes avrule)) tgt)));
  match r with
  | inl rc => mret (rc, tt)
  | inr false => mret (0%Z, tt)
  | inr true =>
      if ar_specified avrule =? AVRULE_XPERMS_NEVERALLOW then
        rc ← check_assertion_extended_permissions avrule avtab k;
        mret (if rc : bool then 1%Z else 0%Z, tt)
      else mret (1%Z, tt)
  end.

Definition check_assertion (p : policydb) (avrule : avrule) : M Z :=
  '(rc, _) ← avtab_map (Some (te_avtab p)) (check_assertion_avtab_match p avrule (Some (te_avtab p))) tt;
  if (rc =? 0)%Z then
    '(rc, _) ← avtab_map (Some (te_cond_avtab p)) (check_assertion_avtab_match p avrule (Some (te_cond_avtab p))) tt;
    mret rc
  else mret rc.

(** [errors += rc] adds an [int] to an [unsigned long]. *)
Definition check_assertions (p : policydb) (avrules : list avrule) : M Z :=
  r ← for_list (λ a errors,
        if negb (truth (N.land (ar_specified a) (N.lor AVRULE_NEVERALLOW AVRULE_XPERMS_NEVERALLOW)))
        then mret (inr errors) else
        rc ← check_assertion p a;
        if (rc =? 0)%Z then mret (inr errors) else
        rc ← report_assertion_failures p a;
        mret (if (rc <? 0)%Z then inl (-1)%Z else inr (u64 (errors + Z.to_N rc)))) avrules 0;
  mret match r with inl rc => rc | inr errors => if errors =? 0 then 0%Z else (-1)%Z end.

(** * Walks over the tables *)

Lemma avtab_map_entries {A} h (apply : avtab_key → avtab_datum → A → M (Z * A)) args o :
  avtab_wf h →
  avtab_map (Some h) apply args o =
  (r ← for_list (λ n args, '(ret, args) ← apply (av_key n) (av_datum n) args;
                           mret (if (ret =? 0)%Z then inr args else inl (ret, args))) (avtab_entries h) args;
   mret match r with inl x => x | inr args => (0%Z, args) end) o.
Proof.
  intros [(t & Ht & Hlen & _) _ _]. unfold avtab_map, avtab_entries. rewrite Ht, !bind_run. cbn [deref].
  rewrite <- Hlen, Nat2N.id. erewrite (for_up_ext _ (λ i s, c ← deref (t !! N.to_nat i); for_list _ c s)) by (intros; reflexivity).
  rewrite (for_up_lookup (for_list _) t [] t) by done. by rewrite for_list_concat.
Qed.

Lemma match_loop_filter {R St} (body : avtab_node → St → M (R + St)) key spec spec' c fuel s o :
  av_sorted c → clear_enabled spec = clear_enabled spec' → (length c ≤ fuel)%nat →
  match_loop fuel (find_suffix (λ n, key_match key (clear_enabled spec') (av_key n)) c) spec body s o =
  for_list body (filter (λ n, key_match key (clear_enabled spec') (av_key n) = true) c) s o.
Proof.
  intros Hs Heq. revert fuel s o. induction Hs as [|n c Hs IH Hall]; intros fuel s o Hf.
  { by destruct fuel. }
  cbn [find_suffix]. rewrite filter_cons. destruct (key_match _ _ (av_key n)) eqn:E.
  - rewrite decide_True by done. destruct fuel as [|fuel]; [simpl in Hf; lia|]. cbn [match_loop for_list].
    rewrite !bind_run. destruct (body n s o) as [[x|s'] o'|]; [done| |done].
    unfold avtab_search_node_next. rewrite scan_find, Heq by done.
    rewrite (find_suffix_ext _ (λ n, key_match key (clear_enabled spec') (av_key n)))
      by (intros b; apply (key_match_trans _ _ _ _ _ E)).
    apply IH. simpl in Hf. lia.
  - rewrite decide_False by congruence. apply IH. simpl in Hf. lia.
Qed.

(** The rules of a table for a key. *)
Definition matches (h : avtab) (key : avtab_key) : list avtab_node :=
  filter (λ n, key_match key (clear_enabled (specified key)) (av_key n) = true) (avtab_entries h).

Lemma for_matches_spec {R St} h key (body : avtab_node → St → M (R + St)) s o :
  avtab_wf h → for_matches h key body s o = for_list body (matches h key) s o.
Proof.
  intros Hwf. destruct (avtab_focus h key Hwf) as (t & c & Ht & Hc & Hs & _ & Hf).
  unfold for_matches, avtab_search_node, matches. rewrite Ht, !bind_run, Hc. cbn [deref].
  unfold mret, M_ret. cbv beta iota. rewrite Hf, scan_find by done. apply match_loop_filter; [done|done|].
  destruct (concat_focus _ _ _ Hc) as (R' & HR & _). rewrite HR, length_app. lia.
Qed.

(** * Extended permissions as sets of commands *)

(** Bit [x] of an array of words. *)
Definition xbit (p : list N) (x : N) : bool :=
  match p !! N.to_nat (x / 32) with Some w => N.testbit w (x mod 32) | None => false end.

Definition xperms_shape (driver : N) (perms : list N) : Prop :=
  driver < 256 ∧ length perms = 8%nat ∧ Forall (λ w, w < 2 ^ 32) perms ∧ Exists (λ w, w ≠ 0) perms.

(** A permission bitmap stands for the commands of one driver, or for all
    commands of some drivers. *)
Definition xperm_has (spec driver : N) (perms : list N) (cmd : N) : bool :=
  (cmd <? 65536) &&
  (if spec =? AVTAB_XPERMS_IOCTLFUNCTION then (cmd / 256 =? driver) && xbit perms (cmd mod 256)
   else xbit perms (cmd / 256)).

Lemma extended_and_run p1 p2 o :
  length p1 = 8%nat → length p2 = 8%nat →
  extended_permissions_and p1 p2 o = Ret (existsb (λ i, truth (N.land (p1 !!! N.to_nat i) (p2 !!! N.to_nat i))) (seqN 0 8)) o.
Proof.
  intros H1 H2. unfold extended_permissions_and. rewrite bind_run.
  assert (∀ n i, (N.to_nat i + n = 8)%nat →
    for_up (λ i _, a ← deref (p1 !! N.to_nat i); b ← deref (p2 !! N.to_nat i);
                   mret (if truth (N.land a b) then inl true else inr tt)) n i tt o =
    Ret (if existsb (λ i, truth (N.land (p1 !!! N.to_nat i) (p2 !!! N.to_nat i))) (seqN i n) then inl true else inr tt) o) as ->.
  - intros n. induction n as [|n IH]; intros i Hi; [done|]. cbn [for_up seqN existsb]. rewrite !bind_run.
    destruct (lookup_lt_is_Some_2 p1 (N.to_nat i)) as [a Ha]; [lia|].
    destruct (lookup_lt_is_Some_2 p2 (N.to_nat i)) as [b Hb]; [lia|].
    rewrite (list_lookup_total_correct _ _ _ Ha), (list_lookup_total_correct _ _ _ Hb), Ha. cbn.
    rewrite bind_run, Hb. cbn. destruct (truth (N.land a b)); [done|]. cbn. apply IH. lia.
  - change (N.to_nat EXTENDED_PERMS_LEN) with 8%nat. by destruct (existsb _ _).
  - done.
Qed.

Lemma xperm_test_run x p o : x < 256 → length p = 8%nat → xperm_test x p o = Ret (xbit p x) o.
Proof.
  intros Hx Hp. unfold xperm_test, xbit. rewrite bind_run, N.shiftr_div_pow2. change (2 ^ 5) with 32.
  assert (x / 32 < 8) by (apply N.Div0.div_lt_upper_bound; lia).
  destruct (lookup_lt_is_Some_2 p (N.to_nat (x / 32))) as [w Hw]; [lia|]. rewrite Hw. cbn.
  unfold mret, M_ret. f_equal. change 31 with (N.ones 5). rewrite N.land_ones. change (2 ^ 5) with 32.
  rewrite N.land_comm. change 1 with (N.shiftl 1 0). by rewrite truth_land_bit, N.shiftr_spec', N.add_0_l.
Qed.

Lemma xbit_lookup (p : list N) i j w : p !! N.to_nat i = Some w → j < 32 → xbit p (i * 32 + j) = N.testbit w j.
Proof.
  intros Hw Hj. unfold xbit. rewrite N.add_comm, N.div_add, N.div_small, N.add_0_l by lia.
  by rewrite Hw, N.Div0.mod_add, N.mod_small.
Qed.

(** Two arrays with a word in common have a bit in common. *)
Lemma words_meet p1 p2 :
  length p1 = 8%nat → length p2 = 8%nat → Forall (λ w, w < 2 ^ 32) p1 →
  existsb (λ i, truth (N.land (p1 !!! N.to_nat i) (p2 !!! N.to_nat i))) (seqN 0 8) = true ↔
  ∃ x, x < 256 ∧ xbit p1 x = true ∧ xbit p2 x = true.
Proof.
  intros H1 H2 Hw. rewrite existsb_exists. split.
  - intros (i & Hi%list_elem_of_In%elem_of_seqN & Ht). apply truth_spec, N_neq_0_bit in Ht as [j Hj].
    rewrite N.land_spec in Hj. apply andb_true_iff in Hj as [Ha Hb].
    destruct (lookup_lt_is_Some_2 p1 (N.to_nat i)) as [a Hl1]; [lia|].
    destruct (lookup_lt_is_Some_2 p2 (N.to_nat i)) as [b Hl2]; [lia|].
    rewrite (list_lookup_total_correct _ _ _ Hl1) in Ha. rewrite (list_lookup_total_correct _ _ _ Hl2) in Hb.
    rewrite Forall_lookup in Hw. pose proof (bit_lt _ _ _ (Hw _ _ Hl1) Ha) as Hlt.
    exists (i * 32 + j). rewrite (xbit_lookup _ _ _ a), (xbit_lookup _ _ _ b) by done. split; [lia|done].
  - intros (x & Hx & Ha & Hb). exists (x / 32). assert (x / 32 < 8) by (apply N.Div0.div_lt_upper_bound; lia).
    split; [apply list_elem_of_In, elem_of_seqN; split; [apply N.le_0_l|done]|]. apply truth_spec. intros E.
    unfold xbit in Ha, Hb. destruct (p1 !! _) as [a|] eqn:Hl1; [|done]. destruct (p2 !! _) as [b|] eqn:Hl2; [|done].
    rewrite (list_lookup_total_correct _ _ _ Hl1), (list_lookup_total_correct _ _ _ Hl2) in E.
    apply (f_equal (λ w, N.testbit w (x mod 32))) in E. rewrite N.land_spec, Ha, Hb, N.bits_0 in E. done.
Qed.

Lemma xperms_some_bit driver perms : xperms_shape driver perms → ∃ x, x < 256 ∧ xbit perms x = true.
Proof.
  intros (_ & Hlen & Hw & Hne). apply Exists_exists in Hne as (w & [i Hi]%list_elem_of_lookup & [j Hj]%N_neq_0_bit).
  rewrite Forall_lookup in Hw. pose proof (bit_lt _ _ _ (Hw _ _ Hi) Hj) as Hlt. pose proof (lookup_lt_Some _ _ _ Hi).
  exists (N.of_nat i * 32 + j). rewrite (xbit_lookup _ _ _ w) by (rewrite ?Nat2N.id; done). split; [lia|done].
Qed.

Lemma cmd_split d x : x < 256 → (d * 256 + x) / 256 = d ∧ (d * 256 + x) mod 256 = x.
Proof.
  intros Hx. split.
  - rewrite N.add_comm, N.div_add, N.div_small by lia. done.
  - rewrite N.add_comm, N.Div0.mod_add. by apply N.mod_small.
Qed.

(** A command of both sets, as the four cases of the check find it. *)
Definition xperms_meet (nv : av_extended_perms) (al : avtab_extended_perms) : Prop :=
  ∃ cmd, xperm_has (ax_specified nv) (ax_driver nv) (ax_perms nv) cmd = true ∧
         xperm_has (xp_specified al) (xp_driver al) (xp_perms al) cmd = true.

Definition nv_wf (nv : av_extended_perms) : Prop :=
  xperms_shape (ax_driver nv) (ax_perms nv) ∧
  (ax_specified nv = AVRULE_XPERMS_IOCTLFUNCTION ∨ ax_specified nv = AVRULE_XPERMS_IOCTLDRIVER).

Lemma xperm_has_intro spec driver perms c x :
  c < 256 → x < 256 →
  xperm_has spec driver perms (c * 256 + x) =
  if spec =? AVTAB_XPERMS_IOCTLFUNCTION then (c =? driver) && xbit perms x else xbit perms c.
Proof.
  intros Hc Hx. unfold xperm_has. destruct (cmd_split c x Hx) as [-> ->].
  destruct (N.ltb_spec (c * 256 + x) 65536); [done|lia].
Qed.

Lemma xperm_has_elim spec driver perms cmd :
  xperm_has spec driver perms cmd = true →
  ∃ c x, c < 256 ∧ x < 256 ∧ cmd = c * 256 + x.
Proof.
  unfold xperm_has. intros [Hlt%N.ltb_lt _]%andb_true_iff. exists (cmd / 256), (cmd mod 256).
  assert (cmd / 256 < 256) by (apply N.Div0.div_lt_upper_bound; lia). pose proof (N.mod_lt cmd 256).
  pose proof (N.div_mod' cmd 256). split; [done|]. split; lia.
Qed.

Lemma meet_split nv al :
  xperms_meet nv al ↔ ∃ c x, c < 256 ∧ x < 256 ∧
    (if ax_specified nv =? AVTAB_XPERMS_IOCTLFUNCTION then (c =? ax_driver nv) && xbit (ax_perms nv) x
     else xbit (ax_perms nv) c) = true ∧
    (if xp_specified al =? AVTAB_XPERMS_IOCTLFUNCTION then (c =? xp_driver al) && xbit (xp_perms al) x
     else xbit (xp_perms al) c) = true.
Proof.
  split.
  - intros (cmd & H1 & H2). destruct (xperm_has_elim _ _ _ _ H1) as (c & x & Hc & Hx & ->).
    rewrite xperm_has_intro in H1, H2 by done. by exists c, x.
  - intros (c & x & Hc & Hx & H1 & H2). exists (c * 256 + x). by rewrite !xperm_has_intro.
Qed.

Lemma check_extended_spec nv al o :
  nv_wf nv → xperms_shape (xp_driver al) (xp_perms al) → is_ioctl al = true →
  ∃ b, check_extended_permissions nv al o = Ret b o ∧ (b = true ↔ xperms_meet nv al).
Proof.
  intros [Hnv Hs] Hal Hio. pose proof (xperms_some_bit _ _ Hnv) as (xn & Hxn & Hbn).
  pose proof (xperms_some_bit _ _ Hal) as (xa & Hxa & Hba).
  destruct Hnv as (Hdn & Hln & Hwn & _), Hal as (Hda & Hla & Hwa & _).
  assert (xp_specified al = AVTAB_XPERMS_IOCTLFUNCTION ∨ xp_specified al = AVTAB_XPERMS_IOCTLDRIVER) as Ha.
  { unfold is_ioctl in Hio. apply orb_true_iff in Hio as [H%N.eqb_eq|H%N.eqb_eq]; [by left|by right]. }
  unfold check_extended_permissions. setoid_rewrite meet_split.
  destruct Hs as [-> | ->], Ha as [-> | ->]; cbn [N.eqb Pos.eqb andb AVRULE_XPERMS_IOCTLFUNCTION AVRULE_XPERMS_IOCTLDRIVER
    AVTAB_XPERMS_IOCTLFUNCTION AVTAB_XPERMS_IOCTLDRIVER].
  - destruct (N.eqb_spec (ax_driver nv) (xp_driver al)) as [Hd|Hd].
    + rewrite extended_and_run by done. eexists. split; [done|]. rewrite words_meet by done. split.
      * intros (x & Hx & H1 & H2). exists (ax_driver nv), x. by rewrite H1, H2, Hd, N.eqb_refl in *.
      * intros (c & x & Hc & Hx & [_ H1]%andb_true_iff & [_ H2]%andb_true_iff). by exists x.
    + eexists. split; [done|]. split; [done|].
      intros (c & x & _ & _ & [->%N.eqb_eq _]%andb_true_iff & [?%N.eqb_eq _]%andb_true_iff). done.
  - rewrite xperm_test_run by done. eexists. split; [done|]. split.
    + intros H. exists (ax_driver nv), xn. by rewrite N.eqb_refl, Hbn.
    + intros (c & x & _ & _ & [->%N.eqb_eq _]%andb_true_iff & H). done.
  - rewrite xperm_test_run by done. eexists. split; [done|]. split.
    + intros H. exists (xp_driver al), xa. by rewrite N.eqb_refl, Hba.
    + intros (c & x & _ & _ & H & [->%N.eqb_eq _]%andb_true_iff). done.
  - rewrite extended_and_run by done. eexists. split; [done|]. rewrite words_meet by done. split.
    + intros (x & Hx & H1 & H2). by exists x, x.
    + intros (c & x & Hc & Hx & H1 & H2). by exists c.
Qed.

(** * Violations *)

(** The attribute map entry of a key's source or target. *)
Definition types_of (p : policydb) (v : N) : ebitmap := default ebitmap_init (attr_type_map p !! N.to_nat (v - 1)).

(** Some type has both the assertion's source (or target) and the rule's; with
    [self] one type has to be in the assertion and in both sides of the rule. *)
Definition types_overlap (p : policydb) (r : avrule) (k : avtab_key) : Prop :=
  if ar_flags r =? RULE_SELF
  then ∃ t, ebitmap_bit (ts_types (ar_stypes r)) t = true ∧ ebitmap_bit (types_of p (source_type k)) t = true ∧
            ebitmap_bit (types_of p (target_type k)) t = true
  else (∃ s, ebitmap_bit (ts_types (ar_stypes r)) s = true ∧ ebitmap_bit (types_of p (source_type k)) s = true) ∧
       (∃ t, ebitmap_bit (ts_types (ar_ttypes r)) t = true ∧ ebitmap_bit (types_of p (target_type k)) t = true).

(** The extended permissions that a table allows for a key: none at all means
    that every command is allowed. *)
Definition ioctl_rules (tab : avtab) (k : avtab_key) : list avtab_extended_perms :=
  filter (λ x, is_ioctl x = true) (omap (λ n, xperms (av_datum n)) (matches tab (xperm_key k))).

Definition xperms_violated (tab : avtab) (r : avrule) (k : avtab_key) : Prop :=
  ar_specified r = AVRULE_XPERMS_NEVERALLOW →
  ioctl_rules tab k = [] ∨ ∃ nv x, ar_xperms r = Some nv ∧ x ∈ ioctl_rules tab k ∧ xperms_meet nv x.

Definition violates (p : policydb) (r : avrule) (tab : avtab) (n : avtab_node) : Prop :=
  rule_relevant r (av_key n) (av_datum n) = true ∧ types_overlap p r (av_key n) ∧ xperms_violated tab r (av_key n).

Definition violated (p : policydb) (r : avrule) : Prop :=
  (∃ n, n ∈ avtab_entries (te_avtab p) ∧ violates p r (te_avtab p) n) ∨
  (∃ n, n ∈ avtab_entries (te_cond_avtab p) ∧ violates p r (te_cond_avtab p) n).

(** The tables name types of the policy, and extended permissions are where
    their rules say. *)
Definition keys_wf (p : policydb) (tab : avtab) : Prop :=
  avtab_wf tab ∧ ∀ n, n ∈ avtab_entries tab →
    0 < source_type (av_key n) ≤ N.of_nat (length (attr_type_map p)) ∧
    0 < target_type (av_key n) ≤ N.of_nat (length (attr_type_map p)) ∧
    (truth (N.land AVTAB_XPERMS_ALLOWED (specified (av_key n))) = true →
       ∃ x, xperms (av_datum n) = Some x ∧ xperms_shape (xp_driver x) (xp_perms x)).

Record checked_policy (p : policydb) : Prop := {
  cw_te : keys_wf p (te_avtab p);
  cw_cond : keys_wf p (te_cond_avtab p);
  cw_count : N.of_nat (length (attr_type_map p)) < 2 ^ 32;
  cw_maps : Forall ebitmap_wf (attr_type_map p) }.

Record avrule_wf (r : avrule) : Prop := {
  aw_stypes : ebitmap_wf (ts_types (ar_stypes r));
  aw_ttypes : ebitmap_wf (ts_types (ar_ttypes r));
  aw_xperms : ar_specified r = AVRULE_XPERMS_NEVERALLOW → ∃ nv, ar_xperms r = Some nv ∧ nv_wf nv }.

Section check.
Context (p : policydb) (r : avrule) (Hp : checked_policy p) (Hr : avrule_wf r).

Lemma types_of_wf v : ebitmap_wf (types_of p v).
Proof.
  unfold types_of. destruct (_ !! _) as [e|] eqn:E; [|apply ebitmap_init_wf].
  pose proof (cw_maps _ Hp) as H. rewrite Forall_lookup in H. by eapply H.
Qed.

Lemma attr_types_run v o :
  0 < v ≤ N.of_nat (length (attr_type_map p)) → attr_types p v o = Ret (types_of p v) o.
Proof.
  intros Hv. pose proof (cw_count _ Hp). unfold attr_types, types_of. rewrite dec32_pred by lia.
  destruct (lookup_lt_is_Some_2 (attr_type_map p) (N.to_nat (v - 1))) as [e He]; [lia|]. by rewrite He.
Qed.

Lemma xperms_step_run nv n x rc o :
  ar_xperms r = Some nv → nv_wf nv → xperms (av_datum n) = Some x → xperms_shape (xp_driver x) (xp_perms x) →
  ∃ res, xperms_step r n rc o = Ret res o ∧
    if is_ioctl x then (res = inl tt ∧ xperms_meet nv x) ∨ (res = inr false ∧ ¬ xperms_meet nv x) else res = inr rc.
Proof.
  intros Hnv Hwf Hx Hsh. unfold xperms_step. rewrite bind_run, Hx. cbn. destruct (is_ioctl x) eqn:Hio; cbn; [|by eexists].
  rewrite bind_run, Hnv. cbn. rewrite bind_run. destruct (check_extended_spec nv x o Hwf Hsh Hio) as (b & -> & Hb).
  destruct b; eexists; (split; [done|]); [left|right]; (split; [done|]); naive_solver.
Qed.

Lemma xperms_loop_run nv l rc o :
  ar_xperms r = Some nv → nv_wf nv →
  (∀ n, n ∈ l → ∃ x, xperms (av_datum n) = Some x ∧ xperms_shape (xp_driver x) (xp_perms x)) →
  ∃ res, for_list (xperms_step r) l rc o = Ret res o ∧
    (match res with inl _ => true | inr rc => rc end = true ↔
     let xs := filter (λ x, is_ioctl x = true) (omap (λ n, xperms (av_datum n)) l) in
     (rc = true ∧ xs = []) ∨ ∃ x, x ∈ xs ∧ xperms_meet nv x).
Proof.
  intros Hnv Hwf. revert rc. induction l as [|n l IH]; intros rc Hl; cbn zeta.
  { exists (inr rc). split; [done|]. cbn. split; [by left|]. intros [[? _]|(x & ?%elem_of_nil & _)]; done. }
  destruct (Hl n ltac:(left)) as (x & Hx & Hsh).
  assert (∀ n', n' ∈ l → ∃ x, xperms (av_datum n') = Some x ∧ xperms_shape (xp_driver x) (xp_perms x)) as Hl'
    by (intros n' ?; apply Hl; by right).
  destruct (xperms_step_run nv n x rc o Hnv Hwf Hx Hsh) as (res & Hrun & Hres).
  cbn [for_list omap list_omap]. rewrite Hx, bind_run, Hrun, filter_cons. destruct (is_ioctl x) eqn:Hio.
  - rewrite decide_True by done. destruct Hres as [[-> Hm]|[-> Hm]].
    + eexists. split; [done|]. split; [|done]. intros _. right. exists x. split; [left|done].
    + destruct (IH false Hl') as (res & -> & Hres). exists res. split; [done|]. rewrite Hres. split.
      * intros [[? _]|(y & Hy & Hmy)]; [done|]. right. exists y. split; [by right|done].
      * intros [[_ ?]|(y & [-> |Hy]%elem_of_cons & Hmy)]; [done|done|]. right. by exists y.
  - rewrite decide_False by congruence. rewrite Hres. by apply IH.
Qed.

Lemma check_xperms_run tab k o :
  keys_wf p tab → ar_specified r = AVRULE_XPERMS_NEVERALLOW →
  ∃ b, check_assertion_extended_permissions r (Some tab) k o = Ret b o ∧ (b = true ↔ xperms_violated tab r k).
Proof.
  intros [Htab Hkeys] Hspec. destruct (aw_xperms _ Hr Hspec) as (nv & Hnv & Hwf).
  destruct (xperms_loop_run nv (matches tab (xperm_key k)) true o Hnv Hwf) as (res & Hrun & Hres).
  { intros n [Hm Hn]%list_elem_of_filter. apply (Hkeys n Hn). unfold key_match in Hm. reflect_bools. done. }
  exists (match res with inl _ => true | inr rc => rc end). split.
  { unfold check_assertion_extended_permissions. rewrite bind_run. cbn [deref]. unfold mret at 1, M_ret at 1.
    by rewrite bind_run, for_matches_spec, Hrun. }
  rewrite Hres. unfold xperms_violated, ioctl_rules. cbn zeta. split.
  - intros [[_ ?]|(x & ? & ?)] _; [by left|]. right. by exists nv, x.
  - intros H. destruct (H Hspec) as [?|(nv' & x & Hnv' & ? & ?)]; [by left|]. right. exists x. 
    rewrite Hnv in Hnv'. injection Hnv' as <-. done.
Qed.

Lemma check_match_spec tab n o :
  keys_wf p tab → n ∈ avtab_entries tab →
  wp (check_assertion_avtab_match p r (Some tab) (av_key n) (av_datum n) tt) o (λ res o',
    (o = [] → o' = [] ∧ (0 ≤ res.1)%Z) ∧
    ((res.1 = 1%Z ∧ violates p r tab n) ∨ (res.1 = 0%Z ∧ ¬ violates p r tab n) ∨ (res.1 < 0)%Z)).
Proof.
  intros Htab Hn. destruct (proj2 Htab n Hn) as (Hs & Ht & _). set (k := av_key n) in *.
  unfold check_assertion_avtab_match, violates. fold k. destruct (rule_relevant r k (av_datum n)) eqn:Hrel; cbn [negb].
  2: { wp_step. split; [done|]. right. left. split; [done|]. by intros [? _]. }
  wp_step. unfold wp at 1. rewrite attr_types_run by done.
  pose proof (types_of_wf (source_type k)) as Hws. pose proof (types_of_wf (target_type k)) as Hwt.
  destruct Hr as [Hst Htt _]. pose proof (match_any_spec _ _ Hst Hws) as Hms. unfold types_overlap.
  destruct (ebitmap_match_any (ts_types (ar_stypes r)) (types_of p (source_type k))) eqn:Em; cbn [negb].
  2: { wp_step. split; [done|]. right. left. split; [done|]. intros (_ & Hov & _).
       enough (false = true) by done. apply Hms. destruct (ar_flags r =? RULE_SELF); naive_solver. }
  wp_step. unfold wp at 1. rewrite attr_types_run by done. wp_step.
  assert (∀ (b : bool) o1, (o = [] → o1 = []) → (b = true ↔ types_overlap p r k) →
    wp (match @inr Z bool b with
        | inl rc => mret (rc, tt)
        | inr false => mret (0%Z, tt)
        | inr true => if ar_specified r =? AVRULE_XPERMS_NEVERALLOW then
            rc ← check_assertion_extended_permissions r (Some tab) k; mret (if rc : bool then 1%Z else 0%Z, tt)
          else mret (1%Z, tt) end) o1 (λ res o',
      (o = [] → o' = [] ∧ (0 ≤ res.1)%Z) ∧
      ((res.1 = 1%Z ∧ true = true ∧ types_overlap p r k ∧ xperms_violated tab r k) ∨
       (res.1 = 0%Z ∧ ¬ (true = true ∧ types_overlap p r k ∧ xperms_violated tab r k)) ∨ (res.1 < 0)%Z))) as Htail.
  { intros b o1 Ho Hb. destruct b.
    - destruct (N.eqb_spec (ar_specified r) AVRULE_XPERMS_NEVERALLOW) as [Hx|Hx].
      + wp_step. unfold wp at 1. destruct (check_xperms_run tab k o1 Htab Hx) as (b & -> & Hbx). wp_step.
        destruct b; (split; [intros H; split; [by apply Ho|done]|]); [left|right; left]; split; try done; naive_solver.
      + wp_step. split; [intros H; split; [by apply Ho|done]|]. left. split; [done|]. split; [done|].
        split; [by apply Hb|]. by intros ?.
    - wp_step. split; [intros H; split; [by apply Ho|done]|]. right. left. split; [done|]. intros (_ & Hov & _).
      by apply Hb in Hov. }
  unfold types_overlap in Htail. destruct (ar_flags r =? RULE_SELF).
  - wp_step. eapply wp_mono; [by apply and_spec|]. intros [rc m] o1 [Ho Hres]. wp_step. cbn in Ho, Hres.
    destruct Hres as [(-> & Hwm & Hbm)|Hneg].
    + rewrite bool_decide_eq_false_2 by naive_solver. apply Htail; [naive_solver|].
      rewrite match_any_spec by done. setoid_rewrite Hbm. setoid_rewrite andb_true_iff. done.
    + rewrite bool_decide_eq_true_2 by lia. wp_step. cbn. split; [|by right; right]. intros H. apply Ho in H. lia.
  - wp_step. apply Htail; [done|]. rewrite match_any_spec by done. naive_solver.
Qed.

Lemma check_table_spec tab o :
  keys_wf p tab →
  wp (avtab_map (Some tab) (check_assertion_avtab_match p r (Some tab)) tt) o (λ res o',
    (o = [] → o' = [] ∧ (0 ≤ res.1)%Z) ∧
    ((res.1 = 1%Z ∧ ∃ n, n ∈ avtab_entries tab ∧ violates p r tab n) ∨
     (res.1 = 0%Z ∧ ¬ ∃ n, n ∈ avtab_entries tab ∧ violates p r tab n) ∨ (res.1 < 0)%Z)).
Proof.
  intros Htab. unfold wp. rewrite avtab_map_entries by apply Htab.
  apply (wp_bind (for_list _ _ _)). apply (wp_for_list (λ dn s o', s = tt ∧ (o = [] → o' = []) ∧ ∀ n, n ∈ dn → ¬ violates p r tab n)).
  - split; [done|]. split; [done|]. by intros n ?%elem_of_nil.
  - intros dn n rest s o1 Hsplit (-> & Ho & Hdn). wp_step.
    eapply wp_mono; [apply check_match_spec; [done|rewrite Hsplit; apply elem_of_app; right; left]|].
    intros [rc []] o2 [Ho2 Hres]. wp_step. cbn in *. destruct Hres as [[-> Hv]|[[-> Hv]|Hneg]]; cbn.
    + split; [intros H; split; [by apply Ho2, Ho|done]|]. left. split; [done|].
      exists n. split; [rewrite Hsplit; apply elem_of_app; right; left|done].
    + split; [done|]. split; [intros H; by apply Ho2, Ho|]. intros m [?| ->%list_elem_of_singleton]%elem_of_app; [by apply Hdn|done].
    + destruct (Z.eqb_spec rc 0); [lia|]. cbn. split; [|by right; right]. intros H. split; [by apply Ho2, Ho|].
      apply Ho, Ho2 in H. lia.
  - intros s o1 (-> & Ho & Hdn). wp_step. cbn. split; [intros H; split; [by apply Ho|done]|]. right. left.
    split; [done|]. intros (n & Hn & Hv). by apply (Hdn n).
Qed.

Definition verdict (o : oracle) (V : Prop) (rc : Z) (o' : oracle) : Prop :=
  (o = [] → o' = [] ∧ (0 ≤ rc)%Z) ∧ ((rc = 1%Z ∧ V) ∨ (rc = 0%Z ∧ ¬ V) ∨ (rc < 0)%Z).

Lemma check_assertion_spec o : wp (check_assertion p r) o (verdict o (violated p r)).
Proof.
  unfold check_assertion, violated. wp_step. eapply wp_mono; [apply check_table_spec, Hp|].
  intros [rc []] o1 [Ho1 H1]. cbn in Ho1, H1. destruct H1 as [[-> Hv]|[[-> Hv]|Hneg]].
  - change (1 =? 0)%Z with false. cbv iota. wp_step. split; [done|]. left. split; [done|by left].
  - change (0 =? 0)%Z with true. cbv iota. wp_step. eapply wp_mono; [apply check_table_spec, Hp|]. intros [rc []] o2 [Ho2 H2]. wp_step. cbn in *.
    split; [intros H; apply Ho2; by apply Ho1|]. destruct H2 as [[-> Hv2]|[[-> Hv2]|Hneg]].
    + left. split; [done|by right].
    + right. left. split; [done|]. intros [?|?]; done.
    + by right; right.
  - destruct (Z.eqb_spec rc 0); [lia|]. wp_step. split; [done|]. by right; right.
Qed.

End check.

(** * Reports of plain assertions *)

(** [ebitmap_and] of well-formed bitmaps has one result. *)
Definition meet (e1 e2 : ebitmap) : ebitmap := match ebitmap_and e1 e2 [] with Ret r _ => r.2 | UB => ebitmap_init end.

Lemma meet_spec e1 e2 :
  ebitmap_wf e1 → ebitmap_wf e2 →
  ebitmap_wf (meet e1 e2) ∧ ∀ i, ebitmap_bit (meet e1 e2) i = ebitmap_bit e1 i && ebitmap_bit e2 i.
Proof.
  intros H1 H2. pose proof (and_spec e1 e2 [] H1 H2) as H. unfold wp in H. unfold meet.
  destruct (ebitmap_and e1 e2 []) as [[rc m] o'|]; [|done]. destruct H as [Ho H]. cbn in *.
  destruct (Ho eq_refl) as [_ ->]. destruct H as [(_ & ? & ?)|?]; [done|lia].
Qed.

Lemma and_meet e1 e2 o :
  ebitmap_wf e1 → ebitmap_wf e2 →
  wp (ebitmap_and e1 e2) o (λ r o', (o = [] → o' = [] ∧ r.1 = 0%Z) ∧ (r = (0%Z, meet e1 e2) ∨ (r.1 < 0)%Z)).
Proof.
  intros H1 H2. destruct (meet_spec e1 e2 H1 H2) as [Hw Hb]. eapply wp_mono; [by apply and_spec|].
  intros [rc m] o' [Ho Hr]. cbn in *. split; [done|]. destruct Hr as [(-> & Hwm & Hbm)|?]; [|by right]. left. f_equal.
  apply ebitmap_ext; [done..|]. intros i. by rewrite Hbm, Hb.
Qed.


(** The number of violations that a rule of a table is reported with. *)
Definition matching_perms (r : avrule) (k : avtab_key) (d : avtab_datum) : list class_perm_node :=
  filter (λ cp, (cp_tclass cp =? target_class k) && truth (N.land (cp_data cp) (data d)) = true) (ar_perms r).

Definition src_set (p : policydb) (r : avrule) (k : avtab_key) : ebitmap :=
  meet (ts_types (ar_stypes r)) (types_of p (source_type k)).

Definition tgt_set (p : policydb) (r : avrule) (k : avtab_key) : ebitmap :=
  if ar_flags r =? RULE_SELF
  then meet (ts_types (ar_stypes r)) (meet (types_of p (source_type k)) (types_of p (target_type k)))
  else meet (ts_types (ar_ttypes r)) (types_of p (target_type k)).

Definition match_count (p : policydb) (r : avrule) (n : avtab_node) : N :=
  let k := av_key n in
  if (specified k =? AVTAB_ALLOWED)
  then N.of_nat (length (matching_perms r k (av_datum n)) *
                 (length (set_bits (src_set p r k)) * length (set_bits (tgt_set p r k))))
  else 0.

Definition rules_count (p : policydb) (r : avrule) (l : list avtab_node) : N :=
  foldr (λ n c, match_count p r n + c) 0 l.

Definition violation_count (p : policydb) (r : avrule) : N :=
  rules_count p r (avtab_entries (te_avtab p) ++ avtab_entries (te_cond_avtab p)).

Lemma rules_count_app p r l1 l2 : rules_count p r (l1 ++ l2) = rules_count p r l1 + rules_count p r l2.
Proof. induction l1 as [|n l1 IH]; [done|]. unfold rules_count in *. cbn [app foldr]. rewrite IH. lia. Qed.

(** The names that messages read are there. *)
Record reportable (p : policydb) (r : avrule) : Prop := {
  rp_types : ∀ v t, ebitmap_bit (types_of p v) t = true → t < N.of_nat (length (p_type_val_to_name p));
  rp_class : ∀ cp, cp ∈ ar_perms r → 0 < cp_tclass cp < 2 ^ 32 ∧
    is_Some (p_class_val_to_name p !! N.to_nat (cp_tclass cp - 1)) ∧
    ∃ cd, class_val_to_struct p !! N.to_nat (cp_tclass cp - 1) = Some (Some cd) ∧ tables_wf cd }.

Lemma u64_add a b : u64 (u64 a + b) = u64 (a + b).
Proof. unfold u64. by rewrite N.Div0.add_mod_idemp_l. Qed.

Lemma u64_idemp a : u64 (u64 a) = u64 a.
Proof. unfold u64. by rewrite N.Div0.mod_mod. Qed.

(** A loop that adds the same number at every round. *)
Lemma fold_count {A} (l : list A) (f : A → N → N) e c :
  (∀ a e, a ∈ l → f a (u64 e) = u64 (e + c)) →
  foldl (λ e a, f a e) (u64 e) l = u64 (e + N.of_nat (length l) * c).
Proof.
  revert e. induction l as [|a l IH]; intros e Hf; cbn [foldl length]; [f_equal; lia|].
  rewrite Hf by left. rewrite IH by (intros; apply Hf; by right). f_equal. lia.
Qed.

Section report.
Context (p : policydb) (r : avrule) (Hp : checked_policy p) (Hr : avrule_wf r) (Hrep : reportable p r).
Context (Hplain : ar_specified r ≠ AVRULE_XPERMS_NEVERALLOW).

Lemma report_names_run i j cp perms o :
  i < N.of_nat (length (p_type_val_to_name p)) → j < N.of_nat (length (p_type_val_to_name p)) → cp ∈ ar_perms r →
  report_names p i j (cp_tclass cp) perms o = Ret tt o.
Proof.
  intros Hi Hj Hcp. destruct (rp_class _ _ Hrep cp Hcp) as (Hc & [nm Hnm] & cd & Hcd & Hwf). unfold report_names.
  destruct (lookup_lt_is_Some_2 (p_type_val_to_name p) (N.to_nat i)) as [x Hx]; [lia|].
  destruct (lookup_lt_is_Some_2 (p_type_val_to_name p) (N.to_nat j)) as [y Hy]; [lia|].
  rewrite bind_run, Hx. cbn [deref]. unfold mret at 1, M_ret at 1. rewrite bind_run, Hy. cbn [deref].
  unfold mret at 1, M_ret at 1. rewrite dec32_pred by apply Hc. rewrite bind_run, Hnm. cbn [deref].
  unfold mret at 1, M_ret at 1. rewrite bind_run.
  destruct (av_to_string_run p (cp_tclass cp) cd perms "" o) as [res ->]; [apply Hc|apply Hc|done|done|done].
Qed.

Lemma src_set_spec k :
  ebitmap_wf (src_set p r k) ∧ ∀ s, ebitmap_bit (src_set p r k) s = true ↔
    ebitmap_bit (ts_types (ar_stypes r)) s = true ∧ ebitmap_bit (types_of p (source_type k)) s = true.
Proof.
  destruct (meet_spec (ts_types (ar_stypes r)) (types_of p (source_type k))) as [Hw Hb];
    [apply Hr|by apply types_of_wf|]. split; [done|]. intros s. unfold src_set. by rewrite Hb, andb_true_iff.
Qed.

Lemma tgt_set_spec k :
  ebitmap_wf (tgt_set p r k) ∧ ∀ t, ebitmap_bit (tgt_set p r k) t = true ↔
    if ar_flags r =? RULE_SELF
    then ebitmap_bit (ts_types (ar_stypes r)) t = true ∧ ebitmap_bit (types_of p (source_type k)) t = true ∧
         ebitmap_bit (types_of p (target_type k)) t = true
    else ebitmap_bit (ts_types (ar_ttypes r)) t = true ∧ ebitmap_bit (types_of p (target_type k)) t = true.
Proof.
  pose proof (types_of_wf p Hp (source_type k)) as Hs. pose proof (types_of_wf p Hp (target_type k)) as Ht.
  unfold tgt_set. destruct (ar_flags r =? RULE_SELF).
  - destruct (meet_spec _ _ Hs Ht) as [Hw Hb].
    destruct (meet_spec (ts_types (ar_stypes r)) _ (aw_stypes _ Hr) Hw) as [Hw' Hb']. split; [done|].
    intros t. by rewrite Hb', Hb, !andb_true_iff.
  - destruct (meet_spec (ts_types (ar_ttypes r)) _ (aw_ttypes _ Hr) Ht) as [Hw' Hb']. split; [done|].
    intros t. by rewrite Hb', andb_true_iff.
Qed.

Lemma src_bound k s : ebitmap_bit (src_set p r k) s = true → s < N.of_nat (length (p_type_val_to_name p)).
Proof. intros [_ H]%(src_set_spec k). by eapply (rp_types _ _ Hrep). Qed.

Lemma tgt_bound k t : ebitmap_bit (tgt_set p r k) t = true → t < N.of_nat (length (p_type_val_to_name p)).
Proof. intros H%(tgt_set_spec k). destruct (_ =? _); eapply (rp_types _ _ Hrep); apply H. Qed.

Lemma report_matches_run avt k d errors o :
  report_matches p r avt k d (src_set p r k) (tgt_set p r k) (u64 errors) o =
  Ret (inr (u64 (errors + N.of_nat (length (matching_perms r k d) *
                           (length (set_bits (src_set p r k)) * length (set_bits (tgt_set p r k))))))) o.
Proof.
  destruct (src_set_spec k) as [Hsw _]. destruct (tgt_set_spec k) as [Htw _].
  unfold report_matches, matching_perms. assert (∀ cp, cp ∈ ar_perms r → cp ∈ ar_perms r) as Hin by done. revert Hin.
  generalize (ar_perms r) at 1 3 4. intros l. revert errors. induction l as [|cp l IH]; intros errors Hin; cbn [for_list].
  { rewrite N.add_0_r. done. }
  rewrite bind_run, filter_cons. set (b := (cp_tclass cp =? target_class k) && truth (N.land (cp_data cp) (data d))).
  rewrite <- negb_andb. fold b. destruct b; cbn [negb].
  - rewrite decide_True by done. rewrite for_each_bit_fold with
      (f := λ i e, foldl (λ e j, u64 (e + 1)) e (set_bits (tgt_set p r k))); [|done| |done].
    + rewrite (fold_count _ (λ _ e, foldl (λ e j, u64 (e + 1)) e (set_bits (tgt_set p r k))) errors
                 (N.of_nat (length (set_bits (tgt_set p r k))))).
      * rewrite IH by (intros; apply Hin; by right). cbn [length]. do 3 f_equal. lia.
      * intros i e _. rewrite (fold_count _ (λ _ e, u64 (e + 1)) e 1); [f_equal; lia|]. intros j e' _. by rewrite u64_add.
    + intros i e o' Hi. cbn [negb]. apply for_each_bit_fold; [done| |done]. intros j e' o'' Hj. cbn [negb].
      rewrite (proj2 (N.eqb_neq _ _) Hplain), bind_run, report_names_run; [done|by eapply src_bound|by eapply tgt_bound|].
      apply Hin. left.
  - rewrite decide_False by done. apply IH. intros; apply Hin; by right.
Qed.

Lemma no_bits e : ebitmap_wf e → (ebitmap_length e =? 0) = true → length (set_bits e) = 0%nat.
Proof.
  intros Hw Hz%N.eqb_eq. destruct (set_bits e) as [|i l] eqn:E; [done|]. exfalso.
  assert (i ∈ set_bits e) as Hi by (rewrite E; left). apply elem_of_set_bits in Hi; [|done].
  apply ebitmap_bit_hi in Hi; [|done]. unfold ebitmap_length in Hz. lia.
Qed.

Lemma relevant_count n :
  rule_relevant r (av_key n) (av_datum n) = false → match_count p r n = 0.
Proof.
  unfold rule_relevant, match_count, matching_perms, match_any_class_permissions.
  destruct (specified (av_key n) =? AVTAB_ALLOWED); [|done]. cbn [andb].
  intros Hf. rewrite filter_none; [done|]. apply Forall_forall. intros cp Hcp.
  destruct (_ && _) eqn:E; [|done]. rewrite <- Hf. symmetry. apply existsb_exists.
  exists cp. split; [by apply list_elem_of_In|done].
Qed.

Lemma tgt_run k o :
  wp (if ar_flags r =? RULE_SELF then
        '(rc, matches) ← ebitmap_and (types_of p (source_type k)) (types_of p (target_type k));
        if bool_decide (rc ≠ 0%Z) then mret (rc, ebitmap_init) else ebitmap_and (ts_types (ar_stypes r)) matches
      else ebitmap_and (ts_types (ar_ttypes r)) (types_of p (target_type k))) o
    (λ res o', (o = [] → o' = [] ∧ res.1 = 0%Z) ∧ (res = (0%Z, tgt_set p r k) ∨ (res.1 < 0)%Z)).
Proof.
  pose proof (types_of_wf p Hp (source_type k)) as Hs. pose proof (types_of_wf p Hp (target_type k)) as Ht.
  unfold tgt_set. destruct (ar_flags r =? RULE_SELF); [|by apply and_meet; [apply Hr|]].
  wp_step. eapply wp_mono; [by apply and_meet|]. intros [rc m] o1 [Ho1 H1]. cbn in Ho1, H1.
  destruct H1 as [[= -> ->]|Hneg].
  - rewrite bool_decide_eq_false_2 by naive_solver. eapply wp_mono; [apply and_meet; [apply Hr|by apply meet_spec]|].
    intros [rc m] o2 [Ho2 H2]. split; [naive_solver|done].
  - rewrite bool_decide_eq_true_2 by lia. wp_step. cbn. split; [naive_solver|by right].
Qed.

Lemma report_match_spec tab n errors o :
  keys_wf p tab → n ∈ avtab_entries tab →
  wp (report_assertion_avtab_matches p r None (av_key n) (av_datum n) (u64 errors)) o (λ res o',
    (o = [] → o' = [] ∧ res.1 = 0%Z) ∧ (res = (0%Z, u64 (errors + match_count p r n)) ∨ (res.1 < 0)%Z)).
Proof.
  intros [_ Hk] Hn. destruct (Hk n Hn) as (Hs & Ht & _). unfold report_assertion_avtab_matches.
  destruct (rule_relevant r (av_key n) (av_datum n)) eqn:Hrel; cbn [negb].
  2: { wp_step. split; [done|]. left. rewrite relevant_count by done. by rewrite N.add_0_r. }
  assert (match_count p r n = N.of_nat (length (matching_perms r (av_key n) (av_datum n)) *
    (length (set_bits (src_set p r (av_key n))) * length (set_bits (tgt_set p r (av_key n)))))) as Hcount.
  { unfold match_count. unfold rule_relevant in Hrel. by apply andb_true_iff in Hrel as [-> _]. }
  destruct (src_set_spec (av_key n)) as [Hsw _]. destruct (tgt_set_spec (av_key n)) as [Htw _].
  wp_step. unfold wp at 1. rewrite (attr_types_run p Hp) by done. wp_step.
  eapply wp_mono; [apply and_meet; [apply Hr|by apply types_of_wf]|]. intros [rc m] o1 [Ho1 H1]. cbn in Ho1, H1.
  destruct H1 as [[= -> ->]|Hneg]; [|rewrite bool_decide_eq_true_2 by lia; wp_step; cbn; split; [naive_solver|by right]].
  rewrite bool_decide_eq_false_2 by naive_solver. fold (src_set p r (av_key n)).
  destruct (ebitmap_length (src_set p r (av_key n)) =? 0) eqn:Ez.
  { wp_step. split; [naive_solver|]. left. rewrite Hcount, (no_bits _ Hsw Ez), Nat.mul_0_l, Nat.mul_0_r. by rewrite N.add_0_r. }
  wp_step. unfold wp at 1. rewrite (attr_types_run p Hp) by done. wp_step.
  eapply wp_mono; [apply tgt_run|]. intros [rc m] o2 [Ho2 H2]. cbn in Ho2, H2.
  destruct H2 as [[= -> ->]|Hneg]; [|rewrite bool_decide_eq_true_2 by lia; wp_step; cbn; split; [naive_solver|by right]].
  rewrite bool_decide_eq_false_2 by naive_solver.
  destruct (ebitmap_length (tgt_set p r (av_key n)) =? 0) eqn:Ez2.
  { wp_step. split; [naive_solver|]. left. rewrite Hcount, (no_bits _ Htw Ez2), !Nat.mul_0_r. by rewrite N.add_0_r. }
  wp_step. unfold wp at 1. rewrite report_matches_run, <- Hcount. wp_step. split; [naive_solver|by left].
Qed.

Lemma report_table_spec tab errors o :
  keys_wf p tab →
  wp (avtab_map (Some tab) (report_assertion_avtab_matches p r None) (u64 errors)) o (λ res o',
    (o = [] → o' = [] ∧ res.1 = 0%Z) ∧
    (res = (0%Z, u64 (errors + rules_count p r (avtab_entries tab))) ∨ (res.1 < 0)%Z)).
Proof.
  intros Htab. unfold wp. rewrite avtab_map_entries by apply Htab. apply (wp_bind (for_list _ _ _)).
  apply (wp_for_list (λ dn e o', (o = [] → o' = []) ∧ e = u64 (errors + rules_count p r dn))).
  - split; [done|]. unfold rules_count. cbn. by rewrite N.add_0_r.
  - intros dn n rest e o1 Hsplit [Ho ->]. wp_step.
    eapply wp_mono; [eapply report_match_spec; [done|rewrite Hsplit; apply elem_of_app; right; left]|].
    intros [rc e] o2 [Ho2 Hres]. wp_step. cbn in Ho2, Hres. destruct Hres as [[= -> ->]|Hneg].
    + cbn. split; [naive_solver|]. f_equal. rewrite rules_count_app. unfold rules_count at 3. cbn. lia.
    + destruct (Z.eqb_spec rc 0); [lia|]. cbn. split; [naive_solver|by right].
  - intros e o1 [Ho ->]. wp_step. split; [naive_solver|by left].
Qed.

Lemma report_spec o :
  wp (report_assertion_failures p r) o (λ rc o',
    (o = [] → o' = [] ∧ rc = s32 (u64 (violation_count p r))) ∧ (rc = s32 (u64 (violation_count p r)) ∨ (rc < 0)%Z)).
Proof.
  unfold report_assertion_failures, violation_count. change 0 with (u64 0) at 1. wp_step.
  eapply wp_mono; [apply report_table_spec, Hp|]. intros [rc e] o1 [Ho1 H1]. cbn in Ho1, H1.
  destruct H1 as [[= -> ->]|Hneg]; [|rewrite bool_decide_eq_true_2 by lia; wp_step; split; [intros H; apply Ho1 in H; lia|by right]].
  rewrite bool_decide_eq_false_2 by naive_solver. wp_step.
  eapply wp_mono; [apply report_table_spec, Hp|]. intros [rc e] o2 [Ho2 H2]. cbn in Ho2, H2.
  destruct H2 as [[= -> ->]|Hneg]; [|rewrite bool_decide_eq_true_2 by lia; wp_step; split; [intros H; apply Ho1, proj1, Ho2 in H; lia|by right]].
  rewrite bool_decide_eq_false_2 by naive_solver. wp_step. rewrite rules_count_app, N.add_0_l.
  split; [|by left]. intros H. apply Ho1 in H as [H _]. by apply Ho2 in H as [-> _].
Qed.

(** A rule is counted exactly when it violates the assertion. *)
Lemma set_bits_pos e : ebitmap_wf e → (0 < length (set_bits e))%nat ↔ ∃ i, ebitmap_bit e i = true.
Proof.
  intros Hw. split.
  - destruct (set_bits e) as [|i l] eqn:E; cbn; [lia|]. intros _. exists i. apply elem_of_set_bits; [done|]. rewrite E. left.
  - intros [i Hi]. apply elem_of_set_bits in Hi; [|done]. destruct (set_bits e); [by apply elem_of_nil in Hi|cbn; lia].
Qed.

Lemma match_count_pos tab n : 0 < match_count p r n ↔ violates p r tab n.
Proof.
  unfold violates, xperms_violated. destruct (rule_relevant r (av_key n) (av_datum n)) eqn:Hrel.
  2: { rewrite relevant_count by done. split; [lia|]. by intros [? _]. }
  destruct (src_set_spec (av_key n)) as [Hsw Hsb]. destruct (tgt_set_spec (av_key n)) as [Htw Htb].
  pose proof (set_bits_pos _ Hsw) as Hs. pose proof (set_bits_pos _ Htw) as Ht. setoid_rewrite Hsb in Hs. setoid_rewrite Htb in Ht.
  assert (0 < length (matching_perms r (av_key n) (av_datum n)))%nat as Hm.
  { unfold rule_relevant, match_any_class_permissions in Hrel. apply andb_true_iff in Hrel as [_ Hrel].
    apply existsb_exists in Hrel as (cp & Hcp%list_elem_of_In & Hb). unfold matching_perms.
    destruct (filter _ _) as [|c l] eqn:E; [|cbn; lia]. exfalso. apply (not_elem_of_nil (A := class_perm_node) cp).
    rewrite <- E. by apply list_elem_of_filter. }
  unfold match_count. unfold rule_relevant in Hrel. apply andb_true_iff in Hrel as [-> _]. unfold types_overlap.
  assert (∀ a b c : nat, (0 < a)%nat → 0 < N.of_nat (a * (b * c)) ↔ (0 < b ∧ 0 < c)%nat) as Hprod by (intros; nia).
  rewrite Hprod, Hs, Ht by done. destruct (ar_flags r =? RULE_SELF).
  - split; [|naive_solver]. intros [_ (t & ? & ? & ?)]. split; [done|]. split; [by exists t|]. by intros ?.
  - split; [|naive_solver]. intros [? ?]. split; [done|]. split; [done|]. by intros ?.
Qed.

Lemma violation_count_pos : 0 < violation_count p r ↔ violated p r.
Proof.
  unfold violation_count, violated.
  assert (∀ tab, 0 < rules_count p r (avtab_entries tab) ↔
            ∃ n, n ∈ avtab_entries tab ∧ violates p r tab n) as Htab.
  { intros tab. setoid_rewrite <- (match_count_pos tab). unfold rules_count. generalize (avtab_entries tab). intros l.
    induction l as [|n l IH]; cbn.
    - split; [lia|]. by intros (n & ?%elem_of_nil & _).
    - setoid_rewrite elem_of_cons. split.
      + intros H. destruct (decide (0 < match_count p r n)); [exists n; tauto|].
        destruct (proj1 IH) as (m & ? & ?); [lia|]. exists m. tauto.
      + intros (m & [-> |Hm] & Hc); [lia|]. assert (0 < foldr (λ n c, match_count p r n + c) 0 l) by (apply IH; by exists m). lia. }
  rewrite <- !Htab, rules_count_app. lia.
Qed.

End report.

(** * The check of all assertions *)

Definition is_neverallow (r : avrule) : bool :=
  truth (N.land (ar_specified r) (N.lor AVRULE_NEVERALLOW AVRULE_XPERMS_NEVERALLOW)).

(** A plain assertion that can be checked and reported, with fewer violations
    than an [int] can count. *)
Definition assertion_wf (p : policydb) (r : avrule) : Prop :=
  avrule_wf r ∧ reportable p r ∧ ar_specified r ≠ AVRULE_XPERMS_NEVERALLOW ∧ violation_count p r < 2 ^ 31.

Definition assertions_count (p : policydb) (l : list avrule) : N :=
  foldr (λ r c, (if is_neverallow r then violation_count p r else 0) + c) 0 l.

Lemma assertions_count_app p l r :
  assertions_count p (l ++ [r]) = assertions_count p l + (if is_neverallow r then violation_count p r else 0).
Proof. induction l as [|r' l IH]; unfold assertions_count in *; cbn [app foldr]; [lia|]. rewrite IH. lia. Qed.

Lemma check_assertions_spec p avrules o :
  checked_policy p → (∀ r, r ∈ avrules → is_neverallow r = true → assertion_wf p r) →
  assertions_count p avrules < 2 ^ 64 →
  wp (check_assertions p avrules) o (λ rc o',
    (rc = 0%Z ∧ assertions_count p avrules = 0) ∨ (rc = (-1)%Z ∧ (o = [] → assertions_count p avrules ≠ 0))).
Proof.
  intros Hp Hwf Hcount. unfold check_assertions. wp_step.
  apply (wp_for_list (λ dn e o', (o = [] → o' = []) ∧ e = u64 (assertions_count p dn))).
  - done.
  - intros dn r rest e o1 Hsplit [Ho ->]. fold (is_neverallow r). rewrite assertions_count_app.
    destruct (is_neverallow r) eqn:Hnv; cbn [negb]; [|wp_step; split; [done|]; by rewrite N.add_0_r].
    destruct (Hwf r) as (Hr & Hrep & Hplain & Hlt); [rewrite Hsplit; apply elem_of_app; right; left|done|].
    pose proof (violation_count_pos p r Hp Hr Hplain) as Hpos. wp_step. eapply wp_mono; [by apply check_assertion_spec|].
    intros rc o2 [Ho2 H2]. destruct (Z.eqb_spec rc 0) as [-> |Hne].
    + wp_step. split; [naive_solver|]. destruct H2 as [[? _]|[[_ Hv]|?]]; [done| |lia]. f_equal.
      rewrite <- Hpos in Hv. lia.
    + wp_step. eapply wp_mono; [by apply report_spec|]. intros rc' o3 [Ho3 H3]. wp_step.
      assert (s32 (u64 (violation_count p r)) = Z.of_N (violation_count p r)) as Hs.
      { assert (u64 (violation_count p r) = violation_count p r) as ->.
        { unfold u64. apply N.mod_small. change (2 ^ 31) with 2147483648 in Hlt. change (2 ^ 64) with 18446744073709551616. lia. }
        by apply s32_small. }
      rewrite Hs in Ho3, H3. destruct (Z.ltb_spec rc' 0).
      * wp_step. right. split; [done|]. intros H1. apply Ho, Ho2, proj1, Ho3 in H1. lia.
      * destruct H3 as [-> |?]; [|lia]. split; [intros H1; by apply Ho3, Ho2, Ho|]. rewrite N2Z.id. by rewrite u64_add.
  - intros e o1 [Ho ->]. wp_step. assert (u64 (assertions_count p avrules) = assertions_count p avrules) as -> by (by apply N.mod_small).
    destruct (N.eqb_spec (assertions_count p avrules) 0); [by left|by right].
Qed.

Lemma assertions_count_zero p l :
  checked_policy p → (∀ r, r ∈ l → is_neverallow r = true → assertion_wf p r) →
  assertions_count p l = 0 ↔ ∀ r, r ∈ l → is_neverallow r = true → ¬ violated p r.
Proof.
  intros Hp. induction l as [|r l IH]; intros Hwf; unfold assertions_count in *; cbn [foldr].
  { split; [|done]. by intros _ r ?%elem_of_nil. }
  assert (∀ r', r' ∈ l → is_neverallow r' = true → assertion_wf p r') as Hl by (intros; apply Hwf; [by right|done]).
  specialize (IH Hl). setoid_rewrite elem_of_cons. rewrite N.eq_add_0, IH. split.
  - intros [H0 Ht] r' [-> |Hr'] Hnv; [|by apply Ht]. rewrite Hnv in H0.
    destruct (Hwf r ltac:(left) Hnv) as (Hr & _ & Hplain & _). rewrite <- violation_count_pos by done. lia.
  - intros H. split; [|intros r' Hr'; apply H; by right]. destruct (is_neverallow r) eqn:Hnv; [|done].
    destruct (Hwf r ltac:(left) Hnv) as (Hr & _ & Hplain & _). specialize (H r ltac:(by left) Hnv).
    rewrite <- violation_count_pos in H by done. lia.
Qed.

Lemma counted_violation p avrules :
  checked_policy p → (∀ r, r ∈ avrules → is_neverallow r = true → assertion_wf p r) → assertions_count p avrules ≠ 0 →
  ∃ r, r ∈ avrules ∧ is_neverallow r = true ∧ violated p r.
Proof.
  intros Hp. induction avrules as [|r l IH]; intros Hwf Hc; [done|]. cbn [assertions_count foldr] in Hc.
  destruct (is_neverallow r) eqn:Hn; [destruct (N.eqb_spec (violation_count p r) 0) as [H0|H0]|].
  - destruct IH as (r' & H1 & H2 & H3); [intros; apply Hwf; [by right|done]|rewrite H0 in Hc; exact Hc|]. exists r'. split; [by right|done].
  - exists r. split; [by left|]. split; [done|]. destruct (Hwf r ltac:(by left) Hn) as (Hr & _ & Hplain & _).
    apply (violation_count_pos p r Hp Hr Hplain). lia.
  - destruct IH as (r' & H1 & H2 & H3); [intros; apply Hwf; [by right|done]|exact Hc|]. exists r'. split; [by right|done].
Qed.

(** * From assertions to decisions *)

(** The maps that decisions and assertions read agree on type [x]: if it has
    an attribute, it is one of the attribute's types. *)
Definition maps_agree (p : policydb) (x : N) : Prop :=
  ∀ a e, type_attr_map p !! N.to_nat x = Some e → ebitmap_bit e a = true →
    a + 1 < 2 ^ 16 ∧ ebitmap_bit (types_of p (a + 1)) x = true.

(** The maps that [expand_module] builds agree on the declared types. *)
Lemma built_maps_agree p m (T : N → Prop) x :
  attr_type_map p = am_types m → type_attr_map p = am_attrs m → maps_inverse T m → T x →
  N.of_nat (length (am_types m)) < 2 ^ 16 →
  (∀ a e, am_attrs m !! N.to_nat x = Some e → ebitmap_bit e a = true → a < N.of_nat (length (am_types m))) →
  maps_agree p x.
Proof.
  intros Ht Ha Hinv HT Hlen Hb a e He Hbit. rewrite Ha in He. specialize (Hb a e He Hbit). split; [lia|].
  unfold types_of. rewrite Ht. replace (a + 1 - 1) with a by lia.
  destruct (lookup_lt_is_Some_2 (am_types m) (N.to_nat a)) as [ea Hea]; [lia|]. rewrite Hea. cbn.
  by apply (Hinv x a e ea HT He Hea).
Qed.

(** Conditional rules hold one kind of rule each and are switched off. *)
Definition cond_rules_off (tab : avtab) : Prop :=
  ∀ n, n ∈ avtab_entries tab → specified (av_key n) ∈ [1; 2; 4; 16; 32; 64; 256; 512; 1024].

(** The assertion covers permission [k] of the class from one type to the other. *)
Definition forbids (r : avrule) (s t : N) (tclass k : N) : Prop :=
  (∃ cp, cp ∈ ar_perms r ∧ cp_tclass cp = tclass ∧ N.testbit (cp_data cp) k = true) ∧
  ebitmap_bit (ts_types (ar_stypes r)) (s - 1) = true ∧
  if ar_flags r =? RULE_SELF then s = t else ebitmap_bit (ts_types (ar_ttypes r)) (t - 1) = true.

(** The policy that decides: the one that was checked, with its conditional
    rules switched on or off. *)
Definition same_policy (p p' : policydb) : Prop :=
  te_avtab p' = te_avtab p ∧ same_rules (te_cond_avtab p) (te_cond_avtab p') ∧ type_attr_map p' = type_attr_map p.

Section enforce.
Context (p p' : policydb) (r : avrule) (s t tclass k : N) (sattr tattr : ebitmap).
Context (Hms : maps_agree p (s - 1)) (Hmt : maps_agree p (t - 1)) (Hplain : ar_specified r ≠ AVRULE_XPERMS_NEVERALLOW) (Hfor : forbids r s t tclass k).
Context (Hs : 0 < s) (Ht : 0 < t).
Context (Hsattr : type_attr_map p !! N.to_nat (s - 1) = Some sattr).
Context (Htattr : type_attr_map p !! N.to_nat (t - 1) = Some tattr).

(** An [allow] rule for attributes of the two types that grants [k] violates
    the assertion. *)
Lemma granting_rule_violates tab n i j :
  ebitmap_bit sattr i = true → ebitmap_bit tattr j = true →
  key_match (pair_key tclass i j) AVTAB_AV (av_key n) = true → specified (av_key n) = AVTAB_ALLOWED →
  N.testbit (data (av_datum n)) k = true → violates p r tab n.
Proof.
  intros Hi Hj Hm Hspec Hk. destruct Hfor as [(cp & Hcp & Hcls & Hbit) [Hsrc Htgt]].
  destruct (Hms _ _ Hsattr Hi) as [Hi16 Hsi]. destruct (Hmt _ _ Htattr Hj) as [Hj16 Htj].
  unfold key_match, pair_key in Hm. cbn [source_type target_type target_class] in Hm. reflect_bools.
  assert (u16 (i + 1) = i + 1) as Hui by (by apply N.mod_small). assert (u16 (j + 1) = j + 1) as Huj by (by apply N.mod_small).
  rewrite Hui in *. rewrite Huj in *.
  assert (source_type (av_key n) = i + 1) as Hks by congruence. assert (target_type (av_key n) = j + 1) as Hkt by congruence.
  assert (target_class (av_key n) = tclass) as Hkc by congruence. split; [|split].
  - unfold rule_relevant, match_any_class_permissions. rewrite Hspec, N.eqb_refl, Hkc. cbn [andb]. apply existsb_exists.
    exists cp. split; [by apply list_elem_of_In|]. rewrite Hcls, N.eqb_refl. cbn [andb]. apply truth_spec. intros E.
    apply (f_equal (λ x, N.testbit x k)) in E. by rewrite N.land_spec, Hbit, Hk, N.bits_0 in E.
  - unfold types_overlap. rewrite Hks, Hkt. destruct (ar_flags r =? RULE_SELF).
    + exists (s - 1). split; [done|]. split; [done|]. by rewrite Htgt.
    + split; [by exists (s - 1)|by exists (t - 1)].
  - by intros ?.
Qed.

Lemma not_granted :
  same_policy p p' → cond_rules_off (te_cond_avtab p) → ¬ violated p r → ¬ te_granted p' sattr tattr tclass k.
Proof.
  intros (Hte & Hcond & _) Hoff Hnv (i & j & Hi & Hj & Ha). apply Hnv. unfold te_allows in Ha.
  apply orb_true_iff in Ha as [Ha|Ha]; apply existsb_exists in Ha as (n & Hn%list_elem_of_In & [Hk Hb]%andb_true_iff);
    apply list_elem_of_filter in Hn as [Hm Hn].
  - left. exists n. rewrite Hte in Hn. split; [done|]. apply N.eqb_eq in Hk. by eapply granting_rule_violates.
  - right. apply same_rules_entries in Hcond. apply list_elem_of_lookup in Hn as [idx Hn].
    destruct (Forall2_lookup_r _ _ _ _ _ Hcond Hn) as (n0 & Hn0 & Hsame).
    exists n0. assert (n0 ∈ avtab_entries (te_cond_avtab p)) as Hin by (apply list_elem_of_lookup; by exists idx).
    split; [done|]. destruct Hsame as (Hss & Hst & Hsc & Hspec & Hd & _).
    assert (specified (av_key n0) = AVTAB_ALLOWED) as H1.
    { assert (N.testbit (specified (av_key n0)) 0 = true) as Hb0.
      { unfold rule_kind in Hk. apply N.eqb_eq, (f_equal (λ x, N.testbit x 0)) in Hk. rewrite N.land_spec in Hk.
        change (N.testbit (N.lor AVTAB_ALLOWED AVTAB_ENABLED) 0) with true in Hk. rewrite andb_true_r in Hk.
        apply (f_equal (λ x, N.testbit x 0)) in Hspec. unfold rule_off in Hspec. rewrite !N.ldiff_spec in Hspec.
        change (N.testbit AVTAB_ENABLED 0) with false in Hspec. cbn [negb] in Hspec. rewrite !andb_true_r in Hspec. congruence. }
      specialize (Hoff n0 Hin). revert Hoff Hb0. generalize (specified (av_key n0)). intros x Hx.
      rewrite !elem_of_cons, elem_of_nil in Hx.
      by destruct Hx as [-> |[-> |[-> |[-> |[-> |[-> |[-> |[-> |[-> |[]]]]]]]]]]. }
    eapply granting_rule_violates; [exact Hi|exact Hj| |done|by rewrite <- Hd].
    unfold key_match in Hm |- *. rewrite <- Hss, <- Hst, <- Hsc, H1. reflect_bools.
    apply andb_true_iff. split; [|done]. by rewrite !andb_true_iff, !N.eqb_eq.
Qed.

End enforce.

(** * What a neverallow rule says

    A [neverallow] rule forbids permissions from its sources to its targets,
    and with [self] from each source to itself; a policy breaks it by an [allow]
    rule, conditional or not, for types or attributes with those types. *)

Definition forbidden (r : avrule) (s t tclass k : N) : Prop :=
  (∃ cp, cp ∈ ar_perms r ∧ cp_tclass cp = tclass ∧ N.testbit (cp_data cp) k = true) ∧
  ebitmap_bit (ts_types (ar_stypes r)) s = true ∧
  (ebitmap_bit (ts_types (ar_ttypes r)) t = true ∨ (N.testbit (ar_flags r) 0 = true ∧ s = t)).

(** Types and attributes in the key of a rule stand for the types of
    [attr_type_map]. *)
Definition rule_gives (p : policydb) (n : avtab_node) (s t tclass k : N) : Prop :=
  N.testbit (specified (av_key n)) 0 = true ∧ target_class (av_key n) = tclass ∧ N.testbit (data (av_datum n)) k = true ∧
  ebitmap_bit (types_of p (source_type (av_key n))) s = true ∧ ebitmap_bit (types_of p (target_type (av_key n))) t = true.

Definition broken (p : policydb) (r : avrule) : Prop :=
  ∃ n s t tclass k, (n ∈ avtab_entries (te_avtab p) ∨ n ∈ avtab_entries (te_cond_avtab p)) ∧
    rule_gives p n s t tclass k ∧ forbidden r s t tclass k.

(** The sets of a rule list types, as [copy_neverallow] leaves them; and with
    [self] the rule has no other targets, which the check would ignore. *)
Record plain_assertion (r : avrule) : Prop := {
  pa_sources : ts_negset (ar_stypes r) = ebitmap_init ∧ ts_flags (ar_stypes r) = 0;
  pa_targets : ts_negset (ar_ttypes r) = ebitmap_init ∧ ts_flags (ar_ttypes r) = 0;
  pa_self : ar_flags r = 0 ∨ (ar_flags r = RULE_SELF ∧ ∀ t, ebitmap_bit (ts_types (ar_ttypes r)) t = false) }.

Lemma shared_bit a b : truth (N.land a b) = true ↔ ∃ k, N.testbit a k = true ∧ N.testbit b k = true.
Proof.
  rewrite truth_spec. split.
  - intros Hne%N.bit_log2. rewrite N.land_spec in Hne. apply andb_true_iff in Hne. by eexists.
  - intros (k & Ha & Hb) E. apply (f_equal (λ x, N.testbit x k)) in E. by rewrite N.land_spec, Ha, Hb, N.bits_0 in E.
Qed.

Lemma off_allows tab n : cond_rules_off tab → n ∈ avtab_entries tab →
  N.testbit (specified (av_key n)) 0 = true ↔ specified (av_key n) = AVTAB_ALLOWED.
Proof.
  intros Hoff Hin. specialize (Hoff n Hin). generalize dependent (specified (av_key n)). intros x Hx.
  rewrite !elem_of_cons, elem_of_nil in Hx. by destruct Hx as [-> |[-> |[-> |[-> |[-> |[-> |[-> |[-> |[-> |[]]]]]]]]]].
Qed.

Lemma violates_gives p r tab n :
  plain_assertion r → ar_specified r ≠ AVRULE_XPERMS_NEVERALLOW → cond_rules_off tab → n ∈ avtab_entries tab →
  violates p r tab n ↔ ∃ s t tclass k, rule_gives p n s t tclass k ∧ forbidden r s t tclass k.
Proof.
  intros [_ _ Hself] Hplain Hoff Hin. unfold violates, rule_gives, forbidden.
  unfold rule_relevant, match_any_class_permissions. rewrite andb_true_iff, N.eqb_eq, existsb_exists, <- (off_allows tab n Hoff Hin).
  unfold types_overlap. destruct Hself as [Hf|[Hf Hnone]]; rewrite Hf.
  - change (0 =? RULE_SELF) with false. cbv iota. split.
    + intros ((Ha & cp & Hcp%list_elem_of_In & Hm) & [(s & Hs1 & Hs2) (t & Ht1 & Ht2)] & _).
      apply andb_true_iff in Hm as [Hc%N.eqb_eq Hm]. apply shared_bit in Hm as (k & Hk1 & Hk2). exists s, t, (cp_tclass cp), k. split; [by split_and!|]. split; [by exists cp|]. split; [done|by left].
    + intros (s & t & c & k & (Ha & Hc & Hk & Hs & Ht) & (cp & Hcp & Hcc & Hck) & Hs' & [Ht'|[Hz _]]); [|done].
      split_and!; [done| |by exists s|by exists t|by intros ?]. exists cp. split; [by apply list_elem_of_In|].
      apply andb_true_iff. split; [apply N.eqb_eq; congruence|]. apply shared_bit. by exists k.
  - rewrite N.eqb_refl. split.
    + intros ((Ha & cp & Hcp%list_elem_of_In & Hm) & (t & Ht1 & Ht2 & Ht3) & _).
      apply andb_true_iff in Hm as [Hc%N.eqb_eq Hm]. apply shared_bit in Hm as (k & Hk1 & Hk2). exists t, t, (cp_tclass cp), k. split; [by split_and!|]. split; [by exists cp|]. split; [done|by right].
    + intros (s & t & c & k & (Ha & Hc & Hk & Hs & Ht) & (cp & Hcp & Hcc & Hck) & Hs' & [Ht'|[_ <-]]); [by rewrite Hnone in Ht'|].
      split_and!; [done| |by exists s|by intros ?]. exists cp. split; [by apply list_elem_of_In|].
      apply andb_true_iff. split; [apply N.eqb_eq; congruence|]. apply shared_bit. by exists k.
Qed.

Lemma violated_broken p r :
  plain_assertion r → ar_specified r ≠ AVRULE_XPERMS_NEVERALLOW → cond_rules_off (te_avtab p) → cond_rules_off (te_cond_avtab p) →
  violated p r ↔ broken p r.
Proof.
  intros Hr Hplain Ht Hc. unfold violated, broken. split.
  - intros [(n & Hin & (s & t & c & k & H1 & H2)%violates_gives)|(n & Hin & (s & t & c & k & H1 & H2)%violates_gives)]; try done;
      exists n, s, t, c, k; auto.
  - intros (n & s & t & c & k & [Hin|Hin] & H); [left|right]; exists n; (split; [done|]); apply violates_gives; eauto 10.
Qed.

Lemma forbidden_forbids r s t tclass k :
  plain_assertion r → 0 < s → 0 < t → forbidden r (s - 1) (t - 1) tclass k → forbids r s t tclass k.
Proof.
  intros [_ _ Hself] Hs Ht (Hc & Hsrc & Htgt). split; [done|]. split; [done|].
  destruct Hself as [Hf|[Hf Hnone]]; rewrite Hf in *.
  - by destruct Htgt as [Htgt|[Hz _]].
  - rewrite N.eqb_refl. destruct Htgt as [Htgt|[_ He]]; [by rewrite Hnone in Htgt|lia].
Qed.

(** * Theorems *)

(** The check of one assertion.  [check_assertion] answers 1 exactly when
    some rule violates it; for a neverallowxperm rule the [allow] rule has to
    leave open a forbidden ioctl command: no extended permissions are given for
    its key, or some of them and the forbidden ones have a command in common,
    drivers and functions being two ways to write a set of commands. *)
Theorem check_assertion_exact p r o :
  checked_policy p → avrule_wf r → wp (check_assertion p r) o (verdict o (violated p r)).
Proof. intros Hp Hr. by apply check_assertion_spec. Qed.

(** C9: [check_assertions] accepts a policy exactly when the policy breaks none
    of the neverallow rules: when no [allow] rule, unconditional or
    conditional, gives a permission that a neverallow rule forbids from one
    type to another, attributes standing for their types.  When memory is short
    the policy is rejected or the answer is right.  The rules are neverallow
    rules, not neverallowxperm rules, with expanded sets and without targets
    next to [self]; the conditional rules are not switched on; and the
    violations are fewer than the counters hold. *)
Theorem neverallow_check_exact p avrules o :
  checked_policy p → (∀ r, r ∈ avrules → is_neverallow r = true → assertion_wf p r ∧ plain_assertion r) →
  assertions_count p avrules < 2 ^ 64 → cond_rules_off (te_avtab p) → cond_rules_off (te_cond_avtab p) →
  wp (check_assertions p avrules) o (λ rc o',
    (rc = 0%Z ∧ ∀ r, r ∈ avrules → is_neverallow r = true → ¬ broken p r) ∨
    (rc = (-1)%Z ∧ (o = [] → ∃ r, r ∈ avrules ∧ is_neverallow r = true ∧ broken p r))).
Proof.
  intros Hp Hwf Hc Ht Hco. assert (∀ r, r ∈ avrules → is_neverallow r = true → assertion_wf p r) as Hwf' by (intros r H1 H2; by apply Hwf).
  eapply wp_mono; [by apply check_assertions_spec|]. intros rc o' Hr.
  assert (∀ r, r ∈ avrules → is_neverallow r = true → violated p r ↔ broken p r) as Hv.
  { intros r H1 H2. destruct (Hwf r H1 H2) as [(_ & _ & H3 & _) H4]. by apply violated_broken. }
  destruct Hr as [[-> H0]|[-> H0]]; [left|right]; (split; [done|]).
  - intros r H1 H2. rewrite <- Hv by done. by apply (assertions_count_zero p avrules Hp Hwf').
  - intros Ho. destruct (counted_violation p avrules Hp Hwf' (H0 Ho)) as (r & H1 & H2 & H3). exists r. by rewrite <- Hv.
Qed.

(** C5: a policy that passes the check never grants what a neverallow rule
    forbids, whatever its Booleans are set to later.  The security server's
    decision [context_struct_compute_av] on the checked policy, with its
    conditional rules switched in any way, denies every permission that a
    neverallow rule forbids between the types of the two contexts.  This holds
    for neverallow rules that are not neverallowxperm rules, with expanded sets
    and without targets next to [self], which the check drops
    ([neverallow_self_drops_targets]); for policies whose two maps of types and
    attributes agree and whose conditional rules were switched off when they
    were checked ([neverallow_misses_enabled] shows why); and for fewer
    violations than the counters hold. *)
Theorem neverallow_enforced p p' avrules r o o1 o2 lg s t tclass requested avd0 reason0 cd sattr tattr value k :
  checked_policy p → (∀ r, r ∈ avrules → is_neverallow r = true → assertion_wf p r ∧ plain_assertion r) →
  assertions_count p avrules < 2 ^ 64 → check_assertions p avrules o1 = Ret 0%Z o2 →
  r ∈ avrules → is_neverallow r = true → forbidden r (type s - 1) (type t - 1) tclass k → k < 32 →
  maps_agree p (type s - 1) → maps_agree p (type t - 1) → cond_rules_off (te_cond_avtab p) → same_policy p p' →
  decision_wf p' s t tclass cd sattr tattr → requested < 2 ^ 32 →
  (∀ c, c ∈ constraints cd → constraint_value p' s t None c (value c)) →
  wp (context_struct_compute_av p' lg s t tclass requested avd0 reason0) o (λ res o',
    res.1.1 = 0%Z ∧ allows res.1.2 k = false).
Proof.
  intros Hp Hwf' Hc Hok Hin Hnv Hfor Hk Hms Hmt Hoff Hsame Hdw Hreq Hval.
  assert (∀ r, r ∈ avrules → is_neverallow r = true → assertion_wf p r) as Hwf by (intros r' H1 H2; by apply Hwf').
  assert (forbids r (type s) (type t) tclass k) as Hforb.
  { pose proof (dw_types _ _ _ _ _ _ _ Hdw). apply forbidden_forbids; [by apply Hwf'|lia|lia|done]. }
  pose proof (check_assertions_spec p avrules o1 Hp Hwf Hc) as Hchk. unfold wp in Hchk. rewrite Hok in Hchk.
  destruct Hchk as [[_ H0]|[? _]]; [|done].
  pose proof (proj1 (assertions_count_zero p avrules Hp Hwf) H0 r Hin Hnv) as Hviol.
  eapply wp_mono; [by apply compute_av_spec|]. intros [[rc avd] reason] o' (Hrc & _ & _ & _ & Hgr & _). cbn.
  split; [done|]. destruct (allows avd k) eqn:Ha; [exfalso|done].
  destruct (Hgr k Hk Ha) as [Hte _]. destruct (Hwf r Hin Hnv) as (_ & _ & Hplain & _).
  destruct Hdw as [_ _ _ _ _ (Hs0 & _ & Ht0 & _) [Hsa _] [Hta _]]. destruct Hsame as (He1 & He2 & He3).
  rewrite He3 in Hsa, Hta. revert Hte. eapply (not_granted p p' r (type s) (type t)); try done.
Qed.

(** ** Examples *)

Definition one_slot (l : list avtab_node) : avtab := Avtab (Some [l]) (N.of_nat (length l)) 1 0.

Lemma one_slot_wf l : av_sorted l → N.of_nat (length l) < 2 ^ 32 → avtab_wf (one_slot l).
Proof.
  intros Hs Hl. split; cbn; [|done|].
  - eexists. split; [done|]. split; [done|]. intros [|i] c Hi; [|done]. injection Hi as <-. split; [done|].
    apply Forall_forall. intros n _. pose proof (avtab_hash_le (av_key n) 0). lia.
  - unfold avtab_entries. cbn. rewrite app_nil_r. by rewrite u32_small.
Qed.

(** Types 1 and 2 with the attribute 3; what a test changes are the tables. *)
Definition ex_maps : attr_maps :=
  AttrMaps [EBitmap [EBNode 0 1] 64; EBitmap [EBNode 0 2] 64; EBitmap [EBNode 0 3] 64]
           [EBitmap [EBNode 0 5] 64; EBitmap [EBNode 0 6] 64; EBitmap [EBNode 0 4] 64].

Definition ex_assert_policy (te cond : list avtab_node) : policydb :=
  set_bools (with_types ex_policy ex_types ex_maps (one_slot te)) [] (one_slot cond) [].

Definition ex_allow (s t spec d : N) : avtab_node := AvtabNode (AvtabKey s t 1 spec) (AvtabDatum d None) false.

(** [neverallow a_t b_t : class perms] *)
Definition ex_neverallow (perms : N) : avrule :=
  AvRule AVRULE_NEVERALLOW 0 (TypeSet (EBitmap [EBNode 0 1] 64) ebitmap_init 0)
    (TypeSet (EBitmap [EBNode 0 2] 64) ebitmap_init 0) [ClassPerm 1 perms] None.

Definition ex_te : list avtab_node := [ex_allow 1 2 AVTAB_ALLOWED 2].
Definition ex_cond (flag : N) : list avtab_node := [ex_allow 3 1 (AVTAB_ALLOWED + flag) 3].

Lemma ex_checked flag : flag = 0 ∨ flag = AVTAB_ENABLED → checked_policy (ex_assert_policy ex_te (ex_cond flag)).
Proof.
  intros Hflag. split; [| |done|by_decide].
  - split; [apply one_slot_wf; [repeat constructor|done]|]. intros n Hn. apply list_elem_of_singleton in Hn as ->.
    split; [done|]. split; done.
  - split; [apply one_slot_wf; [repeat constructor|done]|]. intros n Hn. apply list_elem_of_singleton in Hn as ->.
    split; [done|]. split; [done|]. by destruct Hflag as [-> | ->].
Qed.

Lemma ex_tables_wf : tables_wf ex_class.
Proof. split; [done|]. split; [ex_struct|done]. Qed.

Lemma ex_assertion_wf te cond :
  violation_count (ex_assert_policy te cond) (ex_neverallow 1) < 2 ^ 31 →
  assertion_wf (ex_assert_policy te cond) (ex_neverallow 1).
Proof.
  intros Hc. split; [split; [by_decide|by_decide|done]|]. split; [|done]. split.
  - intros v. unfold types_of. destruct (N.to_nat (v - 1)) as [|[|[|n]]]; apply bits_all; by_decide.
  - intros cp ->%list_elem_of_singleton. split; [done|]. split; [by eexists|]. exists ex_class.
    split; [done|apply ex_tables_wf].
Qed.

Lemma ex_assertions_wf flag r :
  flag = 0 ∨ flag = AVTAB_ENABLED → r ∈ [ex_neverallow 1] → is_neverallow r = true →
  assertion_wf (ex_assert_policy ex_te (ex_cond flag)) r.
Proof.
  intros [-> | ->] ->%list_elem_of_singleton _; apply ex_assertion_wf; by vm_compute.
Qed.

Lemma ex_plain r : r ∈ [ex_neverallow 1] → plain_assertion r.
Proof. intros ->%list_elem_of_singleton. split; [done|done|by left]. Qed.

Lemma neverallow_check_exact_witness :
  wp (check_assertions (ex_assert_policy ex_te (ex_cond 0)) [ex_neverallow 1]) [] (λ rc o',
    (rc = 0%Z ∧ ∀ r, r ∈ [ex_neverallow 1] → is_neverallow r = true → ¬ broken (ex_assert_policy ex_te (ex_cond 0)) r) ∨
    (rc = (-1)%Z ∧ (@nil bool = [] → ∃ r, r ∈ [ex_neverallow 1] ∧ is_neverallow r = true ∧
                       broken (ex_assert_policy ex_te (ex_cond 0)) r))) ∧
  check_assertions (ex_assert_policy ex_te (ex_cond 0)) [ex_neverallow 1] [] = Ret 0%Z [] ∧
  check_assertions (ex_assert_policy ex_te (ex_cond 0)) [ex_neverallow 2] [] = Ret (-1)%Z [].
Proof.
  split; [|split; by vm_compute].
  apply neverallow_check_exact; [apply ex_checked; by left| |by vm_compute|..].
  - intros r Hr Hn. split; [by apply (ex_assertions_wf 0 r (or_introl eq_refl))|]. by apply ex_plain.
  - intros n ->%list_elem_of_singleton. by_decide.
  - intros n ->%list_elem_of_singleton. by_decide.
Defined.

Lemma ex_assert_constraint cond c :
  c ∈ constraints ex_class → constraint_value (ex_assert_policy ex_te cond) ex_src ex_tgt None c false.
Proof.
  intros ->%list_elem_of_singleton.
  eexists (CBin false (CLeaf _) (CLeaf _)), (λ _, false). split; [|split; [unfold CEXPR_MAXDEPTH; cbn; lia|split; [done|split; [|done]]]].
  - apply (crpn_bin false _ _ [_] [_]); [apply crpn_leaf; by left|apply crpn_leaf; by left|done].
  - intros e He. set_unfold in He. by destruct He as [-> | [-> | []]].
Qed.

Lemma ex_maps_agree te cond x : x < 2 → maps_agree (ex_assert_policy te cond) x.
Proof.
  intros Hx a e He. assert (x = 0 ∨ x = 1) as [-> | ->] by lia; injection He as <-; revert a; apply bits_all; by_decide.
Qed.

(** The conditional rule is switched on after the check. *)
Lemma neverallow_enforced_witness :
  wp (context_struct_compute_av (ex_assert_policy ex_te (ex_cond AVTAB_ENABLED)) 7 ex_src ex_tgt 1 3
        (AvDecision 0 0 0 0 0) 0) [] (λ res o', res.1.1 = 0%Z ∧ allows res.1.2 0 = false).
Proof.
  apply (neverallow_enforced (ex_assert_policy ex_te (ex_cond 0)) (ex_assert_policy ex_te (ex_cond AVTAB_ENABLED))
    [ex_neverallow 1] (ex_neverallow 1) [] [] [] 7 ex_src ex_tgt 1 3 _ _ ex_class
    (EBitmap [EBNode 0 5] 64) (EBitmap [EBNode 0 6] 64) (λ _, false) 0).
  - apply ex_checked. by left.
  - intros r Hr Hn. split; [by apply (ex_assertions_wf 0 r (or_introl eq_refl))|]. by apply ex_plain.
  - by vm_compute.
  - by vm_compute.
  - by left.
  - done.
  - split; [exists (ClassPerm 1 1); split; [by left|done]|]. split; [done|by left].
  - done.
  - by apply ex_maps_agree.
  - by apply ex_maps_agree.
  - intros n Hn. apply list_elem_of_singleton in Hn as ->. by left.
  - split; [done|]. split; [|done]. split; [done|]. split; [done|]. split; [done|]. repeat constructor; by vm_compute.
  - split; try done; (apply one_slot_wf; [repeat constructor|done]).
  - done.
  - apply ex_assert_constraint.
Defined.

(** An enabled conditional rule is not checked.  The callback compares the
    whole mask of a rule with [AVTAB_ALLOWED], and a conditional rule that is
    switched on carries [AVTAB_ENABLED] as well; [expand_module] switches the
    rules before it checks the assertions.  The check accepts a policy whose
    security server grants what the neverallow rule forbids, and rejects the same
    policy when the rule is off. *)
Theorem neverallow_misses_enabled :
  let on := ex_assert_policy [] [ex_allow 1 2 (AVTAB_ALLOWED + AVTAB_ENABLED) 2] in
  let off := ex_assert_policy [] [ex_allow 1 2 AVTAB_ALLOWED 2] in
  check_assertions on [ex_neverallow 2] [] = Ret 0%Z [] ∧
  check_assertions off [ex_neverallow 2] [] = Ret (-1)%Z [] ∧
  ∃ avd reason, context_struct_compute_av on 7 ex_src ex_tgt 1 2 (AvDecision 0 0 0 0 0) 0 [] =
    Ret (0%Z, avd, reason) [] ∧ allows avd 1 = true.
Proof.
  split; [by vm_compute|]. split; [by vm_compute|]. eexists _, _. split; [by vm_compute|done].
Qed.

(** An assertion with [self] ignores its other targets: [neverallow a_t
    { self b_t }] accepts a rule from [a_t] to [b_t]. *)
Example neverallow_self_drops_targets :
  let r := AvRule AVRULE_NEVERALLOW RULE_SELF (TypeSet (EBitmap [EBNode 0 1] 64) ebitmap_init 0)
             (TypeSet (EBitmap [EBNode 0 2] 64) ebitmap_init 0) [ClassPerm 1 2] None in
  check_assertions (ex_assert_policy ex_te []) [r] [] = Ret 0%Z [].
Proof. by vm_compute. Qed.

(** [neverallowxperm a_t b_t : class ioctl cmd] for a command of driver 0. *)
Definition ex_neverallowxperm (cmds : N) : avrule :=
  AvRule AVRULE_XPERMS_NEVERALLOW 0 (TypeSet (EBitmap [EBNode 0 1] 64) ebitmap_init 0)
    (TypeSet (EBitmap [EBNode 0 2] 64) ebitmap_init 0) [ClassPerm 1 2]
    (Some (AvXPerms AVRULE_XPERMS_IOCTLFUNCTION 0 [cmds; 0; 0; 0; 0; 0; 0; 0])).

Definition ex_allowxperm (s t cmds : N) : avtab_node :=
  AvtabNode (AvtabKey s t 1 AVTAB_XPERMS_ALLOWED)
    (AvtabDatum 0 (Some (XPerms AVTAB_XPERMS_IOCTLFUNCTION 0 [cmds; 0; 0; 0; 0; 0; 0; 0]))) false.

(** The rule allows command 1 of driver 0; the assertion forbids commands 1 and 2. *)
Definition ex_xperm_policy : policydb :=
  ex_assert_policy [ex_allow 1 2 AVTAB_ALLOWED 2; ex_allowxperm 1 2 2] [].

Lemma check_assertion_exact_witness :
  wp (check_assertion ex_xperm_policy (ex_neverallowxperm 6)) [] (verdict [] (violated ex_xperm_policy (ex_neverallowxperm 6))) ∧
  check_assertion ex_xperm_policy (ex_neverallowxperm 6) [] = Ret 1%Z [] ∧
  check_assertion ex_xperm_policy (ex_neverallowxperm 4) [] = Ret 0%Z [].
Proof.
  split; [|split; by vm_compute]. apply check_assertion_exact.
  - split; [| |done|by_decide].
    + split; [apply one_slot_wf; [repeat constructor|done]|]. intros n Hn.
      apply elem_of_cons in Hn as [-> |Hn]; [|apply list_elem_of_singleton in Hn as ->]; (split; [done|]; split; [done|]); [done|].
      intros _. eexists. split; [done|]. split; [done|]. split; [done|]. split; by_decide.
    + split; [apply one_slot_wf; [repeat constructor|done]|]. by intros n ?%elem_of_nil.
  - split; [by_decide|by_decide|]. intros _. eexists. split; [done|]. split; [|by left].
    split; [done|]. split; [done|]. split; by_decide.
Defined.

(** A neverallowxperm rule that is violated is found, and reporting it reads a
    table pointer that was never set. *)
Example neverallowxperm_report_undefined :
  check_assertion (ex_assert_policy ex_te []) (ex_neverallowxperm 2) [] = Ret 1%Z [] ∧
  check_assertions (ex_assert_policy ex_te []) [ex_neverallowxperm 2] [] = UB.
Proof. split; by vm_compute. Qed.

(** Extended permissions are looked up under the key of the [allow] rule only:
    a command that an attribute's rule allows is not seen. *)
Example neverallowxperm_misses_attribute :
  let p := ex_assert_policy [ex_allow 1 2 AVTAB_ALLOWED 2; ex_allowxperm 1 2 1; ex_allowxperm 3 2 2] [] in
  check_assertions p [ex_neverallowxperm 2] [] = Ret 0%Z [] ∧
  ebitmap_bit (types_of p 3) 0 = true.
Proof. split; by vm_compute. Qed.
