(* ===== verification/PolicyIO.v ===== *)
(** Reading and writing the parts of a policy file: the readers of
    libsepol/src/policydb.c and the writers of libsepol/src/write.c for sets,
    levels, ranges, contexts and the lists of transition rules.

    A reader or writer is a computation [io] that threads the file and may
    return early with a code.  Two laws relate it to the format: [Writes m bs]
    (given room, [m] succeeds and emits [bs]) and [Reads m bs Q] (on a file that
    starts with [bs], [m] consumes exactly [bs] and returns a value in [Q], or
    fails because memory ran out).  [Safe m Q] is about arbitrary bytes: [m] is
    defined, and what it accepts is in [Q].  On failure the callers throw away
    what was read so far, so that an early return carries no value. *)

From S2P Require Import Prelude Ebitmap PolicyFile Hashtab MlsTypes Avtab Policydb Mls Context.
Local Open Scope N_scope.

(** * Computations on a file *)

Definition io (A : Type) : Type := policy_file → M ((Z + A) * policy_file).

#[global] Instance io_ret : MRet io := λ A a fp, mret (inr a, fp).
#[global] Instance io_bind : MBind io := λ A B k m fp,
  '(r, fp) ← m fp;
  match r with inl rc => mret (inl rc, fp) | inr a => k a fp end.

(** [return rc]. *)
Definition io_fail {A} (rc : Z) : io A := λ fp, mret (inl rc, fp).

(** Code that does not touch the file. *)
Definition io_lift {A} (m : M A) : io A := λ fp, a ← m; mret (inr a, fp).

(** [if (m) return -1;] for code that does not touch the file. *)
Definition io_checked {A} (m : M (Z * A)) : io A :=
  '(rc, a) ← io_lift m; if (rc =? 0)%Z then mret a else io_fail (-1).

(** [if (m) return rc;]. *)
Definition or_rc {A} (rc : Z) (m : io A) : io A := λ fp,
  '(r, fp) ← m fp; mret (match r with inl _ => inl rc | inr a => inr a end, fp).

(** The result of a writer as the [int] it returns. *)
Definition io_run (m : io unit) (fp : policy_file) : M (Z * policy_file) :=
  '(r, fp) ← m fp; mret (match r with inl rc => rc | inr _ => POLICYDB_SUCCESS end, fp).

(** [rc = next_entry(buf, fp, bytes); if (rc < 0) return -1;]. *)
Definition get (bytes : N) : io (list N) := λ fp,
  '(r, fp) ← next_entry fp bytes;
  mret (match r with None => inl (-1)%Z | Some buf => inr buf end, fp).

(** [items = put_entry(ptr, size, n, fp); if (items != n) return POLICYDB_ERROR;]. *)
Definition put (ptr : list N) (size n : N) : io unit := λ fp,
  '(items, fp) ← put_entry ptr size n fp;
  mret (if items =? n then inr tt else inl POLICYDB_ERROR, fp).

(** [x = malloc(...); if (!x) return rc;]. *)
Definition alloc (rc : Z) : io unit := λ fp,
  b ← malloc; mret (if b : bool then inr tt else inl rc, fp).

(** A buffer of 32-bit words in the order of the file. *)
Definition words (ws : list N) : list N := ws ≫= cpu_to_le32.
Definition put_words (ws : list N) : io unit := put (words ws) 4 (N.of_nat (length ws)).

(** The bytes of a C string, and the string a terminated buffer holds. *)
Definition string_bytes (s : string) : list N := Ascii.N_of_ascii <$> String.list_ascii_of_string s.
Fixpoint c_string (bs : list N) : string :=
  match bs with
  | [] => EmptyString
  | b :: bs' => if b =? 0 then EmptyString else String (Ascii.ascii_of_N b) (c_string bs')
  end.
Definition strlen (s : string) : N := N.of_nat (String.length s).

(** The bytes [next_entry] stores: what a short stream still has is stored
    before the call fails. *)
Definition stored (fp : policy_file) (bytes : N) : N :=
  match pf_kind fp with
  | PF_USE_STDIO => N.min bytes (N.of_nat (length (f_unread (pf_fp fp))))
  | PF_USE_MEMORY => if pf_len fp <? bytes then 0 else bytes
  | _ => 0
  end.

Definition fits (cap len : N) : io unit := λ fp, if stored fp len <=? cap then mret (inr tt, fp) else ub.

(** [key = malloc(cap); next_entry(key, fp, len); key[len] = 0;], with [cap]
    the value of [len + 1] in its type. *)
Definition get_string (cap len : N) : io string :=
  _ ← alloc (-1);
  _ ← fits cap len;
  buf ← get len;
  if cap <=? len then io_lift ub else mret (c_string buf).

Definition put_string (s : string) : io unit := put (string_bytes s) 1 (strlen s).

(** Loops: over a list, and a number of times. *)
Fixpoint io_list {A} (f : A → io unit) (l : list A) : io unit :=
  match l with [] => mret tt | a :: l' => _ ← f a; io_list f l' end.

Fixpoint io_times {St} (n : nat) (f : St → io St) (s : St) : io St :=
  match n with O => mret s | S n' => s ← f s; io_times n' f s end.

(** A list whose nodes are linked behind the last one. *)
Definition io_read_list {A} (n : N) (f : io A) : io (list A) :=
  io_times (N.to_nat n) (λ l, a ← f; mret (l ++ [a])) [].

(** A reader or writer that the format version has or has not. *)
Definition when (b : bool) (m : io unit) : io unit := if b then m else mret tt.

Definition ebitmap_get : io ebitmap := λ fp,
  '(rc, e, fp) ← ebitmap_read fp; mret (if (rc =? 0)%Z then inr e else inl rc, fp).
Definition ebitmap_put (e : ebitmap) : io unit := λ fp,
  '(rc, fp) ← ebitmap_write e fp; mret (if (rc =? 0)%Z then inr tt else inl POLICYDB_ERROR, fp).

(** * Sets, levels and ranges *)

Definition role_set_write (x : role_set) : io unit :=
  _ ← ebitmap_put (rs_roles x); put_words [rs_flags x].

Definition role_set_read : io role_set :=
  roles ← or_rc (-1) ebitmap_get;
  buf ← get 4;
  mret (RoleSet roles (le32_at buf 0)).

Definition type_set_write (x : type_set) : io unit :=
  _ ← ebitmap_put (ts_types x); _ ← ebitmap_put (ts_negset x); put_words [ts_flags x].

Definition type_set_read : io type_set :=
  types ← or_rc (-1) ebitmap_get;
  negset ← or_rc (-1) ebitmap_get;
  buf ← get 4;
  mret (TypeSet types negset (le32_at buf 0)).

Definition mls_write_level (l : mls_level) : io unit :=
  _ ← put_words [sens l]; ebitmap_put (cat l).

Definition mls_read_level : io mls_level :=
  buf ← or_rc (- EINVAL) (get 4);
  c ← or_rc (- EINVAL) ebitmap_get;
  mret (MlsLevel (le32_at buf 0) c).

(** A range with equal levels is written as one level. *)
Definition mls_write_range_helper (r : mls_range) : io unit :=
  let eq := mls_level_eq (level1 r) (level0 r) in
  let buf := sens (level0 r) :: (if negb eq then [sens (level1 r)] else []) in
  _ ← put_words (N.of_nat (length buf) :: buf);
  _ ← ebitmap_put (cat (level0 r));
  when (negb eq) (ebitmap_put (cat (level1 r))).

Definition ebitmap_copy (e : ebitmap) : io ebitmap :=
  '(rc, c) ← io_lift (ebitmap_cpy e);
  if (rc =? 0)%Z then mret c else io_fail rc.

(** A count of 0 leaves the buffer as the first read left it. *)
Definition mls_read_range_helper : io mls_range :=
  buf ← get 4;
  let items := le32_at buf 0 in
  if 2 <? items then io_fail (- EINVAL) else
  new ← get (4 * items);
  let buf := new ++ drop (length new) buf in
  let sens0 := le32_at buf 0 in
  let sens1 := if 1 <? items then le32_at buf 1 else sens0 in
  cat0 ← ebitmap_get;
  cat1 ← (if 1 <? items then ebitmap_get else ebitmap_copy cat0);
  mret (MlsRange (MlsLevel sens0 cat0) (MlsLevel sens1 cat1)).

Definition mls_write_semantic_level_helper (l : mls_semantic_level) : io unit :=
  _ ← put_words [sem_sens l; u32 (N.of_nat (length (sem_cat l)))];
  io_list (λ c, put_words [low c; high c]) (sem_cat l).

Definition mls_write_semantic_range_helper (r : mls_semantic_range) : io unit :=
  _ ← mls_write_semantic_level_helper (sem_level0 r);
  mls_write_semantic_level_helper (sem_level1 r).

(** New categories are linked in front of the others. *)
Definition mls_read_semantic_level_helper : io mls_semantic_level :=
  buf ← or_rc (- EINVAL) (get 8);
  cats ← io_times (N.to_nat (le32_at buf 1)) (λ cats,
           _ ← alloc (- EINVAL);
           buf ← or_rc (- EINVAL) (get 8);
           mret (SemCat (le32_at buf 0) (le32_at buf 1) :: cats)) [];
  mret (SemLevel (le32_at buf 0) cats).

Definition mls_read_semantic_range_helper : io mls_semantic_range :=
  l0 ← mls_read_semantic_level_helper;
  l1 ← mls_read_semantic_level_helper;
  mret (SemRange l0 l1).

(** The loop keeps the categories, newest first, and whether [open_cat] is the
    newest or NULL. *)
Definition mls_level_to_semantic (l : mls_level) : M (option mls_semantic_level) :=
  r ← ebitmap_for_each_bit (cat l) ([], false) (λ i bit s,
        let '(cats, is_open) := s in
        if bit then
          if is_open : bool then mret (inr (cats, is_open)) else
          b ← malloc;
          if negb b then mret (inl tt) else
          mret (inr (SemCat (u32 (i + 1)) 0 :: cats, true))
        else
          match cats with
          | c :: cats' => if is_open then mret (inr (SemCat (low c) i :: cats', false)) else mret (inr (cats, false))
          | [] => mret (inr (cats, is_open))
          end);
  mret match r with
       | inl _ => None
       | inr (c :: cats, true) => Some (SemLevel (sens l) (SemCat (low c) (highbit (cat l)) :: cats))
       | inr (cats, _) => Some (SemLevel (sens l) cats)
       end.

Definition mls_range_to_semantic (r : mls_range) : M (option mls_semantic_range) :=
  l0 ← mls_level_to_semantic (level0 r);
  match l0 with
  | None => mret None
  | Some l0 =>
      l1 ← mls_level_to_semantic (level1 r);
      mret (SemRange l0 <$> l1)
  end.

(** * Versions *)

Definition POLICY_BASE : N := 1.
Definition POLICY_MOD : N := 2.
Definition POLICYDB_VERSION_VALIDATETRANS : N := 19.
Definition POLICYDB_VERSION_MLS : N := 19.
Definition POLICYDB_VERSION_RANGETRANS : N := 21.
Definition POLICYDB_VERSION_BOUNDARY : N := 24.
Definition POLICYDB_VERSION_ROLETRANS : N := 26.
Definition POLICYDB_VERSION_NEW_OBJECT_DEFAULTS : N := 27.
Definition POLICYDB_VERSION_DEFAULT_TYPE : N := 28.
Definition POLICYDB_VERSION_CONSTRAINT_NAMES : N := 29.
Definition MOD_POLICYDB_VERSION_VALIDATETRANS : N := 5.
Definition MOD_POLICYDB_VERSION_MLS : N := 5.
Definition MOD_POLICYDB_VERSION_MLS_USERS : N := 6.
Definition MOD_POLICYDB_VERSION_PERMISSIVE : N := 8.
Definition MOD_POLICYDB_VERSION_BOUNDARY : N := 9.
Definition MOD_POLICYDB_VERSION_BOUNDARY_ALIAS : N := 10.
Definition MOD_POLICYDB_VERSION_ROLEATTRIB : N := 13.
Definition MOD_POLICYDB_VERSION_TUNABLE_SEP : N := 14.
Definition MOD_POLICYDB_VERSION_NEW_OBJECT_DEFAULTS : N := 15.
Definition MOD_POLICYDB_VERSION_DEFAULT_TYPE : N := 16.

Definition is_kern (v : write_params) : bool := policy_type v =? POLICY_KERN.
Definition is_base (v : write_params) : bool := policy_type v =? POLICY_BASE.
Definition is_mod (v : write_params) : bool := policy_type v =? POLICY_MOD.

(** [(kernel policy && version >= k) || (base module && version >= m)]. *)
Definition since (v : write_params) (k m : N) : bool :=
  is_kern v && (k <=? policyvers v) || is_base v && (m <=? policyvers v).

Definition policydb_has_boundary_feature (v : write_params) : bool :=
  is_kern v && (POLICYDB_VERSION_BOUNDARY <=? policyvers v) ||
  negb (is_kern v) && (MOD_POLICYDB_VERSION_BOUNDARY <=? policyvers v).

(** * Contexts *)

Definition context_write (v : write_params) (c : context_struct) : io unit :=
  _ ← put_words [user c; role c; type c];
  when (since v POLICYDB_VERSION_MLS MOD_POLICYDB_VERSION_MLS) (mls_write_range_helper (range c)).

(** Into the structure [c]. *)
Definition context_read_and_validate (c : context_struct) (v : write_params) (p : policydb) : io context_struct :=
  buf ← get 12;
  r ← (if since v POLICYDB_VERSION_MLS MOD_POLICYDB_VERSION_MLS
       then or_rc (-1) mls_read_range_helper else mret (range c));
  let c := Context (le32_at buf 0) (le32_at buf 1) (le32_at buf 2) r in
  ok ← io_lift (policydb_context_isvalid p c);
  if ok : bool then mret c else io_fail (-1).

(** * Lists of rules *)

Definition new_roletr (v : write_params) : bool :=
  is_kern v && (POLICYDB_VERSION_ROLETRANS <=? policyvers v).

(** The old format has no class: only transitions of processes are written. *)
Definition roletr_kept (v : write_params) (tr : role_trans) : bool :=
  new_roletr v || (rt_tclass tr =? SECCLASS_PROCESS).

Definition role_trans_write (v : write_params) (r : list role_trans) : io unit :=
  _ ← put_words [N.of_nat (length (filter (λ tr, roletr_kept v tr = true) r))];
  io_list (λ tr,
    if negb (new_roletr v) && negb (rt_tclass tr =? SECCLASS_PROCESS) then mret tt else
    _ ← put_words [rt_role tr; rt_type tr; rt_new_role tr];
    when (new_roletr v) (put_words [rt_tclass tr])) r.

Definition role_trans_read (v : write_params) : io (list role_trans) :=
  buf ← get 4;
  io_read_list (le32_at buf 0) (
    _ ← alloc (-1);
    buf ← get 12;
    tclass ← (if new_roletr v then b ← get 4; mret (le32_at b 0) else mret SECCLASS_PROCESS);
    mret (RoleTrans (le32_at buf 0) (le32_at buf 1) tclass (le32_at buf 2))).

Definition role_allow_write (r : list role_allow) : io unit :=
  _ ← put_words [N.of_nat (length r)];
  io_list (λ ra, put_words [ra_role ra; ra_new_role ra]) r.

Definition role_allow_read : io (list role_allow) :=
  buf ← get 4;
  io_read_list (le32_at buf 0) (
    _ ← alloc (-1); buf ← get 8; mret (RoleAllow (le32_at buf 0) (le32_at buf 1))).

Record filename_trans := FilenameTrans {
  ft_stype : N; ft_ttype : N; ft_tclass : N; ft_name : string; ft_otype : N }.

Definition filename_trans_write (r : list filename_trans) : io unit :=
  _ ← put_words [N.of_nat (length r)];
  io_list (λ ft,
    _ ← put_words [strlen (ft_name ft)];
    _ ← put_string (ft_name ft);
    put_words [ft_stype ft; ft_ttype ft; ft_tclass ft; ft_otype ft]) r.

(** [len] is a [uint32_t], and so is [len + 1]. *)
Definition filename_trans_read : io (list filename_trans) :=
  buf ← get 4;
  io_read_list (le32_at buf 0) (
    _ ← alloc (-1);
    buf ← get 4;
    let len := le32_at buf 0 in
    name ← get_string (u32 (len + 1)) len;
    buf ← get 16;
    mret (FilenameTrans (le32_at buf 0) (le32_at buf 1) (le32_at buf 2) name (le32_at buf 3))).

Definition new_rangetr (v : write_params) : bool :=
  is_kern v && (POLICYDB_VERSION_RANGETRANS <=? policyvers v).

Definition rangetr_kept (v : write_params) (rt : range_trans) : bool :=
  new_rangetr v || (rtr_target_class rt =? SECCLASS_PROCESS).

Definition range_write (v : write_params) (r : list range_trans) : io unit :=
  _ ← put_words [N.of_nat (length (filter (λ rt, rangetr_kept v rt = true) r))];
  io_list (λ rt,
    if negb (new_rangetr v) && negb (rtr_target_class rt =? SECCLASS_PROCESS) then mret tt else
    _ ← put_words [rtr_source_type rt; rtr_target_type rt];
    _ ← when (new_rangetr v) (put_words [rtr_target_class rt]);
    mls_write_range_helper (rtr_target_range rt)) r.

Record range_trans_rule := RangeTransRule {
  rtrr_stypes : type_set; rtrr_ttypes : type_set; rtrr_tclasses : ebitmap; rtrr_trange : mls_semantic_range }.

(** [if (ebitmap_set_bit(&e, bit, 1)) return -1;]. *)
Definition set_bit_or_fail (e : ebitmap) (bit : N) : io ebitmap :=
  io_checked (ebitmap_set_bit e bit true).

Definition range_trans_to_rule (rt : range_trans) : io range_trans_rule :=
  _ ← alloc (-1);
  stypes ← set_bit_or_fail ebitmap_init (dec32 (rtr_source_type rt));
  ttypes ← set_bit_or_fail ebitmap_init (dec32 (rtr_target_type rt));
  tclasses ← set_bit_or_fail ebitmap_init (dec32 (rtr_target_class rt));
  trange ← io_lift (mls_range_to_semantic (rtr_target_range rt));
  match trange with
  | None => io_fail (-1)
  | Some trange =>
      mret (RangeTransRule (TypeSet stypes ebitmap_init 0) (TypeSet ttypes ebitmap_init 0) tclasses trange)
  end.

Fixpoint io_map {A B} (f : A → io B) (l : list A) : io (list B) :=
  match l with [] => mret [] | a :: l' => b ← f a; r ← io_map f l'; mret (b :: r) end.

(** What becomes [p->range_tr] and [p->global->enabled->range_tr_rules]. *)
Definition range_read (v : write_params) : io (list range_trans * list range_trans_rule) :=
  buf ← get 4;
  rts ← io_read_list (le32_at buf 0) (
          _ ← alloc (-1);
          buf ← get 8;
          tclass ← (if new_rangetr v then b ← get 4; mret (le32_at b 0) else mret SECCLASS_PROCESS);
          r ← or_rc (-1) mls_read_range_helper;
          mret (RangeTrans (le32_at buf 0) (le32_at buf 1) tclass r));
  if is_kern v then mret (rts, []) else
  rules ← io_map range_trans_to_rule rts;
  mret ([], rules).

(** * Laws *)

Definition Writes (m : io unit) (bs : list N) : Prop :=
  ∀ fp o, pf_room fp (N.of_nat (length bs)) → m fp o = Ret (inr tt, pf_put fp bs) o.

Definition Reads {A} (m : io A) (bs : list N) (Q : A → Prop) : Prop :=
  ∀ fp rest o, pf_wf fp → pf_avail fp = bs ++ rest →
    wp (m fp) o (λ r o', (o = [] → o' = []) ∧ pf_wf r.2 ∧
      match r.1 with inl rc => (rc < 0)%Z ∧ o ≠ [] | inr a => Q a ∧ pf_avail r.2 = rest end).

Definition Safe {A} (m : io A) (Q : A → Prop) : Prop :=
  ∀ fp o, pf_wf fp →
    wp (m fp) o (λ r o', (o = [] → o' = []) ∧ pf_wf r.2 ∧
      match r.1 with inl rc => (rc < 0)%Z | inr a => Q a end).

Lemma io_bind_run {A B} (m : io A) (k : A → io B) fp o :
  (m ≫= k) fp o = match m fp o with
                  | Ret (inl rc, fp') o' => Ret (inl rc, fp') o'
                  | Ret (inr a, fp') o' => k a fp' o'
                  | UB => UB
                  end.
Proof.
  unfold mbind at 1, io_bind at 1. rewrite bind_run. by destruct (m fp o) as [[[] ?] ?|].
Qed.

Lemma wp_io_bind {A B} (m : io A) (k : A → io B) fp o Q :
  wp (m fp) o (λ r o', match r.1 with inl rc => Q (inl rc, r.2) o' | inr a => wp (k a r.2) o' Q end) →
  wp ((m ≫= k) fp) o Q.
Proof. unfold wp. rewrite io_bind_run. by destruct (m fp o) as [[[] ?] ?|]. Qed.

(** ** Writing *)

Lemma writes_ret : Writes (mret tt) [].
Proof. intros fp o _. by rewrite pf_put_nil. Qed.

Lemma writes_bind m1 m2 b1 b2 : Writes m1 b1 → Writes m2 b2 → Writes (_ ← m1; m2) (b1 ++ b2).
Proof.
  intros H1 H2 fp o [Hr1 Hr2]%pf_room_split. rewrite io_bind_run, H1 by done. by rewrite H2, pf_put_app.
Qed.

Lemma writes_when b m bs : Writes m bs → Writes (when b m) (if b then bs else []).
Proof. intros H. destruct b; [done|apply writes_ret]. Qed.

Lemma writes_if (b : bool) m1 m2 b1 b2 :
  Writes m1 b1 → Writes m2 b2 → Writes (if b then m1 else m2) (if b then b1 else b2).
Proof. by destruct b. Qed.

Lemma put_entry_nothing size fp o : pf_room fp 0 → put_entry [] size 0 fp o = Ret (0, fp) o.
Proof.
  intros Hroom. unfold put_entry. rewrite N.mul_0_r. change (u64 0) with 0.
  destruct fp as [[] before data len [u w r]]; cbn in *.
  - rewrite (proj2 (N.ltb_ge _ _)), (proj2 (N.ltb_ge _ _)) by lia.
    by rewrite app_nil_r, drop_0, N.sub_0_r.
  - unfold fwrite. by rewrite orb_true_r.
  - unfold u64. by rewrite N.add_0_r, N.mod_small by lia.
  - done.
Qed.

Lemma writes_put ptr size n :
  0 < size → N.of_nat (length ptr) = size * n → Writes (put ptr size n) ptr.
Proof.
  intros Hs Hl fp o Hroom. unfold put. rewrite bind_run.
  destruct (decide (n = 0)) as [->|Hn].
  - rewrite N.mul_0_r in Hl. destruct ptr; [|done]. by rewrite put_entry_nothing, pf_put_nil.
  - rewrite put_entry_ok; [|done|lia|done|by rewrite <- Hl]. by rewrite N.eqb_refl.
Qed.

Lemma length_words_N ws : N.of_nat (length (words ws)) = 4 * N.of_nat (length ws).
Proof. unfold words. rewrite length_words. lia. Qed.

Lemma writes_words ws : Writes (put_words ws) (words ws).
Proof. apply writes_put; [done|]. apply length_words_N. Qed.

Lemma length_string_bytes s : N.of_nat (length (string_bytes s)) = strlen s.
Proof.
  unfold string_bytes, strlen. rewrite length_fmap. f_equal. induction s as [|c s IH]; simpl; congruence.
Qed.

Lemma writes_string s : Writes (put_string s) (string_bytes s).
Proof. apply writes_put; [done|]. rewrite length_string_bytes. lia. Qed.

Lemma writes_ebitmap e : Writes (ebitmap_put e) (ebitmap_bytes e).
Proof. intros fp o Hroom. unfold ebitmap_put. rewrite bind_run, ebitmap_write_ok by done. done. Qed.

Lemma writes_list {A} (f : A → io unit) (bytes : A → list N) l :
  (∀ a, a ∈ l → Writes (f a) (bytes a)) → Writes (io_list f l) (l ≫= bytes).
Proof.
  induction l as [|a l IH]; intros Hf; [apply writes_ret|]. rewrite bind_cons. cbn [io_list].
  apply writes_bind; [apply Hf; left|]. apply IH. intros b Hb. apply Hf. by right.
Qed.

(** ** Reading back *)

Lemma reads_mono {A} (m : io A) bs (Q Q' : A → Prop) :
  Reads m bs Q → (∀ a, Q a → Q' a) → Reads m bs Q'.
Proof.
  intros H HQ fp rest o Hfp Hav. eapply wp_mono; [by apply H|].
  intros [[rc|a] fp'] o' (? & ? & Ha); simpl in *; naive_solver.
Qed.

Lemma reads_ret {A} (a : A) (Q : A → Prop) : Q a → Reads (mret a) [] Q.
Proof. intros HQ fp rest o Hfp Hav. by apply wp_ret. Qed.

Lemma reads_bind {A B} (m : io A) (k : A → io B) b1 b2 Q1 Q2 :
  Reads m b1 Q1 → (∀ a, Q1 a → Reads (k a) b2 Q2) → Reads (m ≫= k) (b1 ++ b2) Q2.
Proof.
  intros H1 H2 fp rest o Hfp Hav. rewrite <- app_assoc in Hav. apply wp_io_bind.
  eapply wp_mono; [by apply H1|]. intros [[rc|a] fp'] o' (Ho & Hfp' & Ha); cbn [fst snd] in *; [done|].
  destruct Ha as [Ha Hav']. eapply wp_mono; [by apply H2|].
  intros [[rc|b] fp2] o2 (Ho2 & ? & Hb); cbn [fst snd] in *; split; try naive_solver.
Qed.

Lemma reads_bind_eq {A B} (m : io A) (k : A → io B) b1 b2 a Q2 :
  Reads m b1 (λ x, x = a) → Reads (k a) b2 Q2 → Reads (m ≫= k) (b1 ++ b2) Q2.
Proof. intros H1 H2. eapply reads_bind; [done|]. by intros ? ->. Qed.

(** A step that consumes nothing. *)
Lemma reads_bind_nil {A B} (m : io A) (k : A → io B) bs Q1 Q2 :
  Reads m [] Q1 → (∀ a, Q1 a → Reads (k a) bs Q2) → Reads (m ≫= k) bs Q2.
Proof. intros H1 H2. change bs with ([] ++ bs). by eapply reads_bind. Qed.

Lemma reads_or_rc {A} rc (m : io A) bs Q : (rc < 0)%Z → Reads m bs Q → Reads (or_rc rc m) bs Q.
Proof.
  intros Hrc H fp rest o Hfp Hav. unfold or_rc. apply wp_bind. eapply wp_mono; [by apply H|].
  intros [[rc'|a] fp'] o' (? & ? & Ha); apply wp_ret; simpl in *; naive_solver.
Qed.

Lemma reads_alloc rc : (rc < 0)%Z → Reads (alloc rc) [] (λ _, True).
Proof.
  intros Hrc fp rest o Hfp Hav. unfold alloc. apply wp_bind, wp_malloc. intros b o' Ho.
  apply wp_ret. destruct b; simpl; naive_solver.
Qed.

Lemma reads_get bs n : N.of_nat (length bs) = n → 0 < n → Reads (get n) bs (λ b, b = bs).
Proof.
  intros Hl Hn fp rest o Hfp Hav. unfold get. apply wp_bind.
  eapply wp_mono; [by apply (next_entry_ok _ _ _ _ _ Hfp Hav)|].
  intros [b fp'] o' (-> & ? & Hb & ?); simpl in *; subst. by apply wp_ret.
Qed.

Lemma reads_words ws n : 0 < n → n = 4 * N.of_nat (length ws) → Reads (get n) (words ws) (λ b, b = words ws).
Proof. intros Hn ->. by apply reads_get; [apply length_words_N|]. Qed.

Lemma reads_ebitmap e : ebitmap_wf e → Reads ebitmap_get (ebitmap_bytes e) (λ x, x = e).
Proof.
  intros He fp rest o Hfp Hav. unfold ebitmap_get. apply wp_bind.
  eapply wp_mono; [apply wp_and; [by apply (ebitmap_read_ok e fp rest)|by apply ebitmap_read_safe]|].
  intros [[rc x] fp'] o' [[Ho Hr] (_ & Hfp' & _)]; cbn [fst snd] in *. apply wp_ret. cbn [fst snd].
  split; [naive_solver|]. split; [done|]. destruct Hr as [(Hr & _ & Hav')|Hr]; injection Hr as -> ->; [done|].
  cbn. split; [done|]. intros ->. by destruct (Ho eq_refl).
Qed.

Lemma reads_ebitmap_copy e : Reads (ebitmap_copy e) [] (λ x, x = e).
Proof.
  intros fp rest o Hfp Hav. unfold ebitmap_copy. apply wp_io_bind. unfold io_lift. apply wp_bind.
  eapply wp_mono; [apply cpy_spec|]. intros [rc x] o' [Ho Hr]. apply wp_ret. cbn [fst snd] in *.
  destruct Hr as [Hr|Hr]; injection Hr as -> ->; apply wp_ret; simpl; naive_solver.
Qed.

Lemma reads_times {A St} (I : list A → St → Prop) (f : St → io St) (bytes : A → list N) l s0 :
  I [] s0 →
  (∀ pre a post s, l = pre ++ a :: post → I pre s → Reads (f s) (bytes a) (I (pre ++ [a]))) →
  Reads (io_times (length l) f s0) (l ≫= bytes) (I l).
Proof.
  intros HI Hf.
  assert (∀ post pre s, l = pre ++ post → I pre s →
            Reads (io_times (length post) f s) (post ≫= bytes) (I l)) as H; [|by apply (H l [])].
  clear s0 HI. induction post as [|a post IH]; intros pre s Hl HI.
  { apply reads_ret. by rewrite Hl, app_nil_r. }
  rewrite bind_cons. cbn [length io_times]. eapply reads_bind; [by eapply Hf|].
  intros s' HI'. apply (IH (pre ++ [a])); [by rewrite <- app_assoc|done].
Qed.

(** A list, node by node, possibly changed by what the format drops. *)
Lemma reads_list {A B} (f : io B) (bytes : A → list N) (g : A → B) l n :
  n = N.of_nat (length l) → (∀ a, a ∈ l → Reads f (bytes a) (λ x, x = g a)) →
  Reads (io_read_list n f) (l ≫= bytes) (λ x, x = g <$> l).
Proof.
  intros -> Hf. unfold io_read_list. rewrite Nat2N.id.
  eapply reads_mono; [|intros x Hx; exact Hx].
  apply (reads_times (λ pre x, x = g <$> pre)); [done|].
  intros pre a post s -> ->. rewrite <- (app_nil_r (bytes a)). eapply reads_bind_eq.
  { apply Hf. apply elem_of_app. right. left. }
  apply reads_ret. by rewrite fmap_app.
Qed.

(** Names: C strings that are not empty (a stream cannot read no bytes). *)
Record name_ok (s : string) : Prop := {
  name_nonempty : s ≠ EmptyString;
  name_no_nul : Forall (λ b, b ≠ 0) (string_bytes s);
  name_short : strlen s < 2 ^ 32 - 1 }.

#[global] Instance name_ok_dec s : Decision (name_ok s).
Proof.
  refine (cast_if (decide (s ≠ EmptyString ∧ Forall (λ b, b ≠ 0) (string_bytes s) ∧ strlen s < 2 ^ 32 - 1)));
    [abstract (split; tauto)|abstract (intros []; tauto)].
Defined.

Lemma c_string_bytes s : Forall (λ b, b ≠ 0) (string_bytes s) → c_string (string_bytes s) = s.
Proof.
  induction s as [|c s IH]; [done|]. unfold string_bytes. cbn. intros [Hc Hs]%Forall_cons.
  rewrite (proj2 (N.eqb_neq _ _) Hc), Ascii.ascii_N_embedding. f_equal. by apply IH.
Qed.

Lemma stored_le fp bytes : stored fp bytes ≤ bytes.
Proof. unfold stored. destruct (pf_kind fp); [case_bool| | |]; lia. Qed.

Lemma reads_string s cap len :
  name_ok s → len = strlen s → cap = u32 (len + 1) ∨ cap = len + 1 →
  Reads (get_string cap len) (string_bytes s) (λ x, x = s).
Proof.
  intros [Hne Hnul Hlen] -> Hcap. assert (cap = strlen s + 1) as ->.
  { destruct Hcap as [->| ->]; [apply u32_small; lia|done]. }
  assert (0 < strlen s) by (destruct s; unfold strlen; simpl; [done|lia]). clear Hcap.
  unfold get_string. eapply reads_bind_nil; [by apply reads_alloc|]. intros _ _.
  eapply (reads_bind_nil _ _ _ (λ _, True)).
  { intros fp rest o Hfp Hav. unfold fits. rewrite (proj2 (N.leb_le _ _)); [by apply wp_ret|].
    pose proof (stored_le fp (strlen s)). lia. }
  intros _ _. rewrite <- (app_nil_r (string_bytes s)).
  eapply reads_bind_eq; [apply reads_get; [apply length_string_bytes|done]|].
  rewrite (proj2 (N.leb_gt _ _)) by lia. apply reads_ret. by apply c_string_bytes.
Qed.

(** ** Arbitrary input *)

Lemma safe_mono {A} (m : io A) (Q Q' : A → Prop) : Safe m Q → (∀ a, Q a → Q' a) → Safe m Q'.
Proof.
  intros H HQ fp o Hfp. eapply wp_mono; [by apply H|].
  intros [[rc|a] fp'] o' (? & ? & Ha); simpl in *; naive_solver.
Qed.

Lemma safe_ret {A} (a : A) (Q : A → Prop) : Q a → Safe (mret a) Q.
Proof. intros HQ fp o Hfp. by apply wp_ret. Qed.

Lemma safe_fail {A} rc (Q : A → Prop) : (rc < 0)%Z → Safe (io_fail rc) Q.
Proof. intros HQ fp o Hfp. by apply wp_ret. Qed.

Lemma safe_bind {A B} (m : io A) (k : A → io B) Q1 Q2 :
  Safe m Q1 → (∀ a, Q1 a → Safe (k a) Q2) → Safe (m ≫= k) Q2.
Proof.
  intros H1 H2 fp o Hfp. apply wp_io_bind. eapply wp_mono; [by apply H1|].
  intros [[rc|a] fp'] o' (Ho & Hfp' & Ha); cbn [fst snd] in *; [done|].
  eapply wp_mono; [by apply H2|]. intros [[rc|b] fp2] o2 (Ho2 & ? & Hb); cbn [fst snd] in *; naive_solver.
Qed.

Lemma safe_or_rc {A} rc (m : io A) Q : (rc < 0)%Z → Safe m Q → Safe (or_rc rc m) Q.
Proof.
  intros Hrc H fp o Hfp. unfold or_rc. apply wp_bind. eapply wp_mono; [by apply H|].
  intros [[rc'|a] fp'] o' (? & ? & Ha); by apply wp_ret.
Qed.

Lemma safe_alloc rc : (rc < 0)%Z → Safe (alloc rc) (λ _, True).
Proof.
  intros Hrc fp o Hfp. unfold alloc. apply wp_bind, wp_malloc. intros b o' Ho.
  apply wp_ret. destruct b; simpl; naive_solver.
Qed.

Lemma safe_get n : Safe (get n) (λ b, N.of_nat (length b) = n ∧ Forall (λ x, x < 256) b).
Proof.
  intros fp o Hfp. unfold get. apply wp_bind. destruct (decide (n = 0)) as [->|Hn].
  - unfold next_entry. destruct (pf_kind fp) eqn:Hk;
      [|destruct fp as [? ? ? ? []]; cbn in *; subst; done|by apply wp_ret, wp_ret..].
    rewrite (proj2 (N.ltb_ge _ _)), (proj2 (N.ltb_ge _ _)) by lia. apply wp_ret, wp_ret.
    split; [done|]. split; [|done]. destruct fp; cbn in *; subst.
    unfold pf_wf, pf_avail in *. cbn in *. by rewrite drop_0, N.sub_0_r.
  - eapply wp_mono; [apply next_entry_spec; [done|lia]|].
    intros [[b|] fp'] o' (-> & ? & Hb); apply wp_ret; naive_solver.
Qed.

Lemma safe_ebitmap : Safe ebitmap_get ebitmap_read_wf.
Proof.
  intros fp o Hfp. unfold ebitmap_get. apply wp_bind. eapply wp_mono; [by apply ebitmap_read_safe|].
  intros [[rc e] fp'] o' (Ho & Hfp' & Hr); cbn [fst snd] in *. apply wp_ret. split; [naive_solver|].
  split; [done|]. destruct Hr as [(-> & ? & _)|[Hrc _]]; [done|]. cbn.
  by rewrite (proj2 (Z.eqb_neq rc 0)) by lia.
Qed.

Lemma safe_copy e : Safe (ebitmap_copy e) (λ _, True).
Proof.
  intros fp o Hfp. unfold ebitmap_copy. apply wp_io_bind. unfold io_lift. apply wp_bind.
  eapply wp_mono; [apply cpy_spec|]. intros [rc x] o' [Ho Hr]. apply wp_ret. cbn [fst snd] in *.
  destruct Hr as [Hr|Hr]; injection Hr as -> ->; apply wp_ret; simpl; naive_solver.
Qed.

Lemma safe_string cap len : len < cap → Safe (get_string cap len) (λ _, True).
Proof.
  intros Hcap. unfold get_string. eapply safe_bind; [by apply safe_alloc|]. intros _ _.
  eapply (safe_bind _ _ (λ _, True)).
  { intros fp o Hfp. unfold fits. rewrite (proj2 (N.leb_le _ _)); [by apply wp_ret|].
    pose proof (stored_le fp len). lia. }
  intros _ _. eapply safe_bind; [apply safe_get|]. intros b _.
  rewrite (proj2 (N.leb_gt _ _)) by lia. by apply safe_ret.
Qed.

Lemma safe_times {St} n (f : St → io St) (I : St → Prop) s :
  I s → (∀ s, I s → Safe (f s) I) → Safe (io_times n f s) I.
Proof.
  intros HI Hf. revert s HI. induction n as [|n IH]; intros s HI; cbn [io_times]; [by apply safe_ret|].
  eapply safe_bind; [by apply Hf|done].
Qed.

(** * Automation *)

Create HintDb codec.

Lemma u32_lt x : u32 x < 2 ^ 32.
Proof. by apply N.mod_lt. Qed.

Lemma le32_at_words ws i w :
  Forall (λ w, w < 2 ^ 32) ws → ws !! i = Some w → le32_at (words ws) i = w.
Proof.
  intros Hws. revert i. induction Hws as [|x ws Hx _ IH]; intros i Hi; [done|].
  unfold words. rewrite bind_cons. destruct i as [|i]; [|rewrite le32_at_S; by apply IH].
  injection Hi as <-. by apply le32_at_0.
Qed.

(** Evaluate the words of a buffer that was written as a list of words. *)
Ltac word_at :=
  repeat match goal with
  | |- context [le32_at (words ?ws) ?i] =>
      let w := eval cbn in (nth i ws 0) in
      replace (le32_at (words ws) i) with w by
        (symmetry; apply le32_at_words; [first [assumption|repeat constructor; eauto using u32_lt]|reflexivity])
  end.

Ltac writes :=
  repeat first
  [ apply writes_words | apply writes_string | apply writes_ebitmap | apply writes_ret
  | apply writes_when | solve [eauto with codec]
  | apply writes_bind | apply writes_list; intros | apply writes_if ].

(** One step of a reader on the bytes it expects. *)
Ltac reads_atom :=
  first [ apply reads_or_rc; [done|]; reads_atom
        | apply reads_words; done
        | apply reads_ebitmap; [try done]
        | solve [eauto with codec] ].

Ltac reads_step :=
  lazymatch goal with
  | |- Reads (mret _) [] _ => apply reads_ret
  | |- Reads (mbind _ (alloc _)) _ _ => eapply reads_bind_nil; [by apply reads_alloc|intros _ _]
  | |- Reads (mbind _ _) (_ ++ _) _ => eapply reads_bind_eq; [reads_atom|]
  | |- Reads (mbind _ _) ?b _ => rewrite <- (app_nil_r b); eapply reads_bind_eq; [reads_atom|]
  end.

Ltac safe_step :=
  lazymatch goal with
  | |- Safe (mret _) _ => apply safe_ret
  | |- Safe (io_fail _) _ => apply safe_fail; done
  | |- Safe (or_rc _ _) _ => apply safe_or_rc; [done|]
  | |- Safe (mbind _ (alloc _)) _ => eapply safe_bind; [by apply safe_alloc|intros _ _]
  | |- Safe (mbind _ (get _)) _ => eapply safe_bind; [apply safe_get|]
  | |- Safe (mbind _ (or_rc _ _)) _ => eapply safe_bind; [apply safe_or_rc; [done|]|]
  | |- Safe ebitmap_get _ => eapply safe_mono; [apply safe_ebitmap|]
  end.

(** * The interface of a format

    [w] writes values as [bytes], and [r] reads them back as [norm] of them:
    the fields the format of this version has. *)
Class Codec {A B} (w : A → io unit) (r : io B) (bytes : A → list N) (ok : A → Prop) (norm : A → B) : Prop := {
  codec_writes : ∀ a, ok a → Writes (w a) (bytes a);
  codec_reads : ∀ a, ok a → Reads r (bytes a) (λ x, x = norm a) }.

Lemma writes_run m bs : Writes m bs →
  ∀ fp o, pf_room fp (N.of_nat (length bs)) → m fp o = Ret (inr tt, pf_put fp bs) o.
Proof. done. Qed.

Lemma writes_intro m bs :
  (∀ fp o, pf_room fp (N.of_nat (length bs)) → m fp o = Ret (inr tt, pf_put fp bs) o) → Writes m bs.
Proof. done. Qed.

Lemma reads_run {A} (m : io A) bs Q : Reads m bs Q → ∀ fp rest o, pf_wf fp → pf_avail fp = bs ++ rest →
  wp (m fp) o (λ r o', (o = [] → o' = []) ∧ pf_wf r.2 ∧
    match r.1 with inl rc => (rc < 0)%Z ∧ o ≠ [] | inr a => Q a ∧ pf_avail r.2 = rest end).
Proof. done. Qed.

Lemma reads_intro {A} (m : io A) bs Q :
  (∀ fp rest o, pf_wf fp → pf_avail fp = bs ++ rest →
    wp (m fp) o (λ r o', (o = [] → o' = []) ∧ pf_wf r.2 ∧
      match r.1 with inl rc => (rc < 0)%Z ∧ o ≠ [] | inr a => Q a ∧ pf_avail r.2 = rest end)) → Reads m bs Q.
Proof. done. Qed.

Lemma reads_lift {A} (m : M A) (Q : A → Prop) :
  (∀ o, wp m o (λ a o', (o = [] → o' = []) ∧ Q a)) → Reads (io_lift m) [] Q.
Proof.
  intros H fp rest o Hfp Hav. unfold io_lift. apply wp_bind. eapply wp_mono; [apply H|].
  intros a o' [Ho Ha]. by apply wp_ret.
Qed.

Lemma safe_lift {A} (m : M A) (Q : A → Prop) :
  (∀ o, wp m o (λ a o', (o = [] → o' = []) ∧ Q a)) → Safe (io_lift m) Q.
Proof.
  intros H fp o Hfp. unfold io_lift. apply wp_bind. eapply wp_mono; [apply H|].
  intros a o' [Ho Ha]. by apply wp_ret.
Qed.

Lemma reads_checked {A} (m : M (Z * A)) (Q : A → Prop) :
  (∀ o, wp m o (λ r o', (o = [] → o' = []) ∧ (r.1 = 0%Z ∧ Q r.2 ∨ r.1 ≠ 0%Z ∧ o ≠ []))) →
  Reads (io_checked m) [] Q.
Proof.
  intros H fp rest o Hfp Hav. unfold io_checked. apply wp_io_bind. unfold io_lift. apply wp_bind.
  eapply wp_mono; [apply H|]. intros [rc a] o' [Ho Hr]; cbn [fst snd] in *. apply wp_ret. cbn [fst snd].
  destruct Hr as [[-> HQ]|[Hrc Hne]]; [by apply wp_ret|].
  rewrite (proj2 (Z.eqb_neq _ _) Hrc). by apply wp_ret.
Qed.

Lemma safe_checked {A} (m : M (Z * A)) (Q : A → Prop) :
  (∀ o, wp m o (λ r o', (o = [] → o' = []) ∧ (r.1 = 0%Z → Q r.2))) → Safe (io_checked m) Q.
Proof.
  intros H fp o Hfp. unfold io_checked. apply wp_io_bind. unfold io_lift. apply wp_bind.
  eapply wp_mono; [apply H|]. intros [rc a] o' [Ho Hr]; cbn [fst snd] in *. apply wp_ret. cbn [fst snd].
  destruct (Z.eqb_spec rc 0); apply wp_ret; naive_solver.
Qed.

Lemma safe_run {A} (m : io A) Q : Safe m Q → ∀ fp o, pf_wf fp →
  wp (m fp) o (λ r o', (o = [] → o' = []) ∧ pf_wf r.2 ∧
    match r.1 with inl rc => (rc < 0)%Z | inr a => Q a end).
Proof. done. Qed.

(** Steps that do not touch the file. *)
Lemma writes_lift {A} (m : M A) (k : A → io unit) a bs :
  (∀ o, m o = Ret a o) → Writes (k a) bs → Writes (io_lift m ≫= k) bs.
Proof. intros Hm Hk fp o Hroom. rewrite io_bind_run. unfold io_lift. rewrite bind_run, Hm. by apply Hk. Qed.

#[global] Opaque Writes Reads Safe.
#[global] Arguments words : simpl never.
#[global] Arguments le32_at : simpl never.
#[global] Arguments string_bytes : simpl never.
#[global] Arguments ebitmap_bytes : simpl never.
#[global] Arguments mls_level_eq : simpl never.

(** Lists: a count and the nodes. *)
Definition list_bytes {A} (bytes : A → list N) (l : list A) : list N :=
  words [N.of_nat (length l)] ++ (l ≫= bytes).

Definition u32s (ws : list N) : Prop := Forall (λ w, w < 2 ^ 32) ws.

(** * Formats of sets, levels and ranges *)

Definition role_set_bytes (x : role_set) : list N := ebitmap_bytes (rs_roles x) ++ words [rs_flags x].
Definition role_set_ok (x : role_set) : Prop := ebitmap_wf (rs_roles x) ∧ u32s [rs_flags x].

#[global] Instance role_set_codec : Codec role_set_write role_set_read role_set_bytes role_set_ok id.
Proof.
  split; intros [e f] [He Hf]; unfold role_set_bytes; cbn in *.
  - unfold role_set_write. writes.
  - unfold role_set_read. do 2 reads_step. word_at. by reads_step.
Qed.

Definition type_set_bytes (x : type_set) : list N :=
  ebitmap_bytes (ts_types x) ++ ebitmap_bytes (ts_negset x) ++ words [ts_flags x].
Definition type_set_ok (x : type_set) : Prop :=
  ebitmap_wf (ts_types x) ∧ ebitmap_wf (ts_negset x) ∧ u32s [ts_flags x].

#[global] Instance type_set_codec : Codec type_set_write type_set_read type_set_bytes type_set_ok id.
Proof.
  split; intros [e n f] (He & Hn & Hf); unfold type_set_bytes; cbn in *.
  - unfold type_set_write. writes.
  - unfold type_set_read. do 3 reads_step. word_at. by reads_step.
Qed.

Definition level_bytes (l : mls_level) : list N := words [sens l] ++ ebitmap_bytes (cat l).
Definition level_ok (l : mls_level) : Prop := u32s [sens l] ∧ ebitmap_wf (cat l).

#[global] Instance level_codec : Codec mls_write_level mls_read_level level_bytes level_ok id.
Proof.
  split; intros [s c] (Hs & Hc); unfold level_bytes; cbn in *.
  - unfold mls_write_level. writes.
  - unfold mls_read_level. do 2 reads_step. word_at. by reads_step.
Qed.

Definition range_bytes (r : mls_range) : list N :=
  if mls_level_eq (level1 r) (level0 r)
  then words [1] ++ words [sens (level0 r)] ++ ebitmap_bytes (cat (level0 r))
  else words [2] ++ words [sens (level0 r); sens (level1 r)] ++
       ebitmap_bytes (cat (level0 r)) ++ ebitmap_bytes (cat (level1 r)).
Definition range_ok (r : mls_range) : Prop := level_ok (level0 r) ∧ level_ok (level1 r).

Lemma words_app a b : words (a ++ b) = words a ++ words b.
Proof. apply bind_app. Qed.

Lemma over_words a b : (length b ≤ length a)%nat → words a ++ drop (length (words a)) (words b) = words a.
Proof.
  intros H. rewrite drop_ge, app_nil_r; [done|]. unfold words. rewrite !length_words. lia.
Qed.

#[global] Instance range_codec :
  Codec mls_write_range_helper mls_read_range_helper range_bytes range_ok id.
Proof.
  split; intros [[s0 c0] [s1 c1]] [[Hs0 Hc0] [Hs1 Hc1]]; unfold range_bytes; cbn in *;
    destruct (mls_level_eq _ _) eqn:Eeq.
  - unfold mls_write_range_helper. cbn. rewrite Eeq. cbn. rewrite app_assoc, <- words_app.
    rewrite <- (app_nil_r (ebitmap_bytes c0)). apply writes_bind; [apply writes_words|]. apply writes_bind; writes.
  - unfold mls_write_range_helper. cbn. rewrite Eeq. cbn. rewrite app_assoc, <- words_app. writes.
  - apply level_eq_spec in Eeq. injection Eeq as -> ->. unfold mls_read_range_helper.
    reads_step. word_at. change (2 <? 1) with false. change (1 <? 1) with false. cbv iota.
    reads_step. rewrite over_words by done. word_at. reads_step.
    eapply reads_bind_nil; [apply reads_ebitmap_copy|]. intros c ->. by reads_step.
  - unfold mls_read_range_helper. reads_step. word_at. change (2 <? 2) with false. change (1 <? 2) with true. cbv iota.
    assert (u32s [s0; s1]) by (inversion Hs0; inversion Hs1; by repeat constructor).
    reads_step. rewrite over_words by (simpl; lia). word_at. do 2 reads_step. by reads_step.
Qed.

(** The categories of a semantic level come back in reverse order. *)
Definition sem_cat_bytes (c : mls_semantic_cat) : list N := words [low c; high c].
Definition sem_level_bytes (l : mls_semantic_level) : list N :=
  words [sem_sens l; u32 (N.of_nat (length (sem_cat l)))] ++ (sem_cat l ≫= sem_cat_bytes).
Definition sem_level_ok (l : mls_semantic_level) : Prop :=
  u32s [sem_sens l] ∧ N.of_nat (length (sem_cat l)) < 2 ^ 32 ∧ Forall (λ c, u32s [low c; high c]) (sem_cat l).
Definition sem_level_norm (l : mls_semantic_level) : mls_semantic_level :=
  SemLevel (sem_sens l) (rev (sem_cat l)).

#[global] Instance sem_level_codec :
  Codec mls_write_semantic_level_helper mls_read_semantic_level_helper sem_level_bytes sem_level_ok sem_level_norm.
Proof.
  split; intros [s cs] (Hs & Hn & Hcs); unfold sem_level_bytes, sem_level_norm; cbn in *.
  - unfold mls_write_semantic_level_helper. writes.
  - unfold mls_read_semantic_level_helper. rewrite u32_small by done.
    assert (u32s [s; N.of_nat (length cs)]) by (inversion Hs; by repeat constructor).
    reads_step. word_at. rewrite Nat2N.id. rewrite <- (app_nil_r (cs ≫= _)).
    eapply (reads_bind _ _ _ _ (λ x, x = rev cs)).
    + apply (reads_times (λ pre x, x = rev pre)); [done|]. intros pre [lo hi] post l' Hl ->.
      apply (proj1 (Forall_forall _ _)) with (x := SemCat lo hi) in Hcs; [|set_solver].
      unfold sem_cat_bytes. cbn in *. do 2 reads_step. word_at. apply reads_ret. by rewrite rev_unit.
    + intros l' ->. by reads_step.
Qed.

Definition sem_range_bytes (r : mls_semantic_range) : list N :=
  sem_level_bytes (sem_level0 r) ++ sem_level_bytes (sem_level1 r).
Definition sem_range_ok (r : mls_semantic_range) : Prop := sem_level_ok (sem_level0 r) ∧ sem_level_ok (sem_level1 r).
Definition sem_range_norm (r : mls_semantic_range) : mls_semantic_range :=
  SemRange (sem_level_norm (sem_level0 r)) (sem_level_norm (sem_level1 r)).

#[global] Instance sem_range_codec :
  Codec mls_write_semantic_range_helper mls_read_semantic_range_helper sem_range_bytes sem_range_ok sem_range_norm.
Proof.
  split; intros [l0 l1] [H0 H1]; unfold sem_range_bytes; cbn in *.
  - by apply writes_bind; apply codec_writes.
  - unfold mls_read_semantic_range_helper. eapply reads_bind_eq; [by apply codec_reads|].
    rewrite <- (app_nil_r (sem_level_bytes l1)). eapply reads_bind_eq; [by apply codec_reads|]. by reads_step.
Qed.

(** * Formats of rules *)

Lemma bind_filter {A} (P : A → Prop) `{!∀ x, Decision (P x)} (f : A → list N) l :
  filter P l ≫= f = l ≫= (λ a, if decide (P a) then f a else []).
Proof.
  induction l as [|a l IH]; [done|]. rewrite filter_cons, bind_cons.
  destruct (decide (P a)); [by rewrite bind_cons, IH|done].
Qed.

Definition role_trans_bytes (v : write_params) (tr : role_trans) : list N :=
  words [rt_role tr; rt_type tr; rt_new_role tr] ++ (if new_roletr v then words [rt_tclass tr] else []).
Definition role_trans_kept (v : write_params) : list role_trans → list role_trans :=
  filter (λ tr, roletr_kept v tr = true).
Definition role_trans_ok (l : list role_trans) : Prop :=
  N.of_nat (length l) < 2 ^ 32 ∧
  Forall (λ tr, u32s [rt_role tr; rt_type tr; rt_new_role tr] ∧ u32s [rt_tclass tr]) l.

#[global] Instance role_trans_codec v :
  Codec (role_trans_write v) (role_trans_read v)
    (λ l, list_bytes (role_trans_bytes v) (role_trans_kept v l)) role_trans_ok (role_trans_kept v).
Proof.
  split; intros l [Hlen Hl]; unfold list_bytes, role_trans_kept.
  - unfold role_trans_write. apply writes_bind; [apply writes_words|]. rewrite bind_filter.
    apply writes_list. intros tr _. unfold roletr_kept. destruct (new_roletr v) eqn:En; cbn.
    + rewrite decide_True by done. unfold role_trans_bytes. rewrite En. writes.
    + destruct (rt_tclass tr =? SECCLASS_PROCESS) eqn:Ec; cbn.
      * rewrite decide_True by done. unfold role_trans_bytes. rewrite En. writes.
      * rewrite decide_False by done. apply writes_ret.
  - unfold role_trans_read. pose proof (length_filter (λ tr, roletr_kept v tr = true) l) as Hfl.
    assert (u32s [N.of_nat (length (filter (λ tr, roletr_kept v tr = true) l))]) by (repeat constructor; lia).
    reads_step. word_at. eapply reads_mono; [apply (reads_list _ _ id)|]; [done| |intros x ->; by rewrite list_fmap_id].
    intros [r t c n] [Hk Hin]%list_elem_of_filter. destruct (proj1 (Forall_forall _ _) Hl _ Hin) as [Hw Hc].
    unfold role_trans_bytes, roletr_kept in *. cbn in *. do 2 reads_step.
    destruct (new_roletr v); cbn in *.
    + rewrite <- (app_nil_r (words [c])). eapply (reads_bind_eq _ _ _ _ c).
      { reads_step. word_at. by reads_step. }
      word_at. by reads_step.
    + apply N.eqb_eq in Hk as ->. eapply (reads_bind_nil _ _ _ (λ x, x = SECCLASS_PROCESS)); [by apply reads_ret|].
      intros x ->. word_at. by reads_step.
Qed.

Definition role_allow_bytes (ra : role_allow) : list N := words [ra_role ra; ra_new_role ra].
Definition role_allow_ok (l : list role_allow) : Prop :=
  u32s [N.of_nat (length l)] ∧ Forall (λ ra, u32s [ra_role ra; ra_new_role ra]) l.

#[global] Instance role_allow_codec :
  Codec role_allow_write role_allow_read (list_bytes role_allow_bytes) role_allow_ok id.
Proof.
  split; intros l [Hlen Hl]; unfold list_bytes.
  - unfold role_allow_write. writes.
  - unfold role_allow_read. reads_step. word_at.
    eapply reads_mono; [apply (reads_list _ _ id)|]; [done| |intros x ->; by rewrite list_fmap_id].
    intros [r n] Hin. pose proof (proj1 (Forall_forall _ _) Hl _ Hin) as Hw.
    unfold role_allow_bytes. cbn in *. do 2 reads_step. word_at. by reads_step.
Qed.

Definition filename_trans_bytes (ft : filename_trans) : list N :=
  words [strlen (ft_name ft)] ++ string_bytes (ft_name ft) ++
  words [ft_stype ft; ft_ttype ft; ft_tclass ft; ft_otype ft].
Definition filename_trans_ok (l : list filename_trans) : Prop :=
  u32s [N.of_nat (length l)] ∧
  Forall (λ ft, name_ok (ft_name ft) ∧ u32s [ft_stype ft; ft_ttype ft; ft_tclass ft; ft_otype ft]) l.

Lemma name_u32s s : name_ok s → u32s [strlen s].
Proof. intros []. repeat constructor. lia. Qed.
#[export] Hint Resolve name_u32s : codec.

#[global] Instance filename_trans_codec :
  Codec filename_trans_write filename_trans_read (list_bytes filename_trans_bytes) filename_trans_ok id.
Proof.
  split; intros l [Hlen Hl]; unfold list_bytes.
  - unfold filename_trans_write. writes.
  - unfold filename_trans_read. reads_step. word_at.
    eapply reads_mono; [apply (reads_list _ _ id)|]; [done| |intros x ->; by rewrite list_fmap_id].
    intros [s t c n o] Hin. destruct (proj1 (Forall_forall _ _) Hl _ Hin) as [Hn Hw].
    unfold filename_trans_bytes. cbn in *. pose proof (name_u32s _ Hn). do 2 reads_step. word_at.
    eapply reads_bind_eq; [apply reads_string; auto|]. reads_step. word_at. by reads_step.
Qed.

Definition range_trans_bytes (v : write_params) (rt : range_trans) : list N :=
  words [rtr_source_type rt; rtr_target_type rt] ++
  (if new_rangetr v then words [rtr_target_class rt] else []) ++ range_bytes (rtr_target_range rt).
Definition range_trans_kept (v : write_params) : list range_trans → list range_trans :=
  filter (λ rt, rangetr_kept v rt = true).
Definition range_trans_ok (l : list range_trans) : Prop :=
  N.of_nat (length l) < 2 ^ 32 ∧
  Forall (λ rt, u32s [rtr_source_type rt; rtr_target_type rt] ∧ u32s [rtr_target_class rt] ∧
                range_ok (rtr_target_range rt)) l.

Lemma range_trans_writes v l :
  range_trans_ok l → Writes (range_write v l) (list_bytes (range_trans_bytes v) (range_trans_kept v l)).
Proof.
  intros [Hlen Hl]. unfold range_write, list_bytes, range_trans_kept.
  apply writes_bind; [apply writes_words|]. rewrite bind_filter.
  apply writes_list. intros rt Hin. destruct (proj1 (Forall_forall _ _) Hl _ Hin) as (_ & _ & Hr).
  unfold rangetr_kept, range_trans_bytes. pose proof (codec_writes _ Hr).
  destruct (new_rangetr v) eqn:En; cbn.
  - rewrite decide_True by done. writes.
  - destruct (rtr_target_class rt =? SECCLASS_PROCESS) eqn:Ec; cbn.
    + rewrite decide_True by done. apply writes_bind; [apply writes_words|].
      by apply (writes_bind _ _ [] _ writes_ret).
    + rewrite decide_False by done. apply writes_ret.
Qed.

Lemma range_trans_reads v l :
  is_kern v = true → range_trans_ok l →
  Reads (range_read v) (list_bytes (range_trans_bytes v) (range_trans_kept v l))
    (λ x, x = (range_trans_kept v l, [])).
Proof.
  intros Hk [Hlen Hl]. unfold range_read, list_bytes, range_trans_kept. rewrite Hk.
  pose proof (length_filter (λ rt, rangetr_kept v rt = true) l) as Hfl.
  assert (u32s [N.of_nat (length (filter (λ rt, rangetr_kept v rt = true) l))]) by (repeat constructor; lia).
  reads_step. word_at. rewrite <- (app_nil_r (_ ≫= _)). eapply reads_bind_eq; [|by reads_step].
  eapply reads_mono; [apply (reads_list _ _ id)|]; [done| |intros x ->; by rewrite list_fmap_id].
  intros [s t c r] [Hkept Hin]%list_elem_of_filter. destruct (proj1 (Forall_forall _ _) Hl _ Hin) as (Hw & Hc & Hr).
  unfold range_trans_bytes, rangetr_kept in *. cbn in *. do 2 reads_step.
  destruct (new_rangetr v); cbn in *.
  - eapply (reads_bind_eq _ _ _ _ c); [reads_step; word_at; by reads_step|]. word_at.
    rewrite <- (app_nil_r (range_bytes r)). eapply reads_bind_eq.
    { apply reads_or_rc; [done|]. by apply codec_reads. }
    by reads_step.
  - apply N.eqb_eq in Hkept as ->. eapply (reads_bind_nil _ _ _ (λ x, x = SECCLASS_PROCESS)); [by apply reads_ret|].
    intros x ->. word_at. rewrite <- (app_nil_r (range_bytes r)). eapply reads_bind_eq.
    { apply reads_or_rc; [done|]. by apply codec_reads. }
    by reads_step.
Qed.

(** * Formats of contexts *)

Definition has_mls (v : write_params) : bool := since v POLICYDB_VERSION_MLS MOD_POLICYDB_VERSION_MLS.

Definition context_bytes (v : write_params) (c : context_struct) : list N :=
  words [user c; role c; type c] ++ (if has_mls v then range_bytes (range c) else []).
(** What is read into a cleared structure. *)
Definition context_norm (v : write_params) (c : context_struct) : context_struct :=
  Context (user c) (role c) (type c) (if has_mls v then range c else mls_range_init).
Definition context_ok (v : write_params) (p : policydb) (c : context_struct) : Prop :=
  u32s [user c; role c; type c] ∧ range_ok (range c) ∧
  ∀ o, policydb_context_isvalid p (context_norm v c) o = Ret true o.

#[global] Instance context_codec v p :
  Codec (context_write v) (context_read_and_validate context_init v p) (context_bytes v) (context_ok v p)
    (context_norm v).
Proof.
  split; intros [u r t rng] (Hw & Hr & Hv); unfold context_bytes, context_norm, has_mls in *; cbn in *.
  - unfold context_write. pose proof (codec_writes _ Hr). writes.
  - unfold context_read_and_validate. reads_step. rewrite <- (app_nil_r (if since _ _ _ then _ else _)).
    eapply (reads_bind _ _ _ _ (λ x, x = if since v POLICYDB_VERSION_MLS MOD_POLICYDB_VERSION_MLS then rng else mls_range_init)).
    { destruct (since _ _ _); [|by apply reads_ret]. apply reads_or_rc; [done|]. exact (codec_reads _ Hr). }
    intros x ->. word_at. eapply (reads_bind_nil _ _ _ (λ b, b = true)).
    { apply reads_lift. intros o. unfold wp. by rewrite Hv. }
    intros b ->. by reads_step.
Qed.

(** * Theorems *)

(** [w] succeeds in any file with room, and [r] gives a value in [Q] back from
    the bytes it emits and stops behind them; only a failed allocation makes
    it fail. *)
Definition SurvivesAs {B} (w : io unit) (r : io B) (Q : B → Prop) : Prop :=
  ∃ bs, (∀ fp o, pf_room fp (N.of_nat (length bs)) →
           io_run w fp o = Ret (POLICYDB_SUCCESS, pf_put fp bs) o) ∧
        (∀ fp rest o, pf_wf fp → pf_avail fp = bs ++ rest →
           wp (r fp) o (λ x o', (o = [] → o' = [] ∧ ∃ b, x.1 = inr b) ∧
             ((∃ b, x.1 = inr b ∧ Q b ∧ pf_wf x.2 ∧ pf_avail x.2 = rest) ∨ ∃ rc, x.1 = inl rc ∧ (rc < 0)%Z))).
Definition Survives {B} (w : io unit) (r : io B) (b : B) : Prop := SurvivesAs w r (λ x, x = b).

Lemma survives_intro {B} (w : io unit) (r : io B) bs Q :
  Writes w bs → Reads r bs Q → SurvivesAs w r Q.
Proof.
  intros Hw Hr. exists bs. split.
  - intros fp o Hroom. unfold io_run. by rewrite bind_run, (writes_run _ _ Hw).
  - intros fp rest o Hfp Hav. eapply wp_mono; [by apply (reads_run _ _ _ Hr _ rest)|].
    intros [[rc|x] fp2] o' (Ho & ? & Hb); cbn [fst snd] in *; split; try naive_solver.
Qed.

Lemma survives_codec {A B} w r bytes ok norm `{!Codec (A := A) (B := B) w r bytes ok norm} a :
  ok a → Survives (w a) r (norm a).
Proof. intros Ha. by apply (survives_intro _ _ (bytes a)); [apply codec_writes|apply codec_reads]. Qed.

(** The rules and contexts of a kernel policy survive the policy file, for
    every version of the format.  Role transitions, role allow rules, file
    name transitions, range transitions and valid contexts are read back as
    they were written, in order, less what the version cannot express: before
    version 26 (21 for ranges) only transitions of processes are kept, and
    before version 19 a context has no range. *)
Theorem rules_write_read v p tr ra ft rt c :
  is_kern v = true → role_trans_ok tr → role_allow_ok ra → filename_trans_ok ft → range_trans_ok rt →
  context_ok v p c →
  Survives (role_trans_write v tr) (role_trans_read v) (filter (λ t, roletr_kept v t = true) tr) ∧
  Survives (role_allow_write ra) role_allow_read ra ∧
  Survives (filename_trans_write ft) filename_trans_read ft ∧
  Survives (range_write v rt) (range_read v) (filter (λ t, rangetr_kept v t = true) rt, []) ∧
  Survives (context_write v c) (context_read_and_validate context_init v p) (context_norm v c).
Proof.
  intros Hk Htr Hra Hft Hrt Hc. split_and!.
  - exact (survives_codec _ _ _ _ _ _ Htr).
  - exact (survives_codec _ _ _ _ _ _ Hra).
  - exact (survives_codec _ _ _ _ _ _ Hft).
  - eapply survives_intro; [by apply range_trans_writes|by apply range_trans_reads].
  - exact (survives_codec _ _ _ _ _ _ Hc).
Qed.

#[global] Instance u32s_dec ws : Decision (u32s ws).
Proof. unfold u32s. apply _. Defined.
#[global] Instance level_ok_dec l : Decision (level_ok l).
Proof. unfold level_ok. apply _. Defined.
#[global] Instance range_ok_dec r : Decision (range_ok r).
Proof. unfold range_ok. apply _. Defined.
#[global] Instance role_trans_ok_dec l : Decision (role_trans_ok l).
Proof. unfold role_trans_ok. apply _. Defined.
#[global] Instance role_allow_ok_dec l : Decision (role_allow_ok l).
Proof. unfold role_allow_ok. apply _. Defined.
#[global] Instance filename_trans_ok_dec l : Decision (filename_trans_ok l).
Proof. unfold filename_trans_ok. apply _. Defined.
#[global] Instance range_trans_ok_dec l : Decision (range_trans_ok l).
Proof. unfold range_trans_ok. apply _. Defined.

(** Version 25: a role transition on creation of a file is dropped. *)
Lemma rules_write_read_witness :
  let v := WriteParams POLICY_KERN 25 SEPOL_TARGET_SELINUX in
  Survives (role_trans_write v [RoleTrans 2 3 SECCLASS_PROCESS 4; RoleTrans 2 3 7 4]) (role_trans_read v)
    [RoleTrans 2 3 SECCLASS_PROCESS 4] ∧
  Survives (filename_trans_write [FilenameTrans 1 2 6 "resolv.conf" 3]) filename_trans_read
    [FilenameTrans 1 2 6 "resolv.conf" 3] ∧
  Survives (context_write v ex_mls_context) (context_read_and_validate context_init v ex_policy) ex_mls_context.
Proof.
  intros v.
  destruct (rules_write_read v ex_policy [RoleTrans 2 3 SECCLASS_PROCESS 4; RoleTrans 2 3 7 4] [RoleAllow 2 4]
              [FilenameTrans 1 2 6 "resolv.conf" 3] [RangeTrans 1 2 2 (range ex_mls_context)] ex_mls_context
              eq_refl ltac:(by_decide) ltac:(by_decide) ltac:(by_decide) ltac:(by_decide))
    as (H1 & _ & H2 & _ & H3).
  - split; [by_decide|]. split; [by_decide|]. intros o. by vm_compute.
  - split; [exact H1|]. split; [exact H2|exact H3].
Defined.

(** A gap in a bitmap of categories does not end a range: the conversion of
    the categories 1 to 64 and 129 to 130 also has 65 to 128. *)
Example level_to_semantic_widens :
  mls_level_to_semantic (MlsLevel 1 (EBitmap [EBNode 0 (2 ^ 64 - 1); EBNode 128 3] 192)) [] =
  Ret (Some (SemLevel 1 [SemCat 1 130])) [].
Proof. by vm_compute. Qed.
