(* ===== verification/SymbolIO.v ===== *)
(** The symbol tables of a policy file: the [*_read] functions of
    libsepol/src/policydb.c (and [cond_read_bool] of conditional.c) and the
    [*_write] functions of libsepol/src/write.c, with the loops over the tables
    in [policydb_read] and [policydb_write].

    A reader takes the table it inserts into and returns it.  [SymCodec] is
    what each kind of symbol promises to these loops: its entries are written
    as their bytes, and reading the bytes adds the entry, up to the fields the
    format does not have, to the table. *)

From stdpp Require Import sorting.
From S2P Require Import Prelude Ebitmap PolicyFile Hashtab MlsTypes Avtab Policydb Mls Context.
From S2P Require Import Conditional Services Expand PolicyIO.
Local Open Scope N_scope.

Definition PERM_SYMTAB_SIZE : N := 32.
Definition TYPE_ALIAS : N := 2.
Definition TYPE_FLAGS_PERMISSIVE : N := 1.
Definition TYPEDATUM_PROPERTY_PRIMARY : N := 1.
Definition TYPEDATUM_PROPERTY_ATTRIBUTE : N := 2.
Definition TYPEDATUM_PROPERTY_ALIAS : N := 4.
Definition TYPEDATUM_PROPERTY_PERMISSIVE : N := 8.
Definition OBJECT_R : string := "object_r".

Definition stable (D : Type) : Type := option (hashtab string D).

(** [if (hashtab_insert(h, key, datum)) goto bad;]. *)
Definition add_symbol {D} (h : stable D) (key : string) (d : D) : io (stable D) :=
  io_checked (hashtab_insert h key d).

(** [if (hashtab_map(h, f, pd)) return POLICYDB_ERROR;]. *)
Definition put_table {D} (w : string → D → io unit) (h : stable D) : io unit := λ fp,
  '(rc, fp) ← hashtab_map h (λ k d fp, io_run (w k d) fp) fp;
  mret (if (rc =? 0)%Z then inr tt else inl POLICYDB_ERROR, fp).

(** A [char] field: stored as its byte, widened with its sign. *)
Definition char_word (c : N) : N := if c <? 128 then c else c + (2 ^ 32 - 256).

(** * Permissions and commons *)

Definition perm_write (key : string) (d : perm_datum) : io unit :=
  _ ← put_words [strlen key; perm_value d]; put_string key.

Definition perm_read (h : stable perm_datum) : io (stable perm_datum) :=
  _ ← alloc (-1);
  buf ← get 8;
  let len := le32_at buf 0 in
  key ← get_string (len + 1) len;
  add_symbol h key (PermDatum (le32_at buf 1)).

Definition common_write (key : string) (d : common_datum) : io unit :=
  t ← io_lift (deref (table (common_permissions d)));
  _ ← put_words [strlen key; common_value d; nprim (common_permissions d); nel t];
  _ ← put_string key;
  put_table perm_write (Some t).

(** A new table of permissions. *)
Definition new_perms : io (stable perm_datum) :=
  s ← io_checked (symtab_init (Symtab None 0) PERM_SYMTAB_SIZE); mret (table s).

Definition common_read (h : stable common_datum) : io (stable common_datum) :=
  _ ← alloc (-1);
  buf ← get 16;
  let len := le32_at buf 0 in
  perms ← new_perms;
  key ← get_string (len + 1) len;
  perms ← io_times (N.to_nat (le32_at buf 3)) perm_read perms;
  add_symbol h key (CommonDatum (le32_at buf 1) (Symtab perms (le32_at buf 2))).

(** * Constraints *)

Definition has_type_names (v : write_params) : bool :=
  negb (is_kern v) || (POLICYDB_VERSION_CONSTRAINT_NAMES <=? policyvers v).

Definition cons_expr_write (v : write_params) (allowxtarget : bool) (e : constraint_expr) : io unit :=
  _ ← put_words [expr_type e; attr e; op e];
  if expr_type e =? CEXPR_NAMES then
    if negb allowxtarget && truth (N.land (attr e) CEXPR_XTARGET) then io_fail POLICYDB_ERROR else
    _ ← ebitmap_put (names e);
    when (has_type_names v) (type_set_write (type_names e))
  else mret tt.

Definition write_cons_helper (v : write_params) (allowxtarget : bool) (node : list constraint_node) : io unit :=
  io_list (λ c,
    _ ← put_words [permissions c; u32 (N.of_nat (length (expr c)))];
    io_list (cons_expr_write v allowxtarget) (expr c)) node.

Definition type_set_init : type_set := TypeSet ebitmap_init ebitmap_init 0.

(** One expression: the list so far and [depth]. *)
Definition cons_expr_read (v : write_params) (allowxtarget : bool) (s : list constraint_expr * Z)
    : io (list constraint_expr * Z) :=
  let '(l, depth) := s in
  _ ← alloc (-1);
  _ ← alloc (-1);
  buf ← get 12;
  let e := ConstraintExpr (le32_at buf 0) (le32_at buf 1) (le32_at buf 2) ebitmap_init type_set_init in
  let full := (depth =? Z.of_nat CEXPR_MAXDEPTH - 1)%Z in
  if expr_type e =? CEXPR_NOT then
    if (depth <? 0)%Z then io_fail (-1) else mret (l ++ [e], depth)
  else if (expr_type e =? CEXPR_AND) || (expr_type e =? CEXPR_OR) then
    if (depth <? 1)%Z then io_fail (-1) else mret (l ++ [e], (depth - 1)%Z)
  else if expr_type e =? CEXPR_ATTR then
    if full then io_fail (-1) else mret (l ++ [e], (depth + 1)%Z)
  else if expr_type e =? CEXPR_NAMES then
    if negb allowxtarget && truth (N.land (attr e) CEXPR_XTARGET) then io_fail (-1) else
    if full then io_fail (-1) else
    n ← or_rc (-1) ebitmap_get;
    tn ← (if has_type_names v then or_rc (-1) type_set_read else mret type_set_init);
    mret (l ++ [ConstraintExpr (expr_type e) (attr e) (op e) n tn], (depth + 1)%Z)
  else io_fail (-1).

Definition cons_node_read (v : write_params) (allowxtarget : bool) : io constraint_node :=
  _ ← alloc (-1);
  buf ← get 8;
  '(l, depth) ← io_times (N.to_nat (le32_at buf 1)) (cons_expr_read v allowxtarget) ([], (-1)%Z);
  if negb (depth =? 0)%Z then io_fail (-1) else mret (ConstraintNode (le32_at buf 0) l).

Definition read_cons_helper (v : write_params) (ncons : N) (allowxtarget : bool) : io (list constraint_node) :=
  io_read_list ncons (cons_node_read v allowxtarget).

(** * Classes *)

Definition has_validatetrans (v : write_params) : bool :=
  since v POLICYDB_VERSION_VALIDATETRANS MOD_POLICYDB_VERSION_VALIDATETRANS.
Definition has_defaults (v : write_params) : bool :=
  since v POLICYDB_VERSION_NEW_OBJECT_DEFAULTS MOD_POLICYDB_VERSION_NEW_OBJECT_DEFAULTS.
Definition has_default_type (v : write_params) : bool :=
  since v POLICYDB_VERSION_DEFAULT_TYPE MOD_POLICYDB_VERSION_DEFAULT_TYPE.

Definition class_write (v : write_params) (key : string) (d : class_datum) : io unit :=
  let t := table (class_permissions d) in
  _ ← put_words [strlen key; match comkey d with Some k => strlen k | None => 0 end; class_value d;
                 nprim (class_permissions d); match t with Some t => nel t | None => 0 end;
                 u32 (N.of_nat (length (constraints d)))];
  _ ← put_string key;
  _ ← match comkey d with Some k => put_string k | None => mret tt end;
  _ ← put_table perm_write t;
  _ ← write_cons_helper v false (constraints d);
  _ ← when (has_validatetrans v) (
        _ ← put_words [u32 (N.of_nat (length (validatetrans d)))];
        write_cons_helper v true (validatetrans d));
  _ ← when (has_defaults v)
        (put_words [char_word (default_user d); char_word (default_role d); char_word (default_range d)]);
  when (has_default_type v) (put_words [char_word (default_type d)]).

(** The common is looked up among those read before. *)
Definition class_read (v : write_params) (commons : stable common_datum) (h : stable class_datum)
    : io (stable class_datum) :=
  _ ← alloc (-1);
  buf ← get 24;
  let len := le32_at buf 0 in
  let len2 := le32_at buf 1 in
  perms ← new_perms;
  key ← get_string (len + 1) len;
  '(ck, cd) ← (if truth len2 then
                 ck ← get_string (len2 + 1) len2;
                 cd ← io_lift (hashtab_search commons ck);
                 match cd with None => io_fail (-1) | Some cd => mret (Some ck, Some cd) end
               else mret (None, None));
  perms ← io_times (N.to_nat (le32_at buf 4)) perm_read perms;
  cons ← read_cons_helper v (le32_at buf 5) false;
  vtrans ← (if has_validatetrans v then
              b ← get 4; read_cons_helper v (le32_at b 0) true
            else mret []);
  '(du, dr, drange) ← (if has_defaults v then
                         b ← get 12; mret (u8 (le32_at b 0), u8 (le32_at b 1), u8 (le32_at b 2))
                       else mret (0, 0, 0));
  dt ← (if has_default_type v then b ← get 4; mret (u8 (le32_at b 0)) else mret 0);
  add_symbol h key (ClassDatum (le32_at buf 2) ck cd (Symtab perms (le32_at buf 3)) cons vtrans du dr dt drange).

(** * Roles, types and users *)

Definition has_roleattrib (v : write_params) : bool :=
  negb (is_kern v) && (MOD_POLICYDB_VERSION_ROLEATTRIB <=? policyvers v).

(** Attributes are left out where the format has no flavor. *)
Definition role_skipped (v : write_params) (d : role_datum) : bool :=
  (role_flavor d =? ROLE_ATTRIB) &&
  (is_kern v || negb (is_kern v) && (policyvers v <? MOD_POLICYDB_VERSION_ROLEATTRIB)).

Definition role_write (v : write_params) (key : string) (d : role_datum) : io unit :=
  if role_skipped v d then mret tt else
  _ ← put_words ([strlen key; role_value d] ++ (if policydb_has_boundary_feature v then [role_bounds d] else []));
  _ ← put_string key;
  _ ← ebitmap_put (dominates d);
  _ ← (if is_kern v then ebitmap_put (ts_types (role_types d)) else type_set_write (role_types d));
  when (has_roleattrib v) (_ ← put_words [role_flavor d]; ebitmap_put (role_roles d)).

(** [object_r] is in the table already. *)
Definition role_read (v : write_params) (h : stable role_datum) : io (stable role_datum) :=
  _ ← alloc (-1);
  let boundary := policydb_has_boundary_feature v in
  buf ← get (4 * if boundary then 3 else 2);
  let len := le32_at buf 0 in
  key ← get_string (len + 1) len;
  doms ← or_rc (-1) ebitmap_get;
  types ← (if is_kern v then e ← or_rc (-1) ebitmap_get; mret (TypeSet e ebitmap_init 0)
           else or_rc (-1) type_set_read);
  '(fl, roles) ← (if has_roleattrib v then
                    b ← get 4; roles ← or_rc (-1) ebitmap_get; mret (le32_at b 0, roles)
                  else mret (0, ebitmap_init));
  if (strcmp key OBJECT_R =? 0)%Z then
    if negb (le32_at buf 1 =? OBJECT_R_VAL) then io_fail (-1) else mret h
  else
  add_symbol h key (RoleDatum (le32_at buf 1) doms types ebitmap_init
                      (if boundary then le32_at buf 2 else 0) fl roles).

Definition has_alias (v : write_params) : bool :=
  negb (is_kern v) && (MOD_POLICYDB_VERSION_BOUNDARY_ALIAS <=? policyvers v).

Definition type_skipped (v : write_params) (d : type_datum) : bool :=
  is_kern v && (policyvers v <? POLICYDB_VERSION_BOUNDARY) && (flavor d =? TYPE_ATTRIB).

Definition type_properties (v : write_params) (d : type_datum) : N :=
  N.lor (if truth (primary d) then TYPEDATUM_PROPERTY_PRIMARY else 0)
  (N.lor (if flavor d =? TYPE_ATTRIB then TYPEDATUM_PROPERTY_ATTRIBUTE
          else if (flavor d =? TYPE_ALIAS) && negb (is_kern v) then TYPEDATUM_PROPERTY_ALIAS else 0)
         (if truth (N.land (td_flags d) TYPE_FLAGS_PERMISSIVE) && negb (is_kern v)
          then TYPEDATUM_PROPERTY_PERMISSIVE else 0)).

Definition type_words (v : write_params) (d : type_datum) : list N :=
  if policydb_has_boundary_feature v then
    (if has_alias v then [primary d] else []) ++ [type_properties v d; type_bounds d]
  else primary d ::
    (if negb (is_kern v) then
       flavor d :: (if MOD_POLICYDB_VERSION_PERMISSIVE <=? policyvers v then [td_flags d] else [])
     else []).

Definition type_write (v : write_params) (key : string) (d : type_datum) : io unit :=
  if type_skipped v d then mret tt else
  _ ← put_words ([strlen key; type_value d] ++ type_words v d);
  _ ← when (negb (is_kern v)) (ebitmap_put (td_types d));
  put_string key.

Definition type_to_read (v : write_params) : N :=
  if policydb_has_boundary_feature v then if has_alias v then 5 else 4
  else if is_kern v then 3
  else if MOD_POLICYDB_VERSION_PERMISSIVE <=? policyvers v then 5 else 4.

(** [primary], [flavor], [flags] and [bounds] from the buffer. *)
Definition type_fields (v : write_params) (buf : list N) : N * N * N * N :=
  if policydb_has_boundary_feature v then
    let alias := has_alias v in
    let properties := le32_at buf (if alias then 3 else 2) in
    let has p := truth (N.land properties p) in
    (if alias then le32_at buf 2 else if has TYPEDATUM_PROPERTY_PRIMARY then 1 else 0,
     if has TYPEDATUM_PROPERTY_ALIAS && negb (is_kern v) then TYPE_ALIAS
     else if has TYPEDATUM_PROPERTY_ATTRIBUTE then TYPE_ATTRIB else 0,
     if has TYPEDATUM_PROPERTY_PERMISSIVE && negb (is_kern v) then TYPE_FLAGS_PERMISSIVE else 0,
     le32_at buf (if alias then 4 else 3))
  else
    (le32_at buf 2,
     if negb (is_kern v) then le32_at buf 3 else 0,
     if negb (is_kern v) && (MOD_POLICYDB_VERSION_PERMISSIVE <=? policyvers v) then le32_at buf 4 else 0,
     0).

Definition type_read (v : write_params) (h : stable type_datum) : io (stable type_datum) :=
  _ ← alloc (-1);
  buf ← get (4 * type_to_read v);
  let len := le32_at buf 0 in
  types ← (if negb (is_kern v) then or_rc (-1) ebitmap_get else mret ebitmap_init);
  key ← get_string (len + 1) len;
  let '(prim, fl, flags, bounds) := type_fields v buf in
  add_symbol h key (TypeDatum (le32_at buf 1) prim fl types flags bounds).

(** How the levels of a user are stored: expanded, expanded in a module of an
    old version, as semantic levels, or not at all. *)
Definition user_expanded (v : write_params) : bool :=
  is_kern v && (POLICYDB_VERSION_MLS <=? policyvers v) ||
  (is_mod v || is_base v) && (MOD_POLICYDB_VERSION_MLS <=? policyvers v) &&
    (policyvers v <? MOD_POLICYDB_VERSION_MLS_USERS).
Definition user_semantic (v : write_params) : bool :=
  (is_mod v || is_base v) && (MOD_POLICYDB_VERSION_MLS_USERS <=? policyvers v).

Definition user_write (v : write_params) (key : string) (d : user_datum) : io unit :=
  _ ← put_words ([strlen key; user_value d] ++ (if policydb_has_boundary_feature v then [user_bounds d] else []));
  _ ← put_string key;
  _ ← (if is_kern v then ebitmap_put (rs_roles (user_roles d)) else role_set_write (user_roles d));
  if user_expanded v then
    _ ← mls_write_range_helper (exp_range d); mls_write_level (exp_dfltlevel d)
  else when (user_semantic v)
    (_ ← mls_write_semantic_range_helper (user_range d); mls_write_semantic_level_helper (user_dfltlevel d)).

Definition or_null {A} (m : M (option A)) : io A :=
  r ← io_lift m; match r with None => io_fail (-1) | Some a => mret a end.

(** The four fields with the levels of a user. *)
Definition user_levels_read (v : write_params)
    : io (mls_semantic_range * mls_semantic_level * mls_range * mls_level) :=
  if user_expanded v then
    r ← or_rc (-1) mls_read_range_helper;
    l ← or_rc (-1) mls_read_level;
    if negb (is_kern v) then
      sr ← or_null (mls_range_to_semantic r);
      sl ← or_null (mls_level_to_semantic l);
      mret (sr, sl, r, l)
    else mret (mls_semantic_range_init, mls_semantic_level_init, r, l)
  else if user_semantic v then
    sr ← or_rc (-1) mls_read_semantic_range_helper;
    sl ← or_rc (-1) mls_read_semantic_level_helper;
    mret (sr, sl, mls_range_init, mls_level_init)
  else mret (mls_semantic_range_init, mls_semantic_level_init, mls_range_init, mls_level_init).

Definition user_read (v : write_params) (h : stable user_datum) : io (stable user_datum) :=
  _ ← alloc (-1);
  let boundary := policydb_has_boundary_feature v in
  buf ← get (4 * if boundary then 3 else 2);
  let len := le32_at buf 0 in
  key ← get_string (len + 1) len;
  roles ← (if is_kern v then e ← or_rc (-1) ebitmap_get; mret (RoleSet e 0) else or_rc (-1) role_set_read);
  '(sr, sl, r, l) ← user_levels_read v;
  add_symbol h key (UserDatum (le32_at buf 1) roles sr sl r l ebitmap_init
                      (if boundary then le32_at buf 2 else 0)).

(** * Booleans, sensitivities and categories *)

Definition has_tunables (v : write_params) : bool :=
  negb (is_kern v) && (MOD_POLICYDB_VERSION_TUNABLE_SEP <=? policyvers v).

Definition cond_write_bool (v : write_params) (key : string) (d : cond_bool_datum) : io unit :=
  _ ← put_words [bool_value d; Z.to_N (state d mod 2 ^ 32); strlen key];
  _ ← put_string key;
  when (has_tunables v) (put_words [bool_flags d]).

Definition bool_isvalid (b : cond_bool_datum) : bool := (state b =? 0)%Z || (state b =? 1)%Z.

(** The [len] of these three readers is a [uint32_t], and [len + 1] wraps. *)
Definition cond_read_bool (v : write_params) (h : stable cond_bool_datum) : io (stable cond_bool_datum) :=
  _ ← alloc (-1);
  buf ← get 12;
  let d := CondBoolDatum (le32_at buf 0) (s32 (le32_at buf 1)) 0 in
  if negb (bool_isvalid d) then io_fail (-1) else
  let len := le32_at buf 2 in
  key ← get_string (u32 (len + 1)) len;
  flags ← (if has_tunables v then b ← get 4; mret (le32_at b 0) else mret 0);
  add_symbol h key (CondBoolDatum (bool_value d) (state d) flags).

Definition sens_write (key : string) (d : level_datum) : io unit :=
  _ ← put_words [strlen key; level_isalias d];
  _ ← put_string key;
  mls_write_level (level d).

Definition sens_read (h : stable level_datum) : io (stable level_datum) :=
  _ ← alloc (-1);
  buf ← get 8;
  let len := le32_at buf 0 in
  key ← get_string (u32 (len + 1)) len;
  _ ← alloc (-1);
  l ← or_rc (-1) mls_read_level;
  add_symbol h key (LevelDatum l (u8 (le32_at buf 1))).

Definition cat_write (key : string) (d : cat_datum) : io unit :=
  _ ← put_words [strlen key; cat_value d; cat_isalias d]; put_string key.

Definition cat_read (h : stable cat_datum) : io (stable cat_datum) :=
  _ ← alloc (-1);
  buf ← get 12;
  let len := le32_at buf 0 in
  key ← get_string (u32 (len + 1)) len;
  add_symbol h key (CatDatum (le32_at buf 1) (u8 (le32_at buf 2))).

(** * The tables of a policy *)

Definition attr_uncount {D} (is_attr : D → bool) (_ : string) (d : D) (n : N) : M (Z * N) :=
  mret (0%Z, if is_attr d then dec32 n else n).
Definition type_attr_uncount : string → type_datum → N → M (Z * N) := attr_uncount (λ d, flavor d =? TYPE_ATTRIB).
Definition role_attr_uncount : string → role_datum → N → M (Z * N) := attr_uncount (λ d, role_flavor d =? ROLE_ATTRIB).

(** One round of the loop of [policydb_write], with the callback that uncounts
    the entries its writer skips, if this table and version have one. *)
Definition write_symtab {D} (uncount : option (string → D → N → M (Z * N))) (w : string → D → io unit)
    (s : symtab D) : io unit :=
  t ← io_lift (deref (table s));
  '(_, n) ← io_lift match uncount with
                    | Some f => hashtab_map (Some t) f (nel t)
                    | None => mret (0%Z, nel t)
                    end;
  _ ← put_words [nprim s; n];
  put_table w (Some t).

(** One round of the loop of [policydb_read]. *)
Definition read_symtab {D} (r : stable D → io (stable D)) (s : symtab D) : io (symtab D) :=
  buf ← get 8;
  t ← io_times (N.to_nat (le32_at buf 1)) r (table s);
  mret (Symtab t (le32_at buf 0)).

Definition uncount_types (v : write_params) : option (string → type_datum → N → M (Z * N)) :=
  if (policyvers v <? POLICYDB_VERSION_BOUNDARY) && is_kern v then Some type_attr_uncount else None.
Definition uncount_roles (v : write_params) : option (string → role_datum → N → M (Z * N)) :=
  if is_kern v || negb (is_kern v) && (policyvers v <? MOD_POLICYDB_VERSION_ROLEATTRIB)
  then Some role_attr_uncount else None.

(** The loop over [write_f]: [num_syms] is 5 before Booleans, 6 before MLS
    and 8 since. *)
Definition write_symtabs (v : write_params) (num_syms : N) (p : policydb) : io unit :=
  _ ← write_symtab None common_write (p_commons p);
  _ ← write_symtab None (class_write v) (p_classes p);
  _ ← write_symtab (uncount_roles v) (role_write v) (p_roles p);
  _ ← write_symtab (uncount_types v) (type_write v) (p_types p);
  _ ← write_symtab None (user_write v) (p_users p);
  _ ← when (5 <? num_syms) (write_symtab None (cond_write_bool v) (p_bools p));
  _ ← when (6 <? num_syms) (write_symtab None sens_write (p_levels p));
  when (7 <? num_syms) (write_symtab None cat_write (p_cats p)).

Definition set_symtabs (p : policydb) (commons : symtab common_datum) (classes : symtab class_datum)
    (roles : symtab role_datum) (types : symtab type_datum) (users : symtab user_datum)
    (bools : symtab cond_bool_datum) (levels : symtab level_datum) (cats : symtab cat_datum) : policydb := {|
  mls := mls p; p_commons := commons; p_classes := classes; p_roles := roles; p_types := types;
  p_users := users; p_bools := bools; p_levels := levels; p_cats := cats;
  p_class_val_to_name := p_class_val_to_name p; p_role_val_to_name := p_role_val_to_name p;
  p_type_val_to_name := p_type_val_to_name p; p_user_val_to_name := p_user_val_to_name p;
  p_sens_val_to_name := p_sens_val_to_name p; p_cat_val_to_name := p_cat_val_to_name p;
  class_val_to_struct := class_val_to_struct p; role_val_to_struct := role_val_to_struct p;
  user_val_to_struct := user_val_to_struct p; type_val_to_struct := type_val_to_struct p;
  bool_val_to_struct := bool_val_to_struct p; te_avtab := te_avtab p; te_cond_avtab := te_cond_avtab p;
  cond_list := cond_list p; role_tr := role_tr p; role_allows := role_allows p; range_tr := range_tr p;
  type_attr_map := type_attr_map p; attr_type_map := attr_type_map p |}.

Definition read_symtabs (v : write_params) (num_syms : N) (p : policydb) : io policydb :=
  commons ← read_symtab common_read (p_commons p);
  classes ← read_symtab (class_read v (table commons)) (p_classes p);
  roles ← read_symtab (role_read v) (p_roles p);
  types ← read_symtab (type_read v) (p_types p);
  users ← read_symtab (user_read v) (p_users p);
  bools ← (if 5 <? num_syms then read_symtab (cond_read_bool v) (p_bools p) else mret (p_bools p));
  levels ← (if 6 <? num_syms then read_symtab sens_read (p_levels p) else mret (p_levels p));
  cats ← (if 7 <? num_syms then read_symtab cat_read (p_cats p) else mret (p_cats p));
  mret (set_symtabs p commons classes roles types users bools levels cats).

(** * What a kind of symbol promises *)

Section codec.
Context {D : Type}.

(** Reading the entries [l] into a table with map [m0] gives [m]. *)
Record table_read (R : D → D → Prop) (adds : string → bool) (l : list (string * D)) (m0 m : gmap string D) : Prop := {
  tr_entries : ∀ k d, (k, d) ∈ l → adds k = true → ∃ d', m !! k = Some d' ∧ R d d';
  tr_others : ∀ k, k ∉ l.*1 ∨ adds k = false → m !! k = m0 !! k }.

Class SymCodec (w : string → D → io unit) (r : stable D → io (stable D)) (bytes : string → D → list N)
    (ok : string → D → Prop) (skipped : D → bool) (adds : string → bool) (R : D → D → Prop) : Prop := {
  sym_writes : ∀ k d, ok k d → Writes (w k d) (if skipped d then [] else bytes k d);
  sym_reads : ∀ k d t, ok k d → ht_wf t → (adds k = true → ht_map t !! k = None) →
    Reads (r (Some t)) (bytes k d) (λ h', ∃ t', h' = Some t' ∧ ht_wf t' ∧
      if adds k then ∃ d', ht_map t' = <[k := d']> (ht_map t) ∧ R d d' else t' = t) }.

Definition kept (skipped : D → bool) (l : list (string * D)) : list (string * D) :=
  filter (λ e, skipped e.2 = false) l.

End codec.

(** * The laws of tables *)

Lemma put_table_writes {D} (w : string → D → io unit) bytes (t : hashtab string D) :
  ht_struct t → (∀ k d, (k, d) ∈ ht_entries t → Writes (w k d) (bytes k d)) →
  Writes (put_table w (Some t)) (ht_entries t ≫= λ e, bytes e.1 e.2).
Proof.
  intros Ht Hw. apply writes_intro. intros fp o Hroom. unfold put_table. rewrite bind_run, map_spec by done.
  rewrite bind_run. revert fp Hroom Hw. generalize (ht_entries t). clear Ht t.
  assert (∀ l fp, pf_room fp (N.of_nat (length (l ≫= λ e : string * D, bytes e.1 e.2))) →
            (∀ k d, (k, d) ∈ l → Writes (w k d) (bytes k d)) →
            map_chain (λ k d fp, io_run (w k d) fp) l fp o =
            Ret (inr (pf_put fp (l ≫= λ e, bytes e.1 e.2))) o) as H.
  { induction l as [|[k d] l IH]; intros fp Hroom Hw; cbn [map_chain for_list]; [by rewrite pf_put_nil|].
    rewrite bind_cons in Hroom. apply pf_room_split in Hroom as [Hk Hl]. cbn [fst snd] in *.
    rewrite bind_run. unfold io_run at 1. rewrite !bind_run, (writes_run _ _ (Hw k d ltac:(left))) by done.
    change (map_chain (λ k d fp, io_run (w k d) fp) l (pf_put fp (bytes k d)) o = Ret (inr (pf_put fp (((k, d) :: l) ≫= λ e, bytes e.1 e.2))) o).
    rewrite IH by (done || (intros; apply Hw; by right)). by rewrite bind_cons, pf_put_app. }
  intros l fp Hroom Hw. by rewrite H.
Qed.

Lemma add_symbol_reads {D} (t : hashtab string D) k d :
  ht_wf t → ht_map t !! k = None →
  Reads (add_symbol (Some t) k d) []
    (λ h', ∃ t', h' = Some t' ∧ ht_wf t' ∧ ht_map t' = <[k := d]> (ht_map t)).
Proof.
  intros Ht Hk. apply reads_checked. intros o. eapply wp_mono; [by apply insert_spec|].
  intros r o' [Ho Hr]. split; [done|]. destruct Hr as [[_ [? ?]]|[[-> ?]|(t' & -> & _ & ? & ?)]]; [congruence|by right|].
  left. split; [done|]. by exists t'.
Qed.

(** The last step of a reader: the new entry, related to the written one. *)
Lemma added_reads {D} (R : D → D → Prop) (t : hashtab string D) k d d0 :
  ht_wf t → ht_map t !! k = None → R d0 d →
  Reads (add_symbol (Some t) k d) [] (λ h', ∃ t', h' = Some t' ∧ ht_wf t' ∧
    ∃ d', ht_map t' = <[k := d']> (ht_map t) ∧ R d0 d').
Proof.
  intros Ht Hn HR. eapply reads_mono; [by apply add_symbol_reads|].
  intros h' (t' & -> & ? & Hm). eauto 10.
Qed.

Lemma add_symbol_safe {D} (h : stable D) k d (P : D → Prop) :
  (∃ t, h = Some t ∧ ht_wf t ∧ map_Forall (λ _, P) (ht_map t)) → P d →
  Safe (add_symbol h k d) (λ h', ∃ t, h' = Some t ∧ ht_wf t ∧ map_Forall (λ _, P) (ht_map t)).
Proof.
  intros (t & -> & Ht & HP) Hd. apply safe_checked. intros o. eapply wp_mono; [by apply insert_spec|].
  intros r o' [Ho Hr]. split; [done|]. destruct Hr as [[-> _]|[[-> _]|(t' & -> & Hn & ? & Hm)]]; [done..|].
  intros _. exists t'. split_and!; [done..|]. rewrite Hm. apply map_Forall_insert_2; done.
Qed.

Lemma new_perms_reads : Reads new_perms [] (λ h, ∃ t, h = Some t ∧ ht_wf t ∧ ht_map t = ∅).
Proof.
  eapply (reads_bind_nil _ _ _ (λ s, ∃ t, table s = Some t ∧ ht_wf t ∧ ht_map t = ∅)).
  - apply reads_checked. intros o. eapply wp_mono; [by apply symtab_init_spec|].
    intros [rc s] o' [Ho Hr]; cbn [fst snd] in *. split; [naive_solver|].
    destruct Hr as [(-> & _ & ?)|[-> _]]; [by left|]. right. split; [done|]. intros ->. by destruct (Ho eq_refl).
  - intros s Hs. by apply reads_ret.
Qed.

Lemma new_perms_safe : Safe new_perms (λ h, ∃ t, h = Some t ∧ ht_wf t ∧ ht_map t = ∅).
Proof.
  eapply (safe_bind _ _ (λ s, ∃ t, table s = Some t ∧ ht_wf t ∧ ht_map t = ∅)).
  - apply safe_checked. intros o. eapply wp_mono; [by apply symtab_init_spec|].
    intros [rc s] o' [Ho Hr]; cbn [fst snd] in *. split; [naive_solver|].
    destruct Hr as [(-> & _ & ?)|[-> _]]; [done|]. done.
  - intros s Hs. by apply safe_ret.
Qed.

(** Reading a list of entries, each with a new key. *)
Lemma entries_reads {D} w r bytes ok skipped adds R `{!SymCodec (D := D) w r bytes ok skipped adds R}
    (l : list (string * D)) t :
  ht_wf t → NoDup l.*1 → (∀ k d, (k, d) ∈ l → ok k d) →
  (∀ k, k ∈ l.*1 → adds k = true → ht_map t !! k = None) →
  Reads (io_times (length l) r (Some t)) (l ≫= λ e, bytes e.1 e.2)
    (λ h', ∃ t', h' = Some t' ∧ ht_wf t' ∧ table_read R adds l (ht_map t) (ht_map t')).
Proof.
  intros Ht Hnd Hok Hnew. apply (reads_times (λ pre h', ∃ t', h' = Some t' ∧ ht_wf t' ∧
    table_read R adds pre (ht_map t) (ht_map t'))).
  - exists t. split_and!; [done..|]. split; [|done]. intros k d Hin. by apply elem_of_nil in Hin.
  - intros pre [k d] post h' -> (t' & -> & Ht' & Hent & Hoth). cbn [fst snd].
    rewrite fmap_app, fmap_cons in Hnd, Hnew. cbn in *. apply NoDup_app in Hnd as (_ & Hdis & Hnd).
    assert (k ∉ pre.*1) as Hk by (intros Hin; apply (Hdis _ Hin); left).
    eapply reads_mono; [apply sym_reads; [apply Hok; set_solver|done|]|].
    + intros Ha. rewrite Hoth by by left. apply Hnew; [set_solver|done].
    + intros h2 (t2 & -> & Ht2 & Hadd). exists t2. split_and!; [done..|].
      destruct (adds k) eqn:Ea.
      * destruct Hadd as (d' & Hm & HR). rewrite Hm. split.
        -- intros k2 d2 [Hin|Hin]%elem_of_app Ha2.
           ++ rewrite lookup_insert_ne; [by apply Hent|]. intros <-. apply Hk.
              apply list_elem_of_fmap. by exists (k, d2).
           ++ apply list_elem_of_singleton in Hin as [= -> ->]. exists d'. by rewrite lookup_insert_eq.
        -- intros k2. rewrite fmap_app. cbn. intros Hk2. rewrite lookup_insert_ne; [apply Hoth; set_solver|].
           intros <-. destruct Hk2 as [Hk2|Hk2]; [set_solver|congruence].
      * subst t2. split.
        -- intros k2 d2 [Hin|Hin]%elem_of_app Ha2; [by apply Hent|].
           apply list_elem_of_singleton in Hin as [= -> ->]. congruence.
        -- intros k2. rewrite fmap_app. intros Hk2. apply Hoth. set_solver.
Qed.

(** A table read back into an empty one holds the entries of the original. *)
Lemma table_read_lookup {D} (R : D → D → Prop) (t : hashtab string D) m k :
  ht_struct t → table_read R (λ _, true) (ht_entries t) ∅ m →
  option_Forall2 R (ht_map t !! k) (m !! k).
Proof.
  intros Ht [Hent Hoth]. destruct (ht_map t !! k) as [d|] eqn:Hk.
  - apply elem_of_list_to_map in Hk; [|apply (wf_nodup _ Ht)].
    destruct (Hent k d Hk eq_refl) as (d' & -> & ?). by constructor.
  - apply not_elem_of_list_to_map in Hk. rewrite Hoth by by left. rewrite lookup_empty. constructor.
Qed.

Definition all_kept {D} (_ : D) : bool := false.
Definition all_added (_ : string) : bool := true.

(** ** Permissions *)

Definition perm_bytes (k : string) (d : perm_datum) : list N := words [strlen k; perm_value d] ++ string_bytes k.
Definition perm_ok (k : string) (d : perm_datum) : Prop := name_ok k ∧ u32s [perm_value d].

(** The words of a buffer are small because the fields are. *)
Ltac u32s_solve :=
  repeat match goal with
  | H : name_ok ?k |- _ => lazymatch goal with _ : strlen k < 2 ^ 32 |- _ => fail | _ => idtac end;
      assert (strlen k < 2 ^ 32) by (destruct H; lia)
  | H : u32s (_ :: _) |- _ => apply Forall_cons in H as [? ?]
  | H : Forall (λ w, w < 2 ^ 32) (_ :: _) |- _ => apply Forall_cons in H as [? ?]
  end; repeat constructor; first [assumption | apply u32_lt | done].

Ltac reads_name := eapply reads_bind_eq; [apply reads_string; [assumption|done|auto]|].

#[global] Instance perm_codec : SymCodec perm_write perm_read perm_bytes perm_ok all_kept all_added eq.
Proof.
  split.
  - intros k d _. cbn. unfold perm_write, perm_bytes. writes.
  - intros k [v] t [Hk Hv] Ht Hn. unfold perm_bytes, perm_read. cbn in *.
    assert (u32s [strlen k; v]) by u32s_solve. do 2 reads_step. word_at.
    rewrite <- (app_nil_r (string_bytes k)). reads_name.
    apply (added_reads eq); auto.
Qed.

Definition perms_ok (s : symtab perm_datum) : Prop :=
  ∃ t, table s = Some t ∧ ht_wf t ∧ N.of_nat (length (ht_entries t)) < 2 ^ 32 ∧
    ∀ k d, (k, d) ∈ ht_entries t → perm_ok k d.
Definition perms_bytes (s : symtab perm_datum) : list N :=
  match table s with Some t => ht_entries t ≫= λ e, perm_bytes e.1 e.2 | None => [] end.
Definition perms_sim (s s' : symtab perm_datum) : Prop :=
  nprim s' = nprim s ∧
  ∃ t t', table s = Some t ∧ table s' = Some t' ∧ ht_wf t' ∧ ht_map t' = ht_map t.

Lemma nel_entries {D} (t : hashtab string D) :
  ht_wf t → N.of_nat (length (ht_entries t)) < 2 ^ 32 → nel t = N.of_nat (length (ht_entries t)).
Proof. intros [_ ->] H. by apply u32_small. Qed.

Lemma perms_reads t t0 :
  ht_wf t → N.of_nat (length (ht_entries t)) < 2 ^ 32 → (∀ k d, (k, d) ∈ ht_entries t → perm_ok k d) →
  ht_wf t0 → ht_map t0 = ∅ →
  Reads (io_times (N.to_nat (nel t)) perm_read (Some t0)) (ht_entries t ≫= λ e, perm_bytes e.1 e.2)
    (λ h, ∃ t', h = Some t' ∧ ht_wf t' ∧ ht_map t' = ht_map t).
Proof.
  intros Ht Hlen Hok Ht0 He. rewrite nel_entries, Nat2N.id by done.
  eapply reads_mono.
  { eapply (entries_reads perm_write perm_read perm_bytes perm_ok all_kept all_added eq); [done|apply (wf_nodup _ (proj1 Ht))|done|]. intros k _ _. by rewrite He, lookup_empty. }
  intros h (t' & -> & ? & Htr). exists t'. split_and!; [done..|]. rewrite He in Htr.
  apply map_eq. intros k. destruct (table_read_lookup _ t _ k (proj1 Ht) Htr); congruence.
Qed.

(** ** Commons *)

Definition common_bytes (k : string) (d : common_datum) : list N :=
  words [strlen k; common_value d; nprim (common_permissions d);
         match table (common_permissions d) with Some t => nel t | None => 0 end] ++
  string_bytes k ++ perms_bytes (common_permissions d).
Definition common_ok (k : string) (d : common_datum) : Prop :=
  name_ok k ∧ u32s [common_value d] ∧ u32s [nprim (common_permissions d)] ∧ perms_ok (common_permissions d).
Definition common_sim (d d' : common_datum) : Prop :=
  common_value d' = common_value d ∧ perms_sim (common_permissions d) (common_permissions d').

Lemma perms_writes t :
  ht_wf t → (∀ k d, (k, d) ∈ ht_entries t → perm_ok k d) →
  Writes (put_table perm_write (Some t)) (ht_entries t ≫= λ e, perm_bytes e.1 e.2).
Proof. intros [Ht _] Hok. apply put_table_writes; [done|]. intros k d Hin. exact (sym_writes (w := perm_write) k d (Hok _ _ Hin)). Qed.

#[global] Instance common_codec :
  SymCodec common_write common_read common_bytes common_ok all_kept all_added common_sim.
Proof.
  split.
  - intros k [v [tab np]] (Hk & Hv & Hn & (t & Htab & Ht & Hlen & Hok)). cbn in *. subst tab.
    unfold common_write, common_bytes, perms_bytes. cbn.
    eapply writes_lift; [done|]. pose proof (perms_writes t Ht Hok). writes.
  - intros k [v [tab np]] t0 (Hk & Hv & Hn & (t & Htab & Ht & Hlen & Hok)) Ht0 Hnew. cbn in *. subst tab.
    unfold common_read, common_bytes, perms_bytes. cbn.
    assert (u32s [strlen k; v; np; nel t]).
    { rewrite nel_entries by done. u32s_solve. }
    do 2 reads_step. word_at. eapply reads_bind_nil; [apply new_perms_reads|]. intros ? (tp & -> & Htp & Hep).
    reads_name. rewrite <- (app_nil_r (_ ≫= _)). eapply reads_bind; [by apply perms_reads|].
    intros ? (t' & -> & Ht' & Hm'). apply (added_reads common_sim); [by auto..|]. split; [done|]. split; [done|]. eauto 10.
Qed.

(** ** Constraints *)

(** The stack discipline the reader checks: the depth after one expression. *)
Definition depth_step (depth : Z) (e : constraint_expr) : option Z :=
  if expr_type e =? CEXPR_NOT then if (depth <? 0)%Z then None else Some depth
  else if (expr_type e =? CEXPR_AND) || (expr_type e =? CEXPR_OR) then
    if (depth <? 1)%Z then None else Some (depth - 1)%Z
  else if (expr_type e =? CEXPR_ATTR) || (expr_type e =? CEXPR_NAMES) then
    if (depth =? Z.of_nat CEXPR_MAXDEPTH - 1)%Z then None else Some (depth + 1)%Z
  else None.
Fixpoint depth_run (depth : Z) (l : list constraint_expr) : option Z :=
  match l with [] => Some depth | e :: l' => depth_step depth e ≫= λ depth, depth_run depth l' end.

Lemma depth_run_snoc depth l e : depth_run depth (l ++ [e]) = depth_run depth l ≫= λ d, depth_step d e.
Proof.
  revert depth. induction l as [|a l IH]; intros depth; cbn.
  - by destruct (depth_step depth e).
  - by destruct (depth_step depth a); cbn.
Qed.

(** Accepted expressions are reverse polish forms that the evaluator's stack
    can hold: the stack of [constraint_expr_eval_reason] as expressions. *)
Inductive cstack : list cexp → list constraint_expr → Prop :=
  | cstack_nil : cstack [] []
  | cstack_push es l c lc : cstack es l → crpn c lc → (length es + cdepth c ≤ CEXPR_MAXDEPTH)%nat →
      cstack (c :: es) (l ++ lc).

Lemma cstack_length es l : cstack es l → (length es ≤ CEXPR_MAXDEPTH)%nat.
Proof.
  assert (∀ c, (1 ≤ cdepth c)%nat) as Hpos by (induction c; cbn; lia).
  destruct 1 as [|es l c lc _ _ Hd]; cbn; [lia|]. pose proof (Hpos c). lia.
Qed.

Lemma cstack_step es l e depth :
  cstack es l → depth_step (Z.of_nat (length es) - 1) e = Some depth →
  ∃ es', cstack es' (l ++ [e]) ∧ depth = (Z.of_nat (length es') - 1)%Z.
Proof.
  intros Hs. unfold depth_step.
  destruct (N.eqb_spec (expr_type e) CEXPR_NOT) as [Hnot|_].
  { case_bool; [done|]. intros [= <-]. inversion Hs as [|es' l' c lc Hs' Hc Hd]; subst; [done|].
    exists (CNot c :: es'). split; [|done]. rewrite <- app_assoc. constructor; [done| |done]. by constructor. }
  destruct ((expr_type e =? CEXPR_AND) || (expr_type e =? CEXPR_OR)) eqn:Hbin.
  { case_bool; [done|]. intros [= <-]. inversion Hs as [|es1 l1 c2 lc2 Hs1 Hc2 Hd2]; subst; [done|].
    inversion Hs1 as [|es0 l0 c1 lc1 Hs0 Hc1 Hd1]; subst; [done|].
    assert (∃ isand, expr_type e = bin_code isand) as [isand He].
    { apply orb_true_iff in Hbin as [H|H]; apply N.eqb_eq in H; [by exists true|by exists false]. }
    exists (CBin isand c1 c2 :: es0). rewrite <- !app_assoc. split.
    - constructor; [done|by constructor|]. cbn in *. lia.
    - cbn. lia. }
  destruct ((expr_type e =? CEXPR_ATTR) || (expr_type e =? CEXPR_NAMES)) eqn:Hleaf; [|done].
  case_bool; [done|]. intros [= <-]. exists (CLeaf e :: es). split; [|cbn; lia].
  constructor; [done| |].
  - constructor. apply orb_true_iff in Hleaf as [H|H]; apply N.eqb_eq in H; auto.
  - cbn. apply Z.eqb_neq in Heqb. pose proof (cstack_length _ _ Hs). lia.
Qed.

Lemma depth_run_rpn l : depth_run (-1) l = Some 0%Z → ∃ c, crpn c l ∧ (cdepth c ≤ CEXPR_MAXDEPTH)%nat.
Proof.
  assert (∀ l depth, depth_run (-1) l = Some depth →
            ∃ es, cstack es l ∧ depth = (Z.of_nat (length es) - 1)%Z) as H.
  { clear l. induction l as [|e l IH] using rev_ind; intros depth Hd.
    - injection Hd as <-. exists []. split; [constructor|done].
    - rewrite depth_run_snoc in Hd. destruct (depth_run (-1) l) as [d|]; [|done].
      destruct (IH d eq_refl) as (es & Hs & ->). by apply (cstack_step es). }
  intros Hd. destruct (H l _ Hd) as (es & Hs & Hlen).
  inversion Hs as [|es' l' c lc Hs' Hc Hdc]; subst; cbn in *; [done|].
  destruct es'; cbn in *; [|lia]. inversion Hs'; subst. exists c. split; [done|lia].
Qed.

Lemma depth_run_app depth l1 l2 : depth_run depth (l1 ++ l2) = depth_run depth l1 ≫= λ d, depth_run d l2.
Proof.
  revert depth. induction l1 as [|a l1 IH]; intros depth; cbn; [done|].
  by destruct (depth_step depth a); cbn.
Qed.

Definition expr_bytes (v : write_params) (e : constraint_expr) : list N :=
  words [expr_type e; attr e; op e] ++
  (if expr_type e =? CEXPR_NAMES then
     ebitmap_bytes (names e) ++ (if has_type_names v then type_set_bytes (type_names e) else [])
   else []).
Definition expr_ok (allowxtarget : bool) (e : constraint_expr) : Prop :=
  u32s [expr_type e; attr e; op e] ∧
  (expr_type e = CEXPR_NAMES →
     negb allowxtarget && truth (N.land (attr e) CEXPR_XTARGET) = false ∧
     ebitmap_wf (names e) ∧ type_set_ok (type_names e)).
(** Only tests of names keep their sets. *)
Definition expr_norm (v : write_params) (e : constraint_expr) : constraint_expr :=
  if expr_type e =? CEXPR_NAMES then
    ConstraintExpr (expr_type e) (attr e) (op e) (names e) (if has_type_names v then type_names e else type_set_init)
  else ConstraintExpr (expr_type e) (attr e) (op e) ebitmap_init type_set_init.

Lemma cons_expr_writes v ax e : expr_ok ax e → Writes (cons_expr_write v ax e) (expr_bytes v e).
Proof.
  intros [_ Hn]. unfold cons_expr_write, expr_bytes. apply writes_bind; [apply writes_words|].
  destruct (N.eqb_spec (expr_type e) CEXPR_NAMES) as [He|_]; [|apply writes_ret].
  destruct (Hn He) as (-> & _ & Hts). pose proof (codec_writes _ Hts). writes.
Qed.

Lemma cons_expr_reads v ax l depth e depth' :
  expr_ok ax e → depth_step depth e = Some depth' →
  Reads (cons_expr_read v ax (l, depth)) (expr_bytes v e) (λ x, x = (l ++ [expr_norm v e], depth')).
Proof.
  destruct e as [ty a o nm tn]. intros [Hw Hn]. unfold depth_step, cons_expr_read, expr_bytes, expr_norm. cbn in *.
  intros Hd. do 3 reads_step. word_at.
  destruct (N.eqb_spec ty CEXPR_NOT) as [->|].
  { change (CEXPR_NOT =? CEXPR_NAMES) with false. cbv iota. case_bool; [done|]. injection Hd as <-. by reads_step. }
  destruct ((ty =? CEXPR_AND) || (ty =? CEXPR_OR)) eqn:Ebin.
  { assert ((ty =? CEXPR_NAMES) = false) as -> by (apply orb_true_iff in Ebin as [->%N.eqb_eq| ->%N.eqb_eq]; done).
    case_bool; [done|]. injection Hd as <-. by reads_step. }
  destruct (N.eqb_spec ty CEXPR_ATTR) as [->|]; cbn [orb] in *.
  { change (CEXPR_ATTR =? CEXPR_NAMES) with false. cbv iota. case_bool; [done|]. injection Hd as <-. by reads_step. }
  destruct (N.eqb_spec ty CEXPR_NAMES) as [->|]; cbn in *; [|done].
  destruct (Hn eq_refl) as (-> & Hnm & Htn). case_bool; [done|]. injection Hd as <-. reads_step.
  rewrite <- (app_nil_r (if has_type_names v then _ else _)).
  eapply (reads_bind _ _ _ _ (λ x, x = if has_type_names v then tn else type_set_init)); [|intros x ->; by reads_step].
  destruct (has_type_names v); [|by reads_step]. apply reads_or_rc; [done|]. exact (codec_reads _ Htn).
Qed.

Definition cons_bytes (v : write_params) (c : constraint_node) : list N :=
  words [permissions c; u32 (N.of_nat (length (expr c)))] ++ (expr c ≫= expr_bytes v).
Definition cons_ok (allowxtarget : bool) (c : constraint_node) : Prop :=
  u32s [permissions c] ∧ N.of_nat (length (expr c)) < 2 ^ 32 ∧ Forall (expr_ok allowxtarget) (expr c) ∧
  depth_run (-1) (expr c) = Some 0%Z.
Definition cons_norm (v : write_params) (c : constraint_node) : constraint_node :=
  ConstraintNode (permissions c) (expr_norm v <$> expr c).

Lemma cons_writes v ax l : Forall (cons_ok ax) l → Writes (write_cons_helper v ax l) (l ≫= cons_bytes v).
Proof.
  intros Hl. unfold write_cons_helper. apply writes_list. intros c Hc.
  destruct (proj1 (Forall_forall _ _) Hl _ Hc) as (_ & _ & He & _). unfold cons_bytes.
  apply writes_bind; [apply writes_words|]. apply writes_list. intros e Hin.
  by apply cons_expr_writes, (proj1 (Forall_forall _ _) He).
Qed.

Lemma cons_node_reads v ax c :
  cons_ok ax c → Reads (cons_node_read v ax) (cons_bytes v c) (λ x, x = cons_norm v c).
Proof.
  destruct c as [pm l]. intros (Hp & Hlen & Hl & Hd). unfold cons_bytes, cons_node_read, cons_norm. cbn in *.
  rewrite u32_small by done. assert (u32s [pm; N.of_nat (length l)]) by u32s_solve.
  do 2 reads_step. word_at. rewrite Nat2N.id. rewrite <- (app_nil_r (_ ≫= _)).
  eapply (reads_bind _ _ _ _ (λ x, x = (expr_norm v <$> l, 0%Z))); [|intros x ->; by apply reads_ret].
  eapply reads_mono.
  { apply (reads_times (λ pre s, ∃ d, s = (expr_norm v <$> pre, d) ∧ depth_run (-1) pre = Some d)); [by eexists|].
    intros pre e post s -> (d & -> & Hpre). rewrite depth_run_app, Hpre in Hd. cbn in Hd.
    destruct (depth_step d e) as [d'|] eqn:Hs; [|done]. apply Forall_app in Hl as [_ Hl].
    apply Forall_cons in Hl as [He _]. eapply reads_mono; [by eapply cons_expr_reads|].
    intros s ->. exists d'. rewrite fmap_app. split; [done|]. by rewrite depth_run_snoc, Hpre. }
  intros s (d & -> & Hd'). congruence.
Qed.

Lemma cons_reads v ax n l :
  n = N.of_nat (length l) → Forall (cons_ok ax) l →
  Reads (read_cons_helper v n ax) (l ≫= cons_bytes v) (λ x, x = cons_norm v <$> l).
Proof.
  intros Hn Hl. apply reads_list; [done|]. intros c Hc. by apply cons_node_reads, (proj1 (Forall_forall _ _) Hl).
Qed.

(** ** Classes *)

Lemma char_word_small c : c < 256 → char_word c < 2 ^ 32.
Proof. unfold char_word. change (2 ^ 32) with 4294967296. case_bool; lia. Qed.
Lemma u8_char_word c : c < 256 → u8 (char_word c) = c.
Proof.
  intros Hc. unfold char_word, u8. change (2 ^ 32) with 4294967296. change (2 ^ 8) with 256.
  case_bool; [by apply N.mod_small|].
  replace (c + (4294967296 - 256)) with (c + 16777215 * 256) by lia. rewrite N.Div0.mod_add. by apply N.mod_small.
Qed.

Definition class_words (k : string) (d : class_datum) : list N :=
  [strlen k; match comkey d with Some k => strlen k | None => 0 end; class_value d;
   nprim (class_permissions d); match table (class_permissions d) with Some t => nel t | None => 0 end;
   u32 (N.of_nat (length (constraints d)))].
Definition class_bytes (v : write_params) (k : string) (d : class_datum) : list N :=
  words (class_words k d) ++ string_bytes k ++
  match comkey d with Some c => string_bytes c | None => [] end ++
  perms_bytes (class_permissions d) ++ (constraints d ≫= cons_bytes v) ++
  (if has_validatetrans v
   then words [u32 (N.of_nat (length (validatetrans d)))] ++ (validatetrans d ≫= cons_bytes v) else []) ++
  (if has_defaults v
   then words [char_word (default_user d); char_word (default_role d); char_word (default_range d)] else []) ++
  (if has_default_type v then words [char_word (default_type d)] else []).

(** [tc] is the table of commons the class is read with. *)
Record class_ok (tc : hashtab string common_datum) (k : string) (d : class_datum) : Prop := {
  co_name : name_ok k;
  co_comkey : ∀ c, comkey d = Some c → name_ok c ∧ is_Some (ht_map tc !! c);
  co_words : u32s [class_value d; nprim (class_permissions d)];
  co_perms : perms_ok (class_permissions d);
  co_cons : N.of_nat (length (constraints d)) < 2 ^ 32 ∧ Forall (cons_ok false) (constraints d);
  co_vtrans : N.of_nat (length (validatetrans d)) < 2 ^ 32 ∧ Forall (cons_ok true) (validatetrans d);
  co_defaults : Forall (λ c, c < 256) [default_user d; default_role d; default_type d; default_range d] }.

Record class_sim (v : write_params) (tc : hashtab string common_datum) (d d' : class_datum) : Prop := {
  cs_value : class_value d' = class_value d;
  cs_comkey : comkey d' = comkey d;
  cs_comdatum : comdatum d' = comkey d ≫= λ c, ht_map tc !! c;
  cs_perms : perms_sim (class_permissions d) (class_permissions d');
  cs_cons : constraints d' = cons_norm v <$> constraints d;
  cs_vtrans : validatetrans d' = if has_validatetrans v then cons_norm v <$> validatetrans d else [];
  cs_user : default_user d' = if has_defaults v then default_user d else 0;
  cs_role : default_role d' = if has_defaults v then default_role d else 0;
  cs_range : default_range d' = if has_defaults v then default_range d else 0;
  cs_type : default_type d' = if has_default_type v then default_type d else 0 }.

Lemma class_writes v tc k d : class_ok tc k d → Writes (class_write v k d) (class_bytes v k d).
Proof.
  intros [Hk Hck Hw (t & Htab & Ht & Hlen & Hok) [Hcl Hc] [Hvl Hv] Hdef]. unfold class_write, class_bytes, perms_bytes.
  rewrite Htab. pose proof (perms_writes t Ht Hok). pose proof (cons_writes v _ _ Hc). pose proof (cons_writes v _ _ Hv).
  apply writes_bind; [unfold class_words; rewrite Htab; apply writes_words|]. apply writes_bind; [apply writes_string|].
  apply writes_bind; [destruct (comkey d); writes|]. writes.
Qed.

(** Parts of the file that only some versions have. *)
Lemma reads_opt {A B} (b : bool) (m : io A) (a0 : A) bs Q (k : A → io B) rest (a : A) :
  (b = true → Reads m bs (λ x, x = a)) → (b = false → a = a0) → Reads (k a) rest Q →
  Reads (x ← (if b then m else mret a0); k x) ((if b then bs else []) ++ rest) Q.
Proof.
  intros Hm Ha Hk. eapply (reads_bind _ _ _ _ (λ x, x = a)); [|by intros x ->].
  destruct b; [by apply Hm|]. apply reads_ret. by rewrite Ha.
Qed.

Lemma class_comkey_reads {B} (tc : hashtab string common_datum) (ck : option string) (k : option string * option common_datum → io B) bs Q :
  ht_struct tc → (∀ c, ck = Some c → name_ok c ∧ is_Some (ht_map tc !! c)) →
  Reads (k (ck, ck ≫= λ c, ht_map tc !! c)) bs Q →
  let len2 := match ck with Some c => strlen c | None => 0 end in
  Reads (x ← (if truth len2 then
                c ← get_string (len2 + 1) len2;
                cd ← io_lift (hashtab_search (Some tc) c);
                match cd with None => io_fail (-1) | Some cd => mret (Some c, Some cd) end
              else mret (None, None)); k x)
    (match ck with Some c => string_bytes c | None => [] end ++ bs) Q.
Proof.
  intros Htc Hck Hk. destruct ck as [c|]; cbv zeta iota.
  - destruct (Hck c eq_refl) as [Hn [cd Hcd]].
    assert (truth (strlen c) = true) as ->.
    { destruct Hn as [Hne _ _]. destruct c; [done|]. unfold truth, strlen. cbn. done. }
    eapply (reads_bind _ _ _ _ (λ x, x = (Some c, Some cd))); [|intros x ->; cbn [mbind option_bind] in Hk; by rewrite Hcd in Hk].
    rewrite <- (app_nil_r (string_bytes c)). reads_name.
    eapply (reads_bind_nil _ _ _ (λ x, x = Some cd)); [|intros x ->; by apply reads_ret].
    apply reads_lift. intros o. unfold wp. by rewrite search_spec, Hcd.
  - eapply (reads_bind_nil _ _ _ (λ x, x = (None, None))); [by apply reads_ret|]. by intros x ->.
Qed.

#[global] Instance class_codec v tc (Htc : ht_struct tc) :
  SymCodec (class_write v) (class_read v (Some tc)) (class_bytes v) (class_ok tc) all_kept all_added (class_sim v tc).
Proof.
  split; [intros k d Hok; by eapply class_writes|].
  intros k d t0 [Hk Hck Hw (t & Htab & Ht & Hlen & Hok) [Hcl Hc] [Hvl Hv] Hdef] Ht0 Hnew.
  unfold class_read, class_bytes, perms_bytes. rewrite Htab.
  assert (Hd2 := Hdef). repeat (apply Forall_cons in Hd2 as [? Hd2]).
  assert (u32s (class_words k d)).
  { unfold class_words. rewrite Htab, nel_entries by done.
    assert (match comkey d with Some c => strlen c | None => 0 end < 2 ^ 32).
    { destruct (comkey d) as [c|]; [|done]. destruct (Hck c eq_refl) as [[] _]. lia. }
    u32s_solve. }
  do 2 reads_step. unfold class_words in *. rewrite Htab in *. word_at.
  eapply reads_bind_nil; [apply new_perms_reads|]. intros ? (tp & -> & Htp & Hep). reads_name.
  apply (class_comkey_reads tc); [done..|]. cbv beta iota.
  eapply reads_bind; [by apply perms_reads|]. intros ? (t' & -> & Ht' & Hm').
  rewrite (u32_small (N.of_nat (length (constraints d)))), (u32_small (N.of_nat (length (validatetrans d)))) by done.
  eapply reads_bind_eq; [by apply cons_reads|].
  eapply reads_opt with (a := if has_validatetrans v then cons_norm v <$> validatetrans d else []); [intros ->|by intros ->|].
  { assert (u32s [N.of_nat (length (validatetrans d))]) by u32s_solve. reads_step. word_at. by apply cons_reads. }
  eapply reads_opt with (a := if has_defaults v then (default_user d, default_role d, default_range d) else (0, 0, 0));
    [intros ->|by intros ->|].
  { assert (u32s [char_word (default_user d); char_word (default_role d); char_word (default_range d)])
      by (repeat constructor; by apply char_word_small).
    reads_step. word_at. rewrite !u8_char_word by done. by reads_step. }
  rewrite <- (app_nil_r (if has_default_type v then _ else _)).
  destruct (if has_defaults v then _ else _) as [[du dr] drange] eqn:Edef.
  eapply reads_opt with (a := if has_default_type v then default_type d else 0); [intros ->|by intros ->|].
  { assert (u32s [char_word (default_type d)]) by (repeat constructor; by apply char_word_small).
    reads_step. word_at. rewrite u8_char_word by done. by reads_step. }
  apply (added_reads (class_sim v tc)); [by auto..|]. split; cbn; try done; [|destruct (has_defaults v); congruence..].
  split; [done|]. eauto 10.
Qed.

(** ** Roles *)

Definition not_object_r (k : string) : bool := negb (String.eqb k OBJECT_R).

Definition role_bytes (v : write_params) (k : string) (d : role_datum) : list N :=
  words ([strlen k; role_value d] ++ (if policydb_has_boundary_feature v then [role_bounds d] else [])) ++
  string_bytes k ++ ebitmap_bytes (dominates d) ++
  (if is_kern v then ebitmap_bytes (ts_types (role_types d)) else type_set_bytes (role_types d)) ++
  (if has_roleattrib v then words [role_flavor d] ++ ebitmap_bytes (role_roles d) else []).
Record role_ok (k : string) (d : role_datum) : Prop := {
  ro_name : name_ok k;
  ro_words : u32s [role_value d; role_bounds d];
  ro_flavor : u32s [role_flavor d];
  ro_dominates : ebitmap_wf (dominates d);
  ro_types : type_set_ok (role_types d);
  ro_roles : ebitmap_wf (role_roles d);
  ro_object : k = OBJECT_R → role_value d = OBJECT_R_VAL }.
Definition role_norm (v : write_params) (d : role_datum) : role_datum :=
  RoleDatum (role_value d) (dominates d)
    (if is_kern v then TypeSet (ts_types (role_types d)) ebitmap_init 0 else role_types d) ebitmap_init
    (if policydb_has_boundary_feature v then role_bounds d else 0)
    (if has_roleattrib v then role_flavor d else 0) (if has_roleattrib v then role_roles d else ebitmap_init).

Lemma strcmp_object_r k : (strcmp k OBJECT_R =? 0)%Z = negb (not_object_r k).
Proof.
  unfold not_object_r. rewrite negb_involutive. apply eq_true_iff_eq. rewrite Z.eqb_eq, String.eqb_eq.
  apply (cmp_eq (cmp := symcmp)).
Qed.

(** The first words of a role or a user. *)
Lemma reads_header {B} (boundary : bool) (a b c : N) (k : list N → io B) rest Q :
  u32s [a; b; c] →
  (∀ buf, le32_at buf 0 = a → le32_at buf 1 = b → (if boundary then le32_at buf 2 else 0) = (if boundary then c else 0) →
     Reads (k buf) rest Q) →
  Reads (buf ← get (4 * if boundary then 3 else 2); k buf)
    (words ([a; b] ++ (if boundary then [c] else [])) ++ rest) Q.
Proof.
  intros Hw Hk. assert (u32s [a; b]) by u32s_solve.
  destruct boundary; cbn [app]; (eapply reads_bind; [by apply reads_words|]); intros buf ->; apply Hk; word_at; done.
Qed.

#[global] Instance role_codec v :
  SymCodec (role_write v) (role_read v) (role_bytes v) role_ok (role_skipped v) not_object_r (λ d d', d' = role_norm v d).
Proof.
  split.
  - intros k d [Hk Hw Hf Hd Ht Hr Ho]. unfold role_write. destruct (role_skipped v d); [apply writes_ret|].
    unfold role_bytes. pose proof (codec_writes _ Ht). writes.
  - intros k d t0 [Hk Hw Hf Hd Ht Hr Ho] Ht0 Hnew. unfold role_read, role_bytes. reads_step. cbv zeta.
    apply reads_header; [u32s_solve|]. intros buf -> -> ->. reads_name. reads_step.
    eapply (reads_bind _ _ _ _ (λ x, x = role_types (role_norm v d))).
    { unfold role_norm. destruct (is_kern v); cbn; [|apply reads_or_rc; [done|exact (codec_reads _ Ht)]].
      destruct Ht as [Ht _]. reads_step. by reads_step. }
    intros types ->. rewrite <- (app_nil_r (if has_roleattrib v then _ else _)).
    apply reads_opt with (a := (role_flavor (role_norm v d), role_roles (role_norm v d)));
      [intros Ea|intros Ea; cbn; by rewrite Ea|].
    { unfold role_norm. cbn. rewrite Ea. do 2 reads_step. word_at. by reads_step. }
    rewrite strcmp_object_r. unfold not_object_r in *. destruct (String.eqb_spec k OBJECT_R) as [He|He]; cbn [negb] in *.
    + rewrite (Ho He). by apply reads_ret; exists t0.
    + apply (added_reads (λ d d', d' = role_norm v d)); auto.
Qed.

(** ** Types *)

Definition type_bytes (v : write_params) (k : string) (d : type_datum) : list N :=
  words ([strlen k; type_value d] ++ type_words v d) ++
  (if negb (is_kern v) then ebitmap_bytes (td_types d) else []) ++ string_bytes k.
Definition type_ok (k : string) (d : type_datum) : Prop :=
  name_ok k ∧ u32s [type_value d; primary d; flavor d; td_flags d; type_bounds d] ∧ ebitmap_wf (td_types d).
Definition type_norm (v : write_params) (d : type_datum) : type_datum :=
  if policydb_has_boundary_feature v then
    TypeDatum (type_value d)
      (if has_alias v then primary d else if truth (primary d) then 1 else 0)
      (if flavor d =? TYPE_ATTRIB then TYPE_ATTRIB
       else if (flavor d =? TYPE_ALIAS) && negb (is_kern v) then TYPE_ALIAS else 0)
      (if negb (is_kern v) then td_types d else ebitmap_init)
      (if truth (N.land (td_flags d) TYPE_FLAGS_PERMISSIVE) && negb (is_kern v) then TYPE_FLAGS_PERMISSIVE else 0)
      (type_bounds d)
  else
    TypeDatum (type_value d) (primary d) (if negb (is_kern v) then flavor d else 0)
      (if negb (is_kern v) then td_types d else ebitmap_init)
      (if negb (is_kern v) && (MOD_POLICYDB_VERSION_PERMISSIVE <=? policyvers v) then td_flags d else 0) 0.

Lemma type_properties_small v d : type_properties v d < 2 ^ 32.
Proof. unfold type_properties. repeat case_match; done. Qed.

Lemma length_type_words v d : N.of_nat (length (type_words v d)) + 2 = type_to_read v.
Proof. unfold type_words, type_to_read. repeat (case_match; cbn); try done. Qed.

Lemma type_properties_bits v d :
  let has p := truth (N.land (type_properties v d) p) in
  has TYPEDATUM_PROPERTY_PRIMARY = truth (primary d) ∧
  has TYPEDATUM_PROPERTY_ATTRIBUTE = (flavor d =? TYPE_ATTRIB) ∧
  has TYPEDATUM_PROPERTY_ALIAS = negb (flavor d =? TYPE_ATTRIB) && ((flavor d =? TYPE_ALIAS) && negb (is_kern v)) ∧
  has TYPEDATUM_PROPERTY_PERMISSIVE = truth (N.land (td_flags d) TYPE_FLAGS_PERMISSIVE) && negb (is_kern v).
Proof.
  intros has. subst has. cbv beta. unfold type_properties.
  destruct (truth (primary d)), (flavor d =? TYPE_ATTRIB), ((flavor d =? TYPE_ALIAS) && negb (is_kern v)),
    (truth (N.land (td_flags d) TYPE_FLAGS_PERMISSIVE) && negb (is_kern v)); done.
Qed.

Lemma type_fields_norm v k d :
  type_ok k d → type_fields v (words ([strlen k; type_value d] ++ type_words v d)) =
    (primary (type_norm v d), flavor (type_norm v d), td_flags (type_norm v d), type_bounds (type_norm v d)).
Proof.
  intros (Hk & Hw & _). pose proof (type_properties_small v d). unfold type_fields, type_norm, type_words.
  destruct (type_properties_bits v d) as (Hp & Ha & Hl & Hf).
  destruct (policydb_has_boundary_feature v).
  - destruct (has_alias v); cbn [app primary flavor td_flags type_bounds];
      [assert (u32s [strlen k; type_value d; primary d; type_properties v d; type_bounds d]) by u32s_solve
      |assert (u32s [strlen k; type_value d; type_properties v d; type_bounds d]) by u32s_solve];
      word_at; rewrite ?Hp, Ha, Hl, Hf;
      destruct (flavor d =? TYPE_ATTRIB), (flavor d =? TYPE_ALIAS), (is_kern v),
        (truth (N.land (td_flags d) TYPE_FLAGS_PERMISSIVE)); done.
  - destruct (is_kern v); cbn [negb andb app].
    + assert (u32s [strlen k; type_value d; primary d]) by u32s_solve. by word_at.
    + destruct (MOD_POLICYDB_VERSION_PERMISSIVE <=? policyvers v); cbn [app].
      * assert (u32s [strlen k; type_value d; primary d; flavor d; td_flags d]) by u32s_solve. by word_at.
      * assert (u32s [strlen k; type_value d; primary d; flavor d]) by u32s_solve. by word_at.
Qed.

Lemma u32s_type_words v k d : type_ok k d → u32s ([strlen k; type_value d] ++ type_words v d).
Proof.
  intros (Hk & Hw & _). pose proof (type_properties_small v d). unfold type_words. apply Forall_app_2; [u32s_solve|].
  repeat case_match; cbn; u32s_solve.
Qed.

#[global] Instance type_codec v :
  SymCodec (type_write v) (type_read v) (type_bytes v) type_ok (type_skipped v) all_added (λ d d', d' = type_norm v d).
Proof.
  split.
  - intros k d _. unfold type_write. destruct (type_skipped v d); [apply writes_ret|]. unfold type_bytes. writes.
  - intros k d t0 Hok Ht0 Hnew. pose proof (u32s_type_words v k d Hok) as Hw. pose proof (type_fields_norm v k d Hok) as Hf.
    pose proof (length_type_words v d) as Hl. destruct Hok as (Hk & _ & Hty). unfold type_read, type_bytes. reads_step.
    eapply reads_bind; [apply reads_words; [lia|cbn; rewrite <- Hl; lia]|]. intros buf ->. cbv zeta.
    rewrite Hf. clear Hf Hl. rewrite !(le32_at_words _ 0 (strlen k)), (le32_at_words _ 1 (type_value d)) by done.
    apply reads_opt with (a := td_types (type_norm v d)).
    { intros Ek. unfold type_norm. rewrite Ek. destruct (policydb_has_boundary_feature v); (apply reads_or_rc; [done|]); by apply reads_ebitmap. }
    { intros Ek. unfold type_norm. rewrite Ek. by destruct (policydb_has_boundary_feature v). }
    rewrite <- (app_nil_r (string_bytes k)). reads_name.
    apply (added_reads (λ d d', d' = type_norm v d)); [by auto..|]. unfold type_norm. by destruct (policydb_has_boundary_feature v).
Qed.

(** ** Users *)

(** The levels of modules between versions 5 and 6 are converted on the way,
    which [mls_level_to_semantic] does not do faithfully. *)
Definition user_converts (v : write_params) : bool := user_expanded v && negb (is_kern v).

Definition user_bytes (v : write_params) (k : string) (d : user_datum) : list N :=
  words ([strlen k; user_value d] ++ (if policydb_has_boundary_feature v then [user_bounds d] else [])) ++
  string_bytes k ++
  (if is_kern v then ebitmap_bytes (rs_roles (user_roles d)) else role_set_bytes (user_roles d)) ++
  (if user_expanded v then range_bytes (exp_range d) ++ level_bytes (exp_dfltlevel d)
   else if user_semantic v then sem_range_bytes (user_range d) ++ sem_level_bytes (user_dfltlevel d) else []).
Record user_ok (k : string) (d : user_datum) : Prop := {
  uo_name : name_ok k;
  uo_words : u32s [user_value d; user_bounds d];
  uo_roles : role_set_ok (user_roles d);
  uo_range : range_ok (exp_range d);
  uo_level : level_ok (exp_dfltlevel d);
  uo_sem_range : sem_range_ok (user_range d);
  uo_sem_level : sem_level_ok (user_dfltlevel d) }.
Definition user_norm (v : write_params) (d : user_datum) : user_datum :=
  UserDatum (user_value d) (if is_kern v then RoleSet (rs_roles (user_roles d)) 0 else user_roles d)
    (if user_semantic v then sem_range_norm (user_range d) else mls_semantic_range_init)
    (if user_semantic v then sem_level_norm (user_dfltlevel d) else mls_semantic_level_init)
    (if user_expanded v then exp_range d else mls_range_init)
    (if user_expanded v then exp_dfltlevel d else mls_level_init) ebitmap_init
    (if policydb_has_boundary_feature v then user_bounds d else 0).

Lemma user_one_form v : user_expanded v = true → user_semantic v = false.
Proof.
  unfold user_expanded, user_semantic, is_kern, is_mod, is_base.
  destruct (N.eqb_spec (policy_type v) POLICY_KERN) as [->|]; cbn; [done|].
  intros H. destruct (_ || _); cbn in *; [|done].
  apply andb_true_iff in H as [_ H]. apply N.ltb_lt in H. apply N.leb_gt. lia.
Qed.

Lemma user_levels_reads v k d :
  user_ok k d → user_converts v = false →
  Reads (user_levels_read v)
    (if user_expanded v then range_bytes (exp_range d) ++ level_bytes (exp_dfltlevel d)
     else if user_semantic v then sem_range_bytes (user_range d) ++ sem_level_bytes (user_dfltlevel d) else [])
    (λ x, x = (user_range (user_norm v d), user_dfltlevel (user_norm v d), exp_range (user_norm v d), exp_dfltlevel (user_norm v d))).
Proof.
  intros [_ _ _ Hr Hl Hsr Hsl] Hconv. unfold user_levels_read, user_norm, user_converts in *. cbn.
  destruct (user_expanded v) eqn:Ex; cbn in Hconv.
  - rewrite (user_one_form v Ex). eapply reads_bind_eq; [apply reads_or_rc; [done|exact (codec_reads _ Hr)]|].
    rewrite <- (app_nil_r (level_bytes _)). eapply reads_bind_eq; [apply reads_or_rc; [done|exact (codec_reads _ Hl)]|].
    rewrite Hconv. by apply reads_ret.
  - destruct (user_semantic v); [|by apply reads_ret].
    eapply reads_bind_eq; [apply reads_or_rc; [done|exact (codec_reads _ Hsr)]|].
    rewrite <- (app_nil_r (sem_level_bytes _)). eapply reads_bind_eq; [apply reads_or_rc; [done|exact (codec_reads _ Hsl)]|].
    by apply reads_ret.
Qed.

#[global] Instance user_codec v :
  SymCodec (user_write v) (user_read v) (user_bytes v) (λ k d, user_ok k d ∧ user_converts v = false) all_kept all_added
    (λ d d', d' = user_norm v d).
Proof.
  split.
  - intros k d [[Hk Hw Hro Hr Hl Hsr Hsl] _]. cbn. unfold user_write, user_bytes.
    pose proof (codec_writes _ Hro). pose proof (codec_writes _ Hr). pose proof (codec_writes _ Hl).
    pose proof (codec_writes _ Hsr). pose proof (codec_writes _ Hsl). writes.
  - intros k d t0 [Hok Hconv] Ht0 Hnew. pose proof (user_levels_reads v k d Hok Hconv) as Hlev.
    destruct Hok as [Hk Hw Hro _ _ _ _]. unfold user_read, user_bytes. reads_step. cbv zeta.
    apply reads_header; [u32s_solve|]. intros buf -> -> ->. reads_name.
    eapply (reads_bind _ _ _ _ (λ x, x = user_roles (user_norm v d))).
    { unfold user_norm. destruct (is_kern v); cbn; [|apply reads_or_rc; [done|exact (codec_reads _ Hro)]].
      destruct Hro as [Hro _]. reads_step. by reads_step. }
    intros roles ->. rewrite <- (app_nil_r (if user_expanded v then _ else _)).
    eapply reads_bind; [exact Hlev|]. intros x ->.
    apply (added_reads (λ d d', d' = user_norm v d)); auto.
Qed.

(** ** Booleans, sensitivities and categories *)

Definition bool_bytes (v : write_params) (k : string) (d : cond_bool_datum) : list N :=
  words [bool_value d; Z.to_N (state d mod 2 ^ 32); strlen k] ++ string_bytes k ++
  (if has_tunables v then words [bool_flags d] else []).
Definition bool_ok (k : string) (d : cond_bool_datum) : Prop :=
  name_ok k ∧ u32s [bool_value d; bool_flags d] ∧ bool_isvalid d = true.
Definition bool_norm (v : write_params) (d : cond_bool_datum) : cond_bool_datum :=
  CondBoolDatum (bool_value d) (state d) (if has_tunables v then bool_flags d else 0).

#[global] Instance bool_codec v :
  SymCodec (cond_write_bool v) (cond_read_bool v) (bool_bytes v) bool_ok all_kept all_added (λ d d', d' = bool_norm v d).
Proof.
  split.
  - intros k d _. cbn. unfold cond_write_bool, bool_bytes. writes.
  - intros k [b st f] t0 (Hk & Hw & Hst) Ht0 Hnew. unfold cond_read_bool, bool_bytes, bool_norm. cbn [bool_value state bool_flags] in *.
    assert (Z.to_N (st mod 2 ^ 32) < 2 ^ 32 ∧ s32 (Z.to_N (st mod 2 ^ 32)) = st) as [Hs1 Hs2].
    { unfold bool_isvalid in Hst. cbn in Hst. apply orb_true_iff in Hst as [->%Z.eqb_eq| ->%Z.eqb_eq]; done. }
    assert (u32s [b; Z.to_N (st mod 2 ^ 32); strlen k]) by u32s_solve. assert (u32s [f]) by u32s_solve.
    do 2 reads_step. word_at. rewrite Hs2.
    change (bool_isvalid (CondBoolDatum b st 0)) with (bool_isvalid (CondBoolDatum b st f)). rewrite Hst. cbn [negb].
    reads_name. rewrite <- (app_nil_r (if has_tunables v then _ else _)).
    apply reads_opt with (a := if has_tunables v then f else 0); [intros ->; reads_step; word_at; by reads_step|by intros ->|].
    apply (added_reads (λ d d', d' = bool_norm v d) _ _ _ (CondBoolDatum b st f)); auto.
Qed.

Lemma u8_small x : x < 256 → u8 x = x.
Proof. apply N.mod_small. Qed.

Definition sens_bytes (k : string) (d : level_datum) : list N :=
  words [strlen k; level_isalias d] ++ string_bytes k ++ level_bytes (level d).
Definition sens_ok (k : string) (d : level_datum) : Prop :=
  name_ok k ∧ level_isalias d < 256 ∧ level_ok (level d).

#[global] Instance sens_codec : SymCodec sens_write sens_read sens_bytes sens_ok all_kept all_added (λ d d', d' = d).
Proof.
  split.
  - intros k d (_ & _ & Hl). cbn. unfold sens_write, sens_bytes. pose proof (codec_writes _ Hl). writes.
  - intros k [l a] t0 (Hk & Ha & Hl) Ht0 Hnew. unfold sens_read, sens_bytes. cbn [level level_isalias] in *.
    assert (a < 2 ^ 32) by (change (2 ^ 32) with 4294967296; lia).
    assert (u32s [strlen k; a]) by u32s_solve. do 2 reads_step. word_at. reads_name. reads_step.
    rewrite <- (app_nil_r (level_bytes l)). eapply reads_bind_eq; [apply reads_or_rc; [done|exact (codec_reads _ Hl)]|].
    rewrite u8_small by done.
    apply (added_reads (λ d d', d' = d)); auto.
Qed.

Definition cat_bytes (k : string) (d : cat_datum) : list N :=
  words [strlen k; cat_value d; cat_isalias d] ++ string_bytes k.
Definition cat_ok (k : string) (d : cat_datum) : Prop := name_ok k ∧ u32s [cat_value d] ∧ cat_isalias d < 256.

#[global] Instance cat_codec : SymCodec cat_write cat_read cat_bytes cat_ok all_kept all_added (λ d d', d' = d).
Proof.
  split.
  - intros k d _. cbn. unfold cat_write, cat_bytes. writes.
  - intros k [c a] t0 (Hk & Hc & Ha) Ht0 Hnew. unfold cat_read, cat_bytes. cbn [cat_value cat_isalias] in *.
    assert (a < 2 ^ 32) by (change (2 ^ 32) with 4294967296; lia).
    assert (u32s [strlen k; c; a]) by u32s_solve. do 2 reads_step. word_at.
    rewrite <- (app_nil_r (string_bytes k)). reads_name. rewrite u8_small by done.
    apply (added_reads (λ d d', d' = d)); auto.
Qed.

(** * The tables in the file *)

Section tables.
Context {D : Type} (w : string → D → io unit) (r : stable D → io (stable D)) (bytes : string → D → list N)
  (ok : string → D → Prop) (skipped : D → bool) (adds : string → bool) (R : D → D → Prop).
Context `{!SymCodec w r bytes ok skipped adds R}.

Definition symtab_ok (s : symtab D) : Prop :=
  u32s [nprim s] ∧ ∃ t, table s = Some t ∧ ht_wf t ∧ N.of_nat (length (ht_entries t)) < 2 ^ 32 ∧
    ∀ k d, (k, d) ∈ ht_entries t → ok k d.

(** A table read into one with the entries [m0]: the entries that are written,
    as far as the reader adds them. *)
Definition symtab_sim (m0 : gmap string D) (s s' : symtab D) : Prop :=
  nprim s' = nprim s ∧
  ∃ t t', table s = Some t ∧ table s' = Some t' ∧ ht_wf t' ∧
    table_read R adds (kept skipped (ht_entries t)) m0 (ht_map t').

(** The callback uncounts what the writer skips. *)
Definition uncounts (uncount : option (string → D → N → M (Z * N))) : Prop :=
  match uncount with
  | Some f => ∃ is_attr, f = attr_uncount is_attr ∧ ∀ d, skipped d = is_attr d
  | None => ∀ d, skipped d = false
  end.

Lemma dec32_pos n : 0 < n → n < 2 ^ 32 → dec32 n = n - 1.
Proof.
  intros H1 H2. unfold dec32, u32, UINT_MAX. replace (n + 4294967295) with (n - 1 + 1 * 2 ^ 32) by lia.
  rewrite N.Div0.mod_add. apply N.mod_small. lia.
Qed.

Lemma uncount_chain is_attr (l : list (string * D)) n o :
  (∀ d, skipped d = is_attr d) → N.of_nat (length l) ≤ n → n < 2 ^ 32 →
  map_chain (attr_uncount is_attr) l n o =
  Ret (inr (n - N.of_nat (length l) + N.of_nat (length (kept skipped l)))) o.
Proof.
  intros Hs. revert n. induction l as [|[k d] l IH]; intros n Hle Hlt; cbn [map_chain for_list].
  { unfold mret, M_ret. do 2 f_equal. cbn. lia. }
  rewrite bind_run. unfold attr_uncount at 1. cbn [fst snd]. rewrite bind_run. unfold mret at 1, M_ret at 1.
  change (map_chain (attr_uncount is_attr) l (if is_attr d then dec32 n else n) o =
    Ret (inr (n - N.of_nat (length ((k, d) :: l)) + N.of_nat (length (kept skipped ((k, d) :: l))))) o).
  unfold kept. rewrite filter_cons. cbn [snd length] in *. rewrite (Hs d). destruct (is_attr d).
  - rewrite dec32_pos by lia. rewrite decide_False by done. rewrite IH by lia. do 2 f_equal. unfold kept. lia.
  - rewrite decide_True by done. rewrite IH by lia. do 2 f_equal. cbn [length]. unfold kept. lia.
Qed.

Definition symtab_bytes (s : symtab D) (t : hashtab string D) : list N :=
  words [nprim s; N.of_nat (length (kept skipped (ht_entries t)))] ++
  (kept skipped (ht_entries t) ≫= λ e, bytes e.1 e.2).

Lemma kept_bind l (f : string * D → list N) :
  kept skipped l ≫= f = l ≫= (λ e, if skipped e.2 then [] else f e).
Proof.
  unfold kept. rewrite bind_filter. apply list_bind_ext; [|done].
  intros e. destruct (skipped e.2); [by rewrite decide_False|by rewrite decide_True].
Qed.

Lemma symtab_writes uncount s t :
  uncounts uncount → symtab_ok s → table s = Some t → Writes (write_symtab uncount w s) (symtab_bytes s t).
Proof.
  intros Hu (_ & t' & Ht' & Hwf & Hlen & Hok) Ht. rewrite Ht in Ht'. injection Ht' as <-.
  unfold write_symtab, symtab_bytes. rewrite Ht. eapply writes_lift; [done|].
  assert (Writes (put_table w (Some t)) (kept skipped (ht_entries t) ≫= λ e, bytes e.1 e.2)).
  { rewrite kept_bind. apply (put_table_writes _ (λ k d, if skipped d then [] else bytes k d)); [apply Hwf|].
    intros k d Hin. by apply sym_writes, Hok. }
  pose proof (nel_entries t Hwf Hlen) as Hnel. destruct uncount as [f|].
  - destruct Hu as (is_attr & -> & Hs). eapply writes_lift.
    { intros o. rewrite map_spec by apply Hwf. rewrite bind_run, (uncount_chain is_attr) by (done || lia). done. }
    rewrite Hnel, N.sub_diag, N.add_0_l. writes.
  - assert (kept skipped (ht_entries t) = ht_entries t) as Hall.
    { clear -Hu. induction (ht_entries t) as [|e l IH]; [done|]. unfold kept.
      rewrite filter_cons_True by apply Hu. by f_equal. }
    eapply writes_lift; [done|]. rewrite Hall, <- Hnel. rewrite Hall in H. writes.
Qed.

Lemma kept_nodup t : ht_wf t → NoDup (kept skipped (ht_entries t)).*1.
Proof.
  intros [Ht _]. eapply sublist_NoDup; [apply (wf_nodup _ Ht)|].
  apply fmap_sublist, sublist_filter.
Qed.

Lemma symtab_reads s t s0 t0 :
  symtab_ok s → table s = Some t → table s0 = Some t0 → ht_wf t0 →
  (∀ k, k ∈ (kept skipped (ht_entries t)).*1 → adds k = true → ht_map t0 !! k = None) →
  Reads (read_symtab r s0) (symtab_bytes s t) (symtab_sim (ht_map t0) s).
Proof.
  intros (Hn & t' & Ht' & Hwf & Hlen & Hok) Ht Ht0 Hwf0 Hnew. rewrite Ht in Ht'. injection Ht' as <-.
  unfold read_symtab, symtab_bytes.
  assert (length (kept skipped (ht_entries t)) ≤ length (ht_entries t))%nat by apply length_filter.
  assert (u32s [nprim s; N.of_nat (length (kept skipped (ht_entries t)))]).
  { assert (N.of_nat (length (kept skipped (ht_entries t))) < 2 ^ 32) by lia. u32s_solve. }
  reads_step. word_at. rewrite Nat2N.id, Ht0. rewrite <- (app_nil_r (_ ≫= _)). eapply reads_bind.
  { apply (entries_reads w r bytes ok skipped adds R); [done|by apply kept_nodup| |done].
    intros k d [_ Hin]%list_elem_of_filter. by apply Hok. }
  intros h' (t2 & -> & Hwf2 & Htr). apply reads_ret. split; [done|]. by exists t, t2.
Qed.

End tables.

(** * The symbols of a policy *)

Lemma uncounts_roles v : uncounts (role_skipped v) (uncount_roles v).
Proof.
  unfold uncount_roles. destruct (is_kern v || _) eqn:E; cbn.
  - eexists. split; [done|]. intros d. unfold role_skipped. by rewrite E, andb_true_r.
  - intros d. unfold role_skipped. by rewrite E, andb_false_r.
Qed.

Lemma uncounts_types v : uncounts (type_skipped v) (uncount_types v).
Proof.
  unfold uncount_types, type_skipped. rewrite (andb_comm (policyvers v <? _)).
  destruct (is_kern v && _) eqn:E; cbn; [|done]. eexists. by split.
Qed.

Lemma uncounts_none {D} : uncounts (D := D) all_kept None.
Proof. done. Qed.

(** What a policy must satisfy to be written without loss of entries. *)
Record symbols_ok (v : write_params) (p : policydb) : Prop := {
  so_commons : symtab_ok common_ok (p_commons p);
  so_classes : ∀ tc, table (p_commons p) = Some tc → symtab_ok (class_ok tc) (p_classes p);
  so_roles : symtab_ok role_ok (p_roles p);
  so_types : symtab_ok type_ok (p_types p);
  so_users : symtab_ok (λ k d, user_ok k d ∧ user_converts v = false) (p_users p);
  so_bools : symtab_ok bool_ok (p_bools p);
  so_levels : symtab_ok sens_ok (p_levels p);
  so_cats : symtab_ok cat_ok (p_cats p) }.

Definition fresh {D} (P : string → Prop) (s : symtab D) : Prop :=
  ∃ t, table s = Some t ∧ ht_wf t ∧ ∀ k, P k → ht_map t !! k = None.

(** The policy the reader starts from: empty tables, and [object_r]. *)
Record fresh_policy (p : policydb) : Prop := {
  fp_commons : fresh (λ _, True) (p_commons p);
  fp_classes : fresh (λ _, True) (p_classes p);
  fp_roles : fresh (λ k, k ≠ OBJECT_R) (p_roles p);
  fp_types : fresh (λ _, True) (p_types p);
  fp_users : fresh (λ _, True) (p_users p);
  fp_bools : fresh (λ _, True) (p_bools p);
  fp_levels : fresh (λ _, True) (p_levels p);
  fp_cats : fresh (λ _, True) (p_cats p) }.

Definition symtab_map {D} (s : symtab D) : gmap string D :=
  match table s with Some t => ht_map t | None => ∅ end.

(** The policy [p'] read into [p0] has the symbols of [p]. *)
Record symbols_sim (v : write_params) (num_syms : N) (p0 p p' : policydb) : Prop := {
  ss_commons : symtab_sim all_kept all_added common_sim (symtab_map (p_commons p0)) (p_commons p) (p_commons p');
  ss_classes : ∃ tc, table (p_commons p') = Some tc ∧
    symtab_sim all_kept all_added (class_sim v tc) (symtab_map (p_classes p0)) (p_classes p) (p_classes p');
  ss_roles : symtab_sim (role_skipped v) not_object_r (λ d d', d' = role_norm v d) (symtab_map (p_roles p0))
    (p_roles p) (p_roles p');
  ss_types : symtab_sim (type_skipped v) all_added (λ d d', d' = type_norm v d) (symtab_map (p_types p0))
    (p_types p) (p_types p');
  ss_users : symtab_sim all_kept all_added (λ d d', d' = user_norm v d) (symtab_map (p_users p0)) (p_users p) (p_users p');
  ss_bools : if 5 <? num_syms
    then symtab_sim all_kept all_added (λ d d', d' = bool_norm v d) (symtab_map (p_bools p0)) (p_bools p) (p_bools p')
    else p_bools p' = p_bools p0;
  ss_levels : if 6 <? num_syms
    then symtab_sim all_kept all_added (λ d d', d' = d) (symtab_map (p_levels p0)) (p_levels p) (p_levels p')
    else p_levels p' = p_levels p0;
  ss_cats : if 7 <? num_syms
    then symtab_sim all_kept all_added (λ d d', d' = d) (symtab_map (p_cats p0)) (p_cats p) (p_cats p')
    else p_cats p' = p_cats p0;
  ss_rest : p' = set_symtabs p0 (p_commons p') (p_classes p') (p_roles p') (p_types p') (p_users p') (p_bools p')
                   (p_levels p') (p_cats p') }.

Lemma class_ok_mono tc tc' k d :
  (∀ c, is_Some (ht_map tc !! c) → is_Some (ht_map tc' !! c)) → class_ok tc k d → class_ok tc' k d.
Proof. intros H []. split; naive_solver. Qed.

Lemma symtab_ok_mono {D} (ok ok' : string → D → Prop) s :
  (∀ k d, ok k d → ok' k d) → symtab_ok ok s → symtab_ok ok' s.
Proof. intros H (Hn & t & Ht & Hwf & Hl & Hok). split; [done|]. exists t. split_and!; eauto. Qed.

(** A table read into a fresh one. *)
Lemma fresh_reads {D} w r bytes ok skipped adds R `{!SymCodec (D := D) w r bytes ok skipped adds R} s t s0 :
  symtab_ok ok s → table s = Some t → fresh (λ k, adds k = true) s0 →
  Reads (read_symtab r s0) (symtab_bytes bytes skipped s t)
    (symtab_sim skipped adds R (symtab_map s0) s).
Proof.
  intros Hok Ht (t0 & Ht0 & Hwf & Hf). unfold symtab_map. rewrite Ht0.
  eapply symtab_reads; [done..|]. intros k _ Ha. by apply Hf.
Qed.

Lemma fresh_mono {D} (P P' : string → Prop) (s : symtab D) : (∀ k, P' k → P k) → fresh P s → fresh P' s.
Proof. intros H (t & ? & ? & Hf). exists t. eauto. Qed.

Lemma fresh_all {D} (P : string → Prop) (s : symtab D) : fresh (λ _, True) s → fresh P s.
Proof. by apply fresh_mono. Qed.

Lemma commons_kept s s' m0 c :
  symtab_sim all_kept all_added common_sim m0 s s' → ∀ tc tc', table s = Some tc → table s' = Some tc' →
  ht_struct tc → is_Some (ht_map tc !! c) → is_Some (ht_map tc' !! c).
Proof.
  intros (_ & t & t' & Ht & Ht' & _ & [Hent _]) tc tc' Htc Htc' Hs [d Hd].
  rewrite Ht in Htc. injection Htc as ->. rewrite Ht' in Htc'. injection Htc' as ->.
  apply elem_of_list_to_map in Hd; [|apply (wf_nodup _ Hs)].
  destruct (Hent c d) as (d' & -> & _); [|done|by eexists]. apply list_elem_of_filter. by split.
Qed.

Definition tab_bytes {D} (bytes : string → D → list N) (skipped : D → bool) (s : symtab D) : list N :=
  match table s with Some t => symtab_bytes bytes skipped s t | None => [] end.

Definition symbols_bytes (v : write_params) (num_syms : N) (p : policydb) : list N :=
  tab_bytes common_bytes all_kept (p_commons p) ++ tab_bytes (class_bytes v) all_kept (p_classes p) ++
  tab_bytes (role_bytes v) (role_skipped v) (p_roles p) ++ tab_bytes (type_bytes v) (type_skipped v) (p_types p) ++
  tab_bytes (user_bytes v) all_kept (p_users p) ++
  (if 5 <? num_syms then tab_bytes (bool_bytes v) all_kept (p_bools p) else []) ++
  (if 6 <? num_syms then tab_bytes sens_bytes all_kept (p_levels p) else []) ++
  (if 7 <? num_syms then tab_bytes cat_bytes all_kept (p_cats p) else []).

Lemma tab_writes {D} w r bytes ok skipped adds R `{!SymCodec (D := D) w r bytes ok skipped adds R} uncount s :
  uncounts skipped uncount → symtab_ok ok s → Writes (write_symtab uncount w s) (tab_bytes bytes skipped s).
Proof.
  intros Hu Hok. destruct (proj2 Hok) as (t & Ht & _). unfold tab_bytes. rewrite Ht. by eapply symtab_writes.
Qed.

Lemma tab_reads {D} w r bytes ok skipped adds R `{!SymCodec (D := D) w r bytes ok skipped adds R} s s0 :
  symtab_ok ok s → fresh (λ k, adds k = true) s0 →
  Reads (read_symtab r s0) (tab_bytes bytes skipped s) (symtab_sim skipped adds R (symtab_map s0) s).
Proof.
  intros Hok Hf. destruct (proj2 Hok) as (t & Ht & _). unfold tab_bytes. rewrite Ht. by eapply fresh_reads.
Qed.

Lemma symbols_writes v num_syms p :
  symbols_ok v p → Writes (write_symtabs v num_syms p) (symbols_bytes v num_syms p).
Proof.
  intros [Hco Hcl Hro Hty Hus Hbo Hle Hca]. destruct (proj2 Hco) as (tco & Tco & Wco & _). specialize (Hcl tco Tco).
  unfold write_symtabs, symbols_bytes.
  repeat apply writes_bind; try apply writes_when.
  - by eapply (tab_writes common_write); [apply _|apply uncounts_none|].
  - by eapply (tab_writes (class_write v)); [apply (class_codec v tco (proj1 Wco))|apply uncounts_none|].
  - by eapply (tab_writes (role_write v)); [apply _|apply uncounts_roles|].
  - by eapply (tab_writes (type_write v)); [apply _|apply uncounts_types|].
  - by eapply (tab_writes (user_write v)); [apply _|apply uncounts_none|].
  - by eapply (tab_writes (cond_write_bool v)); [apply _|apply uncounts_none|].
  - by eapply (tab_writes sens_write); [apply _|apply uncounts_none|].
  - by eapply (tab_writes cat_write); [apply _|apply uncounts_none|].
Qed.

(** A table that only some versions have. *)
Lemma reads_opt_tab {D B} (b : bool) (m : io (symtab D)) s0 bs (Q : symtab D → Prop) (k : symtab D → io B) rest Q' :
  Reads m bs Q → (∀ s, (if b then Q s else s = s0) → Reads (k s) rest Q') →
  Reads (x ← (if b then m else mret s0); k x) ((if b then bs else []) ++ rest) Q'.
Proof.
  intros Hm Hk. destruct b; [by eapply reads_bind|].
  eapply (reads_bind _ _ _ _ (λ s, s = s0)); [by apply reads_ret|]. intros s Hs. by apply Hk.
Qed.

Lemma symbols_reads v num_syms p p0 :
  symbols_ok v p → fresh_policy p0 →
  Reads (read_symtabs v num_syms p0) (symbols_bytes v num_syms p) (symbols_sim v num_syms p0 p).
Proof.
  intros [Hco Hcl Hro Hty Hus Hbo Hle Hca] [Fco Fcl Fro Fty Fus Fbo Fle Fca].
  destruct (proj2 Hco) as (tco & Tco & Wco & _). specialize (Hcl tco Tco). unfold read_symtabs, symbols_bytes.
  eapply reads_bind; [eapply (tab_reads common_write); [apply _|done|by apply fresh_all]|]. intros commons Sco.
  destruct (proj2 Sco) as (_ & tc & _ & Tc & Wc & _).
  assert (symtab_ok (class_ok tc) (p_classes p)) as Hcl'.
  { eapply symtab_ok_mono; [|exact Hcl]. intros k d. apply class_ok_mono. intros c.
    by eapply commons_kept; [..|apply Wco]. }
  rewrite Tc. eapply reads_bind.
  { eapply (tab_reads (class_write v)); [apply (class_codec v tc (proj1 Wc))|done|by apply fresh_all]. }
  intros classes Scl. eapply reads_bind.
  { eapply (tab_reads (role_write v)); [apply _|done|]. eapply fresh_mono; [|exact Fro]. intros k Hk ->. done. }
  intros roles Sro. eapply reads_bind; [eapply (tab_reads (type_write v)); [apply _|done|by apply fresh_all]|].
  intros types Sty. eapply reads_bind; [eapply (tab_reads (user_write v)); [apply _|done|by apply fresh_all]|].
  intros users Sus.
  eapply reads_opt_tab; [eapply (tab_reads (cond_write_bool v)); [apply _|done|by apply fresh_all]|]. intros bools Sbo.
  eapply reads_opt_tab; [eapply (tab_reads sens_write); [apply _|done|by apply fresh_all]|]. intros levels Sle.
  rewrite <- (app_nil_r (if 7 <? num_syms then _ else _)).
  eapply reads_opt_tab; [eapply (tab_reads cat_write); [apply _|done|by apply fresh_all]|]. intros cats Sca.
  apply reads_ret. split; try done. by exists tc.
Qed.

(** C14: the symbol tables of a policy survive the policy file.  The loop of
    [policydb_write] writes the tables of any policy of any type and version,
    modules of the version whose users are converted to semantic ranges when
    they are read apart (version 5 with users), whose names and numbers fit the
    format; the loop of [policydb_read] reads
    them into a fresh policy and gives tables with the same names and, up to
    the fields the version has no room for ([role_norm], [type_norm],
    [user_norm], [class_sim], ...), the same datums: nothing is lost, added or
    read past.  Skipped attributes are uncounted, and [object_r] is not read
    twice. *)
Theorem symbols_write_read v num_syms p p0 :
  symbols_ok v p → fresh_policy p0 →
  SurvivesAs (write_symtabs v num_syms p) (read_symtabs v num_syms p0) (symbols_sim v num_syms p0 p).
Proof. intros Hok Hf. by eapply survives_intro; [apply symbols_writes|apply symbols_reads]. Qed.

(** ** An example *)

Lemma ex_symtab_ok {D} (ok : string → D → Prop) l n :
  StronglySorted (λ a b : string * D, (0 < symcmp b.1 a.1)%Z) l → NoDup l.*1 →
  N.of_nat (length l) < 2 ^ 32 → n < 2 ^ 32 → (∀ k d, (k, d) ∈ l → ok k d) → symtab_ok ok (ex_table l n).
Proof.
  intros Hs Hnd Hl Hn Hok. split; [by repeat constructor|]. eexists. split; [done|].
  unfold ht_entries. cbn. rewrite app_nil_r. split_and!; [|done..]. split; [by apply ex_table_struct|].
  cbn. unfold ht_entries. cbn. by rewrite app_nil_r, u32_small.
Qed.

Definition ex_fresh : policydb :=
  set_symtabs ex_policy (ex_table [] 0) (ex_table [] 0) (ex_table [("object_r"%string, ex_role 1)] 1) (ex_table [] 0)
    (ex_table [] 0) (ex_table [] 0) (ex_table [] 0) (ex_table [] 0).

#[global] Instance type_set_ok_dec x : Decision (type_set_ok x).
Proof. unfold type_set_ok. apply _. Defined.
#[global] Instance role_set_ok_dec x : Decision (role_set_ok x).
Proof. unfold role_set_ok. apply _. Defined.
#[global] Instance sem_level_ok_dec x : Decision (sem_level_ok x).
Proof. unfold sem_level_ok. apply _. Defined.
#[global] Instance sem_range_ok_dec x : Decision (sem_range_ok x).
Proof. unfold sem_range_ok. apply _. Defined.
#[global] Instance expr_ok_dec b x : Decision (expr_ok b x).
Proof. unfold expr_ok. apply _. Defined.
#[global] Instance cons_ok_dec b x : Decision (cons_ok b x).
Proof. unfold cons_ok. apply _. Defined.

(** A table of the example, entry by entry. *)
Ltac ex_tab :=
  apply ex_symtab_ok; [repeat constructor|apply (bool_decide_unpack _); by vm_compute|done|done|];
  let k := fresh in let d := fresh in let Hin := fresh in
  intros k d Hin; repeat (apply elem_of_cons in Hin as [[= -> ->]|Hin]); try (by apply elem_of_nil in Hin).

Lemma ex_symbols_ok v : user_converts v = false → symbols_ok v ex_policy.
Proof.
  intros Hv. split; try intros tc Htc.
  - ex_tab.
  - ex_tab. split; try by_decide; try done. ex_tab. split; by_decide.
  - ex_tab; split; try by_decide; done.
  - ex_tab; (split; [|split]); by_decide.
  - ex_tab. split; [|done]. split; by_decide.
  - ex_tab.
  - ex_tab; (split; [|split]); by_decide.
  - ex_tab; (split; [|split]); by_decide.
Qed.

Lemma ex_table_fresh {D} (l : list (string * D)) n :
  StronglySorted (λ a b : string * D, (0 < symcmp b.1 a.1)%Z) l → NoDup l.*1 → N.of_nat (length l) < 2 ^ 32 →
  fresh (λ k, k ∉ l.*1) (ex_table l n).
Proof.
  intros Hs Hnd Hl. destruct (ex_symtab_ok (λ _ _, True) l 0 Hs Hnd Hl) as (_ & t & Ht & Hwf & _); [done..|].
  exists t. split; [done|]. split; [done|]. injection Ht as <-. intros k Hk.
  unfold ht_map, ht_entries. cbn. rewrite app_nil_r. by apply not_elem_of_list_to_map.
Qed.

Lemma ex_fresh_policy : fresh_policy ex_fresh.
Proof.
  split; (eapply fresh_mono; [|apply ex_table_fresh; [repeat constructor|apply (bool_decide_unpack _); by vm_compute|done]]);
    intros k Hk; set_solver.
Qed.

(** A kernel policy of version 20: the bound, defaults and names of
    constraints are not in the file. *)
Lemma symbols_write_read_witness :
  SurvivesAs (write_symtabs (WriteParams POLICY_KERN 20 SEPOL_TARGET_SELINUX) 8 ex_policy)
    (read_symtabs (WriteParams POLICY_KERN 20 SEPOL_TARGET_SELINUX) 8 ex_fresh)
    (λ p', ∃ t, table (p_types p') = Some t ∧ ht_map t !! "b_t"%string = Some (ex_type 2)).
Proof.
  destruct (symbols_write_read (WriteParams POLICY_KERN 20 SEPOL_TARGET_SELINUX) 8 ex_policy ex_fresh
              (ex_symbols_ok (WriteParams POLICY_KERN 20 SEPOL_TARGET_SELINUX) eq_refl) ex_fresh_policy) as (bs & Hw & Hr).
  exists bs. split; [done|]. intros fp rest o Hfp Hav. eapply wp_mono; [by apply Hr|].
  intros x o' [Ho Hx]. split; [done|]. destruct Hx as [(p' & ? & Hsim & ?)|?]; [left|by right].
  exists p'. split; [done|]. split; [|done]. destruct (ss_types _ _ _ _ _ Hsim) as (_ & t & t' & Ht & Ht' & _ & Htr).
  exists t'. split; [done|]. injection Ht as <-.
  destruct (tr_entries _ _ _ _ _ Htr "b_t"%string (ex_type 2)) as (d' & Hd & ->); [|done|done].
  apply list_elem_of_filter. split; [done|]. right. left.
Defined.
