(* ===== verification/SymbolSafety.v ===== *)
(** The readers of symbols on arbitrary files: those of commons, classes, roles,
    types and users are defined whatever the file holds, and accept only
    constraints that can be evaluated; those of Booleans, sensitivities,
    categories and file name transitions overflow a buffer. *)

From S2P Require Import Prelude Ebitmap PolicyFile Hashtab MlsTypes Avtab Policydb Mls Context.
From S2P Require Import Conditional Services Expand PolicyIO SymbolIO.
Local Open Scope N_scope.

(** * Arbitrary files *)

(** A constraint that [constraint_expr_eval_reason] can evaluate. *)
Definition cons_evaluable (c : constraint_node) : Prop :=
  ∃ ce, crpn ce (expr c) ∧ (cdepth ce ≤ CEXPR_MAXDEPTH)%nat.

Definition table_inv {D} (P : D → Prop) (h : stable D) : Prop :=
  ∃ t, h = Some t ∧ ht_wf t ∧ map_Forall (λ _, P) (ht_map t).

Lemma safe_type_set : Safe type_set_read (λ _, True).
Proof.
  unfold type_set_read. do 2 (safe_step; [apply safe_ebitmap|]; intros ? _). safe_step. intros buf _. by apply safe_ret.
Qed.

Lemma cons_expr_safe v ax l depth :
  depth_run (-1) l = Some depth →
  Safe (cons_expr_read v ax (l, depth)) (λ s, depth_run (-1) s.1 = Some s.2).
Proof.
  intros Hd. unfold cons_expr_read. do 2 safe_step. safe_step. intros buf _.
  assert (∀ e d, depth_step depth e = Some d →
            Safe (mret (l ++ [e], d)) (λ s : list constraint_expr * Z, depth_run (-1) s.1 = Some s.2)) as Hret.
  { intros e d He. apply safe_ret. cbn [fst snd]. by rewrite depth_run_snoc, Hd. }
  cbv zeta. cbn [expr_type attr op]. unfold depth_step in Hret.
  destruct (le32_at buf 0 =? CEXPR_NOT) eqn:E1.
  { case_bool; [by apply safe_fail|]. apply Hret. cbn [expr_type]. rewrite E1. by case_bool. }
  destruct ((le32_at buf 0 =? CEXPR_AND) || (le32_at buf 0 =? CEXPR_OR)) eqn:E2.
  { case_bool; [by apply safe_fail|]. apply Hret. cbn [expr_type]. rewrite E1, E2. by case_bool. }
  destruct (le32_at buf 0 =? CEXPR_ATTR) eqn:E3.
  { case_bool; [by apply safe_fail|]. apply Hret. cbn [expr_type]. rewrite E1, E2, E3. cbn [orb]. by case_bool. }
  destruct (le32_at buf 0 =? CEXPR_NAMES) eqn:E4; [|by apply safe_fail].
  destruct (negb ax && _); [by apply safe_fail|].
  case_bool; [by apply safe_fail|]. safe_step; [apply safe_ebitmap|]. intros n _.
  eapply (safe_bind _ _ (λ _, True)).
  { destruct (has_type_names v); [apply safe_or_rc; [done|apply safe_type_set]|by apply safe_ret]. }
  intros tn _. apply Hret. cbn [expr_type]. rewrite E1, E2, E3, E4. cbn [orb]. by case_bool.
Qed.

Lemma read_cons_safe v n ax : Safe (read_cons_helper v n ax) (Forall cons_evaluable).
Proof.
  unfold read_cons_helper, io_read_list. apply safe_times; [constructor|]. intros l Hl.
  eapply (safe_bind _ _ cons_evaluable); [|intros c Hc; apply safe_ret; apply Forall_app_2; by repeat constructor].
  unfold cons_node_read. safe_step. safe_step. intros buf _.
  eapply (safe_bind _ _ (λ s, depth_run (-1) s.1 = Some s.2)).
  { apply safe_times; [done|]. intros [es d] Hd. by apply cons_expr_safe. }
  intros [es d] Hd. cbn [fst snd] in *. destruct (Z.eqb_spec d 0) as [->|]; cbn [negb]; [|by apply safe_fail].
  apply safe_ret. by apply depth_run_rpn.
Qed.

Lemma name_safe len : Safe (get_string (len + 1) len) (λ _, True).
Proof. apply safe_string. lia. Qed.

Lemma perm_read_safe h : table_inv (λ _, True) h → Safe (perm_read h) (table_inv (λ _, True)).
Proof.
  intros Hh. unfold perm_read. safe_step. safe_step. intros buf _. eapply safe_bind; [apply name_safe|].
  intros key _. by apply add_symbol_safe.
Qed.

Lemma perms_read_safe n h : table_inv (λ _, True) h → Safe (io_times n perm_read h) (table_inv (λ _, True)).
Proof. intros Hh. apply safe_times; [done|]. apply perm_read_safe. Qed.

Lemma empty_table_inv {D} (P : D → Prop) h : (∃ t, h = Some t ∧ ht_wf t ∧ ht_map t = ∅) → table_inv P h.
Proof. intros (t & -> & ? & He). exists t. rewrite He. split_and!; try done. Qed.

Lemma common_read_safe h : table_inv (λ _, True) h → Safe (common_read h) (table_inv (λ _, True)).
Proof.
  intros Hh. unfold common_read. safe_step. safe_step. intros buf _.
  eapply safe_bind; [apply new_perms_safe|]. intros perms Hp%(empty_table_inv (λ _, True)).
  eapply safe_bind; [apply name_safe|]. intros key _. eapply safe_bind; [by apply perms_read_safe|].
  intros perms' _. by apply add_symbol_safe.
Qed.

Definition class_evaluable (d : class_datum) : Prop :=
  Forall cons_evaluable (constraints d) ∧ Forall cons_evaluable (validatetrans d).

Lemma class_read_safe v tc h :
  ht_struct tc → table_inv class_evaluable h → Safe (class_read v (Some tc) h) (table_inv class_evaluable).
Proof.
  intros Htc Hh. unfold class_read. safe_step. safe_step. intros buf _.
  eapply safe_bind; [apply new_perms_safe|]. intros perms Hp%(empty_table_inv (λ _, True)).
  eapply safe_bind; [apply name_safe|]. intros key _. eapply (safe_bind _ _ (λ _, True)).
  { destruct (truth _); [|by apply safe_ret]. eapply safe_bind; [apply name_safe|]. intros ck _.
    eapply (safe_bind _ _ (λ _, True)); [apply safe_lift; intros o; unfold wp; by rewrite search_spec|].
    intros [cd|] _; [by apply safe_ret|by apply safe_fail]. }
  intros [ck cd] _. eapply safe_bind; [by apply perms_read_safe|]. intros perms' _.
  eapply safe_bind; [apply read_cons_safe|]. intros cons Hcons.
  eapply (safe_bind _ _ (Forall cons_evaluable)).
  { destruct (has_validatetrans v); [|by apply safe_ret]. safe_step. intros b _. apply read_cons_safe. }
  intros vtrans Hvt. eapply (safe_bind _ _ (λ _, True)).
  { destruct (has_defaults v); [safe_step; intros b _|]; by apply safe_ret. }
  intros [[du dr] drange] _. eapply (safe_bind _ _ (λ _, True)).
  { destruct (has_default_type v); [safe_step; intros b _|]; by apply safe_ret. }
  intros dt _. by apply add_symbol_safe.
Qed.

Lemma safe_get_ret {A} n (f : list N → A) : Safe (b ← get n; mret (f b)) (λ _, True).
Proof. safe_step. intros b _. by apply safe_ret. Qed.

Lemma role_read_safe v h : table_inv (λ _, True) h → Safe (role_read v h) (table_inv (λ _, True)).
Proof.
  intros Hh. unfold role_read. safe_step. cbv zeta. safe_step. intros buf _. eapply safe_bind; [apply name_safe|].
  intros key _. safe_step; [apply safe_ebitmap|]. intros doms _. eapply (safe_bind _ _ (λ _, True)).
  { destruct (is_kern v); [|apply safe_or_rc; [done|apply safe_type_set]].
    safe_step; [apply safe_ebitmap|]. intros e _. by apply safe_ret. }
  intros types _. eapply (safe_bind _ _ (λ _, True)).
  { destruct (has_roleattrib v); [|by apply safe_ret]. safe_step. intros b _.
    safe_step; [apply safe_ebitmap|]. intros e _. by apply safe_ret. }
  intros [fl roles] _. case_bool; [case_bool; [by apply safe_fail|by apply safe_ret]|]. by apply add_symbol_safe.
Qed.

Lemma type_read_safe v h : table_inv (λ _, True) h → Safe (type_read v h) (table_inv (λ _, True)).
Proof.
  intros Hh. unfold type_read. safe_step. safe_step. intros buf _. cbv zeta.
  eapply (safe_bind _ _ (λ _, True)).
  { destruct (negb (is_kern v)); [|by apply safe_ret]. apply safe_or_rc; [done|]. eapply safe_mono; [apply safe_ebitmap|done]. }
  intros types _. eapply safe_bind; [apply name_safe|]. intros key _.
  destruct (type_fields v buf) as [[[? ?] ?] ?]. by apply add_symbol_safe.
Qed.

Lemma safe_level : Safe mls_read_level (λ _, True).
Proof.
  unfold mls_read_level. safe_step; [apply safe_get|]. intros buf _. safe_step; [apply safe_ebitmap|].
  intros c _. by apply safe_ret.
Qed.

Lemma safe_range : Safe mls_read_range_helper (λ _, True).
Proof.
  unfold mls_read_range_helper. safe_step. intros buf _. cbv zeta. case_bool; [by apply safe_fail|].
  safe_step. intros new _. eapply safe_bind; [apply safe_ebitmap|]. intros c0 _.
  eapply (safe_bind _ _ (λ _, True)); [|intros c1 _; by apply safe_ret].
  case_bool; [eapply safe_mono; [apply safe_ebitmap|done]|]. apply safe_copy.
Qed.

Lemma safe_sem_level : Safe mls_read_semantic_level_helper (λ _, True).
Proof.
  unfold mls_read_semantic_level_helper. safe_step; [apply safe_get|]. intros buf _.
  eapply (safe_bind _ _ (λ _, True)); [|intros cats _; by apply safe_ret]. apply safe_times; [done|]. intros cats _.
  safe_step. safe_step; [apply safe_get|]. intros b _. by apply safe_ret.
Qed.

Lemma user_read_safe v h :
  user_converts v = false → table_inv (λ _, True) h → Safe (user_read v h) (table_inv (λ _, True)).
Proof.
  intros Hc Hh. unfold user_read. safe_step. cbv zeta. safe_step. intros buf _. eapply safe_bind; [apply name_safe|].
  intros key _. eapply (safe_bind _ _ (λ _, True)).
  { destruct (is_kern v).
    - safe_step; [apply safe_ebitmap|]. intros e _. by apply safe_ret.
    - safe_step. unfold role_set_read. safe_step; [apply safe_ebitmap|]. intros e _. apply safe_get_ret. }
  intros roles _. eapply (safe_bind _ _ (λ _, True)); [|intros [[[? ?] ?] ?] _; by apply add_symbol_safe].
  unfold user_levels_read, user_converts in *. destruct (user_expanded v); cbn [andb] in Hc.
  - safe_step; [apply safe_range|]. intros r _. safe_step; [apply safe_level|]. intros l _. rewrite Hc. by apply safe_ret.
  - destruct (user_semantic v); [|by apply safe_ret]. safe_step.
    { unfold mls_read_semantic_range_helper. eapply safe_bind; [apply safe_sem_level|]. intros l0 _.
      eapply safe_bind; [apply safe_sem_level|]. intros l1 _. by apply (safe_ret _ (λ _, True)). }
    intros r _. safe_step; [apply safe_sem_level|]. intros l _. by apply safe_ret.
Qed.

(** C15: the readers of commons, classes, roles, types and, for files other
    than modules of version 5, users are defined on arbitrary bytes and
    whatever the allocator answers: they read nothing out
    of bounds, end, and fail with a negative code or leave a well-formed table.
    Every constraint a class gets is the reverse polish form of an expression
    that fits the stack of [constraint_expr_eval_reason], so that evaluating
    it never under- or overflows.  In a module of version 5 the ranges of a
    user are converted by [mls_range_to_semantic], which is not safe. *)
Theorem symbol_readers_safe v tc hco hcl hro hty hus :
  ht_struct tc → user_converts v = false →
  table_inv (λ _, True) hco → table_inv class_evaluable hcl → table_inv (λ _, True) hro →
  table_inv (λ _, True) hty → table_inv (λ _, True) hus →
  Safe (common_read hco) (table_inv (λ _, True)) ∧
  Safe (class_read v (Some tc) hcl) (table_inv class_evaluable) ∧
  Safe (role_read v hro) (table_inv (λ _, True)) ∧
  Safe (type_read v hty) (table_inv (λ _, True)) ∧
  Safe (user_read v hus) (table_inv (λ _, True)).
Proof.
  intros. split_and!; auto using common_read_safe, class_read_safe, role_read_safe, type_read_safe, user_read_safe.
Qed.

Lemma symbol_readers_safe_witness :
  Safe (class_read (WriteParams POLICY_KERN 30 SEPOL_TARGET_SELINUX) (Some (Hashtab [[]] 1 0 symhash symcmp))
          (Some (Hashtab [[]] 1 0 symhash symcmp))) (table_inv class_evaluable).
Proof.
  assert (∀ D, ht_wf (Hashtab (K := string) (D := D) [[]] 1 0 symhash symcmp)) as Hwf.
  { intros D. destruct (ex_symtab_ok (D := D) (λ _ _, True) [] 0) as (_ & t & Ht & Hw & _);
      [constructor|constructor|done..|]. by injection Ht as <-. }
  assert (∀ D (P : D → Prop), table_inv P (Some (Hashtab (K := string) (D := D) [[]] 1 0 symhash symcmp))) as Hinv.
  { intros D P. by eexists. }
  by apply (symbol_readers_safe (WriteParams POLICY_KERN 30 SEPOL_TARGET_SELINUX)
    (Hashtab [[]] 1 0 symhash symcmp) _ _ _ _ _ (proj1 (Hwf _)) eq_refl (Hinv _ _) (Hinv _ _) (Hinv _ _) (Hinv _ _) (Hinv _ _)).
Defined.

(** * Names of length 2^32 - 1 *)

Definition stream (bs : list N) : policy_file := PolicyFile PF_USE_STDIO [] [] 0 (StdioFile bs [] 0).

Lemma get_stream {B} (bs rest : list N) n (k : list N → io B) o :
  N.of_nat (length bs) = n → 0 < n → (buf ← get n; k buf) (stream (bs ++ rest)) o = k bs (stream rest) o.
Proof.
  intros Hl Hn. rewrite io_bind_run. unfold get. rewrite bind_run. unfold next_entry, stream. cbn [pf_kind pf_fp].
  unfold fread. cbn [f_unread]. rewrite (proj2 (N.ltb_lt _ _) Hn).
  rewrite (proj2 (N.leb_le _ _)) by (rewrite length_app; lia). cbn [andb].
  rewrite <- Hl, Nat2N.id, take_app_length, drop_app_length. done.
Qed.

Lemma alloc_run {B} (m : io B) fp : (_ ← alloc (-1); m) fp [] = m fp [].
Proof. done. Qed.

Lemma long_name_overflow {B} b rest (k : string → io B) :
  (x ← get_string (u32 (UINT_MAX + 1)) UINT_MAX; k x) (stream (b :: rest)) [] = UB.
Proof.
  assert (fits (u32 (UINT_MAX + 1)) UINT_MAX (stream (b :: rest)) [] = UB) as H.
  { unfold fits. change (u32 (UINT_MAX + 1)) with 0. rewrite (proj2 (N.leb_gt _ _)); [done|].
    unfold stored, stream, UINT_MAX. cbn [pf_kind pf_fp f_unread length]. lia. }
  rewrite io_bind_run. unfold get_string. by rewrite alloc_run, io_bind_run, H.
Qed.

(** The readers of Booleans, sensitivities, categories and file name
    transitions compute the size of a name in 32 bits.  When a stream declares a
    name of 4294967295 bytes, [malloc(len + 1)] is asked for none, and
    [next_entry] stores what follows in the stream, at least one byte, behind
    the end of the allocation. *)
Theorem name_length_overflow v val st alias hb hs hc b rest :
  val < 2 ^ 32 → st < 2 → alias < 2 ^ 32 →
  cond_read_bool v hb (stream (words [val; st; UINT_MAX] ++ b :: rest)) [] = UB ∧
  sens_read hs (stream (words [UINT_MAX; alias] ++ b :: rest)) [] = UB ∧
  cat_read hc (stream (words [UINT_MAX; val; alias] ++ b :: rest)) [] = UB ∧
  filename_trans_read (stream (words [1] ++ words [UINT_MAX] ++ b :: rest)) [] = UB.
Proof.
  intros Hv Hs Ha. assert (st < 2 ^ 32) by lia. assert (UINT_MAX < 2 ^ 32) as Hmax by done.
  split; [|split; [|split]].
  - unfold cond_read_bool. rewrite alloc_run, get_stream by done. cbv zeta. word_at.
    assert (bool_isvalid (CondBoolDatum val (s32 st) 0) = true) as ->.
    { assert (st = 0 ∨ st = 1) as [-> | ->] by lia; done. }
    cbn [negb]. apply long_name_overflow.
  - unfold sens_read. rewrite alloc_run, get_stream by done. cbv zeta. word_at. apply long_name_overflow.
  - unfold cat_read. rewrite alloc_run, get_stream by done. cbv zeta. word_at. apply long_name_overflow.
  - unfold filename_trans_read. rewrite get_stream by done. word_at. unfold io_read_list.
    change (N.to_nat 1) with 1%nat. cbn [io_times]. rewrite io_bind_run, io_bind_run, alloc_run, get_stream by done.
    cbv zeta. word_at. by rewrite long_name_overflow.
Qed.

Lemma name_length_overflow_witness :
  cat_read (Some (Hashtab [[]] 1 0 symhash symcmp)) (stream (words [UINT_MAX; 1; 0] ++ [7])) [] = UB.
Proof.
  by apply (name_length_overflow (WriteParams POLICY_KERN 30 SEPOL_TARGET_SELINUX) 1 0 0 None None
              (Some (Hashtab [[]] 1 0 symhash symcmp)) 7 []).
Defined.
