(* ===== verification/Ocontext.v ===== *)
(** Object contexts: the labels a policy gives to initial SIDs, ports, network
    interfaces, nodes, file systems and files without labels of their own.
    Their readers and writers (libsepol/src/policydb.c [ocontext_read],
    [genfs_read]; libsepol/src/write.c [ocontext_write], [genfs_write]) and the
    lookups of the security server (libsepol/src/services.c).

    [p->ocontexts] is an array of lists.  The union [u] of [ocontext_t] is a sum;
    code that reads a member that was not written has no result. *)

From stdpp Require Import sorting.
From S2P Require Import Prelude Ebitmap PolicyFile Hashtab MlsTypes Sidtab Avtab Policydb Mls Context PolicyIO SymbolIO SymbolSafety.
Local Open Scope N_scope.

(** * Data *)

(** Addresses of nodes are kept in network order: the bytes as they are. *)
Inductive ocontext_u :=
  | UNone
  | UName (name : string)
  | UPort (protocol low_port high_port : N)
  | UNode (addr mask : list N)
  | UNode6 (addr mask : list N)
  | UDevice (device : N)
  | UPirq (pirq : N)
  | UIomem (low_iomem high_iomem : N)
  | UIoport (low_ioport high_ioport : N).

Record ocontext := Ocontext {
  oc_u : ocontext_u; oc_v : N; oc_context0 : context_struct; oc_context1 : context_struct;
  oc_sid0 : N; oc_sid1 : N }.

Record genfs := Genfs { fstype : string; gf_head : list ocontext }.

Definition SEPOL_TARGET_XEN : N := 1.
Definition POLICYDB_VERSION_XEN_DEVICETREE : N := 30.
Definition OCON_ISID : N := 0.
Definition OCON_FS : N := 1.
Definition OCON_PORT : N := 2.
Definition OCON_NETIF : N := 3.
Definition OCON_NODE : N := 4.
Definition OCON_FSUSE : N := 5.
Definition OCON_NODE6 : N := 6.
Definition OCON_XEN_ISID : N := 0.
Definition OCON_XEN_PIRQ : N := 1.
Definition OCON_XEN_IOPORT : N := 2.
Definition OCON_XEN_IOMEM : N := 3.
Definition OCON_XEN_PCIDEVICE : N := 4.
Definition OCON_XEN_DEVICETREE : N := 5.

(** * Writing *)

Definition put_name (s : string) : io unit := _ ← put_words [strlen s]; put_string s.

(** The body of the [switch (i)] of [ocontext_write_selinux]. *)
Definition ocontext_write_selinux_one (v : write_params) (i : N) (c : ocontext) : io unit :=
  if i =? OCON_ISID then
    _ ← put_words [oc_sid0 c]; context_write v (oc_context0 c)
  else if (i =? OCON_FS) || (i =? OCON_NETIF) then
    match oc_u c with
    | UName name => _ ← put_name name; _ ← context_write v (oc_context0 c); context_write v (oc_context1 c)
    | _ => io_lift ub
    end
  else if i =? OCON_PORT then
    match oc_u c with
    | UPort protocol low high => _ ← put_words [protocol; low; high]; context_write v (oc_context0 c)
    | _ => io_lift ub
    end
  else if i =? OCON_NODE then
    match oc_u c with
    | UNode addr mask => _ ← put (addr ++ mask) 4 2; context_write v (oc_context0 c)
    | _ => io_lift ub
    end
  else if i =? OCON_FSUSE then
    match oc_u c with
    | UName name => _ ← put_words [oc_v c; strlen name]; _ ← put_string name; context_write v (oc_context0 c)
    | _ => io_lift ub
    end
  else if i =? OCON_NODE6 then
    match oc_u c with
    | UNode6 addr mask => _ ← put (addr ++ mask) 4 8; context_write v (oc_context0 c)
    | _ => io_lift ub
    end
  else mret tt.

Definition words64 (ws : list N) : list N := ws ≫= cpu_to_le64.

Definition ocontext_write_xen_one (v : write_params) (i : N) (c : ocontext) : io unit :=
  if i =? OCON_XEN_ISID then
    _ ← put_words [oc_sid0 c]; context_write v (oc_context0 c)
  else if i =? OCON_XEN_PIRQ then
    match oc_u c with
    | UPirq pirq => _ ← put_words [pirq]; context_write v (oc_context0 c)
    | _ => io_lift ub
    end
  else if i =? OCON_XEN_IOPORT then
    match oc_u c with
    | UIoport low high => _ ← put_words [low; high]; context_write v (oc_context0 c)
    | _ => io_lift ub
    end
  else if i =? OCON_XEN_IOMEM then
    match oc_u c with
    | UIomem low high =>
        _ ← (if POLICYDB_VERSION_XEN_DEVICETREE <=? policyvers v then put (words64 [low; high]) 8 2
             else if UINT_MAX <? high then io_fail POLICYDB_ERROR
             else put_words [u32 low; u32 high]);
        context_write v (oc_context0 c)
    | _ => io_lift ub
    end
  else if i =? OCON_XEN_PCIDEVICE then
    match oc_u c with
    | UDevice device => _ ← put_words [device]; context_write v (oc_context0 c)
    | _ => io_lift ub
    end
  else if i =? OCON_XEN_DEVICETREE then
    match oc_u c with
    | UName name => _ ← put_name name; context_write v (oc_context0 c)
    | _ => io_lift ub
    end
  else mret tt.

Definition ocontext_write_one (v : write_params) : N → ocontext → io unit :=
  if target_platform v =? SEPOL_TARGET_SELINUX then ocontext_write_selinux_one v else ocontext_write_xen_one v.

(** The loop over [p->ocontexts[i]]. *)
Definition ocontext_write (v : write_params) (ocon_num : N) (oc : list (list ocontext)) : io unit :=
  if (target_platform v =? SEPOL_TARGET_SELINUX) || (target_platform v =? SEPOL_TARGET_XEN) then
    io_list (λ i,
      l ← io_lift (deref (oc !! N.to_nat i));
      _ ← put_words [N.of_nat (length l)];
      io_list (ocontext_write_one v i) l) (seqN 0 (N.to_nat ocon_num))
  else io_fail POLICYDB_ERROR.

Definition genfs_write (v : write_params) (g : list genfs) : io unit :=
  _ ← put_words [N.of_nat (length g)];
  io_list (λ gf,
    _ ← put_name (fstype gf);
    _ ← put_words [N.of_nat (length (gf_head gf))];
    io_list (λ c,
      match oc_u c with
      | UName name =>
          _ ← put_name name; _ ← put_words [oc_v c]; context_write v (oc_context0 c)
      | _ => io_lift ub
      end) (gf_head gf)) g.

(** * Reading *)

Definition get_name : io string := buf ← get 4; get_string (le32_at buf 0 + 1) (le32_at buf 0).

Section reading.
Context (v : write_params) (p : policydb).

Definition get_context : io context_struct := or_rc (-1) (context_read_and_validate context_init v p).

Definition ocontext_read_selinux_one (i : N) : io ocontext :=
  _ ← alloc (-1);
  if i =? OCON_ISID then
    buf ← get 4; c ← get_context; mret (Ocontext UNone 0 c context_init (le32_at buf 0) 0)
  else if (i =? OCON_FS) || (i =? OCON_NETIF) then
    name ← get_name; c0 ← get_context; c1 ← get_context; mret (Ocontext (UName name) 0 c0 c1 0 0)
  else if i =? OCON_PORT then
    buf ← get 12;
    c ← get_context;
    mret (Ocontext (UPort (u8 (le32_at buf 0)) (u16 (le32_at buf 1)) (u16 (le32_at buf 2))) 0 c context_init 0 0)
  else if i =? OCON_NODE then
    buf ← get 8; c ← get_context; mret (Ocontext (UNode (take 4 buf) (drop 4 buf)) 0 c context_init 0 0)
  else if i =? OCON_FSUSE then
    buf ← get 8;
    name ← get_string (le32_at buf 1 + 1) (le32_at buf 1);
    c ← get_context;
    mret (Ocontext (UName name) (le32_at buf 0) c context_init 0 0)
  else if i =? OCON_NODE6 then
    buf ← get 32; c ← get_context; mret (Ocontext (UNode6 (take 16 buf) (drop 16 buf)) 0 c context_init 0 0)
  else io_fail (-1).

Definition ocontext_read_xen_one (i : N) : io ocontext :=
  _ ← alloc (-1);
  if i =? OCON_XEN_ISID then
    buf ← get 4; c ← get_context; mret (Ocontext UNone 0 c context_init (le32_at buf 0) 0)
  else if i =? OCON_XEN_PIRQ then
    buf ← get 4; c ← get_context; mret (Ocontext (UPirq (u16 (le32_at buf 0))) 0 c context_init 0 0)
  else if i =? OCON_XEN_IOPORT then
    buf ← get 8; c ← get_context; mret (Ocontext (UIoport (le32_at buf 0) (le32_at buf 1)) 0 c context_init 0 0)
  else if i =? OCON_XEN_IOMEM then
    '(low, high) ← (if POLICYDB_VERSION_XEN_DEVICETREE <=? policyvers v
                    then b64 ← get 16; mret (le64_at b64 0, le64_at b64 1)
                    else buf ← get 8; mret (le32_at buf 0, le32_at buf 1));
    c ← get_context;
    mret (Ocontext (UIomem low high) 0 c context_init 0 0)
  else if i =? OCON_XEN_PCIDEVICE then
    buf ← get 4; c ← get_context; mret (Ocontext (UDevice (le32_at buf 0)) 0 c context_init 0 0)
  else if i =? OCON_XEN_DEVICETREE then
    name ← get_name; c ← get_context; mret (Ocontext (UName name) 0 c context_init 0 0)
  else io_fail (-1).

Definition ocontext_read_one (i : N) : io ocontext :=
  if target_platform v =? SEPOL_TARGET_SELINUX then ocontext_read_selinux_one i else ocontext_read_xen_one i.

Definition ocontext_read (ocon_num : N) : io (list (list ocontext)) :=
  if (target_platform v =? SEPOL_TARGET_SELINUX) || (target_platform v =? SEPOL_TARGET_XEN) then
    io_map (λ i, buf ← get 4; io_read_list (le32_at buf 0) (ocontext_read_one i)) (seqN 0 (N.to_nat ocon_num))
  else io_fail (-1).

(** The name of an entry of a file system. *)
Definition oc_name (c : ocontext) : M string := match oc_u c with UName s => mret s | _ => ub end.

(** A new file system goes before the first with a greater name. *)
Fixpoint insert_fstype (g : list genfs) (new : string) : option (list genfs * list genfs) :=
  match g with
  | [] => Some ([], [])
  | gf :: g' =>
      if (strcmp new (fstype gf) =? 0)%Z then None
      else if (strcmp new (fstype gf) <? 0)%Z then Some ([], g)
      else '(pre, post) ← insert_fstype g' new; Some (gf :: pre, post)
  end.

(** A new entry goes before the first with a shorter name; [None] is a
    duplicate. *)
Fixpoint insert_entry (l : list ocontext) (name : string) (sclass : N) (new : ocontext) : M (option (list ocontext)) :=
  match l with
  | [] => mret (Some [new])
  | c :: l' =>
      n ← oc_name c;
      if (strcmp name n =? 0)%Z && ((oc_v c =? 0) || (sclass =? 0) || (sclass =? oc_v c)) then mret None
      else if strlen n <? strlen name then mret (Some (new :: l))
      else r ← insert_entry l' name sclass new; mret (cons c <$> r)
  end.

Definition genfs_entry_read (l : list ocontext) : io (list ocontext) :=
  _ ← alloc (-1);
  name ← get_name;
  buf ← get 4;
  let sclass := le32_at buf 0 in
  c ← get_context;
  r ← io_lift (insert_entry l name sclass (Ocontext (UName name) sclass c context_init 0 0));
  match r with None => io_fail (-1) | Some l => mret l end.

Definition genfs_one_read (g : list genfs) : io (list genfs) :=
  buf ← get 4;
  _ ← alloc (-1);
  fs ← get_string (le32_at buf 0 + 1) (le32_at buf 0);
  match insert_fstype g fs with
  | None => io_fail (-1)
  | Some (pre, post) =>
      buf ← get 4;
      l ← io_times (N.to_nat (le32_at buf 0)) genfs_entry_read [];
      mret (pre ++ Genfs fs l :: post)
  end.

Definition genfs_read (g : list genfs) : io (list genfs) :=
  buf ← get 4; io_times (N.to_nat (le32_at buf 0)) genfs_one_read g.

End reading.

(** * Formats *)

Lemma reads_pure {A} (m : M A) a : (∀ o, m o = Ret a o) → Reads (io_lift m) [] (λ x, x = a).
Proof. intros Hm. apply reads_lift. intros o. unfold wp. by rewrite Hm. Qed.

Definition name_bytes (s : string) : list N := words [strlen s] ++ string_bytes s.

#[global] Instance name_codec : Codec put_name get_name name_bytes name_ok id.
Proof.
  split; intros s Hs; unfold name_bytes.
  - unfold put_name. writes.
  - unfold get_name. pose proof (name_u32s _ Hs). reads_step. word_at. apply reads_string; auto.
Qed.

Lemma get_name_reads s : name_ok s → Reads get_name (name_bytes s) (λ x, x = s).
Proof. exact (codec_reads s). Qed.
#[export] Hint Resolve get_name_reads : codec.

Lemma get_context_reads v p c : context_ok v p c → Reads (get_context v p) (context_bytes v c) (λ x, x = context_norm v c).
Proof. intros Hc. apply reads_or_rc; [done|]. exact (codec_reads _ Hc). Qed.

(** What stands before the contexts, for each kind of entry. *)
Definition u_bytes (v : write_params) (u : ocontext_u) : list N :=
  match u with
  | UNone => []
  | UName s => name_bytes s
  | UPort protocol low high => words [protocol; low; high]
  | UNode addr mask | UNode6 addr mask => addr ++ mask
  | UDevice d => words [d]
  | UPirq d => words [d]
  | UIomem low high =>
      if POLICYDB_VERSION_XEN_DEVICETREE <=? policyvers v then words64 [low; high] else words [low; high]
  | UIoport low high => words [low; high]
  end.

Definition bytes_of (n : N) (l : list N) : Prop := N.of_nat (length l) = n.

(** The widths of the C types, and of the format where it is narrower. *)
Definition u_ok (v : write_params) (u : ocontext_u) : Prop :=
  match u with
  | UNone => True
  | UName s => name_ok s
  | UPort protocol low high => protocol < 2 ^ 8 ∧ low < 2 ^ 16 ∧ high < 2 ^ 16
  | UNode addr mask => bytes_of 4 addr ∧ bytes_of 4 mask
  | UNode6 addr mask => bytes_of 16 addr ∧ bytes_of 16 mask
  | UDevice d => d < 2 ^ 32
  | UPirq d => d < 2 ^ 16
  | UIomem low high =>
      let w := if POLICYDB_VERSION_XEN_DEVICETREE <=? policyvers v then 64 else 32 in low < 2 ^ w ∧ high < 2 ^ w
  | UIoport low high => low < 2 ^ 32 ∧ high < 2 ^ 32
  end.

(** The member of [u] that the entries of [ocontexts[i]] use. *)
Definition kind_u (xen : bool) (i : N) (u : ocontext_u) : bool :=
  match u with
  | UNone => i =? OCON_ISID
  | UName _ => if xen then i =? OCON_XEN_DEVICETREE else (i =? OCON_FS) || (i =? OCON_NETIF) || (i =? OCON_FSUSE)
  | UPort _ _ _ => negb xen && (i =? OCON_PORT)
  | UNode _ _ => negb xen && (i =? OCON_NODE)
  | UNode6 _ _ => negb xen && (i =? OCON_NODE6)
  | UDevice _ => xen && (i =? OCON_XEN_PCIDEVICE)
  | UPirq _ => xen && (i =? OCON_XEN_PIRQ)
  | UIomem _ _ => xen && (i =? OCON_XEN_IOMEM)
  | UIoport _ _ => xen && (i =? OCON_XEN_IOPORT)
  end.

Definition is_xen (v : write_params) : bool := negb (target_platform v =? SEPOL_TARGET_SELINUX).
Definition two_contexts (v : write_params) (i : N) : bool :=
  negb (is_xen v) && ((i =? OCON_FS) || (i =? OCON_NETIF)).
Definition has_behavior (v : write_params) (i : N) : bool := negb (is_xen v) && (i =? OCON_FSUSE).

Definition ocon_bytes (v : write_params) (i : N) (c : ocontext) : list N :=
  (if i =? OCON_ISID then words [oc_sid0 c] else if has_behavior v i then words [oc_v c] else []) ++
  u_bytes v (oc_u c) ++ context_bytes v (oc_context0 c) ++
  (if two_contexts v i then context_bytes v (oc_context1 c) else []).

Definition ocon_ok (v : write_params) (p : policydb) (i : N) (c : ocontext) : Prop :=
  kind_u (is_xen v) i (oc_u c) = true ∧ u_ok v (oc_u c) ∧ u32s [oc_v c] ∧ u32s [oc_sid0 c] ∧
  context_ok v p (oc_context0 c) ∧ (two_contexts v i = true → context_ok v p (oc_context1 c)).

(** The fields that the entries of [ocontexts[i]] do not use are cleared. *)
Definition ocon_norm (v : write_params) (i : N) (c : ocontext) : ocontext :=
  Ocontext (oc_u c) (if has_behavior v i then oc_v c else 0) (context_norm v (oc_context0 c))
    (if two_contexts v i then context_norm v (oc_context1 c) else context_init)
    (if i =? OCON_ISID then oc_sid0 c else 0) 0.

Lemma le64_at_words64 a b : a < 2 ^ 64 → b < 2 ^ 64 →
  le64_at (words64 [a; b]) 0 = a ∧ le64_at (words64 [a; b]) 1 = b.
Proof.
  intros Ha Hb. unfold words64. rewrite !bind_cons. split; [by apply le64_at_0|].
  unfold le64_at. rewrite drop_app_length' by (symmetry; apply length_le_split). by apply (le64_at_0 b).
Qed.

Lemma length_words64 a b : length (words64 [a; b]) = 16%nat.
Proof. done. Qed.

(** The kinds of entries one by one: [i] and the member of the union become
    concrete, and so do the comparisons of kinds. *)
Ltac eval_kinds :=
  repeat match goal with
  | |- context [?a =? ?b] => is_const a; is_const b; let r := eval vm_compute in (a =? b) in change (a =? b) with r
  | H : context [?a =? ?b] |- _ =>
      is_const a; is_const b; let r := eval vm_compute in (a =? b) in change (a =? b) with r in H
  end; cbn [negb andb orb] in *; cbv iota.

Ltac ocon_kinds :=
  match goal with H : kind_u _ ?i ?u = true |- _ =>
    destruct u; cbn [kind_u negb andb] in H; try discriminate H; reflect_bools;
    repeat match goal with K : _ ∨ _ |- _ => destruct K end; subst i
  end; eval_kinds.

Lemma ocon_writes v p i c : ocon_ok v p i c → Writes (ocontext_write_one v i c) (ocon_bytes v i c).
Proof.
  destruct c as [u w c0 c1 s0 s1].
  unfold ocon_ok, ocon_bytes, ocontext_write_one, has_behavior, two_contexts, is_xen; cbn [oc_u oc_v oc_context0 oc_context1 oc_sid0].
  intros (Hk & Hu & Hw & Hs & H0 & H1). pose proof (codec_writes _ H0) as W0.
  destruct (target_platform v =? SEPOL_TARGET_SELINUX);
    unfold ocontext_write_selinux_one, ocontext_write_xen_one; ocon_kinds;
    cbn [oc_u oc_v oc_context0 oc_context1 oc_sid0 u_bytes u_ok app] in *;
    rewrite ?app_nil_r; try (pose proof (codec_writes _ (H1 eq_refl))); try solve [writes].
  all: try solve [repeat (apply writes_bind; [first [by apply codec_writes|apply writes_words]|]); by apply codec_writes].
  - unfold name_bytes. rewrite app_assoc, app_assoc, <- words_app, <- app_assoc. writes.
  - destruct Hu. apply writes_bind; [apply writes_put; [done|]; rewrite length_app; unfold bytes_of in *; lia|done].
  - destruct Hu. apply writes_bind; [apply writes_put; [done|]; rewrite length_app; unfold bytes_of in *; lia|done].
  - apply writes_bind; [|done]. destruct (_ <=? policyvers v); [by apply writes_put|].
    destruct Hu as [Hl Hh]. rewrite (proj2 (N.ltb_ge _ _)), !u32_small by (unfold UINT_MAX; lia). apply writes_words.
Qed.

Lemma ocon_reads v p i c :
  ocon_ok v p i c → Reads (ocontext_read_one v p i) (ocon_bytes v i c) (λ x, x = ocon_norm v i c).
Proof.
  destruct c as [u w c0 c1 s0 s1].
  unfold ocon_ok, ocon_bytes, ocon_norm, ocontext_read_one, has_behavior, two_contexts, is_xen;
    cbn [oc_u oc_v oc_context0 oc_context1 oc_sid0].
  intros (Hk & Hu & Hw & Hs & H0 & H1). pose proof (get_context_reads _ _ _ H0) as R0.
  destruct (target_platform v =? SEPOL_TARGET_SELINUX);
    unfold ocontext_read_selinux_one, ocontext_read_xen_one; (eapply reads_bind_nil; [by apply reads_alloc|intros _ _]); ocon_kinds;
    cbn [oc_u oc_v oc_context0 oc_context1 oc_sid0 u_bytes u_ok app] in *;
    rewrite ?app_nil_r; try (pose proof (get_context_reads _ _ _ (H1 eq_refl))).
  all: try (do 2 reads_step; word_at; by reads_step).
  all: try (do 2 reads_step; by reads_step).
  all: try (do 3 reads_step; by reads_step).
  - unfold name_bytes. rewrite app_assoc, app_assoc, <- words_app, <- app_assoc. cbn [app].
    assert (u32s [w; strlen name]) by (inversion Hw; pose proof (name_u32s _ Hu) as Hn; inversion Hn; by repeat constructor).
    reads_step. word_at. eapply reads_bind_eq; [apply reads_string; auto|]. do 2 reads_step. done.
  - destruct Hu as (H8 & Hl & Hh). assert (u32s [protocol; low_port; high_port]) by (repeat constructor; lia).
    reads_step. word_at. unfold u8, u16. rewrite !N.mod_small by done. by do 2 reads_step.
  - destruct Hu as [Ha Hm]. unfold bytes_of in *. eapply reads_bind_eq; [apply reads_get; [rewrite length_app; lia|done]|].
    rewrite take_app_length', drop_app_length' by lia. by do 2 reads_step.
  - destruct Hu as [Ha Hm]. unfold bytes_of in *. eapply reads_bind_eq; [apply reads_get; [rewrite length_app; lia|done]|].
    rewrite take_app_length', drop_app_length' by lia. by do 2 reads_step.
  - assert (u32s [pirq]) by (repeat constructor; lia).
    reads_step. word_at. unfold u16. rewrite !N.mod_small by done. by do 2 reads_step.
  - destruct Hu as [Hl Hh]. eapply (reads_bind_eq _ _ _ _ (low_iomem, high_iomem)); [|by do 2 reads_step].
    destruct (_ <=? policyvers v).
    + destruct (le64_at_words64 low_iomem high_iomem Hl Hh) as [E0 E1]. rewrite <- (app_nil_r (words64 _)).
      eapply reads_bind_eq; [by apply reads_get|]. rewrite E0, E1. by reads_step.
    + assert (u32s [low_iomem; high_iomem]) by (by repeat constructor). reads_step. word_at. by reads_step.
  - destruct Hu as [Hl Hh]. assert (u32s [low_ioport; high_ioport]) by (by repeat constructor).
    reads_step. word_at. by do 2 reads_step.
Qed.

#[global] Instance ocon_codec v p i :
  Codec (ocontext_write_one v i) (ocontext_read_one v p i) (ocon_bytes v i) (ocon_ok v p i) (ocon_norm v i).
Proof. split; [apply ocon_writes|apply ocon_reads]. Qed.

(** All of [p->ocontexts]: for each kind a count and the entries. *)
Definition ocontexts_bytes (v : write_params) (oc : list (list ocontext)) (ocon_num : N) : list N :=
  seqN 0 (N.to_nat ocon_num) ≫= λ i, list_bytes (ocon_bytes v i) (default [] (oc !! N.to_nat i)).

Definition ocontexts_ok (v : write_params) (p : policydb) (ocon_num : N) (oc : list (list ocontext)) : Prop :=
  (target_platform v = SEPOL_TARGET_SELINUX ∨ target_platform v = SEPOL_TARGET_XEN) ∧
  ∀ i, i < ocon_num → ∃ l, oc !! N.to_nat i = Some l ∧ N.of_nat (length l) < 2 ^ 32 ∧ Forall (ocon_ok v p i) l.

Definition ocontexts_norm (v : write_params) (ocon_num : N) (oc : list (list ocontext)) : list (list ocontext) :=
  (λ i, ocon_norm v i <$> default [] (oc !! N.to_nat i)) <$> seqN 0 (N.to_nat ocon_num).

Lemma reads_map {A B} (f : A → io B) (bytes : A → list N) (g : A → B) l :
  (∀ a, a ∈ l → Reads (f a) (bytes a) (λ x, x = g a)) → Reads (io_map f l) (l ≫= bytes) (λ x, x = g <$> l).
Proof.
  induction l as [|a l IH]; intros Hf; [by apply reads_ret|]. rewrite bind_cons. cbn [io_map].
  eapply reads_bind_eq; [apply Hf; left|]. rewrite <- (app_nil_r (l ≫= bytes)).
  eapply reads_bind_eq; [apply IH; intros b Hb; apply Hf; by right|]. by apply reads_ret.
Qed.

Lemma platform_known v :
  target_platform v = SEPOL_TARGET_SELINUX ∨ target_platform v = SEPOL_TARGET_XEN →
  (target_platform v =? SEPOL_TARGET_SELINUX) || (target_platform v =? SEPOL_TARGET_XEN) = true.
Proof. by intros [-> | ->]. Qed.

#[global] Instance ocontexts_codec v p ocon_num :
  Codec (ocontext_write v ocon_num) (ocontext_read v p ocon_num) (λ oc, ocontexts_bytes v oc ocon_num)
    (ocontexts_ok v p ocon_num) (ocontexts_norm v ocon_num).
Proof.
  split; intros oc [Hv Hoc]; unfold ocontexts_bytes.
  - unfold ocontext_write. rewrite (platform_known _ Hv). apply writes_list. intros i Hi.
    destruct (Hoc i) as (l & Hl & _ & Hall); [apply elem_of_seqN in Hi; lia|]. rewrite Hl. cbn [default from_option id].
    apply (writes_lift _ _ l); [done|]. apply writes_bind; [apply writes_words|]. apply writes_list.
    intros c Hc. eapply ocon_writes, (proj1 (Forall_forall _ _) Hall); done.
  - unfold ocontext_read. rewrite (platform_known _ Hv). apply reads_map. intros i Hi.
    destruct (Hoc i) as (l & Hl & Hlen & Hall); [apply elem_of_seqN in Hi; lia|]. rewrite Hl.
    cbn [default from_option id]. unfold list_bytes. assert (u32s [N.of_nat (length l)]) by (by repeat constructor).
    reads_step. word_at. apply reads_list; [done|]. intros c Hc. by eapply ocon_reads, (proj1 (Forall_forall _ _) Hall).
Qed.

(** * The order of the file system entries

    The reader keeps the file systems in the order of their names, and the
    entries of each from long names to short ones, with at most one entry for
    a name and a class (class 0 stands for all). *)

Definition nm (c : ocontext) : string := match oc_u c with UName s => s | _ => EmptyString end.
Definition named (c : ocontext) : Prop := oc_u c = UName (nm c).
Definition conflict (a b : ocontext) : Prop := nm a = nm b ∧ (oc_v b = 0 ∨ oc_v a = 0 ∨ oc_v a = oc_v b).
Definition before (a b : ocontext) : Prop := strlen (nm b) ≤ strlen (nm a) ∧ ¬ conflict b a.
Definition fs_before (a b : genfs) : Prop := (0 < strcmp (fstype b) (fstype a))%Z.

Definition entries_wf (l : list ocontext) : Prop := Forall named l ∧ StronglySorted before l.
Definition genfs_wf (g : list genfs) : Prop :=
  StronglySorted fs_before g ∧ Forall (λ gf, entries_wf (gf_head gf)) g.

#[global] Instance conflict_dec a b : Decision (conflict a b).
Proof. unfold conflict. apply _. Defined.
#[global] Instance before_dec a b : Decision (before a b).
Proof. unfold before. apply _. Defined.
#[global] Instance named_dec c : Decision (named c).
Proof. unfold named, nm. destruct (oc_u c); first [by left|by right]. Defined.

Lemma strcmp_zero s t : (strcmp s t =? 0)%Z = true ↔ s = t.
Proof. rewrite Z.eqb_eq. apply (cmp_eq (cmp := symcmp)). Qed.

Lemma strcmp_total s t : (0 < strcmp s t)%Z ∨ s = t ∨ (0 < strcmp t s)%Z.
Proof.
  pose proof (cmp_eq (cmp := symcmp) s t) as He. pose proof (cmp_gt_lt (cmp := symcmp) t s) as Hl.
  unfold symcmp in *. destruct (Z.lt_trichotomy 0 (strcmp s t)) as [?|[?|?]]; naive_solver.
Qed.

(** Inserting into a sorted list: before the first element that [r] puts behind
    the new one. *)
Lemma sorted_insert_entry {A} (R : A → A → Prop) pre (new : A) post :
  StronglySorted R (pre ++ post) → Forall (λ a, R a new) pre → Forall (R new) post →
  StronglySorted R (pre ++ new :: post).
Proof.
  induction pre as [|a pre IH]; cbn; intros Hs Hpre Hpost; [by constructor|].
  apply StronglySorted_inv in Hs as [Hs Ha]. apply Forall_cons in Hpre as [Han Hpre].
  constructor; [by apply IH|]. apply Forall_app in Ha as [Ha1 Ha2]. apply Forall_app. split; [done|]. by constructor.
Qed.

Definition dup_test (name : string) (sclass : N) (c : ocontext) : bool :=
  (strcmp name (nm c) =? 0)%Z && ((oc_v c =? 0) || (sclass =? 0) || (sclass =? oc_v c)).

Lemma dup_test_spec new c : dup_test (nm new) (oc_v new) c = true ↔ conflict new c.
Proof.
  unfold dup_test, conflict. rewrite andb_true_iff, strcmp_zero, !orb_true_iff, !N.eqb_eq. tauto.
Qed.

Lemma oc_name_named c o : named c → oc_name c o = Ret (nm c) o.
Proof. unfold named, oc_name. by intros ->. Qed.

Lemma insert_entry_spec l new o :
  Forall named l → ∃ r, insert_entry l (nm new) (oc_v new) new o = Ret r o ∧
    match r with
    | None => ∃ c, c ∈ l ∧ conflict new c
    | Some l' => ∃ pre post, l = pre ++ post ∧ l' = pre ++ new :: post ∧
        Forall (λ c, strlen (nm new) ≤ strlen (nm c) ∧ ¬ conflict new c) pre ∧
        match post with c :: _ => strlen (nm c) < strlen (nm new) | [] => True end
    end.
Proof.
  induction 1 as [|c l Hc _ IH]; [exists (Some [new]); split; [done|]; by exists [], []|].
  cbn [insert_entry]. rewrite bind_run, oc_name_named by done. fold (dup_test (nm new) (oc_v new) c).
  destruct (dup_test _ _ c) eqn:Ed.
  { exists None. split; [done|]. exists c. split; [left|by apply dup_test_spec]. }
  destruct (strlen (nm c) <? strlen (nm new)) eqn:El; reflect_bools.
  { exists (Some (new :: c :: l)). split; [done|]. by exists [], (c :: l). }
  destruct IH as (r & Hr & Hpost). exists (cons c <$> r). rewrite bind_run, Hr. split; [done|].
  destruct r as [l'|]; cbn.
  - destruct Hpost as (pre & post & -> & -> & Hpre & Hnext). exists (c :: pre), post. split_and!; try done.
    constructor; [|done]. split; [done|]. intros Hx. apply dup_test_spec in Hx. congruence.
  - destruct Hpost as (x & Hx & Hcx). exists x. split; [by right|done].
Qed.

(** Behind the first shorter name every name is shorter. *)
Lemma shorter_all n l :
  StronglySorted before l → match l with c :: _ => strlen (nm c) < n | [] => True end →
  Forall (λ c, strlen (nm c) < n) l.
Proof.
  intros Hs. destruct Hs as [|c l Hs Hc]; intros Hn; constructor; [done|].
  eapply Forall_impl; [exact Hc|]. intros d [? _]. lia.
Qed.

Lemma insert_entry_wf l new o :
  named new → entries_wf l → ∃ r, insert_entry l (nm new) (oc_v new) new o = Ret r o ∧
    match r with
    | None => ∃ c, c ∈ l ∧ conflict new c
    | Some l' => entries_wf l' ∧ l' ≡ₚ new :: l ∧ Forall (λ c, ¬ conflict new c) l
    end.
Proof.
  intros Hn [Hl Hs]. destruct (insert_entry_spec l new o Hl) as (r & Hr & Hpost). exists r. split; [done|].
  destruct r as [l'|]; [|done]. destruct Hpost as (pre & post & -> & -> & Hpre & Hnext).
  apply Forall_app in Hl as [Hl1 Hl2].
  assert (Forall (λ c, strlen (nm c) < strlen (nm new)) post) as Hpost.
  { apply shorter_all; [|done]. revert Hs. clear. induction pre as [|a pre IH]; [done|]. intros Hs.
    apply IH. cbn in Hs. by apply StronglySorted_inv in Hs as [? _]. }
  assert (∀ c, strlen (nm c) < strlen (nm new) → ¬ conflict new c ∧ ¬ conflict c new) as Hsh.
  { intros c Hc. split; intros [E _]; rewrite E in Hc; lia. }
  split; [split|split].
  - apply Forall_app. split; [done|]. by constructor.
  - apply sorted_insert_entry; [done| |].
    + eapply Forall_impl; [exact Hpre|]. intros c [? Hc]. by split.
    + eapply Forall_impl; [exact Hpost|]. intros c Hc. cbn beta in Hc. split; [lia|]. by apply Hsh.
  - by rewrite Permutation_middle.
  - apply Forall_app. split; (eapply Forall_impl; [eassumption|]); cbn; [by intros c []|]. intros c Hc. by apply Hsh.
Qed.

Lemma insert_fstype_spec g new :
  StronglySorted fs_before g →
  match insert_fstype g new with
  | None => ∃ gf, gf ∈ g ∧ fstype gf = new
  | Some (pre, post) => g = pre ++ post ∧ Forall (λ gf, (0 < strcmp new (fstype gf))%Z) pre ∧
      Forall (λ gf, (0 < strcmp (fstype gf) new)%Z) post
  end.
Proof.
  induction 1 as [|gf g Hs IH Hgf]; [done|]. cbn [insert_fstype].
  destruct (strcmp new (fstype gf) =? 0)%Z eqn:E0.
  { exists gf. split; [left|]. symmetry. by apply strcmp_zero. }
  destruct (Z.ltb_spec (strcmp new (fstype gf)) 0) as [E1|E1].
  - split; [done|]. split; [constructor|]. assert (0 < strcmp (fstype gf) new)%Z as Hlt.
    { by apply (proj2 (cmp_gt_lt (cmp := symcmp) _ _)). }
    constructor; [done|]. eapply Forall_impl; [exact Hgf|]. intros x Hx.
    exact (cmp_trans (cmp := symcmp) _ _ _ Hx Hlt).
  - apply Z.eqb_neq in E0. destruct (insert_fstype g new) as [[pre post]|]; cbn.
    + destruct IH as (-> & Hpre & Hpost). split; [done|]. split; [|done]. constructor; [lia|done].
    + destruct IH as (x & Hx & Hn). exists x. split; [by right|done].
Qed.

Lemma genfs_insert_wf g fs pre post l :
  genfs_wf g → insert_fstype g fs = Some (pre, post) → entries_wf l → genfs_wf (pre ++ Genfs fs l :: post).
Proof.
  intros [Hs Hall] Hi Hl. pose proof (insert_fstype_spec g fs Hs) as H. rewrite Hi in H.
  destruct H as (-> & Hpre & Hpost). apply Forall_app in Hall as [Hall1 Hall2]. split.
  - by apply sorted_insert_entry.
  - apply Forall_app. split; [done|]. by constructor.
Qed.

(** ** Any input *)

(** Whatever [m] accepts is in [Q]. *)
Definition Accepts {A} (m : io A) (Q : A → Prop) : Prop :=
  ∀ fp o a fp' o', m fp o = Ret (inr a, fp') o' → Q a.

Lemma accepts_ret {A} (a : A) (Q : A → Prop) : Q a → Accepts (mret a) Q.
Proof. intros HQ fp o a' fp' o' [=]. by subst. Qed.

Lemma accepts_fail {A} rc (Q : A → Prop) : Accepts (io_fail rc) Q.
Proof. by intros fp o a fp' o' [=]. Qed.

Lemma accepts_bind {A B} (m : io A) (k : A → io B) Q1 Q2 :
  Accepts m Q1 → (∀ a, Q1 a → Accepts (k a) Q2) → Accepts (m ≫= k) Q2.
Proof.
  intros H1 H2 fp o b fp' o'. rewrite io_bind_run. destruct (m fp o) as [[[rc|a] fp1] o1|] eqn:E; [done| |done].
  apply (H2 a). by eapply H1.
Qed.

Lemma accepts_step {A B} (m : io A) (k : A → io B) Q : (∀ a, Accepts (k a) Q) → Accepts (m ≫= k) Q.
Proof. intros H. by apply (accepts_bind _ _ (λ _, True)). Qed.

Lemma accepts_lift {A} (m : M A) (Q : A → Prop) : (∀ o a o', m o = Ret a o' → Q a) → Accepts (io_lift m) Q.
Proof.
  intros H fp o a fp' o'. unfold io_lift. rewrite bind_run. destruct (m o) as [a' o1|] eqn:E; [|done].
  intros [=]; subst. by eapply H.
Qed.

Lemma accepts_times {St} n (f : St → io St) (I : St → Prop) s :
  I s → (∀ s, I s → Accepts (f s) I) → Accepts (io_times n f s) I.
Proof.
  intros HI Hf. revert s HI. induction n as [|n IH]; intros s HI; cbn [io_times]; [by apply accepts_ret|].
  eapply accepts_bind; [by apply Hf|done].
Qed.

(** When the check of a context is always defined, so is the reader. *)
Definition context_safe (v : write_params) (p : policydb) : Prop := Safe (get_context v p) (λ _, True).

Section any_input.
Context (v : write_params) (p : policydb).

Definition new_entry (name : string) (sclass : N) (c : context_struct) : ocontext :=
  Ocontext (UName name) sclass c context_init 0 0.

Definition inserted (r : option (list ocontext)) : Prop :=
  match r with Some l' => entries_wf l' | None => True end.

Lemma insert_new_entry l name sclass c o : entries_wf l →
  ∃ r, insert_entry l name sclass (new_entry name sclass c) o = Ret r o ∧ inserted r.
Proof.
  intros Hl. destruct (insert_entry_wf l (new_entry name sclass c) o eq_refl Hl) as (r & Hr & Hpost).
  exists r. split; [exact Hr|]. destruct r; [apply Hpost|done].
Qed.

Lemma genfs_entry_accepts l : entries_wf l → Accepts (genfs_entry_read v p l) entries_wf.
Proof.
  intros Hl. unfold genfs_entry_read. do 3 (apply accepts_step; intros ?). cbv zeta. apply accepts_step. intros c.
  eapply (accepts_bind _ _ inserted).
  - apply accepts_lift. intros o r o' Hr.
    destruct (insert_new_entry l a0 (le32_at a1 0) c o Hl) as (r' & Hr' & Hi). unfold new_entry in Hr'. congruence.
  - intros [l'|] Hl'; [by apply accepts_ret|apply accepts_fail].
Qed.

Lemma genfs_one_accepts g : genfs_wf g → Accepts (genfs_one_read v p g) genfs_wf.
Proof.
  intros Hg. unfold genfs_one_read. do 3 (apply accepts_step; intros ?).
  destruct (insert_fstype g a1) as [[pre post]|] eqn:Hi; [|apply accepts_fail].
  apply accepts_step; intros b2. eapply (accepts_bind _ _ entries_wf).
  - apply accepts_times; [by split; constructor|]. apply genfs_entry_accepts.
  - intros l Hl. apply accepts_ret. by eapply genfs_insert_wf.
Qed.

Lemma genfs_accepts g : genfs_wf g → Accepts (genfs_read v p g) genfs_wf.
Proof. intros Hg. apply accepts_step. intros b. apply accepts_times; [done|]. apply genfs_one_accepts. Qed.

Context (Hp : context_safe v p).

Lemma get_name_safe : Safe get_name (λ _, True).
Proof. unfold get_name. safe_step. intros b _. apply safe_string. lia. Qed.

Lemma genfs_entry_safe l : entries_wf l → Safe (genfs_entry_read v p l) entries_wf.
Proof.
  intros Hl. unfold genfs_entry_read. safe_step. eapply safe_bind; [apply get_name_safe|]. intros name _.
  safe_step. intros b _. cbv zeta. eapply safe_bind; [exact Hp|]. intros c _. eapply (safe_bind _ _ inserted).
  - apply safe_lift. intros o. destruct (insert_new_entry l name (le32_at b 0) c o Hl) as (r & Hr & Hi).
    unfold wp. unfold new_entry in Hr. by rewrite Hr.
  - intros [l'|] Hl'; [by apply safe_ret|by safe_step].
Qed.

Lemma genfs_one_safe g : genfs_wf g → Safe (genfs_one_read v p g) genfs_wf.
Proof.
  intros Hg. unfold genfs_one_read. safe_step. intros b _. safe_step.
  eapply safe_bind; [apply safe_string; lia|]. intros fs _.
  destruct (insert_fstype g fs) as [[pre post]|] eqn:Hi; [|by safe_step].
  safe_step. intros b2 _. eapply (safe_bind _ _ entries_wf).
  - apply safe_times; [by split; constructor|]. apply genfs_entry_safe.
  - intros l Hl. apply safe_ret. by eapply genfs_insert_wf.
Qed.

Lemma genfs_read_safe g : genfs_wf g → Safe (genfs_read v p g) genfs_wf.
Proof.
  intros Hg. unfold genfs_read. safe_step. intros b _. apply safe_times; [done|]. apply genfs_one_safe.
Qed.

End any_input.

(** Without MLS the check of a context is defined whatever was read. *)
Lemma valid_without_mls p c o :
  rbac_policy_wf p → mls p = false → ∃ b, context_is_valid p c o = Ret b o.
Proof.
  intros [(Hnr & Hnu & Hnt) Hroles Husers] Hmls. unfold context_is_valid, mls_context_isvalid. rewrite Hmls. cbn [negb].
  destruct ((role c =? 0) || _) eqn:Er; [by exists false|]. destruct ((user c =? 0) || _) eqn:Eu; [by exists false|].
  destruct ((type c =? 0) || _) eqn:Et; [by exists false|]. apply in_range_test in Er as Hr, Eu as Hu.
  rewrite bind_run. destruct (negb (role c =? OBJECT_R_VAL)); [|by exists true].
  destruct (Hroles (role c) (proj1 Hr) (proj2 Hr)) as (rd & Hrd & _).
  destruct (Husers (user c) (proj1 Hu) (proj2 Hu)) as (ud & Hud & _). destruct Hr, Hu.
  rewrite (dec32_pred (role c)), (dec32_pred (user c)) by lia. rewrite bind_run, (at_ptr_ok _ _ _ _ Hrd).
  destruct (negb (ebitmap_get_bit _ _)); [by exists false|]. rewrite bind_run, Hud. cbn [deref]. unfold mret, M_ret.
  destruct (ebitmap_get_bit _ _); by eexists.
Qed.

Lemma context_safe_without_mls v p : rbac_policy_wf p → mls p = false → context_safe v p.
Proof.
  intros Hp Hmls. unfold context_safe, get_context. safe_step. unfold context_read_and_validate. safe_step. intros b _.
  eapply (safe_bind _ _ (λ _, True)).
  { destruct (since _ _ _); [|by apply safe_ret]. apply safe_or_rc; [done|]. apply safe_range. }
  intros r _. cbv zeta. eapply (safe_bind _ _ (λ _, True)).
  - apply safe_lift. intros o. destruct (valid_without_mls p (Context (le32_at b 0) (le32_at b 1) (le32_at b 2) r) o Hp Hmls) as [x Hx].
    unfold wp, policydb_context_isvalid. by rewrite Hx.
  - intros [] _; [by apply safe_ret|by apply safe_fail].
Qed.

(** ** Round trip *)

Definition entry_bytes (v : write_params) (c : ocontext) : list N :=
  name_bytes (nm c) ++ words [oc_v c] ++ context_bytes v (oc_context0 c).
Definition genfs_bytes (v : write_params) (gf : genfs) : list N :=
  name_bytes (fstype gf) ++ list_bytes (entry_bytes v) (gf_head gf).

Definition entry_ok (v : write_params) (p : policydb) (c : ocontext) : Prop :=
  name_ok (nm c) ∧ u32s [oc_v c] ∧ context_ok v p (oc_context0 c).
Definition genfs_ok (v : write_params) (p : policydb) (g : list genfs) : Prop :=
  genfs_wf g ∧ u32s [N.of_nat (length g)] ∧
  Forall (λ gf, name_ok (fstype gf) ∧ u32s [N.of_nat (length (gf_head gf))] ∧ Forall (entry_ok v p) (gf_head gf)) g.

Definition entry_norm (v : write_params) (c : ocontext) : ocontext :=
  new_entry (nm c) (oc_v c) (context_norm v (oc_context0 c)).
Definition genfs_norm (v : write_params) (gf : genfs) : genfs := Genfs (fstype gf) (entry_norm v <$> gf_head gf).

Lemma genfs_writes v p g : genfs_ok v p g → Writes (genfs_write v g) (list_bytes (genfs_bytes v) g).
Proof.
  intros ([_ Hwf] & _ & Hg). unfold genfs_write, list_bytes. apply writes_bind; [apply writes_words|].
  apply writes_list. intros gf Hgf. destruct (proj1 (Forall_forall _ _) Hg _ Hgf) as (Hn & _ & Hl).
  destruct (proj1 (Forall_forall _ _) Hwf _ Hgf) as [Hnamed _]. unfold genfs_bytes.
  apply writes_bind; [by apply codec_writes|]. apply writes_bind; [apply writes_words|].
  apply writes_list. intros c Hc. destruct (proj1 (Forall_forall _ _) Hl _ Hc) as (Hcn & _ & Hctx).
  rewrite (proj1 (Forall_forall _ _) Hnamed _ Hc). unfold entry_bytes.
  apply writes_bind; [by apply codec_writes|]. apply writes_bind; [apply writes_words|]. by eapply codec_writes.
Qed.

(** The reader inserts at the end what comes in order. *)
Lemma insert_entry_last v l c o :
  StronglySorted before (l ++ [c]) →
  insert_entry (entry_norm v <$> l) (nm c) (oc_v c) (entry_norm v c) o = Ret (Some (entry_norm v <$> l ++ [c])) o.
Proof.
  induction l as [|a l IH]; [done|]. cbn [app fmap list_fmap]. intros [Hs Ha]%StronglySorted_inv.
  apply Forall_app in Ha as [_ Ha]. apply Forall_cons in Ha as [[Hlen Hc] _].
  cbn [insert_entry entry_norm new_entry oc_name oc_u oc_v]. rewrite bind_run. unfold mret at 1, M_ret at 1.
  fold (dup_test (nm c) (oc_v c) a). destruct (dup_test _ _ a) eqn:Ed; [by apply dup_test_spec in Ed|].
  rewrite (proj2 (N.ltb_ge _ _)) by done. by rewrite bind_run, IH.
Qed.

Lemma insert_fstype_last v g gf :
  StronglySorted fs_before (g ++ [gf]) → insert_fstype (genfs_norm v <$> g) (fstype gf) = Some (genfs_norm v <$> g, []).
Proof.
  induction g as [|a g IH]; [done|]. cbn [app fmap list_fmap]. intros [Hs Ha]%StronglySorted_inv.
  apply Forall_app in Ha as [_ Ha]. apply Forall_cons in Ha as [Ha _]. unfold fs_before in Ha.
  cbn [insert_fstype genfs_norm fstype]. rewrite (proj2 (Z.eqb_neq _ _)) by lia.
  rewrite (proj2 (Z.ltb_ge _ _)) by lia. change (list_fmap _ _ (genfs_norm v) g) with (genfs_norm v <$> g). by rewrite IH.
Qed.

Lemma sorted_prefix {A} (R : A → A → Prop) pre a post :
  StronglySorted R (pre ++ a :: post) → StronglySorted R (pre ++ [a]).
Proof.
  induction pre as [|b pre IH]; cbn; intros [Hs Hb]%StronglySorted_inv; [by repeat constructor|].
  constructor; [by apply IH|]. apply Forall_app in Hb as [Hb1 Hb2]. apply Forall_cons in Hb2 as [? _].
  apply Forall_app. split; [done|]. by repeat constructor.
Qed.

Lemma genfs_entry_reads v p l pre c :
  entry_ok v p c → l = entry_norm v <$> pre → StronglySorted before (pre ++ [c]) →
  Reads (genfs_entry_read v p l) (entry_bytes v c) (λ x, x = entry_norm v <$> pre ++ [c]).
Proof.
  intros (Hn & Hv & Hc) -> Hs. unfold genfs_entry_read, entry_bytes. do 3 reads_step. word_at. cbv zeta.
  rewrite <- (app_nil_r (context_bytes _ _)). eapply reads_bind_eq; [by apply get_context_reads|].
  fold (entry_norm v c). eapply reads_bind_nil.
  { apply reads_pure. intros o. apply (insert_entry_last v pre c o Hs). }
  intros x ->. by reads_step.
Qed.

Lemma genfs_reads v p g :
  genfs_ok v p g → Reads (genfs_read v p []) (list_bytes (genfs_bytes v) g) (λ x, x = genfs_norm v <$> g).
Proof.
  intros ([Hs Hwf] & Hlen & Hg). unfold genfs_read, list_bytes. reads_step. word_at. rewrite Nat2N.id.
  apply (reads_times (λ pre x, x = genfs_norm v <$> pre)); [done|]. intros pre gf post x -> ->.
  destruct (proj1 (Forall_forall _ _) Hg gf) as (Hn & Hl & He); [set_solver|].
  destruct (proj1 (Forall_forall _ _) Hwf gf) as [_ Hes]; [set_solver|].
  unfold genfs_one_read, genfs_bytes, name_bytes, list_bytes. pose proof (name_u32s _ Hn).
  rewrite <- !app_assoc. do 2 reads_step. word_at. eapply reads_bind_eq; [apply reads_string; auto|].
  rewrite insert_fstype_last by (by eapply sorted_prefix). reads_step. word_at. rewrite Nat2N.id.
  rewrite <- (app_nil_r (_ ≫= _)). eapply (reads_bind_eq _ _ _ _ (entry_norm v <$> gf_head gf)).
  - apply (reads_times (λ pre x, x = entry_norm v <$> pre)); [done|]. intros epre c epost y Hsplit ->.
    apply genfs_entry_reads; [|done|].
    + apply (proj1 (Forall_forall _ _) He). rewrite Hsplit. set_solver.
    + rewrite Hsplit in Hes. by eapply sorted_prefix.
  - reads_step. by rewrite fmap_app.
Qed.

(** * Theorems *)

(** C33: the object contexts of a policy survive the policy file, on both
    platforms and for every version.  Initial SIDs, file systems, ports,
    network interfaces, nodes and fs_use entries (interrupts, ports, memory,
    devices and device tree nodes of Xen) are read back in order with the fields
    the kind has, and so are the file system entries when they are in the order
    the reader keeps. *)
Theorem ocontexts_write_read v p ocon_num oc g :
  ocontexts_ok v p ocon_num oc → genfs_ok v p g →
  Survives (ocontext_write v ocon_num oc) (ocontext_read v p ocon_num) (ocontexts_norm v ocon_num oc) ∧
  Survives (genfs_write v g) (genfs_read v p []) (genfs_norm v <$> g).
Proof.
  intros Hoc Hg. split; [exact (survives_codec _ _ _ _ _ _ Hoc)|].
  eapply survives_intro; [by eapply genfs_writes|by apply genfs_reads].
Qed.

(** What the reader of the file system entries accepts is sorted, for any
    bytes: the file systems by name without repetition, the entries of each
    from long names to short ones, and no two with the same name for the same
    class.  For a policy without MLS the reader is moreover defined on any
    bytes and whatever the allocator answers, and what it refuses it refuses
    with a negative code. *)
Theorem genfs_read_sorted v p g :
  genfs_wf g →
  Accepts (genfs_read v p g) genfs_wf ∧
  (rbac_policy_wf p → mls p = false → Safe (genfs_read v p g) genfs_wf).
Proof.
  intros Hg. split; [by apply genfs_accepts|]. intros Hp Hm.
  apply genfs_read_safe; [by apply context_safe_without_mls|done].
Qed.

Definition ex_entry (name : string) (sclass : N) : ocontext :=
  Ocontext (UName name) sclass ex_mls_context context_init 0 0.
Definition ex_genfs : list genfs :=
  [Genfs "proc" [ex_entry "/sysvipc" 0; ex_entry "/net" 7; ex_entry "/" 0]; Genfs "sysfs" [ex_entry "/" 0]].

#[global] Instance fs_before_dec a b : Decision (fs_before a b).
Proof. unfold fs_before. apply _. Defined.

Fixpoint sortedb {A} (r : A → A → bool) (l : list A) : bool :=
  match l with [] => true | a :: l' => forallb (r a) l' && sortedb r l' end.

Lemma sortedb_sorted {A} (R : A → A → Prop) `{!∀ a b, Decision (R a b)} l :
  sortedb (λ a b, bool_decide (R a b)) l = true → StronglySorted R l.
Proof.
  induction l as [|a l IH]; [constructor|]. cbn. intros [Ha Hl]%andb_true_iff. constructor; [by apply IH|].
  apply Forall_forall. intros b Hb%list_elem_of_In. by apply (bool_decide_eq_true _), (proj1 (List.forallb_forall _ _) Ha).
Qed.

Lemma ex_genfs_wf : genfs_wf ex_genfs.
Proof.
  split; [apply (sortedb_sorted fs_before); by vm_compute|].
  repeat (apply Forall_cons; split; [split; [by_decide|apply (sortedb_sorted before); by vm_compute]|]). constructor.
Qed.

Lemma ex_context_ok v : context_norm v ex_mls_context = ex_mls_context → context_ok v ex_policy ex_mls_context.
Proof. intros E. split; [by_decide|]. split; [by_decide|]. rewrite E. intros o. by vm_compute. Qed.

Lemma ocontexts_write_read_witness :
  let v := WriteParams POLICY_KERN 30 SEPOL_TARGET_SELINUX in
  Survives (ocontext_write v 3 [[Ocontext UNone 0 ex_mls_context context_init 1 0]; [];
                                [Ocontext (UPort 6 80 80) 0 ex_mls_context context_init 0 0]])
    (ocontext_read v ex_policy 3)
    [[Ocontext UNone 0 ex_mls_context context_init 1 0]; [];
     [Ocontext (UPort 6 80 80) 0 ex_mls_context context_init 0 0]] ∧
  Survives (genfs_write v ex_genfs) (genfs_read v ex_policy []) ex_genfs.
Proof.
  intros v. pose proof (ex_context_ok v eq_refl) as Hc.
  apply (ocontexts_write_read v ex_policy 3
    [[Ocontext UNone 0 ex_mls_context context_init 1 0]; [];
     [Ocontext (UPort 6 80 80) 0 ex_mls_context context_init 0 0]] ex_genfs).
  - split; [by left|]. intros i Hi.
    assert (i = 0 ∨ i = 1 ∨ i = 2) as [-> | [-> | ->]] by lia; eexists; (split; [reflexivity|]); (split; [done|]);
      repeat constructor; done.
  - split; [apply ex_genfs_wf|]. split; [by_decide|].
    repeat constructor; first [done|by_decide|apply Hc|idtac].
Defined.

(** Entries that come in the wrong order. *)
Lemma genfs_read_sorted_witness :
  let v := WriteParams POLICY_KERN 30 SEPOL_TARGET_SELINUX in
  let file := list_bytes (genfs_bytes v) [Genfs "sysfs" [ex_entry "/" 0];
                Genfs "proc" [ex_entry "/" 0; ex_entry "/net" 7; ex_entry "/sysvipc" 0]] in
  ∃ fp o, genfs_read v ex_policy [] (stream file) [] = Ret (inr ex_genfs, fp) o ∧ genfs_wf ex_genfs.
Proof.
  intros v file. destruct (genfs_read v ex_policy [] (stream file) []) as [[[rc|g] fp] o|] eqn:E;
    [by vm_compute in E| |by vm_compute in E].
  pose proof (proj1 (genfs_read_sorted v ex_policy [] (conj (SSorted_nil _) (Forall_nil_2 _))) _ _ _ _ _ E) as Hg.
  assert (g = ex_genfs) as -> by (vm_compute in E; by injection E as <- _ _).
  exists fp, o. by split.
Defined.
