(* ===== verification/ObjectSids.v ===== *)
(** The SIDs of objects: the initial SIDs of a policy (libsepol/src/policydb.c
    [policydb_load_isids]) and the lookups of the security server for ports,
    network interfaces, nodes and file systems (libsepol/src/services.c).

    A lookup walks a list of object contexts, gives the entry it finds SIDs the
    first time, and keeps them in the entry.  The state is thus the lists and
    the SID table. *)

From stdpp Require Import sorting.
From S2P Require Import Prelude Ebitmap Hashtab MlsTypes Sidtab Avtab Policydb Mls Context Services PolicyIO Ocontext.
Local Open Scope N_scope.

Definition SECINITSID_FS : N := 4.
Definition SECINITSID_FILE : N := 5.
Definition SECINITSID_PORT : N := 9.
Definition SECINITSID_NETIF : N := 10.
Definition SECINITSID_NETMSG : N := 11.
Definition SECINITSID_NODE : N := 12.
Definition SECCLASS_DIR : N := 7.
Definition SECURITY_FS_USE_GENFS : N := 4.
Definition SECURITY_FS_USE_NONE : N := 5.
(** From the system's socket.h. *)
Definition AF_INET : N := 2.
Definition AF_INET6 : N := 10.

(** [policydb->ocontexts], [policydb->genfs] and [sidtab]. *)
Record labels := Labels { lb_ocontexts : list (list ocontext); lb_genfs : list genfs; lb_sids : sidtab }.

(** * Initial SIDs *)

Fixpoint load_isids_loop (l : list ocontext) (s : sidtab) : M (Z * sidtab) :=
  match l with
  | [] => mret (0%Z, s)
  | c :: l' =>
      if user (oc_context0 c) =? 0 then mret ((-1)%Z, s) else
      '(rc, r) ← sepol_sidtab_insert (Some s) (oc_sid0 c) (oc_context0 c);
      s ← deref r;
      if negb (rc =? 0)%Z then mret ((-1)%Z, s) else load_isids_loop l' s
  end.

Definition policydb_load_isids (ocontexts : list (list ocontext)) (s : sidtab) : M (Z * sidtab) :=
  '(rc, s) ← sepol_sidtab_init s;
  if negb (rc =? 0)%Z then mret ((-1)%Z, s) else
  head ← deref (ocontexts !! N.to_nat OCON_ISID);
  load_isids_loop head s.

(** * Lookups *)

(** [while (c) { if (test) break; c = c->next; }]: the entry with what stands
    before and behind it. *)
Fixpoint find_ocontext (test : ocontext → M bool) (l : list ocontext)
    : M (option (list ocontext * ocontext * list ocontext)) :=
  match l with
  | [] => mret None
  | c :: next =>
      b ← test c;
      if b : bool then mret (Some ([], c, next)) else
      r ← find_ocontext test next;
      mret ((λ x, (c :: x.1.1, x.1.2, x.2)) <$> r)
  end.

Definition set_sid0 (c : ocontext) (sid : N) : ocontext :=
  Ocontext (oc_u c) (oc_v c) (oc_context0 c) (oc_context1 c) sid (oc_sid1 c).
Definition set_sid1 (c : ocontext) (sid : N) : ocontext :=
  Ocontext (oc_u c) (oc_v c) (oc_context0 c) (oc_context1 c) (oc_sid0 c) sid.

(** [if (!c->sid[0]) rc = sepol_sidtab_context_to_sid(...)]. *)
Definition give_sid (s : sidtab) (c : ocontext) : M (Z * sidtab * ocontext) :=
  if oc_sid0 c =? 0 then
    '(rc, s, sid) ← sepol_sidtab_context_to_sid s (oc_context0 c);
    mret (rc, s, set_sid0 c sid)
  else mret (0%Z, s, c).

Definition give_sids (s : sidtab) (c : ocontext) : M (Z * sidtab * ocontext) :=
  if (oc_sid0 c =? 0) || (oc_sid1 c =? 0) then
    '(rc, s, sid) ← sepol_sidtab_context_to_sid s (oc_context0 c);
    let c := set_sid0 c sid in
    if negb (rc =? 0)%Z then mret (rc, s, c) else
    '(rc, s, sid) ← sepol_sidtab_context_to_sid s (oc_context1 c);
    mret (rc, s, set_sid1 c sid)
  else mret (0%Z, s, c).

(** A lookup in [ocontexts[i]]: the status, the state and what is stored
    through the output pointers, if anything. *)
Definition lookup {A} (give : sidtab → ocontext → M (Z * sidtab * ocontext)) (out : ocontext → A) (dflt : A)
    (L : labels) (i : N) (test : ocontext → M bool) : M (Z * labels * option A) :=
  l ← deref (lb_ocontexts L !! N.to_nat i);
  r ← find_ocontext test l;
  match r with
  | None => mret (0%Z, L, Some dflt)
  | Some (pre, c, post) =>
      '(rc, s, c) ← give (lb_sids L) c;
      mret (rc, Labels (<[N.to_nat i := pre ++ c :: post]> (lb_ocontexts L)) (lb_genfs L) s,
            if (rc =? 0)%Z then Some (out c) else None)
  end.

Definition lookup_one := lookup give_sid oc_sid0.
Definition lookup_two := lookup give_sids (λ c, (oc_sid0 c, oc_sid1 c)).

Definition name_is (name : string) (c : ocontext) : M bool := n ← oc_name c; mret (strcmp n name =? 0)%Z.

Definition sepol_fs_sid (L : labels) (name : string) : M (Z * labels * option (N * N)) :=
  lookup_two (SECINITSID_FS, SECINITSID_FILE) L OCON_FS (name_is name).

Definition port_is (protocol port : N) (c : ocontext) : M bool :=
  match oc_u c with
  | UPort proto low high => mret ((proto =? protocol) && (low <=? port) && (port <=? high))
  | _ => ub
  end.

Definition sepol_port_sid (L : labels) (domain type protocol port : N) : M (Z * labels * option N) :=
  lookup_one SECINITSID_PORT L OCON_PORT (port_is protocol port).

Definition sepol_netif_sid (L : labels) (name : string) : M (Z * labels * option (N * N)) :=
  lookup_two (SECINITSID_NETIF, SECINITSID_NETMSG) L OCON_NETIF (name_is name).

(** The bytes of the [i]-th word of an array of words. *)
Definition word_bytes (a : list N) (i : nat) : M (list N) :=
  if (4 * i + 4 <=? length a)%nat then mret (take 4 (drop (4 * i) a)) else ub.

Definition masked_eq (input addr mask : list N) : bool := bool_decide (addr = zip_with N.land input mask).

Fixpoint match_words (input addr mask : list N) (idx : list nat) : M bool :=
  match idx with
  | [] => mret true
  | i :: idx' =>
      x ← word_bytes input i; a ← word_bytes addr i; m ← word_bytes mask i;
      if negb (masked_eq x a m) then mret false else match_words input addr mask idx'
  end.

Definition match_ipv6_addrmask (input addr mask : list N) : M bool := match_words input addr mask [0; 1; 2; 3]%nat.

Definition node_is (addr : list N) (c : ocontext) : M bool :=
  match oc_u c with UNode a m => mret (masked_eq addr a m) | _ => ub end.
Definition node6_is (addr : list N) (c : ocontext) : M bool :=
  match oc_u c with UNode6 a m => match_ipv6_addrmask addr a m | _ => ub end.

(** [addrp] has the bytes of the address, [addrlen] is the length the caller
    gives. *)
Definition sepol_node_sid (L : labels) (domain : N) (addrp : list N) (addrlen : N) : M (Z * labels * option N) :=
  if domain =? AF_INET then
    if negb (addrlen =? 4) then mret ((- EINVAL)%Z, L, None) else
    addr ← word_bytes addrp 0;
    lookup_one SECINITSID_NODE L OCON_NODE (node_is addr)
  else if domain =? AF_INET6 then
    if negb (addrlen =? 16) then mret ((- EINVAL)%Z, L, None) else
    lookup_one SECINITSID_NODE L OCON_NODE6 (node6_is addrp)
  else mret (0%Z, L, Some SECINITSID_NODE).

(** ** File systems *)

(** [strncmp], up to the magnitude of its result. *)
Fixpoint strncmp (s1 s2 : string) (n : nat) : Z :=
  match n with
  | O => 0
  | S n' =>
      match s1, s2 with
      | EmptyString, EmptyString => 0
      | EmptyString, String _ _ => -1
      | String _ _, EmptyString => 1
      | String c1 t1, String c2 t2 =>
          if Ascii.N_of_ascii c1 =? Ascii.N_of_ascii c2 then strncmp t1 t2 n'
          else if Ascii.N_of_ascii c1 <? Ascii.N_of_ascii c2 then (-1)%Z else 1%Z
      end
  end.

(** The walk over [policydb->genfs] stops at the first name that is not
    smaller. *)
Fixpoint find_genfs (g : list genfs) (fs : string) : option (list genfs * genfs * list genfs) :=
  match g with
  | [] => None
  | gf :: next =>
      let cmp := strcmp fs (fstype gf) in
      if (cmp <=? 0)%Z then (if (cmp =? 0)%Z then Some ([], gf, next) else None)
      else '(pre, x, post) ← find_genfs next fs; Some (gf :: pre, x, post)
  end.

Definition path_is (path : string) (sclass : N) (c : ocontext) : M bool :=
  n ← oc_name c;
  mret (((oc_v c =? 0) || (sclass =? oc_v c)) && (strncmp n path (String.length n) =? 0)%Z).

Definition sepol_genfs_sid (L : labels) (fs path : string) (sclass : N) : M (Z * labels * option N) :=
  match find_genfs (lb_genfs L) fs with
  | None => mret ((- ENOENT)%Z, L, Some SECINITSID_UNLABELED)
  | Some (gpre, gf, gpost) =>
      r ← find_ocontext (path_is path sclass) (gf_head gf);
      match r with
      | None => mret ((- ENOENT)%Z, L, Some SECINITSID_UNLABELED)
      | Some (pre, c, post) =>
          '(rc, s, c) ← give_sid (lb_sids L) c;
          mret (rc, Labels (lb_ocontexts L) (gpre ++ Genfs (fstype gf) (pre ++ c :: post) :: gpost) s,
                if (rc =? 0)%Z then Some (oc_sid0 c) else None)
      end
  end.

(** The results are the behaviour and the SID. *)
Definition sepol_fs_use (L : labels) (fs : string) : M (Z * labels * option N * option N) :=
  l ← deref (lb_ocontexts L !! N.to_nat OCON_FSUSE);
  r ← find_ocontext (name_is fs) l;
  match r with
  | Some (pre, c, post) =>
      '(rc, s, c) ← give_sid (lb_sids L) c;
      mret (rc, Labels (<[N.to_nat OCON_FSUSE := pre ++ c :: post]> (lb_ocontexts L)) (lb_genfs L) s,
            Some (oc_v c), if (rc =? 0)%Z then Some (oc_sid0 c) else None)
  | None =>
      '(rc, L, sid) ← sepol_genfs_sid L fs "/" SECCLASS_DIR;
      mret (0%Z, L, Some (if negb (rc =? 0)%Z then SECURITY_FS_USE_NONE else SECURITY_FS_USE_GENFS), sid)
  end.

(** * Invariant *)

(** A SID kept in an entry names the entry's context. *)
Record cached (m : gmap N context_struct) (c : ocontext) : Prop := {
  cached_sid0 : oc_sid0 c ≠ 0 → m !! oc_sid0 c = Some (oc_context0 c);
  cached_sid1 : oc_sid1 c ≠ 0 → m !! oc_sid1 c = Some (oc_context1 c) }.

(** Every entry of [ocontexts[i]] uses the member of the union that belongs to
    it, and addresses have the sizes of their types. *)
Definition sized (u : ocontext_u) : bool :=
  match u with
  | UNode a m => (length a =? 4)%nat && (length m =? 4)%nat
  | UNode6 a m => (length a =? 16)%nat && (length m =? 16)%nat
  | _ => true
  end.
Definition typed (oc : list (list ocontext)) : Prop :=
  ∀ i, i < 7 → ∃ l, oc !! N.to_nat i = Some l ∧ Forall (λ c, kind_u false i (oc_u c) && sized (oc_u c) = true) l.

Record labels_wf (L : labels) : Prop := {
  lw_sids : sidtab_wf (lb_sids L);
  lw_typed : typed (lb_ocontexts L);
  lw_genfs : genfs_wf (lb_genfs L);
  lw_cached : Forall (Forall (cached (st_map (lb_sids L)))) (lb_ocontexts L);
  lw_genfs_cached : Forall (λ gf, Forall (cached (st_map (lb_sids L))) (gf_head gf)) (lb_genfs L) }.

(** The labels without the SIDs kept in them: what a lookup does not change. *)
Definition erase_sids (c : ocontext) : ocontext := Ocontext (oc_u c) (oc_v c) (oc_context0 c) (oc_context1 c) 0 0.
Definition contents (L : labels) : (list (list ocontext) * list genfs)%type :=
  ((fmap erase_sids : list ocontext → list ocontext) <$> lb_ocontexts L, (λ gf, Genfs (fstype gf) (erase_sids <$> gf_head gf)) <$> lb_genfs L).

Lemma cached_mono m m' c : m ⊆ m' → cached m c → cached m' c.
Proof. intros Hm [H0 H1]. split; intros H; eapply lookup_weaken; eauto. Qed.

Lemma all_cached_mono m m' l : m ⊆ m' → Forall (cached m) l → Forall (cached m') l.
Proof. intros Hm Hl. eapply Forall_impl; [exact Hl|]. intros c. by apply cached_mono. Qed.

(** What [give_sid] and [give_sids] do to the table and the entry; the
    assignment of SIDs fails only without memory, without SIDs or when the
    table is shut down. *)
Definition no_sids (s : sidtab) (o : oracle) : Prop := o ≠ [] ∨ next_sid s = UINT_MAX ∨ shutdown s ≠ 0.

Definition gives_post (both : bool) (s : sidtab) (c : ocontext) (o : oracle) (r : Z * sidtab * ocontext) : Prop :=
  let '(rc, s', c') := r in
  sidtab_wf s' ∧ st_map s ⊆ st_map s' ∧ erase_sids c' = erase_sids c ∧ cached (st_map s') c' ∧
  (rc = 0%Z ∧ oc_sid0 c' ≠ 0 ∧ (both = true → oc_sid1 c' ≠ 0) ∨ rc = (- ENOMEM)%Z ∧ no_sids s' o).

Lemma context_to_sid_oracle s ctx o : sidtab_wf s →
  wp (sepol_sidtab_context_to_sid s ctx) o (λ _ o', o = [] → o' = []).
Proof.
  intros Hwf. destruct (search_context_spec s ctx Hwf) as (sid & Hrun & _).
  unfold sepol_sidtab_context_to_sid. wp_step. unfold wp at 1. rewrite Hrun.
  destruct (negb (sid =? 0)); [by apply wp_ret|]. wp_step. unfold wp at 1. rewrite Hrun.
  destruct (negb (sid =? 0)); [by apply wp_ret|].
  destruct (_ || _) eqn:E; [by apply wp_ret|]. apply orb_false_iff in E as [E1 _]. reflect_bools.
  pose proof Hwf as (Ht & Hlt & Hn1 & Hn2).
  assert (u32 (next_sid s + 1) = next_sid s + 1) as Hu.
  { apply u32_small. unfold UINT_MAX in *. change (2 ^ 32) with 4294967296. lia. }
  rewrite Hu. set (s' := Sidtab _ _ _ _). assert (sidtab_wf s') as Hwf'.
  { split_and!; [done| |simpl; lia|simpl; unfold UINT_MAX in *; lia]. intros k c Hk. apply Hlt in Hk. simpl. lia. }
  wp_step. eapply wp_mono; [apply (insert_sid_spec s' (next_sid s) ctx o Hwf'); unfold UINT_MAX in *; lia|].
  intros [rc r] o' [Ho Hr]. wp_step. apply wp_deref.
  destruct Hr as [[[= -> ->] _]|[[[= -> ->] _]|(s'' & [= -> ->] & _)]]; eexists; (split; [done|]); by apply wp_ret.
Qed.

Lemma context_to_sid_grows s ctx o : sidtab_wf s →
  wp (sepol_sidtab_context_to_sid s ctx) o (λ r o', let '(rc, s', sid) := r in
    (o = [] → o' = []) ∧ sidtab_wf s' ∧ st_map s ⊆ st_map s' ∧ (sid ≠ 0 → st_map s' !! sid = Some ctx) ∧
    (rc = 0%Z ∧ sid ≠ 0 ∨ rc = (- ENOMEM)%Z ∧ no_sids s' o)).
Proof.
  intros Hwf. eapply wp_mono; [apply wp_and; [by apply context_to_sid_spec|by apply context_to_sid_oracle]|].
  intros [[rc s'] sid] o' [[(-> & Hwf' & Hpos & Hm & _ & Hs)|(-> & -> & -> & _ & Hc)] Ho].
  - split_and!; try done; [|left; split; [done|lia]].
    destruct Hs as [-> |(Hn & -> & _)]; [done|]. by apply insert_subseteq.
  - split_and!; try done. right. done.
Qed.

Lemma give_sid_spec s c o : sidtab_wf s → cached (st_map s) c →
  wp (give_sid s c) o (λ r o', (o = [] → o' = []) ∧ gives_post false s c o r).
Proof.
  intros Hwf Hc. unfold give_sid. destruct (N.eqb_spec (oc_sid0 c) 0) as [E|E].
  - wp_step. eapply wp_mono; [by apply context_to_sid_grows|]. intros [[rc s'] sid] o' (Ho & Hwf' & Hsub & Hm & Hr).
    apply wp_ret. unfold gives_post. split_and!; try done; [split; cbn; [done|]; by apply (cached_mono _ _ _ Hsub Hc)|]. cbn. naive_solver.
  - apply wp_ret. unfold gives_post. split_and!; try done. by left.
Qed.

Lemma give_sids_spec s c o : sidtab_wf s → cached (st_map s) c →
  wp (give_sids s c) o (λ r o', (o = [] → o' = []) ∧ gives_post true s c o r).
Proof.
  intros Hwf Hc. unfold give_sids. destruct ((oc_sid0 c =? 0) || (oc_sid1 c =? 0)) eqn:E.
  - clear E. wp_step. eapply wp_mono; [by apply context_to_sid_grows|].
    intros [[rc s1] sid] o1 (Ho1 & Hwf1 & Hsub1 & Hm1 & Hr1). cbv zeta.
    assert (cached (st_map s1) (set_sid0 c sid)) as Hc1 by (split; cbn; [done|]; by apply (cached_mono _ _ _ Hsub1 Hc)).
    destruct Hr1 as [[-> Hsid]|[-> Hno]]; cbn [Z.eqb Z.opp ENOMEM negb].
    2:{ apply wp_ret. unfold gives_post. split_and!; try done. by right. }
    wp_step. eapply wp_mono; [by apply context_to_sid_grows|].
    intros [[rc s2] sid2] o2 (Ho2 & Hwf2 & Hsub2 & Hm2 & Hr2). apply wp_ret. split; [naive_solver|].
    unfold gives_post. split_and!; try done; [by transitivity (st_map s1)|split; cbn; [by apply (cached_mono _ _ _ Hsub2 Hc1)|done]|].
    cbn. destruct Hr2 as [[-> Hs2]|[-> [?|?]]]; [by left|right|right]; (split; [done|]); [left; naive_solver|by right].
  - apply orb_false_iff in E as [E0 E1]. reflect_bools. apply wp_ret. unfold gives_post. split_and!; try done. by left.
Qed.

(** * Lookups find the first match *)

Lemma find_ocontext_spec test (b : ocontext → bool) l o :
  (∀ c o, c ∈ l → test c o = Ret (b c) o) →
  ∃ r, find_ocontext test l o = Ret r o ∧
    match r with
    | Some (pre, c, post) => l = pre ++ c :: post ∧ b c = true ∧ Forall (λ x, b x = false) pre ∧ List.find b l = Some c
    | None => Forall (λ x, b x = false) l ∧ List.find b l = None
    end.
Proof.
  induction l as [|c l IH]; intros Ht; [by exists None|]. cbn [find_ocontext List.find].
  rewrite bind_run, Ht by left. destruct (b c) eqn:Eb.
  { exists (Some ([], c, l)). split; [done|]. by split_and!. }
  destruct IH as (r & Hr & Hpost); [intros x o' Hx; apply Ht; by right|].
  eexists. rewrite bind_run, Hr. split; [done|]. destruct r as [[[pre x] post]|]; cbn.
  - destruct Hpost as (-> & Hx & Hpre & Hf). split_and!; try done. by constructor.
  - destruct Hpost as [Hl Hf]. split; [by constructor|done].
Qed.

Lemma erase_kind c c' : erase_sids c' = erase_sids c →
  oc_u c' = oc_u c ∧ oc_v c' = oc_v c ∧ oc_context0 c' = oc_context0 c ∧ oc_context1 c' = oc_context1 c.
Proof. unfold erase_sids. intros [=]. auto. Qed.

Lemma fmap_replace {A B} (f : A → B) pre c c' post : f c' = f c → f <$> pre ++ c' :: post = f <$> pre ++ c :: post.
Proof. intros E. by rewrite !fmap_app, !fmap_cons, E. Qed.

Lemma forall_replace {A} (P : A → Prop) pre c c' post :
  P c' → Forall P (pre ++ c :: post) → Forall P (pre ++ c' :: post).
Proof. rewrite !Forall_app, !Forall_cons. tauto. Qed.

(** An entry of a list gets its SIDs. *)
Lemma labels_replace L i pre c post s' c' :
  labels_wf L → lb_ocontexts L !! i = Some (pre ++ c :: post) →
  sidtab_wf s' → st_map (lb_sids L) ⊆ st_map s' → erase_sids c' = erase_sids c → cached (st_map s') c' →
  let L' := Labels (<[i := pre ++ c' :: post]> (lb_ocontexts L)) (lb_genfs L) s' in
  labels_wf L' ∧ contents L' = contents L.
Proof.
  intros [Hs Ht Hg Hc Hgc] Hi Hs' Hsub He Hc' L'. pose proof (lookup_lt_Some _ _ _ Hi) as Hlen. split; [split; cbn|].
  - done.
  - intros k Hk. destruct (Ht k Hk) as (l & Hl & Hkind). destruct (decide (N.to_nat k = i)) as [Ei|Hne].
    + rewrite Ei in *. eexists. split; [by apply list_lookup_insert_eq|]. rewrite Hi in Hl. injection Hl as <-.
      eapply forall_replace; [|exact Hkind]. rewrite (proj1 (erase_kind _ _ He)).
      apply Forall_app in Hkind as [_ Hkind]. by apply Forall_cons in Hkind as [? _].
    + exists l. by rewrite list_lookup_insert_ne.
  - done.
  - apply Forall_insert.
    + eapply Forall_impl; [exact Hc|]. intros l. by apply all_cached_mono.
    + eapply forall_replace; [done|]. eapply all_cached_mono; [done|]. by apply (Forall_lookup_1 _ _ _ _ Hc Hi).
  - eapply Forall_impl; [exact Hgc|]. intros gf. by apply all_cached_mono.
  - unfold contents, L'. cbn. f_equal. apply list_eq. intros k. rewrite !list_lookup_fmap.
    destruct (decide (k = i)) as [-> |Hne]; [|by rewrite list_lookup_insert_ne].
    rewrite list_lookup_insert_eq, Hi by done. cbn. f_equal. by apply fmap_replace.
Qed.

Definition answers {A} (L : labels) (want : option ocontext) (dflt : A)
    (names : gmap N context_struct → ocontext → A → Prop) (o : oracle) (r : Z * labels * option A) : Prop :=
  let '(rc, L', out) := r in
  labels_wf L' ∧ contents L' = contents L ∧ st_map (lb_sids L) ⊆ st_map (lb_sids L') ∧
  match want with
  | None => rc = 0%Z ∧ L' = L ∧ out = Some dflt
  | Some c => rc = 0%Z ∧ (∃ a, out = Some a ∧ names (st_map (lb_sids L')) c a)
              ∨ rc = (- ENOMEM)%Z ∧ out = None ∧ no_sids (lb_sids L') o
  end.

Definition names_one (m : gmap N context_struct) (c : ocontext) (sid : N) : Prop := m !! sid = Some (oc_context0 c).
Definition names_two (m : gmap N context_struct) (c : ocontext) (sids : N * N) : Prop :=
  m !! sids.1 = Some (oc_context0 c) ∧ m !! sids.2 = Some (oc_context1 c).

Lemma oc_lookup_spec {A} give (out : ocontext → A) both names dflt L i l test b o :
  (∀ s c o, sidtab_wf s → cached (st_map s) c → wp (give s c) o (λ r o', (o = [] → o' = []) ∧ gives_post both s c o r)) →
  (∀ m c c', cached m c' → erase_sids c' = erase_sids c → oc_sid0 c' ≠ 0 → (both = true → oc_sid1 c' ≠ 0) →
     names m c (out c')) →
  labels_wf L → lb_ocontexts L !! N.to_nat i = Some l → (∀ c o, c ∈ l → test c o = Ret (b c) o) →
  wp (lookup give out dflt L i test) o (λ r o', answers L (List.find b l) dflt names o r).
Proof.
  intros Hgive Hnames HL Hl Ht. unfold lookup. wp_step. apply wp_deref. exists l. split; [done|].
  wp_step. destruct (find_ocontext_spec test b l o Ht) as (r & Hr & Hpost). unfold wp at 1. rewrite Hr.
  destruct r as [[[pre c] post]|].
  - destruct Hpost as (-> & _ & _ & ->). pose proof HL as [Hs _ _ Hc _].
    assert (cached (st_map (lb_sids L)) c) as Hcc.
    { pose proof (Forall_lookup_1 _ _ _ _ Hc Hl) as Hx. apply Forall_app in Hx as [_ Hx]. by apply Forall_cons in Hx as [? _]. }
    wp_step. eapply wp_mono; [by apply Hgive|]. intros [[rc s'] c'] o' [_ (Hs' & Hsub & He & Hc' & Hrc)]. apply wp_ret.
    destruct (labels_replace L (N.to_nat i) pre c post s' c' HL Hl Hs' Hsub He Hc') as [HL' Hcont].
    split; [done|]. split; [done|]. split; [done|]. cbn [lb_sids].
    destruct Hrc as [(-> & H0 & H1)|[-> Hno]]; [left|by right]. split; [done|]. exists (out c'). split; [done|]. by apply Hnames.
  - destruct Hpost as [_ ->]. apply wp_ret. by split_and!.
Qed.

Lemma lookup_one_spec dflt L i l test b o :
  labels_wf L → lb_ocontexts L !! N.to_nat i = Some l → (∀ c o, c ∈ l → test c o = Ret (b c) o) →
  wp (lookup_one dflt L i test) o (λ r o', answers L (List.find b l) dflt names_one o r).
Proof.
  intros. eapply (oc_lookup_spec give_sid oc_sid0 false); eauto using give_sid_spec.
  intros m c c' Hc (_ & _ & E & _)%erase_kind Hne _. unfold names_one. rewrite <- E. by apply cached_sid0.
Qed.

Lemma lookup_two_spec dflt L i l test b o :
  labels_wf L → lb_ocontexts L !! N.to_nat i = Some l → (∀ c o, c ∈ l → test c o = Ret (b c) o) →
  wp (lookup_two dflt L i test) o (λ r o', answers L (List.find b l) dflt names_two o r).
Proof.
  intros. eapply (oc_lookup_spec give_sids _ true); eauto using give_sids_spec.
  intros m c c' Hc (_ & _ & E & E1)%erase_kind Hne0 Hne1. unfold names_two. rewrite <- E, <- E1.
  split; [by apply cached_sid0|]. apply cached_sid1; auto.
Qed.

(** ** The tests *)

Definition port_match (protocol port : N) (c : ocontext) : bool :=
  match oc_u c with
  | UPort proto low high => (proto =? protocol) && (low <=? port) && (port <=? high)
  | _ => false
  end.
Definition name_match (name : string) (c : ocontext) : bool := bool_decide (nm c = name).
(** [addr] is the network of the entry [input] belongs to. *)
Definition node_match (input : list N) (c : ocontext) : bool :=
  match oc_u c with UNode a m | UNode6 a m => masked_eq input a m | _ => false end.

Lemma masked_app x1 x2 a1 a2 m1 m2 :
  length x1 = length a1 → length x1 = length m1 →
  masked_eq (x1 ++ x2) (a1 ++ a2) (m1 ++ m2) = masked_eq x1 a1 m1 && masked_eq x2 a2 m2.
Proof.
  intros Ha Hm. unfold masked_eq. rewrite zip_with_app by done. rewrite <- bool_decide_and.
  apply bool_decide_ext. split.
  - intros E. apply app_inj_1 in E; [done|]. rewrite length_zip_with. lia.
  - by intros [-> ->].
Qed.

Definition words_of (a : list N) (idx : list nat) : list N := idx ≫= λ i, take 4 (drop (4 * i) a).

Lemma words_16 a : length a = 16%nat → words_of a [0; 1; 2; 3]%nat = a.
Proof. intros Ha. do 16 (destruct a as [|? a]; [discriminate Ha|]). destruct a; [done|discriminate Ha]. Qed.

Lemma length_word i (a : list N) : (4 * i + 4 ≤ length a)%nat → length (take 4 (drop (4 * i) a)) = 4%nat.
Proof. intros. rewrite length_take, length_drop. lia. Qed.

Lemma match_words_spec x a m idx o :
  Forall (λ i, (4 * i + 4 ≤ length x)%nat ∧ (4 * i + 4 ≤ length a)%nat ∧ (4 * i + 4 ≤ length m)%nat) idx →
  match_words x a m idx o = Ret (masked_eq (words_of x idx) (words_of a idx) (words_of m idx)) o.
Proof.
  induction 1 as [|i idx (Hx & Ha & Hm) _ IH]; [done|]. cbn [match_words]. unfold word_bytes.
  rewrite !(proj2 (Nat.leb_le _ _)) by done. unfold words_of. rewrite !bind_cons, masked_app by (by rewrite !length_word).
  rewrite !bind_run. unfold mret at 1, M_ret at 1. rewrite bind_run. unfold mret at 1, M_ret at 1.
  rewrite bind_run. unfold mret at 1, M_ret at 1. destruct (masked_eq (take _ _) _ _); cbn [negb andb]; [exact IH|done].
Qed.

(** The test word by word is the test of the whole address. *)
Lemma match_ipv6_spec x a m o :
  length x = 16%nat → length a = 16%nat → length m = 16%nat →
  match_ipv6_addrmask x a m o = Ret (masked_eq x a m) o.
Proof.
  intros Hx Ha Hm. unfold match_ipv6_addrmask. rewrite match_words_spec by (rewrite Hx, Ha, Hm; repeat constructor; lia).
  by rewrite !words_16.
Qed.

Lemma kind_name i c : (i = OCON_FS ∨ i = OCON_NETIF ∨ i = OCON_FSUSE) → kind_u false i (oc_u c) && sized (oc_u c) = true → named c.
Proof. unfold named, nm. intros [-> | [-> | ->]]; by destruct (oc_u c). Qed.

Lemma name_is_run name c o : named c → name_is name c o = Ret (name_match name c) o.
Proof.
  intros Hc. unfold name_is, name_match. rewrite bind_run, oc_name_named by done.
  unfold mret, M_ret. f_equal. apply eq_true_iff_eq. by rewrite strcmp_zero, bool_decide_eq_true.
Qed.

Lemma typed_list L i : labels_wf L → i < 7 →
  ∃ l, lb_ocontexts L !! N.to_nat i = Some l ∧ ∀ c, c ∈ l → kind_u false i (oc_u c) && sized (oc_u c) = true.
Proof.
  intros [_ Ht _ _ _] Hi. destruct (Ht i Hi) as (l & Hl & Hk). exists l. split; [done|].
  intros c Hc. exact (proj1 (Forall_forall _ _) Hk c Hc).
Qed.

(** ** File systems *)

Lemma find_genfs_spec g fs : StronglySorted fs_before g →
  match find_genfs g fs with
  | Some (pre, gf, post) => g = pre ++ gf :: post ∧ fstype gf = fs
  | None => ∀ gf, gf ∈ g → fstype gf ≠ fs
  end.
Proof.
  induction 1 as [|gf g Hs IH Hgf]; [by intros gf Hgf%elem_of_nil|]. cbn [find_genfs]. cbv zeta.
  destruct (Z.leb_spec (strcmp fs (fstype gf)) 0) as [Hle|Hgt].
  - destruct (strcmp fs (fstype gf) =? 0)%Z eqn:E0; [split; [done|symmetry; by apply strcmp_zero]|].
    apply Z.eqb_neq in E0. assert (0 < strcmp (fstype gf) fs)%Z as Hlt.
    { apply (proj2 (cmp_gt_lt (cmp := symcmp) _ _)). unfold symcmp. lia. }
    assert (∀ x, 0 < strcmp x fs → x ≠ fs)%Z as Hne.
    { intros x Hx ->. pose proof (proj2 (cmp_eq (cmp := symcmp) fs fs) eq_refl) as E. unfold symcmp in E. lia. }
    intros x [-> |Hx]%elem_of_cons; [by apply Hne|]. apply Hne.
    exact (cmp_trans (cmp := symcmp) _ _ _ (proj1 (Forall_forall _ _) Hgf _ Hx) Hlt).
  - destruct (find_genfs g fs) as [[[pre x] post]|]; cbn.
    + destruct IH as [-> Hx]. done.
    + intros x [-> |Hx]%elem_of_cons; [|by apply IH]. intros <-.
      pose proof (proj2 (cmp_eq (cmp := symcmp) (fstype gf) (fstype gf)) eq_refl) as E. unfold symcmp in E. lia.
Qed.

Definition path_match (path : string) (sclass : N) (c : ocontext) : bool :=
  ((oc_v c =? 0) || (sclass =? oc_v c)) && String.prefix (nm c) path.

Lemma strncmp_prefix n path : (strncmp n path (String.length n) =? 0)%Z = String.prefix n path.
Proof.
  revert path. induction n as [|c n IH]; intros [|d path]; cbn; try done.
  destruct (Ascii.ascii_dec c d) as [-> |Hne]; [by rewrite N.eqb_refl|].
  rewrite (proj2 (N.eqb_neq _ _)); [by destruct (_ <? _)|]. intros E. apply Hne.
  apply (f_equal Ascii.ascii_of_N) in E. by rewrite !Ascii.ascii_N_embedding in E.
Qed.

Lemma prefix_unique a b path :
  String.prefix a path = true → String.prefix b path = true → strlen a = strlen b → a = b.
Proof.
  revert b path. induction a as [|c a IH]; intros [|d b] path Ha Hb Hl; unfold strlen in *; cbn in Hl; try done.
  destruct path as [|e path]; [done|]. cbn in Ha, Hb.
  destruct (Ascii.ascii_dec c e) as [-> |]; [|done]. destruct (Ascii.ascii_dec d e) as [-> |]; [|done].
  f_equal. eapply IH; [done|done|]. unfold strlen. lia.
Qed.

Lemma path_is_run path sclass c o : named c → path_is path sclass c o = Ret (path_match path sclass c) o.
Proof. intros Hc. unfold path_is, path_match. rewrite bind_run, oc_name_named by done. by rewrite strncmp_prefix. Qed.

(** Two entries that apply to the same path and class, with names of the same
    length, would have the same name. *)
Lemma match_conflict path sclass a b :
  path_match path sclass a = true → path_match path sclass b = true → strlen (nm a) = strlen (nm b) → conflict a b.
Proof.
  unfold path_match, conflict. intros [Hva Ha]%andb_true_iff [Hvb Hb]%andb_true_iff Hl.
  split; [by eapply prefix_unique|]. reflect_bools; naive_solver.
Qed.

Lemma first_is_longest path sclass pre c post :
  entries_wf (pre ++ c :: post) → path_match path sclass c = true → Forall (λ x, path_match path sclass x = false) pre →
  ∀ d, d ∈ pre ++ c :: post → path_match path sclass d = true → d = c ∨ strlen (nm d) < strlen (nm c).
Proof.
  intros [_ Hs] Hc Hpre d [Hd|Hd]%elem_of_app Hm.
  - pose proof (proj1 (Forall_forall _ _) Hpre _ Hd). cbn in *. congruence.
  - apply elem_of_cons in Hd as [-> |Hd]; [by left|]. right.
    assert (before c d) as [Hle Hno].
    { clear - Hs Hd. induction pre as [|a pre IH]; cbn in Hs; apply StronglySorted_inv in Hs as [Hs Ha]; [|auto].
      exact (proj1 (Forall_forall _ _) Ha _ Hd). }
    destruct (N.eq_dec (strlen (nm d)) (strlen (nm c))) as [E|E]; [|lia]. destruct Hno. by eapply match_conflict.
Qed.

Lemma genfs_replace L gpre fs pre c post gpost s' c' :
  labels_wf L → lb_genfs L = gpre ++ Genfs fs (pre ++ c :: post) :: gpost →
  sidtab_wf s' → st_map (lb_sids L) ⊆ st_map s' → erase_sids c' = erase_sids c → cached (st_map s') c' →
  let L' := Labels (lb_ocontexts L) (gpre ++ Genfs fs (pre ++ c' :: post) :: gpost) s' in
  labels_wf L' ∧ contents L' = contents L.
Proof.
  intros [Hs Ht [Hg1 Hg2] Hc Hgc] Hi Hs' Hsub He Hc' L'. rewrite Hi in *. destruct (erase_kind _ _ He) as (Eu & Ev & _).
  assert (nm c' = nm c) as En by (unfold nm; by rewrite Eu). split; [split; cbn|].
  - done.
  - done.
  - split.
    + revert Hg1. clear. induction gpre as [|a g IH]; cbn; intros [Hs Ha]%StronglySorted_inv.
      * by constructor.
      * constructor; [by apply IH|]. eapply forall_replace; [|exact Ha].
        apply Forall_app in Ha as [_ Ha]. by apply Forall_cons in Ha as [? _].
    + eapply forall_replace; [|exact Hg2]. cbn. apply Forall_app in Hg2 as [_ Hg2].
      apply Forall_cons in Hg2 as [[Hn Hb] _]. cbn in *. split.
      * eapply forall_replace; [|exact Hn]. unfold named, nm. rewrite Eu.
        apply Forall_app in Hn as [_ Hn]. by apply Forall_cons in Hn as [? _].
      * clear - Hb En Ev. assert (∀ x, (before x c → before x c') ∧ (before c x → before c' x)) as Hx.
        { intros x. unfold before, conflict. by rewrite En, Ev. }
        induction pre as [|a g IH]; cbn in *; apply StronglySorted_inv in Hb as [Hb Ha].
        -- constructor; [done|]. eapply Forall_impl; [exact Ha|]. intros y. apply Hx.
        -- constructor; [by apply IH|]. eapply forall_replace; [|exact Ha]. apply Hx.
           apply Forall_app in Ha as [_ Ha]. by apply Forall_cons in Ha as [? _].
  - eapply Forall_impl; [exact Hc|]. intros l. by apply all_cached_mono.
  - assert (Forall (λ gf, Forall (cached (st_map s')) (gf_head gf)) (gpre ++ Genfs fs (pre ++ c :: post) :: gpost)) as H'.
    { eapply Forall_impl; [exact Hgc|]. intros gf. by apply all_cached_mono. }
    eapply forall_replace; [|exact H']. cbn. eapply forall_replace; [done|].
    apply Forall_app in H' as [_ H']. apply Forall_cons in H' as [H' _]. exact H'.
  - unfold contents, L'. cbn. rewrite Hi. f_equal. apply fmap_replace. cbn. f_equal. by apply fmap_replace.
Qed.

Lemma fs_unique pre gf post x :
  StronglySorted fs_before (pre ++ gf :: post) → x ∈ pre ++ gf :: post → fstype x = fstype gf → x = gf.
Proof.
  assert (∀ a b, fs_before a b → fstype a ≠ fstype b) as Hne.
  { intros a b Hab E. unfold fs_before in Hab. rewrite E in Hab.
    pose proof (proj2 (cmp_eq (cmp := symcmp) (fstype b) (fstype b)) eq_refl) as Hz. unfold symcmp in Hz. lia. }
  intros Hs Hx E. induction pre as [|a pre IH]; cbn in *; apply StronglySorted_inv in Hs as [Hs Ha];
    apply elem_of_cons in Hx as [-> |Hx]; [done| | |by apply IH].
  - destruct (Hne gf x); [exact (proj1 (Forall_forall _ _) Ha _ Hx)|done].
  - destruct (Hne a gf); [|done]. apply (proj1 (Forall_forall _ _) Ha). set_solver.
Qed.

Lemma genfs_sid_spec L fs path sclass o : labels_wf L →
  wp (sepol_genfs_sid L fs path sclass) o (λ r o', let '(rc, L', out) := r in
    labels_wf L' ∧ contents L' = contents L ∧ st_map (lb_sids L) ⊆ st_map (lb_sids L') ∧
    ((∃ gf c, gf ∈ lb_genfs L ∧ fstype gf = fs ∧ c ∈ gf_head gf ∧ path_match path sclass c = true ∧
        (∀ d, d ∈ gf_head gf → path_match path sclass d = true → d = c ∨ strlen (nm d) < strlen (nm c)) ∧
        (rc = 0%Z ∧ (∃ sid, out = Some sid ∧ names_one (st_map (lb_sids L')) c sid)
         ∨ rc = (- ENOMEM)%Z ∧ out = None ∧ no_sids (lb_sids L') o))
     ∨ rc = (- ENOENT)%Z ∧ L' = L ∧ out = Some SECINITSID_UNLABELED ∧
       ∀ gf c, gf ∈ lb_genfs L → fstype gf = fs → c ∈ gf_head gf → path_match path sclass c = false)).
Proof.
  intros HL. unfold sepol_genfs_sid. pose proof HL as [Hs _ [Hg1 Hg2] _ Hgc].
  pose proof (find_genfs_spec (lb_genfs L) fs Hg1) as Hfind.
  destruct (find_genfs (lb_genfs L) fs) as [[[gpre [fs' l]] gpost]|].
  2:{ apply wp_ret. split_and!; try done. right. split_and!; try done. intros gf c Hgf E. by apply Hfind in Hgf. }
  destruct Hfind as [HG <-]. cbn [gf_head fstype].
  assert (Genfs fs' l ∈ lb_genfs L) as Hin by (rewrite HG; set_solver).
  destruct (proj1 (Forall_forall _ _) Hg2 _ Hin) as [Hnamed Hsort]. cbn [gf_head] in *.
  wp_step. destruct (find_ocontext_spec (path_is path sclass) (path_match path sclass) l o) as (r & Hr & Hpost).
  { intros c o1 Hc. apply path_is_run. exact (proj1 (Forall_forall _ _) Hnamed _ Hc). }
  unfold wp at 1. rewrite Hr. destruct r as [[[pre c] post]|].
  - destruct Hpost as (-> & Hc & Hpre & _). wp_step.
    pose proof (proj1 (Forall_forall _ _) Hgc _ Hin) as Hcc. cbn [gf_head] in Hcc.
    apply Forall_app in Hcc as [_ Hcc]. apply Forall_cons in Hcc as [Hcc _].
    eapply wp_mono; [by apply give_sid_spec|]. intros [[rc s'] c'] o' [_ (Hs' & Hsub & He & Hc' & Hrc)]. apply wp_ret.
    destruct (genfs_replace L gpre fs' pre c post gpost s' c' HL HG Hs' Hsub He Hc') as [HL' Hcont].
    split; [done|]. split; [done|]. split; [done|]. left. exists (Genfs fs' (pre ++ c :: post)), c. cbn [gf_head fstype lb_sids].
    split_and!; try done; [set_solver|by apply first_is_longest|].
    destruct Hrc as [(-> & H0 & _)|[-> Hno]]; [left|by right]. split; [done|]. exists (oc_sid0 c'). split; [done|].
    unfold names_one. rewrite <- (proj1 (proj2 (proj2 (erase_kind _ _ He)))). by apply cached_sid0.
  - destruct Hpost as [Hall _]. apply wp_ret. split_and!; try done. right. split_and!; try done.
    intros gf c Hgf E Hc. assert (gf = Genfs fs' l) as ->.
    { rewrite HG in Hg1, Hgf. by eapply fs_unique. }
    exact (proj1 (Forall_forall _ _) Hall _ Hc).
Qed.

(** * Initial SIDs *)

Lemma sidtab_new_wf : sidtab_wf (Sidtab (Some (replicate (N.to_nat SIDTAB_SIZE) [])) 0 1 0) ∧
  st_map (Sidtab (Some (replicate (N.to_nat SIDTAB_SIZE) [])) 0 1 0) = ∅.
Proof.
  assert (st_map (Sidtab (Some (replicate (N.to_nat SIDTAB_SIZE) [])) 0 1 0) = ∅) as Hm by by vm_compute.
  split; [|done]. split_and!; [|intros sid c; rewrite Hm; by rewrite lookup_empty|done|done].
  eexists. split; [done|]. split; [|done].
  split; try done; [apply _|intros; apply sid_hash_lt| |by apply (bool_decide_unpack _); vm_compute].
  intros i c [-> _]%lookup_replicate. split; constructor.
Qed.

(** Why the initial SIDs of [l] cannot be entered in [s]. *)
Definition isids_bad (l : list ocontext) (s : sidtab) (o : oracle) : Prop :=
  o ≠ [] ∨ Exists (λ c, user (oc_context0 c) = 0) l ∨ ¬ NoDup (oc_sid0 <$> l) ∨
  Exists (λ c, is_Some (st_map s !! oc_sid0 c)) l.

Lemma load_loop_spec l s o :
  sidtab_wf s → Forall (λ c, 0 < oc_sid0 c ∧ oc_sid0 c < UINT_MAX) l →
  wp (load_isids_loop l s) o (λ r o', let '(rc, s') := r in
    (o = [] → o' = []) ∧ sidtab_wf s' ∧ st_map s ⊆ st_map s' ∧
    (rc = 0%Z ∧ Forall (λ c, st_map s' !! oc_sid0 c = Some (oc_context0 c)) l ∨ rc = (-1)%Z ∧ isids_bad l s o)).
Proof.
  intros Hs Hl. revert s o Hs. induction Hl as [|c l [Hpos Hmax] _ IH]; intros s o Hs; cbn [load_isids_loop].
  { apply wp_ret. split_and!; try done. by left. }
  unfold isids_bad. destruct (N.eqb_spec (user (oc_context0 c)) 0) as [E|E].
  { apply wp_ret. split_and!; try done. right. split; [done|]. right. left. by left. }
  wp_step. eapply wp_mono; [by apply insert_sid_spec|]. intros [rc r] o1 [Ho Hr]. wp_step. apply wp_deref.
  destruct Hr as [[[= -> ->] Hdup]|[[[= -> ->] Hoom]|(s1 & [= -> ->] & Hnone & Hs1 & Hm & _)]]; cbn [fst snd];
    eexists; (split; [done|]); cbn [Z.eqb Z.opp EEXIST ENOMEM negb].
  - apply wp_ret. split_and!; try done. right. split; [done|]. right. right. right. by left.
  - apply wp_ret. split_and!; try done. right. split; [done|]. by left.
  - eapply wp_mono; [by apply IH|]. intros [rc s'] o2 (Ho2 & Hs' & Hsub & Hrc). split; [naive_solver|]. split; [done|].
    rewrite Hm in Hsub. split; [etrans; [|exact Hsub]; by apply insert_subseteq|].
    destruct Hrc as [[-> Hall]|[-> Hbad]]; [left|right]; (split; [done|]).
    + constructor; [|done]. eapply lookup_weaken; [|exact Hsub]. apply lookup_insert_eq.
    + destruct Hbad as [?|[?|[Hnd|Hex]]]; [left; naive_solver|right; left; by right| |].
      * right. right. left. intros [_ ?]%NoDup_cons. done.
      * apply Exists_exists in Hex as (d & Hd & Hsome). rewrite Hm in Hsome. destruct (N.eq_dec (oc_sid0 d) (oc_sid0 c)) as [Eq|Ne].
        -- right. right. left. intros [Hn _]%NoDup_cons. apply Hn. rewrite <- Eq. by apply list_elem_of_fmap_2.
        -- right. right. right. right. rewrite lookup_insert_ne in Hsome by done. apply Exists_exists. by exists d.
Qed.

(** * Theorems *)

Definition oc_list (L : labels) (i : N) : list ocontext := default [] (lb_ocontexts L !! N.to_nat i).

Lemma oc_list_typed L i : labels_wf L → i < 7 →
  lb_ocontexts L !! N.to_nat i = Some (oc_list L i) ∧
  ∀ c, c ∈ oc_list L i → kind_u false i (oc_u c) && sized (oc_u c) = true.
Proof. intros HL Hi. destruct (typed_list L i HL Hi) as (l & Hl & Hk). unfold oc_list. by rewrite Hl. Qed.

(** C34: the SID of a port, interface, device or node is that of the first entry
    that matches: the protocol and a range of ports, the name, the address under
    the mask (for IPv6 word by word, which is the whole address).  The SIDs
    returned name the entry's contexts in the SID table; without an entry they
    are the initial SIDs, and nothing changes.  A lookup changes no label: it
    only adds SIDs to the table and keeps them in the entry, so that every SID
    kept still names its context.  It fails only with -ENOMEM. *)
Theorem object_sids_first_match L domain type protocol port name addr addr6 o :
  labels_wf L → length addr = 4%nat → length addr6 = 16%nat →
  wp (sepol_port_sid L domain type protocol port) o (λ r _,
    answers L (List.find (port_match protocol port) (oc_list L OCON_PORT)) SECINITSID_PORT names_one o r) ∧
  wp (sepol_netif_sid L name) o (λ r _,
    answers L (List.find (name_match name) (oc_list L OCON_NETIF)) (SECINITSID_NETIF, SECINITSID_NETMSG) names_two o r) ∧
  wp (sepol_fs_sid L name) o (λ r _,
    answers L (List.find (name_match name) (oc_list L OCON_FS)) (SECINITSID_FS, SECINITSID_FILE) names_two o r) ∧
  wp (sepol_node_sid L AF_INET addr 4) o (λ r _,
    answers L (List.find (node_match addr) (oc_list L OCON_NODE)) SECINITSID_NODE names_one o r) ∧
  wp (sepol_node_sid L AF_INET6 addr6 16) o (λ r _,
    answers L (List.find (node_match addr6) (oc_list L OCON_NODE6)) SECINITSID_NODE names_one o r).
Proof.
  intros HL H4 H16. split_and!.
  - destruct (oc_list_typed L OCON_PORT HL ltac:(done)) as [Hl Hk]. apply lookup_one_spec; [done|done|].
    intros c o1 Hc%Hk. unfold port_is, port_match. by destruct (oc_u c).
  - destruct (oc_list_typed L OCON_NETIF HL ltac:(done)) as [Hl Hk]. apply lookup_two_spec; [done|done|].
    intros c o1 Hc%Hk. apply name_is_run. eapply kind_name; [|exact Hc]. auto.
  - destruct (oc_list_typed L OCON_FS HL ltac:(done)) as [Hl Hk]. apply lookup_two_spec; [done|done|].
    intros c o1 Hc%Hk. apply name_is_run. eapply kind_name; [|exact Hc]. auto.
  - destruct (oc_list_typed L OCON_NODE HL ltac:(done)) as [Hl Hk].
    unfold sepol_node_sid. change (AF_INET =? AF_INET) with true. change (negb (4 =? 4)) with false. cbv iota.
    wp_step. unfold word_bytes. rewrite H4. cbn [Nat.mul Nat.add Nat.leb]. apply wp_ret.
    rewrite drop_0, take_ge by (by rewrite H4). apply lookup_one_spec; [done|done|].
    intros c o1 Hc%Hk. unfold node_is, node_match. by destruct (oc_u c).
  - destruct (oc_list_typed L OCON_NODE6 HL ltac:(done)) as [Hl Hk].
    unfold sepol_node_sid. change (AF_INET6 =? AF_INET) with false. change (AF_INET6 =? AF_INET6) with true.
    change (negb (16 =? 16)) with false. cbv iota. apply lookup_one_spec; [done|done|].
    intros c o1 Hc%Hk. unfold node6_is, node_match. destruct (oc_u c); try done. cbn in Hc. reflect_bools.
    apply Nat.eqb_eq in H, H0. by apply match_ipv6_spec.
Qed.

(** C35: the label of a file by path.  In a policy whose entries are in the
    reader's order, [sepol_genfs_sid] answers with the one entry of the file
    system with the longest name that is a prefix of the path among the entries
    for the class or for all classes; the SID it returns names that entry's
    context.  It reports -ENOENT and the unlabeled SID exactly when no
    entry of the file system applies, whatever the order of the file systems. *)
Theorem genfs_longest_prefix L fs path sclass o :
  labels_wf L →
  wp (sepol_genfs_sid L fs path sclass) o (λ r _, let '(rc, L', out) := r in
    labels_wf L' ∧ contents L' = contents L ∧ st_map (lb_sids L) ⊆ st_map (lb_sids L') ∧
    ((∃ gf c, gf ∈ lb_genfs L ∧ fstype gf = fs ∧ c ∈ gf_head gf ∧ path_match path sclass c = true ∧
        (∀ d, d ∈ gf_head gf → path_match path sclass d = true → d = c ∨ strlen (nm d) < strlen (nm c)) ∧
        (rc = 0%Z ∧ (∃ sid, out = Some sid ∧ st_map (lb_sids L') !! sid = Some (oc_context0 c))
         ∨ rc = (- ENOMEM)%Z ∧ out = None ∧ no_sids (lb_sids L') o))
     ∨ rc = (- ENOENT)%Z ∧ L' = L ∧ out = Some SECINITSID_UNLABELED ∧
       ∀ gf c, gf ∈ lb_genfs L → fstype gf = fs → c ∈ gf_head gf → path_match path sclass c = false)).
Proof. apply genfs_sid_spec. Qed.

(** The object contexts as the reader leaves them: only initial SIDs have a SID. *)
Definition fresh (oc : list (list ocontext)) : Prop :=
  ∀ i l c, oc !! i = Some l → c ∈ l →
    oc_sid1 c = 0 ∧ (if decide (i = 0%nat) then 0 < oc_sid0 c ∧ oc_sid0 c < UINT_MAX else oc_sid0 c = 0).
Definition fresh_genfs (g : list genfs) : Prop :=
  Forall (λ gf, Forall (λ c, oc_sid0 c = 0 ∧ oc_sid1 c = 0) (gf_head gf)) g.

Lemma load_isids_spec oc g s o :
  typed oc → genfs_wf g → fresh oc → fresh_genfs g →
  wp (policydb_load_isids oc s) o (λ r _, let '(rc, s') := r in
    rc = 0%Z ∧ labels_wf (Labels oc g s') ∧
      (∀ c, c ∈ default [] (oc !! 0%nat) → st_map s' !! oc_sid0 c = Some (oc_context0 c))
    ∨ rc = (-1)%Z ∧ (o ≠ [] ∨ Exists (λ c, user (oc_context0 c) = 0) (default [] (oc !! 0%nat)) ∨
                     ¬ NoDup (oc_sid0 <$> default [] (oc !! 0%nat)))).
Proof.
  intros Ht Hg Hf Hfg. unfold policydb_load_isids, sepol_sidtab_init. wp_step. wp_step. wp_step.
  intros [] o1 Ho1; cbn [negb].
  2:{ apply wp_ret. change (- ENOMEM =? 0)%Z with false. cbn [negb]. apply wp_ret. right. split; [done|]. left. naive_solver. }
  apply wp_ret. change (0 =? 0)%Z with true. cbn [negb]. destruct (Ht 0 ltac:(done)) as (l & Hl & _).
  change (N.to_nat 0) with 0%nat in Hl. wp_step. apply wp_deref. exists l. split; [done|]. rewrite Hl. cbn [default from_option id].
  destruct sidtab_new_wf as [Hwf Hm]. eapply wp_mono; [apply load_loop_spec; [exact Hwf|]|].
  { apply Forall_forall. intros c Hc. by destruct (Hf _ _ _ Hl Hc) as [_ ?]. }
  intros [rc s'] o2 (Ho & Hwf' & Hsub & Hrc). destruct Hrc as [[-> Hall]|[-> Hbad]].
  - left. split; [done|]. split; [|by apply Forall_forall]. split; cbn; try done.
    + apply Forall_lookup_2. intros i l' Hi. apply Forall_forall. intros c Hc.
      destruct (Hf _ _ _ Hi Hc) as [E1 E0]. split; [|by rewrite E1]. destruct (decide (i = 0%nat)) as [-> |]; [|by rewrite E0].
      intros _. rewrite Hl in Hi. injection Hi as <-. exact (proj1 (Forall_forall _ _) Hall _ Hc).
    + eapply Forall_impl; [exact Hfg|]. intros gf Hgf. eapply Forall_impl; [exact Hgf|]. intros c [E0 E1].
      split; [by rewrite E0|by rewrite E1].
  - right. split; [done|]. destruct Hbad as [?|[?|[?|Hex]]]; [left; naive_solver|by right; left|by right; right|].
    apply Exists_exists in Hex as (c & _ & Hsome). rewrite Hm, lookup_empty in Hsome. by destruct Hsome.
Qed.

(** [policydb_load_isids] gives a policy just read the state the lookups
    rely on: it succeeds unless memory runs out, an initial SID has no context
    or is declared twice, and then every initial SID names its context. *)
Theorem load_isids_establishes oc g s o :
  typed oc → genfs_wf g → fresh oc → fresh_genfs g →
  wp (policydb_load_isids oc s) o (λ r _, let '(rc, s') := r in
    rc = 0%Z ∧ labels_wf (Labels oc g s') ∧
      (∀ c, c ∈ default [] (oc !! 0%nat) → st_map s' !! oc_sid0 c = Some (oc_context0 c))
    ∨ rc = (-1)%Z ∧ (o ≠ [] ∨ Exists (λ c, user (oc_context0 c) = 0) (default [] (oc !! 0%nat)) ∨
                     ¬ NoDup (oc_sid0 <$> default [] (oc !! 0%nat)))).
Proof. apply load_isids_spec. Qed.

(** * A policy with labels *)

Definition ex_isid : ocontext := Ocontext UNone 0 ex_mls_context context_init SECINITSID_UNLABELED 0.
Definition ex_port (low high : N) (c : context_struct) : ocontext := Ocontext (UPort 6 low high) 0 c context_init 0 0.
Definition ex_ocontexts : list (list ocontext) :=
  [[ex_isid]; []; [ex_port 80 80 ex_mls_context; ex_port 1 1023 ex_context]; [];
   [Ocontext (UNode [10; 0; 0; 0] [255; 0; 0; 0]) 0 ex_context context_init 0 0]; []; []].
Definition ex_sids : sidtab := Sidtab (Some (<[3%nat := [(3, ex_mls_context)]]> (replicate 128 []))) 1 4 0.
Definition ex_labels : labels := Labels ex_ocontexts ex_genfs ex_sids.

Lemma ex_typed : typed ex_ocontexts.
Proof.
  intros i Hi. assert (i = 0 ∨ i = 1 ∨ i = 2 ∨ i = 3 ∨ i = 4 ∨ i = 5 ∨ i = 6) as E by lia.
  repeat destruct E as [-> |E]; subst; (eexists; split; [reflexivity|]); by repeat constructor.
Qed.

Lemma ex_fresh_ocontexts : fresh ex_ocontexts.
Proof.
  intros i l c Hi Hc. do 7 (destruct i as [|i]; [injection Hi as <-; set_unfold in Hc; naive_solver|]). done.
Qed.

Lemma ex_fresh_genfs : fresh_genfs ex_genfs.
Proof. by repeat constructor. Qed.

Lemma ex_labels_wf : labels_wf ex_labels.
Proof.
  pose proof (load_isids_spec ex_ocontexts ex_genfs ex_sidtab [] ex_typed ex_genfs_wf ex_fresh_ocontexts ex_fresh_genfs) as H.
  unfold wp in H. assert (policydb_load_isids ex_ocontexts ex_sidtab [] = Ret (0%Z, ex_sids) []) as E by by vm_compute.
  rewrite E in H. by destruct H as [(_ & H & _)|[[=] _]].
Qed.

Lemma load_isids_establishes_witness :
  ∃ s, policydb_load_isids ex_ocontexts ex_sidtab [] = Ret (0%Z, s) [] ∧ labels_wf (Labels ex_ocontexts ex_genfs s).
Proof.
  pose proof (load_isids_establishes ex_ocontexts ex_genfs ex_sidtab [] ex_typed ex_genfs_wf ex_fresh_ocontexts ex_fresh_genfs) as H.
  exists ex_sids. assert (policydb_load_isids ex_ocontexts ex_sidtab [] = Ret (0%Z, ex_sids) []) as E by by vm_compute.
  unfold wp in H. rewrite E in H. split; [exact E|]. by destruct H as [(_ & H & _)|[[=] _]].
Defined.

(** Port 443 has the label of the second range. *)
Lemma object_sids_first_match_witness :
  ∃ L sid, sepol_port_sid ex_labels 0 0 6 443 [] = Ret (0%Z, L, Some sid) [] ∧
    st_map (lb_sids L) !! sid = Some ex_context ∧ labels_wf L.
Proof.
  destruct (object_sids_first_match ex_labels 0 0 6 443 "eth0" [10; 1; 2; 3] (replicate 16 0) [] ex_labels_wf eq_refl eq_refl)
    as [H _].
  destruct (sepol_port_sid ex_labels 0 0 6 443 []) as [[[rc L] out] o'|] eqn:E; [|by vm_compute in E].
  unfold wp in H. rewrite E in H. destruct H as (HL & _ & _ & H).
  change (List.find _ _) with (Some (ex_port 1 1023 ex_context)) in H.
  destruct H as [[-> (sid & -> & Hs)]|(-> & _)]; [|by vm_compute in E].
  exists L, sid. split; [|by split]. f_equal. clear - E. vm_compute in E. by injection E.
Defined.

(** A directory below /net: two entries apply. *)
Lemma genfs_longest_prefix_witness :
  ∃ L sid, sepol_genfs_sid ex_labels "proc" "/net/tcp" 7 [] = Ret (0%Z, L, Some sid) [] ∧
    st_map (lb_sids L) !! sid = Some ex_mls_context ∧ labels_wf L.
Proof.
  pose proof (genfs_longest_prefix ex_labels "proc" "/net/tcp" 7 [] ex_labels_wf) as H.
  destruct (sepol_genfs_sid ex_labels "proc" "/net/tcp" 7 []) as [[[rc L] out] o'|] eqn:E; [|by vm_compute in E].
  unfold wp in H. rewrite E in H. destruct H as (HL & _ & _ & H).
  destruct H as [(gf & c & Hgf & _ & Hc & _ & _ & H)|(-> & _)]; [|by vm_compute in E].
  destruct H as [[-> (sid & -> & Hs)]|(-> & _)]; [|by vm_compute in E].
  exists L, sid. split; [f_equal; clear - E; vm_compute in E; by injection E|]. split; [|done].
  rewrite Hs. f_equal. unfold ex_labels, ex_genfs in Hgf. cbn in Hgf. set_unfold in Hgf.
  destruct Hgf as [E1|[E1|[]]]; subst gf; cbn in Hc; set_unfold in Hc; naive_solver.
Defined.

(** [sepol_fs_use] takes a failure to assign a SID for the absence of labels: it
    reports success without having stored a SID. *)
Example fs_use_oom : sepol_fs_use (Labels ex_ocontexts [Genfs "proc" [Ocontext (UName "/") 0 ex_context context_init 0 0]] ex_sids) "proc" [false] =
  Ret (0%Z, Labels ex_ocontexts [Genfs "proc" [Ocontext (UName "/") 0 ex_context context_init 0 0]] ex_sids,
       Some SECURITY_FS_USE_NONE, None) [].
Proof. by vm_compute. Qed.
