(* ===== verification/ModuleIO.v ===== *)
(** The part of the policy file that only modules have: the blocks of rules
    with their declarations, and the scopes of symbols.  Readers of
    libsepol/src/policydb.c and conditional.c, writers of libsepol/src/write.c.

    Lists read are linked behind the last node.  The conditional table that
    [cond_read_list] allocates is threaded through the readers. *)

From S2P Require Import Prelude Ebitmap PolicyFile Hashtab MlsTypes Avtab Policydb Mls Conditional Assertion PolicyIO SymbolIO Expand.
Local Open Scope N_scope.

(** * Data *)

Definition AVRULE_XPERMS : N := 3840.
Definition AVRULE_OPTIONAL : N := 1.
Definition COND_LAST : N := 7.
Definition MOD_POLICYDB_VERSION_FILENAME_TRANS : N := 11.
Definition MOD_POLICYDB_VERSION_ROLETRANS : N := 12.
Definition MOD_POLICYDB_VERSION_RANGETRANS : N := 6.

Record role_trans_rule := RoleTransRule {
  rtr_roles : role_set; rtr_types : type_set; rtr_classes : ebitmap; rtr_new_role : N }.
Record role_allow_rule := RoleAllowRule { rar_roles : role_set; rar_new_roles : role_set }.
Record filename_trans_rule := FilenameTransRule {
  ftr_stypes : type_set; ftr_ttypes : type_set; ftr_tclass : N; ftr_name : string; ftr_otype : N }.

(** A conditional block of a module: its rules are not compiled yet. *)
Record mod_cond := ModCond {
  mc_state : Z; mc_exprs : list cond_expr; mc_true : list avrule; mc_false : list avrule; mc_flags : N }.

Record scope_index := ScopeIndex { si_scope : list ebitmap; si_class_perms : list ebitmap }.

Record decl_tables := DeclTables {
  dt_commons : symtab common_datum; dt_classes : symtab class_datum; dt_roles : symtab role_datum;
  dt_types : symtab type_datum; dt_users : symtab user_datum; dt_bools : symtab cond_bool_datum;
  dt_levels : symtab level_datum; dt_cats : symtab cat_datum }.

Record avrule_decl := AvruleDecl {
  decl_id : N; decl_enabled : N; decl_conds : list mod_cond; decl_avrules : list avrule;
  role_tr_rules : list role_trans_rule; role_allow_rules : list role_allow_rule;
  filename_trans_rules : list filename_trans_rule; range_tr_rules : list range_trans_rule;
  required : scope_index; declared : scope_index; decl_symtab : decl_tables }.

(** [enabled] points to a member of the list: its place. *)
Record avrule_block := AvruleBlock { branch_list : list avrule_decl; enabled : option nat; block_flags : N }.

Record scope_datum := ScopeDatum { scope : N; decl_ids : list N }.

(** * Writing *)

Definition avrule_write (r : avrule) : io unit :=
  if truth (N.land (ar_specified r) AVRULE_XPERMS) then io_fail POLICYDB_ERROR else
  _ ← put_words [ar_specified r; ar_flags r];
  _ ← type_set_write (ar_stypes r);
  _ ← type_set_write (ar_ttypes r);
  _ ← put_words [N.of_nat (length (ar_perms r))];
  io_list (λ c, put_words [cp_tclass c; cp_data c]) (ar_perms r).

Definition put_list {A} (f : A → io unit) (l : list A) : io unit :=
  _ ← put_words [N.of_nat (length l)]; io_list f l.

Definition avrule_write_list : list avrule → io unit := put_list avrule_write.

(** The fields of [cond_write_node] with the rules of a module. *)
Definition mod_cond_write (v : write_params) (n : mod_cond) : io unit :=
  _ ← put_words [Z.to_N (mc_state n mod 2 ^ 32)];
  _ ← put_list (λ e, put_words [cexpr_type e; cexpr_bool e]) (mc_exprs n);
  _ ← avrule_write_list (mc_true n);
  _ ← avrule_write_list (mc_false n);
  when (has_tunables v) (put_words [mc_flags n]).

Definition mod_cond_write_list (v : write_params) : list mod_cond → io unit := put_list (mod_cond_write v).

Definition only_process (e : ebitmap) : M bool :=
  r ← ebitmap_for_each_bit e tt (λ i bit st,
        mret (if (bit : bool) && negb (i =? SECCLASS_PROCESS - 1) then inl false else inr st));
  mret match r with inl b => b | inr _ => true end.

Definition new_role (v : write_params) : bool := MOD_POLICYDB_VERSION_ROLETRANS <=? policyvers v.

(** [new_role || only_process(&tr->classes)]. *)
Definition role_tr_written (v : write_params) (tr : role_trans_rule) : M bool :=
  if new_role v then mret true else only_process (rtr_classes tr).

Fixpoint count_written (v : write_params) (l : list role_trans_rule) (nel : N) : M N :=
  match l with
  | [] => mret nel
  | tr :: l' => b ← role_tr_written v tr; count_written v l' (if b : bool then nel + 1 else nel)
  end.

Definition role_trans_rule_write (v : write_params) (l : list role_trans_rule) : io unit :=
  nel ← io_lift (count_written v l 0);
  _ ← put_words [nel];
  io_list (λ tr,
    b ← io_lift (role_tr_written v tr);
    if negb b then mret tt else
    _ ← role_set_write (rtr_roles tr);
    _ ← type_set_write (rtr_types tr);
    _ ← when (new_role v) (ebitmap_put (rtr_classes tr));
    put_words [rtr_new_role tr]) l.

Definition role_allow_rule_write : list role_allow_rule → io unit :=
  put_list (λ ra, _ ← role_set_write (rar_roles ra); role_set_write (rar_new_roles ra)).

Definition filename_trans_rule_write : list filename_trans_rule → io unit :=
  put_list (λ ft,
    _ ← put_words [strlen (ftr_name ft)];
    _ ← put_string (ftr_name ft);
    _ ← type_set_write (ftr_stypes ft);
    _ ← type_set_write (ftr_ttypes ft);
    put_words [ftr_tclass ft; ftr_otype ft]).

Definition range_trans_rule_write : list range_trans_rule → io unit :=
  put_list (λ rt,
    _ ← type_set_write (rtrr_stypes rt);
    _ ← type_set_write (rtrr_ttypes rt);
    _ ← ebitmap_put (rtrr_tclasses rt);
    mls_write_semantic_range_helper (rtrr_trange rt)).

Definition scope_index_write (num_scope_syms : nat) (s : scope_index) : io unit :=
  _ ← io_list (λ i, e ← io_lift (deref (si_scope s !! i)); ebitmap_put e) (seq 0 num_scope_syms);
  put_list ebitmap_put (si_class_perms s).

(** One table of a declaration. *)
Definition decl_write_symtabs (v : write_params) (num_syms : N) (d : decl_tables) : io unit :=
  _ ← write_symtab None common_write (dt_commons d);
  _ ← write_symtab None (class_write v) (dt_classes d);
  _ ← write_symtab None (role_write v) (dt_roles d);
  _ ← write_symtab None (type_write v) (dt_types d);
  _ ← write_symtab None (user_write v) (dt_users d);
  _ ← when (5 <? num_syms) (write_symtab None (cond_write_bool v) (dt_bools d));
  _ ← when (6 <? num_syms) (write_symtab None sens_write (dt_levels d));
  when (7 <? num_syms) (write_symtab None cat_write (dt_cats d)).

Definition avrule_decl_write (v : write_params) (num_syms : N) (d : avrule_decl) : io unit :=
  _ ← put_words [decl_id d; decl_enabled d];
  _ ← mod_cond_write_list v (decl_conds d);
  _ ← avrule_write_list (decl_avrules d);
  _ ← role_trans_rule_write v (role_tr_rules d);
  _ ← role_allow_rule_write (role_allow_rules d);
  _ ← when (MOD_POLICYDB_VERSION_FILENAME_TRANS <=? policyvers v) (filename_trans_rule_write (filename_trans_rules d));
  _ ← when (MOD_POLICYDB_VERSION_RANGETRANS <=? policyvers v) (range_trans_rule_write (range_tr_rules d));
  _ ← scope_index_write (N.to_nat num_syms) (required d);
  _ ← scope_index_write (N.to_nat num_syms) (declared d);
  decl_write_symtabs v num_syms (decl_symtab d).

Definition avrule_block_write (v : write_params) (num_syms : N) : list avrule_block → io unit :=
  put_list (λ b, put_list (avrule_decl_write v num_syms) (branch_list b)).

(** Thirty numbers fit the static buffer. *)
Definition scope_write (key : string) (d : scope_datum) : io unit :=
  let items := 2 + N.of_nat (length (decl_ids d)) in
  _ ← (if 32 <=? items then alloc POLICYDB_ERROR else mret tt);
  _ ← put_words [strlen key];
  _ ← put_string key;
  put_words (scope d :: N.of_nat (length (decl_ids d)) :: decl_ids d).

(** * Reading *)

Definition get_list {A} (f : io A) : io (list A) := buf ← get 4; io_read_list (le32_at buf 0) f.

Definition avrule_read : io avrule :=
  _ ← alloc (-1);
  buf ← get 8;
  stypes ← or_rc (-1) type_set_read;
  ttypes ← or_rc (-1) type_set_read;
  perms ← get_list (_ ← alloc (-1); b ← get 8; mret (ClassPerm (le32_at b 0) (le32_at b 1)));
  mret (AvRule (le32_at buf 0) (le32_at buf 1) stypes ttypes perms None).

Definition avrule_read_list : io (list avrule) := get_list avrule_read.

Definition expr_isvalid (nbools : N) (e : cond_expr) : bool :=
  negb (cexpr_type e =? 0) && (cexpr_type e <=? COND_LAST) && (cexpr_bool e <=? nbools).

(** [for (i = 0; i < len; i++)] with [len] an [int]. *)
Definition int_count (len : N) : N := Z.to_N (s32 len).

(** The expression of a conditional block. *)
Definition cond_exprs_read (nbools : N) : io (list cond_expr) :=
  buf ← get 4;
  io_read_list (int_count (le32_at buf 0)) (
    b ← get 8;
    _ ← alloc (-1);
    let e := CondExpr (le32_at b 0) (le32_at b 1) in
    if negb (expr_isvalid nbools e) then io_fail (-1) else mret e).

Definition mod_cond_read (v : write_params) (nbools : N) : io mod_cond :=
  st ← get 4;
  exprs ← cond_exprs_read nbools;
  t ← avrule_read_list;
  f ← avrule_read_list;
  flags ← (if has_tunables v then b ← get 4; mret (le32_at b 0) else mret 0);
  mret (ModCond (s32 (le32_at st 0)) exprs t f flags).

(** The conditional table [tab] is allocated for as many rules as [te_avtab]
    has. *)
Definition mod_cond_read_list (v : write_params) (nbools te_nel : N) (tab : avtab) : io (list mod_cond * avtab) :=
  buf ← get 4;
  tab ← io_checked (avtab_alloc tab te_nel);
  l ← io_read_list (int_count (le32_at buf 0)) (_ ← alloc (-1); mod_cond_read v nbools);
  mret (l, tab).

Definition role_trans_rule_read (v : write_params) : io (list role_trans_rule) :=
  get_list (
    _ ← alloc (-1);
    roles ← or_rc (-1) role_set_read;
    types ← or_rc (-1) type_set_read;
    classes ← (if new_role v then or_rc (-1) ebitmap_get
               else set_bit_or_fail ebitmap_init (SECCLASS_PROCESS - 1));
    buf ← get 4;
    mret (RoleTransRule roles types classes (le32_at buf 0))).

Definition role_allow_rule_read : io (list role_allow_rule) :=
  get_list (
    _ ← alloc (-1);
    roles ← or_rc (-1) role_set_read;
    new_roles ← or_rc (-1) role_set_read;
    mret (RoleAllowRule roles new_roles)).

(** [len] is an [unsigned int]. *)
Definition filename_trans_rule_read : io (list filename_trans_rule) :=
  get_list (
    _ ← alloc (-1);
    buf ← get 4;
    let len := le32_at buf 0 in
    name ← get_string (u32 (len + 1)) len;
    stypes ← or_rc (-1) type_set_read;
    ttypes ← or_rc (-1) type_set_read;
    b ← get 8;
    mret (FilenameTransRule stypes ttypes (le32_at b 0) name (le32_at b 1))).

Definition range_trans_rule_read : io (list range_trans_rule) :=
  get_list (
    _ ← alloc (-1);
    stypes ← or_rc (-1) type_set_read;
    ttypes ← or_rc (-1) type_set_read;
    tclasses ← or_rc (-1) ebitmap_get;
    trange ← or_rc (-1) mls_read_semantic_range_helper;
    mret (RangeTransRule stypes ttypes tclasses trange)).

(** [if (ebitmap_read(e, fp) == -1) return -1;]: other errors go on with the
    bitmap the failed reader left. *)
Definition ebitmap_get_unless_m1 : io ebitmap := λ fp,
  '(rc, e, fp) ← ebitmap_read fp; mret (if (rc =? -1)%Z then inl (-1)%Z else inr e, fp).

Definition scope_index_read (num_scope_syms : N) : io scope_index :=
  scopes ← io_read_list num_scope_syms ebitmap_get_unless_m1;
  buf ← get 4;
  let class_perms_len := le32_at buf 0 in
  _ ← (if class_perms_len =? 0 then mret tt else alloc (-1));
  maps ← io_read_list class_perms_len ebitmap_get_unless_m1;
  mret (ScopeIndex scopes maps).

Definition new_symtab {D} (size : N) : io (symtab D) := io_checked (symtab_init (Symtab None 0) size).

Definition decl_create_symtabs : io decl_tables :=
  commons ← new_symtab 2; classes ← new_symtab 32; roles ← new_symtab 16; types ← new_symtab 512;
  users ← new_symtab 128; bools ← new_symtab 16; levels ← new_symtab 16; cats ← new_symtab 16;
  mret (DeclTables commons classes roles types users bools levels cats).

(** The classes of a declaration refer to the commons of the policy. *)
Definition decl_read_symtabs (v : write_params) (num_syms : N) (commons : stable common_datum) (d : decl_tables)
    : io decl_tables :=
  co ← read_symtab common_read (dt_commons d);
  cl ← read_symtab (class_read v commons) (dt_classes d);
  ro ← read_symtab (role_read v) (dt_roles d);
  ty ← read_symtab (type_read v) (dt_types d);
  us ← read_symtab (user_read v) (dt_users d);
  bo ← (if 5 <? num_syms then read_symtab (cond_read_bool v) (dt_bools d) else mret (dt_bools d));
  le ← (if 6 <? num_syms then read_symtab sens_read (dt_levels d) else mret (dt_levels d));
  ca ← (if 7 <? num_syms then read_symtab cat_read (dt_cats d) else mret (dt_cats d));
  mret (DeclTables co cl ro ty us bo le ca).

(** What the readers of a declaration take from the policy. *)
Record decl_env := DeclEnv { de_nbools : N; de_te_nel : N; de_commons : stable common_datum }.

Definition avrule_decl_read (v : write_params) (num_syms : N) (g : decl_env) (tables : decl_tables) (tab : avtab)
    : io (avrule_decl * avtab) :=
  buf ← get 8;
  '(conds, tab) ← mod_cond_read_list v (de_nbools g) (de_te_nel g) tab;
  avrules ← avrule_read_list;
  role_tr ← role_trans_rule_read v;
  role_allow ← role_allow_rule_read;
  filename_tr ← (if MOD_POLICYDB_VERSION_FILENAME_TRANS <=? policyvers v then filename_trans_rule_read else mret []);
  range_tr ← (if MOD_POLICYDB_VERSION_RANGETRANS <=? policyvers v then range_trans_rule_read else mret []);
  req ← scope_index_read num_syms;
  dcl ← scope_index_read num_syms;
  tables ← decl_read_symtabs v num_syms (de_commons g) tables;
  mret (AvruleDecl (le32_at buf 0) (le32_at buf 1) conds avrules role_tr role_allow filename_tr range_tr req dcl tables,
        tab).

(** One branch of a block. *)
Definition branch_read (v : write_params) (num_syms : N) (g : decl_env) (st : avrule_block * avtab)
    : io (avrule_block * avtab) :=
  let '(b, tab) := st in
  _ ← alloc (-1);
  tables ← decl_create_symtabs;
  '(decl, tab) ← avrule_decl_read v num_syms g tables tab;
  let n := length (branch_list b) in
  let add en := AvruleBlock (branch_list b ++ [decl]) en (block_flags b) in
  if truth (decl_enabled decl) then
    match enabled b with
    | Some _ => io_fail (-1)
    | None => mret (add (Some n), tab)
    end
  else mret (add (enabled b), tab).

(** All blocks but the first are optional. *)
Definition avrule_block_read (v : write_params) (num_syms : N) (g : decl_env) (tab : avtab)
    : io (list avrule_block * avtab) :=
  buf ← get 4;
  io_times (N.to_nat (le32_at buf 0)) (λ '(blocks, tab),
    _ ← alloc (-1);
    b ← get 4;
    let flags := match blocks with [] => 0 | _ => AVRULE_OPTIONAL end in
    '(block, tab) ← io_times (N.to_nat (le32_at b 0)) (branch_read v num_syms g) (AvruleBlock [] None flags, tab);
    mret (blocks ++ [block], tab)) ([], tab).

(** [exists_symbol] is the search in the symbol table of the same kind, and
    [is_roles] tells the table of roles. *)
Definition scope_read (is_roles : bool) (exists_symbol : string → M bool) (h : stable scope_datum)
    : io (stable scope_datum) :=
  buf ← get 4;
  key ← get_string (le32_at buf 0 + 1) (le32_at buf 0);
  found ← io_lift (exists_symbol key);
  if negb found then io_fail (-1) else
  _ ← alloc (-1);
  buf ← get 8;
  let len := le32_at buf 1 in
  _ ← io_lift (assert (0 <? len));
  _ ← alloc (-1);
  ids ← get (4 * len);
  let d := ScopeDatum (le32_at buf 0) (le32_at ids <$> seq 0 (N.to_nat len)) in
  if (strcmp key OBJECT_R =? 0)%Z && is_roles then mret h else add_symbol h key d.

(** * Formats *)

Lemma put_list_writes {A} (w : A → io unit) bytes (P : A → Prop) l :
  (∀ a, P a → Writes (w a) (bytes a)) → Forall P l → Writes (put_list w l) (list_bytes bytes l).
Proof.
  intros Hw Hl. apply writes_bind; [apply writes_words|]. apply writes_list. intros a Ha.
  apply Hw. exact (proj1 (Forall_forall _ _) Hl a Ha).
Qed.

#[global] Instance list_codec {A B} w r bytes ok norm `{!Codec (A := A) (B := B) w r bytes ok norm} :
  Codec (put_list w) (get_list r) (list_bytes bytes) (λ l, u32s [N.of_nat (length l)] ∧ Forall ok l) (fmap norm).
Proof.
  split; intros l [Hlen Hl]; unfold list_bytes.
  - eapply put_list_writes; [by apply codec_writes|done].
  - unfold get_list. reads_step. word_at. apply reads_list; [done|]. intros a Ha.
    apply codec_reads. exact (proj1 (Forall_forall _ _) Hl a Ha).
Qed.

Lemma list_reads_norm {A B} w r bytes ok norm `{!Codec (A := A) (B := B) w r bytes ok norm} l :
  u32s [N.of_nat (length l)] → Forall ok l → Reads (get_list r) (list_bytes bytes l) (λ x, x = norm <$> l).
Proof. intros Hn Hl. exact (codec_reads l (conj Hn Hl)). Qed.

Lemma list_reads_id {A} w r bytes ok `{!Codec (A := A) (B := A) w r bytes ok id} l :
  u32s [N.of_nat (length l)] → Forall ok l → Reads (get_list r) (list_bytes bytes l) (λ x, x = l).
Proof.
  intros Hn Hl. eapply reads_mono; [exact (codec_reads l (conj Hn Hl))|]. intros x ->. by rewrite list_fmap_id.
Qed.

Lemma type_set_reads x : type_set_ok x → Reads type_set_read (type_set_bytes x) (λ y, y = x).
Proof. exact (codec_reads x). Qed.
Lemma type_set_writes x : type_set_ok x → Writes (type_set_write x) (type_set_bytes x).
Proof. exact (codec_writes x). Qed.
Lemma role_set_reads x : role_set_ok x → Reads role_set_read (role_set_bytes x) (λ y, y = x).
Proof. exact (codec_reads x). Qed.
Lemma role_set_writes x : role_set_ok x → Writes (role_set_write x) (role_set_bytes x).
Proof. exact (codec_writes x). Qed.
Lemma sem_range_reads x : sem_range_ok x →
  Reads mls_read_semantic_range_helper (sem_range_bytes x) (λ y, y = sem_range_norm x).
Proof. exact (codec_reads x). Qed.
Lemma sem_range_writes x : sem_range_ok x → Writes (mls_write_semantic_range_helper x) (sem_range_bytes x).
Proof. exact (codec_writes x). Qed.
#[export] Hint Resolve type_set_reads type_set_writes role_set_reads role_set_writes sem_range_reads sem_range_writes : codec.

(** ** Access vector rules *)

Definition class_perm_bytes (c : class_perm_node) : list N := words [cp_tclass c; cp_data c].
Definition class_perm_ok (c : class_perm_node) : Prop := u32s [cp_tclass c; cp_data c].

#[global] Instance class_perm_codec :
  Codec (λ c, put_words [cp_tclass c; cp_data c])
    (_ ← alloc (-1); b ← get 8; mret (ClassPerm (le32_at b 0) (le32_at b 1))) class_perm_bytes class_perm_ok id.
Proof.
  split; intros [t d] Hc; unfold class_perm_bytes, class_perm_ok in *; cbn in *; [writes|].
  do 2 reads_step. word_at. by reads_step.
Qed.

Definition avrule_bytes (r : avrule) : list N :=
  words [ar_specified r; ar_flags r] ++ type_set_bytes (ar_stypes r) ++ type_set_bytes (ar_ttypes r) ++
  list_bytes class_perm_bytes (ar_perms r).

(** Rules with extended permissions cannot be written. *)
Definition avrule_ok (r : avrule) : Prop :=
  u32s [ar_specified r; ar_flags r] ∧ N.land (ar_specified r) AVRULE_XPERMS = 0 ∧ ar_xperms r = None ∧
  type_set_ok (ar_stypes r) ∧ type_set_ok (ar_ttypes r) ∧
  u32s [N.of_nat (length (ar_perms r))] ∧ Forall class_perm_ok (ar_perms r).

#[global] Instance avrule_codec : Codec avrule_write avrule_read avrule_bytes avrule_ok id.
Proof.
  split; intros [sp fl st tt' pe xp] (Hw & Hx & Hn & Hs & Ht & Hl & Hp); unfold avrule_bytes; cbn in *; subst xp.
  - unfold avrule_write. cbn. rewrite Hx. change (truth 0) with false. cbv iota.
    apply writes_bind; [apply writes_words|]. apply writes_bind; [auto with codec|]. apply writes_bind; [auto with codec|].
    eapply put_list_writes; [|exact Hp]. by apply codec_writes.
  - unfold avrule_read. do 4 reads_step. word_at. rewrite <- (app_nil_r (list_bytes _ _)).
    eapply reads_bind_eq; [exact (list_reads_id _ _ _ _ pe Hl Hp)|]. by reads_step.
Qed.

Definition avrules_ok (l : list avrule) : Prop := u32s [N.of_nat (length l)] ∧ Forall avrule_ok l.
Definition avrules_bytes : list avrule → list N := list_bytes avrule_bytes.

Lemma avrules_reads l : avrules_ok l → Reads avrule_read_list (avrules_bytes l) (λ x, x = l).
Proof. intros [Hn Hl]. exact (list_reads_id _ _ _ _ l Hn Hl). Qed.
Lemma avrules_writes l : avrules_ok l → Writes (avrule_write_list l) (avrules_bytes l).
Proof. intros [_ Hl]. eapply put_list_writes; [|exact Hl]. by apply codec_writes. Qed.
#[export] Hint Resolve avrules_reads avrules_writes : codec.

(** ** Conditional blocks *)

Definition cond_expr_bytes (e : cond_expr) : list N := words [cexpr_type e; cexpr_bool e].
Definition mod_cond_bytes (v : write_params) (n : mod_cond) : list N :=
  words [Z.to_N (mc_state n mod 2 ^ 32)] ++ list_bytes cond_expr_bytes (mc_exprs n) ++
  avrules_bytes (mc_true n) ++ avrules_bytes (mc_false n) ++ (if has_tunables v then words [mc_flags n] else []).

Definition cond_exprs_ok (nbools : N) (l : list cond_expr) : Prop :=
  N.of_nat (length l) < 2 ^ 31 ∧
  Forall (λ e, u32s [cexpr_type e; cexpr_bool e] ∧ expr_isvalid nbools e = true) l.

Definition mod_cond_ok (nbools : N) (n : mod_cond) : Prop :=
  (- 2 ^ 31 <= mc_state n < 2 ^ 31)%Z ∧ cond_exprs_ok nbools (mc_exprs n) ∧
  avrules_ok (mc_true n) ∧ avrules_ok (mc_false n) ∧ u32s [mc_flags n].

Definition mod_cond_norm (v : write_params) (n : mod_cond) : mod_cond :=
  ModCond (mc_state n) (mc_exprs n) (mc_true n) (mc_false n) (if has_tunables v then mc_flags n else 0).

Lemma s32_word z : (- 2 ^ 31 <= z < 2 ^ 31)%Z → Z.to_N (z mod 2 ^ 32) < 2 ^ 32 ∧ s32 (Z.to_N (z mod 2 ^ 32)) = z.
Proof.
  intros Hz. assert (0 <= z mod 2 ^ 32 < 2 ^ 32)%Z by (apply Z.mod_pos_bound; lia). split; [lia|].
  unfold s32. rewrite u32_small by lia. destruct (Z_lt_le_dec z 0) as [Hn|Hn].
  - assert (z mod 2 ^ 32 = z + 2 ^ 32)%Z as E by (symmetry; apply (Z.mod_unique_pos _ _ (-1)); lia).
    rewrite E in *. destruct (N.ltb_spec (Z.to_N (z + 2 ^ 32)) (2 ^ 31)); lia.
  - rewrite (Z.mod_small z (2 ^ 32)) in * by lia. destruct (N.ltb_spec (Z.to_N z) (2 ^ 31)); lia.
Qed.

Lemma int_count_small n : n < 2 ^ 31 → int_count n = n.
Proof. intros Hn. unfold int_count, s32. rewrite u32_small by lia. destruct (N.ltb_spec n (2 ^ 31)); lia. Qed.

Lemma cond_exprs_reads nbools l : cond_exprs_ok nbools l →
  Reads (cond_exprs_read nbools) (list_bytes cond_expr_bytes l) (λ x, x = l).
Proof.
  intros [Hn He]. unfold cond_exprs_read, list_bytes. assert (u32s [N.of_nat (length l)]) by (repeat constructor; lia).
  reads_step. word_at. rewrite int_count_small by done.
  eapply reads_mono; [apply (reads_list _ _ id)|]; [done| |intros x ->; by rewrite list_fmap_id].
  intros [ty b] Hin. destruct (proj1 (Forall_forall _ _) He _ Hin) as [Hew Hv]. unfold cond_expr_bytes. cbn in *.
  do 2 reads_step. word_at. cbv zeta. rewrite Hv. cbn [negb]. by reads_step.
Qed.

#[global] Instance mod_cond_codec v nbools :
  Codec (mod_cond_write v) (mod_cond_read v nbools) (mod_cond_bytes v) (mod_cond_ok nbools) (mod_cond_norm v).
Proof.
  split; intros [st ex t f fl] (Hst & Hex & Ht & Hf & Hfl); unfold mod_cond_bytes, mod_cond_norm; cbn in *.
  - unfold mod_cond_write. cbn. apply writes_bind; [apply writes_words|]. apply writes_bind.
    { eapply put_list_writes; [|exact (proj2 Hex)]. intros e _. apply writes_words. }
    apply writes_bind; [auto with codec|]. apply writes_bind; [auto with codec|]. writes.
  - unfold mod_cond_read. destruct (s32_word st Hst) as [Hw Es].
    assert (u32s [Z.to_N (st mod 2 ^ 32)]) by (by repeat constructor).
    reads_step. eapply reads_bind_eq; [by apply cond_exprs_reads|].
    do 2 reads_step. rewrite <- (app_nil_r (if has_tunables v then _ else _)).
    apply reads_opt with (a := if has_tunables v then fl else 0); [intros ->; reads_step; word_at; by reads_step|by intros ->|].
    word_at. rewrite Es. by reads_step.
Qed.

Definition mod_conds_ok (nbools : N) (l : list mod_cond) : Prop :=
  N.of_nat (length l) < 2 ^ 31 ∧ Forall (mod_cond_ok nbools) l.

(** The allocation of the conditional table. *)
Lemma reads_avtab_alloc tab n : n < 2 ^ 32 → Reads (io_checked (avtab_alloc tab n)) [] (λ _, True).
Proof.
  intros Hn. apply reads_checked. intros o. destruct (N.eq_dec n 0) as [-> |Hne].
  - apply wp_ret. split; [done|]. by left.
  - eapply wp_mono; [apply avtab_alloc_spec; lia|]. intros [rc t] o' [Ho Hr]; cbn in *. split; [done|].
    destruct Hr as [(-> & Hoom & _)|(-> & _)]; [by right|by left].
Qed.

Lemma mod_conds_writes v nbools l : mod_conds_ok nbools l →
  Writes (mod_cond_write_list v l) (list_bytes (mod_cond_bytes v) l).
Proof. intros [_ Hl]. eapply put_list_writes; [|exact Hl]. by eapply codec_writes. Qed.

Lemma mod_conds_reads v nbools te_nel tab l : mod_conds_ok nbools l → te_nel < 2 ^ 32 →
  Reads (mod_cond_read_list v nbools te_nel tab) (list_bytes (mod_cond_bytes v) l) (λ x, x.1 = mod_cond_norm v <$> l).
Proof.
  intros [Hn Hl] Hte. unfold mod_cond_read_list, list_bytes. assert (u32s [N.of_nat (length l)]) by (repeat constructor; lia).
  reads_step. eapply reads_bind_nil; [by apply reads_avtab_alloc|]. intros tab' _. word_at. rewrite int_count_small by done.
  rewrite <- (app_nil_r (l ≫= _)). eapply reads_bind_eq; [|by apply reads_ret].
  apply reads_list; [done|]. intros n Hin. eapply reads_bind_nil; [by apply reads_alloc|]. intros _ _.
  apply codec_reads. exact (proj1 (Forall_forall _ _) Hl n Hin).
Qed.

(** ** Role transitions *)

Definition only_process_b (e : ebitmap) : bool :=
  forallb (λ i, negb (ebitmap_bit e i && negb (i =? SECCLASS_PROCESS - 1))) (ebitmap_positions e).
Definition role_tr_kept (v : write_params) (tr : role_trans_rule) : bool := new_role v || only_process_b (rtr_classes tr).

Definition role_trans_rule_bytes (v : write_params) (tr : role_trans_rule) : list N :=
  role_set_bytes (rtr_roles tr) ++ type_set_bytes (rtr_types tr) ++
  (if new_role v then ebitmap_bytes (rtr_classes tr) else []) ++ words [rtr_new_role tr].

Definition role_trans_rule_ok (tr : role_trans_rule) : Prop :=
  role_set_ok (rtr_roles tr) ∧ type_set_ok (rtr_types tr) ∧ ebitmap_wf (rtr_classes tr) ∧ u32s [rtr_new_role tr].

(** The old format has no classes: the reader sets the class process. *)
Definition process_only : ebitmap := EBitmap [EBNode 0 2] 64.
Definition role_trans_rule_norm (v : write_params) (tr : role_trans_rule) : role_trans_rule :=
  RoleTransRule (rtr_roles tr) (rtr_types tr) (if new_role v then rtr_classes tr else process_only) (rtr_new_role tr).

Definition role_trans_rules_ok (l : list role_trans_rule) : Prop :=
  N.of_nat (length l) < 2 ^ 32 ∧ Forall role_trans_rule_ok l.
Definition role_trs_kept (v : write_params) : list role_trans_rule → list role_trans_rule :=
  filter (λ tr, role_tr_kept v tr = true).

Lemma only_process_run e o : ebitmap_wf e → only_process e o = Ret (only_process_b e) o.
Proof.
  intros He. unfold only_process, only_process_b. rewrite bind_run, for_each_bit_visited by done.
  induction (ebitmap_positions e) as [|i l IH]; [done|]. cbn [for_list forallb]. rewrite bind_run. unfold mret at 1, M_ret at 1.
  destruct (ebitmap_bit e i && negb (i =? SECCLASS_PROCESS - 1)); [done|]. exact IH.
Qed.

Lemma role_tr_written_run v tr o : ebitmap_wf (rtr_classes tr) → role_tr_written v tr o = Ret (role_tr_kept v tr) o.
Proof. intros H. unfold role_tr_written, role_tr_kept. destruct (new_role v); [done|]. by apply only_process_run. Qed.

Lemma count_written_run v l n o : Forall role_trans_rule_ok l →
  count_written v l n o = Ret (n + N.of_nat (length (role_trs_kept v l))) o.
Proof.
  intros Hl. revert n. induction Hl as [|tr l (_ & _ & Hc & _) _ IH]; intros n; cbn [count_written].
  { unfold mret, M_ret. f_equal. cbn. lia. }
  rewrite bind_run, role_tr_written_run by done. rewrite IH. unfold role_trs_kept. rewrite filter_cons.
  destruct (role_tr_kept v tr); [rewrite decide_True by done|rewrite decide_False by done]; f_equal; cbn [length]; lia.
Qed.

Lemma role_trs_writes v l : role_trans_rules_ok l →
  Writes (role_trans_rule_write v l) (list_bytes (role_trans_rule_bytes v) (role_trs_kept v l)).
Proof.
  intros [_ Hl]. unfold role_trans_rule_write, list_bytes, role_trs_kept. eapply writes_lift; [intros o; by apply count_written_run|].
  rewrite N.add_0_l. apply writes_bind; [apply writes_words|]. rewrite bind_filter. apply writes_list. intros tr Hin.
  destruct (proj1 (Forall_forall _ _) Hl tr Hin) as (Hr & Ht & Hc & _).
  eapply writes_lift; [intros o; by apply role_tr_written_run|]. unfold role_tr_kept. destruct (new_role v || _) eqn:E; cbn [negb].
  - rewrite decide_True by done. unfold role_trans_rule_bytes. apply writes_bind; [auto with codec|].
    apply writes_bind; [auto with codec|]. writes.
  - rewrite decide_False by done. apply writes_ret.
Qed.

Lemma process_only_reads : Reads (set_bit_or_fail ebitmap_init (SECCLASS_PROCESS - 1)) [] (λ e, e = process_only).
Proof.
  apply reads_checked. intros o. unfold wp.
  destruct o as [|[] o]; vm_compute; (split; [done|]); [by left|by left|by right].
Qed.

Lemma role_trs_reads v l : role_trans_rules_ok l →
  Reads (role_trans_rule_read v) (list_bytes (role_trans_rule_bytes v) (role_trs_kept v l))
    (λ x, x = role_trans_rule_norm v <$> role_trs_kept v l).
Proof.
  intros [Hn Hl]. unfold role_trans_rule_read, get_list, list_bytes.
  pose proof (length_filter (λ tr, role_tr_kept v tr = true) l) as Hfl.
  assert (u32s [N.of_nat (length (role_trs_kept v l))]) by (repeat constructor; unfold role_trs_kept; lia).
  reads_step. word_at. apply reads_list; [done|]. intros [r t c n] [_ Hin]%list_elem_of_filter.
  destruct (proj1 (Forall_forall _ _) Hl _ Hin) as (Hr & Ht & Hc & Hw). unfold role_trans_rule_bytes, role_trans_rule_norm. cbn in *.
  do 3 reads_step. destruct (new_role v).
  - do 2 reads_step. word_at. by reads_step.
  - cbn [app]. eapply reads_bind_nil; [apply process_only_reads|]. intros e ->. reads_step. word_at. by reads_step.
Qed.

(** ** The other rules *)

Definition role_allow_rule_bytes (ra : role_allow_rule) : list N :=
  role_set_bytes (rar_roles ra) ++ role_set_bytes (rar_new_roles ra).
Definition role_allow_rule_ok (ra : role_allow_rule) : Prop := role_set_ok (rar_roles ra) ∧ role_set_ok (rar_new_roles ra).

#[global] Instance role_allow_rule_codec :
  Codec (λ ra, _ ← role_set_write (rar_roles ra); role_set_write (rar_new_roles ra))
    (_ ← alloc (-1); roles ← or_rc (-1) role_set_read; new_roles ← or_rc (-1) role_set_read;
     mret (RoleAllowRule roles new_roles)) role_allow_rule_bytes role_allow_rule_ok id.
Proof.
  split; intros [r n] [Hr Hn]; unfold role_allow_rule_bytes; cbn in *.
  - apply writes_bind; auto with codec.
  - do 3 reads_step. by reads_step.
Qed.

Definition filename_trans_rule_bytes (ft : filename_trans_rule) : list N :=
  words [strlen (ftr_name ft)] ++ string_bytes (ftr_name ft) ++ type_set_bytes (ftr_stypes ft) ++
  type_set_bytes (ftr_ttypes ft) ++ words [ftr_tclass ft; ftr_otype ft].
Definition filename_trans_rule_ok (ft : filename_trans_rule) : Prop :=
  name_ok (ftr_name ft) ∧ type_set_ok (ftr_stypes ft) ∧ type_set_ok (ftr_ttypes ft) ∧ u32s [ftr_tclass ft; ftr_otype ft].

#[global] Instance filename_trans_rule_codec :
  Codec (λ ft,
      _ ← put_words [strlen (ftr_name ft)]; _ ← put_string (ftr_name ft);
      _ ← type_set_write (ftr_stypes ft); _ ← type_set_write (ftr_ttypes ft); put_words [ftr_tclass ft; ftr_otype ft])
    (_ ← alloc (-1);
     buf ← get 4;
     let len := le32_at buf 0 in
     name ← get_string (u32 (len + 1)) len;
     stypes ← or_rc (-1) type_set_read;
     ttypes ← or_rc (-1) type_set_read;
     b ← get 8;
     mret (FilenameTransRule stypes ttypes (le32_at b 0) name (le32_at b 1)))
    filename_trans_rule_bytes filename_trans_rule_ok id.
Proof.
  split; intros [s t c n o] (Hn & Hs & Ht & Hw); unfold filename_trans_rule_bytes; cbn in *.
  - apply writes_bind; [apply writes_words|]. apply writes_bind; [apply writes_string|].
    apply writes_bind; [auto with codec|]. apply writes_bind; [auto with codec|]. apply writes_words.
  - pose proof (name_u32s _ Hn). do 2 reads_step. word_at. cbv zeta.
    eapply reads_bind_eq; [apply reads_string; auto|]. do 3 reads_step. word_at. by reads_step.
Qed.

Definition range_trans_rule_bytes (rt : range_trans_rule) : list N :=
  type_set_bytes (rtrr_stypes rt) ++ type_set_bytes (rtrr_ttypes rt) ++ ebitmap_bytes (rtrr_tclasses rt) ++
  sem_range_bytes (rtrr_trange rt).
Definition range_trans_rule_ok (rt : range_trans_rule) : Prop :=
  type_set_ok (rtrr_stypes rt) ∧ type_set_ok (rtrr_ttypes rt) ∧ ebitmap_wf (rtrr_tclasses rt) ∧ sem_range_ok (rtrr_trange rt).
Definition range_trans_rule_norm (rt : range_trans_rule) : range_trans_rule :=
  RangeTransRule (rtrr_stypes rt) (rtrr_ttypes rt) (rtrr_tclasses rt) (sem_range_norm (rtrr_trange rt)).

#[global] Instance range_trans_rule_codec :
  Codec (λ rt, _ ← type_set_write (rtrr_stypes rt); _ ← type_set_write (rtrr_ttypes rt);
               _ ← ebitmap_put (rtrr_tclasses rt); mls_write_semantic_range_helper (rtrr_trange rt))
    (_ ← alloc (-1);
     stypes ← or_rc (-1) type_set_read;
     ttypes ← or_rc (-1) type_set_read;
     tclasses ← or_rc (-1) ebitmap_get;
     trange ← or_rc (-1) mls_read_semantic_range_helper;
     mret (RangeTransRule stypes ttypes tclasses trange))
    range_trans_rule_bytes range_trans_rule_ok range_trans_rule_norm.
Proof.
  split; intros [s t c r] (Hs & Ht & Hc & Hr); unfold range_trans_rule_bytes, range_trans_rule_norm; cbn in *.
  - apply writes_bind; [auto with codec|]. apply writes_bind; [auto with codec|].
    apply writes_bind; [apply writes_ebitmap|]. auto with codec.
  - do 4 reads_step. rewrite <- (app_nil_r (sem_range_bytes r)). eapply reads_bind_eq.
    { apply reads_or_rc; [done|]. by apply sem_range_reads. }
    by reads_step.
Qed.

(** * Reading with memory

    A failed allocation inside [ebitmap_read] goes unnoticed in the scopes of a
    declaration, so what is said of them and of all that contains them assumes
    that allocations succeed. *)

Definition ReadsMem {A} (m : io A) (bs : list N) (Q : A → Prop) : Prop :=
  ∀ fp rest, pf_wf fp → pf_avail fp = bs ++ rest →
    ∃ a fp', m fp [] = Ret (inr a, fp') [] ∧ pf_wf fp' ∧ pf_avail fp' = rest ∧ Q a.

Lemma reads_mem {A} (m : io A) bs Q : Reads m bs Q → ReadsMem m bs Q.
Proof.
  intros H fp rest Hfp Hav. pose proof (reads_run _ _ _ H fp rest [] Hfp Hav) as Hw.
  apply (proj1 (wp_run _ _ _)) in Hw as ([[rc|a] fp'] & o' & Hm & Ho & Hwf & Hr); [by destruct Hr|].
  rewrite (Ho eq_refl) in Hm. exists a, fp'. destruct Hr. by split_and!.
Qed.

Lemma reads_mem_or_rc {A} rc (m : io A) bs Q : ReadsMem m bs Q → ReadsMem (or_rc rc m) bs Q.
Proof.
  intros H fp rest Hfp Hav. destruct (H fp rest Hfp Hav) as (a & fp' & Hm & Hrest). exists a, fp'. split; [|done].
  unfold or_rc. by rewrite bind_run, Hm.
Qed.

Lemma reads_mem_ret {A} (a : A) (Q : A → Prop) : Q a → ReadsMem (mret a) [] Q.
Proof. intros HQ. by apply reads_mem, reads_ret. Qed.

Lemma reads_mem_mono {A} (m : io A) bs (Q Q' : A → Prop) : ReadsMem m bs Q → (∀ a, Q a → Q' a) → ReadsMem m bs Q'.
Proof. intros H HQ fp rest Hfp Hav. destruct (H fp rest Hfp Hav) as (a & fp' & ? & ? & ? & ?). exists a, fp'. auto. Qed.

Lemma reads_mem_bind {A B} (m : io A) (k : A → io B) b1 b2 Q1 Q2 :
  ReadsMem m b1 Q1 → (∀ a, Q1 a → ReadsMem (k a) b2 Q2) → ReadsMem (m ≫= k) (b1 ++ b2) Q2.
Proof.
  intros H1 H2 fp rest Hfp Hav. rewrite <- app_assoc in Hav.
  destruct (H1 fp _ Hfp Hav) as (a & fp1 & E1 & Hfp1 & Hav1 & Ha).
  destruct (H2 a Ha fp1 rest Hfp1 Hav1) as (b & fp2 & E2 & ? & ? & ?). exists b, fp2. by rewrite io_bind_run, E1.
Qed.

Lemma reads_mem_nil {A B} (m : io A) (k : A → io B) bs Q1 Q2 :
  ReadsMem m [] Q1 → (∀ a, Q1 a → ReadsMem (k a) bs Q2) → ReadsMem (m ≫= k) bs Q2.
Proof. apply (reads_mem_bind _ _ []). Qed.

Lemma reads_mem_times {A St} (I : list A → St → Prop) (f : St → io St) (bytes : A → list N) l s0 :
  I [] s0 →
  (∀ pre a post s, l = pre ++ a :: post → I pre s → ReadsMem (f s) (bytes a) (I (pre ++ [a]))) →
  ReadsMem (io_times (length l) f s0) (l ≫= bytes) (I l).
Proof.
  intros HI Hf.
  assert (∀ post pre s, l = pre ++ post → I pre s →
            ReadsMem (io_times (length post) f s) (post ≫= bytes) (I l)) as H; [|by apply (H l [])].
  clear s0 HI. induction post as [|a post IH]; intros pre s Hl HI.
  { apply reads_mem_ret. by rewrite Hl, app_nil_r. }
  rewrite bind_cons. cbn [length io_times]. eapply reads_mem_bind; [by eapply Hf|].
  intros s' HI'. apply (IH (pre ++ [a])); [by rewrite <- app_assoc|done].
Qed.

(** A list whose elements come back related by [R]. *)
Lemma reads_mem_list {A B} (R : A → B → Prop) (f : io B) (bytes : A → list N) l n :
  n = N.of_nat (length l) → (∀ a, a ∈ l → ReadsMem f (bytes a) (R a)) →
  ReadsMem (io_read_list n f) (l ≫= bytes) (λ x, Forall2 R l x).
Proof.
  intros -> Hf. unfold io_read_list. rewrite Nat2N.id.
  apply (reads_mem_times (λ pre x, Forall2 R pre x)); [constructor|].
  intros pre a post s -> Hs. rewrite <- (app_nil_r (bytes a)). eapply reads_mem_bind.
  { apply Hf. apply elem_of_app. right. left. }
  intros b Hb. apply reads_mem_ret. apply Forall2_app; [done|]. by repeat constructor.
Qed.

(** ** Scopes of a declaration *)

Lemma scope_bitmap_reads e : ebitmap_wf e → ReadsMem ebitmap_get_unless_m1 (ebitmap_bytes e) (λ x, x = e).
Proof.
  intros He fp rest Hfp Hav. destruct (reads_mem _ _ _ (reads_ebitmap e He) fp rest Hfp Hav) as (x & fp' & Hm & ? & ? & ->).
  exists e, fp'. split; [|by split_and!]. revert Hm. unfold ebitmap_get, ebitmap_get_unless_m1. rewrite !bind_run.
  destruct (ebitmap_read fp []) as [[[rc x] fp1] o1|]; [|done]. unfold mret, M_ret.
  destruct (Z.eqb_spec rc 0) as [-> |Hne]; [|done]. by intros [= -> -> ->].
Qed.

Definition scope_index_bytes (s : scope_index) : list N :=
  (si_scope s ≫= ebitmap_bytes) ++ list_bytes ebitmap_bytes (si_class_perms s).
Definition scope_index_ok (num_syms : N) (s : scope_index) : Prop :=
  N.of_nat (length (si_scope s)) = num_syms ∧ Forall ebitmap_wf (si_scope s) ∧
  u32s [N.of_nat (length (si_class_perms s))] ∧ Forall ebitmap_wf (si_class_perms s).

Lemma writes_indexed {A} (f : A → io unit) (bytes : A → list N) (l : list A) k :
  (∀ a, a ∈ l → Writes (f a) (bytes a)) →
  ∀ pre, length pre = k →
  Writes (io_list (λ i, a ← io_lift (deref ((pre ++ l) !! i)); f a) (seq k (length l))) (l ≫= bytes).
Proof.
  revert k. induction l as [|a l IH]; intros k Hf pre Hk; [apply writes_ret|]. rewrite bind_cons. cbn [length seq io_list].
  apply writes_bind.
  - apply (writes_lift _ _ a); [|apply Hf; left]. intros o. by rewrite lookup_app_r, Hk, Nat.sub_diag by lia.
  - replace (pre ++ a :: l) with ((pre ++ [a]) ++ l) by by rewrite <- app_assoc.
    apply IH; [intros b Hb; apply Hf; by right|]. rewrite length_app. cbn. lia.
Qed.

Lemma scope_index_writes n s : scope_index_ok n s → Writes (scope_index_write (N.to_nat n) s) (scope_index_bytes s).
Proof.
  intros (<- & _ & _ & _). rewrite Nat2N.id. unfold scope_index_write, scope_index_bytes. apply writes_bind.
  - apply (writes_indexed ebitmap_put ebitmap_bytes (si_scope s) 0) with (pre := []); [|done]. intros e _. apply writes_ebitmap.
  - unfold put_list, list_bytes. writes.
Qed.

Lemma bitmaps_read l n :
  n = N.of_nat (length l) → Forall ebitmap_wf l →
  ReadsMem (io_read_list n ebitmap_get_unless_m1) (l ≫= ebitmap_bytes) (λ x, x = l).
Proof.
  intros Hn Hl. eapply reads_mem_mono; [apply (reads_mem_list (λ a b, b = a)); [done|]|].
  - intros e He. by apply scope_bitmap_reads, (proj1 (Forall_forall _ _) Hl).
  - intros x Hx. clear - Hx. by induction Hx as [|? ? ? ? -> _ ->].
Qed.

Lemma scope_index_reads n s : scope_index_ok n s → ReadsMem (scope_index_read n) (scope_index_bytes s) (λ x, x = s).
Proof.
  intros (Hn & Hs & Hl & Hc). unfold scope_index_read, scope_index_bytes, list_bytes. eapply reads_mem_bind.
  { apply bitmaps_read; [by rewrite Hn|done]. }
  intros sc ->. eapply reads_mem_bind; [apply reads_mem, (reads_words [N.of_nat (length (si_class_perms s))]); done|].
  intros buf ->. word_at. cbv zeta. eapply (reads_mem_nil _ _ _ (λ _, True)).
  { destruct (_ =? 0); [by apply reads_mem_ret|]. by apply reads_mem, reads_alloc. }
  intros _ _. rewrite <- (app_nil_r (_ ≫= _)). eapply reads_mem_bind; [by apply bitmaps_read|].
  intros m ->. apply reads_mem_ret. by destruct s.
Qed.

(** ** Tables of a declaration *)

Lemma new_symtab_reads {D} size :
  0 < size → size < 2 ^ 31 → Reads (new_symtab (D := D) size) [] (λ s, fresh (λ _, True) s ∧ symtab_map s = ∅).
Proof.
  intros Hp Hs. apply reads_checked. intros o. eapply wp_mono; [by apply symtab_init_spec|].
  intros [rc s] o' [Ho Hr]; cbn [fst snd] in *. split; [naive_solver|].
  destruct Hr as [(-> & _ & t & Ht & Hwf & Hm)|[-> _]].
  - left. split; [done|]. split; [|unfold symtab_map; by rewrite Ht]. exists t. split_and!; [done..|]. intros k _. by rewrite Hm, lookup_empty.
  - right. split; [done|]. intros ->. by destruct (Ho eq_refl).
Qed.

(** Tables with no entries. *)
Record fresh_tables (d : decl_tables) : Prop := {
  ft_commons : fresh (λ _, True) (dt_commons d) ∧ symtab_map (dt_commons d) = ∅;
  ft_classes : fresh (λ _, True) (dt_classes d) ∧ symtab_map (dt_classes d) = ∅;
  ft_roles : fresh (λ _, True) (dt_roles d) ∧ symtab_map (dt_roles d) = ∅;
  ft_types : fresh (λ _, True) (dt_types d) ∧ symtab_map (dt_types d) = ∅;
  ft_users : fresh (λ _, True) (dt_users d) ∧ symtab_map (dt_users d) = ∅;
  ft_bools : fresh (λ _, True) (dt_bools d) ∧ symtab_map (dt_bools d) = ∅;
  ft_levels : fresh (λ _, True) (dt_levels d) ∧ symtab_map (dt_levels d) = ∅;
  ft_cats : fresh (λ _, True) (dt_cats d) ∧ symtab_map (dt_cats d) = ∅ }.

Lemma decl_create_reads : Reads decl_create_symtabs [] fresh_tables.
Proof.
  unfold decl_create_symtabs.
  do 8 (eapply reads_bind_nil; [by apply new_symtab_reads|intros ? ?]). apply reads_ret. by split.
Qed.

Record decl_tables_ok (v : write_params) (tc : hashtab string common_datum) (d : decl_tables) : Prop := {
  do_commons : symtab_ok common_ok (dt_commons d);
  do_classes : symtab_ok (class_ok tc) (dt_classes d);
  do_roles : symtab_ok role_ok (dt_roles d);
  do_types : symtab_ok type_ok (dt_types d);
  do_users : symtab_ok (λ k d, user_ok k d ∧ user_converts v = false) (dt_users d);
  do_bools : symtab_ok bool_ok (dt_bools d);
  do_levels : symtab_ok sens_ok (dt_levels d);
  do_cats : symtab_ok cat_ok (dt_cats d) }.

(** The tables [d'] have the symbols of [d]. *)
Record decl_tables_sim (v : write_params) (tc : hashtab string common_datum) (d d' : decl_tables) : Prop := {
  ds_commons : symtab_sim all_kept all_added common_sim ∅ (dt_commons d) (dt_commons d');
  ds_classes : symtab_sim all_kept all_added (class_sim v tc) ∅ (dt_classes d) (dt_classes d');
  ds_roles : symtab_sim all_kept not_object_r (λ d d', d' = role_norm v d) ∅ (dt_roles d) (dt_roles d');
  ds_types : symtab_sim all_kept all_added (λ d d', d' = type_norm v d) ∅ (dt_types d) (dt_types d');
  ds_users : symtab_sim all_kept all_added (λ d d', d' = user_norm v d) ∅ (dt_users d) (dt_users d');
  ds_bools : symtab_sim all_kept all_added (λ d d', d' = bool_norm v d) ∅ (dt_bools d) (dt_bools d');
  ds_levels : symtab_sim all_kept all_added (λ d d', d' = d) ∅ (dt_levels d) (dt_levels d');
  ds_cats : symtab_sim all_kept all_added (λ d d', d' = d) ∅ (dt_cats d) (dt_cats d') }.

Definition decl_tables_bytes (v : write_params) (d : decl_tables) : list N :=
  tab_bytes common_bytes all_kept (dt_commons d) ++ tab_bytes (class_bytes v) all_kept (dt_classes d) ++
  tab_bytes (role_bytes v) (role_skipped v) (dt_roles d) ++ tab_bytes (type_bytes v) (type_skipped v) (dt_types d) ++
  tab_bytes (user_bytes v) all_kept (dt_users d) ++ tab_bytes (bool_bytes v) all_kept (dt_bools d) ++
  tab_bytes sens_bytes all_kept (dt_levels d) ++ tab_bytes cat_bytes all_kept (dt_cats d).

(** From version 13 on the format of a module has role attributes; before it
    the tables of a declaration count entries that are not written. *)
Definition counts_all (v : write_params) : Prop :=
  is_kern v = false ∧ MOD_POLICYDB_VERSION_ROLEATTRIB ≤ policyvers v.

Lemma roles_counted v : counts_all v → uncounts (role_skipped v) None.
Proof.
  intros [Hk Hv] d. unfold role_skipped. rewrite Hk. cbn. rewrite (proj2 (N.ltb_ge _ _) Hv). apply andb_false_r.
Qed.
Lemma types_counted v : counts_all v → uncounts (type_skipped v) None.
Proof. intros [Hk Hv] d. unfold type_skipped. by rewrite Hk. Qed.

Lemma decl_tables_writes v tc d : ht_struct tc → counts_all v → decl_tables_ok v tc d →
  Writes (decl_write_symtabs v 8 d) (decl_tables_bytes v d).
Proof.
  intros Htc Hv [Hco Hcl Hro Hty Hus Hbo Hle Hca]. unfold decl_write_symtabs, decl_tables_bytes.
  change (5 <? 8) with true. change (6 <? 8) with true. change (7 <? 8) with true. unfold when.
  repeat apply writes_bind.
  - by eapply (tab_writes common_write); [apply _|apply uncounts_none|].
  - by eapply (tab_writes (class_write v)); [apply (class_codec v tc Htc)|apply uncounts_none|].
  - by eapply (tab_writes (role_write v)); [apply _|apply roles_counted|].
  - by eapply (tab_writes (type_write v)); [apply _|apply types_counted|].
  - by eapply (tab_writes (user_write v)); [apply _|apply uncounts_none|].
  - by eapply (tab_writes (cond_write_bool v)); [apply _|apply uncounts_none|].
  - by eapply (tab_writes sens_write); [apply _|apply uncounts_none|].
  - by eapply (tab_writes cat_write); [apply _|apply uncounts_none|].
Qed.

Lemma tab_reads_empty {D} w r bytes ok skipped adds R `{!SymCodec (D := D) w r bytes ok skipped adds R} s s0 :
  symtab_ok ok s → fresh (λ _, True) s0 ∧ symtab_map s0 = ∅ →
  Reads (read_symtab r s0) (tab_bytes bytes skipped s) (symtab_sim skipped adds R ∅ s).
Proof. intros Hok [Hf Hm]. rewrite <- Hm. eapply tab_reads; [done|done|by apply fresh_all]. Qed.

Lemma never_skipped {D} (skipped : D → bool) adds R m s s' :
  (∀ d, skipped d = false) → symtab_sim skipped adds R m s s' → symtab_sim all_kept adds R m s s'.
Proof.
  intros Hs (Hn & t & t' & Ht & Ht' & Hwf & Htr). split; [done|]. exists t, t'. split_and!; [done..|].
  assert (kept all_kept (ht_entries t) = kept skipped (ht_entries t)) as ->; [|done].
  unfold kept. apply list_filter_iff. intros e. by rewrite Hs.
Qed.

Lemma decl_tables_reads v tc d d0 :
  ht_struct tc → counts_all v → decl_tables_ok v tc d → fresh_tables d0 →
  Reads (decl_read_symtabs v 8 (Some tc) d0) (decl_tables_bytes v d) (decl_tables_sim v tc d).
Proof.
  intros Htc Hv [Hco Hcl Hro Hty Hus Hbo Hle Hca] [Fco Fcl Fro Fty Fus Fbo Fle Fca].
  unfold decl_read_symtabs, decl_tables_bytes. change (5 <? 8) with true. change (6 <? 8) with true. change (7 <? 8) with true.
  eapply reads_bind; [eapply (tab_reads_empty common_write); [apply _|done|done]|]. intros co Sco.
  eapply reads_bind; [eapply (tab_reads_empty (class_write v)); [apply (class_codec v tc Htc)|done|done]|]. intros cl Scl.
  eapply reads_bind; [eapply (tab_reads_empty (role_write v)); [apply _|done|done]|]. intros ro Sro.
  eapply reads_bind; [eapply (tab_reads_empty (type_write v)); [apply _|done|done]|]. intros ty Sty.
  eapply reads_bind; [eapply (tab_reads_empty (user_write v)); [apply _|done|done]|]. intros us Sus.
  eapply reads_bind; [eapply (tab_reads_empty (cond_write_bool v)); [apply _|done|done]|]. intros bo Sbo.
  eapply reads_bind; [eapply (tab_reads_empty sens_write); [apply _|done|done]|]. intros le Sle.
  rewrite <- (app_nil_r (tab_bytes cat_bytes all_kept (dt_cats d))).
  eapply reads_bind; [eapply (tab_reads_empty cat_write); [apply _|done|done]|]. intros ca Sca.
  apply reads_ret. split; try done.
  - eapply never_skipped; [|exact Sro]. by apply roles_counted.
  - eapply never_skipped; [|exact Sty]. by apply types_counted.
Qed.

(** ** Declarations *)

Definition filename_trs_ok (l : list filename_trans_rule) : Prop :=
  u32s [N.of_nat (length l)] ∧ Forall filename_trans_rule_ok l.
Definition range_trs_ok (l : list range_trans_rule) : Prop := u32s [N.of_nat (length l)] ∧ Forall range_trans_rule_ok l.
Definition role_allows_ok (l : list role_allow_rule) : Prop := u32s [N.of_nat (length l)] ∧ Forall role_allow_rule_ok l.

(** What a declaration of the formats from version 13 on is made of. *)
Record decl_ok (v : write_params) (nbools : N) (tc : hashtab string common_datum) (d : avrule_decl) : Prop := {
  dk_head : u32s [decl_id d; decl_enabled d];
  dk_conds : mod_conds_ok nbools (decl_conds d);
  dk_avrules : avrules_ok (decl_avrules d);
  dk_role_tr : role_trans_rules_ok (role_tr_rules d);
  dk_role_allow : role_allows_ok (role_allow_rules d);
  dk_filename_tr : filename_trs_ok (filename_trans_rules d);
  dk_range_tr : range_trs_ok (range_tr_rules d);
  dk_required : scope_index_ok 8 (required d);
  dk_declared : scope_index_ok 8 (declared d);
  dk_tables : decl_tables_ok v tc (decl_symtab d) }.

Record decl_sim (v : write_params) (tc : hashtab string common_datum) (d d' : avrule_decl) : Prop := {
  dsim_id : decl_id d' = decl_id d;
  dsim_enabled : decl_enabled d' = decl_enabled d;
  dsim_conds : decl_conds d' = mod_cond_norm v <$> decl_conds d;
  dsim_avrules : decl_avrules d' = decl_avrules d;
  dsim_role_tr : role_tr_rules d' = role_tr_rules d;
  dsim_role_allow : role_allow_rules d' = role_allow_rules d;
  dsim_filename_tr : filename_trans_rules d' = filename_trans_rules d;
  dsim_range_tr : range_tr_rules d' = range_trans_rule_norm <$> range_tr_rules d;
  dsim_required : required d' = required d;
  dsim_declared : declared d' = declared d;
  dsim_tables : decl_tables_sim v tc (decl_symtab d) (decl_symtab d') }.

Definition decl_bytes (v : write_params) (d : avrule_decl) : list N :=
  words [decl_id d; decl_enabled d] ++ list_bytes (mod_cond_bytes v) (decl_conds d) ++ avrules_bytes (decl_avrules d) ++
  list_bytes (role_trans_rule_bytes v) (role_trs_kept v (role_tr_rules d)) ++
  list_bytes role_allow_rule_bytes (role_allow_rules d) ++
  list_bytes filename_trans_rule_bytes (filename_trans_rules d) ++ list_bytes range_trans_rule_bytes (range_tr_rules d) ++
  scope_index_bytes (required d) ++ scope_index_bytes (declared d) ++ decl_tables_bytes v (decl_symtab d).

(** All that depends on the version below 13 is there. *)
Lemma counts_all_features v : counts_all v →
  new_role v = true ∧ (MOD_POLICYDB_VERSION_FILENAME_TRANS <=? policyvers v) = true ∧
  (MOD_POLICYDB_VERSION_RANGETRANS <=? policyvers v) = true.
Proof.
  intros [_ Hv]. unfold new_role, MOD_POLICYDB_VERSION_ROLEATTRIB in *. split_and!; apply N.leb_le;
    unfold MOD_POLICYDB_VERSION_ROLETRANS, MOD_POLICYDB_VERSION_FILENAME_TRANS, MOD_POLICYDB_VERSION_RANGETRANS; lia.
Qed.

Lemma decl_writes v nbools tc d : ht_struct tc → counts_all v → decl_ok v nbools tc d →
  Writes (avrule_decl_write v 8 d) (decl_bytes v d).
Proof.
  intros Htc Hv [Hh Hc Ha Hrt Hra Hf Hr Hreq Hdcl Ht]. destruct (counts_all_features v Hv) as (_ & E1 & E2).
  unfold avrule_decl_write, decl_bytes. rewrite E1, E2. unfold when.
  apply writes_bind; [apply writes_words|]. apply writes_bind; [by eapply mod_conds_writes|].
  apply writes_bind; [auto with codec|]. apply writes_bind; [by apply role_trs_writes|].
  apply writes_bind; [eapply put_list_writes; [|apply Hra]; by apply codec_writes|].
  apply writes_bind; [eapply put_list_writes; [|apply Hf]; by apply codec_writes|].
  apply writes_bind; [eapply put_list_writes; [|apply Hr]; by apply codec_writes|].
  apply writes_bind; [by apply (scope_index_writes 8)|]. apply writes_bind; [by apply (scope_index_writes 8)|].
  by eapply decl_tables_writes.
Qed.

Lemma kept_all_roles v l : new_role v = true → role_trans_rule_norm v <$> role_trs_kept v l = l.
Proof.
  intros Hv. unfold role_trs_kept, role_tr_kept. rewrite Hv. cbn [orb]. induction l as [|[r t c n] l IH]; [done|].
  rewrite filter_cons_True by done. cbn. unfold role_trans_rule_norm at 1. rewrite Hv. cbn. by f_equal.
Qed.

Lemma decl_reads v g tc d tables tab :
  ht_struct tc → counts_all v → de_commons g = Some tc → de_te_nel g < 2 ^ 32 → decl_ok v (de_nbools g) tc d → fresh_tables tables →
  ReadsMem (avrule_decl_read v 8 g tables tab) (decl_bytes v d) (λ x, decl_sim v tc d x.1).
Proof.
  intros Htc Hv Hg Hte [Hh Hc Ha Hrt Hra Hf Hr Hreq Hdcl Ht] Hfresh. destruct (counts_all_features v Hv) as (E0 & E1 & E2).
  unfold avrule_decl_read, decl_bytes. rewrite E1, E2.
  eapply reads_mem_bind; [apply reads_mem, reads_words; done|]. intros buf ->.
  eapply reads_mem_bind; [apply reads_mem, (mod_conds_reads v (de_nbools g)); done|]. intros [conds tab'] Econds. cbn [fst] in Econds. subst conds.
  eapply reads_mem_bind; [apply reads_mem, avrules_reads; done|]. intros ? ->.
  eapply reads_mem_bind; [apply reads_mem, role_trs_reads; done|]. intros ? ->. rewrite kept_all_roles by done.
  eapply reads_mem_bind; [apply reads_mem; exact (list_reads_id _ _ _ _ _ (proj1 Hra) (proj2 Hra))|]. intros ? ->.
  eapply reads_mem_bind; [apply reads_mem; exact (list_reads_id _ _ _ _ _ (proj1 Hf) (proj2 Hf))|]. intros ? ->.
  eapply reads_mem_bind; [apply reads_mem; exact (list_reads_norm _ _ _ _ _ _ (proj1 Hr) (proj2 Hr))|]. intros ? ->.
  eapply reads_mem_bind; [by apply scope_index_reads|]. intros ? ->.
  eapply reads_mem_bind; [by apply scope_index_reads|]. intros ? ->.
  rewrite <- (app_nil_r (decl_tables_bytes _ _)), Hg.
  eapply reads_mem_bind; [by apply reads_mem, decl_tables_reads|]. intros tables' Hsim.
  apply reads_mem_ret. word_at. by split.
Qed.

(** ** Blocks *)

Definition is_enabled (d : avrule_decl) : Prop := truth (decl_enabled d) = true.
#[global] Instance is_enabled_dec d : Decision (is_enabled d).
Proof. unfold is_enabled. apply _. Defined.
Definition enabled_at (l : list avrule_decl) : option nat := fst <$> list_find is_enabled l.

(** A block has at most one enabled branch. *)
Definition one_enabled (l : list avrule_decl) : Prop :=
  ∀ i j d e, l !! i = Some d → l !! j = Some e → is_enabled d → is_enabled e → i = j.

Definition block_ok (v : write_params) (nbools : N) (tc : hashtab string common_datum) (b : avrule_block) : Prop :=
  u32s [N.of_nat (length (branch_list b))] ∧ Forall (decl_ok v nbools tc) (branch_list b) ∧ one_enabled (branch_list b).
Definition block_bytes (v : write_params) (b : avrule_block) : list N := list_bytes (decl_bytes v) (branch_list b).

Definition block_sim (v : write_params) (tc : hashtab string common_datum) (flags : N) (b b' : avrule_block) : Prop :=
  Forall2 (decl_sim v tc) (branch_list b) (branch_list b') ∧ enabled b' = enabled_at (branch_list b) ∧ block_flags b' = flags.

Definition block_flag (i : nat) : N := match i with O => 0 | S _ => AVRULE_OPTIONAL end.
Definition blocks_sim (v : write_params) (tc : hashtab string common_datum) (l l' : list avrule_block) : Prop :=
  length l' = length l ∧
  ∀ i b, l !! i = Some b → ∃ b', l' !! i = Some b' ∧ block_sim v tc (block_flag i) b b'.

Lemma enabled_snoc l d : one_enabled (l ++ [d]) →
  enabled_at (l ++ [d]) = if truth (decl_enabled d) then Some (length l) else enabled_at l.
Proof.
  intros H1. unfold enabled_at. destruct (list_find is_enabled l) as [[i e]|] eqn:El.
  - rewrite (list_find_app_l _ _ _ _ _ El). destruct (truth (decl_enabled d)) eqn:E; [|done]. exfalso.
    apply list_find_Some in El as (Hi & He & _). pose proof (lookup_lt_Some _ _ _ Hi).
    assert (i = length l); [|lia]. eapply H1; [by apply lookup_app_l_Some| |done|exact E].
    by rewrite lookup_app_r, Nat.sub_diag by lia.
  - rewrite (list_find_app_r _ _ _ El). cbn. destruct (decide (is_enabled d)) as [E|E].
    + by rewrite E.
    + unfold is_enabled in E. by destruct (truth _).
Qed.

Lemma one_enabled_prefix l l' : one_enabled (l ++ l') → one_enabled l.
Proof. intros H i j d e Hi Hj. apply (H i j d e); by apply lookup_app_l_Some. Qed.

Section blocks.
Context (v : write_params) (g : decl_env) (tc : hashtab string common_datum).
Context (Htc : ht_struct tc) (Hv : counts_all v) (Hg : de_commons g = Some tc) (Hte : de_te_nel g < 2 ^ 32).

Lemma block_writes nbools l :
  Forall (block_ok v nbools tc) l → Writes (avrule_block_write v 8 l) (list_bytes (block_bytes v) l).
Proof.
  intros Hl. eapply put_list_writes; [|exact Hl]. intros b (_ & Hd & _). eapply put_list_writes; [|exact Hd].
  intros d. by eapply decl_writes.
Qed.

Lemma branches_reads b flags tab : block_ok v (de_nbools g) tc b →
  ReadsMem (io_times (length (branch_list b)) (branch_read v 8 g) (AvruleBlock [] None flags, tab))
    (branch_list b ≫= decl_bytes v) (λ x, block_sim v tc flags b x.1).
Proof.
  intros (Hn & Hd & H1).
  apply (reads_mem_times (λ pre x, block_sim v tc flags (AvruleBlock pre None 0) x.1)); [by split_and!|].
  intros pre d post [b' tab'] Hl (Hf & He & Hfl). unfold branch_read. cbn [fst branch_list] in *.
  pose proof (Forall2_length _ _ _ Hf) as Hlen.
  eapply reads_mem_nil; [by apply reads_mem, reads_alloc|]. intros _ _.
  eapply reads_mem_nil; [apply reads_mem, decl_create_reads|]. intros tables Htab. rewrite <- (app_nil_r (decl_bytes v d)).
  eapply reads_mem_bind.
  { apply (decl_reads v g tc d); [done..| |done]. apply (proj1 (Forall_forall _ _) Hd). rewrite Hl. set_solver. }
  intros [d' tab2] Hd'. cbn [fst] in Hd'. rewrite (dsim_enabled _ _ _ _ Hd').
  assert (one_enabled (pre ++ [d])) as H1'.
  { rewrite Hl in H1. rewrite (cons_middle d), app_assoc in H1. by eapply one_enabled_prefix. }
  pose proof (enabled_snoc pre d H1') as Hen.
  assert (Forall2 (decl_sim v tc) (pre ++ [d]) (branch_list b' ++ [d'])) as Hf'.
  { apply Forall2_app; [done|]. constructor; [done|constructor]. }
  destruct (truth (decl_enabled d)) eqn:Etd.
  - assert (enabled_at pre = None) as Hnone.
    { destruct (enabled_at pre) as [i|] eqn:Ei; [|done]. exfalso. unfold enabled_at in Ei.
      apply fmap_Some in Ei as ([j e] & Ej & ->). cbn in *. apply list_find_Some in Ej as (Hj & Hje & _).
      pose proof (lookup_lt_Some _ _ _ Hj). assert (j = length pre); [|lia].
      eapply (H1' _ _ e d); [by apply lookup_app_l_Some|by rewrite lookup_app_r, Nat.sub_diag by lia|done|done]. }
    rewrite He, Hnone. apply reads_mem_ret. split; [done|]. split; [|done]. cbn [enabled fst branch_list]. by rewrite Hen, Hlen.
  - apply reads_mem_ret. split; [done|]. split; [|done]. cbn [enabled fst branch_list]. by rewrite Hen.
Qed.

Lemma blocks_reads l tab :
  u32s [N.of_nat (length l)] → Forall (block_ok v (de_nbools g) tc) l →
  ReadsMem (avrule_block_read v 8 g tab) (list_bytes (block_bytes v) l) (λ x, blocks_sim v tc l x.1).
Proof.
  intros Hn Hl. unfold avrule_block_read, list_bytes. eapply reads_mem_bind.
  { by apply reads_mem, (reads_words [N.of_nat (length l)]). }
  intros buf ->. word_at. rewrite Nat2N.id.
  apply (reads_mem_times (λ pre x, blocks_sim v tc pre x.1)); [by split|].
  intros pre b post [bs tab'] -> [Hlen Hsim]. cbn [fst] in *.
  destruct (proj1 (Forall_forall _ _) Hl b) as (Hbn & Hbd & Hb1); [set_solver|].
  eapply reads_mem_nil; [by apply reads_mem, reads_alloc|]. intros _ _.
  unfold block_bytes, list_bytes. eapply reads_mem_bind.
  { by apply reads_mem, (reads_words [N.of_nat (length (branch_list b))]). }
  intros buf ->. word_at. rewrite Nat2N.id. rewrite <- (app_nil_r (_ ≫= _)).
  eapply reads_mem_bind; [by apply branches_reads|]. intros [b' tab2] Hb. cbn [fst] in Hb.
  apply reads_mem_ret. cbn [fst]. split; [rewrite !length_app; cbn; lia|].
  intros i x Hi. apply lookup_app_Some in Hi as [Hi|[Hge Hi]].
  - destruct (Hsim i x Hi) as (x' & Hx' & ?). exists x'. split; [by apply lookup_app_l_Some|done].
  - apply list_lookup_singleton_Some in Hi as [Hi ->]. assert (i = length pre) as -> by lia.
    exists b'. split; [by rewrite lookup_app_r, Hlen, Nat.sub_diag by lia|].
    assert (block_flag (length pre) = match bs with [] => 0 | _ :: _ => AVRULE_OPTIONAL end) as ->; [|done].
    destruct pre, bs; done.
Qed.

End blocks.

(** ** Scopes of symbols *)

Lemma words_back ids : u32s ids → le32_at (words ids) <$> seq 0 (length ids) = ids.
Proof.
  intros Hw. apply list_eq. intros i. rewrite list_lookup_fmap. destruct (ids !! i) as [w|] eqn:Hi.
  - rewrite lookup_seq_lt by (by eapply lookup_lt_Some). cbn. f_equal. by apply le32_at_words.
  - rewrite lookup_seq_ge by (by apply lookup_ge_None). done.
Qed.

Definition scope_bytes (k : string) (d : scope_datum) : list N :=
  words [strlen k] ++ string_bytes k ++ words (scope d :: N.of_nat (length (decl_ids d)) :: decl_ids d).

(** Fewer than thirty declarations: more are written from a buffer that has to
    be allocated. *)
Definition scope_ok (exists_symbol : string → bool) (k : string) (d : scope_datum) : Prop :=
  name_ok k ∧ u32s [scope d] ∧ u32s (decl_ids d) ∧ decl_ids d ≠ [] ∧ N.of_nat (length (decl_ids d)) < 30 ∧
  exists_symbol k = true.

Definition scope_adds (is_roles : bool) (k : string) : bool := negb is_roles || not_object_r k.

Section scopes.
Context (is_roles : bool) (search : string → M bool) (exists_symbol : string → bool).
Context (Hsearch : ∀ k o, search k o = Ret (exists_symbol k) o).

#[local] Instance scope_codec :
  SymCodec scope_write (scope_read is_roles search) scope_bytes (scope_ok exists_symbol) all_kept (scope_adds is_roles) eq.
Proof.
  split.
  - intros k d (_ & _ & _ & _ & Hl & _). cbn. unfold scope_write, scope_bytes. cbv zeta.
    rewrite (proj2 (N.leb_gt _ _)) by lia. rewrite <- (app_nil_l (words [strlen k] ++ _)).
    apply writes_bind; [apply writes_ret|]. writes.
  - intros k [sc ids] t (Hk & Hsc & Hids & Hne & Hl & Hex) Ht Hnew. unfold scope_read, scope_bytes.
    cbn [scope decl_ids] in *.
    assert (u32s [strlen k]) by u32s_solve. reads_step. word_at. reads_name.
    apply (reads_bind_nil _ _ _ (λ b, b = exists_symbol k)).
    { apply reads_lift. intros o. unfold wp. by rewrite Hsearch. }
    intros b ->.
    rewrite Hex. cbn [negb]. change (words (sc :: N.of_nat (length ids) :: ids)) with (words [sc; N.of_nat (length ids)] ++ words ids).
    assert (u32s [sc; N.of_nat (length ids)]) by (inversion Hsc; repeat constructor; [done|lia]).
    do 2 reads_step. word_at. cbv zeta. destruct ids as [|i ids]; [done|].
    rewrite (proj2 (N.ltb_lt _ _)) by (cbn [length]; lia). eapply (reads_bind_nil _ _ _ (λ _, True)); [by apply reads_lift|].
    intros _ _. reads_step. rewrite <- (app_nil_r (words (i :: ids))).
    eapply reads_bind_eq; [apply reads_words; [cbn [length]; lia|done]|].
    rewrite Nat2N.id, words_back by done. word_at. rewrite strcmp_object_r. unfold scope_adds in *.
    destruct is_roles, (not_object_r k) eqn:Eo; cbn [negb andb orb] in *; try (apply added_reads; by auto).
    apply reads_ret. by exists t.
Qed.

(** The loop of [policydb_write] over a table of scopes, and that of
    [policydb_read]. *)
Definition write_scopes (h : stable scope_datum) : io unit :=
  t ← io_lift (deref h);
  _ ← put_words [nel t];
  put_table scope_write (Some t).
Definition read_scopes (h : stable scope_datum) : io (stable scope_datum) :=
  buf ← get 4; io_times (N.to_nat (le32_at buf 0)) (scope_read is_roles search) h.

Definition scopes_ok (t : hashtab string scope_datum) : Prop :=
  ht_wf t ∧ N.of_nat (length (ht_entries t)) < 2 ^ 32 ∧ ∀ k d, (k, d) ∈ ht_entries t → scope_ok exists_symbol k d.

Definition scopes_bytes (t : hashtab string scope_datum) : list N :=
  words [nel t] ++ (ht_entries t ≫= λ e, scope_bytes e.1 e.2).

Lemma scopes_writes t : scopes_ok t → Writes (write_scopes (Some t)) (scopes_bytes t).
Proof.
  intros (Hwf & _ & Hok). unfold write_scopes, scopes_bytes. eapply writes_lift; [done|].
  apply writes_bind; [apply writes_words|]. apply put_table_writes; [apply Hwf|].
  intros k d Hin. exact (sym_writes (SymCodec := scope_codec) k d (Hok k d Hin)).
Qed.

Lemma scopes_reads t t0 :
  scopes_ok t → ht_wf t0 → (∀ k, k ∈ (ht_entries t).*1 → scope_adds is_roles k = true → ht_map t0 !! k = None) →
  Reads (read_scopes (Some t0)) (scopes_bytes t) (λ h', ∃ t', h' = Some t' ∧ ht_wf t' ∧
    table_read eq (scope_adds is_roles) (ht_entries t) (ht_map t0) (ht_map t')).
Proof.
  intros (Hwf & Hlen & Hok) Ht0 Hnew. unfold read_scopes, scopes_bytes. rewrite (nel_entries t Hwf Hlen).
  assert (u32s [N.of_nat (length (ht_entries t))]) by (by repeat constructor).
  reads_step. word_at. rewrite Nat2N.id.
  eapply (entries_reads scope_write); [apply _|done|apply (wf_nodup _ (proj1 Hwf))|done|done].
Qed.

End scopes.

(** * What the module format keeps *)

(** What is written is read back when allocations succeed, and nothing more is
    read. *)
Definition SurvivesMem {B} (w : io unit) (r : io B) (Q : B → Prop) : Prop :=
  ∃ bs, (∀ fp o, pf_room fp (N.of_nat (length bs)) →
           io_run w fp o = Ret (POLICYDB_SUCCESS, pf_put fp bs) o) ∧
        (∀ fp rest, pf_wf fp → pf_avail fp = bs ++ rest →
           ∃ b fp', r fp [] = Ret (inr b, fp') [] ∧ Q b ∧ pf_wf fp' ∧ pf_avail fp' = rest).

Lemma survives_mem_intro {B} (w : io unit) (r : io B) bs Q :
  Writes w bs → ReadsMem r bs Q → SurvivesMem w r Q.
Proof.
  intros Hw Hr. exists bs. split.
  - intros fp o Hroom. unfold io_run. by rewrite bind_run, (writes_run _ _ Hw).
  - intros fp rest Hfp Hav. destruct (Hr fp rest Hfp Hav) as (b & fp' & Hm & ? & ? & ?). exists b, fp'. by split_and!.
Qed.

(** C36: the rules of a module survive the module file, in the formats from
    version 13 on ([decl_role_attributes_miscounted] shows an older one that
    does not).  [avrule_block_write] writes any list of blocks and declarations
    (conditionals, rules, role and range transitions, named transitions,
    the symbols required and declared, the tables of each declaration), and
    [avrule_block_read], given memory, returns as many blocks with the same
    declarations: the same identifiers, rules and scopes, tables with the same
    symbols, and the enabled declaration of each block the one that was
    written as enabled. *)
Theorem module_blocks_write_read v g tc tab l :
  ht_struct tc → counts_all v → de_commons g = Some tc → de_te_nel g < 2 ^ 32 →
  N.of_nat (length l) < 2 ^ 32 → Forall (block_ok v (de_nbools g) tc) l →
  SurvivesMem (avrule_block_write v 8 l) (avrule_block_read v 8 g tab) (λ x, blocks_sim v tc l x.1).
Proof.
  intros Htc Hv Hg Hte Hn Hl. eapply survives_mem_intro; [by eapply block_writes|].
  apply blocks_reads; try done. by repeat constructor.
Qed.

(** The scopes of symbols survive the module file.  A table that says which
    declarations declare or require each symbol is written by the loop of
    [policydb_write], and its loop in [policydb_read] finds every symbol again
    with the same scope and the same declarations, the role [object_r], whose
    scope the reader has already, apart. *)
Theorem scopes_write_read is_roles search exists_symbol t t0 :
  (∀ k o, search k o = Ret (exists_symbol k) o) → scopes_ok exists_symbol t → ht_wf t0 →
  (∀ k, k ∈ (ht_entries t).*1 → scope_adds is_roles k = true → ht_map t0 !! k = None) →
  SurvivesAs (write_scopes (Some t)) (read_scopes is_roles search (Some t0)) (λ h', ∃ t', h' = Some t' ∧ ht_wf t' ∧
    table_read eq (scope_adds is_roles) (ht_entries t) (ht_map t0) (ht_map t')).
Proof.
  intros Hs Hok Ht0 Hnew. eapply survives_intro; [by eapply scopes_writes|by eapply scopes_reads].
Qed.

(** ** Examples *)

Definition ex_set (n : N) : type_set := TypeSet (EBitmap [EBNode 0 n] 64) ebitmap_init 0.
Definition ex_scopes : scope_index :=
  ScopeIndex [ebitmap_init; EBitmap [EBNode 0 1] 64; ebitmap_init; EBitmap [EBNode 0 6] 64;
              ebitmap_init; ebitmap_init; ebitmap_init; ebitmap_init] [EBitmap [EBNode 0 3] 64].
Definition ex_decl_tables : decl_tables :=
  DeclTables (p_commons ex_policy) (p_classes ex_policy) (p_roles ex_policy) (p_types ex_policy) (p_users ex_policy)
    (p_bools ex_policy) (p_levels ex_policy) (p_cats ex_policy).
Definition ex_decl (id en : N) : avrule_decl :=
  AvruleDecl id en
    [ModCond (-1) [CondExpr COND_BOOL 1] [AvRule 1 0 (ex_set 1) (ex_set 2) [ClassPerm 1 3] None] [] 0]
    [AvRule 1 0 (ex_set 3) (ex_set 4) [ClassPerm 1 1; ClassPerm 2 5] None]
    [RoleTransRule (RoleSet (EBitmap [EBNode 0 1] 64) 0) (ex_set 1) (EBitmap [EBNode 0 2] 64) 2]
    [RoleAllowRule (RoleSet (EBitmap [EBNode 0 1] 64) 0) (RoleSet (EBitmap [EBNode 0 2] 64) 0)]
    [FilenameTransRule (ex_set 1) (ex_set 2) 1 "log"%string 3] [] ex_scopes ex_scopes ex_decl_tables.
Definition ex_blocks : list avrule_block :=
  [AvruleBlock [ex_decl 1 1] (Some 0%nat) 0; AvruleBlock [ex_decl 2 0; ex_decl 3 1] (Some 1%nat) AVRULE_OPTIONAL].
Definition ex_module : write_params := WriteParams POLICY_MOD 16 SEPOL_TARGET_SELINUX.

Lemma ex_decl_tables_ok tc : table (p_commons ex_policy) = Some tc → decl_tables_ok ex_module tc ex_decl_tables.
Proof. intros Htc. destruct (ex_symbols_ok ex_module eq_refl) as [? Hcl ? ? ? ? ? ?]. split; try done. by apply Hcl. Qed.

Lemma ex_decl_ok tc id en : id < 10 → en < 10 → table (p_commons ex_policy) = Some tc → decl_ok ex_module 1 tc (ex_decl id en).
Proof.
  intros Hid Hen Htc.
  assert (u32s [id; en]) by (repeat constructor; lia).
  split; cbn; [done| | | | | | | | |by apply ex_decl_tables_ok].
  all: by_decide.
Qed.

Lemma ex_blocks_ok tc : table (p_commons ex_policy) = Some tc → Forall (block_ok ex_module 1 tc) ex_blocks.
Proof.
  intros Htc. repeat apply Forall_cons_2; [| |constructor].
  all: split; [by repeat constructor|]; split; [repeat (constructor; [by apply ex_decl_ok|]); constructor|].
  all: intros [|[|i]] [|[|j]] d e Hi Hj Hd He; cbn in *; simplify_eq; try done; by destruct i || by destruct j.
Qed.

Definition ex_commons_ht : hashtab string common_datum := Hashtab [[]] 1 0 symhash symcmp.

Lemma module_blocks_write_read_witness :
  SurvivesMem (avrule_block_write ex_module 8 ex_blocks)
    (avrule_block_read ex_module 8 (DeclEnv 1 0 (Some ex_commons_ht)) ex_avtab)
    (λ x, ∃ b d, x.1 !! 1%nat = Some b ∧ enabled b = Some 1%nat ∧ block_flags b = AVRULE_OPTIONAL ∧
          branch_list b !! 0%nat = Some d ∧ decl_avrules d = decl_avrules (ex_decl 2 0)).
Proof.
  destruct (module_blocks_write_read ex_module (DeclEnv 1 0 (Some ex_commons_ht)) ex_commons_ht ex_avtab ex_blocks)
    as (bs & Hw & Hr); [apply (ex_table_struct []); by repeat constructor|by split; [|by_decide]|done|done|done|by apply ex_blocks_ok|].
  exists bs. split; [exact Hw|]. intros fp rest Hfp Hav. destruct (Hr fp rest Hfp Hav) as (x & fp' & Hx & Hsim & ?).
  exists x, fp'. split; [exact Hx|]. split; [|done].
  destruct (proj2 Hsim 1%nat _ eq_refl) as (b & Hb & Hf & He & Hfl).
  destruct (Forall2_lookup_l _ _ _ 0%nat _ Hf eq_refl) as (d & Hd & Hsd). exists b, d.
  split_and!; [exact Hb|exact He|exact Hfl|exact Hd|apply Hsd].
Defined.

(** A table of two declarations' symbols, read next to [object_r]. *)
Definition ex_scope_table : hashtab string scope_datum :=
  Hashtab [[("a_t"%string, ScopeDatum 1 [1; 2]); ("b_t"%string, ScopeDatum 2 [2])]] 1 2 symhash symcmp.
Definition ex_no_scopes : hashtab string scope_datum := Hashtab [[]] 1 0 symhash symcmp.

Lemma scopes_write_read_witness :
  SurvivesAs (write_scopes (Some ex_scope_table)) (read_scopes false (λ _, mret true : M bool) (Some ex_no_scopes))
    (λ h', ∃ t', h' = Some t' ∧ ht_map t' !! "a_t"%string = Some (ScopeDatum 1 [1; 2])).
Proof.
  destruct (scopes_write_read false (λ _, mret true : M bool) (λ _, true) ex_scope_table ex_no_scopes) as (bs & Hw & Hr).
  - done.
  - split; [split; [apply (ex_table_struct [_; _]); [repeat constructor|by_decide]|done]|]. split; [done|].
    intros k d Hin. repeat (apply elem_of_cons in Hin as [[= -> ->]|Hin]); [..|by apply elem_of_nil in Hin].
    all: unfold scope_ok; split_and!; by_decide.
  - split; [apply (ex_table_struct []); by repeat constructor|done].
  - done.
  - exists bs. split; [exact Hw|]. intros fp rest o Hfp Hav. eapply wp_mono; [by apply Hr|].
    intros x o' [Ho Hx]. split; [exact Ho|]. destruct Hx as [(h' & ? & (t' & -> & Hwf & Htr) & ?)|?]; [left|by right].
    eexists. split; [done|]. split; [|done]. exists t'. split; [done|].
    destruct (tr_entries _ _ _ _ _ Htr "a_t"%string (ScopeDatum 1 [1; 2])) as (d' & Hd & <-); [left|done|done].
Defined.

(** An attribute of roles in a declaration of an older module: one entry is
    announced and none follows. *)
Definition ex_role_attr : role_datum :=
  RoleDatum 1 ebitmap_init (TypeSet ebitmap_init ebitmap_init 0) ebitmap_init 0 ROLE_ATTRIB ebitmap_init.

Example decl_role_attributes_miscounted :
  io_run (write_symtab None (role_write (WriteParams POLICY_MOD 12 SEPOL_TARGET_SELINUX))
            (ex_table [("attr"%string, ex_role_attr)] 1)) (PolicyFile PF_USE_MEMORY [] (repeat 0 8) 8 (StdioFile [] [] 0)) [] =
  Ret (POLICYDB_SUCCESS, PolicyFile PF_USE_MEMORY (words [1; 1]) [] 0 (StdioFile [] [] 0)) [].
Proof. vm_compute. reflexivity. Qed.

(** The map of a bitmap in the scope has an unsupported size: [ebitmap_read]
    returns -EINVAL, which the reader takes for success. *)
Example scope_index_reads_bad_bitmap : ∃ fp1 fp2,
  ebitmap_read (mem_file (words [32; 64; 0; 0])) [] = Ret ((- EINVAL)%Z, ebitmap_init, fp1) [] ∧
  scope_index_read 1 (mem_file (words [32; 64; 0; 0])) [] = Ret (inr (ScopeIndex [ebitmap_init] []), fp2) [].
Proof. eexists _, _. split; vm_compute; reflexivity. Qed.

(** A scope with no declarations trips the assertion of [scope_read]. *)
Example scope_without_decls_aborts :
  scope_read false (λ _, mret true : M bool) (Some ex_no_scopes)
    (mem_file (words [1] ++ string_bytes "a" ++ words [1; 0])) [] = UB.
Proof. vm_compute. reflexivity. Qed.

(** The Boolean 0, which no policy has, passes [expr_isvalid]. *)
Example expr_boolean_zero_valid nbools : expr_isvalid nbools (CondExpr COND_BOOL 0) = true.
Proof. by destruct nbools. Qed.
