(* ===== verification/PolicyIndex.v ===== *)
(** The arrays of a policy that are indexed by the numbers of symbols: the
    [*_index] callbacks and [policydb_index_classes], [policydb_index_bools],
    [policydb_index_decls] and [policydb_index_others] of
    libsepol/src/policydb.c and conditional.c, with the caches of roles and
    users that are computed last.

    The arrays come from [malloc] where the code has it: what they hold before
    anything is stored is the parameter [memory].  A pointer to a datum of a
    table is the datum; the caches change a datum in its table and wherever
    the arrays point to it. *)

From stdpp Require Import sorting.
From S2P Require Import Prelude Ebitmap PolicyFile Hashtab MlsTypes Avtab Policydb Mls Context Expand PolicyIO SymbolIO ModuleIO.
Local Open Scope N_scope.

(** * Data *)

(** What new memory holds. *)
Record memory := Memory {
  new_common_names : nat → option string; new_class_names : nat → option string; new_bool_names : nat → option string;
  new_classes : nat → option class_datum; new_roles : nat → option role_datum; new_users : nat → option user_datum;
  new_bools : nat → option cond_bool_datum }.

(** The arrays of the database, those that [Policydb] has no field for
    included. *)
Record arrays := Arrays {
  a_common_names : list (option string); a_class_names : list (option string); a_role_names : list (option string);
  a_type_names : list (option string); a_user_names : list (option string); a_bool_names : list (option string);
  a_sens_names : list (option string); a_cat_names : list (option string);
  a_classes : list (option class_datum); a_roles : list (option role_datum); a_users : list (option user_datum);
  a_types : list (option type_datum); a_bools : list (option cond_bool_datum);
  a_decls : list (option avrule_decl) }.

Definition with_arrays (p : policydb) (a : arrays) : policydb := {|
  mls := mls p; p_commons := p_commons p; p_classes := p_classes p; p_roles := p_roles p; p_types := p_types p;
  p_users := p_users p; p_bools := p_bools p; p_levels := p_levels p; p_cats := p_cats p;
  p_class_val_to_name := a_class_names a; p_role_val_to_name := a_role_names a;
  p_type_val_to_name := a_type_names a; p_user_val_to_name := a_user_names a;
  p_sens_val_to_name := a_sens_names a; p_cat_val_to_name := a_cat_names a;
  class_val_to_struct := a_classes a; role_val_to_struct := a_roles a; user_val_to_struct := a_users a;
  type_val_to_struct := a_types a; bool_val_to_struct := a_bools a; te_avtab := te_avtab p;
  te_cond_avtab := te_cond_avtab p; cond_list := cond_list p; role_tr := role_tr p; role_allows := role_allows p;
  range_tr := range_tr p; type_attr_map := type_attr_map p; attr_type_map := attr_type_map p |}.

(** The tables and arrays of roles and users. *)
Definition with_roles (p : policydb) (roles : symtab role_datum) (arr : list (option role_datum))
    (users : symtab user_datum) (uarr : list (option user_datum)) : policydb := {|
  mls := mls p; p_commons := p_commons p; p_classes := p_classes p; p_roles := roles; p_types := p_types p;
  p_users := users; p_bools := p_bools p; p_levels := p_levels p; p_cats := p_cats p;
  p_class_val_to_name := p_class_val_to_name p; p_role_val_to_name := p_role_val_to_name p;
  p_type_val_to_name := p_type_val_to_name p; p_user_val_to_name := p_user_val_to_name p;
  p_sens_val_to_name := p_sens_val_to_name p; p_cat_val_to_name := p_cat_val_to_name p;
  class_val_to_struct := class_val_to_struct p; role_val_to_struct := arr; user_val_to_struct := uarr;
  type_val_to_struct := type_val_to_struct p; bool_val_to_struct := bool_val_to_struct p; te_avtab := te_avtab p;
  te_cond_avtab := te_cond_avtab p; cond_list := cond_list p; role_tr := role_tr p; role_allows := role_allows p;
  range_tr := range_tr p; type_attr_map := type_attr_map p; attr_type_map := attr_type_map p |}.

(** * Storing at a number *)

(** [arr[i] = x] within the array. *)
Definition store {A} (arr : list (option A)) (i : N) (x : A) : M (list (option A)) :=
  if i <? N.of_nat (length arr) then mret (<[N.to_nat i := Some x]> arr) else ub.

(** The range check of the callbacks, then the name... *)
Definition index_name (nprim v : N) (key : string) (names : list (option string)) : M (Z * list (option string)) :=
  if (v =? 0) || (nprim <? v) then mret ((- EINVAL)%Z, names) else
  names ← store names (v - 1) key; mret (0%Z, names).

(** ...or the name and the datum. *)
Definition index_datum {D} (nprim v : N) (key : string) (d : D) (a : (list (option string) * list (option D))%type)
    : M (Z * (list (option string) * list (option D))) :=
  let '(names, structs) := a in
  if (v =? 0) || (nprim <? v) then mret ((- EINVAL)%Z, (names, structs)) else
  names ← store names (v - 1) key;
  structs ← store structs (v - 1) d;
  mret (0%Z, (names, structs)).

Definition common_index (nprim : N) (key : string) (d : common_datum) := index_name nprim (common_value d) key.
Definition class_index (nprim : N) (key : string) (d : class_datum) := index_datum nprim (class_value d) key d.
Definition role_index (nprim : N) (key : string) (d : role_datum) := index_datum nprim (role_value d) key d.
Definition type_index (nprim : N) (key : string) (d : type_datum) a :=
  if truth (primary d) then index_datum nprim (type_value d) key d a else mret (0%Z, a).
Definition user_index (nprim : N) (key : string) (d : user_datum) := index_datum nprim (user_value d) key d.
Definition cond_index_bool (nprim : N) (key : string) (d : cond_bool_datum) := index_datum nprim (bool_value d) key d.
Definition sens_index (nprim : N) (key : string) (d : level_datum) names :=
  if negb (truth (level_isalias d)) then index_name nprim (sens (level d)) key names else mret (0%Z, names).
Definition cat_index (nprim : N) (key : string) (d : cat_datum) names :=
  if negb (truth (cat_isalias d)) then index_name nprim (cat_value d) key names else mret (0%Z, names).

(** * The arrays *)

Definition malloc_array {A} (contents : nat → option A) (n : N) : io (list (option A)) :=
  _ ← alloc (-1); mret (contents <$> seq 0 (N.to_nat n)).
Definition calloc_array {A} (n : N) : io (list (option A)) := malloc_array (λ _, None) n.

(** [if (hashtab_map(s->table, f, p)) return -1;]. *)
Definition index_table {D A} (s : symtab D) (f : N → string → D → A → M (Z * A)) (a : A) : io A :=
  io_checked (hashtab_map (table s) (f (nprim s)) a).

(** The array stays NULL when memory is short. *)
Definition cond_init_bool_indexes (mem : memory) (p : policydb) : M (Z * list (option cond_bool_datum)) :=
  b ← malloc;
  mret (if b : bool then (0%Z, new_bools mem <$> seq 0 (N.to_nat (nprim (p_bools p)))) else ((-1)%Z, [])).

(** One round of the loop of [policydb_index_others]: the names are a NULL
    pointer when the symbols have no numbers. *)
Definition index_names {D} (s : symtab D) (f : N → string → D → list (option string) → M (Z * list (option string)))
    : io (list (option string)) :=
  if nprim s =? 0 then mret [] else names ← calloc_array (nprim s); index_table s f names.
Definition index_symbols {D} (s : symtab D)
    (f : N → string → D → list (option string) * list (option D) → M (Z * (list (option string) * list (option D))))
    (structs : list (option D)) : io (list (option string) * list (option D)) :=
  if nprim s =? 0 then mret ([], structs) else names ← calloc_array (nprim s); index_table s f (names, structs).

Section index.
Context (mem : memory).

Definition policydb_index_classes (p : policydb) (a : arrays) : io arrays :=
  common_names ← malloc_array (new_common_names mem) (nprim (p_commons p));
  common_names ← index_table (p_commons p) common_index common_names;
  classes ← malloc_array (new_classes mem) (nprim (p_classes p));
  class_names ← malloc_array (new_class_names mem) (nprim (p_classes p));
  '(class_names, classes) ← index_table (p_classes p) class_index (class_names, classes);
  mret (Arrays common_names class_names (a_role_names a) (a_type_names a) (a_user_names a) (a_bool_names a)
          (a_sens_names a) (a_cat_names a) classes (a_roles a) (a_users a) (a_types a) (a_bools a) (a_decls a)).

Definition policydb_index_bools (p : policydb) (a : arrays) : io arrays :=
  '(rc, bools) ← io_lift (cond_init_bool_indexes mem p);
  if (rc =? -1)%Z then io_fail (-1) else
  names ← malloc_array (new_bool_names mem) (nprim (p_bools p));
  '(names, bools) ← index_table (p_bools p) cond_index_bool (names, bools);
  mret (Arrays (a_common_names a) (a_class_names a) (a_role_names a) (a_type_names a) (a_user_names a) names
          (a_sens_names a) (a_cat_names a) (a_classes a) (a_roles a) (a_users a) (a_types a) bools (a_decls a)).

(** Declarations are stored at the number the file gives them. *)
Definition policydb_index_decls (global : list avrule_block) (a : arrays) : io arrays :=
  let decls := global ≫= branch_list in
  arr ← calloc_array (N.of_nat (length decls));
  arr ← io_lift (foldl (λ m d, arr ← m; store arr (dec32 (decl_id d)) d) (mret arr) decls);
  mret (Arrays (a_common_names a) (a_class_names a) (a_role_names a) (a_type_names a) (a_user_names a) (a_bool_names a)
          (a_sens_names a) (a_cat_names a) (a_classes a) (a_roles a) (a_users a) (a_types a) (a_bools a) arr).

(** The datum of [key] becomes [d], in the table and where the array points
    to it. *)
Definition set_entry {D} (key : string) (d : D) (e : string * D) : string * D :=
  if String.eqb e.1 key then (key, d) else e.
Definition ht_set_datum {D} (h : hashtab string D) (key : string) (d : D) : hashtab string D :=
  Hashtab (map (map (set_entry key d)) (htable h)) (size h) (nel h) (hash_value h) (keycmp h).
Definition set_datum {D} (s : symtab D) (key : string) (d : D) : symtab D :=
  Symtab (option_map (λ h, ht_set_datum h key d) (table s)) (nprim s).
Definition set_pointed {D} (names : list (option string)) (key : string) (d : D) (arr : list (option D)) : list (option D) :=
  imap (λ i x, if bool_decide (names !! i = Some (Some key)) then Some d else x) arr.

Definition role_set_cache (r : role_datum) (e : ebitmap) : role_datum :=
  RoleDatum (role_value r) (dominates r) (role_types r) e (role_bounds r) (role_flavor r) (role_roles r).
Definition user_set_expanded (u : user_datum) (e : ebitmap) (r : mls_range) (l : mls_level) : user_datum :=
  UserDatum (user_value u) (user_roles u) (user_range u) (user_dfltlevel u) r l e (user_bounds u).

Definition set_role (p : policydb) (key : string) (d : role_datum) : policydb :=
  with_roles p (set_datum (p_roles p) key d) (set_pointed (p_role_val_to_name p) key d (role_val_to_struct p))
    (p_users p) (user_val_to_struct p).
Definition set_user (p : policydb) (key : string) (d : user_datum) : policydb :=
  with_roles p (p_roles p) (role_val_to_struct p)
    (set_datum (p_users p) key d) (set_pointed (p_user_val_to_name p) key d (user_val_to_struct p)).

Definition policydb_role_cache (key : string) (role : role_datum) (p : policydb) : M (Z * policydb) :=
  '(rc, cache) ← type_set_expand (role_types role) p true;
  mret (if (rc =? 0)%Z then 0%Z else (-1)%Z, set_role p key (role_set_cache role cache)).

(** Only base policies need the ranges of their users. *)
Definition policydb_user_cache (v : write_params) (key : string) (user : user_datum) (p : policydb) : M (Z * policydb) :=
  '(rc, cache, n) ← role_set_expand (user_roles user) p None None;
  let p := with_roles p (Symtab (table (p_roles p)) n) (role_val_to_struct p) (p_users p) (user_val_to_struct p) in
  let set := user_set_expanded user cache in
  if negb (rc =? 0)%Z then mret ((-1)%Z, set_user p key (set (exp_range user) (exp_dfltlevel user))) else
  if (policy_type v =? POLICY_KERN) || (policy_type v =? POLICY_MOD)
  then mret (0%Z, set_user p key (set (exp_range user) (exp_dfltlevel user))) else
  '(rc, (l0, l1), _) ← mls_semantic_range_expand (SemSource (user_range user) false) p;
  let range := MlsRange (default (level0 (exp_range user)) l0) (default (level1 (exp_range user)) l1) in
  if negb (rc =? 0)%Z then mret ((-1)%Z, set_user p key (set range (exp_dfltlevel user))) else
  '(rc, dflt) ← mls_semantic_level_expand (user_dfltlevel user) false p;
  mret (if (rc =? 0)%Z then 0%Z else (-1)%Z, set_user p key (set range dflt)).

Definition policydb_index_others (v : write_params) (p : policydb) (a : arrays) : io (policydb * arrays) :=
  roles ← malloc_array (new_roles mem) (nprim (p_roles p));
  users ← malloc_array (new_users mem) (nprim (p_users p));
  types ← calloc_array (nprim (p_types p));
  '(_, bools) ← io_lift (cond_init_bool_indexes mem p);
  '(role_names, roles) ← index_symbols (p_roles p) role_index roles;
  '(type_names, types) ← index_symbols (p_types p) type_index types;
  '(user_names, users) ← index_symbols (p_users p) user_index users;
  '(bool_names, bools) ← index_symbols (p_bools p) cond_index_bool bools;
  sens_names ← index_names (p_levels p) sens_index;
  cat_names ← index_names (p_cats p) cat_index;
  let a := Arrays (a_common_names a) (a_class_names a) role_names type_names user_names bool_names sens_names cat_names
             (a_classes a) roles users types bools (a_decls a) in
  p ← io_checked (hashtab_map (table (p_roles p)) policydb_role_cache (with_arrays p a));
  p ← io_checked (hashtab_map (table (p_users p)) (policydb_user_cache v) p);
  mret (p, a).

(** The three calls of [policydb_read]; the caches leave [p] with the arrays. *)
Definition policydb_index (v : write_params) (global : list avrule_block) (p : policydb) (a : arrays)
    : io (policydb * arrays) :=
  a ← policydb_index_decls global a;
  a ← policydb_index_classes p a;
  policydb_index_others v p a.

End index.

(** * The loop over a table *)

(** The symbol that is stored at each index: the last one with the number. *)
Definition index_map {D} (sel : D → option N) (l : list (string * D)) (m : gmap N (string * D)) : gmap N (string * D) :=
  foldl (λ m e, match sel e.2 with Some v => <[v - 1 := e]> m | None => m end) m l.

(** No two symbols have the same number. *)
Definition distinct {D} (sel : D → option N) (l : list (string * D)) : Prop :=
  ∀ e e' v, e ∈ l → e' ∈ l → sel e.2 = Some v → sel e'.2 = Some v → e = e'.
Definition in_bounds {D} (sel : D → option N) (n : N) (l : list (string * D)) : Prop :=
  ∀ e v, e ∈ l → sel e.2 = Some v → in_range v n.

Lemma index_map_spec {D} (sel : D → option N) n l m i :
  distinct sel l → in_bounds sel n l →
  (∃ e, e ∈ l ∧ sel e.2 = Some (i + 1) ∧ index_map sel l m !! i = Some e) ∨
  ((∀ e, e ∈ l → sel e.2 ≠ Some (i + 1)) ∧ index_map sel l m !! i = m !! i).
Proof.
  intros Hd Hb. revert m. induction l as [|e l IH]; intros m.
  { right. split; [|done]. intros e He. by apply elem_of_nil in He. }
  assert (distinct sel l) as Hd' by (intros x y v Hx Hy; apply Hd; by right).
  assert (in_bounds sel n l) as Hb' by (intros x v Hx; apply Hb; by right).
  cbn [index_map foldl]. set (m' := match sel e.2 with Some v => <[v - 1:=e]> m | None => m end).
  destruct (IH Hd' Hb' m') as [(e' & He' & Hs & Hm)|[Hnone Hm]].
  - left. exists e'. split_and!; [by right|done|exact Hm].
  - assert (index_map sel (e :: l) m !! i = m' !! i) as Hm' by exact Hm.
    destruct (decide (sel e.2 = Some (i + 1))) as [Hs|Hs].
    + left. exists e. split_and!; [by left|done|]. change (index_map sel l m' !! i = Some e). rewrite Hm. subst m'. rewrite Hs.
      replace (i + 1 - 1) with i by lia. apply lookup_insert_eq.
    + right. split; [intros x [->|Hx]%elem_of_cons; [done|by apply Hnone]|]. change (index_map sel l m' !! i = m !! i).
      rewrite Hm. subst m'. destruct (sel e.2) as [v|] eqn:Ev; [|done]. apply lookup_insert_ne.
      assert (in_range v n) as [] by (eapply Hb; [by left|done]). intros <-. apply Hs. f_equal. lia.
Qed.

(** What a callback does: it skips the symbol, stores it, or rejects its
    number. *)
Definition visits {D A} (sel : D → option N) (n : N) (f : string → D → A → M (Z * A))
    (inv : gmap N (string * D) → A → Prop) : Prop :=
  ∀ k d a m o, inv m a →
    match sel d with
    | None => f k d a o = Ret (0%Z, a) o
    | Some v => if (v =? 0) || (n <? v) then f k d a o = Ret ((- EINVAL)%Z, a) o
                else ∃ a', f k d a o = Ret (0%Z, a') o ∧ inv (<[v - 1 := (k, d)]> m) a'
    end.

Lemma visit_chain {D A} sel n (f : string → D → A → M (Z * A)) inv l m a o :
  visits sel n f inv → inv m a →
  ∃ r, map_chain f l a o = Ret r o ∧
    match r with
    | inr a' => in_bounds sel n l ∧ inv (index_map sel l m) a'
    | inl (rc, _) => rc = (- EINVAL)%Z ∧ ¬ in_bounds sel n l
    end.
Proof.
  intros Hv. revert m a. induction l as [|[k d] l IH]; intros m a Ha.
  { exists (inr a). split; [done|]. split; [|done]. intros e v He. by apply elem_of_nil in He. }
  unfold map_chain. cbn [for_list fst snd]. rewrite !bind_run. specialize (Hv k d a m o Ha).
  assert (∀ m', (∀ v, sel d = Some v → in_range v n) → index_map sel l m' = index_map sel ((k, d) :: l) m → ∀ a', inv m' a' →
    ∃ r, map_chain f l a' o = Ret r o ∧
      match r with
      | inr a' => in_bounds sel n ((k, d) :: l) ∧ inv (index_map sel ((k, d) :: l) m) a'
      | inl (rc, _) => rc = (- EINVAL)%Z ∧ ¬ in_bounds sel n ((k, d) :: l)
      end) as Hnext.
  { intros m' Hin Hm a' Ha'. destruct (IH m' a' Ha') as (r & Hr & Hpost). exists r. split; [done|]. rewrite <- Hm.
    destruct r as [[rc ?]|a1]; destruct Hpost as [Hp1 Hp2].
    - split; [done|]. intros Hb. apply Hp2. intros e v He. apply Hb. by right.
    - split; [|done]. intros e v [->|He]%elem_of_cons; [apply Hin|by apply Hp1]. }
  destruct (sel d) as [v|] eqn:Ev.
  - destruct ((v =? 0) || (n <? v)) eqn:Er.
    + rewrite Hv. cbn. eexists. split; [done|]. split; [done|]. intros Hb.
      assert (in_range v n) as Hr%in_range_test by (apply (Hb (k, d)); [by left|done]). congruence.
    + destruct Hv as (a' & Hf & Ha'). rewrite Hf. cbn. apply (Hnext (<[v - 1 := (k, d)]> m)); [|by cbn; rewrite Ev|done].
      intros ? [= <-]. by apply in_range_test.
  - rewrite Hv. cbn. apply (Hnext m); [done|by cbn; rewrite Ev|done].
Qed.

(** An array of [n] cells: what was stored, or what the memory held. *)
Definition cells {D X} (proj : string * D → X) (junk : nat → option X) (n : N) (m : gmap N (string * D))
    (arr : list (option X)) : Prop :=
  N.of_nat (length arr) = n ∧
  ∀ i, i < n → arr !! N.to_nat i = Some (match m !! i with Some e => Some (proj e) | None => junk (N.to_nat i) end).

Lemma cells_new {D X} (proj : string * D → X) junk n : cells proj junk n ∅ (junk <$> seq 0 (N.to_nat n)).
Proof.
  split; [rewrite length_fmap, length_seq; lia|]. intros i Hi.
  rewrite list_lookup_fmap, lookup_seq_lt by lia. by rewrite lookup_empty.
Qed.

Lemma cells_store {D X} (proj : string * D → X) junk n m arr i e o :
  cells proj junk n m arr → i < n →
  ∃ arr', store arr i (proj e) o = Ret arr' o ∧ cells proj junk n (<[i := e]> m) arr'.
Proof.
  intros [Hl Hc] Hi. unfold store. rewrite (proj2 (N.ltb_lt _ _)) by lia. eexists. split; [done|].
  split; [by rewrite length_insert|]. intros j Hj. destruct (decide (j = i)) as [->|Hne].
  - rewrite list_lookup_insert_eq by lia. by rewrite lookup_insert_eq.
  - rewrite list_lookup_insert_ne by lia. rewrite lookup_insert_ne by done. by apply Hc.
Qed.

Definition both_cells {D} (junk : nat → option D) (n : N) (m : gmap N (string * D))
    (a : (list (option string) * list (option D))%type) : Prop :=
  cells fst (λ _, None) n m a.1 ∧ cells snd junk n m a.2.

Section visits.
Context {D : Type} (sel : D → option N) (n : N).

Lemma index_name_visits (f : string → D → list (option string) → M (Z * list (option string))) junk :
  (∀ k d a, f k d a = match sel d with Some v => index_name n v k a | None => mret (0%Z, a) end) →
  visits sel n f (cells fst junk n).
Proof.
  intros Hf k d a m o Ha. rewrite Hf. destruct (sel d) as [v|]; [|done]. unfold index_name.
  destruct ((v =? 0) || (n <? v)) eqn:E; [done|]. apply in_range_test in E as [].
  destruct (cells_store fst junk n m a (v - 1) (k, d) o Ha) as (a' & Hs & Ha'); [lia|].
  exists a'. split; [|done]. rewrite bind_run. cbn [fst] in Hs. by rewrite Hs.
Qed.

Lemma index_datum_visits (f : string → D → list (option string) * list (option D) → M (Z * (list (option string) * list (option D))))
    junk names_junk :
  (∀ k d a, f k d a = match sel d with Some v => index_datum n v k d a | None => mret (0%Z, a) end) →
  visits sel n f (λ m a, cells fst names_junk n m a.1 ∧ cells snd junk n m a.2).
Proof.
  intros Hf k d [names structs] m o [Hn Hs]. rewrite Hf. destruct (sel d) as [v|]; [|done]. unfold index_datum.
  destruct ((v =? 0) || (n <? v)) eqn:E; [done|]. apply in_range_test in E as [].
  destruct (cells_store fst names_junk n m names (v - 1) (k, d) o Hn) as (names' & Hs1 & Hn'); [lia|].
  destruct (cells_store snd junk n m structs (v - 1) (k, d) o Hs) as (structs' & Hs2 & Hs'); [lia|].
  exists (names', structs'). split; [|done]. cbn [fst snd] in Hs1, Hs2. rewrite !bind_run, Hs1, bind_run, Hs2. done.
Qed.

End visits.

(** The numbers of the symbols that are stored. *)
Definition type_number (d : type_datum) : option N := if truth (primary d) then Some (type_value d) else None.
Definition sens_number (d : level_datum) : option N := if truth (level_isalias d) then None else Some (sens (level d)).
Definition cat_number (d : cat_datum) : option N := if truth (cat_isalias d) then None else Some (cat_value d).

(** * Numbered tables *)

(** The symbols of a table have numbers up to [nprim], and no two the same. *)
Record numbered {D} (sel : D → option N) (s : symtab D) : Prop := {
  nb_table : ∃ t, table s = Some t ∧ ht_struct t ∧ in_bounds sel (nprim s) (ht_entries t) ∧ distinct sel (ht_entries t);
  nb_small : nprim s < 2 ^ 32 }.

(** Every number is taken. *)
Definition dense {D} (sel : D → option N) (s : symtab D) : Prop :=
  ∀ v, in_range v (nprim s) → ∃ t k d, table s = Some t ∧ (k, d) ∈ ht_entries t ∧ sel d = Some v.

(** An array that agrees with the table: the cell of a number holds what is
    stored for its symbol. *)
Definition indexes {D X} (sel : D → option N) (proj : string * D → X) (s : symtab D) (arr : list (option X)) : Prop :=
  N.of_nat (length arr) = nprim s ∧
  ∀ t k d v, table s = Some t → (k, d) ∈ ht_entries t → sel d = Some v → arr !! N.to_nat (v - 1) = Some (Some (proj (k, d))).

Lemma cells_indexes {D X} (sel : D → option N) (proj : string * D → X) junk s t arr :
  table s = Some t → in_bounds sel (nprim s) (ht_entries t) → distinct sel (ht_entries t) →
  cells proj junk (nprim s) (index_map sel (ht_entries t) ∅) arr → indexes sel proj s arr.
Proof.
  intros Ht Hb Hd [Hl Hc]. split; [done|]. intros t' k d v Ht' Hin Hv. assert (t' = t) as -> by congruence.
  assert (in_range v (nprim s)) as [] by by eapply (Hb (k, d)). rewrite Hc by lia.
  destruct (index_map_spec sel (nprim s) (ht_entries t) ∅ (v - 1) Hd Hb) as [(e & He & Hs & ->)|[Hnone _]].
  - replace (v - 1 + 1) with v in Hs by lia. by rewrite (Hd e (k, d) v He Hin Hs Hv).
  - exfalso. apply (Hnone (k, d) Hin). replace (v - 1 + 1) with v by lia. done.
Qed.

Lemma indexes_dense {D X} (sel : D → option N) (proj : string * D → X) s arr v :
  indexes sel proj s arr → dense sel s → in_range v (nprim s) →
  ∃ t k d, table s = Some t ∧ (k, d) ∈ ht_entries t ∧ sel d = Some v ∧ arr !! N.to_nat (v - 1) = Some (Some (proj (k, d))).
Proof. intros [_ Hi] Hd (t & k & d & Ht & Hin & Hv)%Hd. exists t, k, d. split_and!; try done. by apply (Hi t). Qed.

(** Cells without a symbol keep what they held. *)
Definition untouched {D X} (sel : D → option N) (junk : nat → option X) (s : symtab D) (arr : list (option X)) : Prop :=
  ∀ t i, table s = Some t → i < nprim s → (∀ e, e ∈ ht_entries t → sel e.2 ≠ Some (i + 1)) → arr !! N.to_nat i = Some (junk (N.to_nat i)).

Lemma cells_untouched {D X} (sel : D → option N) (proj : string * D → X) junk s t arr :
  table s = Some t → in_bounds sel (nprim s) (ht_entries t) → distinct sel (ht_entries t) →
  cells proj junk (nprim s) (index_map sel (ht_entries t) ∅) arr → untouched sel junk s arr.
Proof.
  intros Ht Hb Hd [_ Hc] t' i Ht' Hi Hn. assert (t' = t) as -> by congruence. rewrite Hc by done.
  destruct (index_map_spec sel (nprim s) (ht_entries t) ∅ i Hd Hb) as [(e & He & Hs & _)|[_ ->]]; [by destruct (Hn e He)|].
  by rewrite lookup_empty.
Qed.

Lemma index_table_reads {D A} sel (s : symtab D) (f : N → string → D → A → M (Z * A)) inv a :
  numbered sel s → visits sel (nprim s) (f (nprim s)) inv → inv ∅ a →
  Reads (index_table s f a) [] (λ a', ∃ t, table s = Some t ∧ inv (index_map sel (ht_entries t) ∅) a').
Proof.
  intros [(t & Ht & Hs & Hb & Hd) _] Hv Ha. unfold index_table. apply reads_checked. intros o.
  rewrite Ht. unfold wp. rewrite map_spec by done. rewrite bind_run.
  destruct (visit_chain sel (nprim s) _ inv (ht_entries t) ∅ a o Hv Ha) as (r & -> & Hr).
  destruct r as [[rc a']|a']; [by destruct Hr|]. cbn. split; [done|]. left. split; [done|]. exists t. split; [done|apply Hr].
Qed.

Lemma numbered_empty {D X} sel (proj : string * D → X) s : numbered sel s → nprim s = 0 → indexes sel proj s [].
Proof.
  intros [(t & Ht & Hs & Hb & Hd) _] H0. split; [done|]. intros t' k d v Ht' Hin Hv. assert (t' = t) as -> by congruence.
  destruct (Hb (k, d) v Hin Hv). lia.
Qed.

Lemma malloc_reads {A} (contents : nat → option A) n :
  Reads (malloc_array contents n) [] (λ a, a = contents <$> seq 0 (N.to_nat n)).
Proof. eapply reads_bind_nil; [by apply reads_alloc|]. intros _ _. by apply reads_ret. Qed.

Lemma index_names_reads {D} sel (s : symtab D) f :
  numbered sel s →
  (∀ k d a, f (nprim s) k d a = match sel d with Some v => index_name (nprim s) v k a | None => mret (0%Z, a) end) →
  Reads (index_names s f) [] (indexes sel fst s).
Proof.
  intros Hs Hf. unfold index_names. destruct (N.eqb_spec (nprim s) 0) as [H0|H0].
  { apply reads_ret. by apply numbered_empty. }
  eapply reads_bind_nil; [apply malloc_reads|]. intros names ->. eapply reads_mono; [eapply (index_table_reads sel); [done| |apply (cells_new fst (λ _, None))]|].
  - by apply index_name_visits.
  - intros names (t & Ht & Hc). destruct Hs as [(t' & Ht' & _ & Hb & Hd) _]. assert (t' = t) as -> by congruence.
    by eapply cells_indexes.
Qed.

Lemma index_symbols_reads {D} sel (s : symtab D) f junk :
  numbered sel s →
  (∀ k d a, f (nprim s) k d a = match sel d with Some v => index_datum (nprim s) v k d a | None => mret (0%Z, a) end) →
  Reads (index_symbols s f (junk <$> seq 0 (N.to_nat (nprim s)))) []
    (λ a, indexes sel fst s a.1 ∧ indexes sel snd s a.2 ∧ untouched sel (λ _, None) s a.1 ∧ untouched sel junk s a.2).
Proof.
  intros Hs Hf. unfold index_symbols. destruct (N.eqb_spec (nprim s) 0) as [H0|H0].
  { apply reads_ret. rewrite H0. cbn. split_and!; try (by apply numbered_empty); intros t i _ Hi; lia. }
  eapply reads_bind_nil; [apply malloc_reads|]. intros names ->. eapply reads_mono; [eapply (index_table_reads sel); [done| |]|].
  - by apply (index_datum_visits sel (nprim s) _ junk (λ _, None)).
  - split; apply cells_new.
  - intros a (t & Ht & Hn & Hc). destruct Hs as [(t' & Ht' & _ & Hb & Hd) _]. assert (t' = t) as -> by congruence.
    split_and!; first [by eapply cells_indexes | by eapply cells_untouched].
Qed.

(** The same loop over numbers that nothing is known of. *)
Lemma index_table_safe {D A} sel (s : symtab D) (f : N → string → D → A → M (Z * A)) inv t a :
  table s = Some t → ht_struct t → visits sel (nprim s) (f (nprim s)) inv → inv ∅ a →
  Safe (index_table s f a) (λ a', in_bounds sel (nprim s) (ht_entries t) ∧ ∃ m, inv m a').
Proof.
  intros Ht Hs Hv Ha. unfold index_table. apply safe_checked. intros o. rewrite Ht. unfold wp.
  rewrite map_spec by done. rewrite bind_run.
  destruct (visit_chain sel (nprim s) _ inv (ht_entries t) ∅ a o Hv Ha) as (r & -> & Hr).
  destruct r as [[rc a']|a']; cbn; (split; [done|]); [by destruct Hr as [-> _]|intros _].
  destruct Hr as [Hb Hi]. split; [done|]. by eexists.
Qed.

Lemma malloc_safe {A} (contents : nat → option A) n :
  Safe (malloc_array contents n) (λ a, a = contents <$> seq 0 (N.to_nat n)).
Proof. eapply safe_bind; [by apply safe_alloc|]. intros _ _. by apply safe_ret. Qed.

Lemma index_classes_safe mem p a tc tl :
  table (p_commons p) = Some tc → ht_struct tc → table (p_classes p) = Some tl → ht_struct tl →
  Safe (policydb_index_classes mem p a) (λ a',
    in_bounds (λ d, Some (common_value d)) (nprim (p_commons p)) (ht_entries tc) ∧
    in_bounds (λ d, Some (class_value d)) (nprim (p_classes p)) (ht_entries tl) ∧
    N.of_nat (length (a_common_names a')) = nprim (p_commons p) ∧
    N.of_nat (length (a_class_names a')) = nprim (p_classes p) ∧ N.of_nat (length (a_classes a')) = nprim (p_classes p)).
Proof.
  intros Htc Hsc Htl Hsl. unfold policydb_index_classes.
  eapply safe_bind; [apply malloc_safe|]. intros ? ->. eapply safe_bind.
  { eapply (index_table_safe (λ d, Some (common_value d))); [done..| |apply (cells_new fst (new_common_names mem))].
    by apply index_name_visits. }
  intros names (Hb & m & Hl & _). eapply safe_bind; [apply malloc_safe|]. intros ? ->.
  eapply safe_bind; [apply malloc_safe|]. intros ? ->. eapply safe_bind.
  { eapply (index_table_safe (λ d, Some (class_value d)) _ _
              (λ m x, cells fst (new_class_names mem) _ m x.1 ∧ cells snd (new_classes mem) _ m x.2));
      [done..| |split; apply cells_new]. by apply index_datum_visits. }
  intros [class_names classes] (Hb' & m' & [Hl1 _] & [Hl2 _]). by apply safe_ret.
Qed.

(** * Functions on the datums of a table *)

(** The table and an array with each datum replaced by a function of its
    key. *)
Definition ht_map_data {D} (g : string → D → D) (h : hashtab string D) : hashtab string D :=
  Hashtab (map (map (λ e, (e.1, g e.1 e.2))) (htable h)) (size h) (nel h) (hash_value h) (keycmp h).
Definition map_pointed {D} (names : list (option string)) (g : string → D → D) (arr : list (option D)) : list (option D) :=
  imap (λ i x, match names !! i with Some (Some k) => g k <$> x | _ => x end) arr.

Lemma map_data_entries {D} (g : string → D → D) h : ht_entries (ht_map_data g h) = (λ e, (e.1, g e.1 e.2)) <$> ht_entries h.
Proof. unfold ht_entries, ht_map_data. cbn. by rewrite <- concat_map. Qed.

Lemma map_data_keys {D} (g : string → D → D) h : (ht_entries (ht_map_data g h)).*1 = (ht_entries h).*1.
Proof. rewrite map_data_entries, <- list_fmap_compose. by apply list_fmap_ext. Qed.

Lemma map_data_struct {D} (g : string → D → D) h : ht_struct h → ht_struct (ht_map_data g h).
Proof.
  intros [Ho Hs Hm Hh Hc Hn]. split; cbn; try done.
  - by rewrite length_map.
  - intros i c Hi. rewrite list_lookup_fmap in Hi. apply fmap_Some in Hi as (c0 & Hc0 & ->).
    destruct (Hc i c0 Hc0) as [Hsort Hall]. split; [|by apply Forall_map].
    clear - Hsort. induction Hsort as [|x l Hl IH Hx]; [constructor|]. cbn. constructor; [done|].
    apply Forall_map. eapply Forall_impl; [exact Hx|]. done.
  - exact (eq_ind_r (λ l, NoDup l) Hn (map_data_keys g h)).
Qed.

Lemma map_data_lookup {D} (g : string → D → D) h k : ht_map (ht_map_data g h) !! k = g k <$> ht_map h !! k.
Proof.
  unfold ht_map. rewrite map_data_entries. induction (ht_entries h) as [|[k' d'] l IH]; [done|].
  cbn. destruct (decide (k' = k)) as [->|Hne]; [by rewrite !lookup_insert_eq|by rewrite !lookup_insert_ne].
Qed.

Definition update_data {D} (g : string → D → D) (k : string) (d' : D) : string → D → D :=
  λ k' d, if String.eqb k' k then d' else g k' d.

Lemma map_data_set {D} (g : string → D → D) h k d' : ht_set_datum (ht_map_data g h) k d' = ht_map_data (update_data g k d') h.
Proof.
  unfold ht_set_datum, ht_map_data. cbn. f_equal. rewrite map_map. apply map_ext. intros c. rewrite map_map.
  apply map_ext. intros [k' d]. unfold set_entry, update_data. cbn. destruct (String.eqb_spec k' k) as [->|]; done.
Qed.

Lemma set_datum_data {D} (g : string → D → D) h n k d' :
  set_datum (Symtab (Some (ht_map_data g h)) n) k d' = Symtab (Some (ht_map_data (update_data g k d') h)) n.
Proof. unfold set_datum. cbn [table nprim option_map]. by rewrite map_data_set. Qed.

(** Every named cell points to a datum. *)
Definition pointed {D} (names : list (option string)) (arr : list (option D)) : Prop :=
  ∀ i k, names !! i = Some (Some k) → arr !! i ≠ Some None.

Lemma map_pointed_set {D} names (g : string → D → D) arr k d' : pointed names arr →
  set_pointed names k d' (map_pointed names g arr) = map_pointed names (update_data g k d') arr.
Proof.
  intros Hp. apply list_eq. intros i. unfold set_pointed, map_pointed. rewrite !list_lookup_imap.
  destruct (arr !! i) as [x|] eqn:Ei; [|done]. cbn. f_equal. unfold update_data. case_bool_decide as Hn.
  - rewrite Hn. destruct x as [d|]; cbn; [by rewrite String.eqb_refl|]. by destruct (Hp i k Hn).
  - destruct (names !! i) as [[k'|]|] eqn:Ek; try done. destruct x as [d|]; [|done]. cbn.
    destruct (String.eqb_spec k' k) as [->|]; done.
Qed.

(** A loop that replaces the datums one by one. *)
Section caches.
Context {D : Type} (cb : string → D → policydb → M (Z * policydb)) (mk : (string → D → D) → policydb) (R : D → D → Prop).

Definition caches (k : string) (d : D) : Prop := ∀ g o,
  wp (cb k d (mk g)) o (λ r o', (o = [] → o' = []) ∧
    ((r.1 = 0%Z ∧ ∃ d', R d d' ∧ r.2 = mk (update_data g k d')) ∨ (r.1 ≠ 0%Z ∧ o ≠ []))).

Lemma cache_chain l g o : NoDup l.*1 → (∀ k d, (k, d) ∈ l → caches k d) →
  wp (map_chain cb l (mk g)) o (λ r o', (o = [] → o' = []) ∧
    match r with
    | inr p => ∃ g', p = mk g' ∧ (∀ k d, (k, d) ∈ l → R d (g' k d)) ∧ (∀ k, k ∉ l.*1 → g' k = g k)
    | inl (rc, _) => rc ≠ 0%Z ∧ o ≠ []
    end).
Proof.
  revert g o. induction l as [|[k d] l IH]; intros g o Hn Hc.
  { unfold wp. cbn. split; [done|]. exists g. split; [done|]. split; [|done]. intros ? ? Hin. by apply elem_of_nil in Hin. }
  cbn in Hn. apply NoDup_cons in Hn as [Hk Hn]. unfold map_chain. cbn [for_list fst snd]. do 2 apply wp_bind.
  eapply wp_mono; [apply (Hc k d); by left|]. intros [rc p] o1 [Ho1 H1]. cbn [fst snd] in H1. apply wp_ret.
  destruct H1 as [(-> & d' & HR & ->)|[Hrc Hoo]].
  - cbn. eapply wp_mono; [apply IH; [done|intros ? ? ?; apply Hc; by right]|]. intros r o2 [Ho2 Hr]. split; [naive_solver|].
    destruct r as [[rc p]|p]; [split; [apply Hr|naive_solver]|]. destruct Hr as (g' & -> & Hin & Hout).
    exists g'. split; [done|]. split.
    + intros k1 d1 [[= -> ->]|Hl]%elem_of_cons; [|by apply Hin].
      rewrite Hout by done. unfold update_data. by rewrite String.eqb_refl.
    + intros k1 [Hne Hnl]%not_elem_of_cons. rewrite Hout by done. unfold update_data.
      destruct (String.eqb_spec k1 k) as [->|]; [done|]. done.
  - apply Z.eqb_neq in Hrc as Hrc'. rewrite Hrc'. apply wp_ret. by split; [|split].
Qed.

Lemma caches_reads t g : ht_struct t → (∀ k d, (k, d) ∈ ht_entries t → caches k d) →
  Reads (io_checked (hashtab_map (Some t) cb (mk g))) [] (λ p, ∃ g', p = mk g' ∧ ∀ k d, (k, d) ∈ ht_entries t → R d (g' k d)).
Proof.
  intros Ht Hc. apply reads_checked. intros o. unfold wp. rewrite map_spec by done. apply wp_bind.
  eapply wp_mono; [by apply cache_chain; [apply (wf_nodup _ Ht)|]|]. intros r o' [Ho Hr]. apply wp_ret. split; [done|].
  destruct r as [[rc p]|p]; [by right|]. left. destruct Hr as (g' & -> & Hin & _). split; [done|]. by exists g'.
Qed.

End caches.

(** * What indexing needs and gives *)

Definition decl_numbers (global : list avrule_block) : Prop :=
  let decls := global ≫= branch_list in
  N.of_nat (length decls) < 2 ^ 32 ∧ Forall (λ d, in_range (decl_id d) (N.of_nat (length decls))) decls.

(** The number of a type refers to a declared type. *)
Definition declared_type (p : policydb) (i : N) : Prop :=
  ∃ t k d, table (p_types p) = Some t ∧ (k, d) ∈ ht_entries t ∧ type_number d = Some (i + 1).

(** A policy before it is indexed. *)
Record index_ready (global : list avrule_block) (p : policydb) : Prop := {
  ir_decls : decl_numbers global;
  ir_commons : numbered (λ d, Some (common_value d)) (p_commons p);
  ir_classes : numbered (λ d, Some (class_value d)) (p_classes p);
  ir_roles : numbered (λ d, Some (role_value d)) (p_roles p);
  ir_types : numbered type_number (p_types p);
  ir_users : numbered (λ d, Some (user_value d)) (p_users p);
  ir_bools : numbered (λ d, Some (bool_value d)) (p_bools p);
  ir_sens : numbered sens_number (p_levels p);
  ir_cats : numbered cat_number (p_cats p);
  ir_dense : dense (λ d, Some (class_value d)) (p_classes p) ∧ dense (λ d, Some (role_value d)) (p_roles p) ∧
             dense (λ d, Some (user_value d)) (p_users p) ∧ dense sens_number (p_levels p);
  ir_role_types : ∀ t k d, table (p_roles p) = Some t → (k, d) ∈ ht_entries t →
    ebitmap_wf (ts_types (role_types d)) ∧ ebitmap_wf (ts_negset (role_types d)) ∧
    (∀ i, ebitmap_bit (ts_types (role_types d)) i = true → declared_type p i) ∧
    (∀ i, ebitmap_bit (ts_negset (role_types d)) i = true → i < nprim (p_types p));
  ir_user_roles : ∀ t k d, table (p_users p) = Some t → (k, d) ∈ ht_entries t →
    rs_flags (user_roles d) = 0 ∧ ebitmap_wf (rs_roles (user_roles d));
  ir_type_count : nprim (p_types p) < 2 ^ 32 - 64;
  ir_attribs : ∀ t k d, table (p_types p) = Some t → (k, d) ∈ ht_entries t → truth (primary d) = true → flavor d = TYPE_ATTRIB →
    ebitmap_wf (td_types d) ∧ ∀ x, ebitmap_bit (td_types d) x = true → x < nprim (p_types p) ∧
      ∀ k' d', (k', d') ∈ ht_entries t → type_number d' = Some (x + 1) → flavor d' ≠ TYPE_ATTRIB;
  ir_level_cats : ∀ t k d, table (p_levels p) = Some t → (k, d) ∈ ht_entries t → level_wf (level d) }.

(** The arrays of the policy agree with its tables. *)
Record indexed (p : policydb) (a : arrays) : Prop := {
  ix_commons : indexes (λ d, Some (common_value d)) fst (p_commons p) (a_common_names a);
  ix_class_names : indexes (λ d, Some (class_value d)) fst (p_classes p) (p_class_val_to_name p);
  ix_classes : indexes (λ d, Some (class_value d)) snd (p_classes p) (class_val_to_struct p);
  ix_role_names : indexes (λ d, Some (role_value d)) fst (p_roles p) (p_role_val_to_name p);
  ix_roles : indexes (λ d, Some (role_value d)) snd (p_roles p) (role_val_to_struct p);
  ix_type_names : indexes type_number fst (p_types p) (p_type_val_to_name p);
  ix_types : indexes type_number snd (p_types p) (type_val_to_struct p);
  ix_no_type : untouched type_number (λ _, None) (p_types p) (type_val_to_struct p);
  ix_user_names : indexes (λ d, Some (user_value d)) fst (p_users p) (p_user_val_to_name p);
  ix_users : indexes (λ d, Some (user_value d)) snd (p_users p) (user_val_to_struct p);
  ix_bool_names : indexes (λ d, Some (bool_value d)) fst (p_bools p) (a_bool_names a);
  ix_bools : indexes (λ d, Some (bool_value d)) snd (p_bools p) (bool_val_to_struct p);
  ix_sens : indexes sens_number fst (p_levels p) (p_sens_val_to_name p);
  ix_cats : indexes cat_number fst (p_cats p) (p_cat_val_to_name p) }.

(** [p'] is [p] with arrays and caches: the cache of a role has the types of
    its set, that of a user its roles. *)
Definition role_cached (p' : policydb) (d d' : role_datum) : Prop :=
  ∃ e, d' = role_set_cache d e ∧ ebitmap_wf e ∧ ∀ x, ebitmap_bit e x = true ↔ type_in p' true (role_types d) x.
Definition user_cached (d d' : user_datum) : Prop :=
  ∃ e, d' = user_set_expanded d e (exp_range d) (exp_dfltlevel d) ∧ ebitmap_wf e ∧
       ∀ x, ebitmap_bit e x = true ↔ ebitmap_bit (rs_roles (user_roles d)) x = true.

Definition data_cached {D} (R : D → D → Prop) (s s' : symtab D) : Prop :=
  ∃ t t', table s = Some t ∧ table s' = Some t' ∧ nprim s' = nprim s ∧ ht_struct t' ∧
    ∀ k, match ht_map t !! k with
         | Some d => ∃ d', ht_map t' !! k = Some d' ∧ R d d'
         | None => ht_map t' !! k = None
         end.

Record caches_of (p p' : policydb) : Prop := {
  cc_roles : data_cached (role_cached p') (p_roles p) (p_roles p');
  cc_users : data_cached user_cached (p_users p) (p_users p');
  cc_commons : p_commons p' = p_commons p; cc_classes : p_classes p' = p_classes p; cc_types : p_types p' = p_types p;
  cc_bools : p_bools p' = p_bools p; cc_levels : p_levels p' = p_levels p; cc_cats : p_cats p' = p_cats p;
  cc_rest : ∃ a roles arr users uarr, p' = with_roles (with_arrays p a) roles arr users uarr }.

(** ** The parts *)

Lemma decl_loop n l m o :
  n < 2 ^ 32 → Forall (λ d, in_range (decl_id d) n) l →
  wp m o (λ arr o', o' = o ∧ N.of_nat (length arr) = n) →
  wp (foldl (λ m d, arr ← m; store arr (dec32 (decl_id d)) d) m l) o (λ _ o', o' = o).
Proof.
  intros Hn Hl. revert m. induction Hl as [|d l [H0 H1] _ IH]; intros m Hm.
  { eapply wp_mono; [exact Hm|]. by intros ? ? []. }
  apply IH, wp_bind. eapply wp_mono; [exact Hm|]. intros arr o' [-> Hlen]. rewrite dec32_pred by lia. unfold store.
  rewrite (proj2 (N.ltb_lt _ _)) by lia. apply wp_ret. by rewrite length_insert.
Qed.

Lemma index_decls_reads global a : decl_numbers global →
  Reads (policydb_index_decls global a) [] (λ a', ∃ arr, a' = Arrays (a_common_names a) (a_class_names a) (a_role_names a)
    (a_type_names a) (a_user_names a) (a_bool_names a) (a_sens_names a) (a_cat_names a) (a_classes a) (a_roles a)
    (a_users a) (a_types a) (a_bools a) arr).
Proof.
  intros [Hn Hd]. unfold policydb_index_decls. cbv zeta. eapply reads_bind_nil; [apply malloc_reads|]. intros arr ->.
  eapply (reads_bind_nil _ _ _ (λ _, True)); [|intros arr _; apply reads_ret; by exists arr].
  apply reads_lift. intros o. eapply wp_mono; [eapply (decl_loop _ _ _ _ Hn Hd)|by intros ? ? ->].
  apply wp_ret. split; [done|]. rewrite length_fmap, length_seq. lia.
Qed.

Lemma index_classes_reads mem p a :
  numbered (λ d, Some (common_value d)) (p_commons p) → numbered (λ d, Some (class_value d)) (p_classes p) →
  Reads (policydb_index_classes mem p a) [] (λ a',
    indexes (λ d, Some (common_value d)) fst (p_commons p) (a_common_names a') ∧
    indexes (λ d, Some (class_value d)) fst (p_classes p) (a_class_names a') ∧
    indexes (λ d, Some (class_value d)) snd (p_classes p) (a_classes a')).
Proof.
  intros Hco Hcl. unfold policydb_index_classes.
  eapply reads_bind_nil; [apply malloc_reads|]. intros ? ->.
  eapply reads_bind_nil.
  { eapply (index_table_reads (λ d, Some (common_value d))); [done| |apply (cells_new fst (new_common_names mem))].
    by apply index_name_visits. }
  intros common_names (t & Ht & Hc).
  eapply reads_bind_nil; [apply malloc_reads|]. intros ? ->. eapply reads_bind_nil; [apply malloc_reads|]. intros ? ->.
  eapply reads_bind_nil.
  { eapply (index_table_reads (λ d, Some (class_value d)) _ _ (λ m x, cells fst (new_class_names mem) _ m x.1 ∧ cells snd (new_classes mem) _ m x.2));
      [done| |split; apply cells_new]. by apply index_datum_visits. }
  intros [names classes] (t' & Ht' & Hn & Hs). apply reads_ret. cbn [a_common_names a_class_names a_classes].
  destruct Hco as [(? & E & _ & Hb & Hd) _], Hcl as [(? & E' & _ & Hb' & Hd') _]. simplify_eq.
  split_and!; by eapply cells_indexes.
Qed.

Lemma cell_source {D} sel (s : symtab D) t arr i d :
  table s = Some t → indexes sel snd s arr → untouched sel (λ _, None) s arr → arr !! N.to_nat i = Some (Some d) →
  i < nprim s ∧ ∃ k, (k, d) ∈ ht_entries t ∧ sel d = Some (i + 1).
Proof.
  intros Ht [Hl Hi] Hu Hc. pose proof (lookup_lt_Some _ _ _ Hc). assert (i < nprim s) as Hin by lia. split; [done|].
  destruct (decide (Exists (λ e, sel e.2 = Some (i + 1)) (ht_entries t))) as [He|He].
  - apply Exists_exists in He as ([k d'] & He & Hs). cbn in Hs. pose proof (Hi t k d' (i + 1) Ht He Hs) as Hcell.
    replace (i + 1 - 1) with i in Hcell by lia. rewrite Hc in Hcell. injection Hcell as ->. by exists k.
  - rewrite (Hu t i Ht Hin) in Hc; [done|]. intros e Hel Hs. apply He, Exists_exists. by exists e.
Qed.

Lemma map_data_id {D} (h : hashtab string D) : ht_map_data (λ _ d, d) h = h.
Proof.
  destruct h as [t sz n hv kc]. unfold ht_map_data. cbn. f_equal. rewrite <- (map_id t) at 2. apply map_ext. intros c.
  rewrite <- (map_id c) at 2. apply map_ext. by intros [].
Qed.

Lemma map_pointed_id {D} names (arr : list (option D)) : map_pointed names (λ _ d, d) arr = arr.
Proof.
  apply list_eq. intros i. unfold map_pointed. rewrite list_lookup_imap. destruct (arr !! i) as [x|]; [|done]. cbn. f_equal.
  destruct (names !! i) as [[k|]|]; [|done..]. by destruct x.
Qed.

Lemma indexes_pointed {D} sel (s : symtab D) t names arr :
  table s = Some t → indexes sel fst s names → untouched sel (λ _, None) s names → indexes sel snd s arr → pointed names arr.
Proof.
  intros Ht Hn Hu [Hl Hi] i k Hk Hnone. rewrite <- (Nat2N.id i) in Hk, Hnone.
  assert (N.of_nat i < nprim s) as Hin by (apply lookup_lt_Some in Hnone; rewrite Nat2N.id in Hnone; lia).
  destruct (decide (Exists (λ e, sel e.2 = Some (N.of_nat i + 1)) (ht_entries t))) as [He|He].
  - apply Exists_exists in He as ([k' d'] & He & Hs). cbn in Hs. pose proof (Hi t k' d' _ Ht He Hs) as Hc.
    replace (N.of_nat i + 1 - 1) with (N.of_nat i) in Hc by lia. congruence.
  - rewrite (Hu t _ Ht Hin) in Hk; [done|]. intros e Hel Hs. apply He, Exists_exists. by exists e.
Qed.

(** The array points to the new datums. *)
Lemma indexes_mapped {D} (sel : D → option N) s t g names arr :
  (∀ k d, (k, d) ∈ ht_entries t → sel (g k d) = sel d) →
  table s = Some t → indexes sel fst s names → indexes sel snd s arr →
  let s' := Symtab (Some (ht_map_data g t)) (nprim s) in
  indexes sel fst s' names ∧ indexes sel snd s' (map_pointed names g arr).
Proof.
  intros Hg Ht [Hl Hn] [Hl' Ha] s'. split.
  - split; [done|]. intros t' k d v [= <-] Hin Hv. rewrite map_data_entries in Hin.
    apply list_elem_of_fmap in Hin as ([k0 d0] & [= -> ->] & Hin). rewrite Hg in Hv by done. by apply (Hn t k0 d0).
  - unfold map_pointed. split; [by rewrite length_imap|]. intros t' k d v [= <-] Hin Hv. rewrite map_data_entries in Hin.
    apply list_elem_of_fmap in Hin as ([k0 d0] & [= -> ->] & Hin). rewrite Hg in Hv by done.
    rewrite list_lookup_imap, (Ha t k0 d0 v Ht Hin Hv). cbn. by rewrite (Hn t k0 d0 v Ht Hin Hv).
Qed.

Lemma mapped_cached {D} (R : D → D → Prop) s t g :
  table s = Some t → ht_struct t → (∀ k d, (k, d) ∈ ht_entries t → R d (g k d)) →
  data_cached R s (Symtab (Some (ht_map_data g t)) (nprim s)).
Proof.
  intros Ht Hs Hg. exists t, (ht_map_data g t). split_and!; [done..|by apply map_data_struct|]. intros k.
  rewrite map_data_lookup. destruct (ht_map t !! k) as [d|] eqn:E; [|done]. exists (g k d). split; [done|].
  apply Hg. by apply elem_of_list_to_map_2.
Qed.

(** ** Types, roles and users *)

Lemma indexed_types_wf p arr : numbered type_number (p_types p) → nprim (p_types p) < 2 ^ 32 - 64 →
  (∀ t k d, table (p_types p) = Some t → (k, d) ∈ ht_entries t → truth (primary d) = true → flavor d = TYPE_ATTRIB →
    ebitmap_wf (td_types d) ∧ ∀ x, ebitmap_bit (td_types d) x = true → x < nprim (p_types p) ∧
      ∀ k' d', (k', d') ∈ ht_entries t → type_number d' = Some (x + 1) → flavor d' ≠ TYPE_ATTRIB) →
  indexes type_number snd (p_types p) arr → untouched type_number (λ _, None) (p_types p) arr →
  ∀ p1, p_types p1 = p_types p → type_val_to_struct p1 = arr → types_wf p1.
Proof.
  intros [(t & Ht & _) _] Hc Ha Hi Hu p1 Hp1 Harr.
  assert (∀ i d, type_at p1 i = Some d → ∃ k, (k, d) ∈ ht_entries t ∧ type_number d = Some (i + 1)) as Hsrc.
  { intros i d Hd. unfold type_at in Hd. rewrite Harr in Hd. destruct (arr !! N.to_nat i) as [x|] eqn:E; [|done]. cbn in Hd.
    subst x. by apply (cell_source type_number _ t arr i d Ht Hi Hu) in E as []. }
  split; [by rewrite Hp1|rewrite Hp1, Harr; apply Hi|].
  intros i d (k & Hin & Hnum)%Hsrc Hf. assert (truth (primary d) = true) as Hpr.
  { unfold type_number in Hnum. by destruct (truth (primary d)). }
  destruct (Ha t k d Ht Hin Hpr Hf) as [Hwf Hx]. rewrite Hp1. split; [done|]. intros x Hb. destruct (Hx x Hb) as [Hlt Hno].
  split; [done|]. unfold attrib, is_attrib. destruct (type_at p1 x) as [d'|] eqn:E; [|done].
  apply Hsrc in E as (k' & Hin' & Hnum'). apply N.eqb_neq. by apply (Hno k' d').
Qed.

(** The policies of the loops over roles and users. *)
Definition roles_by (p : policydb) (t : hashtab string role_datum) (g : string → role_datum → role_datum) : policydb :=
  with_roles p (Symtab (Some (ht_map_data g t)) (nprim (p_roles p)))
    (map_pointed (p_role_val_to_name p) g (role_val_to_struct p)) (p_users p) (user_val_to_struct p).
Definition users_by (p : policydb) (t : hashtab string user_datum) (g : string → user_datum → user_datum) : policydb :=
  with_roles p (p_roles p) (role_val_to_struct p) (Symtab (Some (ht_map_data g t)) (nprim (p_users p)))
    (map_pointed (p_user_val_to_name p) g (user_val_to_struct p)).

Lemma roles_by_id p t : table (p_roles p) = Some t → roles_by p t (λ _ d, d) = p.
Proof. intros Ht. destruct p as [? ? ? [tr nr]]. unfold roles_by, with_roles. cbn -[map_pointed ht_map_data] in *. rewrite map_data_id, map_pointed_id. by subst tr. Qed.
Lemma users_by_id p t : table (p_users p) = Some t → users_by p t (λ _ d, d) = p.
Proof.
  intros Ht. destruct p as [? ? ? ? ? [tr nr]]. unfold users_by, with_roles. cbn -[map_pointed ht_map_data] in *. rewrite map_data_id, map_pointed_id. by subst tr.
Qed.

Lemma role_cache_caches p t k d :
  types_wf p → type_set_wf p (role_types d) → pointed (p_role_val_to_name p) (role_val_to_struct p) →
  caches policydb_role_cache (roles_by p t) (role_cached p) k d.
Proof.
  intros Hp Hs Hpt g o. unfold policydb_role_cache. apply wp_bind.
  eapply wp_mono; [apply (type_set_expand_spec (roles_by p t g)); [by destruct Hp|by destruct Hs]|].
  intros [rc e] o' [Ho Hr]. cbn [fst snd] in *. apply wp_ret. split; [naive_solver|]. cbn [fst snd].
  destruct Hr as [(-> & Hwf & Hx)| ->].
  - left. split; [done|]. exists (role_set_cache d e). split; [by exists e|].
    unfold set_role, roles_by. cbn -[map_pointed set_pointed ht_map_data set_datum].
    rewrite map_pointed_set by done. by rewrite set_datum_data.
  - right. split; [done|]. intros ->. by destruct (Ho eq_refl).
Qed.

Lemma user_cache_caches v p t k d :
  policy_type v = POLICY_KERN ∨ policy_type v = POLICY_MOD →
  rs_flags (user_roles d) = 0 → ebitmap_wf (rs_roles (user_roles d)) → pointed (p_user_val_to_name p) (user_val_to_struct p) →
  caches (policydb_user_cache v) (users_by p t) user_cached k d.
Proof.
  intros Hv Hf Hw Hpt g o. unfold policydb_user_cache. apply wp_bind.
  eapply wp_mono; [by apply (role_set_expand_spec (user_roles d) _ None None)|].
  intros [[rc e] n] o' [Hn [Ho Hr]]. cbn [fst snd] in *. subst n.
  assert ((policy_type v =? POLICY_KERN) || (policy_type v =? POLICY_MOD) = true) as Hv'.
  { destruct Hv as [-> | ->]; [by rewrite N.eqb_refl|by rewrite N.eqb_refl, orb_true_r]. }
  rewrite Hv'. destruct Hr as [(-> & Hwf & Hx)| ->].
  - cbn [Z.eqb negb]. apply wp_ret. split; [naive_solver|]. left. split; [done|]. cbn [snd].
    eexists. split; [by exists e|]. unfold set_user, users_by. cbn -[map_pointed set_pointed ht_map_data set_datum].
    rewrite map_pointed_set by done. rewrite set_datum_data. by destruct (p_roles p).
  - apply wp_ret. split; [naive_solver|]. right. split; [done|]. intros ->. by destruct (Ho eq_refl).
Qed.

Lemma lift_mem {A} (m : M A) a : m [] = Ret a [] → ReadsMem (io_lift m) [] (λ x, x = a).
Proof. intros Hm fp rest Hfp Hav. exists a, fp. split; [|done]. unfold io_lift. by rewrite bind_run, Hm. Qed.

(** The arrays after the loop over the symbols, before the caches. *)
Lemma index_arrays_reads mem p a (k : arrays → io (policydb * arrays)) Q :
  numbered (λ d, Some (role_value d)) (p_roles p) → numbered type_number (p_types p) →
  numbered (λ d, Some (user_value d)) (p_users p) → numbered (λ d, Some (bool_value d)) (p_bools p) →
  numbered sens_number (p_levels p) → numbered cat_number (p_cats p) →
  (∀ a', a_common_names a' = a_common_names a → a_class_names a' = a_class_names a → a_classes a' = a_classes a →
     indexes (λ d, Some (role_value d)) fst (p_roles p) (a_role_names a') →
     indexes (λ d, Some (role_value d)) snd (p_roles p) (a_roles a') →
     untouched (λ d, Some (role_value d)) (λ _, None) (p_roles p) (a_role_names a') →
     indexes type_number fst (p_types p) (a_type_names a') → indexes type_number snd (p_types p) (a_types a') →
     untouched type_number (λ _, None) (p_types p) (a_types a') →
     indexes (λ d, Some (user_value d)) fst (p_users p) (a_user_names a') →
     indexes (λ d, Some (user_value d)) snd (p_users p) (a_users a') →
     untouched (λ d, Some (user_value d)) (λ _, None) (p_users p) (a_user_names a') →
     indexes (λ d, Some (bool_value d)) fst (p_bools p) (a_bool_names a') →
     indexes (λ d, Some (bool_value d)) snd (p_bools p) (a_bools a') →
     indexes sens_number fst (p_levels p) (a_sens_names a') → indexes cat_number fst (p_cats p) (a_cat_names a') →
     ReadsMem (k a') [] Q) →
  ReadsMem (
    roles ← malloc_array (new_roles mem) (nprim (p_roles p));
    users ← malloc_array (new_users mem) (nprim (p_users p));
    types ← calloc_array (nprim (p_types p));
    '(_, bools) ← io_lift (cond_init_bool_indexes mem p);
    '(role_names, roles) ← index_symbols (p_roles p) role_index roles;
    '(type_names, types) ← index_symbols (p_types p) type_index types;
    '(user_names, users) ← index_symbols (p_users p) user_index users;
    '(bool_names, bools) ← index_symbols (p_bools p) cond_index_bool bools;
    sens_names ← index_names (p_levels p) sens_index;
    cat_names ← index_names (p_cats p) cat_index;
    k (Arrays (a_common_names a) (a_class_names a) role_names type_names user_names bool_names sens_names cat_names
             (a_classes a) roles users types bools (a_decls a))) [] Q.
Proof.
  intros Hro Hty Hus Hbo Hse Hca Hk.
  eapply reads_mem_nil; [apply reads_mem, malloc_reads|]. intros ? ->.
  eapply reads_mem_nil; [apply reads_mem, malloc_reads|]. intros ? ->.
  eapply reads_mem_nil; [apply reads_mem, malloc_reads|]. intros ? ->.
  eapply reads_mem_nil; [by apply lift_mem|]. intros [rc bools] [= -> ->].
  eapply reads_mem_nil; [apply reads_mem, (index_symbols_reads (λ d, Some (role_value d))); done|]. intros [rn rs] (R1 & R2 & R3 & R4).
  eapply reads_mem_nil; [apply reads_mem, (index_symbols_reads type_number); [done|]|].
  { intros k0 d x. unfold type_index, type_number. by destruct (truth (primary d)). }
  intros [tn ts] (T1 & T2 & T3 & T4).
  eapply reads_mem_nil; [apply reads_mem, (index_symbols_reads (λ d, Some (user_value d))); done|]. intros [un us] (U1 & U2 & U3 & U4).
  eapply reads_mem_nil; [apply reads_mem, (index_symbols_reads (λ d, Some (bool_value d))); done|]. intros [bn bs] (B1 & B2 & B3 & B4).
  eapply reads_mem_nil; [apply reads_mem, (index_names_reads sens_number); [done|]|].
  { intros k0 d x. unfold sens_index, sens_number. by destruct (truth (level_isalias d)). }
  intros sn S1. eapply reads_mem_nil; [apply reads_mem, (index_names_reads cat_number); [done|]|].
  { intros k0 d x. unfold cat_index, cat_number. by destruct (truth (cat_isalias d)). }
  intros cn C1. by apply Hk.
Qed.

(** The caches, on a policy whose arrays agree with its tables. *)
Record arrays_ready (p p1 : policydb) : Prop := {
  ar_tables : p_types p1 = p_types p ∧ p_roles p1 = p_roles p ∧ p_users p1 = p_users p;
  ar_role_names : indexes (λ d, Some (role_value d)) fst (p_roles p) (p_role_val_to_name p1);
  ar_no_role : untouched (λ d, Some (role_value d)) (λ _, None) (p_roles p) (p_role_val_to_name p1);
  ar_roles : indexes (λ d, Some (role_value d)) snd (p_roles p) (role_val_to_struct p1);
  ar_user_names : indexes (λ d, Some (user_value d)) fst (p_users p) (p_user_val_to_name p1);
  ar_no_user : untouched (λ d, Some (user_value d)) (λ _, None) (p_users p) (p_user_val_to_name p1);
  ar_users : indexes (λ d, Some (user_value d)) snd (p_users p) (user_val_to_struct p1);
  ar_types : indexes type_number snd (p_types p) (type_val_to_struct p1) }.

Lemma caches_run v global p p1 (a : arrays) tr tu :
  policy_type v = POLICY_KERN ∨ policy_type v = POLICY_MOD → index_ready global p → arrays_ready p p1 → types_wf p1 →
  table (p_roles p) = Some tr → table (p_users p) = Some tu →
  Reads (p ← io_checked (hashtab_map (table (p_roles p)) policydb_role_cache p1);
         p ← io_checked (hashtab_map (table (p_users p)) (policydb_user_cache v) p); mret (p, a)) []
    (λ x, x.2 = a ∧ ∃ g h, x.1 = users_by (roles_by p1 tr g) tu h ∧
       (∀ k d, (k, d) ∈ ht_entries tr → role_cached p1 d (g k d)) ∧ (∀ k d, (k, d) ∈ ht_entries tu → user_cached d (h k d))).
Proof.
  intros Hv Hir [(Ety & Ero & Eus) Hrn Hnr Hrs Hun Hnu Hus Hts] Hp1 Htr Htu.
  destruct (ir_roles _ _ Hir) as [(? & Htr' & Hsr & _) _], (ir_users _ _ Hir) as [(? & Htu' & Hsu & _) _].
  rewrite Htr in Htr'. rewrite Htu in Htu'. injection Htr' as <-. injection Htu' as <-.
  eapply (reads_bind_nil _ _ _ (λ p2, ∃ g, p2 = roles_by p1 tr g ∧ ∀ k d, (k, d) ∈ ht_entries tr → role_cached p1 d (g k d))).
  - rewrite Htr, <- (roles_by_id p1 tr) at 1 by (rewrite Ero; exact Htr).
    apply (caches_reads policydb_role_cache (roles_by p1 tr) (role_cached p1)); [done|]. intros k d Hin.
    destruct (ir_role_types _ _ Hir tr k d Htr Hin) as (Hw1 & Hw2 & Hdecl & Hneg).
    apply role_cache_caches; [done| |by eapply indexes_pointed].
    split; [done|done| |by rewrite Ety]. intros i (t & k' & d' & Ht & Hin' & Hnum)%Hdecl. unfold type_at.
    pose proof (proj2 Hts t k' d' (i + 1) Ht Hin' Hnum) as Hc. replace (i + 1 - 1) with i in Hc by lia. by rewrite Hc.
  - intros p2 (g & -> & Hg). assert (table (p_users (roles_by p1 tr g)) = Some tu) as Hu by (cbn; by rewrite Eus).
    rewrite Hu, <- (users_by_id (roles_by p1 tr g) tu) at 1 by done.
    eapply reads_bind_nil; [apply (caches_reads (policydb_user_cache v) (users_by (roles_by p1 tr g) tu) user_cached); [done|]|].
    + intros k d Hin. destruct (ir_user_roles _ _ Hir tu k d Htu Hin) as [Hf Hw].
      apply user_cache_caches; [done..|]. by apply (indexes_pointed (λ d, Some (user_value d)) (p_users p) tu).
    + intros p' (h & -> & Hh). apply reads_ret. split; [done|]. by exists g, h.
Qed.

(** ** The indexed policy *)

Lemma mapped_cell {D} (sel : D → option N) s t g names arr v :
  (∀ k d, (k, d) ∈ ht_entries t → sel (g k d) = sel d) → table s = Some t → dense sel s →
  indexes sel fst s names → indexes sel snd s arr → in_range v (nprim s) →
  ∃ k d, (k, d) ∈ ht_entries t ∧ map_pointed names g arr !! N.to_nat (v - 1) = Some (Some (g k d)).
Proof.
  intros Hg Ht Hd Hn Ha (t' & k & d & Ht' & Hin & Hv)%Hd. assert (t' = t) as -> by congruence.
  exists k, d. split; [done|]. apply (proj2 (proj2 (indexes_mapped sel s t g names arr Hg Ht Hn Ha)) _ k (g k d) v eq_refl).
  - rewrite map_data_entries. apply list_elem_of_fmap. by exists (k, d).
  - by rewrite Hg.
Qed.

Section result.
Context (global : list avrule_block) (p : policydb) (a : arrays) (tr : hashtab string role_datum) (tu : hashtab string user_datum).
Context (g : string → role_datum → role_datum) (h : string → user_datum → user_datum).
Context (Hir : index_ready global p) (Hready : arrays_ready p (with_arrays p a)).
Context (Htr : table (p_roles p) = Some tr) (Htu : table (p_users p) = Some tu).
Context (Hg : ∀ k d, (k, d) ∈ ht_entries tr → role_cached (with_arrays p a) d (g k d)).
Context (Hh : ∀ k d, (k, d) ∈ ht_entries tu → user_cached d (h k d)).

Let p' := users_by (roles_by (with_arrays p a) tr g) tu h.

Lemma result_role_number k d : (k, d) ∈ ht_entries tr → Some (role_value (g k d)) = Some (role_value d).
Proof. intros (e & -> & _)%Hg. done. Qed.
Lemma result_user_number k d : (k, d) ∈ ht_entries tu → Some (user_value (h k d)) = Some (user_value d).
Proof. intros (e & -> & _)%Hh. done. Qed.

Lemma result_rbac_wf : rbac_policy_wf p'.
Proof.
  destruct Hready as [_ Hrn _ Hrs Hun _ Hus _]. destruct (ir_dense _ _ Hir) as (_ & Hdr & Hdu & _). split.
  - split_and!; [apply (ir_roles _ _ Hir)|apply (ir_users _ _ Hir)|apply (ir_types _ _ Hir)].
  - intros v H0 H1.
    destruct (mapped_cell (λ d, Some (role_value d)) _ tr g _ _ v result_role_number Htr Hdr Hrn Hrs) as (k & d & Hin & Hc); [done|].
    exists (g k d). split; [exact Hc|]. by destruct (Hg k d Hin) as (e & -> & Hw & _).
  - intros v H0 H1.
    destruct (mapped_cell (λ d, Some (user_value d)) _ tu h _ _ v result_user_number Htu Hdu Hun Hus) as (k & d & Hin & Hc); [done|].
    exists (h k d). split; [exact Hc|]. by destruct (Hh k d Hin) as (e & -> & Hw & _).
Qed.

Lemma result_mls_wf levels : table (p_levels p) = Some levels →
  indexes sens_number fst (p_levels p) (a_sens_names a) → mls_policy_wf p' levels.
Proof.
  intros Hl Hse. destruct Hready as [_ _ _ _ Hun _ Hus _]. destruct (ir_dense _ _ Hir) as (_ & _ & Hdu & Hds). split.
  - exact Hl.
  - by destruct (ir_sens _ _ Hir) as [(t & Ht & Hs & _) _]; simplify_eq.
  - intros name d Hd. apply (ir_level_cats _ _ Hir levels name d Hl). by apply elem_of_list_to_map_2.
  - split; [apply (ir_sens _ _ Hir)|apply (ir_users _ _ Hir)].
  - intros v H0 H1. destruct (indexes_dense _ _ _ _ v Hse Hds) as (t & k & d & _ & _ & _ & Hc); [done|]. by exists k.
  - intros v H0 H1.
    destruct (mapped_cell (λ d, Some (user_value d)) _ tu h _ _ v result_user_number Htu Hdu Hun Hus) as (k & d & Hin & Hc); [done|].
    exists (h k d). exact Hc.
Qed.

Lemma result_caches : caches_of p p'.
Proof.
  split; try done; [..|by exists a, (p_roles p'), (role_val_to_struct p'), (p_users p'), (user_val_to_struct p')].
  - apply (mapped_cached (role_cached p') (p_roles p) tr g Htr); [|exact Hg].
    by destruct (ir_roles _ _ Hir) as [(t & Ht & Hs & _) _]; simplify_eq.
  - apply (mapped_cached user_cached (p_users p) tu h Htu); [|exact Hh].
    by destruct (ir_users _ _ Hir) as [(t & Ht & Hs & _) _]; simplify_eq.
Qed.

Lemma result_roles : indexes (λ d, Some (role_value d)) fst (p_roles p') (p_role_val_to_name p') ∧
  indexes (λ d, Some (role_value d)) snd (p_roles p') (role_val_to_struct p').
Proof. destruct Hready as [_ Hrn _ Hrs _ _ _ _]. by apply indexes_mapped; [apply result_role_number|..]. Qed.
Lemma result_users : indexes (λ d, Some (user_value d)) fst (p_users p') (p_user_val_to_name p') ∧
  indexes (λ d, Some (user_value d)) snd (p_users p') (user_val_to_struct p').
Proof. destruct Hready as [_ _ _ _ Hun _ Hus _]. by apply indexes_mapped; [apply result_user_number|..]. Qed.

End result.

(** Indexing, with memory. *)
Lemma index_reads mem v global p a levels :
  policy_type v = POLICY_KERN ∨ policy_type v = POLICY_MOD → index_ready global p → table (p_levels p) = Some levels →
  ReadsMem (policydb_index mem v global p a) [] (λ x,
    indexed x.1 x.2 ∧ caches_of p x.1 ∧ types_wf x.1 ∧ rbac_policy_wf x.1 ∧ mls_policy_wf x.1 levels).
Proof.
  intros Hv Hir Hl.
  unfold policydb_index.
  eapply reads_mem_nil; [apply reads_mem, index_decls_reads, (ir_decls _ _ Hir)|]. intros a1 _.
  eapply reads_mem_nil; [apply reads_mem, index_classes_reads; [apply (ir_commons _ _ Hir)|apply (ir_classes _ _ Hir)]|].
  intros a2 (C1 & C2 & C3). unfold policydb_index_others.
  apply (index_arrays_reads mem p a2 (λ a, p ← io_checked (hashtab_map (table (p_roles p)) policydb_role_cache (with_arrays p a));
                                       p ← io_checked (hashtab_map (table (p_users p)) (policydb_user_cache v) p); mret (p, a)));
    [by apply Hir..|].
  intros a' E1 E2 E3 R1 R2 R3 T1 T2 T3 U1 U2 U3 B1 B2 S1 K1.
  destruct (ir_roles _ _ Hir) as [(tr & Htr & _) _], (ir_users _ _ Hir) as [(tu & Htu & _) _].
  assert (arrays_ready p (with_arrays p a')) as Hready by (by split).
  assert (types_wf (with_arrays p a')) as Hty.
  { by eapply (indexed_types_wf p); [apply (ir_types _ _ Hir)|apply (ir_type_count _ _ Hir)|apply (ir_attribs _ _ Hir)|..]. }
  eapply reads_mem_mono; [apply reads_mem; exact (caches_run v global p (with_arrays p a') a' tr tu Hv Hir Hready Hty Htr Htu)|].
  intros [p' ?] [-> (g & h & -> & Hg & Hh)]. cbn [fst snd].
  destruct (result_roles p a' tr tu g h Hready Htr Hg), (result_users p a' tr tu g h Hready Htu Hh).
  split_and!.
  - split; try done; cbn; by rewrite ?E1, ?E2, ?E3.
  - by eapply result_caches.
  - by destruct Hty.
  - by eapply result_rbac_wf.
  - by eapply result_mls_wf.
Qed.

(** * Theorems *)


(** C37: numbers that a file may hold do not lead out of the arrays.  Whatever
    numbers the commons and classes of a policy have, repeated or missing, and
    whatever the declared counts are, [policydb_index_classes] is defined: it
    succeeds only when every number is between 1 and the count of its table,
    with arrays of exactly these lengths, and fails otherwise. *)
Theorem index_classes_bounds mem p a tc tl fp o :
  table (p_commons p) = Some tc → ht_struct tc → table (p_classes p) = Some tl → ht_struct tl → pf_wf fp →
  wp (policydb_index_classes mem p a fp) o (λ r _,
    match r.1 with
    | inr a' => in_bounds (λ d, Some (common_value d)) (nprim (p_commons p)) (ht_entries tc) ∧
                in_bounds (λ d, Some (class_value d)) (nprim (p_classes p)) (ht_entries tl) ∧
                N.of_nat (length (a_common_names a')) = nprim (p_commons p) ∧
                N.of_nat (length (a_class_names a')) = nprim (p_classes p) ∧
                N.of_nat (length (a_classes a')) = nprim (p_classes p)
    | inl rc => (rc < 0)%Z
    end).
Proof.
  intros Htc Hsc Htl Hsl Hfp. eapply wp_mono; [exact (index_classes_safe mem p a tc tl Htc Hsc Htl Hsl fp o Hfp)|].
  intros [[rc|a'] fp'] o' (_ & _ & H); exact H.
Qed.

(** * Examples *)

Lemma ex_table_numbered {D} (sel : D → option N) (l : list (string * D)) n :
  StronglySorted (λ a b, (0 < symcmp b.1 a.1)%Z) l → NoDup l.*1 → n < 2 ^ 32 →
  (∀ e, e ∈ l → match sel e.2 with Some v => in_range v n | None => True end) →
  NoDup (omap (λ e, sel e.2) l) → numbered sel (ex_table l n).
Proof.
  intros Hs Hk Hn Hr Hd. split; [|done]. eexists. split; [done|]. split; [by apply ex_table_struct|].
  unfold ht_entries. cbn. rewrite app_nil_r. split.
  - intros e v He Hv. specialize (Hr e He). by rewrite Hv in Hr.
  - clear Hs Hr. intros e e' v. revert Hk Hd. induction l as [|x l IH]; intros Hk Hd He He' Hv Hv'; [by apply elem_of_nil in He|].
    cbn in *. apply NoDup_cons in Hk as [_ Hk]. apply elem_of_cons in He as [->|He], He' as [->|He']; [done|..].
    + rewrite Hv in Hd. apply NoDup_cons in Hd as [Hx _]. destruct Hx. apply list_elem_of_omap. by exists e'.
    + rewrite Hv' in Hd. apply NoDup_cons in Hd as [Hx _]. destruct Hx. apply list_elem_of_omap. by exists e.
    + apply IH; try done. destruct (sel x.2); [by apply NoDup_cons in Hd as []|done].
Qed.

(** Entries of the tables of the example, one by one. *)
Ltac each_entry :=
  repeat match goal with
  | H : _ ∈ _ :: _ |- _ => apply elem_of_cons in H as [H|H]; [simplify_eq/=|]
  | H : _ ∈ [] |- _ => by apply elem_of_nil in H
  end.
Ltac ex_numbers := apply ex_table_numbered; [by repeat constructor|by_decide|done| |by_decide]; intros; each_entry; by vm_compute.

(** The symbols are listed in the order of their numbers. *)
Lemma ex_dense {D} (sel : D → option N) (l : list (string * D)) n :
  (λ e, sel e.2) <$> take (N.to_nat n) l = (λ i, Some (N.of_nat i)) <$> seq 1 (N.to_nat n) → dense sel (ex_table l n).
Proof.
  intros H v [H0 H1]. cbn [nprim ex_table] in H1. apply (f_equal (λ x, x !! N.to_nat (v - 1))) in H.
  rewrite !list_lookup_fmap, lookup_seq_lt, lookup_take_lt in H by lia. destruct (l !! N.to_nat (v - 1)) as [[k d]|] eqn:El; [|done].
  eexists _, k, d. split; [done|]. unfold ht_entries. cbn. rewrite app_nil_r. split; [by eapply list_elem_of_lookup_2|].
  injection H as H. rewrite H. f_equal. lia.
Qed.

Lemma ex_index_ready : index_ready [] ex_policy.
Proof.
  split; try ex_numbers.
  - split; [done|]. constructor.
  - split_and!; by apply ex_dense.
  - intros t k d [= <-] Hin. cbn in Hin. each_entry; (split_and!; [by_decide|by_decide|done|done]).
  - intros t k d [= <-] Hin. cbn in Hin. each_entry. split; [done|by_decide].
  - done.
  - intros t k d [= <-] Hin Hpr Hf. cbn in Hin. each_entry; done.
  - intros t k d [= <-] Hin. cbn in Hin. each_entry; by_decide.
Qed.

(** Memory with something in it. *)
Definition ex_memory : memory :=
  Memory (λ _, Some "junk"%string) (λ _, Some "junk"%string) (λ _, Some "junk"%string) (λ _, Some ex_class) (λ _, Some (ex_role 9))
    (λ _, Some ex_user) (λ _, None).
Definition no_arrays : arrays := Arrays [] [] [] [] [] [] [] [] [] [] [] [] [] [].
Definition ex_kernel : write_params := WriteParams POLICY_KERN 30 SEPOL_TARGET_SELINUX.


(** A module numbers its only declaration 2: the pointer is stored behind the
    end of the array. *)
Example index_decls_overflow :
  policydb_index_decls [AvruleBlock [ex_decl 2 1] (Some 0%nat) 0] no_arrays (mem_file []) [] = UB.
Proof. vm_compute. reflexivity. Qed.

(** A role has the type 4 of a policy with 3 types: its cache is computed from
    what lies behind the array of types. *)
Definition ex_bad_roles : symtab role_datum :=
  ex_table [("object_r", ex_role 1);
            ("role_r", RoleDatum 2 ebitmap_init (TypeSet (EBitmap [EBNode 0 8] 64) ebitmap_init 0) ebitmap_init 0 0 ebitmap_init)]%string 2.
Example index_role_types_overrun :
  policydb_index_others ex_memory ex_kernel (with_roles ex_policy ex_bad_roles [] (p_users ex_policy) []) no_arrays
    (mem_file []) [] = UB.
Proof. vm_compute. reflexivity. Qed.

(** A file declares two classes and has one: the second cell keeps what the
    memory held. *)
Example index_classes_uninitialised mem fp :
  let p := set_symtabs ex_policy (p_commons ex_policy) (ex_table [("class"%string, ex_class)] 2) (p_roles ex_policy)
             (p_types ex_policy) (p_users ex_policy) (p_bools ex_policy) (p_levels ex_policy) (p_cats ex_policy) in
  ∃ a, policydb_index_classes mem p no_arrays fp [] = Ret (inr a, fp) [] ∧ a_classes a = [Some ex_class; new_classes mem 1].
Proof. eexists. split; vm_compute; reflexivity. Qed.

(** [policydb_index_others] ignores that the array of Booleans was not
    allocated and stores through NULL. *)
Example index_bools_oom :
  let p := set_symtabs ex_policy (p_commons ex_policy) (p_classes ex_policy) (p_roles ex_policy) (p_types ex_policy)
             (p_users ex_policy) (ex_table [("b"%string, CondBoolDatum 1 0 0)] 1) (p_levels ex_policy) (p_cats ex_policy) in
  policydb_index_others ex_memory ex_kernel p no_arrays (mem_file []) [true; true; true; false] = UB.
Proof. vm_compute. reflexivity. Qed.

Lemma index_classes_bounds_witness :
  wp (policydb_index_classes ex_memory ex_policy no_arrays (mem_file [])) [] (λ r _,
    match r.1 with inr a' => N.of_nat (length (a_classes a')) = 1 | inl rc => (rc < 0)%Z end).
Proof.
  eapply wp_mono; [apply (index_classes_bounds ex_memory ex_policy no_arrays (Hashtab [[]] 1 0 symhash symcmp)
                            (Hashtab [[("class"%string, ex_class)]] 1 1 symhash symcmp) (mem_file []) [] eq_refl)|].
  - apply (ex_table_struct []); by repeat constructor.
  - done.
  - apply (ex_table_struct [_]); [by repeat constructor|by_decide].
  - by_decide.
  - intros [[rc|a'] fp'] o' H; [exact H|]. by destruct H as (_ & _ & _ & _ & H).
Defined.
