(* ===== verification/PolicyHeader.v ===== *)
(** The two ends of a policy file: the header with its versions and table
    sizes, and the map from types to attributes at the end of a kernel policy.
    [policydb_lookup_compat] and parts of [policydb_read] of
    libsepol/src/policydb.c, parts of [policydb_write] of
    libsepol/src/write.c. *)

From S2P Require Import Prelude Ebitmap PolicyFile Hashtab MlsTypes Avtab Policydb Context Expand PolicyIO SymbolIO ModuleIO Ocontext.
Local Open Scope N_scope.

(** * Versions *)

Definition SYM_NUM : N := 8.
Definition POLICYDB_VERSION_BASE : N := 15.
Definition POLICYDB_VERSION_BOOL : N := 16.
Definition POLICYDB_VERSION_IPV6 : N := 17.
Definition POLICYDB_VERSION_NLCLASS : N := 18.
Definition POLICYDB_VERSION_POLCAP : N := 22.
Definition POLICYDB_VERSION_PERMISSIVE : N := 23.
Definition POLICYDB_VERSION_FILENAME_TRANS : N := 25.
Definition POLICYDB_VERSION_MIN : N := POLICYDB_VERSION_BASE.
Definition POLICYDB_VERSION_MAX : N := POLICYDB_VERSION_XPERMS_IOCTL.
Definition MOD_POLICYDB_VERSION_BASE : N := 4.
Definition MOD_POLICYDB_VERSION_POLCAP : N := 7.
Definition MOD_POLICYDB_VERSION_CONSTRAINT_NAMES : N := 17.
Definition MOD_POLICYDB_VERSION_MIN : N := MOD_POLICYDB_VERSION_BASE.
Definition MOD_POLICYDB_VERSION_MAX : N := MOD_POLICYDB_VERSION_CONSTRAINT_NAMES.

Record policydb_compat_info := Compat {
  compat_type : N; compat_version : N; sym_num : N; ocon_num : N; compat_target : N }.

Definition policydb_compat : list policydb_compat_info :=
  [Compat POLICY_KERN POLICYDB_VERSION_BOUNDARY SYM_NUM (OCON_XEN_PCIDEVICE + 1) SEPOL_TARGET_XEN;
   Compat POLICY_KERN POLICYDB_VERSION_XEN_DEVICETREE SYM_NUM (OCON_XEN_DEVICETREE + 1) SEPOL_TARGET_XEN;
   Compat POLICY_KERN POLICYDB_VERSION_BASE (SYM_NUM - 3) (OCON_FSUSE + 1) SEPOL_TARGET_SELINUX;
   Compat POLICY_KERN POLICYDB_VERSION_BOOL (SYM_NUM - 2) (OCON_FSUSE + 1) SEPOL_TARGET_SELINUX;
   Compat POLICY_KERN POLICYDB_VERSION_IPV6 (SYM_NUM - 2) (OCON_NODE6 + 1) SEPOL_TARGET_SELINUX;
   Compat POLICY_KERN POLICYDB_VERSION_NLCLASS (SYM_NUM - 2) (OCON_NODE6 + 1) SEPOL_TARGET_SELINUX] ++
  ((λ vers, Compat POLICY_KERN vers SYM_NUM (OCON_NODE6 + 1) SEPOL_TARGET_SELINUX) <$>
   [POLICYDB_VERSION_MLS; POLICYDB_VERSION_AVTAB; POLICYDB_VERSION_RANGETRANS; POLICYDB_VERSION_POLCAP;
    POLICYDB_VERSION_PERMISSIVE; POLICYDB_VERSION_BOUNDARY; POLICYDB_VERSION_FILENAME_TRANS;
    POLICYDB_VERSION_ROLETRANS; POLICYDB_VERSION_NEW_OBJECT_DEFAULTS; POLICYDB_VERSION_DEFAULT_TYPE;
    POLICYDB_VERSION_CONSTRAINT_NAMES; POLICYDB_VERSION_XPERMS_IOCTL]) ++
  ([(POLICY_BASE, OCON_NODE6 + 1); (POLICY_MOD, 0)] ≫= λ '(type, ocons),
   (λ vers, Compat type vers SYM_NUM ocons SEPOL_TARGET_SELINUX) <$>
   [MOD_POLICYDB_VERSION_BASE; MOD_POLICYDB_VERSION_MLS; MOD_POLICYDB_VERSION_MLS_USERS; MOD_POLICYDB_VERSION_POLCAP;
    MOD_POLICYDB_VERSION_PERMISSIVE; MOD_POLICYDB_VERSION_BOUNDARY; MOD_POLICYDB_VERSION_BOUNDARY_ALIAS;
    MOD_POLICYDB_VERSION_FILENAME_TRANS; MOD_POLICYDB_VERSION_ROLETRANS; MOD_POLICYDB_VERSION_ROLEATTRIB;
    MOD_POLICYDB_VERSION_TUNABLE_SEP; MOD_POLICYDB_VERSION_NEW_OBJECT_DEFAULTS; MOD_POLICYDB_VERSION_DEFAULT_TYPE;
    MOD_POLICYDB_VERSION_CONSTRAINT_NAMES]).

Definition policydb_lookup_compat (version type target : N) : option policydb_compat_info :=
  snd <$> list_find (λ c, compat_version c = version ∧ compat_type c = type ∧ compat_target c = target) policydb_compat.

(** * The header *)

Definition POLICYDB_MAGIC : N := 4185718668.       (* 0xf97cff8c *)
Definition POLICYDB_MOD_MAGIC : N := 4185718669.   (* 0xf97cff8d *)
Definition POLICYDB_STRING_MAX_LENGTH : N := 32.
Definition POLICYDB_MOD_STRING : string := "SE Linux Module".
Definition policydb_target_strings : list string := ["SE Linux"; "XenFlask"]%string.
Definition POLICYDB_CONFIG_MLS : N := 1.
Definition POLICYDB_CONFIG_UNKNOWN_MASK : N := 6.
Definition POLICYDB_UNSUPPORTED : Z := -2.

Record header := Header {
  hd_mls : bool; handle_unknown : N; hd_name : string; hd_version : string;
  policycaps : ebitmap; permissive_map : ebitmap }.

Definition no_mls (v : write_params) : bool :=
  (policyvers v <? POLICYDB_VERSION_MLS) && is_kern v ||
  (policyvers v <? MOD_POLICYDB_VERSION_MLS) && is_base v ||
  (policyvers v <? MOD_POLICYDB_VERSION_MLS) && is_mod v.
Definition has_policycaps (v : write_params) : bool :=
  (POLICYDB_VERSION_POLCAP <=? policyvers v) && is_kern v ||
  (MOD_POLICYDB_VERSION_POLCAP <=? policyvers v) && is_base v ||
  (MOD_POLICYDB_VERSION_POLCAP <=? policyvers v) && is_mod v.
Definition has_permissive (v : write_params) : bool := (POLICYDB_VERSION_PERMISSIVE <=? policyvers v) && is_kern v.

(** The start of [policydb_write], up to the symbol tables.  The loop that only
    warns of permissive types is left out. *)
Definition header_write (unsupported_format : bool) (v : write_params) (h : header) : io unit :=
  if unsupported_format then io_fail POLICYDB_UNSUPPORTED else
  if hd_mls h && no_mls v then io_fail POLICYDB_ERROR else
  let config := N.lor (if hd_mls h then POLICYDB_CONFIG_MLS else 0)
                  (N.land POLICYDB_CONFIG_UNKNOWN_MASK (handle_unknown h)) in
  str ← (if is_kern v then io_lift (deref (policydb_target_strings !! N.to_nat (target_platform v)))
         else mret POLICYDB_MOD_STRING);
  _ ← put_words [if is_kern v then POLICYDB_MAGIC else POLICYDB_MOD_MAGIC; strlen str];
  _ ← put_string str;
  match policydb_lookup_compat (policyvers v) (policy_type v) (target_platform v) with
  | None => io_fail POLICYDB_ERROR
  | Some info =>
      _ ← put_words ((if negb (is_kern v) then [policy_type v] else []) ++
                     [policyvers v; config; sym_num info; ocon_num info]);
      _ ← when (is_mod v) (_ ← put_name (hd_name h); put_name (hd_version h));
      _ ← when (has_policycaps v) (ebitmap_put (policycaps h));
      when (has_permissive v) (ebitmap_put (permissive_map h))
  end.

(** [for (i = 0; i < POLICYDB_TARGET_SZ; i++)]. *)
Definition find_target (str : string) : option N :=
  (λ r, N.of_nat r.1) <$> list_find (λ s, strcmp str s = 0%Z) policydb_target_strings.

(** The versions the library knows. *)
Definition known_version (type vers : N) : bool :=
  if type =? POLICY_KERN then (POLICYDB_VERSION_MIN <=? vers) && (vers <=? POLICYDB_VERSION_MAX)
  else (MOD_POLICYDB_VERSION_MIN <=? vers) && (vers <=? MOD_POLICYDB_VERSION_MAX).

(** The start of [policydb_read].  [target] is the platform of a fresh policy,
    which a module keeps; the header of a kernel policy has no names. *)
Definition header_read (target : N) : io (write_params * header * policydb_compat_info) :=
  buf ← get 8;
  let magic := le32_at buf 0 in
  if negb ((magic =? POLICYDB_MAGIC) || (magic =? POLICYDB_MOD_MAGIC)) then io_fail POLICYDB_ERROR else
  let kern := magic =? POLICYDB_MAGIC in
  let len := le32_at buf 1 in
  if POLICYDB_STRING_MAX_LENGTH <? len then io_fail POLICYDB_ERROR else
  str ← get_string (len + 1) len;
  target ← (if kern then match find_target str with Some i => mret i | None => io_fail POLICYDB_ERROR end
            else if negb (strcmp str POLICYDB_MOD_STRING =? 0)%Z then io_fail POLICYDB_ERROR else mret target);
  let nel := if kern then 4 else 5 in
  buf ← get (4 * nel);
  let type := if kern then POLICY_KERN else le32_at buf 0 in
  if negb kern && negb ((type =? POLICY_MOD) || (type =? POLICY_BASE)) then io_fail POLICYDB_ERROR else
  let i := if kern then 0%nat else 1%nat in
  let vers := le32_at buf i in
  if negb (known_version type vers) then io_fail POLICYDB_ERROR else
  let v := WriteParams type vers target in
  let config := le32_at buf (i + 1) in
  let mls := truth (N.land config POLICYDB_CONFIG_MLS) in
  let unknown := N.land config POLICYDB_CONFIG_UNKNOWN_MASK in
  match policydb_lookup_compat vers type target with
  | None => io_fail POLICYDB_ERROR
  | Some info =>
      if negb (le32_at buf (i + 2) =? sym_num info) || negb (le32_at buf (i + 3) =? ocon_num info)
      then io_fail POLICYDB_ERROR else
      '(name, version) ← (if is_mod v then name ← get_name; version ← get_name; mret (name, version)
                          else mret (EmptyString, EmptyString));
      caps ← (if has_policycaps v then or_rc POLICYDB_ERROR ebitmap_get else mret ebitmap_init);
      permissive ← (if has_permissive v then or_rc POLICYDB_ERROR ebitmap_get else mret ebitmap_init);
      mret (v, Header mls unknown name version caps permissive, info)
  end.

(** * The attributes of types *)

Definition attr_maps_write (v : write_params) (type_attr_map : list ebitmap) (types_nprim : N) : io unit :=
  when (is_kern v && (POLICYDB_VERSION_AVTAB <=? policyvers v))
    (io_list (λ i, e ← io_lift (deref (type_attr_map !! i)); ebitmap_put e) (seq 0 (N.to_nat types_nprim))).

(** The types of the attributes of type [i]: the loop over the bits of its
    map. *)
Definition add_type (i : N) (e : ebitmap) (types : list ebitmap) : M (Z * list ebitmap) :=
  r ← ebitmap_for_each_bit e types (λ j bit types,
        if negb bit || (i =? j) then mret (inr types) else
        '(rc, types) ← update_at types j (λ e, ebitmap_set_bit e i true);
        mret (if bool_decide (rc ≠ 0%Z) then inl types else inr types));
  mret match r with inl types => ((-1)%Z, types) | inr types => (0%Z, types) end.

Definition attr_round (v : write_params) (types : list (option type_datum)) (st : N * attr_maps) : io (N * attr_maps) :=
  let '(i, m) := st in
  m ← (if POLICYDB_VERSION_AVTAB <=? policyvers v then
         e ← or_rc POLICYDB_ERROR ebitmap_get;
         ts ← io_checked (add_type i e (am_types m));
         mret (AttrMaps ts (<[N.to_nat i := e]> (am_attrs m)))
       else mret m);
  attrs ← io_checked (update_at (am_attrs m) i (λ e, ebitmap_set_bit e i true));
  td ← io_lift (deref (types !! N.to_nat i));
  ts ← (if match td with Some d => negb (flavor d =? TYPE_ATTRIB) | None => false end
        then io_checked (update_at (am_types m) i (λ e, ebitmap_set_bit e i true)) else mret (am_types m));
  mret (i + 1, AttrMaps ts attrs).

Definition attr_maps_read (v : write_params) (types : list (option type_datum)) (types_nprim : N) : io attr_maps :=
  _ ← io_checked (a ← malloc; b ← malloc; mret (if a && b then 0%Z else POLICYDB_ERROR, tt));
  let empty := replicate (N.to_nat types_nprim) ebitmap_init in
  '(_, m) ← io_times (N.to_nat types_nprim) (attr_round v types) (0, AttrMaps empty empty);
  mret m.

(** * The table of versions *)

(** A version of a kind of policy for a platform has at most one row. *)
Definition compat_key (c : policydb_compat_info) : (N * N * N)%type := (compat_version c, compat_type c, compat_target c).

Lemma compat_nodup : NoDup (compat_key <$> policydb_compat).
Proof. by_decide. Qed.

Lemma lookup_compat_spec vers type target c :
  policydb_lookup_compat vers type target = Some c → c ∈ policydb_compat ∧ compat_key c = (vers, type, target).
Proof.
  unfold policydb_lookup_compat. destruct (list_find _ _) as [[i c']|] eqn:E; [|done]. intros [= ->].
  apply list_find_Some in E as (Hi & (H1 & H2 & H3) & _). split; [by eapply list_elem_of_lookup_2|].
  unfold compat_key. congruence.
Qed.

(** All rows have versions that are known and a platform of their kind. *)
Definition row_ok (c : policydb_compat_info) : bool :=
  known_version (compat_type c) (compat_version c) && (sym_num c <=? SYM_NUM) && (ocon_num c <=? 7) &&
  ((compat_type c =? POLICY_KERN) && (compat_target c <=? SEPOL_TARGET_XEN) ||
   ((compat_type c =? POLICY_BASE) || (compat_type c =? POLICY_MOD)) && (compat_target c =? SEPOL_TARGET_SELINUX)).
Lemma rows_ok : forallb row_ok policydb_compat = true.
Proof. by vm_compute. Qed.

Lemma lookup_compat_ok vers type target c : policydb_lookup_compat vers type target = Some c →
  known_version type vers = true ∧ sym_num c ≤ SYM_NUM ∧ ocon_num c ≤ 7 ∧
  (type = POLICY_KERN ∧ target ≤ SEPOL_TARGET_XEN ∨ (type = POLICY_BASE ∨ type = POLICY_MOD) ∧ target = SEPOL_TARGET_SELINUX).
Proof.
  intros [Hc Hk]%lookup_compat_spec. injection Hk as <- <- <-.
  pose proof (proj1 (forallb_forall row_ok policydb_compat) rows_ok c (proj1 (list_elem_of_In _ _) Hc)) as H.
  unfold row_ok in H. rewrite !andb_true_iff, orb_true_iff, !andb_true_iff, orb_true_iff, !N.leb_le, !N.eqb_eq in H. tauto.
Qed.

(** ** Round trip of the header *)

Definition target_string (v : write_params) : string :=
  if is_kern v then default EmptyString (policydb_target_strings !! N.to_nat (target_platform v)) else POLICYDB_MOD_STRING.
Definition config_word (h : header) : N :=
  N.lor (if hd_mls h then POLICYDB_CONFIG_MLS else 0) (N.land POLICYDB_CONFIG_UNKNOWN_MASK (handle_unknown h)).

Definition header_bytes (v : write_params) (info : policydb_compat_info) (h : header) : list N :=
  words [if is_kern v then POLICYDB_MAGIC else POLICYDB_MOD_MAGIC; strlen (target_string v)] ++
  string_bytes (target_string v) ++
  words ((if negb (is_kern v) then [policy_type v] else []) ++ [policyvers v; config_word h; sym_num info; ocon_num info]) ++
  (if is_mod v then name_bytes (hd_name h) ++ name_bytes (hd_version h) else []) ++
  (if has_policycaps v then ebitmap_bytes (policycaps h) else []) ++
  (if has_permissive v then ebitmap_bytes (permissive_map h) else []).

Record header_ok (v : write_params) (info : policydb_compat_info) (h : header) : Prop := {
  ho_compat : policydb_lookup_compat (policyvers v) (policy_type v) (target_platform v) = Some info;
  ho_mls : hd_mls h = true → no_mls v = false;
  ho_names : is_mod v = true → name_ok (hd_name h) ∧ name_ok (hd_version h);
  ho_maps : ebitmap_wf (policycaps h) ∧ ebitmap_wf (permissive_map h) }.

(** What the format of the version has no room for is lost. *)
Definition header_norm (v : write_params) (h : header) : header :=
  Header (hd_mls h) (N.land (handle_unknown h) POLICYDB_CONFIG_UNKNOWN_MASK)
    (if is_mod v then hd_name h else EmptyString) (if is_mod v then hd_version h else EmptyString)
    (if has_policycaps v then policycaps h else ebitmap_init) (if has_permissive v then permissive_map h else ebitmap_init).

Lemma config_bits h :
  truth (N.land (config_word h) POLICYDB_CONFIG_MLS) = hd_mls h ∧
  N.land (config_word h) POLICYDB_CONFIG_UNKNOWN_MASK = N.land (handle_unknown h) POLICYDB_CONFIG_UNKNOWN_MASK ∧
  config_word h < 8.
Proof.
  unfold config_word, POLICYDB_CONFIG_MLS, POLICYDB_CONFIG_UNKNOWN_MASK.
  assert (N.land 6 (handle_unknown h) ∈ [0; 2; 4; 6]) as Hin.
  { assert (N.land 6 (handle_unknown h) < 8) by (eapply N.le_lt_trans; [apply N.land_le_l|done]).
    assert (N.testbit (N.land 6 (handle_unknown h)) 0 = false) as Hb by (by rewrite N.land_spec).
    set (x := N.land 6 (handle_unknown h)) in *. assert (x = 0 ∨ x = 1 ∨ x = 2 ∨ x = 3 ∨ x = 4 ∨ x = 5 ∨ x = 6 ∨ x = 7) as Hx by lia.
    destruct Hx as [E|[E|[E|[E|[E|[E|[E|E]]]]]]]; rewrite E in Hb |- *; try done; set_solver. }
  rewrite (N.land_comm (handle_unknown h)).
  repeat (apply elem_of_cons in Hin as [Hin|Hin]; [rewrite Hin; by destruct (hd_mls h)|]). by apply elem_of_nil in Hin.
Qed.

Lemma header_type v info h : header_ok v info h →
  is_kern v = true ∧ is_mod v = false ∧ target_platform v ≤ SEPOL_TARGET_XEN ∨
  is_kern v = false ∧ target_platform v = SEPOL_TARGET_SELINUX ∧
    (policy_type v = POLICY_BASE ∧ is_mod v = false ∨ policy_type v = POLICY_MOD ∧ is_mod v = true).
Proof.
  intros [Hc _ _ _]. apply lookup_compat_ok in Hc as (_ & _ & _ & Ht). unfold is_kern, is_mod.
  destruct Ht as [[-> ?]|[[-> | ->] ?]]; [left|right..]; auto.
Qed.

Lemma target_string_ok v info h : header_ok v info h →
  name_ok (target_string v) ∧ strlen (target_string v) ≤ POLICYDB_STRING_MAX_LENGTH.
Proof.
  intros Hok. unfold target_string. destruct (header_type v info h Hok) as [(-> & _ & Ht)|(-> & _)]; [|by split; by_decide].
  assert (target_platform v = 0 ∨ target_platform v = 1) as [-> | ->] by (unfold SEPOL_TARGET_XEN in Ht; lia); split; by_decide.
Qed.

Lemma header_writes v info h : header_ok v info h → Writes (header_write false v h) (header_bytes v info h).
Proof.
  intros Hok. pose proof Hok as [Hc Hm Hn Hmaps]. unfold header_write, header_bytes.
  assert (hd_mls h && no_mls v = false) as -> by (destruct (hd_mls h); [by rewrite Hm|done]). cbv zeta. fold (config_word h).
  assert (∀ k, Writes (k (target_string v)) (header_bytes v info h) →
    Writes (str ← (if is_kern v then io_lift (deref (policydb_target_strings !! N.to_nat (target_platform v)))
                   else mret POLICYDB_MOD_STRING); k str) (header_bytes v info h)) as Hstr.
  { intros k Hk. unfold target_string in Hk. destruct (header_type v info h Hok) as [(E & _ & Ht)|(E & _)]; rewrite E in *; [|exact Hk].
    eapply writes_lift; [|exact Hk]. intros o.
    assert (target_platform v = 0 ∨ target_platform v = 1) as [-> | ->] by (unfold SEPOL_TARGET_XEN in Ht; lia); done. }
  apply (Hstr (λ str, _)). clear Hstr. rewrite Hc. unfold header_bytes.
  apply writes_bind; [apply writes_words|]. apply writes_bind; [apply writes_string|]. apply writes_bind; [apply writes_words|].
  apply writes_bind; [apply writes_when; unfold put_name, name_bytes; writes|].
  apply writes_bind; apply writes_when; apply writes_ebitmap.
Qed.

Lemma find_target_string t : t ≤ SEPOL_TARGET_XEN →
  find_target (default EmptyString (policydb_target_strings !! N.to_nat t)) = Some t.
Proof. intros Ht. assert (t = 0 ∨ t = 1) as [-> | ->] by (unfold SEPOL_TARGET_XEN in Ht; lia); done. Qed.

Lemma header_u32s v info h : header_ok v info h → policy_type v < 2 ^ 32 →
  u32s ((if negb (is_kern v) then [policy_type v] else []) ++ [policyvers v; config_word h; sym_num info; ocon_num info]).
Proof.
  intros [Hc _ _ _] Ht. destruct (config_bits h) as (_ & _ & Hcfg). apply lookup_compat_ok in Hc as (Hv & Hs & Hoc & _).
  assert (policyvers v < 2 ^ 32).
  { unfold known_version in Hv. destruct (policy_type v =? POLICY_KERN); apply andb_true_iff in Hv as [_ Hv%N.leb_le];
      (eapply N.le_lt_trans; [exact Hv|done]). }
  unfold SYM_NUM in Hs. destruct (negb (is_kern v)); repeat constructor; try done; lia.
Qed.

(** The words of the second part, of a kernel policy or a module. *)
Lemma header_words v info h : header_ok v info h →
  let l := (if negb (is_kern v) then [policy_type v] else []) ++ [policyvers v; config_word h; sym_num info; ocon_num info] in
  let i := if is_kern v then 0%nat else 1%nat in
  (is_kern v = false → le32_at (words l) 0 = policy_type v) ∧ le32_at (words l) i = policyvers v ∧
  le32_at (words l) (i + 1) = config_word h ∧ le32_at (words l) (i + 2) = sym_num info ∧ le32_at (words l) (i + 3) = ocon_num info.
Proof.
  intros Hok l i. assert (policy_type v < 2 ^ 32) as Ht.
  { destruct (header_type v info h Hok) as [(E & _)|(_ & _ & [[-> _]|[-> _]])]; [|done..].
    unfold is_kern in E. apply N.eqb_eq in E as ->. done. }
  pose proof (header_u32s v info h Hok Ht) as Hu. fold l in Hu. subst l i.
  destruct (is_kern v); cbn [negb app] in *; split_and!; try done; intros; by apply le32_at_words.
Qed.

Lemma header_tail_reads v info h : header_ok v info h →
  Reads ('(name, version) ← (if is_mod v then name ← get_name; version ← get_name; mret (name, version)
                          else mret (EmptyString, EmptyString));
      caps ← (if has_policycaps v then or_rc POLICYDB_ERROR ebitmap_get else mret ebitmap_init);
      permissive ← (if has_permissive v then or_rc POLICYDB_ERROR ebitmap_get else mret ebitmap_init);
      mret (v, Header (hd_mls h) (N.land (handle_unknown h) POLICYDB_CONFIG_UNKNOWN_MASK) name version caps permissive, info))
    ((if is_mod v then name_bytes (hd_name h) ++ name_bytes (hd_version h) else []) ++
     (if has_policycaps v then ebitmap_bytes (policycaps h) else []) ++
     (if has_permissive v then ebitmap_bytes (permissive_map h) else []))
    (λ x, x = (v, header_norm v h, info)).
Proof.
  intros [_ _ Hn [Hc Hp]]. unfold header_norm.
  apply (reads_bind _ _ _ _ (λ x, x = if is_mod v then (hd_name h, hd_version h) else (EmptyString, EmptyString))).
  - destruct (is_mod v); [|by apply reads_ret]. destruct Hn as [Hn Hv]; [done|].
    eapply reads_bind_eq; [by apply get_name_reads|]. rewrite <- (app_nil_r (name_bytes (hd_version h))).
    eapply reads_bind_eq; [by apply get_name_reads|]. by apply reads_ret.
  - intros [name version] E. eapply (reads_bind _ _ _ _ (λ x, x = if has_policycaps v then policycaps h else ebitmap_init)).
    { destruct (has_policycaps v); [by apply reads_or_rc, reads_ebitmap|by apply reads_ret]. }
    intros caps ->. rewrite <- (app_nil_r (if has_permissive v then _ else _)).
    eapply (reads_bind _ _ _ _ (λ x, x = if has_permissive v then permissive_map h else ebitmap_init)).
    { destruct (has_permissive v); [by apply reads_or_rc, reads_ebitmap|by apply reads_ret]. }
    intros perm ->. apply reads_ret. by destruct (is_mod v); injection E as -> ->.
Qed.

Lemma header_reads v info h : header_ok v info h →
  Reads (header_read SEPOL_TARGET_SELINUX) (header_bytes v info h) (λ x, x = (v, header_norm v h, info)).
Proof.
  intros Hok. destruct (target_string_ok v info h Hok) as [Hname Hlen]. destruct (config_bits h) as (Hmls & Hunk & _).
  destruct (header_words v info h Hok) as (Hw0 & Hw1 & Hw2 & Hw3 & Hw4). pose proof (ho_compat _ _ _ Hok) as Hc.
  pose proof (lookup_compat_ok _ _ _ _ Hc) as (Hknown & _). unfold header_read, header_bytes.
  set (magic := if is_kern v then POLICYDB_MAGIC else POLICYDB_MOD_MAGIC).
  assert (u32s [magic; strlen (target_string v)]) as Hu.
  { subst magic. repeat constructor; [by destruct (is_kern v)|]. destruct Hname; lia. }
  reads_step. word_at. cbv zeta.
  assert ((magic =? POLICYDB_MAGIC) = is_kern v) as -> by (subst magic; by destruct (is_kern v)).
  assert (negb (is_kern v || (magic =? POLICYDB_MOD_MAGIC)) = false) as -> by (subst magic; by destruct (is_kern v)).
  rewrite (proj2 (N.ltb_ge _ _)) by done.
  eapply reads_bind_eq; [apply reads_string; [done|done|by right]|].
  eapply (reads_bind_nil _ _ _ (λ t, t = target_platform v)).
  { destruct (header_type v info h Hok) as [(E & _ & Ht)|(E & Ht & _)]; unfold target_string; rewrite E.
    - rewrite find_target_string by done. by apply reads_ret.
    - change (strcmp POLICYDB_MOD_STRING POLICYDB_MOD_STRING =? 0)%Z with true. cbn [negb]. by apply reads_ret. }
  intros t ->. eapply reads_bind_eq.
  { apply reads_words; by destruct (is_kern v). }
  set (buf := words _) in *. cbv zeta.
  assert ((if is_kern v then POLICY_KERN else le32_at buf 0) = policy_type v) as ->.
  { destruct (is_kern v) eqn:E; [|by apply Hw0]. unfold is_kern in E. by apply N.eqb_eq in E as ->. }
  rewrite Hw1, Hw2, Hmls, Hunk, Hknown, Hc, Hw3, Hw4, !N.eqb_refl. cbn [negb orb].
  assert (negb (is_kern v) && negb ((policy_type v =? POLICY_MOD) || (policy_type v =? POLICY_BASE)) = false) as ->.
  { destruct (header_type v info h Hok) as [(-> & _)|(-> & _ & [[-> _]|[-> _]])]; done. }
  assert (WriteParams (policy_type v) (policyvers v) (target_platform v) = v) as -> by (by destruct v).
  by apply header_tail_reads.
Qed.

(** * The maps of attributes *)

(** Bit [x] of map [i] of the file. *)
Definition map_bit (l : list ebitmap) (i x : N) : Prop := ∃ e, l !! N.to_nat i = Some e ∧ ebitmap_bit e x = true.

Lemma map_bit_at l k x e : l !! N.to_nat k = Some e → map_bit l k x ↔ ebitmap_bit e x = true.
Proof. intros He. unfold map_bit. rewrite He. naive_solver. Qed.

Section attrs.
Context (v : write_params) (types : list (option type_datum)) (n : N).
Context (Hn : n < 2 ^ 32 - 64) (Htypes : N.of_nat (length types) = n).

Lemma no_rel_array k R : N.of_nat k = n → (∀ i x, ¬ R i x) → rel_array n (replicate k ebitmap_init) R.
Proof.
  intros Hk HR. split; [by rewrite length_replicate|]. intros i e [-> _]%lookup_replicate.
  split; [apply ebitmap_init_wf|]. intros x. split; [done|]. by intros ?%HR.
Qed.

Definition plain_at (i : N) : Prop :=
  ∃ d, types !! N.to_nat i = Some (Some d) ∧ flavor d ≠ TYPE_ATTRIB.

(** The relations after [k] rounds. *)
Definition attrs_upto (l : list ebitmap) (k i x : N) : Prop := i < k ∧ (map_bit l i x ∨ x = i).
Definition types_upto (l : list ebitmap) (k j x : N) : Prop := x < k ∧ ((map_bit l x j ∧ x ≠ j) ∨ (j = x ∧ plain_at x)).

Lemma add_type_spec i e m R o :
  rel_array n m R → ebitmap_wf e → (∀ j, ebitmap_bit e j = true → j < n) → i < 2 ^ 32 - 64 →
  wp (add_type i e m) o (array_post n (λ j x, R j x ∨ (ebitmap_bit e j = true ∧ x = i ∧ j ≠ i)) o).
Proof.
  intros Hm He Hin Hi. unfold add_type, wp. rewrite bind_run, for_each_bit_visited by done. rewrite <- bind_run. apply wp_bind.
  apply (wp_for_list (λ done m' o', (o = [] → o' = []) ∧
           rel_array n m' (λ j x, R j x ∨ (j ∈ done ∧ ebitmap_bit e j = true ∧ x = i ∧ j ≠ i)))).
  - split; [done|]. eapply rel_array_ext; [|done]. intros j x _. rewrite elem_of_nil. tauto.
  - intros done j rest m' o' _ [Ho Hr]. destruct (negb (ebitmap_bit e j) || (i =? j)) eqn:Es.
    + wp_step. split; [done|]. eapply rel_array_ext; [|exact Hr]. intros y x _. cbn.
      rewrite elem_of_app, list_elem_of_singleton. split; [tauto|].
      intros [?|([?| ->] & Hy & -> & Hne)]; [tauto|tauto|]. rewrite Hy in Es. cbn in Es. apply N.eqb_eq in Es. congruence.
    + apply orb_false_iff in Es as [Hb%negb_false_iff Hne%N.eqb_neq].
      wp_step. eapply wp_mono; [eapply (update_set_spec n _ _ j i); [exact Hr|by apply Hin|done]|].
      intros [rc m2] o2 [Ho2 Hr2]. wp_step. cbn in *. destruct Hr2 as [[-> Hr2]| ->].
      * rewrite bool_decide_eq_false_2 by naive_solver. split; [naive_solver|]. eapply rel_array_ext; [|exact Hr2].
        intros y x _. cbn. rewrite elem_of_app, list_elem_of_singleton. split; [|naive_solver].
        intros [[?|?]|[-> ->]]; [tauto|tauto|]. right. split_and!; auto.
      * rewrite bool_decide_eq_true_2 by done. apply wp_ret. split; [|by right]. intros H. by apply Ho, Ho2 in H as [_ H].
  - intros m' o' [Ho Hr]. apply wp_ret. split; [naive_solver|]. left. split; [done|]. eapply rel_array_ext; [|exact Hr].
    intros j x _. cbn. split; [tauto|]. intros [?|(Hb & -> & Hne)]; [by left|]. right. split_and!; try done. by apply bit_position.
Qed.

Lemma array_reads m R' : (∀ o, wp m o (array_post n R' o)) → Reads (io_checked m) [] (λ m', rel_array n m' R').
Proof.
  intros Hm. apply reads_checked. intros o. eapply wp_mono; [apply Hm|].
  intros [rc m'] o' [Ho Hr]; cbn [fst snd] in *. split; [naive_solver|]. destruct Hr as [[-> Hr]| ->]; [by left|].
  right. split; [done|]. intros ->. by destruct (Ho eq_refl).
Qed.

Lemma update_reads m R i :
  rel_array n m R → i < n →
  Reads (io_checked (update_at m i (λ e, ebitmap_set_bit e i true))) [] (λ m', rel_array n m' (λ j x, R j x ∨ (j = i ∧ x = i))).
Proof.
  intros Hm Hi. apply array_reads. intros o. eapply (update_set_spec n m R i i o Hm Hi). lia.
Qed.

Definition map_ok (e : ebitmap) : Prop := ebitmap_wf e ∧ ∀ j, ebitmap_bit e j = true → j < n.

(** What a round reads: nothing before the format of version 20. *)
Definition attr_bytes (e : ebitmap) : list N := if POLICYDB_VERSION_AVTAB <=? policyvers v then ebitmap_bytes e else [].
Definition listed (l : list ebitmap) : list ebitmap := if POLICYDB_VERSION_AVTAB <=? policyvers v then l else [].

Definition round_inv (l pre : list ebitmap) (st : N * attr_maps) : Prop :=
  st.1 = N.of_nat (length pre) ∧ rel_array n (am_attrs st.2) (attrs_upto (listed l) st.1) ∧
  rel_array n (am_types st.2) (types_upto (listed l) st.1).

Lemma attrs_upto_step l k i x :
  (attrs_upto l k i x ∨ (i = k ∧ map_bit l k x)) ∨ (i = k ∧ x = k) ↔ attrs_upto l (k + 1) i x.
Proof.
  unfold attrs_upto. split.
  - intros [[[? ?]|[-> ?]]|[-> ->]]; split; try lia; auto.
  - intros [Hi Hb]. destruct (decide (i = k)) as [->|]; [|left; left; split; [lia|done]]. destruct Hb as [?| ->]; auto.
Qed.

Lemma types_upto_step l k j x (P : Prop) : P ↔ (j = k ∧ x = k ∧ plain_at k) →
  (types_upto l k j x ∨ (map_bit l k j ∧ x = k ∧ j ≠ k)) ∨ P ↔ types_upto l (k + 1) j x.
Proof.
  intros ->. unfold types_upto. split.
  - intros [[[? ?]|(? & -> & ?)]|(-> & -> & ?)]; (split; [lia|auto]).
  - intros [Hx Hb]. destruct (decide (x = k)) as [->|]; [|left; left; split; [lia|done]].
    destruct Hb as [[? ?]|[-> ?]]; [left; right; auto|by right].
Qed.

Lemma attr_round_reads l pre e post st :
  l = pre ++ e :: post → N.of_nat (length l) = n → Forall map_ok l → round_inv l pre st →
  Reads (attr_round v types st) (attr_bytes e) (round_inv l (pre ++ [e])).
Proof.
  intros Hl Hlen Hok (Hk & Ha & Ht). destruct st as [k m]. cbn [fst snd] in *. unfold attr_round.
  assert (k < n) as Hkn by (subst l k; rewrite length_app in Hlen; cbn in Hlen; lia).
  assert (l !! N.to_nat k = Some e) as He.
  { subst l k. rewrite Nat2N.id. by rewrite lookup_app_r, Nat.sub_diag by done. }
  assert (map_ok e) as [Hwf Hin] by (eapply Forall_forall; [exact Hok|by eapply list_elem_of_lookup_2]).
  rewrite <- (app_nil_r (attr_bytes e)).
  apply (reads_bind _ _ _ _ (λ m', rel_array n (am_attrs m') (λ i x, attrs_upto (listed l) k i x ∨ (i = k ∧ map_bit (listed l) k x)) ∧
    rel_array n (am_types m') (λ j x, types_upto (listed l) k j x ∨ (map_bit (listed l) k j ∧ x = k ∧ j ≠ k)))).
  - unfold attr_bytes, listed in *. destruct (POLICYDB_VERSION_AVTAB <=? policyvers v) eqn:Ev.
    + rewrite <- (app_nil_r (ebitmap_bytes e)). eapply reads_bind_eq; [by apply reads_or_rc, reads_ebitmap|].
      eapply reads_bind_nil; [apply array_reads; intros o; apply (add_type_spec k e _ _ o Ht Hwf Hin); lia|].
      intros ts Hts. apply reads_ret. cbn [am_attrs am_types]. split.
      * apply (rel_array_insert _ _ (attrs_upto l k)); try done.
        -- intros x. rewrite (map_bit_at l k x e He). unfold attrs_upto. naive_solver lia.
        -- unfold attrs_upto. naive_solver.
      * eapply rel_array_ext; [|exact Hts]. intros j x _. cbn. by rewrite (map_bit_at l k j e He).
    + apply reads_ret. split; (eapply rel_array_ext; [|eassumption]); intros i x _; unfold map_bit; rewrite lookup_nil; naive_solver.
  - intros m' [Ha' Ht']. eapply reads_bind_nil; [by apply (update_reads _ _ k Ha')|]. intros attrs Hattrs.
    destruct (lookup_lt_is_Some_2 types (N.to_nat k)) as [td Htd]; [lia|].
    eapply (reads_bind_nil _ _ _ (λ x, x = td)); [apply reads_lift; intros o; rewrite Htd; by apply wp_ret|]. intros ? ->.
    eapply (reads_bind_nil _ _ _ (λ ts, rel_array n ts (types_upto (listed l) (k + 1)))).
    + assert (plain_at k ↔ match td with Some d => flavor d ≠ TYPE_ATTRIB | None => False end) as Hplain.
      { unfold plain_at. rewrite Htd. destruct td as [d|]; naive_solver. }
      destruct td as [d|]; [destruct (flavor d =? TYPE_ATTRIB) eqn:Ef; cbn [negb]|].
      * apply N.eqb_eq in Ef. apply reads_ret. eapply rel_array_ext; [|exact Ht']. intros j x _. cbn.
        rewrite <- (types_upto_step (listed l) k j x False); tauto.
      * apply N.eqb_neq in Ef. eapply reads_mono; [by apply (update_reads _ _ k Ht')|]. intros ts Hts.
        eapply rel_array_ext; [|exact Hts]. intros j x _. cbn. apply types_upto_step. tauto.
      * apply reads_ret. eapply rel_array_ext; [|exact Ht']. intros j x _. cbn.
        rewrite <- (types_upto_step (listed l) k j x False); tauto.
    + intros ts Hts. apply reads_ret. split; [cbn; rewrite length_app; cbn; lia|]. cbn [fst snd am_attrs am_types].
      split; [|done]. eapply rel_array_ext; [|exact Hattrs]. intros i x _. apply attrs_upto_step.
Qed.

Definition maps_bytes (l : list ebitmap) : list N := l ≫= attr_bytes.

(** [l] stands for the maps the file holds; a format without maps reads as one
    with empty maps. *)
Lemma attr_maps_reads l :
  N.of_nat (length l) = n → Forall map_ok l →
  Reads (attr_maps_read v types n) (maps_bytes l)
    (λ m, rel_array n (am_attrs m) (attrs_upto (listed l) n) ∧ rel_array n (am_types m) (types_upto (listed l) n)).
Proof.
  intros Hl Hok. unfold attr_maps_read, maps_bytes.
  eapply (reads_bind_nil _ _ _ (λ _, True)).
  { apply reads_checked. intros o. apply wp_bind, wp_malloc. intros a o1 Ho1. apply wp_bind, wp_malloc. intros b o2 Ho2.
    apply wp_ret. cbn [fst snd]. destruct a, b; cbn; split; try (intros ->; naive_solver); auto; right; split; try done; intros ->;
      naive_solver. }
  intros _ _. rewrite <- (app_nil_r (l ≫= attr_bytes)).
  replace (N.to_nat n) with (length l) by lia.
  eapply reads_bind; [apply (reads_times (round_inv l) (attr_round v types) attr_bytes l)|].
  - unfold round_inv. cbn [fst snd am_attrs am_types length].
    split; [done|]. split; (apply no_rel_array; [done|unfold attrs_upto, types_upto; lia]).
  - intros pre e post st Hsplit Hinv. by eapply attr_round_reads.
  - intros [k m] (Hk & Ha & Ht). cbn [fst snd] in *. rewrite Hl in Hk. subst k. by apply reads_ret.
Qed.

End attrs.

Lemma attr_maps_writes v l n :
  is_kern v = true → N.of_nat (length l) = n → Writes (attr_maps_write v l n) (maps_bytes v l).
Proof.
  intros Hk <-. unfold attr_maps_write, maps_bytes, attr_bytes. rewrite Hk, Nat2N.id. cbn [andb].
  destruct (POLICYDB_VERSION_AVTAB <=? policyvers v).
  - apply (writes_when true). apply (writes_indexed ebitmap_put ebitmap_bytes l 0) with (pre := []); [|done].
    intros e _. apply writes_ebitmap.
  - replace (l ≫= λ _, []) with (@nil N); [exact writes_ret|]. by induction l.
Qed.

(** * Theorems *)

(** The header of a policy survives the policy file.  For every row of the
    table of versions, a kernel policy of either platform, a base module or a
    module reads back with its kind, version, platform and table sizes, its
    MLS flag, the two bits of what to do with unknown permissions, the name and
    version of a module and the maps of capabilities and of permissive types
    that its version has. *)
Theorem header_write_read v info h :
  header_ok v info h →
  SurvivesAs (header_write false v h) (header_read SEPOL_TARGET_SELINUX) (λ x, x = (v, header_norm v h, info)).
Proof. intros Hok. eapply survives_intro; [by eapply header_writes|by apply header_reads]. Qed.

Definition ex_kernel_header : header := Header true 4 "" "" (EBitmap [EBNode 0 5] 64) ebitmap_init.

Lemma header_write_read_witness :
  SurvivesAs (header_write false (WriteParams POLICY_KERN 30 SEPOL_TARGET_SELINUX) ex_kernel_header)
    (header_read SEPOL_TARGET_SELINUX)
    (λ x, x = (WriteParams POLICY_KERN 30 SEPOL_TARGET_SELINUX, ex_kernel_header,
               Compat POLICY_KERN 30 8 7 SEPOL_TARGET_SELINUX)).
Proof.
  apply (header_write_read (WriteParams POLICY_KERN 30 SEPOL_TARGET_SELINUX) (Compat POLICY_KERN 30 8 7 SEPOL_TARGET_SELINUX)
           ex_kernel_header).
  split; [by vm_compute|done|done|split; by_decide].
Defined.

(** The index of types: a plain type of a value is the one declared, aliases
    apart, and an attribute does not hold itself. *)
Record types_indexed (p : policydb) (h : hashtab string type_datum) (types : list (option type_datum)) : Prop := {
  ti_count : N.of_nat (length types) = nprim (p_types p);
  ti_sound : ∀ i d, types !! N.to_nat i = Some (Some d) → d ∈ (ht_entries h).*2 ∧ type_value d = i + 1;
  ti_complete : ∀ d, d ∈ (ht_entries h).*2 → flavor d ≠ TYPE_ATTRIB → plain_at types (type_value d - 1);
  ti_irreflexive : ∀ d, d ∈ (ht_entries h).*2 → flavor d = TYPE_ATTRIB →
    ebitmap_bit (td_types d) (type_value d - 1) = false }.

Lemma has_attr_bound p h i x : attrs_wf p h → i < nprim (p_types p) → has_attr (ht_entries h).*2 i x → x < nprim (p_types p).
Proof.
  intros Hp Hi [->|(d & ([k d'] & -> & Hin)%list_elem_of_fmap & Hv & _)]; [done|].
  assert (Expand.declared p d') as Hd by (exists h, k; split; [apply Hp|done]). apply (aw_value _ _ Hp) in Hd. cbn in *. lia.
Qed.

(** The maps of types and attributes survive the kernel policy file.  Only
    the map from types to attributes is in the file; the reader builds the map
    from attributes to types from it, and for maps that stand for the declared
    attributes, as those of an expanded policy do, both come back. *)
Theorem attr_maps_write_read v p h types m :
  is_kern v = true → POLICYDB_VERSION_AVTAB ≤ policyvers v → attrs_wf p h → types_indexed p h types →
  maps_hold p (ht_entries h).*2 m →
  SurvivesAs (attr_maps_write v (am_attrs m) (nprim (p_types p))) (attr_maps_read v types (nprim (p_types p)))
    (maps_hold p (ht_entries h).*2).
Proof.
  intros Hk Hv Hp Hidx [Ht [Hlen Ha]].
  assert (listed v (am_attrs m) = am_attrs m) as El by (unfold listed; by rewrite (proj2 (N.leb_le _ _) Hv)).
  assert (∀ i x, i < nprim (p_types p) → map_bit (am_attrs m) i x ↔ has_attr (ht_entries h).*2 i x) as Hbit.
  { intros i x Hi. destruct (lookup_lt_is_Some_2 (am_attrs m) (N.to_nat i)) as [e He]; [lia|].
    rewrite (map_bit_at _ _ _ _ He). apply (Ha i e He). }
  eapply survives_intro; [by apply attr_maps_writes|].
  eapply reads_mono; [apply attr_maps_reads; [apply (aw_count _ _ Hp)|apply Hidx|done|]|].
  - apply Forall_lookup. intros i e He. pose proof (lookup_lt_Some _ _ _ He) as Hi. rewrite <- (Nat2N.id i) in He.
    destruct (Ha _ e He) as [Hwf Hb]. split; [done|]. intros j Hj%Hb. by apply (has_attr_bound p h) in Hj; [|done|lia].
  - rewrite El. intros m' [Ha' Ht']. split; (eapply rel_array_ext; [|eassumption]); intros i x Hi; cbn; symmetry.
    + unfold types_upto. split.
      * intros (d & Hin & Hd & Hx). destruct (N.eqb_spec (flavor d) TYPE_ATTRIB) as [Hf|Hf].
        -- assert (x ≠ i) as Hne. { intros ->. pose proof (ti_irreflexive _ _ _ Hidx d Hin Hf) as Hirr.
             rewrite Hd, N.add_sub, Hx in Hirr. done. }
           assert (x < nprim (p_types p)) as Hxn. { apply list_elem_of_fmap in Hin as ([k d'] & -> & Hin).
             apply (aw_types _ _ Hp d'); [exists h, k; split; [apply Hp|done]|done|done]. }
           split; [done|left; split; [|done]]. apply Hbit; [done|]. right. by exists d.
        -- subst x. split; [done|right; split; [done|]]. pose proof (ti_complete _ _ _ Hidx d Hin Hf) as Hpl.
           by rewrite Hd, N.add_sub in Hpl.
      * intros (Hx & [[Hb Hne]|[-> (d & Hd & Hf)]]).
        -- apply Hbit in Hb as [?|(d & Hin & Hd & Hf & Hb)]; [done| |done]. exists d. rewrite Hf. by split_and!.
        -- destruct (ti_sound _ _ _ Hidx _ _ Hd) as [Hin Hval]. exists d. apply N.eqb_neq in Hf. by rewrite Hf.
    + unfold attrs_upto. rewrite Hbit by done. unfold has_attr. naive_solver.
Qed.

Definition ex_attr_maps : attr_maps :=
  AttrMaps [EBitmap [EBNode 0 1] 64; EBitmap [EBNode 0 2] 64; EBitmap [EBNode 0 3] 64]
           [EBitmap [EBNode 0 5] 64; EBitmap [EBNode 0 6] 64; EBitmap [EBNode 0 4] 64].

(** The maps [expand_module] computes for two types and an attribute. *)
Lemma ex_maps_hold : maps_hold ex_attr_policy (ht_entries (Hashtab [ex_types] 1 3 symhash symcmp)).*2 ex_attr_maps.
Proof.
  pose proof (build_attr_maps_spec _ _ ex_attrs_wf []) as H.
  assert (build_attr_maps ex_attr_policy [] = Ret (0%Z, Some ex_attr_maps) []) as E by by vm_compute.
  unfold wp in H. rewrite E in H. destruct H as [_ H]. destruct (H eq_refl) as (m & [= <-] & Hm). exact Hm.
Qed.

Lemma attr_maps_write_read_witness :
  let v := WriteParams POLICY_KERN 30 SEPOL_TARGET_SELINUX in
  SurvivesAs (attr_maps_write v (am_attrs ex_attr_maps) 3) (attr_maps_read v (type_val_to_struct ex_attr_policy) 3)
    (maps_hold ex_attr_policy (ht_entries (Hashtab [ex_types] 1 3 symhash symcmp)).*2).
Proof.
  intros v. apply (attr_maps_write_read v ex_attr_policy _ (type_val_to_struct ex_attr_policy) ex_attr_maps eq_refl);
    [done|apply ex_attrs_wf| |apply ex_maps_hold].
  assert (∀ d, d ∈ (ht_entries (Hashtab [ex_types] 1 3 symhash symcmp)).*2 → d = ex_type 1 ∨ d = ex_type 2 ∨ d = ex_attr_d) as Hall.
  { intros d. cbn. rewrite !elem_of_cons, elem_of_nil. naive_solver. }
  split; [done| | |].
  - intros i d Hi. rewrite <- (N2Nat.id i). revert Hi. generalize (N.to_nat i) as k. clear i. cbn.
    intros [|[|[|k]]] Hi; cbn in Hi; [..|done]; injection Hi as <-; (split; [set_solver|done]).
  - intros d [-> |[-> | ->]]%Hall Hf; [by exists (ex_type 1)|by exists (ex_type 2)|done].
  - intros d [-> |[-> | ->]]%Hall Hf; [done|done|by vm_compute].
Defined.

(** A bit of a map of the file is an index of the other array, and no bound is
    checked: with one type, the bit of a second is outside. *)
Example attr_map_out_of_bounds :
  let v := WriteParams POLICY_KERN 30 SEPOL_TARGET_SELINUX in
  attr_maps_read v [Some (ex_type 1)] 1 (mem_file (ebitmap_bytes (EBitmap [EBNode 0 2] 64))) [] = UB.
Proof. by vm_compute. Qed.

(** Modules carry no platform: one of Xen is read as one of SELinux, and a
    reader that starts from a policy of Xen finds no row for it. *)
Example xen_module_rejected :
  ∀ vers, policydb_lookup_compat vers POLICY_MOD SEPOL_TARGET_XEN = None ∧
          policydb_lookup_compat vers POLICY_BASE SEPOL_TARGET_XEN = None.
Proof.
  intros vers. unfold policydb_lookup_compat.
  split; (apply fmap_None, list_find_None, Forall_forall; intros c Hc (_ & Hk & Ht)).
  all: assert (Forall (λ c, compat_target c = SEPOL_TARGET_XEN → compat_type c = POLICY_KERN) policydb_compat) as Hall by by_decide.
  all: pose proof (proj1 (Forall_forall _ _) Hall c Hc Ht) as E; rewrite E in Hk; discriminate Hk.
Qed.
