(* ===== verification/CondIO.v ===== *)
(** Conditional rules in a kernel policy file: [cond_insertf],
    [cond_read_av_list], [cond_read_node] and [cond_read_list] of
    libsepol/src/conditional.c, and their writers in libsepol/src/write.c.

    The rules of a block are in the file, the conditional table is not: the
    reader builds it.  A pointer to a rule is its slot and its place in the
    chain, so linking a node moves the pointers to those behind it.  The field
    [parse_context], which only marks the rules to write, is the predicate
    [parsed] on pointers.  Formats before version 20 are not modelled. *)

From stdpp Require Import sorting.
From S2P Require Import Prelude Ebitmap PolicyFile Hashtab MlsTypes Avtab Policydb Mls Context Conditional PolicyIO SymbolIO ModuleIO.
Local Open Scope N_scope.

(** * Reading *)

(** The blocks read so far, the true list of the block being read once it is
    complete ([other]), and the list being read ([head]). *)
Record cond_lists := CondLists {
  cl_nodes : list cond_node; cl_other : list avtab_ptr; cl_head : list avtab_ptr }.

(** Linking a node at [at] moves the nodes behind it. *)
Definition shift_ptr (at_ q : avtab_ptr) : avtab_ptr :=
  if (q.1 =? at_.1)%nat && (at_.2 <=? q.2)%nat then (q.1, S q.2) else q.
Definition shift_node (at_ : avtab_ptr) (n : cond_node) : cond_node :=
  set_lists n (shift_ptr at_ <$> true_list n) (shift_ptr at_ <$> false_list n).
Definition shift_lists (at_ : avtab_ptr) (cl : cond_lists) : cond_lists :=
  CondLists (shift_node at_ <$> cl_nodes cl) (shift_ptr at_ <$> cl_other cl) (shift_ptr at_ <$> cl_head cl).

(** The pointer to the first node of [c], the end of a chain. *)
Definition ptr_of (a : avtab) (k : avtab_key) (c : list avtab_node) : M avtab_ptr :=
  let slot := N.to_nat (avtab_hash k (mask a)) in
  t ← deref (av_htable a);
  chain ← deref (t !! slot);
  mret (slot, (length chain - length c)%nat).

(** Whether a type rule conflicts with the unconditional table [te] or the
    conditional table [a]. *)
Definition type_conflict (te a : avtab) (k : avtab_key) (other : list avtab_ptr) : M bool :=
  r ← avtab_search (Some te) k;
  if bool_decide (is_Some r) then mret true else
  match other with
  | [] => r ← avtab_search (Some a) k; mret (bool_decide (is_Some r))
  | _ :: _ =>
      node ← avtab_search_node (Some a) k;
      match node with
      | None => mret false
      | Some c =>
          if bool_decide (is_Some (avtab_search_node_next (Some c) (specified k))) then mret true else
          ptr ← ptr_of a k c;
          mret (negb (bool_decide (ptr ∈ other)))
      end
  end.

Definition set_head (cl : cond_lists) (l : list avtab_ptr) : cond_lists := CondLists (cl_nodes cl) (cl_other cl) l.

Definition cond_insertf (te a : avtab) (k : avtab_key) (d : avtab_datum) (cl : cond_lists)
    : M (Z * avtab * cond_lists) :=
  conflict ← (if truth (N.land (specified k) AVTAB_TYPE) then type_conflict te a k (cl_other cl) else mret false : M bool);
  if conflict : bool then mret ((-1)%Z, a, set_head cl []) else
  r ← avtab_insert_nonunique (Some a) k d;
  match r with
  | None => mret ((-1)%Z, a, set_head cl [])
  | Some (a, c) =>
      ptr ← ptr_of a k c;
      let cl := shift_lists ptr cl in
      b ← malloc;
      if negb b then mret ((-1)%Z, a, set_head cl []) else
      mret (0%Z, a, set_head cl (cl_head cl ++ [ptr]))
  end.

Section cond_read.
Context (junk : nat → N) (v : write_params) (num_bools : N) (te : avtab).

Definition cond_read_item (st : avtab * cond_lists) : io (avtab * cond_lists) := λ fp,
  '(rc, a, cl, fp) ← avtab_read_item (cond_insertf te) junk fp (policyvers v) st.1 st.2;
  mret (if (rc =? 0)%Z then inr (a, cl) else inl rc, fp).

(** The list is left in [cl_head]. *)
Definition cond_read_av_list (st : avtab * cond_lists) : io (avtab * cond_lists) :=
  buf ← get 4;
  let len := le32_at buf 0 in
  let st := (st.1, set_head st.2 []) in
  if len =? 0 then mret st else io_times (N.to_nat len) cond_read_item st.

(** The branch for a kernel policy; [mod_cond_read] is that for a module. *)
Definition cond_read_node (st : avtab * cond_lists) : io (avtab * cond_lists) :=
  let '(a, cl) := st in
  cur ← get 4;
  exprs ← cond_exprs_read num_bools;
  '(a, cl) ← or_rc (-1) (cond_read_av_list (a, CondLists (cl_nodes cl) [] []));
  '(a, cl) ← or_rc (-1) (cond_read_av_list (a, CondLists (cl_nodes cl) (cl_head cl) []));
  mret (a, CondLists (cl_nodes cl ++ [CondNode (s32 (le32_at cur 0)) exprs (cl_other cl) (cl_head cl) 0 0 0 (replicate 5 0) 0 0])
             [] []).

Definition cond_read_list (tab : avtab) : io (list cond_node * avtab) :=
  buf ← get 4;
  tab ← io_checked (avtab_alloc tab (av_nel te));
  '(a, cl) ← io_times (N.to_nat (int_count (le32_at buf 0))) (λ st, _ ← alloc (-1); cond_read_node st) (tab, CondLists [] [] []);
  mret (cl_nodes cl, a).
End cond_read.

(** * Writing *)

Section cond_write.
Context (v : write_params) (parsed : avtab_ptr → bool) (tab : avtab).

Definition rule_put (n : avtab_node) : io unit := λ fp,
  '(rc, fp) ← avtab_write_item_new v n fp; mret (if (rc =? 0)%Z then inr tt else inl (-1)%Z, fp).

Definition cond_write_av_list (l : list avtab_ptr) : io unit :=
  let kept := filter (λ q, parsed q = true) l in
  let len := N.of_nat (length kept) in
  _ ← put_words [len];
  if len =? 0 then mret tt else
  io_list (λ q, n ← io_lift (deref (node_at tab q)); rule_put n) kept.

Definition cond_write_node (n : cond_node) : io unit :=
  _ ← put_words [Z.to_N (cur_state n mod 2 ^ 32)];
  _ ← put_list (λ e, put_words [cexpr_type e; cexpr_bool e]) (cond_exprs n);
  _ ← cond_write_av_list (true_list n);
  cond_write_av_list (false_list n).

Definition cond_write_list : list cond_node → io unit := put_list cond_write_node.
End cond_write.

(** * Inserting a rule *)

(** Rules [m] that a search for rule [r] finds. *)
Definition matches (r m : avtab_node) : bool := key_match (av_key r) (clear_enabled (specified (av_key r))) (av_key m).
Definition is_type_rule (r : avtab_node) : bool := truth (N.land (specified (av_key r)) AVTAB_TYPE).

(** Where the node of the pointer is and what it holds; [merged] is not
    saved. *)
Definition holds (a : avtab) (q : avtab_ptr) (r : avtab_node) : Prop := node_at a q = Some (unmerged r).

Lemma shift_ptr_inj at_ q q' : shift_ptr at_ q = shift_ptr at_ q' → q = q'.
Proof.
  destruct at_ as [i j], q as [x y], q' as [x' y']. unfold shift_ptr. cbn.
  destruct (Nat.eqb_spec x i), (Nat.eqb_spec x' i), (Nat.leb_spec j y), (Nat.leb_spec j y');
    cbn; intros [= -> ?]; f_equal; lia.
Qed.

Lemma shift_ptr_ne at_ q : shift_ptr at_ q ≠ at_.
Proof.
  destruct at_ as [i j], q as [x y]. unfold shift_ptr. cbn.
  destruct (Nat.eqb_spec x i), (Nat.leb_spec j y); cbn; intros [= ? ?]; lia.
Qed.

Lemma insert_nonunique_spec a k d o :
  avtab_wf a →
  wp (avtab_insert_nonunique (Some a) k d) o (λ r o', (o = [] → o' = []) ∧
    let new := AvtabNode k (stored_datum k d) false in
    ((r = None ∧ o ≠ []) ∨
     ∃ a' c at_, r = Some (a', c) ∧ avtab_wf a' ∧ avtab_entries a' ≡ₚ new :: avtab_entries a ∧
       (∀ o, ptr_of a' k c o = Ret at_ o) ∧ node_at a' at_ = Some new ∧
       ∀ q, node_at a' (shift_ptr at_ q) = node_at a q)).
Proof.
  intros Hwf. destruct (avtab_focus a k Hwf) as (t & c & Ht & Hc & Hs & _ & _).
  unfold avtab_insert_nonunique. rewrite Ht. wp_step. apply wp_deref. exists c. split; [done|].
  destruct (avtab_walk k (clear_enabled (specified k)) c) as [prev cur] eqn:Hw.
  eapply wp_mono; [apply insert_node_spec|]. intros r o' [Ho Hr]. split; [done|]. cbv zeta in *.
  destruct Hr as [[-> Hne]| ->]; [by left|right].
  destruct (avtab_link_wf a t c prev cur k (stored_datum k d) Hwf Ht Hc Hw) as [Hwf' Hp].
  destruct (av_walk_sorted k _ (stored_datum k d) false c prev cur Hs Hw) as (-> & _ & _).
  set (slot := N.to_nat (avtab_hash k (mask a))) in *. set (new := AvtabNode k _ false) in *.
  assert (slot < length t)%nat as Hlt by (by eapply lookup_lt_Some).
  eexists _, _, (slot, length prev). split; [done|]. split; [done|]. split; [done|]. split; [|split].
  - intros o1. unfold ptr_of. cbn [av_htable mask deref]. fold slot. rewrite !bind_run. unfold mret at 1, M_ret at 1.
    cbv beta iota. rewrite bind_run, list_lookup_insert_eq by done. cbn [deref]. unfold mret, M_ret. cbv beta iota.
    rewrite length_app. do 2 f_equal. cbn [length]. lia.
  - unfold node_at. cbn. rewrite list_lookup_insert_eq by done. cbn. by rewrite lookup_app_r, Nat.sub_diag by done.
  - intros [i j]. unfold node_at, shift_ptr. cbn. rewrite Ht. cbn. destruct (Nat.eqb_spec i slot) as [->|Hi].
    + rewrite Hc. destruct (Nat.leb_spec (length prev) j); cbn; rewrite list_lookup_insert_eq by done; cbn.
      * rewrite !lookup_app_r by lia. replace (S j - length prev)%nat with (S (j - length prev)) by lia. done.
      * by rewrite !lookup_app_l by lia.
    + cbn. by rewrite list_lookup_insert_ne by done.
Qed.

Lemma find_suffix_split {A} (p : A → bool) l s :
  find_suffix p l = Some s → ∃ pre x s', l = pre ++ s ∧ s = x :: s' ∧ p x = true ∧ Forall (λ a, p a = false) pre.
Proof.
  induction l as [|a l IH]; [done|]. cbn. destruct (p a) eqn:E.
  - intros [= <-]. by exists [], a, l.
  - intros (pre & x & s' & -> & -> & ? & ?)%IH. exists (a :: pre), x, s'. auto.
Qed.

(** The place of the only element with a property. *)
Lemma filter_one_place {A} (p : A → bool) pre x s j m :
  (length (filter (λ a, p a = true) (pre ++ x :: s)) ≤ 1)%nat → p x = true → Forall (λ a, p a = false) pre →
  (pre ++ x :: s) !! j = Some m → p m = true → j = length pre.
Proof.
  intros Hone Hx Hpre Hj Hm. rewrite filter_app, (filter_none _ _ Hpre), filter_cons, decide_True in Hone by done.
  cbn in Hone. assert (filter (λ a, p a = true) s = []) as Hs by (destruct (filter _ s); [done|cbn in Hone; lia]).
  destruct (Nat.lt_trichotomy j (length pre)) as [Hlt|[?|Hgt]]; [|done|].
  - rewrite lookup_app_l in Hj by done. rewrite Forall_forall in Hpre.
    rewrite Hpre in Hm; [done|by eapply list_elem_of_lookup_2].
  - rewrite lookup_app_r, lookup_cons_ne_0 in Hj by lia. apply list_elem_of_lookup_2 in Hj.
    assert (m ∈ filter (λ a, p a = true) s) as Hin by (by apply list_elem_of_filter). rewrite Hs in Hin. by apply elem_of_nil in Hin.
Qed.

(** A rule may be inserted: a type rule repeats no unconditional rule, and a
    conditional one only if that is the only one and in the true list of the
    block, whose rules are [ts]; [rs] are all conditional rules so far. *)
Definition insert_ok (te : avtab) (rs ts : list avtab_node) (r : avtab_node) : Prop :=
  is_type_rule r = true →
  Forall (λ m, matches r m = false) (avtab_entries te) ∧
  (length (filter (λ m, matches r m = true) rs) ≤ 1)%nat ∧
  (filter (λ m, matches r m = true) ts = [] → filter (λ m, matches r m = true) rs = []).

Lemma matches_unmerged r (l : list avtab_node) :
  filter (λ m, matches r m = true) (unmerged <$> l) = unmerged <$> filter (λ m, matches r m = true) l.
Proof.
  induction l as [|a l IH]; [done|]. rewrite fmap_cons, !filter_cons, IH.
  destruct (decide (matches r a = true)); [rewrite decide_True by done|rewrite decide_False by done]; done.
Qed.

Lemma holds_slot a q r m t c :
  avtab_wf a → holds a q m → matches r m = true →
  av_htable a = Some t → t !! N.to_nat (avtab_hash (av_key r) (mask a)) = Some c →
  q.1 = N.to_nat (avtab_hash (av_key r) (mask a)) ∧ c !! q.2 = Some (unmerged m).
Proof.
  intros [(t' & Ht' & _ & Hch) _ _] Hq Hm Ht Hc. unfold holds, node_at in Hq. rewrite Ht in Ht'. injection Ht' as <-.
  rewrite Ht in Hq. cbn in Hq. destruct (t !! q.1) as [c'|] eqn:Hi; [|done]. cbn in Hq.
  destruct (Hch _ _ Hi) as [_ Hh]. rewrite Forall_forall in Hh. specialize (Hh _ (list_elem_of_lookup_2 _ _ _ Hq)).
  apply (key_match_hash _ _ _ (mask a)) in Hm. cbn in Hh. rewrite Hm in Hh.
  assert (q.1 = N.to_nat (avtab_hash (av_key r) (mask a))) as E by lia. split; [done|].
  rewrite E, Hc in Hi. by injection Hi as ->.
Qed.

Lemma search_matches a r o : avtab_wf a →
  avtab_search (Some a) (av_key r) o = Ret (av_datum <$> head (filter (λ m, matches r m = true) (avtab_entries a))) o.
Proof. intros Ha. exact (avtab_search_spec a (av_key r) o Ha). Qed.

Lemma type_conflict_none te a r rs ts other o :
  avtab_wf te → avtab_wf a → avtab_entries a ≡ₚ unmerged <$> rs → Forall2 (holds a) other ts →
  is_type_rule r = true → insert_ok te rs ts r →
  type_conflict te a (av_key r) other o = Ret false o.
Proof.
  intros Hte Ha Hent Hother Hty Hok. destruct (Hok Hty) as (Hno & Hone & Hin). unfold type_conflict.
  rewrite bind_run, search_matches by done.
  rewrite (filter_none _ _ Hno). cbn [head]. change (bool_decide (is_Some (av_datum <$> None))) with false. cbv iota.
  assert (filter (λ m, matches r m = true) (avtab_entries a) ≡ₚ unmerged <$> filter (λ m, matches r m = true) rs) as Hf
    by (by rewrite Hent, matches_unmerged).
  destruct other as [|q0 other].
  { inversion Hother; subst. rewrite bind_run, search_matches by done.
    rewrite Hin in Hf by done. cbn in Hf. apply Permutation_nil_r in Hf. by rewrite Hf. }
  destruct (avtab_focus a (av_key r) Ha) as (t & c & Ht & Hc & Hs & _ & Hfc).
  assert (filter (λ m, matches r m = true) (avtab_entries a) = filter (λ m, matches r m = true) c) as Hfc' by exact (Hfc _).
  clear Hfc. rename Hfc' into Hfc.
  rewrite Hfc in Hf. apply Permutation_length in Hf as Hlen. rewrite length_fmap in Hlen.
  rewrite bind_run. unfold avtab_search_node. rewrite Ht, bind_run, Hc. cbn [deref]. unfold mret at 1, M_ret at 1. cbv beta iota.
  rewrite scan_find by done. change (λ n, key_match _ _ (av_key n)) with (matches r).
  unfold mret at 1, M_ret at 1. cbv beta iota.
  destruct (find_suffix (matches r) c) as [s|] eqn:Hfs; [|done].
  destruct (find_suffix_split _ _ _ Hfs) as (pre & x & s' & -> & -> & Hx & Hpre).
  assert (filter (λ m, matches r m = true) s' = []) as Hs'.
  { rewrite filter_app, (filter_none _ _ Hpre), filter_cons, decide_True in Hlen by done. cbn in Hlen.
    destruct (filter _ s'); [done|cbn in Hlen; lia]. }
  assert (avtab_search_node_next (Some (x :: s')) (specified (av_key r)) = None) as ->.
  { unfold avtab_search_node_next. apply StronglySorted_app in Hs as (_ & _ & Hs).
    apply StronglySorted_inv in Hs as [Hs _]. rewrite scan_find by done.
    rewrite (find_suffix_ext _ (matches r)) by (intros b; apply (key_match_trans _ _ _ _ _ Hx)).
    apply find_suffix_none, Forall_forall. intros m Hm. apply not_true_is_false. intros Hmm.
    assert (m ∈ filter (λ m, matches r m = true) s') as Hin' by (by apply list_elem_of_filter). rewrite Hs' in Hin'.
    by apply elem_of_nil in Hin'. }
  change (bool_decide (is_Some None)) with false. cbv iota. unfold ptr_of. rewrite !bind_run, Ht. cbn [deref].
  unfold mret at 1, M_ret at 1. cbv beta iota. rewrite bind_run, Hc. cbn [deref]. unfold mret, M_ret. cbv beta iota.
  do 2 f_equal. apply negb_false_iff, bool_decide_eq_true.
  assert (∃ m, m ∈ ts ∧ matches r m = true) as (m & Hm & Hmm).
  { destruct (filter (λ m, matches r m = true) ts) as [|m l] eqn:E.
    - rewrite Hin in Hlen by done. rewrite filter_app, filter_cons, decide_True, length_app in Hlen by done. cbn in Hlen. lia.
    - exists m. apply and_comm. apply (list_elem_of_filter (λ m, matches r m = true)). rewrite E. left. }
  apply list_elem_of_lookup in Hm as [i Hi]. destruct (Forall2_lookup_r _ _ _ _ _ Hother Hi) as (q & Hq & Hh).
  destruct (holds_slot a q r m t _ Ha Hh Hmm Ht Hc) as [Hslot Hplace].
  assert (q.2 = length pre) as Hpos by (eapply (filter_one_place (matches r)); [by rewrite Hlen|done|done|exact Hplace|done]).
  apply list_elem_of_lookup. exists i. rewrite Hq. f_equal. destruct q as [qi qj]. cbn in *. subst.
  f_equal. rewrite length_app. cbn. lia.
Qed.

(** * Blocks *)

(** A block with its rules, as the file has it. *)
Record block := Block {
  b_state : Z; b_exprs : list cond_expr; b_true : list avtab_node; b_false : list avtab_node }.
Definition block_rules (b : block) : list avtab_node := b_true b ++ b_false b.

(** Node [n] stands for block [b]; the fields that compilation uses are
    cleared. *)
Definition block_at (a : avtab) (n : cond_node) (b : block) : Prop :=
  n = CondNode (b_state b) (b_exprs b) (true_list n) (false_list n) 0 0 0 (replicate 5 0) 0 0 ∧
  Forall2 (holds a) (true_list n) (b_true b) ∧ Forall2 (holds a) (false_list n) (b_false b).

Definition all_ptrs (cl : cond_lists) : list avtab_ptr := (cl_nodes cl ≫= node_ptrs) ++ cl_other cl ++ cl_head cl.

(** The state of the reader after the blocks [bs], the true rules [ts] and the
    rules [hs] of the list being read. *)
Record lists_at (bs : list block) (ts hs : list avtab_node) (a : avtab) (cl : cond_lists) : Prop := {
  la_wf : avtab_wf a;
  la_entries : avtab_entries a ≡ₚ unmerged <$> ((bs ≫= block_rules) ++ ts) ++ hs;
  la_nodes : Forall2 (block_at a) (cl_nodes cl) bs;
  la_other : Forall2 (holds a) (cl_other cl) ts;
  la_head : Forall2 (holds a) (cl_head cl) hs;
  la_nodup : NoDup (all_ptrs cl) }.

Lemma holds_shift a a' at_ l rs :
  (∀ q, node_at a' (shift_ptr at_ q) = node_at a q) → Forall2 (holds a) l rs → Forall2 (holds a') (shift_ptr at_ <$> l) rs.
Proof.
  intros Hq Hl. apply Forall2_fmap_l. eapply Forall2_impl; [exact Hl|]. intros q r Hr. unfold holds, compose in *. by rewrite Hq.
Qed.

Lemma blocks_shift a a' at_ l bs :
  (∀ q, node_at a' (shift_ptr at_ q) = node_at a q) → Forall2 (block_at a) l bs →
  Forall2 (block_at a') (shift_node at_ <$> l) bs.
Proof.
  intros Hq Hl. apply Forall2_fmap_l. eapply Forall2_impl; [exact Hl|]. intros n b (-> & Ht & Hf).
  split; [done|]. split; by eapply holds_shift.
Qed.

Lemma all_ptrs_shift at_ cl : all_ptrs (shift_lists at_ cl) = shift_ptr at_ <$> all_ptrs cl.
Proof.
  unfold all_ptrs, shift_lists. cbn. rewrite !fmap_app. f_equal. induction (cl_nodes cl) as [|n l IH]; [done|].
  rewrite fmap_cons, !bind_cons, fmap_app, IH. f_equal. unfold node_ptrs, shift_node, set_lists. cbn. by rewrite fmap_app.
Qed.

Lemma cond_insertf_spec te a cl bs ts hs r o :
  avtab_wf te → lists_at bs ts hs a cl → rule_wf r → insert_ok te (((bs ≫= block_rules) ++ ts) ++ hs) ts r →
  wp (cond_insertf te a (av_key r) (av_datum r) cl) o (λ x o', (o = [] → o' = []) ∧
    ((x.1.1 = (-1)%Z ∧ o ≠ []) ∨ (x.1.1 = 0%Z ∧ lists_at bs ts (hs ++ [r]) x.1.2 x.2))).
Proof.
  intros Hte [Hwf Hent Hnodes Hother Hhead Hnd] Hr Hok. unfold cond_insertf. wp_step.
  assert ((if truth (N.land (specified (av_key r)) AVTAB_TYPE) then type_conflict te a (av_key r) (cl_other cl)
           else mret false : M bool) o = Ret false o) as E.
  { destruct (truth _) eqn:Ety; [|done].
    by apply (type_conflict_none te a r (((bs ≫= block_rules) ++ ts) ++ hs) ts). }
  unfold wp at 1. rewrite E. wp_step. eapply wp_mono; [by apply insert_nonunique_spec|]. clear E.
  intros x o1 [Ho1 Hx]; cbv zeta in Hx. destruct Hx as [[-> Hne]|(a' & c & at_ & -> & Hwf' & Hent' & Hptr & Hat & Hshift)].
  { apply wp_ret. split; [done|]. by left. }
  wp_step. unfold wp at 1. rewrite Hptr. wp_step. wp_step. intros b o2 Ho2.
  destruct b; cbn [negb]; apply wp_ret; [|split; [naive_solver|left; naive_solver]].
  split; [naive_solver|]. right. split; [done|]. cbn [fst snd].
  assert (AvtabNode (av_key r) (stored_datum (av_key r) (av_datum r)) false = unmerged r) as Eu
    by (by rewrite rule_stored).
  rewrite Eu in *. split; cbn [cl_nodes cl_other cl_head set_head shift_lists].
  - done.
  - rewrite Hent', Hent, (app_assoc _ hs), (fmap_app _ _ [r]). apply Permutation_cons_append.
  - by eapply blocks_shift.
  - by eapply holds_shift.
  - apply Forall2_app; [by eapply holds_shift|]. by constructor.
  - assert (all_ptrs (set_head (shift_lists at_ cl) ((shift_ptr at_ <$> cl_head cl) ++ [at_])) =
            all_ptrs (shift_lists at_ cl) ++ [at_]) as -> by (unfold all_ptrs; cbn; by rewrite <- !app_assoc).
    rewrite all_ptrs_shift. apply NoDup_app. split_and!.
    + apply NoDup_fmap_2_strong; [intros q q' _ _; apply shift_ptr_inj|done].
    + intros q (q0 & -> & _)%list_elem_of_fmap E%list_elem_of_singleton. exact (shift_ptr_ne _ _ E).
    + apply NoDup_singleton.
Qed.

(** * Reading back *)

Section reads.
Context (junk : nat → N) (v : write_params) (num_bools : N) (te : avtab).
Context (Hte : avtab_wf te) (Hv : POLICYDB_VERSION_AVTAB ≤ policyvers v).

(** The rules of a list may be inserted one after the other. *)
Fixpoint list_ok (rs ts l : list avtab_node) : Prop :=
  match l with [] => True | r :: l' => insert_ok te rs ts r ∧ list_ok (rs ++ [r]) ts l' end.

Lemma list_ok_at rs ts pre r post : list_ok rs ts (pre ++ r :: post) → insert_ok te (rs ++ pre) ts r.
Proof.
  revert rs. induction pre as [|x pre IH]; intros rs; cbn; [rewrite app_nil_r; tauto|].
  intros [_ H%IH]. by rewrite <- app_assoc in H.
Qed.

Definition rules_ok (l : list avtab_node) : Prop :=
  N.of_nat (length l) < 2 ^ 32 ∧ Forall (λ r, rule_wf r ∧ rule_version (policyvers v) r) l.

Lemma cond_read_item_reads bs ts hs st r :
  lists_at bs ts hs st.1 st.2 → insert_ok te (((bs ≫= block_rules) ++ ts) ++ hs) ts r →
  rule_wf r → rule_version (policyvers v) r →
  Reads (cond_read_item junk v te st) (rule_bytes r) (λ st', lists_at bs ts (hs ++ [r]) st'.1 st'.2).
Proof.
  intros Hst Hok Hwf Hver. apply reads_intro. intros fp rest o Hfp Hav. unfold cond_read_item. apply wp_bind.
  eapply read_item_ok; [exact Hwf|exact Hv|exact Hver|exact Hfp|exact Hav|].
  eapply wp_mono; [by apply (cond_insertf_spec te st.1 st.2 bs ts hs r)|].
  intros [[rc a] cl] o1 [Ho Hx] fp' Hfp' Hav'. cbn [fst snd] in *. apply wp_ret. cbn [fst snd].
  destruct Hx as [[-> Hne]|[-> Hl]]; cbn; split_and!; try done; intros; by auto.
Qed.

Lemma cond_read_av_list_reads bs ts st l :
  lists_at bs ts [] st.1 (set_head st.2 []) → rules_ok l → list_ok ((bs ≫= block_rules) ++ ts) ts l →
  Reads (cond_read_av_list junk v te st) (list_bytes rule_bytes l) (λ st', lists_at bs ts l st'.1 st'.2).
Proof.
  intros Hst [Hn Hl] Hok. unfold cond_read_av_list, list_bytes.
  assert (u32s [N.of_nat (length l)]) by (repeat constructor; lia). reads_step. word_at. cbv zeta.
  destruct l as [|r0 l0]; [by apply reads_ret|]. remember (r0 :: l0) as l eqn:El.
  rewrite (proj2 (N.eqb_neq _ 0)) by (subst l; cbn; lia). rewrite Nat2N.id.
  apply (reads_times (λ pre st', lists_at bs ts pre st'.1 st'.2)); [done|].
  intros pre r post s -> Hs. apply Forall_app in Hl as [_ [[Hwf Hver] _]%Forall_cons].
  apply cond_read_item_reads; [done| |done|done]. by eapply list_ok_at.
Qed.

Definition block_bytes (b : block) : list N :=
  words [Z.to_N (b_state b mod 2 ^ 32)] ++ list_bytes cond_expr_bytes (b_exprs b) ++
  list_bytes rule_bytes (b_true b) ++ list_bytes rule_bytes (b_false b).

Definition block_ok (rs : list avtab_node) (b : block) : Prop :=
  (- 2 ^ 31 <= b_state b < 2 ^ 31)%Z ∧ cond_exprs_ok num_bools (b_exprs b) ∧
  rules_ok (b_true b) ∧ rules_ok (b_false b) ∧
  list_ok rs [] (b_true b) ∧ list_ok (rs ++ b_true b) (b_true b) (b_false b).

Lemma cond_read_node_reads bs a cl b :
  lists_at bs [] [] a cl → block_ok (bs ≫= block_rules) b →
  Reads (cond_read_node junk v num_bools te (a, cl)) (block_bytes b) (λ st', lists_at (bs ++ [b]) [] [] st'.1 st'.2).
Proof.
  intros [Hwf Hent Hnodes Hother Hhead Hnd] (Hst & Hex & Ht & Hf & Htok & Hfok).
  apply Forall2_nil_inv_r in Hother, Hhead. destruct cl as [nodes other head]. cbn [cl_nodes cl_other cl_head] in *. subst.
  unfold cond_read_node, block_bytes. destruct (s32_word (b_state b) Hst) as [Hw Es].
  assert (u32s [Z.to_N (b_state b mod 2 ^ 32)]) by (by repeat constructor).
  reads_step. eapply reads_bind_eq; [by apply cond_exprs_reads|].
  eapply reads_bind; [apply reads_or_rc; [done|]; apply (cond_read_av_list_reads bs [] _ (b_true b))|].
  { by split; cbn. }
  { done. }
  { by rewrite app_nil_r. }
  intros [a1 cl1] [Hwf1 Hent1 Hnodes1 Hother1 Hhead1 Hnd1]. cbn [fst snd] in *.
  apply Forall2_nil_inv_r in Hother1. destruct cl1 as [nodes1 other1 head1]. cbn [cl_nodes cl_other cl_head] in *. subst.
  rewrite <- (app_nil_r (list_bytes rule_bytes (b_false b))).
  eapply reads_bind; [apply reads_or_rc; [done|]; apply (cond_read_av_list_reads bs (b_true b) _ (b_false b))|].
  { split; cbn; [done| |done|done|constructor|].
    - by rewrite !app_nil_r in *.
    - unfold all_ptrs in *. cbn in *. by rewrite app_nil_r in *. }
  { done. }
  { done. }
  intros [a2 cl2] [Hwf2 Hent2 Hnodes2 Hother2 Hhead2 Hnd2]. cbn [fst snd] in *.
  apply reads_ret. cbn [fst snd]. word_at. rewrite Es.
  split; cbn; [done| | |constructor|constructor|].
  - rewrite Hent2, !app_nil_r, bind_app, bind_singleton. unfold block_rules. by rewrite app_assoc.
  - apply Forall2_app; [done|]. constructor; [|constructor]. by split_and!.
  - unfold all_ptrs in *. cbn. by rewrite !app_nil_r, bind_app, bind_singleton.
Qed.

Fixpoint blocks_ok (rs : list avtab_node) (bs : list block) : Prop :=
  match bs with [] => True | b :: bs' => block_ok rs b ∧ blocks_ok (rs ++ block_rules b) bs' end.

Lemma blocks_ok_at rs pre b post : blocks_ok rs (pre ++ b :: post) → block_ok (rs ++ (pre ≫= block_rules)) b.
Proof.
  revert rs. induction pre as [|x pre IH]; intros rs; cbn; [rewrite app_nil_r; tauto|].
  intros [_ H%IH]. by rewrite <- app_assoc in H.
Qed.

(** What the reader makes of the blocks. *)
Definition conds_at (bs : list block) (x : list cond_node * avtab) : Prop :=
  avtab_wf x.2 ∧ avtab_entries x.2 ≡ₚ unmerged <$> (bs ≫= block_rules) ∧
  Forall2 (block_at x.2) x.1 bs ∧ NoDup (x.1 ≫= node_ptrs).

Lemma cond_read_list_reads tab bs :
  0 < av_nel te < 2 ^ 32 → N.of_nat (length bs) < 2 ^ 31 → blocks_ok [] bs →
  Reads (cond_read_list junk v num_bools te tab) (list_bytes block_bytes bs) (conds_at bs).
Proof.
  intros Hnel Hn Hok. unfold cond_read_list, list_bytes.
  assert (u32s [N.of_nat (length bs)]) by (repeat constructor; lia). reads_step.
  eapply (reads_bind_nil _ _ _ (λ t, avtab_wf t ∧ avtab_entries t = [])).
  { apply reads_checked. intros o. eapply wp_mono; [by apply avtab_alloc_spec; lia|].
    intros [rc t] o' [Ho Hr]; cbn in *. split; [done|]. destruct Hr as [(-> & Hoom & _)|(-> & ? & ? & _)]; [by right|by left]. }
  intros t [Ht Hent]. word_at. rewrite int_count_small by done. rewrite Nat2N.id.
  rewrite <- (app_nil_r (bs ≫= block_bytes)).
  eapply reads_bind; [apply (reads_times (λ pre st, lists_at pre [] [] st.1 st.2))|].
  - split; cbn; [done|by rewrite Hent|constructor..].
  - intros pre b post [a cl] -> Hs. eapply reads_bind_nil; [by apply reads_alloc|]. intros _ _.
    apply cond_read_node_reads; [done|]. by apply (blocks_ok_at []) in Hok.
  - intros [a cl] [Hwf Hent' Hnodes Hother Hhead Hnd]. cbn [fst snd] in *. apply reads_ret.
    apply Forall2_nil_inv_r in Hother, Hhead. unfold all_ptrs in Hnd. rewrite Hother, Hhead, !app_nil_r in *.
    by split_and!.
Qed.

(** * The unconditional table *)

Definition avtab_get (a : avtab) : io avtab := λ fp,
  '(rc, a, fp) ← avtab_read junk a fp (policyvers v);
  mret (if (rc =? 0)%Z then inr a else inl POLICYDB_ERROR, fp).
Definition avtab_put (a : avtab) : io unit := λ fp,
  '(rc, fp) ← avtab_write_new v a fp; mret (if (rc =? 0)%Z then inr tt else inl POLICYDB_ERROR, fp).

(** A table of rules that the version can write and that repeats none. *)
Record table_ok (a : avtab) : Prop := {
  to_wf : avtab_wf a;
  to_some : avtab_entries a ≠ [];
  to_rules : rules_ok (avtab_entries a);
  to_writable : Forall (λ n, rule_writable v n = true) (avtab_entries a);
  to_unique : rules_unique [] (avtab_entries a) }.

Lemma avtab_writes a : table_ok a → Writes (avtab_put a) (avtab_bytes a).
Proof.
  intros [Hwf _ [_ Hr] Hw _]. apply writes_intro. intros fp o Hroom. unfold avtab_put.
  rewrite bind_run, avtab_write_ok; try done. eapply Forall_impl; [exact Hr|]. by intros n [].
Qed.

Lemma avtab_reads a a0 : table_ok a →
  Reads (avtab_get a0) (avtab_bytes a) (λ a', avtab_wf a' ∧ avtab_entries a' ≡ₚ unmerged <$> avtab_entries a).
Proof.
  intros [Hwf Hne [Hn Hr] _ Hu]. apply reads_intro. intros fp rest o Hfp Hav. unfold avtab_get. apply wp_bind.
  unfold avtab_bytes in Hav. rewrite (awf_nel _ Hwf), u32_small in Hav by done.
  eapply wp_mono; [apply (avtab_read_ok junk (policyvers v) (avtab_entries a) a0 fp rest); try done|].
  - eapply Forall_impl; [exact Hr|]. by intros n [].
  - eapply Forall_impl; [exact Hr|]. by intros n [].
  - intros [[rc a'] fp'] o' [Ho Hx]. cbn [fst snd] in *. apply wp_ret. cbn [fst snd].
    destruct Hx as [(-> & ? & ? & ? & ?)|(-> & _ & ?)]; cbn; split_and!; try done; intros; naive_solver.
Qed.
End reads.

(** * Writing back *)

(** A node of a policy stands for a block: the rules marked to be written. *)
Definition node_block (parsed : avtab_ptr → bool) (tab : avtab) (n : cond_node) (b : block) : Prop :=
  cur_state n = b_state b ∧ cond_exprs n = b_exprs b ∧
  Forall2 (λ q r, node_at tab q = Some r) (filter (λ q, parsed q = true) (true_list n)) (b_true b) ∧
  Forall2 (λ q r, node_at tab q = Some r) (filter (λ q, parsed q = true) (false_list n)) (b_false b).

Definition rules_writable (v : write_params) (l : list avtab_node) : Prop :=
  Forall (λ r, rule_wf r ∧ rule_writable v r = true) l.

Section writes.
Context (v : write_params) (parsed : avtab_ptr → bool) (tab : avtab).

Lemma rule_writes r : rule_wf r → rule_writable v r = true → Writes (rule_put v r) (rule_bytes r).
Proof.
  intros Hr Hw. apply writes_intro. intros fp o Hroom. unfold rule_put. by rewrite bind_run, write_item_ok.
Qed.

Lemma cond_av_list_writes l rs :
  Forall2 (λ q r, node_at tab q = Some r) (filter (λ q, parsed q = true) l) rs → rules_writable v rs →
  Writes (cond_write_av_list v parsed tab l) (list_bytes rule_bytes rs).
Proof.
  intros Hl Hrs. unfold cond_write_av_list, list_bytes. rewrite (Forall2_length _ _ _ Hl).
  apply writes_bind; [apply writes_words|]. revert Hl Hrs. generalize (filter (λ q, parsed q = true) l) as kept.
  intros kept Hl Hrs. destruct (N.eqb_spec (N.of_nat (length rs)) 0) as [E|_].
  { destruct rs; [|cbn in E; lia]. apply writes_ret. }
  induction Hl as [|q r kept rs Hq _ IH]; [apply writes_ret|]. rewrite bind_cons. cbn [io_list].
  apply Forall_cons in Hrs as [[? ?] Hrs]. apply writes_bind; [|by apply IH].
  apply (writes_lift _ _ r); [|by apply rule_writes]. intros o. by rewrite Hq.
Qed.

Lemma cond_write_node_writes n b :
  node_block parsed tab n b → rules_writable v (block_rules b) →
  Writes (cond_write_node v parsed tab n) (block_bytes b).
Proof.
  intros (Hs & He & Ht & Hf) [Hwt Hwf]%Forall_app. unfold cond_write_node, block_bytes. rewrite Hs, He.
  apply writes_bind; [apply writes_words|]. apply writes_bind.
  { apply (put_list_writes _ _ (λ _, True)); [|by apply Forall_true]. intros e _. apply writes_words. }
  apply writes_bind; by apply cond_av_list_writes.
Qed.

Lemma cond_write_list_writes l bs :
  Forall2 (node_block parsed tab) l bs → rules_writable v (bs ≫= block_rules) →
  Writes (cond_write_list v parsed tab l) (list_bytes block_bytes bs).
Proof.
  intros Hl Hw. unfold cond_write_list, put_list, list_bytes. rewrite (Forall2_length _ _ _ Hl).
  apply writes_bind; [apply writes_words|]. induction Hl as [|n b l bs Hn _ IH]; [apply writes_ret|].
  rewrite bind_cons in Hw. rewrite bind_cons. apply Forall_app in Hw as [Hb Hw]. cbn [io_list].
  apply writes_bind; [by apply cond_write_node_writes|by apply IH].
Qed.
End writes.

(** * Theorems *)

Lemma writable_version v l : Forall (λ n, rule_writable v n = true) l → Forall (rule_version (policyvers v)) l.
Proof.
  intros Hl. eapply Forall_impl; [exact Hl|]. intros n Hn Hx. unfold rule_writable in Hn. rewrite Hx in Hn.
  cbn in Hn. apply andb_true_iff in Hn as [Hn _]. by apply N.leb_le.
Qed.

(** Conditional rules survive the kernel policy file (version 20 and
    later).  The file has the rules of each block and not the conditional
    table: the reader builds a new table that is well-formed and holds exactly
    the rules of the blocks, every block gets back its state, its expression
    and its two lists of rules in order, and no two list entries share a rule,
    although linking a rule moves the nodes behind it.  The blocks are those
    the conflict tests on type rules accept. *)
Theorem conds_write_read junk v num_bools te parsed tab l bs tab0 :
  POLICYDB_VERSION_AVTAB ≤ policyvers v → avtab_wf te → 0 < av_nel te < 2 ^ 32 →
  Forall2 (node_block parsed tab) l bs → N.of_nat (length bs) < 2 ^ 31 →
  rules_writable v (bs ≫= block_rules) → blocks_ok v num_bools te [] bs →
  SurvivesAs (cond_write_list v parsed tab l) (cond_read_list junk v num_bools te tab0) (conds_at bs).
Proof.
  intros Hv Hte Hnel Hl Hn Hw Hok. eapply survives_intro; [by apply cond_write_list_writes|by apply cond_read_list_reads].
Qed.

#[global] Instance insert_ok_dec te rs ts r : Decision (insert_ok te rs ts r).
Proof. unfold insert_ok. apply _. Defined.
#[global] Instance list_ok_dec te rs ts l : Decision (list_ok te rs ts l).
Proof. revert rs. induction l; intros rs; simpl; apply _. Defined.
#[global] Instance rule_version_dec vers r : Decision (rule_version vers r).
Proof. unfold rule_version. apply _. Defined.
#[global] Instance rules_ok_dec v l : Decision (rules_ok v l).
Proof. unfold rules_ok. apply _. Defined.
#[global] Instance cond_exprs_ok_dec n l : Decision (cond_exprs_ok n l).
Proof. unfold cond_exprs_ok, u32s. apply _. Defined.
#[global] Instance block_ok_dec v n te rs b : Decision (block_ok v n te rs b).
Proof. unfold block_ok. apply _. Defined.
#[global] Instance blocks_ok_dec v n te rs bs : Decision (blocks_ok v n te rs bs).
Proof. revert rs. induction bs; intros rs; simpl; apply _. Defined.
#[global] Instance cond_expr_eq_dec : EqDecision cond_expr.
Proof. solve_decision. Defined.
#[global] Instance node_block_dec parsed tab n b : Decision (node_block parsed tab n b).
Proof. unfold node_block. apply _. Defined.
#[global] Instance rules_writable_dec v l : Decision (rules_writable v l).
Proof. unfold rules_writable. apply _. Defined.

(** A block that is on, with an allow rule and a transition in its true list
    and a transition of the same key in its false list. *)
Definition ex_block_avtab : avtab :=
  Avtab (Some [[ex_rule (AVTAB_ALLOWED + AVTAB_ENABLED) 5; ex_rule (AVTAB_TRANSITION + AVTAB_ENABLED) 7;
                ex_rule AVTAB_TRANSITION 8]]) 3 1 0.
Definition ex_block_node : cond_node :=
  CondNode 1 (rpn ex_bexp) [(0, 1)%nat; (0, 0)%nat] [(0, 2)%nat] 0 0 0 (replicate 5 0) 0 0.
Definition ex_block : block :=
  Block 1 (rpn ex_bexp) [ex_rule (AVTAB_TRANSITION + AVTAB_ENABLED) 7; ex_rule (AVTAB_ALLOWED + AVTAB_ENABLED) 5]
    [ex_rule AVTAB_TRANSITION 8].

Lemma conds_write_read_witness :
  SurvivesAs (cond_write_list ex_params (λ _, true) ex_block_avtab [ex_block_node])
    (cond_read_list (λ _, 0) ex_params 2 ex_te_avtab (Avtab None 0 0 0)) (conds_at [ex_block]).
Proof.
  apply (conds_write_read (λ _, 0) ex_params 2 ex_te_avtab (λ _, true) ex_block_avtab [ex_block_node] [ex_block]);
    [by_decide|apply ex_te_avtab_wf|by_decide..].
Defined.

(** What the reader makes of it: the second transition is linked in front of
    the first, which moves with the rules behind it. *)
Example cond_pointers_move :
  ∃ fp a, cond_read_list (λ _, 0) ex_params 2 ex_te_avtab (Avtab None 0 0 0) (mem_file (list_bytes block_bytes [ex_block])) [] =
    Ret (inr ([CondNode 1 (rpn ex_bexp) [(0, 1)%nat; (0, 2)%nat] [(0, 0)%nat] 0 0 0 (replicate 5 0) 0 0], a), fp) [].
Proof. eexists _, _. vm_compute. reflexivity. Qed.

(** A type rule of the false list that repeats the rule of another block is
    refused: the whole policy does not load. *)
Example cond_conflict_refused :
  ∃ fp, cond_read_list (λ _, 0) ex_params 2 ex_te_avtab (Avtab None 0 0 0)
    (mem_file (list_bytes block_bytes [ex_block; ex_block])) [] = Ret (inl (-1)%Z, fp) [].
Proof. eexists. vm_compute. reflexivity. Qed.
