(* ===== verification/PolicydbIO.v ===== *)
(** A whole policy file: [policydb_read] of libsepol/src/policydb.c and
    [policydb_write] of libsepol/src/write.c, put together from the readers and
    writers of the parts, and a kernel policy that goes through the file and
    back.

    The writer is that of kernel policies from version 20 on and of modules:
    before, the rules of attributes are expanded and merged while they are
    written, which is not modelled.  The reader reads every version.  The loop
    that only warns of permissive types is left out, and the fields that only
    the compiler uses are not in the model. *)

From stdpp Require Import sorting.
From S2P Require Import Prelude Ebitmap PolicyFile Hashtab MlsTypes Avtab Policydb Mls Context Conditional Expand PolicyIO SymbolIO Ocontext ModuleIO PolicyIndex PolicyHeader CondIO.
Local Open Scope N_scope.

(** * Data *)

(** A policy: the database and the fields that only the file has to do
    with. *)
Record policy := Policy {
  po_params : write_params;
  po_handle_unknown : N; po_name : string; po_version : string;
  po_policycaps : ebitmap; po_permissive : ebitmap;
  po_db : policydb;
  po_filename_trans : list filename_trans;
  po_global : list avrule_block;
  po_scope : list (stable scope_datum);
  po_ocontexts : list (list ocontext);
  po_genfs : list genfs;
  po_arrays : arrays }.

Definition header_of (P : policy) : header :=
  Header (mls (po_db P)) (po_handle_unknown P) (po_name P) (po_version P) (po_policycaps P) (po_permissive P).

(** Assignments. *)
Definition set_mls (p : policydb) (b : bool) : policydb := {|
  mls := b; p_commons := p_commons p; p_classes := p_classes p; p_roles := p_roles p; p_types := p_types p;
  p_users := p_users p; p_bools := p_bools p; p_levels := p_levels p; p_cats := p_cats p;
  p_class_val_to_name := p_class_val_to_name p; p_role_val_to_name := p_role_val_to_name p;
  p_type_val_to_name := p_type_val_to_name p; p_user_val_to_name := p_user_val_to_name p;
  p_sens_val_to_name := p_sens_val_to_name p; p_cat_val_to_name := p_cat_val_to_name p;
  class_val_to_struct := class_val_to_struct p; role_val_to_struct := role_val_to_struct p;
  user_val_to_struct := user_val_to_struct p; type_val_to_struct := type_val_to_struct p;
  bool_val_to_struct := bool_val_to_struct p; te_avtab := te_avtab p; te_cond_avtab := te_cond_avtab p;
  cond_list := cond_list p; role_tr := role_tr p; role_allows := role_allows p; range_tr := range_tr p;
  type_attr_map := type_attr_map p; attr_type_map := attr_type_map p |}.

Definition set_rules (p : policydb) (te tab : avtab) (conds : list cond_node) (tr : list role_trans) (ra : list role_allow)
    : policydb := {|
  mls := mls p; p_commons := p_commons p; p_classes := p_classes p; p_roles := p_roles p; p_types := p_types p;
  p_users := p_users p; p_bools := p_bools p; p_levels := p_levels p; p_cats := p_cats p;
  p_class_val_to_name := p_class_val_to_name p; p_role_val_to_name := p_role_val_to_name p;
  p_type_val_to_name := p_type_val_to_name p; p_user_val_to_name := p_user_val_to_name p;
  p_sens_val_to_name := p_sens_val_to_name p; p_cat_val_to_name := p_cat_val_to_name p;
  class_val_to_struct := class_val_to_struct p; role_val_to_struct := role_val_to_struct p;
  user_val_to_struct := user_val_to_struct p; type_val_to_struct := type_val_to_struct p;
  bool_val_to_struct := bool_val_to_struct p; te_avtab := te; te_cond_avtab := tab;
  cond_list := conds; role_tr := tr; role_allows := ra; range_tr := range_tr p;
  type_attr_map := type_attr_map p; attr_type_map := attr_type_map p |}.

Definition set_ranges (p : policydb) (rt : list range_trans) (m : attr_maps) : policydb := {|
  mls := mls p; p_commons := p_commons p; p_classes := p_classes p; p_roles := p_roles p; p_types := p_types p;
  p_users := p_users p; p_bools := p_bools p; p_levels := p_levels p; p_cats := p_cats p;
  p_class_val_to_name := p_class_val_to_name p; p_role_val_to_name := p_role_val_to_name p;
  p_type_val_to_name := p_type_val_to_name p; p_user_val_to_name := p_user_val_to_name p;
  p_sens_val_to_name := p_sens_val_to_name p; p_cat_val_to_name := p_cat_val_to_name p;
  class_val_to_struct := class_val_to_struct p; role_val_to_struct := role_val_to_struct p;
  user_val_to_struct := user_val_to_struct p; type_val_to_struct := type_val_to_struct p;
  bool_val_to_struct := bool_val_to_struct p; te_avtab := te_avtab p; te_cond_avtab := te_cond_avtab p;
  cond_list := cond_list p; role_tr := role_tr p; role_allows := role_allows p; range_tr := rt;
  type_attr_map := am_attrs m; attr_type_map := am_types m |}.

(** The versions with range transitions of their own. *)
Definition has_ranges (v : write_params) : bool :=
  is_kern v && (POLICYDB_VERSION_MLS <=? policyvers v) ||
  is_base v && (MOD_POLICYDB_VERSION_MLS <=? policyvers v) && (policyvers v <? MOD_POLICYDB_VERSION_RANGETRANS).
Definition has_filename_trans (v : write_params) : bool := POLICYDB_VERSION_FILENAME_TRANS <=? policyvers v.
Definition has_bools (v : write_params) : bool := POLICYDB_VERSION_BOOL <=? policyvers v.

(** * Writing *)

(** The table of scopes of a kind of symbol. *)
Definition scope_table (P : policy) (i : nat) : M (stable scope_datum) := deref (po_scope P !! i).

Definition rules_write (parsed : avtab_ptr → bool) (num_syms : N) (P : policy) : io unit :=
  let v := po_params P in
  let p := po_db P in
  if is_kern v then
    _ ← avtab_put v (te_avtab p);
    _ ← when (has_bools v) (cond_write_list v parsed (te_cond_avtab p) (cond_list p));
    _ ← role_trans_write v (role_tr p);
    _ ← role_allow_write (role_allows p);
    when (has_filename_trans v) (filename_trans_write (po_filename_trans P))
  else
    _ ← avrule_block_write v num_syms (po_global P);
    io_list (λ i, h ← io_lift (scope_table P i); write_scopes h) (seq 0 (N.to_nat num_syms)).

(** [parsed] tells the conditional rules to write. *)
Definition policydb_write (unsupported_format : bool) (parsed : avtab_ptr → bool) (P : policy) : io unit :=
  let v := po_params P in
  let p := po_db P in
  _ ← header_write unsupported_format v (header_of P);
  match policydb_lookup_compat (policyvers v) (policy_type v) (target_platform v) with
  | None => io_fail POLICYDB_ERROR
  | Some info =>
      _ ← write_symtabs v (sym_num info) p;
      _ ← rules_write parsed (sym_num info) P;
      _ ← ocontext_write v (ocon_num info) (po_ocontexts P);
      _ ← genfs_write v (po_genfs P);
      _ ← when (has_ranges v) (range_write v (range_tr p));
      attr_maps_write v (type_attr_map p) (nprim (p_types p))
  end.

(** * Reading *)

(** A search in the symbol table of kind [i]. *)
Definition symbol_exists (p : policydb) (i : nat) (key : string) : M bool :=
  let search {D} (s : symtab D) : M bool := r ← hashtab_search (table s) key; mret (bool_decide (is_Some r)) in
  match i with
  | 0%nat => search (p_commons p) | 1%nat => search (p_classes p) | 2%nat => search (p_roles p)
  | 3%nat => search (p_types p) | 4%nat => search (p_users p) | 5%nat => search (p_bools p)
  | 6%nat => search (p_levels p) | 7%nat => search (p_cats p) | _ => ub
  end.
Definition SYM_ROLES : nat := 2.

(** [p->global->enabled->range_tr_rules = rules], when there are some. *)
Definition set_range_rules (global : list avrule_block) (rules : list range_trans_rule) : M (list avrule_block) :=
  match rules with
  | [] => mret global
  | _ :: _ =>
      b ← deref (head global);
      n ← deref (enabled b);
      d ← deref (branch_list b !! n);
      let d := AvruleDecl (decl_id d) (decl_enabled d) (decl_conds d) (decl_avrules d) (role_tr_rules d) (role_allow_rules d)
                 (filename_trans_rules d) rules (required d) (declared d) (decl_symtab d) in
      mret (AvruleBlock (<[n := d]> (branch_list b)) (enabled b) (block_flags b) :: tail global)
  end.

Section read.
Context (junk : nat → N) (mem : memory).

(** The rules of a kernel policy: with the named transitions. *)
Definition kernel_rules_read (v : write_params) (p : policydb) : io (policydb * list filename_trans) :=
  te ← avtab_get junk v (te_avtab p);
  '(conds, tab) ← (if has_bools v then cond_read_list junk v (nprim (p_bools p)) te (te_cond_avtab p)
                   else mret (cond_list p, te_cond_avtab p));
  tr ← role_trans_read v;
  ra ← role_allow_read;
  ft ← (if has_filename_trans v then filename_trans_read else mret []);
  mret (set_rules p te tab conds tr ra, ft).

(** The blocks and scopes of a module, into the tables [scopes]. *)
Definition module_rules_read (v : write_params) (num_syms : N) (p : policydb) (scopes : list (stable scope_datum))
    : io (policydb * list avrule_block * list (stable scope_datum)) :=
  '(global, tab) ← avrule_block_read v num_syms (DeclEnv (nprim (p_bools p)) (av_nel (te_avtab p)) (table (p_commons p)))
                     (te_cond_avtab p);
  scopes ← io_map (λ i, h ← io_lift (deref (scopes !! i));
                        read_scopes (i =? SYM_ROLES)%nat (symbol_exists p i) h) (seq 0 (N.to_nat num_syms));
  mret (set_rules p (te_avtab p) tab (cond_list p) (role_tr p) (role_allows p), global, scopes).

(** What follows the rules. *)
Definition contexts_read (v : write_params) (info : policydb_compat_info) (P : policy) : io policy :=
  '(p, a) ← policydb_index mem v (po_global P) (po_db P) (po_arrays P);
  oc ← ocontext_read v p (ocon_num info);
  g ← genfs_read v p (po_genfs P);
  '(rt, rules) ← (if has_ranges v then range_read v else mret ([], []));
  global ← io_lift (set_range_rules (po_global P) rules);
  m ← (if is_kern v then attr_maps_read v (type_val_to_struct p) (nprim (p_types p))
       else mret (AttrMaps (attr_type_map p) (type_attr_map p)));
  mret (Policy v (po_handle_unknown P) (po_name P) (po_version P) (po_policycaps P) (po_permissive P)
          (set_ranges p rt m) (po_filename_trans P) global (po_scope P) oc g a).

(** What [policydb_init] makes: empty tables of the sizes of [symtab_sizes], the
    role [object_r], and one block with the declaration 1 and tables of the
    sizes of avrule_block.c.  No declaration of the block is enabled. *)
Definition sized {D} (size : N) (l : list (string * D)) : symtab D :=
  let n := N.of_nat (length l) in
  let h := foldr (λ e, <[N.to_nat (symhash size e.1) := [e]]>) (replicate (N.to_nat size) []) l in
  Symtab (Some (Hashtab h size n symhash symcmp)) n.
Definition roles_init : role_datum :=
  RoleDatum OBJECT_R_VAL ebitmap_init (TypeSet ebitmap_init ebitmap_init 0) ebitmap_init 0 0 ebitmap_init.
Definition avrule_decl_create (id : N) : avrule_decl :=
  let scopes := ScopeIndex (replicate 8 ebitmap_init) [] in
  AvruleDecl id 0 [] [] [] [] [] [] scopes scopes
    (DeclTables (sized 2 []) (sized 4 []) (sized 8 []) (sized 32 []) (sized 16 []) (sized 4 []) (sized 2 []) (sized 2 [])).
Definition initial_policy : policy :=
  let no_rules := Avtab None 0 0 0 in
  Policy (WriteParams POLICY_KERN 0 SEPOL_TARGET_SELINUX) 0 "" "" ebitmap_init ebitmap_init
    (Policydb false (sized 2 []) (sized 32 []) (sized 16 [(OBJECT_R, roles_init)]) (sized 512 []) (sized 128 [])
       (sized 16 []) (sized 16 []) (sized 16 []) [] [] [] [] [] [] [] [] [] [] [] no_rules no_rules [] [] [] [] [] [])
    [] [AvruleBlock [avrule_decl_create 1] None 0]
    (table <$> [sized 2 []; sized 32 []; sized 16 [(OBJECT_R, ScopeDatum 2 [1])]; sized 512 []; sized 128 []; sized 16 [];
                sized 16 []; sized 16 []])
    (replicate 7 []) [] no_arrays.

(** Into the policy [P0] that [policydb_init] made. *)
Definition policydb_read (P0 : policy) : io policy := or_rc POLICYDB_ERROR (
  '(v, h, info) ← header_read (target_platform (po_params P0));
  p ← read_symtabs v (sym_num info) (set_mls (po_db P0) (hd_mls h));
  '(p, ft, global, scopes) ←
    (if is_kern v then
       '(p, ft) ← kernel_rules_read v p; mret (p, ft, po_global P0, po_scope P0)
     else
       '(p, global, scopes) ← module_rules_read v (sym_num info) p (po_scope P0);
       mret (p, po_filename_trans P0, global, scopes));
  contexts_read v info
    (Policy v (handle_unknown h) (hd_name h) (hd_version h) (policycaps h) (permissive_map h) p ft global scopes
       (po_ocontexts P0) (po_genfs P0) (po_arrays P0))).
End read.

(** * Tables with the same symbols *)

Definition has {D} (s : symtab D) (k : string) (d : D) : Prop := ∃ t, table s = Some t ∧ (k, d) ∈ ht_entries t.

(** [s'] has the symbols of [s], with data related by [R]. *)
Record tab_sim {D} (R : D → D → Prop) (s s' : symtab D) : Prop := {
  ts_table : ∃ t', table s' = Some t' ∧ ht_struct t';
  ts_count : nprim s' = nprim s;
  ts_there : ∀ k d, has s k d → ∃ d', has s' k d' ∧ R d d';
  ts_back : ∀ k d', has s' k d' → ∃ d, has s k d ∧ R d d' }.

Lemma has_map {D} (s : symtab D) t k d : table s = Some t → ht_struct t → has s k d ↔ ht_map t !! k = Some d.
Proof.
  intros Ht Hs. split.
  - intros (t' & Ht' & Hin). assert (t' = t) as -> by congruence. apply elem_of_list_to_map_1; [apply (wf_nodup _ Hs)|done].
  - intros Hm. exists t. split; [done|]. by apply elem_of_list_to_map_2.
Qed.

Lemma has_unique {D} (s : symtab D) t k d d' : table s = Some t → ht_struct t → has s k d → has s k d' → d = d'.
Proof. intros Ht Hs H1%(has_map _ t) H2%(has_map _ t); [congruence|done..]. Qed.

Lemma tab_sim_trans {D} (R1 R2 R3 : D → D → Prop) s1 s2 s3 :
  (∀ a b c, R1 a b → R2 b c → R3 a c) → tab_sim R1 s1 s2 → tab_sim R2 s2 s3 → tab_sim R3 s1 s3.
Proof.
  intros HR [_ N1 T1 B1] [W2 N2 T2 B2]. split; [done|congruence|..].
  - intros k d (d1 & H1 & ?)%T1. destruct (T2 k d1 H1) as (d2 & ? & ?). eauto.
  - intros k d (d1 & H1 & ?)%B2. destruct (B1 k d1 H1) as (d2 & ? & ?). eauto.
Qed.

Lemma tab_sim_mono {D} (R R' : D → D → Prop) s s' : (∀ d d', R d d' → R' d d') → tab_sim R s s' → tab_sim R' s s'.
Proof.
  intros HR [W N T B]. split; [done..| |].
  - intros k d (d' & ? & ?)%T. eauto.
  - intros k d (d' & ? & ?)%B. eauto.
Qed.

(** What a table read from the file has: the symbols written, and those the
    reader does not add because they are there. *)
Lemma read_sim {D} skipped adds (R : D → D → Prop) m0 s s' :
  symtab_sim skipped adds R m0 s s' → (∃ t, table s = Some t ∧ ht_struct t) →
  (∀ k d, has s k d → skipped d = false) →
  (∀ k d, has s k d → adds k = false → ∃ d0, m0 !! k = Some d0 ∧ R d d0) →
  (∀ k d0, m0 !! k = Some d0 → adds k = false ∧ ∃ d, has s k d) →
  tab_sim R s s'.
Proof.
  intros (Hn & t & t' & Ht & Ht' & Hw & [He Ho]) (t0 & Ht0 & Hs) Hskip Hold Hm0.
  assert (t0 = t) as -> by congruence. destruct Hw as [Hs' _].
  assert (∀ k d, has s k d → (k, d) ∈ kept skipped (ht_entries t)) as Hkept.
  { intros k d Hkd. pose proof Hkd as (t1 & Ht1 & Hin). assert (t1 = t) as -> by congruence.
    apply list_elem_of_filter. split; [by apply (Hskip k)|done]. }
  assert (∀ k d, has s k d → ∃ d', has s' k d' ∧ R d d') as Hthere.
  { intros k d Hkd. setoid_rewrite (has_map s' t') ; [|done..]. destruct (adds k) eqn:Ea; [by apply (He k d (Hkept _ _ Hkd))|].
    rewrite Ho by by right. by apply Hold. }
  split; [by exists t'|done|done|]. intros k d' Hd'.
  assert (∃ d, has s k d) as [d Hd].
  { apply (has_map s' t') in Hd'; [|done..]. destruct (decide (k ∈ (kept skipped (ht_entries t)).*1)) as [Hin|Hout].
    - apply list_elem_of_fmap in Hin as ([k1 d] & -> & Hin). apply list_elem_of_filter in Hin as [_ Hin]. exists d, t. auto.
    - rewrite Ho in Hd' by by left. by apply Hm0 in Hd' as []. }
  exists d. split; [done|]. destruct (Hthere k d Hd) as (d2 & H2 & HR). by rewrite (has_unique s' t' k d' d2).
Qed.

Section numbers.
Context {D : Type} (R : D → D → Prop) (sel : D → option N) (HR : ∀ d d', R d d' → sel d' = sel d).

Lemma numbered_sim s s' : tab_sim R s s' → numbered sel s → numbered sel s'.
Proof.
  intros [(t' & Ht' & Hs') Hn _ Hb] [(t & Ht & Hs & Hbd & Hd) Hsm]. split; [|by rewrite Hn].
  assert (∀ k d', (k, d') ∈ ht_entries t' → ∃ d, (k, d) ∈ ht_entries t ∧ sel d' = sel d) as Hback.
  { intros k d' Hin. destruct (Hb k d') as (d & (t1 & Ht1 & Hd1) & Hr); [by exists t'|]. assert (t1 = t) as -> by congruence.
    exists d. split; [done|]. by apply HR. }
  exists t'. split_and!; [done|done| |].
  - intros [k d'] v (d & Hin & Hsel)%Hback Hv. cbn in Hv. rewrite Hn. apply (Hbd (k, d) v Hin). cbn. congruence.
  - intros [k1 d1] [k2 d2] v H1 H2 Hv1 Hv2. cbn in Hv1, Hv2.
    destruct (Hback _ _ H1) as (e1 & Hin1 & Hsel1), (Hback _ _ H2) as (e2 & Hin2 & Hsel2).
    assert ((k1, e1) = (k2, e2)) as [= -> ->] by (eapply (Hd _ _ v Hin1 Hin2); cbn; congruence).
    f_equal. apply (has_unique s' t' k2); [done|done|by exists t'..].
Qed.

Lemma dense_sim s s' : tab_sim R s s' → dense sel s → dense sel s'.
Proof.
  intros [_ Hn Ht _] Hd v Hv. rewrite Hn in Hv. apply Hd in Hv as (t & k & d & Htab & Hin & Hsel).
  destruct (Ht k d) as (d' & (t' & Ht' & Hin') & Hr); [by exists t|].
  exists t', k, d'. split_and!; [done|done|]. by rewrite (HR d d' Hr).
Qed.
End numbers.

(** From the number of a symbol to the symbol and back. *)
Lemma symbol_cell {D X} (sel : D → option N) (proj : string * D → X) s arr k d v :
  indexes sel proj s arr → has s k d → sel d = Some v → arr !! N.to_nat (v - 1) = Some (Some (proj (k, d))).
Proof. intros [_ Hi] (t & Ht & Hin) Hv. by eapply Hi. Qed.

Lemma cell_symbol {D X} (sel : D → option N) (proj : string * D → X) s arr v x :
  indexes sel proj s arr → dense sel s → in_range v (nprim s) → arr !! N.to_nat (v - 1) = Some (Some x) →
  ∃ k d, has s k d ∧ sel d = Some v ∧ x = proj (k, d).
Proof.
  intros Hi Hd (t & k & d & Ht & Hin & Hv)%Hd Hx. assert (has s k d) as Hkd by by exists t.
  rewrite (symbol_cell sel proj s arr k d v Hi Hkd Hv) in Hx. injection Hx as <-. by exists k, d.
Qed.

(** * Contexts of a loaded policy *)

(** A loaded kernel policy: the arrays agree with the tables, the cache of a
    role has the types of its set and that of a user the roles of its set, and
    the numbers of roles, users and sensitivities have no gaps. *)
Record loaded (p : policydb) (a : arrays) (levels : hashtab string level_datum) : Prop := {
  ld_indexed : indexed p a;
  ld_rbac : rbac_policy_wf p;
  ld_mls : mls_policy_wf p levels;
  ld_dense : dense (λ d, Some (role_value d)) (p_roles p) ∧ dense (λ d, Some (user_value d)) (p_users p) ∧
             dense sens_number (p_levels p);
  ld_roles : ∀ k d, has (p_roles p) k d →
    ebitmap_wf (role_cache d) ∧ ∀ x, ebitmap_bit (role_cache d) x = true ↔ ebitmap_bit (ts_types (role_types d)) x = true;
  ld_users : ∀ k d, has (p_users p) k d →
    ebitmap_wf (user_cache d) ∧ ∀ x, ebitmap_bit (user_cache d) x = true ↔ ebitmap_bit (rs_roles (user_roles d)) x = true }.

(** What the tables say of the roles of a context. *)
Definition may_have (p : policydb) (c : context_struct) : Prop :=
  role c = OBJECT_R_VAL ∨
  ∃ kr rd ku ud, has (p_roles p) kr rd ∧ has (p_users p) ku ud ∧ role_value rd = role c ∧ user_value ud = user c ∧
    ebitmap_bit (ts_types (role_types rd)) (type c - 1) = true ∧ ebitmap_bit (rs_roles (user_roles ud)) (role c - 1) = true.

Definition level_declared (p : policydb) (l : mls_level) : Prop :=
  in_range (sens l) (nprim (p_levels p)) ∧
  ∃ name d, has (p_levels p) name d ∧ sens_number d = Some (sens l) ∧
    ∀ i, ebitmap_bit (cat l) i = true → i ≤ nprim (p_cats p) ∧ ebitmap_bit (cat (level d)) i = true.

Definition range_declared (p : policydb) (c : context_struct) : Prop :=
  mls_level_dom (level1 (range c)) (level0 (range c)) = true ∧
  level_declared p (level0 (range c)) ∧ level_declared p (level1 (range c)) ∧
  (role c = OBJECT_R_VAL ∨ ∃ ku ud, has (p_users p) ku ud ∧ user_value ud = user c ∧
     mls_range_contains (exp_range ud) (range c) = true).

(** A context is valid by the tables alone. *)
Definition declared_valid (p : policydb) (c : context_struct) : Prop :=
  in_range (role c) (nprim (p_roles p)) ∧ in_range (user c) (nprim (p_users p)) ∧ in_range (type c) (nprim (p_types p)) ∧
  may_have p c ∧ (mls p = true → range_declared p c).

(** [context_is_valid] without MLS. *)
Lemma context_valid_no_mls p c o :
  rbac_policy_wf p → mls p = false →
  ∃ b, context_is_valid p c o = Ret b o ∧
    (b = true ↔ in_range (role c) (nprim (p_roles p)) ∧ in_range (user c) (nprim (p_users p)) ∧
                in_range (type c) (nprim (p_types p)) ∧ roles_authorized p c).
Proof.
  intros [(Hnr & Hnu & Hnt) Hroles Husers] Hmls. unfold context_is_valid, mls_context_isvalid. rewrite Hmls. cbn [negb].
  destruct ((role c =? 0) || _) eqn:Er.
  { exists false. do 2 (split; [done|]). intros (Hx%in_range_test & _). congruence. }
  destruct ((user c =? 0) || _) eqn:Eu.
  { exists false. do 2 (split; [done|]). intros (_ & Hx%in_range_test & _). congruence. }
  destruct ((type c =? 0) || _) eqn:Et.
  { exists false. do 2 (split; [done|]). intros (_ & _ & Hx%in_range_test & _). congruence. }
  apply in_range_test in Er as Hr, Eu as Hu, Et as Ht. clear Er Eu Et. unfold roles_authorized. rewrite bind_run.
  destruct (N.eqb_spec (role c) OBJECT_R_VAL) as [Hobj|Hobj]; cbn [negb].
  { exists true. split; [done|]. tauto. }
  destruct (Hroles (role c) (proj1 Hr) (proj2 Hr)) as (rd & Hrd & Hrw).
  destruct (Husers (user c) (proj1 Hu) (proj2 Hu)) as (ud & Hud & Huw).
  destruct Hr, Hu, Ht. rewrite !dec32_pred by lia. rewrite bind_run, (at_ptr_ok _ _ _ _ Hrd), !get_bit_wf by done.
  destruct (ebitmap_bit (role_cache rd) (type c - 1)) eqn:E1; cbn [negb].
  - rewrite bind_run, Hud. cbn [deref]. unfold mret, M_ret. rewrite get_bit_wf by done.
    destruct (ebitmap_bit (user_cache ud) (role c - 1)) eqn:E2; cbn [negb].
    + exists true. split; [done|]. split; [|done]. intros _. split_and!; try done. right. by exists rd, ud.
    + exists false. split; [done|]. split; [done|]. intros (_ & _ & _ & [?|(r & u & Hr' & Hu' & _ & ?)]); [done|]. congruence.
  - exists false. split; [done|]. split; [done|]. intros (_ & _ & _ & [?|(r & u & Hr' & Hu' & ? & _)]); [done|]. congruence.
Qed.

Section loaded.
Context (p : policydb) (a : arrays) (levels : hashtab string level_datum) (Hp : loaded p a levels).

Lemma may_have_spec c :
  in_range (role c) (nprim (p_roles p)) → in_range (user c) (nprim (p_users p)) → roles_authorized p c ↔ may_have p c.
Proof.
  intros Hr Hu. destruct (ld_dense _ _ _ Hp) as (Dr & Du & _). unfold roles_authorized, may_have. split.
  - intros [?|(rd & ud & Hrd & Hud & Ht & Hro)]; [by left|right].
    destruct (cell_symbol _ snd _ _ _ _ (ix_roles _ _ (ld_indexed _ _ _ Hp)) Dr Hr Hrd) as (kr & rd' & Hkr & [= Hv] & ->).
    destruct (cell_symbol _ snd _ _ _ _ (ix_users _ _ (ld_indexed _ _ _ Hp)) Du Hu Hud) as (ku & ud' & Hku & [= Hw] & ->).
    cbn in *. exists kr, rd', ku, ud'. split_and!; try done; [by apply (ld_roles _ _ _ Hp kr)|by apply (ld_users _ _ _ Hp ku)].
  - intros [?|(kr & rd & ku & ud & Hkr & Hku & Hv & Hw & Ht & Hro)]; [by left|right]. exists rd, ud. split_and!.
    + apply (symbol_cell (λ d, Some (role_value d)) snd _ _ kr rd _ (ix_roles _ _ (ld_indexed _ _ _ Hp)) Hkr). by rewrite Hv.
    + apply (symbol_cell (λ d, Some (user_value d)) snd _ _ ku ud _ (ix_users _ _ (ld_indexed _ _ _ Hp)) Hku). by rewrite Hw.
    + by apply (ld_roles _ _ _ Hp kr).
    + by apply (ld_users _ _ _ Hp ku).
Qed.

Lemma level_declared_spec l : level_authorized p levels l ↔ level_declared p l.
Proof.
  destruct (ld_dense _ _ _ Hp) as (_ & _ & Ds). destruct (ld_mls _ _ _ Hp) as [Ht Hs _ _ _ _].
  unfold level_authorized, level_declared. split.
  - intros (H0 & H1 & name & d & Hn & Hd & Hc). split; [done|].
    destruct (cell_symbol sens_number fst _ _ _ _ (ix_sens _ _ (ld_indexed _ _ _ Hp)) Ds (conj H0 H1) Hn) as (k & d' & Hk & Hv & ->).
    cbn in *. exists k, d'. split; [done|]. split; [done|]. apply (has_map _ levels) in Hk; [|done..].
    by assert (d' = d) as -> by congruence.
  - intros ([H0 H1] & name & d & Hk & Hv & Hc). do 2 (split; [done|]). exists name, d.
    split; [by apply (symbol_cell sens_number fst _ _ name d _ (ix_sens _ _ (ld_indexed _ _ _ Hp)))|].
    split; [by apply (has_map (p_levels p) levels)|done].
Qed.

Lemma range_declared_spec c : in_range (user c) (nprim (p_users p)) → context_authorized p levels c ↔ range_declared p c.
Proof.
  intros Hu. destruct (ld_dense _ _ _ Hp) as (_ & Du & _). unfold context_authorized, range_declared.
  rewrite !level_declared_spec. split; intros (Hd & H0 & H1 & Hr); (do 3 (split; [done|])).
  - destruct Hr as [?|(_ & _ & u & Hc & Hin)]; [by left|right].
    destruct (cell_symbol _ snd _ _ _ _ (ix_users _ _ (ld_indexed _ _ _ Hp)) Du Hu Hc) as (ku & ud & Hku & [= Hw] & ->).
    by exists ku, ud.
  - destruct Hr as [?|(ku & ud & Hku & Hw & Hin)]; [by left|right]. destruct Hu. do 2 (split; [done|]). exists ud. split; [|done].
    apply (symbol_cell (λ d, Some (user_value d)) snd _ _ ku ud _ (ix_users _ _ (ld_indexed _ _ _ Hp)) Hku). by rewrite Hw.
Qed.

(** The check of a context decides what the tables say. *)
Lemma valid_declared c o :
  range_wf (range c) → ∃ b, policydb_context_isvalid p c o = Ret b o ∧ (b = true ↔ declared_valid p c).
Proof.
  intros Hr. unfold policydb_context_isvalid, declared_valid. destruct (mls p) eqn:Em.
  - destruct (context_valid_spec p levels c o) as (b & Hb & Hv); [apply Hp..|done|done|].
    exists b. split; [done|]. rewrite Hv. split.
    + intros (H1 & H2 & H3 & H4 & H5). split_and!; try done; [by apply may_have_spec|]. intros _. by apply range_declared_spec.
    + intros (H1 & H2 & H3 & H4 & H5). split_and!; try done; [by apply may_have_spec|]. apply range_declared_spec; auto.
  - destruct (context_valid_no_mls p c o) as (b & Hb & Hv); [apply Hp|done|].
    exists b. split; [done|]. rewrite Hv. split.
    + intros (H1 & H2 & H3 & H4). split_and!; try done. by apply may_have_spec.
    + intros (H1 & H2 & H3 & H4 & _). split_and!; try done. by apply may_have_spec.
Qed.
End loaded.

(** ** Two policies with the same symbols *)

Definition role_same (d d' : role_datum) : Prop :=
  role_value d' = role_value d ∧ ts_types (role_types d') = ts_types (role_types d).
Definition user_same (d d' : user_datum) : Prop :=
  user_value d' = user_value d ∧ rs_roles (user_roles d') = rs_roles (user_roles d) ∧ exp_range d' = exp_range d.

Record same_rbac (p p' : policydb) : Prop := {
  sr_mls : mls p' = mls p;
  sr_roles : tab_sim role_same (p_roles p) (p_roles p');
  sr_users : tab_sim user_same (p_users p) (p_users p');
  sr_types : nprim (p_types p') = nprim (p_types p);
  sr_levels : tab_sim (λ d d', d' = d) (p_levels p) (p_levels p');
  sr_cats : nprim (p_cats p') = nprim (p_cats p) }.

Lemma level_declared_same p p' l : same_rbac p p' → level_declared p l ↔ level_declared p' l.
Proof.
  intros [_ _ _ _ [_ Hn Ht Hb] Hc]. unfold level_declared. rewrite Hn, Hc. split; intros (? & name & d & Hd & ? & ?); (split; [done|]).
  - destruct (Ht name d Hd) as (d2 & ? & E). cbn in E. subst d2. by exists name, d.
  - destruct (Hb name d Hd) as (d2 & ? & E). cbn in E. subst d2. by exists name, d.
Qed.

Lemma declared_same p p' c : same_rbac p p' → declared_valid p c ↔ declared_valid p' c.
Proof.
  intros Hs. pose proof Hs as [Hm [_ Nr Tr Br] [_ Nu Tu Bu] Nt _ _]. unfold declared_valid, may_have, range_declared.
  rewrite Nr, Nu, Nt, Hm, !(level_declared_same p p' _ Hs). split; intros (H1 & H2 & H3 & H4 & H5); split_and!; try done.
  - destruct H4 as [?|(kr & rd & ku & ud & Hr & Hu & <- & <- & ? & ?)]; [by left|right].
    destruct (Tr _ _ Hr) as (rd' & ? & Ev & Et), (Tu _ _ Hu) as (ud' & ? & Ew & Ero & _).
    exists kr, rd', ku, ud'. rewrite Et, Ero. by split_and!.
  - intros (? & ? & ? & [?|(ku & ud & Hu & <- & ?)])%H5; split_and!; try done; [by left|right].
    destruct (Tu _ _ Hu) as (ud' & ? & Ew & _ & Ex). exists ku, ud'. rewrite Ex. by split_and!.
  - destruct H4 as [?|(kr & rd & ku & ud & Hr & Hu & <- & <- & ? & ?)]; [by left|right].
    destruct (Br _ _ Hr) as (rd' & ? & Ev & Et), (Bu _ _ Hu) as (ud' & ? & Ew & Ero & _).
    exists kr, rd', ku, ud'. rewrite <- Et, <- Ero. by split_and!.
  - intros (? & ? & ? & [?|(ku & ud & Hu & <- & ?)])%H5; split_and!; try done; [by left|right].
    destruct (Bu _ _ Hu) as (ud' & ? & Ew & _ & Ex). exists ku, ud'. rewrite <- Ex. by split_and!.
Qed.

Lemma valid_same p a levels p' a' levels' c o :
  loaded p a levels → loaded p' a' levels' → same_rbac p p' → range_wf (range c) →
  policydb_context_isvalid p' c o = policydb_context_isvalid p c o.
Proof.
  intros Hp Hp' Hs Hr. destruct (valid_declared p a levels Hp c o Hr) as (b & -> & Hb).
  destruct (valid_declared p' a' levels' Hp' c o Hr) as (b' & -> & Hb').
  f_equal. apply eq_true_iff_eq. rewrite Hb, Hb'. symmetry. by apply declared_same.
Qed.

(** * Conflicts with a table that was read back *)

Lemma insert_ok_table te te' rs ts r :
  avtab_entries te' ≡ₚ unmerged <$> avtab_entries te → insert_ok te rs ts r → insert_ok te' rs ts r.
Proof.
  intros Hp Hok Hty. destruct (Hok Hty) as (Hf & ? & ?). split; [|done]. rewrite Hp. by apply Forall_fmap.
Qed.

Lemma list_ok_table te te' rs ts l :
  avtab_entries te' ≡ₚ unmerged <$> avtab_entries te → list_ok te rs ts l → list_ok te' rs ts l.
Proof.
  intros Hp. revert rs. induction l as [|r l IH]; intros rs; [done|]. intros [H1 H2]. split; [by eapply insert_ok_table|by apply IH].
Qed.

Lemma blocks_ok_table v n te te' rs bs :
  avtab_entries te' ≡ₚ unmerged <$> avtab_entries te → blocks_ok v n te rs bs → blocks_ok v n te' rs bs.
Proof.
  intros Hp. revert rs. induction bs as [|b bs IH]; intros rs; [done|]. intros [(H1 & H2 & H3 & H4 & H5 & H6) H].
  split; [|by apply IH].
  by split_and!; [..|by eapply list_ok_table|by eapply list_ok_table]; try apply H1.
Qed.

(** * A kernel policy *)

(** What has to hold of a policy [P] that is written, and of the empty policy
    [P0] it is read into; [bs] are the conditional blocks with their rules. *)
Record kernel_ok (parsed : avtab_ptr → bool) (P0 P : policy) (info : policydb_compat_info) (bs : list block)
    (levels : hashtab string level_datum) : Prop := {
  ko_kern : policy_type (po_params P) = POLICY_KERN;
  ko_vers : POLICYDB_VERSION_BOUNDARY ≤ policyvers (po_params P);
  ko_header : header_ok (po_params P) info (header_of P);
  ko_symbols : symbols_ok (po_params P) (po_db P);
  ko_index : index_ready (po_global P0) (po_db P);
  ko_loaded : loaded (po_db P) (po_arrays P) levels;
  (* Attributes have been expanded: there are no role attributes, and roles
     list types. *)
  ko_roles : ∀ k d, has (p_roles (po_db P)) k d → role_flavor d ≠ ROLE_ATTRIB;
  ko_plain : ∀ k d i, has (p_roles (po_db P)) k d → ebitmap_bit (ts_types (role_types d)) i = true →
    ∃ kt td, has (p_types (po_db P)) kt td ∧ type_number td = Some (i + 1) ∧ flavor td ≠ TYPE_ATTRIB;
  (* The rules. *)
  ko_te : table_ok (po_params P) (te_avtab (po_db P));
  ko_conds : Forall2 (node_block parsed (te_cond_avtab (po_db P))) (cond_list (po_db P)) bs;
  ko_blocks : N.of_nat (length bs) < 2 ^ 31 ∧ rules_writable (po_params P) (bs ≫= block_rules) ∧
    blocks_ok (po_params P) (nprim (p_bools (po_db P))) (te_avtab (po_db P)) [] bs;
  ko_trans : role_trans_ok (role_tr (po_db P)) ∧ role_allow_ok (role_allows (po_db P)) ∧
    filename_trans_ok (po_filename_trans P) ∧ range_trans_ok (range_tr (po_db P));
  (* Object contexts, valid in this policy. *)
  ko_ocontexts : ocontexts_ok (po_params P) (po_db P) (ocon_num info) (po_ocontexts P);
  ko_genfs : genfs_ok (po_params P) (po_db P) (po_genfs P);
  ko_maps : N.of_nat (length (type_attr_map (po_db P))) = nprim (p_types (po_db P)) ∧
    Forall (map_ok (nprim (p_types (po_db P)))) (type_attr_map (po_db P));
  (* The policy read into has the role [object_r] and nothing else. *)
  ko_fresh : fresh_policy (po_db P0);
  ko_object_r : ∃ d, has (p_roles (po_db P)) OBJECT_R d ∧
    has (p_roles (po_db P0)) OBJECT_R (role_norm (po_params P) d);
  ko_empty : po_genfs P0 = [] ∧ target_platform (po_params P0) = SEPOL_TARGET_SELINUX }.

Lemma role_skipped_norm v d : is_kern v = true → role_flavor d ≠ ROLE_ATTRIB → role_skipped v d = false.
Proof. intros Hk Hf. unfold role_skipped. by rewrite (proj2 (N.eqb_neq _ _) Hf). Qed.

(** The symbols as they are read, before they are indexed. *)
Record read_back (v : write_params) (p p1 : policydb) : Prop := {
  rb_commons : tab_sim common_sim (p_commons p) (p_commons p1);
  rb_classes : ∃ tc, table (p_commons p1) = Some tc ∧ tab_sim (class_sim v tc) (p_classes p) (p_classes p1);
  rb_roles : tab_sim (λ d d', d' = role_norm v d) (p_roles p) (p_roles p1);
  rb_types : tab_sim (λ d d', d' = type_norm v d) (p_types p) (p_types p1);
  rb_users : tab_sim (λ d d', d' = user_norm v d) (p_users p) (p_users p1);
  rb_bools : tab_sim (λ d d', d' = bool_norm v d) (p_bools p) (p_bools p1);
  rb_levels : tab_sim (λ d d', d' = d) (p_levels p) (p_levels p1);
  rb_cats : tab_sim (λ d d', d' = d) (p_cats p) (p_cats p1) }.

Lemma symtab_struct {D} (ok : string → D → Prop) s : symtab_ok ok s → ∃ t, table s = Some t ∧ ht_struct t.
Proof. intros (_ & t & Ht & [Hs _] & _). by exists t. Qed.

Lemma fresh_no_entry {D} (s : symtab D) k (d : D) : fresh (λ _, True) s → symtab_map s !! k = Some d → False.
Proof. intros (t & Ht & _ & Hn). unfold symtab_map. rewrite Ht, Hn by done. done. Qed.

(** A table that starts empty. *)
Lemma read_sim_fresh {D} (R : D → D → Prop) (ok : string → D → Prop) s0 s s' :
  symtab_sim all_kept all_added R (symtab_map s0) s s' → symtab_ok ok s → fresh (λ _, True) s0 → tab_sim R s s'.
Proof.
  intros Hs Hok Hf. eapply read_sim; [exact Hs|by eapply symtab_struct|done|done|].
  intros k d0 Hm. destruct (fresh_no_entry _ _ _ Hf Hm).
Qed.

Section kernel.
Context (parsed : avtab_ptr → bool) (P0 P : policy) (info : policydb_compat_info) (bs : list block).
Context (levels : hashtab string level_datum) (Hok : kernel_ok parsed P0 P info bs levels).

#[local] Abbreviation v := (po_params P).
#[local] Abbreviation p := (po_db P).

Lemma kernel_params : is_kern v = true ∧ is_mod v = false ∧ is_base v = false.
Proof. unfold is_kern, is_mod, is_base. by rewrite (ko_kern _ _ _ _ _ _ Hok). Qed.

Lemma kernel_since n : n ≤ POLICYDB_VERSION_BOUNDARY → (n <=? policyvers v) = true.
Proof. intros Hn. apply N.leb_le. pose proof (ko_vers _ _ _ _ _ _ Hok). lia. Qed.

Lemma kernel_features : policydb_has_boundary_feature v = true ∧ user_expanded v = true ∧ has_mls v = true ∧
  has_ranges v = true ∧ has_bools v = true ∧ type_skipped v = all_kept.
Proof.
  destruct kernel_params as (Hk & Hm & Hb).
  unfold policydb_has_boundary_feature, user_expanded, has_mls, since, has_ranges, has_bools.
  rewrite Hk, !kernel_since by done. split_and!; try done.
  unfold type_skipped. rewrite Hk. pose proof (kernel_since POLICYDB_VERSION_BOUNDARY ltac:(done)) as H.
  apply N.leb_le, N.ltb_ge in H. rewrite H. done.
Qed.

Lemma kernel_read_back p0 p1 : p0 = set_mls (po_db P0) (mls p) → symbols_sim v 8 p0 p p1 → read_back v p p1.
Proof.
  intros -> [Hco (tc & Htc & Hcl) Hro Hty Hus Hbo Hle Hca Hrest].
  destruct (ko_symbols _ _ _ _ _ _ Hok) as [Sco Scl Sro Sty Sus Sbo Sle Sca].
  destruct (ko_fresh _ _ _ _ _ _ Hok) as [Fco Fcl Fro Fty Fus Fbo Fle Fca].
  destruct kernel_params as (Hk & _). destruct kernel_features as (_ & _ & _ & _ & _ & Hts).
  change (5 <? 8) with true in Hbo. change (6 <? 8) with true in Hle. change (7 <? 8) with true in Hca. cbv iota in Hbo, Hle, Hca.
  split; try by eapply read_sim_fresh.
  - exists tc. split; [done|]. destruct (proj2 Sco) as (tco & Tco & _). eapply read_sim_fresh; [exact Hcl|by apply (Scl tco)|done].
  - eapply read_sim; [exact Hro|by eapply symtab_struct|..].
    + intros k d Hd. apply role_skipped_norm; [done|]. by eapply (ko_roles _ _ _ _ _ _ Hok).
    + intros k d Hd Ha. apply negb_false_iff, String.eqb_eq in Ha as ->.
      destruct (ko_object_r _ _ _ _ _ _ Hok) as (d1 & H1 & H0). destruct (symtab_struct _ _ Sro) as (t & Ht & Hs).
      assert (d = d1) as -> by (by eapply has_unique). exists (role_norm v d1). split; [|done].
      destruct Fro as (t0 & Ht0 & [Hs0 _] & _). unfold symtab_map. cbn. rewrite Ht0. by apply (has_map (p_roles (po_db P0))).
    + intros k d0 Hm. destruct Fro as (t0 & Ht0 & _ & Hn). unfold symtab_map in Hm. cbn in Hm. rewrite Ht0 in Hm.
      destruct (decide (k = OBJECT_R)) as [->|Hne]; [|by rewrite Hn in Hm]. split; [done|].
      destruct (ko_object_r _ _ _ _ _ _ Hok) as (d1 & H1 & _). by exists d1.
  - rewrite Hts in Hty. by eapply read_sim_fresh.
Qed.

Lemma type_number_norm d : type_number (type_norm v d) = type_number d.
Proof.
  destruct kernel_features as (Hb & _). destruct kernel_params as (Hk & _). unfold type_number, type_norm. rewrite Hb. cbn.
  unfold has_alias. rewrite Hk. cbn. by destruct (truth (primary d)).
Qed.

Lemma read_declared p1 i : read_back v p p1 → declared_type p i → declared_type p1 i.
Proof.
  intros Hrb (t & k & d & Ht & Hin & Hd). destruct (ts_there _ _ _ (rb_types _ _ _ Hrb) k d) as (d' & (t' & Ht' & Hin') & ->); [by exists t|].
  exists t', k, (type_norm v d). by rewrite type_number_norm.
Qed.

Lemma kernel_index_ready p1 : read_back v p p1 → index_ready (po_global P0) p1.
Proof.
  intros Hrb. pose proof Hrb as [Rco (tc & Htc & Rcl) Rro Rty Rus Rbo Rle Rca]. destruct kernel_params as (Hk & _).
  destruct (ko_index _ _ _ _ _ _ Hok) as [Idc Ico Icl Iro Ity Ius Ibo Ise Ica (Dcl & Dro & Dus & Dle) Irt Iur Itc Iat Ilc].
  split; [done|..].
  - eapply numbered_sim; [|exact Rco|done]. by intros d d' [-> _].
  - eapply numbered_sim; [|exact Rcl|done]. by intros d d' [-> _].
  - eapply numbered_sim; [|exact Rro|done]. by intros d d' ->.
  - eapply numbered_sim; [|exact Rty|done]. intros d d' ->. apply type_number_norm.
  - eapply numbered_sim; [|exact Rus|done]. by intros d d' ->.
  - eapply numbered_sim; [|exact Rbo|done]. by intros d d' ->.
  - eapply numbered_sim; [|exact Rle|done]. by intros d d' ->.
  - eapply numbered_sim; [|exact Rca|done]. by intros d d' ->.
  - split_and!.
    + eapply dense_sim; [|exact Rcl|done]. by intros d d' [-> _].
    + eapply dense_sim; [|exact Rro|done]. by intros d d' ->.
    + eapply dense_sim; [|exact Rus|done]. by intros d d' ->.
    + eapply dense_sim; [|exact Rle|done]. by intros d d' ->.
  - intros t k d Ht Hin. destruct (ts_back _ _ _ Rro k d) as (d0 & (t0 & Ht0 & Hin0) & ->); [by exists t|].
    destruct (Irt t0 k d0 Ht0 Hin0) as (Hw & _ & Hd & _). unfold role_norm. rewrite Hk. cbn.
    split; [done|]. split; [apply ebitmap_init_wf|]. split; [|done]. intros i Hi. by apply read_declared, Hd.
  - intros t k d Ht Hin. destruct (ts_back _ _ _ Rus k d) as (d0 & (t0 & Ht0 & Hin0) & ->); [by exists t|].
    destruct (Iur t0 k d0 Ht0 Hin0) as (_ & Hw). unfold user_norm. by rewrite Hk.
  - by rewrite (ts_count _ _ _ Rty).
  - intros t k d Ht Hin _ _. destruct (ts_back _ _ _ Rty k d) as (d0 & _ & ->); [by exists t|].
    destruct kernel_features as (Hb & _). unfold type_norm. rewrite Hb, Hk. cbn. split; [apply ebitmap_init_wf|done].
  - intros t k d Ht Hin. destruct (ts_back _ _ _ Rle k d) as (d0 & (t0 & Ht0 & Hin0) & ->); [by exists t|]. by eapply Ilc.
Qed.

(** ** Loading *)

Lemma type_in_plain (q : policydb) ts x :
  (∀ i, ebitmap_bit ts i = true → ∃ td, type_at q i = Some td ∧ flavor td ≠ TYPE_ATTRIB) →
  type_in q true (TypeSet ts ebitmap_init 0) x ↔ ebitmap_bit ts x = true.
Proof.
  intros Hp. unfold type_in, plain_type, expands. cbn [ts_flags ts_types ts_negset orb]. change (truth (N.land 0 _)) with false. cbv iota.
  unfold in_set, member. split.
  - intros [(i & Hi & Hm) _]. destruct (Hp i Hi) as (td & Htd & Hf). rewrite Htd, (proj2 (N.eqb_neq _ _) Hf) in Hm. by subst x.
  - intros Hx. split; [|by intros (i & Hi & _)]. exists x. split; [done|]. destruct (Hp x Hx) as (td & Htd & Hf).
    by rewrite Htd, (proj2 (N.eqb_neq _ _) Hf).
Qed.

Definition role_back (d d' : role_datum) : Prop :=
  ∃ e, d' = role_set_cache (role_norm v d) e ∧ ebitmap_wf e ∧
    ∀ x, ebitmap_bit e x = true ↔ ebitmap_bit (ts_types (role_types d)) x = true.
Definition user_back (d d' : user_datum) : Prop :=
  ∃ e, d' = user_set_expanded (user_norm v d) e (exp_range d) (exp_dfltlevel d) ∧ ebitmap_wf e ∧
    ∀ x, ebitmap_bit e x = true ↔ ebitmap_bit (rs_roles (user_roles d)) x = true.

(** The symbols as they are loaded: the caches are computed anew. *)
Record symbols_back (p2 : policydb) : Prop := {
  sb_commons : tab_sim common_sim (p_commons p) (p_commons p2);
  sb_classes : ∃ tc, table (p_commons p2) = Some tc ∧ tab_sim (class_sim v tc) (p_classes p) (p_classes p2);
  sb_roles : tab_sim role_back (p_roles p) (p_roles p2);
  sb_types : tab_sim (λ d d', d' = type_norm v d) (p_types p) (p_types p2);
  sb_users : tab_sim user_back (p_users p) (p_users p2);
  sb_bools : tab_sim (λ d d', d' = bool_norm v d) (p_bools p) (p_bools p2);
  sb_levels : tab_sim (λ d d', d' = d) (p_levels p) (p_levels p2);
  sb_cats : tab_sim (λ d d', d' = d) (p_cats p) (p_cats p2) }.

Lemma cached_sim {D} (R : D → D → Prop) s s' : (∃ t, table s = Some t ∧ ht_struct t) → data_cached R s s' → tab_sim R s s'.
Proof.
  intros (t & Ht & Hs) (t1 & t' & Ht1 & Ht' & Hn & Hs' & Hall). assert (t1 = t) as -> by congruence.
  split; [by exists t'|done|..].
  - intros k d Hd. apply (has_map s t) in Hd; [|done..]. specialize (Hall k). rewrite Hd in Hall.
    destruct Hall as (d' & Hd' & Hr). exists d'. split; [|done]. by apply (has_map s' t').
  - intros k d' Hd'. apply (has_map s' t') in Hd'; [|done..]. specialize (Hall k).
    destruct (ht_map t !! k) as [d|] eqn:Hd; [|congruence]. destruct Hall as (d2 & Hd2 & Hr).
    exists d. split; [by apply (has_map s t)|]. congruence.
Qed.

(** Roles list plain types where the policy is read. *)
Lemma read_plain p1 p2 a2 d i kr :
  read_back v p p1 → caches_of p1 p2 → indexed p2 a2 → has (p_roles p) kr d →
  ebitmap_bit (ts_types (role_types d)) i = true → ∃ td, type_at p2 i = Some td ∧ flavor td ≠ TYPE_ATTRIB.
Proof.
  intros Hrb Hc Hix Hd Hi. destruct (ko_plain _ _ _ _ _ _ Hok kr d i Hd Hi) as (kt & td & Htd & Hnum & Hf).
  destruct (ts_there _ _ _ (rb_types _ _ _ Hrb) kt td Htd) as (td' & Htd' & ->). rewrite <- (cc_types _ _ Hc) in Htd'.
  exists (type_norm v td). split.
  - unfold type_at. pose proof (symbol_cell type_number snd _ _ kt (type_norm v td) (i + 1) (ix_types _ _ Hix) Htd') as Hcell.
    rewrite N.add_sub in Hcell. rewrite Hcell; [done|]. by rewrite type_number_norm.
  - destruct kernel_features as (Hb & _). destruct kernel_params as (Hk & _). unfold type_norm. rewrite Hb, Hk. cbn.
    rewrite (proj2 (N.eqb_neq _ _) Hf), andb_false_r. done.
Qed.

Lemma kernel_symbols_back p1 p2 a2 : read_back v p p1 → caches_of p1 p2 → indexed p2 a2 → symbols_back p2.
Proof.
  intros Hrb Hc Hix. pose proof Hrb as [Rco Rcl Rro Rty Rus Rbo Rle Rca]. destruct kernel_params as (Hk & _).
  destruct kernel_features as (_ & Hue & _). pose proof Hc as [Cro Cus Eco Ecl Ety Ebo Ele Eca _].
  split; rewrite ?Eco, ?Ecl, ?Ety, ?Ebo, ?Ele, ?Eca; try done.
  - pose proof (cached_sim _ _ _ (ts_table _ _ _ Rro) Cro) as [Ht Hn Hth Hba]. split; [done|by rewrite Hn, (ts_count _ _ _ Rro)|..].
    + intros k d Hd. destruct (ts_there _ _ _ Rro k d Hd) as (d1 & Hd1 & ->).
      destruct (Hth k _ Hd1) as (d2 & Hd2 & e & -> & Hw & He). exists (role_set_cache (role_norm v d) e). split; [done|].
      exists e. split; [done|]. split; [done|]. intros x. rewrite He. unfold role_norm. rewrite Hk. cbn [role_types].
      apply type_in_plain. intros i. by eapply read_plain.
    + intros k d2 Hd2. destruct (Hba k _ Hd2) as (d1 & Hd1 & e & -> & Hw & He).
      destruct (ts_back _ _ _ Rro k d1 Hd1) as (d & Hd & ->). exists d. split; [done|].
      exists e. split; [done|]. split; [done|]. intros x. rewrite He. unfold role_norm. rewrite Hk. cbn [role_types].
      apply type_in_plain. intros i. by eapply read_plain.
  - pose proof (cached_sim _ _ _ (ts_table _ _ _ Rus) Cus) as Cs.
    eapply tab_sim_trans; [|exact Rus|exact Cs]. intros d d1 d2 -> (e & -> & Hw & He). exists e.
    unfold user_norm in *. rewrite Hk, Hue in *. by split_and!.
Qed.

Lemma role_back_same d d' : role_back d d' → role_same d d'.
Proof. intros (e & -> & _). destruct kernel_params as (Hk & _). unfold role_norm. by rewrite Hk. Qed.
Lemma user_back_same d d' : user_back d d' → user_same d d'.
Proof. intros (e & -> & _). destruct kernel_params as (Hk & _). unfold user_norm. by rewrite Hk. Qed.

Lemma kernel_same_rbac p2 : symbols_back p2 → mls p2 = mls p → same_rbac p p2.
Proof.
  intros [_ _ Rro Rty Rus _ Rle Rca] Hm. split; [done| | |by apply Rty|done|by apply Rca].
  - eapply tab_sim_mono; [apply role_back_same|done].
  - eapply tab_sim_mono; [apply user_back_same|done].
Qed.

Lemma kernel_loaded p2 a2 levels2 :
  symbols_back p2 → indexed p2 a2 → rbac_policy_wf p2 → mls_policy_wf p2 levels2 → loaded p2 a2 levels2.
Proof.
  intros [_ _ Rro _ Rus _ Rle _] Hix Hr Hm. destruct (ld_dense _ _ _ (ko_loaded _ _ _ _ _ _ Hok)) as (Dr & Du & Dl).
  destruct kernel_params as (Hk & _). split; [done..| | |].
  - split_and!; [eapply dense_sim; [|exact Rro|done]|eapply dense_sim; [|exact Rus|done]|eapply dense_sim; [|exact Rle|done]].
    + by intros d d' (e & -> & _).
    + by intros d d' (e & -> & _).
    + by intros d d' ->.
  - intros k d2 Hd2. destruct (ts_back _ _ _ Rro k d2 Hd2) as (d & _ & e & -> & Hw & He). unfold role_norm. by rewrite Hk.
  - intros k d2 Hd2. destruct (ts_back _ _ _ Rus k d2 Hd2) as (d & _ & e & -> & Hw & He). unfold user_norm. by rewrite Hk.
Qed.

(** Contexts stay valid. *)
Lemma contexts_valid p2 a2 levels2 c :
  loaded p2 a2 levels2 → same_rbac p p2 → context_ok v p c → context_ok v p2 c.
Proof.
  intros Hl Hs (Hw & Hr & Hv). split; [done|]. split; [done|]. intros o.
  rewrite (valid_same p (po_arrays P) levels p2 a2 levels2); [done|apply (ko_loaded _ _ _ _ _ _ Hok)|done|done|].
  unfold context_norm. destruct kernel_features as (_ & _ & -> & _). destruct Hr as [[_ H0] [_ H1]]. by split.
Qed.

Lemma ocontexts_valid p2 : (∀ c, context_ok v p c → context_ok v p2 c) →
  ocontexts_ok v p2 (ocon_num info) (po_ocontexts P) ∧ genfs_ok v p2 (po_genfs P).
Proof.
  intros Hc. destruct (ko_ocontexts _ _ _ _ _ _ Hok) as [Ht Ho]. destruct (ko_genfs _ _ _ _ _ _ Hok) as (Hg & Hn & Hall). split.
  - split; [done|]. intros i (l & Hl & Hlen & Hf)%Ho. exists l. split; [done|]. split; [done|].
    eapply Forall_impl; [exact Hf|]. intros c (H1 & H2 & H3 & H4 & H5 & H6). split_and!; auto.
  - split; [done|]. split; [done|]. eapply Forall_impl; [exact Hall|]. intros g (H1 & H2 & H3). split; [done|]. split; [done|].
    eapply Forall_impl; [exact H3|]. intros c (H4 & H5 & H6). split_and!; auto.
Qed.

(** ** The bytes *)

Definition kernel_bytes : list N :=
  header_bytes v info (header_of P) ++
  symbols_bytes v (sym_num info) p ++
  (avtab_bytes (te_avtab p) ++ list_bytes block_bytes bs ++
   list_bytes (role_trans_bytes v) (role_trans_kept v (role_tr p)) ++ list_bytes role_allow_bytes (role_allows p) ++
   (if has_filename_trans v then list_bytes filename_trans_bytes (po_filename_trans P) else [])) ++
  ocontexts_bytes v (po_ocontexts P) (ocon_num info) ++
  list_bytes (genfs_bytes v) (po_genfs P) ++
  list_bytes (range_trans_bytes v) (range_trans_kept v (range_tr p)) ++
  maps_bytes v (type_attr_map p).

Lemma kernel_writes : Writes (policydb_write false parsed P) kernel_bytes.
Proof.
  destruct kernel_params as (Hk & _). destruct kernel_features as (_ & _ & _ & Hrg & Hb & _).
  destruct (ko_trans _ _ _ _ _ _ Hok) as (Htr & Hra & Hft & Hrt). destruct (ko_blocks _ _ _ _ _ _ Hok) as (_ & Hw & _).
  unfold policydb_write, kernel_bytes. apply writes_bind; [apply header_writes, (ko_header _ _ _ _ _ _ Hok)|].
  rewrite (ho_compat _ _ _ (ko_header _ _ _ _ _ _ Hok)). unfold rules_write. rewrite Hk, Hrg, Hb.
  apply writes_bind; [apply symbols_writes, (ko_symbols _ _ _ _ _ _ Hok)|]. apply writes_bind.
  { apply writes_bind; [apply avtab_writes, (ko_te _ _ _ _ _ _ Hok)|].
    apply writes_bind; [apply cond_write_list_writes; [apply (ko_conds _ _ _ _ _ _ Hok)|done]|].
    apply writes_bind; [exact (codec_writes _ Htr)|]. apply writes_bind; [exact (codec_writes _ Hra)|].
    apply writes_when. exact (codec_writes _ Hft). }
  apply writes_bind; [exact (codec_writes _ (ko_ocontexts _ _ _ _ _ _ Hok))|].
  apply writes_bind; [eapply genfs_writes, (ko_genfs _ _ _ _ _ _ Hok)|].
  apply writes_bind; [by apply range_trans_writes|].
  apply attr_maps_writes; [done|apply (ko_maps _ _ _ _ _ _ Hok)].
Qed.

(** ** The reader *)

Context (junk : nat → N) (mem : memory).

(** The rules are read into a policy with the symbols. *)
Record rules_back (p1 : policydb) (x : policydb * list filename_trans) : Prop := {
  ru_db : x.1 = set_rules p1 (te_avtab x.1) (te_cond_avtab x.1) (cond_list x.1) (role_trans_kept v (role_tr p)) (role_allows p);
  ru_te : avtab_wf (te_avtab x.1) ∧ avtab_entries (te_avtab x.1) ≡ₚ unmerged <$> avtab_entries (te_avtab p);
  ru_conds : conds_at bs (cond_list x.1, te_cond_avtab x.1);
  ru_filename : x.2 = if has_filename_trans v then po_filename_trans P else [] }.

Lemma kernel_rules_reads p1 :
  read_back v p p1 →
  Reads (kernel_rules_read junk v p1)
    (avtab_bytes (te_avtab p) ++ list_bytes block_bytes bs ++
     list_bytes (role_trans_bytes v) (role_trans_kept v (role_tr p)) ++ list_bytes role_allow_bytes (role_allows p) ++
     (if has_filename_trans v then list_bytes filename_trans_bytes (po_filename_trans P) else [])) (rules_back p1).
Proof.
  intros Hrb. destruct kernel_features as (_ & _ & _ & _ & Hb & _).
  destruct (ko_trans _ _ _ _ _ _ Hok) as (Htr & Hra & Hft & _). destruct (ko_blocks _ _ _ _ _ _ Hok) as (Hn & _ & Hbs).
  pose proof (ko_te _ _ _ _ _ _ Hok) as Hte. assert (POLICYDB_VERSION_AVTAB ≤ policyvers v) as Hv by (by apply N.leb_le, kernel_since).
  unfold kernel_rules_read. rewrite Hb. eapply reads_bind; [by apply avtab_reads|]. intros te [Hwf Hent].
  eapply reads_bind; [apply (cond_read_list_reads junk v (nprim (p_bools p1)) te Hwf Hv (te_cond_avtab p1) bs); [|done|]|].
  - rewrite (awf_nel _ Hwf), Hent, length_fmap. destruct Hte as [_ Hne [Hlen _] _ _]. rewrite u32_small by done.
    destruct (avtab_entries (te_avtab p)); [done|]. cbn in *. lia.
  - rewrite (ts_count _ _ _ (rb_bools _ _ _ Hrb)). by eapply blocks_ok_table.
  - intros [conds tab] Hconds. eapply reads_bind_eq; [exact (codec_reads _ Htr)|]. eapply reads_bind_eq; [exact (codec_reads _ Hra)|].
    rewrite <- (app_nil_r (if has_filename_trans v then _ else _)).
    eapply (reads_bind_eq _ _ _ _ (if has_filename_trans v then po_filename_trans P else [])).
    { destruct (has_filename_trans v); [exact (codec_reads _ Hft)|by apply reads_ret]. }
    by apply reads_ret.
Qed.

(** The maps of attributes as they are rebuilt: a type has itself and what the
    map written says, and attributes the types whose maps name them. *)
Definition attrs_back (i x : N) : Prop := map_bit (type_attr_map p) i x ∨ x = i.
Definition types_back (types : list (option type_datum)) (j x : N) : Prop :=
  (map_bit (type_attr_map p) x j ∧ x ≠ j) ∨ (j = x ∧ plain_at types x).

(** What comes back. *)
Record policy_back (P' : policy) : Prop := {
  pk_params : po_params P' = v;
  pk_header : po_handle_unknown P' = N.land (po_handle_unknown P) POLICYDB_CONFIG_UNKNOWN_MASK ∧
    po_policycaps P' = po_policycaps P ∧ po_permissive P' = po_permissive P ∧ mls (po_db P') = mls p;
  pk_symbols : symbols_back (po_db P');
  pk_te : avtab_wf (te_avtab (po_db P')) ∧
    avtab_entries (te_avtab (po_db P')) ≡ₚ unmerged <$> avtab_entries (te_avtab p);
  pk_conds : conds_at bs (cond_list (po_db P'), te_cond_avtab (po_db P'));
  pk_role_tr : role_tr (po_db P') = role_trans_kept v (role_tr p);
  pk_role_allows : role_allows (po_db P') = role_allows p;
  pk_filename : po_filename_trans P' = if has_filename_trans v then po_filename_trans P else [];
  pk_range_tr : range_tr (po_db P') = range_trans_kept v (range_tr p);
  pk_ocontexts : po_ocontexts P' = ocontexts_norm v (ocon_num info) (po_ocontexts P);
  pk_genfs : po_genfs P' = genfs_norm v <$> po_genfs P;
  pk_attrs : rel_array (nprim (p_types p)) (type_attr_map (po_db P')) attrs_back ∧
    rel_array (nprim (p_types p)) (attr_type_map (po_db P')) (types_back (type_val_to_struct (po_db P')));
  pk_loaded : ∃ levels', loaded (po_db P') (po_arrays P') levels';
  pk_valid : ∀ c o, range_wf (range c) →
    policydb_context_isvalid (po_db P') c o = policydb_context_isvalid p c o }.

Lemma rel_upto n l R types : N.of_nat (length l) = n →
  (∀ e, e ∈ l → ∀ j, ebitmap_bit e j = true → j < n) → R = map_bit l →
  (∀ m, rel_array n m (attrs_upto l n) → rel_array n m (λ i x, R i x ∨ x = i)) ∧
  (∀ m, N.of_nat (length types) = n → rel_array n m (types_upto types l n) →
     rel_array n m (λ j x, (R x j ∧ x ≠ j) ∨ (j = x ∧ plain_at types x))).
Proof.
  intros Hl Hb ->. split.
  - intros m. apply rel_array_ext. intros i x Hi. unfold attrs_upto. tauto.
  - intros m Ht. apply rel_array_ext. intros j x Hj. unfold types_upto. split; [tauto|]. intros H. split; [|done].
    destruct H as [[(e & He & _) _]|[-> _]]; [|done]. apply lookup_lt_Some in He. lia.
Qed.

Lemma loaded_ranges q a lv rt m : loaded q a lv → loaded (set_ranges q rt m) a lv.
Proof. intros [[] [] [] Hd Hr Hu]. split; [by split..|done|done|done]. Qed.

Lemma contexts_reads p1 P1 :
  read_back v p p1 → mls p1 = mls p → po_db P1 = p1 → po_params P1 = v → po_global P1 = po_global P0 → po_genfs P1 = [] →
  ReadsMem (contexts_read mem v info P1)
    (ocontexts_bytes v (po_ocontexts P) (ocon_num info) ++ list_bytes (genfs_bytes v) (po_genfs P) ++
     list_bytes (range_trans_bytes v) (range_trans_kept v (range_tr p)) ++ maps_bytes v (type_attr_map p))
    (λ P', ∃ p2 a2 m levels2, caches_of p1 p2 ∧ symbols_back p2 ∧ mls p2 = mls p ∧ loaded p2 a2 levels2 ∧
       rel_array (nprim (p_types p)) (am_attrs m) attrs_back ∧
       rel_array (nprim (p_types p)) (am_types m) (types_back (type_val_to_struct p2)) ∧
       P' = Policy v (po_handle_unknown P1) (po_name P1) (po_version P1) (po_policycaps P1) (po_permissive P1)
              (set_ranges p2 (range_trans_kept v (range_tr p)) m) (po_filename_trans P1) (po_global P0) (po_scope P1)
              (ocontexts_norm v (ocon_num info) (po_ocontexts P)) (genfs_norm v <$> po_genfs P) a2).
Proof.
  intros Hrb Hm Edb Ev Egl Egf. destruct kernel_params as (Hk & _). destruct kernel_features as (_ & _ & _ & Hrg & _).
  destruct (ko_trans _ _ _ _ _ _ Hok) as (_ & _ & _ & Hrt).
  unfold contexts_read. rewrite Edb, Egl, Egf, Hrg, Hk.
  destruct (ts_table _ _ _ (rb_levels _ _ _ Hrb)) as (lv & Hlv & _).
  eapply reads_mem_nil.
  { apply (index_reads mem v (po_global P0) p1 (po_arrays P1) lv); [left; apply (ko_kern _ _ _ _ _ _ Hok)| |exact Hlv].
    by apply kernel_index_ready. }
  intros [p2 a2] (Hix & Hc & Htw & Hrw & Hmw). cbn [fst snd] in *.
  pose proof (kernel_symbols_back p1 p2 a2 Hrb Hc Hix) as Hsb.
  assert (mls p2 = mls p) as Hm2 by (destruct (cc_rest _ _ Hc) as (? & ? & ? & ? & ? & ->); exact Hm).
  pose proof (kernel_loaded p2 a2 lv Hsb Hix Hrw Hmw) as Hl.
  destruct (ocontexts_valid p2) as [Hoc Hgf].
  { intros c. apply (contexts_valid p2 a2 lv c Hl). by apply kernel_same_rbac. }
  eapply reads_mem_bind; [apply reads_mem; exact (codec_reads _ Hoc)|]. intros ? ->.
  eapply reads_mem_bind; [apply reads_mem; by apply genfs_reads|]. intros ? ->.
  eapply reads_mem_bind; [apply reads_mem; by apply range_trans_reads|]. intros ? ->.
  eapply reads_mem_nil; [by apply lift_mem|]. intros ? ->.
  rewrite <- (app_nil_r (maps_bytes v _)). destruct (ko_maps _ _ _ _ _ _ Hok) as [Hln Hmo].
  assert (nprim (p_types p2) = nprim (p_types p)) as En by apply (sb_types _ Hsb). rewrite En.
  assert (N.of_nat (length (type_val_to_struct p2)) = nprim (p_types p)) as Etl by (rewrite <- En; apply (ix_types _ _ Hix)).
  eapply reads_mem_bind; [apply reads_mem, attr_maps_reads; [apply (ir_type_count _ _ (ko_index _ _ _ _ _ _ Hok))|done|done|done]|].
  intros m [Ha Ht]. apply reads_mem_ret. exists p2, a2, m, lv.
  assert (listed v (type_attr_map p) = type_attr_map p) as El by (unfold listed; by rewrite kernel_since).
  rewrite El in Ha, Ht. destruct (rel_upto (nprim (p_types p)) (type_attr_map p) (map_bit (type_attr_map p)) (type_val_to_struct p2) Hln)
    as [R1 R2]; [|done|].
  { intros e He. by apply (proj1 (Forall_forall _ _) Hmo e He). }
  split_and!; try done; [by apply R1|by apply R2].
Qed.
End kernel.

(** * Theorems *)

(** From version 19 on a kernel policy has all symbol tables. *)
Lemma compat_syms vers target info :
  POLICYDB_VERSION_MLS ≤ vers → policydb_lookup_compat vers POLICY_KERN target = Some info → sym_num info = 8.
Proof.
  intros Hv (Hin & [= Ev Ek _])%lookup_compat_spec.
  assert (Forall (λ c, compat_type c = POLICY_KERN → POLICYDB_VERSION_MLS ≤ compat_version c → sym_num c = 8) policydb_compat)
    as Hall by by_decide.
  apply (proj1 (Forall_forall _ _) Hall info Hin); [done|by rewrite Ev].
Qed.

(** C1: a kernel policy survives its file.  [policydb_write] writes any kernel
    policy of the formats from version 24 on that is loaded, indexed and
    expanded, and [policydb_read], given memory, reads from the bytes written,
    and not one byte more, a loaded policy with the same header, symbols,
    unconditional and conditional rules, role transitions and allow rules,
    named and range transitions, object contexts, file system entries and type
    attributes, less only what the version has no room for.  Arrays and caches
    are computed anew, no object context is refused, and a context is valid in
    the policy read if and only if it was in the policy written. *)
Theorem policydb_write_read parsed P0 P info bs levels junk mem :
  kernel_ok parsed P0 P info bs levels →
  SurvivesMem (policydb_write false parsed P) (policydb_read junk mem P0) (policy_back P info bs).
Proof.
  intros Hok. eapply survives_mem_intro; [by apply (kernel_writes _ _ _ _ _ _ Hok)|].
  pose proof (ko_header _ _ _ _ _ _ Hok) as Hh. destruct (ko_empty _ _ _ _ _ _ Hok) as (Egf & Et).
  destruct (kernel_params _ _ _ _ _ _ Hok) as (Hk & Hm & _). pose proof (ko_vers _ _ _ _ _ _ Hok) as Hv.
  assert (sym_num info = 8) as Es.
  { apply (compat_syms (policyvers (po_params P)) (target_platform (po_params P))); [etrans; [|exact Hv]; done|].
    rewrite <- (ko_kern _ _ _ _ _ _ Hok). apply Hh. }
  unfold policydb_read, kernel_bytes. rewrite Et. apply reads_mem_or_rc. eapply reads_mem_bind; [apply reads_mem; by apply header_reads|].
  intros ? ->. eapply reads_mem_bind.
  { apply reads_mem, (symbols_reads _ _ _ (set_mls (po_db P0) (mls (po_db P)))); [apply Hok|]. by destruct (ko_fresh _ _ _ _ _ _ Hok). }
  intros p1 Hsym. rewrite Es in Hsym. pose proof (kernel_read_back _ _ _ _ _ _ Hok _ _ eq_refl Hsym) as Hrb.
  rewrite Hk. eapply reads_mem_bind.
  { eapply (reads_mem_mono _ _ (λ x, ∃ y, rules_back P bs p1 y ∧ x = (y.1, y.2, po_global P0, po_scope P0))); [|exact (λ _ H, H)].
    rewrite <- (app_nil_r (avtab_bytes _ ++ _)). eapply reads_mem_bind; [by apply reads_mem, (kernel_rules_reads _ _ _ _ _ _ Hok)|].
    intros [q ft] Hq. apply reads_mem_ret. by exists (q, ft). }
  intros ? ([q ft] & [Edb Hte Hc Hft] & ->). cbn [fst snd] in *.
  assert (read_back (po_params P) (po_db P) q) as Hrq by (rewrite Edb; by destruct Hrb).
  assert (mls q = mls (po_db P)) as Hmq by (rewrite Edb, (ss_rest _ _ _ _ _ Hsym); done).
  eapply reads_mem_mono; [by apply (contexts_reads _ _ _ _ _ _ Hok mem q)|].
  intros P' (p2 & a2 & m & lv & Hca & Hsb & Hm2 & Hl & Ha & Hta & ->).
  destruct (cc_rest _ _ Hca) as (? & ? & ? & ? & ? & Ep2).
  assert (te_avtab p2 = te_avtab q ∧ te_cond_avtab p2 = te_cond_avtab q ∧ cond_list p2 = cond_list q ∧
          role_tr p2 = role_trans_kept (po_params P) (role_tr (po_db P)) ∧ role_allows p2 = role_allows (po_db P))
    as (E1 & E2 & E3 & E4 & E5) by (rewrite Ep2; split_and!; cbn; [done..|by rewrite Edb|by rewrite Edb]).
  split; cbn; rewrite ?E1, ?E2, ?E3; try done.
  - unfold header_norm, has_policycaps, has_permissive. cbn. rewrite Hk.
    assert (∀ n, n ≤ POLICYDB_VERSION_BOUNDARY → (n <=? policyvers (po_params P)) = true) as Hs
      by (intros n Hn; apply N.leb_le; lia).
    rewrite !Hs by done. done.
  - by destruct Hsb.
  - exists lv. by apply loaded_ranges.
  - intros c o Hr. rewrite <- (valid_same (po_db P) (po_arrays P) levels p2 a2 lv c o); try done; [apply Hok|].
    by apply (kernel_same_rbac _ _ _ _ _ _ Hok).
Qed.

(** * An example *)

Definition kernel_role (v : N) (types : ebitmap) : role_datum :=
  RoleDatum v (EBitmap [EBNode 0 (2 ^ (v - 1))] 64) (TypeSet types ebitmap_init 0) types 0 0 ebitmap_init.
Definition kernel_user : user_datum :=
  UserDatum 1 (RoleSet (EBitmap [EBNode 0 2] 64) 0) mls_semantic_range_init mls_semantic_level_init
    (MlsRange (MlsLevel 1 ebitmap_init) (MlsLevel 2 (EBitmap [EBNode 0 31] 64)))
    (MlsLevel 1 ebitmap_init) (EBitmap [EBNode 0 2] 64) 0.

(** A user in a role with three types, two booleans. *)
Definition kernel_symbols : policydb :=
  set_symtabs ex_policy (p_commons ex_policy) (p_classes ex_policy)
    (ex_table [("object_r", roles_init); ("role_r", kernel_role 2 (EBitmap [EBNode 0 7] 64))]%string 2)
    (p_types ex_policy) (ex_table [("user_u", kernel_user)]%string 1)
    (ex_table [("b1", CondBoolDatum 1 1 0); ("b2", CondBoolDatum 2 0 0)]%string 2)
    (p_levels ex_policy) (p_cats ex_policy).

Definition kernel_arrays : arrays :=
  Arrays [] [Some "class"] [Some "object_r"; Some "role_r"] [Some "a_t"; Some "b_t"; Some "c_t"] [Some "user_u"]
    [Some "b1"; Some "b2"] [Some "s0"; Some "s1"] [Some "c0"; Some "c1"; Some "c2"; Some "c3"; Some "c4"]
    [Some ex_class] [Some roles_init; Some (kernel_role 2 (EBitmap [EBNode 0 7] 64))] [Some kernel_user]
    [Some (ex_type 1); Some (ex_type 2); Some (ex_type 3)] [Some (CondBoolDatum 1 1 0); Some (CondBoolDatum 2 0 0)] [].

(** An allow rule, a block of conditional rules, transitions of roles, ranges
    and named files, an initial SID and a port. *)
Definition kernel_db : policydb :=
  set_ranges
    (set_rules (with_arrays kernel_symbols kernel_arrays) ex_te_avtab ex_block_avtab [ex_block_node]
       [RoleTrans 2 1 1 2] [RoleAllow 2 2])
    [RangeTrans 1 2 1 ex_range] (AttrMaps (attr_type_map ex_policy) (type_attr_map ex_policy)).

Definition kernel_contexts : list (list ocontext) :=
  [[Ocontext UNone 0 ex_mls_context context_init 1 0]; []; [Ocontext (UPort 6 80 80) 0 ex_mls_context context_init 0 0];
   []; []; []; []].

Definition kernel_policy : policy :=
  Policy ex_kernel 4 "" "" (EBitmap [EBNode 0 5] 64) ebitmap_init kernel_db [FilenameTrans 1 2 1 "log" 3] [] []
    kernel_contexts ex_genfs kernel_arrays.
(** The tables of the example hold what is listed. *)
Lemma ex_has {D} (l : list (string * D)) n k d : has (ex_table l n) k d ↔ (k, d) ∈ l.
Proof.
  unfold has, ht_entries. cbn. split.
  - intros (t & [= <-] & Hin). cbn in Hin. by rewrite app_nil_r in Hin.
  - intros Hin. eexists. split; [done|]. cbn. by rewrite app_nil_r.
Qed.

Lemma ex_indexes {D X} (sel : D → option N) (proj : string * D → X) l n arr :
  N.of_nat (length arr) = n →
  Forall (λ e, match sel e.2 with Some v => arr !! N.to_nat (v - 1) = Some (Some (proj e)) | None => True end) l →
  indexes sel proj (ex_table l n) arr.
Proof.
  intros Hn Hl. split; [done|]. intros t k d v [= <-] Hin Hv. unfold ht_entries in Hin. cbn in Hin. rewrite app_nil_r in Hin.
  apply (proj1 (Forall_forall _ _) Hl) in Hin. cbn in Hin. by rewrite Hv in Hin.
Qed.

(** A property of the elements of a concrete set. *)
Lemma each_bit (Q : N → Prop) e :
  ebitmap_wf e → Forall (λ i, ebitmap_bit e i = true → Q i) (seqN 0 (N.to_nat (highbit e))) →
  ∀ i, ebitmap_bit e i = true → Q i.
Proof.
  intros Hwf Hall i Hi. apply (proj1 (Forall_forall _ _) Hall i); [|done].
  pose proof (ebitmap_bit_hi e i Hwf Hi). apply elem_of_seqN. lia.
Qed.

Lemma three_bits i : ebitmap_bit (EBitmap [EBNode 0 7] 64) i = true → i = 0 ∨ i = 1 ∨ i = 2.
Proof. apply (each_bit (λ i, i = 0 ∨ i = 1 ∨ i = 2)); by_decide. Qed.

Lemma kernel_ready : index_ready (po_global initial_policy) kernel_db.
Proof.
  split; try ex_numbers.
  - split; [done|]. by repeat constructor.
  - split_and!; by apply ex_dense.
  - intros t k d [= <-] Hin. cbn in Hin. each_entry; (split_and!; [by_decide|by_decide| |done]); [done|].
    intros i Hi. apply three_bits in Hi.
    assert (∀ k, (k, ex_type (i + 1)) ∈ [("a_t", ex_type 1); ("b_t", ex_type 2); ("c_t", ex_type 3)]%string → declared_type kernel_db i)
      as Hty. { intros k Hk. eexists _, k, (ex_type (i + 1)). split; [reflexivity|]. split; [exact Hk|reflexivity]. }
    destruct Hi as [-> |[-> | ->]]; [apply (Hty "a_t"%string)|apply (Hty "b_t"%string)|apply (Hty "c_t"%string)];
      rewrite ?elem_of_cons; auto.
  - intros t k d [= <-] Hin. cbn in Hin. each_entry. split; [done|by_decide].
  - done.
  - intros t k d [= <-] Hin Hpr Hf. cbn in Hin. each_entry; done.
  - intros t k d [= <-] Hin. cbn in Hin. each_entry; by_decide.
Qed.

(** Where every number is used no cell is left alone. *)
Lemma dense_untouched {D X} (sel : D → option N) (junk : nat → option X) s arr : dense sel s → untouched sel junk s arr.
Proof.
  intros Hd t i Ht Hi Hn. destruct (Hd (i + 1)) as (t' & k & d & Ht' & Hin & Hs); [split; lia|].
  assert (t' = t) as -> by congruence. by destruct (Hn (k, d) Hin).
Qed.

Lemma kernel_db_loaded : loaded kernel_db kernel_arrays ex_levels.
Proof.
  split.
  - split; try (apply ex_indexes; [done|by_decide]); try (apply ex_indexes; [done|repeat constructor]).
    by apply dense_untouched, ex_dense.
  - split; [done|..]; intros v Hv Hmax; cbn in Hmax.
    + assert (v = 1 ∨ v = 2) as [-> | ->] by lia; eexists; (split; [done|by_decide]).
    + assert (v = 1) as -> by lia. eexists. split; [done|by_decide].
  - destruct ex_policy_wf as [H1 H2 H3 H4 H5 H6]. split; try done. intros v Hv Hmax. simpl in Hmax.
    assert (v = 1) as -> by lia. by eexists.
  - split_and!; by apply ex_dense.
  - intros k d Hin%ex_has. each_entry; (split; [by_decide|done]).
  - intros k d Hin%ex_has. each_entry; (split; [by_decide|done]).
Qed.

Lemma kernel_context_ok : context_ok ex_kernel kernel_db ex_mls_context.
Proof. split; [by_decide|]. split; [by_decide|]. intros o. by vm_compute. Qed.

(** The tables of [policydb_init]: empty, or with one symbol. *)
Lemma concat_empties {A} n : concat (replicate n []) = ([] : list A).
Proof. by induction n. Qed.

Lemma sized_fresh {D} size : 0 < size → size < 2 ^ 31 → fresh (λ _, True) (sized (D := D) size []).
Proof.
  intros Hpos Hlt. eexists. split; [done|]. cbn [foldr length].
  split; [|intros k _; unfold ht_map, ht_entries; cbn; by rewrite concat_empties].
  split; [|unfold ht_entries; cbn; by rewrite concat_empties].
  split; cbn; [apply _|rewrite length_replicate; lia|done| | |unfold ht_entries; cbn; rewrite concat_empties; constructor].
  - intros k. apply symhash_lt; [done|]. change (2 ^ 31) with 2147483648 in *. change (2 ^ 32) with 4294967296. lia.
  - intros i c [-> _]%lookup_replicate. repeat constructor.
Qed.

Lemma sized_one {D} size k (d : D) :
  0 < size → size < 2 ^ 31 → fresh (λ k', k' ≠ k) (sized size [(k, d)]) ∧ has (sized size [(k, d)]) k d.
Proof.
  intros Hpos Hlt.
  assert (∀ k, symhash size k < size) as Hh.
  { intros k'. apply symhash_lt; [done|]. change (2 ^ 31) with 2147483648 in *. change (2 ^ 32) with 4294967296. lia. }
  pose proof (Hh k) as Hk. unfold sized. cbn [foldr length fst].
  assert (concat (<[N.to_nat (symhash size k):=[(k, d)]]> (replicate (N.to_nat size) [])) = [(k, d)]) as He.
  { rewrite insert_take_drop by (rewrite length_replicate; lia). rewrite take_replicate, drop_replicate, concat_app. cbn.
    by rewrite !concat_empties. }
  split; eexists; (split; [done|]); unfold ht_wf, ht_map, ht_entries; cbn [htable nel]; rewrite He; [|by left].
  split.
  - split; [|done]. split; cbn; [apply _|rewrite length_insert, length_replicate; lia|done|done| |].
    + intros i c [(<- & <- & _)|[_ [-> _]%lookup_replicate]]%list_lookup_insert_Some; [|repeat constructor].
      split; repeat constructor. cbn. by rewrite N2Nat.id.
    + unfold ht_entries. cbn [htable]. rewrite He. apply NoDup_singleton.
  - intros k' Hne. apply not_elem_of_list_to_map. cbn. set_solver.
Qed.

Lemma initial_fresh : fresh_policy (po_db initial_policy).
Proof. split; first [by apply sized_fresh|by apply sized_one]. Qed.

Lemma kernel_policy_ok :
  kernel_ok (λ _, true) initial_policy kernel_policy (Compat POLICY_KERN 30 8 7 SEPOL_TARGET_SELINUX) [ex_block] ex_levels.
Proof.
  pose proof kernel_context_ok as Hc. split.
  - done.
  - done.
  - split; [by vm_compute|done|done|split; by_decide].
  - split; try intros tc Htc.
    + ex_tab.
    + ex_tab. split; try by_decide; try done. ex_tab. split; by_decide.
    + ex_tab; split; try by_decide; done.
    + ex_tab; (split; [|split]); by_decide.
    + ex_tab. split; [|done]. split; by_decide.
    + ex_tab; split_and!; by_decide.
    + ex_tab; (split; [|split]); by_decide.
    + ex_tab; (split; [|split]); by_decide.
  - apply kernel_ready.
  - apply kernel_db_loaded.
  - intros k d Hin%ex_has. each_entry; done.
  - intros k d i Hin%ex_has Hi. each_entry. apply three_bits in Hi. 
    exists (match i with 0 => "a_t" | 1 => "b_t" | _ => "c_t" end)%string, (ex_type (i + 1)).
    split; [|done]. apply ex_has. rewrite !elem_of_cons. destruct Hi as [-> |[-> | ->]]; auto.
  - split; try by_decide. apply ex_te_avtab_wf.
  - by_decide.
  - split_and!; by_decide.
  - split_and!; by_decide.
  - split; [by left|]. intros i Hi.
    assert (i ∈ seqN 0 7) as Hin by (apply elem_of_seqN; cbn in Hi; lia). cbn in Hin.
    repeat (apply elem_of_cons in Hin as [->|Hin]; [eexists; (split; [reflexivity|]); (split; [done|]); repeat constructor; done|]).
    by apply elem_of_nil in Hin.
  - split; [apply ex_genfs_wf|]. split; [by_decide|]. repeat constructor; first [done|by_decide|apply Hc|idtac].
  - split; [done|]. repeat (apply Forall_cons; split; [split; [by_decide|apply each_bit; by_decide]|]). constructor.
  - apply initial_fresh.
  - exists roles_init. split; [apply ex_has; by left|]. by apply (sized_one 16 OBJECT_R roles_init).
  - done.
Qed.

Lemma policydb_write_read_witness :
  SurvivesMem (policydb_write false (λ _, true) kernel_policy) (policydb_read (λ _, 0) ex_memory initial_policy)
    (policy_back kernel_policy (Compat POLICY_KERN 30 8 7 SEPOL_TARGET_SELINUX) [ex_block]).
Proof. exact (policydb_write_read _ _ _ _ _ _ (λ _, 0) ex_memory kernel_policy_ok). Defined.

(** The policy that is read, by evaluation: the type attributes, and the
    conditional block that is on. *)
Example kernel_policy_reads :
  match policydb_read (λ _, 0) ex_memory initial_policy
      (mem_file (kernel_bytes kernel_policy (Compat POLICY_KERN 30 8 7 SEPOL_TARGET_SELINUX) [ex_block])) [] with
  | Ret (inr P, _) [] => type_attr_map (po_db P) = type_attr_map ex_policy ∧ (cur_state <$> cond_list (po_db P)) = [1%Z]
  | _ => False
  end.
Proof. vm_compute. done. Qed.
