(* ===== verification/Hierarchy.v ===== *)
(** The bounds of types, roles and users: libsepol/src/hierarchy.c.

    A type may have a parent that bounds it: whatever a rule allows to the
    child has to be allowed to the parent as well.  The check collects the
    permissions of the parent in tables of their own, one for the
    unconditional rules and two for each conditional block, and looks up the
    permissions of the child in them.  The bounds come from the policy or from
    the names: "a.b" is bounded by "a".

    Of the messages what is left are the names they read.  The counters are
    integers of type [int], whose overflow is undefined. *)

From Stdlib Require Import Ascii.
From stdpp Require Import sorting.
From S2P Require Import Prelude Ebitmap PolicyFile Hashtab MlsTypes Avtab Policydb Mls Context Conditional Services Expand Util Assertion PolicyIO PolicyIndex CondIO PolicydbIO.
Local Open Scope N_scope.

Definition BOUNDS_AVTAB_SIZE : N := 1024.
Definition SEPOL_ERR : Z := -1.

(** * The permissions of the parent *)

(** [dup->data |= x] through the pointer that [avtab_search] returns. *)
Definition or_data (h : option avtab) (key : avtab_key) (x : N) : M (option avtab) :=
  h ← deref h;
  t ← deref (av_htable h);
  let slot := N.to_nat (avtab_hash key (mask h)) in
  c ← deref (t !! slot);
  match avtab_walk key (clear_enabled (specified key)) c with
  | (prev, n :: next) =>
      let n := AvtabNode (av_key n) (AvtabDatum (N.lor (data (av_datum n)) x) (xperms (av_datum n))) (merged n) in
      mret (Some (Avtab (Some (<[slot := prev ++ n :: next]> t)) (av_nel h) (nslot h) (mask h)))
  | (_, []) => ub
  end.

(** A rule is inserted, or its permissions are added to the rule there is.
    The extended permissions of the datum are not set: no rule of these tables
    has any. *)
Definition add_data (h : option avtab) (key : avtab_key) (x : N) : M (Z * option avtab) :=
  dup ← avtab_search h key;
  match dup with
  | None => avtab_insert h key (AvtabDatum x None)
  | Some _ => h ← or_data h key x; mret (0%Z, h)
  end.

(** The two tables that rules are added to; [other] below is the table of the
    other branch of a conditional block. *)
Record bounds_tables := BoundsTables { bt_avtab : option avtab; bt_global : option avtab }.

Definition bounds_insert_rule (other : option avtab) (key : avtab_key) (x : N) (st : bounds_tables)
    : M (Z * bounds_tables) :=
  '(rc, h) ← add_data (bt_avtab st) key x;
  let st := BoundsTables h (bt_global st) in
  if bool_decide (rc ≠ 0%Z) then mret (rc, st) else
  match other with
  | None => mret (rc, st)
  | Some _ =>
      dup ← avtab_search other key;
      let common := match dup with Some d => N.land (data d) x | None => 0 end in
      if truth common then
        '(rc, g) ← add_data (bt_global st) key common; mret (rc, BoundsTables (bt_avtab st) g)
      else mret (rc, st)
  end.

(** One of the two loops over the types of an attribute: the key of each. *)
Definition insert_each (other : option avtab) (types : ebitmap) (key : N → avtab_key) (x : N) (st : bounds_tables)
    : M (Z * bounds_tables) :=
  r ← ebitmap_for_each_bit types st (λ i bit st,
        if negb bit then mret (inr st) else
        '(rc, st) ← bounds_insert_rule other (key i) x st;
        mret (if bool_decide (rc ≠ 0%Z) then inl (rc, st) else inr st));
  mret match r with inl x => x | inr st => (0%Z, st) end.

Definition bounds_expand_rule (p : policydb) (other : option avtab) (parent src tgt class x : N) (st : bounds_tables)
    : M (Z * bounds_tables) :=
  stypes ← attr_types p src;
  '(rc, st) ← (if ebitmap_get_bit stypes (dec32 parent) then
                 ttypes ← attr_types p tgt;
                 insert_each other ttypes (λ i, AvtabKey (u16 parent) (u16 (i + 1)) (u16 class) AVTAB_ALLOWED) x st
               else mret (0%Z, st));
  if bool_decide (rc ≠ 0%Z) then mret (rc, st) else
  ttypes ← attr_types p tgt;
  if ebitmap_get_bit ttypes (dec32 parent) then
    stypes ← attr_types p src;
    insert_each other stypes (λ i, AvtabKey (u16 (i + 1)) (u16 parent) (u16 class) AVTAB_ALLOWED) x st
  else mret (0%Z, st).

(** The rules of a conditional list, whatever they are rules of. *)
Definition bounds_expand_cond_rules (p : policydb) (other : option avtab) (parent : N) (cur : list avtab_ptr)
    (st : bounds_tables) : M (Z * bounds_tables) :=
  r ← for_list (λ q st,
        n ← deref (node_at (te_cond_avtab p) q);
        let k := av_key n in
        '(rc, st) ← bounds_expand_rule p other parent (source_type k) (target_type k) (target_class k) (data (av_datum n)) st;
        mret (if bool_decide (rc ≠ 0%Z) then inl (rc, st) else inr st)) cur st;
  mret match r with inl x => x | inr st => (0%Z, st) end.

Definition bounds_expand_rule_callback (p : policydb) (parent : N) (k : avtab_key) (d : avtab_datum) (st : bounds_tables)
    : M (Z * bounds_tables) :=
  if negb (truth (N.land (specified k) AVTAB_ALLOWED)) then mret (0%Z, st) else
  bounds_expand_rule p None parent (source_type k) (target_type k) (target_class k) (data d) st.

Record bounds_cond_info := BoundsCondInfo { true_avtab : avtab; false_avtab : avtab; ci_node : cond_node }.

(** An initialised table, without memory for rules. *)
Definition no_table : avtab := (avtab_init (Avtab None 0 0 0)).2.

(** One branch of a conditional block, into a table of its own. *)
Definition expand_branch (p : policydb) (parent : N) (l : list avtab_ptr) (global other : option avtab)
    : M (Z * avtab * option avtab) :=
  match l with
  | [] => mret (0%Z, no_table, global)
  | _ :: _ =>
      '(rc, h) ← avtab_alloc no_table BOUNDS_AVTAB_SIZE;
      if bool_decide (rc ≠ 0%Z) then mret (rc, h, global) else
      '(rc, st) ← bounds_expand_cond_rules p other parent l (BoundsTables (Some h) global);
      h ← deref (bt_avtab st);
      mret (rc, h, bt_global st)
  end.

Definition bounds_destroy_cond_info (l : list bounds_cond_info) : M unit :=
  _ ← for_list (R := unit) (λ ci _, _ ← avtab_destroy (Some (true_avtab ci)); _ ← avtab_destroy (Some (false_avtab ci));
                                    mret (inr tt)) l tt;
  mret tt.

(** The labels [oom] and [exit]. *)
Definition expand_failed (rc : Z) (global : avtab) (l : list bounds_cond_info) : M (Z * avtab * list bounds_cond_info) :=
  g ← avtab_destroy (Some global);
  _ ← bounds_destroy_cond_info l;
  g ← deref g;
  mret (rc, g, []).

(** The tables of one block, in front of those of the blocks before it.  When
    the block of tables cannot be allocated [rc] is still 0. *)
Definition expand_cond_node (p : policydb) (parent : N) (cur : cond_node) (st : avtab * list bounds_cond_info)
    : M ((Z * avtab * list bounds_cond_info) + (avtab * list bounds_cond_info)) :=
  let '(global, l) := st in
  b ← malloc;
  if negb b then mret (inl (0%Z, global, l)) else
  '(rc, t, _) ← expand_branch p parent (true_list cur) None None;
  if bool_decide (rc ≠ 0%Z) then mret (inl (rc, global, BoundsCondInfo t no_table cur :: l)) else
  '(rc, f, g) ← expand_branch p parent (false_list cur) (Some global) (Some t);
  global ← deref g;
  let l := BoundsCondInfo t f cur :: l in
  mret (if bool_decide (rc ≠ 0%Z) then inl (rc, global, l) else inr (global, l)).

Definition bounds_expand_parent_rules (p : policydb) (parent : N) : M (Z * avtab * list bounds_cond_info) :=
  '(rc, global) ← avtab_alloc no_table BOUNDS_AVTAB_SIZE;
  if bool_decide (rc ≠ 0%Z) then expand_failed rc global [] else
  '(rc, st) ← avtab_map (Some (te_avtab p)) (bounds_expand_rule_callback p parent) (BoundsTables (Some global) None);
  global ← deref (bt_avtab st);
  if bool_decide (rc ≠ 0%Z) then expand_failed rc global [] else
  r ← for_list (expand_cond_node p parent) (cond_list p) (global, []);
  match r with
  | inl (rc, global, l) => expand_failed rc global l
  | inr (global, l) => mret (0%Z, global, l)
  end.

(** * The rules of the child *)

Definition bounds_not_covered (global : option avtab) (cur : avtab) (key : avtab_key) (x : N) : M N :=
  d ← avtab_search (Some cur) key;
  let x := match d with Some d => N.ldiff x (data d) | None => x end in
  match global with
  | Some _ =>
      if truth x then
        d ← avtab_search global key;
        mret match d with Some d => N.ldiff x (data d) | None => x end
      else mret x
  | None => mret x
  end.

(** The rules that exceed the bounds, last one first, and their number. *)
Record bad_rules := BadRules { bad : list avtab_node; numbad : Z }.

(** The counters are of type [int]. *)
Definition INT_MAX : Z := 2147483647.
Definition add_count (n k : Z) : M Z := if (INT_MAX <? n + k)%Z then ub else mret (n + k)%Z.

Definition bounds_add_bad (src tgt class x : N) (b : bad_rules) : M (Z * bad_rules) :=
  n ← add_count (numbad b) 1;
  m ← malloc;
  if negb m then mret (SEPOL_ENOMEM, BadRules (bad b) n) else
  mret (0%Z, BadRules (AvtabNode (AvtabKey (u16 src) (u16 tgt) (u16 class) 0) (AvtabDatum x None) false :: bad b) n).

(** One of the two loops: [key] of a type for the parent, [rule] the types of
    the rule to report, and [skip] for the type looked at by the other loop. *)
Definition check_each (p : policydb) (global : option avtab) (cur : avtab) (types : ebitmap) (key : N → avtab_key)
    (rule : N → N * N) (skip : N → bool) (class x : N) (b : bad_rules) : M (Z * bad_rules) :=
  r ← ebitmap_for_each_bit types b (λ i bit b,
        if negb bit then mret (inr b) else
        if skip i then mret (inr b) else
        d ← bounds_not_covered global cur (key (i + 1)) x;
        if negb (truth d) then mret (inr b) else
        td ← deref (type_val_to_struct p !! N.to_nat i);
        let bounds := match td with Some td => type_bounds td | None => 0 end in
        d ← (if truth bounds then bounds_not_covered global cur (key bounds) x else mret d);
        if truth bounds && negb (truth d) then mret (inr b) else
        '(rc, b) ← bounds_add_bad (rule (i + 1)).1 (rule (i + 1)).2 class d b;
        mret (if bool_decide (rc ≠ 0%Z) then inl (rc, b) else inr b));
  mret match r with inl x => x | inr b => (0%Z, b) end.

Definition bounds_check_rule (p : policydb) (global : option avtab) (cur : avtab) (child parent src tgt class x : N)
    (b : bad_rules) : M (Z * bad_rules) :=
  stypes ← attr_types p src;
  '(rc, b) ← (if ebitmap_get_bit stypes (dec32 child) then
                ttypes ← attr_types p tgt;
                check_each p global cur ttypes (λ t, AvtabKey (u16 parent) (u16 t) (u16 class) AVTAB_ALLOWED) (λ t, (child, t))
                  (λ _, false) class x b
              else mret (0%Z, b));
  if bool_decide (rc ≠ 0%Z) then mret (rc, b) else
  ttypes ← attr_types p tgt;
  if ebitmap_get_bit ttypes (dec32 child) then
    stypes ← attr_types p src;
    check_each p global cur stypes (λ s, AvtabKey (u16 s) (u16 parent) (u16 class) AVTAB_ALLOWED) (λ s, (s, child))
      (λ i, u16 (i + 1) =? child) class x b
  else mret (0%Z, b).

Definition bounds_check_rule_callback (p : policydb) (global : option avtab) (cur : avtab) (child parent : N)
    (k : avtab_key) (d : avtab_datum) (b : bad_rules) : M (Z * bad_rules) :=
  if negb (truth (N.land (specified k) AVTAB_ALLOWED)) then mret (0%Z, b) else
  bounds_check_rule p global cur child parent (source_type k) (target_type k) (target_class k) (data d) b.

Definition bounds_check_cond_rules (p : policydb) (global : option avtab) (cur : avtab) (rules : list avtab_ptr)
    (child parent : N) (b : bad_rules) : M (Z * bad_rules) :=
  r ← for_list (λ q b,
        n ← deref (node_at (te_cond_avtab p) q);
        '(rc, b) ← bounds_check_rule_callback p global cur child parent (av_key n) (av_datum n) b;
        mret (if bool_decide (rc ≠ 0%Z) then inl (rc, b) else inr b)) rules b;
  mret match r with inl x => x | inr b => (0%Z, b) end.

(** On failure the bad rules found so far are lost. *)
Definition bounds_check_child_rules (p : policydb) (global : avtab) (l : list bounds_cond_info) (child parent : N)
    : M (Z * bad_rules) :=
  '(rc, b) ← avtab_map (Some (te_avtab p)) (bounds_check_rule_callback p None global child parent) (BadRules [] 0);
  if bool_decide (rc ≠ 0%Z) then mret (rc, BadRules [] 0) else
  r ← for_list (λ cur b,
        '(rc, b) ← bounds_check_cond_rules p (Some global) (true_avtab cur) (true_list (ci_node cur)) child parent b;
        if bool_decide (rc ≠ 0%Z) then mret (inl rc) else
        '(rc, b) ← bounds_check_cond_rules p (Some global) (false_avtab cur) (false_list (ci_node cur)) child parent b;
        mret (if bool_decide (rc ≠ 0%Z) then inl rc else inr b)) l b;
  mret match r with inl rc => (rc, BadRules [] 0) | inr b => (0%Z, b) end.

(** The bad rules of a type and their number: none on failure. *)
Definition bounds_check_type (p : policydb) (child parent : N) : M (Z * bad_rules) :=
  '(rc, global, l) ← bounds_expand_parent_rules p parent;
  if bool_decide (rc ≠ 0%Z) then mret (rc, BadRules [] 0) else
  '(rc, b) ← bounds_check_child_rules p global l child parent;
  _ ← bounds_destroy_cond_info l;
  _ ← avtab_destroy (Some global);
  mret (rc, b).

Definition bounds_report (p : policydb) (child parent : N) (l : list avtab_node) : M unit :=
  _ ← deref (p_type_val_to_name p !! N.to_nat (dec32 child));
  _ ← deref (p_type_val_to_name p !! N.to_nat (dec32 parent));
  _ ← for_list (R := unit) (λ n _,
        let k := av_key n in
        _ ← report_names p (dec32 (source_type k)) (dec32 (target_type k)) (target_class k) (data (av_datum n));
        mret (inr tt)) l tt;
  mret tt.

(** The argument is the number of bad rules so far. *)
Definition bounds_check_type_callback (p : policydb) (_ : string) (t : type_datum) (n : Z) : M (Z * Z) :=
  if negb (truth (type_bounds t)) then mret (0%Z, n) else
  '(rc, b) ← bounds_check_type p (type_value t) (type_bounds t);
  _ ← match bad b with [] => mret tt | _ :: _ => bounds_report p (type_value t) (type_bounds t) (bad b) end;
  n ← add_count n (numbad b); mret (rc, n).

Definition bounds_check_types (p : policydb) : M Z :=
  '(rc, n) ← hashtab_map (table (p_types p)) (bounds_check_type_callback p) 0%Z;
  if bool_decide (rc ≠ 0%Z) then mret rc else
  mret (if (0 <? n)%Z then SEPOL_ERR else rc).

(** * Roles and users *)

(** A role may have only types that its parent has, a user only roles. *)
Definition bounds_check_role_callback (p : policydb) (_ : string) (r : role_datum) (n : Z) : M (Z * Z) :=
  if negb (truth (role_bounds r)) then mret (0%Z, n) else
  rp ← deref (role_val_to_struct p !! N.to_nat (dec32 (role_bounds r)));
  match rp with
  | Some rp =>
      if ebitmap_contains (ts_types (role_types rp)) (ts_types (role_types r)) then mret (0%Z, n) else
      _ ← deref (p_role_val_to_name p !! N.to_nat (dec32 (role_value rp)));
      n ← add_count n 1; mret (0%Z, n)
  | None => mret (0%Z, n)
  end.

Definition bounds_check_roles (p : policydb) : M Z :=
  '(_, n) ← hashtab_map (table (p_roles p)) (bounds_check_role_callback p) 0%Z;
  mret (if (0 <? n)%Z then SEPOL_ERR else 0%Z).

Definition bounds_check_user_callback (p : policydb) (_ : string) (u : user_datum) (n : Z) : M (Z * Z) :=
  if negb (truth (user_bounds u)) then mret (0%Z, n) else
  up ← deref (user_val_to_struct p !! N.to_nat (dec32 (user_bounds u)));
  match up with
  | Some up =>
      if ebitmap_contains (rs_roles (user_roles up)) (rs_roles (user_roles u)) then mret (0%Z, n) else
      _ ← deref (p_user_val_to_name p !! N.to_nat (dec32 (user_value up)));
      n ← add_count n 1; mret (0%Z, n)
  | None => mret (0%Z, n)
  end.

Definition bounds_check_users (p : policydb) : M Z :=
  '(_, n) ← hashtab_map (table (p_users p)) (bounds_check_user_callback p) 0%Z;
  mret (if (0 <? n)%Z then SEPOL_ERR else 0%Z).

(** * Bounds from names *)

(** What is in front of the last dot: [strrchr] and the zero stored there. *)
Fixpoint parent_name (name : string) : option string :=
  match name with
  | EmptyString => None
  | String c name' =>
      match parent_name name' with
      | Some q => Some (String c q)
      | None => if Ascii.eqb c "."%char then Some EmptyString else None
      end
  end.

(** The macro [add_hierarchy_callback_template]: the new bound of a symbol, if
    it gets one, and the number of orphans. *)
Definition hierarchy_add {D} (value bounds : D → N) (names : list (option string)) (s : symtab D) (datum : D) (n : Z)
    : M (Z * option N * Z) :=
  if truth (bounds datum) then mret (0%Z, None, n) else
  name ← deref (names !! N.to_nat (dec32 (value datum)));
  name ← deref name;
  match parent_name name with
  | None => mret (0%Z, None, n)
  | Some parent =>
      b ← malloc;
      if negb b then mret (SEPOL_ENOMEM, None, n) else
      d ← hashtab_search (table s) parent;
      match d with
      | Some d => mret (0%Z, Some (value d), n)
      | None => n ← add_count n 1; mret (0%Z, None, n)
      end
  end.

Definition type_set_bounds (t : type_datum) (b : N) : type_datum :=
  TypeDatum (type_value t) (primary t) (flavor t) (td_types t) (td_flags t) b.
Definition role_set_bounds (r : role_datum) (b : N) : role_datum :=
  RoleDatum (role_value r) (dominates r) (role_types r) (role_cache r) b (role_flavor r) (role_roles r).
Definition user_set_bounds (u : user_datum) (b : N) : user_datum :=
  UserDatum (user_value u) (user_roles u) (user_range u) (user_dfltlevel u) (exp_range u) (exp_dfltlevel u) (user_cache u) b.

Definition with_type_data (p : policydb) (types : symtab type_datum) (arr : list (option type_datum)) : policydb := {|
  mls := mls p; p_commons := p_commons p; p_classes := p_classes p; p_roles := p_roles p;
  p_types := types;
  p_users := p_users p; p_bools := p_bools p; p_levels := p_levels p; p_cats := p_cats p;
  p_class_val_to_name := p_class_val_to_name p; p_role_val_to_name := p_role_val_to_name p;
  p_type_val_to_name := p_type_val_to_name p; p_user_val_to_name := p_user_val_to_name p;
  p_sens_val_to_name := p_sens_val_to_name p; p_cat_val_to_name := p_cat_val_to_name p;
  class_val_to_struct := class_val_to_struct p; role_val_to_struct := role_val_to_struct p;
  user_val_to_struct := user_val_to_struct p;
  type_val_to_struct := arr;
  bool_val_to_struct := bool_val_to_struct p; te_avtab := te_avtab p; te_cond_avtab := te_cond_avtab p;
  cond_list := cond_list p; role_tr := role_tr p; role_allows := role_allows p; range_tr := range_tr p;
  type_attr_map := type_attr_map p; attr_type_map := attr_type_map p |}.

Definition set_type (p : policydb) (key : string) (d : type_datum) : policydb :=
  with_type_data p (set_datum (p_types p) key d) (set_pointed (p_type_val_to_name p) key d (type_val_to_struct p)).

(** A symbol with its new bound, in the table and where arrays point to it. *)
Definition with_bound {D} (set : D → N → D) (store : policydb → string → D → policydb) (key : string) (d : D)
    (r : Z * option N * Z) (p : policydb) : Z * (policydb * Z) :=
  let '(rc, b, n) := r in (rc, (match b with Some b => store p key (set d b) | None => p end, n)).

Definition hierarchy_add_user_callback (key : string) (d : user_datum) (st : policydb * Z) : M (Z * (policydb * Z)) :=
  r ← hierarchy_add user_value user_bounds (p_user_val_to_name st.1) (p_users st.1) d st.2;
  mret (with_bound user_set_bounds set_user key d r st.1).
Definition hierarchy_add_role_callback (key : string) (d : role_datum) (st : policydb * Z) : M (Z * (policydb * Z)) :=
  r ← hierarchy_add role_value role_bounds (p_role_val_to_name st.1) (p_roles st.1) d st.2;
  mret (with_bound role_set_bounds set_role key d r st.1).
Definition hierarchy_add_type_callback (key : string) (d : type_datum) (st : policydb * Z) : M (Z * (policydb * Z)) :=
  r ← hierarchy_add type_value type_bounds (p_type_val_to_name st.1) (p_types st.1) d st.2;
  mret (with_bound type_set_bounds set_type key d r st.1).

Definition hierarchy_add_bounds (p : policydb) : M (Z * policydb) :=
  '(rc, st) ← hashtab_map (table (p_users p)) hierarchy_add_user_callback (p, 0%Z);
  if bool_decide (rc ≠ 0%Z) then mret (rc, st.1) else
  '(rc, st) ← hashtab_map (table (p_roles st.1)) hierarchy_add_role_callback st;
  if bool_decide (rc ≠ 0%Z) then mret (rc, st.1) else
  '(rc, st) ← hashtab_map (table (p_types st.1)) hierarchy_add_type_callback st;
  if bool_decide (rc ≠ 0%Z) then mret (rc, st.1) else
  mret (if (0 <? st.2)%Z then SEPOL_ERR else rc, st.1).

Definition hierarchy_check_constraints (p : policydb) : M (Z * policydb) :=
  '(rc, p) ← hierarchy_add_bounds p;
  if bool_decide (rc ≠ 0%Z) then mret (rc, p) else
  users ← bounds_check_users p;
  roles ← bounds_check_roles p;
  types ← bounds_check_types p;
  if bool_decide (types ≠ 0%Z) && negb (types =? SEPOL_ERR)%Z then mret (types, p) else
  let violation := bool_decide (users ≠ 0%Z) || bool_decide (roles ≠ 0%Z) || bool_decide (types ≠ 0%Z) in
  mret (if violation then SEPOL_ERR else types, p).

(** * The tables of the parent *)

Definition allow_key (s t c : N) : avtab_key := AvtabKey s t c AVTAB_ALLOWED.

(** Only allow rules, and one for each key. *)
Record bounds_table (h : avtab) : Prop := {
  bd_wf : avtab_wf h;
  bd_allow : ∀ n, n ∈ avtab_entries h → specified (av_key n) = AVTAB_ALLOWED;
  bd_unique : NoDup (av_key <$> avtab_entries h) }.

(** A table to look rules up in may be empty and without memory. *)
Definition searchable (h : avtab) : Prop := av_htable h = None ∨ bounds_table h.

(** The permissions of a table: source, target, class and bit. *)
Definition has_bit (h : avtab) (s t c j : N) : Prop :=
  ∃ n, n ∈ avtab_entries h ∧ av_key n = allow_key s t c ∧ N.testbit (data (av_datum n)) j = true.
Definition datum_bit (d : option avtab_datum) (j : N) : bool :=
  match d with Some d => N.testbit (data d) j | None => false end.

Lemma allow_match s t c k :
  specified k = AVTAB_ALLOWED → key_match (allow_key s t c) (clear_enabled AVTAB_ALLOWED) k = true ↔ k = allow_key s t c.
Proof.
  destruct k as [s' t' c' sp]. cbn. intros ->. unfold key_match. cbn. split.
  - intros H. reflect_bools. by subst.
  - intros [= -> -> ->]. by rewrite !N.eqb_refl.
Qed.

Lemma NoDup_fmap_inv {A B} (f : A → B) l a b : NoDup (f <$> l) → a ∈ l → b ∈ l → f a = f b → a = b.
Proof.
  intros Hn [i Hi]%list_elem_of_lookup [j Hj]%list_elem_of_lookup Hf. assert (i = j) as ->; [|congruence].
  apply (NoDup_lookup (f <$> l) i j (f a) Hn); rewrite list_lookup_fmap; [by rewrite Hi|by rewrite Hj, Hf].
Qed.

Lemma search_bits h s t c o :
  searchable h →
  ∃ r, avtab_search (Some h) (allow_key s t c) o = Ret r o ∧ (∀ j, datum_bit r j = true ↔ has_bit h s t c j) ∧
    (r = None → ∀ n, n ∈ avtab_entries h → av_key n ≠ allow_key s t c).
Proof.
  intros [Hn|[Hwf Hal Hu]].
  { exists None. unfold avtab_search, has_bit, avtab_entries. rewrite Hn. split; [done|]. split; [|by intros _ n ?%elem_of_nil].
    intros j. split; [done|]. by intros (n & ?%elem_of_nil & _). }
  rewrite avtab_search_spec by done. eexists. split; [done|]. cbn [specified allow_key].
  assert (∀ n, n ∈ avtab_entries h → key_match (allow_key s t c) (clear_enabled AVTAB_ALLOWED) (av_key n) = true ↔ av_key n = allow_key s t c)
    as Hm by (intros n Hn; by apply allow_match, Hal).
  destruct (filter _ (avtab_entries h)) as [|n l] eqn:El; cbn.
  - assert (∀ n, n ∈ avtab_entries h → av_key n ≠ allow_key s t c) as Hno.
    { intros n Hn Hk. assert (n ∈ ([] : list avtab_node)) as Hx; [|by apply elem_of_nil in Hx].
      rewrite <- El. apply list_elem_of_filter. split; [by apply Hm|done]. }
    split; [|done]. intros j. split; [done|]. intros (n & Hn & Hk & _). by destruct (Hno n).
  - assert (n ∈ n :: l) as Hn by left. rewrite <- El in Hn. apply list_elem_of_filter in Hn as [Hk Hn].
    apply Hm in Hk; [|done]. split; [|done]. intros j. split; [intros Hj; by exists n|].
    intros (m & Hin & Hkm & Hj). assert (m = n) as ->; [|done].
    apply (NoDup_fmap_inv av_key (avtab_entries h)); try done. congruence.
Qed.

(** Replacing the datum of a node keeps a table well-formed. *)
Lemma avtab_replace_wf h t i prev n n' next :
  avtab_wf h → av_htable h = Some t → t !! i = Some (prev ++ n :: next) → av_key n' = av_key n →
  let h' := Avtab (Some (<[i := prev ++ n' :: next]> t)) (av_nel h) (nslot h) (mask h) in
  avtab_wf h' ∧ ∃ R, avtab_entries h ≡ₚ n :: R ∧ avtab_entries h' ≡ₚ n' :: R.
Proof.
  intros [(t' & Ht' & Hlen & Hc) Hm Hnel] Ht Hi Hk h'. assert (t' = t) as -> by congruence.
  destruct (concat_focus _ _ _ Hi) as (R & HR & Hset). destruct (Hc _ _ Hi) as [Hs Hh].
  assert (avtab_entries h ≡ₚ n :: (prev ++ next) ++ R) as E1 by (unfold avtab_entries; rewrite Ht, HR; solve_Permutation).
  assert (avtab_entries h' ≡ₚ n' :: (prev ++ next) ++ R) as E2.
  { unfold avtab_entries, h'. cbn [av_htable]. rewrite Hset. solve_Permutation. }
  split; [|by exists ((prev ++ next) ++ R)]. split; [|done|].
  - eexists. split; [done|]. cbn [nslot mask h']. split; [by rewrite length_insert|]. intros j c Hj.
    destruct (decide (i = j)) as [<-|Hne]; [|rewrite list_lookup_insert_ne in Hj by done; by apply Hc].
    rewrite list_lookup_insert_eq in Hj by (by eapply lookup_lt_Some). injection Hj as <-. split.
    + apply StronglySorted_app in Hs as (Hpn & Hsp & Hsn). apply StronglySorted_inv in Hsn as [Hsn Hall].
      apply StronglySorted_app. split_and!; [|done|constructor; [done|]].
      * intros a b Ha [->|Hb]%elem_of_cons; [rewrite Hk; apply Hpn; [done|left]|apply Hpn; [done|by right]].
      * eapply Forall_impl; [exact Hall|]. intros b Hb. by rewrite Hk.
    + apply Forall_app in Hh as [H1 H2]. apply Forall_cons in H2 as [H2 H3]. apply Forall_app. split; [done|].
      apply Forall_cons. by rewrite Hk.
  - change (av_nel h') with (av_nel h). rewrite Hnel, E1, E2. done.
Qed.

Lemma or_data_spec h s t c x o n :
  bounds_table h → n ∈ avtab_entries h → av_key n = allow_key s t c →
  ∃ h', or_data (Some h) (allow_key s t c) x o = Ret (Some h') o ∧ bounds_table h' ∧
    ∀ s' t' c' j, has_bit h' s' t' c' j ↔
      has_bit h s' t' c' j ∨ (allow_key s' t' c' = allow_key s t c ∧ N.testbit x j = true).
Proof.
  intros [Hwf Hal Hu] Hn Hk. destruct (avtab_focus h (allow_key s t c) Hwf) as (tb & ch & Ht & Hc & Hs & _ & Hf).
  set (key := allow_key s t c) in *. specialize (Hf (clear_enabled AVTAB_ALLOWED)).
  assert (n ∈ filter (λ n, key_match key (clear_enabled AVTAB_ALLOWED) (av_key n) = true) ch) as Hin.
  { rewrite <- Hf. apply list_elem_of_filter. split; [by apply allow_match, Hk; rewrite Hk|done]. }
  apply list_elem_of_filter in Hin as [Hm Hin].
  pose proof (scan_find key (clear_enabled AVTAB_ALLOWED) ch Hs) as Hscan.
  destruct (avtab_walk key (clear_enabled AVTAB_ALLOWED) ch) as [prev cur] eqn:Hw. cbn [snd] in Hscan.
  destruct (find_suffix _ ch) as [sfx|] eqn:Hfs.
  2: { apply find_suffix_none in Hfs. rewrite Forall_forall in Hfs. rewrite Hfs in Hm by done. done. }
  apply find_suffix_split in Hfs as (pre & y & next & Hpre & -> & Hy & _).
  destruct cur as [|y' next']; [done|]. unfold match_at in Hscan. destruct (key_match key _ (av_key y')); [|done].
  injection Hscan as -> ->. pose proof Hw as (Hch & _ & _)%walk_inv. rewrite Hch in Hc.
  unfold or_data. rewrite !bind_run. cbn [deref]. unfold mret at 1, M_ret at 1. rewrite bind_run, Ht. cbn [deref].
  unfold mret at 1, M_ret at 1. rewrite bind_run, Hc. cbn [deref specified key allow_key]. unfold mret at 1, M_ret at 1.
  rewrite <- Hch, Hw. set (y' := AvtabNode (av_key y) _ (merged y)). eexists. split; [done|].
  destruct (avtab_replace_wf h tb _ prev y y' next Hwf Ht Hc eq_refl) as (Hwf' & R & E & E').
  set (h' := Avtab _ _ _ _) in *. assert (y ∈ avtab_entries h) as Hyin by (rewrite E; left).
  assert (av_key y = key) as Hky by (by apply allow_match; [apply Hal|]). split.
  - split; [done|..].
    + intros m. rewrite E'. intros [->|Hm']%elem_of_cons; cbn; [by apply Hal|]. apply Hal. rewrite E. by right.
    + rewrite E'. rewrite E in Hu. exact Hu.
  - intros s' t' c' j. unfold has_bit. setoid_rewrite E'. setoid_rewrite E. setoid_rewrite elem_of_cons. split.
    + intros (m & [->|Hm'] & Hkm & Hj); [|left; exists m; auto].
      cbn in Hkm, Hj. rewrite N.lor_spec in Hj. apply orb_true_iff in Hj as [Hj|Hj]; [left; exists y; auto|right].
      split; [congruence|done].
    + intros [(m & [->|Hm'] & Hkm & Hj)|[Hk' Hj]].
      * exists y'. split; [by left|]. split; [done|]. cbn. by rewrite N.lor_spec, Hj.
      * exists m. auto.
      * exists y'. split; [by left|]. split; [cbn; congruence|]. cbn. rewrite N.lor_spec, Hj. apply orb_true_r.
Qed.

Lemma insert_allow_spec h s t c x o :
  bounds_table h → (∀ n, n ∈ avtab_entries h → av_key n ≠ allow_key s t c) →
  wp (avtab_insert (Some h) (allow_key s t c) (AvtabDatum x None)) o (λ r o', (o = [] → o' = [] ∧ r.1 = 0%Z) ∧
    ∃ h', r.2 = Some h' ∧ bounds_table h' ∧ (r.1 = 0%Z → ∀ s' t' c' j, has_bit h' s' t' c' j ↔
      has_bit h s' t' c' j ∨ (allow_key s' t' c' = allow_key s t c ∧ N.testbit x j = true))).
Proof.
  intros [Hwf Hal Hu] Hno. eapply wp_mono; [by apply avtab_insert_spec|]. intros r o' [Ho Hr].
  assert (existsb (λ n, key_match (allow_key s t c) (clear_enabled AVTAB_ALLOWED) (av_key n)) (avtab_entries h) = false) as Hdup.
  { apply not_true_is_false. intros (n & Hn%list_elem_of_In & Hm)%existsb_exists. apply allow_match in Hm; [|by apply Hal].
    by apply (Hno n). }
  destruct Hr as [(-> & Hd & _)|[[-> Hne]|(h' & -> & Hwf' & _ & E & _)]]; cbn [specified allow_key] in *.
  - congruence.
  - split; [done|]. exists h. split; [done|]. split; [by split|]. done.
  - split; [auto|]. exists h'. split; [done|]. set (n := AvtabNode _ _ _) in E. split.
    + split; [done|..].
      * intros m. rewrite E. intros [->|Hm]%elem_of_cons; [done|by apply Hal].
      * rewrite E. cbn. apply NoDup_cons. split; [|done]. intros (m & Hm & Hin)%list_elem_of_fmap. by apply (Hno m).
    + intros _ s' t' c' j. unfold has_bit. setoid_rewrite E. setoid_rewrite elem_of_cons. split.
      * intros (m & [->|Hm] & Hk & Hj); [right; by cbn in *|left; by exists m].
      * intros [(m & Hm & Hk & Hj)|[Hk Hj]]; [exists m; auto|]. exists n. auto.
Qed.

(** Permissions added to a table. *)
Definition grant := N → N → N → N → Prop.
Definition grows_by (h h' : avtab) (K : grant) : Prop :=
  bounds_table h' ∧ ∀ s t c j, has_bit h' s t c j ↔ has_bit h s t c j ∨ K s t c j.

Definition one_key (key : avtab_key) (x : N) : grant := λ s t c j, allow_key s t c = key ∧ N.testbit x j = true.

Lemma add_data_spec h s t c x o :
  bounds_table h →
  wp (add_data (Some h) (allow_key s t c) x) o (λ r o', (o = [] → o' = [] ∧ r.1 = 0%Z) ∧
    ∃ h', r.2 = Some h' ∧ bounds_table h' ∧ (r.1 = 0%Z → grows_by h h' (one_key (allow_key s t c) x))).
Proof.
  intros Hh. unfold add_data. destruct (search_bits h s t c o (or_intror Hh)) as (r & Hr & _ & Hno).
  wp_step. unfold wp at 1. rewrite Hr. destruct r as [d|].
  - assert (∃ n, n ∈ avtab_entries h ∧ av_key n = allow_key s t c) as (n & Hn & Hk).
    { rewrite avtab_search_spec in Hr by apply Hh. injection Hr as Hr. apply fmap_Some in Hr as (n & Hn & _).
      destruct (filter _ _) as [|n' l] eqn:El; [done|]. injection Hn as ->. assert (n ∈ n :: l) as Hn by left. rewrite <- El in Hn.
      apply list_elem_of_filter in Hn as [Hm Hn]. exists n. split; [done|]. by apply allow_match; [apply (bd_allow _ Hh)|]. }
    destruct (or_data_spec h s t c x o n Hh Hn Hk) as (h' & Hrun & Hh' & Hb).
    wp_step. unfold wp at 1. rewrite Hrun. wp_step. split; [done|]. exists h'. split; [done|]. split; [done|]. by intros _.
  - eapply wp_mono; [by apply insert_allow_spec, Hno|]. intros [rc h2] o' [Ho (h' & E & Hh' & Hb)]. split; [done|].
    exists h'. split; [done|]. split; [done|]. intros Hrc. split; [done|]. by apply Hb.
Qed.

(** ** Loops that add permissions *)

Section adds.
Context (other : option avtab).

(** What is granted by the other branch as well goes into the global table. *)
Definition tables_ok (st : bounds_tables) : Prop :=
  (∃ h, bt_avtab st = Some h ∧ bounds_table h) ∧ (is_Some other → ∃ g, bt_global st = Some g ∧ bounds_table g).

Definition tables_grow (st st' : bounds_tables) (K : grant) : Prop :=
  (∀ h, bt_avtab st = Some h → ∃ h', bt_avtab st' = Some h' ∧ grows_by h h' K) ∧
  match other with
  | None => bt_global st' = bt_global st
  | Some oth => ∀ g, bt_global st = Some g →
      ∃ g', bt_global st' = Some g' ∧ grows_by g g' (λ s t c j, K s t c j ∧ has_bit oth s t c j)
  end.

Definition adds (st : bounds_tables) (K : grant) (o : oracle) (r : Z * bounds_tables) (o' : oracle) : Prop :=
  (o = [] → o' = [] ∧ r.1 = 0%Z) ∧ tables_ok r.2 ∧ (r.1 = 0%Z → tables_grow st r.2 K).

Lemma grows_by_ext h h' K K' : (∀ s t c j, K s t c j ↔ K' s t c j) → grows_by h h' K → grows_by h h' K'.
Proof. intros HK [Hh Hb]. split; [done|]. intros s t c j. by rewrite Hb, HK. Qed.
Lemma grows_by_refl h (K : grant) : bounds_table h → (∀ s t c j, ¬ K s t c j) → grows_by h h K.
Proof. intros Hh HK. split; [done|]. intros s t c j. pose proof (HK s t c j). tauto. Qed.
Lemma grows_by_trans h1 h2 h3 K1 K2 (K : grant) :
  (∀ s t c j, K s t c j ↔ K1 s t c j ∨ K2 s t c j) → grows_by h1 h2 K1 → grows_by h2 h3 K2 → grows_by h1 h3 K.
Proof. intros HK [_ H1] [Hh H2]. split; [done|]. intros s t c j. rewrite H2, H1, HK. tauto. Qed.

Lemma tables_grow_ext st st' (K K' : grant) : (∀ s t c j, K s t c j ↔ K' s t c j) → tables_grow st st' K → tables_grow st st' K'.
Proof.
  intros HK [H1 H2]. split.
  - intros h Hh. destruct (H1 h Hh) as (h' & ? & ?). exists h'. split; [done|]. by eapply grows_by_ext.
  - destruct other as [oth|]; [|done]. intros g Hg. destruct (H2 g Hg) as (g' & ? & ?). exists g'. split; [done|].
    eapply grows_by_ext; [|done]. intros s t c j. specialize (HK s t c j). tauto.
Qed.

Lemma tables_grow_refl st (K : grant) : tables_ok st → (∀ s t c j, ¬ K s t c j) → tables_grow st st K.
Proof.
  intros [(h & Hh & Hb) Hg] HK. split.
  - intros h1 H1. exists h1. split; [done|]. apply grows_by_refl; [congruence|done].
  - destruct other as [oth|]; [|done]. intros g1 H1. exists g1. split; [done|]. destruct Hg as (g & ? & ?); [done|].
    apply grows_by_refl; [congruence|]. intros s t c j [? _]. by eapply HK.
Qed.

Lemma tables_grow_trans st1 st2 st3 (K1 K2 K : grant) :
  (∀ s t c j, K s t c j ↔ K1 s t c j ∨ K2 s t c j) →
  tables_grow st1 st2 K1 → tables_grow st2 st3 K2 → tables_grow st1 st3 K.
Proof.
  intros HK [A1 G1] [A2 G2]. split.
  - intros h Hh. destruct (A1 h Hh) as (h2 & Hh2 & ?), (A2 h2 Hh2) as (h3 & Hh3 & ?). exists h3. split; [done|].
    by eapply grows_by_trans.
  - destruct other as [oth|]; [|congruence]. intros g Hg. destruct (G1 g Hg) as (g2 & Hg2 & ?), (G2 g2 Hg2) as (g3 & Hg3 & ?).
    exists g3. split; [done|]. eapply grows_by_trans; [|done..]. intros s t c j. specialize (HK s t c j). tauto.
Qed.

Lemma adds_ext st (K K' : grant) o r o' : (∀ s t c j, K s t c j ↔ K' s t c j) → adds st K o r o' → adds st K' o r o'.
Proof. intros HK (Ho & Hok & Hg). split; [done|]. split; [done|]. intros Hrc. eapply tables_grow_ext; [exact HK|auto]. Qed.

Lemma adds_nothing st (K : grant) o : tables_ok st → (∀ s t c j, ¬ K s t c j) → adds st K o (0%Z, st) o.
Proof. intros Hok HK. split; [done|]. split; [done|]. intros _. by apply tables_grow_refl. Qed.

(** Two steps, of which the first may fail. *)
Lemma adds_then st (K1 K2 K : grant) (m1 : M (Z * bounds_tables)) (m2 : bounds_tables → M (Z * bounds_tables)) o :
  (∀ s t c j, K s t c j ↔ K1 s t c j ∨ K2 s t c j) →
  wp m1 o (adds st K1 o) → (∀ st' o', tables_ok st' → wp (m2 st') o' (adds st' K2 o')) →
  wp ('(rc, st) ← m1; if bool_decide (rc ≠ 0%Z) then mret (rc, st) else m2 st) o (adds st K o).
Proof.
  intros HK H1 H2. wp_step. eapply wp_mono; [exact H1|]. intros [rc st1] o1 (Ho1 & Hok1 & Hg1). cbn [fst snd] in *.
  case_bool_decide as Hrc.
  - wp_step. split; [|split; [done|by intros ?]]. intros H. by destruct (Ho1 H).
  - assert (rc = 0%Z) as -> by lia. eapply wp_mono; [by apply H2|]. intros [rc st2] o2 (Ho2 & Hok2 & Hg2). cbn [fst snd] in *.
    split; [intros H; by apply Ho2, Ho1|]. split; [done|]. intros Hrc2. eapply tables_grow_trans; [exact HK|auto..].
Qed.

(** A loop over a list. *)
Lemma adds_list {A} (body : A → bounds_tables → M ((Z * bounds_tables) + bounds_tables)) (Ks : A → grant) l st o :
  tables_ok st →
  (∀ a st o, a ∈ l → tables_ok st → wp (body a st) o (λ r o',
     match r with inl x => x.1 ≠ 0%Z ∧ adds st (Ks a) o x o' | inr st' => adds st (Ks a) o (0%Z, st') o' end)) →
  wp (r ← for_list body l st; mret match r with inl x => x | inr st => (0%Z, st) end) o
    (adds st (λ s t c j, ∃ a, a ∈ l ∧ Ks a s t c j) o).
Proof.
  intros Hok Hbody. wp_step.
  apply (wp_for_list (λ dn st' o', (o = [] → o' = []) ∧ tables_ok st' ∧
           tables_grow st st' (λ s t c j, ∃ a, a ∈ dn ∧ Ks a s t c j))).
  - split; [done|]. split; [done|]. apply tables_grow_refl; [done|]. by intros s t c j (a & ?%elem_of_nil & _).
  - intros dn a rest st1 o1 Hsplit (Ho & Hok1 & Hg1).
    eapply wp_mono; [apply Hbody; [rewrite Hsplit; apply elem_of_app; right; left|done]|]. intros [[rc x]|st2] o2.
    + intros (Hrc & Ho2 & Hok2 & _). cbn [fst snd] in *. wp_step. split; [|split; [done|by intros ?]].
      intros H. by destruct (Ho2 (Ho H)).
    + intros (Ho2 & Hok2 & Hg2). cbn [fst snd] in *. split; [intros H; by apply Ho2, Ho|]. split; [done|].
      eapply tables_grow_trans; [|exact Hg1|by apply Hg2]. intros s t c j. setoid_rewrite elem_of_app.
      setoid_rewrite list_elem_of_singleton. naive_solver.
  - intros st1 o1 (Ho & Hok1 & Hg1). wp_step. split; [intros H; split; [by apply Ho|done]|]. split; [done|]. by intros _.
Qed.

Context (Hother : ∀ oth, other = Some oth → searchable oth).

Lemma insert_rule_spec s t c x st o :
  tables_ok st → wp (bounds_insert_rule other (allow_key s t c) x st) o (adds st (one_key (allow_key s t c) x) o).
Proof.
  intros [(h & Hh & Hb) Hg]. unfold bounds_insert_rule. rewrite Hh. wp_step.
  eapply wp_mono; [by apply add_data_spec|]. intros [rc h2] o1 [Ho1 (h1 & E & Hb1 & Hgrow)]. cbn [fst snd] in *. subst h2.
  assert (tables_ok (BoundsTables (Some h1) (bt_global st))) as Hok1 by (split; [by exists h1|done]).
  case_bool_decide as Hrc.
  { wp_step. split; [intros H; by destruct (Ho1 H)|]. split; [done|]. by intros ?. }
  assert (rc = 0%Z) as -> by lia. specialize (Hgrow eq_refl).
  assert (∀ h', bt_avtab st = Some h' → ∃ h2, Some h1 = Some h2 ∧ grows_by h' h2 (one_key (allow_key s t c) x)) as HA.
  { intros h' H'. exists h1. split; [done|]. congruence. }
  unfold tables_grow in *. destruct other as [oth|] eqn:Eo.
  2: { wp_step. split; [done|]. split; [done|]. intros _. unfold tables_grow. rewrite Eo. by split. }
  destruct (Hg ltac:(done)) as (g & Hgg & Hbg). specialize (Hother oth eq_refl).
  destruct (search_bits oth s t c o1 Hother) as (d & Hd & Hbits & _). wp_step. unfold wp at 1. rewrite Hd.
  set (x' := match d with Some d => N.land (data d) x | None => 0 end).
  assert (∀ s' t' c' j, one_key (allow_key s t c) x s' t' c' j ∧ has_bit oth s' t' c' j ↔ one_key (allow_key s t c) x' s' t' c' j) as HK.
  { intros s' t' c' j. unfold one_key. split.
    - intros [[[= -> -> ->] Hx] Ho]. split; [done|]. apply Hbits in Ho. unfold x'. destruct d; [|done]. cbn in Ho.
      by rewrite N.land_spec, Ho, Hx.
    - intros [[= -> -> ->] Hx]. unfold x' in Hx. destruct d as [d|]; [|by rewrite N.bits_0 in Hx].
      rewrite N.land_spec in Hx. apply andb_true_iff in Hx as [H1 H2]. split; [done|]. by apply Hbits. }
  destruct (truth x') eqn:Et.
  - wp_step. cbn [bt_global bt_avtab]. rewrite Hgg. eapply wp_mono; [by apply add_data_spec|].
    intros [rc g2] o2 [Ho2 (g1 & E & Hb2 & Hgrow2)]. cbn [fst snd] in *. subst g2. wp_step.
    split; [intros H; by apply Ho2, Ho1|]. split; [split; [by exists h1|intros _; by exists g1]|].
    cbn [fst snd]. intros Hrc2. unfold tables_grow. rewrite Eo. split; [done|]. cbn. intros g' Hg'. exists g1. split; [done|].
    assert (g' = g) as -> by congruence. eapply grows_by_ext; [|by apply Hgrow2]. intros s' t' c' j. by rewrite HK.
  - wp_step. split; [done|]. split; [done|]. intros _. unfold tables_grow. rewrite Eo. split; [done|]. cbn. intros g' Hg'. exists g'. split; [done|].
    apply grows_by_refl; [congruence|]. intros s' t' c' j. rewrite HK. intros [_ Hj].
    assert (x' = 0) as -> by (by apply N.eqb_eq, negb_false_iff). by rewrite N.bits_0 in Hj.
Qed.

Lemma insert_each_spec types key x st o :
  ebitmap_wf types → (∀ i, ebitmap_bit types i = true → ∃ s t c, key i = allow_key s t c) → tables_ok st →
  wp (insert_each other types key x st) o
    (adds st (λ s t c j, ∃ i, ebitmap_bit types i = true ∧ one_key (key i) x s t c j) o).
Proof.
  intros Hwf Hkey Hok. unfold insert_each. eapply wp_same; [by rewrite bind_run, for_each_bit_visited, <- bind_run|].
  eapply wp_mono; [apply (adds_list (λ i st, if negb (ebitmap_bit types i) then mret (inr st) else
        '(rc, st) ← bounds_insert_rule other (key i) x st; mret (if bool_decide (rc ≠ 0%Z) then inl (rc, st) else inr st))
      (λ i s t c j, ebitmap_bit types i = true ∧ one_key (key i) x s t c j)); [done|]|].
  - intros i st1 o1 _ Hok1. destruct (ebitmap_bit types i) eqn:E; cbn [negb].
    + destruct (Hkey i E) as (s & t & c & ->). wp_step. eapply wp_mono; [by apply insert_rule_spec|].
      intros [rc st2] o2 Hr. wp_step. case_bool_decide as Hrc; [split; [done|]|].
      * eapply adds_ext; [|exact Hr]. tauto.
      * assert (rc = 0%Z) as -> by lia. eapply adds_ext; [|exact Hr]. tauto.
    + wp_step. apply adds_nothing; [done|]. by intros s t c j [? _].
  - intros r o1 Hr. eapply adds_ext; [|exact Hr]. intros s t c j. cbn. split.
    + intros (i & _ & Hi & Hk). by exists i.
    + intros (i & Hi & Hk). exists i. split; [by apply bit_position|done].
Qed.
End adds.

(** * What rules grant *)

(** The types of an attribute or type, as numbers from 1. *)
Definition in_attr (p : policydb) (v s : N) : Prop := 0 < s ∧ ebitmap_bit (types_of p v) (s - 1) = true.
Definition key_grants (p : policydb) (src tgt class x : N) : grant := λ s t c j,
  in_attr p src s ∧ in_attr p tgt t ∧ c = class ∧ N.testbit x j = true.
Definition node_grants (p : policydb) (n : avtab_node) : grant :=
  let k := av_key n in key_grants p (source_type k) (target_type k) (target_class k) (data (av_datum n)).
Definition list_grants (p : policydb) (l : list avtab_node) : grant := λ s t c j, ∃ n, n ∈ l ∧ node_grants p n s t c j.

(** The part of it that concerns a type. *)
Definition touching (v : N) (K : grant) : grant := λ s t c j, (s = v ∨ t = v) ∧ K s t c j.

Definition is_allow (n : avtab_node) : bool := truth (N.land (specified (av_key n)) AVTAB_ALLOWED).

(** A class whose name and permissions a message can read. *)
Definition class_named (p : policydb) (c : N) : Prop :=
  0 < c < 2 ^ 16 ∧ is_Some (p_class_val_to_name p !! N.to_nat (c - 1)) ∧
  ∃ cd, class_val_to_struct p !! N.to_nat (c - 1) = Some (Some cd) ∧ tables_wf cd.

(** A loaded policy whose numbers fit into the keys of rules. *)
Record bounds_ready (p : policydb) : Prop := {
  br_checked : checked_policy p;
  br_count : N.of_nat (length (attr_type_map p)) < 2 ^ 16;
  br_bits : ∀ e, e ∈ attr_type_map p → ∀ i, ebitmap_bit e i = true → i < N.of_nat (length (attr_type_map p));
  br_types : length (type_val_to_struct p) = length (attr_type_map p);
  br_names : N.of_nat (length (attr_type_map p)) ≤ N.of_nat (length (p_type_val_to_name p));
  br_bounds : ∀ i td, type_val_to_struct p !! i = Some (Some td) → type_bounds td ≤ N.of_nat (length (attr_type_map p));
  br_classes : ∀ n, n ∈ avtab_entries (te_avtab p) ∨ n ∈ avtab_entries (te_cond_avtab p) → class_named p (target_class (av_key n));
  br_ptrs : ∀ node q, node ∈ cond_list p → q ∈ true_list node ∨ q ∈ false_list node → ptr_valid (te_cond_avtab p) q }.

Lemma u16_small x : x < 2 ^ 16 → u16 x = x.
Proof. apply N.mod_small. Qed.

Section parent.
Context (p : policydb) (Hp : bounds_ready p) (parent : N).
Hypothesis Hparent : 0 < parent < 2 ^ 16.

#[local] Abbreviation ntypes := (N.of_nat (length (attr_type_map p))).

Lemma types_of_bound v i : 0 < v ≤ ntypes → ebitmap_bit (types_of p v) i = true → i < ntypes.
Proof.
  intros Hv. unfold types_of. destruct (attr_type_map p !! N.to_nat (v - 1)) as [e|] eqn:E; [|done].
  cbn. intros Hi. apply (br_bits _ Hp e); [by eapply list_elem_of_lookup_2|done].
Qed.

Lemma parent_bit v : ebitmap_get_bit (types_of p v) (dec32 parent) = true ↔ in_attr p v parent.
Proof.
  rewrite dec32_pred by lia. rewrite get_bit_wf by apply types_of_wf, Hp. unfold in_attr. split; [|tauto].
  intros ?. split; [lia|done].
Qed.

Lemma expand_rule_spec other src tgt class x st o :
  (∀ oth, other = Some oth → searchable oth) → tables_ok other st →
  0 < src ≤ ntypes → 0 < tgt ≤ ntypes → class < 2 ^ 16 →
  wp (bounds_expand_rule p other parent src tgt class x st) o
    (adds other st (touching parent (key_grants p src tgt class x)) o).
Proof.
  intros Hother Hok Hs Ht Hc. pose proof (br_count _ Hp) as Hn.
  assert (∀ v, ebitmap_wf (types_of p v)) as Hwf by (intros v; apply types_of_wf, Hp).
  unfold bounds_expand_rule. wp_step. unfold wp at 1. rewrite (attr_types_run p (br_checked _ Hp)) by done.
  eapply (adds_then other st (λ s t c j, s = parent ∧ key_grants p src tgt class x s t c j)
            (λ s t c j, t = parent ∧ key_grants p src tgt class x s t c j)).
  - intros s t c j. unfold touching. tauto.
  - pose proof (parent_bit src) as Hb. destruct (ebitmap_get_bit _ _).
    + wp_step. unfold wp at 1. rewrite (attr_types_run p (br_checked _ Hp)) by done.
      eapply wp_mono; [apply insert_each_spec; [done|done| |done]|].
      { intros i _. by eexists _, _, _. }
      intros r o' Hr. eapply adds_ext; [|exact Hr]. intros s t c j. cbn. unfold one_key, key_grants. rewrite !u16_small by lia. split.
      * intros (i & Hi & [= -> -> ->] & Hj). assert (i < ntypes) by (by eapply types_of_bound).
        rewrite u16_small by lia. split; [done|]. split; [by apply Hb|]. split; [|done]. split; [lia|]. by replace (i + 1 - 1) with i by lia.
      * intros (-> & _ & (H0 & Hi) & -> & Hj). exists (t - 1). split; [done|]. split; [|done].
        apply types_of_bound in Hi; [|done]. rewrite u16_small by lia. unfold allow_key. f_equal. lia.
    + wp_step. apply adds_nothing; [done|]. intros s t c j (-> & H & _). by apply Hb in H.
  - intros st' o' Hok'. wp_step. unfold wp at 1. rewrite (attr_types_run p (br_checked _ Hp)) by done.
    pose proof (parent_bit tgt) as Hb. destruct (ebitmap_get_bit _ _).
    + wp_step. unfold wp at 1. rewrite (attr_types_run p (br_checked _ Hp)) by done.
      eapply wp_mono; [apply insert_each_spec; [done|done| |done]|].
      { intros i _. by eexists _, _, _. }
      intros r o1 Hr. eapply adds_ext; [|exact Hr]. intros s t c j. cbn. unfold one_key, key_grants. rewrite !u16_small by lia. split.
      * intros (i & Hi & [= -> -> ->] & Hj). assert (i < ntypes) by (by apply (types_of_bound src)).
        rewrite u16_small by lia. split; [done|]. split; [|split; [by apply Hb|done]]. split; [lia|]. by replace (i + 1 - 1) with i by lia.
      * intros (-> & (H0 & Hi) & _ & -> & Hj). exists (s - 1). split; [done|]. split; [|done].
        apply types_of_bound in Hi; [|done]. rewrite u16_small by lia. unfold allow_key. f_equal. lia.
    + wp_step. apply adds_nothing; [done|]. intros s t c j (-> & _ & H & _). by apply Hb in H.
Qed.

(** A rule of one of the tables. *)
Definition rule_in_range (n : avtab_node) : Prop :=
  0 < source_type (av_key n) ≤ ntypes ∧ 0 < target_type (av_key n) ≤ ntypes ∧ class_named p (target_class (av_key n)).

Lemma te_in_range n : n ∈ avtab_entries (te_avtab p) → rule_in_range n.
Proof.
  intros Hn. destruct (cw_te _ (br_checked _ Hp)) as [_ Hk]. destruct (Hk n Hn) as (? & ? & _).
  do 2 (split; [done|]). apply (br_classes _ Hp). by left.
Qed.

(** The rules of a conditional list. *)
Definition list_rules (l : list avtab_ptr) : list avtab_node := omap (node_at (te_cond_avtab p)) l.

Lemma node_at_entry tab q n : node_at tab q = Some n → n ∈ avtab_entries tab.
Proof.
  intros (t & c & Ht & Hc & Hn)%node_at_split. unfold avtab_entries. rewrite Ht.
  apply list_elem_of_In, in_concat. exists c. split; apply list_elem_of_In; by eapply list_elem_of_lookup_2.
Qed.

Lemma cond_in_range q n : node_at (te_cond_avtab p) q = Some n → rule_in_range n.
Proof.
  intros Hn%node_at_entry. destruct (cw_cond _ (br_checked _ Hp)) as [_ Hk]. destruct (Hk n Hn) as (? & ? & _).
  do 2 (split; [done|]). apply (br_classes _ Hp). by right.
Qed.

Lemma expand_node_spec other n st o :
  (∀ oth, other = Some oth → searchable oth) → tables_ok other st → rule_in_range n →
  let k := av_key n in
  wp (bounds_expand_rule p other parent (source_type k) (target_type k) (target_class k) (data (av_datum n)) st) o
    (adds other st (touching parent (node_grants p n)) o).
Proof. intros Hother Hok (? & ? & [[? ?] _]). by apply expand_rule_spec. Qed.

Lemma expand_cond_rules_spec other l st o :
  (∀ oth, other = Some oth → searchable oth) → tables_ok other st → Forall (ptr_valid (te_cond_avtab p)) l →
  wp (bounds_expand_cond_rules p other parent l st) o
    (adds other st (touching parent (list_grants p (list_rules l))) o).
Proof.
  intros Hother Hok Hl. unfold bounds_expand_cond_rules.
  eapply wp_mono; [apply (adds_list other _ (λ q s t c j, ∃ n, node_at (te_cond_avtab p) q = Some n ∧ touching parent (node_grants p n) s t c j)); [done|]|].
  - intros q st1 o1 Hq Hok1. rewrite Forall_forall in Hl. destruct (Hl q Hq) as [n Hn]. wp_step. apply wp_deref. exists n. split; [done|].
    wp_step. eapply wp_mono; [apply expand_node_spec; [done|done|by eapply cond_in_range]|]. intros [rc st2] o2 Hr. wp_step.
    assert (∀ s t c j, touching parent (node_grants p n) s t c j ↔
              ∃ n, node_at (te_cond_avtab p) q = Some n ∧ touching parent (node_grants p n) s t c j) as HK.
    { intros s t c j. rewrite Hn. naive_solver. }
    case_bool_decide as Hrc; [split; [done|]; by eapply adds_ext|]. assert (rc = 0%Z) as -> by lia. by eapply adds_ext.
  - intros r o1 Hr. eapply adds_ext; [|exact Hr]. intros s t c j. cbn. unfold list_grants, list_rules, touching.
    setoid_rewrite list_elem_of_omap. naive_solver.
Qed.

Lemma expand_te_spec h o :
  bounds_table h →
  wp (avtab_map (Some (te_avtab p)) (bounds_expand_rule_callback p parent) (BoundsTables (Some h) None)) o
    (adds None (BoundsTables (Some h) None)
       (touching parent (list_grants p (filter (λ n, is_allow n = true) (avtab_entries (te_avtab p))))) o).
Proof.
  intros Hh. eapply wp_same; [apply avtab_map_entries, (cw_te _ (br_checked _ Hp))|].
  eapply wp_mono; [apply (adds_list None _ (λ n s t c j, is_allow n = true ∧ touching parent (node_grants p n) s t c j))|].
  - split; [by exists h|]. by intros [].
  - intros n st o1 Hn Hok. wp_step. unfold bounds_expand_rule_callback, is_allow. destruct (truth _); cbn [negb].
    + eapply wp_mono; [apply (expand_node_spec None); [done|done|by apply te_in_range]|]. intros [rc st2] o2 Hr. wp_step.
      assert (∀ s t c j, touching parent (node_grants p n) s t c j ↔ true = true ∧ touching parent (node_grants p n) s t c j) as HK by tauto.
      destruct (Z.eqb_spec rc 0) as [->|Hrc]; [|split; [done|]]; by eapply adds_ext.
    + wp_step. wp_step. apply adds_nothing; [done|]. by intros s t c j [? _].
  - intros r o1 Hr. eapply adds_ext; [|exact Hr]. intros s t c j. cbn. unfold list_grants, touching.
    setoid_rewrite list_elem_of_filter. naive_solver.
Qed.
(** ** The tables of a parent *)

Lemma searchable_destroyed h : searchable h → av_htable h = None ∨ avtab_wf h.
Proof. intros [?|[? _ _]]; auto. Qed.

Lemma new_table_ok h : avtab_wf h → avtab_entries h = [] → bounds_table h.
Proof. intros Hwf He. split; rewrite ?He; [done|by intros n ?%elem_of_nil|constructor]. Qed.

Lemma no_bits_in h s t c j : avtab_entries h = [] → ¬ has_bit h s t c j.
Proof. intros He (n & Hn & _). rewrite He in Hn. by apply elem_of_nil in Hn. Qed.

Lemma alloc_table_spec o :
  wp (avtab_alloc no_table BOUNDS_AVTAB_SIZE) o (λ r o', (o = [] → o' = [] ∧ r.1 = 0%Z) ∧ searchable r.2 ∧
    (r.1 = 0%Z → bounds_table r.2 ∧ avtab_entries r.2 = [])).
Proof.
  eapply wp_mono; [by apply avtab_alloc_spec|]. intros r o' [Ho [(Hr & Hne & Hn)|(Hr & Hwf & He & _)]].
  - split; [done|]. split; [by left|]. rewrite Hr. done.
  - split; [auto|]. pose proof (new_table_ok _ Hwf He). split; [by right|]. by intros _.
Qed.

(** The global table that a branch adds to, if it does. *)
Definition global_ok (other global : option avtab) : Prop := is_Some other → ∃ g, global = Some g ∧ bounds_table g.

Lemma expand_branch_spec l global other o :
  (∀ oth, other = Some oth → searchable oth) → Forall (ptr_valid (te_cond_avtab p)) l → global_ok other global →
  let K := touching parent (list_grants p (list_rules l)) in
  wp (expand_branch p parent l global other) o (λ '(rc, h, g) o',
    (o = [] → o' = [] ∧ rc = 0%Z) ∧ searchable h ∧ global_ok other g ∧
    (rc = 0%Z → (∀ s t c j, has_bit h s t c j ↔ K s t c j) ∧
       ∀ oth g0, other = Some oth → global = Some g0 →
         ∃ g1, g = Some g1 ∧ grows_by g0 g1 (λ s t c j, K s t c j ∧ has_bit oth s t c j))).
Proof.
  intros Hother Hl Hg K. unfold expand_branch. destruct l as [|q l].
  { wp_step. assert (∀ s t c j, ¬ K s t c j) as HK by (by intros s t c j (_ & n & ?%elem_of_nil & _)).
    split; [done|]. split; [by left|]. split; [done|]. intros _. split.
    - intros s t c j. split; [|by intros ?%HK]. by intros ?%no_bits_in.
    - intros oth g0 -> ->. exists g0. split; [done|]. destruct Hg as (g & [= <-] & Hb); [done|]. apply grows_by_refl; [done|].
      intros s t c j [? _]. by eapply HK. }
  set (ql := q :: l) in *. wp_step. eapply wp_mono; [apply alloc_table_spec|]. intros [rc h] o1 (Ho1 & Hs1 & Hh1). cbn [fst snd] in *.
  case_bool_decide as Hrc.
  { wp_step. split; [intros H; by destruct (Ho1 H)|]. split; [done|]. split; [done|]. by intros ?. }
  assert (rc = 0%Z) as -> by lia. destruct (Hh1 eq_refl) as [Hb He]. wp_step.
  eapply wp_mono; [apply (expand_cond_rules_spec other ql (BoundsTables (Some h) global) o1 Hother); [|done]|].
  { split; [by exists h|done]. }
  intros [rc st] o2 (Ho2 & [(h2 & E2 & Hb2) Hok2] & Hgrow). cbn [fst snd] in *. wp_step. apply wp_deref. exists h2. split; [done|]. wp_step.
  split; [intros H; by apply Ho2, Ho1|]. split; [by right|]. split; [done|]. intros Hrc0. destruct (Hgrow Hrc0) as [HA HG].
  destruct (HA h eq_refl) as (h' & E & _ & Hbits). assert (h' = h2) as -> by congruence. split.
  - intros s t c j. rewrite Hbits. split; [|by right]. by intros [?%no_bits_in|?].
  - intros oth g0 -> ->. exact (HG g0 eq_refl).
Qed.

(** What both branches of a block grant. *)
Definition common_grants (node : cond_node) : grant := λ s t c j,
  list_grants p (list_rules (true_list node)) s t c j ∧ list_grants p (list_rules (false_list node)) s t c j.

Record info_ok (ci : bounds_cond_info) : Prop := {
  io_true : searchable (true_avtab ci);
  io_false : searchable (false_avtab ci) }.

Definition info_exact (ci : bounds_cond_info) : Prop :=
  (∀ s t c j, has_bit (true_avtab ci) s t c j ↔ touching parent (list_grants p (list_rules (true_list (ci_node ci)))) s t c j) ∧
  (∀ s t c j, has_bit (false_avtab ci) s t c j ↔ touching parent (list_grants p (list_rules (false_list (ci_node ci)))) s t c j).

Lemma destroy_info_spec l o : Forall info_ok l → wp (bounds_destroy_cond_info l) o (λ _ o', o' = o).
Proof.
  intros Hl. unfold bounds_destroy_cond_info. wp_step.
  apply (wp_for_list (λ _ _ o', o' = o)); [done| |intros; by wp_step].
  intros dn ci rest s o' -> ->. apply Forall_app in Hl as [_ [[Ht Hf] _]%Forall_cons].
  wp_step. eapply wp_mono; [by apply avtab_destroy_spec, searchable_destroyed|]. intros r1 o1 [-> _].
  wp_step. eapply wp_mono; [by apply avtab_destroy_spec, searchable_destroyed|]. intros r2 o2 [-> _]. by wp_step.
Qed.

Lemma expand_failed_spec rc g l o :
  searchable g → Forall info_ok l →
  wp (expand_failed rc g l) o (λ r o', o' = o ∧ r.1.1 = rc ∧ searchable r.1.2 ∧ r.2 = []).
Proof.
  intros Hg Hl. unfold expand_failed. wp_step. eapply wp_mono; [by apply avtab_destroy_spec, searchable_destroyed|].
  intros r1 o1 [-> (g' & -> & Hn)]. wp_step. eapply wp_mono; [by apply destroy_info_spec|]. intros _ o2 ->.
  wp_step. apply wp_deref. exists g'. split; [done|]. wp_step. split_and!; try done. by left.
Qed.

Lemma expand_cond_node_spec cur g l o :
  cur ∈ cond_list p → bounds_table g → Forall info_ok l →
  wp (expand_cond_node p parent cur (g, l)) o (λ r o', (o = [] → o' = []) ∧
    match r with
    | inl (rc, g', l') => o ≠ [] ∧ searchable g' ∧ Forall info_ok l'
    | inr (g', l') => grows_by g g' (touching parent (common_grants cur)) ∧
        ∃ ci, l' = ci :: l ∧ ci_node ci = cur ∧ info_ok ci ∧ info_exact ci
    end).
Proof.
  intros Hcur Hg Hl. unfold expand_cond_node.
  assert (Forall (ptr_valid (te_cond_avtab p)) (true_list cur) ∧ Forall (ptr_valid (te_cond_avtab p)) (false_list cur)) as [Hpt Hpf].
  { split; apply Forall_forall; intros q Hq; apply (br_ptrs _ Hp cur); auto. }
  wp_step. apply wp_malloc. intros b o1 Hb. destruct b; cbn [negb].
  2: { wp_step. split; [naive_solver|]. split; [intros H; by destruct (Hb H)|]. split; [by right|done]. }
  wp_step. eapply wp_mono; [apply expand_branch_spec; [done|exact Hpt|by intros []]|].
  intros [[rc t] g1] o2 (Ho2 & Ht & _ & Hex). case_bool_decide as Hrc.
  { wp_step. split; [intros H; by apply Ho2, Hb|]. split; [intros H; by destruct (Ho2 (proj2 (Hb H)))|]. split; [by right|].
    constructor; [|done]. split; [done|by left]. }
  assert (rc = 0%Z) as -> by lia. destruct (Hex eq_refl) as [Htb _]. wp_step.
  eapply wp_mono; [apply expand_branch_spec; [by intros oth [= <-]|exact Hpf|by intros _; exists g]|].
  intros [[rc f] g2] o3 (Ho3 & Hf & Hg2 & Hex3). destruct (Hg2 ltac:(done)) as (g' & -> & Hg'). wp_step. apply wp_deref. exists g'. split; [done|].
  case_bool_decide as Hrc3; wp_step.
  { split; [intros H; by apply Ho3, Ho2, Hb|]. split; [intros H; by destruct (Ho3 (proj1 (Ho2 (proj2 (Hb H)))))|]. split; [by right|].
    constructor; [|done]. by split. }
  assert (rc = 0%Z) as -> by lia. destruct (Hex3 eq_refl) as [Hfb Hgrow]. split; [intros H; by apply Ho3, Ho2, Hb|].
  destruct (Hgrow t g eq_refl eq_refl) as (g1' & [= <-] & Hgr). split.
  - eapply grows_by_ext; [|exact Hgr]. intros s t' c j. cbn. rewrite Htb. unfold touching, common_grants. tauto.
  - eexists. split; [done|]. split; [done|]. split; [by split|]. by split.
Qed.

Definition te_allow : list avtab_node := filter (λ n, is_allow n = true) (avtab_entries (te_avtab p)).

(** What is granted whatever the Booleans are. *)
Definition always_grants : grant := λ s t c j,
  list_grants p te_allow s t c j ∨ ∃ node, node ∈ cond_list p ∧ common_grants node s t c j.

Definition parent_tables (g : avtab) (l : list bounds_cond_info) : Prop :=
  (∀ s t c j, has_bit g s t c j ↔ touching parent always_grants s t c j) ∧
  ci_node <$> l = reverse (cond_list p) ∧ Forall info_exact l.

Lemma expand_parent_rules_spec o :
  wp (bounds_expand_parent_rules p parent) o (λ '(rc, g, l) o', (o = [] → o' = [] ∧ rc = 0%Z ∧ parent_tables g l) ∧
    searchable g ∧ Forall info_ok l ∧ (ci_node <$> l = reverse (cond_list p) ∨ l = [])).
Proof.
  assert (∀ rc g l o1, searchable g → Forall info_ok l → o ≠ [] →
    wp (expand_failed rc g l) o1 (λ '(rc, g, l) o', (o = [] → o' = [] ∧ rc = 0%Z ∧ parent_tables g l) ∧
      searchable g ∧ Forall info_ok l ∧ (ci_node <$> l = reverse (cond_list p) ∨ l = []))) as Hfail.
  { intros rc g l o1 Hg Hl Hne. eapply wp_mono; [by apply expand_failed_spec|]. intros [[rc' g'] l'] o2 (_ & _ & Hs & E). cbn in *. subst l'.
    split; [done|]. split; [done|]. split; [constructor|]. by right. }
  unfold bounds_expand_parent_rules. wp_step. eapply wp_mono; [apply alloc_table_spec|].
  intros [rc h] o1 (Ho1 & Hs1 & Hh1). cbn [fst snd] in *. case_bool_decide as Hrc.
  { apply Hfail; [done|constructor|]. intros H. by destruct (Ho1 H). }
  assert (rc = 0%Z) as -> by lia. destruct (Hh1 eq_refl) as [Hb He]. wp_step. eapply wp_mono; [by apply expand_te_spec|].
  intros [rc st] o2 (Ho2 & [(g & Eg & Hbg) _] & Hgrow). cbn [fst snd] in *. wp_step. apply wp_deref. exists g. split; [done|].
  case_bool_decide as Hrc2.
  { apply Hfail; [by right|constructor|]. intros H. by destruct (Ho2 (proj1 (Ho1 H))). }
  assert (rc = 0%Z) as -> by lia. destruct (Hgrow eq_refl) as [HA _]. destruct (HA h eq_refl) as (g' & E & Hgg).
  assert (g' = g) as -> by (cbn in E; congruence). clear HA E Hgrow. wp_step.
  apply (wp_for_list (λ dn '(g', l) o', (o = [] → o' = []) ∧ bounds_table g' ∧ Forall info_ok l ∧ Forall info_exact l ∧
           ci_node <$> l = reverse dn ∧
           grows_by g g' (λ s t c j, ∃ node, node ∈ dn ∧ touching parent (common_grants node) s t c j))).
  - split; [intros H; by apply Ho2, Ho1|]. split; [done|]. do 2 (split; [constructor|]). split; [done|].
    apply grows_by_refl; [done|]. by intros s t c j (node & ?%elem_of_nil & _).
  - intros dn cur rest [g1 l] o3 Hsplit (Ho3 & Hg1 & Hl & Hle & Hn & Hgr).
    assert (cur ∈ cond_list p) as Hcur by (rewrite Hsplit; apply elem_of_app; right; left).
    eapply wp_mono; [by apply expand_cond_node_spec|]. intros [[[rc' g2] l2]|[g2 l2]] o4 [Ho4 Hr].
    + destruct Hr as (Hne & Hs & Hl2). apply Hfail; [done|done|]. intros H. by apply Hne, Ho3.
    + destruct Hr as (Hgr2 & ci & -> & Hnode & Hok & Hex). split; [auto|]. split; [apply Hgr2|].
      do 2 (split; [by constructor|]). split; [cbn; by rewrite reverse_snoc, Hn, Hnode|].
      eapply grows_by_trans; [|exact Hgr|exact Hgr2]. intros s t c j. setoid_rewrite elem_of_app. setoid_rewrite list_elem_of_singleton.
      cbn. naive_solver.
  - intros [g1 l] o3 (Ho3 & Hg1 & Hl & Hle & Hn & Hgr). wp_step. split; [|split; [by right|split; [done|by left]]].
    intros H. split; [auto|]. split; [done|]. split; [|done]. intros s t c j. destruct Hgr as [_ ->]. destruct Hgg as [_ ->].
    pose proof (no_bits_in h s t c j He). unfold always_grants, touching. fold te_allow. naive_solver.
Qed.
End parent.

(** * The rules of the child *)

Definition covered (G : grant) (s t c x : N) : Prop := ∀ j, N.testbit x j = true → G s t c j.

(** The permissions of the tables that a rule is compared with. *)
Definition covers (global : option avtab) (cur : avtab) : grant := λ s t c j,
  has_bit cur s t c j ∨ ∃ g, global = Some g ∧ has_bit g s t c j.

Lemma no_global cur s t c j : covers None cur s t c j ↔ has_bit cur s t c j.
Proof. unfold covers. split; [by intros [?|(g & ? & _)]|by left]. Qed.
Lemma some_global g cur s t c j : covers (Some g) cur s t c j ↔ has_bit cur s t c j ∨ has_bit g s t c j.
Proof. unfold covers. split; [intros [?|(g' & [= <-] & ?)]; auto|intros [?|?]; [by left|right; by exists g]]. Qed.

Lemma ldiff_bits x d j : N.testbit (match d with Some d => N.ldiff x (data d) | None => x end) j = N.testbit x j && negb (datum_bit d j).
Proof. destruct d; cbn; [by rewrite N.ldiff_spec|by rewrite andb_true_r]. Qed.

Lemma not_covered_spec global cur s t c x o :
  searchable cur → (∀ g, global = Some g → searchable g) →
  ∃ d, bounds_not_covered global cur (allow_key s t c) x o = Ret d o ∧ (truth d = false ↔ covered (covers global cur) s t c x).
Proof.
  intros Hcur Hg. destruct (search_bits cur s t c o Hcur) as (r & Hr & Hb & _). unfold bounds_not_covered. rewrite bind_run, Hr.
  assert (∀ d (G : grant), (∀ j, N.testbit d j = true ↔ N.testbit x j = true ∧ ¬ G s t c j) → (∀ j, G s t c j ∨ ¬ G s t c j) →
            (truth d = false ↔ covered G s t c x)) as Hspec.
  { intros d G Hd Hdec. unfold truth. rewrite negb_false_iff, N.eqb_eq, N_eq_0_bits. split.
    - intros H0 j Hj. destruct (Hdec j) as [?|Hn]; [done|]. specialize (H0 j). rewrite (proj2 (Hd j)) in H0 by done. done.
    - intros Hc j. apply not_true_is_false. intros [Hj Hn]%Hd. by apply Hn, Hc. }
  set (x1 := match r with Some d => N.ldiff x (data d) | None => x end).
  assert (∀ j, N.testbit x1 j = true ↔ N.testbit x j = true ∧ ¬ has_bit cur s t c j) as H1.
  { intros j. unfold x1. rewrite ldiff_bits, andb_true_iff, negb_true_iff, <- Hb. by rewrite not_true_iff_false. }
  assert (∀ j, has_bit cur s t c j ∨ ¬ has_bit cur s t c j) as Hd1.
  { intros j. destruct (datum_bit r j) eqn:E; [left; by apply Hb|right]. intros Hx%Hb. congruence. }
  destruct global as [g|].
  2: { exists x1. split; [done|]. apply (Hspec x1 (covers None cur)).
       - intros j. by rewrite H1, no_global.
       - intros j. rewrite no_global. apply Hd1. }
  destruct (search_bits g s t c o (Hg g eq_refl)) as (r2 & Hr2 & Hb2 & _).
  set (x2 := match r2 with Some d => N.ldiff x1 (data d) | None => x1 end).
  assert (truth x2 = false ↔ covered (covers (Some g) cur) s t c x) as H2.
  { apply Hspec.
    - intros j. unfold x2. rewrite some_global, ldiff_bits, andb_true_iff, negb_true_iff, H1, <- Hb2, <- not_true_iff_false. tauto.
    - intros j. rewrite some_global, <- Hb2. destruct (Hd1 j), (datum_bit r2 j); auto. right. by intros [?|?]. }
  destruct (truth x1) eqn:Et.
  - exists x2. by rewrite bind_run, Hr2.
  - exists x1. split; [done|]. rewrite Et, <- H2. split; [|done]. intros _. unfold x2, truth in *.
    apply negb_false_iff, N.eqb_eq in Et. rewrite Et. by destruct r2; rewrite ?N.ldiff_0_l.
Qed.

(** ** Loops that count *)

Lemma wp_add_count n k o (Q : Z → oracle → Prop) : (n + k ≤ INT_MAX)%Z → Q (n + k)%Z o → wp (add_count n k) o Q.
Proof. intros Hn HQ. unfold add_count. rewrite (proj2 (Z.ltb_ge _ _)) by done. by wp_step. Qed.

Section checks.
Context (P : avtab_node → Prop).

(** At most [K] violations are counted, and none exactly if [B] holds; rules
    found satisfy [P]. *)
Definition checks (K : nat) (b : bad_rules) (B : Prop) (o : oracle) (r : Z * bad_rules) (o' : oracle) : Prop :=
  (o = [] → o' = [] ∧ r.1 = 0%Z) ∧ (Forall P (bad b) → Forall P (bad r.2)) ∧
  (r.1 = 0%Z → (numbad b ≤ numbad r.2 ≤ numbad b + Z.of_nat K)%Z ∧ (numbad r.2 = numbad b ↔ B)).

Lemma checks_ext K K' b (B B' : Prop) o r o' : (K ≤ K')%nat → (B ↔ B') → checks K b B o r o' → checks K' b B' o r o'.
Proof.
  intros HK HB (Ho & Hp & Hc). split; [done|]. split; [done|]. intros Hr. destruct (Hc Hr) as [? Hn]. split; [lia|]. by rewrite Hn.
Qed.

Lemma checks_fine K b (B : Prop) o : B → checks K b B o (0%Z, b) o.
Proof. intros HB. split; [done|]. split; [done|]. intros _. split; [cbn; lia|done]. Qed.

Lemma checks_then K1 K2 b (B1 B2 B : Prop) (m1 : M (Z * bad_rules)) (m2 : bad_rules → M (Z * bad_rules)) o :
  (B ↔ B1 ∧ B2) → wp m1 o (checks K1 b B1 o) →
  (∀ b' o', (numbad b' ≤ numbad b + Z.of_nat K1)%Z → wp (m2 b') o' (checks K2 b' B2 o')) →
  wp ('(rc, b) ← m1; if bool_decide (rc ≠ 0%Z) then mret (rc, b) else m2 b) o (checks (K1 + K2) b B o).
Proof.
  intros HB H1 H2. wp_step. eapply wp_mono; [exact H1|]. intros [rc b1] o1 (Ho1 & Hp1 & Hc1). cbn [fst snd] in *.
  case_bool_decide as Hrc.
  - wp_step. split; [intros H; by destruct (Ho1 H)|]. split; [done|]. by intros ?.
  - assert (rc = 0%Z) as -> by lia. destruct (Hc1 eq_refl) as [Hle1 Hn1]. eapply wp_mono; [apply H2; lia|].
    intros [rc b2] o2 (Ho2 & Hp2 & Hc2). cbn [fst snd] in *. split; [intros H; by apply Ho2, Ho1|]. split; [auto|].
    intros Hrc2. destruct (Hc2 Hrc2) as [Hle2 Hn2]. cbn [fst snd]. split; [lia|]. rewrite HB, <- Hn1, <- Hn2. lia.
Qed.

Lemma checks_list {A} (body : A → bad_rules → M ((Z * bad_rules) + bad_rules)) (k : A → nat) (Bs : A → Prop) l b o :
  (numbad b + Z.of_nat (sum_list_with k l) ≤ INT_MAX)%Z →
  (∀ a b o, a ∈ l → (numbad b + Z.of_nat (k a) ≤ INT_MAX)%Z → wp (body a b) o (λ r o',
     match r with inl x => x.1 ≠ 0%Z ∧ checks (k a) b (Bs a) o x o' | inr b' => checks (k a) b (Bs a) o (0%Z, b') o' end)) →
  wp (r ← for_list body l b; mret match r with inl x => x | inr b => (0%Z, b) end) o
    (checks (sum_list_with k l) b (∀ a, a ∈ l → Bs a) o).
Proof.
  intros Hroom Hbody. wp_step.
  apply (wp_for_list (λ dn b' o', checks (sum_list_with k dn) b (∀ a, a ∈ dn → Bs a) o (0%Z, b') o')).
  - apply checks_fine. by intros a ?%elem_of_nil.
  - intros dn a rest b1 o1 Hsplit (Ho & Hp & Hc). cbn [fst snd] in *. destruct (Hc eq_refl) as [Hle Hn].
    assert (sum_list_with k l = sum_list_with k dn + k a + sum_list_with k rest)%nat as Hsum
      by (rewrite Hsplit, sum_list_with_app; cbn; lia).
    eapply wp_mono; [apply Hbody; [rewrite Hsplit; apply elem_of_app; right; left|lia]|]. intros [[rc x]|b2] o2.
    + intros (Hrc & Ho2 & Hp2 & _). cbn [fst snd] in *. wp_step. split; [intros H; by destruct (Ho2 (proj1 (Ho H)))|].
      split; [auto|]. by intros ?.
    + intros (Ho2 & Hp2 & Hc2). cbn [fst snd] in *. destruct (Hc2 eq_refl) as [Hle2 Hn2].
      split; [intros H; by apply Ho2, Ho|]. split; [auto|]. intros _.
      rewrite sum_list_with_app. split; [cbn; lia|]. cbn [snd].
      setoid_rewrite elem_of_app. setoid_rewrite list_elem_of_singleton. transitivity (numbad b1 = numbad b ∧ numbad b2 = numbad b1); [lia|].
      rewrite Hn, Hn2. naive_solver.
  - intros b1 o1 Hc. by wp_step.
Qed.
End checks.

(** The type that bounds a type; 0 if there is none. *)
Definition bound_of (p : policydb) (t : N) : N :=
  match type_val_to_struct p !! N.to_nat (t - 1) with Some (Some td) => type_bounds td | _ => 0 end.

(** The permissions are those of the type, or those of the type that bounds
    it. *)
Definition within (p : policydb) (F : N → Prop) (t : N) : Prop := F t ∨ (bound_of p t ≠ 0 ∧ F (bound_of p t)).

(** What a rule grants to or on the child is granted to or on the parent. *)
Definition rule_bounded (p : policydb) (G : grant) (child parent src tgt class x : N) : Prop :=
  (in_attr p src child → ∀ t, in_attr p tgt t → within p (λ t, covered G parent t class x) t) ∧
  (in_attr p tgt child → ∀ s, in_attr p src s → s ≠ child → within p (λ s, covered G s parent class x) s).

(** How many types a loop over a bitmap looks at, and how often a rule is
    compared for a bounded type: as many violations can be counted. *)
Definition type_visits (e : ebitmap) : nat := sum_list_with (λ i, Nat.b2n (ebitmap_bit e i)) (ebitmap_positions e).
Definition rule_visits (p : policydb) (child : N) (n : avtab_node) : nat :=
  let src := types_of p (source_type (av_key n)) in
  let tgt := types_of p (target_type (av_key n)) in
  if is_allow n then (if ebitmap_get_bit src (dec32 child) then type_visits tgt else 0) +
                     (if ebitmap_get_bit tgt (dec32 child) then type_visits src else 0) else 0.
Definition list_visits (p : policydb) (child : N) (l : list avtab_ptr) : nat := sum_list_with (rule_visits p child) (list_rules p l).
Definition block_visits (p : policydb) (child : N) (node : cond_node) : nat :=
  list_visits p child (true_list node) + list_visits p child (false_list node).
Definition bound_visits (p : policydb) (child : N) : nat :=
  sum_list_with (rule_visits p child) (avtab_entries (te_avtab p)) + sum_list_with (block_visits p child) (cond_list p).

(** A rule to report. *)
Definition named (p : policydb) (n : avtab_node) : Prop :=
  let k := av_key n in
  0 < source_type k ≤ N.of_nat (length (attr_type_map p)) ∧ 0 < target_type k ≤ N.of_nat (length (attr_type_map p)) ∧
  class_named p (target_class k).

Section child.
Context (p : policydb) (Hp : bounds_ready p) (child parent : N).
#[local] Abbreviation ntypes := (N.of_nat (length (attr_type_map p))).
Hypothesis Hchild : 0 < child ≤ ntypes.
Hypothesis Hparent : 0 < parent ≤ ntypes.

Lemma add_bad_spec src tgt class x b o :
  0 < src ≤ ntypes → 0 < tgt ≤ ntypes → class_named p class →
  (numbad b + 1 ≤ INT_MAX)%Z → wp (bounds_add_bad src tgt class x b) o (λ r o', checks (named p) 1 b False o r o').
Proof.
  intros Hs Ht Hc Hroom. pose proof (br_count _ Hp) as Hn. unfold bounds_add_bad. wp_step. apply wp_add_count; [done|].
  wp_step. apply wp_malloc. intros m o1 Hm.
  destruct m; cbn [negb]; wp_step.
  - split; [naive_solver|]. split.
    + intros Hb. constructor; [|done]. split_and!; cbn; rewrite ?u16_small by (lia || apply Hc); try apply Hs; try apply Ht; apply Hc.
    + intros _. cbn. split; [lia|]. split; [lia|done].
  - split; [intros H; by destruct (Hm H)|]. split; [done|]. by intros ?.
Qed.

Section compare.
Context (global : option avtab) (cur : avtab).
Hypothesis Hcur : searchable cur.
Hypothesis Hglobal : ∀ g, global = Some g → searchable g.

Lemma check_each_spec types key rule skip class x b sk tk o :
  ebitmap_wf types → (∀ i, ebitmap_bit types i = true → i < ntypes) →
  (∀ v, v < 2 ^ 16 → key v = allow_key (sk v) (tk v) class) →
  (∀ v, 0 < v ≤ ntypes → 0 < (rule v).1 ≤ ntypes ∧ 0 < (rule v).2 ≤ ntypes) → class_named p class →
  (numbad b + Z.of_nat (type_visits types) ≤ INT_MAX)%Z →
  wp (check_each p global cur types key rule skip class x b) o
    (checks (named p) (type_visits types) b (∀ i, ebitmap_bit types i = true → skip i = false →
       within p (λ v, covered (covers global cur) (sk v) (tk v) class x) (i + 1)) o).
Proof.
  intros Hwf Hbits Hkey Hrule Hc Hroom. pose proof (br_count _ Hp) as Hn. unfold check_each.
  eapply wp_same; [by rewrite bind_run, for_each_bit_visited, <- bind_run|].
  eapply wp_mono; [apply (checks_list (named p) _ (λ i, Nat.b2n (ebitmap_bit types i)) (λ i, ebitmap_bit types i = true → skip i = false →
    within p (λ v, covered (covers global cur) (sk v) (tk v) class x) (i + 1)) _ _ _ Hroom)|].
  - intros i b1 o1 _ Hb1. destruct (ebitmap_bit types i) eqn:Ei; cbn [negb].
    2: { wp_step. by apply checks_fine. }
    destruct (skip i) eqn:Es; [wp_step; by apply checks_fine|]. specialize (Hbits i Ei).
    destruct (not_covered_spec global cur (sk (i + 1)) (tk (i + 1)) class x o1 Hcur Hglobal) as (d & Hd & Hcov).
    rewrite Hkey by lia. wp_step. unfold wp at 1. rewrite Hd. destruct (truth d) eqn:Ed; cbn [negb].
    2: { wp_step. apply checks_fine. intros _ _. left. by apply Hcov. }
    assert (¬ covered (covers global cur) (sk (i + 1)) (tk (i + 1)) class x) as Hnot by (intros ?%Hcov; congruence).
    destruct (lookup_lt_is_Some_2 (type_val_to_struct p) (N.to_nat i)) as [td Htd]; [rewrite (br_types _ Hp); lia|].
    wp_step. apply wp_deref. exists td. split; [done|]. set (bounds := match td with Some td => type_bounds td | None => 0 end).
    assert (bound_of p (i + 1) = bounds) as Hbo.
    { unfold bound_of. replace (i + 1 - 1) with i by lia. rewrite Htd. by destruct td. }
    assert (bounds < 2 ^ 16) as Hb16.
    { unfold bounds. destruct td as [td|]; [|done]. pose proof (br_bounds _ Hp _ _ Htd). lia. }
    assert (∀ d, 0 < i + 1 ≤ ntypes → (¬ within p (λ v, covered (covers global cur) (sk v) (tk v) class x) (i + 1)) →
      ∀ o1, wp ('(rc, b) ← bounds_add_bad (rule (i + 1)).1 (rule (i + 1)).2 class d b1;
                mret (if bool_decide (rc ≠ 0%Z) then inl (rc, b) else inr b)) o1 (λ r o',
        match r with
        | inl x' => x'.1 ≠ 0%Z ∧ checks (named p) 1 b1 (true = true → false = false → within p (λ v, covered (covers global cur) (sk v) (tk v) class x) (i + 1)) o1 x' o'
        | inr b' => checks (named p) 1 b1 (true = true → false = false → within p (λ v, covered (covers global cur) (sk v) (tk v) class x) (i + 1)) o1 (0%Z, b') o'
        end)) as Hbad.
    { intros d' Hi Hno o2. destruct (Hrule (i + 1) Hi) as [R1 R2]. wp_step. eapply wp_mono; [by apply add_bad_spec|].
      intros [rc b2] o3 Hch. wp_step. assert (checks (named p) 1 b1 (true = true → false = false → within p (λ v, covered (covers global cur) (sk v) (tk v) class x) (i + 1)) o2 (rc, b2) o3) as Hch'.
      { eapply checks_ext; [done| |exact Hch]. split; [done|]. intros Hw. by apply Hno, Hw. }
      case_bool_decide as Hrc; [by split|]. assert (rc = 0%Z) as -> by lia. done. }
    unfold within in *. rewrite Hbo in *. wp_step. destruct (truth bounds) eqn:Eb; cbn [andb].
    + destruct (not_covered_spec global cur (sk bounds) (tk bounds) class x o1 Hcur Hglobal) as (d2 & Hd2 & Hcov2).
      rewrite Hkey by done. unfold wp at 1. rewrite Hd2. destruct (truth d2) eqn:Ed2; cbn [negb].
      * apply Hbad; [lia|]. intros [?|[_ Hx%Hcov2]]; [done|congruence].
      * wp_step. apply checks_fine. intros _ _. right. apply truth_spec in Eb. split; [done|by apply Hcov2].
    + wp_step. apply Hbad; [lia|]. intros [?|[Hne _]]; [done|]. apply truth_spec in Hne. congruence.
  - intros r o1 Hr. eapply checks_ext; [done| |exact Hr]. cbn. split.
    + intros H i Hi. apply H; [by apply bit_position|done].
    + intros H i _. apply H.
Qed.

#[local] Abbreviation G := (covers global cur).

Lemma child_bit v : ebitmap_get_bit (types_of p v) (dec32 child) = true ↔ in_attr p v child.
Proof. apply parent_bit; [done|]. pose proof (br_count _ Hp). lia. Qed.

Lemma check_rule_spec src tgt class x b o :
  0 < src ≤ ntypes → 0 < tgt ≤ ntypes → class_named p class →
  let K1 := if ebitmap_get_bit (types_of p src) (dec32 child) then type_visits (types_of p tgt) else 0%nat in
  let K2 := if ebitmap_get_bit (types_of p tgt) (dec32 child) then type_visits (types_of p src) else 0%nat in
  (numbad b + Z.of_nat (K1 + K2) ≤ INT_MAX)%Z →
  wp (bounds_check_rule p global cur child parent src tgt class x b) o
    (checks (named p) (K1 + K2) b (rule_bounded p G child parent src tgt class x) o).
Proof.
  intros Hs Ht Hc K1 K2 Hroom. pose proof (br_count _ Hp) as Hn.
  assert (∀ v, ebitmap_wf (types_of p v)) as Hwf by (intros v; apply types_of_wf, Hp).
  assert (u16 class = class) as Ec by apply u16_small, Hc.
  unfold bounds_check_rule. wp_step. unfold wp at 1. rewrite (attr_types_run p (br_checked _ Hp)) by done.
  eapply (checks_then (named p) K1 K2 b
    (in_attr p src child → ∀ t, in_attr p tgt t → within p (λ t, covered G parent t class x) t)
    (in_attr p tgt child → ∀ s, in_attr p src s → s ≠ child → within p (λ s, covered G s parent class x) s)); [done|..].
  - pose proof (child_bit src) as Hb. assert (numbad b + Z.of_nat K1 ≤ INT_MAX)%Z as Hr1 by lia. clear Hroom. subst K1 K2. destruct (ebitmap_get_bit _ _).
    + wp_step. unfold wp at 1. rewrite (attr_types_run p (br_checked _ Hp)) by done.
      eapply wp_mono; [apply (check_each_spec _ _ _ _ _ _ _ (λ _, parent) id)|].
      * done.
      * intros i. by apply types_of_bound.
      * intros v Hv. cbn. rewrite !u16_small by (lia || apply Hc). done.
      * intros v Hv. by split.
      * done.
      * lia.
      * intros r o' Hr. eapply checks_ext; [done| |exact Hr]. cbn. split.
        -- intros H _ t [Ht0 Hti]. specialize (H (t - 1) Hti eq_refl). replace (t - 1 + 1) with t in H by lia.
           exact H.
        -- intros H i Hi _. apply H; [by apply Hb|].
           split; [lia|]. by replace (i + 1 - 1) with i by lia.
    + wp_step. apply checks_fine. by intros ?%Hb.
  - intros b1 o1 Hb1. assert (numbad b1 + Z.of_nat K2 ≤ INT_MAX)%Z as Hr2 by lia. clear Hroom Hb1. wp_step. unfold wp at 1. rewrite (attr_types_run p (br_checked _ Hp)) by done.
    pose proof (child_bit tgt) as Hb. subst K1 K2. destruct (ebitmap_get_bit _ _).
    + wp_step. unfold wp at 1. rewrite (attr_types_run p (br_checked _ Hp)) by done.
      eapply wp_mono; [apply (check_each_spec _ _ _ _ _ _ _ id (λ _, parent))|].
      * done.
      * intros i. by apply types_of_bound.
      * intros v Hv. cbn. rewrite !u16_small by (lia || apply Hc). done.
      * intros v Hv. by split.
      * done.
      * lia.
      * intros r o' Hr. eapply checks_ext; [done| |exact Hr]. cbn. split.
        -- intros H _ s [Hs0 Hsi] Hne. assert (s - 1 < ntypes) by (by apply (types_of_bound p Hp src)).
           specialize (H (s - 1) Hsi). replace (s - 1 + 1) with s in H by lia.
           apply H. rewrite u16_small by lia. by apply N.eqb_neq.
        -- intros H i Hi Hsk. assert (i < ntypes) by (by apply (types_of_bound p Hp src)).
           rewrite u16_small in Hsk by lia. apply N.eqb_neq in Hsk.
           apply H; [by apply Hb| |done].
           split; [lia|]. by replace (i + 1 - 1) with i by lia.
    + wp_step. apply checks_fine. by intros ?%Hb.
Qed.

Definition node_bounded (K : grant) (n : avtab_node) : Prop :=
  is_allow n = true →
  let k := av_key n in rule_bounded p K child parent (source_type k) (target_type k) (target_class k) (data (av_datum n)).

Lemma check_node_spec n b o :
  named p n → (numbad b + Z.of_nat (rule_visits p child n) ≤ INT_MAX)%Z → wp (bounds_check_rule_callback p global cur child parent (av_key n) (av_datum n) b) o
    (checks (named p) (rule_visits p child n) b (node_bounded G n) o).
Proof.
  intros (Hs & Ht & Hc). unfold bounds_check_rule_callback, node_bounded, rule_visits, is_allow. intros Hroom. destruct (truth _); cbn [negb].
  - eapply wp_mono; [by apply check_rule_spec|]. intros r o' Hr. eapply checks_ext; [done| |exact Hr]. tauto.
  - wp_step. by apply checks_fine.
Qed.

Lemma check_cond_rules_spec l b o :
  Forall (ptr_valid (te_cond_avtab p)) l → (numbad b + Z.of_nat (list_visits p child l) ≤ INT_MAX)%Z →
  wp (bounds_check_cond_rules p global cur l child parent b) o
    (checks (named p) (list_visits p child l) b (∀ n, n ∈ list_rules p l → node_bounded G n) o).
Proof.
  intros Hl Hroom. unfold bounds_check_cond_rules.
  assert (sum_list_with (λ q, from_option (rule_visits p child) 0%nat (node_at (te_cond_avtab p) q)) l = list_visits p child l) as Hsum.
  { unfold list_visits, list_rules. clear Hl Hroom. induction l as [|q l IH]; [done|]. cbn. rewrite IH. by destruct (node_at _ _). }
  rewrite <- Hsum in *.
  eapply wp_mono; [apply (checks_list (named p) _ (λ q, from_option (rule_visits p child) 0%nat (node_at (te_cond_avtab p) q)) (λ q, ∀ n, node_at (te_cond_avtab p) q = Some n → node_bounded G n) _ _ _ Hroom)|].
  - intros q b1 o1 Hq Hb1. rewrite Forall_forall in Hl. destruct (Hl q Hq) as [n Hn]. wp_step. apply wp_deref. exists n. split; [done|].
    wp_step. rewrite Hn in *. cbn [from_option] in *. eapply wp_mono; [apply check_node_spec; [by eapply cond_in_range|done]|]. intros [rc b2] o2 Hr. wp_step.
    assert (node_bounded G n ↔ ∀ n', Some n = Some n' → node_bounded G n') as HB.
    { split; [|by auto]. intros H n' Hn'. by assert (n' = n) as -> by congruence. }
    case_bool_decide as Hrc; [split; [done|]; by eapply checks_ext|]. assert (rc = 0%Z) as -> by lia. by eapply checks_ext.
  - intros r o1 Hr. eapply checks_ext; [done| |exact Hr]. cbn. unfold list_rules. setoid_rewrite list_elem_of_omap. naive_solver.
Qed.

Lemma check_te_spec b o :
  (numbad b + Z.of_nat (sum_list_with (rule_visits p child) (avtab_entries (te_avtab p))) ≤ INT_MAX)%Z →
  wp (avtab_map (Some (te_avtab p)) (bounds_check_rule_callback p global cur child parent) b) o
    (checks (named p) (sum_list_with (rule_visits p child) (avtab_entries (te_avtab p))) b (∀ n, n ∈ avtab_entries (te_avtab p) → node_bounded G n) o).
Proof.
  intros Hroom. eapply wp_same; [apply avtab_map_entries, (cw_te _ (br_checked _ Hp))|]. apply checks_list; [done|].
  intros n b1 o1 Hn Hb1. wp_step. eapply wp_mono; [apply check_node_spec; [by apply te_in_range|done]|]. intros [rc b2] o2 Hr. wp_step.
  destruct (Z.eqb_spec rc 0) as [->|Hrc]; [done|by split].
Qed.
End compare.

(** ** All rules of a type *)

(** The bound of a type: its rules grant only what the parent is granted,
    by unconditional rules, by both branches of a block, or by the same branch. *)
Definition branch_grants (l : list avtab_ptr) : grant := λ s t c j,
  list_grants p (list_rules p l) s t c j ∨ always_grants p s t c j.
Definition type_bounded : Prop :=
  (∀ n, n ∈ avtab_entries (te_avtab p) → node_bounded (always_grants p) n) ∧
  ∀ node, node ∈ cond_list p →
    (∀ n, n ∈ list_rules p (true_list node) → node_bounded (branch_grants (true_list node)) n) ∧
    (∀ n, n ∈ list_rules p (false_list node) → node_bounded (branch_grants (false_list node)) n).

Lemma branch_covers g h l :
  (∀ s t c j, has_bit g s t c j ↔ touching parent (always_grants p) s t c j) →
  (∀ s t c j, has_bit h s t c j ↔ touching parent (list_grants p (list_rules p l)) s t c j) →
  ∀ s t c j, covers (Some g) h s t c j ↔ touching parent (branch_grants l) s t c j.
Proof. intros Hg Hh s t c j. rewrite some_global, Hg, Hh. unfold touching, branch_grants. tauto. Qed.

Lemma covered_touching (G K : grant) s t c x :
  (∀ s t c j, G s t c j ↔ touching parent K s t c j) → s = parent ∨ t = parent → covered G s t c x ↔ covered K s t c x.
Proof.
  intros HK Ht. split; intros H j Hj; specialize (H j Hj); [by apply HK in H as [_ ?]|by apply HK].
Qed.

Lemma within_iff (F F' : N → Prop) t : (∀ t, F t ↔ F' t) → within p F t ↔ within p F' t.
Proof. intros H. unfold within. by rewrite !H. Qed.

(** Only what concerns the parent is looked at. *)
Lemma node_bounded_touching (G K : grant) n :
  (∀ s t c j, G s t c j ↔ touching parent K s t c j) → node_bounded G n ↔ node_bounded K n.
Proof.
  intros HK. unfold node_bounded, rule_bounded.
  assert (∀ t c x, within p (λ t, covered G parent t c x) t ↔ within p (λ t, covered K parent t c x) t) as H1.
  { intros t c x. apply within_iff. intros t'. by apply covered_touching; [|left]. }
  assert (∀ s c x, within p (λ s, covered G s parent c x) s ↔ within p (λ s, covered K s parent c x) s) as H2.
  { intros s c x. apply within_iff. intros s'. by apply covered_touching; [|right]. }
  setoid_rewrite H1. setoid_rewrite H2. done.
Qed.

(** [b] is how many violations are counted with the tables given. *)
Lemma check_child_rules_spec g l o :
  searchable g → Forall info_ok l → ci_node <$> l = reverse (cond_list p) ∨ l = [] → (Z.of_nat (bound_visits p child) ≤ INT_MAX)%Z →
  wp (bounds_check_child_rules p g l child parent) o (λ r o', (o = [] → o' = [] ∧ r.1 = 0%Z) ∧
    Forall (named p) (bad r.2) ∧ (0 ≤ numbad r.2 ≤ Z.of_nat (bound_visits p child))%Z ∧
    (r.1 = 0%Z → parent_tables p parent g l → numbad r.2 = 0%Z ↔ type_bounded)).
Proof.
  intros Hg Hl Hnodes Hroom. unfold bounds_check_child_rules.
  assert (∀ ci, ci ∈ l → ci_node ci ∈ cond_list p) as Hin.
  { intros ci Hci. destruct Hnodes as [Hnodes| ->]; [|by apply elem_of_nil in Hci].
    rewrite <- elem_of_reverse, <- Hnodes. by apply list_elem_of_fmap_2. }
  unfold bound_visits in *. set (K := sum_list_with (rule_visits p child) (avtab_entries (te_avtab p))) in *.
  set (k ci := block_visits p child (ci_node ci)).
  assert (sum_list_with k l ≤ sum_list_with (block_visits p child) (cond_list p))%nat as Hk.
  { destruct Hnodes as [Hnodes| ->]; [|cbn; lia]. rewrite <- (sum_list_with_reverse _ (cond_list p)), <- Hnodes. clear.
    induction l as [|ci l IH]; [done|]. cbn. unfold k at 1. lia. }
  wp_step. eapply wp_mono; [apply check_te_spec; [done|done|change (numbad (BadRules [] 0)) with 0%Z; fold K; lia]|].
  intros [rc b] o1 (Ho1 & Hp1 & Hc1). cbn [fst snd] in *. case_bool_decide as Hrc.
  { wp_step. split; [intros H; by destruct (Ho1 H)|]. split; [constructor|]. split; [cbn [snd numbad]; lia|done]. }
  assert (rc = 0%Z) as -> by lia. destruct (Hc1 eq_refl) as [Hle Hte]. cbn [numbad] in Hle. fold K in Hle.
  set (Bs ci := (∀ n, n ∈ list_rules p (true_list (ci_node ci)) → node_bounded (covers (Some g) (true_avtab ci)) n) ∧
                (∀ n, n ∈ list_rules p (false_list (ci_node ci)) → node_bounded (covers (Some g) (false_avtab ci)) n)).
  wp_step. apply (wp_for_list (λ dn b' o', checks (named p) (sum_list_with k dn) b (∀ ci, ci ∈ dn → Bs ci) o1 (0%Z, b') o')).
  - apply checks_fine. by intros ci ?%elem_of_nil.
  - intros dn ci rest b1 o2 Hsplit (Ho2 & Hp2 & Hc2). cbn [fst snd] in *. destruct (Hc2 eq_refl) as [Hle2 Hn2].
    assert (ci ∈ l) as Hci by (rewrite Hsplit; apply elem_of_app; right; left).
    pose proof (proj1 (Forall_forall _ _) Hl ci Hci) as [Hst Hsf]. specialize (Hin ci Hci).
    assert (Forall (ptr_valid (te_cond_avtab p)) (true_list (ci_node ci)) ∧
            Forall (ptr_valid (te_cond_avtab p)) (false_list (ci_node ci))) as [Hpt Hpf].
    { split; apply Forall_forall; intros q Hq; apply (br_ptrs _ Hp (ci_node ci)); auto. }
    assert (∀ g', Some g = Some g' → searchable g') as Hsg by (by intros g' [= <-]).
    assert (sum_list_with k l = sum_list_with k dn + k ci + sum_list_with k rest)%nat as Hsum
      by (rewrite Hsplit, sum_list_with_app; cbn; lia).
    assert (k ci = list_visits p child (true_list (ci_node ci)) + list_visits p child (false_list (ci_node ci)))%nat as Hkc by done.
    wp_step. eapply wp_mono; [apply check_cond_rules_spec; [done..|lia]|]. intros [rc b2] o3 (Ho3 & Hp3 & Hc3). cbn [fst snd] in *.
    case_bool_decide as Hrc3.
    { wp_step. wp_step. split; [intros H; by destruct (Ho3 (proj1 (Ho2 (proj1 (Ho1 H)))))|]. split; [constructor|]. split; [cbn [snd numbad]; lia|done]. }
    assert (rc = 0%Z) as -> by lia. destruct (Hc3 eq_refl) as [Hle3 Hn3].
    wp_step. eapply wp_mono; [apply check_cond_rules_spec; [done..|lia]|]. intros [rc b3] o4 (Ho4 & Hp4 & Hc4). cbn [fst snd] in *.
    wp_step. case_bool_decide as Hrc4.
    { wp_step. split; [intros H; by destruct (Ho4 (proj1 (Ho3 (proj1 (Ho2 (proj1 (Ho1 H)))))))|]. split; [constructor|]. split; [cbn [snd numbad]; lia|done]. }
    assert (rc = 0%Z) as -> by lia. destruct (Hc4 eq_refl) as [Hle4 Hn4].
    split; [intros H; by apply Ho4, Ho3, Ho2|]. split; [auto|]. intros _. cbn [snd]. split; [rewrite sum_list_with_app; cbn [sum_list_with]; lia|].
    transitivity (numbad b1 = numbad b ∧ numbad b2 = numbad b1 ∧ numbad b3 = numbad b2); [lia|].
    rewrite Hn2, Hn3, Hn4. setoid_rewrite elem_of_app. setoid_rewrite list_elem_of_singleton. unfold Bs. naive_solver.
  - intros b1 o2 (Ho2 & Hp2 & Hc2). cbn [fst snd] in *. destruct (Hc2 eq_refl) as [Hle2 Hn2]. wp_step. cbn [fst snd].
    split; [intros H; by apply Ho2, Ho1|]. split; [by apply Hp2, Hp1; constructor|]. cbn [numbad] in *. split; [lia|].
    clear Hnodes. intros _ (Hgb & Hnodes & Hex).
    transitivity (numbad b = 0%Z ∧ numbad b1 = numbad b); [lia|]. rewrite Hte, Hn2. unfold type_bounded. f_equiv.
    + assert (∀ s t c j, covers None g s t c j ↔ touching parent (always_grants p) s t c j) as HK by (intros; by rewrite no_global).
      split; intros H n Hn; specialize (H n Hn); revert H; by rewrite (node_bounded_touching _ _ n HK).
    + assert (∀ ci, ci ∈ l → Bs ci ↔
        (∀ n, n ∈ list_rules p (true_list (ci_node ci)) → node_bounded (branch_grants (true_list (ci_node ci))) n) ∧
        (∀ n, n ∈ list_rules p (false_list (ci_node ci)) → node_bounded (branch_grants (false_list (ci_node ci))) n)) as HBs.
      { intros ci Hci. destruct (proj1 (Forall_forall _ _) Hex ci Hci) as [Ht Hf]. unfold Bs.
        setoid_rewrite (λ n, node_bounded_touching _ _ n (branch_covers g _ _ Hgb Ht)).
        setoid_rewrite (λ n, node_bounded_touching _ _ n (branch_covers g _ _ Hgb Hf)). done. }
      split.
      * intros H node Hnode. apply elem_of_reverse in Hnode. rewrite <- Hnodes in Hnode.
        apply list_elem_of_fmap in Hnode as (ci & -> & Hci). by apply HBs, H.
      * intros H ci Hci. apply HBs; [done|]. apply H. by apply Hin.
Qed.

Lemma check_type_spec o :
  (Z.of_nat (bound_visits p child) ≤ INT_MAX)%Z →
  wp (bounds_check_type p child parent) o (λ r o', (o = [] → o' = [] ∧ r.1 = 0%Z ∧ (numbad r.2 = 0%Z ↔ type_bounded)) ∧
    Forall (named p) (bad r.2) ∧ (0 ≤ numbad r.2 ≤ Z.of_nat (bound_visits p child))%Z).
Proof.
  intros Hroom. pose proof (br_count _ Hp) as Hn. unfold bounds_check_type. wp_step.
  eapply wp_mono; [apply expand_parent_rules_spec; [done|lia]|]. intros [[rc g] l] o1 (Ho1 & Hg & Hl & Hin).
  case_bool_decide as Hrc.
  { wp_step. split; [intros H; by destruct (Ho1 H) as (_ & ? & _)|]. split; [done|]. cbn [snd numbad]. lia. }
  assert (rc = 0%Z) as -> by lia. wp_step. eapply wp_mono; [by apply check_child_rules_spec|].
  intros [rc b] o2 (Ho2 & Hb & Hn0 & Hex). cbn [fst snd] in *. wp_step. eapply wp_mono; [by apply destroy_info_spec|]. intros _ o3 ->.
  wp_step. eapply wp_mono; [by apply avtab_destroy_spec, searchable_destroyed|]. intros g' o4 [-> _]. wp_step.
  split; [|done]. intros H. destruct (Ho1 H) as (H1 & _ & Ht). destruct (Ho2 H1) as [H2 ->]. split; [done|]. split; [done|]. by apply Hex.
Qed.

Lemma report_run n o :
  named p n →
  report_names p (dec32 (source_type (av_key n))) (dec32 (target_type (av_key n))) (target_class (av_key n)) (data (av_datum n)) o = Ret tt o.
Proof.
  intros (Hs & Ht & Hc & [nm Hnm] & cd & Hcd & Hwf). pose proof (br_count _ Hp) as Hn. pose proof (br_names _ Hp) as Hnames.
  unfold report_names. rewrite !dec32_pred by lia.
  destruct (lookup_lt_is_Some_2 (p_type_val_to_name p) (N.to_nat (source_type (av_key n) - 1))) as [x Hx]; [lia|].
  destruct (lookup_lt_is_Some_2 (p_type_val_to_name p) (N.to_nat (target_type (av_key n) - 1))) as [y Hy]; [lia|].
  rewrite bind_run, Hx. cbn [deref]. unfold mret at 1, M_ret at 1. rewrite bind_run, Hy. cbn [deref].
  unfold mret at 1, M_ret at 1. rewrite bind_run, Hnm. cbn [deref]. unfold mret at 1, M_ret at 1. rewrite bind_run.
  destruct (av_to_string_run p (target_class (av_key n)) cd (data (av_datum n)) "" o) as [res ->]; [lia|lia|done|done|done].
Qed.

Lemma bounds_report_spec l o : Forall (named p) l → wp (bounds_report p child parent l) o (λ _ o', o' = o).
Proof.
  intros Hl. pose proof (br_count _ Hp) as Hn. pose proof (br_names _ Hp) as Hnames. unfold bounds_report.
  rewrite !dec32_pred by lia.
  destruct (lookup_lt_is_Some_2 (p_type_val_to_name p) (N.to_nat (child - 1))) as [x Hx]; [lia|].
  destruct (lookup_lt_is_Some_2 (p_type_val_to_name p) (N.to_nat (parent - 1))) as [y Hy]; [lia|].
  wp_step. apply wp_deref. exists x. split; [done|]. wp_step. apply wp_deref. exists y. split; [done|]. wp_step.
  apply (wp_for_list (λ _ _ o', o' = o)); [done| |intros; by wp_step]. intros dn n rest s o' -> ->.
  apply Forall_app in Hl as [_ [Hn' _]%Forall_cons]. wp_step. unfold wp at 1. rewrite report_run by done. by wp_step.
Qed.
End child.

(** * All types, roles and users *)

(** A callback that counts what does not satisfy [B], up to [k] each. *)
Lemma map_counts {D} (cb : string → D → Z → M (Z * Z)) (k : string * D → nat) (B : string → D → Prop) h o :
  ht_struct h → (Z.of_nat (sum_list_with k (ht_entries h)) ≤ INT_MAX)%Z →
  (∀ x d n o, (x, d) ∈ ht_entries h → (0 ≤ n)%Z → (n + Z.of_nat (k (x, d)) ≤ INT_MAX)%Z → wp (cb x d n) o (λ r o',
     (o = [] → o' = [] ∧ r.1 = 0%Z ∧ (r.2 = n ↔ B x d)) ∧ (n ≤ r.2 ≤ n + Z.of_nat (k (x, d)))%Z)) →
  wp (hashtab_map (Some h) cb 0%Z) o (λ r o',
    (o = [] → o' = [] ∧ r.1 = 0%Z ∧ (r.2 = 0%Z ↔ ∀ k d, (k, d) ∈ ht_entries h → B k d)) ∧ (0 ≤ r.2)%Z).
Proof.
  intros Hs Hroom Hcb. eapply wp_same; [by apply map_spec|]. unfold map_chain. wp_step.
  apply (wp_for_list (λ dn n' o', (o = [] → o' = [] ∧ (n' = 0%Z ↔ ∀ k d, (k, d) ∈ dn → B k d)) ∧ (0 ≤ n' ≤ Z.of_nat (sum_list_with k dn))%Z)).
  - split; [|done]. intros H. split; [done|]. by split; [intros _ x d ?%elem_of_nil|].
  - intros dn [x d] rest n1 o1 Hsplit [Ho1 Hle]. wp_step.
    assert (sum_list_with k (ht_entries h) = sum_list_with k dn + k (x, d) + sum_list_with k rest)%nat as Hsum
      by (rewrite Hsplit, sum_list_with_app; cbn; lia).
    cbn [fst snd]. eapply wp_mono; [apply Hcb; [rewrite Hsplit; apply elem_of_app; right; left|lia|lia]|]. intros [rc n2] o2 [Ho2 Hle2]. cbn [fst snd] in *. wp_step.
    destruct (Z.eqb_spec rc 0) as [->|Hrc].
    + rewrite sum_list_with_app. split; [|cbn [sum_list_with]; lia].
      intros H. destruct (Ho1 H) as [H1 Hn1], (Ho2 H1) as (H2 & _ & Hn2). split; [done|].
      setoid_rewrite elem_of_app. setoid_rewrite list_elem_of_singleton.
      transitivity (n1 = 0%Z ∧ n2 = n1); [lia|]. rewrite Hn1, Hn2. split.
      * intros [Hdn Hb] k' d' [?|[= -> ->]]; auto.
      * intros Hall. split; [intros k' d' ?; apply Hall; by left|apply Hall; by right].
    + wp_step. cbn [fst snd]. split; [|lia]. intros H. by destruct (Ho2 (proj1 (Ho1 H))) as (_ & ? & _).
  - intros n1 o1 [Ho1 Hle]. wp_step. cbn [fst snd]. split; [|lia]. intros H. by destruct (Ho1 H).
Qed.

Lemma sum_list_with_map {A B} (f : A → B) (k : B → nat) (k' : A → nat) l :
  (∀ x, x ∈ l → k (f x) = k' x) → sum_list_with k (f <$> l) = sum_list_with k' l.
Proof.
  induction l as [|x l IH]; intros H; [done|]. cbn. rewrite (H x) by left. rewrite IH; [done|]. intros y Hy. apply H. by right.
Qed.

(** One violation for each symbol at most. *)
Lemma counts_ones {A} (l : list A) : sum_list_with (λ _, 1%nat) l = length l.
Proof. induction l as [|x l IH]; [done|]. cbn. by rewrite IH. Qed.

Lemma counted (n : Z) (B : Prop) : (0 ≤ n)%Z → (n = 0%Z ↔ B) → (if (0 <? n)%Z then SEPOL_ERR else 0%Z) = 0%Z ↔ B.
Proof. intros Hn <-. destruct (Z.ltb_spec 0 n); unfold SEPOL_ERR; lia. Qed.

(** How often rules are compared for the types that have a bound. *)
Definition bounded_visits (p : policydb) (e : string * type_datum) : nat :=
  if truth (type_bounds e.2) then bound_visits p (type_value e.2) else 0%nat.

(** The types of the symbol table, and what bounds them.  The violations that
    can be counted fit an [int]. *)
Record types_ready (p : policydb) (h : hashtab string type_datum) : Prop := {
  ty_policy : bounds_ready p;
  ty_table : table (p_types p) = Some h;
  ty_struct : ht_struct h;
  ty_values : ∀ k d, (k, d) ∈ ht_entries h → type_bounds d ≠ 0 →
    0 < type_value d ≤ N.of_nat (length (attr_type_map p)) ∧ type_bounds d ≤ N.of_nat (length (attr_type_map p));
  ty_room : (Z.of_nat (sum_list_with (bounded_visits p) (ht_entries h)) ≤ INT_MAX)%Z }.

Definition types_bounded (p : policydb) (h : hashtab string type_datum) : Prop :=
  ∀ k d, (k, d) ∈ ht_entries h → type_bounds d ≠ 0 → type_bounded p (type_value d) (type_bounds d).

Lemma check_types_spec p h o :
  types_ready p h → wp (bounds_check_types p) o (λ rc o', o = [] → o' = [] ∧ (rc = 0%Z ↔ types_bounded p h)).
Proof.
  intros [Hp Ht Hs Hv Hroom]. unfold bounds_check_types. rewrite Ht. wp_step.
  eapply wp_mono; [apply (map_counts _ _ (λ _ d, type_bounds d ≠ 0 → type_bounded p (type_value d) (type_bounds d)) h o Hs Hroom)|].
  - intros k d n o1 Hin. unfold bounds_check_type_callback, bounded_visits. cbn [snd]. intros Hn0 Hn1. destruct (truth (type_bounds d)) eqn:Eb; cbn [negb].
    + apply truth_spec in Eb. destruct (Hv k d Hin Eb) as [Hc Hb]. assert (0 < type_bounds d ≤ N.of_nat (length (attr_type_map p))) by lia.
      wp_step. eapply wp_mono; [apply check_type_spec; [done..|lia]|]. intros [rc b] o2 (Ho2 & Hbad & Hn). cbn [fst snd] in *. wp_step.
      eapply wp_mono; [instantiate (1 := λ _ o', o' = o2); destruct (bad b); [by wp_step|by apply bounds_report_spec]|].
      intros _ o3 ->. wp_step. apply wp_add_count; [lia|]. wp_step. cbn [fst snd]. split; [|lia]. intros H1. destruct (Ho2 H1) as (? & ? & Hbd).
      split; [done|]. split; [done|]. transitivity (numbad b = 0%Z); [lia|]. rewrite Hbd. tauto.
    + wp_step. cbn [fst snd]. split; [|lia]. intros H. split; [done|]. split; [done|]. split; [|done]. intros _ Hne. apply truth_spec in Hne. congruence.
  - intros [rc n] o1 [Ho1 Hn]. cbn [fst snd] in *. case_bool_decide as Hrc; wp_step; intros H; destruct (Ho1 H) as (H1 & H2 & Hb); [done|].
    split; [done|]. rewrite H2. by apply counted.
Qed.

(** A bound of a role or user exists, and is allowed what it bounds. *)
Definition role_bounded (p : policydb) (d : role_datum) : Prop :=
  ∀ r, role_val_to_struct p !! N.to_nat (role_bounds d - 1) = Some (Some r) →
    ∀ i, ebitmap_bit (ts_types (role_types d)) i = true → ebitmap_bit (ts_types (role_types r)) i = true.
Definition user_bounded (p : policydb) (d : user_datum) : Prop :=
  ∀ u, user_val_to_struct p !! N.to_nat (user_bounds d - 1) = Some (Some u) →
    ∀ i, ebitmap_bit (rs_roles (user_roles d)) i = true → ebitmap_bit (rs_roles (user_roles u)) i = true.

Record roles_ready (p : policydb) (h : hashtab string role_datum) : Prop := {
  rr_table : table (p_roles p) = Some h;
  rr_struct : ht_struct h;
  rr_values : ∀ k d, (k, d) ∈ ht_entries h → ebitmap_wf (ts_types (role_types d)) ∧ role_bounds d < 2 ^ 32 ∧
    role_bounds d ≤ N.of_nat (length (role_val_to_struct p));
  rr_array : ∀ i r, role_val_to_struct p !! i = Some (Some r) → ebitmap_wf (ts_types (role_types r)) ∧
    0 < role_value r < 2 ^ 32 ∧ role_value r ≤ N.of_nat (length (p_role_val_to_name p));
  rr_room : (Z.of_nat (length (ht_entries h)) ≤ INT_MAX)%Z }.
Record users_ready (p : policydb) (h : hashtab string user_datum) : Prop := {
  ur_table : table (p_users p) = Some h;
  ur_struct : ht_struct h;
  ur_values : ∀ k d, (k, d) ∈ ht_entries h → ebitmap_wf (rs_roles (user_roles d)) ∧ user_bounds d < 2 ^ 32 ∧
    user_bounds d ≤ N.of_nat (length (user_val_to_struct p));
  ur_array : ∀ i u, user_val_to_struct p !! i = Some (Some u) → ebitmap_wf (rs_roles (user_roles u)) ∧
    0 < user_value u < 2 ^ 32 ∧ user_value u ≤ N.of_nat (length (p_user_val_to_name p));
  ur_room : (Z.of_nat (length (ht_entries h)) ≤ INT_MAX)%Z }.

(** One symbol: it has no bound, or its set is compared with that of the
    bound. *)
Lemma compare_spec {R} (bounds : N) (arr : list (option R)) (names : list (option string)) (set : R → ebitmap) (value : R → N)
    (own : ebitmap) n o :
  ebitmap_wf own → bounds < 2 ^ 32 → bounds ≤ N.of_nat (length arr) →
  (∀ i r, arr !! i = Some (Some r) → ebitmap_wf (set r) ∧ 0 < value r < 2 ^ 32 ∧ value r ≤ N.of_nat (length names)) → (n + 1 ≤ INT_MAX)%Z →
  wp (if negb (truth bounds) then mret (0%Z, n) else
      rp ← deref (arr !! N.to_nat (dec32 bounds));
      match rp with
      | Some rp => if ebitmap_contains (set rp) own then mret (0%Z, n) else
          _ ← deref (names !! N.to_nat (dec32 (value rp))); n ← add_count n 1; mret (0%Z, n)
      | None => mret (0%Z, n)
      end) o (λ r o', (o = [] → o' = [] ∧ r.1 = 0%Z ∧ (r.2 = n ↔ (bounds ≠ 0 → ∀ r, arr !! N.to_nat (bounds - 1) = Some (Some r) →
        ∀ i, ebitmap_bit own i = true → ebitmap_bit (set r) i = true))) ∧ (n ≤ r.2 ≤ n + 1)%Z).
Proof.
  intros Hwf H32 Hlen Harr Hroom. destruct (truth bounds) eqn:Eb; cbn [negb].
  2: { wp_step. cbn [fst snd]. split; [|lia]. intros Ho. split; [done|]. split; [done|]. split; [|done].
       intros _ Hne. apply truth_spec in Hne. congruence. }
  apply truth_spec in Eb. rewrite dec32_pred by lia.
  destruct (lookup_lt_is_Some_2 arr (N.to_nat (bounds - 1))) as [rp Hrp]; [lia|]. wp_step. apply wp_deref. exists rp. split; [done|].
  destruct rp as [rp|].
  2: { wp_step. cbn [fst snd]. split; [|lia]. intros Ho. split; [done|]. split; [done|]. split; [|done]. intros _ _ r Hr. congruence. }
  destruct (Harr _ _ Hrp) as (Hw & Hv & Hvn). pose proof (ebitmap_contains_subset (set rp) own Hw Hwf) as Hsub.
  destruct (ebitmap_contains (set rp) own).
  - wp_step. cbn [fst snd]. split; [|lia]. intros Ho. split; [done|]. split; [done|]. split; [|done]. intros _ _ r Hr.
    assert (r = rp) as -> by congruence. by apply Hsub.
  - rewrite dec32_pred by lia. destruct (lookup_lt_is_Some_2 names (N.to_nat (value rp - 1))) as [nm Hnm]; [lia|].
    wp_step. apply wp_deref. exists nm. split; [done|]. wp_step. apply wp_add_count; [done|]. wp_step. cbn [fst snd]. split; [|lia]. intros Ho. split; [done|]. split; [done|].
    split; [lia|]. intros H. enough (false = true) by done. apply Hsub. by apply H.
Qed.

Lemma check_roles_spec p h o :
  roles_ready p h → wp (bounds_check_roles p) o (λ rc o', o = [] → o' = [] ∧
    (rc = 0%Z ↔ ∀ k d, (k, d) ∈ ht_entries h → role_bounds d ≠ 0 → role_bounded p d)).
Proof.
  intros [Ht Hs Hv Ha Hroom]. unfold bounds_check_roles. rewrite Ht. wp_step.
  eapply wp_mono; [apply (map_counts _ (λ _, 1%nat) (λ _ d, role_bounds d ≠ 0 → role_bounded p d)); [done|by rewrite counts_ones|]|].
  - intros k d n o1 Hin _ Hn. destruct (Hv k d Hin) as (? & ? & ?).
    exact (compare_spec (role_bounds d) (role_val_to_struct p) (p_role_val_to_name p) (λ r, ts_types (role_types r)) role_value
             (ts_types (role_types d)) n o1 ltac:(done) ltac:(done) ltac:(done) Ha Hn).
  - intros [rc n] o1 [Ho1 Hn]. wp_step. cbn [fst snd] in *. intros H. destruct (Ho1 H) as (H1 & _ & Hb). split; [done|]. by apply counted.
Qed.

Lemma check_users_spec p h o :
  users_ready p h → wp (bounds_check_users p) o (λ rc o', o = [] → o' = [] ∧
    (rc = 0%Z ↔ ∀ k d, (k, d) ∈ ht_entries h → user_bounds d ≠ 0 → user_bounded p d)).
Proof.
  intros [Ht Hs Hv Ha Hroom]. unfold bounds_check_users. rewrite Ht. wp_step.
  eapply wp_mono; [apply (map_counts _ (λ _, 1%nat) (λ _ d, user_bounds d ≠ 0 → user_bounded p d)); [done|by rewrite counts_ones|]|].
  - intros k d n o1 Hin _ Hn. destruct (Hv k d Hin) as (? & ? & ?).
    exact (compare_spec (user_bounds d) (user_val_to_struct p) (p_user_val_to_name p) (λ u, rs_roles (user_roles u)) user_value
             (rs_roles (user_roles d)) n o1 ltac:(done) ltac:(done) ltac:(done) Ha Hn).
  - intros [rc n] o1 [Ho1 Hn]. wp_step. cbn [fst snd] in *. intros H. destruct (Ho1 H) as (H1 & _ & Hb). split; [done|]. by apply counted.
Qed.

(** * What the check of the types enforces *)

(** A permission in a state of the Booleans, which puts one branch of each
    block in force. *)
Definition granted (p : policydb) (σ : cond_node → bool) : grant := λ s t c j,
  list_grants p (te_allow p) s t c j ∨
  ∃ node, node ∈ cond_list p ∧ ∃ n, n ∈ list_rules p (if σ node then true_list node else false_list node) ∧
    is_allow n = true ∧ node_grants p n s t c j.

(** The conditional rules about a type all allow. *)
Definition parent_allows (p : policydb) (parent : N) : Prop := ∀ node n s t c j,
  node ∈ cond_list p → n ∈ list_rules p (true_list node) ∨ n ∈ list_rules p (false_list node) →
  touching parent (node_grants p n) s t c j → is_allow n = true.

Lemma branch_granted p (σ : cond_node → bool) parent node s t c j :
  parent_allows p parent → node ∈ cond_list p → s = parent ∨ t = parent →
  list_grants p (list_rules p (if σ node then true_list node else false_list node)) s t c j → granted p σ s t c j.
Proof.
  intros Ha Hnode Ht (n & Hn & Hg). right. exists node. split; [done|]. exists n. split; [done|]. split; [|done].
  apply (Ha node n s t c j); [done| |by split]. destruct (σ node); auto.
Qed.

Lemma always_granted p (σ : cond_node → bool) parent s t c j :
  parent_allows p parent → s = parent ∨ t = parent → always_grants p s t c j → granted p σ s t c j.
Proof.
  intros Ha Ht [Hte|(node & Hnode & Htrue & Hfalse)]; [by left|].
  apply (branch_granted p σ parent node); [done..|]. by destruct (σ node).
Qed.

(** A rule that is bounded by what a state grants. *)
Lemma bounded_rule_granted p (σ : cond_node → bool) child parent (K : grant) n s t c j :
  (∀ s t c j, s = parent ∨ t = parent → K s t c j → granted p σ s t c j) →
  node_bounded p child parent K n → is_allow n = true → node_grants p n s t c j →
  (s = child → within p (λ t, granted p σ parent t c j) t) ∧
  (t = child → s ≠ child → within p (λ s, granted p σ s parent c j) s).
Proof.
  intros HK Hb Hal (Hs & Ht & -> & Hj). destruct (Hb Hal) as [Hsrc Htgt]. split.
  - intros ->. destruct (Hsrc Hs t Ht) as [H|[Hne H]]; [left|right; split; [done|]]; apply HK; auto.
  - intros -> Hne. destruct (Htgt Ht s Hs Hne) as [H|[Hne' H]]; [left|right; split; [done|]]; apply HK; auto.
Qed.

Lemma bounded_granted p (σ : cond_node → bool) child parent s t c j :
  parent_allows p parent → type_bounded p child parent → granted p σ s t c j →
  (s = child → within p (λ t, granted p σ parent t c j) t) ∧
  (t = child → s ≠ child → within p (λ s, granted p σ s parent c j) s).
Proof.
  intros Ha [Hte Hcond] [(n & Hn & Hg)|(node & Hnode & n & Hn & Hal & Hg)].
  - apply list_elem_of_filter in Hn as [Hal Hn].
    apply (bounded_rule_granted p σ child parent (always_grants p) n); [|by apply Hte|done..].
    intros. by eapply always_granted.
  - destruct (Hcond node Hnode) as [Ht Hf].
    apply (bounded_rule_granted p σ child parent (branch_grants p (if σ node then true_list node else false_list node)) n); [| |done..].
    + intros s' t' c' j' Ht' [Hl|Hal']; [by eapply branch_granted|by eapply always_granted].
    + destruct (σ node); auto.
Qed.

(** What [allow] rules grant for good, and in one branch of a block. *)
Definition allows_of (p : policydb) (l : list avtab_ptr) : grant :=
  list_grants p (filter (λ n, is_allow n = true) (list_rules p l)).
Definition allowed_always (p : policydb) : grant := λ s t c j,
  list_grants p (te_allow p) s t c j ∨
  ∃ node, node ∈ cond_list p ∧ allows_of p (true_list node) s t c j ∧ allows_of p (false_list node) s t c j.
Definition allowed_with (p : policydb) (l : list avtab_ptr) : grant := λ s t c j,
  allows_of p l s t c j ∨ allowed_always p s t c j.

(** A bound is kept: each [allow] rule for the child gives it only what the
    parent is allowed too, to the same type or to the bound of that type, by
    rules in force whenever the rule is. *)
Definition bound_kept (p : policydb) (child parent : N) : Prop :=
  (∀ n, n ∈ avtab_entries (te_avtab p) → node_bounded p child parent (allowed_always p) n) ∧
  ∀ node, node ∈ cond_list p →
    (∀ n, n ∈ list_rules p (true_list node) → node_bounded p child parent (allowed_with p (true_list node)) n) ∧
    (∀ n, n ∈ list_rules p (false_list node) → node_bounded p child parent (allowed_with p (false_list node)) n).

Lemma node_bounded_about p child parent (K K' : grant) n :
  (∀ s t c j, touching parent K s t c j ↔ touching parent K' s t c j) →
  node_bounded p child parent K n ↔ node_bounded p child parent K' n.
Proof.
  intros HK. rewrite <- (node_bounded_touching p child parent (touching parent K) K n) by done.
  by apply node_bounded_touching.
Qed.

(** Where the conditional rules about the parent are [allow] rules, the check
    looks for kept bounds. *)
Lemma type_bounded_kept p child parent : parent_allows p parent → type_bounded p child parent ↔ bound_kept p child parent.
Proof.
  intros Ha.
  assert (∀ node l s t c j, node ∈ cond_list p → l = true_list node ∨ l = false_list node → s = parent ∨ t = parent →
    list_grants p (list_rules p l) s t c j ↔ allows_of p l s t c j) as Hl.
  { intros node l s t c j Hnode Hor Ht. unfold allows_of. split; intros (n & Hn & Hg).
    - exists n. split; [|done]. apply list_elem_of_filter. split; [|done].
      apply (Ha node n s t c j); [done| |by split]. destruct Hor as [-> | ->]; auto.
    - apply list_elem_of_filter in Hn as [_ Hn]. by exists n. }
  assert (∀ s t c j, touching parent (always_grants p) s t c j ↔ touching parent (allowed_always p) s t c j) as Hal.
  { intros s t c j. unfold touching. split; intros [Ht [Hte|(node & Hnode & H1 & H2)]]; (split; [done|]); try (by left);
      right; exists node; (split; [done|]); split.
    - apply (Hl node); auto.
    - apply (Hl node); auto.
    - apply (Hl node); auto.
    - apply (Hl node); auto. }
  assert (∀ node l, node ∈ cond_list p → l = true_list node ∨ l = false_list node → ∀ s t c j,
    touching parent (branch_grants p l) s t c j ↔ touching parent (allowed_with p l) s t c j) as Hbr.
  { intros node l Hnode Hor s t c j. specialize (Hal s t c j). unfold touching, branch_grants, allowed_with in *. split; intros [Ht H]; (split; [done|]).
    - destruct H as [H|H]; [left; by apply (Hl node l)|right; by apply Hal].
    - destruct H as [H|H]; [left; by apply (Hl node l)|right; by apply Hal]. }
  pose proof (λ n, node_bounded_about p child parent _ _ n Hal) as Hna.
  assert (∀ node l n, node ∈ cond_list p → l = true_list node ∨ l = false_list node →
    node_bounded p child parent (branch_grants p l) n ↔ node_bounded p child parent (allowed_with p l) n) as Hnb
    by (intros; apply node_bounded_about; by apply (Hbr node)).
  unfold type_bounded, bound_kept. split; intros [Hte Hc]; (split; [intros n Hn; by apply Hna, Hte|]);
    intros node Hnode; destruct (Hc node Hnode) as [H1 H2]; split; intros n Hn.
  - apply (Hnb node); auto.
  - apply (Hnb node); auto.
  - apply (Hnb node); auto.
  - apply (Hnb node); auto.
Qed.

(** C10: a policy that passes the check of its types keeps its bounds in every
    state of the Booleans: what is allowed to a bounded type is allowed to the
    type that bounds it, for the same target or the target's own bound, and
    what is allowed on it is allowed on its bound.  The conditional rules
    about the type that bounds have to be [allow] rules ([parent_allows]), and
    the violations that can be counted have to fit an [int] ([types_ready]):
    [dontaudit_counts] is a policy that passes with its bound broken by a
    conditional [dontaudit] rule. *)
Theorem type_bounds_enforced p h (σ : cond_node → bool) k d s t c j :
  types_ready p h → (∃ o, bounds_check_types p [] = Ret 0%Z o) →
  (k, d) ∈ ht_entries h → type_bounds d ≠ 0 → parent_allows p (type_bounds d) → granted p σ s t c j →
  (s = type_value d → within p (λ t, granted p σ (type_bounds d) t c j) t) ∧
  (t = type_value d → s ≠ type_value d → within p (λ s, granted p σ s (type_bounds d) c j) s).
Proof.
  intros Hp [o Hrun] Hin Hb Ha. apply bounded_granted; [done|].
  pose proof (check_types_spec p h [] Hp) as H. unfold wp in H. rewrite Hrun in H.
  destruct (H eq_refl) as [_ Hex]. by apply (proj1 Hex eq_refl k d).
Qed.

(** * The bounds from names *)

(** The name that a symbol is looked up under, and the symbol in front of its
    last dot. *)
Definition dotted {D} (value bounds : D → N) (names : list (option string)) (d : D) : option string :=
  if truth (bounds d) then None else
  match names !! N.to_nat (value d - 1) with Some (Some name) => parent_name name | _ => None end.
Definition given {D} (value bounds : D → N) (set : D → N → D) names (h : hashtab string D) (d : D) : D :=
  match dotted value bounds names d with
  | Some q => match ht_map h !! q with Some d' => set d (value d') | None => d end
  | None => d
  end.
(** No symbol in front of the dot. *)
Definition orphan {D} (value bounds : D → N) names (h : hashtab string D) (e : string * D) : Prop :=
  ∃ q, dotted value bounds names e.2 = Some q ∧ ht_map h !! q = None.

#[global] Instance orphan_dec {D} (value bounds : D → N) names h e : Decision (orphan value bounds names h e).
Proof.
  unfold orphan. destruct (dotted _ _ _ _) as [q|].
  - destruct (ht_map h !! q) as [d|] eqn:E; [right|left; by exists q]. by intros (q' & [= <-] & ?); congruence.
  - right. by intros (q & ? & _).
Defined.

(** A table whose symbols have names. *)
Record names_ready {D} (value bounds : D → N) (names : list (option string)) (h : hashtab string D) : Prop := {
  nr_struct : ht_struct h;
  nr_values : ∀ k d, (k, d) ∈ ht_entries h → 0 < value d < 2 ^ 32 ∧
    ∃ name, names !! N.to_nat (value d - 1) = Some (Some name) }.

Section pass.
Context {D : Type} (value bounds : D → N) (set : D → N → D) (names : list (option string)) (h : hashtab string D) (n : N).
Context (arr : list (option D)) (mk : symtab D → list (option D) → policydb) (store : policydb → string → D → policydb).
Context (Hset : ∀ d b, value (set d b) = value d) (Hh : names_ready value bounds names h) (Hpt : pointed names arr).
Context (Hstore : ∀ s a k d, store (mk s a) k d = mk (set_datum s k d) (set_pointed names k d a)).

Local Abbreviation tab g := (Symtab (Some (ht_map_data g h)) n).
Local Abbreviation by_data g := (mk (tab g) (map_pointed names g arr)).

(** The datums of a pass that has visited some entries. *)
Definition keeps_value (g : string → D → D) : Prop := ∀ k d, (k, d) ∈ ht_entries h → value (g k d) = value d.

Lemma entry_unique k d d' : (k, d) ∈ ht_entries h → (k, d') ∈ ht_entries h → d' = d.
Proof.
  intros H1 H2. assert ((k, d') = (k, d)) as [= ->]; [|done].
  by apply (NoDup_fmap_inv fst (ht_entries h)); [apply (wf_nodup _ (nr_struct _ _ _ _ Hh))|..].
Qed.

Lemma update_keeps g k d b : keeps_value g → (k, d) ∈ ht_entries h → keeps_value (update_data g k (set d b)).
Proof.
  intros Hg Hin k' d' Hin'. unfold update_data. destruct (String.eqb_spec k' k) as [->|]; [|by apply Hg].
  by rewrite Hset, (entry_unique k d d').
Qed.

(** What the callback does to one symbol. *)
Definition visits (g : string → D → D) (k : string) (d : D) (m : Z) (r : Z * (policydb * Z)) : Prop :=
  ∃ g', r.2 = (by_data g', if decide (orphan value bounds names h (k, d)) then (m + 1)%Z else m) ∧ keeps_value g' ∧
    g' k d = given value bounds set names h d ∧ ∀ k' d', k' ≠ k → g' k' d' = g k' d'.

Lemma visits_same g k d m rc m' :
  keeps_value g → g k d = d → given value bounds set names h d = d →
  m' = (if decide (orphan value bounds names h (k, d)) then (m + 1)%Z else m) → visits g k d m (rc, (by_data g, m')).
Proof. intros Hg Hd Hgiven ->. exists g. by rewrite Hgiven. Qed.

Lemma add_bound_spec g k d m o :
  keeps_value g → (k, d) ∈ ht_entries h → g k d = d → (m + 1 ≤ INT_MAX)%Z →
  wp (r ← hierarchy_add value bounds names (tab g) d m; mret (with_bound set store k d r (by_data g))) o
    (λ r o', (o = [] → o' = [] ∧ r.1 = 0%Z) ∧ (r.1 = 0%Z → visits g k d m r)).
Proof.
  intros Hg Hin Hd Hroom. destruct (nr_values _ _ _ _ Hh k d Hin) as (Hv & name & Hname).
  unfold hierarchy_add. destruct (truth (bounds d)) eqn:Eb.
  { wp_step. wp_step. cbn. split; [done|]. intros _. apply visits_same; [done..| |].
    - unfold given, dotted. by rewrite Eb.
    - rewrite decide_False; [done|]. intros (q & Hq & _). unfold dotted in Hq. cbn in Hq. by rewrite Eb in Hq. }
  assert (dotted value bounds names d = parent_name name) as Hdot by (unfold dotted; by rewrite Eb, Hname).
  rewrite dec32_pred by lia. wp_step. wp_step. apply wp_deref. exists (Some name). split; [done|].
  wp_step. apply wp_deref. exists name. split; [done|].
  destruct (parent_name name) as [q|] eqn:Eq.
  2: { wp_step. wp_step. cbn. split; [done|]. intros _. apply visits_same; [done..| |].
       - unfold given. by rewrite Hdot.
       - rewrite decide_False; [done|]. intros (q & Hq & _). cbn in Hq. congruence. }
  wp_step. apply wp_malloc. intros b o1 Ho1. destruct b; cbn [negb].
  2: { wp_step. wp_step. cbn. split; [|done]. intros Ho. by destruct (Ho1 Ho). }
  wp_step. unfold wp at 1. cbn [table]. rewrite search_spec by apply map_data_struct, (nr_struct _ _ _ _ Hh).
  rewrite map_data_lookup.
  destruct (ht_map h !! q) as [d'|] eqn:Ed; cbn; [|wp_step; apply wp_add_count; [done|]; wp_step];
    (split; [intros Ho; split; [by apply Ho1|done]|]); intros _; cbn.
  - assert ((q, d') ∈ ht_entries h) as Hin' by by apply elem_of_list_to_map_2. rewrite Hg by done.
    exists (update_data g k (set d (value d'))). cbn [snd]. split; [|split; [by apply update_keeps|split]].
    + rewrite Hstore, set_datum_data, map_pointed_set by done. f_equal. rewrite decide_False; [done|].
      intros (q' & Hq' & Hno). cbn in Hq'. congruence.
    + unfold update_data. rewrite String.eqb_refl. unfold given. by rewrite Hdot, Ed.
    + intros k' d1 Hne. unfold update_data. by destruct (String.eqb_spec k' k).
  - apply visits_same; [done..| |].
    + unfold given. by rewrite Hdot, Ed.
    + rewrite decide_True; [done|]. by exists q.
Qed.

(** The number of orphans among some entries. *)
Definition orphans (l : list (string * D)) : Z := Z.of_nat (length (filter (orphan value bounds names h) l)).

Lemma orphans_app l e : orphans (l ++ [e]) = if decide (orphan value bounds names h e) then (orphans l + 1)%Z else orphans l.
Proof. unfold orphans. rewrite filter_app, length_app, filter_cons. destruct (decide _); cbn; lia. Qed.

Lemma orphans_length l : (0 ≤ orphans l ≤ Z.of_nat (length l))%Z.
Proof. unfold orphans. pose proof (length_filter (orphan value bounds names h) l). lia. Qed.

Lemma no_orphans l : orphans l = 0%Z ↔ ∀ e, e ∈ l → ¬ orphan value bounds names h e.
Proof.
  unfold orphans. split.
  - intros H e He Ho. assert (filter (orphan value bounds names h) l = []) as Hn by (apply length_zero_iff_nil; lia).
    apply (elem_of_nil e). rewrite <- Hn. by apply list_elem_of_filter.
  - intros H. destruct (filter (orphan value bounds names h) l) as [|e l'] eqn:E; [done|].
    assert (e ∈ filter (orphan value bounds names h) l) as [Ho He]%list_elem_of_filter by (rewrite E; left). by destruct (H e).
Qed.

Lemma pass_spec (cb : string → D → policydb * Z → M (Z * (policydb * Z))) m o :
  (∀ k d g m, cb k d (by_data g, m) = (r ← hierarchy_add value bounds names (tab g) d m; mret (with_bound set store k d r (by_data g)))) →
  (m + Z.of_nat (length (ht_entries h)) ≤ INT_MAX)%Z →
  wp (hashtab_map (Some h) cb (by_data (λ _ d, d), m)) o (λ r o', (o = [] → o' = [] ∧ r.1 = 0%Z) ∧ (r.1 = 0%Z →
    ∃ g, r.2 = (by_data g, (m + orphans (ht_entries h))%Z) ∧ ∀ k d, (k, d) ∈ ht_entries h → g k d = given value bounds set names h d)).
Proof.
  intros Hcb Hroom. pose proof (nr_struct _ _ _ _ Hh) as Hs. eapply wp_same; [by apply map_spec|]. unfold map_chain. wp_step.
  apply (wp_for_list (λ dn st o', (o = [] → o' = []) ∧ ∃ g, st = (by_data g, (m + orphans dn)%Z) ∧ keeps_value g ∧
    (∀ k d, (k, d) ∈ dn → g k d = given value bounds set names h d) ∧ (∀ k d, (k, d) ∈ ht_entries h → (k, d) ∉ dn → g k d = d))).
  - split; [done|]. exists (λ _ d, d). split; [f_equal; unfold orphans; cbn; lia|]. split; [done|].
    split; [|done]. by intros k d ?%elem_of_nil.
  - intros dn [k d] rest st o1 Hsplit [Ho1 (g & -> & Hg & Hdn & Hrest)]. cbn [fst snd].
    assert (NoDup (dn ++ (k, d) :: rest).*1) as Hnd by (rewrite <- Hsplit; apply (wf_nodup _ Hs)).
    assert ((k, d) ∈ ht_entries h) as Hin by (rewrite Hsplit; apply elem_of_app; right; left).
    assert (∀ d', (k, d') ∉ dn) as Hnew.
    { intros d' Hd'. rewrite fmap_app in Hnd. apply NoDup_app in Hnd as (_ & Hdisj & _). apply (Hdisj k).
      - apply list_elem_of_fmap. by exists (k, d').
      - left. }
    assert (m + orphans dn + 1 ≤ INT_MAX)%Z as Hm.
    { pose proof (orphans_length dn) as Hdl. rewrite Hsplit, length_app in Hroom. cbn in Hroom. lia. }
    wp_step. rewrite Hcb. eapply wp_mono; [apply add_bound_spec; auto|]. intros [rc st'] o2 [Ho2 Hv]. cbn [fst snd] in *. wp_step.
    destruct (Z.eqb_spec rc 0) as [->|Hrc].
    + destruct (Hv eq_refl) as (g' & Hst & Hg' & Hgd & Hout). cbn [snd] in Hst. subst st'. split; [naive_solver|]. exists g'. rewrite orphans_app.
      split; [cbn; f_equal; destruct (decide _); lia|]. split; [done|]. split.
      * intros k' d' [Hin'|[= -> ->]%list_elem_of_singleton]%elem_of_app; [|done].
        rewrite Hout by (intros ->; by apply Hnew in Hin'). by apply Hdn.
      * intros k' d' Hin' [Hno Hne%not_elem_of_cons]%not_elem_of_app. destruct (decide (k' = k)) as [->|Hk].
        { destruct Hne as [Hne _]. by rewrite (entry_unique k d d') in Hne. }
        rewrite Hout by done. by apply Hrest.
    + wp_step. cbn. split; [|done]. intros Ho. by destruct (Ho2 (Ho1 Ho)).
  - intros st o1 [Ho1 (g & -> & _ & Hdn & _)]. wp_step. cbn. split; [auto|]. intros _. by exists g.
Qed.
End pass.

(** ** All symbols *)

Abbreviation user_orphans p h := (orphans user_value user_bounds (p_user_val_to_name p) h (ht_entries h)).
Abbreviation role_orphans p h := (orphans role_value role_bounds (p_role_val_to_name p) h (ht_entries h)).
Abbreviation type_orphans p h := (orphans type_value type_bounds (p_type_val_to_name p) h (ht_entries h)).

(** Where names are looked up. *)
Record symbols_ready (p : policydb) (hu : hashtab string user_datum) (hr : hashtab string role_datum) (ht : hashtab string type_datum) : Prop := {
  sr_users : table (p_users p) = Some hu;
  sr_roles : table (p_roles p) = Some hr;
  sr_types : table (p_types p) = Some ht;
  sr_user_names : names_ready user_value user_bounds (p_user_val_to_name p) hu;
  sr_role_names : names_ready role_value role_bounds (p_role_val_to_name p) hr;
  sr_type_names : names_ready type_value type_bounds (p_type_val_to_name p) ht;
  sr_user_array : pointed (p_user_val_to_name p) (user_val_to_struct p);
  sr_role_array : pointed (p_role_val_to_name p) (role_val_to_struct p);
  sr_type_array : pointed (p_type_val_to_name p) (type_val_to_struct p);
  sr_room : (Z.of_nat (length (ht_entries hu) + length (ht_entries hr) + length (ht_entries ht)) ≤ INT_MAX)%Z }.

Section added.
Context (p : policydb) (hu : hashtab string user_datum) (hr : hashtab string role_datum) (ht : hashtab string type_datum).
Context (Hp : symbols_ready p hu hr ht).

(** The policy with other users, roles and types. *)
Definition with_data (gu : string → user_datum → user_datum) (gr : string → role_datum → role_datum)
    (gt : string → type_datum → type_datum) : policydb :=
  with_type_data (with_roles p (Symtab (Some (ht_map_data gr hr)) (nprim (p_roles p))) (map_pointed (p_role_val_to_name p) gr (role_val_to_struct p))
      (Symtab (Some (ht_map_data gu hu)) (nprim (p_users p))) (map_pointed (p_user_val_to_name p) gu (user_val_to_struct p)))
    (Symtab (Some (ht_map_data gt ht)) (nprim (p_types p))) (map_pointed (p_type_val_to_name p) gt (type_val_to_struct p)).

Lemma with_same_data : with_data (λ _ d, d) (λ _ d, d) (λ _ d, d) = p.
Proof.
  destruct Hp as [H1 H2 H3 _ _ _ _ _ _ _]. unfold with_data. rewrite !map_data_id, !map_pointed_id, <- H1, <- H2, <- H3.
  by destruct p as [? ? ? [] [] []].
Qed.

Record added (gu : string → user_datum → user_datum) (gr : string → role_datum → role_datum)
    (gt : string → type_datum → type_datum) : Prop := {
  ad_users : ∀ k d, (k, d) ∈ ht_entries hu → gu k d = given user_value user_bounds user_set_bounds (p_user_val_to_name p) hu d;
  ad_roles : ∀ k d, (k, d) ∈ ht_entries hr → gr k d = given role_value role_bounds role_set_bounds (p_role_val_to_name p) hr d;
  ad_types : ∀ k d, (k, d) ∈ ht_entries ht → gt k d = given type_value type_bounds type_set_bounds (p_type_val_to_name p) ht d }.

Definition all_orphans : Z := (user_orphans p hu + role_orphans p hr + type_orphans p ht)%Z.

(** The passes, with whatever the other symbols are. *)
Lemma users_pass gr gt m o : (m + Z.of_nat (length (ht_entries hu)) ≤ INT_MAX)%Z →
  wp (hashtab_map (Some hu) hierarchy_add_user_callback (with_data (λ _ d, d) gr gt, m)) o (λ r o', (o = [] → o' = [] ∧ r.1 = 0%Z) ∧
    (r.1 = 0%Z → ∃ gu, r.2 = (with_data gu gr gt, (m + user_orphans p hu)%Z) ∧ ∀ k d, (k, d) ∈ ht_entries hu →
      gu k d = given user_value user_bounds user_set_bounds (p_user_val_to_name p) hu d)).
Proof.
  intros Hroom. apply (pass_spec user_value user_bounds user_set_bounds (p_user_val_to_name p) hu (nprim (p_users p)) (user_val_to_struct p)
    (λ s a, with_type_data (with_roles p (Symtab (Some (ht_map_data gr hr)) (nprim (p_roles p))) (map_pointed (p_role_val_to_name p) gr (role_val_to_struct p)) s a)
       (Symtab (Some (ht_map_data gt ht)) (nprim (p_types p))) (map_pointed (p_type_val_to_name p) gt (type_val_to_struct p))) set_user);
    [done|apply Hp|apply Hp|done|done|done].
Qed.

Lemma roles_pass gu gt m o : (m + Z.of_nat (length (ht_entries hr)) ≤ INT_MAX)%Z →
  wp (hashtab_map (Some hr) hierarchy_add_role_callback (with_data gu (λ _ d, d) gt, m)) o (λ r o', (o = [] → o' = [] ∧ r.1 = 0%Z) ∧
    (r.1 = 0%Z → ∃ gr, r.2 = (with_data gu gr gt, (m + role_orphans p hr)%Z) ∧ ∀ k d, (k, d) ∈ ht_entries hr →
      gr k d = given role_value role_bounds role_set_bounds (p_role_val_to_name p) hr d)).
Proof.
  intros Hroom. apply (pass_spec role_value role_bounds role_set_bounds (p_role_val_to_name p) hr (nprim (p_roles p)) (role_val_to_struct p)
    (λ s a, with_type_data (with_roles p s a (Symtab (Some (ht_map_data gu hu)) (nprim (p_users p))) (map_pointed (p_user_val_to_name p) gu (user_val_to_struct p)))
       (Symtab (Some (ht_map_data gt ht)) (nprim (p_types p))) (map_pointed (p_type_val_to_name p) gt (type_val_to_struct p))) set_role);
    [done|apply Hp|apply Hp|done|done|done].
Qed.

Lemma types_pass gu gr m o : (m + Z.of_nat (length (ht_entries ht)) ≤ INT_MAX)%Z →
  wp (hashtab_map (Some ht) hierarchy_add_type_callback (with_data gu gr (λ _ d, d), m)) o (λ r o', (o = [] → o' = [] ∧ r.1 = 0%Z) ∧
    (r.1 = 0%Z → ∃ gt, r.2 = (with_data gu gr gt, (m + type_orphans p ht)%Z) ∧ ∀ k d, (k, d) ∈ ht_entries ht →
      gt k d = given type_value type_bounds type_set_bounds (p_type_val_to_name p) ht d)).
Proof.
  intros Hroom. apply (pass_spec type_value type_bounds type_set_bounds (p_type_val_to_name p) ht (nprim (p_types p)) (type_val_to_struct p)
    (λ s a, with_type_data (with_data gu gr (λ _ d, d)) s a) set_type);
    [done|apply Hp|apply Hp|done|done|done].
Qed.

Lemma add_bounds_spec o :
  wp (hierarchy_add_bounds p) o (λ r o', o = [] → o' = [] ∧ (r.1 = 0%Z ↔ all_orphans = 0%Z) ∧
    ∃ gu gr gt, added gu gr gt ∧ r.2 = with_data gu gr gt).
Proof.
  pose proof (sr_room _ _ _ _ Hp) as Hroom.
  pose proof (orphans_length user_value user_bounds (p_user_val_to_name p) hu (ht_entries hu)) as Hou.
  pose proof (orphans_length role_value role_bounds (p_role_val_to_name p) hr (ht_entries hr)) as Hor.
  unfold hierarchy_add_bounds. rewrite (sr_users _ _ _ _ Hp). wp_step.
  replace (p, 0%Z) with (with_data (λ _ d, d) (λ _ d, d) (λ _ d, d), 0%Z) by by rewrite with_same_data.
  eapply wp_mono; [apply users_pass; lia|]. intros [rc st] o1 [Ho1 H1]. cbn [fst snd] in *.
  case_bool_decide as Hrc; [wp_step; intros Ho; by destruct (Ho1 Ho)|]. assert (rc = 0%Z) as -> by lia.
  destruct (H1 eq_refl) as (gu & -> & Hgu). cbn [fst]. wp_step.
  change (table (p_roles (with_data gu (λ _ d, d) (λ _ d, d)))) with (Some (ht_map_data (λ _ d, d) hr)). rewrite map_data_id.
  eapply wp_mono; [apply roles_pass; lia|]. intros [rc st] o2 [Ho2 H2]. cbn [fst snd] in *.
  case_bool_decide as Hrc2; [wp_step; intros Ho; destruct (Ho1 Ho) as [Hoo _]; by destruct (Ho2 Hoo)|]. assert (rc = 0%Z) as -> by lia.
  destruct (H2 eq_refl) as (gr & -> & Hgr). cbn [fst]. wp_step.
  change (table (p_types (with_data gu gr (λ _ d, d)))) with (Some (ht_map_data (λ _ d, d) ht)). rewrite map_data_id.
  eapply wp_mono; [apply types_pass; lia|]. intros [rc st] o3 [Ho3 H3]. cbn [fst snd] in *.
  case_bool_decide as Hrc3; wp_step; intros Ho; destruct (Ho1 Ho) as [Hoo _]; destruct (Ho2 Hoo) as [Hoo2 _]; destruct (Ho3 Hoo2) as [Hoo3 ?]; [done|].
  destruct (H3 ltac:(done)) as (gt & -> & Hgt). split; [done|]. cbn [fst snd].
  split; [|by exists gu, gr, gt]. rewrite H. apply counted; unfold all_orphans, orphans; lia.
Qed.
End added.

(** * The whole check *)

(** Numbers and arrays of a symbol table whose numbers are at most
    [count]. *)
Record cells_ready {D} (value bounds : D → N) (names : list (option string)) (arr : list (option D)) (h : hashtab string D) (count : N) : Prop := {
  ce_values : ∀ k d, (k, d) ∈ ht_entries h → value d ≤ count ∧ bounds d ≤ count;
  ce_cells : ∀ i d, arr !! i = Some (Some d) → ∃ k, names !! i = Some (Some k) ∧ (k, d) ∈ ht_entries h }.

(** How often rules are compared for a type that has a bound or gets one. *)
Definition given_visits (p : policydb) (ht : hashtab string type_datum) (e : string * type_datum) : nat :=
  bounded_visits p (e.1, given type_value type_bounds type_set_bounds (p_type_val_to_name p) ht e.2).

Record hierarchy_ready (p : policydb) (hu : hashtab string user_datum) (hr : hashtab string role_datum) (ht : hashtab string type_datum) : Prop := {
  hy_symbols : symbols_ready p hu hr ht;
  hy_policy : bounds_ready p;
  hy_types : cells_ready type_value type_bounds (p_type_val_to_name p) (type_val_to_struct p) ht (N.of_nat (length (attr_type_map p)));
  hy_roles : cells_ready role_value role_bounds (p_role_val_to_name p) (role_val_to_struct p) hr (N.of_nat (length (role_val_to_struct p)));
  hy_users : cells_ready user_value user_bounds (p_user_val_to_name p) (user_val_to_struct p) hu (N.of_nat (length (user_val_to_struct p)));
  hy_role_count : N.of_nat (length (role_val_to_struct p)) < 2 ^ 32 ∧ (length (role_val_to_struct p) ≤ length (p_role_val_to_name p))%nat;
  hy_user_count : N.of_nat (length (user_val_to_struct p)) < 2 ^ 32 ∧ (length (user_val_to_struct p) ≤ length (p_user_val_to_name p))%nat;
  hy_role_sets : ∀ k d, (k, d) ∈ ht_entries hr → ebitmap_wf (ts_types (role_types d));
  hy_user_sets : ∀ k d, (k, d) ∈ ht_entries hu → ebitmap_wf (rs_roles (user_roles d));
  hy_room : (Z.of_nat (sum_list_with (given_visits p ht) (ht_entries ht)) ≤ INT_MAX)%Z }.

Section cells.
Context {D : Type} (value bounds : D → N) (set : D → N → D) (names : list (option string)) (arr : list (option D)) (h : hashtab string D) (count : N).
Context (Hc : cells_ready value bounds names arr h count) (Hbounds : ∀ d b, bounds (set d b) = b).

Lemma given_cases d : (∃ k, (k, d) ∈ ht_entries h) →
  bounds (given value bounds set names h d) ≤ count ∧
  (given value bounds set names h d = d ∨ ∃ b, given value bounds set names h d = set d b).
Proof.
  intros [k Hin]. destruct (ce_values _ _ _ _ _ _ Hc k d Hin) as [_ Hb]. unfold given.
  destruct (dotted _ _ _ _) as [q|]; [|by split; [|left]]. destruct (ht_map h !! q) as [d'|] eqn:E; [|by split; [|left]].
  split; [|right; by exists (value d')]. rewrite Hbounds. apply (ce_values _ _ _ _ _ _ Hc q d'). by apply elem_of_list_to_map_2.
Qed.

Lemma new_cell g i d' : map_pointed names g arr !! i = Some (Some d') → ∃ k d, (k, d) ∈ ht_entries h ∧ d' = g k d.
Proof.
  unfold map_pointed. rewrite list_lookup_imap. destruct (arr !! i) as [[d|]|] eqn:E; cbn; [|by destruct (names !! i) as [[]|]|done].
  destruct (ce_cells _ _ _ _ _ _ Hc i d E) as (k & -> & Hin). cbn. intros [= <-]. by exists k, d.
Qed.
End cells.

Section whole.
Context (p : policydb) (hu : hashtab string user_datum) (hr : hashtab string role_datum) (ht : hashtab string type_datum).
Context (Hp : hierarchy_ready p hu hr ht) (gu : string → user_datum → user_datum) (gr : string → role_datum → role_datum)
  (gt : string → type_datum → type_datum) (Hg : added p hu hr ht gu gr gt).

Local Abbreviation p' := (with_data p hu hr ht gu gr gt).

Lemma added_policy : bounds_ready p'.
Proof.
  pose proof (hy_policy _ _ _ _ Hp) as [[H1 H2 H3 H4] Hcount Hbits Htypes Hnames Hbounds Hclasses Hptrs]. split; try done.
  - cbn. unfold map_pointed. by rewrite length_imap.
  - intros i td Htd. cbn in Htd. destruct (new_cell _ _ _ _ _ _ (hy_types _ _ _ _ Hp) gt i td Htd) as (k & d & Hin & ->).
    rewrite (ad_types _ _ _ _ _ _ _ Hg k d Hin). apply (given_cases _ _ _ _ _ _ _ (hy_types _ _ _ _ Hp)); [done|by exists k].
Qed.

Lemma added_types : types_ready p' (ht_map_data gt ht).
Proof.
  split; [apply added_policy|done|apply map_data_struct, (nr_struct _ _ _ _ (sr_type_names _ _ _ _ (hy_symbols _ _ _ _ Hp)))| |].
  2: { rewrite map_data_entries, (sum_list_with_map _ _ (given_visits p ht)); [apply (hy_room _ _ _ _ Hp)|].
       intros [k d] Hin. unfold given_visits. cbn [fst snd]. by rewrite (ad_types _ _ _ _ _ _ _ Hg k d Hin). }
  intros k d' Hin _. rewrite map_data_entries in Hin. apply list_elem_of_fmap in Hin as ([k0 d] & [= -> ->] & Hin). cbn [fst snd].
  rewrite (ad_types _ _ _ _ _ _ _ Hg k0 d Hin). destruct (given_cases type_value type_bounds type_set_bounds _ _ _ _ (hy_types _ _ _ _ Hp) ltac:(done) d) as [Hb Hcases]; [by exists k0|].
  destruct (ce_values _ _ _ _ _ _ (hy_types _ _ _ _ Hp) k0 d Hin), (nr_values _ _ _ _ (sr_type_names _ _ _ _ (hy_symbols _ _ _ _ Hp)) k0 d Hin) as [? _].
  split; [|done]. change (attr_type_map p') with (attr_type_map p). destruct Hcases as [-> |[b ->]]; cbn; lia.
Qed.

Lemma added_roles : roles_ready p' (ht_map_data gr hr).
Proof.
  destruct (hy_role_count _ _ _ _ Hp) as [Hcount Hnames]. pose proof (hy_symbols _ _ _ _ Hp) as Hs.
  assert (∀ k d, (k, d) ∈ ht_entries hr → ebitmap_wf (ts_types (role_types (gr k d))) ∧
    role_bounds (gr k d) ≤ N.of_nat (length (role_val_to_struct p)) ∧ 0 < role_value (gr k d) ≤ N.of_nat (length (role_val_to_struct p))) as Hdata.
  { intros k d Hin. rewrite (ad_roles _ _ _ _ _ _ _ Hg k d Hin).
    destruct (given_cases role_value role_bounds role_set_bounds _ _ _ _ (hy_roles _ _ _ _ Hp) ltac:(done) d) as [Hb Hcases]; [by exists k|].
    destruct (ce_values _ _ _ _ _ _ (hy_roles _ _ _ _ Hp) k d Hin), (nr_values _ _ _ _ (sr_role_names _ _ _ _ Hs) k d Hin) as [? _].
    pose proof (hy_role_sets _ _ _ _ Hp k d Hin). destruct Hcases as [Hc|[b Hc]]; rewrite Hc in *; split_and!; done || cbn in *; lia. }
  assert (length (role_val_to_struct p') = length (role_val_to_struct p)) as Hlen by (cbn; unfold map_pointed; by rewrite length_imap).
  split; [done|apply map_data_struct, (nr_struct _ _ _ _ (sr_role_names _ _ _ _ Hs))| | |].
  3: { rewrite map_data_entries, length_fmap. pose proof (sr_room _ _ _ _ Hs). lia. }
  - intros k d' Hin. rewrite map_data_entries in Hin. apply list_elem_of_fmap in Hin as ([k0 d] & [= -> ->] & Hin). cbn [fst snd].
    destruct (Hdata k0 d Hin) as (? & ? & ?). rewrite Hlen. split; [done|]. split; lia.
  - intros i r Hr. destruct (new_cell _ _ _ _ _ _ (hy_roles _ _ _ _ Hp) gr i r Hr) as (k & d & Hin & ->).
    destruct (Hdata k d Hin) as (? & ? & ?). change (p_role_val_to_name p') with (p_role_val_to_name p). split; [done|]. split; lia.
Qed.

Lemma added_users : users_ready p' (ht_map_data gu hu).
Proof.
  destruct (hy_user_count _ _ _ _ Hp) as [Hcount Hnames]. pose proof (hy_symbols _ _ _ _ Hp) as Hs.
  assert (∀ k d, (k, d) ∈ ht_entries hu → ebitmap_wf (rs_roles (user_roles (gu k d))) ∧
    user_bounds (gu k d) ≤ N.of_nat (length (user_val_to_struct p)) ∧ 0 < user_value (gu k d) ≤ N.of_nat (length (user_val_to_struct p))) as Hdata.
  { intros k d Hin. rewrite (ad_users _ _ _ _ _ _ _ Hg k d Hin).
    destruct (given_cases user_value user_bounds user_set_bounds _ _ _ _ (hy_users _ _ _ _ Hp) ltac:(done) d) as [Hb Hcases]; [by exists k|].
    destruct (ce_values _ _ _ _ _ _ (hy_users _ _ _ _ Hp) k d Hin), (nr_values _ _ _ _ (sr_user_names _ _ _ _ Hs) k d Hin) as [? _].
    pose proof (hy_user_sets _ _ _ _ Hp k d Hin). destruct Hcases as [Hc|[b Hc]]; rewrite Hc in *; split_and!; done || cbn in *; lia. }
  assert (length (user_val_to_struct p') = length (user_val_to_struct p)) as Hlen by (cbn; unfold map_pointed; by rewrite length_imap).
  split; [done|apply map_data_struct, (nr_struct _ _ _ _ (sr_user_names _ _ _ _ Hs))| | |].
  3: { rewrite map_data_entries, length_fmap. pose proof (sr_room _ _ _ _ Hs). lia. }
  - intros k d' Hin. rewrite map_data_entries in Hin. apply list_elem_of_fmap in Hin as ([k0 d] & [= -> ->] & Hin). cbn [fst snd].
    destruct (Hdata k0 d Hin) as (? & ? & ?). rewrite Hlen. split; [done|]. split; lia.
  - intros i u Hu. destruct (new_cell _ _ _ _ _ _ (hy_users _ _ _ _ Hp) gu i u Hu) as (k & d & Hin & ->).
    destruct (Hdata k d Hin) as (? & ? & ?). change (p_user_val_to_name p') with (p_user_val_to_name p). split; [done|]. split; lia.
Qed.
End whole.

(** What the whole check looks for: no orphans, and all bounds kept in the
    policy with the bounds it found. *)
Definition hierarchy_kept (p p' : policydb) (hu hu' : hashtab string user_datum) (hr hr' : hashtab string role_datum)
    (ht ht' : hashtab string type_datum) : Prop :=
  all_orphans p hu hr ht = 0%Z ∧
  (∀ k d, (k, d) ∈ ht_entries hu' → user_bounds d ≠ 0 → user_bounded p' d) ∧
  (∀ k d, (k, d) ∈ ht_entries hr' → role_bounds d ≠ 0 → role_bounded p' d) ∧
  (∀ k d, (k, d) ∈ ht_entries ht' → type_bounds d ≠ 0 → bound_kept p' (type_value d) (type_bounds d)).

Lemma types_bounded_kept p h :
  (∀ k d, (k, d) ∈ ht_entries h → type_bounds d ≠ 0 → parent_allows p (type_bounds d)) →
  types_bounded p h ↔ ∀ k d, (k, d) ∈ ht_entries h → type_bounds d ≠ 0 → bound_kept p (type_value d) (type_bounds d).
Proof.
  intros Ha. unfold types_bounded. split; intros H k d Hin Hne.
  - apply type_bounded_kept; [by eapply Ha|by eapply H].
  - apply type_bounded_kept; [by eapply Ha|by eapply H].
Qed.

(** C11: [hierarchy_check_constraints] is exact.  It gives every symbol with a
    dotted name and no bound the symbol in front of the last dot as its bound,
    in the tables and where the arrays point to them, and changes nothing
    else.  And it succeeds iff no such symbol is missing and all bounds are
    kept: a user has only roles that its bound has, a role only types, and the
    [allow] rules for a type give it only what its bound is allowed.  This
    holds where the conditional rules about types that bound others are
    [allow] rules, since the check counts the others too ([dontaudit_counts]);
    and where the violations and orphans that can be counted fit an [int]
    ([hierarchy_ready]), since the counters overflow otherwise. *)
Theorem hierarchy_check_exact p hu hr ht :
  hierarchy_ready p hu hr ht →
  ∃ rc gu gr gt, let p' := with_data p hu hr ht gu gr gt in
    added p hu hr ht gu gr gt ∧ hierarchy_check_constraints p [] = Ret (rc, p') [] ∧
    ((∀ k d, (k, d) ∈ ht_entries (ht_map_data gt ht) → type_bounds d ≠ 0 → parent_allows p' (type_bounds d)) →
     rc = 0%Z ↔ hierarchy_kept p p' hu (ht_map_data gu hu) hr (ht_map_data gr hr) ht (ht_map_data gt ht)).
Proof.
  intros Hp. enough (wp (hierarchy_check_constraints p) [] (λ r o', o' = [] ∧ ∃ gu gr gt, let p' := with_data p hu hr ht gu gr gt in
    added p hu hr ht gu gr gt ∧ r.2 = p' ∧
    (r.1 = 0%Z ↔ all_orphans p hu hr ht = 0%Z ∧
      (∀ k d, (k, d) ∈ ht_entries (ht_map_data gu hu) → user_bounds d ≠ 0 → user_bounded p' d) ∧
      (∀ k d, (k, d) ∈ ht_entries (ht_map_data gr hr) → role_bounds d ≠ 0 → role_bounded p' d) ∧ types_bounded p' (ht_map_data gt ht)))) as H.
  { unfold wp in H. destruct (hierarchy_check_constraints p []) as [[rc p1] o'|]; [|done].
    destruct H as (-> & gu & gr & gt & Ha & Hr & Hrc). cbn [fst snd] in *. subst p1. exists rc, gu, gr, gt.
    split; [done|]. split; [done|]. intros Hal. unfold hierarchy_kept. by rewrite <- types_bounded_kept. }
  unfold hierarchy_check_constraints. wp_step.
  eapply wp_mono; [apply add_bounds_spec, (hy_symbols _ _ _ _ Hp)|]. intros [rc p1] o1 H.
  destruct (H eq_refl) as (-> & Hrc & gu & gr & gt & Ha & Hp1). cbn [fst snd] in *. subst p1.
  case_bool_decide as Hne; [wp_step; split; [done|]; exists gu, gr, gt; cbn [fst snd]; tauto|]. assert (rc = 0%Z) as -> by lia.
  wp_step. eapply wp_mono; [by apply check_users_spec, added_users|]. intros users o1 Hu. destruct (Hu eq_refl) as [-> Hus].
  wp_step. eapply wp_mono; [by apply check_roles_spec, added_roles|]. intros roles o1 Hr. destruct (Hr eq_refl) as [-> Hrs].
  wp_step. eapply wp_mono; [by apply check_types_spec, added_types|]. intros types o1 Ht. destruct (Ht eq_refl) as [-> Hts].
  assert ((0%Z = 0%Z ∧ users = 0%Z ∧ roles = 0%Z ∧ types = 0%Z) ↔ (all_orphans p hu hr ht = 0%Z ∧
    (∀ k d, (k, d) ∈ ht_entries (ht_map_data gu hu) → user_bounds d ≠ 0 → user_bounded (with_data p hu hr ht gu gr gt) d) ∧
    (∀ k d, (k, d) ∈ ht_entries (ht_map_data gr hr) → role_bounds d ≠ 0 → role_bounded (with_data p hu hr ht gu gr gt) d) ∧
    types_bounded (with_data p hu hr ht gu gr gt) (ht_map_data gt ht))) as Hall by by rewrite Hus, Hrs, Hts, Hrc.
  destruct (bool_decide (types ≠ 0%Z) && negb (types =? SEPOL_ERR)%Z) eqn:E.
  - apply andb_prop in E as [E%bool_decide_eq_true _]. wp_step. split; [done|]. exists gu, gr, gt. split; [done|]. split; [done|].
    cbn [fst]. rewrite <- Hall. tauto.
  - wp_step. split; [done|]. exists gu, gr, gt. split; [done|]. split; [done|]. cbn [fst]. rewrite <- Hall.
    repeat case_bool_decide; cbn [orb]; unfold SEPOL_ERR; lia.
Qed.

(** ** Examples *)

(** The type "a_t.b" and the type "a_t" that bounds it. *)
Definition ex_bounds_policy (bound : N) (te cond : list avtab_node) (l : list cond_node) : policydb :=
  let child := TypeDatum 2 1 0 ebitmap_init 0 bound in
  let types := ex_table [("a_t", ex_type 1); ("a_t.b", child); ("c_t", ex_type 3)]%string 3 in
  let p := set_bools ex_policy [] (one_slot cond) l in {|
  mls := false; p_commons := p_commons p; p_classes := p_classes p; p_roles := p_roles p; p_types := types;
  p_users := p_users p; p_bools := p_bools p; p_levels := p_levels p; p_cats := p_cats p;
  p_class_val_to_name := p_class_val_to_name p; p_role_val_to_name := p_role_val_to_name p;
  p_type_val_to_name := [Some "a_t"; Some "a_t.b"; Some "c_t"]%string; p_user_val_to_name := p_user_val_to_name p;
  p_sens_val_to_name := p_sens_val_to_name p; p_cat_val_to_name := p_cat_val_to_name p;
  class_val_to_struct := class_val_to_struct p; role_val_to_struct := role_val_to_struct p;
  user_val_to_struct := user_val_to_struct p; type_val_to_struct := [Some (ex_type 1); Some child; Some (ex_type 3)];
  bool_val_to_struct := []; te_avtab := one_slot te; te_cond_avtab := te_cond_avtab p;
  cond_list := cond_list p; role_tr := []; role_allows := []; range_tr := [];
  type_attr_map := type_attr_map p; attr_type_map := attr_type_map p |}.

(** The unconditional rules [allow a_t c_t], [allow a_t.b c_t]. *)
Definition ex_bounded_te : list avtab_node := [ex_allow 1 3 AVTAB_ALLOWED 1; ex_allow 2 3 AVTAB_ALLOWED 1].
(** A block with a rule of [a_t] of some kind, and an [allow] for [a_t.b]. *)
Definition ex_bounded_cond (kind : N) : list avtab_node := [ex_allow 1 3 kind 2; ex_allow 2 3 AVTAB_ALLOWED 2].
Definition ex_block (l : list avtab_ptr) : cond_node := CondNode 1 [] l [] 0 0 0 [] 0 0.
Definition ex_bounds (bound kind : N) : policydb :=
  ex_bounds_policy bound ex_bounded_te (ex_bounded_cond kind) [ex_block [(0, 0); (0, 1)]%nat].

Example bounds_kept : bounds_check_types (ex_bounds 1 AVTAB_ALLOWED) [] = Ret 0%Z [].
Proof. by vm_compute. Qed.
Example bounds_broken :
  bounds_check_types (ex_bounds_policy 1 ex_bounded_te (ex_bounded_cond AVTAB_ALLOWED) [ex_block [(0, 1)]%nat]) [] = Ret SEPOL_ERR [].
Proof. by vm_compute. Qed.
(** A conditional [dontaudit] of the parent is taken for a permission. *)
Example dontaudit_counts : bounds_check_types (ex_bounds 1 AVTAB_AUDITDENY) [] = Ret 0%Z [].
Proof. by vm_compute. Qed.
(** The allocator refuses the record of the block: the check goes on without
    the blocks, and misses what they violate. *)
Example refusal_accepts :
  let p := ex_bounds_policy 1 [] [ex_allow 2 3 AVTAB_ALLOWED 2] [ex_block [(0, 0)]%nat] in
  bounds_check_types p [] = Ret SEPOL_ERR [] ∧ bounds_check_types p [true; false] = Ret 0%Z [].
Proof. by vm_compute. Qed.

Lemma ex_bounds_ready bound kind : kind = AVTAB_ALLOWED ∨ kind = AVTAB_AUDITDENY → bound ≤ 3 → bounds_ready (ex_bounds bound kind).
Proof.
  intros Hk Hb. assert (∀ n, n ∈ ex_bounded_te ∨ n ∈ ex_bounded_cond kind → 0 < source_type (av_key n) ≤ 3 ∧
    0 < target_type (av_key n) ≤ 3 ∧ target_class (av_key n) = 1 ∧ truth (N.land AVTAB_XPERMS_ALLOWED (specified (av_key n))) = false) as Hn.
  { intros n. unfold ex_bounded_te, ex_bounded_cond. rewrite !elem_of_cons.
    destruct Hk as [-> | ->]; intros [[->|[->|[]%elem_of_nil]]|[->|[->|[]%elem_of_nil]]]; by split_and!. }
  split.
  - split; [| |done|by_decide]; (split; [apply one_slot_wf; [destruct Hk as [-> | ->]; repeat constructor|done]|]; intros n Hin;
      unfold avtab_entries in Hin; cbn [te_avtab te_cond_avtab ex_bounds ex_bounds_policy set_bools one_slot av_htable default concat] in Hin;
      rewrite app_nil_r in Hin; destruct (Hn n ltac:(auto)) as (? & ? & ? & ->); split; [done|]; by split).
  - done.
  - intros e He. cbn in He. rewrite !elem_of_cons, elem_of_nil in He. destruct He as [->|[->|[->|[]]]]; apply bits_all; by_decide.
  - done.
  - done.
  - intros [|[|[|i]]] td [= <-]; cbn; lia.
  - intros n Hin. enough (target_class (av_key n) = 1) as ->.
    { split; [done|]. split; [by eexists|]. exists ex_class. split; [done|apply ex_tables_wf]. }
    apply Hn. destruct Hin as [Hin|Hin]; [left|right]; unfold avtab_entries in Hin; cbn in Hin; exact Hin.
  - intros node q ->%list_elem_of_singleton. cbn. rewrite !elem_of_cons.
    intros [[->|[->|[]%elem_of_nil]]|[]%elem_of_nil]; by eexists.
Qed.

Lemma ex_types_ready kind : kind = AVTAB_ALLOWED ∨ kind = AVTAB_AUDITDENY →
  ∃ h, types_ready (ex_bounds 1 kind) h ∧ ("a_t.b"%string, TypeDatum 2 1 0 ebitmap_init 0 1) ∈ ht_entries h.
Proof.
  intros Hk. eexists. split; [split; [by apply ex_bounds_ready|done|ex_struct| |destruct Hk as [-> | ->]; by vm_compute]|].
  - intros k d Hin _. unfold ht_entries in Hin. cbn in Hin. rewrite !elem_of_cons, elem_of_nil in Hin.
    destruct Hin as [[= -> ->]|[[= -> ->]|[[= -> ->]|[]]]]; cbn; lia.
  - unfold ht_entries. cbn. right. left.
Qed.

Lemma ex_parent_allows bound parent : parent_allows (ex_bounds bound AVTAB_ALLOWED) parent.
Proof.
  intros node n s t c j ->%list_elem_of_singleton [Hn|Hn] _; [|by apply elem_of_nil in Hn].
  cbn in Hn. rewrite !elem_of_cons, elem_of_nil in Hn. by destruct Hn as [->|[->|[]]].
Qed.

(** What the block allows to "a_t.b" is allowed to "a_t" as well. *)
Lemma type_bounds_enforced_witness :
  ∃ h, types_ready (ex_bounds 1 AVTAB_ALLOWED) h ∧
    within (ex_bounds 1 AVTAB_ALLOWED) (λ t, granted (ex_bounds 1 AVTAB_ALLOWED) (λ _, true) 1 t 1 1) 3.
Proof.
  destruct (ex_types_ready AVTAB_ALLOWED) as (h & Hh & Hin); [by left|]. exists h. split; [done|].
  refine (proj1 (type_bounds_enforced (ex_bounds 1 AVTAB_ALLOWED) h (λ _, true) "a_t.b" (TypeDatum 2 1 0 ebitmap_init 0 1) 2 3 1 1
    Hh _ Hin ltac:(done) _ _) eq_refl).
  - exists []. apply bounds_kept.
  - apply ex_parent_allows.
  - right. eexists. split; [left|]. exists (ex_allow 2 3 AVTAB_ALLOWED 2). split; [right; left|]. split; [done|]. by split_and!.
Defined.

Ltac ex_entries H := unfold ht_entries in H; cbn in H; rewrite ?elem_of_cons, ?elem_of_nil in H.

Lemma ex_hierarchy_ready : ∃ hu hr ht, hierarchy_ready (ex_bounds 0 AVTAB_ALLOWED) hu hr ht ∧
  ("a_t.b"%string, TypeDatum 2 1 0 ebitmap_init 0 0) ∈ ht_entries ht ∧ ht_map ht !! "a_t"%string = Some (ex_type 1).
Proof.
  do 3 eexists. split; [split|].
  - split; [done|done|done| | | |intros [|[|[|i]]] k; done..|by vm_compute].
    all: split; [ex_struct|]; intros k d Hin; ex_entries Hin.
    + destruct Hin as [[= -> ->]|[]]; cbn. split; [lia|]. by eexists.
    + destruct Hin as [[= -> ->]|[[= -> ->]|[]]]; cbn; (split; [lia|by eexists]).
    + destruct Hin as [[= -> ->]|[[= -> ->]|[[= -> ->]|[]]]]; cbn; (split; [lia|by eexists]).
  - apply ex_bounds_ready; [by left|lia].
  - split.
    + intros k d Hin. ex_entries Hin. destruct Hin as [[= -> ->]|[[= -> ->]|[[= -> ->]|[]]]]; cbn; lia.
    + intros [|[|[|i]]] d [= <-]; eexists; (split; [done|]); unfold ht_entries; cbn; rewrite !elem_of_cons; tauto.
  - split.
    + intros k d Hin. ex_entries Hin. destruct Hin as [[= -> ->]|[[= -> ->]|[]]]; cbn; lia.
    + intros [|[|i]] d [= <-]; eexists; (split; [done|]); unfold ht_entries; cbn; rewrite !elem_of_cons; tauto.
  - split.
    + intros k d Hin. ex_entries Hin. destruct Hin as [[= -> ->]|[]]; cbn; lia.
    + intros [|i] d [= <-]; eexists; (split; [done|]); unfold ht_entries; cbn; rewrite !elem_of_cons; tauto.
  - split; [done|cbn; lia].
  - split; [done|cbn; lia].
  - intros k d Hin. ex_entries Hin. destruct Hin as [[= -> ->]|[[= -> ->]|[]]]; by_decide.
  - intros k d Hin. ex_entries Hin. destruct Hin as [[= -> ->]|[]]; by_decide.
  - by vm_compute.
  - split; [unfold ht_entries; cbn; right; left|by vm_compute].
Qed.

(** "a_t.b" is given the bound "a_t", and keeps it. *)
Lemma same_parent_allows p q parent :
  cond_list q = cond_list p → te_cond_avtab q = te_cond_avtab p → attr_type_map q = attr_type_map p →
  parent_allows p parent → parent_allows q parent.
Proof.
  intros Hc Ht Ha. unfold parent_allows, touching, list_rules, node_grants, key_grants, in_attr, types_of. by rewrite Hc, Ht, Ha.
Qed.

Lemma hierarchy_check_exact_witness :
  ∃ hu hr ht gu gr gt, let p := ex_bounds 0 AVTAB_ALLOWED in let p' := with_data p hu hr ht gu gr gt in
    gt "a_t.b"%string (TypeDatum 2 1 0 ebitmap_init 0 0) = TypeDatum 2 1 0 ebitmap_init 0 1 ∧
    hierarchy_kept p p' hu (ht_map_data gu hu) hr (ht_map_data gr hr) ht (ht_map_data gt ht).
Proof.
  destruct ex_hierarchy_ready as (hu & hr & ht & Hready & Hin & Hparent).
  destruct (hierarchy_check_exact (ex_bounds 0 AVTAB_ALLOWED) hu hr ht Hready) as (rc & gu & gr & gt & Ha & Hrun & Hrc).
  exists hu, hr, ht, gu, gr, gt. split.
  - rewrite (ad_types _ _ _ _ _ _ _ Ha _ _ Hin). unfold given.
    assert (dotted type_value type_bounds (p_type_val_to_name (ex_bounds 0 AVTAB_ALLOWED)) (TypeDatum 2 1 0 ebitmap_init 0 0) = Some "a_t"%string) as -> by done.
    by rewrite Hparent.
  - apply Hrc.
    + intros k d _ _. apply (same_parent_allows (ex_bounds 0 AVTAB_ALLOWED)); [done..|apply ex_parent_allows].
    + assert (rc = match hierarchy_check_constraints (ex_bounds 0 AVTAB_ALLOWED) [] with Ret r _ => r.1 | UB => 1%Z end) as ->
      by by rewrite Hrun. by vm_compute.
Defined.

(** No type in front of the dot. *)
Example orphan_refused :
  let p := ex_bounds 0 AVTAB_ALLOWED in
  let types := ex_table [("a_t.b", ex_type 2)]%string 2 in
  match hierarchy_check_constraints (with_type_data p types [None; Some (ex_type 2)]) [] with Ret r _ => r.1 | UB => 0%Z end = SEPOL_ERR.
Proof. by vm_compute. Qed.
