(* ===== verification/ExpandRules.v ===== *)
(** Expansion of rules: [find_avtab_node], [expand_avrule_helper],
    [expand_terule_helper], [expand_rule_helper] and
    [convert_and_expand_rule] of libsepol/src/expand.c.

    A rule of a module names sets of types; its expansion is a rule per pair of
    types in the table of the kernel policy.  Unconditional rules go to one
    table, those of conditional blocks to the other, and their block keeps a
    list of pointers to them.  The [parse_context] of a rule is the list that
    holds it: the code sets the field when it adds the rule to the list. *)

From stdpp Require Import sorting gmap.
From S2P Require Import Prelude.
From S2P Require Import Ebitmap.
From S2P Require Import Hashtab.
From S2P Require Import MlsTypes.
From S2P Require Import Avtab.
From S2P Require Import Policydb.
From S2P Require Import Mls.
From S2P Require Import Context.
From S2P Require Import Conditional.
From S2P Require Import Expand.
From S2P Require Import Assertion.
From S2P Require Import PolicyIO.
From S2P Require Import SymbolIO.
From S2P Require Import ModuleIO.
From S2P Require Import CondIO.
Local Open Scope N_scope.

Definition AVRULE_AUDITALLOW : N := 2.
Definition AVRULE_AUDITDENY : N := 4.
Definition AVRULE_DONTAUDIT : N := 8.
Definition AVRULE_TRANSITION : N := 16.
Definition AVRULE_MEMBER : N := 32.
Definition AVRULE_CHANGE : N := 64.
Definition AVRULE_AV : N := 143.
Definition AVRULE_TYPE : N := 112.
Definition AVRULE_XPERMS_ALLOWED : N := 256.
Definition AVRULE_XPERMS_AUDITALLOW : N := 512.
Definition AVRULE_XPERMS_DONTAUDIT : N := 1024.
Definition AVTAB_NEVERALLOW : N := 128.

Definition EXPAND_RULE_SUCCESS : Z := 1.
Definition EXPAND_RULE_CONFLICT : Z := 0.
Definition EXPAND_RULE_ERROR : Z := -1.

(** * The tables *)

(** The two tables of the new policy and its conditional blocks. *)
Record rule_tabs := RuleTabs { rt_te : avtab; rt_cond : avtab; rt_conds : list cond_node }.

(** A list of a block: the number of the block and the branch. *)
Definition branch := (nat * bool)%type.
Definition branch_rules (st : rule_tabs) (b : branch) : M (list avtab_ptr) :=
  n ← deref (rt_conds st !! b.1); mret (if b.2 then true_list n else false_list n).

(** The table that rules of [cond] go to; [None] is NULL. *)
Definition dest (cond : option branch) (st : rule_tabs) : avtab :=
  match cond with None => rt_te st | Some _ => rt_cond st end.
Definition set_dest (cond : option branch) (st : rule_tabs) (a : avtab) : rule_tabs :=
  match cond with
  | None => RuleTabs a (rt_cond st) (rt_conds st)
  | Some _ => RuleTabs (rt_te st) a (rt_conds st)
  end.

(** What is written through a pointer to a rule. *)
Definition update_node (a : avtab) (q : avtab_ptr) (f : avtab_node → avtab_node) : M avtab :=
  t ← deref (av_htable a);
  c ← deref (t !! q.1);
  n ← deref (c !! q.2);
  mret (Avtab (Some (<[q.1 := <[q.2 := f n]> c]> t)) (av_nel a) (nslot a) (mask a)).

(** Linking a rule at [at_] moves the pointers to those behind it. *)
Definition shift_conds (at_ : avtab_ptr) (l : list cond_node) : list cond_node := shift_node at_ <$> l.

(** [nl->next = *cond; *cond = nl] *)
Definition push (b : branch) (q : avtab_ptr) (l : list cond_node) : list cond_node :=
  alter (λ n, if b.2 then set_lists n (q :: true_list n) (false_list n) else set_lists n (true_list n) (q :: false_list n)) b.1 l.

(** The loops over the matches of a key up to one that passes a test. *)
Fixpoint next_where (fuel : nat) (node : option (list avtab_node)) (spec : N) (test : list avtab_node → M bool)
    : M (option (list avtab_node)) :=
  match node with
  | None => mret None
  | Some c =>
      b ← test c;
      if b : bool then mret (Some c) else
      match fuel with
      | O => ub
      | S fuel' => next_where fuel' (avtab_search_node_next (Some c) spec) spec test
      end
  end.

(** The extended permissions are of the same kind and driver. *)
Definition same_xperms (xp : option av_extended_perms) (c : list avtab_node) : M bool :=
  n ← deref (head c);
  x ← deref (xperms (av_datum n));
  xp ← deref xp;
  mret ((xp_specified x =? ax_specified xp) && (xp_driver x =? ax_driver xp)).

(** The rule is in the list [b]: [node->parse_context == b]. *)
Definition in_branch (st : rule_tabs) (key : avtab_key) (b : branch) (c : list avtab_node) : M bool :=
  q ← ptr_of (rt_cond st) key c;
  l ← branch_rules st b;
  mret (bool_decide (q ∈ l)).

Definition find_avtab_node (cond : option branch) (key : avtab_key) (xp : option av_extended_perms) (st : rule_tabs)
    : M (option avtab_ptr * rule_tabs) :=
  let a := dest cond st in
  let fuel := length (avtab_entries a) in
  node ← avtab_search_node (Some a) key;
  node ← (if truth (N.land (specified key) AVTAB_XPERMS)
          then next_where fuel node (specified key) (same_xperms xp) else mret node);
  node ← match cond with Some b => next_where fuel node (specified key) (in_branch st key b) | None => mret node end;
  match node with
  | Some c => q ← ptr_of a key c; mret (Some q, st)
  | None =>
      r ← avtab_insert_nonunique (Some a) key (AvtabDatum 0 None);
      match r with
      | None => mret (None, st)
      | Some (a, c) =>
          q ← ptr_of a key c;
          match cond with
          | None => mret (Some q, set_dest cond st a)
          | Some b =>
              let st := RuleTabs (rt_te st) a (shift_conds q (rt_conds st)) in
              m ← malloc;
              if negb m then mret (None, st) else
              mret (Some q, RuleTabs (rt_te st) a (push b q (rt_conds st)))
          end
      end
  end.

(** [node->key.specified] with or without the flag. *)
Definition mark (enabled : bool) (n : avtab_node) : avtab_node :=
  let k := av_key n in
  AvtabNode (AvtabKey (source_type k) (target_type k) (target_class k)
               (if enabled then N.lor (specified k) AVTAB_ENABLED else N.ldiff (specified k) AVTAB_ENABLED))
    (av_datum n) (merged n).
Definition put_data (x : N) (n : avtab_node) : avtab_node :=
  AvtabNode (av_key n) (AvtabDatum x (xperms (av_datum n))) (merged n).
Definition put_xperms (x : avtab_extended_perms) (n : avtab_node) : avtab_node :=
  AvtabNode (av_key n) (AvtabDatum (data (av_datum n)) (Some x)) (merged n).

(** * Type rules *)

(** The kind of rule in the table. *)
Definition te_spec (specified : N) : M N :=
  if truth (N.land specified AVRULE_TRANSITION) then mret AVTAB_TRANSITION
  else if truth (N.land specified AVRULE_MEMBER) then mret AVTAB_MEMBER
  else if truth (N.land specified AVRULE_CHANGE) then mret AVTAB_CHANGE
  else ub.

(** The names that the messages about a conflict read. *)
Definition conflict_names (p : policydb) (key : avtab_key) (oldtype : N) (newtype : option N) : M unit :=
  _ ← deref (p_type_val_to_name p !! N.to_nat (dec32 (source_type key)));
  _ ← deref (p_type_val_to_name p !! N.to_nat (dec32 (target_type key)));
  _ ← deref (p_class_val_to_name p !! N.to_nat (dec32 (target_class key)));
  _ ← deref (p_type_val_to_name p !! N.to_nat (dec32 oldtype));
  match newtype with
  | Some t => _ ← deref (p_type_val_to_name p !! N.to_nat (dec32 t)); mret tt
  | None => mret tt
  end.

(** A rule for the key that is there already: 1 unconditional, 2 conditional
    and not in the other list of the block. *)
Definition te_conflict (other : option branch) (key : avtab_key) (st : rule_tabs) : M (N * option (list avtab_node)) :=
  node ← avtab_search_node (Some (rt_te st)) key;
  match node with
  | Some c => mret (1, Some c)
  | None =>
      node ← avtab_search_node (Some (rt_cond st)) key;
      match node with
      | None => mret (0, None)
      | Some c =>
          same ← match other with Some b => in_branch st key b c | None => mret false end;
          mret (if same : bool then 0 else 2, Some c)
      end
  end.

(** One class: [inl] is the result of the whole call. *)
Definition expand_te_class (p : policydb) (typemap : option (list N)) (spec : N) (cond other : option branch)
    (stype ttype : N) (enabled : bool) (cur : class_perm_node) (st : rule_tabs) : M ((Z * rule_tabs) + rule_tabs) :=
  remapped ← match typemap with Some m => deref (m !! N.to_nat (dec32 (cp_data cur))) | None => mret (cp_data cur) end;
  let key := AvtabKey (u16 (stype + 1)) (u16 (ttype + 1)) (u16 (cp_tclass cur)) spec in
  '(conflict, node) ← te_conflict other key st;
  if truth conflict then
    c ← deref node;
    n ← deref (head c);
    let oldtype := data (av_datum n) in
    if oldtype =? remapped then
      same ← (if (conflict =? 1) then mret (negb (bool_decide (is_Some cond)))
              else match cond with Some b => in_branch st key b c | None => mret false end);
      if same : bool then mret (inl (EXPAND_RULE_SUCCESS, st)) else
      _ ← conflict_names p key oldtype None;
      mret (inl (EXPAND_RULE_CONFLICT, st))
    else
      _ ← conflict_names p key oldtype (Some remapped);
      mret (inl (EXPAND_RULE_CONFLICT, st))
  else
    '(q, st) ← find_avtab_node cond key None st;
    match q with
    | None => mret (inl ((-1)%Z, st))
    | Some q =>
        a ← update_node (dest cond st) q (λ n, put_data remapped (mark enabled n));
        mret (inr (set_dest cond st a))
    end.

Definition expand_terule_helper (p : policydb) (typemap : option (list N)) (specified : N) (cond other : option branch)
    (stype ttype : N) (perms : list class_perm_node) (enabled : bool) (st : rule_tabs) : M (Z * rule_tabs) :=
  spec ← te_spec specified;
  r ← for_list (expand_te_class p typemap spec cond other stype ttype enabled) perms st;
  mret match r with inl x => x | inr st => (EXPAND_RULE_SUCCESS, st) end.

(** * Access vector rules *)

(** The kind of rule in the table; [None]: nothing to do. *)
Definition av_spec (disable_dontaudit : bool) (specified : N) : M (option N) :=
  let has f := truth (N.land specified f) in
  if has AVRULE_ALLOWED then mret (Some AVTAB_ALLOWED)
  else if has AVRULE_AUDITALLOW then mret (Some AVTAB_AUDITALLOW)
  else if has AVRULE_AUDITDENY then mret (Some AVTAB_AUDITDENY)
  else if has AVRULE_DONTAUDIT then mret (if disable_dontaudit then None else Some AVTAB_AUDITDENY)
  else if has AVRULE_NEVERALLOW then mret (Some AVTAB_NEVERALLOW)
  else if has AVRULE_XPERMS_ALLOWED then mret (Some AVTAB_XPERMS_ALLOWED)
  else if has AVRULE_XPERMS_AUDITALLOW then mret (Some AVTAB_XPERMS_AUDITALLOW)
  else if has AVRULE_XPERMS_DONTAUDIT then mret (if disable_dontaudit then None else Some AVTAB_XPERMS_DONTAUDIT)
  else ub.

(** The new permissions of a rule that is not one of extended permissions;
    [None] for those. *)
Definition merge_data (specified old x : N) : option N :=
  let has f := truth (N.land specified f) in
  if has AVRULE_ALLOWED then Some (N.lor old x)
  else if has AVRULE_AUDITALLOW then Some (N.lor old x)
  else if has AVRULE_NEVERALLOW then Some (N.lor old x)
  else if has AVRULE_AUDITDENY then Some (N.land old x)
  else if has AVRULE_DONTAUDIT then Some (if truth old then N.ldiff old x else lnot32 x)
  else None.

(** [node->datum.xperms->perms[i] |= extended_perms->perms[i]] *)
Definition merge_xperms (xp : av_extended_perms) (x : avtab_extended_perms) : avtab_extended_perms :=
  XPerms (ax_specified xp) (ax_driver xp) (zip_with N.lor (xp_perms x) (ax_perms xp)).

Definition expand_av_class (spec specified : N) (cond : option branch) (stype ttype : N) (enabled : bool)
    (xp : option av_extended_perms) (cur : class_perm_node) (st : rule_tabs) : M ((Z * rule_tabs) + rule_tabs) :=
  let key := AvtabKey (u16 (stype + 1)) (u16 (ttype + 1)) (u16 (cp_tclass cur)) spec in
  '(q, st) ← find_avtab_node cond key xp st;
  match q with
  | None => mret (inl (EXPAND_RULE_ERROR, st))
  | Some q =>
      a ← update_node (dest cond st) q (mark enabled);
      let st := set_dest cond st a in
      n ← deref (node_at a q);
      match merge_data specified (data (av_datum n)) (cp_data cur) with
      | Some x => a ← update_node a q (put_data x); mret (inr (set_dest cond st a))
      | None =>
          if negb (truth (N.land specified AVRULE_XPERMS)) then ub else
          b ← match xperms (av_datum n) with Some _ => mret true | None => malloc end;
          if negb b then mret (inl ((-1)%Z, st)) else
          xp ← deref xp;
          a ← update_node a q (put_xperms (merge_xperms xp (default zero_xperms (xperms (av_datum n)))));
          mret (inr (set_dest cond st a))
      end
  end.

Definition expand_avrule_helper (disable_dontaudit : bool) (specified : N) (cond : option branch) (stype ttype : N)
    (perms : list class_perm_node) (enabled : bool) (xp : option av_extended_perms) (st : rule_tabs) : M (Z * rule_tabs) :=
  spec ← av_spec disable_dontaudit specified;
  match spec with
  | None => mret (EXPAND_RULE_SUCCESS, st)
  | Some spec =>
      r ← for_list (expand_av_class spec specified cond stype ttype enabled xp) perms st;
      mret match r with inl x => x | inr st => (EXPAND_RULE_SUCCESS, st) end
  end.

(** * Whole rules *)

Section rules.
Context (disable_dontaudit : bool) (p : policydb).

(** The rule for one pair of types. *)
Definition expand_pair (typemap : option (list N)) (r : avrule) (cond other : option branch) (enabled : bool)
    (i j : N) (st : rule_tabs) : M ((Z * rule_tabs) + rule_tabs) :=
  '(retval, st) ← (if truth (N.land (ar_specified r) (N.lor AVRULE_AV AVRULE_XPERMS))
                   then expand_avrule_helper disable_dontaudit (ar_specified r) cond i j (ar_perms r) enabled (ar_xperms r) st
                   else expand_terule_helper p typemap (ar_specified r) cond other i j (ar_perms r) enabled st);
  mret (if (retval =? EXPAND_RULE_SUCCESS)%Z then inr st else inl (retval, st)).

Definition expand_rule_helper (typemap : option (list N)) (r : avrule) (cond other : option branch) (enabled : bool)
    (stypes ttypes : ebitmap) (st : rule_tabs) : M (Z * rule_tabs) :=
  x ← ebitmap_for_each_bit stypes st (λ i bit st,
        if negb bit then mret (inr st) else
        x ← (if truth (N.land (ar_flags r) RULE_SELF) then expand_pair typemap r cond other enabled i i st else mret (inr st));
        match x with
        | inl x => mret (inl x)
        | inr st => ebitmap_for_each_bit ttypes st (λ j bit st,
              if negb bit then mret (inr st) else expand_pair typemap r cond other enabled i j st)
        end);
  mret match x with inl x => x | inr st => (EXPAND_RULE_SUCCESS, st) end.

Definition convert_and_expand_rule (typemap : list N) (r : avrule) (cond other : option branch) (enabled do_neverallow : bool)
    (st : rule_tabs) : M (Z * rule_tabs) :=
  if negb do_neverallow && truth (N.land (ar_specified r) AVRULE_NEVERALLOW) then mret (EXPAND_RULE_SUCCESS, st) else
  if truth (N.land (ar_specified r) AVRULE_XPERMS_NEVERALLOW) then mret (EXPAND_RULE_SUCCESS, st) else
  let alwaysexpand := truth (N.land (ar_specified r) AVRULE_TYPE) || truth (N.land (ar_flags r) RULE_SELF) in
  '(rc, stypes) ← expand_convert_type_set p typemap (ar_stypes r) alwaysexpand;
  if bool_decide (rc ≠ 0%Z) then mret (EXPAND_RULE_ERROR, st) else
  '(rc, ttypes) ← expand_convert_type_set p typemap (ar_ttypes r) alwaysexpand;
  if bool_decide (rc ≠ 0%Z) then mret (EXPAND_RULE_ERROR, st) else
  expand_rule_helper (Some typemap) r cond other enabled stypes ttypes st.

(** Rules of the policy itself, as tools expand them. *)
Definition expand_rule (r : avrule) (cond other : option branch) (enabled : bool) (st : rule_tabs) : M (Z * rule_tabs) :=
  if truth (N.land (ar_specified r) AVRULE_NEVERALLOW) || truth (N.land (ar_specified r) AVRULE_XPERMS_NEVERALLOW)
  then mret (EXPAND_RULE_SUCCESS, st) else
  '(rc, stypes) ← type_set_expand (ar_stypes r) p true;
  if bool_decide (rc ≠ 0%Z) then mret ((-1)%Z, st) else
  '(rc, ttypes) ← type_set_expand (ar_ttypes r) p true;
  if bool_decide (rc ≠ 0%Z) then mret ((-1)%Z, st) else
  expand_rule_helper None r cond other enabled stypes ttypes st.

(** The rules of one branch of a block. *)
Definition cond_avrule_list_copy (typemap : list N) (rules : list avrule) (list other : branch) (enabled : bool)
    (st : rule_tabs) : M (Z * rule_tabs) :=
  r ← for_list (λ cur st,
        '(rc, st) ← convert_and_expand_rule typemap cur (Some list) (Some other) enabled false st;
        mret (if (rc =? EXPAND_RULE_SUCCESS)%Z then inr st else inl ((-1)%Z, st))) rules st;
  mret match r with inl x => x | inr st => (0%Z, st) end.
End rules.

(** * Tables as finite maps *)

(** What tells the rules of a table apart: types and class, the kind, and for
    extended permissions their kind and driver. *)
Definition rule_ident : Type := (N * N * N) * N * option (N * N).

Definition kinds : list N :=
  [AVTAB_ALLOWED; AVTAB_AUDITALLOW; AVTAB_AUDITDENY; AVTAB_TRANSITION; AVTAB_MEMBER; AVTAB_CHANGE; AVTAB_NEVERALLOW;
   AVTAB_XPERMS_ALLOWED; AVTAB_XPERMS_AUDITALLOW; AVTAB_XPERMS_DONTAUDIT].

Definition kind_of (n : avtab_node) : N := clear_enabled (specified (av_key n)).
Definition triple (k : avtab_key) : N * N * N := (source_type k, target_type k, target_class k).
Definition ident (n : avtab_node) : rule_ident :=
  (triple (av_key n), kind_of n,
   if truth (N.land (kind_of n) AVTAB_XPERMS) then (λ x, (xp_specified x, xp_driver x)) <$> xperms (av_datum n) else None).

(** Every rule is of one kind and there is one rule for each identity. *)
Record tab_ok (a : avtab) : Prop := {
  to_wf : avtab_wf a;
  to_kinds : ∀ n, n ∈ avtab_entries a → kind_of n ∈ kinds;
  to_xperms : ∀ n, n ∈ avtab_entries a → truth (N.land (kind_of n) AVTAB_XPERMS) = true → is_Some (xperms (av_datum n));
  to_nodup : NoDup (ident <$> avtab_entries a) }.

Definition tab_map (a : avtab) : gmap rule_ident avtab_node := list_to_map ((λ n, (ident n, n)) <$> avtab_entries a).

Lemma ident_fst (l : list avtab_node) : ((λ n, (ident n, n)) <$> l).*1 = ident <$> l.
Proof. rewrite <- list_fmap_compose. by apply list_fmap_ext. Qed.

Lemma tab_lookup a i n : tab_ok a → tab_map a !! i = Some n ↔ n ∈ avtab_entries a ∧ ident n = i.
Proof.
  intros Ha. unfold tab_map. rewrite <- elem_of_list_to_map by (rewrite ident_fst; apply Ha). rewrite list_elem_of_fmap. split.
  - intros (m & [= -> ->] & Hm). done.
  - intros [Hn <-]. by exists n.
Qed.

Lemma tab_none a i : tab_ok a → tab_map a !! i = None ↔ ∀ n, n ∈ avtab_entries a → ident n ≠ i.
Proof.
  intros Ha. split.
  - intros Hi n Hn Hid. assert (tab_map a !! i = Some n) by (by apply tab_lookup). congruence.
  - intros H. destruct (tab_map a !! i) as [n|] eqn:E; [|done]. apply tab_lookup in E as [? ?]; [|done]. by destruct (H n).
Qed.

(** A rule of a kind matches the keys of that kind. *)
Lemma kind_match k n : k ∈ kinds → kind_of n ∈ kinds → truth (N.land (clear_enabled k) (specified (av_key n))) = bool_decide (kind_of n = k).
Proof.
  intros Hk Hn. assert (N.land (clear_enabled k) (specified (av_key n)) = N.land (clear_enabled k) (kind_of n)) as ->.
  { unfold kind_of, clear_enabled. apply N.bits_inj. intros j. rewrite !N.land_spec, !N.ldiff_spec. btauto. }
  assert (Forall (λ k, Forall (λ k', truth (N.land (clear_enabled k) k') = bool_decide (k' = k)) kinds) kinds) as H by by_decide.
  rewrite Forall_forall in H. specialize (H k Hk). rewrite Forall_forall in H. by apply H.
Qed.

Lemma match_ident s t c k n :
  k ∈ kinds → kind_of n ∈ kinds →
  key_match (AvtabKey s t c k) (clear_enabled k) (av_key n) = true ↔ triple (av_key n) = (s, t, c) ∧ kind_of n = k.
Proof.
  intros Hk Hn. unfold key_match. cbn [source_type target_type target_class specified]. rewrite kind_match by done.
  unfold triple. rewrite !andb_true_iff, !N.eqb_eq, bool_decide_eq_true. split; [intros [[[-> ->] ->] ->]; done|].
  intros [H ->]. by injection H as -> -> ->.
Qed.

(** ** Inserting and updating *)

Lemma insert_map a a' n :
  tab_ok a → avtab_wf a' → avtab_entries a' ≡ₚ n :: avtab_entries a → kind_of n ∈ kinds →
  (truth (N.land (kind_of n) AVTAB_XPERMS) = true → is_Some (xperms (av_datum n))) → tab_map a !! ident n = None →
  tab_ok a' ∧ tab_map a' = <[ident n := n]> (tab_map a).
Proof.
  intros Ha Hwf Hp Hk Hx Hnew. assert (NoDup (ident <$> avtab_entries a')) as Hnd.
  { rewrite Hp. cbn. apply NoDup_cons. split; [|apply Ha]. intros (m & Hm & Hin)%list_elem_of_fmap.
    rewrite tab_none in Hnew by done. by destruct (Hnew m). }
  split.
  - split; [done|..|done]; intros m; rewrite Hp; intros [->|Hm]%elem_of_cons; auto; by apply Ha.
  - unfold tab_map. rewrite (list_to_map_proper _ ((λ n, (ident n, n)) <$> n :: avtab_entries a)).
    + done.
    + by rewrite ident_fst.
    + by rewrite Hp.
Qed.

Lemma replace_map a a' n n' R :
  tab_ok a → avtab_wf a' → avtab_entries a ≡ₚ n :: R → avtab_entries a' ≡ₚ n' :: R → ident n' = ident n →
  (truth (N.land (kind_of n) AVTAB_XPERMS) = true → is_Some (xperms (av_datum n'))) →
  tab_ok a' ∧ tab_map a' = <[ident n := n']> (tab_map a).
Proof.
  intros Ha Hwf Hp Hp' Hid Hx. assert (kind_of n' = kind_of n) as Hk by (unfold ident in Hid; congruence).
  assert (NoDup (ident <$> n :: R)) as Hn by (rewrite <- Hp; apply Ha).
  assert (NoDup (ident <$> avtab_entries a')) as Hnd by (rewrite Hp'; cbn; rewrite Hid; exact Hn).
  assert (tab_ok a') as Ha'.
  { split; [done|..|done]; intros m; rewrite Hp'; intros [->|Hm]%elem_of_cons.
    - rewrite Hk. apply Ha. rewrite Hp. left.
    - apply Ha. rewrite Hp. by right.
    - by rewrite Hk.
    - apply Ha. rewrite Hp. by right. }
  split; [done|]. apply map_eq. intros i. destruct (decide (i = ident n)) as [->|Hne].
  - rewrite lookup_insert_eq. apply tab_lookup; [done|]. split; [rewrite Hp'; left|done].
  - rewrite lookup_insert_ne by done. apply option_eq. intros m. rewrite !tab_lookup by done. rewrite Hp, Hp', !elem_of_cons.
    split; (intros [[->|Hm] <-]; [congruence|auto]).
Qed.

(** ** Pointers *)

Lemma node_at_slot a q n :
  node_at a q = Some n ↔ ∃ t c, av_htable a = Some t ∧ t !! q.1 = Some c ∧ c !! q.2 = Some n.
Proof.
  unfold node_at. destruct (av_htable a) as [t|]; cbn; [|split; [done|by intros (? & ? & ? & _)]].
  destruct (t !! q.1) as [c|] eqn:E; cbn; [|split; [done|by intros (? & ? & [= <-] & ? & _); congruence]].
  split; [intros H; by exists t, c|]. by intros (t' & c' & [= <-] & Hc & Hn); congruence.
Qed.

(** A node stays where it is when its key keeps types and class. *)
Lemma update_node_spec a q n f R o :
  avtab_wf a → node_at a q = Some n → triple (av_key (f n)) = triple (av_key n) → avtab_entries a ≡ₚ n :: R →
  ∃ a', update_node a q f o = Ret a' o ∧ avtab_wf a' ∧ mask a' = mask a ∧ node_at a' q = Some (f n) ∧ avtab_entries a' ≡ₚ f n :: R ∧
    ∀ q', q' ≠ q → node_at a' q' = node_at a q'.
Proof.
  intros [(t0 & Ht0 & Hlen & Hch) Hmask Hnel] Hq Hf HR. apply node_at_slot in Hq as (t & c & Ht & Hc & Hn).
  assert (t0 = t) as -> by congruence. unfold update_node. rewrite bind_run, Ht. cbn [deref]. unfold mret at 1, M_ret at 1.
  rewrite bind_run, Hc. cbn [deref]. unfold mret at 1, M_ret at 1. rewrite bind_run, Hn. cbn [deref]. unfold mret at 1, M_ret at 1.
  set (c' := <[q.2 := f n]> c). set (a' := Avtab _ _ _ _). exists a'. split; [done|].
  assert (q.1 < length t)%nat as Hq1 by (by eapply lookup_lt_Some). assert (q.2 < length c)%nat as Hq2 by (by eapply lookup_lt_Some).
  pose proof (take_drop_middle _ _ _ Hn) as Hsplit. set (pre := take q.2 c) in *. set (next := drop (S q.2) c) in *.
  assert (c' = pre ++ f n :: next) as Hc' by (unfold c'; by rewrite insert_take_drop).
  destruct (concat_focus _ _ _ Hc) as (Q & HQ & Hset).
  assert (avtab_entries a ≡ₚ n :: (pre ++ next) ++ Q) as E1.
  { unfold avtab_entries. rewrite Ht, HQ, <- Hsplit. solve_Permutation. }
  assert (avtab_entries a' ≡ₚ f n :: (pre ++ next) ++ Q) as E2.
  { unfold avtab_entries, a'. cbn [av_htable]. rewrite Hset, Hc'. solve_Permutation. }
  assert (R ≡ₚ (pre ++ next) ++ Q) as HRQ by (apply (Permutation_cons_inv (a := n)); by rewrite <- HR, <- E1).
  destruct (Hch _ _ Hc) as [Hs Hh]. unfold triple in Hf. injection Hf as Hf1 Hf2 Hf3.
  assert (∀ msk, avtab_hash (av_key (f n)) msk = avtab_hash (av_key n) msk) as Hhash by (intros msk; unfold avtab_hash; by rewrite Hf1, Hf2, Hf3).
  assert (av_sorted c') as Hs'.
  { rewrite Hc'. rewrite <- Hsplit in Hs. apply StronglySorted_app in Hs as (Hpn & Hsp & [Hsn Hall]%StronglySorted_inv).
    assert (∀ k, key_before k (av_key (f n)) = key_before k (av_key n)) as Hb1 by (intros k; unfold key_before; by rewrite Hf1, Hf2, Hf3).
    assert (∀ k, key_before (av_key (f n)) k = key_before (av_key n) k) as Hb2 by (intros k; unfold key_before; by rewrite Hf1, Hf2, Hf3).
    apply StronglySorted_app. split_and!; [|done|constructor; [done|]].
    - intros x y Hx [->|Hy]%elem_of_cons; [|by apply Hpn; [|right]]. cbn. rewrite ?Hb1, ?Hb2. by apply (Hpn x n Hx); left.
    - eapply Forall_impl; [exact Hall|]. intros y Hy. cbn in *. by rewrite ?Hb1, ?Hb2. }
  split_and!.
  - split; [|done|].
    + eexists. split; [done|]. cbn [nslot mask a']. split; [by rewrite length_insert|]. intros j d Hj.
      destruct (decide (q.1 = j)) as [<-|Hne]; [|rewrite list_lookup_insert_ne in Hj by done; by apply Hch].
      rewrite list_lookup_insert_eq in Hj by done. injection Hj as <-. split; [done|]. apply Forall_insert; [done|].
      rewrite Hhash. rewrite Forall_lookup in Hh. by apply (Hh q.2).
    + change (av_nel a') with (av_nel a). rewrite Hnel, E1, E2. done.
  - done.
  - apply node_at_slot. exists (<[q.1 := c']> t), c'. split; [done|]. split; [by apply list_lookup_insert_eq|]. by apply list_lookup_insert_eq.
  - by rewrite E2, HRQ.
  - intros [i j] Hne. unfold node_at. cbn. rewrite Ht. cbn. destruct (decide (q.1 = i)) as [<-|Hi]; [|by rewrite list_lookup_insert_ne].
    rewrite list_lookup_insert_eq, Hc by done. cbn. unfold c'. apply list_lookup_insert_ne. intros <-. by destruct q.
Qed.

(** The loop finds a match that passes the test, if there is one. *)
Lemma next_where_spec key spec spec' test (g : list avtab_node → bool) c fuel o :
  av_sorted c → clear_enabled spec = clear_enabled spec' → (length c ≤ fuel)%nat →
  let m n := key_match key (clear_enabled spec') (av_key n) in
  (∀ pre n s, c = pre ++ n :: s → m n = true → test (n :: s) o = Ret (g (n :: s)) o) →
  ∃ r, next_where fuel (find_suffix m c) spec test o = Ret r o ∧
    match r with
    | Some d => ∃ pre n s, c = pre ++ d ∧ d = n :: s ∧ m n = true ∧ g d = true
    | None => ∀ pre n s, c = pre ++ n :: s → m n = true → g (n :: s) = false
    end.
Proof.
  intros Hs Heq Hf m. revert fuel Hf. induction Hs as [|n c Hs IH Hall]; intros fuel Hf Ht.
  { exists None. split; [by destruct fuel|]. by intros [|? pre] n s H. }
  cbn [find_suffix]. destruct (m n) eqn:Em.
  - destruct fuel as [|fuel]; [cbn in Hf; lia|]. cbn [next_where]. rewrite bind_run, (Ht [] n c eq_refl Em).
    destruct (g (n :: c)) eqn:Eg; [exists (Some (n :: c)); split; [done|]; by exists [], n, c|].
    unfold avtab_search_node_next. rewrite scan_find, Heq by done.
    rewrite (find_suffix_ext _ m) by (intros b; apply (key_match_trans _ _ _ _ _ Em)).
    destruct (IH fuel) as (r & Hr & Hres); [cbn in Hf; lia|intros pre n' s ->; by apply (Ht (n :: pre))|].
    exists r. split; [done|]. destruct r as [d|].
    + destruct Hres as (pre & n' & s & -> & -> & ? & ?). by exists (n :: pre), n', s.
    + intros [|x pre] n' s [= -> ->] Hm; [done|by apply (Hres pre)].
  - destruct (IH fuel) as (r & Hr & Hres); [cbn in Hf; lia|intros pre n' s ->; by apply (Ht (n :: pre))|].
    exists r. split; [done|]. destruct r as [d|].
    + destruct Hres as (pre & n' & s & -> & -> & ? & ?). by exists (n :: pre), n', s.
    + intros [|x pre] n' s [= -> ->] Hm; [congruence|by apply (Hres pre)].
Qed.

(** ** Finding or adding a rule of the unconditional table *)

(** The identity of the rule that is looked for. *)
Definition key_ident (key : avtab_key) (xp : option av_extended_perms) : rule_ident :=
  (triple key, specified key,
   if truth (N.land (specified key) AVTAB_XPERMS) then (λ x, (ax_specified x, ax_driver x)) <$> xp else None).

Definition fresh_node (key : avtab_key) : avtab_node := AvtabNode key (stored_datum key (AvtabDatum 0 None)) false.

(** The rule of the pointer and the others: it was there, or it is new. *)
Definition found (a : avtab) (key : avtab_key) (xp : option av_extended_perms) (a' : avtab) (q : avtab_ptr) (n : avtab_node)
    (R : list avtab_node) : Prop :=
  avtab_wf a' ∧ node_at a' q = Some n ∧ avtab_entries a' ≡ₚ n :: R ∧
  ((a' = a ∧ ident n = key_ident key xp) ∨
   (avtab_entries a = R ∧ tab_map a !! key_ident key xp = None ∧ n = fresh_node key)).

Lemma kinds_plain k : k ∈ kinds → clear_enabled k = k ∧ k ≠ 0.
Proof.
  assert (Forall (λ k, clear_enabled k = k ∧ k ≠ 0) kinds) as H by by_decide. rewrite Forall_forall in H. apply H.
Qed.

(** The node that a test on identities finds. *)
Lemma match_key_ident a key xp n :
  tab_ok a → specified key ∈ kinds → n ∈ avtab_entries a → (truth (N.land (specified key) AVTAB_XPERMS) = true → is_Some xp) →
  ident n = key_ident key xp ↔ key_match key (clear_enabled (specified key)) (av_key n) = true ∧
    (truth (N.land (specified key) AVTAB_XPERMS) = true →
      ∃ x e, xperms (av_datum n) = Some x ∧ xp = Some e ∧ xp_specified x = ax_specified e ∧ xp_driver x = ax_driver e).
Proof.
  intros Ha Hk Hn Hxp. destruct key as [s t c k]. cbn [specified] in *. rewrite match_ident by (try done; by apply Ha).
  unfold ident, key_ident. cbn [specified]. change (triple (AvtabKey s t c k)) with (s, t, c). split.
  - intros [= H1 H2 H3 Hkind Hx]. split; [unfold triple; by rewrite H1, H2, H3|]. intros Hxk. rewrite Hkind, Hxk in Hx.
    destruct (to_xperms _ Ha n Hn) as [x Hxn]; [by rewrite Hkind|]. destruct (Hxp Hxk) as [e ->]. rewrite Hxn in Hx.
    injection Hx as Hx1 Hx2. by exists x, e.
  - intros [[-> ->] Hx]. destruct (truth _) eqn:E; [|done]. destruct Hx as (x & e & -> & -> & H1 & H2); [done|]. cbn. by rewrite H1, H2.
Qed.

Lemma chain_entry a t i c n : av_htable a = Some t → t !! i = Some c → n ∈ c → n ∈ avtab_entries a.
Proof.
  intros Ht Hi Hn. unfold avtab_entries. rewrite Ht. destruct (concat_focus _ _ _ Hi) as (Q & HQ & _). cbn. rewrite HQ.
  apply elem_of_app. by left.
Qed.

Lemma ptr_of_suffix a key t pre s o :
  av_htable a = Some t → t !! N.to_nat (avtab_hash key (mask a)) = Some (pre ++ s) →
  ptr_of a key s o = Ret (N.to_nat (avtab_hash key (mask a)), length pre) o.
Proof.
  intros Ht Hc. unfold ptr_of. rewrite bind_run, Ht. cbn [deref]. unfold mret at 1, M_ret at 1.
  rewrite bind_run, Hc. cbn [deref]. unfold mret, M_ret. cbv beta iota. rewrite length_app. do 2 f_equal. lia.
Qed.

Lemma same_xperms_run e x n s o :
  xperms (av_datum n) = Some x → same_xperms (Some e) (n :: s) o = Ret ((xp_specified x =? ax_specified e) && (xp_driver x =? ax_driver e)) o.
Proof. intros Hx. unfold same_xperms. cbn [head deref]. rewrite bind_run. cbn. rewrite bind_run, Hx. done. Qed.

(** The search part of [find_avtab_node] without a block. *)
Lemma search_rule_spec a key xp o :
  tab_ok a → specified key ∈ kinds → (truth (N.land (specified key) AVTAB_XPERMS) = true → is_Some xp) →
  ∃ r, (node ← avtab_search_node (Some a) key;
        (if truth (N.land (specified key) AVTAB_XPERMS)
         then next_where (length (avtab_entries a)) node (specified key) (same_xperms xp) else mret node)) o = Ret r o ∧
    match r with
    | Some d => ∃ t pre n s, av_htable a = Some t ∧ t !! N.to_nat (avtab_hash key (mask a)) = Some (pre ++ d) ∧ d = n :: s ∧
                  ident n = key_ident key xp
    | None => tab_map a !! key_ident key xp = None
    end.
Proof.
  intros Ha Hk Hxp. pose proof (to_wf _ Ha) as Hwf. destruct (avtab_focus a key Hwf) as (t & c & Ht & Hc & Hs & _ & Hf).
  set (m := λ n, key_match key (clear_enabled (specified key)) (av_key n)).
  assert (avtab_search_node (Some a) key o = Ret (find_suffix m c) o) as Hsearch.
  { unfold avtab_search_node. rewrite Ht, bind_run, Hc. cbn [deref]. unfold mret, M_ret. cbv beta iota. by rewrite scan_find. }
  rewrite bind_run, Hsearch.
  assert (∀ n, n ∈ avtab_entries a → m n = true → n ∈ c) as Hin.
  { intros n Hn Hm. assert (n ∈ filter (λ n, m n = true) c) as [_ ?]%list_elem_of_filter; [|done].
    unfold m. rewrite <- Hf. by apply list_elem_of_filter. }
  assert (length c ≤ length (avtab_entries a))%nat as Hlen.
  { unfold avtab_entries. rewrite Ht. destruct (concat_focus _ _ _ Hc) as (Q & HQ & _). cbn. rewrite HQ, length_app. lia. }
  destruct (truth _) eqn:Ex.
  - destruct Hxp as [e ->]; [done|].
    destruct (next_where_spec key (specified key) (specified key) (same_xperms (Some e))
      (λ d, match d with n :: _ => match xperms (av_datum n) with Some x => (xp_specified x =? ax_specified e) && (xp_driver x =? ax_driver e) | None => false end | [] => false end)
      c (length (avtab_entries a)) o Hs eq_refl Hlen) as (r & Hr & Hres).
    { intros pre n s -> Hm. assert (n ∈ avtab_entries a) as Hn by (eapply chain_entry; [done..|apply elem_of_app; right; left]).
      assert (kind_of n ∈ kinds) as Hkn by (by apply Ha). destruct key as [ks kt kc k]. cbn [specified] in *.
      apply match_ident in Hm as [_ Hkind]; [|done..]. destruct (to_xperms _ Ha n Hn) as [x Hx]; [by rewrite Hkind|].
      rewrite (same_xperms_run e x) by done. by rewrite Hx. }
    exists r. split; [exact Hr|]. destruct r as [d|].
    + destruct Hres as (pre & n & s & -> & -> & Hm & Hg). exists t, pre, n, s. split; [done|]. split; [done|]. split; [done|].
      apply (match_key_ident a key (Some e) n Ha Hk); [eapply chain_entry; [done..|apply elem_of_app; right; left]|done|].
      split; [done|]. intros _. destruct (xperms (av_datum n)) as [x|]; [|done]. reflect_bools. by exists x, e.
    + apply tab_none; [done|]. intros n Hn Hid. apply (match_key_ident a key (Some e) n Ha Hk Hn) in Hid as [Hm Hx]; [|done].
      destruct (Hx Ex) as (x & e' & Hxn & [= <-] & H1 & H2). destruct (list_elem_of_split _ _ (Hin n Hn Hm)) as (pre & s & ->).
      specialize (Hres pre n s eq_refl Hm). cbn in Hres. rewrite Hxn, H1, H2, !N.eqb_refl in Hres. done.
  - exists (find_suffix m c). split; [done|]. destruct (find_suffix m c) as [d|] eqn:Efs.
    + apply find_suffix_split in Efs as (pre & n & s & -> & -> & Hm & _). exists t, pre, n, s. split; [done|]. split; [done|]. split; [done|].
      apply (match_key_ident a key xp n Ha Hk); [eapply chain_entry; [done..|apply elem_of_app; right; left]|congruence|]. split; [done|congruence].
    + apply find_suffix_none in Efs. rewrite Forall_forall in Efs. apply tab_none; [done|]. intros n Hn Hid.
      apply (match_key_ident a key xp n Ha Hk Hn) in Hid as [Hm _]; [|congruence]. fold (m n) in Hm.
      rewrite Efs in Hm; [done|by apply Hin].
Qed.

Lemma find_rule_spec key xp st o :
  tab_ok (rt_te st) → specified key ∈ kinds → (truth (N.land (specified key) AVTAB_XPERMS) = true → is_Some xp) →
  wp (find_avtab_node None key xp st) o (λ r o', (o = [] → o' = []) ∧
    ((r = (None, st) ∧ o ≠ []) ∨ ∃ a q n R, r = (Some q, set_dest None st a) ∧ found (rt_te st) key xp a q n R)).
Proof.
  intros Ha Hk Hxp. destruct (search_rule_spec (rt_te st) key xp o Ha Hk Hxp) as (r & Hr & Hres).
  unfold find_avtab_node. cbn [dest]. unfold wp.
  rewrite bind_run in Hr. rewrite bind_run.
  destruct (avtab_search_node _ key o) as [node o0|]; [|done]. rewrite bind_run, Hr, bind_run. unfold mret at 1, M_ret at 1.
  destruct r as [d|].
  - destruct Hres as (t & pre & n & s & Ht & Hc & -> & Hid). rewrite bind_run, (ptr_of_suffix _ _ t pre) by done.
    cbn. split; [done|]. right. assert (n ∈ avtab_entries (rt_te st)) as Hn by (eapply chain_entry; [done..|apply elem_of_app; right; left]).
    apply elem_of_Permutation in Hn as [R HR]. exists (rt_te st), (N.to_nat (avtab_hash key (mask (rt_te st))), length pre), n, R.
    split; [by destruct st|]. split; [apply Ha|]. split; [|by auto].
    apply node_at_slot. exists t, (pre ++ n :: s). split; [done|]. split; [done|]. cbn. by rewrite lookup_app_r, Nat.sub_diag by done.
  - change (wp (r ← avtab_insert_nonunique (Some (rt_te st)) key (AvtabDatum 0 None);
      match r with
      | Some (a, c) => q ← ptr_of a key c; mret (Some q, set_dest None st a)
      | None => mret (None, st)
      end) o (λ r o', (o = [] → o' = []) ∧
    ((r = (None, st) ∧ o ≠ []) ∨ ∃ a q n R, r = (Some q, set_dest None st a) ∧ found (rt_te st) key xp a q n R))).
    wp_step. eapply wp_mono; [apply insert_nonunique_spec, Ha|]. intros r o' [Ho Hr']. cbv zeta in Hr'.
    destruct Hr' as [[-> Hne]|(a' & c & at_ & -> & Hwf & Hent & Hptr & Hnode & _)]; [wp_step; auto|].
    wp_step. unfold wp. rewrite Hptr. cbn. split; [done|]. right. exists a', at_, (fresh_node key), (avtab_entries (rt_te st)).
    split; [done|]. split; [done|]. split; [done|]. split; [done|]. right. done.
Qed.

(** ** Writing a rule of the unconditional table *)

(** [a'] has [n] at [q] in place of the rule [id] of [a], or in addition. *)
Definition linked (a : avtab) (id : rule_ident) (a' : avtab) (q : avtab_ptr) (n : avtab_node) : Prop :=
  ∃ R, avtab_wf a' ∧ node_at a' q = Some n ∧ avtab_entries a' ≡ₚ n :: R ∧ triple (av_key n) = id.1.1 ∧
    ((∃ n0, avtab_entries a ≡ₚ n0 :: R ∧ ident n0 = id) ∨ (avtab_entries a = R ∧ tab_map a !! id = None)).

Lemma found_linked a key xp a' q n R : found a key xp a' q n R → linked a (key_ident key xp) a' q n.
Proof.
  intros (Hwf & Hq & HR & Hc). exists R. split; [done|]. split; [done|]. split; [done|]. destruct Hc as [[-> Hid]|(Ha & Hno & ->)].
  - split; [unfold ident, key_ident in *; cbn; congruence|]. left. by exists n.
  - split; [done|]. by right.
Qed.

Lemma linked_update a id a' q n f o :
  linked a id a' q n → triple (av_key (f n)) = triple (av_key n) →
  ∃ a'', update_node a' q f o = Ret a'' o ∧ linked a id a'' q (f n).
Proof.
  intros (R & Hwf & Hq & HR & Ht & Hc) Hf. destruct (update_node_spec a' q n f R o Hwf Hq Hf HR) as (a'' & Hrun & Hwf' & _ & Hq' & HR' & _).
  exists a''. split; [done|]. exists R. split; [done|]. split; [done|]. split; [done|]. split; [congruence|done].
Qed.

(** The table with the rule [n] for [id]. *)
Definition stores (a : avtab) (id : rule_ident) (n : avtab_node) (a' : avtab) : Prop :=
  tab_ok a' ∧ ident n = id ∧ tab_map a' = <[id := n]> (tab_map a).

Lemma linked_stores a id a' q n :
  tab_ok a → linked a id a' q n → ident n = id → kind_of n ∈ kinds →
  (truth (N.land (kind_of n) AVTAB_XPERMS) = true → is_Some (xperms (av_datum n))) → stores a id n a'.
Proof.
  intros Ha (R & Hwf & Hq & HR & Ht & Hc) <- Hk Hx. destruct Hc as [(n0 & HR0 & Hid)|[HR0 Hno]].
  - assert (kind_of n = kind_of n0) as E by (unfold ident in Hid; congruence).
    destruct (replace_map a a' n0 n R) as [? ?]; try done; [by rewrite <- E|]. split; [done|]. split; [done|]. by rewrite <- Hid.
  - subst R. destruct (insert_map a a' n) as [? ?]; done.
Qed.

(** The flag is not part of the identity. *)
Lemma kind_mark b n : kind_of (mark b n) = kind_of n.
Proof.
  unfold kind_of, mark, clear_enabled. cbn. apply N.bits_inj. intros j. destruct b; rewrite ?N.ldiff_spec, ?N.lor_spec, ?N.ldiff_spec; btauto.
Qed.
Lemma ident_mark b n : ident (mark b n) = ident n.
Proof. unfold ident. by rewrite kind_mark. Qed.
Lemma ident_put_data x n : ident (put_data x n) = ident n.
Proof. done. Qed.

(** What the rule was before: found, or zero. *)
Definition old_data (a : avtab) (id : rule_ident) : N := match tab_map a !! id with Some n => data (av_datum n) | None => 0 end.

Lemma found_old a key xp a' q n R :
  tab_ok a → found a key xp a' q n R → truth (N.land (specified key) AVTAB_XPERMS) = false → specified key ∈ kinds →
  ident n = key_ident key xp ∧ data (av_datum n) = old_data a (key_ident key xp).
Proof.
  intros Ha (Hwf & Hq & HR & Hc) Hx Hk. unfold old_data. destruct Hc as [[-> Hid]|(HaR & Hno & ->)].
  - assert (tab_map a !! key_ident key xp = Some n) as ->; [|done]. apply tab_lookup; [done|]. split; [rewrite HR; left|done].
  - rewrite Hno. unfold fresh_node, ident, key_ident, kind_of, stored_datum. rewrite Hx.
    cbn -[AVTAB_XPERMS]. rewrite (proj1 (kinds_plain _ Hk)), Hx. done.
Qed.

Definition plain_id (s t c k : N) : rule_ident := ((s, t, c), k, None).

Lemma key_plain s t c k xp : truth (N.land k AVTAB_XPERMS) = false → key_ident (AvtabKey s t c k) xp = plain_id s t c k.
Proof. intros Hk. unfold key_ident. cbn [specified]. by rewrite Hk. Qed.

(** One class of an access vector rule, extended permissions apart. *)
Lemma av_class_spec spec specified i j enabled xp cur st o :
  tab_ok (rt_te st) → spec ∈ kinds → truth (N.land spec AVTAB_XPERMS) = false → (∀ old x, is_Some (merge_data specified old x)) →
  let id := plain_id (u16 (i + 1)) (u16 (j + 1)) (u16 (cp_tclass cur)) spec in
  wp (expand_av_class spec specified None i j enabled xp cur st) o (λ r o', (o = [] → o' = []) ∧
    match r with
    | inl (rc, st') => st' = st ∧ rc = EXPAND_RULE_ERROR ∧ o ≠ []
    | inr st' => ∃ a n, st' = set_dest None st a ∧ stores (rt_te st) id n a ∧
        merge_data specified (old_data (rt_te st) id) (cp_data cur) = Some (data (av_datum n))
    end).
Proof.
  intros Ha Hk Hplain Hm id. unfold expand_av_class. wp_step.
  eapply wp_mono; [apply find_rule_spec; [done|done|cbn; congruence]|]. intros [q st1] o1 [Ho [[[= -> ->] Hne]|(a & q' & n & R & [= -> ->] & Hf)]].
  { wp_step. done. }
  pose proof (found_linked _ _ _ _ _ _ _ Hf) as Hl. destruct (found_old _ _ _ _ _ _ _ Ha Hf Hplain Hk) as [Hid Hold].
  rewrite key_plain in * by done. fold id in Hid, Hold, Hl. cbn [dest set_dest rt_te].
  destruct (linked_update _ _ _ _ _ (mark enabled) o1 Hl eq_refl) as (a1 & Hrun & Hl1). wp_step. unfold wp at 1. rewrite Hrun.
  wp_step. apply wp_deref. exists (mark enabled n). split; [by destruct Hl1 as (? & _ & ? & _)|].
  change (data (av_datum (mark enabled n))) with (data (av_datum n)). rewrite Hold.
  destruct (Hm (old_data (rt_te st) id) (cp_data cur)) as [x Hx]. rewrite Hx.
  destruct (linked_update _ _ _ _ _ (put_data x) o1 Hl1 eq_refl) as (a2 & Hrun2 & Hl2). wp_step. unfold wp at 1. rewrite Hrun2. wp_step.
  split; [done|]. exists a2, (put_data x (mark enabled n)). split; [by destruct st|]. split; [|done].
  assert (kind_of (put_data x (mark enabled n)) = spec) as Hkind.
  { change (kind_of (mark enabled n) = spec). rewrite kind_mark. unfold ident in Hid. unfold id, plain_id in Hid. congruence. }
  eapply linked_stores; [done|exact Hl2| |by rewrite Hkind|rewrite Hkind; congruence]. rewrite ident_put_data, ident_mark. done.
Qed.

(** One class of a rule of extended permissions. *)
Definition old_xperms (a : avtab) (id : rule_ident) : list N :=
  match tab_map a !! id with Some n => xp_perms (default zero_xperms (xperms (av_datum n))) | None => xp_perms zero_xperms end.

Lemma found_old_xperms a key xp a' q n R :
  tab_ok a → found a key (Some xp) a' q n R → truth (N.land (specified key) AVTAB_XPERMS) = true → specified key ∈ kinds →
  kind_of n = specified key ∧ ∃ x, xperms (av_datum n) = Some x ∧ xp_perms x = old_xperms a (key_ident key (Some xp)).
Proof.
  intros Ha (Hwf & Hq & HR & Hc) Hx Hk. unfold old_xperms. destruct Hc as [[-> Hid]|(HaR & Hno & ->)].
  - assert (n ∈ avtab_entries a) as Hn by (rewrite HR; left).
    assert (kind_of n = specified key) as Hkn by (unfold ident, key_ident in Hid; congruence). split; [done|].
    assert (tab_map a !! key_ident key (Some xp) = Some n) as -> by (by apply tab_lookup).
    destruct (to_xperms _ Ha n Hn) as [x ->]; [by rewrite Hkn|]. by exists x.
  - rewrite Hno. unfold fresh_node, kind_of, stored_datum. rewrite Hx. cbn -[AVTAB_XPERMS]. split; [apply (kinds_plain _ Hk)|]. by eexists.
Qed.

Lemma av_xclass_spec spec specified i j enabled xp cur st o :
  tab_ok (rt_te st) → spec ∈ kinds → truth (N.land spec AVTAB_XPERMS) = true → (∀ old x, merge_data specified old x = None) →
  truth (N.land specified AVRULE_XPERMS) = true →
  let id := key_ident (AvtabKey (u16 (i + 1)) (u16 (j + 1)) (u16 (cp_tclass cur)) spec) (Some xp) in
  wp (expand_av_class spec specified None i j enabled (Some xp) cur st) o (λ r o', (o = [] → o' = []) ∧
    match r with
    | inl (rc, st') => st' = st ∧ rc = EXPAND_RULE_ERROR ∧ o ≠ []
    | inr st' => ∃ a n, st' = set_dest None st a ∧ stores (rt_te st) id n a ∧
        xp_perms <$> xperms (av_datum n) = Some (zip_with N.lor (old_xperms (rt_te st) id) (ax_perms xp))
    end).
Proof.
  intros Ha Hk Hx Hm Hsp id. unfold expand_av_class. wp_step.
  eapply wp_mono; [apply find_rule_spec; [done|done|done]|]. intros [q st1] o1 [Ho [[[= -> ->] Hne]|(a & q' & n & R & [= -> ->] & Hf)]].
  { wp_step. done. }
  pose proof (found_linked _ _ _ _ _ _ _ Hf) as Hl. destruct (found_old_xperms _ _ _ _ _ _ _ Ha Hf Hx Hk) as (Hkn & x & Hxn & Hold).
  fold id in Hl, Hold. cbn [dest set_dest rt_te Avtab.specified] in *.
  destruct (linked_update _ _ _ _ _ (mark enabled) o1 Hl eq_refl) as (a1 & Hrun & Hl1). wp_step. unfold wp at 1. rewrite Hrun.
  wp_step. apply wp_deref. exists (mark enabled n). split; [by destruct Hl1 as (? & _ & ? & _)|]. rewrite Hm, Hsp. cbn [negb].
  change (xperms (av_datum (mark enabled n))) with (xperms (av_datum n)). rewrite Hxn. cbn [default].
  wp_step. wp_step. cbn [negb].
  wp_step. apply wp_deref. exists xp. split; [done|].
  destruct (linked_update _ _ _ _ _ (put_xperms (merge_xperms xp x)) o1 Hl1 eq_refl) as (a2 & Hrun2 & Hl2).
  wp_step. unfold wp at 1. change (Datatypes.id x) with x. rewrite Hrun2. wp_step.
  split; [done|]. set (n2 := put_xperms (merge_xperms xp x) (mark enabled n)) in *. exists a2, n2. split; [by destruct st|].
  assert (kind_of n2 = spec) as Hkind by (change (kind_of (mark enabled n) = spec); by rewrite kind_mark).
  split; [|by cbn; rewrite Hold].
  eapply linked_stores; [done|exact Hl2| |by rewrite Hkind|by intros _; eexists].
  assert (triple (av_key n2) = triple (av_key n)) as Ht by done. destruct Hl as (R' & _ & _ & _ & Htr & _).
  unfold ident. rewrite Hkind, Hx, Ht, Htr. unfold id, key_ident. cbn [Avtab.specified]. rewrite Hx. done.
Qed.

(** ** Type rules *)

Definition type_kinds : list N := [AVTAB_TRANSITION; AVTAB_MEMBER; AVTAB_CHANGE].

Lemma type_kinds_plain k : k ∈ type_kinds → k ∈ kinds ∧ truth (N.land k AVTAB_XPERMS) = false.
Proof.
  assert (Forall (λ k, k ∈ kinds ∧ truth (N.land k AVTAB_XPERMS) = false) type_kinds) as H by by_decide. rewrite Forall_forall in H. apply H.
Qed.

Lemma search_plain_spec a s t c k o :
  tab_ok a → k ∈ kinds → truth (N.land k AVTAB_XPERMS) = false →
  ∃ r, avtab_search_node (Some a) (AvtabKey s t c k) o = Ret r o ∧
    match r with
    | Some d => ∃ n rest, d = n :: rest ∧ tab_map a !! plain_id s t c k = Some n
    | None => tab_map a !! plain_id s t c k = None
    end.
Proof.
  intros Ha Hk Hp. destruct (search_rule_spec a (AvtabKey s t c k) None o Ha Hk) as (r & Hr & Hres); [cbn; congruence|].
  cbn [specified] in Hr. rewrite Hp, bind_run in Hr. exists r. destruct (avtab_search_node _ _ o) as [node o'|]; [|done].
  injection Hr as -> ->. split; [done|]. rewrite key_plain in Hres by done. destruct r as [d|]; [|done].
  destruct Hres as (t' & pre & n & rest & Ht & Hc & -> & Hid). exists n, rest. split; [done|]. apply tab_lookup; [done|]. split; [|done].
  eapply chain_entry; [done..|]. apply elem_of_app. right. left.
Qed.

Lemma search_any_spec a key o :
  avtab_wf a →
  ∃ r, avtab_search_node (Some a) key o = Ret r o ∧
    match r with
    | Some d => ∃ n rest, d = n :: rest ∧ n ∈ avtab_entries a ∧ key_match key (clear_enabled (specified key)) (av_key n) = true
    | None => ∀ n, n ∈ avtab_entries a → key_match key (clear_enabled (specified key)) (av_key n) = false
    end.
Proof.
  intros Hwf. destruct (avtab_focus a key Hwf) as (t & c & Ht & Hc & Hs & _ & Hf).
  exists (find_suffix (λ n, key_match key (clear_enabled (specified key)) (av_key n)) c). split.
  { unfold avtab_search_node. rewrite Ht, bind_run, Hc. cbn [deref]. unfold mret, M_ret. cbv beta iota. by rewrite scan_find. }
  destruct (find_suffix _ c) as [d|] eqn:E.
  - apply find_suffix_split in E as (pre & n & rest & -> & -> & Hm & _). exists n, rest. split; [done|]. split; [|done].
    eapply chain_entry; [done..|]. apply elem_of_app. right. left.
  - apply find_suffix_none in E. rewrite Forall_forall in E. intros n Hn. apply not_true_is_false. intros Hm.
    assert (n ∈ filter (λ n, key_match key (clear_enabled (specified key)) (av_key n) = true) c) as [_ Hin]%list_elem_of_filter.
    { rewrite <- Hf. by apply list_elem_of_filter. }
    rewrite E in Hm by done. done.
Qed.

(** A number with a name. *)
Definition type_named (p : policydb) (v : N) : Prop := 0 < v < 2 ^ 16 ∧ v ≤ N.of_nat (length (p_type_val_to_name p)).
Definition tclass_named (p : policydb) (v : N) : Prop := 0 < v < 2 ^ 16 ∧ v ≤ N.of_nat (length (p_class_val_to_name p)).

(** The data of type rules are types. *)
Definition data_named (p : policydb) (a : avtab) : Prop :=
  ∀ n k, n ∈ avtab_entries a → k ∈ type_kinds → truth (N.land k (specified (av_key n))) = true → type_named p (data (av_datum n)).

Lemma type_name_run p v : type_named p v → ∃ x, p_type_val_to_name p !! N.to_nat (dec32 v) = Some x.
Proof.
  intros [[H0 H1] Hl]. rewrite dec32_pred by lia. destruct (lookup_lt_is_Some_2 (p_type_val_to_name p) (N.to_nat (v - 1))) as [x Hx]; [lia|by exists x].
Qed.
Lemma class_name_run p v : tclass_named p v → ∃ x, p_class_val_to_name p !! N.to_nat (dec32 v) = Some x.
Proof.
  intros [[H0 H1] Hl]. rewrite dec32_pred by lia. destruct (lookup_lt_is_Some_2 (p_class_val_to_name p) (N.to_nat (v - 1))) as [x Hx]; [lia|by exists x].
Qed.

Lemma conflict_names_run p key old new o :
  type_named p (source_type key) → type_named p (target_type key) → tclass_named p (target_class key) → type_named p old →
  (∀ t, new = Some t → type_named p t) → conflict_names p key old new o = Ret tt o.
Proof.
  intros Hs Ht Hc Ho Hn. destruct (type_name_run _ _ Hs) as [? E1], (type_name_run _ _ Ht) as [? E2], (class_name_run _ _ Hc) as [? E3], (type_name_run _ _ Ho) as [? E4].
  unfold conflict_names. rewrite bind_run, E1. cbn. rewrite bind_run, E2. cbn. rewrite bind_run, E3. cbn. rewrite bind_run, E4. cbn.
  destruct new as [t|]; [|done]. destruct (type_name_run _ _ (Hn t eq_refl)) as [? E5]. rewrite bind_run, E5. done.
Qed.

(** The new policy's number of the type of a rule. *)
Definition new_type (typemap : option (list N)) (v : N) : option N :=
  match typemap with Some m => m !! N.to_nat (dec32 v) | None => Some v end.

Lemma te_class_spec p typemap spec i j enabled cur st v o :
  tab_ok (rt_te st) → avtab_wf (rt_cond st) → data_named p (rt_te st) → data_named p (rt_cond st) → spec ∈ type_kinds →
  type_named p (i + 1) → type_named p (j + 1) → tclass_named p (cp_tclass cur) → new_type typemap (cp_data cur) = Some v → type_named p v →
  let key := AvtabKey (i + 1) (j + 1) (cp_tclass cur) spec in
  let id := plain_id (i + 1) (j + 1) (cp_tclass cur) spec in
  wp (expand_te_class p typemap spec None None i j enabled cur st) o (λ r o', (o = [] → o' = []) ∧
    match r with
    | inl (rc, st') => st' = st ∧
        ((rc = EXPAND_RULE_SUCCESS ∧ ∃ n, tab_map (rt_te st) !! id = Some n ∧ data (av_datum n) = v) ∨
         (rc = EXPAND_RULE_CONFLICT ∧ ((∃ n, tab_map (rt_te st) !! id = Some n ∧ data (av_datum n) ≠ v) ∨
            ∃ n, n ∈ avtab_entries (rt_cond st) ∧ key_match key (clear_enabled spec) (av_key n) = true)) ∨
         (rc = EXPAND_RULE_ERROR ∧ o ≠ []))
    | inr st' => tab_map (rt_te st) !! id = None ∧ ∃ a n, st' = set_dest None st a ∧ stores (rt_te st) id n a ∧ data (av_datum n) = v
    end).
Proof.
  intros Hte Hco Hdte Hdco Hk Hi Hj Hcl Hv Hvn key id. destruct (type_kinds_plain _ Hk) as [Hkk Hplain].
  unfold expand_te_class. wp_step. unfold wp at 1. replace (match typemap with Some m => deref (m !! N.to_nat (dec32 (cp_data cur))) | None => mret (cp_data cur) end o) with (Ret v o).
  2: { unfold new_type in Hv. destruct typemap as [m|]; [by rewrite Hv|by injection Hv as ->]. }
  assert (u16 (i + 1) = i + 1 ∧ u16 (j + 1) = j + 1 ∧ u16 (cp_tclass cur) = cp_tclass cur) as (-> & -> & ->).
  { unfold u16, type_named, tclass_named in *. change (2 ^ 16) with 65536 in *. rewrite !N.mod_small; lia. }
  fold key. wp_step. unfold te_conflict. wp_step.
  destruct (search_plain_spec (rt_te st) (i + 1) (j + 1) (cp_tclass cur) spec o Hte Hkk Hplain) as (r & Hr & Hres). fold key in Hr. fold id in Hres.
  unfold wp at 1. rewrite Hr. destruct r as [d|].
  { destruct Hres as (n & rest & -> & Hn). wp_step. change (truth 1) with true. cbv iota. wp_step. apply wp_deref. eexists. split; [done|].
    wp_step. apply wp_deref. exists n. split; [done|]. assert (type_named p (data (av_datum n))) as Hold.
    { apply tab_lookup in Hn as [Hn Hid]; [|done]. apply (Hdte n spec); [done|done|].
      assert (kind_of n = spec) as Hkn by (unfold ident, id, plain_id in Hid; congruence).
      rewrite <- (proj1 (kinds_plain spec Hkk)), kind_match by (congruence || done). by apply bool_decide_eq_true. }
    destruct (N.eqb_spec (data (av_datum n)) v) as [Heq|Hne].
    - wp_step. change (1 =? 1) with true. cbv iota. wp_step. change (negb (bool_decide (is_Some (@None branch)))) with true. cbv iota. wp_step.
      split; [done|]. split; [done|]. left. split; [done|]. by exists n.
    - wp_step. unfold wp at 1. rewrite conflict_names_run; [|done..|by intros ? [= <-]]. wp_step. split; [done|]. split; [done|].
      right. left. split; [done|]. left. by exists n. }
  wp_step. destruct (search_any_spec (rt_cond st) key o Hco) as (r & Hrc & Hresc). unfold wp at 1. rewrite Hrc. destruct r as [d|].
  { destruct Hresc as (n & rest & -> & Hn & Hm). wp_step. wp_step.
    wp_step. change (truth 2) with true. cbv iota.
    wp_step. apply wp_deref. eexists. split; [done|]. wp_step. apply wp_deref. exists n. split; [done|].
    assert (type_named p (data (av_datum n))) as Hold.
    { apply (Hdco n spec); [done|done|]. unfold key_match in Hm. cbn [specified key] in Hm. rewrite (proj1 (kinds_plain spec Hkk)) in Hm. reflect_bools. done. }
    assert (∃ n, n ∈ avtab_entries (rt_cond st) ∧ key_match key (clear_enabled spec) (av_key n) = true) as Hex by by exists n.
    destruct (N.eqb_spec (data (av_datum n)) v) as [Heq|Hne].
    - wp_step. change (2 =? 1) with false. cbv iota. wp_step. wp_step. unfold wp at 1. rewrite conflict_names_run by done. wp_step. split; [done|]. split; [done|]. right. left. auto.
    - wp_step. unfold wp at 1. rewrite conflict_names_run; [|done..|by intros ? [= <-]]. wp_step. split; [done|]. split; [done|]. right. left. auto. }
  wp_step. cbn [truth]. change (truth 0) with false. cbv iota. wp_step.
  eapply wp_mono; [apply find_rule_spec; [done|done|cbn; congruence]|]. intros [q st1] o1 [Ho [[[= -> ->] Hne]|(a & q' & n & R & [= -> ->] & Hf)]].
  { wp_step. split; [done|]. split; [done|]. by right; right. }
  pose proof (found_linked _ _ _ _ _ _ _ Hf) as Hl. destruct (found_old _ _ _ _ _ _ _ Hte Hf Hplain Hkk) as [Hid _].
  unfold key in Hl, Hid. rewrite key_plain in * by done. fold id in Hl, Hid. cbn [dest set_dest rt_te].
  destruct (linked_update _ _ _ _ _ (λ n, put_data v (mark enabled n)) o1 Hl eq_refl) as (a1 & Hrun & Hl1). wp_step. unfold wp at 1. rewrite Hrun.
  wp_step. split; [done|]. split; [done|]. exists a1, (put_data v (mark enabled n)). split; [by destruct st|]. split; [|done].
  assert (kind_of (put_data v (mark enabled n)) = spec) as Hkind.
  { change (kind_of (mark enabled n) = spec). rewrite kind_mark. unfold ident in Hid. unfold id, plain_id in Hid. congruence. }
  eapply linked_stores; [done|exact Hl1| |by rewrite Hkind|rewrite Hkind; congruence]. rewrite ident_put_data, ident_mark. done.
Qed.

