(* ===== verification/ExpandEffects.v ===== *)
(** What the expansion of a rule adds to the tables of a policy.

    An [effect] lists the permissions that rules add, the type rules that are
    there afterwards, and those that are asked for.  [Expands] is the interface
    between writing one class of a rule for a pair of types, which depends on
    the table, and the expansion of whole rules, which does not: the loops over
    classes, pairs of types and sets are proved once for every instance.  The
    instance of this file is the unconditional table; [ExpandCond] has the one
    for the branches of conditional blocks. *)

From stdpp Require Import sorting gmap.
From S2P Require Import Prelude.
From S2P Require Import Ebitmap.
From S2P Require Import Hashtab.
From S2P Require Import MlsTypes.
From S2P Require Import Avtab.
From S2P Require Import Policydb.
From S2P Require Import Mls.
From S2P Require Import Context.
From S2P Require Import Conditional.
From S2P Require Import Expand.
From S2P Require Import Assertion.
From S2P Require Import PolicyIO.
From S2P Require Import SymbolIO.
From S2P Require Import ModuleIO.
From S2P Require Import CondIO.
From S2P Require Import ExpandRules.
Local Open Scope N_scope.

(** * Effects *)


(** A value for types, class and kind: a permission, or the data of a type
    rule. *)
Definition cells := N → N → N → N → N → Prop.

(** What an expansion adds to the permissions, which type rules are there
    afterwards, and which the source rules ask for. *)
Record effect := Effect { ef_bits : cells; ef_sets : cells; ef_wants : cells }.

#[global] Instance effect_equiv : Equiv effect := λ E E',
  (∀ s t c k x, ef_bits E s t c k x ↔ ef_bits E' s t c k x) ∧ (∀ s t c k x, ef_sets E s t c k x ↔ ef_sets E' s t c k x) ∧
  (∀ s t c k x, ef_wants E s t c k x ↔ ef_wants E' s t c k x).
#[global] Instance effect_equivalence : Equivalence (≡@{effect}).
Proof.
  split.
  - intros E. by split_and!.
  - intros E E' (H1 & H2 & H3). split_and!; intros; symmetry; auto.
  - intros E E' E'' (H1 & H2 & H3) (H4 & H5 & H6). split_and!; intros; etrans; eauto.
Qed.

Definition ef_none : effect := Effect (λ _ _ _ _ _, False) (λ _ _ _ _ _, False) (λ _ _ _ _ _, False).
Definition ef_or (E E' : effect) : effect :=
  Effect (λ s t c k x, ef_bits E s t c k x ∨ ef_bits E' s t c k x) (λ s t c k x, ef_sets E s t c k x ∨ ef_sets E' s t c k x)
         (λ s t c k x, ef_wants E s t c k x ∨ ef_wants E' s t c k x).
Definition ef_ex {A} (P : A → Prop) (E : A → effect) : effect :=
  Effect (λ s t c k x, ∃ a, P a ∧ ef_bits (E a) s t c k x) (λ s t c k x, ∃ a, P a ∧ ef_sets (E a) s t c k x)
         (λ s t c k x, ∃ a, P a ∧ ef_wants (E a) s t c k x).

Lemma ef_ex_proper {A} (P : A → Prop) (E E' : A → effect) : (∀ a, P a → E a ≡ E' a) → ef_ex P E ≡ ef_ex P E'.
Proof.
  intros H. split; [|split]; intros s t c k x; cbn; (split; intros (a & Ha & Hx); exists a; (split; [done|]); destruct (H a Ha) as (H1 & H2 & H3);
    by (apply H1 || apply H2 || apply H3)).
Qed.
Lemma ef_or_none E : ef_or ef_none E ≡ E.
Proof. split_and!; intros; cbn; tauto. Qed.
Lemma ef_ex_nil {A} (E : A → effect) : ef_ex (.∈ []) E ≡ ef_none.
Proof. split_and!; intros; cbn; (split; [by intros (a & ?%elem_of_nil & _)|done]). Qed.
Lemma ef_ex_snoc {A} l a (E : A → effect) : ef_ex (.∈ l ++ [a]) E ≡ ef_or (ef_ex (.∈ l) E) (E a).
Proof.
  split_and!; intros; cbn; setoid_rewrite elem_of_app; setoid_rewrite list_elem_of_singleton; naive_solver.
Qed.

(** The kinds whose permissions accumulate. *)
Definition or_kinds : list N := [AVTAB_ALLOWED; AVTAB_AUDITALLOW].

Definition av_rules : list (N * N) :=
  [(AVRULE_ALLOWED, AVTAB_ALLOWED); (AVRULE_AUDITALLOW, AVTAB_AUDITALLOW); (AVRULE_AUDITDENY, AVTAB_AUDITDENY);
   (AVRULE_DONTAUDIT, AVTAB_AUDITDENY); (AVRULE_NEVERALLOW, AVTAB_NEVERALLOW)].
Definition xperm_rules : list N := [AVRULE_XPERMS_ALLOWED; AVRULE_XPERMS_AUDITALLOW; AVRULE_XPERMS_DONTAUDIT].

(** The permissions of a class of a rule for a pair of types. *)
Definition class_effect (spec i j : N) (cur : class_perm_node) : effect :=
  Effect (λ s t c k x, (s = i + 1 ∧ t = j + 1 ∧ k = spec) ∧ k ∈ or_kinds ∧ c = cp_tclass cur ∧ N.testbit (cp_data cur) x = true)
    (λ _ _ _ _ _, False) (λ _ _ _ _ _, False).

Definition small_class (cur : class_perm_node) : Prop := cp_tclass cur < 2 ^ 16.

Lemma class_numbers i j cur : i + 1 < 2 ^ 16 → j + 1 < 2 ^ 16 → small_class cur →
  u16 (i + 1) = i + 1 ∧ u16 (j + 1) = j + 1 ∧ u16 (cp_tclass cur) = cp_tclass cur.
Proof. unfold u16, small_class. change (2 ^ 16) with 65536. intros. rewrite !N.mod_small; lia. Qed.

Lemma av_rules_merge sp spec : (sp, spec) ∈ av_rules → spec ∈ kinds ∧ truth (N.land spec AVTAB_XPERMS) = false ∧ (spec ∉ type_kinds) ∧
  ∀ old x, is_Some (merge_data sp old x) ∧ (spec ∈ or_kinds → merge_data sp old x = Some (N.lor old x)).
Proof.
  unfold av_rules. rewrite !elem_of_cons, elem_of_nil. intros H.
  repeat destruct H as [[= -> ->]|H]; try done.
  all: split; [by_decide|split; [done|split; [by_decide|]]].
  all: intros old x; split; [by eexists|]; intros Hk; try done.
  all: exfalso; revert Hk; apply (bool_decide_unpack (¬ _)); by vm_compute.
Qed.

Lemma xperm_rules_facts sp : sp ∈ xperm_rules → sp ∈ kinds ∧ truth (N.land sp AVTAB_XPERMS) = true ∧ (sp ∉ type_kinds) ∧ (sp ∉ or_kinds) ∧
  truth (N.land sp AVRULE_XPERMS) = true ∧ ∀ old x, merge_data sp old x = None.
Proof.
  unfold xperm_rules. rewrite !elem_of_cons, elem_of_nil. intros H. repeat destruct H as [->|H]; try done; split_and!; by_decide || done.
Qed.

(** What the classes [l] of a type rule ask for. *)
Definition te_wants (typemap : option (list N)) (spec i j : N) (l : list class_perm_node) : cells := λ s t c k v,
  (s = i + 1 ∧ t = j + 1 ∧ k = spec) ∧ ∃ cur, cur ∈ l ∧ c = cp_tclass cur ∧ new_type typemap (cp_data cur) = Some v.
Definition te_effect (typemap : option (list N)) (spec i j : N) (l : list class_perm_node) : effect :=
  Effect (λ _ _ _ _ _, False) (te_wants typemap spec i j l) (te_wants typemap spec i j l).

Lemma te_effect_snoc typemap spec i j l cur :
  te_effect typemap spec i j (l ++ [cur]) ≡ ef_or (te_effect typemap spec i j l) (te_effect typemap spec i j [cur]).
Proof.
  split; [|split]; intros s t c k v; cbn; [tauto|..]; unfold te_wants; setoid_rewrite elem_of_app; naive_solver.
Qed.


Section effects.
Context (p : policydb).

(** What a rule does for a pair of types. *)
Definition pair_effect (typemap : option (list N)) (r : avrule) (i j : N) : effect := Effect
  (λ s t c k x, (s = i + 1 ∧ t = j + 1 ∧ k = ar_specified r) ∧ k ∈ or_kinds ∧
     ∃ cur, cur ∈ ar_perms r ∧ c = cp_tclass cur ∧ N.testbit (cp_data cur) x = true)
  (λ s t c k v, (s = i + 1 ∧ t = j + 1 ∧ k = ar_specified r) ∧ k ∈ type_kinds ∧
     ∃ cur, head (ar_perms r) = Some cur ∧ c = cp_tclass cur ∧ new_type typemap (cp_data cur) = Some v)
  (λ s t c k v, (s = i + 1 ∧ t = j + 1 ∧ k = ar_specified r) ∧ k ∈ type_kinds ∧
     ∃ cur, cur ∈ ar_perms r ∧ c = cp_tclass cur ∧ new_type typemap (cp_data cur) = Some v).

(** The flags of a rule are one of those of access vector rules or of type
    rules; the never allowed ones with extended permissions are not expanded. *)
Definition av_flags : list N :=
  [AVRULE_ALLOWED; AVRULE_AUDITALLOW; AVRULE_AUDITDENY; AVRULE_DONTAUDIT; AVRULE_NEVERALLOW;
   AVRULE_XPERMS_ALLOWED; AVRULE_XPERMS_AUDITALLOW; AVRULE_XPERMS_DONTAUDIT].

(** A rule whose numbers are in range. *)
Record rule_ready (typemap : option (list N)) (r : avrule) : Prop := {
  rr_flags : ar_specified r ∈ av_flags ∨ ar_specified r ∈ type_kinds;
  rr_classes : ∀ cur, cur ∈ ar_perms r → tclass_named p (cp_tclass cur);
  rr_xperms : ar_specified r ∈ xperm_rules → is_Some (ar_xperms r);
  rr_types : ar_specified r ∈ type_kinds → ∀ cur, cur ∈ ar_perms r → ∃ v, new_type typemap (cp_data cur) = Some v ∧ type_named p v }.

Lemma pair_effect_none typemap r i j : (ar_specified r ∉ or_kinds) → (ar_specified r ∉ type_kinds) → ef_none ≡ pair_effect typemap r i j.
Proof.
  intros H1 H2. split; [|split]; intros s t c k x; cbn; (split; [done|]).
  - intros ((_ & _ & ->) & ? & _). done.
  - intros ((_ & _ & ->) & ? & _). done.
  - intros ((_ & _ & ->) & ? & _). done.
Qed.

(** The classes of an access vector rule together. *)
Lemma classes_effect typemap r spec i j :
  (ar_specified r ∉ type_kinds) → (ar_specified r ∈ or_kinds ↔ spec ∈ or_kinds) → (spec ∈ or_kinds → spec = ar_specified r) →
  ef_ex (.∈ ar_perms r) (class_effect spec i j) ≡ pair_effect typemap r i j.
Proof.
  intros Ht Hk He. split; [|split]; intros s t c k x; cbn.
  - split.
    + intros (cur & Hcur & (-> & -> & ->) & Hor & Hc & Hx). rewrite He in Hor |- * by done. split; [done|]. split; [done|]. by exists cur.
    + intros ((-> & -> & ->) & Hor & cur & Hcur & Hc & Hx). exists cur. split; [done|]. apply Hk in Hor as Hor'. rewrite He by done. by split_and!.
  - split; [by intros (? & _ & ?)|]. intros ((_ & _ & ->) & ? & _). done.
  - split; [by intros (? & _ & ?)|]. intros ((_ & _ & ->) & ? & _). done.
Qed.
(** The kind of an access vector rule. *)
Definition av_kind_ok (sp : N) (res : option N) : Prop :=
  match res with
  | None => (sp ∉ or_kinds) ∧ (sp ∉ type_kinds)
  | Some spec => ((sp, spec) ∈ av_rules ∧ (sp ∉ type_kinds) ∧ (sp ∈ or_kinds ↔ spec ∈ or_kinds) ∧ (spec ∈ or_kinds → spec = sp)) ∨
                 (spec = sp ∧ sp ∈ xperm_rules)
  end.
#[global] Instance av_kind_ok_dec sp res : Decision (av_kind_ok sp res).
Proof. unfold av_kind_ok. destruct res; apply _. Defined.

Lemma av_spec_run disable sp o : sp ∈ av_flags → ∃ res, av_spec disable sp o = Ret res o ∧ av_kind_ok sp res.
Proof.
  unfold av_flags. rewrite !elem_of_cons, elem_of_nil. intros H.
  repeat destruct H as [->|H]; try done; destruct disable; eexists; (split; [reflexivity|by_decide]).
Qed.

Lemma te_spec_run sp o : sp ∈ type_kinds → te_spec sp o = Ret sp o.
Proof. unfold type_kinds. rewrite !elem_of_cons, elem_of_nil. by intros [->|[->|[->|[]]]]. Qed.


(** The pairs of types of a rule. *)
Definition rule_pairs (r : avrule) (S T : N → Prop) (ij : N * N) : Prop :=
  S ij.1 ∧ ((truth (N.land (ar_flags r) RULE_SELF) = true ∧ ij.2 = ij.1) ∨ T ij.2).
Definition rule_effect (typemap : option (list N)) (r : avrule) (S T : N → Prop) : effect :=
  ef_ex (rule_pairs r S T) (λ ij, pair_effect typemap r ij.1 ij.2).

Definition types_named (e : ebitmap) : Prop := ebitmap_wf e ∧ ∀ i, ebitmap_bit e i = true → type_named p (i + 1).

Context (typemap : list N).

(** The set in the numbers of the new policy. *)
Record translated (set set' : type_set) : Prop := {
  tr_types : ebitmap_wf (ts_types set') ∧ ∀ x, ebitmap_bit (ts_types set') x = true ↔ mapped (ts_types set) typemap x;
  tr_neg : ebitmap_wf (ts_negset set') ∧ ∀ x, ebitmap_bit (ts_negset set') x = true ↔ mapped (ts_negset set) typemap x;
  tr_flags : ts_flags set' = ts_flags set }.

(** The types that a set of the old policy stands for in the new one. *)
Definition stands_for (always : bool) (set : type_set) (x : N) : Prop := ∃ set', translated set set' ∧ type_in p always set' x.

Record set_ready (set : type_set) : Prop := {
  sy_types : ebitmap_wf (ts_types set) ∧ map_wf (ts_types set) typemap;
  sy_neg : ebitmap_wf (ts_negset set) ∧ map_wf (ts_negset set) typemap;
  sy_declared : ∀ x, mapped (ts_types set) typemap x → is_Some (type_at p x);
  sy_bound : ∀ x, mapped (ts_negset set) typemap x → x < nprim (p_types p) }.

Lemma translated_unique set s1 s2 : translated set s1 → translated set s2 → s1 = s2.
Proof.
  intros [[W1 B1] [W2 B2] F] [[W1' B1'] [W2' B2'] F']. destruct s1 as [a b c], s2 as [a' b' c']. cbn in *. f_equal.
  - apply ebitmap_ext; [done..|]. intros i. apply eq_true_iff_eq. by rewrite B1, B1'.
  - apply ebitmap_ext; [done..|]. intros i. apply eq_true_iff_eq. by rewrite B2, B2'.
  - congruence.
Qed.

Lemma convert_set_spec set always o :
  types_wf p → set_ready set → wp (expand_convert_type_set p typemap set always) o (expanded (stands_for always set) o).
Proof.
  intros Hp [[Ht Htm] [Hn Hnm] Hd Hb]. unfold expand_convert_type_set. wp_step.
  eapply wp_mono; [by apply map_ebitmap_spec|]. intros [rc types] o1 [Ho1 H1]. cbn [fst snd] in *.
  destruct H1 as [(-> & Hw1 & B1)| ->]; [rewrite bool_decide_false by auto|rewrite bool_decide_true by done; wp_step; split; [intros H; by destruct (Ho1 H)|by right]].
  wp_step. eapply wp_mono; [by apply map_ebitmap_spec|]. intros [rc neg] o2 [Ho2 H2]. cbn [fst snd] in *.
  destruct H2 as [(-> & Hw2 & B2)| ->]; [rewrite bool_decide_false by auto|rewrite bool_decide_true by done; wp_step; split; [intros H; destruct (Ho1 H) as [Hoo _]; by destruct (Ho2 Hoo)|by right]].
  assert (translated set (TypeSet types neg (ts_flags set))) as Htr by by split.
  wp_step. eapply wp_mono; [apply type_set_expand_spec; [done|]|].
  - split; cbn; [done|done|intros i Hi; apply Hd, B1, Hi|intros i Hi; apply Hb, B2, Hi].
  - intros [rc t] o3 [Ho3 H3]. cbn [fst snd] in *. wp_step. split.
    + intros H. destruct (Ho1 H) as [Hoo _]; destruct (Ho2 Hoo) as [Hoo2 _]; destruct (Ho3 Hoo2) as [Hoo3 ->]. by rewrite bool_decide_false by auto.
    + destruct H3 as [(-> & Hw3 & B3)| ->]; [left; rewrite bool_decide_false by auto|by right]. split; [done|]. split; [done|]. intros x. cbn [snd]. rewrite B3. split.
      * intros Hx. by exists (TypeSet types neg (ts_flags set)).
      * intros (set' & Hset' & Hx). by rewrite (translated_unique _ _ _ Htr Hset').
Qed.

(** Types of sets are types of the new policy. *)
Lemma stands_for_bound always set x : types_wf p → set_ready set → stands_for always set x → x < nprim (p_types p).
Proof.
  intros Hp Hs (set' & [[W1 B1] [W2 B2] F] & Hx).
  assert (∀ i, ebitmap_bit (ts_types set') i = true → i < nprim (p_types p)) as Hb.
  { intros i Hi%B1. destruct (sy_declared _ Hs i Hi) as [d Hd]. by eapply type_at_bound. }
  unfold type_in in Hx. destruct (truth _); [apply Hx|]. destruct (truth _); [apply Hx|]. destruct Hx as [Hx _].
  destruct (expands always set'); [by eapply in_set_bound|by apply Hb].
Qed.

(** Types fit into keys and have names. *)
Record dest_ready : Prop := {
  dr_types : types_wf p;
  dr_count : nprim (p_types p) < 2 ^ 16 - 1;
  dr_names : nprim (p_types p) ≤ N.of_nat (length (p_type_val_to_name p)) }.

Definition always_expand (r : avrule) : bool := truth (N.land (ar_specified r) AVRULE_TYPE) || truth (N.land (ar_flags r) RULE_SELF).
Definition source_effect (r : avrule) : effect :=
  rule_effect (Some typemap) r (stands_for (always_expand r) (ar_stypes r)) (stands_for (always_expand r) (ar_ttypes r)).

(** A rule of a linked base module. *)
Record source_ready (r : avrule) : Prop := {
  so_rule : ar_specified r = AVRULE_XPERMS_NEVERALLOW ∨ rule_ready (Some typemap) r;
  so_stypes : set_ready (ar_stypes r);
  so_ttypes : set_ready (ar_ttypes r) }.

Lemma rule_effect_none r S T : (ar_specified r ∉ or_kinds) → (ar_specified r ∉ type_kinds) → rule_effect (Some typemap) r S T ≡ ef_none.
Proof.
  intros H1 H2. unfold rule_effect. assert (ef_ex (rule_pairs r S T) (λ _, ef_none) ≡ ef_none) as <-.
  - split; [|split]; intros s t c k x; cbn; (split; [by intros (? & _ & ?)|done]).
  - apply ef_ex_proper. intros ij _. symmetry. by apply pair_effect_none.
Qed.

Lemma rule_effect_proper r (S S' T T' : N → Prop) : (∀ i, S i ↔ S' i) → (∀ i, T i ↔ T' i) → rule_effect (Some typemap) r S T ≡ rule_effect (Some typemap) r S' T'.
Proof.
  intros HS HT. split; [|split]; intros s t c k x; cbn; (split; intros (ij & [H1 H2] & Hx); exists ij; (split; [split|exact Hx]));
    try (by apply HS); destruct H2 as [?|H2]; [by left|right; by apply HT|by left|right; by apply HT|by left|right; by apply HT|by left|right; by apply HT|by left|right; by apply HT|by left|right; by apply HT].
Qed.

End effects.

(** * The interface of a table *)

(** A step of a loop: it goes on, or ends the loop with a failure. *)
Definition step_outcome (R : rule_tabs → effect → oracle → Z * rule_tabs → oracle → Prop) (st : rule_tabs) (E : effect)
    (o : oracle) (r : (Z * rule_tabs) + rule_tabs) (o' : oracle) : Prop :=
  match r with
  | inl x => x.1 ≠ EXPAND_RULE_SUCCESS ∧ R st E o x o'
  | inr st' => R st E o (EXPAND_RULE_SUCCESS, st') o'
  end.

(** [R st E o x o'] says that the result [x] is what the effect [E] asks for;
    [ready] is the invariant of the tables. *)
Class Expands (p : policydb) (cond other : option branch) (enabled : bool) (ready : rule_tabs → Prop)
    (R : rule_tabs → effect → oracle → Z * rule_tabs → oracle → Prop) : Prop := {
  ex_proper : ∀ st E E' o x o', E ≡ E' → R st E o x o' → R st E' o x o';
  ex_none : ∀ st o, ready st → R st ef_none o (EXPAND_RULE_SUCCESS, st) o;
  ex_ready : ∀ st E o st' o', R st E o (EXPAND_RULE_SUCCESS, st') o' → ready st';
  ex_fail : ∀ st E o o', ready st → (o = [] → o' = []) → o ≠ [] → R st E o (EXPAND_RULE_ERROR, st) o';
  ex_prior : ∀ st E o o1 x o', (o = [] → o1 = []) → R st E o1 x o' → R st E o x o';
  (** Steps in a row. *)
  ex_after : ∀ st st1 E1 E o o1 x o', R st E1 o (EXPAND_RULE_SUCCESS, st1) o1 → R st1 E o1 x o' → R st (ef_or E1 E) o x o';
  (** A failure only says something of what is asked for. *)
  ex_weaken : ∀ st E E' o x o', x.1 ≠ EXPAND_RULE_SUCCESS →
    (∀ s t c k v, ef_wants E s t c k v → ef_wants E' s t c k v) → R st E o x o' → R st E' o x o';
  (** Fewer type rules may be claimed, and more asked for. *)
  ex_sub : ∀ st E E' o x o', (∀ s t c k v, ef_bits E s t c k v ↔ ef_bits E' s t c k v) →
    (∀ s t c k v, ef_sets E' s t c k v → ef_sets E s t c k v) →
    (∀ s t c k v, ef_wants E s t c k v → ef_wants E' s t c k v) → R st E o x o' → R st E' o x o';
  (** One class of a rule for a pair of types. *)
  ex_av : ∀ sp spec i j xp cur st o, ready st → (sp, spec) ∈ av_rules → i + 1 < 2 ^ 16 → j + 1 < 2 ^ 16 → small_class cur →
    wp (expand_av_class spec sp cond i j enabled xp cur st) o (step_outcome R st (class_effect spec i j cur) o);
  ex_xperm : ∀ sp i j xp cur st o, ready st → sp ∈ xperm_rules → i + 1 < 2 ^ 16 → j + 1 < 2 ^ 16 → small_class cur →
    wp (expand_av_class sp sp cond i j enabled (Some xp) cur st) o (step_outcome R st (class_effect sp i j cur) o);
  (** A type rule that is there already ends the loop with success. *)
  ex_te : ∀ typemap spec i j cur st v o, ready st → spec ∈ type_kinds → type_named p (i + 1) → type_named p (j + 1) →
    tclass_named p (cp_tclass cur) → new_type typemap (cp_data cur) = Some v → type_named p v →
    wp (expand_te_class p typemap spec cond other i j enabled cur st) o (λ r o',
      match r with
      | inl x => R st (te_effect typemap spec i j [cur]) o x o'
      | inr st' => R st (te_effect typemap spec i j [cur]) o (EXPAND_RULE_SUCCESS, st') o'
      end) }.

(** * Whole rules, for any table *)

Section expands.
Context {p : policydb} {cond other : option branch} {enabled : bool} {ready : rule_tabs → Prop}
  {R : rule_tabs → effect → oracle → Z * rule_tabs → oracle → Prop} {HX : Expands p cond other enabled ready R}.
#[local] Abbreviation step_outcome := (step_outcome R).

#[local] Instance result_proper st : Proper ((≡) ==> eq ==> eq ==> eq ==> iff) (R st).
Proof. intros E E' HE o1 o -> r1 r -> o2 o' ->. split; apply ex_proper; [done|by symmetry]. Qed.
#[local] Instance step_outcome_proper st : Proper ((≡) ==> eq ==> eq ==> eq ==> iff) (step_outcome st).
Proof. intros E E' HE o1 o -> r1 r -> o2 o' ->. destruct r as [x|st']; cbn; by rewrite HE. Qed.

Lemma outcome_list {A} (body : A → rule_tabs → M ((Z * rule_tabs) + rule_tabs)) (Es : A → effect) l st o :
  ready st →
  (∀ a st o, a ∈ l → ready st → wp (body a st) o (step_outcome st (Es a) o)) →
  wp (for_list body l st) o (step_outcome st (ef_ex (.∈ l) Es) o).
Proof.
  intros Hok Hbody.
  apply (wp_for_list (λ dn st' o', R st (ef_ex (.∈ dn) Es) o (EXPAND_RULE_SUCCESS, st') o')).
  - rewrite ef_ex_nil. by apply ex_none.
  - intros dn a rest st1 o1 Hsplit Hd. assert (a ∈ l) as Ha by (rewrite Hsplit; apply elem_of_app; right; left).
    eapply wp_mono; [apply Hbody; [done|by eapply ex_ready]|]. intros [x|st2] o2 Hr.
    + destruct Hr as [Hx Hr]. split; [done|]. eapply ex_weaken; [done| |by eapply ex_after].
      intros s t c k v [(b & Hb & Hw)|Hw]; [exists b|by exists a]. split; [|done]. rewrite Hsplit. apply elem_of_app. by left.
    + rewrite ef_ex_snoc. by eapply ex_after.
  - intros st1 o1 H. exact H.
Qed.

Lemma wp_steps st E E' o (m : M ((Z * rule_tabs) + rule_tabs)) : E ≡ E' → wp m o (step_outcome st E o) → wp m o (step_outcome st E' o).
Proof. intros HE H. eapply wp_mono; [exact H|]. intros r o' Hr. by rewrite <- HE. Qed.

Lemma loop_outcome st E o (m : M ((Z * rule_tabs) + rule_tabs)) :
  wp m o (step_outcome st E o) →
  wp (r ← m; mret match r with inl x => x | inr st => (EXPAND_RULE_SUCCESS, st) end) o (R st E o).
Proof. intros H. wp_step. eapply wp_mono; [exact H|]. intros [x|st'] o' Hr; wp_step; [apply Hr|exact Hr]. Qed.

Lemma avrule_helper_effect disable typemap r i j st o :
  ready st → rule_ready p typemap r → ar_specified r ∈ av_flags → i + 1 < 2 ^ 16 → j + 1 < 2 ^ 16 →
  wp (expand_avrule_helper disable (ar_specified r) cond i j (ar_perms r) enabled (ar_xperms r) st) o
    (R st (pair_effect typemap r i j) o).
Proof.
  intros Hok Hr Hf Hi Hj. unfold expand_avrule_helper. wp_step. unfold wp at 1.
  destruct (av_spec_run disable _ o Hf) as (res & -> & Hres). destruct res as [spec|].
  - apply loop_outcome. destruct Hres as [(Hsp & Ht & Hk & He)|[-> Hsp]].
    + eapply wp_steps; [by apply (classes_effect typemap r spec)|]. apply outcome_list; [done|].
      intros cur st1 o1 Hcur Hok1. apply ex_av; try done. apply (rr_classes _ _ _ Hr cur Hcur).
    + destruct (xperm_rules_facts _ Hsp) as (_ & _ & Ht & Hor & _). destruct (rr_xperms _ _ _ Hr Hsp) as [xp ->].
      eapply wp_steps; [by apply (classes_effect typemap r (ar_specified r))|]. apply outcome_list; [done|].
      intros cur st1 o1 Hcur Hok1. apply ex_xperm; try done. apply (rr_classes _ _ _ Hr cur Hcur).
  - wp_step. destruct Hres as [H1 H2]. rewrite <- pair_effect_none by done. by apply ex_none.
Qed.

(** The classes that were handled, the first one at least, and the rest. *)
Lemma te_pair_effect typemap r i j l rest st o x o' :
  ar_specified r ∈ type_kinds → ar_perms r = l ++ rest → (l = [] → rest = []) →
  R st (te_effect typemap (ar_specified r) i j l) o x o' → R st (pair_effect typemap r i j) o x o'.
Proof.
  intros Hk Hl Hnil. apply ex_sub.
  - intros s t c k v. cbn. split; [done|]. intros ((_ & _ & ->) & Hor & _).
    assert (Forall (.∉ type_kinds) or_kinds) as H by by_decide. rewrite Forall_forall in H. by apply (H _ Hor).
  - intros s t c k v (Hid & _ & cur & Hcur & Hc & Hv). split; [done|]. exists cur. split; [|done]. rewrite Hl in Hcur.
    destruct l as [|x0 l]; [rewrite Hnil in Hcur by done; done|]. injection Hcur as ->. left.
  - intros s t c k v ((-> & -> & ->) & cur & Hcur & Hc & Hv). split; [done|]. split; [done|]. exists cur. split; [|done].
    rewrite Hl. apply elem_of_app. by left.
Qed.

Lemma terule_helper_effect typemap r i j st o :
  ready st → rule_ready p typemap r → ar_specified r ∈ type_kinds → type_named p (i + 1) → type_named p (j + 1) →
  wp (expand_terule_helper p typemap (ar_specified r) cond other i j (ar_perms r) enabled st) o
    (R st (pair_effect typemap r i j) o).
Proof.
  intros Hok Hr Hk Hi Hj. unfold expand_terule_helper. wp_step. unfold wp at 1. rewrite te_spec_run by done.
  set (spec := ar_specified r) in *. wp_step.
  apply (wp_for_list (λ dn st' o', R st (te_effect typemap spec i j dn) o (EXPAND_RULE_SUCCESS, st') o')).
  - eapply ex_sub; [| | |by apply ex_none]; cbn; [done| |done]. by intros s t c k v (_ & cur & ?%elem_of_nil & _).
  - intros dn cur rest st1 o1 Hsplit Hd. assert (cur ∈ ar_perms r) as Hcur by (rewrite Hsplit; apply elem_of_app; right; left).
    assert (ready st1) as Hok1 by (by eapply ex_ready). destruct (rr_types _ _ _ Hr Hk cur Hcur) as (v & Hv & Hvn).
    eapply wp_mono; [apply (ex_te typemap spec i j cur st1 v o1); try done; by apply (rr_classes _ _ _ Hr)|].
    intros [x|st'] o2 Hc; [wp_step|].
    + apply (te_pair_effect typemap r i j (dn ++ [cur]) rest); [done|by rewrite <- app_assoc|intros E; by destruct dn|].
      rewrite te_effect_snoc. by eapply ex_after.
    + rewrite te_effect_snoc. by eapply ex_after.
  - intros st1 o1 Hd. wp_step. apply (te_pair_effect typemap r i j (ar_perms r) []); [done|by rewrite app_nil_r|done|done].
Qed.

Lemma outcome_bits (body : N → bool → rule_tabs → M ((Z * rule_tabs) + rule_tabs)) (Es : N → effect) e st o :
  ebitmap_wf e → ready st → (∀ i st, body i false st = mret (inr st)) →
  (∀ i st o, ebitmap_bit e i = true → ready st → wp (body i true st) o (step_outcome st (Es i) o)) →
  wp (ebitmap_for_each_bit e st body) o (step_outcome st (ef_ex (λ i, ebitmap_bit e i = true) Es) o).
Proof.
  intros He Hok Hno Hbody. eapply wp_same; [by apply for_each_bit_visited|].
  eapply (wp_steps _ (ef_ex (.∈ ebitmap_positions e) (λ i, if ebitmap_bit e i then Es i else ef_none))).
  - split; [|split]; intros s t c k x; cbn; split.
    1,3,5: intros (i & _ & Hi); exists i; destruct (ebitmap_bit e i); done.
    all: intros (i & Hi & Hx); exists i; split; [by apply bit_position|by rewrite Hi].
  - apply outcome_list; [done|]. intros i st1 o1 _ Hok1. destruct (ebitmap_bit e i) eqn:E; [by apply Hbody|].
    rewrite Hno. wp_step. by apply ex_none.
Qed.

Lemma steps_then st E1 E2 o (m1 : M ((Z * rule_tabs) + rule_tabs)) (m2 : rule_tabs → M ((Z * rule_tabs) + rule_tabs)) :
  wp m1 o (step_outcome st E1 o) → (∀ st1 o1, ready st1 → wp (m2 st1) o1 (step_outcome st1 E2 o1)) →
  wp (x ← m1; match x with inl x => mret (inl x) | inr st => m2 st end) o (step_outcome st (ef_or E1 E2) o).
Proof.
  intros H1 H2. wp_step. eapply wp_mono; [exact H1|]. intros [x|st1] o1 Hr.
  - destruct Hr as [Hx Hr]. wp_step. split; [done|]. eapply ex_weaken; [done| |done]. intros. cbn. by left.
  - eapply wp_mono; [apply H2; by eapply ex_ready|]. intros [x|st2] o2 Hr2.
    + destruct Hr2 as [Hx Hr2]. split; [done|]. by eapply ex_after.
    + exact (ex_after _ _ _ _ _ _ _ _ Hr Hr2).
Qed.

Lemma pair_outcome disable typemap r i j st o :
  ready st → rule_ready p typemap r → type_named p (i + 1) → type_named p (j + 1) →
  wp (expand_pair disable p typemap r cond other enabled i j st) o (step_outcome st (pair_effect typemap r i j) o).
Proof.
  intros Hok Hr Hi Hj. unfold expand_pair. wp_step.
  apply (wp_mono _ _ (R st (pair_effect typemap r i j) o)).
  2: { intros [rc st'] o' Ho. wp_step. destruct (Z.eqb_spec rc EXPAND_RULE_SUCCESS) as [->|Hne]; [done|by split]. }
  destruct (rr_flags _ _ _ Hr) as [Hf|Hf].
  - assert (truth (N.land (ar_specified r) (N.lor AVRULE_AV AVRULE_XPERMS)) = true) as ->.
    { assert (Forall (λ f, truth (N.land f (N.lor AVRULE_AV AVRULE_XPERMS)) = true) av_flags) as H by by_decide. rewrite Forall_forall in H. by apply H. }
    apply avrule_helper_effect; [done..|apply Hi|apply Hj].
  - assert (truth (N.land (ar_specified r) (N.lor AVRULE_AV AVRULE_XPERMS)) = false) as ->.
    { assert (Forall (λ f, truth (N.land f (N.lor AVRULE_AV AVRULE_XPERMS)) = false) type_kinds) as H by by_decide. rewrite Forall_forall in H. by apply H. }
    by apply terule_helper_effect.
Qed.

Lemma rule_outcome disable typemap r stypes ttypes st o :
  ready st → rule_ready p typemap r → types_named p stypes → types_named p ttypes →
  wp (expand_rule_helper disable p typemap r cond other enabled stypes ttypes st) o
    (R st (rule_effect typemap r (λ i, ebitmap_bit stypes i = true) (λ j, ebitmap_bit ttypes j = true)) o).
Proof.
  intros Hok Hr [Hs Hsn] [Ht Htn]. unfold expand_rule_helper. apply loop_outcome.
  set (self := truth (N.land (ar_flags r) RULE_SELF)).
  eapply (wp_steps _ (ef_ex (λ i, ebitmap_bit stypes i = true) (λ i, ef_or (if self then pair_effect typemap r i i else ef_none)
            (ef_ex (λ j, ebitmap_bit ttypes j = true) (pair_effect typemap r i))))).
  - split; [|split]; intros s t c k x; cbn -[pair_effect]; fold self; split.
    1,3,5: intros (i & Hi & [Hx|(j & Hj & Hx)]); [destruct self eqn:Eself; [exists (i, i)|done]|exists (i, j)]; (split; [split; [exact Hi|auto]|exact Hx]).
    all: intros ([i j] & (Hi & Hj) & Hx); exists i; (split; [done|]); cbn [fst snd] in *.
    all: destruct Hj as [[Hself ->]|Hj]; [left; fold self in Hself; rewrite Hself; exact Hx|right; by exists j].
  - apply outcome_bits; [done|done|done|]. intros i st1 o1 Hi Hok1. cbn [negb]. apply steps_then.
    + fold self. destruct self; [by apply pair_outcome; auto|]. wp_step. by apply ex_none.
    + intros st2 o2 Hok2. apply outcome_bits; [done|done|done|]. intros j st3 o3 Hj Hok3. cbn [negb]. apply pair_outcome; auto.
Qed.

(** A rule of a module, in the numbers of the new policy. *)
Lemma convert_outcome disable typemap r do_neverallow st o :
  dest_ready p → ready st → source_ready p typemap r →
  wp (convert_and_expand_rule disable p typemap r cond other enabled do_neverallow st) o (R st (source_effect p typemap r) o).
Proof.
  intros [Hp Hcount Hnames] Hok [Hr Hs Ht]. unfold convert_and_expand_rule.
  assert ((ar_specified r ∉ or_kinds) → (ar_specified r ∉ type_kinds) → R st (source_effect p typemap r) o (EXPAND_RULE_SUCCESS, st) o) as Hskip.
  { intros H1 H2. unfold source_effect. rewrite rule_effect_none by done. by apply ex_none. }
  assert (Forall (λ f, truth (N.land f AVRULE_NEVERALLOW) = true → f = AVRULE_NEVERALLOW) (av_flags ++ type_kinds)) as Hnv by by_decide.
  assert (Forall (λ f, truth (N.land f AVRULE_XPERMS_NEVERALLOW) = false) (av_flags ++ type_kinds)) as Hxnv by by_decide.
  rewrite Forall_forall in Hnv, Hxnv.
  assert (ar_specified r = AVRULE_XPERMS_NEVERALLOW ∨ ar_specified r ∈ av_flags ++ type_kinds) as Hflag.
  { destruct Hr as [?|Hr]; [by left|right]. apply elem_of_app. apply (rr_flags _ _ _ Hr). }
  destruct (negb do_neverallow && _) eqn:En.
  { wp_step. apply andb_prop in En as [_ En]. destruct Hflag as [E|Hflag]; [by rewrite E in En|].
    apply Hskip; rewrite (Hnv _ Hflag En); by_decide. }
  destruct Hr as [E|Hr]; [rewrite E; change (truth (N.land AVRULE_XPERMS_NEVERALLOW AVRULE_XPERMS_NEVERALLOW)) with true; cbv iota; wp_step; apply Hskip; rewrite E; by_decide|].
  rewrite Hxnv by (apply elem_of_app, (rr_flags _ _ _ Hr)). wp_step. fold (always_expand r).
  eapply wp_mono; [by apply convert_set_spec|]. intros [rc stypes] o1 [Ho1 H1]. cbn [fst snd] in *. case_bool_decide as Hrc.
  { wp_step. apply ex_fail; [done|intros H; by apply Ho1|intros H; by destruct (Ho1 H)]. }
  destruct H1 as [(_ & Hw1 & B1)|Hbad]; [|congruence].
  wp_step. eapply wp_mono; [by apply convert_set_spec|]. intros [rc2 ttypes] o2 [Ho2 H2]. cbn [fst snd] in *. case_bool_decide as Hrc2.
  { wp_step. apply ex_fail; [done|intros H; by apply Ho2, Ho1|intros H; by destruct (Ho2 (proj1 (Ho1 H)))]. }
  destruct H2 as [(_ & Hw2 & B2)|Hbad]; [|congruence].
  assert (∀ e always set, ebitmap_wf e → (∀ x, ebitmap_bit e x = true ↔ stands_for p typemap always set x) → set_ready p typemap set → types_named p e) as Hnamed.
  { intros e always set He HB Hset. split; [done|]. intros i Hi. apply HB in Hi. pose proof (stands_for_bound _ _ _ _ _ Hp Hset Hi). unfold type_named. lia. }
  eapply wp_mono; [apply rule_outcome; [done|done|by eapply Hnamed|by eapply Hnamed]|]. intros x o3 Hx.
  apply (ex_prior _ _ o o2); [intros H; by apply Ho2, Ho1|]. eapply ex_proper; [|exact Hx]. by apply rule_effect_proper.
Qed.
End expands.

(** * The unconditional table *)

Definition has_perm (a : avtab) : cells := λ s t c k j, N.testbit (old_data a (plain_id s t c k)) j = true.
Definition has_type_rule (a : avtab) : cells := λ s t c k v, ∃ n, tab_map a !! plain_id s t c k = Some n ∧ data (av_datum n) = v.

Section unconditional.
Context (p : policydb).

Record tabs_ok (st : rule_tabs) : Prop := {
  tk_te : tab_ok (rt_te st);
  tk_cond : avtab_wf (rt_cond st);
  tk_te_data : data_named p (rt_te st);
  tk_cond_data : data_named p (rt_cond st) }.

(** The unconditional table has grown by the effect, and nothing else has
    changed. *)
Record applied (st st' : rule_tabs) (E : effect) : Prop := {
  ap_cond : rt_cond st' = rt_cond st ∧ rt_conds st' = rt_conds st;
  ap_bits : ∀ s t c k j, k ∈ or_kinds → has_perm (rt_te st') s t c k j ↔ has_perm (rt_te st) s t c k j ∨ ef_bits E s t c k j;
  ap_keeps : ∀ s t c k v, k ∈ type_kinds → has_type_rule (rt_te st) s t c k v → has_type_rule (rt_te st') s t c k v;
  ap_sets : ∀ s t c k v, ef_sets E s t c k v → k ∈ type_kinds ∧ has_type_rule (rt_te st') s t c k v;
  ap_only : ∀ s t c k v, k ∈ type_kinds → has_type_rule (rt_te st') s t c k v → has_type_rule (rt_te st) s t c k v ∨ ef_wants E s t c k v }.

(** A type rule that is asked for, and another one in its place. *)
Definition conflicting (st : rule_tabs) (W : cells) : Prop := ∃ s t c k v, W s t c k v ∧
  ((∃ v', has_type_rule (rt_te st) s t c k v' ∧ v' ≠ v) ∨
   ∃ n, n ∈ avtab_entries (rt_cond st) ∧ key_match (AvtabKey s t c k) (clear_enabled k) (av_key n) = true).

Definition rule_result (st : rule_tabs) (E : effect) (o : oracle) (r : Z * rule_tabs) (o' : oracle) : Prop :=
  (o = [] → o' = []) ∧ tabs_ok r.2 ∧ (rt_cond r.2 = rt_cond st ∧ rt_conds r.2 = rt_conds st) ∧
  (r.1 = EXPAND_RULE_SUCCESS → applied st r.2 E) ∧
  (r.1 ≠ EXPAND_RULE_SUCCESS → (r.1 = EXPAND_RULE_CONFLICT ∧ conflicting r.2 (ef_wants E)) ∨ (r.1 = EXPAND_RULE_ERROR ∧ o ≠ [])).

Lemma applied_none st : applied st st ef_none.
Proof. split; [done|cbn; tauto|done|done|auto]. Qed.

Lemma applied_trans st1 st2 st3 E1 E2 : applied st1 st2 E1 → applied st2 st3 E2 → applied st1 st3 (ef_or E1 E2).
Proof.
  intros [[C1 C1'] B1 K1 S1 O1] [[C2 C2'] B2 K2 S2 O2]. split.
  - split; congruence.
  - intros s t c k j Hk. rewrite B2, B1 by done. cbn. tauto.
  - auto.
  - intros s t c k v [H|H]; [|by apply S2]. destruct (S1 _ _ _ _ _ H) as [Hk Hr]. split; [done|]. by apply K2.
  - intros s t c k v Hk H. apply O2 in H as [H|H]; [|by right; right|done]. apply O1 in H as [H|H]; [by left|by right; left|done].
Qed.

#[global] Instance applied_proper st st' : Proper ((≡) ==> iff) (applied st st').
Proof.
  assert (∀ E E', E ≡ E' → applied st st' E → applied st st' E') as H.
  { intros E E' (HB & HS & HW) [C B K S O]. split; [done| |done| |].
    - intros s t c k j Hk. by rewrite B, HB by done.
    - intros s t c k v Hs. apply S. by apply HS.
    - intros s t c k v Hk H. rewrite <- HW. auto. }
  intros E E' HE. split; apply H; [done|by symmetry].
Qed.

Lemma conflicting_mono st (W W' : cells) : (∀ s t c k v, W s t c k v → W' s t c k v) → conflicting st W → conflicting st W'.
Proof. intros H (s & t & c & k & v & Hw & Hc). exists s, t, c, k, v. auto. Qed.

Lemma outcome_equiv st E E' o r o' : E ≡ E' → rule_result st E o r o' → rule_result st E' o r o'.
Proof.
  intros HE (Ho & Hok & Hc & Hs & Hf). split; [done|]. split; [done|]. split; [done|]. split.
  - intros Hr. rewrite <- HE. auto.
  - intros Hr. destruct (Hf Hr) as [[? Hcf]|?]; [left|by right]. split; [done|].
    eapply conflicting_mono; [|exact Hcf]. intros s t c k v. by apply HE.
Qed.

Lemma outcome_none st o : tabs_ok st → rule_result st ef_none o (EXPAND_RULE_SUCCESS, st) o.
Proof. intros Hok. split; [done|]. split; [done|]. split; [done|]. split; [|done]. intros _. apply applied_none. Qed.

Lemma outcome_fail st E o o' : tabs_ok st → (o = [] → o' = []) → o ≠ [] → rule_result st E o (EXPAND_RULE_ERROR, st) o'.
Proof. intros Hok Ho Hne. split; [done|]. split; [done|]. split; [done|]. split; [done|]. auto. Qed.

Lemma outcome_prior st E o o1 x o' : (o = [] → o1 = []) → rule_result st E o1 x o' → rule_result st E o x o'.
Proof.
  intros H (Ho & Hok & Hc & Hs & Hf). split; [auto|]. split; [done|]. split; [done|]. split; [done|]. intros Hx.
  destruct (Hf Hx) as [?|[? Hne]]; [by left|right]. auto.
Qed.

Lemma outcome_after st st1 E1 E o o1 x o2 :
  rule_result st E1 o (EXPAND_RULE_SUCCESS, st1) o1 → rule_result st1 E o1 x o2 → rule_result st (ef_or E1 E) o x o2.
Proof.
  intros (Ho1 & Hok1 & [C1 C1'] & Hs1 & _) (Ho2 & Hok2 & [C2 C2'] & Hs2 & Hf2). cbn [fst snd] in *.
  split; [auto|]. split; [done|]. split; [split; congruence|]. split.
  - intros Hx. eapply applied_trans; auto.
  - intros Hx. destruct (Hf2 Hx) as [[? Hc]|[? Hne]]; [left|right; split; [done|intros Hnil; by apply Hne, Ho1]].
    split; [done|]. eapply conflicting_mono; [|exact Hc]. intros. cbn. by right.
Qed.

Lemma outcome_weaken st E E' o x o' :
  x.1 ≠ EXPAND_RULE_SUCCESS → (∀ s t c k v, ef_wants E s t c k v → ef_wants E' s t c k v) → rule_result st E o x o' → rule_result st E' o x o'.
Proof.
  intros Hx HE (Ho & Hok & Hc & _ & Hf). split; [done|]. split; [done|]. split; [done|]. split; [done|]. intros H.
  destruct (Hf H) as [[? Hcf]|?]; [left|by right]. split; [done|]. by eapply conflicting_mono.
Qed.

(** Fewer type rules may be claimed, and more asked for. *)
Lemma outcome_sub st E E' o x o' :
  (∀ s t c k v, ef_bits E s t c k v ↔ ef_bits E' s t c k v) → (∀ s t c k v, ef_sets E' s t c k v → ef_sets E s t c k v) →
  (∀ s t c k v, ef_wants E s t c k v → ef_wants E' s t c k v) → rule_result st E o x o' → rule_result st E' o x o'.
Proof.
  intros HB HS HW (Ho & Hok & Hc & Hs & Hf). split; [done|]. split; [done|]. split; [done|]. split.
  - intros Hx. destruct (Hs Hx) as [C B K S O]. split; [done| |done|auto|].
    + intros. by rewrite B, HB.
    + intros s t c k v Hk H. destruct (O s t c k v Hk H); auto.
  - intros Hx. destruct (Hf Hx) as [[? Hcf]|?]; [left|by right]. split; [done|]. by eapply conflicting_mono.
Qed.

(** ** One rule of the table *)

Lemma stores_old a id n a' i : stores a id n a' → old_data a' i = if decide (i = id) then data (av_datum n) else old_data a i.
Proof.
  intros (_ & _ & Hm). unfold old_data. rewrite Hm. destruct (decide (i = id)) as [->|Hne]; [by rewrite lookup_insert_eq|by rewrite lookup_insert_ne].
Qed.

Lemma kind_of_type a n k : tab_ok a → n ∈ avtab_entries a → k ∈ type_kinds → truth (N.land k (specified (av_key n))) = true ↔ kind_of n = k.
Proof.
  intros Ha Hn Hk. destruct (type_kinds_plain _ Hk) as [Hkk _].
  pose proof (kind_match k n Hkk (to_kinds _ Ha n Hn)) as E. rewrite (proj1 (kinds_plain k Hkk)) in E. rewrite E. apply bool_decide_eq_true.
Qed.

Lemma stores_tabs_ok st id n a :
  tabs_ok st → stores (rt_te st) id n a → (kind_of n ∈ type_kinds → type_named p (data (av_datum n))) → tabs_ok (set_dest None st a).
Proof.
  intros [H1 H2 H3 H4] (Ha & Hid & Hm) Hn. split; [done|done| |done]. cbn. intros m k Hin Hk Ht.
  assert (kind_of m = k) as Hkm by (by apply (kind_of_type a)).
  assert (tab_map a !! ident m = Some m) as Hl by (by apply tab_lookup). rewrite Hm in Hl.
  destruct (decide (ident m = id)) as [E|Hne].
  - rewrite E, lookup_insert_eq in Hl. injection Hl as ->. apply Hn. by rewrite Hkm.
  - rewrite lookup_insert_ne in Hl by done. apply tab_lookup in Hl as [Hin' _]; [|done]. by apply (H3 m k).
Qed.

Lemma stores_keeps a id n a' s t c k v :
  stores a id n a' → id ≠ plain_id s t c k → has_type_rule a s t c k v → has_type_rule a' s t c k v.
Proof. intros (_ & _ & Hm) Hne (m & Hl & Hd). exists m. split; [|done]. by rewrite Hm, lookup_insert_ne. Qed.

(** A rule of a kind that is not one of type rules, whose permissions are
    added if it is one of those that accumulate. *)
Lemma stores_applied st s0 t0 c0 k0 z n a x :
  tabs_ok st → stores (rt_te st) ((s0, t0, c0), k0, z) n a → k0 ∉ type_kinds →
  (k0 ∈ or_kinds → z = None ∧ data (av_datum n) = N.lor (old_data (rt_te st) (plain_id s0 t0 c0 k0)) x) →
  applied st (set_dest None st a)
    (Effect (λ s t c k j, (s = s0 ∧ t = t0 ∧ k = k0) ∧ k ∈ or_kinds ∧ c = c0 ∧ N.testbit x j = true) (λ _ _ _ _ _, False) (λ _ _ _ _ _, False)).
Proof.
  intros Hok Hst Hk Hor. split; [done| | |done|].
  - intros s t c k j Hkk. unfold has_perm. cbn [set_dest rt_te]. rewrite (stores_old _ _ _ _ _ Hst). cbn. case_decide as E.
    + injection E as -> -> -> -> <-. destruct (Hor Hkk) as [_ ->]. rewrite N.lor_spec, orb_true_iff. tauto.
    + split; [auto|]. intros [?|((-> & -> & ->) & _ & -> & Hj)]; [done|]. destruct (Hor Hkk) as [-> _]. by destruct E.
  - intros s t c k v Hkt. cbn [set_dest rt_te]. apply (stores_keeps _ _ _ _ _ _ _ _ _ Hst). intros [= -> -> -> -> _]. done.
  - intros s t c k v Hkt (m & Hm & Hd). left. exists m. split; [|done]. cbn [set_dest rt_te] in Hm. destruct Hst as (_ & _ & Hmap).
    rewrite Hmap, lookup_insert_ne in Hm; [done|]. intros [= -> -> -> -> _]. done.
Qed.

Lemma av_class_step sp spec i j enabled xp cur st o :
  tabs_ok st → (sp, spec) ∈ av_rules → i + 1 < 2 ^ 16 → j + 1 < 2 ^ 16 → small_class cur →
  wp (expand_av_class spec sp None i j enabled xp cur st) o (step_outcome rule_result st (class_effect spec i j cur) o).
Proof.
  intros Hok Hsp Hi Hj Hc. destruct (av_rules_merge _ _ Hsp) as (Hk & Hp & Ht & Hm).
  destruct (class_numbers i j cur Hi Hj Hc) as (Ei & Ej & Ec).
  eapply wp_mono; [apply av_class_spec; [apply Hok|done|done|intros; apply Hm]|]. rewrite Ei, Ej, Ec. intros [[rc st']|st'] o' [Ho Hr].
  - destruct Hr as (-> & -> & Hne). by split; [|apply outcome_fail].
  - destruct Hr as (a & n & -> & Hst & Hd). destruct (Hm (old_data (rt_te st) (plain_id (i + 1) (j + 1) (cp_tclass cur) spec)) (cp_data cur)) as [_ Hor].
    split; [done|]. split; [|split; [done|split; [|done]]].
    + eapply stores_tabs_ok; [done|done|]. intros Hkt. exfalso. apply Ht. destruct Hst as (_ & Hid & _).
      assert (kind_of n = spec) as <- by (unfold ident, plain_id in Hid; congruence). done.
    + intros _. eapply stores_applied; [done|exact Hst|done|]. intros Hkk. split; [done|]. rewrite Hor in Hd by done. by injection Hd.
Qed.
Lemma xperm_class_step sp i j enabled xp cur st o :
  tabs_ok st → sp ∈ xperm_rules → i + 1 < 2 ^ 16 → j + 1 < 2 ^ 16 → small_class cur →
  wp (expand_av_class sp sp None i j enabled (Some xp) cur st) o (step_outcome rule_result st (class_effect sp i j cur) o).
Proof.
  intros Hok Hsp Hi Hj Hc. destruct (xperm_rules_facts _ Hsp) as (Hk & Hx & Ht & Hor & Hspx & Hm).
  destruct (class_numbers i j cur Hi Hj Hc) as (Ei & Ej & Ec).
  eapply wp_mono; [apply av_xclass_spec; [apply Hok|done..]|]. rewrite Ei, Ej, Ec. intros [[rc st']|st'] o' [Ho Hr].
  - destruct Hr as (-> & -> & Hne). by split; [|apply outcome_fail].
  - destruct Hr as (a & n & -> & Hst & _). assert (kind_of n = sp) as Hkn by (destruct Hst as (_ & Hid & _); unfold ident, key_ident in Hid; cbn in Hid; congruence).
    split; [done|]. split; [|split; [done|split; [|done]]].
    + eapply stores_tabs_ok; [done|done|]. by rewrite Hkn.
    + intros _. unfold key_ident in Hst. cbn [specified] in Hst. eapply stores_applied; [done|exact Hst|done|]. done.
Qed.

Lemma has_type_rule_lookup a s t c k n : tab_map a !! plain_id s t c k = Some n → has_type_rule a s t c k (data (av_datum n)).
Proof. intros H. by exists n. Qed.

(** A type rule that is new. *)
Lemma te_stores_applied st s0 t0 c0 k0 n a :
  tabs_ok st → k0 ∈ type_kinds → tab_map (rt_te st) !! plain_id s0 t0 c0 k0 = None → stores (rt_te st) (plain_id s0 t0 c0 k0) n a →
  (∀ s t c k j, k ∈ or_kinds → has_perm a s t c k j ↔ has_perm (rt_te st) s t c k j) ∧
  (∀ s t c k v, has_type_rule (rt_te st) s t c k v → has_type_rule a s t c k v) ∧
  has_type_rule a s0 t0 c0 k0 (data (av_datum n)) ∧
  (∀ s t c k v, has_type_rule a s t c k v → has_type_rule (rt_te st) s t c k v ∨ (s, t, c, k, v) = (s0, t0, c0, k0, data (av_datum n))).
Proof.
  intros Hok Hk Hno Hst. split_and!.
  - intros s t c k j Hkk. unfold has_perm. rewrite (stores_old _ _ _ _ _ Hst). rewrite decide_False; [done|].
    intros [= -> -> -> ->]. assert (Forall (.∉ type_kinds) or_kinds) as H by by_decide. rewrite Forall_forall in H. by apply (H k0).
  - intros s t c k v Hh. apply (stores_keeps _ _ _ _ _ _ _ _ _ Hst); [|done]. intros E. destruct Hh as (m & Hm & _).
    unfold plain_id in *. congruence.
  - apply has_type_rule_lookup. destruct Hst as (_ & _ & ->). by rewrite lookup_insert_eq.
  - intros s t c k v (m & Hm & Hd). destruct Hst as (_ & _ & Hmap). rewrite Hmap in Hm.
    destruct (decide (plain_id s t c k = plain_id s0 t0 c0 k0)) as [E|Hne].
    + rewrite E, lookup_insert_eq in Hm. right. unfold plain_id in E. congruence.
    + rewrite lookup_insert_ne in Hm by done. left. by exists m.
Qed.

Lemma one_te_applied typemap spec i j cur v st n a :
  tabs_ok st → spec ∈ type_kinds → new_type typemap (cp_data cur) = Some v →
  tab_map (rt_te st) !! plain_id (i + 1) (j + 1) (cp_tclass cur) spec = None →
  stores (rt_te st) (plain_id (i + 1) (j + 1) (cp_tclass cur) spec) n a → data (av_datum n) = v →
  applied st (set_dest None st a) (te_effect typemap spec i j [cur]).
Proof.
  intros Hok Hk Hv Hno Hst Hd. destruct (te_stores_applied _ _ _ _ _ _ _ Hok Hk Hno Hst) as (HB & HK & HS & HO). split.
  - done.
  - intros. cbn. rewrite HB by done. tauto.
  - intros. by apply HK.
  - intros s t c k x ((-> & -> & ->) & cur' & ->%list_elem_of_singleton & -> & Hx). split; [done|].
    cbn [set_dest rt_te]. congruence.
  - intros s t c k x Hkt H. apply HO in H as [H|[= -> -> -> -> ->]]; [by left|right]. split; [done|]. exists cur.
    split; [left|]. split; [done|congruence].
Qed.
Lemma te_class_step typemap spec i j enabled cur st v o :
  tabs_ok st → spec ∈ type_kinds → type_named p (i + 1) → type_named p (j + 1) → tclass_named p (cp_tclass cur) →
  new_type typemap (cp_data cur) = Some v → type_named p v →
  wp (expand_te_class p typemap spec None None i j enabled cur st) o (λ r o',
    match r with
    | inl x => rule_result st (te_effect typemap spec i j [cur]) o x o'
    | inr st' => rule_result st (te_effect typemap spec i j [cur]) o (EXPAND_RULE_SUCCESS, st') o'
    end).
Proof.
  intros Hok Hk Hi Hj Hcl Hv Hvn.
  eapply wp_mono; [apply (te_class_spec p typemap spec i j enabled cur st v o); try done; apply Hok|].
  intros [[rc st']|st'] o2 [Ho Hc].
  - destruct Hc as [-> Hc]. split; [done|]. split; [done|]. split; [done|]. cbn [fst snd].
    destruct Hc as [(-> & n & Hn & Hd')|[(-> & Hc)|(-> & Hne)]].
    + split; [|done]. intros _. split; [done|cbn; tauto|done| |auto].
      intros s t c k x ((-> & -> & ->) & cur' & ->%list_elem_of_singleton & -> & Hx). split; [done|].
      assert (x = v) as -> by congruence. by exists n.
    + split; [done|]. intros _. left. split; [done|]. exists (i + 1), (j + 1), (cp_tclass cur), spec, v. split.
      { split; [done|]. exists cur. split; [left|done]. }
      destruct Hc as [(n & Hn & Hd')|(n & Hn & Hm)]; [left; exists (data (av_datum n)); split; [by exists n|done]|right; by exists n].
    + split; [done|]. auto.
  - destruct Hc as (Hno & a & n & -> & Hst & Hdv). split; [done|]. split; [|split; [done|split; [|done]]].
    + eapply stores_tabs_ok; [done|done|]. intros _. by rewrite Hdv.
    + intros _. by eapply one_te_applied.
Qed.

#[global] Instance unconditional_expands enabled : Expands p None None enabled tabs_ok rule_result.
Proof.
  split.
  - exact outcome_equiv.
  - exact outcome_none.
  - intros st E o st' o' H. apply H.
  - exact outcome_fail.
  - exact outcome_prior.
  - intros. by eapply outcome_after.
  - exact outcome_weaken.
  - exact outcome_sub.
  - intros. by apply av_class_step.
  - intros. by apply xperm_class_step.
  - intros. by eapply te_class_step.
Qed.
End unconditional.
