(* ===== verification/ExpandCond.v ===== *)
(** Rules of conditional blocks: [find_avtab_node] and the expansion of a rule
    into a branch of a block, the instance of [Expands] for branches.

    The rules of a branch are those its pointers lead to.  Every rule of the
    conditional table is in at most one list of one block, so that writing
    through a pointer of a branch changes that branch alone. *)

From stdpp Require Import sorting gmap.
From S2P Require Import Prelude.
From S2P Require Import Ebitmap.
From S2P Require Import Hashtab.
From S2P Require Import MlsTypes.
From S2P Require Import Avtab.
From S2P Require Import Policydb.
From S2P Require Import Mls.
From S2P Require Import Context.
From S2P Require Import Conditional.
From S2P Require Import Expand.
From S2P Require Import Assertion.
From S2P Require Import PolicyIO.
From S2P Require Import SymbolIO.
From S2P Require Import ModuleIO.
From S2P Require Import CondIO.
From S2P Require Import ExpandRules.
From S2P Require Import ExpandEffects.
Local Open Scope N_scope.

(** * Branches *)

Definition branch_of (l : list cond_node) (b : branch) : list avtab_ptr :=
  match l !! b.1 with Some n => if b.2 then true_list n else false_list n | None => [] end.

Definition in_rules (st : rule_tabs) (b : branch) (m : avtab_node) : Prop :=
  ∃ q, q ∈ branch_of (rt_conds st) b ∧ node_at (rt_cond st) q = Some m.
Definition rest_rules (st : rule_tabs) (b : branch) (q : avtab_ptr) (m : avtab_node) : Prop :=
  ∃ q', q' ∈ branch_of (rt_conds st) b ∧ q' ≠ q ∧ node_at (rt_cond st) q' = Some m.

(** The pointers lead to rules, and no two are the same. *)
Definition lists_ok (st : rule_tabs) : Prop :=
  Forall (ptr_valid (rt_cond st)) (rt_conds st ≫= node_ptrs) ∧ NoDup (rt_conds st ≫= node_ptrs).

(** The blocks, their lists apart. *)
Definition block_heads (l : list cond_node) : list cond_node := (λ n, set_lists n [] []) <$> l.

Lemma branch_of_ptr l b q : q ∈ branch_of l b → q ∈ (l ≫= node_ptrs).
Proof.
  unfold branch_of. destruct (l !! b.1) as [n|] eqn:E; [|by intros ?%elem_of_nil]. intros Hq.
  apply list_elem_of_bind. exists n. split; [|by eapply list_elem_of_lookup_2]. unfold node_ptrs. apply elem_of_app.
  destruct b.2; auto.
Qed.

Lemma branch_unique l b b' q : NoDup (l ≫= node_ptrs) → q ∈ branch_of l b → q ∈ branch_of l b' → b = b'.
Proof.
  revert b b'. induction l as [|n l IH]; intros [i x] [i' x'] Hnd Hq Hq'; [unfold branch_of in Hq; cbn in Hq; by apply elem_of_nil in Hq|].
  rewrite bind_cons in Hnd. apply NoDup_app in Hnd as (Hn & Hd & Hl). unfold node_ptrs in Hn. apply NoDup_app in Hn as (_ & Htf & _).
  assert (∀ x, q ∈ branch_of (n :: l) (0%nat, x) → q ∈ node_ptrs n) as Hhead.
  { intros y Hy. unfold branch_of in Hy. cbn in Hy. unfold node_ptrs. apply elem_of_app. destruct y; auto. }
  destruct i as [|i], i' as [|i'].
  - f_equal. unfold branch_of in *. cbn in *. destruct x, x'; try done; exfalso; by apply (Htf q).
  - exfalso. apply (Hd q); [by eapply Hhead|]. by apply (branch_of_ptr l (i', x')).
  - exfalso. apply (Hd q); [by eapply Hhead|]. by apply (branch_of_ptr l (i, x)).
  - specialize (IH (i, x) (i', x') Hl Hq Hq'). congruence.
Qed.

Lemma branch_of_shift at_ l b : branch_of (shift_conds at_ l) b = shift_ptr at_ <$> branch_of l b.
Proof. unfold branch_of, shift_conds. rewrite list_lookup_fmap. destruct (l !! b.1); cbn; [|done]. by destruct b.2. Qed.
Lemma ptrs_shift at_ l : shift_conds at_ l ≫= node_ptrs = shift_ptr at_ <$> (l ≫= node_ptrs).
Proof.
  unfold shift_conds. induction l as [|n l IH]; [done|]. rewrite fmap_cons, !bind_cons, fmap_app, IH. f_equal.
  unfold node_ptrs, shift_node, set_lists. cbn. by rewrite fmap_app.
Qed.
Lemma heads_shift_conds at_ l : block_heads (shift_conds at_ l) = block_heads l.
Proof. unfold block_heads, shift_conds. rewrite <- list_fmap_compose. by apply list_fmap_ext. Qed.

Lemma branch_of_push b q l b' : is_Some (l !! b.1) → branch_of (push b q l) b' = if decide (b' = b) then q :: branch_of l b else branch_of l b'.
Proof.
  intros [n Hn]. unfold branch_of, push. destruct (decide (b'.1 = b.1)) as [E|Hne].
  - rewrite E, list_lookup_alter_eq, Hn. cbn. destruct b as [i x], b' as [i' x']. cbn in *. subst i'. case_decide as Hd.
    + injection Hd as ->. by destruct x.
    + destruct x, x'; congruence || done.
  - rewrite list_lookup_alter_ne by done. rewrite decide_False; [done|]. intros ->. done.
Qed.
Lemma ptrs_push b q l : is_Some (l !! b.1) → push b q l ≫= node_ptrs ≡ₚ q :: (l ≫= node_ptrs).
Proof.
  unfold push. revert l. induction b.1 as [|i IH]; intros [|n l] [m Hm]; try done; cbn.
  - unfold node_ptrs at 1 3. destruct b.2; cbn; [done|]. by rewrite <- Permutation_middle.
  - rewrite IH by (by exists m). by rewrite <- Permutation_middle.
Qed.
Lemma heads_push b q l : block_heads (push b q l) = block_heads l.
Proof.
  unfold block_heads, push. revert l. induction b.1 as [|i IH]; intros [|n l]; cbn; try done.
  - f_equal. by destruct b.2.
  - by rewrite IH.
Qed.
Lemma push_lookup b q l i : is_Some (push b q l !! i) ↔ is_Some (l !! i).
Proof. unfold push. by rewrite !lookup_lt_is_Some, !length_alter. Qed.

(** * Finding or adding a rule of a branch *)

(** The rule [n] at [q] of the branch, in place of [old]. *)
Record placed (b : branch) (st st' : rule_tabs) (q : avtab_ptr) (old : option avtab_node) (n : avtab_node) : Prop := {
  pl_wf : avtab_wf (rt_cond st');
  pl_lists : lists_ok st';
  pl_te : rt_te st' = rt_te st;
  pl_blocks : block_heads (rt_conds st') = block_heads (rt_conds st);
  pl_in : q ∈ branch_of (rt_conds st') b;
  pl_at : node_at (rt_cond st') q = Some n;
  pl_entries : ∃ R, avtab_entries (rt_cond st') ≡ₚ n :: R ∧ (∀ m, m ∈ R → m ∈ avtab_entries (rt_cond st));
  pl_others : ∀ b' m, b' ≠ b → in_rules st' b' m ↔ in_rules st b' m;
  pl_old : ∀ m, in_rules st b m ↔ old = Some m ∨ rest_rules st' b q m }.

Lemma node_at_listed a q n : node_at a q = Some n → n ∈ avtab_entries a.
Proof.
  intros (t & c & Ht & Hc & Hn)%node_at_slot. eapply chain_entry; [done..|]. by eapply list_elem_of_lookup_2.
Qed.

Lemma in_rules_rest st b q n m :
  q ∈ branch_of (rt_conds st) b → node_at (rt_cond st) q = Some n → in_rules st b m ↔ m = n ∨ rest_rules st b q m.
Proof.
  intros Hq Hn. split.
  - intros (q' & Hq' & Hm). destruct (decide (q' = q)) as [->|Hne]; [left; congruence|right]. by exists q'.
  - intros [->|(q' & Hq' & _ & Hm)]; [by exists q|by exists q'].
Qed.

Lemma placed_there st b q n :
  avtab_wf (rt_cond st) → lists_ok st → q ∈ branch_of (rt_conds st) b → node_at (rt_cond st) q = Some n →
  placed b st st q (Some n) n.
Proof.
  intros Hwf Hl Hq Hn. split; try done.
  - apply node_at_listed in Hn. apply elem_of_Permutation in Hn as [R HR]. exists R. split; [done|]. intros m Hm. rewrite HR. by right.
  - intros m. rewrite in_rules_rest by done. split; (intros [H|H]; [left; congruence|by right]).
Qed.

(** A node stays in its place while its types and class do. *)
Lemma placed_update b st st' q old n f o :
  placed b st st' q old n → triple (av_key (f n)) = triple (av_key n) →
  ∃ a, update_node (rt_cond st') q f o = Ret a o ∧ placed b st (set_dest (Some b) st' a) q old (f n).
Proof.
  intros [Hwf [Hv Hnd] Hte Hbl Hin Hat (R & HR & HRin) Hoth Hold] Hf.
  destruct (update_node_spec (rt_cond st') q n f R o Hwf Hat Hf HR) as (a & Hrun & Hwf' & _ & Hat' & HR' & Hother).
  exists a. split; [done|]. split; cbn [set_dest rt_cond rt_conds rt_te]; try done.
  - split; [|done]. eapply Forall_impl; [exact Hv|]. intros q' [m Hm]. unfold ptr_valid.
    destruct (decide (q' = q)) as [->|Hne]; [by exists (f n)|]. rewrite Hother by done. by exists m.
  - by exists R.
  - intros b' m Hb. rewrite <- Hoth by done. unfold in_rules. cbn [set_dest rt_cond rt_conds].
    split; intros (q' & Hq' & Hm); exists q'; (split; [done|]); (assert (q' ≠ q) as Hne; [intros ->; by destruct Hb; eapply branch_unique|]);
      first [by rewrite Hother|by rewrite Hother in Hm].
  - intros m. rewrite Hold. unfold rest_rules. cbn [set_dest rt_cond rt_conds]. split; (intros [H|(q' & Hq' & Hne & Hm)]; [by left|right]);
      exists q'; (split; [done|]); (split; [done|]); first [by rewrite Hother|by rewrite Hother in Hm].
Qed.

(** A new rule, linked at [q] and pushed on the list. *)
Lemma placed_fresh b st a q n :
  lists_ok st → is_Some (rt_conds st !! b.1) → avtab_wf a → avtab_entries a ≡ₚ n :: avtab_entries (rt_cond st) →
  node_at a q = Some n → (∀ q', node_at a (shift_ptr q q') = node_at (rt_cond st) q') →
  placed b st (RuleTabs (rt_te st) a (push b q (shift_conds q (rt_conds st)))) q None n.
Proof.
  intros [Hv Hnd] Hb Hwf HR Hat Hshift. set (l := rt_conds st) in *.
  assert (is_Some (shift_conds q l !! b.1)) as Hb' by (unfold shift_conds; rewrite list_lookup_fmap; by apply fmap_is_Some).
  assert (∀ b', branch_of (push b q (shift_conds q l)) b' = if decide (b' = b) then q :: (shift_ptr q <$> branch_of l b) else shift_ptr q <$> branch_of l b') as Hbr.
  { intros b'. rewrite branch_of_push by done. by rewrite !branch_of_shift. }
  split; cbn [rt_te rt_cond rt_conds]; try done.
  - split; cbn [rt_cond rt_conds].
    + apply Forall_forall. intros q' Hq'. rewrite ptrs_push, ptrs_shift in Hq' by done. unfold ptr_valid.
      apply elem_of_cons in Hq' as [->|(q0 & -> & Hq0)%list_elem_of_fmap]; [by exists n|]. rewrite Hshift. rewrite Forall_forall in Hv. by apply Hv.
    + rewrite ptrs_push, ptrs_shift by done. apply NoDup_cons. split.
      * intros (q0 & E & _)%list_elem_of_fmap. symmetry in E. by apply shift_ptr_ne in E.
      * apply NoDup_fmap_2_strong; [intros ? ? _ _; apply shift_ptr_inj|done].
  - by rewrite heads_push, heads_shift_conds.
  - rewrite Hbr, decide_True by done. left.
  - exists (avtab_entries (rt_cond st)). done.
  - intros b' m Hne. unfold in_rules. cbn [rt_cond rt_conds]. rewrite Hbr, decide_False by done. split.
    + intros (q' & (q0 & -> & Hq0)%list_elem_of_fmap & Hm). exists q0. by rewrite Hshift in Hm.
    + intros (q0 & Hq0 & Hm). exists (shift_ptr q q0). split; [by apply list_elem_of_fmap_2|by rewrite Hshift].
  - intros m. unfold in_rules, rest_rules. cbn [rt_cond rt_conds]. rewrite Hbr, decide_True by done. split.
    + intros (q0 & Hq0 & Hm). right. exists (shift_ptr q q0). split; [right; by apply list_elem_of_fmap_2|].
      split; [apply shift_ptr_ne|by rewrite Hshift].
    + intros [?|(q' & [->|(q0 & -> & Hq0)%list_elem_of_fmap]%elem_of_cons & Hne & Hm)]; [done|done|]. exists q0. by rewrite Hshift in Hm.
Qed.

(** Every rule of the conditional table is of one kind. *)
Record cond_tab_ok (a : avtab) : Prop := {
  ca_wf : avtab_wf a;
  ca_kinds : ∀ n, n ∈ avtab_entries a → kind_of n ∈ kinds;
  ca_xperms : ∀ n, n ∈ avtab_entries a → truth (N.land (kind_of n) AVTAB_XPERMS) = true → is_Some (xperms (av_datum n)) }.

Lemma in_branch_run st key b t pre s nd o :
  av_htable (rt_cond st) = Some t → t !! N.to_nat (avtab_hash key (mask (rt_cond st))) = Some (pre ++ s) → rt_conds st !! b.1 = Some nd →
  in_branch st key b s o =
    Ret (bool_decide ((N.to_nat (avtab_hash key (mask (rt_cond st))), length pre) ∈ branch_of (rt_conds st) b)) o.
Proof.
  intros Ht Hc Hb. unfold in_branch. rewrite bind_run, (ptr_of_suffix _ _ t pre) by done.
  unfold branch_rules. rewrite bind_run, bind_run, Hb. cbn. unfold branch_of. rewrite Hb. by destruct b.2.
Qed.

(** The suffixes of a chain that start with a match, up to one that passes. *)
Lemma next_from_spec key test (g : list avtab_node → bool) pre0 d n0 s0 fuel o :
  av_sorted (pre0 ++ d) → d = n0 :: s0 → (length d ≤ fuel)%nat →
  let m n := key_match key (clear_enabled (specified key)) (av_key n) in
  m n0 = true → (∀ pre n s, pre0 ++ d = pre ++ n :: s → m n = true → test (n :: s) o = Ret (g (n :: s)) o) →
  ∃ r, next_where fuel (Some d) (specified key) test o = Ret r o ∧
    match r with
    | Some d' => ∃ pre n s, pre0 ++ d = pre ++ d' ∧ d' = n :: s ∧ m n = true ∧ g d' = true
    | None => True
    end.
Proof.
  intros Hs -> Hf m Hm Ht.
  destruct (next_where_spec key (specified key) (specified key) test g (n0 :: s0) fuel o) as (r & Hr & Hres); [|done|done| |].
  - apply StronglySorted_app in Hs. apply Hs.
  - intros pre n s E. apply (Ht (pre0 ++ pre)). by rewrite E, app_assoc.
  - cbn [find_suffix] in Hr. fold (m n0) in Hr. rewrite Hm in Hr. exists r. split; [done|]. destruct r as [d'|]; [|done].
    destruct Hres as (pre & n & s & E & -> & Hn & Hg). exists (pre0 ++ pre), n, s. by rewrite E, <- app_assoc.
Qed.

(** The search part of [find_avtab_node] for a branch. *)
Lemma search_branch_spec st b key xp o :
  cond_tab_ok (rt_cond st) → is_Some (rt_conds st !! b.1) → specified key ∈ kinds →
  (truth (N.land (specified key) AVTAB_XPERMS) = true → is_Some xp) →
  let a := rt_cond st in
  ∃ r, (node ← avtab_search_node (Some a) key;
        node ← (if truth (N.land (specified key) AVTAB_XPERMS)
                then next_where (length (avtab_entries a)) node (specified key) (same_xperms xp) else mret node);
        next_where (length (avtab_entries a)) node (specified key) (in_branch st key b)) o = Ret r o ∧
    match r with
    | Some d => ∃ t pre n s, av_htable a = Some t ∧ t !! N.to_nat (avtab_hash key (mask a)) = Some (pre ++ d) ∧ d = n :: s ∧
                  key_match key (clear_enabled (specified key)) (av_key n) = true ∧
                  (N.to_nat (avtab_hash key (mask a)), length pre) ∈ branch_of (rt_conds st) b
    | None => True
    end.
Proof.
  intros Ha [nd Hnd] Hk Hxp a. destruct (avtab_focus a key (ca_wf _ Ha)) as (t & c & Ht & Hc & Hs & _ & _).
  set (m := λ n, key_match key (clear_enabled (specified key)) (av_key n)).
  assert (length c ≤ length (avtab_entries a))%nat as Hlen.
  { unfold avtab_entries. rewrite Ht. destruct (concat_focus _ _ _ Hc) as (Q & HQ & _). cbn. rewrite HQ, length_app. lia. }
  assert (∃ r1, (node ← avtab_search_node (Some a) key;
            (if truth (N.land (specified key) AVTAB_XPERMS)
             then next_where (length (avtab_entries a)) node (specified key) (same_xperms xp) else mret node)) o = Ret r1 o ∧
          match r1 with Some d => ∃ pre n s, c = pre ++ d ∧ d = n :: s ∧ m n = true | None => True end) as (r1 & Hr1 & Hres1).
  { rewrite bind_run. unfold avtab_search_node. rewrite Ht, bind_run, Hc. cbn [deref]. unfold mret at 1, M_ret at 1. cbv beta iota.
    rewrite scan_find by done. fold m. destruct (truth _) eqn:Ex.
    - destruct Hxp as [e ->]; [done|].
      destruct (next_where_spec key (specified key) (specified key) (same_xperms (Some e))
        (λ d, match d with n :: _ => match xperms (av_datum n) with Some x => (xp_specified x =? ax_specified e) && (xp_driver x =? ax_driver e) | None => false end | [] => false end)
        c (length (avtab_entries a)) o Hs eq_refl Hlen) as (r & Hr & Hres).
      { intros pre n s -> Hm. assert (n ∈ avtab_entries a) as Hn by (eapply chain_entry; [done..|apply elem_of_app; right; left]).
        assert (kind_of n ∈ kinds) as Hkn by (by apply Ha). destruct key as [ks kt kc k]. cbn [specified] in *.
        apply match_ident in Hm as [_ Hkind]; [|done..]. destruct (ca_xperms _ Ha n Hn) as [x Hx]; [by rewrite Hkind|].
        rewrite (same_xperms_run e x) by done. by rewrite Hx. }
      exists r. split; [exact Hr|]. destruct r as [d|]; [|done]. destruct Hres as (pre & n & s & -> & -> & Hm & _). by exists pre, n, s.
    - exists (find_suffix m c). split; [done|]. destruct (find_suffix m c) as [d|] eqn:Efs; [|done].
      apply find_suffix_split in Efs as (pre & n & s & -> & -> & Hm & _). by exists pre, n, s. }
  rewrite bind_run in Hr1. rewrite bind_run. destruct (avtab_search_node (Some a) key o) as [node o0|]; [|done].
  rewrite bind_run, Hr1. destruct r1 as [d|]; [|exists None; split; [by destruct (length (avtab_entries a))|done]].
  destruct Hres1 as (pre0 & n0 & s0 & -> & -> & Hm0).
  destruct (next_from_spec key (in_branch st key b) (λ d, bool_decide ((N.to_nat (avtab_hash key (mask a)), (length (pre0 ++ n0 :: s0) - length d)%nat) ∈ branch_of (rt_conds st) b))
    pre0 (n0 :: s0) n0 s0 (length (avtab_entries a)) o) as (r & Hr & Hres); [done|done|rewrite length_app in Hlen; lia|done| |].
  { intros pre n s E Hm. rewrite E in Hc. rewrite (in_branch_run st key b t pre (n :: s) nd) by done.
    replace (length (pre0 ++ n0 :: s0) - length (n :: s))%nat with (length pre); [done|]. rewrite E, length_app. lia. }
  exists r. split; [done|]. destruct r as [d'|]; [|done]. destruct Hres as (pre & n & s & E & -> & Hm & Hg).
  exists t, pre, n, s. split; [done|]. split; [by rewrite E in Hc|]. split; [done|]. split; [done|].
  apply bool_decide_eq_true in Hg. rewrite E, length_app in Hg. replace (length pre + length (n :: s) - length (n :: s))%nat with (length pre) in Hg by lia. done.
Qed.

Lemma find_branch_spec st b key xp o :
  cond_tab_ok (rt_cond st) → lists_ok st → is_Some (rt_conds st !! b.1) → specified key ∈ kinds →
  (truth (N.land (specified key) AVTAB_XPERMS) = true → is_Some xp) →
  wp (find_avtab_node (Some b) key xp st) o (λ r o', (o = [] → o' = []) ∧
    ((r.1 = None ∧ o ≠ [] ∧ rt_te r.2 = rt_te st) ∨
     ∃ q st' old n, r = (Some q, st') ∧ placed b st st' q old n ∧ triple (av_key n) = triple key ∧ kind_of n = specified key ∧
       (old = Some n ∧ st' = st ∨ old = None ∧ n = fresh_node key))).
Proof.
  intros Ha Hl Hb Hk Hxp. destruct (search_branch_spec st b key xp o Ha Hb Hk Hxp) as (r & Hr & Hres).
  unfold find_avtab_node. cbn [dest]. unfold wp.
  rewrite bind_run in Hr. rewrite bind_run.
  destruct (avtab_search_node _ key o) as [node o0|]; [|done]. rewrite bind_run in Hr. rewrite bind_run.
  match type of Hr with match ?x with _ => _ end = _ => destruct x as [node1 o1|]; [|done] end. rewrite bind_run, Hr.
  destruct r as [d|].
  - destruct Hres as (t & pre & n & s & Ht & Hc & -> & Hm & Hin). rewrite bind_run, (ptr_of_suffix _ _ t pre) by done.
    cbn. split; [done|]. right. set (q := (_, _)) in *. assert (node_at (rt_cond st) q = Some n) as Hat.
    { apply node_at_slot. exists t, (pre ++ n :: s). split; [done|]. split; [done|]. cbn. by rewrite lookup_app_r, Nat.sub_diag by done. }
    exists q, st, (Some n), n. split; [done|]. split; [apply placed_there; by try apply Ha|].
    destruct key as [ks kt kc k]. apply match_ident in Hm as [E1 E2]; [by auto|done|]. apply Ha. by eapply node_at_listed.
  - change (wp (r ← avtab_insert_nonunique (Some (rt_cond st)) key (AvtabDatum 0 None);
      match r with
      | Some (a, c) => q ← ptr_of a key c;
          m ← malloc;
          if negb m then mret (None, RuleTabs (rt_te st) a (shift_conds q (rt_conds st))) else
          mret (Some q, RuleTabs (rt_te st) a (push b q (shift_conds q (rt_conds st))))
      | None => mret (None, st)
      end) o (λ r o', (o = [] → o' = []) ∧
      ((r.1 = None ∧ o ≠ [] ∧ rt_te r.2 = rt_te st) ∨
       ∃ q st' old n, r = (Some q, st') ∧ placed b st st' q old n ∧ triple (av_key n) = triple key ∧ kind_of n = specified key ∧
         (old = Some n ∧ st' = st ∨ old = None ∧ n = fresh_node key)))).
    wp_step. eapply wp_mono; [apply insert_nonunique_spec, Ha|]. intros r o' [Ho Hr']. cbv zeta in Hr'.
    destruct Hr' as [[-> Hne]|(a' & c & at_ & -> & Hwf & Hent & Hptr & Hnode & Hshift)]; [wp_step; auto|].
    wp_step. unfold wp at 1. rewrite Hptr. wp_step. wp_step. intros [] o2 Hm; cbn [negb]; wp_step.
    + split; [intros H; by apply Hm, Ho|]. right. eexists _, _, _, _. split; [done|]. split; [by apply placed_fresh|]. split; [done|].
      split; [apply (kinds_plain _ Hk)|]. by right.
    + split; [intros H; by apply Hm, Ho|]. left. split; [done|]. split; [|done]. intros H. by destruct (Hm (Ho H)).
Qed.

(** * The rules of a branch after an expansion *)

Definition branch_perm (st : rule_tabs) (b : branch) : cells := λ s t c k j,
  ∃ n, in_rules st b n ∧ ident n = plain_id s t c k ∧ N.testbit (data (av_datum n)) j = true.
Definition branch_type (st : rule_tabs) (b : branch) : cells := λ s t c k v,
  ∃ n, in_rules st b n ∧ ident n = plain_id s t c k ∧ data (av_datum n) = v.

Section branch.
Context (p : policydb) (b other : branch) (enabled : bool).

Record branch_ready (st : rule_tabs) : Prop := {
  br_te : tab_ok (rt_te st);
  br_te_data : data_named p (rt_te st);
  br_cond : cond_tab_ok (rt_cond st);
  br_cond_data : data_named p (rt_cond st);
  br_lists : lists_ok st;
  br_here : is_Some (rt_conds st !! b.1);
  br_other : is_Some (rt_conds st !! other.1) }.

(** The branch has grown by the effect, its new and changed rules are on or
    off as [enabled] says, and nothing else has changed.  A type rule may have
    been given another type that was asked for. *)
Record branch_applied (st st' : rule_tabs) (E : effect) : Prop := {
  ba_te : rt_te st' = rt_te st;
  ba_blocks : block_heads (rt_conds st') = block_heads (rt_conds st);
  ba_others : ∀ b' m, b' ≠ b → in_rules st' b' m ↔ in_rules st b' m;
  ba_bits : ∀ s t c k j, k ∈ or_kinds → branch_perm st' b s t c k j ↔ branch_perm st b s t c k j ∨ ef_bits E s t c k j;
  ba_keeps : ∀ s t c k v, k ∈ type_kinds → branch_type st b s t c k v → ∃ v', branch_type st' b s t c k v';
  ba_sets : ∀ s t c k v, ef_sets E s t c k v → k ∈ type_kinds ∧ ∃ v', branch_type st' b s t c k v';
  ba_only : ∀ s t c k v, k ∈ type_kinds → branch_type st' b s t c k v → branch_type st b s t c k v ∨ ef_wants E s t c k v;
  ba_flags : ∀ m, in_rules st' b m → in_rules st b m ∨ rule_enabled m = enabled }.

(** A type rule that is asked for, with an unconditional rule for its key, or
    one of another block, or one of this branch with another type. *)
Definition branch_conflict (st : rule_tabs) (W : cells) : Prop := ∃ s t c k v, W s t c k v ∧
  ((∃ v', has_type_rule (rt_te st) s t c k v') ∨
   ∃ q n, node_at (rt_cond st) q = Some n ∧ key_match (AvtabKey s t c k) (clear_enabled k) (av_key n) = true ∧
     (q ∉ branch_of (rt_conds st) other) ∧ (data (av_datum n) ≠ v ∨ q ∉ branch_of (rt_conds st) b)).

Definition branch_result (st : rule_tabs) (E : effect) (o : oracle) (r : Z * rule_tabs) (o' : oracle) : Prop :=
  (o = [] → o' = []) ∧ rt_te r.2 = rt_te st ∧
  (r.1 = EXPAND_RULE_SUCCESS → branch_ready r.2 ∧ branch_applied st r.2 E) ∧
  (r.1 ≠ EXPAND_RULE_SUCCESS → (r.1 = EXPAND_RULE_CONFLICT ∧ branch_conflict r.2 (ef_wants E)) ∨ (r.1 = EXPAND_RULE_ERROR ∧ o ≠ [])).

Lemma branch_applied_none st : branch_applied st st ef_none.
Proof. split; try done; cbn; [tauto|by eauto|by auto|by auto]. Qed.

Lemma branch_applied_trans st1 st2 st3 E1 E2 :
  branch_applied st1 st2 E1 → branch_applied st2 st3 E2 → branch_applied st1 st3 (ef_or E1 E2).
Proof.
  intros [T1 C1 O1 B1 K1 S1 Y1 F1] [T2 C2 O2 B2 K2 S2 Y2 F2]. split; [congruence|congruence|..].
  - intros b' m Hne. by rewrite O2, O1.
  - intros s t c k j Hk. rewrite B2, B1 by done. cbn. tauto.
  - intros s t c k v Hk H. destruct (K1 s t c k v Hk H) as [v1 H1]. by apply (K2 s t c k v1).
  - intros s t c k v [H|H]; [|by apply (S2 s t c k v)]. destruct (S1 s t c k v H) as [Hk [v1 H1]]. split; [done|]. by apply (K2 s t c k v1).
  - intros s t c k v Hk H. destruct (Y2 s t c k v Hk H) as [H2|H2]; [|by right; right].
    destruct (Y1 s t c k v Hk H2) as [H1|H1]; [by left|by right; left].
  - intros m Hm. destruct (F2 m Hm) as [H|H]; [|by right]. by apply F1.
Qed.

Lemma branch_applied_sub st st' E E' :
  (∀ s t c k v, ef_bits E s t c k v ↔ ef_bits E' s t c k v) → (∀ s t c k v, ef_sets E' s t c k v → ef_sets E s t c k v) →
  (∀ s t c k v, ef_wants E s t c k v → ef_wants E' s t c k v) → branch_applied st st' E → branch_applied st st' E'.
Proof.
  intros HB HS HW [T C O B K S Y F]. split; try done.
  - intros s t c k j Hk. by rewrite B, HB by done.
  - intros s t c k v H. by apply (S s t c k v), HS.
  - intros s t c k v Hk H. destruct (Y s t c k v Hk H); auto.
Qed.

Lemma branch_conflict_mono st (W W' : cells) :
  (∀ s t c k v, W s t c k v → W' s t c k v) → branch_conflict st W → branch_conflict st W'.
Proof. intros H (s & t & c & k & v & Hw & Hc). exists s, t, c, k, v. auto. Qed.

Lemma branch_result_sub st E E' o x o' :
  (∀ s t c k v, ef_bits E s t c k v ↔ ef_bits E' s t c k v) → (∀ s t c k v, ef_sets E' s t c k v → ef_sets E s t c k v) →
  (∀ s t c k v, ef_wants E s t c k v → ef_wants E' s t c k v) → branch_result st E o x o' → branch_result st E' o x o'.
Proof.
  intros HB HS HW (Ho & Ht & Hs & Hf). split; [done|]. split; [done|]. split.
  - intros Hx. destruct (Hs Hx) as [Hr Ha]. split; [done|]. by eapply branch_applied_sub.
  - intros Hx. destruct (Hf Hx) as [[? Hcf]|?]; [left|by right]. split; [done|]. by eapply branch_conflict_mono.
Qed.

Lemma branch_result_none st o : branch_ready st → branch_result st ef_none o (EXPAND_RULE_SUCCESS, st) o.
Proof. intros Hr. split; [done|]. split; [done|]. split; [|done]. intros _. split; [done|apply branch_applied_none]. Qed.

Lemma branch_result_fail st E o st' o' :
  rt_te st' = rt_te st → (o = [] → o' = []) → o ≠ [] → branch_result st E o (EXPAND_RULE_ERROR, st') o'.
Proof. intros Ht Ho Hne. split; [done|]. split; [done|]. split; [done|]. auto. Qed.

Lemma branch_result_prior st E o o1 x o' : (o = [] → o1 = []) → branch_result st E o1 x o' → branch_result st E o x o'.
Proof.
  intros H (Ho & Ht & Hs & Hf). split; [auto|]. split; [done|]. split; [done|]. intros Hx.
  destruct (Hf Hx) as [?|[? Hne]]; [by left|right]. auto.
Qed.

Lemma branch_result_after st st1 E1 E o o1 x o' :
  branch_result st E1 o (EXPAND_RULE_SUCCESS, st1) o1 → branch_result st1 E o1 x o' → branch_result st (ef_or E1 E) o x o'.
Proof.
  intros (Ho1 & Ht1 & Hs1 & _) (Ho2 & Ht2 & Hs2 & Hf2). cbn [fst snd] in *. destruct (Hs1 eq_refl) as [Hr1 Ha1].
  split; [auto|]. split; [congruence|]. split.
  - intros Hx. destruct (Hs2 Hx) as [Hr2 Ha2]. split; [done|]. by eapply branch_applied_trans.
  - intros Hx. destruct (Hf2 Hx) as [[? Hc]|[? Hne]]; [left|right; split; [done|intros Hnil; by apply Hne, Ho1]].
    split; [done|]. eapply branch_conflict_mono; [|exact Hc]. intros. cbn. by right.
Qed.

Lemma branch_result_weaken st E E' o x o' :
  x.1 ≠ EXPAND_RULE_SUCCESS → (∀ s t c k v, ef_wants E s t c k v → ef_wants E' s t c k v) → branch_result st E o x o' → branch_result st E' o x o'.
Proof.
  intros Hx HW (Ho & Ht & _ & Hf). split; [done|]. split; [done|]. split; [done|]. intros H.
  destruct (Hf H) as [[? Hcf]|?]; [left|by right]. split; [done|]. by eapply branch_conflict_mono.
Qed.

(** ** Writing one rule *)

(** Two rules for the same key and kind, if there was one. *)
Definition same_key (old : option avtab_node) (n : avtab_node) : Prop :=
  ∀ n0, old = Some n0 → triple (av_key n0) = triple (av_key n) ∧ kind_of n0 = kind_of n.

Lemma ident_plain n : truth (N.land (kind_of n) AVTAB_XPERMS) = false → ident n = (triple (av_key n), kind_of n, None).
Proof. intros H. unfold ident. by rewrite H. Qed.

Lemma placed_ready st st' q old n :
  branch_ready st → placed b st st' q old n → kind_of n ∈ kinds →
  (truth (N.land (kind_of n) AVTAB_XPERMS) = true → is_Some (xperms (av_datum n))) →
  (kind_of n ∈ type_kinds → type_named p (data (av_datum n))) → branch_ready st'.
Proof.
  intros [Hte Hted [Hwf Hk Hx] Hcd Hl Hb Ho] [Hwf' Hl' Hte' Hbl _ _ (R & HR & HRin) _ _] Hkn Hxn Hdn.
  assert (∀ i, is_Some (rt_conds st !! i) → is_Some (rt_conds st' !! i)) as Hlen.
  { intros i. apply (f_equal length) in Hbl. unfold block_heads in Hbl. rewrite !length_fmap in Hbl. rewrite !lookup_lt_is_Some. lia. }
  split; rewrite ?Hte'; auto.
  - split; [done|..]; intros m; rewrite HR; intros [->|Hm]%elem_of_cons; auto.
  - intros m k. rewrite HR. intros [->|Hm]%elem_of_cons Hkt Htr; [|by eapply Hcd; eauto].
    apply Hdn. pose proof (kind_match k n (proj1 (type_kinds_plain _ Hkt)) Hkn) as E.
    rewrite (proj1 (kinds_plain k (proj1 (type_kinds_plain _ Hkt)))), Htr in E. symmetry in E. apply bool_decide_eq_true in E. by rewrite E.
Qed.

(** The members of the branch before and after. *)
Lemma placed_rules st st' q old n m :
  placed b st st' q old n → (in_rules st' b m ↔ m = n ∨ rest_rules st' b q m) ∧ (in_rules st b m ↔ old = Some m ∨ rest_rules st' b q m).
Proof. intros H. split; [apply in_rules_rest; apply H|apply H]. Qed.

Lemma branch_wrote st st' q old n x :
  branch_ready st → placed b st st' q old n → kind_of n ∈ kinds →
  (truth (N.land (kind_of n) AVTAB_XPERMS) = true → is_Some (xperms (av_datum n))) → kind_of n ∉ type_kinds →
  same_key old n → rule_enabled n = enabled →
  (kind_of n ∈ or_kinds → data (av_datum n) = N.lor (match old with Some n0 => data (av_datum n0) | None => 0 end) x) →
  branch_ready st' ∧ branch_applied st st'
    (Effect (λ s t c k j, (s, t, c) = triple (av_key n) ∧ k = kind_of n ∧ k ∈ or_kinds ∧ N.testbit x j = true) (λ _ _ _ _ _, False) (λ _ _ _ _ _, False)).
Proof.
  intros Hr Hp Hk Hx Ht Hsame Hen Hor. split; [by eapply placed_ready|].
  assert (Forall (λ k, truth (N.land k AVTAB_XPERMS) = false) or_kinds) as Hplain by by_decide. rewrite Forall_forall in Hplain.
  assert (∀ m s t c k, rest_rules st' b q m → ident m = plain_id s t c k → in_rules st' b m ∧ in_rules st b m) as Hrest.
  { intros m s t c k Hm _. destruct (placed_rules _ _ _ _ _ m Hp) as [-> ->]. auto. }
  split; try apply Hp; cbn; try done.
  - intros s t c k j Hkk. split.
    + intros (m & Hm & Hid & Hj). apply (placed_rules _ _ _ _ _ m Hp) in Hm as [->|Hm]; [|left; exists m; split; [by eapply Hrest|done]].
      assert (kind_of n = k) as <- by (unfold ident, plain_id in Hid; congruence).
      rewrite ident_plain in Hid by auto. rewrite Hor, N.lor_spec, orb_true_iff in Hj by done.
      destruct Hj as [Hj|Hj]; [left|right; split; [unfold plain_id in Hid; congruence|done]].
      destruct old as [n0|]; [|by rewrite N.bits_0 in Hj]. exists n0. split; [by apply (placed_rules _ _ _ _ _ n0 Hp); left|]. split; [|done].
      destruct (Hsame n0 eq_refl) as [E1 E2]. rewrite ident_plain by (rewrite E2; auto). unfold plain_id in *. congruence.
    + intros [(m & Hm & Hid & Hj)|(E1 & -> & _ & Hj)].
      * apply (placed_rules _ _ _ _ _ m Hp) in Hm as [->|Hm]; [|exists m; split; [by eapply Hrest|done]].
        destruct (Hsame m eq_refl) as [E1 E2]. exists n. split; [apply (placed_rules _ _ _ _ _ n Hp); by left|].
        assert (kind_of n = k) as <- by (rewrite <- E2; unfold ident, plain_id in Hid; congruence). split.
        -- rewrite ident_plain in Hid |- * by (rewrite ?E2; auto). unfold plain_id in *. congruence.
        -- rewrite Hor, N.lor_spec, Hj by done. done.
      * exists n. split; [apply (placed_rules _ _ _ _ _ n Hp); by left|]. split; [rewrite ident_plain by auto; unfold plain_id; congruence|].
        rewrite Hor, N.lor_spec, Hj by done. apply orb_true_r.
  - intros s t c k v Hkt (m & Hm & Hid & Hd). exists v. apply (placed_rules _ _ _ _ _ m Hp) in Hm as [->|Hm]; [|exists m; split; [by eapply Hrest|done]].
    exfalso. apply Ht. destruct (Hsame m eq_refl) as [_ <-]. unfold ident, plain_id in Hid. congruence.
  - intros s t c k v Hkt (m & Hm & Hid & Hd). left. apply (placed_rules _ _ _ _ _ m Hp) in Hm as [->|Hm]; [|exists m; split; [by eapply Hrest|done]].
    exfalso. apply Ht. unfold ident, plain_id in Hid. congruence.
  - intros m Hm. apply (placed_rules _ _ _ _ _ m Hp) in Hm as [->|Hm]; [by right|left]. apply (placed_rules _ _ _ _ _ m Hp). by right.
Qed.

(** A type rule. *)
Lemma branch_wrote_type st st' q old n :
  branch_ready st → placed b st st' q old n → kind_of n ∈ type_kinds → type_named p (data (av_datum n)) →
  same_key old n → rule_enabled n = enabled →
  let W : cells := λ s t c k v, (s, t, c) = triple (av_key n) ∧ k = kind_of n ∧ v = data (av_datum n) in
  branch_ready st' ∧ branch_applied st st' (Effect (λ _ _ _ _ _, False) W W).
Proof.
  intros Hr Hp Ht Hn Hsame Hen W. destruct (type_kinds_plain _ Ht) as [Hk Hplain]. split; [eapply placed_ready; [done..|congruence|done]|].
  assert (∀ m, rest_rules st' b q m → in_rules st' b m ∧ in_rules st b m) as Hrest.
  { intros m Hm. destruct (placed_rules _ _ _ _ _ m Hp) as [-> ->]. auto. }
  assert (∀ s t c k, k ∈ or_kinds → ident n ≠ plain_id s t c k) as Hnor.
  { intros s t c k Hkk Hid. assert (Forall (.∉ type_kinds) or_kinds) as H by by_decide. rewrite Forall_forall in H. apply (H k Hkk).
    unfold ident, plain_id in Hid. congruence. }
  assert (∀ n0, old = Some n0 → ident n0 = ident n) as Hid.
  { intros n0 E. destruct (Hsame n0 E) as [E1 E2]. rewrite (ident_plain n0) by (rewrite E2; done). rewrite ident_plain by done. congruence. }
  assert (branch_type st' b (source_type (av_key n)) (target_type (av_key n)) (target_class (av_key n)) (kind_of n) (data (av_datum n))) as Hset.
  { exists n. split; [apply (placed_rules _ _ _ _ _ n Hp); by left|]. split; [by rewrite ident_plain|done]. }
  split; try apply Hp; cbn.
  - intros s t c k j Hkk. split.
    + intros (m & Hm & Hi & Hj). apply (placed_rules _ _ _ _ _ m Hp) in Hm as [->|Hm]; [by destruct (Hnor s t c k)|]. left. exists m. split; [by apply Hrest|done].
    + intros [(m & Hm & Hi & Hj)|?]; [|done]. apply (placed_rules _ _ _ _ _ m Hp) in Hm as [->|Hm]; [|exists m; split; [by apply Hrest|done]].
      rewrite (Hid m eq_refl) in Hi. by destruct (Hnor s t c k).
  - intros s t c k v Hkt (m & Hm & Hi & Hd). apply (placed_rules _ _ _ _ _ m Hp) in Hm as [->|Hm]; [|exists v, m; split; [by apply Hrest|done]].
    rewrite (Hid m eq_refl) in Hi. exists (data (av_datum n)), n. split; [apply (placed_rules _ _ _ _ _ n Hp); by left|done].
  - intros s t c k v (E1 & -> & ->). split; [done|]. injection E1 as -> -> ->. by eexists.
  - intros s t c k v Hkt (m & Hm & Hi & Hd). apply (placed_rules _ _ _ _ _ m Hp) in Hm as [->|Hm]; [right|left; exists m; split; [by apply Hrest|done]].
    rewrite ident_plain in Hi by done. unfold W, plain_id in *. split; [congruence|]. split; congruence.
  - intros m Hm. apply (placed_rules _ _ _ _ _ m Hp) in Hm as [->|Hm]; [by right|left; by apply Hrest].
Qed.

Lemma enabled_mark x n : rule_enabled (mark x n) = x.
Proof.
  unfold rule_enabled, mark. cbn [av_key specified]. destruct x.
  - rewrite N.lor_spec. apply orb_true_r.
  - rewrite N.ldiff_spec. apply andb_false_r.
Qed.

(** The effect of writing a rule is that of a class of the source rule. *)
Lemma wrote_class st st' q old n x spec i j cur :
  branch_ready st → placed b st st' q old n → triple (av_key n) = (i + 1, j + 1, cp_tclass cur) → kind_of n = spec → spec ∈ kinds →
  (truth (N.land spec AVTAB_XPERMS) = true → is_Some (xperms (av_datum n))) → spec ∉ type_kinds → same_key old n → rule_enabled n = enabled →
  (spec ∈ or_kinds → x = cp_data cur ∧ data (av_datum n) = N.lor (match old with Some n0 => data (av_datum n0) | None => 0 end) x) →
  branch_ready st' ∧ branch_applied st st' (class_effect spec i j cur).
Proof.
  intros Hr Hp Htr <- Hk Hx Ht Hsame Hen Hor.
  destruct (branch_wrote st st' q old n x) as [H1 H2]; try done; [by intros H; apply Hor|]. split; [done|].
  eapply branch_applied_sub; [| | |exact H2]; cbn; [|done|done]. intros s t c k v. rewrite Htr. split.
  - intros ([= -> -> ->] & -> & Hk' & Hv). split; [done|]. split; [done|]. destruct (Hor Hk') as [<- _]. done.
  - intros ((-> & -> & ->) & Hk' & -> & Hv). split; [done|]. split; [done|]. split; [done|]. by destruct (Hor Hk') as [-> _].
Qed.

Lemma branch_av_step sp spec i j xp cur st o :
  branch_ready st → (sp, spec) ∈ av_rules → i + 1 < 2 ^ 16 → j + 1 < 2 ^ 16 → small_class cur →
  wp (expand_av_class spec sp (Some b) i j enabled xp cur st) o (step_outcome branch_result st (class_effect spec i j cur) o).
Proof.
  intros Hr Hsp Hi Hj Hc. destruct (av_rules_merge _ _ Hsp) as (Hk & Hplain & Ht & Hm).
  destruct (class_numbers i j cur Hi Hj Hc) as (Ei & Ej & Ec). unfold expand_av_class. rewrite Ei, Ej, Ec. wp_step.
  eapply wp_mono; [apply find_branch_spec; [apply Hr|apply Hr|apply Hr|done|cbn; congruence]|].
  intros [q st1] o1 [Ho [(Hq & Hne & Hte)|(q' & st2 & old & n & [= -> ->] & Hp & Htr & Hkind & Hold)]]; cbn [fst snd] in *.
  { subst q. wp_step. split; [done|]. by apply branch_result_fail. }
  cbn [specified] in Hkind. destruct (placed_update b _ _ _ _ _ (mark enabled) o1 Hp eq_refl) as (a1 & Hrun & Hp1).
  cbn [dest]. wp_step. unfold wp at 1. rewrite Hrun. wp_step. apply wp_deref. exists (mark enabled n). split; [apply Hp1|].
  change (data (av_datum (mark enabled n))) with (data (av_datum n)). destruct (Hm (data (av_datum n)) (cp_data cur)) as [[x Hx] Hor]. rewrite Hx.
  destruct (placed_update b _ _ _ _ _ (put_data x) o1 Hp1 eq_refl) as (a2 & Hrun2 & Hp2). cbn [set_dest rt_cond] in Hrun2, Hp2.
  wp_step. unfold wp at 1. rewrite Hrun2. wp_step. split; [done|]. cbn [fst snd]. split; [apply Hp2|]. split; [intros _|done].
  eapply (wrote_class _ _ _ _ _ (cp_data cur)); [done|exact Hp2|exact Htr| |done|congruence|done| |apply (enabled_mark enabled n)|].
  - change (kind_of (mark enabled n) = spec). by rewrite kind_mark.
  - intros n0 E. change (triple (av_key n0) = triple (av_key n) ∧ kind_of n0 = kind_of (mark enabled n)). rewrite kind_mark.
    destruct Hold as [[-> _]|[-> _]]; [split; congruence|done].
  - intros Hk'. split; [done|]. specialize (Hor Hk'). rewrite Hor in Hx. injection Hx as <-. cbn.
    destruct Hold as [[-> _]|[-> ->]]; [done|]. cbn. unfold stored_datum. cbn [specified]. by rewrite Hplain.
Qed.

Lemma branch_xperm_step sp i j xp cur st o :
  branch_ready st → sp ∈ xperm_rules → i + 1 < 2 ^ 16 → j + 1 < 2 ^ 16 → small_class cur →
  wp (expand_av_class sp sp (Some b) i j enabled (Some xp) cur st) o (step_outcome branch_result st (class_effect sp i j cur) o).
Proof.
  intros Hr Hsp Hi Hj Hc. destruct (xperm_rules_facts _ Hsp) as (Hk & Hx & Ht & Hor & Hspx & Hm).
  destruct (class_numbers i j cur Hi Hj Hc) as (Ei & Ej & Ec). unfold expand_av_class. rewrite Ei, Ej, Ec. wp_step.
  eapply wp_mono; [apply find_branch_spec; [apply Hr|apply Hr|apply Hr|done|done]|].
  intros [q st1] o1 [Ho [(Hq & Hne & Hte)|(q' & st2 & old & n & [= -> ->] & Hp & Htr & Hkind & Hold)]]; cbn [fst snd] in *.
  { subst q. wp_step. split; [done|]. by apply branch_result_fail. }
  cbn [specified] in Hkind. destruct (placed_update b _ _ _ _ _ (mark enabled) o1 Hp eq_refl) as (a1 & Hrun & Hp1).
  cbn [dest]. wp_step. unfold wp at 1. rewrite Hrun. wp_step. apply wp_deref. exists (mark enabled n). split; [apply Hp1|]. rewrite Hm, Hspx. cbn [negb].
  assert (is_Some (xperms (av_datum n))) as [y Hy].
  { destruct Hold as [[-> ->]|[_ ->]]; [|unfold fresh_node, stored_datum; cbn [specified]; rewrite Hx; by eexists].
    apply (ca_xperms _ (br_cond _ Hr)); [eapply node_at_listed, Hp|by rewrite Hkind]. }
  change (xperms (av_datum (mark enabled n))) with (xperms (av_datum n)). rewrite Hy. cbn [default]. wp_step. wp_step. cbn [negb].
  wp_step. apply wp_deref. exists xp. split; [done|]. change (Datatypes.id y) with y.
  destruct (placed_update b _ _ _ _ _ (put_xperms (merge_xperms xp y)) o1 Hp1 eq_refl) as (a2 & Hrun2 & Hp2). cbn [set_dest rt_cond] in Hrun2, Hp2.
  wp_step. unfold wp at 1. rewrite Hrun2. wp_step. split; [done|]. cbn [fst snd]. split; [apply Hp2|]. split; [intros _|done].
  eapply (wrote_class _ _ _ _ _ 0); [done|exact Hp2|exact Htr| |done|by intros _; eexists|done| |apply (enabled_mark enabled n)|done].
  - change (kind_of (mark enabled n) = sp). by rewrite kind_mark.
  - intros n0 E. change (triple (av_key n0) = triple (av_key n) ∧ kind_of n0 = kind_of (mark enabled n)). rewrite kind_mark.
    destruct Hold as [[-> _]|[-> _]]; [split; congruence|done].
Qed.

(** ** Type rules *)

(** The first rule of the conditional table for a key, and where it is. *)
Lemma search_place_spec st key o :
  avtab_wf (rt_cond st) →
  ∃ r, avtab_search_node (Some (rt_cond st)) key o = Ret r o ∧
    match r with
    | Some d => ∃ q n rest, d = n :: rest ∧ node_at (rt_cond st) q = Some n ∧ key_match key (clear_enabled (specified key)) (av_key n) = true ∧
                  ∀ b o, is_Some (rt_conds st !! b.1) → in_branch st key b d o = Ret (bool_decide (q ∈ branch_of (rt_conds st) b)) o
    | None => True
    end.
Proof.
  intros Hwf. destruct (avtab_focus (rt_cond st) key Hwf) as (t & c & Ht & Hc & Hs & _ & _).
  exists (find_suffix (λ n, key_match key (clear_enabled (specified key)) (av_key n)) c). split.
  { unfold avtab_search_node. rewrite Ht, bind_run, Hc. cbn [deref]. unfold mret, M_ret. cbv beta iota. by rewrite scan_find. }
  destruct (find_suffix _ c) as [d|] eqn:E; [|done]. apply find_suffix_split in E as (pre & n & rest & -> & -> & Hm & _).
  exists (N.to_nat (avtab_hash key (mask (rt_cond st))), length pre), n, rest. split; [done|]. split; [|split; [done|]].
  - apply node_at_slot. exists t, (pre ++ n :: rest). split; [done|]. split; [done|]. cbn. by rewrite lookup_app_r, Nat.sub_diag by done.
  - intros b0 o0 [nd Hnd]. by apply (in_branch_run _ _ _ t pre (n :: rest) nd).
Qed.

Lemma branch_te_done spec i j cur v st q n typemap o o' :
  branch_ready st → spec ∈ type_kinds → new_type typemap (cp_data cur) = Some v → (o = [] → o' = []) →
  q ∈ branch_of (rt_conds st) b → node_at (rt_cond st) q = Some n → triple (av_key n) = (i + 1, j + 1, cp_tclass cur) → kind_of n = spec →
  branch_result st (te_effect typemap spec i j [cur]) o (EXPAND_RULE_SUCCESS, st) o'.
Proof.
  intros Hr Hk Hv Ho Hq Hn Htr Hkind. split; [done|]. split; [done|]. split; [|done]. intros _. split; [done|].
  split; try done; cbn; [tauto|by eauto| |by auto|by auto]. intros s t c k w ((-> & -> & ->) & cur' & ->%list_elem_of_singleton & -> & Hw). split; [done|].
  exists (data (av_datum n)), n. split; [by exists q|]. split; [|done]. rewrite ident_plain by (rewrite Hkind; by apply type_kinds_plain).
  unfold plain_id. congruence.
Qed.

Lemma branch_te_write typemap spec i j cur v st o :
  branch_ready st → spec ∈ type_kinds → new_type typemap (cp_data cur) = Some v → type_named p v →
  let key := AvtabKey (i + 1) (j + 1) (cp_tclass cur) spec in
  wp ('(q, st) ← find_avtab_node (Some b) key None st;
      match q with
      | None => mret (inl ((-1)%Z, st))
      | Some q => a ← update_node (dest (Some b) st) q (λ n, put_data v (mark enabled n)); mret (inr (set_dest (Some b) st a))
      end) o (λ r o',
    match r with
    | inl x => branch_result st (te_effect typemap spec i j [cur]) o x o'
    | inr st' => branch_result st (te_effect typemap spec i j [cur]) o (EXPAND_RULE_SUCCESS, st') o'
    end).
Proof.
  intros Hr Hk Hv Hvn key. destruct (type_kinds_plain _ Hk) as [Hkk Hplain]. wp_step.
  eapply wp_mono; [apply find_branch_spec; [apply Hr|apply Hr|apply Hr|done|cbn; congruence]|].
  intros [q st1] o1 [Ho [(Hq & Hne & Hte)|(q' & st2 & old & n & [= -> ->] & Hp & Htr & Hkind & Hold)]]; cbn [fst snd] in *.
  { subst q. wp_step. by apply branch_result_fail. }
  cbn [specified key] in Hkind. destruct (placed_update b _ _ _ _ _ (λ n, put_data v (mark enabled n)) o1 Hp eq_refl) as (a1 & Hrun & Hp1).
  cbn [dest]. wp_step. unfold wp at 1. rewrite Hrun. wp_step. set (n1 := put_data v (mark enabled n)) in *.
  assert (kind_of n1 = spec) as Hkn by (change (kind_of (mark enabled n) = spec); by rewrite kind_mark).
  split; [done|]. cbn [fst snd]. split; [apply Hp1|]. split; [intros _|done].
  destruct (branch_wrote_type st _ q' old n1 Hr Hp1) as [H1 H2].
  - by rewrite Hkn.
  - done.
  - intros n0 E. rewrite Hkn. change (triple (av_key n1)) with (triple (av_key n)). destruct Hold as [[-> _]|[-> _]]; [split; congruence|done].
  - apply (enabled_mark enabled n).
  - split; [done|]. eapply branch_applied_sub; [| | |exact H2]; cbn; [done|..].
    + intros s t c k w ((-> & -> & ->) & cur' & ->%list_elem_of_singleton & -> & Hw). rewrite Hkn. split; [exact (eq_sym Htr)|]. split; [done|congruence].
    + intros s t c k w (E & -> & ->). assert ((s, t, c) = (i + 1, j + 1, cp_tclass cur)) as [= -> -> ->] by (etrans; [exact E|exact Htr]).
      rewrite Hkn. split; [done|]. exists cur. split; [left|done].
Qed.

Lemma branch_te_step typemap spec i j cur st v o :
  branch_ready st → spec ∈ type_kinds → type_named p (i + 1) → type_named p (j + 1) → tclass_named p (cp_tclass cur) →
  new_type typemap (cp_data cur) = Some v → type_named p v →
  wp (expand_te_class p typemap spec (Some b) (Some other) i j enabled cur st) o (λ r o',
    match r with
    | inl x => branch_result st (te_effect typemap spec i j [cur]) o x o'
    | inr st' => branch_result st (te_effect typemap spec i j [cur]) o (EXPAND_RULE_SUCCESS, st') o'
    end).
Proof.
  intros Hr Hk Hi Hj Hcl Hv Hvn. destruct (type_kinds_plain _ Hk) as [Hkk Hplain].
  destruct (class_numbers i j cur) as (Ei & Ej & Ec); [apply Hi|apply Hj|apply Hcl|].
  unfold expand_te_class. wp_step. unfold wp at 1.
  replace (match typemap with Some m => deref (m !! N.to_nat (dec32 (cp_data cur))) | None => mret (cp_data cur) end o) with (Ret v o).
  2: { unfold new_type in Hv. destruct typemap as [m|]; [by rewrite Hv|by injection Hv as ->]. }
  rewrite Ei, Ej, Ec. set (key := AvtabKey (i + 1) (j + 1) (cp_tclass cur) spec). wp_step. unfold te_conflict. wp_step.
  assert (te_wants typemap spec i j [cur] (i + 1) (j + 1) (cp_tclass cur) spec v) as Hw.
  { split; [done|]. exists cur. split; [left|done]. }
  destruct (search_plain_spec (rt_te st) (i + 1) (j + 1) (cp_tclass cur) spec o (br_te _ Hr) Hkk Hplain) as (r & Hsr & Hres). fold key in Hsr.
  unfold wp at 1. rewrite Hsr. destruct r as [d|].
  { destruct Hres as (n & rest & -> & Hn). wp_step. change (truth 1) with true. cbv iota. wp_step. apply wp_deref. eexists. split; [done|].
    wp_step. apply wp_deref. exists n. split; [done|]. assert (type_named p (data (av_datum n))) as Hold.
    { apply tab_lookup in Hn as [Hn Hid]; [|apply Hr]. apply (br_te_data _ Hr n spec); [done|done|].
      apply (kind_of_type (rt_te st)); [apply Hr|done|done|]. unfold ident, plain_id in Hid. congruence. }
    assert (branch_result st (te_effect typemap spec i j [cur]) o (EXPAND_RULE_CONFLICT, st) o) as Hcf.
    { split; [done|]. split; [done|]. split; [done|]. intros _. left. split; [done|]. eexists _, _, _, _, _. split; [exact Hw|]. left. eexists. by exists n. }
    destruct (data (av_datum n) =? v).
    - wp_step. change (1 =? 1) with true. cbv iota. wp_step. change (negb (bool_decide (is_Some (Some b)))) with false. cbv iota. wp_step.
      unfold wp at 1. rewrite conflict_names_run by done. by wp_step.
    - wp_step. unfold wp at 1. rewrite conflict_names_run; [|done..|by intros ? [= <-]]. by wp_step. }
  wp_step. destruct (search_place_spec st key o (ca_wf _ (br_cond _ Hr))) as (r & Hsc & Hresc). unfold wp at 1. rewrite Hsc. destruct r as [d|].
  2: { wp_step. change (truth 0) with false. cbv iota. by apply branch_te_write. }
  destruct Hresc as (q & n & rest & -> & Hn & Hm & Hin). wp_step. unfold wp at 1. rewrite Hin by apply Hr. wp_step.
  case_bool_decide as Hother.
  { change (truth 0) with false. cbv iota. by apply branch_te_write. }
  change (truth 2) with true. cbv iota. wp_step. apply wp_deref. eexists. split; [done|]. wp_step. apply wp_deref. exists n. split; [done|].
  pose proof (node_at_listed _ _ _ Hn) as Hent. pose proof (ca_kinds _ (br_cond _ Hr) n Hent) as Hkn.
  pose proof (proj1 (match_ident _ _ _ _ _ Hkk Hkn) Hm) as [Htr Hkind].
  assert (type_named p (data (av_datum n))) as Hold.
  { apply (br_cond_data _ Hr n spec); [done|done|]. unfold key_match in Hm. cbn [specified key] in Hm. rewrite (proj1 (kinds_plain spec Hkk)) in Hm. by reflect_bools. }
  assert (data (av_datum n) ≠ v ∨ q ∉ branch_of (rt_conds st) b → branch_result st (te_effect typemap spec i j [cur]) o (EXPAND_RULE_CONFLICT, st) o) as Hcf.
  { intros Hd. split; [done|]. split; [done|]. split; [done|]. intros _. left. split; [done|]. eexists _, _, _, _, _. split; [exact Hw|]. right. by exists q, n. }
  destruct (N.eqb_spec (data (av_datum n)) v) as [Heq|Hne].
  - wp_step. change (2 =? 1) with false. cbv iota. unfold wp at 1. rewrite Hin by apply Hr. case_bool_decide as Hhere; wp_step.
    + by eapply branch_te_done.
    + unfold wp at 1. rewrite conflict_names_run by done. wp_step. auto.
  - wp_step. unfold wp at 1. rewrite conflict_names_run; [|done..|by intros ? [= <-]]. wp_step. auto.
Qed.

#[global] Instance branch_expands : Expands p (Some b) (Some other) enabled branch_ready branch_result.
Proof.
  split.
  - intros st E E' o x o' (H1 & H2 & H3). apply branch_result_sub; [done|..]; intros; [by apply H2|by apply H3].
  - exact branch_result_none.
  - intros st E o st' o' H. by apply H.
  - intros. by apply branch_result_fail.
  - exact branch_result_prior.
  - intros. by eapply branch_result_after.
  - exact branch_result_weaken.
  - exact branch_result_sub.
  - intros. by apply branch_av_step.
  - intros. by apply branch_xperm_step.
  - intros. by eapply branch_te_step.
Qed.
End branch.

(** * The rules of one branch *)

(** What a list of rules of a module asks for. *)
Definition rules_effect (p : policydb) (typemap : list N) (rules : list avrule) : effect := ef_ex (.∈ rules) (source_effect p typemap).

Lemma list_copy_outcome `{HX : Expands p (Some b) (Some other) on ready R} disable typemap rules st o :
  dest_ready p → ready st → (∀ r, r ∈ rules → source_ready p typemap r) →
  wp (cond_avrule_list_copy disable p typemap rules b other on st) o (λ x o',
    (x.1 = 0%Z ∧ R st (rules_effect p typemap rules) o (EXPAND_RULE_SUCCESS, x.2) o') ∨
    (x.1 = (-1)%Z ∧ ∃ rc, rc ≠ EXPAND_RULE_SUCCESS ∧ R st (rules_effect p typemap rules) o (rc, x.2) o')).
Proof.
  intros Hp Hst Hrules. unfold cond_avrule_list_copy. wp_step.
  apply (wp_for_list (λ dn st' o', R st (rules_effect p typemap dn) o (EXPAND_RULE_SUCCESS, st') o')).
  - eapply ex_proper; [symmetry; apply ef_ex_nil|]. by apply ex_none.
  - intros dn r rest st1 o1 Hsplit Hd. assert (r ∈ rules) as Hr by (rewrite Hsplit; apply elem_of_app; right; left).
    wp_step. eapply wp_mono; [apply convert_outcome; [done|by eapply ex_ready|by apply Hrules]|]. intros [rc st2] o2 H2. wp_step.
    pose proof (ex_after _ _ _ _ _ _ _ _ Hd H2) as H12. destruct (Z.eqb_spec rc EXPAND_RULE_SUCCESS) as [->|Hne].
    + eapply ex_proper; [|exact H12]. symmetry. apply ef_ex_snoc.
    + wp_step. right. split; [done|]. exists rc. split; [done|]. eapply ex_weaken; [done| |exact H12].
      intros s t c k v [(r' & Hr' & Hw)|Hw]; [exists r'|by exists r]. split; [|done]. rewrite Hsplit. apply elem_of_app. by left.
  - intros st1 o1 H. wp_step. by left.
Qed.

Lemma branch_rules_spec disable p typemap rules b other on st o :
  dest_ready p → branch_ready p b other st → (∀ r, r ∈ rules → source_ready p typemap r) →
  wp (cond_avrule_list_copy disable p typemap rules b other on st) o (λ x o',
    (o = [] → o' = []) ∧ rt_te x.2 = rt_te st ∧
    (x.1 = 0%Z → branch_ready p b other x.2 ∧ branch_applied b on st x.2 (rules_effect p typemap rules)) ∧
    (x.1 ≠ 0%Z → o ≠ [] ∨ branch_conflict b other x.2 (ef_wants (rules_effect p typemap rules)))).
Proof.
  intros Hp Hst Hrules. eapply wp_mono; [by apply list_copy_outcome|]. intros [rc st'] o' Hx. cbn [fst snd] in *.
  destruct Hx as [(-> & Ho & Hte & Hs & _)|(-> & rc' & Hne & Ho & Hte & _ & Hf)]; cbn [fst snd] in *; (split; [done|]); (split; [done|]).
  - split; [auto|done].
  - split; [done|]. intros _. destruct (Hf Hne) as [[_ ?]|[_ ?]]; auto.
Qed.


(** * Examples *)

(** The new policy: two types, their attribute and two booleans; in the module
    the types have each other's numbers. *)
Definition ex_target : policydb := set_bools ex_attr_policy [Some (CondBoolDatum 1 1 0); Some (CondBoolDatum 2 0 0)] ex_avtab [].
Definition ex_typemap : list N := [2; 1; 3].
Definition ex_member (word : N) : type_set := TypeSet (EBitmap [EBNode 0 word] 64) ebitmap_init 0.
Definition ex_allow : avrule := AvRule AVRULE_ALLOWED 0 (ex_member 4) (ex_member 1) [ClassPerm 1 5] None.
Definition ex_transition : avrule := AvRule AVRULE_TRANSITION 0 (ex_member 1) (ex_member 2) [ClassPerm 1 1] None.

Lemma ex_target_dest : dest_ready ex_target.
Proof. destruct ex_types_wf as [H1 H2 H3]. split; [by split|done|done]. Qed.

Lemma ex_set_ready set :
  ebitmap_wf (ts_types set) ∧ Forall (λ i, ebitmap_bit (ts_types set) i = true → i < 3) (ebitmap_positions (ts_types set)) →
  ebitmap_wf (ts_negset set) ∧ Forall (λ i, ebitmap_bit (ts_negset set) i = true → i < 3) (ebitmap_positions (ts_negset set)) →
  set_ready ex_target ex_typemap set.
Proof.
  intros [H1 B1] [H2 B2].
  assert (∀ e x, mapped e ex_typemap x → x < 3) as Hb.
  { intros e x (i & _ & Hx%list_elem_of_lookup_2). assert (Forall (λ m, 0 < m ≤ 3) ex_typemap) as H by by_decide.
    rewrite Forall_forall in H. specialize (H _ Hx). lia. }
  split.
  - split; [done|]. split; [by apply bits_all|by_decide].
  - split; [done|]. split; [by apply bits_all|by_decide].
  - intros x Hx%Hb. assert (x = 0 ∨ x = 1 ∨ x = 2) as [->|[-> | ->]] by lia; by eexists.
  - intros x Hx. exact (Hb _ _ Hx).
Qed.

Lemma ex_allow_ready : source_ready ex_target ex_typemap ex_allow.
Proof.
  split; [right|apply ex_set_ready; by_decide..]. split; [left; by_decide| |intros H; exfalso; revert H; by_decide|intros H; exfalso; revert H; by_decide].
  intros cur ->%list_elem_of_singleton. by_decide.
Qed.
Lemma ex_transition_ready : source_ready ex_target ex_typemap ex_transition.
Proof.
  split; [right|apply ex_set_ready; by_decide..]. split; [right; by_decide| |intros H; exfalso; revert H; by_decide|].
  - intros cur ->%list_elem_of_singleton. by_decide.
  - intros _ cur ->%list_elem_of_singleton. exists 2. split; [done|by_decide].
Qed.

(** Empty tables and one block. *)
Definition ex_empty : avtab := Avtab (Some [[]]) 0 1 0.
Definition ex_tabs : rule_tabs := RuleTabs ex_empty ex_empty [CondNode 1 (rpn ex_bexp) [] [] 0 0 0 (replicate 5 0) 0 0].

Lemma ex_empty_wf : avtab_wf ex_empty.
Proof. split; [|done|done]. exists [[]]. split; [done|]. split; [done|]. intros [|i] c H; [|done]. injection H as <-. by split; constructor. Qed.

Lemma ex_tabs_ready x : branch_ready ex_target (0%nat, x) (0%nat, negb x) ex_tabs.
Proof.
  split; try by eexists.
  - split; [apply ex_empty_wf|by intros n ?%elem_of_nil..|constructor].
  - by intros n k ?%elem_of_nil.
  - split; [apply ex_empty_wf|by intros n ?%elem_of_nil..].
  - by intros n k ?%elem_of_nil.
  - by split; constructor.
Qed.


(** The numbers are those of the new policy; the attribute is kept. *)
Example branch_rules_run :
  match cond_avrule_list_copy false ex_target ex_typemap [ex_allow; ex_transition] (0%nat, true) (0%nat, false) true ex_tabs [] with
  | Ret (_, st) _ => (λ n, (av_key n, data (av_datum n), rule_enabled n)) <$> avtab_entries (rt_cond st)
  | UB => []
  end = [(AvtabKey 2 1 1 (N.lor AVTAB_ENABLED AVTAB_TRANSITION), 2, true); (AvtabKey 3 2 1 (N.lor AVTAB_ENABLED AVTAB_ALLOWED), 5, true)].
Proof. vm_compute. reflexivity. Qed.
