(* ===== verification/ExpandBlocks.v ===== *)
(** The blocks of rules of a module, expanded into the kernel policy: the rules
    of libsepol/src/expand.c that are copied ([copy_role_allows],
    [copy_role_trans], [expand_filename_trans], [expand_range_trans],
    [copy_neverallow]), the conditional blocks ([cond_node_copy]), and
    [copy_and_expand_avrule_block], which goes through the declarations; also
    [discard_tunables], which turns tunables into plain rules before.

    The rules of one declaration and its conditional blocks go to the tables
    of [ExpandRules]. *)

From stdpp Require Import sorting gmap.
From S2P Require Import Prelude.
From S2P Require Import Ebitmap.
From S2P Require Import Hashtab.
From S2P Require Import MlsTypes.
From S2P Require Import Avtab.
From S2P Require Import Policydb.
From S2P Require Import Mls.
From S2P Require Import Context.
From S2P Require Import Conditional.
From S2P Require Import Services.
From S2P Require Import Expand.
From S2P Require Import Assertion.
From S2P Require Import PolicyIO.
From S2P Require Import SymbolIO.
From S2P Require Import ModuleIO.
From S2P Require Import PolicyIndex.
From S2P Require Import CondIO.
From S2P Require Import PolicydbIO.
From S2P Require Import ExpandRules.
From S2P Require Import ExpandEffects.
Local Open Scope N_scope.

Definition MAX_AVTAB_SIZE : N := N.shiftl MAX_AVTAB_HASH_BUCKETS 1.
Definition COND_NODE_FLAGS_TUNABLE : N := 1.
Definition COND_BOOL_FLAGS_TUNABLE : N := 1.

(** The policies of [expand_state_t].  The file name rules, the rules for later
    checks ([global->branch_list->avrules]) and [unsupported_format] are fields
    of [out] that [policydb] leaves out.  [es_unnamed]: the head of the file
    name rules is a rule without a name, which stays when [strdup] fails; the
    expansion ends there. *)
Record expand_state := ExpandState {
  es_base : policydb; es_out : policydb; es_filename_trans : list filename_trans; es_unnamed : bool;
  es_neverallow : list avrule; es_unsupported : bool }.

Definition with_out (st : expand_state) (p : policydb) : expand_state :=
  ExpandState (es_base st) p (es_filename_trans st) (es_unnamed st) (es_neverallow st) (es_unsupported st).
Definition with_filename_trans (st : expand_state) (l : list filename_trans) (unnamed : bool) : expand_state :=
  ExpandState (es_base st) (es_out st) l unnamed (es_neverallow st) (es_unsupported st).

Definition set_te (p : policydb) (a : avtab) : policydb :=
  set_rules p a (te_cond_avtab p) (cond_list p) (role_tr p) (role_allows p).
Definition set_cond (p : policydb) (a : avtab) : policydb :=
  set_rules p (te_avtab p) a (cond_list p) (role_tr p) (role_allows p).
Definition set_role_allows (p : policydb) (l : list role_allow) : policydb :=
  set_rules p (te_avtab p) (te_cond_avtab p) (cond_list p) (role_tr p) l.
Definition set_role_tr (p : policydb) (l : list role_trans) : policydb :=
  set_rules p (te_avtab p) (te_cond_avtab p) (cond_list p) l (role_allows p).
Definition set_range_tr (p : policydb) (l : list range_trans) : policydb :=
  set_ranges p l (AttrMaps (attr_type_map p) (type_attr_map p)).
Definition set_role_count (p : policydb) (n : N) : policydb :=
  with_roles p (Symtab (table (p_roles p)) n) (role_val_to_struct p) (p_users p) (user_val_to_struct p).

Definition tabs_of (p : policydb) : rule_tabs := RuleTabs (te_avtab p) (te_cond_avtab p) (cond_list p).
Definition set_tabs (p : policydb) (t : rule_tabs) : policydb :=
  set_rules p (rt_te t) (rt_cond t) (rt_conds t) (role_tr p) (role_allows p).

(** The loops leave with [-1] and the state, or go on. *)
Definition step : Type := expand_state + expand_state.
Definition loop_rc (r : step) : Z * expand_state :=
  match r with inl st => ((-1)%Z, st) | inr st => (0%Z, st) end.
(** [if (call) return -1;] *)
Definition or_stop {A} (m : M (Z * A)) : M (A + A) :=
  '(rc, st) ← m; mret (if (rc =? 0)%Z then inr st else inl st).

Definition each_bit (e : ebitmap) (body : N → expand_state → M step) (st : expand_state) : M step :=
  ebitmap_for_each_bit e st (λ i bit st, if negb bit then mret (inr st) else body i st).

Section state.
Context (disable_dontaudit expand_neverallow : bool) (typemap boolmap rolemap : list N).

(** * Role rules *)

Definition expand_roles_of (x : role_set) (st : expand_state) : M (Z * ebitmap * expand_state) :=
  '(rc, r, n) ← role_set_expand x (es_out st) (Some (es_base st)) (Some rolemap);
  mret (rc, r, with_out st (set_role_count (es_out st) n)).

Definition allow_pair (i j : N) (st : expand_state) : M step :=
  let out := es_out st in
  if existsb (λ a, (ra_role a =? u32 (i + 1)) && (ra_new_role a =? u32 (j + 1))) (role_allows out) then mret (inr st) else
  b ← malloc;
  if negb b then mret (inl st) else
  mret (inr (with_out st (set_role_allows out (role_allows out ++ [RoleAllow (u32 (i + 1)) (u32 (j + 1))])))).

Definition copy_role_allow (cur : role_allow_rule) (st : expand_state) : M step :=
  '(rc, roles, st) ← expand_roles_of (rar_roles cur) st;
  if negb (rc =? 0)%Z then mret (inl st) else
  '(rc, new_roles, st) ← expand_roles_of (rar_new_roles cur) st;
  if negb (rc =? 0)%Z then mret (inl st) else
  each_bit roles (λ i, each_bit new_roles (allow_pair i)) st.

Definition copy_role_allows (rules : list role_allow_rule) (st : expand_state) : M (Z * expand_state) :=
  r ← for_list copy_role_allow rules st; mret (loop_rc r).

(** The loop over the role transitions there are: a rule for the same key has
    the same new role ([Some true]) or another ([Some false]). *)
Fixpoint find_role_trans (p : policydb) (new_role i j k : N) (l : list role_trans) : M (option bool) :=
  match l with
  | [] => mret None
  | t :: l' =>
      mapped_role ← deref (rolemap !! N.to_nat (dec32 new_role));
      if (rt_role t =? u32 (i + 1)) && (rt_type t =? u32 (j + 1)) && (rt_tclass t =? u32 (k + 1)) then
        if rt_new_role t =? mapped_role then mret (Some true) else
        _ ← deref (p_role_val_to_name p !! N.to_nat i);
        _ ← deref (p_type_val_to_name p !! N.to_nat j);
        _ ← deref (p_class_val_to_name p !! N.to_nat k);
        _ ← deref (p_role_val_to_name p !! N.to_nat (dec32 mapped_role));
        _ ← deref (p_role_val_to_name p !! N.to_nat (dec32 (rt_new_role t)));
        mret (Some false)
      else find_role_trans p new_role i j k l'
  end.

Definition role_trans_triple (new_role i j k : N) (st : expand_state) : M step :=
  let out := es_out st in
  cur_trans ← find_role_trans out new_role i j k (role_tr out);
  match cur_trans with
  | Some same => mret (if (same : bool) then inr st else inl st)
  | None =>
      b ← malloc;
      if negb b then mret (inl st) else
      mapped_role ← deref (rolemap !! N.to_nat (dec32 new_role));
      mret (inr (with_out st (set_role_tr out
        (role_tr out ++ [RoleTrans (u32 (i + 1)) (u32 (j + 1)) (u32 (k + 1)) mapped_role]))))
  end.

Definition copy_role_tran (cur : ModuleIO.role_trans_rule) (st : expand_state) : M step :=
  '(rc, roles, st) ← expand_roles_of (rtr_roles cur) st;
  if negb (rc =? 0)%Z then mret (inl st) else
  '(rc, types) ← expand_convert_type_set (es_out st) typemap (rtr_types cur) true;
  if negb (rc =? 0)%Z then mret (inl st) else
  each_bit roles (λ i, each_bit types (λ j, each_bit (rtr_classes cur) (role_trans_triple (rtr_new_role cur) i j))) st.

Definition copy_role_trans (rules : list ModuleIO.role_trans_rule) (st : expand_state) : M (Z * expand_state) :=
  r ← for_list copy_role_tran rules st; mret (loop_rc r).

(** * Transitions by file name *)

Definition filename_key (i j tclass : N) (name : string) (t : filename_trans) : bool :=
  (ft_stype t =? u32 (i + 1)) && (ft_ttype t =? u32 (j + 1)) && (ft_tclass t =? tclass) && bool_decide (ft_name t = name).

Definition filename_trans_pair (cur_rule : filename_trans_rule) (mapped_otype i j : N) (st : expand_state) : M step :=
  let out := es_out st in
  match List.find (filename_key i j (ftr_tclass cur_rule) (ftr_name cur_rule)) (es_filename_trans st) with
  | Some cur_trans =>
      if ft_otype cur_trans =? mapped_otype then mret (inr st) else
      _ ← deref (p_type_val_to_name out !! N.to_nat i);
      _ ← deref (p_type_val_to_name out !! N.to_nat j);
      _ ← deref (p_class_val_to_name out !! N.to_nat (dec32 (ft_tclass cur_trans)));
      _ ← deref (p_type_val_to_name out !! N.to_nat (dec32 (ft_otype cur_trans)));
      _ ← deref (p_type_val_to_name out !! N.to_nat (dec32 mapped_otype));
      mret (inl st)
  | None =>
      b ← malloc;
      if negb b then mret (inl st) else
      b ← malloc;
      if negb b then mret (inl (with_filename_trans st (es_filename_trans st) true)) else
      mret (inr (with_filename_trans st
        (FilenameTrans (u32 (i + 1)) (u32 (j + 1)) (ftr_tclass cur_rule) (ftr_name cur_rule) mapped_otype ::
         es_filename_trans st) (es_unnamed st)))
  end.

Definition expand_filename_tran (cur_rule : filename_trans_rule) (st : expand_state) : M step :=
  '(rc, stypes) ← expand_convert_type_set (es_out st) typemap (ftr_stypes cur_rule) true;
  if negb (rc =? 0)%Z then mret (inl st) else
  '(rc, ttypes) ← expand_convert_type_set (es_out st) typemap (ftr_ttypes cur_rule) true;
  if negb (rc =? 0)%Z then mret (inl st) else
  mapped_otype ← deref (typemap !! N.to_nat (dec32 (ftr_otype cur_rule)));
  each_bit stypes (λ i, each_bit ttypes (filename_trans_pair cur_rule mapped_otype i)) st.

Definition expand_filename_trans (rules : list filename_trans_rule) (st : expand_state) : M (Z * expand_state) :=
  r ← for_list expand_filename_tran rules st; mret (loop_rc r).

(** * Range transitions *)

Definition range_key (stype ttype tclass : N) (t : range_trans) : bool :=
  (rtr_source_type t =? stype) && (rtr_target_type t =? ttype) && (rtr_target_class t =? tclass).

(** [mls_range_destroy] of a range that was not filled in frees wild pointers. *)
Definition exp_rangetr_helper (stype ttype tclass : N) (trange : mls_semantic_range) (st : expand_state)
    : M (Z * expand_state) :=
  let out := es_out st in
  '(rc, levels, _) ← mls_semantic_range_expand (SemSource trange false) out;
  match levels with
  | (Some l0, Some l1) =>
      if negb (rc =? 0)%Z then mret ((-1)%Z, st) else
      match List.find (range_key stype ttype tclass) (range_tr out) with
      | Some check_rt =>
          if mls_range_eq (rtr_target_range check_rt) (MlsRange l0 l1) then mret (0%Z, st) else
          _ ← deref (p_type_val_to_name out !! N.to_nat (dec32 stype));
          _ ← deref (p_type_val_to_name out !! N.to_nat (dec32 ttype));
          _ ← deref (p_class_val_to_name out !! N.to_nat (dec32 tclass));
          mret ((-1)%Z, st)
      | None =>
          b ← malloc;
          if negb b then mret ((-1)%Z, st) else
          '(rc, r) ← mls_range_cpy mls_range_init (MlsRange l0 l1);
          let st := with_out st (set_range_tr out (RangeTrans stype ttype tclass r :: range_tr out)) in
          mret (if (rc =? 0)%Z then 0%Z else (-1)%Z, st)
      end
  | _ => ub
  end.

Definition expand_range_tran (rule : range_trans_rule) (st : expand_state) : M step :=
  '(rc, stypes) ← expand_convert_type_set (es_out st) typemap (rtrr_stypes rule) true;
  if negb (rc =? 0)%Z then mret (inl st) else
  '(rc, ttypes) ← expand_convert_type_set (es_out st) typemap (rtrr_ttypes rule) true;
  if negb (rc =? 0)%Z then mret (inl st) else
  each_bit stypes (λ i, each_bit ttypes (λ j, each_bit (rtrr_tclasses rule) (λ k st,
    or_stop (exp_rangetr_helper (u32 (i + 1)) (u32 (j + 1)) (u32 (k + 1)) (rtrr_trange rule) st)))) st.

Definition expand_range_trans (rules : list range_trans_rule) (st : expand_state) : M (Z * expand_state) :=
  r ← for_list expand_range_tran rules st; mret (loop_rc r).

(** * Rules for later checks *)

(** One permission node of the copy each. *)
Fixpoint copy_perms (l : list class_perm_node) : M bool :=
  match l with
  | [] => mret true
  | cur_perm :: l' =>
      b ← malloc;
      if negb b then mret false else
      _ ← assert (truth (cp_tclass cur_perm));
      copy_perms l'
  end.

(** The line and file name of a rule, which the copy has too, are left out. *)
Definition copy_neverallow (source_rule : avrule) (st : expand_state) : M (Z * expand_state) :=
  '(rc, stypes) ← expand_convert_type_set (es_out st) typemap (ar_stypes source_rule) true;
  if negb (rc =? 0)%Z then mret ((-1)%Z, st) else
  '(rc, ttypes) ← expand_convert_type_set (es_out st) typemap (ar_ttypes source_rule) true;
  if negb (rc =? 0)%Z then mret ((-1)%Z, st) else
  b ← malloc;
  if negb b then mret ((-1)%Z, st) else
  '(rc, stypes) ← ebitmap_cpy stypes;
  if negb (rc =? 0)%Z then mret ((-1)%Z, st) else
  '(rc, ttypes) ← ebitmap_cpy ttypes;
  if negb (rc =? 0)%Z then mret ((-1)%Z, st) else
  b ← copy_perms (ar_perms source_rule);
  if negb b then mret ((-1)%Z, st) else
  b ← match ar_xperms source_rule with Some _ => malloc | None => mret true end;
  if negb b then mret ((-1)%Z, st) else
  let avrule := AvRule (ar_specified source_rule) (ar_flags source_rule) (TypeSet stypes ebitmap_init 0)
                  (TypeSet ttypes ebitmap_init 0) (ar_perms source_rule) (ar_xperms source_rule) in
  mret (0%Z, ExpandState (es_base st) (es_out st) (es_filename_trans st) (es_unnamed st)
               (avrule :: es_neverallow st) (es_unsupported st)).

(** * Conditional blocks *)

(** The node of a module with its rule lists at the addresses 1 and 2. *)
Definition node_of (cn : mod_cond) : cond_node :=
  CondNode (mc_state cn) (mc_exprs cn) [] [] 1 2 0 (replicate 5 0) 0 (mc_flags cn).
Definition rules_at (cn : mod_cond) (addr : N) : list avrule := if addr =? 1 then mc_true cn else mc_false cn.

Fixpoint map_exprs (l : list cond_expr) : M (list cond_expr) :=
  match l with
  | [] => mret []
  | cur :: l' =>
      cur ← (if truth (cexpr_bool cur) then b ← deref (boolmap !! N.to_nat (dec32 (cexpr_bool cur)));
                                            mret (CondExpr (cexpr_type cur) b)
             else mret cur);
      l' ← map_exprs l'; mret (cur :: l')
  end.

Fixpoint map_ids (l : list N) : M (list N) :=
  match l with
  | [] => mret []
  | b :: l' => b ← deref (boolmap !! N.to_nat (dec32 b)); l' ← map_ids l'; mret (b :: l')
  end.

Definition cond_node_map_bools (out : policydb) (cn : cond_node) : M (Z * policydb * cond_node) :=
  exprs ← map_exprs (cond_exprs cn);
  let n := N.to_nat (N.min (nbools cn) COND_MAX_BOOLS) in
  ids ← map_ids (take n (bool_ids cn));
  '(rc, out, cn) ← cond_normalize_expr out
    (CondNode (cur_state cn) exprs (true_list cn) (false_list cn) (avtrue_list cn) (avfalse_list cn) (nbools cn)
       (ids ++ drop n (bool_ids cn)) (expr_pre_comp cn) (cond_flags cn));
  mret (if (rc =? 0)%Z then 0%Z else (-1)%Z, out, cn).

(** Where [cond_node_search] finds the node, or puts it. *)
Definition node_place (l : list cond_node) (cn : cond_node) : nat :=
  match list_find (λ n, cond_expr_equal (Some cn) (Some n) = true) l with Some (i, _) => i | None => 0 end.

Definition cond_copy (cn : mod_cond) (st : expand_state) : M step :=
  if truth (N.land (mc_flags cn) COND_NODE_FLAGS_TUNABLE) then mret (inr st) else
  '(rc, base, n) ← cond_normalize_expr (es_base st) (node_of cn);
  let st := ExpandState base (es_out st) (es_filename_trans st) (es_unnamed st) (es_neverallow st) (es_unsupported st) in
  if negb (rc =? 0)%Z then mret (inl st) else
  tmp ← cond_node_create base (Some n);
  match tmp with
  | None => mret (inl st)
  | Some tmp =>
      '(rc, out, tmp) ← cond_node_map_bools (es_out st) tmp;
      if negb (rc =? 0)%Z then mret (inl (with_out st out)) else
      let place := node_place (cond_list out) tmp in
      '(new_cond, out) ← cond_node_search out (cond_list out) (Some tmp);
      match new_cond with
      | None => mret (inl (with_out st out))
      | Some new_cond =>
          let enabled := negb (cur_state new_cond =? 0)%Z in
          '(rc, t) ← cond_avrule_list_copy disable_dontaudit out typemap (rules_at cn (avtrue_list n))
                       (place, true) (place, false) enabled (tabs_of out);
          let out := set_tabs out t in
          if negb (rc =? 0)%Z then mret (inl (with_out st out)) else
          '(rc, t) ← cond_avrule_list_copy disable_dontaudit out typemap (rules_at cn (avfalse_list n))
                       (place, false) (place, true) (negb enabled) (tabs_of out);
          let st := with_out st (set_tabs out t) in
          mret (if (rc =? 0)%Z then inr st else inl st)
      end
  end.

(** The nodes in reverse order. *)
Definition cond_node_copy (l : list mod_cond) (st : expand_state) : M (Z * expand_state) :=
  r ← for_list cond_copy (reverse l) st; mret (loop_rc r).

(** * Blocks *)

Definition set_unsupported (st : expand_state) : expand_state :=
  ExpandState (es_base st) (es_out st) (es_filename_trans st) (es_unnamed st) (es_neverallow st) true.

(** A failure of [copy_neverallow] is only reported. *)
Definition expand_decl_rule (cur_avrule : avrule) (st : expand_state) : M step :=
  let never := truth (N.land (ar_specified cur_avrule) (N.lor AVRULE_NEVERALLOW AVRULE_XPERMS_NEVERALLOW)) in
  if negb expand_neverallow && never then '(_, st) ← copy_neverallow cur_avrule st; mret (inr st) else
  let st := if never then set_unsupported st else st in
  '(rc, t) ← convert_and_expand_rule disable_dontaudit (es_out st) typemap cur_avrule None None false expand_neverallow
               (tabs_of (es_out st));
  let st := with_out st (set_tabs (es_out st) t) in
  mret (if (rc =? EXPAND_RULE_SUCCESS)%Z then inr st else inl st).

(** [and_then]: the rest of the calls of a declaration. *)
Definition and_then (m : M step) (k : expand_state → M step) : M step :=
  r ← m; match r with inl st => mret (inl st) | inr st => k st end.

Definition expand_decl (decl : avrule_decl) (st : expand_state) : M step :=
  and_then (or_stop (copy_role_allows (role_allow_rules decl) st)) (λ st,
  and_then (or_stop (copy_role_trans (role_tr_rules decl) st)) (λ st,
  and_then (or_stop (expand_filename_trans (filename_trans_rules decl) st)) (λ st,
  and_then (or_stop (expand_range_trans (range_tr_rules decl) st)) (λ st,
  and_then (for_list expand_decl_rule (decl_avrules decl) st) (λ st,
  or_stop (cond_node_copy (decl_conds decl) st)))))).

(** The block of rules that is on, if any. *)
Definition expand_block (b : avrule_block) (st : expand_state) : M step :=
  match enabled b with
  | None => mret (inr st)
  | Some i => decl ← deref (branch_list b !! i); expand_decl decl st
  end.

Definition copy_and_expand_avrule_block (blocks : list avrule_block) (st : expand_state) : M (Z * expand_state) :=
  let out := es_out st in
  '(rc, a) ← avtab_alloc (te_avtab out) MAX_AVTAB_SIZE;
  let st := with_out st (set_te out a) in
  if negb (rc =? 0)%Z then mret ((-1)%Z, st) else
  let out := es_out st in
  '(rc, a) ← avtab_alloc (te_cond_avtab out) MAX_AVTAB_SIZE;
  let st := with_out st (set_cond out a) in
  if negb (rc =? 0)%Z then mret ((-1)%Z, st) else
  r ← for_list expand_block blocks st; mret (loop_rc r).
End state.

(** * Tunables *)

(** The variables of an expression: the booleans are counted, the tunables
    kept in an array of [COND_EXPR_MAXDEPTH] pointers. *)
Fixpoint count_variables (bools : list (option cond_bool_datum)) (l : list cond_expr) (booleans : N) (tmp : list N)
    : M (N * list N) :=
  match l with
  | [] => mret (booleans, tmp)
  | cur_expr :: l' =>
      if negb (cexpr_type cur_expr =? COND_BOOL) then count_variables bools l' booleans tmp else
      booldatum ← at_ptr bools (dec32 (cexpr_bool cur_expr));
      if truth (N.land (bool_flags booldatum) COND_BOOL_FLAGS_TUNABLE) then
        if (length tmp <? COND_EXPR_MAXDEPTH)%nat
        then count_variables bools l' booleans (tmp ++ [dec32 (cexpr_bool cur_expr)]) else ub
      else count_variables bools l' (booleans + 1) tmp
  end.

Definition clear_tunable (d : cond_bool_datum) : cond_bool_datum :=
  CondBoolDatum (bool_value d) (state d) (N.ldiff (bool_flags d) COND_BOOL_FLAGS_TUNABLE).
Definition clear_tunables (tmp : list N) (bools : list (option cond_bool_datum)) : list (option cond_bool_datum) :=
  foldl (λ l i, alter (fmap clear_tunable) (N.to_nat i) l) bools tmp.

Definition with_flags (cn : mod_cond) (f : N) : mod_cond := ModCond (mc_state cn) (mc_exprs cn) (mc_true cn) (mc_false cn) f.

(** One conditional block: the block, the rules of its declaration and the
    booleans after it. *)
Definition discard_tunable (preserve_tunables : bool) (cur_node : mod_cond) (avrules : list avrule)
    (bools : list (option cond_bool_datum)) : M (mod_cond * list avrule * list (option cond_bool_datum)) :=
  '(booleans, tmp) ← count_variables bools (mc_exprs cur_node) 0 [];
  _ ← (if preserve_tunables then mret tt else assert (negb (truth booleans && match tmp with [] => false | _ => true end)));
  if truth booleans || preserve_tunables then
    mret (with_flags cur_node (N.ldiff (mc_flags cur_node) COND_NODE_FLAGS_TUNABLE), avrules, clear_tunables tmp bools)
  else
    let cur_node := with_flags cur_node (N.lor (mc_flags cur_node) COND_NODE_FLAGS_TUNABLE) in
    cur_state ← cond_eval_loop (load_bool bools) (mc_exprs cur_node) [];
    if (cur_state =? -1)%Z then mret (cur_node, avrules, bools) else
    if (cur_state =? 1)%Z
    then mret (ModCond (mc_state cur_node) (mc_exprs cur_node) [] (mc_false cur_node) (mc_flags cur_node),
               avrules ++ mc_true cur_node, bools)
    else mret (ModCond (mc_state cur_node) (mc_exprs cur_node) (mc_true cur_node) [] (mc_flags cur_node),
               avrules ++ mc_false cur_node, bools).

Fixpoint discard_in_decl (preserve_tunables : bool) (l : list mod_cond) (avrules : list avrule)
    (bools : list (option cond_bool_datum)) : M (list mod_cond * list avrule * list (option cond_bool_datum)) :=
  match l with
  | [] => mret ([], avrules, bools)
  | cur_node :: l' =>
      '(cur_node, avrules, bools) ← discard_tunable preserve_tunables cur_node avrules bools;
      '(l', avrules, bools) ← discard_in_decl preserve_tunables l' avrules bools;
      mret (cur_node :: l', avrules, bools)
  end.

Definition with_rules (d : avrule_decl) (conds : list mod_cond) (rules : list avrule) : avrule_decl :=
  AvruleDecl (decl_id d) (decl_enabled d) conds rules (role_tr_rules d) (role_allow_rules d) (filename_trans_rules d)
    (range_tr_rules d) (required d) (declared d) (decl_symtab d).

Definition discard_in_block (preserve_tunables : bool) (b : avrule_block) (bools : list (option cond_bool_datum))
    : M (avrule_block * list (option cond_bool_datum)) :=
  match enabled b with
  | None => mret (b, bools)
  | Some i =>
      decl ← deref (branch_list b !! i);
      if decl_enabled decl =? 0 then mret (b, bools) else
      '(conds, rules, bools) ← discard_in_decl preserve_tunables (decl_conds decl) (decl_avrules decl) bools;
      mret (AvruleBlock (<[i := with_rules decl conds rules]> (branch_list b)) (enabled b) (block_flags b), bools)
  end.

Fixpoint discard_tunables (preserve_tunables : bool) (blocks : list avrule_block) (bools : list (option cond_bool_datum))
    : M (list avrule_block * list (option cond_bool_datum)) :=
  match blocks with
  | [] => mret ([], bools)
  | b :: blocks' =>
      '(b, bools) ← discard_in_block preserve_tunables b bools;
      '(blocks', bools) ← discard_tunables preserve_tunables blocks' bools;
      mret (b :: blocks', bools)
  end.
