(* ===== verification/ExpandConds.v ===== *)
(** The conditional blocks of a module, expanded: [cond_node_copy].

    A block is normalised, its booleans are renamed and the result normalised
    again, and its rules go to the branches of the block of the new policy that
    has the same expression.  The state of every block of the new policy is the
    value of its expression, and its rules are on or off accordingly: what
    [evaluate_conds] relies on and keeps. *)

From stdpp Require Import sorting gmap.
From S2P Require Import Prelude.
From S2P Require Import Ebitmap.
From S2P Require Import Hashtab.
From S2P Require Import MlsTypes.
From S2P Require Import Avtab.
From S2P Require Import Policydb.
From S2P Require Import Mls.
From S2P Require Import Context.
From S2P Require Import Conditional.
From S2P Require Import Services.
From S2P Require Import Expand.
From S2P Require Import Assertion.
From S2P Require Import PolicyIO.
From S2P Require Import SymbolIO.
From S2P Require Import ModuleIO.
From S2P Require Import PolicyIndex.
From S2P Require Import CondIO.
From S2P Require Import PolicydbIO.
From S2P Require Import ExpandRules.
From S2P Require Import ExpandEffects.
From S2P Require Import ExpandCond.
From S2P Require Import ExpandBlocks.
Local Open Scope N_scope.

(** * Normal forms *)

Lemma find_bools_members exprs ids n ids' n' x :
  length ids = 5%nat → find_bools exprs ids n = (ids', n') →
  x ∈ take (N.to_nat (N.min n' COND_MAX_BOOLS)) ids' → x ∈ take (N.to_nat (N.min n COND_MAX_BOOLS)) ids ∨ x ∈ expr_bools exprs.
Proof.
  revert ids n. induction exprs as [|e l IH]; intros ids n Hlen H Hx; cbn [find_bools] in H; [injection H as <- <-; by left|].
  rewrite expr_bools_cons.
  destruct (cexpr_type e =? COND_BOOL); [|by eapply IH].
  destruct (bool_present _ _ _); [destruct (IH _ _ Hlen H Hx); [by left|right; by right]|].
  destruct (N.ltb_spec n COND_MAX_BOOLS) as [Hn|Hn].
  - destruct (IH (<[N.to_nat n := cexpr_bool e]> ids) (n + 1)) as [H1|H1]; [by rewrite length_insert|done|done| |right; by right].
    assert (N.min (n + 1) COND_MAX_BOOLS = n + 1) as E1 by lia. rewrite E1 in H1. rewrite N.min_l by lia.
    unfold COND_MAX_BOOLS in Hn. rewrite N2Nat.inj_add, Nat.add_comm in H1. change (N.to_nat 1) with 1%nat in H1. cbn [Nat.add] in H1.
    rewrite (take_S_r _ _ (cexpr_bool e)) in H1 by (rewrite list_lookup_insert_eq by lia; done).
    rewrite take_insert_ge in H1 by lia. apply elem_of_app in H1 as [H1|H1]; [by left|right; apply list_elem_of_singleton in H1 as ->; left].
  - destruct (IH ids (n + 1) Hlen H Hx) as [H1|H1]; [left|right; by right]. rewrite !N.min_r in * by lia. done.
Qed.

Definition ends_not (l : list cond_expr) : bool :=
  match reverse l with e :: _ => cexpr_type e =? COND_NOT | [] => false end.

Lemma ends_not_rpn e : ends_not (rpn e) = is_not e.
Proof. unfold ends_not. by destruct (rpn_reverse e) as (x & l & -> & -> & _). Qed.

(** What success leaves in the fields that [cond_normalize_correct] is silent
    on. *)
Lemma normalize_fields p cn o p' cn' o' :
  cond_normalize_expr p cn o = Ret (0%Z, p', cn') o' →
  avtrue_list cn' = (if ends_not (cond_exprs cn) then avfalse_list cn else avtrue_list cn) ∧
  avfalse_list cn' = (if ends_not (cond_exprs cn) then avtrue_list cn else avfalse_list cn) ∧
  find_bools (cond_exprs cn') (replicate 5 0) 0 = (bool_ids cn', nbools cn').
Proof.
  unfold cond_normalize_expr, ends_not. destruct (reverse (cond_exprs cn)) as [|e rev_ne]; [done|].
  destruct ((cexpr_type e =? COND_NOT) && _) eqn:E0; [done|].
  destruct (find_bools _ _ _) as [ids n] eqn:Ef. destruct (n <=? COND_MAX_BOOLS).
  - rewrite bind_run. destruct (load_bools _ _ o) as [orig o1|]; [|done]. rewrite bind_run.
    destruct (for_up _ _ _ _ o1) as [[[bools comp]|[bools comp]] o2|]; [done| |done]. rewrite bind_run.
    destruct (store_bools _ _ _ o2) as [bools' o3|]; [|done]. intros [= _ <- _]. destruct (cexpr_type e =? COND_NOT); done.
  - intros [= _ <- _]. destruct (cexpr_type e =? COND_NOT); done.
Qed.

(** * Booleans renamed *)

Fixpoint rename (f : N → N) (e : bexp) : bexp :=
  match e with BVar b => BVar (f b) | BNot e => BNot (rename f e) | BBin op e1 e2 => BBin op (rename f e1) (rename f e2) end.

Lemma rename_vars f e : bvars (rename f e) = f <$> bvars e.
Proof. induction e as [b|e IH|op e1 IH1 e2 IH2]; cbn; [done|done|]. by rewrite IH1, IH2, fmap_app. Qed.
Lemma rename_depth f e : stack_depth (rename f e) = stack_depth e.
Proof. induction e as [b|e IH|op e1 IH1 e2 IH2]; cbn; [done|done|]. by rewrite IH1, IH2. Qed.

Section state.
Context (disable_dontaudit : bool) (typemap boolmap : list N).

(** The boolean of the new policy. *)
Definition new_bool (v : N) : N := default 0 (boolmap !! N.to_nat (dec32 v)).
Definition bool_mapped (v : N) : Prop := v ≠ 0 ∧ is_Some (boolmap !! N.to_nat (dec32 v)).

Definition map_expr (x : cond_expr) : cond_expr :=
  if truth (cexpr_bool x) then CondExpr (cexpr_type x) (new_bool (cexpr_bool x)) else x.

Lemma map_exprs_run l o :
  Forall (λ x, truth (cexpr_bool x) = true → bool_mapped (cexpr_bool x)) l → map_exprs boolmap l o = Ret (map_expr <$> l) o.
Proof.
  induction 1 as [|x l Hx _ IH]; [done|]. cbn [map_exprs fmap list_fmap]. unfold map_expr at 1. rewrite bind_run.
  destruct (truth (cexpr_bool x)) eqn:E.
  - destruct (Hx eq_refl) as [_ [b Hb]]. rewrite bind_run, Hb. cbn [deref]. unfold mret at 1 2, M_ret at 1 2. rewrite bind_run, IH.
    unfold new_bool. by rewrite Hb.
  - unfold mret at 1, M_ret at 1. by rewrite bind_run, IH.
Qed.

Lemma map_exprs_rpn e o : Forall bool_mapped (bvars e) → map_exprs boolmap (rpn e) o = Ret (rpn (rename new_bool e)) o.
Proof.
  intros Hv. rewrite map_exprs_run; [f_equal|]; induction e as [v|e IH|op e1 IH1 e2 IH2]; cbn [bvars rpn rename] in *.
  - rewrite Forall_singleton in Hv; destruct Hv as [Hne _]. unfold map_expr. cbn. unfold truth. by rewrite (proj2 (N.eqb_neq v 0)).
  - by rewrite fmap_app, IH.
  - apply Forall_app in Hv as [Hv1 Hv2]. by rewrite !fmap_app, IH1, IH2.
  - rewrite Forall_singleton in Hv. apply Forall_singleton. intros _. exact Hv.
  - apply Forall_app. split; [auto|]. apply Forall_singleton. intros H. by vm_compute in H.
  - apply Forall_app in Hv as [Hv1 Hv2]. apply Forall_app. split; [auto|]. apply Forall_app. split; [auto|]. apply Forall_singleton. intros H. by vm_compute in H.
Qed.

Lemma map_ids_run l o : Forall bool_mapped l → map_ids boolmap l o = Ret (new_bool <$> l) o.
Proof.
  induction 1 as [|v l [_ [b Hb]] _ IH]; [done|]. cbn [map_ids fmap list_fmap]. rewrite bind_run, Hb. cbn [deref]. unfold mret at 1, M_ret at 1.
  rewrite bind_run, IH. unfold new_bool. by rewrite Hb.
Qed.

(** * The block of the new policy *)

Lemma copy_expr_spec l o :
  wp (cond_copy_expr l) o (λ r o', (o = [] → o' = []) ∧ (r = Some l ∨ r = None ∧ o ≠ [])).
Proof.
  revert o. induction l as [|e l IH]; intros o; cbn [cond_copy_expr]; [wp_step; auto|].
  wp_step. wp_step. intros [] o1 Ho1; cbn [negb]; wp_step; [|split; [intros H; by destruct (Ho1 H)|right; split; [done|intros H; by destruct (Ho1 H)]]].
  eapply wp_mono; [apply IH|]. intros r o2 [Ho2 Hr]. wp_step. split; [intros H; by apply Ho2, Ho1|].
  destruct Hr as [->|[-> Hne]]; [left; by destruct e|right]. split; [done|]. intros H. by apply Hne, Ho1.
Qed.

(** A new block: the expression and its value, with empty lists. *)
Definition new_block (n : cond_node) (st : Z) : cond_node :=
  let ids := take (N.to_nat (N.min (nbools n) COND_MAX_BOOLS)) (bool_ids n) in
  CondNode st (cond_exprs n) [] [] 0 0 (nbools n) (ids ++ replicate (5 - length ids) 0) (expr_pre_comp n) (cond_flags n).

Lemma node_create_spec p n e o :
  cond_exprs n = rpn e → (stack_depth e ≤ COND_EXPR_MAXDEPTH)%nat → Forall (bool_defined (bool_val_to_struct p)) (bvars e) →
  wp (cond_node_create p (Some n)) o (λ r o', (o = [] → o' = []) ∧
    (r = Some (new_block n (z_of_bool (beval (bool_env (bool_val_to_struct p)) e))) ∨ r = None ∧ o ≠ [])).
Proof.
  intros He Hd Hv. unfold cond_node_create. wp_step. wp_step.
  intros [] o1 Ho1; cbn [negb]; wp_step; [|split; [intros H; by destruct (Ho1 H)|right; split; [done|intros H; by destruct (Ho1 H)]]].
  eapply wp_mono; [apply copy_expr_spec|]. intros r o2 [Ho2 [->|[-> Hne]]].
  2: { wp_step. split; [intros H; by apply Ho2, Ho1|right]. split; [done|]. intros H. by apply Hne, Ho1. }
  rewrite He. pose proof (rpn_nonempty e) as Hnil. destruct (rpn e) as [|x l] eqn:El; [done|]. rewrite <- El. wp_step. unfold wp at 1.
  rewrite evaluate_spec by done. rewrite (proj2 (Nat.leb_le _ _)) by done. wp_step. split; [intros H; by apply Ho2, Ho1|].
  left. unfold new_block. by rewrite He, El.
Qed.

(** ** The invariant of the blocks *)

(** Whether the rules of a list are on. *)
Definition on_in (n : cond_node) (x : bool) : bool := if x then (0 <? cur_state n)%Z else (cur_state n =? 0)%Z.
Definition flags_right (st : rule_tabs) : Prop :=
  ∀ i x n m, rt_conds st !! i = Some n → in_rules st (i, x) m → rule_enabled m = on_in n x.

(** Every block has the state that its expression has, and its rules are on or
    off accordingly. *)
Definition established (p : policydb) : Prop :=
  flags_right (tabs_of p) ∧ Forall (λ n, evaluates p n (cur_state n) ∧ (cur_state n = 0 ∨ cur_state n = 1)%Z) (cond_list p).

(** The two tables, and the lists of the blocks. *)
Record tables_ready (p : policydb) : Prop := {
  tr_te : tab_ok (te_avtab p);
  tr_te_data : data_named p (te_avtab p);
  tr_cond : cond_tab_ok (te_cond_avtab p);
  tr_cond_data : data_named p (te_cond_avtab p);
  tr_lists : lists_ok (tabs_of p) }.

Lemma flags_applied p n : flags_right (tabs_of p) → n ∈ cond_list p → node_applied (te_cond_avtab p) n.
Proof.
  intros H [i Hi]%list_elem_of_lookup. split; intros q r Hq Hr.
  - apply (H i true n r Hi). exists q. split; [|done]. unfold branch_of. cbn. by rewrite Hi.
  - apply (H i false n r Hi). exists q. split; [|done]. unfold branch_of. cbn. by rewrite Hi.
Qed.

(** The blocks before and after, lists apart. *)
Lemma heads_lookup st st' i n :
  block_heads (rt_conds st') = block_heads (rt_conds st) → rt_conds st' !! i = Some n →
  ∃ n0, rt_conds st !! i = Some n0 ∧ cur_state n0 = cur_state n ∧ cond_exprs n0 = cond_exprs n.
Proof.
  intros H Hn. assert (block_heads (rt_conds st) !! i = Some (set_lists n [] [])) as E by (rewrite <- H; unfold block_heads; by rewrite list_lookup_fmap, Hn).
  unfold block_heads in E. rewrite list_lookup_fmap in E. destruct (rt_conds st !! i) as [n0|]; [|done]. cbn in E. exists n0. split; [done|].
  destruct n0, n. unfold set_lists in E. cbn in *. by injection E as -> -> _ _ _ _ _ _.
Qed.

Lemma flags_kept b on st st' E :
  flags_right st → branch_applied b on st st' E → (∀ n, rt_conds st !! b.1 = Some n → on = on_in n b.2) → flags_right st'.
Proof.
  intros H Ha Hon i x n m Hn Hm. destruct (heads_lookup _ _ _ _ (ba_blocks _ _ _ _ _ Ha) Hn) as (n0 & Hn0 & Hs & _).
  assert (on_in n x = on_in n0 x) as -> by (unfold on_in; by rewrite Hs).
  destruct (decide ((i, x) = b)) as [<-|Hne].
  - destruct (ba_flags _ _ _ _ _ Ha m Hm) as [Hm0| ->]; [by eapply H|]. by apply Hon.
  - apply (ba_others _ _ _ _ _ Ha) in Hm; [|done]. by eapply H.
Qed.

Lemma values_kept p p' st st' :
  bool_val_to_struct p' = bool_val_to_struct p → block_heads (rt_conds st') = block_heads (rt_conds st) →
  Forall (λ n, evaluates p n (cur_state n) ∧ (cur_state n = 0 ∨ cur_state n = 1)%Z) (rt_conds st) →
  Forall (λ n, evaluates p' n (cur_state n) ∧ (cur_state n = 0 ∨ cur_state n = 1)%Z) (rt_conds st').
Proof.
  intros Hb Hh H. rewrite Forall_lookup in H |- *. intros i n Hn. destruct (heads_lookup _ _ _ _ Hh Hn) as (n0 & Hn0 & Hs & He).
  specialize (H i n0 Hn0). unfold evaluates, cond_evaluate_expr in *. rewrite Hb, <- Hs, <- He. exact H.
Qed.

(** ** Finding or adding the block *)

Definition set_conds (p : policydb) (a : avtab) (l : list cond_node) : policydb :=
  set_rules p (te_avtab p) a l (role_tr p) (role_allows p).

Lemma find_place l tmp :
  match List.find (λ n, cond_expr_equal (Some tmp) (Some n)) l with
  | Some n => l !! node_place l tmp = Some n
  | None => node_place l tmp = 0%nat
  end.
Proof.
  unfold node_place. induction l as [|n l IH]; [done|]. cbn [List.find list_find]. destruct (cond_expr_equal (Some tmp) (Some n)) eqn:E.
  - by rewrite decide_True.
  - rewrite decide_False by congruence. destruct (List.find _ l) as [m|] eqn:Ef; destruct (list_find _ l) as [[i y]|] eqn:El; cbn; try done; exfalso.
    + apply list_find_None in El. rewrite Forall_forall in El. apply find_some in Ef as [Hin Hm]. apply list_elem_of_In in Hin. by apply (El m).
    + apply list_find_Some in El as (Hy & Hm & _). apply list_elem_of_lookup_2, list_elem_of_In in Hy. by rewrite (find_none _ _ Ef y Hy) in Hm.
Qed.

Lemma lists_ok_new te a l n : true_list n = [] → false_list n = [] → lists_ok (RuleTabs te a l) → lists_ok (RuleTabs te a (n :: l)).
Proof. intros Ht Hf [H1 H2]. unfold lists_ok in *. cbn [rt_cond rt_conds] in *. rewrite bind_cons. unfold node_ptrs at 1 3. by rewrite Ht, Hf. Qed.

Lemma node_search_spec out tmp e o :
  tables_ready out → established out → cond_exprs tmp = rpn e → (stack_depth e ≤ COND_EXPR_MAXDEPTH)%nat →
  Forall (bool_defined (bool_val_to_struct out)) (bvars e) →
  wp (cond_node_search out (cond_list out) (Some tmp)) o (λ r o', (o = [] → o' = []) ∧
    ((r.1 = None ∧ o ≠ []) ∨
     ∃ n l, r = (Some n, set_conds out (te_cond_avtab out) l) ∧ l !! node_place (cond_list out) tmp = Some n ∧
       tables_ready r.2 ∧ established r.2)).
Proof.
  intros Hr [Hfl Hev] He Hd Hv. unfold cond_node_search, cond_node_find. pose proof (find_place (cond_list out) tmp) as Hp.
  destruct (List.find _ (cond_list out)) as [n|].
  - wp_step. wp_step. wp_step. split; [done|]. right. exists n, (cond_list out). split; [|split; [done|]].
    + f_equal. by destruct out.
    + done.
  - wp_step. wp_step. eapply wp_mono; [by eapply node_create_spec|]. intros r o1 [Ho1 [->|[-> Hne]]]; wp_step; wp_step; (split; [done|]).
    2: { by left. }
    right. set (n := new_block _ _). exists n, (n :: cond_list out). split; [done|]. rewrite Hp. split; [done|].
    destruct Hr as [R1 R2 R3 R4 R5]. split; [split; try done; by apply lists_ok_new|]. split.
    + intros [|i] x m r Hm Hin.
      * injection Hm as <-. destruct Hin as (q & Hq & _). unfold branch_of in Hq. cbn in Hq. destruct x; by apply elem_of_nil in Hq.
      * apply (Hfl i x m r Hm). exact Hin.
    + apply Forall_cons. split.
      * split; [|cbn; by destruct (beval _ _); [right|left]]. intros o2. change (cond_evaluate_expr out (cond_exprs tmp) o2 = Ret (cur_state n) o2).
        rewrite He, evaluate_spec by done. by rewrite (proj2 (Nat.leb_le _ _)).
      * exact Hev.
Qed.

(** ** One block *)

(** A block of a module: a tunable, or an expression over booleans of both
    policies that fits on the stack, with rules in range. *)
Definition cond_ready (base out : policydb) (cn : mod_cond) : Prop :=
  truth (N.land (mc_flags cn) COND_NODE_FLAGS_TUNABLE) = true ∨
  ∃ e, mc_exprs cn = rpn e ∧ (stack_depth e ≤ COND_EXPR_MAXDEPTH)%nat ∧ Forall (bool_defined (bool_val_to_struct base)) (bvars e) ∧
    Forall (λ v, bool_mapped v ∧ bool_defined (bool_val_to_struct out) (new_bool v)) (bvars e) ∧
    ∀ r, r ∈ mc_true cn ++ mc_false cn → source_ready out typemap r.

(** A type rule of a branch that is refused. *)
Definition cond_conflict (out : policydb) (t : rule_tabs) (rules : list avrule) : Prop :=
  ∃ i x, branch_conflict (i, x) (i, negb x) t (ef_wants (rules_effect out typemap rules)).

Lemma dest_ready_rules out te a l tr ra : dest_ready out → dest_ready (set_rules out te a l tr ra).
Proof. intros [[H1 H2 H3] H4 H5]. split; [by split|done..]. Qed.
Lemma source_ready_rules out te a l tr ra r : source_ready out typemap r → source_ready (set_rules out te a l tr ra) typemap r.
Proof.
  intros [Hr [S1 S2 S3 S4] [T1 T2 T3 T4]]. split; [|by split..]. destruct Hr as [?|[R1 R2 R3 R4]]; [by left|right]. by split.
Qed.

Lemma strip_not_facts e : bvars (strip_not e) = bvars e ∧ (stack_depth (strip_not e) ≤ stack_depth e)%nat.
Proof. destruct e; cbn; split; done || lia. Qed.

(** The renamed and normalised block. *)
Lemma map_bools_spec out n e v o :
  cond_exprs n = rpn e → find_bools (cond_exprs n) (replicate 5 0) 0 = (bool_ids n, nbools n) →
  (stack_depth e ≤ COND_EXPR_MAXDEPTH)%nat → Forall (λ v, bool_mapped v ∧ bool_defined (bool_val_to_struct out) (new_bool v)) (bvars e) →
  ∃ cn', cond_node_map_bools boolmap out (new_block n v) o = Ret (0%Z, out, cn') o ∧ cond_exprs cn' = rpn (strip_not (rename new_bool e)).
Proof.
  intros He Hf Hd Hv. rewrite Forall_and in Hv. destruct Hv as [Hm Hb]. unfold cond_node_map_bools. cbn [cond_exprs new_block].
  rewrite He, bind_run, map_exprs_rpn by done. cbn [nbools bool_ids new_block].
  set (k := N.to_nat (N.min (nbools n) COND_MAX_BOOLS)).
  assert (length (bool_ids n) = 5%nat) as Hlen.
  { pose proof (find_bools_spec (cond_exprs n) (replicate 5 0) 0 eq_refl ltac:(intros; constructor)) as H. rewrite Hf in H. apply H. }
  assert (k ≤ 5)%nat as Hk by (unfold k, COND_MAX_BOOLS; lia).
  assert (take k (take k (bool_ids n) ++ replicate (5 - length (take k (bool_ids n))) 0) = take k (bool_ids n)) as ->.
  { rewrite take_app_le by (rewrite length_take; lia). by rewrite take_take, Nat.min_id. }
  assert (Forall bool_mapped (take k (bool_ids n))) as Hids.
  { rewrite Forall_forall in Hm |- *. intros x Hx. apply Hm. destruct (find_bools_members _ _ _ _ _ x (eq_refl : length (replicate 5 0) = 5%nat) Hf Hx) as [H|H].
    - change (N.to_nat (N.min 0 COND_MAX_BOOLS)) with 0%nat in H. by apply elem_of_nil in H.
    - by rewrite He, rpn_bools in H. }
  rewrite bind_run, map_ids_run by done.
  match goal with |- context [cond_normalize_expr out ?c] =>
    destruct (normalize_spec out c (rename new_bool e) o) as (cn' & Hrun & He' & _); [done|by rewrite rename_depth| |] end.
  { rewrite rename_vars. by apply Forall_fmap. }
  exists cn'. split; [|done]. rewrite bind_run, Hrun. done.
Qed.

Lemma list_copy_kept out place x t rules on o :
  dest_ready out → branch_ready out (place, x) (place, negb x) t → (∀ r, r ∈ rules → source_ready out typemap r) →
  flags_right t → (∀ n, rt_conds t !! place = Some n → on = on_in n x) →
  wp (cond_avrule_list_copy disable_dontaudit out typemap rules (place, x) (place, negb x) on t) o (λ r o', (o = [] → o' = []) ∧ rt_te r.2 = rt_te t ∧
    ((r.1 = 0%Z ∧ branch_ready out (place, x) (place, negb x) r.2 ∧ flags_right r.2 ∧ block_heads (rt_conds r.2) = block_heads (rt_conds t)) ∨
     (r.1 ≠ 0%Z ∧ (o ≠ [] ∨ cond_conflict out r.2 rules)))).
Proof.
  intros Hout Ht Hrules Hfl Hon. eapply wp_mono; [by apply branch_rules_spec|]. intros [rc t'] o' (Ho & Hte & Hs & Hf). cbn [fst snd] in *.
  split; [done|]. split; [done|]. destruct (Z.eqb_spec rc 0) as [->|Hne].
  - left. split; [done|]. destruct (Hs eq_refl) as [H1 H2]. split; [done|]. split; [by eapply flags_kept|]. apply H2.
  - right. split; [done|]. destruct (Hf Hne) as [?|?]; [by left|right]. by exists place, x.
Qed.

Lemma tables_of_branch out t place x :
  tabs_of out = t → branch_ready out (place, x) (place, negb x) t → tables_ready out.
Proof. intros <- [H1 H2 H3 H4 H5 _ _]. by split. Qed.
Lemma branch_of_tables out place x n :
  tables_ready out → cond_list out !! place = Some n → branch_ready out (place, x) (place, negb x) (tabs_of out).
Proof. intros [H1 H2 H3 H4 H5] Hn. split; try done; by exists n. Qed.

(** Going on, nothing but the conditional table and the blocks have changed. *)
Definition conds_step (cns : list mod_cond) (st : expand_state) (o : oracle) (r : step) (o' : oracle) : Prop :=
  match r with
  | inr st' => (o = [] → o' = []) ∧ ∃ a l, st' = with_out st (set_conds (es_out st) a l) ∧ tables_ready (es_out st') ∧ established (es_out st')
  | inl st' => o ≠ [] ∨ ∃ cn t, cn ∈ cns ∧ rt_te t = te_avtab (es_out st') ∧
      (cond_conflict (es_out st) t (mc_true cn) ∨ cond_conflict (es_out st) t (mc_false cn))
  end.

Lemma conds_done cns st o : tables_ready (es_out st) → established (es_out st) → conds_step cns st o (inr st) o.
Proof.
  intros H1 H2. split; [done|]. exists (te_cond_avtab (es_out st)), (cond_list (es_out st)). split; [|done].
  destruct st as [? [] ? ? ? ?]. done.
Qed.

Lemma state_eta_conds st :
  ExpandState (es_base st) (es_out st) (es_filename_trans st) (es_unnamed st) (es_neverallow st) (es_unsupported st) = st.
Proof. by destruct st. Qed.

(** The rules of both lists of a block whose place is known. *)
Lemma both_lists_spec cns cn n st out place nd o :
  cn ∈ cns → (∀ r, r ∈ mc_true cn ++ mc_false cn → source_ready out typemap r) → dest_ready out →
  tables_ready out → established out → cond_list out !! place = Some nd →
  (∃ l, out = set_conds (es_out st) (te_cond_avtab (es_out st)) l) →
  wp ('(rc, t) ← cond_avrule_list_copy disable_dontaudit out typemap (rules_at cn (avtrue_list n))
                   (place, true) (place, false) (negb (cur_state nd =? 0)%Z) (tabs_of out);
      let out := set_tabs out t in
      if negb (rc =? 0)%Z then mret (inl (with_out st out)) else
      '(rc, t) ← cond_avrule_list_copy disable_dontaudit out typemap (rules_at cn (avfalse_list n))
                   (place, false) (place, true) (negb (negb (cur_state nd =? 0)%Z)) (tabs_of out);
      let st := with_out st (set_tabs out t) in
      mret (if (rc =? 0)%Z then inr st else inl st)) o (conds_step cns st o).
Proof.
  intros Hcn Hrules Hout Ht [Hfl Hev] Hnd (l & ->). set (out := set_conds (es_out st) (te_cond_avtab (es_out st)) l) in *.
  assert (cur_state nd = 0 ∨ cur_state nd = 1)%Z as Hst by (rewrite Forall_lookup in Hev; by apply (Hev place nd)).
  assert (∀ b r, r ∈ rules_at cn b → r ∈ mc_true cn ++ mc_false cn) as Hat.
  { intros b r. unfold rules_at. destruct (b =? 1); intros; apply elem_of_app; auto. }
  assert (∀ t b, cond_conflict (es_out st) t (rules_at cn b) → cond_conflict (es_out st) t (mc_true cn) ∨ cond_conflict (es_out st) t (mc_false cn)) as Heither.
  { intros t b. unfold rules_at. destruct (b =? 1); auto. }
  wp_step. eapply wp_mono; [apply (list_copy_kept out place true); [done|by eapply branch_of_tables|by intros r Hr; eapply Hrules, Hat|done|]|].
  { intros n' Hn'. assert (n' = nd) as -> by (change (rt_conds (tabs_of out)) with (cond_list out) in Hn'; congruence). unfold on_in. by destruct Hst as [-> | ->]. }
  intros [rc t1] o1 (Ho1 & Hte1 & Hr1). cbn [fst snd] in *. destruct Hr1 as [(-> & Hb1 & Hf1 & Hh1)|(Hrc & Hc)].
  2: { rewrite (proj2 (Z.eqb_neq rc 0)) by done. cbn [negb]. wp_step. destruct Hc as [?|Hc]; [by left|right]. exists cn, t1. split; [done|]. split; [done|]. by eapply Heither. }
  change (negb (0 =? 0)%Z) with false. cbv iota. wp_step. set (out1 := set_tabs out t1) in *.
  assert (tabs_of out1 = t1) as Eout1 by by destruct t1. assert (tables_ready out1) as Ht1.
  { apply (tables_of_branch _ t1 place true); [done|]. destruct Hb1 as [B1 B2 B3 B4 B5 B6 B7]. by split. }
  assert (is_Some (cond_list out1 !! place)) as [nd1 Hnd1] by (change (cond_list out1) with (rt_conds t1); apply (br_here _ _ _ _ Hb1)).
  assert (cur_state nd1 = cur_state nd) as Hs1.
  { destruct (heads_lookup (tabs_of out) t1 place nd1 Hh1) as (n0 & Hn0 & Hs & _); [done|]. change (cond_list out !! place = Some n0) in Hn0. congruence. }
  eapply wp_mono; [apply (list_copy_kept out1 place false)|].
  - by apply (dest_ready_rules out).
  - by eapply branch_of_tables.
  - intros r Hr. apply (source_ready_rules out). by eapply Hrules, Hat.
  - by rewrite Eout1.
  - intros n' Hn'. assert (n' = nd1) as -> by (change (rt_conds (tabs_of out1)) with (cond_list out1) in Hn'; congruence). unfold on_in. rewrite Hs1. by destruct Hst as [-> | ->].
  - intros [rc t2] o2 (Ho2 & Hte2 & Hr2). cbn [fst snd] in *. wp_step. destruct Hr2 as [(-> & Hb2 & Hf2 & Hh2)|(Hrc & Hc)].
    + change (0 =? 0)%Z with true. cbv iota. split; [auto|]. exists (rt_cond t2), (rt_conds t2). split; [|split].
      * unfold with_out. f_equal. unfold set_tabs, set_conds. rewrite Hte2, Eout1, Hte1. done.
      * apply (tables_of_branch _ t2 place false); [by destruct t2|]. destruct Hb2 as [B1 B2 B3 B4 B5 B6 B7]. by split.
      * split; [by replace (tabs_of (es_out (with_out st (set_tabs out1 t2)))) with t2 by by destruct t2|].
        apply (values_kept out _ (tabs_of out) t2); [done| |done]. rewrite Hh2, Eout1. done.
    + rewrite (proj2 (Z.eqb_neq rc 0)) by done. destruct Hc as [Hc|Hc]; [left; auto|right]. exists cn, t2. split; [done|]. split; [done|]. by eapply Heither.
Qed.

Lemma cond_copy_spec cns cn st o :
  cn ∈ cns → cond_ready (es_base st) (es_out st) cn → dest_ready (es_out st) → tables_ready (es_out st) → established (es_out st) →
  wp (cond_copy disable_dontaudit typemap boolmap cn st) o (conds_step cns st o).
Proof.
  intros Hcn Hr Hout Ht He. unfold cond_copy. destruct Hr as [->|(e & Hexp & Hd & Hb & Hv & Hrules)]; [wp_step; by apply conds_done|].
  destruct (truth (N.land (mc_flags cn) COND_NODE_FLAGS_TUNABLE)); [wp_step; by apply conds_done|].
  destruct (normalize_spec (es_base st) (node_of cn) e o Hexp Hd Hb) as (n & Hrun & Hne & _).
  destruct (normalize_fields _ _ _ _ _ _ Hrun) as (_ & _ & Hfb). destruct (strip_not_facts e) as [Hbv Hsd].
  wp_step. unfold wp at 1. rewrite Hrun. change (negb (0 =? 0)%Z) with false. cbv iota.
  change (es_out (ExpandState (es_base st) (es_out st) (es_filename_trans st) (es_unnamed st) (es_neverallow st) (es_unsupported st))) with (es_out st).
  wp_step. eapply wp_mono; [apply (node_create_spec _ _ (strip_not e)); [done|lia|by rewrite Hbv]|]. intros tmp o1 [Ho1 [->|[-> Hno]]]; [|wp_step; by left].
  set (v := z_of_bool _). destruct (map_bools_spec (es_out st) n (strip_not e) v o1) as (cn' & Hrun' & He'); [done|done|lia|by rewrite Hbv|].
  destruct (strip_not_facts (rename new_bool (strip_not e))) as [Hbv' Hsd'].
  wp_step. unfold wp at 1. rewrite Hrun'. change (negb (0 =? 0)%Z) with false. cbv iota. wp_step.
  eapply wp_mono; [apply (node_search_spec _ _ (strip_not (rename new_bool (strip_not e)))); [done|done|done|rewrite rename_depth in Hsd'; lia|]|].
  { rewrite Hbv', rename_vars, Hbv. apply Forall_fmap. eapply Forall_impl; [exact Hv|]. by intros ? []. }
  intros [nd out] o2 [Ho2 [[Hnd Hno]|(nd' & l & [= -> ->] & Hl & Ht' & He'')]]; cbn [fst snd] in *.
  { subst nd. wp_step. left. auto. }
  rewrite state_eta_conds. eapply wp_mono; [apply (both_lists_spec cns cn n st _ (node_place (cond_list (es_out st)) cn') nd'); try done|].
  - intros r Hr. by apply source_ready_rules, Hrules.
  - by apply dest_ready_rules.
  - by exists l.
  - intros [st'|st'] o3 H; cbn in *; [destruct H as [H|H]; [left; auto|by right]|]. destruct H as [Ho3 H]. split; [auto|done].
Qed.

Lemma cond_ready_rules base out te a l tr ra cn : cond_ready base out cn → cond_ready base (set_rules out te a l tr ra) cn.
Proof.
  intros [?|(e & H1 & H2 & H3 & H4 & H5)]; [by left|right]. exists e. do 4 (split; [done|]). intros r Hr. by apply source_ready_rules, H5.
Qed.

Lemma cond_node_copy_spec l st o :
  (∀ cn, cn ∈ l → cond_ready (es_base st) (es_out st) cn) → dest_ready (es_out st) → tables_ready (es_out st) → established (es_out st) →
  wp (cond_node_copy disable_dontaudit typemap boolmap l st) o (λ r o',
    (r.1 = 0%Z ∧ conds_step l st o (inr r.2) o') ∨ (r.1 = (-1)%Z ∧ conds_step l st o (inl r.2) o')).
Proof.
  intros Hl Hout Ht He. unfold cond_node_copy. wp_step.
  apply (wp_for_list (λ dn st' o', conds_step l st o (inr st') o')).
  - by apply conds_done.
  - intros dn cn rest st1 o1 Hsplit (Ho1 & a & b & -> & Ht1 & He1).
    assert (cn ∈ l) as Hcn by (rewrite <- (reverse_involutive l), Hsplit; apply elem_of_reverse, elem_of_app; right; left).
    set (st1 := with_out st (set_conds (es_out st) a b)) in *.
    eapply wp_mono; [apply (cond_copy_spec l); [done|by apply cond_ready_rules, Hl|by apply dest_ready_rules|done|done]|].
    intros [st2|st2] o2 H; [wp_step; right; split; [done|]|].
    + destruct H as [H|H]; [left; auto|by right].
    + destruct H as (Ho2 & a' & b' & -> & Ht2 & He2). split; [auto|]. by exists a', b'.
  - intros st' o' H. wp_step. by left.
Qed.
End state.
