(* ===== verification/ExpandFacts.v ===== *)
(** What the expansion of the blocks of a module establishes.

    [Field] is the interface of the rules that are copied to a list: role
    allow rules, role transitions, transitions by file name and range
    transitions.  Their loops only append members that are not there, and stop
    at one that contradicts a member: [collects] says so for all of them. *)

From stdpp Require Import sorting gmap.
From S2P Require Import Prelude.
From S2P Require Import Ebitmap.
From S2P Require Import Hashtab.
From S2P Require Import MlsTypes.
From S2P Require Import Avtab.
From S2P Require Import Policydb.
From S2P Require Import Mls.
From S2P Require Import Context.
From S2P Require Import Conditional.
From S2P Require Import Services.
From S2P Require Import Expand.
From S2P Require Import Assertion.
From S2P Require Import PolicyIO.
From S2P Require Import SymbolIO.
From S2P Require Import ModuleIO.
From S2P Require Import PolicyIndex.
From S2P Require Import CondIO.
From S2P Require Import PolicydbIO.
From S2P Require Import ExpandRules.
From S2P Require Import ExpandEffects.
From S2P Require Import ExpandCond.
From S2P Require Import ExpandBlocks.
From S2P Require Import ExpandConds.
Local Open Scope N_scope.

(** * Lists of rules *)

Class Field {A} (get : expand_state → list A) (upd : expand_state → list A → expand_state) : Prop := {
  get_upd : ∀ st l, get (upd st l) = l;
  upd_get : ∀ st, upd st (get st) = st;
  upd_upd : ∀ st l l', upd (upd st l) l' = upd st l' }.

Lemma policydb_eta p :
  Policydb (mls p) (p_commons p) (p_classes p) (p_roles p) (p_types p) (p_users p) (p_bools p) (p_levels p) (p_cats p)
    (p_class_val_to_name p) (p_role_val_to_name p) (p_type_val_to_name p) (p_user_val_to_name p) (p_sens_val_to_name p)
    (p_cat_val_to_name p) (class_val_to_struct p) (role_val_to_struct p) (user_val_to_struct p) (type_val_to_struct p)
    (bool_val_to_struct p) (te_avtab p) (te_cond_avtab p) (cond_list p) (role_tr p) (role_allows p) (range_tr p)
    (type_attr_map p) (attr_type_map p) = p.
Proof. by destruct p. Qed.

Lemma state_eta st :
  ExpandState (es_base st) (es_out st) (es_filename_trans st) (es_unnamed st) (es_neverallow st) (es_unsupported st) = st.
Proof. by destruct st. Qed.

Lemma set_role_count_same p : set_role_count p (nprim (p_roles p)) = p.
Proof. destruct p as [? ? ? [? ?]]. done. Qed.

Definition allows_of (st : expand_state) : list role_allow := role_allows (es_out st).
Definition put_allows (st : expand_state) (l : list role_allow) : expand_state := with_out st (set_role_allows (es_out st) l).
Definition trans_of (st : expand_state) : list role_trans := role_tr (es_out st).
Definition put_trans (st : expand_state) (l : list role_trans) : expand_state := with_out st (set_role_tr (es_out st) l).
Definition put_files (st : expand_state) (l : list filename_trans) : expand_state := with_filename_trans st l (es_unnamed st).
Definition ranges_of (st : expand_state) : list range_trans := range_tr (es_out st).
Definition put_ranges (st : expand_state) (l : list range_trans) : expand_state := with_out st (set_range_tr (es_out st) l).

#[global] Instance allows_field : Field allows_of put_allows.
Proof. split; [done| |done]. intros [? [] ? ? ? ?]. done. Qed.
#[global] Instance trans_field : Field trans_of put_trans.
Proof. split; [done| |done]. intros [? [] ? ? ? ?]. done. Qed.
#[global] Instance files_field : Field es_filename_trans put_files.
Proof. split; [done| |done]. intros []. done. Qed.
#[global] Instance ranges_field : Field ranges_of put_ranges.
Proof. split; [done| |done]. intros [? [] ? ? ? ?]. done. Qed.

Section collect.
Context {A : Type} {get : expand_state → list A} {upd : expand_state → list A → expand_state} `{!Field get upd}.
(** Two rules for the same key. *)
Context (same : A → A → Prop).

Definition unambiguous (l : list A) : Prop := ∀ t t', t ∈ l → t' ∈ l → same t t' → t = t'.

(** From the members [l], the members [C] are added; or there is a member that
    contradicts one of [C]. *)
Definition collects (C : A → Prop) (l : list A) (st : expand_state) (o : oracle) (r : step) (o' : oracle) : Prop :=
  match r with
  | inr st' => (o = [] → o' = []) ∧ ∃ l', st' = upd st l' ∧ (∀ a, a ∈ l' ↔ a ∈ l ∨ C a) ∧ (unambiguous l → unambiguous l')
  | inl st' => o ≠ [] ∨ ∃ t t', t ∈ get st' ∧ C t' ∧ same t t' ∧ t ≠ t'
  end.

Lemma collects_none l st o : collects (λ _, False) l st o (inr (upd st l)) o.
Proof. split; [done|]. exists l. split; [done|]. split; [|done]. intros a. tauto. Qed.

Lemma collects_ext C C' l st o r o' : (∀ a, C a ↔ C' a) → collects C l st o r o' → collects C' l st o r o'.
Proof.
  intros HC. destruct r as [st'|st']; cbn.
  - intros [?|(t & t' & Ht & Ht' & Hs)]; [by left|right]. exists t, t'. rewrite <- HC. done.
  - intros (Ho & l' & -> & Hl & Hu). split; [done|]. exists l'. split; [done|]. split; [|done]. intros a. by rewrite Hl, HC.
Qed.

Lemma collects_after C1 C2 l l1 st o o1 r o' :
  (o = [] → o1 = []) → (∀ a, a ∈ l1 ↔ a ∈ l ∨ C1 a) → (unambiguous l → unambiguous l1) →
  collects C2 l1 st o1 r o' → collects (λ a, C1 a ∨ C2 a) l st o r o'.
Proof.
  intros Ho Hl Hu. destruct r as [st'|st']; cbn.
  - intros [?|(t & t' & ? & ? & ?)]; [left; auto|right]. exists t, t'. auto.
  - intros (Ho' & l' & -> & Hl' & Hu'). split; [auto|]. exists l'. split; [done|]. split; [|auto]. intros a. rewrite Hl', Hl. tauto.
Qed.

(** A new member, and one that is there. *)
Lemma collects_new a l l' st o o' :
  (∀ t, t ∈ l → same a t → False) → (∀ t, t ∈ l → same t a → False) → l' ≡ₚ a :: l → (o = [] → o' = []) →
  collects (λ t, t = a) l st o (inr (upd st l')) o'.
Proof.
  intros H1 H2 Hl Ho. split; [done|]. exists l'. split; [done|]. split.
  - intros t. rewrite Hl, elem_of_cons. tauto.
  - intros Hu t t'. rewrite Hl. intros [-> |Ht]%elem_of_cons [-> |Ht']%elem_of_cons Hs; [done|by destruct (H1 t')|by destruct (H2 t)|by apply Hu].
Qed.
Lemma collects_there a l st o o' : a ∈ l → (o = [] → o' = []) → collects (λ t, t = a) l st o (inr (upd st l)) o'.
Proof. intros Ha Ho. split; [done|]. exists l. split; [done|]. split; [|done]. intros t. split; [auto|]. by intros [?| ->]. Qed.

(** A set that was expanded before the loops. *)
Lemma collects_prior C l st o o1 r o' : (o = [] → o1 = []) → collects C l st o1 r o' → collects C l st o r o'.
Proof.
  intros H. destruct r as [st'|st']; cbn.
  - intros [?|?]; [left; auto|by right].
  - intros (Ho & Hl). split; [auto|done].
Qed.
(** What members have in common; whether the allocator may be taken never to
    refuse. *)
Context (P : A → Prop) (calm : Prop).

Lemma collects_list {X} (body : X → expand_state → M step) (C : X → A → Prop) (L : list X) l st o :
  (calm → o = []) → Forall P l → (∀ x a, x ∈ L → C x a → P a) →
  (∀ x l o, (calm → o = []) → x ∈ L → Forall P l → wp (body x (upd st l)) o (collects (C x) l st o)) →
  wp (for_list body L (upd st l)) o (collects (λ a, ∃ x, x ∈ L ∧ C x a) l st o).
Proof.
  intros Hcalm HP HC Hbody. apply (wp_for_list (λ dn st' o', collects (λ a, ∃ x, x ∈ dn ∧ C x a) l st o (inr st') o')).
  - eapply collects_ext; [|apply collects_none]. intros a. cbn. split; [done|]. by intros (x & ?%elem_of_nil & _).
  - intros dn x rest st' o1 Hsplit (Ho1 & l1 & -> & Hl1 & Hu1).
    assert (x ∈ L) as Hx by (rewrite Hsplit; apply elem_of_app; right; left).
    assert (Forall P l1) as HP1.
    { rewrite Forall_forall in HP |- *. intros a [Ha|(y & Hy & Ha)]%Hl1; [auto|]. apply (HC y); [|done].
      rewrite Hsplit. apply elem_of_app. by left. }
    eapply wp_mono; [apply Hbody; [auto|done|done]|]. intros r o2 Hr.
    assert (collects (λ a, (∃ x, x ∈ dn ∧ C x a) ∨ C x a) l st o r o2) as H by (by eapply collects_after).
    destruct r as [st2|st2].
    + destruct H as [?|(t & t' & Ht & Ht' & Hs)]; [by left|right]. exists t, t'. split; [done|]. split; [|done].
      destruct Ht' as [(y & Hy & Hc)|Hc]; [exists y|by exists x]. split; [|done]. rewrite Hsplit. apply elem_of_app. by left.
    + eapply collects_ext; [|exact H]. intros a. cbn. setoid_rewrite elem_of_app. setoid_rewrite list_elem_of_singleton. naive_solver.
  - intros st' o1 H. exact H.
Qed.

Lemma collects_bits e (body : N → expand_state → M step) (C : N → A → Prop) l st o :
  ebitmap_wf e → (calm → o = []) → Forall P l → (∀ i a, ebitmap_bit e i = true → C i a → P a) →
  (∀ i l o, (calm → o = []) → ebitmap_bit e i = true → Forall P l → wp (body i (upd st l)) o (collects (C i) l st o)) →
  wp (each_bit e body (upd st l)) o (collects (λ a, ∃ i, ebitmap_bit e i = true ∧ C i a) l st o).
Proof.
  intros He Hcalm HP HC Hbody. unfold each_bit. eapply wp_same; [by apply for_each_bit_visited|].
  eapply wp_mono; [apply (collects_list _ (λ i a, ebitmap_bit e i = true ∧ C i a)); [done|done|by intros i a _ []; eapply HC|]|].
  - intros i l1 o1 Hc1 _ HP1. destruct (ebitmap_bit e i) eqn:Ei; cbn [negb].
    + eapply wp_mono; [by apply Hbody|]. intros r o2. apply collects_ext. intros a. tauto.
    + wp_step. eapply collects_ext; [|apply collects_none]. intros a. split; [done|]. by intros [].
  - intros r o1. apply collects_ext. intros a. split.
    + intros (i & _ & Hi & Hc). by exists i.
    + intros (i & Hi & Hc). exists i. split; [by apply bit_position|done].
Qed.

End collect.

Section state.
Context (disable_dontaudit expand_neverallow : bool) (typemap boolmap rolemap : list N).

(** * Role rules *)

Definition role_ready (base : policydb) (x : role_set) : Prop :=
  rs_flags x = 0 ∧ role_set_wf (Some base) (Some rolemap) (rs_roles x).
Definition role_means (base : policydb) (x : role_set) : N → Prop := role_in (Some base) (Some rolemap) (rs_roles x).

Lemma expand_roles_of_spec x st o :
  role_ready (es_base st) x →
  wp (expand_roles_of rolemap x st) o (λ r o', r.2 = st ∧ expanded (role_means (es_base st) x) o r.1 o').
Proof.
  intros [Hf Hw]. unfold expand_roles_of. wp_step. eapply wp_mono; [by apply role_set_expand_spec|].
  intros [[rc r] n] o' [Hn He]. cbn [fst snd] in *. wp_step. split; [|done]. rewrite Hn, set_role_count_same. by destruct st.
Qed.

Abbreviation adds_allows := (collects (get := allows_of) (upd := put_allows) (λ _ _, False)).

(** The rules that a role allow rule of a module stands for. *)
Definition allow_means (base : policydb) (r : role_allow_rule) (a : role_allow) : Prop :=
  ∃ i j, role_means base (rar_roles r) i ∧ role_means base (rar_new_roles r) j ∧ a = RoleAllow (u32 (i + 1)) (u32 (j + 1)).

Lemma allow_pair_spec i j l st o :
  wp (allow_pair i j (put_allows st l)) o (adds_allows (λ a, a = RoleAllow (u32 (i + 1)) (u32 (j + 1))) l st o).
Proof.
  unfold allow_pair. cbn [put_allows with_out es_out]. change (role_allows (set_role_allows (es_out st) l)) with l.
  destruct (existsb _ l) eqn:E.
  - wp_step. apply collects_there; [|done]. apply existsb_exists in E as ([x y] & Hin%list_elem_of_In & Hxy). reflect_bools. cbn in *. by subst.
  - wp_step. wp_step. intros [] o' Ho; cbn [negb]; wp_step; [|left; intros H; by destruct (Ho H)].
    apply (collects_new (get := allows_of) (upd := put_allows)) with (l' := l ++ [RoleAllow (u32 (i + 1)) (u32 (j + 1))]);
      [by intros t _ []..|by rewrite <- Permutation_cons_append|intros H; by apply Ho].
Qed.

(** After a bitmap was expanded: the call fails, or the bitmap is right. *)
Lemma expanded_cases Q o rc e o' : expanded Q o (rc, e) o' →
  (rc ≠ 0%Z ∧ o ≠ []) ∨ (rc = 0%Z ∧ (o = [] → o' = []) ∧ ebitmap_wf e ∧ ∀ x, ebitmap_bit e x = true ↔ Q x).
Proof.
  intros [Ho He]. cbn [fst snd] in *. destruct (Z.eqb_spec rc 0) as [->|Hne].
  - right. split; [done|]. split; [intros H; by apply Ho|]. by destruct He as [(_ & Hw & Hb)|?].
  - left. split; [done|]. intros H. by destruct (Ho H).
Qed.

Lemma copy_role_allow_spec cur l st o :
  role_ready (es_base st) (rar_roles cur) → role_ready (es_base st) (rar_new_roles cur) →
  wp (copy_role_allow rolemap cur (put_allows st l)) o (adds_allows (allow_means (es_base st) cur) l st o).
Proof.
  intros H1 H2. unfold copy_role_allow. wp_step. eapply wp_mono; [by apply expand_roles_of_spec|].
  intros [[rc roles] st1] o1 [Hst He]. cbn [fst snd] in Hst, He. subst st1. apply expanded_cases in He as [[Hrc Hne]|(-> & Ho1 & Hw1 & B1)].
  { rewrite (proj2 (Z.eqb_neq rc 0)) by done. cbn [negb]. wp_step. by left. }
  change (negb (0 =? 0)%Z) with false. cbv iota. wp_step. eapply wp_mono; [by apply expand_roles_of_spec|].
  intros [[rc new_roles] st2] o2 [Hst He]. cbn [fst snd] in Hst, He. subst st2. apply expanded_cases in He as [[Hrc Hne]|(-> & Ho2 & Hw2 & B2)].
  { rewrite (proj2 (Z.eqb_neq rc 0)) by done. cbn [negb]. wp_step. left. auto. }
  change (negb (0 =? 0)%Z) with false. cbv iota.
  eapply wp_mono; [apply (collects_bits (get := allows_of) (upd := put_allows) (λ _ _, False) (λ _, True) False roles _ (λ i a, ∃ j, ebitmap_bit new_roles j = true ∧ a = RoleAllow (u32 (i + 1)) (u32 (j + 1)))); [done|done|by apply Forall_true|done|]|].
  - intros i l1 o3 _ Hi _. apply (collects_bits _ (λ _, True) False); [done|done|by apply Forall_true|done|]. intros j l2 o4 _ Hj _. apply allow_pair_spec.
  - intros r o3 Hr. apply (collects_prior _ _ _ _ o o2); [auto|]. eapply collects_ext; [|exact Hr]. intros a. unfold allow_means. split.
    + intros (i & Hi & j & Hj & ->). exists i, j. rewrite B1 in Hi. rewrite B2 in Hj. done.
    + intros (i & j & Hi & Hj & ->). exists i. rewrite B1. split; [done|]. exists j. rewrite B2. done.
Qed.

(** ** Role transitions *)

Definition role_named (p : policydb) (v : N) : Prop := 0 < v < 2 ^ 32 ∧ v ≤ N.of_nat (length (p_role_val_to_name p)).

Definition same_trans (t t' : role_trans) : Prop := rt_role t = rt_role t' ∧ rt_type t = rt_type t' ∧ rt_tclass t = rt_tclass t'.
Abbreviation adds_trans := (collects (get := trans_of) (upd := put_trans) same_trans).

Definition trans_means (base out : policydb) (r : ModuleIO.role_trans_rule) (t : role_trans) : Prop :=
  ∃ i j k m, role_means base (rtr_roles r) i ∧ stands_for out typemap true (rtr_types r) j ∧ ebitmap_bit (rtr_classes r) k = true ∧
    rolemap !! N.to_nat (dec32 (rtr_new_role r)) = Some m ∧ t = RoleTrans (u32 (i + 1)) (u32 (j + 1)) (u32 (k + 1)) m.

Record trans_ready (base out : policydb) (r : ModuleIO.role_trans_rule) : Prop := {
  rt_roles_ok : role_ready base (rtr_roles r);
  rt_names : ∀ i, role_means base (rtr_roles r) i → i < N.of_nat (length (p_role_val_to_name out));
  rt_types_ok : set_ready out typemap (rtr_types r);
  rt_classes_ok : ebitmap_wf (rtr_classes r) ∧
    ∀ k, ebitmap_bit (rtr_classes r) k = true → k < N.of_nat (length (p_class_val_to_name out));
  rt_new : ∃ m, rolemap !! N.to_nat (dec32 (rtr_new_role r)) = Some m ∧ role_named out m }.

Lemma name_at {A} (l : list A) i : i < N.of_nat (length l) → ∃ x, l !! N.to_nat i = Some x.
Proof. intros H. destruct (lookup_lt_is_Some_2 l (N.to_nat i)) as [x Hx]; [lia|by exists x]. Qed.
Lemma role_name_at p v : role_named p v → ∃ x, p_role_val_to_name p !! N.to_nat (dec32 v) = Some x.
Proof. intros [[H0 H1] Hl]. rewrite dec32_pred by lia. apply name_at. lia. Qed.

Lemma find_role_trans_spec p new i j k m l o :
  rolemap !! N.to_nat (dec32 new) = Some m → role_named p m → i < N.of_nat (length (p_role_val_to_name p)) →
  j < N.of_nat (length (p_type_val_to_name p)) → k < N.of_nat (length (p_class_val_to_name p)) →
  Forall (λ t, role_named p (rt_new_role t)) l →
  let n := RoleTrans (u32 (i + 1)) (u32 (j + 1)) (u32 (k + 1)) m in
  ∃ r, find_role_trans rolemap p new i j k l o = Ret r o ∧
    match r with
    | Some true => n ∈ l
    | Some false => ∃ t, t ∈ l ∧ same_trans t n ∧ t ≠ n
    | None => ∀ t, t ∈ l → ¬ same_trans t n
    end.
Proof.
  intros Hm Hmn Hi Hj Hk Hl n. induction Hl as [|t l Ht Hl IH]; [exists None; split; [done|]; by intros t ?%elem_of_nil|].
  cbn [find_role_trans]. rewrite bind_run, Hm. cbn [deref]. unfold mret at 1, M_ret at 1.
  destruct ((rt_role t =? u32 (i + 1)) && (rt_type t =? u32 (j + 1)) && (rt_tclass t =? u32 (k + 1))) eqn:E.
  - reflect_bools. destruct (N.eqb_spec (rt_new_role t) m) as [Hn|Hn].
    + exists (Some true). split; [done|]. assert (t = n) as -> by (destruct t; cbn in *; by subst). left.
    + destruct (name_at _ _ Hi) as [? E1], (name_at _ _ Hj) as [? E2], (name_at _ _ Hk) as [? E3], (role_name_at _ _ Hmn) as [? E4], (role_name_at _ _ Ht) as [? E5].
      rewrite bind_run, E1. cbn. rewrite bind_run, E2. cbn. rewrite bind_run, E3. cbn. rewrite bind_run, E4. cbn. rewrite bind_run, E5. cbn.
      exists (Some false). split; [done|]. exists t. split; [left|]. split; [done|]. intros ->. done.
  - destruct IH as (r & Hr & Hres). exists r. split; [done|].
    assert (¬ same_trans t n) as Hns.
    { intros (H1 & H2 & H3). cbn in *. by rewrite H1, H2, H3, !N.eqb_refl in E. }
    destruct r as [[]|].
    + by right.
    + destruct Hres as (t' & Ht' & Hs). exists t'. split; [by right|done].
    + intros t' [->|Ht']%elem_of_cons; [done|by apply Hres].
Qed.

Lemma role_trans_triple_spec new m i j k l st o :
  let out := es_out st in
  rolemap !! N.to_nat (dec32 new) = Some m → role_named out m → i < N.of_nat (length (p_role_val_to_name out)) →
  j < N.of_nat (length (p_type_val_to_name out)) → k < N.of_nat (length (p_class_val_to_name out)) →
  Forall (λ t, role_named out (rt_new_role t)) l →
  wp (role_trans_triple rolemap new i j k (put_trans st l)) o
    (adds_trans (λ t, t = RoleTrans (u32 (i + 1)) (u32 (j + 1)) (u32 (k + 1)) m) l st o).
Proof.
  intros out Hm Hmn Hi Hj Hk Hl. unfold role_trans_triple. cbn [put_trans with_out es_out]. change (role_tr (set_role_tr (es_out st) l)) with l.
  set (n := RoleTrans _ _ _ m). destruct (find_role_trans_spec (set_role_tr out l) new i j k m l o Hm Hmn Hi Hj Hk Hl) as (r & Hr & Hres). fold n in Hres.
  wp_step. unfold wp at 1. fold out.
  rewrite Hr. destruct r as [[]|].
  - wp_step. by apply (collects_there (get := trans_of) (upd := put_trans)).
  - wp_step. right. destruct Hres as (t & Ht & Hs & Hne). exists t, n. done.
  - wp_step. wp_step. intros [] o' Ho; cbn [negb]; wp_step; [|left; intros H; by destruct (Ho H)].
    apply wp_deref. exists m. split; [done|]. wp_step. apply (collects_new (get := trans_of) (upd := put_trans)) with (l' := l ++ [n]).
    + intros t Ht Hs. apply (Hres t Ht). unfold same_trans in *. naive_solver.
    + intros t Ht Hs. by apply (Hres t Ht).
    + by rewrite <- Permutation_cons_append.
    + intros H. by apply Ho.
Qed.

Lemma copy_role_tran_spec cur l st o :
  let out := es_out st in
  dest_ready out → trans_ready (es_base st) out cur → Forall (λ t, role_named out (rt_new_role t)) l →
  wp (copy_role_tran typemap rolemap cur (put_trans st l)) o (adds_trans (trans_means (es_base st) out cur) l st o).
Proof.
  intros out Hout [Hroles Hrn Htypes [Hcw Hcn] (m & Hm & Hmn)] Hl. unfold copy_role_tran. wp_step. eapply wp_mono; [by apply expand_roles_of_spec|].
  intros [[rc roles] st1] o1 [Hst He]. cbn [fst snd] in Hst, He. subst st1. apply expanded_cases in He as [[Hrc Hne]|(-> & Ho1 & Hw1 & B1)].
  { rewrite (proj2 (Z.eqb_neq rc 0)) by done. cbn [negb]. wp_step. by left. }
  change (negb (0 =? 0)%Z) with false. cbv iota. wp_step.
  change (expand_convert_type_set (es_out (put_trans st l))) with (expand_convert_type_set out).
  eapply wp_mono; [apply convert_set_spec; [apply Hout|done]|].
  intros [rc types] o2 He. apply expanded_cases in He as [[Hrc Hne]|(-> & Ho2 & Hw2 & B2)].
  { rewrite (proj2 (Z.eqb_neq rc 0)) by done. cbn [negb]. wp_step. left. auto. }
  change (negb (0 =? 0)%Z) with false. cbv iota.
  set (new i j k := RoleTrans (u32 (i + 1)) (u32 (j + 1)) (u32 (k + 1)) m).
  set (P t := role_named out (rt_new_role t)).
  assert (∀ i j k, P (new i j k)) as HP by done.
  eapply wp_mono; [apply (collects_bits (get := trans_of) (upd := put_trans) same_trans P False roles _
    (λ i t, ∃ j, ebitmap_bit types j = true ∧ ∃ k, ebitmap_bit (rtr_classes cur) k = true ∧ t = new i j k)); [done|done|done| |]|].
  - by intros i t _ (j & _ & k & _ & ->).
  - intros i l1 o3 _ Hi Hl1. apply (collects_bits same_trans P False types _ (λ j t, ∃ k, ebitmap_bit (rtr_classes cur) k = true ∧ t = new i j k)); [done|done|done| |].
    + by intros j t _ (k & _ & ->).
    + intros j l2 o4 _ Hj Hl2. apply (collects_bits same_trans P False (rtr_classes cur) _ (λ k t, t = new i j k)); [done|done|done| |].
      * by intros k t _ ->.
      * intros k l3 o5 _ Hk Hl3. apply role_trans_triple_spec; [done..|by apply Hrn, B1| |by apply Hcn|done].
        apply B2 in Hj. pose proof (stands_for_bound _ _ _ _ _ (dr_types _ Hout) Htypes Hj). pose proof (dr_names _ Hout). fold out. lia.
  - intros r o3 Hr. apply (collects_prior _ _ _ _ o o2); [auto|]. eapply collects_ext; [|exact Hr]. intros t. unfold trans_means. split.
    + intros (i & Hi & j & Hj & k & Hk & ->). exists i, j, k, m. rewrite B1 in Hi. rewrite B2 in Hj. done.
    + intros (i & j & k & m' & Hi & Hj & Hk & Hm' & ->). assert (m' = m) as -> by congruence.
      exists i. rewrite B1. split; [done|]. exists j. rewrite B2. split; [done|]. by exists k.
Qed.

(** ** Transitions by file name *)

Definition same_file (t t' : filename_trans) : Prop :=
  ft_stype t = ft_stype t' ∧ ft_ttype t = ft_ttype t' ∧ ft_tclass t = ft_tclass t' ∧ ft_name t = ft_name t'.
Abbreviation adds_files := (collects (get := es_filename_trans) (upd := put_files) same_file).

Definition file_means (out : policydb) (r : filename_trans_rule) (t : filename_trans) : Prop :=
  ∃ i j m, stands_for out typemap true (ftr_stypes r) i ∧ stands_for out typemap true (ftr_ttypes r) j ∧
    typemap !! N.to_nat (dec32 (ftr_otype r)) = Some m ∧ t = FilenameTrans (u32 (i + 1)) (u32 (j + 1)) (ftr_tclass r) (ftr_name r) m.

Record file_ready (out : policydb) (r : filename_trans_rule) : Prop := {
  fr_stypes : set_ready out typemap (ftr_stypes r);
  fr_ttypes : set_ready out typemap (ftr_ttypes r);
  fr_tclass : tclass_named out (ftr_tclass r);
  fr_otype : ∃ m, typemap !! N.to_nat (dec32 (ftr_otype r)) = Some m ∧ type_named out m }.

Lemma filename_trans_pair_spec cur m i j l st o :
  let out := es_out st in
  tclass_named out (ftr_tclass cur) → type_named out m → i < N.of_nat (length (p_type_val_to_name out)) →
  j < N.of_nat (length (p_type_val_to_name out)) → Forall (λ t, type_named out (ft_otype t)) l →
  wp (filename_trans_pair cur m i j (put_files st l)) o
    (adds_files (λ t, t = FilenameTrans (u32 (i + 1)) (u32 (j + 1)) (ftr_tclass cur) (ftr_name cur) m) l st o).
Proof.
  intros out Hc Hm Hi Hj Hl. unfold filename_trans_pair. cbn [put_files with_filename_trans es_out es_filename_trans es_unnamed].
  set (n := FilenameTrans _ _ _ _ m). destruct (List.find _ l) as [t|] eqn:E.
  - apply find_some in E as [Hin%list_elem_of_In Hk]. unfold filename_key in Hk. rewrite !andb_true_iff, !N.eqb_eq, bool_decide_eq_true in Hk. destruct Hk as [[[K1 K2] K3] K4].
    destruct (N.eqb_spec (ft_otype t) m) as [Ho|Ho].
    + wp_step. apply (collects_there (get := es_filename_trans) (upd := put_files)); [|done]. assert (t = n) as <- by (destruct t; cbn in *; by subst). done.
    + rewrite Forall_forall in Hl. destruct (name_at _ _ Hi) as [? E1], (name_at _ _ Hj) as [? E2], (class_name_run _ _ Hc) as [? E3], (type_name_run _ _ (Hl t Hin)) as [? E4], (type_name_run _ _ Hm) as [? E5].
      rewrite K3. fold out. rewrite E1, E2, E3, E4, E5. do 5 (wp_step; apply wp_deref; eexists; split; [done|]).
      wp_step. right. exists t, n. split; [done|]. split; [done|]. split; [by split_and!|]. intros ->. done.
  - assert (∀ t, t ∈ l → ¬ same_file t n) as Hno.
    { intros t Ht (H1 & H2 & H3 & H4). pose proof (find_none _ _ E t (proj1 (list_elem_of_In _ _) Ht)) as Hk. unfold filename_key in Hk.
      cbn in *. rewrite H1, H2, H3, H4, !N.eqb_refl, bool_decide_true in Hk by done. done. }
    wp_step. wp_step. intros [] o1 Ho1; cbn [negb]; wp_step; [|left; intros H; by destruct (Ho1 H)].
    wp_step. intros [] o2 Ho2; cbn [negb]; wp_step; [|left; intros H; by destruct (Ho2 (proj2 (Ho1 H)))].
    apply (collects_new (get := es_filename_trans) (upd := put_files)) with (l' := n :: l).
    + intros t Ht Hs. apply (Hno t Ht). unfold same_file in *. naive_solver.
    + intros t Ht Hs. by apply (Hno t Ht).
    + done.
    + intros H. by apply Ho2, Ho1.
Qed.

Lemma expand_filename_tran_spec cur l st o :
  let out := es_out st in
  dest_ready out → file_ready out cur → Forall (λ t, type_named out (ft_otype t)) l →
  wp (expand_filename_tran typemap cur (put_files st l)) o (adds_files (file_means out cur) l st o).
Proof.
  intros out Hout [Hs Ht Hc (m & Hm & Hmn)] Hl. unfold expand_filename_tran. wp_step.
  change (expand_convert_type_set (es_out (put_files st l))) with (expand_convert_type_set out).
  eapply wp_mono; [apply convert_set_spec; [apply Hout|done]|].
  intros [rc stypes] o1 He. apply expanded_cases in He as [[Hrc Hne]|(-> & Ho1 & Hw1 & B1)].
  { rewrite (proj2 (Z.eqb_neq rc 0)) by done. cbn [negb]. wp_step. by left. }
  change (negb (0 =? 0)%Z) with false. cbv iota. wp_step.
  eapply wp_mono; [apply convert_set_spec; [apply Hout|done]|].
  intros [rc ttypes] o2 He. apply expanded_cases in He as [[Hrc Hne]|(-> & Ho2 & Hw2 & B2)].
  { rewrite (proj2 (Z.eqb_neq rc 0)) by done. cbn [negb]. wp_step. left. auto. }
  change (negb (0 =? 0)%Z) with false. cbv iota. wp_step. apply wp_deref. exists m. split; [done|].
  set (new i j := FilenameTrans (u32 (i + 1)) (u32 (j + 1)) (ftr_tclass cur) (ftr_name cur) m).
  set (P t := type_named out (ft_otype t)).
  assert (∀ set i, set_ready out typemap set → stands_for out typemap true set i → i < N.of_nat (length (p_type_val_to_name out))) as Hb.
  { intros set i Hset Hi. pose proof (stands_for_bound _ _ _ _ _ (dr_types _ Hout) Hset Hi). pose proof (dr_names _ Hout). lia. }
  eapply wp_mono; [apply (collects_bits (get := es_filename_trans) (upd := put_files) same_file P False stypes _
    (λ i t, ∃ j, ebitmap_bit ttypes j = true ∧ t = new i j)); [done|done|done| |]|].
  - by intros i t _ (j & _ & ->).
  - intros i l1 o3 _ Hi Hl1. apply (collects_bits same_file P False ttypes _ (λ j t, t = new i j)); [done|done|done| |].
    + by intros j t _ ->.
    + intros j l2 o4 _ Hj Hl2. apply filename_trans_pair_spec; [done|done|eapply (Hb (ftr_stypes cur)); [done|by apply B1]|eapply (Hb (ftr_ttypes cur)); [done|by apply B2]|done].
  - intros r o3 Hr. apply (collects_prior _ _ _ _ o o2); [auto|]. eapply collects_ext; [|exact Hr]. intros t. unfold file_means. split.
    + intros (i & Hi & j & Hj & ->). exists i, j, m. rewrite B1 in Hi. rewrite B2 in Hj. done.
    + intros (i & j & m' & Hi & Hj & Hm' & ->). assert (m' = m) as -> by congruence.
      exists i. rewrite B1. split; [done|]. exists j. by rewrite B2.
Qed.

(** ** Range transitions

    A range that cannot be expanded makes the code free wild pointers, which
    happens when memory is short; [calm] says that it is not. *)

Context (calm : Prop).

Definition range_expands (out : policydb) (sr : mls_semantic_range) (r : mls_range) : Prop :=
  ∀ o, (calm → o = []) → wp (mls_semantic_range_expand (SemSource sr false) out) o (λ x o',
    (o = [] → o' = []) ∧ x.1 = (0%Z, (Some (level0 r), Some (level1 r)))).

Definition same_range (t t' : range_trans) : Prop :=
  rtr_source_type t = rtr_source_type t' ∧ rtr_target_type t = rtr_target_type t' ∧ rtr_target_class t = rtr_target_class t'.
Abbreviation adds_ranges := (collects (get := ranges_of) (upd := put_ranges) same_range).

Definition range_means (out : policydb) (x : range_trans_rule) (t : range_trans) : Prop :=
  ∃ i j k r, stands_for out typemap true (rtrr_stypes x) i ∧ stands_for out typemap true (rtrr_ttypes x) j ∧
    ebitmap_bit (rtrr_tclasses x) k = true ∧ range_expands out (rtrr_trange x) r ∧
    t = RangeTrans (u32 (i + 1)) (u32 (j + 1)) (u32 (k + 1)) r.

Record range_ready (out : policydb) (x : range_trans_rule) : Prop := {
  rg_stypes : set_ready out typemap (rtrr_stypes x);
  rg_ttypes : set_ready out typemap (rtrr_ttypes x);
  rg_classes : ebitmap_wf (rtrr_tclasses x) ∧
    ∀ k, ebitmap_bit (rtrr_tclasses x) k = true → k < N.of_nat (length (p_class_val_to_name out)) ∧ k + 1 < 2 ^ 32;
  rg_range : ∃ r, range_expands out (rtrr_trange x) r }.

(** The range is determined: without refusals the code computes it. *)
Lemma range_expands_unique out sr r r' : range_expands out sr r → range_expands out sr r' → r = r'.
Proof.
  intros H H'. specialize (H [] (λ _, eq_refl)). specialize (H' [] (λ _, eq_refl)). unfold wp in *.
  destruct (mls_semantic_range_expand _ _ _) as [x o|]; [|done]. destruct H as [_ H], H' as [_ H']. rewrite H in H'. destruct r, r'. cbn in H'. congruence.
Qed.

Lemma exp_rangetr_spec sr r i j k l st o :
  let out := es_out st in
  (calm → o = []) → range_expands out sr r →
  i < N.of_nat (length (p_type_val_to_name out)) → i + 1 < 2 ^ 32 → j < N.of_nat (length (p_type_val_to_name out)) → j + 1 < 2 ^ 32 →
  k < N.of_nat (length (p_class_val_to_name out)) → k + 1 < 2 ^ 32 →
  wp (or_stop (exp_rangetr_helper (u32 (i + 1)) (u32 (j + 1)) (u32 (k + 1)) sr (put_ranges st l))) o
    (adds_ranges (λ t, t = RangeTrans (u32 (i + 1)) (u32 (j + 1)) (u32 (k + 1)) r) l st o).
Proof.
  intros out Hcalm Hr Hi Hi' Hj Hj' Hk Hk'. unfold or_stop, exp_rangetr_helper. cbn [put_ranges with_out es_out].
  change (range_tr (set_range_tr (es_out st) l)) with l. set (n := RangeTrans _ _ _ r). wp_step. wp_step.
  change (mls_semantic_range_expand (SemSource sr false) (set_range_tr (es_out st) l)) with (mls_semantic_range_expand (SemSource sr false) out).
  eapply wp_mono; [by apply Hr|]. intros [[rc levels] sr'] o1 [Ho1 Hx]. cbn [fst] in Hx. injection Hx as -> ->.
  change (negb (0 =? 0)%Z) with false. cbv iota. destruct (List.find _ l) as [t|] eqn:E.
  - apply find_some in E as [Hin%list_elem_of_In Hk0]. unfold range_key in Hk0. rewrite !andb_true_iff, !N.eqb_eq in Hk0. destruct Hk0 as [[K1 K2] K3].
    destruct (mls_range_eq _ _) eqn:Er.
    + apply range_eq_spec in Er. wp_step. wp_step. apply (collects_there (get := ranges_of) (upd := put_ranges)); [|done].
      assert (t = n) as <- by (destruct t, r; cbn in *; by subst). done.
    + assert (∀ x, x + 1 < 2 ^ 32 → N.to_nat (dec32 (u32 (x + 1))) = N.to_nat x) as Hdec by (intros x Hx; rewrite u32_small, dec32_pred by lia; f_equal; lia).
      destruct (name_at _ _ Hi) as [? E1], (name_at _ _ Hj) as [? E2], (name_at _ _ Hk) as [? E3].
      rewrite !Hdec by done. fold out. change (p_type_val_to_name (set_range_tr out l)) with (p_type_val_to_name out).
      change (p_class_val_to_name (set_range_tr out l)) with (p_class_val_to_name out). rewrite E1, E2, E3. do 3 (wp_step; apply wp_deref; eexists; split; [done|]).
      wp_step. wp_step. right. exists t, n. split; [done|]. split; [done|]. split; [by split_and!|]. intros ->.
      assert (mls_range_eq (rtr_target_range n) (MlsRange (level0 r) (level1 r)) = true) by (apply range_eq_spec; by destruct r). congruence.
  - assert (∀ t, t ∈ l → ¬ same_range t n) as Hno.
    { intros t Ht (H1 & H2 & H3). pose proof (find_none _ _ E t (proj1 (list_elem_of_In _ _) Ht)) as Hk0. unfold range_key in Hk0.
      cbn in *. by rewrite H1, H2, H3, !N.eqb_refl in Hk0. }
    wp_step. wp_step. intros [] o2 Ho2; cbn [negb]; wp_step; [|wp_step; left; intros H; by destruct (Ho2 (Ho1 H))].
    eapply wp_mono; [apply range_cpy_spec|]. intros [rc r'] o3 [Ho3 Hc]. cbn [fst snd] in *. wp_step.
    destruct Hc as [[= -> ->]| ->]; wp_step.
    + assert (MlsRange (level0 r) (level1 r) = r) as -> by by destruct r. apply (collects_new (get := ranges_of) (upd := put_ranges)) with (l' := n :: l).
      * intros t Ht Hs. apply (Hno t Ht). unfold same_range in *. naive_solver.
      * intros t Ht Hs. by apply (Hno t Ht).
      * done.
      * intros H. apply Ho3, Ho2, Ho1, H.
    + left. intros H. destruct (Ho2 (Ho1 H)) as [_ H2]. by destruct (Ho3 H2).
Qed.

Lemma expand_range_tran_spec x l st o :
  let out := es_out st in
  dest_ready out → range_ready out x → (calm → o = []) →
  wp (expand_range_tran typemap x (put_ranges st l)) o (adds_ranges (range_means out x) l st o).
Proof.
  intros out Hout [Hs Ht [Hcw Hcn] (rg & Hrg)] Hcalm. unfold expand_range_tran. wp_step.
  change (expand_convert_type_set (es_out (put_ranges st l))) with (expand_convert_type_set out).
  eapply wp_mono; [apply convert_set_spec; [apply Hout|done]|].
  intros [rc stypes] o1 He. apply expanded_cases in He as [[Hrc Hne]|(-> & Ho1 & Hw1 & B1)].
  { rewrite (proj2 (Z.eqb_neq rc 0)) by done. cbn [negb]. wp_step. by left. }
  change (negb (0 =? 0)%Z) with false. cbv iota. wp_step.
  eapply wp_mono; [apply convert_set_spec; [apply Hout|done]|].
  intros [rc ttypes] o2 He. apply expanded_cases in He as [[Hrc Hne]|(-> & Ho2 & Hw2 & B2)].
  { rewrite (proj2 (Z.eqb_neq rc 0)) by done. cbn [negb]. wp_step. left. auto. }
  change (negb (0 =? 0)%Z) with false. cbv iota.
  set (new i j k := RangeTrans (u32 (i + 1)) (u32 (j + 1)) (u32 (k + 1)) rg).
  assert (∀ set i, set_ready out typemap set → stands_for out typemap true set i → i < N.of_nat (length (p_type_val_to_name out)) ∧ i + 1 < 2 ^ 32) as Hb.
  { intros set i Hset Hi. pose proof (stands_for_bound _ _ _ _ _ (dr_types _ Hout) Hset Hi). pose proof (dr_names _ Hout). pose proof (dr_count _ Hout).
    change (2 ^ 16 - 1) with 65535 in *. change (2 ^ 32) with 4294967296. lia. }
  eapply wp_mono; [apply (collects_bits (get := ranges_of) (upd := put_ranges) same_range (λ _, True) calm stypes _
    (λ i t, ∃ j, ebitmap_bit ttypes j = true ∧ ∃ k, ebitmap_bit (rtrr_tclasses x) k = true ∧ t = new i j k)); [done|auto|by apply Forall_true|done|]|].
  - intros i l1 o3 Hc3 Hi _. apply (collects_bits same_range (λ _, True) calm ttypes _ (λ j t, ∃ k, ebitmap_bit (rtrr_tclasses x) k = true ∧ t = new i j k)); [done|done|by apply Forall_true|done|].
    intros j l2 o4 Hc4 Hj _. apply (collects_bits same_range (λ _, True) calm (rtrr_tclasses x) _ (λ k t, t = new i j k)); [done|done|by apply Forall_true|done|].
    intros k l3 o5 Hc5 Hk _. destruct (Hb (rtrr_stypes x) i) as [? ?]; [done|by apply B1|]. destruct (Hb (rtrr_ttypes x) j) as [? ?]; [done|by apply B2|].
    destruct (Hcn k Hk). by apply exp_rangetr_spec.
  - intros r o3 Hr. apply (collects_prior _ _ _ _ o o2); [auto|]. eapply collects_ext; [|exact Hr]. intros t. unfold range_means. split.
    + intros (i & Hi & j & Hj & k & Hk & ->). exists i, j, k, rg. rewrite B1 in Hi. rewrite B2 in Hj. done.
    + intros (i & j & k & rg' & Hi & Hj & Hk & Hrg' & ->). rewrite (range_expands_unique _ _ _ _ Hrg' Hrg).
      exists i. rewrite B1. split; [done|]. exists j. rewrite B2. split; [done|]. by exists k.
Qed.
End state.
