(* ===== verification/ExpandModule.v ===== *)
(** The blocks of a module, expanded as a whole: [copy_and_expand_avrule_block].

    [contents] is what the enabled declarations have, [grown] how the new
    policy grows by it, and [refused] why a rule is turned down.  Each call of
    [expand_decl] grows the policy by one part of a declaration; the parts are
    put together by [outcome_and_then] and [outcome_for_list]. *)

From stdpp Require Import sorting gmap.
From S2P Require Import Prelude.
From S2P Require Import Ebitmap.
From S2P Require Import Hashtab.
From S2P Require Import MlsTypes.
From S2P Require Import Avtab.
From S2P Require Import Policydb.
From S2P Require Import Mls.
From S2P Require Import Context.
From S2P Require Import Conditional.
From S2P Require Import Services.
From S2P Require Import Expand.
From S2P Require Import Assertion.
From S2P Require Import PolicyIO.
From S2P Require Import SymbolIO.
From S2P Require Import ModuleIO.
From S2P Require Import PolicyIndex.
From S2P Require Import CondIO.
From S2P Require Import PolicydbIO.
From S2P Require Import ExpandRules.
From S2P Require Import ExpandEffects.
From S2P Require Import ExpandCond.
From S2P Require Import ExpandBlocks.
From S2P Require Import ExpandConds.
From S2P Require Import ExpandFacts.
Local Open Scope N_scope.

(** * The symbols stay *)

(** The second policy has the symbols of the first. *)
Definition agrees (p q : policydb) : Prop := ∃ te c l tr ra rg, q = set_range_tr (set_rules p te c l tr ra) rg.

Lemma agrees_refl p : agrees p p.
Proof. exists (te_avtab p), (te_cond_avtab p), (cond_list p), (role_tr p), (role_allows p), (range_tr p). by destruct p. Qed.
Lemma agrees_rules p q te c l tr ra : agrees p q → agrees p (set_rules q te c l tr ra).
Proof. intros (te' & c' & l' & tr' & ra' & rg & ->). by exists te, c, l, tr, ra, rg. Qed.
Lemma agrees_ranges p q l : agrees p q → agrees p (set_range_tr q l).
Proof. intros (te & c & l' & tr & ra & rg & ->). by exists te, c, l', tr, ra, l. Qed.

Section agrees.
Context (typemap boolmap rolemap : list N) (calm : Prop) (base p q : policydb) (Hpq : agrees p q).

Ltac same_symbols := destruct Hpq as (te & c & l & tr & ra & rg & ->); reflexivity.

Lemma agrees_trans_means : trans_means typemap rolemap base q = trans_means typemap rolemap base p.
Proof using Hpq. same_symbols. Qed.
Lemma agrees_file_means : file_means typemap q = file_means typemap p.
Proof using Hpq. same_symbols. Qed.
Lemma agrees_range_means : range_means typemap calm q = range_means typemap calm p.
Proof using Hpq. same_symbols. Qed.
Lemma agrees_rules_effect : rules_effect q typemap = rules_effect p typemap.
Proof using Hpq. same_symbols. Qed.
Lemma agrees_stands_for : stands_for q typemap = stands_for p typemap.
Proof using Hpq. same_symbols. Qed.
Lemma agrees_role_named : role_named q = role_named p.
Proof using Hpq. same_symbols. Qed.
Lemma agrees_type_named : type_named q = type_named p.
Proof using Hpq. same_symbols. Qed.

Lemma agrees_dest : dest_ready p → dest_ready q.
Proof using Hpq. destruct Hpq as (te & c & l & tr & ra & rg & ->). intros [[H1 H2 H3] H4 H5]. split; [by split|done..]. Qed.
Lemma agrees_set s : set_ready p typemap s → set_ready q typemap s.
Proof using Hpq. destruct Hpq as (te & c & l & tr & ra & rg & ->). intros [H1 H2 H3 H4]. by split. Qed.
Lemma agrees_source r : source_ready p typemap r → source_ready q typemap r.
Proof using Hpq.
  intros [Hr Hs Ht]. split; [|by apply agrees_set..]. destruct Hpq as (te & c & l & tr & ra & rg & ->).
  destruct Hr as [?|[R1 R2 R3 R4]]; [by left|right]. by split.
Qed.
Lemma agrees_trans_ready r : trans_ready typemap rolemap base p r → trans_ready typemap rolemap base q r.
Proof using Hpq.
  intros [H1 H2 H3 H4 H5]. assert (set_ready q typemap (rtr_types r)) by (by apply agrees_set).
  destruct Hpq as (te & c & l & tr & ra & rg & ->). by split.
Qed.
Lemma agrees_file_ready r : file_ready typemap p r → file_ready typemap q r.
Proof using Hpq.
  intros [H1 H2 H3 H4]. apply agrees_set in H1, H2. destruct Hpq as (te & c & l & tr & ra & rg & ->). by split.
Qed.
Lemma agrees_range_ready r : range_ready typemap calm p r → range_ready typemap calm q r.
Proof using Hpq.
  intros [H1 H2 H3 H4]. apply agrees_set in H1, H2. destruct Hpq as (te & c & l & tr & ra & rg & ->). by split.
Qed.
Lemma agrees_cond_ready cn : cond_ready typemap boolmap base p cn → cond_ready typemap boolmap base q cn.
Proof using Hpq.
  intros [?|(e & H1 & H2 & H3 & H4 & H5)]; [by left|right]. exists e. do 3 (split; [done|]). split.
  - destruct Hpq as (te & c & l & tr & ra & rg & ->). exact H4.
  - intros r Hr. by apply agrees_source, H5.
Qed.
Lemma agrees_conflict t rules : cond_conflict typemap q t rules ↔ cond_conflict typemap p t rules.
Proof using Hpq. unfold cond_conflict. by rewrite agrees_rules_effect. Qed.
End agrees.

(** * What declarations have *)

Record contents := Contents {
  c_rules : list avrule; c_allows : list role_allow_rule; c_trans : list ModuleIO.role_trans_rule;
  c_files : list filename_trans_rule; c_ranges : list range_trans_rule; c_conds : list mod_cond }.

Definition c_none : contents := Contents [] [] [] [] [] [].
Definition c_app (C C' : contents) : contents :=
  Contents (c_rules C ++ c_rules C') (c_allows C ++ c_allows C') (c_trans C ++ c_trans C') (c_files C ++ c_files C')
    (c_ranges C ++ c_ranges C') (c_conds C ++ c_conds C').
Definition contents_of (d : avrule_decl) : contents :=
  Contents (decl_avrules d) (role_allow_rules d) (role_tr_rules d) (filename_trans_rules d) (range_tr_rules d) (decl_conds d).
Definition contents_all (ds : list avrule_decl) : contents :=
  Contents (ds ≫= decl_avrules) (ds ≫= role_allow_rules) (ds ≫= role_tr_rules) (ds ≫= filename_trans_rules)
    (ds ≫= range_tr_rules) (ds ≫= decl_conds).

(** The declarations that are on. *)
Definition enabled_decl (b : avrule_block) : option avrule_decl := i ← enabled b; branch_list b !! i.
Definition enabled_decls (blocks : list avrule_block) : list avrule_decl := omap enabled_decl blocks.

Lemma contents_all_snoc ds d : contents_all (ds ++ [d]) = c_app (contents_all ds) (contents_of d).
Proof. unfold contents_all, c_app, contents_of. cbn. by rewrite !bind_app, !bind_cons, !app_nil_r. Qed.
Lemma c_app_none_r C : c_app C c_none = C.
Proof. destruct C. unfold c_app. cbn. by rewrite !app_nil_r. Qed.

(** Lists of rules that are there after and before. *)
Section extended.
Context {A R : Type} (get : expand_state → list A) (same : A → A → Prop) (means : R → A → Prop).

Definition extended (rules : list R) (st st' : expand_state) : Prop :=
  (∀ a, a ∈ get st' ↔ a ∈ get st ∨ ∃ r, r ∈ rules ∧ means r a) ∧
  (unambiguous same (get st) → unambiguous same (get st')).

Lemma extended_none st st' : get st' = get st → extended [] st st'.
Proof. unfold extended. intros ->. split; [|done]. intros a. split; [by left|]. by intros [?|(r & ?%elem_of_nil & _)]. Qed.
Lemma extended_app l1 l2 st1 st2 st3 : extended l1 st1 st2 → extended l2 st2 st3 → extended (l1 ++ l2) st1 st3.
Proof.
  intros [H1 U1] [H2 U2]. split; [|auto]. intros a. rewrite H2, H1. setoid_rewrite elem_of_app. naive_solver.
Qed.
End extended.

(** * How the policy grows *)

(** A table that has grown by an effect, its conditional companion aside. *)
Definition table_grew (a a' : avtab) (E : effect) : Prop :=
  applied (RuleTabs a (Avtab None 0 0 0) []) (RuleTabs a' (Avtab None 0 0 0) []) E.

Lemma applied_grew st st' E : applied st st' E → table_grew (rt_te st) (rt_te st') E.
Proof. intros [H1 H2 H3 H4 H5]. by split. Qed.

(** A rule for later checks. *)
Definition is_never (r : avrule) : Prop := truth (N.land (ar_specified r) (N.lor AVRULE_NEVERALLOW AVRULE_XPERMS_NEVERALLOW)) = true.
#[global] Instance is_never_dec r : Decision (is_never r).
Proof. unfold is_never. apply _. Defined.

Section module.
Context (disable_dontaudit expand_neverallow : bool) (typemap boolmap rolemap : list N) (calm : Prop).
(** The policy of the module, and the new policy when the expansion begins. *)
Context (base out : policydb).

(** ** Rules for later checks *)

(** The copy of a rule, with sets of types of the new policy. *)
Definition never_copy (r c : avrule) : Prop := ∃ s t,
  c = AvRule (ar_specified r) (ar_flags r) (TypeSet s ebitmap_init 0) (TypeSet t ebitmap_init 0) (ar_perms r) (ar_xperms r) ∧
  (ebitmap_wf s ∧ ∀ i, ebitmap_bit s i = true ↔ stands_for out typemap true (ar_stypes r) i) ∧
  (ebitmap_wf t ∧ ∀ i, ebitmap_bit t i = true ↔ stands_for out typemap true (ar_ttypes r) i).

(** The rules that are copied when they are not expanded. *)
Definition nevers (rules : list avrule) : list avrule := if expand_neverallow then [] else filter is_never rules.

(** The newest copy comes first; one can be missing when memory is short. *)
Definition never_copied (rules : list avrule) (o : oracle) (l l' : list avrule) : Prop := ∃ rs cs,
  l' = cs ++ l ∧ Forall2 never_copy rs cs ∧ rs `sublist_of` reverse (nevers rules) ∧ (o = [] → rs = reverse (nevers rules)).

Lemma nevers_app l1 l2 : nevers (l1 ++ l2) = nevers l1 ++ nevers l2.
Proof. unfold nevers. destruct expand_neverallow; [done|]. apply filter_app. Qed.

Lemma never_copied_none o l : never_copied [] o l l.
Proof.
  assert (reverse (nevers []) = []) as E by (unfold nevers; by destruct expand_neverallow).
  exists [], []. unfold never_copied. by rewrite E.
Qed.
Lemma never_copied_app l1 l2 o o1 l l' l'' :
  (o = [] → o1 = []) → never_copied l1 o l l' → never_copied l2 o1 l' l'' → never_copied (l1 ++ l2) o l l''.
Proof.
  intros Ho (rs1 & cs1 & -> & H1 & S1 & E1) (rs2 & cs2 & -> & H2 & S2 & E2). exists (rs2 ++ rs1), (cs2 ++ cs1).
  rewrite nevers_app, reverse_app. split; [by rewrite app_assoc|]. split; [by apply Forall2_app|]. split; [by apply sublist_app|].
  intros H. by rewrite E1, E2 by auto.
Qed.

Lemma copy_perms_spec l o :
  Forall (λ c, cp_tclass c ≠ 0) l → wp (copy_perms l) o (λ b o', (o = [] → o' = []) ∧ (b = true ∨ o ≠ [])).
Proof.
  intros H. revert o. induction H as [|c l Hc _ IH]; intros o; cbn [copy_perms]; [wp_step; auto|].
  wp_step. wp_step. intros [] o1 Ho1; cbn [negb]; wp_step; [|split; [intros H; by destruct (Ho1 H)|right; intros H; by destruct (Ho1 H)]].
  assert (truth (cp_tclass c) = true) as -> by (unfold truth; by rewrite (proj2 (N.eqb_neq _ _) Hc)).
  cbn [Expand.assert]. wp_step. eapply wp_mono; [apply IH|]. intros b o2 [Ho2 Hb]. split; [intros H; apply Ho2, Ho1, H|].
  destruct Hb as [?|Hb]; [by left|right]. intros H. apply Hb, Ho1, H.
Qed.

Definition with_never (st : expand_state) (l : list avrule) : expand_state :=
  ExpandState (es_base st) (es_out st) (es_filename_trans st) (es_unnamed st) l (es_unsupported st).

Lemma copy_neverallow_spec r st o :
  agrees out (es_out st) → dest_ready out → set_ready out typemap (ar_stypes r) → set_ready out typemap (ar_ttypes r) →
  Forall (λ c, cp_tclass c ≠ 0) (ar_perms r) →
  wp (copy_neverallow typemap r st) o (λ x o', (o = [] → o' = []) ∧
    ((∃ c, never_copy r c ∧ x.2 = with_never st (c :: es_neverallow st)) ∨ (o ≠ [] ∧ x.2 = st))).
Proof.
  intros Hag Hout Hs Ht Hp. pose proof (agrees_dest _ _ Hag Hout) as Hd. unfold copy_neverallow.
  wp_step. eapply wp_mono; [apply convert_set_spec; [apply Hd|by eapply agrees_set]|]. intros [rc s] o1 He.
  rewrite (agrees_stands_for _ _ _ Hag) in He. pose proof (proj1 He) as Hnil1. cbn [fst] in Hnil1. apply expanded_cases in He as [[Hrc Hne]|(-> & Ho1 & Hw1 & B1)].
  { rewrite (proj2 (Z.eqb_neq rc 0)) by done. cbn [negb]. wp_step. split; [intros H; by apply Hnil1|by right]. }
  change (negb (0 =? 0)%Z) with false. cbv iota.
  wp_step. eapply wp_mono; [apply convert_set_spec; [apply Hd|by eapply agrees_set]|]. intros [rc t] o2 He.
  rewrite (agrees_stands_for _ _ _ Hag) in He. pose proof (proj1 He) as Hnil2. cbn [fst] in Hnil2. apply expanded_cases in He as [[Hrc Hne]|(-> & Ho2 & Hw2 & B2)].
  { rewrite (proj2 (Z.eqb_neq rc 0)) by done. cbn [negb]. wp_step. split; [intros H; by apply Hnil2, Ho1|right; auto]. }
  change (negb (0 =? 0)%Z) with false. cbv iota.
  wp_step. wp_step. intros [] o3 Ho3; cbn [negb]; [|wp_step; split; [intros H; apply Ho3; auto|right; split; [|done]; intros H; by destruct (Ho3 (Ho2 (Ho1 H)))]].
  wp_step. eapply wp_mono; [apply cpy_spec|]. intros [rc s'] o4 [Ho4 Hs4]. cbn [fst] in Ho4. destruct (Z.eqb_spec rc 0) as [->|Hrc]; cbn [negb].
  2: { wp_step. split; [intros H; apply Ho4; apply Ho3; auto|]. right. split; [|done]. intros H. apply Hrc, Ho4. apply Ho3. auto. }
  destruct Hs4 as [[= ->]|[=]].
  wp_step. eapply wp_mono; [apply cpy_spec|]. intros [rc t'] o5 [Ho5 Ht5]. cbn [fst] in Ho5. destruct (Z.eqb_spec rc 0) as [->|Hrc]; cbn [negb].
  2: { wp_step. split; [intros H; apply Ho5; apply Ho4; apply Ho3; auto|]. right. split; [|done]. intros H. apply Hrc, Ho5. apply Ho4. apply Ho3. auto. }
  destruct Ht5 as [[= ->]|[=]].
  assert (o = [] → o5 = []) as Hall by (intros H; apply Ho5; apply Ho4; apply Ho3; auto).
  wp_step. eapply wp_mono; [by apply copy_perms_spec|]. intros [] o6 [Ho6 Hb]; cbn [negb]; [|wp_step; split; [auto|right; split; [|done]; destruct Hb as [?|Hb]; [done|auto]]].
  wp_step. apply wp_mono with (Q := λ b o7, (o6 = [] → b = true ∧ o7 = [])).
  { destruct (ar_xperms r); [wp_step; intros b o7 H7 H; by destruct (H7 H)|wp_step; auto]. }
  intros [] o7 H7; cbn [negb]; wp_step; (split; [intros H; apply H7; auto|]).
  - left. eexists. split; [|reflexivity]. by exists s, t.
  - right. split; [|done]. intros H. by destruct (H7 (Ho6 (Hall H))).
Qed.

(** ** One part after the other *)

Definition no_key (a a' : role_allow) : Prop := False.

(** The policy while it is expanded. *)
Record at_work (st : expand_state) : Prop := {
  aw_base : es_base st = base;
  aw_out : agrees out (es_out st);
  aw_tables : tables_ready (es_out st);
  aw_conds : established (es_out st);
  aw_trans : Forall (λ t, role_named out (rt_new_role t)) (trans_of st);
  aw_files : Forall (λ t, type_named out (ft_otype t)) (es_filename_trans st) }.

(** What the parts of a module add: each kind of rules is there exactly if it
    was there or is meant by the module, and no key gets a second rule.
    [es_unsupported] tells of rules that are expanded only for checks. *)
Record grown (C : contents) (o : oracle) (st st' : expand_state) : Prop := {
  gr_te : table_grew (te_avtab (es_out st)) (te_avtab (es_out st')) (rules_effect out typemap (c_rules C));
  gr_never : never_copied (c_rules C) o (es_neverallow st) (es_neverallow st');
  gr_unsupported : es_unsupported st' = es_unsupported st || (expand_neverallow && existsb (λ r, bool_decide (is_never r)) (c_rules C));
  gr_allows : extended allows_of no_key (allow_means rolemap base) (c_allows C) st st';
  gr_trans : extended trans_of same_trans (trans_means typemap rolemap base out) (c_trans C) st st';
  gr_files : extended es_filename_trans same_file (file_means typemap out) (c_files C) st st';
  gr_ranges : extended ranges_of same_range (range_means typemap calm out) (c_ranges C) st st';
  gr_unnamed : es_unnamed st' = es_unnamed st }.

(** Two rules for one key. *)
Inductive refused (C : contents) (st : expand_state) : Prop :=
  | refused_trans r t t' : r ∈ c_trans C → t ∈ trans_of st → trans_means typemap rolemap base out r t' → same_trans t t' → t ≠ t' → refused C st
  | refused_file r t t' : r ∈ c_files C → t ∈ es_filename_trans st → file_means typemap out r t' → same_file t t' → t ≠ t' → refused C st
  | refused_range r t t' : r ∈ c_ranges C → t ∈ ranges_of st → range_means typemap calm out r t' → same_range t t' → t ≠ t' → refused C st
  | refused_rule t : rt_te t = te_avtab (es_out st) → conflicting t (ef_wants (rules_effect out typemap (c_rules C))) → refused C st
  | refused_cond cn t : cn ∈ c_conds C → rt_te t = te_avtab (es_out st) →
      (cond_conflict typemap out t (mc_true cn) ∨ cond_conflict typemap out t (mc_false cn)) → refused C st.

Definition outcome (C : contents) (st : expand_state) (o : oracle) (r : step) (o' : oracle) : Prop :=
  match r with
  | inr st' => (o = [] → o' = []) ∧ at_work st' ∧ grown C o st st'
  | inl st' => o ≠ [] ∨ refused C st'
  end.

Lemma grown_none o st : grown c_none o st st.
Proof.
  split; try done; try (by apply extended_none).
  - unfold table_grew, rules_effect. cbn [c_none c_rules]. rewrite ef_ex_nil. apply applied_none.
  - apply never_copied_none.
  - cbn. by rewrite andb_false_r, orb_false_r.
Qed.

Lemma ef_ex_app {A} l1 l2 (E : A → effect) : ef_ex (.∈ l1 ++ l2) E ≡ ef_or (ef_ex (.∈ l1) E) (ef_ex (.∈ l2) E).
Proof. split; [|split]; intros s t c k x; cbn; setoid_rewrite elem_of_app; naive_solver. Qed.

Lemma grown_app C1 C2 o o1 st1 st2 st3 :
  (o = [] → o1 = []) → grown C1 o st1 st2 → grown C2 o1 st2 st3 → grown (c_app C1 C2) o st1 st3.
Proof.
  intros Ho [A1 A2 A3 A4 A5 A6 A7 A8] [B1 B2 B3 B4 B5 B6 B7 B8]. split; cbn [c_app c_rules c_allows c_trans c_files c_ranges].
  - unfold table_grew, rules_effect in *. rewrite ef_ex_app. by eapply applied_trans.
  - by eapply never_copied_app.
  - rewrite B3, A3, existsb_app. by destruct (es_unsupported st1), expand_neverallow, (existsb _ (c_rules C1)).
  - by eapply extended_app.
  - by eapply extended_app.
  - by eapply extended_app.
  - by eapply extended_app.
  - by rewrite B8.
Qed.

(** More rules are refused if they have one that is. *)
Record c_sub (C C' : contents) : Prop := {
  cs_rules : c_rules C ⊆ c_rules C'; cs_trans : c_trans C ⊆ c_trans C'; cs_files : c_files C ⊆ c_files C';
  cs_ranges : c_ranges C ⊆ c_ranges C'; cs_conds : c_conds C ⊆ c_conds C' }.

Lemma refused_sub C C' st : c_sub C C' → refused C st → refused C' st.
Proof.
  intros [S1 S2 S3 S4 S5] [r t t' ?%S2| r t t' ?%S3|r t t' ?%S4|t Ht H|cn t ?%S5].
  - by eapply refused_trans.
  - by eapply refused_file.
  - by eapply refused_range.
  - eapply refused_rule; [done|]. eapply conflicting_mono; [|exact H]. intros s u c k v (r & ?%S1 & Hr). by exists r.
  - by eapply refused_cond.
Qed.
Lemma c_sub_l C C' : c_sub C (c_app C C').
Proof. split; intros x Hx; apply elem_of_app; by left. Qed.
Lemma c_sub_r C C' : c_sub C' (c_app C C').
Proof. split; intros x Hx; apply elem_of_app; by right. Qed.

Lemma unchanged_outcome st o : at_work st → outcome c_none st o (inr st) o.
Proof. intros H. split; [done|]. split; [done|]. apply grown_none. Qed.

Lemma next_outcome C1 C2 st st1 o o1 r o' :
  outcome C1 st o (inr st1) o1 → outcome C2 st1 o1 r o' → outcome (c_app C1 C2) st o r o'.
Proof.
  intros (Ho & _ & Hg). destruct r as [st'|st']; cbn.
  - intros [?|Hr]; [left; auto|right]. eapply refused_sub; [apply c_sub_r|done].
  - intros (Ho' & Hw & Hg'). split; [auto|]. split; [done|]. by eapply grown_app.
Qed.
Lemma outcome_stop C1 C2 st o st' o' : outcome C1 st o (inl st') o' → outcome (c_app C1 C2) st o (inl st') o'.
Proof. intros [?|Hr]; [by left|right]. eapply refused_sub; [apply c_sub_l|done]. Qed.

Lemma outcome_and_then C1 C2 st o m k :
  (calm → o = []) → wp m o (outcome C1 st o) →
  (∀ st1 o1, (calm → o1 = []) → at_work st1 → wp (k st1) o1 (outcome C2 st1 o1)) →
  wp (and_then m k) o (outcome (c_app C1 C2) st o).
Proof.
  intros Hc Hm Hk. unfold and_then. wp_step. eapply wp_mono; [exact Hm|]. intros [st1|st1] o1 H1; [wp_step; by apply outcome_stop|].
  eapply wp_mono; [apply Hk; [intros H; apply H1; auto|apply H1]|]. intros r o2 H2. by eapply next_outcome.
Qed.

(** The parts of a list. *)
Fixpoint c_concat {X} (f : X → contents) (l : list X) : contents :=
  match l with [] => c_none | x :: l' => c_app (f x) (c_concat f l') end.

Lemma c_app_assoc C1 C2 C3 : c_app C1 (c_app C2 C3) = c_app (c_app C1 C2) C3.
Proof. unfold c_app. cbn. by rewrite !app_assoc. Qed.
Lemma c_app_none_l C : c_app c_none C = C.
Proof. by destruct C. Qed.
Lemma c_concat_app {X} (f : X → contents) l l' : c_concat f (l ++ l') = c_app (c_concat f l) (c_concat f l').
Proof. induction l as [|x l IH]; cbn; [by rewrite c_app_none_l|]. by rewrite IH, c_app_assoc. Qed.

Lemma outcome_for_list {X} (f : X → contents) (body : X → expand_state → M step) l st o :
  (calm → o = []) → at_work st →
  (∀ x st1 o1, x ∈ l → (calm → o1 = []) → at_work st1 → wp (body x st1) o1 (outcome (f x) st1 o1)) →
  wp (for_list body l st) o (outcome (c_concat f l) st o).
Proof.
  intros Hc Hw Hbody. apply (wp_for_list (λ dn st' o', outcome (c_concat f dn) st o (inr st') o')).
  - by apply unchanged_outcome.
  - intros dn x rest st1 o1 Hsplit H1. assert (x ∈ l) as Hx by (rewrite Hsplit; apply elem_of_app; right; left).
    eapply wp_mono; [apply Hbody; [done|intros H; apply H1; auto|apply H1]|]. intros [st2|st2] o2 H2.
    + pose proof (next_outcome _ _ _ _ _ _ _ _ H1 H2) as H.
      rewrite Hsplit. rewrite c_concat_app. cbn [c_concat]. rewrite c_app_assoc. by apply outcome_stop.
    + rewrite c_concat_app. cbn [c_concat]. rewrite c_app_none_r. by eapply next_outcome.
  - done.
Qed.

(** ** The lists of rules *)

Lemma at_work_lists st tr ra :
  at_work st → Forall (λ t, role_named out (rt_new_role t)) tr →
  at_work (with_out st (set_rules (es_out st) (te_avtab (es_out st)) (te_cond_avtab (es_out st)) (cond_list (es_out st)) tr ra)).
Proof. intros [A1 A2 [T1 T2 T3 T4 T5] A4 A5 A6] H. split; [done|by apply agrees_rules|by split|done|done|done]. Qed.
Lemma at_work_ranges st l : at_work st → at_work (put_ranges st l).
Proof. intros [A1 A2 [T1 T2 T3 T4 T5] A4 A5 A6]. split; [done|by apply agrees_ranges|by split|done|done|done]. Qed.
Lemma at_work_files st l : at_work st → Forall (λ t, type_named out (ft_otype t)) l → at_work (put_files st l).
Proof. intros [A1 A2 A3 A4 A5 A6] H. by split. Qed.

Section field.
Context {A R : Type} {get : expand_state → list A} {upd : expand_state → list A → expand_state} `{!Field get upd}.
Context (same : A → A → Prop) (means : R → A → Prop) (P : A → Prop) (C : contents) (body : R → expand_state → M step).

Lemma field_outcome rules st o :
  (calm → o = []) → Forall P (get st) → (∀ r t, r ∈ rules → means r t → P t) →
  (∀ r l o, (calm → o = []) → r ∈ rules → Forall P l → wp (body r (upd st l)) o (collects (get := get) (upd := upd) same (means r) l st o)) →
  (∀ l, Forall P l → at_work (upd st l)) →
  (∀ l, extended get same means rules st (upd st l) → grown C o st (upd st l)) →
  (∀ st' r t t', r ∈ rules → t ∈ get st' → means r t' → same t t' → t ≠ t' → refused C st') →
  wp (or_stop (r ← for_list body rules st; mret (loop_rc r))) o (outcome C st o).
Proof using Type*.
  intros Hc HP Hmeans Hbody Hw Hg Hr. unfold or_stop. wp_step. wp_step. pose proof (upd_get st) as E. rewrite <- E at 1.
  eapply wp_mono; [apply (collects_list (get := get) (upd := upd) same P calm body means rules (get st) st o); [done|done|done|by intros; apply Hbody]|].
  intros [st'|st'] o1 H; wp_step; apply wp_ret.
  - destruct H as [?|(t & t' & Ht & (r & Hrin & Hm) & Hs & Hne)]; [by left|right]. by eapply Hr.
  - destruct H as (Ho & l & -> & Hl & Hu). split; [done|]. split.
    + apply Hw. rewrite Forall_forall in HP |- *. intros t [Ht|(r & Hrin & Hm)]%Hl; [auto|by eapply Hmeans].
    + apply Hg. unfold extended. by rewrite get_upd.
Qed.
End field.

Definition only_allows (l : list role_allow_rule) : contents := Contents [] l [] [] [] [].
Definition only_trans (l : list ModuleIO.role_trans_rule) : contents := Contents [] [] l [] [] [].
Definition only_files (l : list filename_trans_rule) : contents := Contents [] [] [] l [] [].
Definition only_ranges (l : list range_trans_rule) : contents := Contents [] [] [] [] l [].
Definition only_rule (r : avrule) : contents := Contents [r] [] [] [] [] [].
Definition only_conds (l : list mod_cond) : contents := Contents [] [] [] [] [] l.

Ltac grows_field :=
  let Ht := fresh in let Hn := fresh in let Hu := fresh in let A1 := fresh in let A2 := fresh in let A3 := fresh in let A4 := fresh in
  match goal with |- grown _ ?o ?st _ =>
    destruct (grown_none o st) as [Ht Hn Hu A1 A2 A3 A4 _]; split; try assumption; try reflexivity; try (by apply extended_none) end.

Lemma allows_outcome rules st o :
  at_work st → (∀ r, r ∈ rules → role_ready rolemap base (rar_roles r) ∧ role_ready rolemap base (rar_new_roles r)) → (calm → o = []) →
  wp (or_stop (copy_role_allows rolemap rules st)) o (outcome (only_allows rules) st o).
Proof.
  intros Hw Hr Hc. pose proof (aw_base _ Hw) as Hb.
  apply (field_outcome (get := allows_of) (upd := put_allows) no_key (allow_means rolemap base) (λ _, True)); [done|by apply Forall_true|done| | | |].
  - intros r l o1 _ Hin _. rewrite <- Hb. destruct (Hr r Hin). apply copy_role_allow_spec; by rewrite Hb.
  - intros l _. apply at_work_lists; [done|apply Hw].
  - intros l Hl. grows_field.
  - intros st' r t t' _ _ _ [].
Qed.

Lemma trans_outcome rules st o :
  dest_ready out → at_work st → (∀ r, r ∈ rules → trans_ready typemap rolemap base out r) → (calm → o = []) →
  wp (or_stop (copy_role_trans typemap rolemap rules st)) o (outcome (only_trans rules) st o).
Proof.
  intros Hd Hw Hr Hc. pose proof (aw_base _ Hw) as Hb. pose proof (aw_out _ Hw) as Ha.
  apply (field_outcome (get := trans_of) (upd := put_trans) same_trans (trans_means typemap rolemap base out) (λ t, role_named out (rt_new_role t)));
    [done|apply Hw| | | | |].
  - intros r t Hin (i & j & k & m & _ & _ & _ & Hm & ->). destruct (rt_new _ _ _ _ _ (Hr r Hin)) as (m' & Hm' & Hn).
    assert (m' = m) as -> by congruence. done.
  - intros r l o1 _ Hin Hl. rewrite <- (agrees_trans_means typemap rolemap base _ _ Ha), <- Hb. apply copy_role_tran_spec.
    + by eapply agrees_dest.
    + rewrite Hb. by eapply agrees_trans_ready, Hr.
    + by rewrite (agrees_role_named _ _ Ha).
  - intros l Hl. by apply at_work_lists.
  - intros l Hl. grows_field.
  - intros. by eapply refused_trans.
Qed.

Lemma files_outcome rules st o :
  dest_ready out → at_work st → (∀ r, r ∈ rules → file_ready typemap out r) → (calm → o = []) →
  wp (or_stop (expand_filename_trans typemap rules st)) o (outcome (only_files rules) st o).
Proof.
  intros Hd Hw Hr Hc. pose proof (aw_out _ Hw) as Ha.
  apply (field_outcome (get := es_filename_trans) (upd := put_files) same_file (file_means typemap out) (λ t, type_named out (ft_otype t)));
    [done|apply Hw| | | | |].
  - intros r t Hin (i & j & m & _ & _ & Hm & ->). destruct (fr_otype _ _ _ (Hr r Hin)) as (m' & Hm' & Hn).
    assert (m' = m) as -> by congruence. done.
  - intros r l o1 _ Hin Hl. rewrite <- (agrees_file_means typemap _ _ Ha). apply expand_filename_tran_spec.
    + by eapply agrees_dest.
    + by eapply agrees_file_ready, Hr.
    + by rewrite (agrees_type_named _ _ Ha).
  - intros l Hl. by apply at_work_files.
  - intros l Hl. grows_field.
  - intros. by eapply refused_file.
Qed.

Lemma ranges_outcome rules st o :
  dest_ready out → at_work st → (∀ r, r ∈ rules → range_ready typemap calm out r) → (calm → o = []) →
  wp (or_stop (expand_range_trans typemap rules st)) o (outcome (only_ranges rules) st o).
Proof.
  intros Hd Hw Hr Hc. pose proof (aw_out _ Hw) as Ha.
  apply (field_outcome (get := ranges_of) (upd := put_ranges) same_range (range_means typemap calm out) (λ _, True));
    [done|by apply Forall_true|done| | | |].
  - intros r l o1 Hc1 Hin Hl. rewrite <- (agrees_range_means typemap calm _ _ Ha). apply expand_range_tran_spec; [| |done].
    + by eapply agrees_dest.
    + by eapply agrees_range_ready, Hr.
  - intros l _. by apply at_work_ranges.
  - intros l Hl. grows_field.
  - intros. by eapply refused_range.
Qed.

(** ** The rules of a declaration *)

Lemma never_flag r : truth (N.land (ar_specified r) (N.lor AVRULE_NEVERALLOW AVRULE_XPERMS_NEVERALLOW)) = bool_decide (is_never r).
Proof. apply eq_true_iff_eq. by rewrite bool_decide_eq_true. Qed.

Lemma never_effect r : source_ready out typemap r → is_never r → source_effect out typemap r ≡ ef_none.
Proof.
  intros [Hr _ _] Hn. unfold is_never in Hn.
  assert (Forall (λ f, truth (N.land f (N.lor AVRULE_NEVERALLOW AVRULE_XPERMS_NEVERALLOW)) = true → (f ∉ or_kinds) ∧ (f ∉ type_kinds))
    (AVRULE_XPERMS_NEVERALLOW :: av_flags ++ type_kinds)) as H by by_decide. rewrite Forall_forall in H.
  apply rule_effect_none; apply (H _); try done.
  all: destruct Hr as [->|Hr]; [left|right; apply elem_of_app; apply (rr_flags _ _ _ Hr)].
Qed.

Lemma ef_ex_one {A} (a : A) (E : A → effect) : ef_ex (.∈ [a]) E ≡ E a.
Proof.
  split; [|split]; intros s t c k x; cbn; (split; [by intros (b & ->%list_elem_of_singleton & Hx)|intros Hx; exists a; split; [left|done]]).
Qed.

(** Rules that have no effect on the table. *)
Lemma rule_grew r a : source_ready out typemap r → is_never r → table_grew a a (rules_effect out typemap [r]).
Proof.
  intros Hr Hn. unfold table_grew. assert (rules_effect out typemap [r] ≡ ef_none) as ->; [|apply applied_none].
  unfold rules_effect. rewrite ef_ex_one. by apply never_effect.
Qed.

Lemma one_rule_effect q r : agrees out q → source_effect q typemap r ≡ rules_effect out typemap [r].
Proof.
  intros Ha. rewrite <- (agrees_rules_effect typemap _ _ Ha). unfold rules_effect. by rewrite ef_ex_one.
Qed.

Lemma never_copied_one r o l c : expand_neverallow = false → is_never r → never_copy r c → never_copied [r] o l (c :: l).
Proof.
  intros He Hn Hc. exists [r], [c]. assert (reverse (nevers [r]) = [r]) as ->; [|by split; [|split; [constructor|]]].
  unfold nevers. rewrite He, filter_cons, decide_True by done. done.
Qed.
Lemma never_copied_missing r o l : o ≠ [] → never_copied [r] o l l.
Proof. intros Ho. exists [], []. split; [done|]. split; [done|]. split; [apply sublist_nil_l|done]. Qed.
Lemma never_copied_other r o l : expand_neverallow = true ∨ ¬ is_never r → never_copied [r] o l l.
Proof.
  intros H. exists [], []. assert (nevers [r] = []) as ->; [|done]. unfold nevers. destruct expand_neverallow; [done|].
  destruct H as [?|H]; [done|]. by rewrite filter_cons, decide_False.
Qed.

Lemma at_work_te st a l u :
  at_work st → tab_ok a → data_named (es_out st) a →
  at_work (ExpandState (es_base st) (set_rules (es_out st) a (te_cond_avtab (es_out st)) (cond_list (es_out st)) (role_tr (es_out st)) (role_allows (es_out st)))
             (es_filename_trans st) (es_unnamed st) l u).
Proof. intros [A1 A2 [T1 T2 T3 T4 T5] A4 A5 A6] Ha Hn. split; [done|by apply agrees_rules|by split|done|done|done]. Qed.

Lemma tables_tabs_ok p : tables_ready p → tabs_ok p (tabs_of p).
Proof. intros [T1 T2 [T3 _ _] T4 T5]. by split. Qed.

(** A rule that is expanded, the flag aside. *)
Lemma expanded_rule_outcome r st o u :
  dest_ready out → at_work st → source_ready out typemap r → expand_neverallow = true ∨ ¬ is_never r →
  u = es_unsupported st || (expand_neverallow && bool_decide (is_never r)) →
  let st1 := ExpandState (es_base st) (es_out st) (es_filename_trans st) (es_unnamed st) (es_neverallow st) u in
  wp ('(rc, t) ← convert_and_expand_rule disable_dontaudit (es_out st) typemap r None None false expand_neverallow (tabs_of (es_out st));
      let st := with_out st1 (set_tabs (es_out st1) t) in
      mret (if (rc =? EXPAND_RULE_SUCCESS)%Z then inr st else inl st)) o (outcome (only_rule r) st o).
Proof.
  intros Hd Hw Hr Hn Hu st1. pose proof (aw_out _ Hw) as Ha. wp_step.
  eapply wp_mono; [apply (convert_outcome (HX := unconditional_expands (es_out st) false));
    [by eapply agrees_dest|by apply tables_tabs_ok, Hw|by eapply agrees_source]|].
  intros [rc t] o' (Ho & Hok & [Hc Hl] & Hs & Hf). cbn [fst snd] in *. wp_step. destruct (Z.eqb_spec rc EXPAND_RULE_SUCCESS) as [->|Hne].
  - split; [done|]. assert (set_tabs (es_out st1) t = set_rules (es_out st) (rt_te t) (te_cond_avtab (es_out st)) (cond_list (es_out st)) (role_tr (es_out st)) (role_allows (es_out st))) as ->
      by (unfold set_tabs; by rewrite Hc, Hl).
    split; [apply (at_work_te st); [done|apply Hok..]|]. split; cbn [only_rule c_rules c_allows c_trans c_files c_ranges]; try (by apply extended_none); try done.
    + specialize (Hs eq_refl). apply applied_grew in Hs. unfold table_grew in *. by rewrite <- (one_rule_effect _ r Ha).
    + by apply never_copied_other.
    + cbn. by rewrite orb_false_r.
  - destruct (Hf Hne) as [[_ Hcf]|[_ ?]]; [right|by left]. apply (refused_rule _ _ t); [done|].
    eapply conflicting_mono; [|exact Hcf]. intros s u' c k v H. by apply (one_rule_effect _ r Ha).
Qed.

Lemma decl_rule_outcome r st o :
  dest_ready out → at_work st → source_ready out typemap r → (is_never r → Forall (λ c, cp_tclass c ≠ 0) (ar_perms r)) →
  wp (expand_decl_rule disable_dontaudit expand_neverallow typemap r st) o (outcome (only_rule r) st o).
Proof.
  intros Hd Hw Hr Hnv. unfold expand_decl_rule. rewrite never_flag. destruct (negb expand_neverallow && bool_decide (is_never r)) eqn:E.
  - apply andb_prop in E as [He Hn]. apply negb_true_iff in He. apply bool_decide_eq_true in Hn. wp_step.
    eapply wp_mono; [apply copy_neverallow_spec; [apply Hw|done|apply Hr|apply Hr|auto]|]. intros [rc st'] o' [Ho Hx]. cbn [snd] in Hx. wp_step. split; [done|].
    assert (∀ l, never_copied [r] o (es_neverallow st) l → at_work (with_never st l) ∧ grown (only_rule r) o st (with_never st l)) as H.
    { intros l Hl. split; [by destruct Hw|]. split; cbn [only_rule c_rules c_allows c_trans c_files c_ranges]; try (by apply extended_none); try done.
      - by apply rule_grew.
      - cbn. by rewrite He, orb_false_r. }
    destruct Hx as [(c & Hc & ->)|[Hne ->]].
    + apply H. by apply never_copied_one.
    + replace st with (with_never st (es_neverallow st)) at 1 3 by by destruct st. apply H. by apply never_copied_missing.
  - assert (expand_neverallow = true ∨ ¬ is_never r) as Hcase.
    { destruct expand_neverallow; [by left|right]. cbn in E. by apply bool_decide_eq_false in E. }
    pose proof (expanded_rule_outcome r st o (es_unsupported st || (expand_neverallow && bool_decide (is_never r))) Hd Hw Hr Hcase eq_refl) as H.
    destruct (bool_decide (is_never r)) eqn:En.
    + destruct expand_neverallow; [|done]. cbn [andb] in H. rewrite orb_true_r in H. exact H.
    + rewrite andb_false_r, orb_false_r in H. rewrite state_eta in H. exact H.
Qed.

(** ** Declarations *)

Lemma conds_outcome cns st o :
  dest_ready out → at_work st → (∀ cn, cn ∈ cns → cond_ready typemap boolmap base out cn) →
  wp (or_stop (cond_node_copy disable_dontaudit typemap boolmap cns st)) o (outcome (only_conds cns) st o).
Proof.
  intros Hd Hw Hr. pose proof (aw_out _ Hw) as Ha. unfold or_stop. wp_step.
  eapply wp_mono; [apply cond_node_copy_spec; [|by eapply agrees_dest|apply Hw|apply Hw]|].
  { intros cn Hcn. rewrite (aw_base _ Hw). by eapply agrees_cond_ready, Hr. }
  intros [rc st'] o' [[Hrc H]|[Hrc H]]; cbn [fst snd] in *; subst rc; wp_step; cbn [Z.eqb].
  - destruct H as (Ho & a & l & -> & Ht & He). split; [done|]. split.
    + destruct Hw. split; try done. by apply agrees_rules.
    + grows_field.
  - destruct H as [?|(cn & t & Hcn & Ht & Hc)]; [by left|right]. apply (refused_cond _ _ cn t); [done|done|].
    by rewrite !(agrees_conflict typemap _ _ Ha) in Hc.
Qed.

(** The parts of a module, in range for the expansion. *)
Record contents_ready (C : contents) : Prop := {
  cy_rules : ∀ r, r ∈ c_rules C → source_ready out typemap r ∧ (is_never r → Forall (λ c, cp_tclass c ≠ 0) (ar_perms r));
  cy_allows : ∀ r, r ∈ c_allows C → role_ready rolemap base (rar_roles r) ∧ role_ready rolemap base (rar_new_roles r);
  cy_trans : ∀ r, r ∈ c_trans C → trans_ready typemap rolemap base out r;
  cy_files : ∀ r, r ∈ c_files C → file_ready typemap out r;
  cy_ranges : ∀ r, r ∈ c_ranges C → range_ready typemap calm out r;
  cy_conds : ∀ cn, cn ∈ c_conds C → cond_ready typemap boolmap base out cn }.

Lemma concat_rules l : c_concat only_rule l = Contents l [] [] [] [] [].
Proof. induction l as [|r l IH]; [done|]. cbn [c_concat]. by rewrite IH. Qed.

Lemma contents_parts d :
  contents_of d = c_app (only_allows (role_allow_rules d)) (c_app (only_trans (role_tr_rules d)) (c_app (only_files (filename_trans_rules d))
    (c_app (only_ranges (range_tr_rules d)) (c_app (c_concat only_rule (decl_avrules d)) (only_conds (decl_conds d)))))).
Proof. rewrite concat_rules. unfold contents_of, c_app. cbn. by rewrite !app_nil_r. Qed.

Lemma decl_outcome d st o :
  dest_ready out → contents_ready (contents_of d) → (calm → o = []) → at_work st →
  wp (expand_decl disable_dontaudit expand_neverallow typemap boolmap rolemap d st) o (outcome (contents_of d) st o).
Proof.
  intros Hd [R1 R2 R3 R4 R5 R6] Hc Hw. rewrite contents_parts. unfold expand_decl.
  apply outcome_and_then; [done|by apply allows_outcome|]. intros st1 o1 Hc1 Hw1.
  apply outcome_and_then; [done|by apply trans_outcome|]. intros st2 o2 Hc2 Hw2.
  apply outcome_and_then; [done|by apply files_outcome|]. intros st3 o3 Hc3 Hw3.
  apply outcome_and_then; [done|by apply ranges_outcome|]. intros st4 o4 Hc4 Hw4.
  apply outcome_and_then; [done| |].
  - apply outcome_for_list; [done|done|]. intros r st5 o5 Hr _ Hw5. destruct (R1 r Hr). by apply decl_rule_outcome.
  - intros st5 o5 _ Hw5. by apply conds_outcome.
Qed.

(** ** Blocks *)

(** What the blocks have that are on. *)
Definition block_contents (b : avrule_block) : contents := from_option contents_of c_none (enabled_decl b).

Lemma concat_enabled blocks : c_concat block_contents blocks = contents_all (enabled_decls blocks).
Proof.
  induction blocks as [|b blocks IH]; [done|]. cbn [c_concat]. rewrite IH. unfold enabled_decls. cbn [omap list_omap].
  unfold block_contents. destruct (enabled_decl b) as [d|]; cbn [from_option]; [|by rewrite c_app_none_l].
  done.
Qed.

Definition placed_right (b : avrule_block) : Prop := ∀ i, enabled b = Some i → is_Some (branch_list b !! i).

Lemma ready_part C C' : c_allows C ⊆ c_allows C' → c_sub C C' → contents_ready C' → contents_ready C.
Proof. intros HA [S1 S2 S3 S4 S5] [R1 R2 R3 R4 R5 R6]. split; intros; auto. Qed.

Lemma concat_part {X} (f : X → contents) l x : x ∈ l → c_allows (f x) ⊆ c_allows (c_concat f l) ∧ c_sub (f x) (c_concat f l).
Proof.
  induction 1 as [x l|x y l _ [IA [I1 I2 I3 I4 I5]]]; cbn [c_concat]; [split; [intros r Hr; apply elem_of_app; by left|apply c_sub_l]|].
  split; [|split]; intros r Hr; apply elem_of_app; right; auto.
Qed.

Lemma blocks_outcome blocks st o :
  dest_ready out → Forall placed_right blocks → contents_ready (contents_all (enabled_decls blocks)) → (calm → o = []) → at_work st →
  wp (for_list (expand_block disable_dontaudit expand_neverallow typemap boolmap rolemap) blocks st) o
    (outcome (contents_all (enabled_decls blocks)) st o).
Proof.
  intros Hd Hp Hr Hc Hw. rewrite <- concat_enabled in *. apply outcome_for_list; [done|done|]. intros b st1 o1 Hb Hc1 Hw1.
  destruct (concat_part block_contents blocks b Hb) as [HA HS]. assert (contents_ready (block_contents b)) as Hrb by (by eapply ready_part).
  unfold expand_block. unfold block_contents, enabled_decl in *. destruct (enabled b) as [i|] eqn:E; [|wp_step; by apply unchanged_outcome].
  rewrite Forall_forall in Hp. destruct (Hp b Hb i E) as [d Hdl]. cbn [mbind option_bind] in *. rewrite Hdl in *. cbn [from_option] in *.
  wp_step. apply wp_deref. exists d. split; [done|]. by apply decl_outcome.
Qed.
End module.

(** * The whole expansion *)

Lemma empty_tab_ok a : avtab_wf a → avtab_entries a = [] → tab_ok a ∧ tab_map a = ∅.
Proof. intros Ha He. split; [split; rewrite ?He; [done|by intros n ?%elem_of_nil..|constructor]|]. unfold tab_map. by rewrite He. Qed.
Lemma empty_cond_ok a : avtab_wf a → avtab_entries a = [] → cond_tab_ok a.
Proof. intros Ha He. split; [done|rewrite He; by intros n ?%elem_of_nil..]. Qed.
Lemma empty_named p a : avtab_entries a = [] → data_named p a.
Proof. intros He n k Hn. rewrite He in Hn. by apply elem_of_nil in Hn. Qed.

(** The table that was empty holds the effect. *)
Record holds (a : avtab) (E : effect) : Prop := {
  ho_perms : ∀ s t c k j, k ∈ or_kinds → has_perm a s t c k j ↔ ef_bits E s t c k j;
  ho_types : ∀ s t c k v, ef_sets E s t c k v → has_type_rule a s t c k v;
  ho_only : ∀ s t c k v, k ∈ type_kinds → has_type_rule a s t c k v → ef_wants E s t c k v }.

Lemma grew_holds a a' E : tab_map a = ∅ → table_grew a a' E → holds a' E.
Proof.
  intros Ha [_ H2 _ H4 H5]. cbn [rt_te] in *. split.
  - intros s t c k j Hk. rewrite H2 by done. unfold has_perm at 1, old_data. rewrite Ha, lookup_empty, N.bits_0. naive_solver.
  - intros s t c k v H. by apply H4.
  - intros s t c k v Hk H. destruct (H5 _ _ _ _ _ Hk H) as [(n & Hn & _)|?]; [|done]. by rewrite Ha, lookup_empty in Hn.
Qed.

Section whole.
Context (disable_dontaudit expand_neverallow : bool) (typemap boolmap rolemap : list N) (calm : Prop) (base out : policydb).

(** The new policy after the expansion of what [C] has. *)
Record expansion (C : contents) (o : oracle) (st st' : expand_state) : Prop := {
  xe_work : at_work base out st';
  xe_te : holds (te_avtab (es_out st')) (rules_effect out typemap (c_rules C));
  xe_never : never_copied expand_neverallow typemap out (c_rules C) o (es_neverallow st) (es_neverallow st');
  xe_unsupported : es_unsupported st' = es_unsupported st || (expand_neverallow && existsb (λ r, bool_decide (is_never r)) (c_rules C));
  xe_allows : extended allows_of no_key (allow_means rolemap base) (c_allows C) st st';
  xe_trans : extended trans_of same_trans (trans_means typemap rolemap base out) (c_trans C) st st';
  xe_files : extended es_filename_trans same_file (file_means typemap out) (c_files C) st st';
  xe_ranges : extended ranges_of same_range (range_means typemap calm out) (c_ranges C) st st' }.

(** A policy whose tables are yet to be made: no conditional blocks, and
    transitions to roles and types that have names. *)
Record fresh (st : expand_state) : Prop := {
  fr_base : es_base st = base;
  fr_out : es_out st = out;
  fr_dest : dest_ready out;
  fr_conds : cond_list out = [];
  fr_trans : Forall (λ t, role_named out (rt_new_role t)) (role_tr out);
  fr_files : Forall (λ t, type_named out (ft_otype t)) (es_filename_trans st) }.

Lemma fresh_work st a c :
  fresh st → avtab_wf a ∧ avtab_entries a = [] → avtab_wf c ∧ avtab_entries c = [] →
  at_work base out (with_out st (set_cond (set_te (es_out st) a) c)).
Proof.
  intros [H1 H2 H3 H4 H5 H6] [Ha Hae] [Hc Hce]. rewrite H2. split; [done| | | | |done].
  - apply agrees_rules, agrees_rules, agrees_refl.
  - split; [by apply empty_tab_ok|by apply empty_named|by apply empty_cond_ok|by apply empty_named|].
    unfold lists_ok. cbn [tabs_of rt_conds rt_cond with_out es_out]. change (cond_list (set_cond (set_te out a) c)) with (cond_list out). rewrite H4. by split; constructor.
  - split.
    + intros i x n m Hn _. change (cond_list out !! i = Some n) in Hn. by rewrite H4 in Hn.
    + change (cond_list (es_out (with_out st (set_cond (set_te out a) c)))) with (cond_list out). rewrite H4. constructor.
  - exact H5.
Qed.

Lemma table_made h o :
  wp (avtab_alloc h MAX_AVTAB_SIZE) o (λ r o', (o = [] → o' = []) ∧
    ((r.1 = (-1)%Z ∧ o ≠ []) ∨ (r.1 = 0%Z ∧ avtab_wf r.2 ∧ avtab_entries r.2 = []))).
Proof.
  eapply wp_mono; [by apply avtab_alloc_spec|]. intros r o' [Ho H]. split; [done|].
  destruct H as [(? & ? & _)|(? & ? & ? & _)]; [by left|by right].
Qed.

End whole.

(** * Example *)

Definition ex_roles : role_set := RoleSet (EBitmap [EBNode 0 2] 64) 0.
Definition ex_rolemap : list N := [1; 2].
Definition ex_neverallow : avrule := AvRule AVRULE_NEVERALLOW 0 (ex_member 1) (ex_member 4) [ClassPerm 1 2] None.
Definition ex_classes : ebitmap := EBitmap [EBNode 0 1] 64.
Definition ex_decl : avrule_decl :=
  AvruleDecl 1 1 [ModCond 0 (rpn ex_bexp) [ex_allow] [ex_allow] 0] [ex_allow; ex_transition; ex_neverallow]
    [RoleTransRule ex_roles (ex_member 1) ex_classes 1] [RoleAllowRule ex_roles ex_roles]
    [FilenameTransRule (ex_member 1) (ex_member 4) 1 "f" 2]
    [RangeTransRule (ex_member 1) (ex_member 2) ex_classes (SemRange (SemLevel 1 []) (SemLevel 2 []))]
    (ScopeIndex [] []) (ScopeIndex [] []) (DeclTables (ex_table [] 0) (ex_table [] 0) (ex_table [] 0) (ex_table [] 0) (ex_table [] 0) (ex_table [] 0) (ex_table [] 0) (ex_table [] 0)).
Definition ex_blocks : list avrule_block := [AvruleBlock [ex_decl] (Some 0%nat) 0; AvruleBlock [ex_decl] None 0].
Definition ex_state : expand_state := ExpandState ex_target ex_target [] false [] false.

Lemma ex_roles_ready : role_ready ex_rolemap ex_target ex_roles.
Proof.
  split; [done|]. exists ex_target.
  assert (∀ i, ebitmap_bit (rs_roles ex_roles) i = true → i = 1) as H1 by (apply bits_all; by_decide).
  split; [done|]. split; [|split; [by_decide|]].
  - split; [by_decide|]. intros i ->%H1. exists (ex_role 2). split; [done|by_decide].
  - intros j (i & d & ->%H1 & Hd & Hj). injection Hd as <-. cbn in Hj. subst. done.
Qed.
Lemma ex_roles_mean i : role_means ex_rolemap ex_target ex_roles i → i < 2.
Proof.
  intros (j & _ & Hi%list_elem_of_lookup_2). assert (Forall (λ m, 0 < m ≤ 2) ex_rolemap) as H by by_decide.
  rewrite Forall_forall in H. specialize (H _ Hi). lia.
Qed.

Lemma ex_neverallow_ready : source_ready ex_target ex_typemap ex_neverallow.
Proof.
  split; [right|apply ex_set_ready; by_decide..]. split; [left; by_decide| |intros H; exfalso; revert H; by_decide..].
  intros cur ->%list_elem_of_singleton. by_decide.
Qed.

Lemma ex_classes_ready : ebitmap_wf ex_classes ∧ ∀ k, ebitmap_bit ex_classes k = true → k < N.of_nat (length (p_class_val_to_name ex_target)) ∧ k + 1 < 2 ^ 32.
Proof. split; [by_decide|]. apply bits_all. by_decide. Qed.

Lemma ex_range_ready r : r ∈ range_tr_rules ex_decl → range_ready ex_typemap True ex_target r.
Proof.
  intros ->%list_elem_of_singleton. split; [apply ex_set_ready; by_decide..|apply ex_classes_ready|].
  exists (MlsRange (MlsLevel 1 ebitmap_init) (MlsLevel 2 ebitmap_init)). intros o Ho. rewrite (Ho I). by vm_compute.
Qed.

Lemma ex_cond_ready cn : cn ∈ decl_conds ex_decl → cond_ready ex_typemap [2; 1] ex_target ex_target cn.
Proof.
  intros ->%list_elem_of_singleton. right. exists ex_bexp. split; [done|]. split; [vm_compute; lia|]. split; [exact ex_bools_defined|]. split.
  - repeat constructor; try done; try (by eexists); vm_compute; eexists; (split; [done|]); auto.
  - intros r [->|[->|[]%elem_of_nil]%elem_of_cons]%elem_of_cons; apply ex_allow_ready.
Qed.

Lemma ex_contents_ready : contents_ready ex_typemap [2; 1] ex_rolemap True ex_target ex_target (contents_all (enabled_decls ex_blocks)).
Proof.
  split.
  - intros r [->|[->|[->|[]%elem_of_nil]%elem_of_cons]%elem_of_cons]%elem_of_cons; (split; [|intros _; by_decide]);
      [apply ex_allow_ready|apply ex_transition_ready|apply ex_neverallow_ready].
  - intros r ->%list_elem_of_singleton. split; apply ex_roles_ready.
  - intros r ->%list_elem_of_singleton. split; [apply ex_roles_ready|apply ex_roles_mean|apply ex_set_ready; by_decide| |].
    + split; [apply ex_classes_ready|]. intros k Hk. by apply ex_classes_ready.
    + exists 1. split; [done|by_decide].
  - intros r ->%list_elem_of_singleton. split; [apply ex_set_ready; by_decide..|by_decide|]. exists 1. split; [done|by_decide].
  - apply ex_range_ready.
  - apply ex_cond_ready.
Qed.

Lemma ex_fresh : fresh ex_target ex_target ex_state.
Proof. split; [done|done|apply ex_target_dest|done|constructor|constructor]. Qed.

Example expand_blocks_run :
  match copy_and_expand_avrule_block false false ex_typemap [2; 1] ex_rolemap ex_blocks ex_state [] with
  | Ret (rc, st) o => (rc, o, role_allows (es_out st), role_tr (es_out st), length (es_neverallow st))
  | UB => ((-1)%Z, [], [], [], 0%nat)
  end = (0%Z, [], [RoleAllow 2 2], [RoleTrans 2 2 1 1], 1%nat).
Proof. vm_compute. reflexivity. Qed.

