(* ===== verification/ExpandTunables.v ===== *)
(** Tunables, before a module is expanded: [discard_tunables].

    A block over tunables is decided once and for all: the rules of the list
    that its expression picks join the rules of the declaration, and the block
    is flagged, so that [cond_node_copy] passes it by. *)

From stdpp Require Import sorting gmap.
From S2P Require Import Prelude.
From S2P Require Import Ebitmap.
From S2P Require Import Hashtab.
From S2P Require Import MlsTypes.
From S2P Require Import Avtab.
From S2P Require Import Policydb.
From S2P Require Import Mls.
From S2P Require Import Context.
From S2P Require Import Conditional.
From S2P Require Import Services.
From S2P Require Import Expand.
From S2P Require Import Assertion.
From S2P Require Import PolicyIO.
From S2P Require Import SymbolIO.
From S2P Require Import ModuleIO.
From S2P Require Import PolicyIndex.
From S2P Require Import CondIO.
From S2P Require Import PolicydbIO.
From S2P Require Import ExpandRules.
From S2P Require Import ExpandEffects.
From S2P Require Import ExpandCond.
From S2P Require Import ExpandBlocks.
Local Open Scope N_scope.

Section bools.
Context (bools : list (option cond_bool_datum)).

Definition tunable (v : N) : Prop :=
  ∃ d, bools !! N.to_nat (dec32 v) = Some (Some d) ∧ truth (N.land (bool_flags d) COND_BOOL_FLAGS_TUNABLE) = true.
Definition switchable (v : N) : Prop :=
  ∃ d, bools !! N.to_nat (dec32 v) = Some (Some d) ∧ truth (N.land (bool_flags d) COND_BOOL_FLAGS_TUNABLE) = false.

(** Counting the variables of an expression of one kind. *)
Lemma count_tunables l booleans tmp o :
  Forall tunable (expr_bools l) → (length tmp + length (expr_bools l) ≤ COND_EXPR_MAXDEPTH)%nat →
  count_variables bools l booleans tmp o = Ret (booleans, tmp ++ (dec32 <$> expr_bools l)) o.
Proof.
  revert tmp. induction l as [|x l IH]; intros tmp Hv Hlen; [by rewrite app_nil_r|]. cbn [count_variables].
  rewrite expr_bools_cons in *. destruct (cexpr_type x =? COND_BOOL); cbn [negb app] in *; [|by apply IH].
  apply Forall_cons in Hv as [(d & Hd & Hf) Hv]. rewrite bind_run, (at_ptr_ok _ _ _ _ Hd), Hf. cbn [length] in Hlen.
  rewrite (proj2 (Nat.ltb_lt _ _)) by lia. rewrite IH; [|done|rewrite length_app; cbn; lia]. by rewrite <- app_assoc.
Qed.

Lemma count_switchable l booleans tmp o :
  Forall switchable (expr_bools l) →
  count_variables bools l booleans tmp o = Ret (booleans + N.of_nat (length (expr_bools l)), tmp) o.
Proof.
  revert booleans. induction l as [|x l IH]; intros booleans Hv; [by rewrite N.add_0_r|]. cbn [count_variables].
  rewrite expr_bools_cons in *. destruct (cexpr_type x =? COND_BOOL); cbn [negb app] in *; [|by apply IH].
  apply Forall_cons in Hv as [(d & Hd & Hf) Hv]. rewrite bind_run, (at_ptr_ok _ _ _ _ Hd), Hf. rewrite IH by done. cbn [length]. do 2 f_equal. lia.
Qed.

Lemma eval_bools e o :
  Forall (bool_defined bools) (bvars e) → (stack_depth e ≤ COND_EXPR_MAXDEPTH)%nat →
  cond_eval_loop (load_bool bools) (rpn e) [] o = Ret (z_of_bool (beval (bool_env bools) e)) o.
Proof. intros Hv%load_defined Hd. rewrite <- (app_nil_r (rpn e)). by rewrite (eval_rpn _ (bool_env bools)). Qed.

(** A block over booleans stays a block; of one over tunables the list that
    its expression picks is taken out. *)
Inductive discarded (cn : mod_cond) : mod_cond → list avrule → Prop :=
  | discarded_kept e : mc_exprs cn = rpn e → Forall switchable (bvars e) →
      discarded cn (with_flags cn (N.ldiff (mc_flags cn) COND_NODE_FLAGS_TUNABLE)) []
  | discarded_true e : mc_exprs cn = rpn e → Forall tunable (bvars e) → beval (bool_env bools) e = true →
      discarded cn (ModCond (mc_state cn) (mc_exprs cn) [] (mc_false cn) (N.lor (mc_flags cn) COND_NODE_FLAGS_TUNABLE)) (mc_true cn)
  | discarded_false e : mc_exprs cn = rpn e → Forall tunable (bvars e) → beval (bool_env bools) e = false →
      discarded cn (ModCond (mc_state cn) (mc_exprs cn) (mc_true cn) [] (N.lor (mc_flags cn) COND_NODE_FLAGS_TUNABLE)) (mc_false cn).

(** An expression of one kind of variables that fits on the stack and, for
    tunables, into the array of the loop. *)
Definition decidable_block (cn : mod_cond) : Prop := ∃ e,
  mc_exprs cn = rpn e ∧ (stack_depth e ≤ COND_EXPR_MAXDEPTH)%nat ∧ Forall (bool_defined bools) (bvars e) ∧
  (Forall switchable (bvars e) ∨ Forall tunable (bvars e) ∧ (length (bvars e) ≤ COND_EXPR_MAXDEPTH)%nat).

Lemma bvars_some e : ∃ v l, bvars e = v :: l.
Proof. induction e as [b|e IH|op e1 (v & l & E) e2 _]; cbn; [by eexists _, _|done|rewrite E; by eexists _, _]. Qed.

Lemma discard_tunable_spec cn rules o :
  decidable_block cn → ∃ cn' picked, discard_tunable false cn rules bools o = Ret (cn', rules ++ picked, bools) o ∧ discarded cn cn' picked.
Proof.
  intros (e & He & Hd & Hv & Hkind). destruct (bvars_some e) as (v & l & El). unfold discard_tunable. rewrite bind_run, He. destruct Hkind as [Hs|[Ht Hlen]].
  - rewrite count_switchable by (by rewrite rpn_bools). rewrite rpn_bools, El. cbn [length]. cbv beta iota. rewrite bind_run.
    assert (truth (0 + N.of_nat (S (length l))) = true) as -> by (unfold truth; by rewrite (proj2 (N.eqb_neq _ _)) by lia).
    change (Expand.assert (negb (true && false)) o) with (Ret tt o). cbn [orb].
    eexists _, []. split; [by rewrite app_nil_r|by eapply discarded_kept].
  - rewrite count_tunables by (rewrite ?rpn_bools; done). rewrite rpn_bools, El. cbv beta iota. rewrite bind_run. 
    match goal with |- context [Expand.assert ?b o] => change (Expand.assert b o) with (Ret tt o) end.
    change (truth 0 || false) with false. cbv beta iota zeta. rewrite bind_run. cbn [mc_exprs with_flags]. rewrite He, eval_bools by done.
    destruct (beval (bool_env bools) e) eqn:Eb; cbn [z_of_bool Z.eqb]; eexists _, _; (split; [reflexivity|]); rewrite <- He.
    + exact (discarded_true cn e He Ht Eb).
    + exact (discarded_false cn e He Ht Eb).
Qed.

(** The blocks of a declaration, with what is taken out of each. *)
Lemma discard_in_decl_spec l rules o :
  Forall decidable_block l → ∃ xs, discard_in_decl false l rules bools o = Ret (xs.*1, rules ++ (xs ≫= snd), bools) o ∧
    Forall2 (λ cn x, discarded cn x.1 x.2) l xs.
Proof.
  intros H. revert rules. induction H as [|cn l Hcn _ IH]; intros rules; cbn [discard_in_decl].
  - exists []. split; [by rewrite app_nil_r|constructor].
  - destruct (discard_tunable_spec cn rules o Hcn) as (cn' & picked & Hrun & Hc). rewrite bind_run, Hrun.
    destruct (IH (rules ++ picked)) as (xs & Hrun' & Hxs). rewrite bind_run, Hrun'. exists ((cn', picked) :: xs).
    split; [by rewrite bind_cons, app_assoc|by constructor].
Qed.

(** The declaration of a block that is on. *)
Definition working_decl (b : avrule_block) : option (nat * avrule_decl) :=
  i ← enabled b; d ← branch_list b !! i; if decl_enabled d =? 0 then None else Some (i, d).

Definition block_discarded (b b' : avrule_block) : Prop :=
  match working_decl b with
  | None => b' = b
  | Some (i, d) => ∃ xs, Forall2 (λ cn x, discarded cn x.1 x.2) (decl_conds d) xs ∧
      b' = AvruleBlock (<[i := with_rules d xs.*1 (decl_avrules d ++ (xs ≫= snd))]> (branch_list b)) (enabled b) (block_flags b)
  end.

Record block_decidable (b : avrule_block) : Prop := {
  bd_placed : ∀ i, enabled b = Some i → is_Some (branch_list b !! i);
  bd_conds : ∀ i d, working_decl b = Some (i, d) → Forall decidable_block (decl_conds d) }.

Lemma discard_in_block_spec b o :
  block_decidable b → ∃ b', discard_in_block false b bools o = Ret (b', bools) o ∧ block_discarded b b'.
Proof.
  intros [Hp Hc]. unfold discard_in_block, block_discarded, working_decl in *. destruct (enabled b) as [i|]; [|by exists b].
  destruct (Hp i eq_refl) as [d Hd]. rewrite bind_run, Hd. cbn [deref]. unfold mret at 1, M_ret at 1. cbn [mbind option_bind] in *.
  rewrite Hd in Hc |- *. cbn [mbind option_bind] in *. destruct (decl_enabled d =? 0); [by exists b|].
  destruct (discard_in_decl_spec (decl_conds d) (decl_avrules d) o (Hc i d eq_refl)) as (xs & Hrun & Hxs).
  rewrite bind_run, Hrun. eexists. split; [reflexivity|]. by exists xs.
Qed.
End bools.

(** C13: tunables are decided before a module is expanded.  When no block
    mixes tunables with booleans, expressions fit on the stack and none has
    more tunables than the array of the loop, [discard_tunables] ends and, the
    booleans as they were, each conditional block of an enabled declaration is
    either one over booleans, whose rules stay, or one over tunables, flagged
    for [cond_node_copy] to pass by: the rules of the list that the value of
    its expression picks are the rules of the declaration from then on, after
    those that it had, in the order of the blocks.  Other blocks stay. *)
Theorem tunables_decided blocks bools o :
  Forall (block_decidable bools) blocks →
  ∃ blocks', discard_tunables false blocks bools o = Ret (blocks', bools) o ∧ Forall2 (block_discarded bools) blocks blocks'.
Proof.
  induction 1 as [|b blocks Hb _ IH]; [by exists []|]. cbn [discard_tunables].
  destruct (discard_in_block_spec bools b o Hb) as (b' & Hrun & Hd). rewrite bind_run, Hrun.
  destruct IH as (blocks' & Hrun' & Hds). rewrite bind_run, Hrun'. exists (b' :: blocks'). split; [done|by constructor].
Qed.

(** * Examples *)

(** A tunable that is on, and a boolean. *)
Definition ex_variables : list (option cond_bool_datum) := [Some (CondBoolDatum 1 1 1); Some (CondBoolDatum 2 0 0)].
Definition ex_no_tables : decl_tables :=
  DeclTables (ex_table [] 0) (ex_table [] 0) (ex_table [] 0) (ex_table [] 0) (ex_table [] 0) (ex_table [] 0) (ex_table [] 0) (ex_table [] 0).
Definition ex_tunable_decl (conds : list mod_cond) (rules : list avrule) : avrule_decl :=
  AvruleDecl 1 1 conds rules [] [] [] [] (ScopeIndex [] []) (ScopeIndex [] []) ex_no_tables.
Definition ex_tunable_conds : list mod_cond :=
  [ModCond 0 (rpn (BNot (BVar 1))) [ex_transition] [ex_allow] 0; ModCond 0 (rpn (BVar 2)) [ex_allow] [] 0].
Definition ex_tunable_block : avrule_block := AvruleBlock [ex_tunable_decl ex_tunable_conds []] (Some 0%nat) 0.

Lemma ex_tunable_decidable : block_decidable ex_variables ex_tunable_block.
Proof.
  split; [by intros i [= <-]; eexists|]. intros i d Hd.
  change (Some (0%nat, ex_tunable_decl ex_tunable_conds []) = Some (i, d)) in Hd. injection Hd as <- <-. cbn [decl_conds ex_tunable_decl ex_tunable_conds].
  apply Forall_cons. split; [|apply Forall_singleton].
  - exists (BNot (BVar 1)). split; [done|]. split; [vm_compute; lia|]. split.
    + repeat constructor. vm_compute. eexists. split; [done|by right].
    + right. split; [|vm_compute; lia]. repeat constructor. by eexists.
  - exists (BVar 2). split; [done|]. split; [vm_compute; lia|]. split.
    + repeat constructor. vm_compute. eexists. split; [done|by left].
    + left. repeat constructor. by eexists.
Qed.

Definition ex_rules_of (blocks : list avrule_block) : list (list mod_cond * list avrule) :=
  b ← blocks; (λ d, (decl_conds d, decl_avrules d)) <$> branch_list b.

Example tunables_run :
  match discard_tunables false [ex_tunable_block] ex_variables [] with Ret (blocks, _) _ => ex_rules_of blocks | UB => [] end =
  [([ModCond 0 (rpn (BNot (BVar 1))) [ex_transition] [] 1; ModCond 0 (rpn (BVar 2)) [ex_allow] [] 0], [ex_allow])].
Proof. vm_compute. reflexivity. Qed.

Lemma tunables_decided_witness :
  ∃ blocks', discard_tunables false [ex_tunable_block] ex_variables [] = Ret (blocks', ex_variables) [] ∧
    Forall2 (block_discarded ex_variables) [ex_tunable_block] blocks' ∧
    ex_rules_of blocks' = [([ModCond 0 (rpn (BNot (BVar 1))) [ex_transition] [] 1; ModCond 0 (rpn (BVar 2)) [ex_allow] [] 0], [ex_allow])].
Proof.
  destruct (tunables_decided [ex_tunable_block] ex_variables [] ltac:(apply Forall_singleton, ex_tunable_decidable)) as (blocks' & Hrun & Hd).
  exists blocks'. split; [exact Hrun|]. split; [exact Hd|]. pose proof tunables_run as H. rewrite Hrun in H. exact H.
Defined.

(** A block that names one tunable eleven times writes past the array of the
    loop, though the evaluation of its expression needs two places only. *)
Fixpoint ex_many (n : nat) : bexp := match n with 0%nat => BVar 1 | S n' => BBin OpOr (ex_many n') (BVar 1) end.
Example tunables_overflow :
  stack_depth (ex_many 10) = 2%nat ∧ discard_tunable false (ModCond 0 (rpn (ex_many 10)) [] [] 0) [] ex_variables [] = UB ∧
  (∃ x, discard_tunable false (ModCond 0 (rpn (ex_many 9)) [] [] 0) [] ex_variables [] = Ret x []).
Proof. split; [done|]. split; [done|]. by eexists. Qed.
