(* ===== verification/ExpandCases.v ===== *)
(** Corner cases of the expansion, each run on a small policy: what the
    hypotheses and the exceptions of the theorems about it are for. *)

From stdpp Require Import sorting gmap.
From S2P Require Import Prelude.
From S2P Require Import Ebitmap.
From S2P Require Import Hashtab.
From S2P Require Import MlsTypes.
From S2P Require Import Avtab.
From S2P Require Import Policydb.
From S2P Require Import Mls.
From S2P Require Import Context.
From S2P Require Import Conditional.
From S2P Require Import Services.
From S2P Require Import Expand.
From S2P Require Import Assertion.
From S2P Require Import PolicyIO.
From S2P Require Import SymbolIO.
From S2P Require Import ModuleIO.
From S2P Require Import PolicyIndex.
From S2P Require Import CondIO.
From S2P Require Import PolicydbIO.
From S2P Require Import ExpandRules.
From S2P Require Import ExpandEffects.
From S2P Require Import ExpandCond.
From S2P Require Import ExpandBlocks.
From S2P Require Import ExpandModule.
Local Open Scope N_scope.

(** The rules of a table: key, data and whether they are on. *)
Definition ex_rules (a : avtab) : list (avtab_key * N * bool) := (λ n, (av_key n, data (av_datum n), rule_enabled n)) <$> avtab_entries a.
Definition ex_plain (m : M (Z * rule_tabs)) : option (Z * list (avtab_key * N * bool)) :=
  match m [] with Ret (rc, st) _ => Some (rc, ex_rules (rt_te st)) | UB => None end.

(** * Rules *)

(** A type rule that is there already ends the whole call with success: the
    class after it gets no rule. *)
Example duplicate_drops_classes :
  let transition l st := expand_terule_helper ex_target None AVRULE_TRANSITION None None 0 0 l false st in
  ex_plain ('(_, st) ← transition [ClassPerm 1 2] ex_tabs; transition [ClassPerm 1 2; ClassPerm 2 2] st) =
    Some (EXPAND_RULE_SUCCESS, [(AvtabKey 1 1 1 AVTAB_TRANSITION, 2, false)]) ∧
  ex_plain (transition [ClassPerm 1 2; ClassPerm 2 2] ex_tabs) =
    Some (EXPAND_RULE_SUCCESS, [(AvtabKey 1 1 1 AVTAB_TRANSITION, 2, false); (AvtabKey 1 1 2 AVTAB_TRANSITION, 2, false)]).
Proof. by vm_compute. Qed.

(** A new auditdeny rule starts with no permissions and keeps none. *)
Example auditdeny_audits_nothing :
  ex_plain (expand_avrule_helper false AVRULE_AUDITDENY None 0 0 [ClassPerm 1 5] false None ex_tabs) =
    Some (EXPAND_RULE_SUCCESS, [(AvtabKey 1 1 1 AVTAB_AUDITDENY, 0, false)]).
Proof. by vm_compute. Qed.

(** When dontaudit rules cover all permissions, the next one starts over: the
    others are audited again. *)
Example dontaudit_forgets :
  let dontaudit x st := expand_avrule_helper false AVRULE_DONTAUDIT None 0 0 [ClassPerm 1 x] false None st in
  ex_plain ('(_, st) ← dontaudit (2 ^ 32 - 1) ex_tabs; dontaudit 1 st) =
    Some (EXPAND_RULE_SUCCESS, [(AvtabKey 1 1 1 AVTAB_AUDITDENY, 2 ^ 32 - 2, false)]).
Proof. by vm_compute. Qed.

(** [find_avtab_node] looks for the list after it has looked for the driver and
    not for both: the commands of driver 2 end in a rule for driver 1. *)
Definition ex_two_blocks : rule_tabs := RuleTabs ex_empty ex_empty (rt_conds ex_tabs ++ rt_conds ex_tabs).
Definition ex_xperms (driver : N) : av_extended_perms := AvXPerms AVTAB_XPERMS_IOCTLFUNCTION driver (replicate 8 driver).
Example drivers_merge :
  match for_list (λ x st, '(_, st) ← expand_avrule_helper false AVRULE_XPERMS_ALLOWED (Some x.1) 0 0 [ClassPerm 1 1] false (Some (ex_xperms x.2)) st;
                          mret (@inr unit _ st)) [((0%nat, true), 2); ((1%nat, true), 1); ((0%nat, true), 1)] ex_two_blocks [] with
  | Ret (inr st) _ => (λ n, (λ x, (xp_driver x, xp_perms x)) <$> xperms (av_datum n)) <$> avtab_entries (rt_cond st)
  | _ => []
  end = [Some (1, replicate 8 1); Some (1, replicate 8 3)].
Proof. by vm_compute. Qed.

(** * Conditional blocks *)

Definition ex_run (p : policydb) (boolmap : list N) (l : list mod_cond)
    : option (Z * list (list cond_expr * Z * list avtab_ptr * list avtab_ptr) * list (avtab_key * N * bool)) :=
  let p := set_cond (set_te p ex_empty) ex_empty in
  match cond_node_copy false ex_typemap boolmap l (ExpandState p p [] false [] false) [] with
  | Ret (rc, st) _ => Some (rc, (λ n, (cond_exprs n, cur_state n, true_list n, false_list n)) <$> cond_list (es_out st),
                            ex_rules (te_cond_avtab (es_out st)))
  | UB => None
  end.

(** Of a double negation both signs are dropped, but the lists change places
    once: rules for the case that the boolean is on are on when it is off. *)
Example double_negation_swaps :
  ex_run ex_target [2; 1] [ModCond 0 (rpn (BNot (BNot (BVar 1)))) [ex_allow] [] 0] =
    Some (0%Z, [(rpn (BVar 2), 0%Z, [], [(0, 0)%nat])], [(AvtabKey 3 2 1 (N.lor AVTAB_ENABLED AVTAB_ALLOWED), 5, true)]) ∧
  ex_run ex_target [2; 1] [ModCond 0 (rpn (BVar 1)) [ex_allow] [] 0] =
    Some (0%Z, [(rpn (BVar 2), 0%Z, [(0, 0)%nat], [])], [(AvtabKey 3 2 1 AVTAB_ALLOWED, 5, false)]).
Proof. by vm_compute. Qed.

(** The rules for the true case of an expression that is too deep are on. *)
Fixpoint ex_deep (n : nat) : bexp := match n with 0%nat => BVar 1 | S n' => BBin OpAnd (BVar (1 + N.of_nat n' mod 6)) (ex_deep n') end.
Definition ex_six : policydb := set_bools ex_target ((λ i, Some (CondBoolDatum (N.of_nat i) 0 0)) <$> seq 1 6) ex_empty [].
Example undefined_is_on :
  ex_run ex_six [1; 2; 3; 4; 5; 6] [ModCond 0 (rpn (ex_deep 11)) [ex_allow] [] 0] =
    Some (0%Z, [(rpn (ex_deep 11), (-1)%Z, [(0, 0)%nat], [])], [(AvtabKey 3 2 1 (N.lor AVTAB_ENABLED AVTAB_ALLOWED), 5, true)]).
Proof. by vm_compute. Qed.

(** Only the first conditional rule for a key is compared.  When it is one of
    the other list of the block, a rule of this list with another type is
    overwritten without a word. *)
Definition ex_transition' : avrule := AvRule AVRULE_TRANSITION 0 (ex_member 1) (ex_member 2) [ClassPerm 1 2] None.
Example conflict_overwritten :
  ex_run ex_target [2; 1] [ModCond 0 (rpn (BVar 1)) [ex_transition'] [] 0; ModCond 0 (rpn (BVar 1)) [ex_transition] [ex_transition] 0] =
    Some (0%Z, [(rpn (BVar 2), 0%Z, [(0, 1)%nat], [(0, 0)%nat])],
          [(AvtabKey 2 1 1 (N.lor AVTAB_ENABLED AVTAB_TRANSITION), 2, true); (AvtabKey 2 1 1 AVTAB_TRANSITION, 1, false)]) ∧
  fst <$> (fst <$> ex_run ex_target [2; 1] [ModCond 0 (rpn (BVar 1)) [ex_transition'] [] 0; ModCond 0 (rpn (BVar 1)) [ex_transition] [] 0]) = Some (-1)%Z.
Proof. by vm_compute. Qed.

(** * Other rules *)

(** A neverallow rule that cannot be copied is left out, and the expansion goes
    on. *)
Example neverallow_lost :
  let copies o := match expand_decl_rule false false ex_typemap ex_neverallow ex_state o with
                  | Ret (inr st) _ => Some (length (es_neverallow st)) | _ => None end in
  copies [] = Some 1%nat ∧ copies [true; true; false] = Some 0%nat.
Proof. by vm_compute. Qed.

(** The low level of a range is refused; the high one, which nothing has
    filled in, is destroyed. *)
Example range_destroyed_uninitialised :
  let sr := SemRange (SemLevel 1 [SemCat 5 5]) (SemLevel 1 []) in
  match mls_semantic_range_expand (SemSource sr false) ex_target [] with Ret (rc, levels, _) _ => Some (rc, snd levels) | UB => None end = Some ((-1)%Z, None) ∧
  exp_rangetr_helper 1 2 1 sr ex_state [] = UB.
Proof. by vm_compute. Qed.
