(* ===== verification/Mapping.v ===== *)
(** Class and permission numbers of an object manager:
    libselinux/src/mapping.c.

    An object manager may number its classes and permissions on its own; the
    table translates to and from the numbers of the kernel.  The static
    variables of the source are a record, and [errno], which the callers
    inspect, is threaded through the functions. *)

From S2P Require Import Prelude.
Local Open Scope N_scope.

Record av_decision := AvDecision {
  allowed : N; decided : N; auditallow : N; auditdeny : N; seqno : N; flags : N }.

(** [perms] has 32 entries. *)
Record selinux_mapping := SelinuxMapping { value : N; num_perms : N; perms : list N }.

Definition empty_mapping : selinux_mapping := SelinuxMapping 0 0 (replicate 32 0).

Record mapping_state := MappingState {
  current_mapping : list selinux_mapping;
  current_mapping_size : N }.

(** NULL and size 0. *)
Definition no_mapping : mapping_state := MappingState [] 0.

(** [1<<i] as an access vector. *)
Definition bit (i : N) : N := N.shiftl 1 i.

(** * Kernel values from mapped values *)

Definition unmap_class (m : mapping_state) (tclass : N) (errno : Z) : M (N * Z) :=
  if tclass <? current_mapping_size m then
    c ← deref (current_mapping m !! N.to_nat tclass); mret (value c, errno)
  else if negb (current_mapping_size m =? 0) then mret (0, EINVAL)
  else mret (tclass, errno).

Definition unmap_perm (m : mapping_state) (tclass tperm : N) (errno : Z) : M (N * Z) :=
  if tclass <? current_mapping_size m then
    c ← deref (current_mapping m !! N.to_nat tclass);
    '(kperm, _) ← fold_up (λ i st, let '(kperm, tperm) := st in
                    if truth (N.land tperm (bit i)) then
                      p ← deref (perms c !! N.to_nat i);
                      mret (N.lor kperm p, N.land tperm (lnot32 (bit i)))
                    else mret (kperm, tperm))
                  (N.to_nat (num_perms c)) 0 (0, tperm);
    mret (kperm, errno)
  else if negb (current_mapping_size m =? 0) then mret (0, EINVAL)
  else mret (tperm, errno).

(** * Mapped values from kernel values *)

Definition map_class (m : mapping_state) (kclass : N) (errno : Z) : M (N * Z) :=
  r ← for_up (λ i (_ : unit),
        c ← deref (current_mapping m !! N.to_nat i);
        mret (if value c =? kclass then inl i else inr tt))
      (N.to_nat (current_mapping_size m)) 0 tt;
  mret match r with
       | inl i => (i, errno)
       | inr _ => if negb (current_mapping_size m =? 0) then (0, EINVAL) else (kclass, errno)
       end.

Definition map_perm (m : mapping_state) (tclass kperm : N) (errno : Z) : M (N * Z) :=
  if tclass <? current_mapping_size m then
    c ← deref (current_mapping m !! N.to_nat tclass);
    '(tperm, _) ← fold_up (λ i st, let '(tperm, kperm) := st in
                    p ← deref (perms c !! N.to_nat i);
                    mret (if truth (N.land kperm p)
                          then (N.lor tperm (bit i), N.land kperm (lnot32 p)) else (tperm, kperm)))
                  (N.to_nat (num_perms c)) 0 (0, kperm);
    mret (if tperm =? 0 then (0, EINVAL) else (tperm, errno))
  else mret (kperm, errno).

(** One of the four loops of [map_decision]. *)
Definition map_vector (c : selinux_mapping) (av : N) : M N :=
  fold_up (λ i result,
      p ← deref (perms c !! N.to_nat i);
      mret (if truth (N.land av p) then N.lor result (bit i) else result))
    (N.to_nat (num_perms c)) 0 0.

Definition map_decision (m : mapping_state) (tclass : N) (avd : av_decision) : M av_decision :=
  if tclass <? current_mapping_size m then
    c ← deref (current_mapping m !! N.to_nat tclass);
    a ← map_vector c (allowed avd);
    d ← map_vector c (decided avd);
    aa ← map_vector c (auditallow avd);
    ad ← map_vector c (auditdeny avd);
    mret (AvDecision a d aa ad (seqno avd) (flags avd))
  else mret avd.

(** * The table *)

(** A class of the kernel, with the permissions that the object manager
    numbers: each is a bit, and no two are the same; 0 is a skipped number. *)
Record mapping_wf (c : selinux_mapping) : Prop := {
  mw_num : num_perms c ≤ 32;
  mw_len : length (perms c) = 32%nat;
  mw_bits : ∀ i p, perms c !! i = Some p → p = 0 ∨ ∃ b, b < 32 ∧ p = bit b;
  mw_inj : ∀ i j p, perms c !! i = Some p → perms c !! j = Some p → p ≠ 0 → i = j }.

Definition mappings_wf (m : mapping_state) : Prop :=
  N.of_nat (length (current_mapping m)) = current_mapping_size m ∧ Forall mapping_wf (current_mapping m).

(** The kernel permission [b] that the number [i] of a class stands for. *)
Definition perm_number (c : selinux_mapping) (i b : N) : Prop :=
  i < num_perms c ∧ perms c !! N.to_nat i = Some (bit b) ∧ b < 32.

Lemma bit_testbit i j : N.testbit (bit i) j = (i =? j).
Proof. unfold bit. rewrite N.shiftl_1_l. apply N.pow2_bits_eqb. Qed.

Lemma truth_bit m k : truth (N.land m (bit k)) = N.testbit m k.
Proof. apply truth_land_bit. Qed.

Lemma bit_inj i j : bit i = bit j → i = j.
Proof.
  intros H. apply (f_equal (λ x, N.testbit x i)) in H. rewrite !bit_testbit, N.eqb_refl in H.
  symmetry in H. by apply N.eqb_eq in H.
Qed.

Lemma bit_nonzero i : bit i ≠ 0.
Proof. intros H. apply (f_equal (λ x, N.testbit x i)) in H. by rewrite bit_testbit, N.eqb_refl, N.bits_0 in H. Qed.

Lemma lnot32_testbit x k : k < 32 → N.testbit (lnot32 x) k = negb (N.testbit x k).
Proof.
  intros Hk. unfold lnot32. rewrite N.lxor_spec. change UINT_MAX with (N.ones 32).
  by rewrite N.ones_spec_low, xorb_true_r.
Qed.

(** The entry [i] of the table, 0 outside. *)
Definition perm_at (c : selinux_mapping) (i : N) : N := default 0 (perms c !! N.to_nat i).

Section mapping.
Context (c : selinux_mapping) (Hc : mapping_wf c).

Lemma perms_deref i : i < num_perms c → perms c !! N.to_nat i = Some (perm_at c i).
Proof.
  intros Hi. destruct Hc as [Hn Hl _ _]. unfold perm_at.
  destruct (lookup_lt_is_Some_2 (perms c) (N.to_nat i)) as [p ->]; [lia|done].
Qed.

Lemma perm_at_cases i : i < num_perms c → perm_at c i = 0 ∨ ∃ b, b < 32 ∧ perm_at c i = bit b.
Proof. intros Hi. eapply (mw_bits c Hc), perms_deref, Hi. Qed.

Lemma perm_at_inj i j : i < num_perms c → j < num_perms c → perm_at c i = perm_at c j → perm_at c i ≠ 0 → i = j.
Proof.
  intros Hi Hj Heq Hnz. apply N2Nat.inj. apply (mw_inj c Hc _ _ (perm_at c i)); [by apply perms_deref| |done].
  rewrite Heq. by apply perms_deref.
Qed.

Lemma perm_number_at i b : perm_number c i b ↔ i < num_perms c ∧ b < 32 ∧ perm_at c i = bit b.
Proof.
  unfold perm_number. split.
  - intros (Hi & Hp & Hb). split_and!; [done..|]. rewrite perms_deref in Hp by done. congruence.
  - intros (Hi & Hb & Hp). split_and!; [done| |done]. rewrite perms_deref by done. congruence.
Qed.

(** ** The loops are folds *)

Lemma map_vector_run av o :
  map_vector c av o =
  Ret (foldl (λ r i, if truth (N.land av (perm_at c i)) then N.lor r (bit i) else r) 0
         (seqN 0 (N.to_nat (num_perms c)))) o.
Proof.
  apply fold_up_run. intros j s o' Hj. rewrite perms_deref by lia. done.
Qed.

Lemma fold_or_bits (test : N → bool) l r k :
  N.testbit (foldl (λ r i, if test i then N.lor r (bit i) else r) r l) k =
  N.testbit r k || existsb (λ i, test i && (i =? k)) l.
Proof.
  revert r. induction l as [|i l IH]; intros r; cbn [foldl existsb]; [by rewrite orb_false_r|].
  rewrite IH. destruct (test i); cbn [andb]; [|done]. by rewrite N.lor_spec, bit_testbit, orb_assoc.
Qed.

Lemma existsb_seqN (test : N → bool) n k :
  existsb (λ i, test i && (i =? k)) (seqN 0 n) = (k <? N.of_nat n) && test k.
Proof.
  apply eq_true_iff_eq. rewrite existsb_exists, andb_true_iff, N.ltb_lt. split.
  - intros (i & Hi%list_elem_of_In & [Ht ->%N.eqb_eq]%andb_true_iff). apply elem_of_seqN in Hi. split; [lia|done].
  - intros [Hk Ht]. exists k. rewrite Ht, N.eqb_refl. split; [|done].
    apply list_elem_of_In, elem_of_seqN. lia.
Qed.

Lemma map_vector_spec av o :
  ∃ r, map_vector c av o = Ret r o ∧
    ∀ k, N.testbit r k = (k <? num_perms c) && truth (N.land av (perm_at c k)).
Proof.
  rewrite map_vector_run. eexists. split; [done|]. intros k.
  by rewrite (fold_or_bits (λ i, truth (N.land av (perm_at c i)))), existsb_seqN, N2Nat.id, N.bits_0.
Qed.

Definition unmap_step (st : N * N) (i : N) : N * N :=
  let '(kperm, tperm) := st in
  if truth (N.land tperm (bit i))
  then (N.lor kperm (perm_at c i), N.land tperm (lnot32 (bit i))) else (kperm, tperm).

Lemma unmap_steps_bits n i kp tp b :
  i + N.of_nat n ≤ 32 →
  N.testbit (foldl unmap_step (kp, tp) (seqN i n)).1 b =
  N.testbit kp b || existsb (λ j, N.testbit tp j && N.testbit (perm_at c j) b) (seqN i n).
Proof.
  revert i kp tp. induction n as [|n IH]; intros i kp tp Hi; cbn [seqN foldl existsb]; [by rewrite orb_false_r|].
  assert (∀ tp', (∀ j, i < j → j < 32 → N.testbit tp' j = N.testbit tp j) →
    existsb (λ j, N.testbit tp' j && N.testbit (perm_at c j) b) (seqN (N.succ i) n) =
    existsb (λ j, N.testbit tp j && N.testbit (perm_at c j) b) (seqN (N.succ i) n)) as Hrest.
  { intros tp' Htp. apply eq_true_iff_eq. rewrite !existsb_exists.
    split; intros (j & Hj & Hb); exists j; (split; [done|]);
      apply list_elem_of_In, elem_of_seqN in Hj; revert Hb; rewrite Htp by lia; done. }
  cbn [unmap_step]. rewrite truth_bit. destruct (N.testbit tp i) eqn:E; rewrite IH by lia; [|done].
  rewrite Hrest.
  - by rewrite N.lor_spec, <- orb_assoc.
  - intros j Hj Hj32. rewrite N.land_spec, lnot32_testbit, bit_testbit by done.
    by rewrite (proj2 (N.eqb_neq i j)), andb_true_r by lia.
Qed.

Definition map_step (st : N * N) (i : N) : N * N :=
  let '(tperm, kperm) := st in
  if truth (N.land kperm (perm_at c i))
  then (N.lor tperm (bit i), N.land kperm (lnot32 (perm_at c i))) else (tperm, kperm).

(** Taking one numbered permission away does not touch another one. *)
Lemma truth_land_other kp i j :
  i < num_perms c → j < num_perms c → i ≠ j →
  truth (N.land (N.land kp (lnot32 (perm_at c i))) (perm_at c j)) = truth (N.land kp (perm_at c j)).
Proof.
  intros Hi Hj Hij. destruct (perm_at_cases j Hj) as [-> | (b & Hb & Hpj)]; [by rewrite !N.land_0_r|].
  rewrite Hpj, !truth_bit, N.land_spec, lnot32_testbit by done.
  destruct (perm_at_cases i Hi) as [-> | (a & Ha & Hpi)]; [by rewrite N.bits_0, andb_true_r|].
  rewrite Hpi, bit_testbit. destruct (N.eqb_spec a b) as [->|]; [|by rewrite andb_true_r].
  exfalso. apply Hij, perm_at_inj; [done|done|congruence|rewrite Hpi; apply bit_nonzero].
Qed.

Lemma map_steps_bits n i tp kp k :
  i + N.of_nat n ≤ num_perms c →
  N.testbit (foldl map_step (tp, kp) (seqN i n)).1 k =
  N.testbit tp k || existsb (λ j, truth (N.land kp (perm_at c j)) && (j =? k)) (seqN i n).
Proof.
  revert i tp kp. induction n as [|n IH]; intros i tp kp Hi; cbn [seqN foldl existsb]; [by rewrite orb_false_r|].
  cbn [map_step]. destruct (truth (N.land kp (perm_at c i))) eqn:E; rewrite IH by lia; cbn [andb]; [|done].
  rewrite N.lor_spec, bit_testbit, <- orb_assoc. do 2 f_equal.
  apply eq_true_iff_eq. rewrite !existsb_exists.
  split; intros (j & Hj & Hb); exists j; (split; [done|]);
    apply list_elem_of_In, elem_of_seqN in Hj; revert Hb; rewrite truth_land_other by lia; done.
Qed.
End mapping.

(** ** The functions of a class in the table *)

Section table.
Context (m : mapping_state) (tclass : N) (c : selinux_mapping)
  (Hsize : tclass < current_mapping_size m)
  (Hclass : current_mapping m !! N.to_nat tclass = Some c) (Hc : mapping_wf c).

Lemma in_table : (tclass <? current_mapping_size m) = true.
Proof. by apply N.ltb_lt. Qed.

Lemma unmap_perm_spec tperm errno o :
  ∃ kperm, unmap_perm m tclass tperm errno o = Ret (kperm, errno) o ∧
    ∀ b, N.testbit kperm b = true ↔ ∃ i, N.testbit tperm i = true ∧ perm_number c i b.
Proof.
  unfold unmap_perm. rewrite in_table, bind_run, Hclass. cbn [deref]. unfold mret at 1, M_ret at 1. rewrite bind_run.
  rewrite (fold_up_run _ (unmap_step c)).
  2: { intros j [kp tp] o' Hj. unfold unmap_step. destruct (truth _); [|done].
       by rewrite (perms_deref c Hc) by lia. }
  destruct (foldl _ _ _) as [kp tp] eqn:E. eexists. split; [done|]. intros b.
  pose proof (mw_num c Hc) as Hn.
  pose proof (unmap_steps_bits c (N.to_nat (num_perms c)) 0 0 tperm b ltac:(lia)) as Hb.
  rewrite E in Hb. cbn [fst] in Hb. rewrite Hb, N.bits_0, orb_false_l, existsb_exists. split.
  - intros (i & Hi%list_elem_of_In & [Ht Hp]%andb_true_iff). apply elem_of_seqN in Hi.
    exists i. split; [done|]. apply perm_number_at; [done|].
    destruct (perm_at_cases c Hc i ltac:(lia)) as [Hz|(b' & Hb' & Hp')]; [by rewrite Hz, N.bits_0 in Hp|].
    rewrite Hp', bit_testbit in Hp. apply N.eqb_eq in Hp as ->. split_and!; [lia|done|done].
  - intros (i & Ht & (Hi & Hb' & Hp)%perm_number_at); [|done]. exists i. rewrite Ht, Hp, bit_testbit, N.eqb_refl.
    split; [|done]. apply list_elem_of_In, elem_of_seqN. lia.
Qed.

Lemma map_perm_spec kperm errno o :
  ∃ tperm, map_perm m tclass kperm errno o = Ret (tperm, if tperm =? 0 then EINVAL else errno) o ∧
    ∀ i, N.testbit tperm i = true ↔ ∃ b, N.testbit kperm b = true ∧ perm_number c i b.
Proof.
  unfold map_perm. rewrite in_table, bind_run, Hclass. cbn [deref]. unfold mret at 1, M_ret at 1. rewrite bind_run.
  rewrite (fold_up_run _ (map_step c)).
  2: { intros j [tp kp] o' Hj. rewrite (perms_deref c Hc) by lia. cbn [deref]. rewrite bind_run. cbn.
       by destruct (truth _). }
  destruct (foldl _ _ _) as [tp kp] eqn:E. exists tp. split; [by destruct (N.eqb_spec tp 0) as [->|]|]. intros i.
  pose proof (map_steps_bits c Hc (N.to_nat (num_perms c)) 0 0 kperm i ltac:(lia)) as Hb.
  rewrite E in Hb. cbn [fst] in Hb.
  rewrite Hb, N.bits_0, orb_false_l, (existsb_seqN (λ j, truth (N.land kperm (perm_at c j)))), andb_true_iff, N.ltb_lt, N2Nat.id.
  split.
  - intros [Hi Ht]. destruct (perm_at_cases c Hc i Hi) as [Hz|(b & Hb' & Hp)].
    + by rewrite Hz, N.land_0_r in Ht.
    + exists b. rewrite Hp, truth_bit in Ht. split; [done|]. by apply perm_number_at.
  - intros (b & Hk & (Hi & Hb' & Hp)%perm_number_at); [|done]. by rewrite Hp, truth_bit.
Qed.

Lemma map_decision_spec avd o :
  ∃ avd', map_decision m tclass avd o = Ret avd' o ∧ seqno avd' = seqno avd ∧ flags avd' = flags avd ∧
    (∀ i, N.testbit (allowed avd') i = true → ∃ b, perm_number c i b) ∧
    ∀ i b, perm_number c i b →
      N.testbit (allowed avd') i = N.testbit (allowed avd) b ∧
      N.testbit (decided avd') i = N.testbit (decided avd) b ∧
      N.testbit (auditallow avd') i = N.testbit (auditallow avd) b ∧
      N.testbit (auditdeny avd') i = N.testbit (auditdeny avd) b.
Proof.
  unfold map_decision. rewrite in_table, bind_run, Hclass. cbn [deref]. unfold mret at 1, M_ret at 1.
  destruct (map_vector_spec c Hc (allowed avd) o) as (a & Ha & Ba),
    (map_vector_spec c Hc (decided avd) o) as (d & Hd & Bd),
    (map_vector_spec c Hc (auditallow avd) o) as (aa & Haa & Baa),
    (map_vector_spec c Hc (auditdeny avd) o) as (ad & Had & Bad).
  rewrite bind_run, Ha, bind_run, Hd, bind_run, Haa, bind_run, Had. eexists.
  split_and!; [done|done|done| |]; cbn [allowed decided auditallow auditdeny].
  { intros i. rewrite Ba. intros [Hi%N.ltb_lt Ht]%andb_true_iff.
    destruct (perm_at_cases c Hc i Hi) as [Hz|(b & Hb & Hp)]; [by rewrite Hz, N.land_0_r in Ht|].
    exists b. by apply perm_number_at. }
  intros i b (Hi & _ & Hp)%perm_number_at; [|done].
  rewrite Ba, Bd, Baa, Bad, Hp, !truth_bit. by rewrite (proj2 (N.ltb_lt _ _)).
Qed.
End table.

(** ** Every translation returns *)

Lemma unmap_class_run m tclass : mappings_wf m → ∃ c, ∀ errno o, ∃ e, unmap_class m tclass errno o = Ret (c, e) o.
Proof.
  intros [Hlen _]. unfold unmap_class. destruct (N.ltb_spec tclass (current_mapping_size m)) as [Hlt|Hge].
  - destruct (lookup_lt_is_Some_2 (current_mapping m) (N.to_nat tclass)) as [c Hc]; [lia|].
    exists (value c). intros errno o. rewrite bind_run, Hc. by eexists.
  - destruct (current_mapping_size m =? 0); cbn [negb]; eexists; intros errno o; by eexists.
Qed.

Lemma unmap_perm_run m tclass av : mappings_wf m → ∃ k, ∀ errno o, ∃ e, unmap_perm m tclass av errno o = Ret (k, e) o.
Proof.
  intros [Hlen Hwf]. destruct (decide (tclass < current_mapping_size m)) as [Hlt|Hge].
  - destruct (lookup_lt_is_Some_2 (current_mapping m) (N.to_nat tclass)) as [c Hc]; [lia|].
    pose proof (Forall_lookup_1 _ _ _ _ Hwf Hc) as Hcw.
    destruct (unmap_perm_spec m tclass c Hlt Hc Hcw av 0 []) as (k & _ & Bk). exists k. intros errno o.
    destruct (unmap_perm_spec m tclass c Hlt Hc Hcw av errno o) as (k' & -> & Bk'). exists errno. do 2 f_equal.
    apply N.bits_inj. intros b. apply eq_true_iff_eq. by rewrite Bk, Bk'.
  - unfold unmap_perm. rewrite (proj2 (N.ltb_ge _ _)) by lia.
    destruct (current_mapping_size m =? 0); cbn [negb]; eexists; intros errno o; by eexists.
Qed.

Lemma map_decision_run m tclass d o : mappings_wf m → ∃ d', map_decision m tclass d o = Ret d' o.
Proof.
  intros [Hlen Hwf]. destruct (decide (tclass < current_mapping_size m)) as [Hlt|Hge].
  - destruct (lookup_lt_is_Some_2 (current_mapping m) (N.to_nat tclass)) as [c Hc]; [lia|].
    pose proof (Forall_lookup_1 _ _ _ _ Hwf Hc) as Hcw.
    destruct (map_decision_spec m tclass c Hlt Hc Hcw d o) as (d' & Hd & _). by exists d'.
  - unfold map_decision. rewrite (proj2 (N.ltb_ge _ _)) by lia. by exists d.
Qed.

(** * The properties of mapping.c *)

(** All bits of [x] are bits of [y]. *)
Definition bits_in (x y : N) : Prop := ∀ k, N.testbit x k = true → N.testbit y k = true.

(** Every bit of a vector of a class has a kernel permission. *)
Definition all_numbered (c : selinux_mapping) (tperm : N) : Prop :=
  ∀ i, N.testbit tperm i = true → ∃ b, perm_number c i b.

(** Translating permissions to the numbers of the kernel and back gives
    the same permissions. *)
Theorem perm_map_roundtrip m tclass c tperm errno o :
  tclass < current_mapping_size m → current_mapping m !! N.to_nat tclass = Some c → mapping_wf c →
  all_numbered c tperm → tperm ≠ 0 →
  ∃ kperm, unmap_perm m tclass tperm errno o = Ret (kperm, errno) o ∧
           map_perm m tclass kperm errno o = Ret (tperm, errno) o.
Proof.
  intros Hs Hcl Hc Hall Hnz.
  destruct (unmap_perm_spec m tclass c Hs Hcl Hc tperm errno o) as (k & Hk & Bk).
  destruct (map_perm_spec m tclass c Hs Hcl Hc k errno o) as (t & Ht & Bt).
  exists k. split; [done|]. rewrite Ht. assert (t = tperm) as ->; [|by rewrite (proj2 (N.eqb_neq _ _))].
  apply N.bits_inj. intros i. apply eq_true_iff_eq. rewrite Bt. split.
  - intros (b & (j & Hj & Hnj)%Bk & Hni). apply perm_number_at in Hnj as (? & ? & Hpj), Hni as (? & ? & Hpi); [|done..].
    replace i with j; [done|]. apply (perm_at_inj c Hc); [done|done|congruence|rewrite Hpj; apply bit_nonzero].
  - intros Hi. destruct (Hall i Hi) as [b Hb]. exists b. split; [|done]. apply Bk. by exists i.
Qed.

(** C38: a check against a translated decision is the check that the kernel
    would make: the permissions an object manager requests are all in the
    translated decision exactly when each of them stands for a permission of
    the kernel and the kernel allows all of those. *)
Theorem map_decision_faithful m tclass c requested avd errno o :
  tclass < current_mapping_size m → current_mapping m !! N.to_nat tclass = Some c → mapping_wf c →
  ∃ kreq avd', unmap_perm m tclass requested errno o = Ret (kreq, errno) o ∧
    map_decision m tclass avd o = Ret avd' o ∧
    (bits_in requested (allowed avd') ↔ all_numbered c requested ∧ bits_in kreq (allowed avd)).
Proof.
  intros Hs Hcl Hc.
  destruct (unmap_perm_spec m tclass c Hs Hcl Hc requested errno o) as (k & Hk & Bk).
  destruct (map_decision_spec m tclass c Hs Hcl Hc avd o) as (avd' & Hd & _ & _ & Hnum & Bd).
  exists k, avd'. split_and!; [done|done|]. split.
  - intros Hin. split; [intros i Hi; by apply Hnum, Hin|].
    intros b (i & Hi & Hn)%Bk. destruct (Bd i b Hn) as [<- _]. by apply Hin.
  - intros [Hall Hin] i Hi. destruct (Hall i Hi) as [b Hb]. destruct (Bd i b Hb) as [-> _].
    apply Hin, Bk. by exists i.
Qed.

(** ** Examples *)

(** A class 7 of the kernel: number 0 is its permission 3, number 1 is
    skipped and number 2 is its permission 0. *)
Definition ex_mapping : selinux_mapping := SelinuxMapping 7 3 ([8; 0; 1] ++ replicate 29 0).
Definition ex_mappings : mapping_state := MappingState [empty_mapping; ex_mapping] 2.

Lemma ex_mapping_perms i p :
  perms ex_mapping !! i = Some p → p = 0 ∨ i = 0%nat ∧ p = 8 ∨ i = 2%nat ∧ p = 1.
Proof.
  destruct i as [|[|[|i]]]; intros H; [injection H as <-; auto..|].
  change (replicate 29 0 !! i = Some p) in H. apply lookup_replicate in H as [-> _]. by left.
Qed.

Lemma ex_mapping_wf : mapping_wf ex_mapping.
Proof.
  split; [done|done| |].
  - intros i p [->|[[_ ->]|[_ ->]]]%ex_mapping_perms; [by left|right; by exists 3|right; by exists 0].
  - intros i j p Hi%ex_mapping_perms Hj%ex_mapping_perms Hp. naive_solver.
Qed.

Lemma ex_numbered : all_numbered ex_mapping 5.
Proof.
  intros i Hi. destruct (decide (i = 0)) as [->|]; [by exists 3|]. destruct (decide (i = 2)) as [->|]; [by exists 0|].
  exfalso. change 5 with (N.lor (bit 0) (bit 2)) in Hi. rewrite N.lor_spec, !bit_testbit in Hi.
  rewrite !(proj2 (N.eqb_neq _ _)) in Hi by lia. done.
Qed.

Lemma perm_map_roundtrip_witness :
  ∃ kperm, unmap_perm ex_mappings 1 5 0 [] = Ret (kperm, 0%Z) [] ∧ map_perm ex_mappings 1 kperm 0 [] = Ret (5, 0%Z) [].
Proof.
  exact (perm_map_roundtrip ex_mappings 1 ex_mapping 5 0 [] eq_refl eq_refl ex_mapping_wf ex_numbered ltac:(done)).
Defined.

Lemma map_decision_faithful_witness :
  ∃ kreq avd', unmap_perm ex_mappings 1 5 0 [] = Ret (kreq, 0%Z) [] ∧
    map_decision ex_mappings 1 (AvDecision 8 UINT_MAX 0 UINT_MAX 1 0) [] = Ret avd' [] ∧
    (bits_in 5 (allowed avd') ↔ all_numbered ex_mapping 5 ∧ bits_in kreq 8).
Proof.
  exact (map_decision_faithful ex_mappings 1 ex_mapping 5 (AvDecision 8 UINT_MAX 0 UINT_MAX 1 0) 0 []
    eq_refl eq_refl ex_mapping_wf).
Defined.
