(* ===== verification/Stringrep.v ===== *)
(** Names of classes and permissions: libselinux/src/stringrep.c.

    The names and numbers of the loaded policy are files of selinuxfs; a list
    of the classes that were looked up caches them.  The files are a
    parameter, the cache is state, and [errno] is threaded as in Mapping.v. *)

From S2P Require Import Prelude Mapping.
Local Open Scope N_scope.

Definition MAXVECTORS : N := 32.

(** [dc_perms] has [MAXVECTORS] entries, NULL where there is no permission. *)
Record discover_class_node := DiscoverClassNode {
  dc_name : string; dc_value : N; dc_perms : list (option string) }.

(** What reading an entry of the directory [class/<name>/perms] gives: an
    error, a directory, or the number in the file. *)
Inductive perm_file := PermError | PermDir | PermValue (value : N).

(** [None] is a file or a directory that cannot be read. *)
Record selinuxfs := SelinuxFs {
  selinux_mnt : bool;
  class_index : string → option N;
  class_perms : string → option (list (string * perm_file)) }.

Abbreviation class_cache := (list discover_class_node).

Definition get_class_cache_entry_name (discover_class_cache : class_cache) (s : string)
    : option discover_class_node :=
  List.find (λ node, bool_decide (s = dc_name node)) discover_class_cache.

Definition get_class_cache_entry_value (discover_class_cache : class_cache) (c : N)
    : option discover_class_node :=
  List.find (λ node, c =? dc_value node) discover_class_cache.

(** The loop over the directory; [None] is [goto err4]. *)
Fixpoint discover_perms (entries : list (string * perm_file)) (perms : list (option string))
    : M (option (list (option string))) :=
  match entries with
  | [] => mret (Some perms)
  | (d_name, f) :: entries =>
      match f with
      | PermError => mret None
      | PermDir => discover_perms entries perms
      | PermValue value =>
          if (value =? 0) || (MAXVECTORS <? value) then mret None else
          ok ← malloc;
          if negb ok then mret None else
          discover_perms entries (<[N.to_nat (value - 1) := Some d_name]> perms)
      end
  end.

Definition discover_class (fs : selinuxfs) (discover_class_cache : class_cache) (s : string)
    : M (option discover_class_node * class_cache) :=
  if negb (selinux_mnt fs) then mret (None, discover_class_cache) else
  ok ← malloc;
  if negb ok then mret (None, discover_class_cache) else
  ok ← malloc;
  if negb ok then mret (None, discover_class_cache) else
  ok ← malloc;
  if negb ok then mret (None, discover_class_cache) else
  match class_index fs s with
  | None => mret (None, discover_class_cache)
  | Some value =>
      match class_perms fs s with
      | None => mret (None, discover_class_cache)
      | Some entries =>
          perms ← discover_perms entries (replicate (N.to_nat MAXVECTORS) None);
          mret match perms with
               | None => (None, discover_class_cache)
               | Some perms =>
                   let node := DiscoverClassNode s (u16 value) perms in
                   (Some node, node :: discover_class_cache)
               end
      end
  end.

Definition flush_class_cache (discover_class_cache : class_cache) : class_cache := [].

Definition string_to_security_class (fs : selinuxfs) (m : mapping_state)
    (discover_class_cache : class_cache) (s : string) (errno : Z) : M (N * class_cache * Z) :=
  '(node, cache) ← match get_class_cache_entry_name discover_class_cache s with
                   | Some node => mret (Some node, discover_class_cache)
                   | None => discover_class fs discover_class_cache s
                   end;
  match node with
  | None => mret (0, cache, EINVAL)
  | Some node => '(c, errno) ← map_class m (dc_value node) errno; mret (c, cache, errno)
  end.

(** The loop of [string_to_av_perm], which ends at the first NULL entry. *)
Fixpoint find_perm (perms : list (option string)) (s : string) (i : N) : option N :=
  match perms with
  | Some p :: perms => if bool_decide (p = s) then Some i else find_perm perms s (i + 1)
  | _ => None
  end.

Definition string_to_av_perm (m : mapping_state) (discover_class_cache : class_cache)
    (tclass : N) (s : string) (errno : Z) : M (N * Z) :=
  '(kclass, errno) ← unmap_class m tclass errno;
  match get_class_cache_entry_value discover_class_cache kclass with
  | Some node =>
      match find_perm (dc_perms node) s 0 with
      | Some i => map_perm m tclass (bit i) errno
      | None => mret (0, EINVAL)
      end
  | None => mret (0, EINVAL)
  end.

Definition security_class_to_string (m : mapping_state) (discover_class_cache : class_cache)
    (tclass : N) (errno : Z) : M (option string * Z) :=
  '(tclass, errno) ← unmap_class m tclass errno;
  mret (dc_name <$> get_class_cache_entry_value discover_class_cache tclass, errno).

(** The loop for the lowest bit of [av]. *)
Definition perm_name (perms : list (option string)) (av : N) : M (option string) :=
  r ← for_up (λ i (_ : unit),
        if truth (N.land (bit i) av)
        then p ← deref (perms !! N.to_nat i); mret (inl p) else mret (inr tt))
      (N.to_nat MAXVECTORS) 0 tt;
  mret match r with inl p => p | inr _ => None end.

Definition security_av_perm_to_string (m : mapping_state) (discover_class_cache : class_cache)
    (tclass av : N) (errno : Z) : M (option string * Z) :=
  '(av, errno) ← unmap_perm m tclass av errno;
  '(tclass, errno) ← unmap_class m tclass errno;
  match get_class_cache_entry_value discover_class_cache tclass with
  | Some node =>
      if truth av then s ← perm_name (dc_perms node) av; mret (s, errno) else mret (None, errno)
  | None => mret (None, errno)
  end.

(** ** [security_av_string] *)

(** The first pass: the length of the text, or [None] for an unknown bit. *)
Fixpoint av_string_len (fuel : nat) (m : mapping_state) (cache : class_cache) (tclass av tmp i len : N)
    (errno : Z) : M (option N * Z) :=
  match fuel with
  | O => ub
  | S fuel =>
      if tmp =? 0 then mret (Some len, errno) else
      '(len, errno) ← (if truth (N.land tmp 1) then
                 '(str, errno) ← security_av_perm_to_string m cache tclass (N.land av (bit i)) errno;
                 mret ((λ s, len + N.of_nat (String.length s) + 1) <$> str, errno)
               else mret (Some len, errno));
      match len with
      | None => mret (None, EINVAL)
      | Some len => av_string_len fuel m cache tclass av (N.shiftr tmp 1) (i + 1) len errno
      end
  end.

(** [sprintf] at the end of [buf], which has [len] bytes. *)
Definition sprintf_end (len : N) (buf text : string) : M string :=
  let buf := (buf +:+ text)%string in
  if N.of_nat (String.length buf) <? len then mret buf else ub.

(** The second pass. *)
Fixpoint av_string_text (fuel : nat) (m : mapping_state) (cache : class_cache) (tclass av tmp i len : N)
    (buf : string) (errno : Z) : M (string * Z) :=
  match fuel with
  | O => ub
  | S fuel =>
      if tmp =? 0 then mret (buf, errno) else
      '(buf, errno) ← (if truth (N.land tmp 1) then
                '(str, errno) ← security_av_perm_to_string m cache tclass (N.land av (bit i)) errno;
                str ← deref str;
                buf ← sprintf_end len buf (str +:+ " ");
                mret (buf, errno)
              else mret (buf, errno));
      av_string_text fuel m cache tclass av (N.shiftr tmp 1) (i + 1) len buf errno
  end.

(** 32 bits of an access vector, and the test that ends the loop. *)
Definition av_fuel : nat := 33.

Definition security_av_string (m : mapping_state) (cache : class_cache) (tclass av : N) (errno : Z)
    : M (Z * option string * Z) :=
  '(len, errno) ← av_string_len av_fuel m cache tclass av av 0 5 errno;
  match len with
  | None => mret ((-1)%Z, None, errno)
  | Some len =>
      ok ← malloc;
      if negb ok then mret ((-1)%Z, None, ENOMEM) else
      if av =? 0 then buf ← sprintf_end len "" "null"; mret (0%Z, Some buf, errno) else
      buf ← sprintf_end len "" "{ ";
      '(buf, errno) ← av_string_text av_fuel m cache tclass av av 0 len buf errno;
      buf ← sprintf_end len buf "}";
      mret (0%Z, Some buf, errno)
  end.

(** * The cache *)

(** Every entry was read from the files, and is complete. *)
Record node_of_fs (fs : selinuxfs) (node : discover_class_node) : Prop := {
  nf_value : ∃ v, class_index fs (dc_name node) = Some v ∧ dc_value node = u16 v;
  nf_perms : length (dc_perms node) = N.to_nat MAXVECTORS }.

Definition cache_wf (fs : selinuxfs) (cache : class_cache) : Prop := Forall (node_of_fs fs) cache.

(** The kernel gives different classes different 16-bit numbers. *)
Definition classes_distinct (fs : selinuxfs) : Prop :=
  ∀ s s' v v', class_index fs s = Some v → class_index fs s' = Some v' → u16 v = u16 v' → s = s'.

Lemma discover_perms_spec entries perms o :
  wp (discover_perms entries perms) o (λ r _, ∀ perms', r = Some perms' → length perms' = length perms).
Proof.
  revert perms o. induction entries as [|[d f] entries IH]; intros perms o; cbn [discover_perms].
  { wp_step. by intros perms' [= <-]. }
  destruct f as [| |v]; [by wp_step|apply IH|]. destruct (_ || _); [by wp_step|].
  wp_step. wp_step. intros [] o' _; cbn [negb]; [|by wp_step].
  eapply wp_mono; [apply IH|]. intros r o'' Hr perms' Heq. by rewrite (Hr perms' Heq), length_insert.
Qed.

Lemma discover_class_spec fs cache s o :
  cache_wf fs cache →
  wp (discover_class fs cache s) o (λ r _, cache_wf fs r.2 ∧
    match r.1 with Some node => dc_name node = s ∧ node_of_fs fs node ∧ r.2 = node :: cache | None => r.2 = cache end).
Proof.
  intros Hc. unfold discover_class. destruct (selinux_mnt fs); cbn [negb]; [|by wp_step].
  wp_step. wp_step. intros [] o1 _; cbn [negb]; [|by wp_step].
  wp_step. wp_step. intros [] o2 _; cbn [negb]; [|by wp_step].
  wp_step. wp_step. intros [] o3 _; cbn [negb]; [|by wp_step].
  destruct (class_index fs s) as [v|] eqn:Ev; [|by wp_step].
  destruct (class_perms fs s) as [entries|]; [|by wp_step].
  wp_step. eapply wp_mono; [apply discover_perms_spec|]. intros [perms|] o4 Hp; wp_step; [|done].
  assert (node_of_fs fs (DiscoverClassNode s (u16 v) perms)) as Hn.
  { split; [by exists v|]. cbn. by rewrite (Hp perms eq_refl), length_replicate. }
  split; [|done]. by constructor.
Qed.

Lemma find_name_inv cache s node :
  get_class_cache_entry_name cache s = Some node → node ∈ cache ∧ dc_name node = s.
Proof. intros [H1 H2%bool_decide_eq_true]%List.find_some. apply list_elem_of_In in H1. done. Qed.

Lemma find_value_inv cache c node :
  get_class_cache_entry_value cache c = Some node → node ∈ cache ∧ dc_value node = c.
Proof. intros [H1 H2%N.eqb_eq]%List.find_some. apply list_elem_of_In in H1. done. Qed.

(** The number of a cached class leads to an entry with its name. *)
Lemma value_of_name fs cache node :
  classes_distinct fs → cache_wf fs cache → node ∈ cache →
  ∃ node', get_class_cache_entry_value cache (dc_value node) = Some node' ∧ dc_name node' = dc_name node.
Proof.
  intros Hd Hc Hin. unfold get_class_cache_entry_value.
  destruct (List.find _ cache) as [node'|] eqn:E.
  - exists node'. split; [done|]. apply find_value_inv in E as [Hin' Hv].
    unfold cache_wf in Hc. rewrite Forall_forall in Hc.
    destruct (nf_value _ _ (Hc _ Hin)) as (v & Hi & Hval), (nf_value _ _ (Hc _ Hin')) as (v' & Hi' & Hval').
    eapply Hd; [exact Hi'|exact Hi|congruence].
  - exfalso. eapply List.find_none in E; [|by apply list_elem_of_In]. by rewrite N.eqb_refl in E.
Qed.

(** * Classes through the mapping *)

Lemma map_class_loop l pre kclass o :
  ∃ r, for_up (λ i (_ : unit), c ← deref ((pre ++ l) !! N.to_nat i);
             mret (if value c =? kclass then inl i else inr tt))
         (length l) (N.of_nat (length pre)) tt o = Ret r o ∧
    (∀ i, r = inl i → value <$> (pre ++ l) !! N.to_nat i = Some kclass ∧ i < N.of_nat (length (pre ++ l))).
Proof.
  revert pre. induction l as [|c l IH]; intros pre; cbn [length for_up]; [by eexists|].
  rewrite bind_run, bind_run. rewrite Nat2N.id, list_lookup_middle by done. cbn [deref mret M_ret].
  unfold mret at 1, M_ret at 1. unfold mret at 1, M_ret at 1. destruct (N.eqb_spec (value c) kclass) as [Hv|Hv].
  - eexists. split; [done|]. intros i [= <-]. rewrite Nat2N.id, list_lookup_middle by done. cbn.
    rewrite length_app. cbn. split; [by f_equal|lia].
  - destruct (IH (pre ++ [c])) as (r & Hr & Hi). exists r.
    rewrite <- app_assoc in Hr, Hi. cbn [app] in Hr, Hi. split; [|done].
    replace (N.succ (N.of_nat (length pre))) with (N.of_nat (length (pre ++ [c]))) by (rewrite length_app; cbn; lia).
    done.
Qed.

Lemma map_class_spec m kclass errno o :
  mappings_wf m →
  ∃ c e, map_class m kclass errno o = Ret (c, e) o ∧
    (c ≠ 0 → e = errno ∧ (c < current_mapping_size m ∨ current_mapping_size m = 0) ∧
       ∀ errno' o', unmap_class m c errno' o' = Ret (kclass, errno') o').
Proof.
  intros [Hlen _]. unfold map_class. rewrite bind_run.
  destruct (map_class_loop (current_mapping m) [] kclass o) as (r & Hr & Hi).
  cbn [app length] in *. change (N.of_nat 0) with 0 in Hr. rewrite <- Hlen, Nat2N.id, Hr.
  destruct r as [i|u]; unfold mret, M_ret.
  - exists i, errno. split; [done|]. intros _. destruct (Hi i eq_refl) as [Hv Hlt].
    split; [done|]. split; [left; lia|]. intros e' o'. unfold unmap_class. rewrite <- Hlen, (proj2 (N.ltb_lt _ _)) by lia.
    apply fmap_Some in Hv as (c & Hc & ->). rewrite bind_run, Hc. done.
  - destruct (N.of_nat (length (current_mapping m)) =? 0) eqn:E; cbn [negb].
    + eexists _, _. split; [done|]. intros _. pose proof E as E0. apply N.eqb_eq in E0.
      split; [done|]. split; [right; lia|]. intros e' o'. unfold unmap_class.
      rewrite <- Hlen, E. apply N.eqb_eq in E. by rewrite E, (proj2 (N.ltb_ge _ _)) by lia.
    + eexists _, _. by split.
Qed.

(** * Permissions *)

Lemma find_perm_inv l s i j : find_perm l s i = Some j → i ≤ j ∧ l !! N.to_nat (j - i) = Some (Some s).
Proof.
  revert i. induction l as [|[p|] l IH]; intros i; cbn [find_perm]; [done| |done].
  case_bool_decide as Hp; [intros [= <-]; subst p; split; [lia|by rewrite N.sub_diag]|].
  intros [Hle Hl]%IH. split; [lia|].
  by replace (N.to_nat (j - i)) with (S (N.to_nat (j - (i + 1)))) by lia.
Qed.

(** The loop of [security_av_perm_to_string] on one bit. *)
Lemma perm_name_loop (l : list (option string)) av n i o :
  (N.to_nat i + n ≤ length l)%nat →
  ∃ r, for_up (λ i (_ : unit), if truth (N.land (bit i) av)
         then p ← deref (l !! N.to_nat i); mret (inl p) else mret (inr tt)) n i tt o = Ret r o ∧
    match r with
    | inl p => ∃ j, l !! N.to_nat j = Some p ∧ N.testbit av j = true
    | inr _ => ∀ j, i ≤ j → j < i + N.of_nat n → N.testbit av j = false
    end.
Proof.
  revert i. induction n as [|n IH]; intros i Hn; cbn [for_up].
  { eexists. split; [done|]. intros j H1 H2. lia. }
  rewrite bind_run, N.land_comm, truth_bit. destruct (N.testbit av i) eqn:E.
  - destruct (lookup_lt_is_Some_2 l (N.to_nat i)) as [p Hp]; [lia|].
    rewrite bind_run, Hp. cbn. eexists. split; [done|]. by exists i.
  - unfold mret at 1, M_ret at 1. destruct (IH (N.succ i)) as (r & Hr & Hpost); [lia|]. exists r. split; [done|].
    destruct r; [done|]. intros j H1 H2. destruct (decide (j = i)) as [->|]; [done|]. apply Hpost; lia.
Qed.

Lemma perm_name_spec l av o :
  length l = N.to_nat MAXVECTORS →
  ∃ p, perm_name l av o = Ret p o ∧
    (∀ s, p = Some s → ∃ j, l !! N.to_nat j = Some (Some s) ∧ N.testbit av j = true) ∧
    (∀ b, av = bit b → b < 32 → l !! N.to_nat b = Some p).
Proof.
  intros Hl. unfold perm_name. rewrite bind_run.
  destruct (perm_name_loop l av (N.to_nat MAXVECTORS) 0 o) as (r & -> & Hpost); [lia|].
  eexists. split; [done|]. split.
  - intros s Hs. destruct r as [p|]; [|done]. subst p. naive_solver.
  - intros b -> Hb. destruct r as [p|].
    + destruct Hpost as (j & Hj & Hbit). rewrite bit_testbit in Hbit. apply N.eqb_eq in Hbit as ->. done.
    + exfalso. specialize (Hpost b). rewrite bit_testbit, N.eqb_refl in Hpost. unfold MAXVECTORS in Hpost.
      discriminate Hpost; lia.
Qed.

#[global] Instance no_alloc_perm_name l av : NoAlloc (perm_name l av).
Proof.
  apply no_alloc_bind; [|intros; apply _]. apply no_alloc_for_up. intros i s.
  apply no_alloc_if; [|apply _]. apply no_alloc_bind; [apply _|intros; apply _].
Qed.

(** A single bit translates to a single bit and back. *)
Lemma map_bit m tclass i errno o :
  mappings_wf m → i < 32 →
  ∃ t e, map_perm m tclass (bit i) errno o = Ret (t, e) o ∧
    (t ≠ 0 → tclass < current_mapping_size m ∨ current_mapping_size m = 0 →
     e = errno ∧ ∀ errno' o', unmap_perm m tclass t errno' o' = Ret (bit i, errno') o').
Proof.
  intros [Hlen Hwf] Hi. destruct (decide (tclass < current_mapping_size m)) as [Hlt|Hge].
  - destruct (lookup_lt_is_Some_2 (current_mapping m) (N.to_nat tclass)) as [c Hc]; [lia|].
    pose proof (Forall_lookup_1 _ _ _ _ Hwf Hc) as Hcw.
    destruct (map_perm_spec m tclass c Hlt Hc Hcw (bit i) errno o) as (t & Ht & Bt).
    eexists _, _. split; [exact Ht|]. intros Hnz _. rewrite (proj2 (N.eqb_neq _ _)) by done. split; [done|].
    intros e' o'. destruct (unmap_perm_spec m tclass c Hlt Hc Hcw t e' o') as (k & Hk & Bk). rewrite Hk.
    do 2 f_equal. apply N.bits_inj. intros b. apply eq_true_iff_eq. rewrite Bk, bit_testbit, N.eqb_eq. split.
    + intros (j & (b' & Hb' & Hn')%Bt & Hn). rewrite bit_testbit in Hb'. apply N.eqb_eq in Hb' as <-.
      apply perm_number_at in Hn as (_ & _ & Hp), Hn' as (_ & _ & Hp'); [|done..]. apply bit_inj. congruence.
    + intros <-. apply N_neq_0_bit in Hnz as [j Hj]. exists j. split; [done|].
      apply Bt in Hj as (b' & Hb' & Hn'). rewrite bit_testbit in Hb'. by apply N.eqb_eq in Hb' as ->.
  - unfold map_perm. rewrite (proj2 (N.ltb_ge _ _)) by lia. eexists _, _. split; [done|].
    intros _ [?|Hz]; [lia|]. split; [done|]. intros e' o'. unfold unmap_perm.
    by rewrite (proj2 (N.ltb_ge _ _)), Hz by lia.
Qed.

Lemma perm_lookup_inverse fs m cache tclass kclass p errno o :
  mappings_wf m → cache_wf fs cache → tclass < current_mapping_size m ∨ current_mapping_size m = 0 →
  (∀ errno' o', unmap_class m tclass errno' o' = Ret (kclass, errno') o') →
  ∃ av e, string_to_av_perm m cache tclass p errno o = Ret (av, e) o ∧
    (av ≠ 0 → ∀ e', security_av_perm_to_string m cache tclass av e' o = Ret (Some p, e') o).
Proof.
  intros Hm Hc Hcl Hun. unfold string_to_av_perm, security_av_perm_to_string.
  rewrite bind_run, Hun. destruct (get_class_cache_entry_value cache kclass) as [node|] eqn:En; [|by eexists _, _].
  destruct (find_perm (dc_perms node) p 0) as [i|] eqn:Ei; [|by eexists _, _].
  apply find_perm_inv in Ei as [_ Hi]. rewrite N.sub_0_r in Hi.
  pose proof (find_value_inv _ _ _ En) as [Hin _]. unfold cache_wf in Hc. rewrite Forall_forall in Hc.
  pose proof (nf_perms _ _ (Hc _ Hin)) as Hlen.
  assert (i < 32) as Hi32. { apply lookup_lt_Some in Hi. rewrite Hlen in Hi. unfold MAXVECTORS in Hi. lia. }
  destruct (map_bit m tclass i errno o Hm Hi32) as (t & e & Ht & Hinv). exists t, e. split; [done|].
  intros Hnz e'. destruct (Hinv Hnz Hcl) as [_ Hback]. rewrite bind_run, Hback, bind_run, Hun, En.
  assert (truth (bit i) = true) as -> by (apply truth_spec, bit_nonzero).
  destruct (perm_name_spec (dc_perms node) (bit i) o Hlen) as (q & Hq & _ & Hbit).
  rewrite bind_run, Hq. specialize (Hbit i eq_refl Hi32). rewrite Hi in Hbit. injection Hbit as <-. done.
Qed.

(** * Texts of access vectors *)

(** The name of permission [i] of a class. *)
Definition bit_name (m : mapping_state) (cache : class_cache) (tclass i : N) : option string :=
  match security_av_perm_to_string m cache tclass (bit i) 0 [] with Ret (s, _) _ => s | UB => None end.

(** The positions of the bits that the loops visit. *)
Fixpoint av_bits (fuel : nat) (tmp i : N) : list N :=
  match fuel with
  | O => []
  | S fuel =>
      if tmp =? 0 then [] else
      (if truth (N.land tmp 1) then [i] else []) ++ av_bits fuel (N.shiftr tmp 1) (i + 1)
  end.

Definition names_text (names : list string) : string :=
  foldr (λ n t, (n +:+ (" " +:+ t))%string) ""%string names.

Definition names_length (names : list string) : nat := sum_list_with (λ n, S (String.length n)) names.

Lemma names_text_length names : String.length (names_text names) = names_length names.
Proof.
  induction names as [|n names IH]; [done|]. cbn [names_text foldr]. unfold names_length in *. cbn.
  rewrite !string_length_app. unfold names_text in IH. cbn [String.length]. lia.
Qed.

(** The lookup of a name never fails to return, and does not depend on [errno]. *)
Lemma bit_name_run fs m cache tclass i errno o :
  mappings_wf m → cache_wf fs cache →
  ∃ e, security_av_perm_to_string m cache tclass (bit i) errno o = Ret (bit_name m cache tclass i, e) o.
Proof.
  intros Hm Hc. destruct (unmap_perm_run m tclass (bit i) Hm) as (k & Hk).
  destruct (unmap_class_run m tclass Hm) as (c & Hcl).
  assert (∃ s, ∀ errno o, ∃ e, security_av_perm_to_string m cache tclass (bit i) errno o = Ret (s, e) o) as [s Hs].
  { unfold security_av_perm_to_string. destruct (get_class_cache_entry_value cache c) as [node|] eqn:En.
    - pose proof (find_value_inv _ _ _ En) as [Hin _]. unfold cache_wf in Hc. rewrite Forall_forall in Hc.
      pose proof (nf_perms _ _ (Hc _ Hin)) as Hlen.
      destruct (perm_name_spec (dc_perms node) k [] Hlen) as (p & Hp & _).
      exists (if truth k then p else None). intros e1 o1. destruct (Hk e1 o1) as [e2 H2], (Hcl e2 o1) as [e3 H3].
      exists e3. rewrite bind_run, H2, bind_run, H3, En. destruct (truth k); [|done].
      rewrite bind_run. by rewrite (proj2 (no_alloc_run _ _ _ _ Hp)).
    - exists None. intros e1 o1. destruct (Hk e1 o1) as [e2 H2], (Hcl e2 o1) as [e3 H3].
      exists e3. by rewrite bind_run, H2, bind_run, H3, En. }
  destruct (Hs errno o) as [e He]. exists e. rewrite He. unfold bit_name. by destruct (Hs 0%Z []) as [e' ->].
Qed.

Section av_string.
Context (fs : selinuxfs) (m : mapping_state) (cache : class_cache) (tclass av : N).
Context (Hm : mappings_wf m) (Hc : cache_wf fs cache).

Lemma land_bit i : N.testbit av i = true → N.land av (bit i) = bit i.
Proof.
  intros Hi. apply N.bits_inj. intros j. rewrite N.land_spec, bit_testbit.
  destruct (N.eqb_spec i j) as [<-|]; [by rewrite Hi|by rewrite andb_false_r].
Qed.

(** [tmp] is [av] shifted by [i]; it is spent when the fuel is. *)
Definition shifted (fuel : nat) (tmp i : N) : Prop :=
  tmp < 2 ^ N.of_nat fuel ∧ ∀ k, N.testbit tmp k = N.testbit av (k + i).

Lemma shifted_next fuel tmp i : shifted (S fuel) tmp i → shifted fuel (N.shiftr tmp 1) (i + 1).
Proof.
  intros [Ht Hb]. split.
  - rewrite N.shiftr_div_pow2. change (2 ^ 1) with 2. apply N.Div0.div_lt_upper_bound.
    by rewrite Nat2N.inj_succ, N.pow_succ_r' in Ht.
  - intros k. rewrite N.shiftr_spec', Hb. f_equal. lia.
Qed.

Lemma shifted_0 tmp i : shifted 0 tmp i → tmp = 0.
Proof. intros [Ht _]. cbn in Ht. lia. Qed.

Lemma shifted_low fuel tmp i : shifted fuel tmp i → truth (N.land tmp 1) = N.testbit av i.
Proof. intros [_ Hb]. change 1 with (N.shiftl 1 0). rewrite truth_land_bit, Hb. f_equal. Qed.

Lemma av_bits_step fuel tmp i :
  tmp ≠ 0 → shifted fuel tmp i →
  av_bits (S fuel) tmp i = (if N.testbit av i then [i] else []) ++ av_bits fuel (N.shiftr tmp 1) (i + 1).
Proof. intros Hnz Hs. cbn [av_bits]. by rewrite (proj2 (N.eqb_neq _ _)), (shifted_low fuel tmp i Hs) by done. Qed.

(** The loops visit the set bits from the lowest on. *)
Lemma av_bits_filter fuel tmp i :
  shifted fuel tmp i → av_bits (S fuel) tmp i = filter (λ j, N.testbit av j = true) (seqN i fuel).
Proof.
  revert tmp i. induction fuel as [|fuel IH]; intros tmp i Hs; [by rewrite (shifted_0 tmp i Hs)|].
  cbn [seqN]. rewrite filter_cons, <- (N.add_1_r i), <- (IH (N.shiftr tmp 1)) by (by apply shifted_next).
  destruct (decide (tmp = 0)) as [->|Hnz].
  - assert (N.testbit av i = false) as Hi. { destruct Hs as [_ Hb]. specialize (Hb 0). by rewrite N.bits_0 in Hb. }
    by rewrite Hi.
  - rewrite (av_bits_step (S fuel)) by done. by destruct (N.testbit av i).
Qed.

Lemma name_run i errno o :
  N.testbit av i = true →
  ∃ e, security_av_perm_to_string m cache tclass (N.land av (bit i)) errno o =
       Ret (bit_name m cache tclass i, e) o.
Proof. intros Hi. rewrite land_bit by done. by apply (bit_name_run fs). Qed.

Lemma av_string_len_run fuel tmp i len errno o :
  shifted fuel tmp i →
  ∃ e, av_string_len (S fuel) m cache tclass av tmp i len errno o =
       Ret ((λ names, len + N.of_nat (names_length names)) <$>
              mapM (bit_name m cache tclass) (av_bits (S fuel) tmp i), e) o.
Proof.
  revert tmp i len errno. induction fuel as [|fuel IH]; intros tmp i len errno Hs.
  { rewrite (shifted_0 tmp i Hs). exists errno. cbn. by rewrite N.add_0_r. }
  remember (S fuel) as fuel' eqn:Hf. cbn [av_string_len]. destruct (N.eqb_spec tmp 0) as [->|Hnz].
  { exists errno. cbn. by rewrite N.add_0_r. }
  rewrite av_bits_step, (shifted_low fuel' tmp i Hs) by done. rewrite bind_run.
  destruct (N.testbit av i) eqn:Hi; cbn [app mapM].
  - destruct (name_run i errno o Hi) as [e He]. rewrite bind_run, He.
    destruct (bit_name m cache tclass i) as [n|]; cbn; [|by eexists].
    subst fuel'. destruct (IH (N.shiftr tmp 1) (i + 1) (len + N.of_nat (String.length n) + 1) e) as [e' He'];
      [by apply shifted_next|].
    exists e'. rewrite He'. destruct (mapM _ _) as [names|]; [|done]. cbn. do 3 f_equal. unfold names_length. cbn. lia.
  - subst fuel'. apply IH. by apply shifted_next.
Qed.

Lemma sprintf_end_run len buf text o :
  N.of_nat (String.length buf + String.length text) < len →
  sprintf_end len buf text o = Ret (buf +:+ text)%string o.
Proof.
  intros H. unfold sprintf_end. rewrite string_length_app. by rewrite (proj2 (N.ltb_lt _ _)) by done.
Qed.

Lemma av_string_text_run fuel tmp i len buf names errno o :
  shifted fuel tmp i → mapM (bit_name m cache tclass) (av_bits (S fuel) tmp i) = Some names →
  N.of_nat (String.length buf + names_length names) < len →
  ∃ e, av_string_text (S fuel) m cache tclass av tmp i len buf errno o = Ret ((buf +:+ names_text names)%string, e) o.
Proof.
  revert tmp i buf names errno. induction fuel as [|fuel IH]; intros tmp i buf names errno Hs Hn Hlen.
  { rewrite (shifted_0 tmp i Hs) in *. exists errno. cbn in Hn. injection Hn as <-. cbn. by rewrite string_app_nil_r. }
  remember (S fuel) as fuel' eqn:Hf. cbn [av_string_text]. destruct (N.eqb_spec tmp 0) as [->|Hnz].
  { exists errno. cbn in Hn. injection Hn as <-. cbn. by rewrite string_app_nil_r. }
  rewrite av_bits_step in Hn by done. rewrite (shifted_low fuel' tmp i Hs). rewrite bind_run.
  destruct (N.testbit av i) eqn:Hi; cbn [app mapM] in Hn.
  - destruct (name_run i errno o Hi) as [e He]. rewrite bind_run, He.
    apply bind_Some in Hn as (n & Hn & (names' & Hns & [= <-])%bind_Some). rewrite Hn. cbn [deref].
    rewrite bind_run. unfold mret at 1, M_ret at 1. rewrite bind_run.
    unfold names_length in Hlen. cbn in Hlen.
    rewrite sprintf_end_run by (rewrite string_length_app; cbn; lia). unfold mret at 1, M_ret at 1.
    subst fuel'. destruct (IH (N.shiftr tmp 1) (i + 1) (buf +:+ (n +:+ " "))%string names' e) as [e' He'];
      [by apply shifted_next|done|unfold names_length; rewrite !string_length_app; cbn; lia|].
    exists e'. rewrite He'. do 2 f_equal. cbn [names_text foldr]. by rewrite <- !string_app_assoc.
  - subst fuel'. by apply IH; [apply shifted_next|..].
Qed.
End av_string.

(** * The properties of stringrep.c *)

(** Names and numbers are inverse.  When a class name has a number, the
    number has that name, and a permission name that has a bit in the class is
    the name of the bit: with or without a mapping of the object manager, and
    whether the class was in the cache or is read now. *)
Theorem names_roundtrip fs m cache s errno o :
  mappings_wf m → classes_distinct fs → cache_wf fs cache →
  wp (string_to_security_class fs m cache s errno) o (λ r o', let '(c, cache', e) := r in
    cache_wf fs cache' ∧
    (c ≠ 0 → security_class_to_string m cache' c e o' = Ret (Some s, e) o' ∧
       ∀ p, ∃ av e', string_to_av_perm m cache' c p e o' = Ret (av, e') o' ∧
         (av ≠ 0 → security_av_perm_to_string m cache' c av e' o' = Ret (Some p, e') o'))).
Proof.
  intros Hm Hd Hc. unfold string_to_security_class.
  assert (wp match get_class_cache_entry_name cache s with
             | Some node => mret (Some node, cache) | None => discover_class fs cache s end o
    (λ r _, cache_wf fs r.2 ∧ ∀ node, r.1 = Some node → node ∈ r.2 ∧ dc_name node = s)) as Hfind.
  { destruct (get_class_cache_entry_name cache s) as [node|] eqn:E.
    - wp_step. split; [done|]. intros node' [= <-]. by apply find_name_inv.
    - eapply wp_mono; [by apply discover_class_spec|]. intros [node cache'] o' [Hc' Hnode]. split; [done|].
      cbn in *. intros node' ->. destruct Hnode as (Hs & _ & ->). split; [by left|done]. }
  wp_step. eapply wp_mono; [exact Hfind|]. clear Hfind. intros [node cache'] o1 [Hc' Hnode]. cbn in Hc', Hnode.
  destruct node as [node|]; [|by wp_step]. destruct (Hnode node eq_refl) as [Hin Hs].
  destruct (map_class_spec m (dc_value node) errno o1 Hm) as (c & e & Hmc & Hinv).
  wp_step. unfold wp at 1. rewrite Hmc. wp_step. split; [done|]. intros Hnz.
  destruct (Hinv Hnz) as (-> & Hcl & Hun). split.
  - unfold security_class_to_string. rewrite bind_run, Hun.
    destruct (value_of_name fs cache' node Hd Hc' Hin) as (node' & -> & Hname). cbn. by rewrite Hname, Hs.
  - intros p. destruct (perm_lookup_inverse fs m cache' c (dc_value node) p errno o1 Hm Hc' Hcl Hun)
      as (av & e' & Hav & Hback).
    exists av, e'. split; [done|]. intros Hne. by apply Hback.
Qed.

(** C39: the text of an access vector.  For every 32-bit vector both passes of
    [security_av_string] end and the text, the names of its set bits between
    braces (or [null]), fits into the memory that the first pass computes; the
    result is an error exactly when a bit has no name or memory runs out. *)
Theorem av_string_safe fs m cache tclass av errno o :
  mappings_wf m → cache_wf fs cache → av < 2 ^ 32 →
  wp (security_av_string m cache tclass av errno) o (λ r _, let '(rc, text, _) := r in
    match mapM (bit_name m cache tclass) (filter (λ j, N.testbit av j = true) (seqN 0 32)) with
    | None => rc = (-1)%Z ∧ text = None
    | Some names =>
        rc = 0%Z ∧ text = Some (if (av =? 0)%N then "null" else "{ " +:+ (names_text names +:+ "}"))%string
        ∨ rc = (-1)%Z ∧ text = None ∧ o ≠ []
    end).
Proof.
  intros Hm Hc Hav. assert (shifted av 32 av 0) as Hs by (split; [done|intros k; by rewrite N.add_0_r]).
  unfold security_av_string, av_fuel. rewrite <- (av_bits_filter av 32 av 0 Hs).
  destruct (av_string_len_run fs m cache tclass av Hm Hc 32 av 0 5 errno o Hs) as [e He].
  wp_step. unfold wp at 1. rewrite He. clear He.
  destruct (mapM _ _) as [names|] eqn:Hn; cbn [fmap option_fmap option_map]; [|by wp_step].
  wp_step. apply wp_malloc. intros [] o1 H1; cbn [negb].
  2: { wp_step. right. split; [done|]. split; [done|]. intros ->. by destruct (H1 eq_refl). }
  destruct (N.eqb_spec av 0) as [->|Hnz].
  { wp_step. unfold wp at 1. rewrite sprintf_end_run by (cbn; lia). wp_step. by left. }
  wp_step. unfold wp at 1. rewrite sprintf_end_run by (cbn; lia). wp_step.
  destruct (av_string_text_run fs m cache tclass av Hm Hc 32 av 0 (5 + N.of_nat (names_length names)) "{ "%string names e o1
    Hs Hn) as [e' He']; [cbn; lia|].
  unfold wp at 1. change ("" +:+ "{ ")%string with "{ "%string. rewrite He'. wp_step. unfold wp at 1.
  rewrite sprintf_end_run by (rewrite string_length_app, names_text_length; cbn; lia).
  wp_step. left. split; [done|]. by rewrite string_app_assoc.
Qed.

(** ** Examples *)

Definition ex_fs : selinuxfs := SelinuxFs true
  (λ s, if bool_decide (s = "file") then Some 7 else if bool_decide (s = "dir") then Some 8 else None)
  (λ s, Some [("read", PermValue 1); ("write", PermValue 2); (".", PermDir); ("ioctl", PermValue 3); ("open", PermValue 4)]).

Lemma ex_fs_distinct : classes_distinct ex_fs.
Proof.
  intros s s' v v'. cbn. repeat case_bool_decide; intros; simplify_eq; done.
Qed.

Lemma ex_mappings_wf : mappings_wf ex_mappings.
Proof.
  split; [done|]. apply Forall_cons. split; [|apply Forall_singleton, ex_mapping_wf]. split.
  - done.
  - done.
  - intros i p [-> _]%lookup_replicate. by left.
  - intros i j p [-> _]%lookup_replicate. done.
Qed.

Definition ex_cache : class_cache :=
  match discover_class ex_fs [] "file" [] with Ret (_, cache) _ => cache | UB => [] end.

Lemma ex_cache_wf : cache_wf ex_fs ex_cache.
Proof. repeat constructor. by exists 7. Qed.

Lemma names_roundtrip_witness :
  ∃ cache e, string_to_security_class ex_fs ex_mappings [] "file" 0 [] = Ret (1, cache, e) [] ∧
    security_class_to_string ex_mappings cache 1 e [] = Ret (Some "file", e) [] ∧
    string_to_av_perm ex_mappings cache 1 "open" e [] = Ret (1, e) [].
Proof.
  pose proof (names_roundtrip ex_fs ex_mappings [] "file" 0 [] ex_mappings_wf ex_fs_distinct (Forall_nil_2 _)) as H.
  apply (proj1 (wp_run _ _ _)) in H as ([[c cache] e] & o & Hr & _ & Hpost).
  pose proof Hr as Hr'. vm_compute in Hr'. injection Hr' as <- Hcache <- <-. exists cache, 0%Z.
  split; [exact Hr|]. destruct (Hpost ltac:(done)) as [Hs _]. split; [exact Hs|]. by rewrite <- Hcache.
Defined.

Lemma av_string_safe_witness :
  ∃ e, security_av_string ex_mappings ex_cache 1 5 0 [] = Ret (0%Z, Some "{ open read }", e) [].
Proof.
  pose proof (av_string_safe ex_fs ex_mappings ex_cache 1 5 0 [] ex_mappings_wf ex_cache_wf ltac:(done)) as H.
  apply (proj1 (wp_run _ _ _)) in H as ([[rc text] e] & o & Hr & Hpost).
  pose proof Hr as Hr'. vm_compute in Hr'. injection Hr' as <- <- <- <-. by eexists.
Defined.
