(* ===== verification/ComputeAv.v ===== *)
(** Queries to the kernel: libselinux/src/compute_av.c, compute_create.c,
    compute_member.c and getenforce.c.

    A query is a text written to a file of selinuxfs; the answer is read back.
    The kernel is a parameter: for every text either the error of one of the
    system calls, or what it answers (for access decisions the numbers that
    [sscanf] reads, for labels the text). *)

From Stdlib Require Import Ascii.
From stdpp Require Import pretty.
From S2P Require Import Prelude Mapping.
Local Open Scope N_scope.

Inductive reply (A : Type) := ReplyError (errno : Z) | Reply (a : A).
Arguments ReplyError {A} errno.
Arguments Reply {A} a.

Record kernel := Kernel {
  k_mounted : bool;
  k_page_size : N;
  k_access : string → reply (list N);
  k_create : string → reply string;
  k_member : string → reply string;
  k_enforce : reply (option Z) }.

(** ** Texts *)

Definition hex_digit (table : string) (d : N) : Ascii.ascii :=
  default Ascii.zero (String.get (N.to_nat d) table).

(** [%x]: at most 8 digits of 32 bits. *)
Fixpoint hex_loop (fuel : nat) (x : N) (acc : string) : string :=
  match fuel with
  | O => acc
  | S fuel =>
      let acc := String (hex_digit "0123456789abcdef" (N.land x 15)) acc in
      if N.shiftr x 4 =? 0 then acc else hex_loop fuel (N.shiftr x 4) acc
  end.
Definition hex (x : N) : string := hex_loop 8 x "".

(** [snprintf] into [len] bytes keeps [len - 1] characters. *)
Definition snprintf (len : N) (text : string) : string := String.substring 0 (N.to_nat (len - 1)) text.

Section kernel.
Context (k : kernel) (m : mapping_state).

(** ** compute_av.c *)

(** The numbers fill the fields in order; missing ones leave a field alone. *)
Definition scan_decision (fields : list N) (avd : av_decision) : av_decision :=
  let field (i : nat) (old : N) := default old (fields !! i) in
  AvDecision (field 0%nat (allowed avd)) (field 1%nat (decided avd)) (field 2%nat (auditallow avd))
    (field 3%nat (auditdeny avd)) (field 4%nat (seqno avd)) (field 5%nat (flags avd)).

Definition set_flags (avd : av_decision) (f : N) : av_decision :=
  AvDecision (allowed avd) (decided avd) (auditallow avd) (auditdeny avd) (seqno avd) f.

Definition security_compute_av_flags_raw (scon tcon : string) (tclass requested : N)
    (avd : av_decision) (errno : Z) : M (Z * av_decision * Z) :=
  if negb (k_mounted k) then mret ((-1)%Z, avd, ENOENT) else
  ok ← malloc;
  if negb ok then mret ((-1)%Z, avd, ENOMEM) else
  '(kclass, errno) ← unmap_class m tclass errno;
  '(kperm, errno) ← unmap_perm m tclass requested errno;
  let buf := snprintf (k_page_size k) (scon +:+ " " +:+ tcon +:+ " " +:+ pretty kclass +:+ " " +:+ hex kperm) in
  match k_access k buf with
  | ReplyError e => mret ((-1)%Z, avd, e)
  | Reply fields =>
      let avd := scan_decision fields avd in
      if (length fields <? 5)%nat then mret ((-1)%Z, avd, errno) else
      let avd := if (length fields <? 6)%nat then set_flags avd 0 else avd in
      avd ← (if negb (tclass =? 0) then map_decision m tclass avd else mret avd);
      mret (0%Z, avd, errno)
  end.

Definition security_compute_av_raw (scon tcon : string) (tclass requested : N)
    (avd : av_decision) (errno : Z) : M (Z * av_decision * Z) :=
  '(ret, lavd, errno) ← security_compute_av_flags_raw scon tcon tclass requested avd errno;
  mret (ret, if (ret =? 0)%Z then set_flags lavd (flags avd) else avd, errno).

(** ** compute_create.c *)

Definition isalnum (code : N) : bool :=
  ((48 <=? code) && (code <=? 57)) || ((65 <=? code) && (code <=? 90)) || ((97 <=? code) && (code <=? 122)).

(** The characters that are copied, apart from NUL. *)
Definition plain_char (code : N) : bool :=
  isalnum code || (code =? 45) || (code =? 46) || (code =? 95) || (code =? 126).

(** The bytes that a character of the name becomes; a byte above 127 is a
    negative [int], which is not alphanumeric and has the same low bits. *)
Definition encode_char (c : Ascii.ascii) : string :=
  let code := Ascii.N_of_ascii c in
  if plain_char code then String c ""
  else if code =? 32 then "+"
  else String "%"%char (String (hex_digit "0123456789ABCDEF" (N.shiftr (N.land code 240) 4))
         (String (hex_digit "0123456789ABCDEF" (N.land code 15)) "")).

(** [buf] is what was written, [buflen] the size; the end of the name is a
    NUL, which takes a byte. *)
Fixpoint encode_loop (objname : string) (buf : string) (buflen : N) : option string :=
  let room (n : N) := n <=? buflen - N.of_nat (String.length buf) in
  match objname with
  | EmptyString => if room 1 then Some buf else None
  | String c objname =>
      let text := encode_char c in
      if room (N.of_nat (String.length text)) then encode_loop objname (buf +:+ text) buflen else None
  end.

Definition object_name_encode (objname : string) (buflen : N) : option string :=
  if buflen <? 1 then None else encode_loop objname " " buflen.

(** [size - len] is computed in [size_t]: when the text was cut, the rest of
    the buffer is taken for huge and the name is written behind it. *)
Definition security_compute_create_name_raw (scon tcon : string) (tclass : N)
    (objname : option string) (errno : Z) : M (Z * option string * Z) :=
  if negb (k_mounted k) then mret ((-1)%Z, None, ENOENT) else
  let size := k_page_size k in
  ok ← malloc;
  if negb ok then mret ((-1)%Z, None, ENOMEM) else
  '(kclass, errno) ← unmap_class m tclass errno;
  let text := (scon +:+ " " +:+ tcon +:+ " " +:+ pretty kclass)%string in
  let len := N.of_nat (String.length text) in
  let buf := snprintf size text in
  match objname with
  | Some _ => if size <? len then ub else mret tt
  | None => mret tt
  end;;
  match match objname with
        | None => Some buf
        | Some objname => String.append buf <$> object_name_encode objname (size - len)
        end with
  | None => mret ((-1)%Z, None, 36%Z (* ENAMETOOLONG *))
  | Some buf =>
      match k_create k buf with
      | ReplyError e => mret ((-1)%Z, None, e)
      | Reply newcon =>
          ok ← malloc;
          if negb ok then mret ((-1)%Z, None, ENOMEM) else mret (0%Z, Some newcon, errno)
      end
  end.

Definition security_compute_create_raw (scon tcon : string) (tclass : N) (errno : Z)
    : M (Z * option string * Z) :=
  security_compute_create_name_raw scon tcon tclass None errno.

(** ** compute_member.c *)

Definition security_compute_member_raw (scon tcon : string) (tclass : N) (errno : Z)
    : M (Z * option string * Z) :=
  if negb (k_mounted k) then mret ((-1)%Z, None, ENOENT) else
  ok ← malloc;
  if negb ok then mret ((-1)%Z, None, ENOMEM) else
  '(kclass, errno) ← unmap_class m tclass errno;
  match k_member k (snprintf (k_page_size k) (scon +:+ " " +:+ tcon +:+ " " +:+ pretty kclass)) with
  | ReplyError e => mret ((-1)%Z, None, e)
  | Reply newcon =>
      ok ← malloc;
      if negb ok then mret ((-1)%Z, None, ENOMEM) else mret (0%Z, Some newcon, errno)
  end.

(** ** getenforce.c *)

(** [None] is a file without a number. *)
Definition security_getenforce (errno : Z) : Z * Z :=
  if negb (k_mounted k) then ((-1)%Z, ENOENT) else
  match k_enforce k with
  | ReplyError e => ((-1)%Z, e)
  | Reply None => ((-1)%Z, errno)
  | Reply (Some enforce) => (enforce, errno)
  end.
End kernel.

(** A query always returns, with a status of 0 or -1. *)
Lemma compute_av_run k m scon tcon tclass requested d e o :
  mappings_wf m →
  wp (security_compute_av_flags_raw k m scon tcon tclass requested d e) o (λ r _, r.1.1 = 0%Z ∨ r.1.1 = (-1)%Z).
Proof.
  intros Hm. unfold security_compute_av_flags_raw. destruct (k_mounted k); cbn [negb]; [|wp_step; by right].
  wp_step. wp_step. intros [] o1 _; cbn [negb]; [|wp_step; by right].
  destruct (unmap_class_run m tclass Hm) as [c Hc]. destruct (Hc e o1) as [e1 H1].
  destruct (unmap_perm_run m tclass requested Hm) as [p Hp]. destruct (Hp e1 o1) as [e2 H2].
  wp_step. unfold wp at 1. rewrite H1. wp_step. unfold wp at 1. rewrite H2.
  destruct (k_access k _) as [e3|fields]; [wp_step; by right|].
  destruct (_ <? 5)%nat; [wp_step; by right|]. destruct (tclass =? 0); cbn [negb].
  - wp_step. wp_step. wp_step. by left.
  - wp_step. destruct (map_decision_run m tclass (if (length fields <? 6)%nat
      then set_flags (scan_decision fields d) 0 else scan_decision fields d) o1 Hm) as [d' Hd].
    unfold wp at 1. rewrite Hd. wp_step. by left.
Qed.

Lemma label_query_run k m scon tcon tclass e o :
  mappings_wf m →
  wp (security_compute_create_raw k m scon tcon tclass e) o
    (λ r _, r.1.1 = 0%Z ∧ is_Some r.1.2 ∨ r.1.1 = (-1)%Z ∧ r.1.2 = None) ∧
  wp (security_compute_member_raw k m scon tcon tclass e) o
    (λ r _, r.1.1 = 0%Z ∧ is_Some r.1.2 ∨ r.1.1 = (-1)%Z ∧ r.1.2 = None).
Proof.
  intros Hm. destruct (unmap_class_run m tclass Hm) as [c Hc].
  unfold security_compute_create_raw, security_compute_create_name_raw, security_compute_member_raw.
  destruct (k_mounted k); cbn [negb]; [|split; wp_step; by right].
  split; (wp_step; wp_step; intros [] o1 _; cbn [negb]; [|wp_step; by right]); destruct (Hc e o1) as [e1 H1];
    wp_step; unfold wp at 1; rewrite H1.
  - wp_step. wp_step. destruct (k_create k _); [wp_step; by right|].
    wp_step. wp_step. intros [] o2 _; cbn [negb]; wp_step; [left|right]; by eauto.
  - destruct (k_member k _); [wp_step; by right|].
    wp_step. wp_step. intros [] o2 _; cbn [negb]; wp_step; [left|right]; by eauto.
Qed.

(** * Object names *)

(** The inverse of the encoding: plus is a space and a percent sign starts
    two hexadecimal digits. *)
Definition hex_value (c : Ascii.ascii) : N :=
  let x := Ascii.N_of_ascii c in if x <? 58 then x - 48 else x - 55.

Fixpoint decode_name (s : string) : option string :=
  match s with
  | EmptyString => Some EmptyString
  | String c s' =>
      if Ascii.eqb c "+"%char then String " " <$> decode_name s'
      else if Ascii.eqb c "%"%char then
        match s' with
        | String h (String l s'') =>
            String (Ascii.ascii_of_N (hex_value h * 16 + hex_value l)) <$> decode_name s''
        | _ => None
        end
      else String c <$> decode_name s'
  end.

Fixpoint encode_text (s : string) : string :=
  match s with EmptyString => EmptyString | String c s => encode_char c +:+ encode_text s end.

Fixpoint has_char (c : Ascii.ascii) (s : string) : bool :=
  match s with EmptyString => false | String c' s => Ascii.eqb c c' || has_char c s end.

Lemma decode_char c s : decode_name (encode_char c +:+ s) = String c <$> decode_name s.
Proof. by destruct c as [[] [] [] [] [] [] [] []]. Qed.

Lemma encode_char_plain c s : has_char " " (encode_char c +:+ s) = has_char " " s.
Proof. by destruct c as [[] [] [] [] [] [] [] []]. Qed.

Lemma encode_loop_spec objname buf buflen :
  encode_loop objname buf buflen =
  if N.of_nat (String.length (buf +:+ encode_text objname)) <? buflen
  then Some (buf +:+ encode_text objname)%string else None.
Proof.
  revert buf. induction objname as [|c objname IH]; intros buf; cbn [encode_loop encode_text].
  - rewrite string_app_nil_r. bool_lia.
  - rewrite IH, <- string_app_assoc. rewrite !string_length_app. bool_lia.
Qed.

(** Object names.  [object_name_encode] succeeds exactly when the encoded
    name with its NUL fits into the buffer, and then the text after the
    leading space contains no further space and decodes to the name. *)
Theorem object_name_roundtrip objname buflen :
  match object_name_encode objname buflen with
  | Some text =>
      ∃ body, text = String " " body ∧ N.of_nat (String.length text) + 1 ≤ buflen ∧
              has_char " " body = false ∧ decode_name body = Some objname
  | None => buflen ≤ N.of_nat (String.length (encode_text objname)) + 1
  end.
Proof.
  unfold object_name_encode. rewrite encode_loop_spec.
  change (" " +:+ encode_text objname)%string with (String " " (encode_text objname)).
  assert (has_char " " (encode_text objname) = false ∧ decode_name (encode_text objname) = Some objname) as [H1 H2].
  { induction objname as [|c s [IH1 IH2]]; [done|]. cbn [encode_text].
    by rewrite encode_char_plain, decode_char, IH1, IH2. }
  cbn [String.length]. destruct (N.ltb_spec buflen 1); [lia|].
  destruct (N.ltb_spec (N.of_nat (S (String.length (encode_text objname)))) buflen).
  - exists (encode_text objname). cbn [String.length]. split_and!; [done|lia|done|done].
  - lia.
Qed.

(** For two contexts that do not fit into a page the computation of the
    label of a named object writes outside of its buffer. *)
Theorem create_name_overflow k m scon tcon tclass objname errno kclass e :
  k_mounted k = true → (∀ o, unmap_class m tclass errno o = Ret (kclass, e) o) →
  k_page_size k < N.of_nat (String.length scon + String.length tcon) →
  security_compute_create_name_raw k m scon tcon tclass (Some objname) errno [] = UB.
Proof.
  intros Hm Hun Hlen. unfold security_compute_create_name_raw. rewrite Hm. cbn [negb].
  rewrite bind_run. cbn [malloc negb]. rewrite bind_run, Hun.
  rewrite !string_length_app. rewrite (proj2 (N.ltb_lt _ _)) by lia. done.
Qed.

(** ** Examples *)

Definition ex_kernel : kernel := Kernel true 4096
  (λ _, Reply [8; UINT_MAX; 0; UINT_MAX; 1; 0]) (λ _, Reply "u:r:new") (λ _, Reply "u:r:member") (Reply (Some 1%Z)).

Fixpoint ex_long (n : nat) : string := match n with O => EmptyString | S n => String "a" (ex_long n) end.

Lemma create_name_overflow_witness :
  security_compute_create_name_raw (Kernel true 16 (k_access ex_kernel) (k_create ex_kernel) (k_member ex_kernel)
    (k_enforce ex_kernel)) no_mapping (ex_long 10) (ex_long 10) 1 (Some "name") 0 [] = UB.
Proof. by eapply (create_name_overflow _ no_mapping _ _ 1 "name" 0 1 0%Z). Defined.
