(* ===== verification/AvcSidtab.v ===== *)
(** The SID table of the userspace cache: libselinux/src/avc_sidtab.c.

    A SID is the address of a structure that holds a context string.  The
    table creates one SID per context and never removes one, so that callers
    compare SIDs instead of strings.  [new_addr] stands for the addresses that
    the allocator returns: any function whose results are not NULL and not in
    use. *)

From S2P Require Import Prelude Hashtab.
Local Open Scope N_scope.

Definition SIDTAB_SIZE : N := 128.

Record sidtab_node := SidtabNode { sid_s : N; sid_ctx : string; sid_refcnt : N }.
Record sidtab := Sidtab { htable : list (list sidtab_node); nel : N }.

(** The loop over the key is that of [symhash]. *)
Definition sidtab_hash (key : string) : N := N.land (symhash_loop key 0) (SIDTAB_SIZE - 1).

Definition sidtab_init (s : sidtab) : M (Z * sidtab) :=
  ok ← malloc;
  mret (if negb ok then ((-1)%Z, Sidtab [] (nel s))
        else (0%Z, Sidtab (replicate (N.to_nat SIDTAB_SIZE) []) 0)).

Definition sidtab_nodes (s : sidtab) : list sidtab_node := concat (htable s).

(** [sid->ctx] of a SID of the table. *)
Definition sid_lookup (s : sidtab) (sid : N) : option string :=
  sid_ctx <$> List.find (λ n, sid_s n =? sid) (sidtab_nodes s).

Section sidtab.
Context (new_addr : list N → N).

Definition sidtab_insert (s : sidtab) (ctx : string) : M (Z * sidtab) :=
  ok ← malloc;
  if negb ok then mret ((-1)%Z, s) else
  ok ← malloc;
  if negb ok then mret ((-1)%Z, s) else
  let hvalue := N.to_nat (sidtab_hash ctx) in
  next ← deref (htable s !! hvalue);
  let newnode := SidtabNode (new_addr (sid_s <$> sidtab_nodes s)) ctx 1 in
  mret (0%Z, Sidtab (<[hvalue := newnode :: next]> (htable s)) (u32 (nel s + 1))).

(** The jumps back to [loop] are the fuel; the result is the status, the table
    and the SID, 0 for NULL. *)
Fixpoint context_to_sid_loop (fuel : nat) (s : sidtab) (ctx : string) : M (Z * sidtab * N) :=
  match fuel with
  | O => ub
  | S fuel =>
      chain ← deref (htable s !! N.to_nat (sidtab_hash ctx));
      match List.find (λ n, (strcmp (sid_ctx n) ctx =? 0)%Z) chain with
      | Some cur => mret (0%Z, s, sid_s cur)
      | None =>
          '(rc, s) ← sidtab_insert s ctx;
          if negb (rc =? 0)%Z then mret (rc, s, 0) else context_to_sid_loop fuel s ctx
      end
  end.

Definition sidtab_context_to_sid (s : sidtab) (ctx : string) : M (Z * sidtab * N) :=
  context_to_sid_loop 2 s ctx.

(** The numbers that are printed: entries, slots in use, longest chain. *)
Definition sidtab_sid_stats (h : sidtab) : M (N * Z * Z) :=
  '(slots_used, max_chain_len) ←
    fold_up (λ i st, let '(slots_used, max_chain_len) := st in
        cur ← deref (htable h !! N.to_nat i);
        mret (match cur with
              | [] => (slots_used, max_chain_len)
              | _ => (slots_used + 1, Z.max max_chain_len (Z.of_nat (length cur)))%Z
              end))
      (N.to_nat SIDTAB_SIZE) 0 (0%Z, 0%Z);
  mret (nel h, slots_used, max_chain_len).

(** [None] is a NULL table. *)
Definition sidtab_destroy (s : option sidtab) : option sidtab :=
  match s with None => None | Some s => Some (Sidtab [] (nel s)) end.

(** * The table is a one-to-one map *)

Record sidtab_wf (s : sidtab) : Prop := {
  sw_size : length (htable s) = N.to_nat SIDTAB_SIZE;
  sw_slot : ∀ i c n, htable s !! i = Some c → n ∈ c → i = N.to_nat (sidtab_hash (sid_ctx n));
  sw_ctx : NoDup (sid_ctx <$> sidtab_nodes s);
  sw_sid : NoDup (sid_s <$> sidtab_nodes s);
  sw_null : Forall (λ n, sid_s n ≠ 0) (sidtab_nodes s) }.

Lemma elem_of_chains {A} (t : list (list A)) x : x ∈ concat t ↔ ∃ i c, t !! i = Some c ∧ x ∈ c.
Proof.
  rewrite list_elem_of_In, in_concat. split.
  - intros (c & Hc%list_elem_of_In & Hx%list_elem_of_In). apply list_elem_of_lookup in Hc as [i Hi]. by exists i, c.
  - intros (i & c & Hi & Hx). exists c. split; [by eapply list_elem_of_In, list_elem_of_lookup_2|by apply list_elem_of_In].
Qed.

(** A key without duplicates identifies the elements of a list. *)
Lemma nodup_fmap_inj {A B} (f : A → B) l x y : NoDup (f <$> l) → x ∈ l → y ∈ l → f x = f y → x = y.
Proof.
  induction l as [|a l IH]; [by intros _ ?%elem_of_nil|]. rewrite fmap_cons, NoDup_cons, !elem_of_cons.
  intros [Ha Hnd] [->|Hx] [->|Hy] Heq; [done| | |by apply IH].
  - exfalso. apply Ha. rewrite Heq. by apply list_elem_of_fmap_2.
  - exfalso. apply Ha. rewrite <- Heq. by apply list_elem_of_fmap_2.
Qed.

(** The SID [sid] stands for [ctx]. *)
Definition sid_for (s : sidtab) (sid : N) (ctx : string) : Prop :=
  ∃ n, n ∈ sidtab_nodes s ∧ sid_s n = sid ∧ sid_ctx n = ctx.

Lemma hash_lt key : sidtab_hash key < SIDTAB_SIZE.
Proof.
  unfold sidtab_hash. change (SIDTAB_SIZE - 1) with (N.ones 7). rewrite N.land_ones.
  apply N.mod_lt. done.
Qed.

Lemma strcmp_eqb s t : (strcmp s t =? 0)%Z = bool_decide (s = t).
Proof.
  revert t. induction s as [|a s IH]; intros [|b t]; cbn [strcmp]; [done|done|done|].
  destruct (N.eqb_spec (Ascii.N_of_ascii a) (Ascii.N_of_ascii b)) as [Heq|Hne].
  - rewrite IH. apply (f_equal Ascii.ascii_of_N) in Heq. rewrite !Ascii.ascii_N_embedding in Heq. subst b.
    apply bool_decide_ext. naive_solver.
  - rewrite bool_decide_false by naive_solver. by destruct (_ <? _).
Qed.

Lemma sid_lookup_for s sid ctx : sidtab_wf s → sid_lookup s sid = Some ctx ↔ sid_for s sid ctx.
Proof.
  intros Hwf. unfold sid_lookup, sid_for. split.
  - intros (n & [Hn%list_elem_of_In Hs%N.eqb_eq]%List.find_some & ->)%fmap_Some. by exists n.
  - intros (n & Hn & <- & <-). destruct (List.find _ (sidtab_nodes s)) as [n'|] eqn:E.
    + apply List.find_some in E as [Hn'%list_elem_of_In Hs%N.eqb_eq]. cbn. do 2 f_equal.
      by apply (nodup_fmap_inj sid_s (sidtab_nodes s)); [apply Hwf|..].
    + eapply List.find_none in E; [|by apply list_elem_of_In]. by rewrite N.eqb_refl in E.
Qed.

Lemma find_ctx s ctx c :
  sidtab_wf s → htable s !! N.to_nat (sidtab_hash ctx) = Some c →
  match List.find (λ n, (strcmp (sid_ctx n) ctx =? 0)%Z) c with
  | Some n => n ∈ sidtab_nodes s ∧ sid_ctx n = ctx
  | None => ∀ n, n ∈ sidtab_nodes s → sid_ctx n ≠ ctx
  end.
Proof.
  intros Hwf Hc. destruct (List.find _ c) as [n|] eqn:E.
  - apply List.find_some in E as [Hn%list_elem_of_In Hs]. rewrite strcmp_eqb, bool_decide_eq_true in Hs.
    split; [|done]. apply elem_of_chains. by eexists _, c.
  - intros n (i & c' & Hi & Hn)%elem_of_chains Heq.
    pose proof (sw_slot s Hwf i c' n Hi Hn) as Hslot. rewrite Heq in Hslot. subst i.
    rewrite Hc in Hi. injection Hi as <-. eapply List.find_none in E; [|by apply list_elem_of_In].
    rewrite strcmp_eqb, bool_decide_eq_false in E. done.
Qed.

Context (Hnew : ∀ l, (new_addr l ∉ l) ∧ new_addr l ≠ 0).

(** What a new context changes. *)
Definition insert_post (s : sidtab) (ctx : string) (o : oracle) (r : Z * sidtab) (o' : oracle) : Prop :=
  (o = [] → o' = [] ∧ r.1 = 0%Z) ∧
  (r.1 = 0%Z ∧ sidtab_wf r.2 ∧ sidtab_nodes r.2 ≡ₚ (SidtabNode (new_addr (sid_s <$> sidtab_nodes s)) ctx 1 :: sidtab_nodes s)
   ∨ r = ((-1)%Z, s)).

Lemma insert_wf s ctx c :
  sidtab_wf s → (∀ n, n ∈ sidtab_nodes s → sid_ctx n ≠ ctx) →
  htable s !! N.to_nat (sidtab_hash ctx) = Some c →
  let n := SidtabNode (new_addr (sid_s <$> sidtab_nodes s)) ctx 1 in
  let s' := Sidtab (<[N.to_nat (sidtab_hash ctx) := n :: c]> (htable s)) (u32 (nel s + 1)) in
  sidtab_wf s' ∧ sidtab_nodes s' ≡ₚ n :: sidtab_nodes s.
Proof.
  intros Hwf Hfresh Hc n s'. destruct (concat_focus _ _ _ Hc) as (R & HR & Hins).
  assert (sidtab_nodes s' ≡ₚ n :: sidtab_nodes s) as Hperm.
  { unfold sidtab_nodes. cbn [htable s']. rewrite (Hins (n :: c)), HR. done. }
  split; [|done]. destruct (Hnew (sid_s <$> sidtab_nodes s)) as [Hna Hnz]. split.
  - cbn. rewrite length_insert. apply Hwf.
  - cbn. intros i c' m Hi Hm. apply list_lookup_insert_Some in Hi as [(<- & <- & _)|(Hne & Hi)].
    + apply elem_of_cons in Hm as [->|Hm]; [done|]. by eapply (sw_slot s Hwf).
    + by eapply (sw_slot s Hwf).
  - rewrite Hperm, fmap_cons. apply NoDup_cons. split; [|apply Hwf]. cbn.
    intros (m & Heq & Hm)%list_elem_of_fmap. by apply (Hfresh m Hm).
  - rewrite Hperm, fmap_cons. apply NoDup_cons. split; [done|apply Hwf].
  - rewrite Hperm. constructor; [done|apply Hwf].
Qed.

Lemma avc_sid_insert_spec s ctx o :
  sidtab_wf s → (∀ n, n ∈ sidtab_nodes s → sid_ctx n ≠ ctx) →
  wp (sidtab_insert s ctx) o (insert_post s ctx o).
Proof.
  intros Hwf Hfresh. unfold sidtab_insert, insert_post.
  wp_step. wp_step. intros [] o1 H1; cbn [negb]; [|wp_step; split; [naive_solver|by right]].
  wp_step. wp_step. intros [] o2 H2; cbn [negb]; [|wp_step; split; [naive_solver|by right]].
  destruct (lookup_lt_is_Some_2 (htable s) (N.to_nat (sidtab_hash ctx))) as [c Hc].
  { rewrite (sw_size s Hwf). pose proof (hash_lt ctx). lia. }
  wp_step. apply wp_deref. exists c. split; [done|]. wp_step. split; [naive_solver|]. left.
  split; [done|]. by apply insert_wf.
Qed.

(** The SIDs of [s] are SIDs of [s'] for the same contexts. *)
Definition sids_kept (s s' : sidtab) : Prop := ∀ sid ctx, sid_for s sid ctx → sid_for s' sid ctx.

Lemma context_to_sid_found s ctx n o :
  sidtab_wf s → n ∈ sidtab_nodes s → sid_ctx n = ctx →
  context_to_sid_loop 1 s ctx o = Ret (0%Z, s, sid_s n) o.
Proof.
  intros Hwf Hn Hctx. cbn [context_to_sid_loop]. rewrite bind_run.
  destruct (lookup_lt_is_Some_2 (htable s) (N.to_nat (sidtab_hash ctx))) as [c Hc].
  { rewrite (sw_size s Hwf). pose proof (hash_lt ctx). lia. }
  rewrite Hc. cbn [deref]. unfold mret at 1, M_ret at 1. pose proof (find_ctx s ctx c Hwf Hc) as Hfind.
  destruct (List.find _ c) as [n'|].
  - destruct Hfind as [Hn' Hctx']. replace n' with n; [done|].
    apply (nodup_fmap_inj sid_ctx (sidtab_nodes s)); [apply Hwf|done|done|congruence].
  - by destruct (Hfind n Hn).
Qed.

Definition context_to_sid_post (s : sidtab) (ctx : string) (o : oracle) (r : Z * sidtab * N) (o' : oracle) : Prop :=
  let '(rc, s', sid) := r in
  (o = [] → o' = [] ∧ rc = 0%Z) ∧ sidtab_wf s' ∧ sids_kept s s' ∧
  (rc = 0%Z ∧ sid ≠ 0 ∧ sid_for s' sid ctx ∨ rc = (-1)%Z ∧ s' = s ∧ sid = 0).

Lemma avc_context_to_sid_spec s ctx o :
  sidtab_wf s → wp (sidtab_context_to_sid s ctx) o (context_to_sid_post s ctx o).
Proof.
  intros Hwf. unfold sidtab_context_to_sid. change 2%nat with (S 1). remember 1%nat as fuel eqn:Hf.
  cbn [context_to_sid_loop].
  destruct (lookup_lt_is_Some_2 (htable s) (N.to_nat (sidtab_hash ctx))) as [c Hc].
  { rewrite (sw_size s Hwf). pose proof (hash_lt ctx). lia. }
  wp_step. apply wp_deref. exists c. split; [done|]. pose proof (find_ctx s ctx c Hwf Hc) as Hfind.
  destruct (List.find _ c) as [n|].
  { destruct Hfind as [Hn Hctx]. wp_step. split_and!; [done|done|by intros ? ?|]. left. split; [done|].
    split; [|by exists n]. pose proof (sw_null s Hwf) as Hnull. rewrite Forall_forall in Hnull. by apply Hnull. }
  wp_step. eapply wp_mono; [by apply avc_sid_insert_spec|]. intros [rc s'] o1 [Ho [H|H]]; cbn in Ho.
  - destruct H as (Hrc & Hwf' & Hperm). cbn in Hrc, Hwf', Hperm. subst rc. change (negb (0 =? 0)%Z) with false. cbv iota.
    set (n := SidtabNode _ ctx 1) in *. assert (n ∈ sidtab_nodes s') as Hn by (rewrite Hperm; by left).
    subst fuel. unfold wp. rewrite (context_to_sid_found s' ctx n o1 Hwf' Hn eq_refl).
    split_and!; [naive_solver|done| |].
    + intros sid' ctx' (m & Hm & ? & ?). exists m. split; [|done]. rewrite Hperm. by right.
    + left. split; [done|]. split; [apply Hnew|]. by exists n.
  - injection H as -> ->. change (negb (-1 =? 0)%Z) with true. cbv iota. wp_step.
    split_and!; [naive_solver|done|by intros ? ?|]. by right.
Qed.

(** Equal contexts have equal SIDs, and different ones different SIDs. *)
Lemma sid_for_inj s sid sid' ctx ctx' :
  sidtab_wf s → sid_for s sid ctx → sid_for s sid' ctx' → sid = sid' ↔ ctx = ctx'.
Proof.
  intros Hwf (n & Hn & <- & <-) (n' & Hn' & <- & <-). split; intros Heq.
  - f_equal. by apply (nodup_fmap_inj sid_s (sidtab_nodes s)); [apply Hwf|..].
  - f_equal. by apply (nodup_fmap_inj sid_ctx (sidtab_nodes s)); [apply Hwf|..].
Qed.
End sidtab.

(** * The property of avc_sidtab.c *)

(** Contexts are interned.  The search, insertion and second search of
    [sidtab_context_to_sid] end, whatever the allocator answers; on success
    the SID stands for the context, all earlier SIDs still stand for theirs,
    and the SID equals an earlier one exactly when the contexts are equal.
    Failure means that memory ran out and leaves the table as it was. *)
Theorem context_to_sid_interns new_addr s ctx o :
  (∀ l, (new_addr l ∉ l) ∧ new_addr l ≠ 0) → sidtab_wf s →
  wp (sidtab_context_to_sid new_addr s ctx) o (λ r o', context_to_sid_post s ctx o r o' ∧
    (r.1.1 = 0%Z → ∀ sid' ctx', sid_for s sid' ctx' → r.2 = sid' ↔ ctx = ctx')).
Proof.
  intros Hnew Hwf. eapply wp_mono; [by apply avc_context_to_sid_spec|].
  intros [[rc s'] sid] o' Hpost. split; [done|]. cbn. destruct Hpost as (_ & Hwf' & Hkept & [(_ & _ & Hsid)|(-> & _)]).
  - intros _ sid' ctx' Hs. by apply (sid_for_inj s'); [| |apply Hkept].
  - done.
Qed.

(** ** Examples *)

Definition ex_new_addr (l : list N) : N := foldr N.max 0 l + 1.

Lemma ex_new_addr_fresh l : (ex_new_addr l ∉ l) ∧ ex_new_addr l ≠ 0.
Proof.
  unfold ex_new_addr. split; [|lia]. assert (∀ x, x ∈ l → x ≤ foldr N.max 0 l) as H.
  { induction l as [|y l IH]; [by intros x ?%elem_of_nil|]. intros x [->|Hx]%elem_of_cons; cbn; [lia|].
    specialize (IH x Hx). lia. }
  intros Hin%H. lia.
Qed.

Definition ex_sids : sidtab := Sidtab (replicate 128 []) 0.

Lemma ex_sids_wf : sidtab_wf ex_sids.
Proof.
  split; [done| |by vm_compute; constructor..]. intros i c n Hi Hn. cbn [htable ex_sids] in Hi.
  apply lookup_replicate in Hi as [-> _]. by apply elem_of_nil in Hn.
Qed.

Lemma context_to_sid_interns_witness :
  ∃ s sid, sidtab_context_to_sid ex_new_addr ex_sids "u:r:t" [] = Ret (0%Z, s, sid) [] ∧ sid_for s sid "u:r:t".
Proof.
  pose proof (context_to_sid_interns ex_new_addr ex_sids "u:r:t" [] ex_new_addr_fresh ex_sids_wf) as H.
  apply (proj1 (wp_run _ _ _)) in H as ([[rc s] sid] & o' & Hr & (Ho & _ & _ & Hres) & _).
  destruct (Ho eq_refl) as [-> ->]. exists s, sid. split; [exact Hr|]. by destruct Hres as [(_ & _ & ?)|(? & _)].
Defined.
