(* ===== verification/Avc.v ===== *)
(** The userspace access vector cache: libselinux/src/avc.c and the netlink
    code of avc_internal.c.

    Object managers ask for decisions many times; the cache keeps the answers
    of the kernel in a hash table of nodes.  A caller may keep a reference to
    a node ([avc_entry_ref]) across calls, so the nodes are a memory: [nodes]
    maps an address to the entry stored there, the chains of the table and the
    free list are lists of addresses, and a reference is an address.  The
    static variables and [errno] are the record [avc].

    Without threads every operation runs to its end before the next one; the
    locks, which then do nothing, are left out, and so is the text of the log
    messages.  The callbacks of the object manager are functions. *)

From S2P Require Import Prelude Mapping AvcSidtab ComputeAv.
Local Open Scope N_scope.

Definition AVC_CACHE_SLOTS : N := 512.
Definition AVC_CACHE_MAXNODES : N := 410.
Definition SECSID_WILD : N := 0.
Definition AVC_CALLBACK_GRANT : N := 1.
Definition AVC_CALLBACK_TRY_REVOKE : N := 2.
Definition AVC_CALLBACK_REVOKE : N := 4.
Definition AVC_CALLBACK_RESET : N := 8.
Definition AVC_CALLBACK_AUDITALLOW_ENABLE : N := 16.
Definition AVC_CALLBACK_AUDITALLOW_DISABLE : N := 32.
Definition AVC_CALLBACK_AUDITDENY_ENABLE : N := 64.
Definition AVC_CALLBACK_AUDITDENY_DISABLE : N := 128.
Definition SELINUX_AVD_FLAGS_PERMISSIVE : N := 1.
Definition AVC_OPT_SETENFORCE : N := 1.
Definition EAGAIN : Z := 11.

(** * State *)

Record avc_entry := AvcEntry {
  ssid : N; tsid : N; tclass : N; avd : av_decision; create_sid : N; used : bool }.

Definition zero_decision : av_decision := AvDecision 0 0 0 0 0 0.

(** [memset(ae, 0, sizeof( *ae))] *)
Definition avc_clear_avc_entry : avc_entry := AvcEntry 0 0 0 zero_decision 0 false.

(** The result of a callback: its status, the permissions it retains, and
    [errno]. *)
Record avc_callback_node := AvcCallbackNode {
  callback : N → N → N → N → N → Z * N * Z;
  cb_events : N; cb_ssid : N; cb_tsid : N; cb_tclass : N; cb_perms : N }.

Record avc_cache := AvcCache {
  slots : list (list N); lru_hint : N; active_nodes : N; latest_notif : N }.

Record avc_cache_stats := AvcCacheStats {
  entry_lookups : N; entry_hits : N; entry_misses : N; entry_discards : N;
  cav_lookups : N; cav_hits : N; cav_probes : N; cav_misses : N }.

Definition zero_stats : avc_cache_stats := AvcCacheStats 0 0 0 0 0 0 0 0.

Record avc := Avc {
  cache : avc_cache;
  nodes : gmap N avc_entry;
  avc_node_freelist : list N;
  avc_sidtab : sidtab;
  avc_callbacks : list avc_callback_node;
  cache_stats : avc_cache_stats;
  avc_running : bool;
  avc_enforcing : bool;
  avc_setenforce : bool;
  errno : Z }.

(** ** Assignments *)

Definition set_cache (st : avc) (c : avc_cache) : avc :=
  Avc c (nodes st) (avc_node_freelist st) (avc_sidtab st) (avc_callbacks st) (cache_stats st)
    (avc_running st) (avc_enforcing st) (avc_setenforce st) (errno st).
Definition set_nodes (st : avc) (n : gmap N avc_entry) : avc :=
  Avc (cache st) n (avc_node_freelist st) (avc_sidtab st) (avc_callbacks st) (cache_stats st)
    (avc_running st) (avc_enforcing st) (avc_setenforce st) (errno st).
Definition set_freelist (st : avc) (l : list N) : avc :=
  Avc (cache st) (nodes st) l (avc_sidtab st) (avc_callbacks st) (cache_stats st)
    (avc_running st) (avc_enforcing st) (avc_setenforce st) (errno st).
Definition set_sidtab (st : avc) (s : sidtab) : avc :=
  Avc (cache st) (nodes st) (avc_node_freelist st) s (avc_callbacks st) (cache_stats st)
    (avc_running st) (avc_enforcing st) (avc_setenforce st) (errno st).
Definition set_callback_list (st : avc) (l : list avc_callback_node) : avc :=
  Avc (cache st) (nodes st) (avc_node_freelist st) (avc_sidtab st) l (cache_stats st)
    (avc_running st) (avc_enforcing st) (avc_setenforce st) (errno st).
Definition set_stats (st : avc) (s : avc_cache_stats) : avc :=
  Avc (cache st) (nodes st) (avc_node_freelist st) (avc_sidtab st) (avc_callbacks st) s
    (avc_running st) (avc_enforcing st) (avc_setenforce st) (errno st).
Definition set_running (st : avc) (b : bool) : avc :=
  Avc (cache st) (nodes st) (avc_node_freelist st) (avc_sidtab st) (avc_callbacks st) (cache_stats st)
    b (avc_enforcing st) (avc_setenforce st) (errno st).
Definition set_enforcing (st : avc) (b : bool) : avc :=
  Avc (cache st) (nodes st) (avc_node_freelist st) (avc_sidtab st) (avc_callbacks st) (cache_stats st)
    (avc_running st) b (avc_setenforce st) (errno st).
Definition set_setenforce (st : avc) (b : bool) : avc :=
  Avc (cache st) (nodes st) (avc_node_freelist st) (avc_sidtab st) (avc_callbacks st) (cache_stats st)
    (avc_running st) (avc_enforcing st) b (errno st).
Definition set_errno (st : avc) (e : Z) : avc :=
  Avc (cache st) (nodes st) (avc_node_freelist st) (avc_sidtab st) (avc_callbacks st) (cache_stats st)
    (avc_running st) (avc_enforcing st) (avc_setenforce st) e.

Definition set_used (e : avc_entry) (b : bool) : avc_entry :=
  AvcEntry (ssid e) (tsid e) (tclass e) (avd e) (create_sid e) b.
Definition set_avd (e : avc_entry) (d : av_decision) : avc_entry :=
  AvcEntry (ssid e) (tsid e) (tclass e) d (create_sid e) (used e).
Definition set_create_sid (e : avc_entry) (s : N) : avc_entry :=
  AvcEntry (ssid e) (tsid e) (tclass e) (avd e) s (used e).
Definition set_allowed (d : av_decision) (a : N) : av_decision :=
  AvDecision a (decided d) (auditallow d) (auditdeny d) (seqno d) (flags d).
Definition set_auditallow (d : av_decision) (a : N) : av_decision :=
  AvDecision (allowed d) (decided d) a (auditdeny d) (seqno d) (flags d).
Definition set_auditdeny (d : av_decision) (a : N) : av_decision :=
  AvDecision (allowed d) (decided d) (auditallow d) a (seqno d) (flags d).

Definition set_slots (c : avc_cache) (s : list (list N)) : avc_cache :=
  AvcCache s (lru_hint c) (active_nodes c) (latest_notif c).
Definition set_hint (c : avc_cache) (h : N) : avc_cache :=
  AvcCache (slots c) h (active_nodes c) (latest_notif c).
Definition set_active (c : avc_cache) (n : N) : avc_cache :=
  AvcCache (slots c) (lru_hint c) n (latest_notif c).
Definition set_notif (c : avc_cache) (n : N) : avc_cache :=
  AvcCache (slots c) (lru_hint c) (active_nodes c) n.

(** Counters are [unsigned]. *)
Definition count (st : avc) (f : avc_cache_stats → avc_cache_stats) : avc := set_stats st (f (cache_stats st)).
Definition incr_entry_lookups (s : avc_cache_stats) : avc_cache_stats :=
  AvcCacheStats (u32 (entry_lookups s + 1)) (entry_hits s) (entry_misses s) (entry_discards s)
    (cav_lookups s) (cav_hits s) (cav_probes s) (cav_misses s).
Definition incr_entry_hits (s : avc_cache_stats) : avc_cache_stats :=
  AvcCacheStats (entry_lookups s) (u32 (entry_hits s + 1)) (entry_misses s) (entry_discards s)
    (cav_lookups s) (cav_hits s) (cav_probes s) (cav_misses s).
Definition incr_entry_misses (s : avc_cache_stats) : avc_cache_stats :=
  AvcCacheStats (entry_lookups s) (entry_hits s) (u32 (entry_misses s + 1)) (entry_discards s)
    (cav_lookups s) (cav_hits s) (cav_probes s) (cav_misses s).
Definition incr_entry_discards (s : avc_cache_stats) : avc_cache_stats :=
  AvcCacheStats (entry_lookups s) (entry_hits s) (entry_misses s) (u32 (entry_discards s + 1))
    (cav_lookups s) (cav_hits s) (cav_probes s) (cav_misses s).
Definition incr_cav_lookups (s : avc_cache_stats) : avc_cache_stats :=
  AvcCacheStats (entry_lookups s) (entry_hits s) (entry_misses s) (entry_discards s)
    (u32 (cav_lookups s + 1)) (cav_hits s) (cav_probes s) (cav_misses s).
Definition add_cav_hit (probes : N) (s : avc_cache_stats) : avc_cache_stats :=
  AvcCacheStats (entry_lookups s) (entry_hits s) (entry_misses s) (entry_discards s)
    (cav_lookups s) (u32 (cav_hits s + 1)) (u32 (cav_probes s + probes)) (cav_misses s).
Definition incr_cav_misses (s : avc_cache_stats) : avc_cache_stats :=
  AvcCacheStats (entry_lookups s) (entry_hits s) (entry_misses s) (entry_discards s)
    (cav_lookups s) (cav_hits s) (cav_probes s) (u32 (cav_misses s + 1)).

(** * Nodes *)

(** Addresses are 64 bits wide, classes 16. *)
Definition avc_hash (ssid tsid tclass : N) : N :=
  N.land (N.lxor (N.lxor ssid (u64 (N.shiftl tsid 2))) tclass) (AVC_CACHE_SLOTS - 1).

(** The inner loop of [avc_reclaim_node]: clears the [used] marks of a chain up
    to the first node without one; [pre] is the chain before [cur], reversed. *)
Fixpoint reclaim_chain (mem : gmap N avc_entry) (pre chain : list N)
    : M (gmap N avc_entry * option (list N * N)) :=
  match chain with
  | [] => mret (mem, None)
  | cur :: next =>
      ae ← deref (mem !! cur);
      if negb (used ae) then mret (mem, Some (reverse pre ++ next, cur))
      else reclaim_chain (<[cur := set_used ae false]> mem) (cur :: pre) next
  end.

(** The [do] loop over the slots from [hvalue] round to [lru_hint]. *)
Fixpoint reclaim_slots (fuel : nat) (slots : list (list N)) (lru_hint hvalue : N) (mem : gmap N avc_entry)
    : M (gmap N avc_entry * option (N * list N * N)) :=
  match fuel with
  | O => ub
  | S fuel =>
      chain ← deref (slots !! N.to_nat hvalue);
      '(mem, r) ← reclaim_chain mem [] chain;
      match r with
      | Some (chain, cur) => mret (mem, Some (hvalue, chain, cur))
      | None =>
          let hvalue := N.land (hvalue + 1) (AVC_CACHE_SLOTS - 1) in
          if negb (hvalue =? lru_hint) then reclaim_slots fuel slots lru_hint hvalue mem
          else mret (mem, None)
      end
  end.

(** Two rounds; the result is the address of a node that is in no chain. *)
Fixpoint reclaim_tries (tries : nat) (st : avc) : M (avc * option N) :=
  match tries with
  | O => mret (set_errno st ENOMEM, None)
  | S tries =>
      '(mem, r) ← reclaim_slots (N.to_nat AVC_CACHE_SLOTS) (slots (cache st)) (lru_hint (cache st))
                    (lru_hint (cache st)) (nodes st);
      match r with
      | Some (hvalue, chain, cur) =>
          mret (set_nodes (set_cache st (AvcCache (<[N.to_nat hvalue := chain]> (slots (cache st))) hvalue
                  (active_nodes (cache st)) (latest_notif (cache st)))) mem, Some cur)
      | None => reclaim_tries tries (set_nodes st mem)
      end
  end.

Definition avc_reclaim_node (st : avc) : M (avc * option N) := reclaim_tries 2 st.

(** [avc_cleanup] does nothing. *)
Definition avc_cleanup (st : avc) : avc := st.

Definition avc_claim_node (st : avc) (ssid tsid tclass : N) : M (avc * option N) :=
  let st := match avc_node_freelist st with [] => avc_cleanup st | _ => st end in
  '(st, new) ← match avc_node_freelist st with
               | new :: next =>
                   mret (set_cache (set_freelist st next)
                           (set_active (cache st) (u32 (active_nodes (cache st) + 1))), Some new)
               | [] => avc_reclaim_node st
               end;
  match new with
  | None => mret (st, None)
  | Some new =>
      let hvalue := N.to_nat (avc_hash ssid tsid tclass) in
      chain ← deref (slots (cache st) !! hvalue);
      mret (set_nodes (set_cache st (set_slots (cache st) (<[hvalue := new :: chain]> (slots (cache st)))))
              (<[new := AvcEntry ssid tsid tclass zero_decision 0 true]> (nodes st)), Some new)
  end.

(** The first node of a chain for the key, with the number of probes. *)
Fixpoint search_chain (mem : gmap N avc_entry) (ssid' tsid' tclass' : N) (chain : list N) (tprobes : N)
    : M (option N * N) :=
  match chain with
  | [] => mret (None, tprobes)
  | cur :: next =>
      ae ← deref (mem !! cur);
      if negb (ssid' =? ssid ae) || negb (tclass' =? tclass ae) || negb (tsid' =? tsid ae)
      then search_chain mem ssid' tsid' tclass' next (tprobes + 1)
      else mret (Some cur, tprobes)
  end.

Definition avc_search_node (st : avc) (ssid tsid tclass : N) : M (avc * option N * N) :=
  chain ← deref (slots (cache st) !! N.to_nat (avc_hash ssid tsid tclass));
  '(cur, tprobes) ← search_chain (nodes st) ssid tsid tclass chain 1;
  match cur with
  | None => mret (st, None, tprobes)
  | Some cur =>
      ae ← deref (nodes st !! cur);
      mret (set_nodes st (<[cur := set_used ae true]> (nodes st)), Some cur, tprobes)
  end.

(** [(x & requested) == requested] *)
Definition has_all (x requested : N) : bool := N.land x requested =? requested.

(** The result is the status, the state and the entry; [None] leaves the
    caller's reference alone. *)
Definition avc_lookup (st : avc) (ssid tsid tclass requested : N) : M (Z * avc * option N) :=
  let st := count st incr_cav_lookups in
  '(st, node, probes) ← avc_search_node st ssid tsid tclass;
  let miss : M (Z * avc * option N) := mret ((-1)%Z, count st incr_cav_misses, None) in
  match node with
  | None => miss
  | Some node =>
      ae ← deref (nodes st !! node);
      if has_all (decided (avd ae)) requested
      then mret (0%Z, count st (add_cav_hit probes), Some node) else miss
  end.

Definition avc_insert (st : avc) (ssid tsid tclass : N) (d : av_decision) : M (Z * avc * option N) :=
  if seqno d <? latest_notif (cache st) then mret ((-1)%Z, set_errno st EAGAIN, None) else
  '(st, node) ← avc_claim_node st ssid tsid tclass;
  match node with
  | None => mret ((-1)%Z, st, None)
  | Some node =>
      ae ← deref (nodes st !! node);
      mret (0%Z, set_nodes st (<[node := set_avd ae d]> (nodes st)), Some node)
  end.

(** * Flushing the cache *)

(** The nodes of a chain go to the free list one by one. *)
Fixpoint reset_chain (mem : gmap N avc_entry) (free : list N) (active : N) (chain : list N)
    : M (gmap N avc_entry * list N * N) :=
  match chain with
  | [] => mret (mem, free, active)
  | tmp :: node =>
      _ ← deref (mem !! tmp);
      reset_chain (<[tmp := avc_clear_avc_entry]> mem) (tmp :: free) (dec32 active) node
  end.

Fixpoint reset_slots (mem : gmap N avc_entry) (free : list N) (active : N) (l : list (list N))
    : M (gmap N avc_entry * list N * N) :=
  match l with
  | [] => mret (mem, free, active)
  | chain :: l =>
      '(mem, free, active) ← reset_chain mem free active chain;
      reset_slots mem free active l
  end.

(** Calls of the object manager on a reset; the first failure is returned. *)
Fixpoint reset_callbacks (l : list avc_callback_node) (rc errsave : Z) : Z * Z :=
  match l with
  | [] => (rc, errsave)
  | c :: l =>
      if truth (N.land (cb_events c) AVC_CALLBACK_RESET) then
        let '(ret, _, e) := callback c AVC_CALLBACK_RESET 0 0 0 0 in
        if negb (ret =? 0)%Z && (rc =? 0)%Z then reset_callbacks l ret e
        else reset_callbacks l rc errsave
      else reset_callbacks l rc errsave
  end.

Definition avc_reset (st : avc) : M (Z * avc) :=
  let st := set_errno st 0%Z in
  if negb (avc_running st) then mret (0%Z, st) else
  '(mem, free, active) ← reset_slots (nodes st) (avc_node_freelist st) (active_nodes (cache st)) (slots (cache st));
  let st := set_nodes (set_freelist (set_cache st
              (AvcCache (replicate (length (slots (cache st))) []) 0 active (latest_notif (cache st)))) free) mem in
  let st := set_stats st zero_stats in
  let '(rc, errsave) := reset_callbacks (avc_callbacks st) 0 0 in
  mret (rc, set_errno st errsave).

Definition note_seqno (st : avc) (seqno : N) : avc :=
  if latest_notif (cache st) <? seqno then set_cache st (set_notif (cache st) seqno) else st.

Definition avc_ss_reset (st : avc) (seqno : N) : M (Z * avc) :=
  '(rc, st) ← avc_reset st;
  mret (rc, note_seqno st seqno).

(** * Netlink messages *)

Definition EINTR : Z := 4.
Definition EWOULDBLOCK : Z := 11.
Definition EBADFD : Z := 77.

Inductive nlmsg :=
  | NLMSG_ERROR (error : Z)
  | SELNL_MSG_SETENFORCE (val : Z)
  | SELNL_MSG_POLICYLOAD (seqno : N)
  | NLMSG_OTHER (type : N).

(** What the kernel hands to one call of [avc_netlink_receive]: the result of
    [poll] (after interrupted calls), and the packet that [recvfrom] returns. *)
Record packet := Packet {
  poll_rc : Z; poll_errno : Z;
  recv_rc : Z; recv_errno : Z;
  addr_complete : bool; nl_pid : N; msg_trunc : bool; nlmsg_len : N; message : nlmsg }.

(** The status and [errno]. *)
Definition avc_netlink_receive (p : packet) (blocking : bool) (errno : Z) : Z * Z :=
  if (poll_rc p =? 0)%Z && negb blocking then ((-1)%Z, EWOULDBLOCK) else
  if (poll_rc p <? 1)%Z then (poll_rc p, if (poll_rc p <? 0)%Z then poll_errno p else errno) else
  if (recv_rc p <? 0)%Z then (recv_rc p, recv_errno p) else
  if negb (addr_complete p) then ((-1)%Z, errno) else
  if negb (nl_pid p =? 0) then ((-1)%Z, errno) else
  if (recv_rc p =? 0)%Z then ((-1)%Z, EBADFD) else
  if msg_trunc p || (Z.to_N (recv_rc p) <? nlmsg_len p) then ((-1)%Z, errno) else
  (0%Z, errno).

(** The callbacks for the two notifications. *)
Record netlink_callbacks := NetlinkCallbacks {
  selinux_netlink_setenforce : Z → Z;
  selinux_netlink_policyload : N → Z }.

Section avc.
Context (new_addr : list N → N) (k : kernel) (m : mapping_state) (nl : netlink_callbacks).

Definition avc_netlink_process (st : avc) (buf : nlmsg) : M (Z * avc) :=
  match buf with
  | NLMSG_ERROR error =>
      mret (if (error =? 0)%Z then (0%Z, st) else ((-1)%Z, set_errno st (- error)%Z))
  | SELNL_MSG_SETENFORCE val =>
      if avc_setenforce st then mret (0%Z, st) else
      let st := set_enforcing st (negb (val =? 0)%Z) in
      '(rc, st) ← (if avc_enforcing st then avc_ss_reset st 0 else mret (0%Z, st));
      if (rc <? 0)%Z then mret (rc, st) else
      let rc := selinux_netlink_setenforce nl val in
      mret (if (rc <? 0)%Z then rc else 0%Z, st)
  | SELNL_MSG_POLICYLOAD seqno =>
      '(rc, st) ← avc_ss_reset st seqno;
      if (rc <? 0)%Z then mret (rc, st) else
      let rc := selinux_netlink_policyload nl seqno in
      mret (if (rc <? 0)%Z then rc else 0%Z, st)
  | NLMSG_OTHER _ => mret (0%Z, st)
  end.

(** The loop ends when no packet is waiting. *)
Fixpoint avc_netlink_check_nb (st : avc) (pending : list packet) : M (Z * avc) :=
  let st := set_errno st 0%Z in
  match pending with
  | [] => mret (0%Z, set_errno st EWOULDBLOCK)
  | p :: pending =>
      let '(rc, e) := avc_netlink_receive p false (errno st) in
      let st := set_errno st e in
      if (rc <? 0)%Z then
        if (errno st =? EWOULDBLOCK)%Z then mret (0%Z, st) else
        if (errno st =? 0)%Z || (errno st =? EINTR)%Z then avc_netlink_check_nb st pending
        else mret (rc, st)
      else
        '(_, st) ← avc_netlink_process st (message p);
        avc_netlink_check_nb st pending
  end.

(** * Decisions *)

(** [decided] is not initialised. *)
Definition avd_init (st : avc) (d : av_decision) : av_decision :=
  AvDecision 0 (decided d) 0 UINT_MAX (latest_notif (cache st)) 0.

(** The reference of the caller, if it is still good for the query. *)
Definition check_ref (st : avc) (ssid' tsid' tclass' requested : N) (aeref : option N) : M (avc * option N) :=
  match aeref with
  | None => mret (st, None)
  | Some a =>
      ae ← deref (nodes st !! a);
      mret (if (ssid ae =? ssid') && (tsid ae =? tsid') && (tclass ae =? tclass') &&
               has_all (decided (avd ae)) requested
            then (set_nodes (count st incr_entry_hits) (<[a := set_used ae true]> (nodes st)), Some a)
            else (count st incr_entry_discards, None))
  end.

(** The entry for a query: the cached one or one made from the kernel's answer.
    [inl] is [goto out] with a status. *)
Definition get_entry (st : avc) (ssid tsid tclass requested : N) (aeref : option N)
    : M (avc * (Z * option N + N)) :=
  '(rc, st, node) ← avc_lookup st ssid tsid tclass requested;
  match node with
  | Some node => mret (st, inr node)
  | None =>
      scon ← deref (sid_lookup (avc_sidtab st) ssid);
      tcon ← deref (sid_lookup (avc_sidtab st) tsid);
      '(rc, d, e) ← security_compute_av_flags_raw k m scon tcon tclass requested zero_decision (errno st);
      let st := set_errno st e in
      if negb (rc =? 0)%Z && (errno st =? EINVAL)%Z && negb (avc_enforcing st)
      then mret (set_errno st 0%Z, inl (0%Z, aeref)) else
      if negb (rc =? 0)%Z then mret (st, inl (rc, aeref)) else
      '(rc, st, node) ← avc_insert st ssid tsid tclass d;
      match node with
      | None => mret (st, inl (rc, aeref))
      | Some node => mret (st, inr node)
      end
  end.

(** The result is the status, the state, the caller's reference and the
    caller's decision. *)
Definition avc_has_perm_noaudit (st : avc) (pending : list packet) (ssid tsid tclass requested : N)
    (aeref : option N) (avd0 : av_decision) : M (Z * avc * option N * av_decision) :=
  let avd0 := avd_init st avd0 in
  '(_, st) ← avc_netlink_check_nb st pending;
  let st := count st incr_entry_lookups in
  '(st, ae) ← check_ref st ssid tsid tclass requested aeref;
  '(st, r) ← match ae with
             | Some ae => mret (st, inr ae)
             | None => get_entry (count st incr_entry_misses) ssid tsid tclass requested aeref
             end;
  match r with
  | inl (rc, aeref) => mret (rc, st, aeref, avd0)
  | inr a =>
      ae ← deref (nodes st !! a);
      let d := avd ae in
      let denied := N.land requested (lnot32 (allowed d)) in
      if (requested =? 0) || truth denied then
        if negb (avc_enforcing st) || truth (N.land (flags d) SELINUX_AVD_FLAGS_PERMISSIVE)
        then mret (0%Z, set_nodes st (<[a := set_avd ae (set_allowed d (N.lor (allowed d) requested))]> (nodes st)),
                   Some a, d)
        else mret ((-1)%Z, set_errno st EACCES, Some a, d)
      else mret (0%Z, st, Some a, d)
  end.

(** Whether a message is written, whether it says denied, and for which
    permissions. *)
Definition avc_audit (requested : N) (d : av_decision) (result : Z) : option (bool * N) :=
  let denied := N.land requested (lnot32 (allowed d)) in
  let '(audited, denied) :=
    if truth denied then (N.land denied (auditdeny d), denied)
    else if (requested =? 0) || negb (result =? 0)%Z then (requested, requested)
    else (N.land requested (auditallow d), denied) in
  if audited =? 0 then None else Some (truth denied || (requested =? 0), audited).

Definition avc_has_perm (st : avc) (pending : list packet) (ssid tsid tclass requested : N)
    (aeref : option N) (avd0 : av_decision) : M (Z * avc * option N * option (bool * N)) :=
  '(rc, st, aeref, d) ← avc_has_perm_noaudit st pending ssid tsid tclass requested aeref avd0;
  mret (rc, st, aeref, avc_audit requested d rc).

(** * Labels of new objects *)

Definition avc_compute_create (st : avc) (ssid tsid tclass : N) : M (Z * avc * N) :=
  '(rc, st, node) ← avc_lookup st ssid tsid tclass 0;
  '(st, r) ← match node with
             | Some node => mret (st, inr node)
             | None =>
                 scon ← deref (sid_lookup (avc_sidtab st) ssid);
                 tcon ← deref (sid_lookup (avc_sidtab st) tsid);
                 '(rc, d, e) ← security_compute_av_flags_raw k m scon tcon tclass 0 zero_decision (errno st);
                 let st := set_errno st e in
                 if negb (rc =? 0)%Z then mret (st, inl rc) else
                 '(rc, st, node) ← avc_insert st ssid tsid tclass d;
                 mret (st, match node with None => inl rc | Some node => inr node end)
             end;
  match r with
  | inl rc => mret (rc, st, 0)
  | inr a =>
      ae ← deref (nodes st !! a);
      if create_sid ae =? 0 then
        scon ← deref (sid_lookup (avc_sidtab st) ssid);
        tcon ← deref (sid_lookup (avc_sidtab st) tsid);
        '(rc, ctx, e) ← security_compute_create_raw k m scon tcon tclass (errno st);
        let st := set_errno st e in
        match ctx with
        | None => mret (rc, st, 0)
        | Some ctx =>
            '(rc, s, newsid) ← sidtab_context_to_sid new_addr (avc_sidtab st) ctx;
            let st := set_sidtab st s in
            if negb (rc =? 0)%Z then mret (rc, st, newsid) else
            mret (0%Z, set_nodes st (<[a := set_create_sid ae newsid]> (nodes st)), newsid)
        end
      else mret (0%Z, st, create_sid ae)
  end.

Definition avc_compute_member (st : avc) (ssid tsid tclass : N) : M (Z * avc * N) :=
  if negb (avc_running st) then ub else
  scon ← deref (sid_lookup (avc_sidtab st) ssid);
  tcon ← deref (sid_lookup (avc_sidtab st) tsid);
  '(rc, ctx, e) ← security_compute_member_raw k m scon tcon tclass (errno st);
  let st := set_errno st e in
  match ctx with
  | None => mret (rc, st, 0)
  | Some ctx =>
      '(rc, s, newsid) ← sidtab_context_to_sid new_addr (avc_sidtab st) ctx;
      mret (rc, set_sidtab st s, newsid)
  end.

(** ** SIDs *)

(** A failed [assert] is the end of the program. *)
Definition avc_context_to_sid_raw (st : avc) (ctx : string) : M (Z * avc * N) :=
  if negb (avc_running st) then ub else
  '(rc, s, sid) ← sidtab_context_to_sid new_addr (avc_sidtab st) ctx;
  mret (rc, set_sidtab st s, sid).

Definition avc_sid_to_context_raw (st : avc) (sid : N) : M (Z * option string) :=
  ctx ← deref (sid_lookup (avc_sidtab st) sid);
  ok ← malloc;
  mret (if negb ok then ((-1)%Z, None) else (0%Z, Some ctx)).

(** * Changes of single decisions *)

Definition avc_add_callback (st : avc) (c : avc_callback_node) : M (Z * avc) :=
  ok ← malloc;
  mret (if negb ok then ((-1)%Z, st) else (0%Z, set_callback_list st (c :: avc_callbacks st))).

Definition avc_sidcmp (x y : N) : bool := (x =? y) || (x =? SECSID_WILD) || (y =? SECSID_WILD).

Definition avc_update_node (event perms : N) (ae : avc_entry) : avc_entry :=
  let d := avd ae in
  if event =? AVC_CALLBACK_GRANT then set_avd ae (set_allowed d (N.lor (allowed d) perms))
  else if (event =? AVC_CALLBACK_TRY_REVOKE) || (event =? AVC_CALLBACK_REVOKE)
  then set_avd ae (set_allowed d (N.land (allowed d) (lnot32 perms)))
  else if event =? AVC_CALLBACK_AUDITALLOW_ENABLE then set_avd ae (set_auditallow d (N.lor (auditallow d) perms))
  else if event =? AVC_CALLBACK_AUDITALLOW_DISABLE
  then set_avd ae (set_auditallow d (N.land (auditallow d) (lnot32 perms)))
  else if event =? AVC_CALLBACK_AUDITDENY_ENABLE then set_avd ae (set_auditdeny d (N.lor (auditdeny d) perms))
  else if event =? AVC_CALLBACK_AUDITDENY_DISABLE
  then set_avd ae (set_auditdeny d (N.land (auditdeny d) (lnot32 perms)))
  else ae.

(** All matching nodes, slot by slot. *)
Fixpoint update_all (mem : gmap N avc_entry) (event ssid' tsid' tclass' perms : N) (l : list N)
    : M (gmap N avc_entry) :=
  match l with
  | [] => mret mem
  | node :: l =>
      ae ← deref (mem !! node);
      update_all (if avc_sidcmp ssid' (ssid ae) && avc_sidcmp tsid' (tsid ae) && (tclass' =? tclass ae)
                  then <[node := avc_update_node event perms ae]> mem else mem)
        event ssid' tsid' tclass' perms l
  end.

Definition avc_update_cache (st : avc) (event ssid tsid tclass perms : N) : M avc :=
  if (ssid =? SECSID_WILD) || (tsid =? SECSID_WILD) then
    mem ← update_all (nodes st) event ssid tsid tclass perms (concat (slots (cache st)));
    mret (set_nodes st mem)
  else
    '(st, node, _) ← avc_search_node st ssid tsid tclass;
    match node with
    | None => mret st
    | Some node =>
        ae ← deref (nodes st !! node);
        mret (set_nodes st (<[node := avc_update_node event perms ae]> (nodes st)))
    end.

(** The callbacks for an event: the status and [errno] of the first failure,
    and the permissions that those that succeed retain. *)
Fixpoint control_callbacks (l : list avc_callback_node) (event ssid tsid tclass perms : N)
    (tretained : N) (rc errsave : Z) : N * Z * Z :=
  match l with
  | [] => (tretained, rc, errsave)
  | c :: l =>
      if truth (N.land (cb_events c) event) && avc_sidcmp (cb_ssid c) ssid && avc_sidcmp (cb_tsid c) tsid &&
         (cb_tclass c =? tclass) && truth (N.land (cb_perms c) perms) then
        let '(ret, cretained, e) := callback c event ssid tsid tclass (N.land (cb_perms c) perms) in
        let '(rc, errsave) := if negb (ret =? 0)%Z && (rc =? 0)%Z then (ret, e) else (rc, errsave) in
        control_callbacks l event ssid tsid tclass perms
          (if (ret =? 0)%Z then N.lor tretained cretained else tretained) rc errsave
      else control_callbacks l event ssid tsid tclass perms tretained rc errsave
  end.

(** The result is the status, the state and the retained permissions. *)
Definition avc_control (st : avc) (event ssid tsid tclass perms seqno : N) : M (Z * avc * N) :=
  let st := set_errno st 0%Z in
  st ← (if negb (event =? AVC_CALLBACK_TRY_REVOKE)
        then avc_update_cache st event ssid tsid tclass perms else mret st);
  let '(tretained, rc, errsave) := control_callbacks (avc_callbacks st) event ssid tsid tclass perms 0 0 0 in
  st ← (if event =? AVC_CALLBACK_TRY_REVOKE
        then avc_update_cache st event ssid tsid tclass (N.land perms (lnot32 tretained)) else mret st);
  mret (rc, set_errno (note_seqno st seqno) errsave, tretained).

Definition avc_ss_grant (st : avc) (ssid tsid tclass perms seqno : N) : M (Z * avc) :=
  '(rc, st, _) ← avc_control st AVC_CALLBACK_GRANT ssid tsid tclass perms seqno; mret (rc, st).
Definition avc_ss_try_revoke (st : avc) (ssid tsid tclass perms seqno : N) : M (Z * avc * N) :=
  avc_control st AVC_CALLBACK_TRY_REVOKE ssid tsid tclass perms seqno.
Definition avc_ss_revoke (st : avc) (ssid tsid tclass perms seqno : N) : M (Z * avc) :=
  '(rc, st, _) ← avc_control st AVC_CALLBACK_REVOKE ssid tsid tclass perms seqno; mret (rc, st).
Definition avc_ss_set_auditallow (st : avc) (ssid tsid tclass perms seqno : N) (enable : bool) : M (Z * avc) :=
  '(rc, st, _) ← avc_control st (if enable then AVC_CALLBACK_AUDITALLOW_ENABLE else AVC_CALLBACK_AUDITALLOW_DISABLE)
                   ssid tsid tclass perms seqno; mret (rc, st).
Definition avc_ss_set_auditdeny (st : avc) (ssid tsid tclass perms seqno : N) (enable : bool) : M (Z * avc) :=
  '(rc, st, _) ← avc_control st (if enable then AVC_CALLBACK_AUDITDENY_ENABLE else AVC_CALLBACK_AUDITDENY_DISABLE)
                   ssid tsid tclass perms seqno; mret (rc, st).

(** * Starting and stopping *)

(** The loop that allocates the nodes. *)
Fixpoint alloc_nodes (n : nat) (mem : gmap N avc_entry) (free : list N) : M (gmap N avc_entry * list N) :=
  match n with
  | O => mret (mem, free)
  | S n =>
      ok ← malloc;
      if negb ok then mret (mem, free) else
      let new := new_addr (fst <$> map_to_list mem) in
      alloc_nodes n (<[new := avc_clear_avc_entry]> mem) (new :: free)
  end.

(** [netlink_open] is the result of opening the socket. *)
Definition avc_init (st : avc) (netlink_open : Z * Z) : M (Z * avc) :=
  if avc_running st then mret (0%Z, st) else
  let st := set_stats st zero_stats in
  let st := set_cache st (AvcCache (replicate (N.to_nat AVC_CACHE_SLOTS) []) 0 0 0) in
  '(rc, s) ← sidtab_init (avc_sidtab st);
  let st := set_sidtab st s in
  if negb (rc =? 0)%Z then mret (rc, st) else
  ok ← malloc;
  if negb ok then mret ((-1)%Z, st) else
  '(mem, free) ← alloc_nodes (N.to_nat AVC_CACHE_MAXNODES) (nodes st) (avc_node_freelist st);
  let st := set_nodes (set_freelist st free) mem in
  let '(rc, st) := if negb (avc_setenforce st)
                   then let '(rc, e) := security_getenforce k (errno st) in (rc, set_errno st e)
                   else (0%Z, st) in
  if (rc <? 0)%Z then mret (rc, st) else
  let st := if negb (avc_setenforce st) then set_enforcing st (negb (rc =? 0)%Z) else st in
  let '(rc, e) := netlink_open in
  if (rc <? 0)%Z then mret (rc, set_errno st e) else
  mret (rc, set_running st true).

(** An option is its type and whether its value is not NULL; they are read from
    the last to the first. *)
Fixpoint read_options (st : avc) (opts : list (N * bool)) : avc :=
  match opts with
  | [] => st
  | (type, value) :: opts =>
      let st := read_options st opts in
      if type =? AVC_OPT_SETENFORCE then set_enforcing (set_setenforce st true) value else st
  end.

Definition avc_open (st : avc) (opts : list (N * bool)) (netlink_open : Z * Z) : M (Z * avc) :=
  avc_init (read_options (set_setenforce st false) opts) netlink_open.

(** The slots keep their dangling pointers until the next [avc_init]. *)
Definition avc_destroy (st : avc) : M avc :=
  if negb (avc_running st) then ub else
  mret (Avc (cache st) ∅ [] (Sidtab [] (nel (avc_sidtab st))) [] (cache_stats st) false
          (avc_enforcing st) (avc_setenforce st) (errno st)).
End avc.
