(* ===== verification/AvcFacts.v ===== *)
(** The invariant of the userspace cache and what its operations do to it.

    Every node is in exactly one chain or on the free list, a chain holds the
    entries that hash to it, and an entry on the free list has no SIDs, so
    that a reference to it matches no query.  What the entries of the chains
    say is a parameter [good], so that the same lemmas serve the agreement
    with the kernel and the freshness of the answers. *)

From S2P Require Import Prelude Mapping AvcSidtab ComputeAv Avc.
Local Open Scope N_scope.

(** The part of an entry that decisions depend on. *)
Definition core (e : avc_entry) : N * N * N * av_decision := (ssid e, tsid e, tclass e, avd e).

Definition active (st : avc) : list N := concat (slots (cache st)).

(** The invariant speaks of the chains, the free list and the cores. *)
Record cache_wf (sl : list (list N)) (free : list N) (ents : gmap N (N * N * N * av_decision)) : Prop := {
  cw_size : length sl = N.to_nat AVC_CACHE_SLOTS;
  cw_nodup : NoDup (concat sl ++ free);
  cw_all : ∀ a, a ∈ concat sl ++ free ↔ is_Some (ents !! a);
  cw_slot : ∀ i c a s t cl d, sl !! i = Some c → a ∈ c → ents !! a = Some (s, t, cl, d) →
              i = N.to_nat (avc_hash s t cl) ∧ s ≠ 0;
  cw_free : ∀ a s t cl d, a ∈ free → ents !! a = Some (s, t, cl, d) → s = 0 }.

Definition cores (st : avc) : gmap N (N * N * N * av_decision) := core <$> nodes st.

Record avc_wf (st : avc) : Prop := {
  aw_cache : cache_wf (slots (cache st)) (avc_node_freelist st) (cores st);
  aw_hint : lru_hint (cache st) < AVC_CACHE_SLOTS;
  aw_active : active_nodes (cache st) = N.of_nat (length (active st));
  aw_small : N.of_nat (size (nodes st)) < 2 ^ 32;
  aw_sids : sidtab_wf (avc_sidtab st) }.

(** What is said of the entries in the chains. *)
Definition entries (good : N → N → N → av_decision → Prop) (st : avc) : Prop :=
  ∀ a s t cl d, a ∈ active st → cores st !! a = Some (s, t, cl, d) → good s t cl d.

(** ** Marks *)

(** Memories that differ only in the marks and the labels of new objects. *)
Definition same_cores (mem mem' : gmap N avc_entry) : Prop := core <$> mem = core <$> mem'.

#[global] Instance same_cores_equiv : Equivalence same_cores.
Proof. unfold same_cores. split; [by intros x|by intros x y|]. intros x y z. congruence. Qed.

Lemma same_cores_insert mem a e e' :
  mem !! a = Some e → core e' = core e → same_cores mem (<[a := e']> mem).
Proof.
  intros He Hc. unfold same_cores. rewrite fmap_insert, Hc. symmetry. apply insert_id.
  by rewrite lookup_fmap, He.
Qed.

Lemma same_cores_lookup mem mem' a e :
  same_cores mem mem' → mem !! a = Some e → ∃ e', mem' !! a = Some e' ∧ core e' = core e.
Proof.
  intros Hs He. apply (f_equal (λ x, x !! a)) in Hs. rewrite !lookup_fmap, He in Hs. cbn in Hs.
  symmetry in Hs. apply fmap_Some in Hs as (e' & He' & Hc). exists e'. by split.
Qed.

Lemma same_cores_size mem mem' : same_cores mem mem' → size mem = size mem'.
Proof. intros H. apply (f_equal size) in H. by rewrite !map_size_fmap in H. Qed.

Lemma same_cores_dom mem mem' : same_cores mem mem' → dom mem = dom mem'.
Proof. intros H. apply (f_equal dom) in H. by rewrite !dom_fmap_L in H. Qed.

(** ** States that agree *)

(** The parts of the state that the invariant does not speak of may differ. *)
Record avc_same (st st' : avc) : Prop := {
  as_slots : slots (cache st') = slots (cache st);
  as_hint : lru_hint (cache st') = lru_hint (cache st);
  as_active : active_nodes (cache st') = active_nodes (cache st);
  as_notif : latest_notif (cache st') = latest_notif (cache st);
  as_cores : same_cores (nodes st) (nodes st');
  as_free : avc_node_freelist st' = avc_node_freelist st;
  as_sids : avc_sidtab st' = avc_sidtab st;
  as_enforcing : avc_enforcing st' = avc_enforcing st;
  as_running : avc_running st' = avc_running st }.

#[global] Instance avc_same_refl : Reflexive avc_same.
Proof. by split. Qed.

#[global] Instance avc_same_trans : Transitive avc_same.
Proof. intros a b c [] []. split; try congruence. Qed.

Lemma avc_same_wf st st' : avc_same st st' → avc_wf st → avc_wf st'.
Proof.
  intros [Hs Hh Ha _ Hc Hf Hsid _ _] [Hw H1 H2 H3 H4].
  assert (cores st' = cores st) as Hcore by done.
  split; unfold active; rewrite ?Hs, ?Hh, ?Ha, ?Hf, ?Hsid, ?Hcore; try done.
  by rewrite <- (same_cores_size _ _ Hc).
Qed.

Lemma avc_same_entries good st st' : avc_same st st' → entries good st → entries good st'.
Proof.
  intros [Hs _ _ _ Hc _ _ _ _] H a s t cl d. unfold active, cores. rewrite Hs, <- Hc. apply H.
Qed.

Lemma count_same st f : avc_same st (count st f).
Proof. by split. Qed.

Lemma errno_same st e : avc_same st (set_errno st e).
Proof. by split. Qed.

Lemma set_nodes_same st mem : same_cores (nodes st) mem → avc_same st (set_nodes st mem).
Proof. by split. Qed.

(** ** Facts about the chains *)

Lemma hash_bound s t cl : (N.to_nat (avc_hash s t cl) < N.to_nat AVC_CACHE_SLOTS)%nat.
Proof.
  unfold avc_hash. change (AVC_CACHE_SLOTS - 1) with (N.ones 9). rewrite N.land_ones.
  assert (N.lxor (N.lxor s (u64 (N.shiftl t 2))) cl mod 2 ^ 9 < 2 ^ 9) by (by apply N.mod_lt).
  unfold AVC_CACHE_SLOTS. change (2 ^ 9) with 512 in *. lia.
Qed.

Lemma hash_chain st s t cl : avc_wf st → ∃ c, slots (cache st) !! N.to_nat (avc_hash s t cl) = Some c.
Proof. intros Hwf. apply lookup_lt_is_Some_2. rewrite (cw_size _ _ _ (aw_cache _ Hwf)). apply hash_bound. Qed.

Lemma active_node st a : avc_wf st → a ∈ active st → ∃ e, nodes st !! a = Some e.
Proof.
  intros Hwf Ha. destruct (proj1 (cw_all _ _ _ (aw_cache _ Hwf) a)) as [x Hx]; [by apply elem_of_app; left|].
  unfold cores in Hx. rewrite lookup_fmap in Hx. apply fmap_Some in Hx as (e & He & _). by exists e.
Qed.

Lemma chain_active st i c a : slots (cache st) !! i = Some c → a ∈ c → a ∈ active st.
Proof. intros Hc Ha. apply elem_of_chains. by exists i, c. Qed.

Lemma cores_lookup st a e : nodes st !! a = Some e → cores st !! a = Some (core e).
Proof. intros He. unfold cores. by rewrite lookup_fmap, He. Qed.

(** ** Searching *)

Definition matches (s t cl : N) (e : avc_entry) : bool :=
  (s =? ssid e) && (cl =? tclass e) && (t =? tsid e).

Lemma matches_core s t cl e : matches s t cl e = true → core e = (s, t, cl, avd e).
Proof. unfold matches, core. intros. reflect_bools. by subst. Qed.

Lemma search_chain_spec mem s t cl c n o :
  (∀ a, a ∈ c → is_Some (mem !! a)) →
  ∃ r n', search_chain mem s t cl c n o = Ret (r, n') o ∧
    match r with
    | Some a => a ∈ c ∧ ∃ e, mem !! a = Some e ∧ matches s t cl e = true
    | None => ∀ a e, a ∈ c → mem !! a = Some e → matches s t cl e = false
    end.
Proof.
  revert n. induction c as [|a c IH]; intros n Hmem; cbn [search_chain].
  { eexists _, _. split; [done|]. by intros a e ?%elem_of_nil. }
  destruct (Hmem a) as [e He]; [by left|]. rewrite bind_run, He. cbn [deref]. unfold mret at 1, M_ret at 1.
  replace (negb (s =? ssid e) || negb (cl =? tclass e) || negb (t =? tsid e)) with (negb (matches s t cl e))
    by (unfold matches; btauto).
  destruct (matches s t cl e) eqn:E; cbn [negb].
  - eexists _, _. split; [done|]. split; [by left|]. by exists e.
  - destruct (IH (n + 1)) as (r & n' & -> & Hr). { intros b Hb. apply Hmem. by right. }
    eexists _, _. split; [done|]. destruct r as [b|].
    + destruct Hr as [Hb ?]. split; [by right|done].
    + intros b e' [->|Hb]%elem_of_cons Hb'; [congruence|by eapply Hr].
Qed.

Lemma search_node_spec st s t cl o :
  avc_wf st →
  ∃ st' r n, avc_search_node st s t cl o = Ret (st', r, n) o ∧ avc_same st st' ∧
    (∀ a, r = Some a → a ∈ active st' ∧ ∃ e, nodes st' !! a = Some e ∧ core e = (s, t, cl, avd e)).
Proof.
  intros Hwf. destruct (hash_chain st s t cl Hwf) as [c Hc]. unfold avc_search_node. rewrite bind_run, Hc. cbn [deref].
  unfold mret at 1, M_ret at 1.
  destruct (search_chain_spec (nodes st) s t cl c 1 o) as (r & n & Hr & Hpost).
  { intros a Ha. destruct (active_node st a Hwf) as [e He]; [by eapply chain_active|by exists e]. }
  rewrite bind_run, Hr. destruct r as [a|]; [|by eexists _, _, _].
  destruct Hpost as (Ha & e & He & Hm%matches_core). rewrite bind_run, He. cbn [deref]. unfold mret at 1, M_ret at 1.
  eexists _, _, _. split; [done|]. split; [by apply set_nodes_same, same_cores_insert with e|].
  intros a' [= <-]. split; [by eapply (chain_active st)|]. cbn. exists (set_used e true).
  by rewrite lookup_insert_eq.
Qed.

Lemma lookup_spec st s t cl requested o :
  avc_wf st →
  ∃ rc st' r, avc_lookup st s t cl requested o = Ret (rc, st', r) o ∧ avc_same st st' ∧
    (∀ a, r = Some a → a ∈ active st' ∧
       ∃ e, nodes st' !! a = Some e ∧ core e = (s, t, cl, avd e) ∧ has_all (decided (avd e)) requested = true).
Proof.
  intros Hwf. unfold avc_lookup.
  pose proof (count_same st incr_cav_lookups) as Hs0.
  destruct (search_node_spec (count st incr_cav_lookups) s t cl o) as (st1 & r & n & Hr & Hs1 & Hpost).
  { by eapply avc_same_wf. }
  rewrite bind_run, Hr. destruct r as [a|].
  - destruct (Hpost a eq_refl) as (Ha & e & He & Hk). rewrite bind_run, He. cbn [deref].
    unfold mret at 1, M_ret at 1. destruct (has_all _ _) eqn:Eh; eexists _, _, _; (split; [done|]).
    + split; [etrans; [exact Hs0|]; etrans; [exact Hs1|apply count_same]|].
      intros a' [= <-]. split; [done|]. by exists e.
    + split; [etrans; [exact Hs0|]; etrans; [exact Hs1|apply count_same]|done].
  - eexists _, _, _. split; [done|].
    split; [etrans; [exact Hs0|]; etrans; [exact Hs1|apply count_same]|done].
Qed.

(** ** Reclaiming a node *)

Definition marked (mem : gmap N avc_entry) (a : N) : Prop := ∃ e, mem !! a = Some e ∧ used e = true.

(** The scan changes nothing but marks, and sets none. *)
Definition unmarks (mem mem' : gmap N avc_entry) : Prop :=
  same_cores mem mem' ∧ ∀ a, marked mem' a → marked mem a.

#[global] Instance unmarks_preorder : PreOrder unmarks.
Proof. split; [by split|]. intros x y z [H1 H2] [H3 H4]. split; [by etrans|auto]. Qed.

Lemma unmarks_clear mem a e : mem !! a = Some e → unmarks mem (<[a := set_used e false]> mem).
Proof.
  intros He. split; [by apply same_cores_insert with e|]. intros b (e' & He' & Hu).
  destruct (decide (a = b)) as [->|Hne].
  - rewrite lookup_insert_eq in He'. by injection He' as <-.
  - rewrite lookup_insert_ne in He' by done. by exists e'.
Qed.

Definition all_nodes (mem : gmap N avc_entry) (l : list N) : Prop := ∀ a, a ∈ l → is_Some (mem !! a).

Lemma all_nodes_same mem mem' l : same_cores mem mem' → all_nodes mem l → all_nodes mem' l.
Proof.
  intros Hs Hl a Ha. destruct (Hl a Ha) as [e He]. destruct (same_cores_lookup _ _ _ _ Hs He) as (e' & ? & _).
  by exists e'.
Qed.

Lemma reclaim_chain_spec mem pre c o :
  all_nodes mem c →
  ∃ mem' r, reclaim_chain mem pre c o = Ret (mem', r) o ∧ unmarks mem mem' ∧
    match r with
    | Some (l, a) => ∃ c1 c2, c = c1 ++ a :: c2 ∧ l = reverse pre ++ c1 ++ c2
    | None => ∀ a, a ∈ c → marked mem a ∧ ¬ marked mem' a
    end.
Proof.
  revert mem pre. induction c as [|a c IH]; intros mem pre Hc; cbn [reclaim_chain].
  { eexists _, _. split; [done|]. split; [done|]. by intros a ?%elem_of_nil. }
  destruct (Hc a) as [e He]; [by left|]. rewrite bind_run, He. cbn [deref]. unfold mret at 1, M_ret at 1.
  destruct (used e) eqn:Hu; cbn [negb].
  2: { eexists _, _. split; [done|]. split; [done|]. by exists [], c. }
  pose proof (unmarks_clear mem a e He) as Hun.
  destruct (IH (<[a := set_used e false]> mem) (a :: pre)) as (mem' & r & -> & Hun' & Hr).
  { eapply all_nodes_same; [apply Hun|]. intros b Hb. apply Hc. by right. }
  eexists _, _. split; [done|]. split; [by etrans|]. destruct r as [[l b]|].
  - destruct Hr as (c1 & c2 & -> & ->). exists (a :: c1), c2. split; [done|]. by rewrite reverse_cons, <- app_assoc.
  - intros b [->|Hb]%elem_of_cons.
    + split; [by exists e|]. intros Hm. apply Hun' in Hm as (e' & He' & Hu').
      rewrite lookup_insert_eq in He'. by injection He' as <-.
    + destruct (Hr b Hb) as [Hm Hm']. split; [by apply Hun|done].
Qed.

(** The slots from the [d]-th of a round on. *)
Definition round_slot (lru d i : N) : Prop := ∃ j, d ≤ j ∧ j < AVC_CACHE_SLOTS ∧ i = (lru + j) mod AVC_CACHE_SLOTS.

Lemma next_slot lru d :
  N.land ((lru + d) mod AVC_CACHE_SLOTS + 1) (AVC_CACHE_SLOTS - 1) = (lru + (d + 1)) mod AVC_CACHE_SLOTS.
Proof.
  change (AVC_CACHE_SLOTS - 1) with (N.ones 9). rewrite N.land_ones. change (2 ^ 9) with AVC_CACHE_SLOTS.
  rewrite N.Div0.add_mod_idemp_l. f_equal. lia.
Qed.

Lemma round_end lru d :
  lru < AVC_CACHE_SLOTS → d < AVC_CACHE_SLOTS →
  (lru + (d + 1)) mod AVC_CACHE_SLOTS = lru ↔ d + 1 = AVC_CACHE_SLOTS.
Proof.
  unfold AVC_CACHE_SLOTS. intros Hl Hd. split.
  - intros H. pose proof (N.div_mod' (lru + (d + 1)) 512) as Hdm. rewrite H in Hdm. nia.
  - intros ->. replace (lru + 512) with (lru + 1 * 512) by lia. rewrite N.Div0.mod_add. by apply N.mod_small.
Qed.

(** A round finds a node, or every node of it was marked and is no more. *)
Lemma reclaim_slots_spec fuel sl lru d mem o :
  length sl = N.to_nat AVC_CACHE_SLOTS → lru < AVC_CACHE_SLOTS → d < AVC_CACHE_SLOTS →
  (N.to_nat AVC_CACHE_SLOTS ≤ fuel + N.to_nat d)%nat → all_nodes mem (concat sl) →
  ∃ mem' r, reclaim_slots fuel sl lru ((lru + d) mod AVC_CACHE_SLOTS) mem o = Ret (mem', r) o ∧ unmarks mem mem' ∧
    match r with
    | Some (h, l, a) => h < AVC_CACHE_SLOTS ∧ ∃ c1 c2, sl !! N.to_nat h = Some (c1 ++ a :: c2) ∧ l = c1 ++ c2
    | None => ∀ i c a, round_slot lru d i → sl !! N.to_nat i = Some c → a ∈ c → marked mem a ∧ ¬ marked mem' a
    end.
Proof.
  intros Hlen Hlru. revert d mem. induction fuel as [|fuel IH]; intros d mem Hd Hfuel Hall; [lia|].
  cbn [reclaim_slots]. set (h := (lru + d) mod AVC_CACHE_SLOTS).
  assert (h < AVC_CACHE_SLOTS) as Hh by (by apply N.mod_lt).
  destruct (lookup_lt_is_Some_2 sl (N.to_nat h)) as [c Hc]; [lia|].
  assert (all_nodes mem c) as Hcn. { intros a Ha. apply Hall, elem_of_chains. by eexists _, c. }
  rewrite bind_run, Hc. cbn [deref]. unfold mret at 1, M_ret at 1.
  destruct (reclaim_chain_spec mem [] c o Hcn) as (mem1 & r1 & Hr1 & Hun1 & Hpost1).
  rewrite bind_run, Hr1. destruct r1 as [[l a]|].
  { eexists _, _. split; [done|]. split; [done|]. split; [done|]. destruct Hpost1 as (c1 & c2 & -> & ->). by exists c1, c2. }
  unfold h. rewrite next_slot. destruct (N.eqb_spec ((lru + (d + 1)) mod AVC_CACHE_SLOTS) lru) as [Heq|Hne]; cbn [negb].
  - apply round_end in Heq; [|done|done]. eexists _, _. split; [done|]. split; [done|].
    intros i c' a (j & Hj1 & Hj2 & ->) Hc' Ha. replace j with d in Hc' by lia. fold h in Hc'. rewrite Hc in Hc'.
    injection Hc' as <-. auto.
  - assert (d + 1 < AVC_CACHE_SLOTS) as Hd'.
    { destruct (decide (d + 1 = AVC_CACHE_SLOTS)) as [E|]; [|lia]. by apply (round_end lru) in E. }
    destruct (IH (d + 1) mem1 Hd') as (mem' & r & -> & Hun' & Hpost); [lia|eapply all_nodes_same; [apply Hun1|done]|].
    eexists _, _. split; [done|]. split; [by etrans|]. destruct r as [[[h' l] a]|]; [done|].
    intros i c' a (j & Hj1 & Hj2 & ->) Hc' Ha. destruct (decide (j = d)) as [->|Hjd].
    + fold h in Hc'. rewrite Hc in Hc'. injection Hc' as <-. destruct (Hpost1 a Ha) as [Hm Hm1]. split; [done|].
      intros Hm'. by apply Hm1, Hun'.
    + destruct (Hpost ((lru + j) mod AVC_CACHE_SLOTS) c' a) as [Hm Hm']; [exists j; split_and!; [lia|done|done]|done|done|].
      split; [by apply Hun1|done].
Qed.

(** Every slot belongs to the round that starts anywhere. *)
Lemma round_all lru i : lru < AVC_CACHE_SLOTS → i < AVC_CACHE_SLOTS → round_slot lru 0 i.
Proof.
  intros Hl Hi. unfold round_slot, AVC_CACHE_SLOTS in *. destruct (decide (lru ≤ i)).
  - exists (i - lru). split_and!; [lia|lia|]. rewrite N.mod_small; lia.
  - exists (i + 512 - lru). split_and!; [lia|lia|]. replace (lru + (i + 512 - lru)) with (i + 1 * 512) by lia.
    rewrite N.Div0.mod_add, N.mod_small; lia.
Qed.

(** What a successful reclaim does: one node leaves its chain. *)
Definition reclaimed (st st' : avc) (a : N) : Prop :=
  ∃ h c1 c2, h < AVC_CACHE_SLOTS ∧ slots (cache st) !! N.to_nat h = Some (c1 ++ a :: c2) ∧
    slots (cache st') = <[N.to_nat h := c1 ++ c2]> (slots (cache st)) ∧ lru_hint (cache st') = h ∧
    active_nodes (cache st') = active_nodes (cache st) ∧ latest_notif (cache st') = latest_notif (cache st) ∧
    same_cores (nodes st) (nodes st') ∧ avc_node_freelist st' = avc_node_freelist st ∧
    avc_sidtab st' = avc_sidtab st ∧ avc_enforcing st' = avc_enforcing st ∧ avc_running st' = avc_running st.

Lemma wf_nodes st : avc_wf st → all_nodes (nodes st) (active st).
Proof. intros Hwf a Ha. destruct (active_node st a Hwf Ha) as [e He]. by exists e. Qed.

Lemma slot_bound st i c : avc_wf st → slots (cache st) !! i = Some c → N.of_nat i < AVC_CACHE_SLOTS.
Proof. intros Hwf Hc. apply lookup_lt_Some in Hc. rewrite (cw_size _ _ _ (aw_cache _ Hwf)) in Hc. lia. Qed.

Lemma reclaim_try st tries o :
  avc_wf st →
  (∃ st' a, reclaim_tries (S tries) st o = Ret (st', Some a) o ∧ reclaimed st st' a) ∨
  (∃ mem, reclaim_tries (S tries) st o = reclaim_tries tries (set_nodes st mem) o ∧ unmarks (nodes st) mem ∧
     ∀ a, a ∈ active st → marked (nodes st) a ∧ ¬ marked mem a).
Proof.
  intros Hwf. pose proof (aw_hint st Hwf) as Hlru.
  destruct (reclaim_slots_spec (N.to_nat AVC_CACHE_SLOTS) (slots (cache st)) (lru_hint (cache st)) 0 (nodes st) o)
    as (mem & r & Hr & Hun & Hpost); [apply Hwf|done|done|lia|by apply wf_nodes|].
  rewrite N.add_0_r, N.mod_small in Hr by done. cbn [reclaim_tries]. rewrite bind_run, Hr.
  destruct r as [[[h l] a]|].
  - left. destruct Hpost as (Hh & c1 & c2 & Hc & ->). eexists _, a. split; [done|].
    exists h, c1, c2. split_and!; try done. apply Hun.
  - right. exists mem. split; [done|]. split; [done|]. intros a (i & c & Hi & Ha)%elem_of_chains.
    apply (Hpost (N.of_nat i) c); [|by rewrite Nat2N.id|done]. apply round_all; [done|by eapply slot_bound].
Qed.

(** Reclaiming succeeds whenever the cache has a node. *)
Lemma reclaim_spec st o :
  avc_wf st →
  (∃ st' a, avc_reclaim_node st o = Ret (st', Some a) o ∧ reclaimed st st' a) ∨
  (∃ st', avc_reclaim_node st o = Ret (st', None) o ∧ avc_same st st' ∧ active st = [] ∧ errno st' = ENOMEM).
Proof.
  intros Hwf. unfold avc_reclaim_node.
  destruct (reclaim_try st 1 o Hwf) as [?|(mem & -> & Hun & Hall)]; [by left|].
  pose proof (set_nodes_same st mem (proj1 Hun)) as Hs1.
  assert (avc_wf (set_nodes st mem)) as Hwf1 by (by eapply avc_same_wf).
  destruct (reclaim_try (set_nodes st mem) 0 o Hwf1) as [(st' & a & Hr & Hrec)|(mem' & -> & Hun' & Hall')].
  - left. exists st', a. split; [done|]. destruct Hrec as (h & c1 & c2 & ? & ? & ? & ? & ? & ? & Hc & ? & ? & ? & ?).
    exists h, c1, c2. split_and!; try done. etrans; [apply Hun|exact Hc].
  - right. eexists. split; [done|]. split; [|split; [|done]].
    + etrans; [exact Hs1|]. etrans; [by apply set_nodes_same, Hun'|apply errno_same].
    + destruct (active st) as [|a l] eqn:E; [done|]. exfalso. destruct (Hall a) as [_ Hm]; [by left|].
      destruct (Hall' a) as [Hm' _]; [unfold active in *; cbn [slots cache set_nodes]; rewrite E; by left|]. done.
Qed.

(** ** Moving nodes *)

Lemma nodup_focus {A} (a : A) c1 c2 R : NoDup ((c1 ++ a :: c2) ++ R) → a ∉ c1 ++ c2.
Proof.
  intros (Hnd & _ & _)%NoDup_app. apply NoDup_app in Hnd as (_ & Hd & Hnd). apply NoDup_cons in Hnd as [Ha _].
  intros [H1|H2]%elem_of_app; [|done]. apply (Hd a H1). by left.
Qed.

(** A node leaves a chain: as if it were put on the free list. *)
Lemma cache_wf_detach sl free ents h a c1 c2 t cl d :
  cache_wf sl free ents → sl !! h = Some (c1 ++ a :: c2) →
  cache_wf (<[h := c1 ++ c2]> sl) (a :: free) (<[a := (0, t, cl, d)]> ents).
Proof.
  intros [Hsz Hnd Hall Hslot Hfree] Hh. destruct (concat_focus _ _ _ Hh) as (R & HR & Hins).
  assert (concat (<[h := c1 ++ c2]> sl) ++ a :: free ≡ₚ concat sl ++ free) as Hperm.
  { rewrite (Hins (c1 ++ c2)), HR. solve_Permutation. }
  assert (a ∈ concat sl) as Ha. { apply elem_of_chains. eexists _, _. split; [exact Hh|]. set_solver. }
  pose proof Hnd as Hnd2. rewrite HR in Hnd2. rewrite <- app_assoc in Hnd2.
  split.
  - by rewrite length_insert.
  - by rewrite Hperm.
  - intros b. rewrite Hperm, Hall. destruct (decide (a = b)) as [->|Hne]; [|by rewrite lookup_insert_ne].
    rewrite lookup_insert_eq. split; [by eexists|]. intros _. apply Hall, elem_of_app. by left.
  - intros i c b s' t' cl' d' Hi Hb He. apply list_lookup_insert_Some in Hi as [(<- & <- & _)|(Hne & Hi)].
    + assert (a ≠ b) as Hab. { intros ->. by apply (nodup_focus b c1 c2 (R ++ free)). }
      rewrite lookup_insert_ne in He by done. eapply Hslot; [exact Hh| |exact He]. set_solver.
    + assert (a ≠ b) as Hab.
      { intros ->.
        assert (b ∈ concat (<[h := []]> sl)) as Hb2.
        { apply elem_of_chains. exists i, c. split; [by rewrite list_lookup_insert_ne|done]. }
        rewrite (Hins []) in Hb2. cbn in Hb2. apply NoDup_app in Hnd2 as (_ & Hd & _).
        apply (Hd b); [set_solver|]. apply elem_of_app. by left. }
      rewrite lookup_insert_ne in He by done. by eapply Hslot.
  - intros b s' t' cl' d' Hb He. destruct (decide (a = b)) as [->|Hne].
    + rewrite lookup_insert_eq in He. by simplify_eq.
    + rewrite lookup_insert_ne in He by done. apply elem_of_cons in Hb as [->|Hb]; [done|]. by eapply Hfree.
Qed.

(** A free node enters the chain of its key. *)
Lemma cache_wf_attach sl free ents a c s t cl d :
  cache_wf sl (a :: free) ents → sl !! N.to_nat (avc_hash s t cl) = Some c → s ≠ 0 →
  cache_wf (<[N.to_nat (avc_hash s t cl) := a :: c]> sl) free (<[a := (s, t, cl, d)]> ents).
Proof.
  intros [Hsz Hnd Hall Hslot Hfree] Hh Hs0. destruct (concat_focus _ _ _ Hh) as (R & HR & Hins).
  assert (concat (<[N.to_nat (avc_hash s t cl) := a :: c]> sl) ++ free ≡ₚ concat sl ++ a :: free) as Hperm.
  { rewrite (Hins (a :: c)), HR. solve_Permutation. }
  assert (∀ b, b ∈ concat sl → a ≠ b) as Hna.
  { intros b Hb ->. apply NoDup_app in Hnd as (_ & Hd & _). apply (Hd b Hb). by left. }
  split.
  - by rewrite length_insert.
  - by rewrite Hperm.
  - intros b. rewrite Hperm, Hall. destruct (decide (a = b)) as [->|Hne]; [|by rewrite lookup_insert_ne].
    rewrite lookup_insert_eq. split; [by eexists|]. intros _. apply Hall, elem_of_app. right. by left.
  - intros i c' b s' t' cl' d' Hi Hb He. apply list_lookup_insert_Some in Hi as [(<- & <- & _)|(Hne & Hi)].
    + apply elem_of_cons in Hb as [->|Hb].
      * rewrite lookup_insert_eq in He. by simplify_eq.
      * rewrite lookup_insert_ne in He by (apply Hna, elem_of_chains; by eexists _, c). by eapply Hslot.
    + rewrite lookup_insert_ne in He by (apply Hna, elem_of_chains; by eexists _, c'). by eapply Hslot.
  - intros b s' t' cl' d' Hb He. assert (a ≠ b) as Hne.
    { intros ->. apply NoDup_app in Hnd as (_ & _ & Hnd). by apply NoDup_cons in Hnd as [? _]. }
    rewrite lookup_insert_ne in He by done. eapply Hfree; [by right|done].
Qed.

(** The two moves on the active nodes. *)
Lemma attach_active (sl : list (list N)) c h a :
  sl !! h = Some c → concat (<[h := a :: c]> sl) ≡ₚ (a :: concat sl).
Proof. intros Hh. destruct (concat_focus _ _ _ Hh) as (R & HR & Hins). by rewrite (Hins (a :: c)), HR. Qed.

Lemma detach_active (sl : list (list N)) h a c1 c2 :
  sl !! h = Some (c1 ++ a :: c2) → concat sl ≡ₚ (a :: concat (<[h := c1 ++ c2]> sl)).
Proof.
  intros Hh. destruct (concat_focus _ _ _ Hh) as (R & HR & Hins). rewrite (Hins (c1 ++ c2)), HR. solve_Permutation.
Qed.

(** ** Inserting *)

(** The state after a node was put into the cache for a key. *)
Record inserted (st st' : avc) (a s t cl : N) (d : av_decision) : Prop := {
  in_wf : avc_wf st';
  in_node : nodes st' !! a = Some (AvcEntry s t cl d 0 true);
  in_active : a ∈ active st';
  in_rest : ∀ b x, b ∈ active st' → cores st' !! b = Some x →
              (b = a ∧ x = (s, t, cl, d)) ∨ (b ∈ active st ∧ cores st !! b = Some x);
  in_notif : latest_notif (cache st') = latest_notif (cache st);
  in_sids : avc_sidtab st' = avc_sidtab st;
  in_enforcing : avc_enforcing st' = avc_enforcing st;
  in_running : avc_running st' = avc_running st;
  in_dom : dom (nodes st') = dom (nodes st) }.

Lemma inserted_entries good st st' a s t cl d :
  inserted st st' a s t cl d → entries good st → good s t cl d → entries good st'.
Proof.
  intros Hin He Hg b s' t' cl' d' Hb Hx. destruct (in_rest _ _ _ _ _ _ _ Hin b _ Hb Hx) as [[-> [= -> -> -> ->]]|[Hb' Hx']].
  - done.
  - by eapply He.
Qed.

(** A detached node of a state, with the rest of the invariant. *)
Lemma attach_wf st st' a c s t cl d ents :
  cache_wf (slots (cache st)) (a :: avc_node_freelist st) ents →
  slots (cache st) !! N.to_nat (avc_hash s t cl) = Some c → s ≠ 0 →
  slots (cache st') = <[N.to_nat (avc_hash s t cl) := a :: c]> (slots (cache st)) →
  avc_node_freelist st' = avc_node_freelist st → cores st' = <[a := (s, t, cl, d)]> ents →
  lru_hint (cache st') = lru_hint (cache st) → lru_hint (cache st) < AVC_CACHE_SLOTS →
  active_nodes (cache st') = N.of_nat (S (length (active st))) →
  N.of_nat (size (nodes st')) < 2 ^ 32 → avc_sidtab st' = avc_sidtab st → sidtab_wf (avc_sidtab st) →
  avc_wf st' ∧ a ∈ active st' ∧
    (∀ b x, b ∈ active st' → cores st' !! b = Some x → (b = a ∧ x = (s, t, cl, d)) ∨ (b ∈ active st ∧ ents !! b = Some x)).
Proof.
  intros Hw Hc Hs0 Hsl Hfr Hco Hhint Hhb Hact Hsize Hsid Hsw.
  pose proof (cache_wf_attach _ _ _ _ _ s t cl d Hw Hc Hs0) as Hw'.
  pose proof (attach_active _ _ _ a Hc) as Hperm.
  split; [|split].
  - split; [by rewrite Hsl, Hfr, Hco|by rewrite Hhint| |done|by rewrite Hsid].
    rewrite Hact. unfold active. by rewrite Hsl, Hperm.
  - unfold active. rewrite Hsl, Hperm. by left.
  - intros b x. unfold active. rewrite Hsl, Hperm, Hco. intros [->|Hb]%elem_of_cons Hx.
    + rewrite lookup_insert_eq in Hx. left. by simplify_eq.
    + destruct (decide (a = b)) as [->|Hne].
      * rewrite lookup_insert_eq in Hx. left. by simplify_eq.
      * rewrite lookup_insert_ne in Hx by done. by right.
Qed.

Lemma wf_count st : avc_wf st → length (active st ++ avc_node_freelist st) = size (nodes st).
Proof.
  intros Hwf. destruct (aw_cache _ Hwf) as [_ Hnd Hall _ _].
  assert (dom (nodes st) =@{gset N} list_to_set (active st ++ avc_node_freelist st)) as Hdom.
  { apply set_eq. intros b. rewrite elem_of_list_to_set, Hall, elem_of_dom. unfold cores. by rewrite lookup_fmap, fmap_is_Some. }
  by rewrite <- size_dom, Hdom, size_list_to_set.
Qed.

Lemma dom_known (mem : gmap N avc_entry) a e e' : mem !! a = Some e → dom (<[a := e']> mem) = dom mem.
Proof. intros He. rewrite dom_insert_L. apply elem_of_dom_2 in He. set_solver. Qed.

Lemma size_known (mem : gmap N avc_entry) a e e' : mem !! a = Some e → size (<[a := e']> mem) = size mem.
Proof. intros He. apply map_size_insert_Some. by rewrite He. Qed.

(** The second half of [avc_claim_node] and the end of [avc_insert]: [st1] is
    the state in which [a] was taken from the free list or from a chain. *)
Definition put_node (st1 : avc) (a s t cl : N) (c : list N) (d : av_decision) : avc :=
  set_nodes (set_cache st1 (set_slots (cache st1) (<[N.to_nat (avc_hash s t cl) := a :: c]> (slots (cache st1)))))
    (<[a := AvcEntry s t cl d 0 true]> (nodes st1)).

Lemma claim_free st a next s t cl c o :
  avc_node_freelist st = a :: next → slots (cache st) !! N.to_nat (avc_hash s t cl) = Some c →
  avc_claim_node st s t cl o =
  Ret (put_node (set_cache (set_freelist st next) (set_active (cache st) (u32 (active_nodes (cache st) + 1))))
         a s t cl c zero_decision, Some a) o.
Proof.
  intros Hf Hc. unfold avc_claim_node. rewrite Hf, Hf, bind_run. unfold mret at 1, M_ret at 1.
  cbn [slots cache set_cache set_active]. by rewrite bind_run, Hc.
Qed.

Lemma claim_reclaim st st1 a s t cl c o :
  avc_node_freelist st = [] → avc_reclaim_node st o = Ret (st1, Some a) o →
  slots (cache st1) !! N.to_nat (avc_hash s t cl) = Some c →
  avc_claim_node st s t cl o = Ret (put_node st1 a s t cl c zero_decision, Some a) o.
Proof.
  intros Hf Hr Hc. unfold avc_claim_node. rewrite Hf. unfold avc_cleanup. rewrite Hf, bind_run, Hr. by rewrite bind_run, Hc.
Qed.

Lemma insert_claimed st st1 a s t cl c d o :
  (seqno d <? latest_notif (cache st)) = false →
  avc_claim_node st s t cl o = Ret (put_node st1 a s t cl c zero_decision, Some a) o →
  avc_insert st s t cl d o = Ret (0%Z, put_node st1 a s t cl c d, Some a) o.
Proof.
  intros Hseq Hcl. unfold avc_insert. rewrite Hseq, bind_run, Hcl.
  assert (nodes (put_node st1 a s t cl c zero_decision) !! a = Some (AvcEntry s t cl zero_decision 0 true)) as Hn
    by apply lookup_insert_eq.
  rewrite bind_run, Hn. cbn [deref]. unfold mret, M_ret. do 2 f_equal. f_equal.
  unfold put_node, set_nodes. cbn. by rewrite insert_insert_eq.
Qed.

Lemma inserted_reclaim st st1 a s t cl d :
  avc_wf st → s ≠ 0 → avc_node_freelist st = [] → reclaimed st st1 a →
  ∃ c, slots (cache st1) !! N.to_nat (avc_hash s t cl) = Some c ∧ inserted st (put_node st1 a s t cl c d) a s t cl d.
Proof.
  intros Hwf Hs0 Hf (h & c1 & c2 & Hh & Hc & Hsl & Hhint & Hact & Hnot & Hco & Hfr & Hsid & Henf & Hrun).
  pose proof (cache_wf_detach _ _ _ _ _ _ _ 0 0 zero_decision (aw_cache _ Hwf) Hc) as Hdet.
  rewrite Hf in Hdet. rewrite <- Hsl in Hdet.
  destruct (lookup_lt_is_Some_2 (slots (cache st1)) (N.to_nat (avc_hash s t cl))) as [c Hc'].
  { rewrite (cw_size _ _ _ Hdet). apply hash_bound. }
  exists c. split; [done|].
  pose proof (detach_active _ _ _ _ _ Hc) as Hperm. rewrite <- Hsl in Hperm.
  assert (a ∈ active st) as Ha by (unfold active; rewrite Hperm; by left).
  destruct (active_node st a Hwf Ha) as [e He]. destruct (same_cores_lookup _ _ _ _ Hco He) as (e1 & He1 & _).
  assert (avc_node_freelist st1 = []) as Hf1 by (by rewrite Hfr).
  destruct (attach_wf st1 (put_node st1 a s t cl c d) a c s t cl d (<[a := (0, 0, 0, zero_decision)]> (cores st)))
    as (Hw' & Ha' & Hrest); try done.
  - by rewrite Hf1.
  - unfold cores, put_node. cbn [nodes set_nodes]. rewrite fmap_insert, insert_insert_eq. f_equal. by rewrite Hco.
  - by rewrite Hhint.
  - cbn. rewrite Hact, (aw_active _ Hwf). f_equal. unfold active. by rewrite Hperm.
  - cbn. rewrite (size_known _ _ _ _ He1), <- (same_cores_size _ _ Hco). apply Hwf.
  - rewrite Hsid. apply Hwf.
  - split; [done|apply lookup_insert_eq|done| |done|done|done|done|].
    + intros b x Hb Hx. destruct (Hrest b x Hb Hx) as [?|[Hb1 Hx1]]; [by left|right].
      assert (a ≠ b) as Hne.
      { intros ->. pose proof (cw_nodup _ _ _ Hdet) as (_ & Hd & _)%NoDup_app. apply (Hd b Hb1). by left. }
      rewrite lookup_insert_ne in Hx1 by done. split; [|done]. unfold active. rewrite Hperm. by right.
    + cbn. by rewrite (dom_known _ _ _ _ He1), <- (same_cores_dom _ _ Hco).
Qed.

Lemma inserted_free st a next s t cl c d :
  avc_wf st → s ≠ 0 → avc_node_freelist st = a :: next →
  slots (cache st) !! N.to_nat (avc_hash s t cl) = Some c →
  let st1 := set_cache (set_freelist st next) (set_active (cache st) (u32 (active_nodes (cache st) + 1))) in
  inserted st (put_node st1 a s t cl c d) a s t cl d.
Proof.
  intros Hwf Hs0 Hf Hc st1. pose proof (wf_count st Hwf) as Hcount. rewrite length_app, Hf in Hcount.
  assert (is_Some (nodes st !! a)) as [e He].
  { destruct (proj1 (cw_all _ _ _ (aw_cache _ Hwf) a)) as [x Hx]; [rewrite Hf; set_solver|].
    unfold cores in Hx. rewrite lookup_fmap in Hx. apply fmap_Some in Hx as (e & ? & _). by exists e. }
  pose proof (aw_small _ Hwf) as Hsmall. cbn [length] in Hcount.
  destruct (attach_wf st1 (put_node st1 a s t cl c d) a c s t cl d (cores st)) as (Hw' & Ha' & Hrest); try done.
  - cbn. rewrite <- Hf. apply Hwf.
  - unfold cores. cbn. by rewrite fmap_insert.
  - apply Hwf.
  - change (active_nodes (cache (put_node st1 a s t cl c d))) with (u32 (active_nodes (cache st) + 1)).
    rewrite (aw_active _ Hwf). change (active st1) with (active st). unfold u32. rewrite N.mod_small; lia.
  - cbn. by rewrite (size_known _ _ _ _ He).
  - apply Hwf.
  - split; [done|apply lookup_insert_eq|done|done|done|done|done|done|].
    cbn. by rewrite (dom_known _ _ _ _ He).
Qed.

Lemma avc_insert_spec st s t cl d o :
  avc_wf st → s ≠ 0 →
  (∃ st' a, avc_insert st s t cl d o = Ret (0%Z, st', Some a) o ∧ inserted st st' a s t cl d) ∨
  (∃ st', avc_insert st s t cl d o = Ret ((-1)%Z, st', None) o ∧ avc_same st st' ∧
     (seqno d < latest_notif (cache st) ∨ size (nodes st) = 0%nat)).
Proof.
  intros Hwf Hs0. destruct (seqno d <? latest_notif (cache st)) eqn:Hseq.
  { right. eexists. unfold avc_insert. rewrite Hseq. split; [done|]. split; [apply errno_same|]. left. by apply N.ltb_lt. }
  destruct (avc_node_freelist st) as [|a next] eqn:Hf.
  - destruct (reclaim_spec st o Hwf) as [(st1 & a & Hr & Hrec)|(st1 & Hr & Hsame & Hnil & _)].
    + left. destruct (inserted_reclaim st st1 a s t cl d Hwf Hs0 Hf Hrec) as (c & Hc & Hin).
      eexists _, a. split; [by apply insert_claimed, claim_reclaim|done].
    + right. eexists. unfold avc_insert. rewrite Hseq, bind_run. unfold avc_claim_node, avc_cleanup.
      rewrite Hf, Hf, bind_run, Hr. split; [done|]. split; [done|]. right.
      by rewrite <- wf_count, length_app, Hnil, Hf by done.
  - left. destruct (hash_chain st s t cl Hwf) as [c Hc].
    eexists _, a. split; [by apply insert_claimed, claim_free|by apply inserted_free].
Qed.

(** A new entry is the first of its chain. *)
Lemma insert_head st s t cl d o st' a o' :
  avc_insert st s t cl d o = Ret (0%Z, st', Some a) o' →
  ∃ c, slots (cache st') !! N.to_nat (avc_hash s t cl) = Some (a :: c).
Proof.
  unfold avc_insert. destruct (_ <? _); [done|]. rewrite bind_run. unfold avc_claim_node.
  set (st0 := match avc_node_freelist st with [] => _ | _ => _ end). rewrite bind_run.
  match goal with |- context [match ?c o with Ret _ _ => _ | UB => _ end] => destruct (c o) as [[st1 [new|]] o1|] end; [|done..].
  rewrite bind_run. destruct (slots (cache st1) !! _) as [c|] eqn:Hc; cbn [deref]; [|done].
  unfold mret at 1, M_ret at 1. unfold mret at 1, M_ret at 1. rewrite bind_run. cbn [nodes set_nodes].
  rewrite lookup_insert_eq. cbn [deref]. unfold mret, M_ret. intros [= <- <- <-]. exists c. cbn.
  apply list_lookup_insert_eq. by eapply lookup_lt_Some.
Qed.

(** ** Flushing *)

Lemma reset_chain_app mem free act c l o :
  reset_chain mem free act (c ++ l) o =
  ('(mem, free, act) ← reset_chain mem free act c; reset_chain mem free act l) o.
Proof.
  revert mem free act. induction c as [|a c IH]; intros mem free act; [done|]. cbn [app reset_chain].
  rewrite !bind_run. destruct (mem !! a); cbn [deref]; [|done]. unfold mret at 1, M_ret at 1. apply IH.
Qed.

Lemma reset_slots_concat mem free act l o : reset_slots mem free act l o = reset_chain mem free act (concat l) o.
Proof.
  revert mem free act o. induction l as [|c l IH]; intros mem free act o; [done|]. cbn [concat reset_slots].
  rewrite reset_chain_app, !bind_run. destruct (reset_chain mem free act c o) as [[[? ?] ?] ?|]; [apply IH|done].
Qed.

Lemma reset_chain_run mem free act l o :
  all_nodes mem l → N.of_nat (length l) ≤ act → act < 2 ^ 32 →
  ∃ mem', reset_chain mem free act l o = Ret (mem', reverse l ++ free, act - N.of_nat (length l)) o ∧
    ∀ a, mem' !! a = if decide (a ∈ l) then Some avc_clear_avc_entry else mem !! a.
Proof.
  revert mem free act. induction l as [|b l IH]; intros mem free act Hall Hact H32; cbn [reset_chain].
  { exists mem. split; [by rewrite N.sub_0_r|]. intros a. by rewrite decide_False by apply not_elem_of_nil. }
  destruct (Hall b) as [e He]; [by left|]. rewrite bind_run, He. cbn [deref]. unfold mret at 1, M_ret at 1.
  cbn [length] in *. rewrite dec32_pred by lia.
  destruct (IH (<[b := avc_clear_avc_entry]> mem) (b :: free) (act - 1)) as (mem' & -> & Hmem').
  { intros a Ha. destruct (decide (b = a)) as [->|]; [rewrite lookup_insert_eq; by eexists|].
    rewrite lookup_insert_ne by done. apply Hall. by right. }
  { lia. } { lia. }
  exists mem'. split.
  - rewrite reverse_cons, <- app_assoc.
    by assert (act - 1 - N.of_nat (length l) = act - N.of_nat (S (length l))) as -> by lia.
  - intros a. rewrite Hmem'. destruct (decide (a ∈ l)) as [Ha|Ha]; [by rewrite decide_True by (by right)|].
    destruct (decide (b = a)) as [->|Hne].
    + by rewrite lookup_insert_eq, decide_True by (by left).
    + rewrite lookup_insert_ne by done. by rewrite decide_False by (intros [->|?]%elem_of_cons; done).
Qed.

Lemma concat_empty {A} n : concat (replicate n (@nil A)) = [].
Proof. by induction n. Qed.

(** The state after a flush. *)
Record flushed (st st' : avc) : Prop := {
  fl_wf : avc_wf st';
  fl_active : active st' = [];
  fl_notif : latest_notif (cache st') = latest_notif (cache st);
  fl_sids : avc_sidtab st' = avc_sidtab st;
  fl_enforcing : avc_enforcing st' = avc_enforcing st;
  fl_running : avc_running st' = avc_running st;
  fl_dom : dom (nodes st') = dom (nodes st) }.

Lemma flush_wf st mem' :
  avc_wf st →
  (∀ a, mem' !! a = if decide (a ∈ active st) then Some avc_clear_avc_entry else nodes st !! a) →
  dom mem' = dom (nodes st) ∧
  cache_wf (replicate (length (slots (cache st))) []) (reverse (active st) ++ avc_node_freelist st) (core <$> mem').
Proof.
  intros Hwf Hmem'. destruct (aw_cache _ Hwf) as [Hsz Hnd Hall Hslot Hfree].
  assert (dom mem' = dom (nodes st)) as Hdom.
  { apply set_eq. intros a. rewrite !elem_of_dom, Hmem'. destruct (decide (a ∈ active st)) as [Ha|]; [|done].
    split; [|by eexists]. intros _. by apply (wf_nodes st). }
  split; [done|]. split.
  - by rewrite length_replicate.
  - rewrite concat_empty. cbn [app]. by rewrite (reverse_Permutation (active st)).
  - intros a. rewrite concat_empty. cbn [app]. rewrite (reverse_Permutation (active st)).
    rewrite lookup_fmap, fmap_is_Some, <- elem_of_dom, Hdom, elem_of_dom, <- (fmap_is_Some core), <- lookup_fmap.
    apply Hall.
  - intros i c a s t cl d Hi Ha. apply lookup_replicate in Hi as [-> _]. by apply elem_of_nil in Ha.
  - intros a s t cl d. rewrite (reverse_Permutation (active st)), lookup_fmap, Hmem'. intros Ha.
    destruct (decide (a ∈ active st)) as [Ha'|Ha'].
    + by intros [= <- _ _ _].
    + apply elem_of_app in Ha as [?|Ha]; [done|]. rewrite <- lookup_fmap. by apply Hfree.
Qed.

Lemma reset_spec st o :
  avc_wf st →
  ∃ rc st', avc_reset st o = Ret (rc, st') o ∧
    (if avc_running st then flushed st st' else rc = 0%Z ∧ avc_same st st').
Proof.
  intros Hwf. unfold avc_reset. cbn [avc_running set_errno]. destruct (avc_running st) eqn:Hrun; cbn [negb].
  2: { eexists _, _. split; [done|]. split; [done|]. apply errno_same. }
  pose proof (wf_count st Hwf) as Hcount. rewrite length_app in Hcount. pose proof (aw_small _ Hwf) as Hsmall.
  pose proof (aw_active _ Hwf) as Hact.
  rewrite bind_run, reset_slots_concat. cbn [nodes avc_node_freelist cache set_errno]. fold (active st).
  destruct (reset_chain_run (nodes st) (avc_node_freelist st) (active_nodes (cache st)) (active st) o) as (mem' & -> & Hmem');
    [by apply wf_nodes|lia|lia|].
  destruct (reset_callbacks _ _ _) as [rc es]. eexists _, _. split; [done|].
  destruct (flush_wf st mem' Hwf Hmem') as [Hdom Hw'].
  assert (size mem' = size (nodes st)) as Hsize by (by rewrite <- !size_dom, Hdom).
  set (st' := set_errno _ _). assert (active st' = []) as Hnil by apply concat_empty.
  split; try done. split; [exact Hw'|done| |unfold st'; cbn; by rewrite Hsize|apply Hwf].
  rewrite Hnil. change (active_nodes (cache st')) with (active_nodes (cache st) - N.of_nat (length (active st))).
  cbn [length]. lia.
Qed.

(** * The operations keep a promise about the entries *)

(** What the entries of the cache are promised to satisfy, in enforcing mode or
    not: it does not get lost when SIDs are added or when enforcing ends, it
    allows the grants of permissive mode and of permissive domains, and the
    answers of the kernel satisfy it if they are not older than [floor]. *)
Class EntryPromise (k : kernel) (m : mapping_state) (floor : N)
    (good : bool → sidtab → N → N → N → av_decision → Prop) : Prop := {
  ep_sids b s s' x y z d : sids_kept s s' → good b s x y z d → good b s' x y z d;
  ep_relax s x y z d : good true s x y z d → good false s x y z d;
  ep_grant b s x y z d r :
    good b s x y z d → b = false ∨ truth (N.land (flags d) SELINUX_AVD_FLAGS_PERMISSIVE) = true →
    good b s x y z (set_allowed d (N.lor (allowed d) r));
  ep_answer b s x y z sc tc r e o d e' o' :
    sidtab_wf s → sid_for s x sc → sid_for s y tc →
    security_compute_av_flags_raw k m sc tc z r zero_decision e o = Ret (0%Z, d, e') o' →
    floor ≤ seqno d → good b s x y z d }.

(** A reference is NULL or the address of a node. *)
Definition ref_ok (st : avc) (aeref : option N) : Prop := ∀ a, aeref = Some a → is_Some (nodes st !! a).

(** What every operation keeps: the nodes, the SIDs and their contexts. *)
Definition avc_next (st st' : avc) : Prop :=
  dom (nodes st') = dom (nodes st) ∧ sids_kept (avc_sidtab st) (avc_sidtab st').

#[global] Instance avc_next_preorder : PreOrder avc_next.
Proof.
  split; [intros st; split; [done|by intros ? ?]|]. intros a b c [H1 H2] [H3 H4]. split; [congruence|]. intros sid ctx H. auto.
Qed.

Lemma ref_next st st' r : avc_next st st' → ref_ok st r → ref_ok st' r.
Proof. intros [Hd _] Hr a Ha. apply elem_of_dom. rewrite Hd. apply elem_of_dom. auto. Qed.

Lemma same_next st st' : avc_same st st' → avc_next st st'.
Proof. intros [_ _ _ _ Hc _ Hs _ _]. split; [symmetry; by apply same_cores_dom|]. rewrite Hs. by intros ? ?. Qed.

(** Operations that only add or change entries of the cache. *)
Record quiet (st st' : avc) : Prop := {
  qt_dom : dom (nodes st') = dom (nodes st);
  qt_sids : avc_sidtab st' = avc_sidtab st;
  qt_enforcing : avc_enforcing st' = avc_enforcing st;
  qt_notif : latest_notif (cache st') = latest_notif (cache st) }.

#[global] Instance quiet_trans : Transitive quiet.
Proof. intros a b c [] []. split; congruence. Qed.

Lemma same_quiet st st' : avc_same st st' → quiet st st'.
Proof. intros [_ _ _ Hn Hc _ Hs He _]. split; [symmetry; by apply same_cores_dom|done..]. Qed.

Lemma quiet_next st st' : quiet st st' → avc_next st st'.
Proof. intros [Hd Hs _ _]. split; [done|]. rewrite Hs. by intros ? ?. Qed.

Section promise.
Context (new_addr : list N → N) (k : kernel) (m : mapping_state) (nl : netlink_callbacks).
Context (floor : N) (good : bool → sidtab → N → N → N → av_decision → Prop) `{!EntryPromise k m floor good}.
Context (Hm : mappings_wf m).

Record avc_inv (st : avc) : Prop := {
  ai_wf : avc_wf st;
  ai_running : avc_running st = true;
  ai_floor : floor ≤ latest_notif (cache st);
  ai_entries : entries (good (avc_enforcing st) (avc_sidtab st)) st }.

Lemma inv_same st st' : avc_same st st' → avc_inv st → avc_inv st'.
Proof.
  intros Hs [Hw Hr Hf He]. pose proof (avc_same_wf _ _ Hs Hw) as Hw'. pose proof (avc_same_entries _ _ _ Hs He) as He'.
  destruct Hs as [_ _ _ Hn _ _ Hsid Henf Hrun]. split; [done|congruence|by rewrite Hn|by rewrite Henf, Hsid].
Qed.

Lemma note_seqno_wf st n : avc_wf st → avc_wf (note_seqno st n).
Proof. intros [Hw H1 H2 H3 H4]. unfold note_seqno. by destruct (_ <? _). Qed.

Lemma note_seqno_same st n :
  nodes (note_seqno st n) = nodes st ∧ active (note_seqno st n) = active st ∧
  avc_sidtab (note_seqno st n) = avc_sidtab st ∧ avc_enforcing (note_seqno st n) = avc_enforcing st ∧
  avc_running (note_seqno st n) = avc_running st ∧ N.max (latest_notif (cache st)) n = latest_notif (cache (note_seqno st n)).
Proof. unfold note_seqno. destruct (N.ltb_spec (latest_notif (cache st)) n); cbn; split_and!; try done; lia. Qed.

(** After a flush with a sequence number nothing is cached and no older answer
    will be. *)
Lemma ss_reset_spec st n o :
  avc_wf st → avc_running st = true →
  ∃ rc st', avc_ss_reset st n o = Ret (rc, st') o ∧ avc_wf st' ∧ active st' = [] ∧ avc_next st st' ∧
    avc_running st' = true ∧ avc_enforcing st' = avc_enforcing st ∧ latest_notif (cache st') = N.max (latest_notif (cache st)) n.
Proof.
  intros Hw Hr. unfold avc_ss_reset. destruct (reset_spec st o Hw) as (rc & st1 & H1 & Hfl). rewrite Hr in Hfl.
  destruct Hfl as [Hw1 Hact Hn Hs He Hrun Hd]. rewrite bind_run, H1. eexists _, _. split; [done|].
  destruct (note_seqno_same st1 n) as (E1 & E2 & E3 & E4 & E5 & E6).
  split_and!; [by apply note_seqno_wf|by rewrite E2| |congruence|congruence|congruence].
  split; [by rewrite E1|rewrite E3, Hs; by intros ? ?].
Qed.

Lemma ss_reset_inv st n o :
  avc_wf st → avc_running st = true → floor ≤ latest_notif (cache st) ∨ floor ≤ n →
  ∃ rc st', avc_ss_reset st n o = Ret (rc, st') o ∧ avc_inv st' ∧ avc_next st st'.
Proof.
  intros Hw Hr Hfl. destruct (ss_reset_spec st n o Hw Hr) as (rc & st' & H1 & Hw' & Hact & Hnext & Hrun & _ & Hn).
  eexists _, _. split; [done|]. split; [|done]. split; [done|done|rewrite Hn; lia|].
  intros a s t cl d. rewrite Hact. by intros ?%elem_of_nil.
Qed.

(** ** Messages *)

Lemma netlink_process_inv st msg o :
  avc_inv st → ∃ rc st', avc_netlink_process nl st msg o = Ret (rc, st') o ∧ avc_inv st' ∧ avc_next st st'.
Proof.
  intros Hinv. pose proof Hinv as [Hw Hr Hf He]. destruct msg as [err|val|n|ty]; cbn [avc_netlink_process].
  - destruct (err =? 0)%Z; eexists _, _; (split; [done|]); [by split|].
    split; [by eapply inv_same; [apply errno_same|]|apply same_next, errno_same].
  - destruct (avc_setenforce st); [eexists _, _; split; [done|]; by split|].
    set (st1 := set_enforcing st (negb (val =? 0)%Z)).
    assert (avc_wf st1) as Hw1 by (by destruct Hw).
    destruct (val =? 0)%Z eqn:Hv.
    + change (avc_enforcing st1) with (negb true). cbn [negb]. rewrite bind_run. unfold mret at 1, M_ret at 1.
      eexists _, _. split; [done|]. split; [|split; [done|by intros ? ?]]. split; [done|done|done|].
      intros a s t cl d Ha Hc. specialize (He a s t cl d Ha Hc). cbn. destruct (avc_enforcing st); [by apply ep_relax|done].
    + change (avc_enforcing st1) with (negb false). cbn [negb].
      destruct (ss_reset_inv st1 0 o Hw1 Hr (or_introl Hf)) as (rc & st2 & H2 & Hinv2 & Hn2).
      rewrite bind_run, H2. destruct (rc <? 0)%Z; eexists _, _; (split; [done|]; split; [done|exact Hn2]).
  - destruct (ss_reset_inv st n o Hw Hr (or_introl Hf)) as (rc & st2 & H2 & Hinv2 & Hn2).
    rewrite bind_run, H2. destruct (rc <? 0)%Z; eexists _, _; by (split; [done|]; split).
  - eexists _, _. split; [done|]. by split.
Qed.

Lemma check_nb_inv st pending o :
  avc_inv st → ∃ rc st', avc_netlink_check_nb nl st pending o = Ret (rc, st') o ∧ avc_inv st' ∧ avc_next st st'.
Proof.
  assert (∀ st e, avc_inv st → avc_inv (set_errno st e) ∧ avc_next st (set_errno st e)) as Herr.
  { intros st' e H. split; [by eapply inv_same; [apply errno_same|]|apply same_next, errno_same]. }
  revert st. induction pending as [|p pending IH]; intros st Hinv; cbn [avc_netlink_check_nb].
  { eexists _, _. split; [done|]. exact (Herr st EWOULDBLOCK Hinv). }
  destruct (avc_netlink_receive p false _) as [rc e]. set (st1 := set_errno (set_errno st 0) e).
  assert (avc_inv st1 ∧ avc_next st st1) as [Hinv1 Hn1] by exact (Herr st e Hinv).
  destruct (rc <? 0)%Z.
  - destruct (errno st1 =? EWOULDBLOCK)%Z; [eexists _, _; split; [done|]; by split|].
    destruct (_ || _); [|eexists _, _; split; [done|]; by split].
    destruct (IH st1 Hinv1) as (rc' & st' & -> & Hinv' & Hn'). eexists _, _. split; [done|]. split; [done|by etrans].
  - destruct (netlink_process_inv st1 (message p) o Hinv1) as (rc' & st2 & H2 & Hinv2 & Hn2). rewrite bind_run, H2.
    destruct (IH st2 Hinv2) as (rc2 & st' & -> & Hinv' & Hn'). eexists _, _. split; [done|]. split; [done|].
    etrans; [exact Hn1|]. by etrans.
Qed.

(** ** Queries *)

(** [a] is the address of a cached entry for the key. *)
Definition found (st : avc) (a s t cl : N) : Prop :=
  a ∈ active st ∧ ∃ e, nodes st !! a = Some e ∧ core e = (s, t, cl, avd e).

Lemma found_same st st' a s t cl : avc_same st st' → found st a s t cl → found st' a s t cl.
Proof.
  intros [Hsl _ _ _ Hc _ _ _ _] (Ha & e & He & Hk). unfold found, active. rewrite Hsl. split; [done|].
  destruct (same_cores_lookup _ _ _ _ Hc He) as (e' & He' & Hk'). exists e'. split; [done|].
  rewrite Hk', Hk. unfold core in Hk', Hk. congruence.
Qed.

(** A reference that passes the test is a reference to a cached entry. *)
Lemma check_ref_spec st s t cl r aeref o :
  avc_wf st → ref_ok st aeref → s ≠ 0 →
  ∃ st' x, check_ref st s t cl r aeref o = Ret (st', x) o ∧ avc_same st st' ∧ (∀ a, x = Some a → found st' a s t cl).
Proof.
  intros Hw Hr Hs0. destruct aeref as [a|]; cbn [check_ref]; [|by eexists _, _].
  destruct (Hr a eq_refl) as [e He]. rewrite bind_run, He. cbn [deref]. unfold mret at 1, M_ret at 1.
  destruct (_ && has_all _ _) eqn:E.
  2: { eexists _, _. split; [done|]. split; [apply count_same|done]. }
  eexists _, _. split; [done|]. split.
  { etrans; [apply (count_same st incr_entry_hits)|]. by apply set_nodes_same, same_cores_insert with e. }
  intros a' [= <-]. reflect_bools. subst s t cl.
  pose proof (aw_cache _ Hw) as [_ _ Hall _ Hfree].
  assert (cores st !! a = Some (core e)) as Hc by by apply cores_lookup.
  split.
  - assert (a ∈ active st ++ avc_node_freelist st) as [?|Hfr]%elem_of_app by (apply Hall; by rewrite Hc); [done|].
    exfalso. apply Hs0. by eapply Hfree.
  - cbn. exists (set_used e true). by rewrite lookup_insert_eq.
Qed.

(** The query that a check makes, with the answers [o] of the allocator, fails:
    the kernel gives no answer, or one that is older than the last notification;
    or there are no nodes. *)
Definition query_failed (st : avc) (sc tc : string) (cl r : N) (o : oracle) : Prop :=
  size (nodes st) = 0%nat ∨
  ∃ e rc d e' o', security_compute_av_flags_raw k m sc tc cl r zero_decision e o = Ret (rc, d, e') o' ∧
    (rc ≠ 0%Z ∨ seqno d < latest_notif (cache st)).

Lemma sid_nonzero st s sc : avc_wf st → sid_for (avc_sidtab st) s sc → s ≠ 0.
Proof.
  intros Hw (n & Hn & <- & _). pose proof (sw_null _ (aw_sids _ Hw)) as H. rewrite Forall_forall in H. by apply H.
Qed.

Lemma insert_inv st s t cl d sc tc r e o e' o' :
  avc_inv st → sid_for (avc_sidtab st) s sc → sid_for (avc_sidtab st) t tc →
  security_compute_av_flags_raw k m sc tc cl r zero_decision e o = Ret (0%Z, d, e') o' →
  (∃ st' a, avc_insert st s t cl d o' = Ret (0%Z, st', Some a) o' ∧ avc_inv st' ∧ quiet st st' ∧ found st' a s t cl) ∨
  (∃ st', avc_insert st s t cl d o' = Ret ((-1)%Z, st', None) o' ∧ avc_same st st' ∧ query_failed st sc tc cl r o).
Proof.
  intros Hinv Hs Ht Hq. pose proof Hinv as [Hw Hr Hf He]. pose proof (sid_nonzero _ _ _ Hw Hs) as Hs0.
  destruct (avc_insert_spec st s t cl d o' Hw Hs0) as [(st' & a & Hi & Hin)|(st' & Hi & Hsame & Hwhy)].
  - left. exists st', a. split; [done|].
    assert (floor ≤ seqno d) as Hfl.
    { destruct (N.ltb_spec (seqno d) (latest_notif (cache st))) as [Hlt|]; [|lia].
      exfalso. unfold avc_insert in Hi. by rewrite (proj2 (N.ltb_lt _ _)) in Hi. }
    assert (entries (good (avc_enforcing st) (avc_sidtab st)) st') as He'.
    { eapply inserted_entries; [done|done|]. by eapply ep_answer; [apply Hw|..]. }
    destruct Hin as [Hw' Hnode Hact _ Hnot Hsid Henf Hrun Hdom].
    split; [|split; [by split|]].
    + split; [done|congruence|by rewrite Hnot|by rewrite Henf, Hsid].
    + split; [done|]. eexists. split; [done|done].
  - right. exists st'. split; [done|]. split; [done|]. destruct Hwhy as [Hlt|Hz]; [right|by left].
    eexists _, _, _, _, _. split; [done|]. by right.
Qed.

Lemma get_entry_inv st s t cl r aeref sc tc o :
  avc_inv st → sid_for (avc_sidtab st) s sc → sid_for (avc_sidtab st) t tc →
  wp (get_entry k m st s t cl r aeref) o (λ x _, avc_inv x.1 ∧ quiet st x.1 ∧
    match x.2 with
    | inr a => found x.1 a s t cl
    | inl (rc, ref) => (rc = 0%Z ∧ avc_enforcing st = false ∨ rc = (-1)%Z) ∧ ref = aeref ∧ query_failed st sc tc cl r o
    end).
Proof.
  intros Hinv Hs Ht. pose proof (ai_wf _ Hinv) as Hw. unfold get_entry.
  destruct (lookup_spec st s t cl r o Hw) as (rc & st1 & x & H1 & Hsame & Hfound).
  pose proof (inv_same _ _ Hsame Hinv) as Hinv1. pose proof (as_sids _ _ Hsame) as Hsid1.
  wp_step. unfold wp at 1. rewrite H1. destruct x as [a|].
  { wp_step. destruct (Hfound a eq_refl) as (Ha & e & He & Hk & _).
    split; [done|]. split; [by apply same_quiet|]. split; [done|]. by exists e. }
  pose proof (aw_sids _ (ai_wf _ Hinv1)) as Hsw. rewrite Hsid1 in Hsw.
  wp_step. apply wp_deref. exists sc. split; [rewrite Hsid1; by apply sid_lookup_for|].
  wp_step. apply wp_deref. exists tc. split; [rewrite Hsid1; by apply sid_lookup_for|].
  wp_step. pose proof (compute_av_run k m sc tc cl r zero_decision (errno st1) o Hm) as Hq. unfold wp in Hq |- * at 1.
  destruct (security_compute_av_flags_raw k m sc tc cl r zero_decision (errno st1) o) as [[[rc1 d] e1] o1|] eqn:Eq; [|done].
  cbn in Hq. set (st2 := set_errno st1 e1).
  assert (avc_same st st2) as Hs2 by (etrans; [exact Hsame|apply errno_same]).
  assert (rc1 ≠ 0%Z → query_failed st sc tc cl r o) as Hfail.
  { intros Hne. right. eexists _, _, _, _, _. split; [exact Eq|]. by left. }
  destruct Hq as [-> | ->].
  - cbn [negb andb Z.eqb].
    assert (avc_inv st2) as Hinv2 by (by eapply inv_same).
    destruct (insert_inv st2 s t cl d sc tc r (errno st1) o e1 o1 Hinv2) as [H|H]; [by rewrite (as_sids _ _ Hs2)..|done| |].
    + destruct H as (st3 & a & H3 & Hinv3 & Hq3 & Hf3). wp_step. unfold wp at 1. rewrite H3. wp_step.
      split; [done|]. split; [|done]. etrans; [by apply same_quiet|done].
    + destruct H as (st3 & H3 & Hsame3 & Hqf). wp_step. unfold wp at 1. rewrite H3. wp_step.
      assert (avc_same st st3) as Hs3 by (by etrans).
      split; [by eapply inv_same|]. split; [by apply same_quiet|]. split; [by right|]. split; [done|].
      destruct Hqf as [Hz|Hqf]; [left|right].
      * by rewrite <- Hz, (same_cores_size _ _ (as_cores _ _ Hs2)).
      * by rewrite <- (as_notif _ _ Hs2).
  - change (negb (-1 =? 0)%Z) with true. cbn [andb].
    assert (avc_same st (set_errno st2 0)) as Hs3 by (etrans; [exact Hs2|apply errno_same]).
    destruct (_ && _) eqn:E; wp_step;
      (split; [by eapply inv_same|]; split; [by apply same_quiet|]; split; [|split; [done|by apply Hfail]]).
    + left. split; [done|]. apply andb_true_iff in E as [_ E]. apply negb_true_iff in E.
      rewrite <- (as_enforcing _ _ Hs2). done.
    + by right.
Qed.

(** ** Decisions *)

(** Whether a decision grants a request. *)
Definition granted_by (enforcing : bool) (d : av_decision) (r : N) : Prop :=
  (r ≠ 0 ∧ bits_in r (allowed d)) ∨ enforcing = false ∨ truth (N.land (flags d) SELINUX_AVD_FLAGS_PERMISSIVE) = true.

Lemma denied_spec r x : r < 2 ^ 32 → truth (N.land r (lnot32 x)) = false ↔ bits_in r x.
Proof.
  intros Hr. unfold truth. rewrite negb_false_iff, N.eqb_eq, N_eq_0_bits. unfold bits_in. split.
  - intros H j Hj. assert (j < 32) as Hj32.
    { destruct (decide (j < 32)); [done|]. rewrite (testbit_high r 32 j) in Hj by (done || lia). done. }
    specialize (H j). rewrite N.land_spec, Hj, lnot32_testbit in H by done. by destruct (N.testbit x j).
  - intros H j. rewrite N.land_spec. destruct (N.testbit r j) eqn:Hj; [|done].
    assert (j < 32) as Hj32.
    { destruct (decide (j < 32)); [done|]. rewrite (testbit_high r 32 j) in Hj by (done || lia). done. }
    by rewrite lnot32_testbit, H.
Qed.

Lemma active_not_free st a s t cl : avc_inv st → found st a s t cl →
  ∃ e, nodes st !! a = Some e ∧ core e = (s, t, cl, avd e) ∧ good (avc_enforcing st) (avc_sidtab st) s t cl (avd e).
Proof.
  intros Hinv (Ha & e & He & Hk). exists e. split; [done|]. split; [done|].
  apply (ai_entries _ Hinv a s t cl (avd e) Ha). by rewrite (cores_lookup _ _ _ He), Hk.
Qed.

(** Changing the decision of one entry. *)
Lemma set_avd_inv st a e d :
  avc_inv st → nodes st !! a = Some e →
  good (avc_enforcing st) (avc_sidtab st) (ssid e) (tsid e) (tclass e) d →
  avc_inv (set_nodes st (<[a := set_avd e d]> (nodes st))) ∧ quiet st (set_nodes st (<[a := set_avd e d]> (nodes st))).
Proof.
  intros [[[Hsz Hnd Hall Hslot Hfree] Hh Hact Hsm Hsid] Hr Hf He] Hn Hg.
  assert (cores (set_nodes st (<[a := set_avd e d]> (nodes st))) = <[a := (ssid e, tsid e, tclass e, d)]> (cores st)) as Hc
    by (unfold cores; cbn; by rewrite fmap_insert).
  assert (cores st !! a = Some (core e)) as Ha by by apply cores_lookup.
  split; [|split; [cbn; by eapply dom_known|done..]].
  split; [|done|done|].
  - split; [|done|done|cbn; by rewrite (size_known _ _ _ _ Hn)|done]. rewrite Hc. split; [done|done| | |].
    + intros b. rewrite (Hall b). destruct (decide (a = b)) as [->|]; [|by rewrite lookup_insert_ne].
      rewrite lookup_insert_eq, Ha. by split; eexists.
    + intros i c b s t cl d' Hi Hb. destruct (decide (a = b)) as [->|]; [|rewrite lookup_insert_ne by done; by eapply Hslot].
      rewrite lookup_insert_eq. intros [= <- <- <- <-]. by eapply Hslot.
    + intros b s t cl d' Hb. destruct (decide (a = b)) as [->|]; [|rewrite lookup_insert_ne by done; by eapply Hfree].
      rewrite lookup_insert_eq. intros [= <- <- <- <-]. by eapply Hfree.
  - intros b s t cl d' Hb. rewrite Hc. destruct (decide (a = b)) as [->|].
    + rewrite lookup_insert_eq. by intros [= <- <- <- <-].
    + rewrite lookup_insert_ne by done. by apply He.
Qed.

(** The entry that a query uses: the one referred to, or a looked up one. *)
Lemma query_entry_inv st s t cl r aeref sc tc o :
  avc_inv st → ref_ok st aeref → sid_for (avc_sidtab st) s sc → sid_for (avc_sidtab st) t tc →
  wp ('(st, ae) ← check_ref st s t cl r aeref;
      match ae with
      | Some ae => mret (st, inr ae)
      | None => get_entry k m (count st incr_entry_misses) s t cl r aeref
      end) o
    (λ y _, avc_inv y.1 ∧ quiet st y.1 ∧ match y.2 with
      | inr a => found y.1 a s t cl
      | inl (rc, ref) => (rc = 0%Z ∧ avc_enforcing y.1 = false ∨ rc = (-1)%Z) ∧ ref = aeref ∧ query_failed y.1 sc tc cl r o
      end).
Proof.
  intros Hinv Href Hs Ht.
  destruct (check_ref_spec st s t cl r aeref o) as (st3 & x & H3 & Hs3 & Hx);
    [apply Hinv|done|by eapply sid_nonzero; [apply (ai_wf _ Hinv)|]|].
  wp_step. unfold wp at 1. rewrite H3.
  destruct x as [a|]; [wp_step; split; [by eapply inv_same|split; [by apply same_quiet|by apply Hx]]|].
  assert (avc_same st (count st3 incr_entry_misses)) as Hs4 by (etrans; [exact Hs3|apply count_same]).
  eapply wp_mono; [apply (get_entry_inv _ s t cl r aeref sc tc o); [by eapply inv_same|by rewrite (as_sids _ _ Hs4)..]|].
  intros [st4 y] o4 (Hinv4 & Hq4 & Hy). cbn [fst snd] in *. split; [done|].
  split; [etrans; [by apply same_quiet|done]|]. destruct y as [[rc ref]|a]; [|done].
  destruct Hy as (Hrc & -> & Hqf). rewrite (qt_enforcing _ _ Hq4). split; [done|]. split; [done|].
  destruct Hqf as [Hz|Hqf]; [left|right; by rewrite (qt_notif _ _ Hq4)].
  by rewrite <- size_dom, (qt_dom _ _ Hq4), size_dom.
Qed.

Lemma has_perm_inv st pending s t cl r aeref d0 sc tc o :
  avc_inv st → ref_ok st aeref → r < 2 ^ 32 → sid_for (avc_sidtab st) s sc → sid_for (avc_sidtab st) t tc →
  wp (avc_has_perm_noaudit k m nl st pending s t cl r aeref d0) o (λ x _, let '(rc, st', ref, d) := x in
    avc_inv st' ∧ avc_next st st' ∧ ref_ok st' ref ∧ (rc = 0%Z ∨ rc = (-1)%Z) ∧
    (good (avc_enforcing st') (avc_sidtab st') s t cl d ∧ (rc = 0%Z ↔ granted_by (avc_enforcing st') d r) ∨
     query_failed st' sc tc cl r o ∧ d = avd_init st d0 ∧ (rc = 0%Z → avc_enforcing st' = false))).
Proof.
  intros Hinv Href Hr Hs Ht. unfold avc_has_perm_noaudit.
  destruct (check_nb_inv st pending o Hinv) as (rc0 & st1 & H1 & Hinv1 & Hn1).
  wp_step. unfold wp at 1. rewrite H1. set (st2 := count st1 incr_entry_lookups).
  assert (avc_same st1 st2) as Hs2 by apply count_same.
  assert (avc_inv st2) as Hinv2 by (by eapply inv_same).
  pose proof (proj2 Hn1 _ _ Hs) as Hsc. pose proof (proj2 Hn1 _ _ Ht) as Htc.
  pose proof (query_entry_inv st2 s t cl r aeref sc tc o Hinv2 (ref_next _ _ _ Hn1 Href) Hsc Htc) as Hget.
  apply wp_bind_inv in Hget. wp_step. eapply wp_mono; [exact Hget|]. clear Hget. intros [st3 x] o3 Hget.
  wp_step. eapply wp_mono; [exact Hget|]. clear Hget. intros [st4 y] o4 (Hinv4 & Hq4 & Hy). cbn [fst snd] in *.
  assert (avc_next st st4) as Hn4 by (etrans; [exact Hn1|exact (quiet_next _ _ Hq4)]).
  destruct y as [[rc ref]|a].
  { destruct Hy as (Hrc & -> & Hqf). wp_step. split; [done|]. split; [done|]. split; [by eapply ref_next|].
    split; [naive_solver|]. right. split; [done|]. split; [done|]. intros ->. by destruct Hrc as [[_ ?]|?]. }
  destruct (active_not_free st4 a s t cl Hinv4 Hy) as (e & He & Hk & Hg).
  assert (ref_ok st4 (Some a)) as Hra by (intros a' [= <-]; by exists e).
  wp_step. apply wp_deref. exists e. split; [done|].
  pose proof (denied_spec r (allowed (avd e)) Hr) as Hden. unfold granted_by.
  destruct ((r =? 0) || truth (N.land r (lnot32 (allowed (avd e))))) eqn:Edeny.
  - assert (¬ (r ≠ 0 ∧ bits_in r (allowed (avd e)))) as Hno.
    { intros [Hr0 Hb%Hden]. rewrite Hb, (proj2 (N.eqb_neq _ _) Hr0) in Edeny. done. }
    destruct (negb (avc_enforcing st4) || _) eqn:Eperm.
    + assert (avc_enforcing st4 = false ∨ truth (N.land (flags (avd e)) SELINUX_AVD_FLAGS_PERMISSIVE) = true) as Hor.
      { apply orb_true_iff in Eperm as [E%negb_true_iff|E]; auto. }
      destruct (set_avd_inv st4 a e (set_allowed (avd e) (N.lor (allowed (avd e)) r)) Hinv4 He) as [Hinv5 Hq5].
      { unfold core in Hk. injection Hk as -> -> ->. by apply ep_grant. }
      wp_step. split; [done|]. split; [etrans; [exact Hn4|by apply quiet_next]|].
      split; [by eapply ref_next; [apply quiet_next|]|]. split; [by left|]. left. split; [done|]. split; [auto|done].
    + apply orb_false_iff in Eperm as [E1%negb_false_iff E2]. wp_step.
      split; [by eapply inv_same; [apply errno_same|]|]. split; [done|]. split; [done|]. split; [by right|].
      left. split; [done|]. split; [done|]. cbn. intros [?|[?|?]]; [done|congruence|congruence].
  - apply orb_false_iff in Edeny as [E1%N.eqb_neq E2%Hden]. wp_step. split; [done|]. split; [done|]. split; [done|].
    split; [by left|]. left. split; [done|]. split; [|done]. intros _. by left.
Qed.
End promise.
