(* ===== verification/AvcSafety.v ===== *)
(** What the userspace cache guarantees: its decisions are those of the kernel,
    decisions of an older policy are not used after a policy was loaded, and a
    full cache does not stop it. *)

From S2P Require Import Prelude Mapping AvcSidtab ComputeAv Avc AvcFacts.
Local Open Scope N_scope.

(** * The other operations *)

Section ops.
Context (new_addr : list N → N) (Hnew : ∀ l, (new_addr l ∉ l) ∧ new_addr l ≠ 0).
Context (k : kernel) (m : mapping_state) (Hm : mappings_wf m).
Context (floor : N) (good : bool → sidtab → N → N → N → av_decision → Prop) `{!EntryPromise k m floor good}.

Lemma set_sidtab_inv st s :
  avc_inv floor good st → sidtab_wf s → sids_kept (avc_sidtab st) s →
  avc_inv floor good (set_sidtab st s) ∧ avc_next st (set_sidtab st s).
Proof.
  intros [[Hw H1 H2 H3 H4] Hr Hf He] Hs Hk. split; [|by split]. split; [done|done|done|].
  intros a x y z d Ha Hc. eapply ep_sids; [exact Hk|]. by apply (He a).
Qed.

Lemma intern_inv st ctx o :
  avc_inv floor good st →
  wp (sidtab_context_to_sid new_addr (avc_sidtab st) ctx) o (λ r _, let '(rc, s, sid) := r in
    avc_inv floor good (set_sidtab st s) ∧ avc_next st (set_sidtab st s) ∧
    (rc = 0%Z ∧ sid_for s sid ctx ∨ rc = (-1)%Z ∧ sid = 0)).
Proof.
  intros Hinv. eapply wp_mono; [apply (avc_context_to_sid_spec new_addr Hnew); apply (aw_sids _ (ai_wf _ _ _ Hinv))|].
  intros [[rc s] sid] o' (_ & Hs & Hk & Hres). destruct (set_sidtab_inv st s Hinv Hs Hk) as [H1 H2].
  split; [done|]. split; [done|]. naive_solver.
Qed.

Lemma context_to_sid_inv st ctx o :
  avc_inv floor good st →
  wp (avc_context_to_sid_raw new_addr st ctx) o (λ r _, let '(rc, st', sid) := r in
    avc_inv floor good st' ∧ avc_next st st' ∧ (rc = 0%Z ∧ sid_for (avc_sidtab st') sid ctx ∨ rc = (-1)%Z ∧ sid = 0)).
Proof.
  intros Hinv. unfold avc_context_to_sid_raw. rewrite (ai_running _ _ _ Hinv). cbn [negb].
  wp_step. eapply wp_mono; [by apply intern_inv|]. intros [[rc s] sid] o' H. by wp_step.
Qed.

Lemma compute_member_inv st s t cl sc tc o :
  avc_inv floor good st → sid_for (avc_sidtab st) s sc → sid_for (avc_sidtab st) t tc →
  wp (avc_compute_member new_addr k m st s t cl) o (λ r _, avc_inv floor good r.1.2 ∧ avc_next st r.1.2).
Proof.
  intros Hinv Hs Ht. unfold avc_compute_member. rewrite (ai_running _ _ _ Hinv). cbn [negb].
  pose proof (aw_sids _ (ai_wf _ _ _ Hinv)) as Hsw.
  wp_step. apply wp_deref. exists sc. split; [by apply sid_lookup_for|].
  wp_step. apply wp_deref. exists tc. split; [by apply sid_lookup_for|].
  destruct (label_query_run k m sc tc cl (errno st) o Hm) as [_ Hq].
  wp_step. eapply wp_mono; [exact Hq|]. intros [[rc ctx] e] o1 _.
  pose proof (inv_same _ _ _ _ (errno_same st e) Hinv) as Hinv1.
  destruct ctx as [ctx|]; [|wp_step; split; [done|apply same_next, errno_same]].
  wp_step. eapply wp_mono; [by apply (intern_inv (set_errno st e))|]. intros [[rc' s'] sid] o2 (H1 & H2 & _).
  wp_step. split; [done|]. exact H2.
Qed.

(** The label of a new object does not matter for decisions. *)
Lemma set_create_same st a e sid :
  nodes st !! a = Some e → avc_same st (set_nodes st (<[a := set_create_sid e sid]> (nodes st))).
Proof. intros He. by apply set_nodes_same, same_cores_insert with e. Qed.

Lemma create_entry_inv st s t cl sc tc o :
  avc_inv floor good st → sid_for (avc_sidtab st) s sc → sid_for (avc_sidtab st) t tc →
  wp ('(rc, st, node) ← avc_lookup st s t cl 0;
      match node with
      | Some node => mret (st, inr node)
      | None =>
          scon ← deref (sid_lookup (avc_sidtab st) s);
          tcon ← deref (sid_lookup (avc_sidtab st) t);
          '(rc, d, e) ← security_compute_av_flags_raw k m scon tcon cl 0 zero_decision (errno st);
          let st := set_errno st e in
          if negb (rc =? 0)%Z then mret (st, inl rc) else
          '(rc, st, node) ← avc_insert st s t cl d;
          mret (st, match node with None => inl rc | Some node => inr node end)
      end) o (λ r _, avc_inv floor good r.1 ∧ quiet st r.1 ∧ ∀ a, r.2 = inr a → is_Some (nodes r.1 !! a)).
Proof.
  intros Hinv Hs Ht. destruct (lookup_spec st s t cl 0 o (ai_wf _ _ _ Hinv)) as (rc & st1 & x & H1 & Hsame & Hx).
  pose proof (inv_same _ _ _ _ Hsame Hinv) as Hinv1. pose proof (as_sids _ _ Hsame) as Hsid.
  wp_step. unfold wp at 1. rewrite H1. destruct x as [a|].
  { wp_step. destruct (Hx a eq_refl) as (_ & e & He & _). split; [done|]. split; [by apply same_quiet|].
    intros a' [= <-]. by exists e. }
  pose proof (aw_sids _ (ai_wf _ _ _ Hinv1)) as Hsw. rewrite Hsid in Hsw.
  wp_step. apply wp_deref. exists sc. split; [rewrite Hsid; by apply sid_lookup_for|].
  wp_step. apply wp_deref. exists tc. split; [rewrite Hsid; by apply sid_lookup_for|].
  wp_step. pose proof (compute_av_run k m sc tc cl 0 zero_decision (errno st1) o Hm) as Hq. unfold wp in Hq |- * at 1.
  destruct (security_compute_av_flags_raw k m sc tc cl 0 zero_decision (errno st1) o) as [[[rc1 d] e1] o1|] eqn:Eq; [|done].
  cbn in Hq. set (st2 := set_errno st1 e1).
  assert (avc_same st st2) as Hs2 by (etrans; [exact Hsame|apply errno_same]).
  pose proof (inv_same _ _ _ _ Hs2 Hinv) as Hinv2.
  destruct Hq as [-> | ->].
  2: { change (negb (-1 =? 0)%Z) with true. cbv iota. wp_step. split; [done|]. by split; [apply same_quiet|]. }
  change (negb (0 =? 0)%Z) with false. cbv iota.
  destruct (insert_inv k m floor good st2 s t cl d sc tc 0 (errno st1) o e1 o1 Hinv2) as [H|H];
    [by rewrite (as_sids _ _ Hs2)..|done| |].
  - destruct H as (st3 & a & H3 & Hinv3 & Hq3 & _ & e & He & _). wp_step. unfold wp at 1. rewrite H3. wp_step.
    split; [done|]. split; [etrans; [by apply same_quiet|done]|]. intros a' [= <-]. by exists e.
  - destruct H as (st3 & H3 & Hs3 & _). wp_step. unfold wp at 1. rewrite H3. wp_step.
    split; [by eapply inv_same|]. split; [|done]. apply same_quiet. by etrans.
Qed.

Lemma compute_create_inv st s t cl sc tc o :
  avc_inv floor good st → sid_for (avc_sidtab st) s sc → sid_for (avc_sidtab st) t tc →
  wp (avc_compute_create new_addr k m st s t cl) o (λ r _, avc_inv floor good r.1.2 ∧ avc_next st r.1.2).
Proof.
  intros Hinv Hs Ht. unfold avc_compute_create.
  pose proof (create_entry_inv st s t cl sc tc o Hinv Hs Ht) as Hget. apply wp_bind_inv in Hget.
  wp_step. eapply wp_mono; [exact Hget|]. clear Hget. intros [[rc0 st0] node] o0 Hget.
  wp_step. eapply wp_mono; [exact Hget|]. clear Hget. intros [st1 r] o1 (Hinv1 & Hq1 & Hr). cbn [fst snd] in *.
  pose proof (quiet_next _ _ Hq1) as Hn1. destruct r as [rc|a]; [by wp_step|].
  destruct (Hr a eq_refl) as [e He]. wp_step. apply wp_deref. exists e. split; [done|].
  destruct (create_sid e =? 0); [|by wp_step].
  pose proof (aw_sids _ (ai_wf _ _ _ Hinv1)) as Hsw. rewrite (qt_sids _ _ Hq1) in *.
  wp_step. apply wp_deref. exists sc. split; [by apply sid_lookup_for|].
  wp_step. apply wp_deref. exists tc. split; [by apply sid_lookup_for|].
  destruct (label_query_run k m sc tc cl (errno st1) o1 Hm) as [Hq _].
  wp_step. eapply wp_mono; [exact Hq|]. intros [[rc ctx] e'] o2 _.
  pose proof (inv_same _ _ _ _ (errno_same st1 e') Hinv1) as Hinv2.
  destruct ctx as [ctx|]; [|wp_step; split; [done|etrans; [exact Hn1|apply same_next, errno_same]]].
  wp_step. eapply wp_mono; [by apply (intern_inv (set_errno st1 e'))|]. intros [[rc' s'] sid] o3 (H1 & H2 & _).
  destruct (negb (rc' =? 0)%Z); wp_step; cbn [fst snd].
  - split; [done|]. etrans; [exact Hn1|exact H2].
  - pose proof (set_create_same (set_sidtab (set_errno st1 e') s') a e sid He) as Hs3.
    split; [by eapply inv_same; [exact Hs3|]|]. etrans; [exact Hn1|]. etrans; [exact H2|]. by apply same_next.
Qed.
End ops.

(** * Executions *)

(** The operations of an object manager, with a kernel that satisfies [K] at
    the time of each; every oracle is allowed. *)
Inductive avc_step (new_addr : list N → N) (m : mapping_state) (nl : netlink_callbacks) (K : kernel → Prop)
    : avc → avc → Prop :=
  | step_check st pending o rc st' o' :
      avc_netlink_check_nb nl st pending o = Ret (rc, st') o' → avc_step new_addr m nl K st st'
  | step_has_perm k st pending s t cl r ref d0 sc tc o rc st' ref' d o' :
      K k → ref_ok st ref → r < 2 ^ 32 → sid_for (avc_sidtab st) s sc → sid_for (avc_sidtab st) t tc →
      avc_has_perm_noaudit k m nl st pending s t cl r ref d0 o = Ret (rc, st', ref', d) o' → avc_step new_addr m nl K st st'
  | step_create k st s t cl sc tc o rc st' sid o' :
      K k → sid_for (avc_sidtab st) s sc → sid_for (avc_sidtab st) t tc →
      avc_compute_create new_addr k m st s t cl o = Ret (rc, st', sid) o' → avc_step new_addr m nl K st st'
  | step_member k st s t cl sc tc o rc st' sid o' :
      K k → sid_for (avc_sidtab st) s sc → sid_for (avc_sidtab st) t tc →
      avc_compute_member new_addr k m st s t cl o = Ret (rc, st', sid) o' → avc_step new_addr m nl K st st'
  | step_context st ctx o rc st' sid o' :
      avc_context_to_sid_raw new_addr st ctx o = Ret (rc, st', sid) o' → avc_step new_addr m nl K st st'
  | step_reset st o rc st' o' : avc_reset st o = Ret (rc, st') o' → avc_step new_addr m nl K st st'
  | step_callback st c o rc st' o' : avc_add_callback st c o = Ret (rc, st') o' → avc_step new_addr m nl K st st'.

Section steps.
Context (new_addr : list N → N) (Hnew : ∀ l, (new_addr l ∉ l) ∧ new_addr l ≠ 0).
Context (m : mapping_state) (Hm : mappings_wf m) (nl : netlink_callbacks) (K : kernel → Prop).
Context (floor : N) (good : bool → sidtab → N → N → N → av_decision → Prop).
Context (Hpromise : ∀ k, K k → EntryPromise k m floor good) (k0 : kernel) (Hk0 : K k0).

Lemma wp_ret_inv {A} (c : M A) o Q a o' : wp c o Q → c o = Ret a o' → Q a o'.
Proof. unfold wp. intros H He. by rewrite He in H. Qed.

Lemma step_inv st st' : avc_step new_addr m nl K st st' → avc_inv floor good st → avc_inv floor good st' ∧ avc_next st st'.
Proof.
  pose proof (Hpromise k0 Hk0) as Hp0.
  destruct 1 as [st pending o rc st' o' H|k st pending s t cl r ref d0 sc tc o rc st' ref' d o' Hk Href Hr Hs Ht H
    |k st s t cl sc tc o rc st' sid o' Hk Hs Ht H|k st s t cl sc tc o rc st' sid o' Hk Hs Ht H|st ctx o rc st' sid o' H
    |st o rc st' o' H|st c o rc st' o' H]; intros Hinv.
  - destruct (check_nb_inv k0 m nl floor good st pending o Hinv) as (rc1 & st1 & H1 & ? & ?).
    rewrite H1 in H. by injection H as <- <- <-.
  - pose proof (Hpromise k Hk).
    eapply wp_ret_inv in H; [|by apply (has_perm_inv k m nl floor good Hm st pending s t cl r ref d0 sc tc o)].
    by destruct H as (? & ? & _).
  - pose proof (Hpromise k Hk).
    eapply wp_ret_inv in H; [|by apply (compute_create_inv new_addr Hnew k m Hm floor good st s t cl sc tc o)]. done.
  - pose proof (Hpromise k Hk).
    eapply wp_ret_inv in H; [|by apply (compute_member_inv new_addr Hnew k m Hm floor good st s t cl sc tc o)]. done.
  - eapply wp_ret_inv in H; [|by apply (context_to_sid_inv new_addr Hnew k0 m floor good st ctx o)]. naive_solver.
  - destruct (reset_spec st o (ai_wf _ _ _ Hinv)) as (rc1 & st1 & H1 & Hfl). rewrite H1 in H. injection H as <- <- <-.
    rewrite (ai_running _ _ _ Hinv) in Hfl. destruct Hfl as [Hw Hact Hn Hs He Hrun Hd]. split.
    + split; [done|by rewrite Hrun, (ai_running _ _ _ Hinv)|rewrite Hn; apply Hinv|].
      intros a x y z d. rewrite Hact. by intros ?%elem_of_nil.
    + split; [done|]. rewrite Hs. by intros ? ?.
  - unfold avc_add_callback, mbind, M_bind in H. destruct (malloc o) as [[] o1|]; [..|done]; injection H as <- <- <-.
    + destruct Hinv as [[Hw H1 H2 H3 H4] Hr Hf He]. split; [split; [by split|done|done|done]|]. split; [done|by intros ? ?].
    + split; [done|reflexivity].
Qed.

Lemma steps_inv st st' :
  rtc (avc_step new_addr m nl K) st st' → avc_inv floor good st → avc_inv floor good st' ∧ avc_next st st'.
Proof.
  induction 1 as [st|st1 st2 st3 H12 _ IH]; intros Hinv; [by split|].
  destruct (step_inv _ _ H12 Hinv) as [H2 Hn2]. destruct (IH H2) as [H3 Hn3]. split; [done|by etrans].
Qed.
End steps.

(** ** The start *)

Definition initial_cache : avc_cache := AvcCache (replicate (N.to_nat AVC_CACHE_SLOTS) []) 0 0 0.

Lemma alloc_nodes_spec new_addr n mem free o :
  (∀ l, (new_addr l ∉ l) ∧ new_addr l ≠ 0) →
  NoDup free → (∀ a, a ∈ free ↔ is_Some (mem !! a)) → (∀ a e, mem !! a = Some e → e = avc_clear_avc_entry) →
  wp (alloc_nodes new_addr n mem free) o (λ r _, NoDup r.2 ∧ (∀ a, a ∈ r.2 ↔ is_Some (r.1 !! a)) ∧
    (∀ a e, r.1 !! a = Some e → e = avc_clear_avc_entry) ∧ (size r.1 ≤ size mem + n)%nat).
Proof.
  intros Hnew. revert mem free o. induction n as [|n IH]; intros mem free o Hnd Hall Hclear; cbn [alloc_nodes].
  { wp_step. cbn [fst snd]. split; [done|]. split; [done|]. split; [done|lia]. }
  wp_step. wp_step. intros [] o1 _; cbn [negb]; [|wp_step; cbn [fst snd]; split; [done|]; split; [done|]; split; [done|lia]].
  set (a := new_addr _). assert (mem !! a = None) as Ha.
  { apply eq_None_not_Some. intros [e He]. destruct (Hnew (map_to_list mem).*1) as [Hn _]. apply Hn.
    apply list_elem_of_fmap. exists (a, e). split; [done|by apply elem_of_map_to_list]. }
  eapply wp_mono; [apply IH|].
  - constructor; [|done]. rewrite Hall, Ha. by intros [? ?].
  - intros b. rewrite elem_of_cons, Hall. destruct (decide (a = b)) as [->|Hne].
    + rewrite lookup_insert_eq. split; [by eexists|by left].
    + rewrite lookup_insert_ne by done. naive_solver.
  - intros b e. destruct (decide (a = b)) as [->|Hne]; [rewrite lookup_insert_eq; congruence|].
    rewrite lookup_insert_ne by done. apply Hclear.
  - intros r o2 (H1 & H2 & H3 & H4). split; [done|]. split; [done|]. split; [done|].
    rewrite map_size_insert_None in H4 by done. lia.
Qed.

(** Before the first [avc_init]. *)
Definition uninitialised (st : avc) : Prop :=
  avc_running st = false ∧ nodes st = ∅ ∧ avc_node_freelist st = [].

Lemma init_inv new_addr k good st netlink o :
  (∀ l, (new_addr l ∉ l) ∧ new_addr l ≠ 0) → uninitialised st →
  wp (avc_init new_addr k st netlink) o (λ r _, avc_running r.2 = true → avc_inv 0 good r.2).
Proof.
  intros Hnew (Hrun & Hnodes & Hfree). unfold avc_init. rewrite Hrun.
  wp_step. unfold sidtab_init. wp_step. wp_step. intros [] o1 _; cbn [negb]; wp_step.
  2: { change (negb (-1 =? 0)%Z) with true. cbv iota. wp_step. cbn. congruence. }
  change (negb (0 =? 0)%Z) with false. cbv iota.
  wp_step. wp_step. intros [] o2 _; cbn [negb]; [|wp_step; cbn; congruence].
  cbn [nodes avc_node_freelist set_sidtab set_cache set_stats]. rewrite Hnodes, Hfree.
  wp_step. eapply wp_mono; [apply (alloc_nodes_spec new_addr _ ∅ [] o2 Hnew)|].
  { constructor. } { intros a. rewrite lookup_empty, elem_of_nil. split; [done|by intros [? ?]]. }
  { intros a e. by rewrite lookup_empty. }
  intros [mem free] o3 (Hnd & Hall & Hclear & Hsize). cbn [fst snd] in *.
  set (st1 := set_nodes _ mem). destruct (if negb (avc_setenforce st1) then _ else _) as [rc st2] eqn:E2.
  assert (avc_same st1 st2) as Hs2.
  { destruct (negb (avc_setenforce st1)); [|by injection E2 as _ <-]. destruct (security_getenforce k (errno st1)).
    injection E2 as _ <-. apply errno_same. }
  assert (avc_running st2 = false) as Hrun2 by (by rewrite (as_running _ _ Hs2)).
  destruct (rc <? 0)%Z; [wp_step; cbn; congruence|]. set (st3 := if negb (avc_setenforce st2) then _ else st2).
  destruct netlink as [rc' e]. destruct (rc' <? 0)%Z; wp_step; cbn [fst snd]; intros Hr.
  { assert (avc_running st3 = avc_running st2) as Hr3 by (unfold st3; by destruct (negb (avc_setenforce st2))).
    change (avc_running st3 = true) in Hr. congruence. }
  assert (avc_wf st1) as Hw1.
  { assert (active st1 = []) as Hnil by (by apply concat_empty). split; [split|done|by rewrite Hnil| |].
    - apply (length_replicate (N.to_nat AVC_CACHE_SLOTS) (@nil N)).
    - change (NoDup (active st1 ++ free)). by rewrite Hnil.
    - intros a. change (a ∈ active st1 ++ free ↔ is_Some ((core <$> mem) !! a)).
      by rewrite Hnil, lookup_fmap, fmap_is_Some.
    - intros i c a s t cl d Hi Ha. change (replicate (N.to_nat AVC_CACHE_SLOTS) (@nil N) !! i = Some c) in Hi.
      apply lookup_replicate in Hi as [-> _]. by apply elem_of_nil in Ha.
    - intros a s t cl d _ Hc. change ((core <$> mem) !! a = Some (s, t, cl, d)) in Hc. rewrite lookup_fmap in Hc.
      apply fmap_Some in Hc as (e' & ->%Hclear & Hc). by injection Hc as -> _ _ _.
    - change (nodes st1) with mem. rewrite map_size_empty in Hsize. unfold AVC_CACHE_MAXNODES in Hsize. lia.
    - apply ex_sids_wf. }
  pose proof (avc_same_wf _ _ Hs2 Hw1) as Hw2.
  assert (avc_wf (set_running st3 true)) as Hw3 by (unfold st3; destruct (negb (avc_setenforce st2)); by destruct Hw2).
  split; [done|done|lia|]. intros a s t cl d Ha. exfalso.
  assert (active (set_running st3 true) = active st2) as Heq by (unfold st3; by destruct (negb (avc_setenforce st2))).
  rewrite Heq in Ha. unfold active in Ha. rewrite (as_slots _ _ Hs2) in Ha.
  change (slots (cache st1)) with (replicate (N.to_nat AVC_CACHE_SLOTS) (@nil N)) in Ha.
  rewrite concat_empty in Ha. by apply elem_of_nil in Ha.
Qed.

(** * Agreement with the kernel *)

(** The promise of the security server: which permissions its decision allows
    depends on the contexts and the class alone, and so does whether the
    source is a permissive domain. *)
Class SecurityServer (k : kernel) (m : mapping_state) (policy : string → string → N → N)
    (permissive : string → string → N → bool) : Prop :=
  ss_answer sc tc cl r e o d e' o' :
    security_compute_av_flags_raw k m sc tc cl r zero_decision e o = Ret (0%Z, d, e') o' →
    allowed d = policy sc tc cl ∧
    truth (N.land (flags d) SELINUX_AVD_FLAGS_PERMISSIVE) = permissive sc tc cl.

(** An entry agrees with the policy, apart from what was granted to a permissive
    domain or in permissive mode. *)
Definition agrees (policy : string → string → N → N) (permissive : string → string → N → bool)
    (enforcing : bool) (s : sidtab) (x y z : N) (d : av_decision) : Prop :=
  ∃ sc tc, sid_for s x sc ∧ sid_for s y tc ∧
    truth (N.land (flags d) SELINUX_AVD_FLAGS_PERMISSIVE) = permissive sc tc z ∧
    (enforcing = true → permissive sc tc z = false → allowed d = policy sc tc z).

#[global] Instance agrees_promise k m policy permissive :
  SecurityServer k m policy permissive → EntryPromise k m 0 (agrees policy permissive).
Proof.
  intros Hss. split.
  - intros b s s' x y z d Hk (sc & tc & H1 & H2 & H). exists sc, tc. auto.
  - intros s x y z d (sc & tc & H1 & H2 & H3 & _). by exists sc, tc.
  - intros b s x y z d r (sc & tc & H1 & H2 & H3 & H4) Hor. exists sc, tc. split_and!; try done.
    intros -> Hp. destruct Hor as [?|Hf]; [done|]. congruence.
  - intros b s x y z sc tc r e o d e' o' _ H1 H2 Hq _. destruct (Hss _ _ _ _ _ _ _ _ _ Hq) as [Ha Hf].
    exists sc, tc. by split_and!.
Qed.

(** The policy grants the request. *)
Definition policy_grants (policy : string → string → N → N) (permissive : string → string → N → bool)
    (sc tc : string) (cl r : N) : Prop :=
  permissive sc tc cl = true ∨ (r ≠ 0 ∧ bits_in r (policy sc tc cl)).

(** C6: the cache decides like the kernel.  In every state that an object
    manager reaches from [avc_init] by the operations of [avc_step] (checks,
    contexts and SIDs, computed labels, resets and callbacks, with any netlink
    messages; not [avc_open], and not the [avc_ss] calls for other security
    servers), and with any reference kept from earlier calls, a check in
    enforcing mode succeeds only if the kernel's policy grants the request; and
    it fails only if the policy denies it, or the query that this very check
    made of the kernel failed. *)
Theorem avc_decides_like_kernel new_addr k m nl policy permissive st0 netlink o0 rc0 st1 o1 st
    pending s t cl r ref d0 sc tc o :
  (∀ l, (new_addr l ∉ l) ∧ new_addr l ≠ 0) → mappings_wf m → SecurityServer k m policy permissive →
  uninitialised st0 → avc_init new_addr k st0 netlink o0 = Ret (rc0, st1) o1 → avc_running st1 = true →
  rtc (avc_step new_addr m nl (eq k)) st1 st →
  ref_ok st ref → r < 2 ^ 32 → sid_for (avc_sidtab st) s sc → sid_for (avc_sidtab st) t tc →
  wp (avc_has_perm_noaudit k m nl st pending s t cl r ref d0) o (λ x _, let '(rc, st', _, _) := x in
    (avc_enforcing st' = true → rc = 0%Z → policy_grants policy permissive sc tc cl r) ∧
    (rc ≠ 0%Z → ¬ policy_grants policy permissive sc tc cl r ∨ query_failed k m st' sc tc cl r o)).
Proof.
  intros Hnew Hm Hss Hun Hinit Hrun Hsteps Href Hr Hs Ht.
  pose proof (agrees_promise k m policy permissive Hss) as Hp.
  eapply wp_ret_inv in Hinit; [|by apply (init_inv new_addr k (agrees policy permissive))]. specialize (Hinit Hrun).
  destruct (steps_inv new_addr Hnew m Hm nl (eq k) 0 (agrees policy permissive) ltac:(by intros ? <-) k eq_refl _ _ Hsteps Hinit)
    as [Hinv _].
  eapply wp_mono; [by apply (has_perm_inv k m nl 0 (agrees policy permissive) Hm st pending s t cl r ref d0 sc tc o)|].
  intros [[[rc st'] ref'] d] o' (Hinv' & Hnext & _ & Hrc & [[Hg Hiff]|(Hqf & _ & Hrc0)]).
  - destruct Hg as (sc' & tc' & Hs' & Ht' & Hf & Ha).
    pose proof (aw_sids _ (ai_wf _ _ _ Hinv')) as Hsw.
    assert (sc' = sc) as -> by (by eapply (sid_for_inj (avc_sidtab st')); [|exact Hs'|apply Hnext|]).
    assert (tc' = tc) as -> by (by eapply (sid_for_inj (avc_sidtab st')); [|exact Ht'|apply Hnext|]).
    unfold policy_grants, granted_by in *. rewrite Hf in Hiff.
    destruct (permissive sc tc cl) eqn:Hperm; [split; [by left|intros Hne; exfalso; apply Hne, Hiff; auto]|].
    split.
    + intros Henf Hrc'. right. rewrite <- (Ha Henf eq_refl). apply Hiff in Hrc' as [?|[?|?]]; [done|congruence|done].
    + intros Hne. left. intros [?|Hg]; [done|]. destruct (avc_enforcing st') eqn:Henf; [|by apply Hne, Hiff; auto].
      apply Hne, Hiff. left. by rewrite (Ha eq_refl eq_refl).
  - split; [intros Henf ->; specialize (Hrc0 eq_refl); congruence|]. by right.
Qed.

(** * Freshness *)

(** An answer that is not older than the policy [n]. *)
Definition not_older (n : N) (enforcing : bool) (s : sidtab) (x y z : N) (d : av_decision) : Prop := n ≤ seqno d.

#[global] Instance not_older_promise k m n : EntryPromise k m n (not_older n).
Proof. unfold not_older. by split. Qed.

(** C8: no stale decisions.  After the notification that the policy with
    sequence number [n] was loaded, whatever the object manager does by
    [avc_step] and whatever the kernel answers, no check returns a decision
    with a smaller sequence number.  The verdict is what the decision returned
    says; or the query that the check made failed, and then the decision allows
    nothing and the check succeeds in permissive mode only. *)
Theorem avc_no_stale_decision new_addr k m nl st n o0 rc0 st1 o1 st2 pending s t cl r ref d0 sc tc o :
  (∀ l, (new_addr l ∉ l) ∧ new_addr l ≠ 0) → mappings_wf m → avc_wf st → avc_running st = true →
  avc_netlink_process nl st (SELNL_MSG_POLICYLOAD n) o0 = Ret (rc0, st1) o1 →
  rtc (avc_step new_addr m nl (λ _, True)) st1 st2 →
  ref_ok st2 ref → r < 2 ^ 32 → sid_for (avc_sidtab st2) s sc → sid_for (avc_sidtab st2) t tc →
  wp (avc_has_perm_noaudit k m nl st2 pending s t cl r ref d0) o (λ x _, let '(rc, st', _, d) := x in
    n ≤ seqno d ∧
    ((rc = 0%Z ↔ granted_by (avc_enforcing st') d r) ∨
     query_failed k m st' sc tc cl r o ∧ allowed d = 0 ∧ (rc = 0%Z → avc_enforcing st' = false))).
Proof.
  intros Hnew Hm Hw Hrun Hload Hsteps Href Hr Hs Ht.
  assert (avc_inv n (not_older n) st1) as Hinv1.
  { destruct (ss_reset_inv n (not_older n) st n o0 Hw Hrun (or_intror (N.le_refl n))) as (rc & st' & H1 & Hinv & _).
    cbn [avc_netlink_process] in Hload. rewrite bind_run, H1 in Hload. destruct (rc <? 0)%Z; by injection Hload as _ <- _. }
  destruct (steps_inv new_addr Hnew m Hm nl (λ _, True) n (not_older n) (λ k _, not_older_promise k m n) k I _ _ Hsteps Hinv1)
    as [Hinv2 _].
  eapply wp_mono; [by apply (has_perm_inv k m nl n (not_older n) Hm st2 pending s t cl r ref d0 sc tc o)|].
  intros [[[rc st'] ref'] d] o' (_ & _ & _ & _ & [[Hg Hiff]|(Hqf & -> & Hrc)]); [split; [done|by left]|].
  split; [apply (ai_floor _ _ _ Hinv2)|right]. by split_and!.
Qed.

(** * Progress *)

(** C40: a full cache does not stop it.  As long as the cache has any node, the
    answer of the kernel (of the current policy) can be stored: the scan for a
    node that was not used recently finds one in its second round at the
    latest, whatever the marks, the key is then found with that answer, and no
    node is lost. *)
Theorem avc_insert_succeeds st s t cl d o :
  avc_wf st → nodes st ≠ ∅ → s ≠ 0 → latest_notif (cache st) ≤ seqno d →
  ∃ st' a st'' n, avc_insert st s t cl d o = Ret (0%Z, st', Some a) o ∧ avc_wf st' ∧
    dom (nodes st') = dom (nodes st) ∧
    avc_search_node st' s t cl o = Ret (st'', Some a, n) o ∧ nodes st'' !! a = Some (AvcEntry s t cl d 0 true).
Proof.
  intros Hw Hne Hs0 Hseq. destruct (avc_insert_spec st s t cl d o Hw Hs0) as [(st' & a & Hi & Hin)|(st' & _ & _ & [Hlt|Hz])].
  - pose proof (insert_head st s t cl d o st' a o Hi) as (c & Hc).
    exists st', a. eexists _, _. split; [done|]. split; [apply Hin|]. split; [apply Hin|].
    pose proof (in_node _ _ _ _ _ _ _ Hin) as Hn. unfold avc_search_node. rewrite bind_run, Hc. cbn [deref].
    unfold mret at 1, M_ret at 1. rewrite bind_run. cbn [search_chain]. rewrite bind_run, Hn. cbn [deref].
    unfold mret at 1, M_ret at 1. cbn [ssid tsid tclass]. rewrite !N.eqb_refl. cbn [negb orb].
    unfold mret at 1, M_ret at 1. rewrite bind_run, Hn. cbn [deref]. split; [done|]. cbn. by rewrite lookup_insert_eq.
  - lia.
  - exfalso. by apply Hne, map_size_empty_inv.
Qed.

(** A netlink packet that another process sent is ignored: receiving it
    leaves the cache, the mode and what is done with the other packets as they
    are. *)
Theorem spoofed_packet_ignored nl st p pending o :
  (0 < poll_rc p)%Z → (0 <= recv_rc p)%Z → nl_pid p ≠ 0 →
  avc_netlink_check_nb nl st (p :: pending) o = avc_netlink_check_nb nl st pending o.
Proof.
  intros Hpoll Hrecv Hpid. cbn [avc_netlink_check_nb]. unfold avc_netlink_receive.
  rewrite (proj2 (Z.eqb_neq _ _)), (proj2 (Z.ltb_ge (poll_rc p) 1)), (proj2 (Z.ltb_ge (recv_rc p) 0)) by lia. cbn [andb].
  rewrite (proj2 (N.eqb_neq _ _) Hpid). cbn [negb].
  assert ((if negb (addr_complete p) then ((-1)%Z, errno (set_errno st 0)) else ((-1)%Z, errno (set_errno st 0)))
    = ((-1)%Z, 0%Z)) as -> by (by destruct (negb _)).
  change (-1 <? 0)%Z with true. cbv iota. change (errno (set_errno (set_errno st 0) 0) =? EWOULDBLOCK)%Z with false.
  change ((errno (set_errno (set_errno st 0) 0) =? 0)%Z || (errno (set_errno (set_errno st 0) 0) =? EINTR)%Z) with true.
  cbv iota. by destruct pending.
Qed.

(** ** Examples *)

Definition ex_nl : netlink_callbacks := NetlinkCallbacks (λ _, 0%Z) (λ _, 0%Z).

(** The kernel allows permission 3 only; its policy has sequence number 1. *)
Definition ex_policy (sc tc : string) (cl : N) : N := 8.

Lemma no_mapping_wf : mappings_wf no_mapping.
Proof. split; [done|constructor]. Qed.

#[global] Instance ex_server : SecurityServer ex_kernel no_mapping ex_policy (λ _ _ _, false).
Proof.
  intros sc tc cl r e o d e' o'. unfold security_compute_av_flags_raw, ex_kernel. cbn [k_mounted negb k_access].
  unfold mbind, M_bind. destruct (malloc o) as [[] o1|]; cbn [negb]; [|by intros [=]|done].
  unfold unmap_class, unmap_perm, map_decision. cbn [current_mapping_size no_mapping].
  rewrite (proj2 (N.ltb_ge cl 0)) by lia. cbn. destruct (cl =? 0); cbn; intros [= <- _ _]; done.
Qed.

(** Before [avc_init]; the allocator has room for two nodes. *)
Definition ex_start : avc :=
  Avc (AvcCache [] 0 0 0) ∅ [] (Sidtab [] 0) [] zero_stats false true false 0.

Definition run_state {A} (r : outcome A) (f : A → avc) : avc :=
  match r with Ret a _ => f a | UB => ex_start end.

Definition ex_avc0 : avc := Eval vm_compute in
  run_state (avc_init ex_new_addr ex_kernel ex_start (0%Z, 0%Z) [true; true; true; true; false]) snd.
Definition ex_avc1 : avc := Eval vm_compute in
  run_state (avc_context_to_sid_raw ex_new_addr ex_avc0 "u:r:s" []) (λ r, r.1.2).
Definition ex_avc2 : avc := Eval vm_compute in
  run_state (avc_context_to_sid_raw ex_new_addr ex_avc1 "u:r:t" []) (λ r, r.1.2).

Lemma ex_init : avc_init ex_new_addr ex_kernel ex_start (0%Z, 0%Z) [true; true; true; true; false] = Ret (0%Z, ex_avc0) [].
Proof. by vm_compute. Qed.

Lemma ex_steps K : rtc (avc_step ex_new_addr no_mapping ex_nl K) ex_avc0 ex_avc2.
Proof.
  apply rtc_l with ex_avc1; [|apply rtc_once].
  - apply (step_context _ _ _ _ ex_avc0 "u:r:s" [] 0%Z ex_avc1 1 []). by vm_compute.
  - apply (step_context _ _ _ _ ex_avc1 "u:r:t" [] 0%Z ex_avc2 2 []). by vm_compute.
Qed.

Lemma ex_sid1 : sid_for (avc_sidtab ex_avc2) 1 "u:r:s".
Proof. exists (SidtabNode 1 "u:r:s" 1). split; [|done]. apply list_elem_of_In. vm_compute. auto. Qed.

Lemma ex_sid2 : sid_for (avc_sidtab ex_avc2) 2 "u:r:t".
Proof. exists (SidtabNode 2 "u:r:t" 1). split; [|done]. apply list_elem_of_In. vm_compute. auto. Qed.

Lemma ex_uninitialised : uninitialised ex_start.
Proof. done. Qed.

(** Permission 3 is granted. *)
Lemma avc_decides_like_kernel_witness :
  wp (avc_has_perm_noaudit ex_kernel no_mapping ex_nl ex_avc2 [] 1 2 7 8 None zero_decision) []
    (λ x _, x.1.1.1 = 0%Z ∧ policy_grants ex_policy (λ _ _ _, false) "u:r:s" "u:r:t" 7 8).
Proof.
  pose proof (avc_decides_like_kernel ex_new_addr ex_kernel no_mapping ex_nl ex_policy (λ _ _ _, false) ex_start (0%Z, 0%Z)
    [true; true; true; true; false] 0%Z ex_avc0 [] ex_avc2 [] 1 2 7 8 None zero_decision "u:r:s" "u:r:t" []
    ex_new_addr_fresh no_mapping_wf ex_server ex_uninitialised ex_init eq_refl (ex_steps _) ltac:(done) ltac:(done)
    ex_sid1 ex_sid2) as H.
  apply (proj1 (wp_run _ _ _)) in H as ([[[rc st'] ref] d] & o' & Hr & Hgrant & _).
  apply wp_run. eexists _, _. split; [exact Hr|]. vm_compute in Hr. injection Hr as <- <- <- <- <-.
  split; [done|]. by apply Hgrant.
Defined.

Lemma ex_avc2_inv good : avc_inv 0 good ex_avc0.
Proof.
  assert (wp (avc_init ex_new_addr ex_kernel ex_start (0%Z, 0%Z)) [true; true; true; true; false]
    (λ r _, avc_running r.2 = true → avc_inv 0 good r.2)) as H by (apply init_inv; [apply ex_new_addr_fresh|done]).
  unfold wp in H. rewrite ex_init in H. by apply H.
Qed.

Definition ex_avc3 : avc := Eval vm_compute in
  run_state (avc_netlink_process ex_nl ex_avc0 (SELNL_MSG_POLICYLOAD 1) []) snd.
Definition ex_avc4 : avc := Eval vm_compute in
  run_state (avc_context_to_sid_raw ex_new_addr ex_avc3 "u:r:s" []) (λ r, r.1.2).

Lemma avc_no_stale_decision_witness :
  wp (avc_has_perm_noaudit ex_kernel no_mapping ex_nl ex_avc4 [] 1 1 7 8 None zero_decision) []
    (λ x _, 1 ≤ seqno x.2).
Proof.
  assert (sid_for (avc_sidtab ex_avc4) 1 "u:r:s") as Hsid.
  { exists (SidtabNode 1 "u:r:s" 1). split; [|done]. apply list_elem_of_In. vm_compute. auto. }
  assert (rtc (avc_step ex_new_addr no_mapping ex_nl (λ _, True)) ex_avc3 ex_avc4) as Hsteps.
  { apply rtc_once, (step_context _ _ _ _ ex_avc3 "u:r:s" [] 0%Z ex_avc4 1 []). by vm_compute. }
  assert (avc_netlink_process ex_nl ex_avc0 (SELNL_MSG_POLICYLOAD 1) [] = Ret (0%Z, ex_avc3) []) as Hload by (by vm_compute).
  eapply wp_mono; [apply (avc_no_stale_decision ex_new_addr ex_kernel no_mapping ex_nl ex_avc0 1 [] 0%Z ex_avc3 [] ex_avc4
    [] 1 1 7 8 None zero_decision "u:r:s" "u:r:s" [] ex_new_addr_fresh no_mapping_wf
    (ai_wf _ _ _ (ex_avc2_inv (λ _ _ _ _ _ _, True))) eq_refl Hload Hsteps ltac:(done) ltac:(done) Hsid Hsid)|].
  intros [[[rc st'] ref] d] o' [H _]. exact H.
Defined.

Lemma avc_insert_succeeds_witness :
  ∃ st' a st'' n, avc_insert ex_avc0 1 2 7 zero_decision [] = Ret (0%Z, st', Some a) [] ∧ avc_wf st' ∧
    dom (nodes st') = dom (nodes ex_avc0) ∧
    avc_search_node st' 1 2 7 [] = Ret (st'', Some a, n) [] ∧ nodes st'' !! a = Some (AvcEntry 1 2 7 zero_decision 0 true).
Proof.
  apply (avc_insert_succeeds ex_avc0 1 2 7 zero_decision []);
    [exact (ai_wf _ _ _ (ex_avc2_inv (λ _ _ _ _ _ _, True)))|done|done|done].
Defined.

Lemma spoofed_packet_ignored_witness :
  avc_netlink_check_nb ex_nl ex_avc0 [Packet 1 0 20 0 true 42 false 20 (SELNL_MSG_SETENFORCE 0)] [] =
  avc_netlink_check_nb ex_nl ex_avc0 [] [].
Proof.
  apply (spoofed_packet_ignored ex_nl ex_avc0 (Packet 1 0 20 0 true 42 false 20 (SELNL_MSG_SETENFORCE 0)) [] []);
    by vm_compute.
Defined.

(** The same state in permissive mode, after a check for permission 0. *)
Definition ex_permissive : avc := Eval vm_compute in
  run_state (avc_has_perm_noaudit ex_kernel no_mapping ex_nl (set_enforcing ex_avc2 false) [] 1 2 7 1 None zero_decision [])
    (λ r, r.1.1.2).
Definition ex_reopened : avc := Eval vm_compute in
  run_state (avc_open ex_new_addr ex_kernel ex_permissive [(AVC_OPT_SETENFORCE, true)] (0%Z, 0%Z) []) snd.

(** Calling [avc_open] with the option to enforce on a running cache switches
    to enforcing mode without flushing what permissive mode granted: a check
    for permission 0, which the policy does not allow, then succeeds. *)
Theorem avc_open_keeps_permissive_grants :
  avc_enforcing ex_reopened = true ∧ avc_running ex_reopened = true ∧
  ∃ st' ref d, avc_has_perm_noaudit ex_kernel no_mapping ex_nl ex_reopened [] 1 2 7 1 None zero_decision [] =
      Ret (0%Z, st', ref, d) [] ∧ avc_enforcing st' = true ∧
    ¬ policy_grants ex_policy (λ _ _ _, false) "u:r:s" "u:r:t" 7 1.
Proof.
  split; [done|]. split; [done|]. eexists _, _, _. split; [by vm_compute|]. split; [done|].
  intros [?|[_ Hb]]; [done|]. specialize (Hb 0 eq_refl). done.
Qed.
